(* ===== verification/_CoqProject ===== *)
-Q . S2P
Prelude.v
BitIO.v
TagTree.v
TagTreeQueries.v
Geometry.v
IncludeTracker.v
Loops.v
PacketIter.v
PacketManager.v
PacketOrder.v
PacketSequence.v
TileSequence.v
TilePart.v
SparseBuffer.v
PLMarker.v
Codeblock.v
PacketHeader.v
PacketLengths.v
PrecinctRoundTrip.v
PacketRoundTrip.v
PacketTracker.v
T2Compress.v
MQCoder.v
MQInterval.v
MQRoundTrip.v
BypassRoundTrip.v
BlockLuts.v
BlockCoder.v
BlockFlags.v
BlockRoundTrip.v
BlockStream.v
BlockLoop.v
BlockRates.v
BlockTheorems.v
Wavelet.v
WaveletLines.v
WaveletExact.v
WaveletNarrow.v
WaveletTile.v
WaveletTheorems.v
Mct.v
Markers.v
MainHeader.v
OtherMarkers.v
MarkerSafety.v
OtherMarkerSafety.v
MarkerQuant.v
MarkerRoundTrip.v
HeaderRoundTrip.v
Progressions.v
