(* ===== verification/Prelude.v ===== *)
(** Verification of the Grok JPEG 2000 codec.

    * The program

    Grok compresses an image into a JPEG 2000 codestream and decompresses it.  The
    image is cut into tiles; a tile's components go through a colour transform, a
    wavelet transform and quantisation; the resulting bands are cut into precincts
    and code blocks (canvas, src/src/lib/core/canvas).  Tier 1 (t1) codes a code
    block bit plane by bit plane with the MQ arithmetic coder into coding passes;
    tier 2 (t2) distributes the passes over quality layers and writes, for every
    layer, resolution, component and precinct, a packet: a header of tag trees,
    pass counts and lengths, and a body of segment bytes.  The packets of a tile
    appear in a progression order and may be split into tile parts; marker segments
    (codestream/markers) announce sizes, coding parameters and packet lengths.  The
    decompressor reads the packets in the same order, appends the bytes to the
    segments of the blocks and decodes these.

    The development models the packet layer on both sides (how the packets are
    enumerated, written, measured, found and read back), the geometry it rests on,
    tier 1 (the arithmetic coder that makes and reads the segment bytes, and the
    block coder that makes the coding passes of a block's coefficients), and the
    reversible sample transforms: the 5/3 wavelet, the colour transform and the level
    shift; and the main header, from the parameters of the compressor to those of the
    decompressor.

    * Conventions

    Integers are [Z] with the wrap-around of the source's type written out ([u8],
    [u16], [u32], [u64], [i32] ..., Prelude.v); vectors are lists; a C++ pointer
    into an object is an index; an exception or a [false] return is a value of a sum
    or a [bool] threaded with the state ([result], [bstep]).  Definitions carry the
    names of the C++ functions.

    * Files

    - Prelude.v: machine integers, results, bits, lists, tactics and hint databases.
    - BitIO.v: t1_t2/BitIO.h, the bit-level reader and writer of packet headers, over
      a stream or over a byte budget.  Shown: what is written is read back, field by
      field; no flushed header contains a marker code; the budget writer counts the
      bytes the stream writer emits.
    - TagTree.v, TagTreeQueries.v: t2/TagTree.h.  Shown: decoding follows encoding
      for any sequence of queries; the fixed arrays of [buildTree] hold for up to
      2^14 leaves a side and overrun at 2^15.
    - Geometry.v: util/intmath.h, util/geometry.h, tile bounds of
      codestream/CodingParams.cpp.  Shown: the tile grid partitions the image.
    - IncludeTracker.v: the lazily allocated bit set of t2/PacketManager.h.  Shown: it
      is a set of packets, over any updates.
    - Loops.v, PacketIter.v: the resumable loop nests of t2/PacketIter.cpp, the
      general ones and those over precomputed precinct data.
    - PacketManager.v: t2/PacketManager.cpp, precinct parameters, progression bounds.
    - PacketOrder.v, PacketSequence.v, TileSequence.v: what the iterators hand out.
      Shown: in every progression order draining the iterator gives every packet of
      the tile once, in the order's sequence, where the steps divide the precinct
      sizes; with the tables the packet manager builds this holds for power-of-two
      subsampling; two theorems exhibit tiles outside that condition whose precincts
      are skipped.
    - TilePart.v: tile-part generation of t2/PacketIter.cpp and the tile-part counts
      of codestream/compress/CodeStreamCompress.cpp.  Shown: the announced number of
      calls enumerates the outer loops exactly once, for loops that start at zero and
      fewer than 256 tile parts; a lemma shows the count fail outside of it.
    - SparseBuffer.v: util/buffer.h, util/SparseBuffer.cpp.  Shown: a chunked buffer
      is a cursor over the concatenation of its chunks.
    - PLMarker.v: codestream/markers/PLMarker.cpp, t2/PacketLengthCache.h and
      [PacketIter::skipPackets].  Shown: lengths written come back; skipping packets
      lands on the packet after them.
    - Codeblock.v: t1/codeblock, passes, layers and segments of a block.
    - PacketHeader.v, PacketLengths.v, PrecinctRoundTrip.v, PacketRoundTrip.v:
      t2/T2Compress.cpp (compressHeader, compressPacket) and t2/PacketParser.cpp.
      Shown: the packets written for the layers of a precinct are parsed back, header
      and body, one after the other, for Part 1 styles and length fields of at most 16
      bits, which is what the parser accepts.
    - PacketTracker.v, T2Compress.v: tile_processor/PacketTracker.h and the packet
      loops of t2/T2Compress.cpp.  Shown: every packet is written once; the simulation
      run by rate control reports the bytes written.
    - MQCoder.v, MQInterval.v, MQRoundTrip.v, BypassRoundTrip.v: the arithmetic coder of
      t1/part1/block_coder/mqcoder, in both roles.  Shown: whatever decisions are coded,
      in segments ended by either termination, decode from the bytes cut into buffers
      anywhere; the segments hold no marker code; raw bits are read back too.
    - BlockLuts.v: t1_luts.h and t1_generate_luts.cpp.  Shown: the tables compiled in
      are those the generator computes.
    - BlockCoder.v: t1/part1/block_coder (BlockCoderEnc.cpp, BlockCoderDec.cpp,
      BlockCoderMacros.h), t1/part1/Coder.cpp and the segment loop of
      t1/codeblock/CodeblockDecompressImpl.h.  The encoder's passes write a list of
      decisions, the decoder's are programs that ask for symbols.
    - BlockFlags.v, BlockRoundTrip.v: the flag words and the passes.  After every pass
      the decoder holds the coefficients down to the plane, with half a bit, and flags
      that agree with the encoder's wherever they are read.
    - BlockStream.v, BlockLoop.v, BlockRates.v, BlockTheorems.v: the passes through the
      coder, over all terminations, resets and switches to raw coding.  Shown: a block
      comes back from its bytes, for every block style; the pass rates are in order and
      their lengths cut the bytes where the coder was terminated.  The pass loop is that
      of the default parameters, without the early stop of rate control.
    - Wavelet.v: the reversible 5/3 transform of wavelet/WaveletFwd.cpp and
      wavelet/WaveletReverse.cpp, in 32-bit and in 16-bit lanes, scalar and vectorised:
      the kernels of a line, the levels of a tile component, the level shift fused into
      them and the choice of the lane width ([grk_get_data_type]).  A vector lane is a
      line; a plane is a list of rows.
    - WaveletLines.v, WaveletExact.v: the lines over unbounded integers, the inverse of
      the lifting steps, and the samples for which the lanes do not wrap.  Shown: the
      averages that avoid overflow are exact but for two operands.
    - WaveletNarrow.v: the 16-bit forward lines.  Shown: they give the 32-bit
      coefficients where the vectors stay in the low band; one theorem exhibits an odd
      row where they do not.
    - WaveletTile.v, WaveletTheorems.v: rows and columns, levels, tiles.  Shown: the
      forward lines are the standard's lifting with symmetric extension; scalar and
      vector columns, narrow or wide, agree; a tile component is undone level by level.
    - Mct.v: the reversible colour transform of point_transform/mct.cpp, the level shift
      of tile_processor/TileProcessorCompress.cpp and its inverse, composed with the
      wavelet.  Shown: single components and colour tiles are reconstructed exactly, where
      the samples fit the lanes and the 16-bit rows stay in the low band.
    - Markers.v: the marker segments SIZ, COD, COC, QCD, QCC, RGN, POC and COM as
      codestream/compress/CodeStreamCompress.cpp and markers/SIZMarker.cpp write them and
      codestream/CodingParams.cpp reads them, and the parameters they set.
    - MainHeader.v: the marker loop of codestream/decompress
      (CodeStreamDecompress_ReadMarkers.cpp) and markers/MarkerParser.cpp, with its
      dispatch table, unknown markers and the marker index.
    - OtherMarkers.v: the other readers of the main header: DFS and ATK, TLM with the
      list of tile parts (markers/TLMMarker.cpp, stream/TPFetchSeq.h), PPM with its merge
      (markers/PPMMarker.cpp), PLM, and MCT, MCC and MCO.
    - MarkerSafety.v, OtherMarkerSafety.v: Shown: on any bytes the header is read to an
      end, without an access outside a segment or an array except by the reader of PLM,
      and leaves well-formed parameters; the merged PPM segments are the packet headers
      that were cut into them.
    - MarkerQuant.v: Shown: the precedence of QCD and QCC in main and tile headers; a lemma
      exhibits an order of segments for which it fails.
    - MarkerRoundTrip.v, HeaderRoundTrip.v: Shown: the main header that is written is read
      back; four lemmas exhibit parameters outside the theorem's conditions that are not.
    - Progressions.v: [validateProgressionOrders] and the changes [init] gives a tile.
      Shown: changes are accepted exactly when they reach every packet.

    * Interfaces

    [IStreamWriter] with [IStreamWriterLaws] (BitIO.v) is what a packet or marker
    writer relies on of the output stream; [PacketSkipper] (PacketIter.v) is what the
    iterator relies on of packet-length markers and the data buffer, with
    [skipPackets] of PLMarker.v its implementation.  [ByteStream] with [StreamLaws]
    (PLMarker.v) is the output stream of the marker writers; [SafeHandler]
    (MarkerSafety.v) is what the marker loop asks of the reader of a segment; the readers
    of Markers.v and of OtherMarkers.v are its instances.

    * Bounds and fuel

    Loops of the source whose recursion is not structural carry fuel: the iterators'
    loops run on the number of their remaining values, which a lemma shows to be
    enough; tag tree climbs on the number of nodes (a parent has a larger index);
    renormalisation of the MQ coder on 16 doublings (a positive 16-bit width reaches
    bit 15 in at most 15); the pass loop of a block on three passes for each plane; the
    marker loop on the number of bytes (a segment takes at least four).
    No theorem is conditional on the fuel being enough.

    The wavelet theorems ask that the samples leave room in the lanes: a line grows its
    samples by a bounded factor ([grown]), and the samples of all levels must fit into
    32 bits ([R32], 2^30 - 2) or 16 bits ([R16], 2^15 - 2); a component has at most 33
    resolutions, as the code checks.

    * Not modelled

    Of the block coder, the distortion weights and the early stop of rate control,
    which are floating point, and differential decompression from cached coders.  Of
    the transforms, the irreversible 9/7 wavelet and colour transform and quantisation
    (floating point), the decompression of regions, and the kernels and one-axis splits
    of Part 2.  The high-throughput block coder, rate control by slopes, JP2/MJ2 boxes,
    tile-part headers (SOT, PPT), the writing of TLM, CAP and MCT segments, file and
    network streams, caching, the share-out of work to tasks, plugins and the
    command-line applications.  Failures of memory allocation are left out throughout.
    The components of the manifest say why for each. *)
From stdpp Require Export prelude list numbers.
From Stdlib Require Export ZArith Lia.

Declare Scope grk_scope.
Delimit Scope grk_scope with grk.
Open Scope Z_scope.
Open Scope grk_scope.

(** The development's hint databases: [grk] holds the lemmas that close range
    and length side conditions, [grk_simp] the rewriting rules. *)
Create HintDb grk discriminated.

(** ** Machine integers *)

(** Unsigned [w]-bit wrap-around, the conversion C++ applies when a value is
    stored in an unsigned type of width [w]. *)
Definition wrap (w x : Z) : Z := x mod 2 ^ w.

Abbreviation u8 := (wrap 8).
Abbreviation u16 := (wrap 16).
Abbreviation u32 := (wrap 32).
Abbreviation u64 := (wrap 64).

Definition UINT8_MAX : Z := 255.
Definition UINT16_MAX : Z := 65535.
Definition UINT32_MAX : Z := 4294967295.

(** Two's complement [w]-bit conversion to a signed type. *)
Definition swrap (w x : Z) : Z :=
  let y := x mod 2 ^ w in if y <? 2 ^ (w - 1) then y else y - 2 ^ w.

Abbreviation i8 := (swrap 8).
Abbreviation i16 := (swrap 16).
Abbreviation i32 := (swrap 32).
Abbreviation i64 := (swrap 64).

Lemma wrap_range w x : 0 <= w -> 0 <= wrap w x < 2 ^ w.
Proof. intros. unfold wrap. apply Z.mod_pos_bound. lia. Qed.

Lemma wrap_small w x : 0 <= x < 2 ^ w -> wrap w x = x.
Proof. intros. by apply Z.mod_small. Qed.

Lemma wrap_wrap w x : wrap w (wrap w x) = wrap w x.
Proof. unfold wrap. apply Zmod_mod. Qed.

Lemma swrap_small w x : 0 < w -> - 2 ^ (w - 1) <= x < 2 ^ (w - 1) -> swrap w x = x.
Proof.
  intros Hw Hx. unfold swrap.
  assert (2 ^ w = 2 * 2 ^ (w - 1)) as E by (rewrite <- Z.pow_succ_r by lia; f_equal; lia).
  destruct (Z_lt_le_dec x 0).
  - assert (x mod 2 ^ w = x + 2 ^ w) as ->.
    { symmetry. apply Z.mod_unique with (q := -1); lia. }
    destruct (Z.ltb_spec (x + 2 ^ w) (2 ^ (w - 1))); lia.
  - rewrite Z.mod_small by lia. destruct (Z.ltb_spec x (2 ^ (w - 1))); lia.
Qed.

Lemma swrap_range w x : 0 < w -> - 2 ^ (w - 1) <= swrap w x < 2 ^ (w - 1).
Proof.
  intros Hw. unfold swrap.
  assert (2 ^ w = 2 * 2 ^ (w - 1)) as E by (rewrite <- Z.pow_succ_r by lia; f_equal; lia).
  pose proof (Z.mod_pos_bound x (2 ^ w) ltac:(lia)).
  destruct (Z.ltb_spec (x mod 2 ^ w) (2 ^ (w - 1))); lia.
Qed.

#[export] Hint Resolve wrap_range : grk.

(** Turn the width constants into numerals so that [lia] can use them. *)
Ltac grk_lia :=
  unfold UINT8_MAX, UINT16_MAX, UINT32_MAX in *;
  change (2 ^ 8) with 256 in *; change (2 ^ 16) with 65536 in *;
  change (2 ^ 32) with 4294967296 in *;
  change (2 ^ 64) with 18446744073709551616 in *; lia.

(** Case split on every boolean integer comparison that guards a branch of the
    goal or of a hypothesis, with the comparison recorded as a proposition. *)
Ltac zcase :=
  match goal with
  | |- context [?a <? ?b] => destruct (Z.ltb_spec a b)
  | |- context [?a <=? ?b] => destruct (Z.leb_spec a b)
  | |- context [?a =? ?b] => destruct (Z.eqb_spec a b)
  end.
Ltac zcases := repeat (zcase; simpl in * ).

(** Linear arithmetic with division and remainder. *)
Ltac divlia := Z.to_euclidean_division_equations; lia.

(** ** Results of fallible code *)

(** A C++ function that may throw: [Ok] is a normal return, [Err] the thrown
    exception (the state reached at the throw is discarded with the object). *)
Inductive result (E A : Type) : Type :=
| Ok (a : A)
| Err (e : E).
Arguments Ok {E A} a.
Arguments Err {E A} e.

Definition rbind {E A B} (m : result E A) (k : A -> result E B) : result E B :=
  match m with Ok a => k a | Err e => Err e end.

Notation "'let*' x ':=' m 'in' k" := (rbind m (fun x => k))
  (at level 10, x pattern, m at level 100, k at level 200) : grk_scope.

Lemma rbind_Ok {E A B} (m : result E A) (k : A -> result E B) b :
  rbind m k = Ok b <-> exists a, m = Ok a /\ k a = Ok b.
Proof. destruct m; simpl; naive_solver. Qed.

(** A C++ method that returns [bool] and mutates its object: the state is
    threaded, and [a ;;; b] is [if(!a) return false; b]. *)
Definition bstep (S : Type) : Type := S -> bool * S.

Definition bseq {S} (a b : bstep S) : bstep S :=
  fun s => match a s with (true, s') => b s' | (false, s') => (false, s') end.
Definition bret {S} : bstep S := fun s => (true, s).

Notation "a ;;; b" := (bseq a b) (at level 60, right associativity) : grk_scope.

Lemma bseq_true {S} (a b : bstep S) s s' :
  (a ;;; b) s = (true, s') <-> exists s1, a s = (true, s1) /\ b s1 = (true, s').
Proof. unfold bseq. destruct (a s) as [[] ?]; naive_solver. Qed.

(** ** Bits of integers *)

Lemma testbit_small a n : 0 <= a < 2 ^ n -> forall i, n <= i -> Z.testbit a i = false.
Proof.
  intros Ha i Hi. destruct (Z_lt_le_dec n 0) as [Hn|Hn].
  { rewrite Z.pow_neg_r in Ha by done. lia. }
  rewrite <- (Z.mod_small a (2 ^ n)) by done. by apply Z.mod_pow2_bits_high.
Qed.

Lemma bits_lt a n : 0 <= a -> 0 <= n ->
  (forall i, n <= i -> Z.testbit a i = false) -> a < 2 ^ n.
Proof.
  intros Ha Hn H. destruct (Z_lt_le_dec a (2 ^ n)) as [|Hge]; [done|].
  pose proof (Z.log2_le_pow2 a n ltac:(lia)) as [Hl _].
  specialize (H (Z.log2 a) (Hl Hge)). rewrite Z.bit_log2 in H; [done|lia].
Qed.

Lemma lor_range a b n : 0 <= n -> 0 <= a < 2 ^ n -> 0 <= b < 2 ^ n -> 0 <= Z.lor a b < 2 ^ n.
Proof.
  intros Hn Ha Hb. split; [apply Z.lor_nonneg; lia|].
  apply bits_lt; [apply Z.lor_nonneg; lia|done|].
  intros i Hi. rewrite Z.lor_spec, (testbit_small a n), (testbit_small b n) by done. done.
Qed.

Lemma b2z_testbit a i : 0 <= i -> Z.land (Z.shiftr a i) 1 = Z.b2z (Z.testbit a i).
Proof. intros. rewrite Z.land_ones with (n := 1) by lia. by rewrite Z.testbit_spec', Z.shiftr_div_pow2. Qed.

Lemma b2z_nonzero b : (Z.b2z b =? 0) = negb b.
Proof. by destruct b. Qed.

Lemma shiftr_eq_bits a b n : 0 <= n ->
  Z.shiftr a n = Z.shiftr b n -> forall i, n <= i -> Z.testbit a i = Z.testbit b i.
Proof.
  intros Hn H i Hi. replace i with (i - n + n) by lia.
  rewrite <- !Z.shiftr_spec by lia. by rewrite H.
Qed.

(** ** Lists *)

(** Read of a C++ array or vector at an index that is in range; the theorems
    that rely on a read prove the range separately. *)
Fixpoint nthZ {A} (d : A) (l : list A) (i : Z) : A :=
  match l with
  | [] => d
  | x :: l => if i <=? 0 then x else nthZ d l (i - 1)
  end.

Lemma nthZ_default {A} (d : A) l i : nthZ d l i = default d (l !! Z.to_nat i).
Proof.
  revert i; induction l as [|x l IH]; intros i; simpl; [done|].
  destruct (Z.leb_spec i 0); [by replace (Z.to_nat i) with 0%nat by lia|].
  rewrite IH. by replace (Z.to_nat i) with (S (Z.to_nat (i - 1))) by lia.
Qed.

Lemma nthZ_lookup {A} (d : A) l i x : l !! Z.to_nat i = Some x -> nthZ d l i = x.
Proof. rewrite nthZ_default. by intros ->. Qed.

Lemma Forall2_insert_both {A B} (P : A -> B -> Prop) l k i x y :
  Forall2 P l k -> P x y -> Forall2 P (<[i:=x]> l) (<[i:=y]> k).
Proof. intros. by apply Forall2_insert. Qed.

(** The C++ counting loop [for (i = lo; i < hi; ++i) acc = f(i, acc)]. *)
Definition for_range {A} (lo hi : Z) (f : Z -> A -> A) (a : A) : A :=
  foldl (fun acc i => f i acc) a (seqZ lo (hi - lo)).

Lemma for_range_inv {A} (P : Z -> A -> Prop) lo hi f a :
  lo <= hi -> P lo a ->
  (forall i x, lo <= i < hi -> P i x -> P (i + 1) (f i x)) ->
  P hi (for_range lo hi f a).
Proof.
  intros Hle H0 Hs. unfold for_range.
  assert (forall n, 0 <= n -> n <= hi - lo ->
            P (lo + n) (foldl (fun acc i => f i acc) a (seqZ lo n))) as H.
  { apply (natlike_ind (fun n => n <= hi - lo -> P (lo + n) _)).
    - intros _. by rewrite Z.add_0_r.
    - intros n Hn IH Hle'. replace (Z.succ n) with (n + 1) by lia.
      rewrite seqZ_app, foldl_app by lia. simpl.
      rewrite Z.add_assoc. apply Hs; [lia|]. apply IH. lia. }
  specialize (H (hi - lo)). replace (lo + (hi - lo)) with hi in H by lia. apply H; lia.
Qed.

Lemma length_mjoin_const {A B} (g : A -> list B) (l : list A) n :
  (forall x, length (g x) = n) -> length (mjoin (g <$> l)) = (length l * n)%nat.
Proof.
  intros Hg. induction l as [|x l IH]; [done|]. csimpl. rewrite length_app, Hg, IH. done.
Qed.

Lemma mjoin_fmap_nil {A B} (f : A -> list B) (l : list A) :
  (forall a, a ∈ l -> f a = []) -> mjoin (f <$> l) = [].
Proof.
  induction l as [|a l IH]; intros H; [done|]. csimpl. rewrite (H a) by set_solver.
  apply IH. intros b Hb. apply H. set_solver.
Qed.

Lemma mjoin_fmap_ext {A B} (f g : A -> list B) (l : list A) :
  (forall a, a ∈ l -> f a = g a) -> mjoin (f <$> l) = mjoin (g <$> l).
Proof.
  induction l as [|a l IH]; intros H; [done|]. csimpl. rewrite (H a) by set_solver. f_equal.
  apply IH. intros b Hb. apply H. set_solver.
Qed.
