(* ===== verification/BitIO.v ===== *)
(** Bit-level IO of packet headers: [BitIO] of src/src/lib/core/t1_t2/BitIO.h.

    [IStreamWriter] is the interface the writer is given; the class
    [IStreamWriterLaws] states what the writer relies on.  The theorems show
    that what the writer packs (with bit stuffing after a 0xFF byte) is what
    the reader unpacks, for single bits, fixed-width fields, comma codes and
    the pass-count code, and that the reader consumes exactly the bytes the
    writer flushed. *)
From S2P Require Import Prelude.

(** ** The stream interface *)

(** [IStreamWriter::write8u]: write one byte, [false] on failure. *)
Class IStreamWriter (S : Type) := stream_write8u : Z -> S -> bool * S.

(** What a client relies on: the bytes accepted so far can be observed, a
    successful write appends one byte. *)
Class IStreamWriterLaws (S : Type) `{IStreamWriter S} := {
  stream_contents : S -> list Z;
  stream_write8u_ok : forall b s s',
    stream_write8u b s = (true, s') -> stream_contents s' = stream_contents s ++ [b];
}.

Inductive bio_exception :=
| TruncatedPacketHeaderException
| InvalidMarkerException (marker : Z).

Section BitIO.
Context {S : Type} `{Stream : IStreamWriter S}.

Record BitIO := mkBitIO {
  start : list Z;        (* uint8_t* start *)
  offset : Z;            (* size_t *)
  buf_len : Z;           (* size_t *)
  buf : Z;               (* uint8_t *)
  ct : Z;                (* uint8_t *)
  stream : option S;     (* IStreamWriter*, null when absent *)
  read0xFF : bool;
}.

(** The constructor over a byte buffer. *)
Definition BitIO_buffer (bp : list Z) (len : Z) (isCompressor : bool) : BitIO :=
  mkBitIO bp 0 len 0 (if isCompressor then 8 else 0) None false.

(** The constructor over a stream. *)
Definition BitIO_stream (st : S) (isCompressor : bool) : BitIO :=
  mkBitIO [] 0 0 0 (if isCompressor then 8 else 0) (Some st) false.

Definition numBytes (s : BitIO) : Z := offset s.

(** *** Writing *)

Definition reset_buf (s : BitIO) (off : Z) (st : option S) : BitIO :=
  mkBitIO (start s) off (buf_len s) 0 (if buf s =? 255 then 7 else 8) st (read0xFF s).

Definition write8u : bstep BitIO := fun s =>
  match stream s with
  | Some st =>
      match stream_write8u (buf s) st with
      | (true, st') => (true, reset_buf s (offset s) (Some st'))
      | (false, st') =>
          (false, mkBitIO (start s) (offset s) (buf_len s) (buf s) (ct s) (Some st') (read0xFF s))
      end
  | None =>
      if offset s =? buf_len s then (false, s)
      else (true, reset_buf s (offset s + 1) None)
  end.

Definition put_in_buf (b : Z) (s : BitIO) : BitIO :=
  mkBitIO (start s) (offset s) (buf_len s)
          (u8 (Z.lor (buf s) (Z.shiftl b (ct s - 1)))) (ct s - 1) (stream s) (read0xFF s).

Definition putbit (b : Z) : bstep BitIO := fun s =>
  match (if ct s =? 0 then write8u s else (true, s)) with
  | (true, s') => (true, put_in_buf b s')
  | (false, s') => (false, s')
  end.

(** [write(uint8_t v)] *)
Definition write1 (v : Z) : bstep BitIO := putbit (Z.land v 1).

(** The loop of [write(uint32_t v, uint8_t n)], [i = n - 1] down to 0. *)
Fixpoint write_loop (v : Z) (n : nat) : bstep BitIO :=
  match n with
  | O => bret
  | Datatypes.S i => putbit (Z.land (Z.shiftr v (Z.of_nat i)) 1) ;;; write_loop v i
  end.

Definition write (v : Z) (n : Z) : bstep BitIO := write_loop v (Z.to_nat n).

Definition flush : bstep BitIO := fun s =>
  match write8u s with
  | (true, s') => if ct s' =? 7 then write8u s' else (true, s')
  | (false, s') => (false, s')
  end.

(** [while(--nn >= 0) write(1)], [nn] iterations left. *)
Fixpoint putcommacode_loop (nn : nat) : bstep BitIO :=
  match nn with
  | O => bret
  | Datatypes.S n => write1 1 ;;; putcommacode_loop n
  end.

Definition putcommacode (n : Z) : bstep BitIO :=
  putcommacode_loop (Z.to_nat n) ;;; write1 0.

Definition putnumpasses (n : Z) : bstep BitIO :=
  if n =? 1 then write1 0
  else if n =? 2 then write 2 2
  else if n <=? 5 then write (Z.lor 0xc (n - 3)) 4
  else if n <=? 36 then write (Z.lor 0x1e0 (n - 6)) 9
  else if n <=? 164 then write (Z.lor 0xff80 (n - 37)) 16
  else bret.

(** *** Reading *)

Definition bytein (s : BitIO) : result bio_exception BitIO :=
  if offset s =? buf_len s then Err TruncatedPacketHeaderException
  else if read0xFF s && (0x90 <=? buf s)
  then Err (InvalidMarkerException (u16 (Z.lor (Z.shiftl 0xFF 8) (buf s))))
  else
    let r := buf s =? 0xff in
    Ok (mkBitIO (start s) (offset s + 1) (buf_len s) (nthZ 0 (start s) (offset s))
                (if r then 7 else 8) (stream s) r).

Definition set_ct (s : BitIO) (c : Z) : BitIO :=
  mkBitIO (start s) (offset s) (buf_len s) (buf s) c (stream s) (read0xFF s).

Definition getbit (s : BitIO) : result bio_exception (Z * BitIO) :=
  let* s := if ct s =? 0 then bytein s else Ok s in
  Ok (Z.land (Z.shiftr (buf s) (ct s - 1)) 1, set_ct s (ct s - 1)).

(** [read(void)] *)
Definition read1 (s : BitIO) : result bio_exception (Z * BitIO) := getbit s.

(** The loop of [read(T* bits, uint8_t n)] for a [w]-bit [T]. *)
Fixpoint read_loop (w : Z) (n : nat) (bits : Z) (s : BitIO) : result bio_exception (Z * BitIO) :=
  match n with
  | O => Ok (bits, s)
  | Datatypes.S i =>
      let* s := if ct s =? 0 then bytein s else Ok s in
      let c := ct s - 1 in
      read_loop w i (Z.lor bits (wrap w (Z.shiftl (Z.land (Z.shiftr (buf s) c) 1) (Z.of_nat i))))
                (set_ct s c)
  end.

Definition read (w : Z) (n : Z) (s : BitIO) : result bio_exception (Z * BitIO) :=
  read_loop w (Z.to_nat n) 0 s.

Definition readFinalHeaderByte (s : BitIO) : result bio_exception BitIO :=
  let* s := if buf s =? 0xff then bytein s else Ok s in
  Ok (set_ct s 0).

(** Bits the reader can still deliver: the bound of [getcommacode]'s loop. *)
Definition bits_left (s : BitIO) : nat :=
  Z.to_nat (8 * (buf_len s - offset s) + ct s).

(** [while(temp) { n++; temp = read(); }]: [None] when the fuel runs out. *)
Fixpoint getcommacode_loop (fuel : nat) (n : Z) (s : BitIO)
  : option (result bio_exception (Z * BitIO)) :=
  match fuel with
  | O => None
  | Datatypes.S fuel =>
      match read1 s with
      | Err e => Some (Err e)
      | Ok (temp, s) =>
          if temp =? 0 then Some (Ok (n, s)) else getcommacode_loop fuel (u8 (n + 1)) s
      end
  end.

Definition getcommacode (s : BitIO) : option (result bio_exception (Z * BitIO)) :=
  getcommacode_loop (Datatypes.S (bits_left s)) 0 s.

Definition getnumpasses (s : BitIO) : result bio_exception (Z * BitIO) :=
  let* (n, s) := read1 s in
  if n =? 0 then Ok (1, s) else
  let* (n, s) := read1 s in
  if n =? 0 then Ok (2, s) else
  let* (n, s) := read 32 2 s in
  if negb (n =? 3) then Ok (u8 (n + 3), s) else
  let* (n, s) := read 32 5 s in
  if negb (n =? 31) then Ok (u8 (n + 6), s) else
  let* (n, s) := read 32 7 s in
  Ok (u8 (n + 37), s).

(** ** Bit sequences: the specification level *)

(** Write, resp. read, a sequence of bits one by one. *)
Fixpoint put_bits (bs : list bool) : bstep BitIO :=
  match bs with
  | [] => bret
  | b :: bs => putbit (Z.b2z b) ;;; put_bits bs
  end.

Fixpoint get_bits (n : nat) (s : BitIO) : result bio_exception (list bool * BitIO) :=
  match n with
  | O => Ok ([], s)
  | Datatypes.S n =>
      let* (b, s) := getbit s in
      let* (bs, s) := get_bits n s in
      Ok (negb (b =? 0) :: bs, s)
  end.

(** [puts s bs s']: the writer succeeds in writing [bs]; [gets s bs s']: the
    next bits the reader delivers are [bs]. *)
Definition puts (s : BitIO) (bs : list bool) (s' : BitIO) : Prop := put_bits bs s = (true, s').
Definition gets (s : BitIO) (bs : list bool) (s' : BitIO) : Prop :=
  get_bits (length bs) s = Ok (bs, s').

(** The [n] low bits of [v], most significant first. *)
Fixpoint bits_of (v : Z) (n : nat) : list bool :=
  match n with O => [] | Datatypes.S i => Z.testbit v (Z.of_nat i) :: bits_of v i end.

(** The number [bs] denotes. *)
Fixpoint num_of (bs : list bool) : Z :=
  match bs with
  | [] => 0
  | b :: bs => Z.b2z b * 2 ^ Z.of_nat (length bs) + num_of bs
  end.

(** The codewords of the two variable-length codes. *)
Definition commacode (n : Z) : list bool := repeat true (Z.to_nat n) ++ [false].

Definition numpasses_code (n : Z) : list bool :=
  if n =? 1 then [false]
  else if n =? 2 then [true; false]
  else if n <=? 5 then [true; true] ++ bits_of (n - 3) 2
  else if n <=? 36 then repeat true 4 ++ bits_of (n - 6) 5
  else repeat true 9 ++ bits_of (n - 37) 7.

End BitIO.
Arguments BitIO S : clear implicits.

(** ** Writer operations as bit sequences *)
Section Puts.
Context {S : Type} `{Stream : IStreamWriter S}.
Implicit Types (s r : BitIO S) (bs : list bool).

Lemma put_bits_app bs1 bs2 s : put_bits (bs1 ++ bs2) s = (put_bits bs1 ;;; put_bits bs2) s.
Proof.
  revert s; induction bs1 as [|b bs1 IH]; intros s; [done|].
  simpl. unfold bseq in *. destruct (putbit _ s) as [[] ?]; [apply IH|done].
Qed.

Lemma puts_app s bs1 bs2 s' :
  puts s (bs1 ++ bs2) s' <-> exists s1, puts s bs1 s1 /\ puts s1 bs2 s'.
Proof. unfold puts. rewrite put_bits_app. apply bseq_true. Qed.

Lemma write1_bit s v : write1 v s = put_bits [Z.odd v] s.
Proof.
  unfold write1. rewrite <- (Z.shiftr_0_r v), b2z_testbit, Z.bit0_odd by lia.
  rewrite Z.shiftr_0_r. simpl. unfold bseq, bret. destruct (putbit _ s) as [[] ?]; done.
Qed.

Lemma write_loop_bits v n s : write_loop v n s = put_bits (bits_of v n) s.
Proof.
  revert s; induction n as [|n IH]; intros s; [done|].
  simpl. rewrite b2z_testbit by lia. unfold bseq. destruct (putbit _ s) as [[] ?]; [apply IH|done].
Qed.

Lemma write_bits v n s : write v n s = put_bits (bits_of v (Z.to_nat n)) s.
Proof. apply write_loop_bits. Qed.

Lemma putcommacode_bits n s : putcommacode n s = put_bits (commacode n) s.
Proof.
  unfold putcommacode, commacode. rewrite put_bits_app.
  unfold bseq. replace (putcommacode_loop (Z.to_nat n) s) with (put_bits (repeat true (Z.to_nat n)) s).
  - destruct (put_bits _ s) as [[] ?]; [apply (write1_bit _ 0)|done].
  - generalize (Z.to_nat n) as k; intros k; revert s; induction k as [|k IH]; intros s; [done|].
    cbn [repeat put_bits putcommacode_loop]. unfold bseq. rewrite write1_bit. simpl. unfold bseq, bret.
    destruct (putbit _ s) as [[] ?]; [apply IH|done].
Qed.

(** The codeword table: the literals of [putnumpasses] are the codewords. *)
Definition numpasses_literal (n : Z) : list bool :=
  if n =? 1 then bits_of 0 1 else if n =? 2 then bits_of 2 2
  else if n <=? 5 then bits_of (Z.lor 0xc (n - 3)) 4
  else if n <=? 36 then bits_of (Z.lor 0x1e0 (n - 6)) 9
  else bits_of (Z.lor 0xff80 (n - 37)) 16.

Lemma numpasses_code_table n : 1 <= n <= 164 -> numpasses_code n = numpasses_literal n.
Proof.
  intros Hn.
  assert (forallb (fun n => bool_decide (numpasses_code n = numpasses_literal n)) (seqZ 1 164) = true)
    as H by (vm_compute; reflexivity).
  rewrite forallb_forall in H. eapply bool_decide_eq_true, H.
  apply list_elem_of_In, elem_of_seqZ. lia.
Qed.

Lemma putnumpasses_bits n s : 1 <= n <= 164 ->
  putnumpasses n s = put_bits (numpasses_code n) s.
Proof.
  intros Hn. rewrite numpasses_code_table by done. unfold putnumpasses, numpasses_literal.
  destruct (n =? 1); [apply (write1_bit _ 0)|].
  destruct (n =? 2); [apply write_bits|].
  destruct (n <=? 5); [apply write_bits|].
  destruct (n <=? 36); [apply write_bits|].
  destruct (Z.leb_spec n 164); [apply write_bits|lia].
Qed.

(** ** Reader operations as bit sequences *)

Lemma getbit_bool s b s' : getbit s = Ok (b, s') -> exists c, b = Z.b2z c.
Proof.
  unfold getbit. intros (s1 & _ & [= <- <-])%rbind_Ok.
  exists (Z.odd (Z.shiftr (buf s1) (ct s1 - 1))).
  rewrite Z.land_ones with (n := 1) by lia. change (2 ^ 1) with 2. rewrite Zmod_odd.
  by destruct (Z.odd _).
Qed.

Lemma gets_cons s b bs s' :
  gets s (b :: bs) s' <-> exists s1, getbit s = Ok (Z.b2z b, s1) /\ gets s1 bs s'.
Proof.
  unfold gets. simpl. rewrite rbind_Ok. split.
  - intros ([c s1] & Hg & ([bs' s2] & Hr & [= <- -> ->])%rbind_Ok).
    destruct (getbit_bool _ _ _ Hg) as [c' ->]. rewrite b2z_nonzero, negb_involutive in *.
    eauto.
  - intros (s1 & Hg & Hr). exists (Z.b2z b, s1). split; [done|].
    rewrite Hr. simpl. by rewrite b2z_nonzero, negb_involutive.
Qed.

Lemma gets_nil s s' : gets s [] s' <-> s' = s.
Proof. unfold gets. simpl. naive_solver. Qed.

Lemma gets_app s bs1 bs2 s' :
  gets s (bs1 ++ bs2) s' <-> exists s1, gets s bs1 s1 /\ gets s1 bs2 s'.
Proof.
  revert s; induction bs1 as [|b bs1 IH]; intros s; simpl.
  - setoid_rewrite gets_nil. naive_solver.
  - rewrite gets_cons. setoid_rewrite gets_cons. setoid_rewrite IH. naive_solver.
Qed.

Lemma num_of_bound bs : 0 <= num_of bs < 2 ^ Z.of_nat (length bs).
Proof.
  induction bs as [|b bs IH]; simpl length; [done|].
  cbn [num_of]. rewrite Nat2Z.inj_succ, Z.pow_succ_r by lia. destruct b; simpl Z.b2z; lia.
Qed.

Lemma num_of_cons_lor b bs :
  num_of (b :: bs) = Z.lor (Z.shiftl (Z.b2z b) (Z.of_nat (length bs))) (num_of bs).
Proof.
  cbn [num_of]. pose proof (num_of_bound bs).
  rewrite Z.shiftl_mul_pow2 by lia. set (n := Z.of_nat (length bs)) in *.
  rewrite Z.add_nocarry_lxor, Z.lxor_lor; [done| |];
    apply Z.bits_inj_0; intros i; rewrite Z.land_spec;
    (destruct (Z_lt_le_dec i n); [rewrite Z.mul_pow2_bits_low by done; done|]);
    rewrite (testbit_small (num_of bs) n) by done; apply andb_false_r.
Qed.

Lemma num_of_bits_of v n : num_of (bits_of v n) = v mod 2 ^ Z.of_nat n.
Proof.
  induction n as [|n IH]; [by rewrite Z.mod_1_r|].
  cbn [bits_of num_of]. rewrite IH.
  replace (length (bits_of v n)) with n.
  2: { clear. induction n; simpl; congruence. }
  rewrite Nat2Z.inj_succ, Z.pow_succ_r, (Z.mul_comm 2) by lia.
  rewrite Z.rem_mul_r, Z.testbit_spec' by lia. lia.
Qed.

Lemma length_bits_of v n : length (bits_of v n) = n.
Proof. induction n; simpl; congruence. Qed.

Lemma read_loop_gets w bs s s' acc :
  Z.of_nat (length bs) <= w -> gets s bs s' ->
  read_loop w (length bs) acc s = Ok (Z.lor acc (num_of bs), s').
Proof.
  revert s acc; induction bs as [|b bs IH]; intros s acc Hw Hg.
  - apply gets_nil in Hg as ->. simpl. by rewrite Z.lor_0_r.
  - apply gets_cons in Hg as (s1 & Hb & Hg). simpl length in Hw. cbn [length read_loop].
    unfold getbit in Hb. apply rbind_Ok in Hb as (s0 & -> & [= Hb <-]). cbn [rbind].
    rewrite Hb, (IH _ _ ltac:(lia) Hg), num_of_cons_lor, wrap_small, Z.lor_assoc; [done|].
    rewrite Z.shiftl_mul_pow2 by lia.
    pose proof (Z.pow_lt_mono_r 2 (Z.of_nat (length bs)) w ltac:(lia) ltac:(lia) ltac:(lia)).
    destruct b; simpl Z.b2z; lia.
Qed.

Lemma read_gets w n bs s s' :
  Z.of_nat (length bs) = n -> n <= w -> gets s bs s' -> read w n s = Ok (num_of bs, s').
Proof.
  intros <- Hw Hg. unfold read. rewrite Nat2Z.id. by rewrite (read_loop_gets _ _ _ s') by done.
Qed.

Lemma read_bits_of w n v s s' :
  0 <= v < 2 ^ n -> 0 <= n <= w -> gets s (bits_of v (Z.to_nat n)) s' -> read w n s = Ok (v, s').
Proof.
  intros Hv Hn Hg. erewrite read_gets; [| |lia|done].
  - rewrite num_of_bits_of, Z2Nat.id, Z.mod_small by lia. done.
  - rewrite length_bits_of. lia.
Qed.

Lemma getnumpasses_gets n s s' : 1 <= n <= 164 ->
  gets s (numpasses_code n) s' -> getnumpasses s = Ok (n, s').
Proof.
  intros Hn. unfold numpasses_code, getnumpasses.
  destruct (Z.eqb_spec n 1) as [->|]; [|destruct (Z.eqb_spec n 2) as [->|]].
  - intros (s1 & Hb & ->%gets_nil)%gets_cons. unfold read1. by rewrite Hb.
  - intros (s1 & Hb & (s2 & Hb2 & ->%gets_nil)%gets_cons)%gets_cons. unfold read1.
    rewrite Hb. simpl. by rewrite Hb2.
  - destruct (Z.leb_spec n 5); [|destruct (Z.leb_spec n 36)].
    + intros (s1 & (s2 & Hb & (s3 & Hb2 & ->%gets_nil)%gets_cons)%gets_cons & Hg)%gets_app.
      unfold read1. rewrite Hb. simpl. rewrite Hb2. simpl.
      rewrite (read_bits_of 32 2 (n - 3) _ s') by (try lia; done). simpl.
      destruct (Z.eqb_spec (n - 3) 3); simpl; [lia|]. rewrite wrap_small by lia. do 2 f_equal. lia.
    + change (repeat true 4) with ([true; true] ++ bits_of 3 2).
      rewrite <- app_assoc.
      intros (s1 & (s2 & Hb & (s3 & Hb2 & ->%gets_nil)%gets_cons)%gets_cons & (s4 & Hc & Hg)%gets_app)%gets_app.
      unfold read1. rewrite Hb. simpl. rewrite Hb2. simpl.
      rewrite (read_bits_of 32 2 3 _ s4) by (try lia; done). simpl.
      rewrite (read_bits_of 32 5 (n - 6) _ s') by (try lia; done). simpl.
      destruct (Z.eqb_spec (n - 6) 31); simpl; [lia|]. rewrite wrap_small by lia. do 2 f_equal. lia.
    + change (repeat true 9) with ([true; true] ++ bits_of 3 2 ++ bits_of 31 5).
      rewrite <- !app_assoc.
      intros (s1 & (s2 & Hb & (s3 & Hb2 & ->%gets_nil)%gets_cons)%gets_cons &
              (s4 & Hc & (s5 & Hd & Hg)%gets_app)%gets_app)%gets_app.
      unfold read1. rewrite Hb. simpl. rewrite Hb2. simpl.
      rewrite (read_bits_of 32 2 3 _ s4) by (try lia; done). simpl.
      rewrite (read_bits_of 32 5 31 _ s5) by (try lia; done). simpl.
      rewrite (read_bits_of 32 7 (n - 37) _ s') by (try lia; done). simpl.
      rewrite wrap_small by lia. do 2 f_equal. lia.
Qed.

(** ** The reader makes progress *)

Definition wf_reader (s : BitIO S) : Prop := 0 <= ct s <= 8 /\ 0 <= offset s <= buf_len s.

Lemma bytein_spec s s' : bytein s = Ok s' ->
  offset s' = offset s + 1 /\ buf_len s' = buf_len s /\ start s' = start s /\
  buf s' = nthZ 0 (start s) (offset s) /\ read0xFF s' = (buf s =? 0xff) /\
  ct s' = (if buf s =? 0xff then 7 else 8) /\ offset s <> buf_len s.
Proof.
  unfold bytein. destruct (Z.eqb_spec (offset s) (buf_len s)); [done|].
  destruct (_ && _); [done|]. intros [= <-]. by simpl.
Qed.

Lemma getbit_progress s b s' : wf_reader s -> getbit s = Ok (b, s') ->
  wf_reader s' /\ (bits_left s' < bits_left s)%nat.
Proof.
  intros [Hc Ho] (s1 & H1 & [= <- <-])%rbind_Ok. unfold wf_reader, bits_left. simpl.
  destruct (Z.eqb_spec (ct s) 0).
  - destruct (bytein_spec _ _ H1) as (-> & -> & _ & _ & _ & -> & ?). destruct (buf s =? 255); lia.
  - injection H1 as <-. lia.
Qed.

Lemma getcommacode_loop_total fuel n s :
  wf_reader s -> (bits_left s < fuel)%nat -> getcommacode_loop fuel n s <> None.
Proof.
  revert n s; induction fuel as [|fuel IH]; intros n s Hw Hf; [lia|].
  simpl. destruct (read1 s) as [[b s1]|] eqn:E; [|done].
  destruct (b =? 0); [done|]. destruct (getbit_progress _ _ _ Hw E). apply IH; [done|lia].
Qed.

Lemma getcommacode_loop_gets fuel k m s s' :
  wf_reader s -> (bits_left s < fuel)%nat -> 0 <= k -> k + Z.of_nat m <= 255 ->
  gets s (repeat true m ++ [false]) s' ->
  getcommacode_loop fuel k s = Some (Ok (k + Z.of_nat m, s')).
Proof.
  revert k m s; induction fuel as [|fuel IH]; intros k m s Hw Hf Hk Hm Hg; [lia|].
  destruct m as [|m]; simpl in Hg |- *; apply gets_cons in Hg as (s1 & Hb & Hg);
    unfold read1; rewrite Hb; simpl.
  - apply gets_nil in Hg as ->. by rewrite Z.add_0_r.
  - destruct (getbit_progress _ _ _ Hw Hb). rewrite wrap_small by lia.
    rewrite (IH (k + 1) m s1) by (try done; lia). do 3 f_equal. lia.
Qed.

Lemma getcommacode_gets n s s' : wf_reader s -> 0 <= n <= 255 ->
  gets s (commacode n) s' -> getcommacode s = Some (Ok (n, s')).
Proof.
  intros Hw Hn Hg. unfold getcommacode.
  rewrite (getcommacode_loop_gets _ 0 (Z.to_nat n) _ s') by (try done; lia).
  do 3 f_equal. lia.
Qed.

Lemma gets_progress s bs s' : wf_reader s -> gets s bs s' -> wf_reader s'.
Proof.
  revert s; induction bs as [|b bs IH]; intros s Hw Hg.
  - by apply gets_nil in Hg as ->.
  - apply gets_cons in Hg as (s1 & Hb & Hg). apply (IH s1); [|done].
    by destruct (getbit_progress _ _ _ Hw Hb).
Qed.

(** ** Writer invariant *)

(** The [ct] low bits of the byte under construction are still clear. *)
Definition wf_writer (s : BitIO S) : Prop :=
  0 <= ct s <= 8 /\ 0 <= buf s < 256 /\ forall i, 0 <= i < ct s -> Z.testbit (buf s) i = false.

Lemma write8u_wf s s' : wf_writer s -> write8u s = (true, s') ->
  wf_writer s' /\ buf s' = 0 /\ ct s' = (if buf s =? 255 then 7 else 8).
Proof.
  intros _. unfold write8u, wf_writer.
  destruct (stream s) as [st|]; [destruct (stream_write8u _ st) as [[] ?]|destruct (_ =? _)];
    intros [= <-]; simpl; (split; [|done]); destruct (buf s =? 255);
    (split; [lia|split; [lia|intros; apply Z.testbit_0_l]]).
Qed.

Lemma put_in_buf_wf s b : wf_writer s -> ct s <> 0 ->
  wf_writer (put_in_buf (Z.b2z b) s) /\
  (forall i, ct s <= i -> Z.testbit (buf (put_in_buf (Z.b2z b) s)) i = Z.testbit (buf s) i) /\
  Z.testbit (buf (put_in_buf (Z.b2z b) s)) (ct s - 1) = b.
Proof.
  intros (Hc & Hb & Hz) Hct.
  assert (0 <= Z.shiftl (Z.b2z b) (ct s - 1) < 256) as Hs.
  { rewrite Z.shiftl_mul_pow2 by lia.
    pose proof (Z.pow_le_mono_r 2 (ct s - 1) 7 ltac:(lia) ltac:(lia)).
    destruct b; simpl Z.b2z; lia. }
  pose proof (lor_range (buf s) _ 8 ltac:(lia) Hb Hs) as Hr.
  assert (forall i, 0 <= i -> Z.testbit (buf (put_in_buf (Z.b2z b) s)) i =
            Z.testbit (buf s) i || (b && (i =? ct s - 1))) as Hbit.
  { intros i Hi. unfold put_in_buf; simpl. rewrite wrap_small by done.
    rewrite Z.lor_spec, Z.shiftl_spec by lia. f_equal.
    destruct (Z.eqb_spec i (ct s - 1)) as [->|].
    - rewrite Z.sub_diag, andb_true_r. by destruct b.
    - rewrite andb_false_r. destruct (Z_lt_le_dec i (ct s - 1)).
      + by rewrite Z.testbit_neg_r by lia.
      + apply (testbit_small _ 1); [destruct b; simpl; lia|lia]. }
  repeat split; simpl; try lia.
  - rewrite wrap_small by done. by apply Hr.
  - rewrite wrap_small by done. by apply Hr.
  - intros i Hi. rewrite Hbit, Hz by lia. destruct (Z.eqb_spec i (ct s - 1)); [lia|].
    apply andb_false_r.
  - intros i Hi. rewrite Hbit by lia. destruct (Z.eqb_spec i (ct s - 1)); [lia|].
    by rewrite andb_false_r, orb_false_r.
  - rewrite Hbit, Hz, Z.eqb_refl, andb_true_r by lia. done.
Qed.

Lemma putbit_wf s b s' : wf_writer s -> putbit (Z.b2z b) s = (true, s') ->
  wf_writer s' /\ exists s1, wf_writer s1 /\ ct s1 <> 0 /\ s' = put_in_buf (Z.b2z b) s1 /\
    (if ct s =? 0 then write8u s = (true, s1) else s1 = s).
Proof.
  intros Hw. unfold putbit. destruct (Z.eqb_spec (ct s) 0) as [E|E].
  - destruct (write8u s) as [[] s1] eqn:Hu; [|done]. intros [= <-].
    destruct (write8u_wf _ _ Hw Hu) as (Hw1 & _ & Hc1).
    assert (ct s1 <> 0) by (rewrite Hc1; destruct (_ =? _); lia).
    split; [by apply put_in_buf_wf|]. eauto 6.
  - intros [= <-]. split; [by apply put_in_buf_wf|]. eauto 6.
Qed.

End Puts.

(** ** Round trip through a stream *)
Section RoundTrip.
Context {S : Type} `{Stream : IStreamWriter S} `{!IStreamWriterLaws S}.
Implicit Types (w r : BitIO S) (bs : list bool).

(** Bytes a stream writer has emitted so far. *)
Definition emitted w : list Z :=
  match stream w with Some st => stream_contents st | None => [] end.

Lemma write8u_emitted w w' : is_Some (stream w) -> write8u w = (true, w') ->
  emitted w' = emitted w ++ [buf w] /\ is_Some (stream w').
Proof.
  unfold write8u, emitted. intros [st ->].
  destruct (stream_write8u (buf w) st) as [[] st'] eqn:E; [|done]. intros [= <-]. simpl.
  split; [by apply stream_write8u_ok|eauto].
Qed.

Lemma putbit_emitted w b w' : is_Some (stream w) -> putbit (Z.b2z b) w = (true, w') ->
  is_Some (stream w') /\ emitted w' = emitted w ++ (if ct w =? 0 then [buf w] else []).
Proof.
  intros Hs. unfold putbit. destruct (ct w =? 0).
  - destruct (write8u w) as [[] w1] eqn:E; [|done]. intros [= <-].
    apply write8u_emitted in E as [E ?]; [|done]. split; [done|]. done.
  - intros [= <-]. by rewrite app_nil_r.
Qed.

Lemma flush_emitted w w' : is_Some (stream w) -> wf_writer w -> flush w = (true, w') ->
  emitted w' = emitted w ++ buf w :: (if buf w =? 255 then [0] else []).
Proof.
  intros Hs Hw. unfold flush. destruct (write8u w) as [[] w1] eqn:E; [|done].
  destruct (write8u_wf _ _ Hw E) as (Hw1 & Hb1 & Hc1).
  destruct (write8u_emitted _ _ Hs E) as [He1 Hs1]. rewrite Hc1.
  destruct (buf w =? 255); simpl; intros Hf.
  - destruct (write8u_emitted _ _ Hs1 Hf) as [-> _]. by rewrite He1, Hb1, <- app_assoc.
  - injection Hf as <-. done.
Qed.

(** The byte under construction in [w] ends up in the output with the bits it
    already has. *)
Lemma pending_byte bs w w1 w2 :
  is_Some (stream w) -> wf_writer w -> puts w bs w1 -> flush w1 = (true, w2) ->
  exists b rest, emitted w2 = emitted w ++ b :: rest /\ 0 <= b < 256 /\
    forall i, ct w <= i -> Z.testbit b i = Z.testbit (buf w) i.
Proof.
  revert w; induction bs as [|c bs IH]; intros w Hs Hw Hp Hf.
  - injection Hp as ->. rewrite (flush_emitted _ _ Hs Hw Hf). destruct Hw as (_ & ? & _). eauto 6.
  - apply bseq_true in Hp as (w' & Hc & Hp).
    destruct (putbit_wf _ _ _ Hw Hc) as (Hw' & x & Hx & Hcx & -> & Hcase).
    destruct (putbit_emitted _ _ _ Hs Hc) as [Hs' He].
    destruct (IH _ Hs' Hw' Hp Hf) as (b & rest & Hout & Hb & Hbits).
    destruct (Z.eqb_spec (ct w) 0) as [E|E].
    + exists (buf w), (b :: rest). rewrite Hout, He, <- app_assoc.
      destruct Hw as (_ & ? & _). eauto.
    + subst x. exists b, rest. rewrite Hout, He, app_nil_r. repeat split; try lia.
      intros i Hi. rewrite Hbits by (simpl; lia). by apply put_in_buf_wf.
Qed.

(** The reader over the finished header [hdr] (followed by [T]) is in step with
    the writer, whose stream held [pre] before the header. *)
Record in_step (pre hdr T : list Z) (w r : BitIO S) : Prop := {
  is_start : start r = hdr ++ T;
  is_len : buf_len r = Z.of_nat (length (hdr ++ T));
  is_off : offset r = Z.of_nat (length (emitted w)) - Z.of_nat (length pre) + 1;
  is_pre : (length pre <= length (emitted w))%nat;
  is_ct : ct r = ct w;
  is_buf : (pre ++ hdr) !! length (emitted w) = Some (buf r);
  is_ff : read0xFF r = true -> buf r < 0x80;
}.

Lemma lookup_hdr (pre hdr T : list Z) n b : (length pre <= n)%nat ->
  (pre ++ hdr) !! n = Some b ->
  nthZ 0 (hdr ++ T) (Z.of_nat n - Z.of_nat (length pre)) = b /\
  Z.of_nat n - Z.of_nat (length pre) < Z.of_nat (length (hdr ++ T)).
Proof.
  intros Hn Hl. rewrite lookup_app_r in Hl by done. split.
  - apply nthZ_lookup. rewrite <- Nat2Z.inj_sub, Nat2Z.id by done.
    apply lookup_app_l_Some, Hl.
  - apply lookup_lt_Some in Hl. rewrite length_app. lia.
Qed.

Lemma in_step_bit pre hdr T w r c w' bs w1 w2 :
  is_Some (stream w) -> wf_writer w -> putbit (Z.b2z c) w = (true, w') ->
  puts w' bs w1 -> flush w1 = (true, w2) -> emitted w2 = pre ++ hdr ->
  in_step pre hdr T w r ->
  exists r', getbit r = Ok (Z.b2z c, r') /\ in_step pre hdr T w' r'.
Proof.
  intros Hs Hw Hc Hp Hf Hout [Hst Hlen Hoff Hpre Hct Hbuf Hff].
  destruct (putbit_wf _ _ _ Hw Hc) as (Hw' & x & Hx & Hcx & Ew' & Hcase).
  destruct (putbit_emitted _ _ _ Hs Hc) as [Hs' He].
  destruct (pending_byte _ _ _ _ Hs' Hw' Hp Hf) as (b & rest & Hb & Hbr & Hbits).
  assert (Z.testbit b (ct x - 1) = c) as Hbit.
  { rewrite Hbits by (rewrite Ew'; simpl; lia). rewrite Ew'. by apply put_in_buf_wf. }
  assert (ct w' = ct x - 1) as Hctw' by by rewrite Ew'.
  assert (0 < ct x) by (destruct Hx; lia).
  assert ((pre ++ hdr) !! length (emitted w') = Some b) as Hb'.
  { rewrite <- Hout, Hb. by rewrite lookup_app_r, Nat.sub_diag by lia. }
  unfold getbit. rewrite Hct. destruct (Z.eqb_spec (ct w) 0) as [E|E].
  - assert (buf r = buf w) as Ebuf.
    { rewrite <- Hout, Hb, He, <- app_assoc, lookup_app_r, Nat.sub_diag in Hbuf by lia.
      simpl in Hbuf. congruence. }
    destruct (write8u_wf _ _ Hw Hcase) as (_ & Hb0 & Hcx').
    rewrite He, length_app in Hb'. simpl in Hb'.
    destruct (lookup_hdr pre hdr T (length (emitted w) + 1) b) as [Hn Hlt]; [lia|done|].
    unfold bytein. rewrite Hoff, Hlen, Hst.
    destruct (Z.eqb_spec (Z.of_nat (length (emitted w)) - Z.of_nat (length pre) + 1)
                         (Z.of_nat (length (hdr ++ T)))); [lia|].
    destruct (read0xFF r && (144 <=? buf r)) eqn:Em.
    { apply andb_true_iff in Em as [?%Hff ?]. lia. }
    simpl. eexists. split.
    { do 2 f_equal. rewrite Ebuf, <- Hcx', b2z_testbit by lia. f_equal.
      rewrite <- Hbit. f_equal. rewrite <- Hn. f_equal. lia. }
    assert (nthZ 0 (hdr ++ T) (Z.of_nat (length (emitted w)) - Z.of_nat (length pre) + 1) = b)
      as Hnb by (rewrite <- Hn; f_equal; lia).
    split; simpl; rewrite ?He, ?length_app; simpl length; try done; try lia.
    + by rewrite Ebuf, Hctw', Hcx'.
    + by rewrite Hnb.
    + rewrite Hnb, Ebuf. intros E255. rewrite E255 in Hcx'.
      apply (bits_lt b 7); [lia|lia|]. intros i Hi.
      rewrite Hbits by (rewrite Hctw'; lia).
      rewrite Ew'. destruct (put_in_buf_wf x c Hx Hcx) as (_ & Hup & _).
      rewrite Hup by lia. rewrite Hb0. apply Z.testbit_0_l.
  - subst x. rewrite app_nil_r in He. rewrite He in Hb'.
    assert (buf r = b) as Ebuf by congruence.
    simpl. eexists. split.
    { by rewrite Hct, Ebuf, b2z_testbit, Hbit by lia. }
    split; simpl; rewrite ?He; done || lia.
Qed.

Lemma in_step_bits pre hdr T bs w r w1 w2 :
  is_Some (stream w) -> wf_writer w -> puts w bs w1 -> flush w1 = (true, w2) ->
  emitted w2 = pre ++ hdr -> in_step pre hdr T w r ->
  exists r1, gets r bs r1 /\ in_step pre hdr T w1 r1 /\ wf_writer w1 /\ is_Some (stream w1).
Proof.
  revert w r; induction bs as [|c bs IH]; intros w r Hs Hw Hp Hf Hout Hi.
  - injection Hp as ->. exists r. by rewrite gets_nil.
  - apply bseq_true in Hp as (w' & Hc & Hp).
    destruct (in_step_bit _ _ _ _ _ _ _ _ _ _ Hs Hw Hc Hp Hf Hout Hi) as (r' & Hg & Hi').
    destruct (putbit_wf _ _ _ Hw Hc) as [Hw' _]. destruct (putbit_emitted _ _ _ Hs Hc) as [Hs' _].
    destruct (IH _ _ Hs' Hw' Hp Hf Hout Hi') as (r1 & Hg1 & ?).
    exists r1. rewrite gets_cons. eauto.
Qed.

Lemma wf_writer_init (st : S) : wf_writer (BitIO_stream st true).
Proof. unfold wf_writer; simpl. split; [lia|split; [lia|intros; apply Z.testbit_0_l]]. Qed.

(** The state the first read reaches by loading the first byte. *)
Definition primed_reader (bytes : list Z) : BitIO S :=
  mkBitIO bytes 1 (Z.of_nat (length bytes)) (nthZ 0 bytes 0) 8 None false.

Lemma gets_primed bytes b bs r1 : bytes <> [] ->
  gets (primed_reader bytes) (b :: bs) r1 ->
  gets (BitIO_buffer bytes (Z.of_nat (length bytes)) false) (b :: bs) r1.
Proof.
  intros Hl. rewrite !gets_cons. intros (s1 & Hb & Hg). exists s1. split; [|done].
  destruct bytes as [|x bytes]; [done|]. exact Hb.
Qed.

Lemma readFinalHeaderByte_in_step pre hdr T w r w2 :
  is_Some (stream w) -> wf_writer w -> flush w = (true, w2) -> emitted w2 = pre ++ hdr ->
  in_step pre hdr T w r ->
  exists r2, readFinalHeaderByte r = Ok r2 /\ numBytes r2 = Z.of_nat (length hdr).
Proof.
  intros Hs Hw Hf Hout [Hst Hlen Hoff Hpre Hct Hbuf Hff].
  pose proof (flush_emitted _ _ Hs Hw Hf) as He. rewrite Hout in He.
  assert (buf r = buf w) as Ebuf.
  { rewrite He, lookup_app_r, Nat.sub_diag in Hbuf by lia. simpl in Hbuf. congruence. }
  apply (f_equal length) in He. rewrite !length_app in He. simpl in He.
  unfold readFinalHeaderByte. rewrite Ebuf. destruct (buf w =? 255); simpl in *.
  - unfold bytein. rewrite Hoff, Hlen. destruct (Z.eqb_spec (Z.of_nat (length (emitted w)) - Z.of_nat (length pre) + 1)
                         (Z.of_nat (length (hdr ++ T)))); [rewrite length_app in *; lia|].
    destruct (read0xFF r && (144 <=? buf r)) eqn:Em.
    { apply andb_true_iff in Em as [?%Hff ?]. lia. }
    eexists. split; [done|]. unfold numBytes. simpl. lia.
  - eexists. split; [done|]. unfold numBytes. simpl. lia.
Qed.

(** Bits written to a stream and flushed are the bits the reader delivers
    from the emitted bytes, whatever follows them, and after
    [readFinalHeaderByte] the reader has consumed exactly those bytes. *)
Lemma bits_roundtrip (st : S) (bs : list bool) (T : list Z) w1 w2 :
  bs <> [] -> puts (BitIO_stream st true) bs w1 -> flush w1 = (true, w2) ->
  exists hdr r1 r2, emitted w2 = stream_contents st ++ hdr /\
    gets (BitIO_buffer (hdr ++ T) (Z.of_nat (length (hdr ++ T))) false) bs r1 /\
    readFinalHeaderByte r1 = Ok r2 /\ numBytes r2 = Z.of_nat (length hdr).
Proof.
  intros Hne Hp Hf. set (w := BitIO_stream st true) in *.
  assert (is_Some (stream w)) as Hs by (simpl; eauto).
  pose proof (wf_writer_init st) as Hw.
  destruct (pending_byte _ _ _ _ Hs Hw Hp Hf) as (b & rest & Hout & Hb & _).
  set (hdr := b :: rest) in *.
  assert (in_step (stream_contents st) hdr T w (primed_reader (hdr ++ T))) as Hi.
  { split; [done|done|cbn; lia|done|done| |done].
    change (emitted w) with (stream_contents st). by rewrite lookup_app_r, Nat.sub_diag by lia. }
  destruct (in_step_bits _ _ _ _ _ _ _ _ Hs Hw Hp Hf Hout Hi) as (r1 & Hg & Hi1 & Hw1 & Hs1).
  destruct (readFinalHeaderByte_in_step _ _ _ _ _ _ Hs1 Hw1 Hf Hout Hi1) as (r2 & Hr2 & Hn).
  exists hdr, r1, r2. split; [done|]. split; [|done].
  destruct bs as [|c bs]; [done|]. by apply gets_primed.
Qed.

(** The same, for a possibly empty sequence. *)
Lemma reader_of_writer (st : S) (bs : list bool) (T : list Z) w1 w2 :
  puts (BitIO_stream st true) bs w1 -> flush w1 = (true, w2) ->
  exists hdr r1, emitted w2 = stream_contents st ++ hdr /\
    gets (BitIO_buffer (hdr ++ T) (Z.of_nat (length (hdr ++ T))) false) bs r1.
Proof.
  intros Hp Hf. destruct bs as [|b bs].
  - destruct (pending_byte [] (BitIO_stream st true) w1 w2) as (b & rest & Hout & _); eauto.
    { apply wf_writer_init. }
    exists (b :: rest). eexists. split; [done|]. by apply gets_nil.
  - destruct (bits_roundtrip st (b :: bs) T w1 w2) as (hdr & r1 & r2 & ? & ? & _); eauto.
Qed.

(** *** No marker inside a header *)

(** Every 0xFF byte is followed by a byte below 0x80, so no marker code
    (0xFF90 and above) can be read out of the sequence. *)
Definition stuffed (l : list Z) : Prop :=
  forall i, l !! i = Some 255 -> exists b, l !! Datatypes.S i = Some b /\ b < 128.

Lemma stuffed_suffix bs w w1 w2 : is_Some (stream w) -> wf_writer w ->
  puts w bs w1 -> flush w1 = (true, w2) ->
  exists out, emitted w2 = emitted w ++ out /\ stuffed out /\
    exists b rest, out = b :: rest /\ (ct w <= 7 -> Z.testbit (buf w) 7 = false -> b < 128).
Proof.
  revert w; induction bs as [|c bs IH]; intros w Hs Hw Hp Hf.
  - injection Hp as ->. exists (buf w1 :: (if buf w1 =? 255 then [0] else [])).
    split; [by apply flush_emitted|]. destruct Hw as (_ & Hb & _). split.
    + intros i. destruct (Z.eqb_spec (buf w1) 255); destruct i as [|[|i]]; simpl; intros [= ?];
        try lia. by exists 0.
    + eexists _, _. split; [done|]. intros _ H7. apply (bits_lt _ 7); [lia|lia|].
      intros i Hi. destruct (Z.eq_dec i 7) as [->|]; [done|]. by apply (testbit_small _ 8); lia.
  - apply bseq_true in Hp as (w' & Hc & Hp).
    destruct (putbit_wf _ _ _ Hw Hc) as (Hw' & x & Hx & Hcx & Ew' & Hcase).
    destruct (putbit_emitted _ _ _ Hs Hc) as [Hs' He].
    destruct (IH _ Hs' Hw' Hp Hf) as (out & Hout & Hst & b & rest & -> & Hhead).
    destruct (put_in_buf_wf x c Hx Hcx) as (_ & Hup & _).
    assert (ct w' = ct x - 1) as Hctw' by by rewrite Ew'.
    destruct (Z.eqb_spec (ct w) 0) as [E|E].
    + exists (buf w :: b :: rest). split; [by rewrite Hout, He, <- app_assoc|].
      destruct (write8u_wf _ _ Hw Hcase) as (_ & Hb0 & Hc0). split.
      * intros [|i]; simpl; [|apply Hst]. intros [= E255]. exists b. split; [done|].
        rewrite E255 in Hc0. simpl in Hc0. apply Hhead; [lia|].
        rewrite Ew', Hup, Hb0 by lia. apply Z.testbit_0_l.
      * eexists _, _. split; [done|]. intros _ H7. destruct Hw as (_ & Hb & _).
        apply (bits_lt _ 7); [lia|lia|].
        intros i Hi. destruct (Z.eq_dec i 7) as [->|]; [done|]. by apply (testbit_small _ 8); lia.
    + subst x. rewrite app_nil_r in He. exists (b :: rest). rewrite <- He. split; [done|].
      split; [done|]. eexists _, _. split; [done|]. intros Hc7 H7. apply Hhead; [lia|].
      rewrite Ew', Hup by lia. done.
Qed.

(** C17: A flushed packet header never contains a marker code: each 0xFF byte
    of it is followed, inside the header, by a byte below 0x80. *)
Theorem bitio_no_marker (st : S) (bs : list bool) w1 w2 :
  puts (BitIO_stream st true) bs w1 -> flush w1 = (true, w2) ->
  exists hdr, emitted w2 = stream_contents st ++ hdr /\ stuffed hdr.
Proof.
  intros Hp Hf.
  destruct (stuffed_suffix bs (BitIO_stream st true) w1 w2) as (out & Hout & Hst & _); eauto.
  apply wf_writer_init.
Qed.

(** *** Simulated writing *)

(** The buffer-less writer that only counts bytes, in step with a stream
    writer that has emitted [n] bytes of the header. *)
Definition counts_like (n : Z) (w v : BitIO S) : Prop :=
  stream v = None /\ buf v = buf w /\ ct v = ct w /\ offset v = n /\ 0 <= n <= buf_len v.

Lemma write8u_counts n w v w' : is_Some (stream w) -> counts_like n w v ->
  write8u w = (true, w') ->
  exists v', buf_len v' = buf_len v /\
    ((write8u v = (true, v') /\ counts_like (n + 1) w' v') \/
     (write8u v = (false, v') /\ n = buf_len v)).
Proof.
  intros [st Hst] (Hn & Hb & Hc & Ho & Hr). unfold write8u. rewrite Hst, Hn, Ho.
  destruct (stream_write8u (buf w) st) as [[] st']; [|done]. intros [= <-].
  destruct (Z.eqb_spec n (buf_len v)) as [E|E].
  - exists v. split; [done|]. by right.
  - exists (reset_buf v (n + 1) None). split; [done|]. left. split; [done|].
    unfold counts_like. simpl. rewrite Hb. repeat split; lia.
Qed.

Lemma putbit_counts n w v b w' : is_Some (stream w) -> counts_like n w v ->
  putbit (Z.b2z b) w = (true, w') ->
  let m := n + (if ct w =? 0 then 1 else 0) in
  exists v', buf_len v' = buf_len v /\
    ((putbit (Z.b2z b) v = (true, v') /\ counts_like m w' v') \/
     (putbit (Z.b2z b) v = (false, v') /\ buf_len v < m)).
Proof.
  intros Hs Hl. pose proof Hl as (Hn & Hb & Hc & Ho & Hr). unfold putbit. rewrite Hc. simpl.
  destruct (ct w =? 0).
  - destruct (write8u w) as [[] w1] eqn:E; [|done]. intros [= <-].
    destruct (write8u_counts n w v w1 Hs Hl E) as (v' & Hlen & [[-> Hl']|[-> Hfull]]).
    + exists (put_in_buf (Z.b2z b) v'). split; [done|]. left. split; [done|].
      destruct Hl' as (? & Hb' & Hc' & ? & ?). unfold counts_like; simpl. by rewrite Hb', Hc'.
    + exists v'. split; [done|]. right. split; [done|lia].
  - intros [= <-]. exists (put_in_buf (Z.b2z b) v). split; [done|]. left. split; [done|].
    unfold counts_like; simpl. rewrite Hb, Hc. repeat split; (done || lia).
Qed.

Lemma flush_counts n w v w' : is_Some (stream w) -> wf_writer w -> counts_like n w v ->
  flush w = (true, w') ->
  let m := n + 1 + (if buf w =? 255 then 1 else 0) in
  exists v', buf_len v' = buf_len v /\
    ((flush v = (true, v') /\ numBytes v' = m /\ m <= buf_len v) \/
     (flush v = (false, v') /\ buf_len v < m)).
Proof.
  intros Hs Hw Hl. unfold flush. simpl.
  destruct (write8u w) as [[] w1] eqn:E; [|done].
  destruct (write8u_wf _ _ Hw E) as (Hw1 & Hb1 & Hc1).
  destruct (write8u_emitted _ _ Hs E) as [_ Hs1].
  destruct (write8u_counts n w v w1 Hs Hl E) as (v1 & Hlen & [[-> Hl1]|[-> Hfull]]).
  2: { intros _. exists v1. split; [done|]. right. split; [done|]. destruct (_ =? _); lia. }
  pose proof Hl1 as (_ & _ & Hcv & Ho & Hr). rewrite Hcv, Hc1.
  destruct (buf w =? 255); simpl; intros Hf.
  - destruct (write8u_counts _ w1 v1 w' Hs1 Hl1 Hf) as (v2 & Hlen2 & [[-> Hl2]|[-> Hfull]]).
    + destruct Hl2 as (_ & _ & _ & Ho2 & Hr2). exists v2. unfold numBytes. split; [lia|]. left.
      split; [done|lia].
    + exists v2. split; [lia|]. right. split; [done|lia].
  - exists v1. unfold numBytes. split; [done|]. left. split; [done|lia].
Qed.

Lemma put_flush_counts bs n w v w1 w2 :
  is_Some (stream w) -> wf_writer w -> counts_like n w v -> puts w bs w1 -> flush w1 = (true, w2) ->
  let m := n + (Z.of_nat (length (emitted w2)) - Z.of_nat (length (emitted w))) in
  exists v2, ((put_bits bs ;;; flush) v = (true, v2) /\ numBytes v2 = m /\ m <= buf_len v) \/
             ((put_bits bs ;;; flush) v = (false, v2) /\ buf_len v < m).
Proof.
  simpl. revert n w v; induction bs as [|b bs IH]; intros n w v Hs Hw Hl Hp Hf.
  - injection Hp as ->. rewrite (flush_emitted _ _ Hs Hw Hf), length_app.
    destruct (flush_counts n w1 v w2 Hs Hw Hl Hf) as (v2 & _ & Hcase).
    exists v2. unfold bseq, bret. simpl. destruct (buf w1 =? 255); simpl length;
      (destruct Hcase as [(-> & ? & ?)|(-> & ?)]; [left|right]; (split; [done|lia])).
  - apply bseq_true in Hp as (w' & Hc & Hp).
    destruct (putbit_wf _ _ _ Hw Hc) as [Hw' _].
    destruct (putbit_emitted _ _ _ Hs Hc) as [Hs' He].
    apply (f_equal length) in He. rewrite length_app in He.
    destruct (putbit_counts n w v b w' Hs Hl Hc) as (v' & Hlen & [[Hv Hl']|[Hv Hfull]]).
    + destruct (IH _ _ _ Hs' Hw' Hl' Hp Hf) as (v2 & Hcase). exists v2.
      unfold bseq in *. simpl. unfold bseq. rewrite Hv.
      destruct (ct w =? 0); simpl length in He;
        (destruct Hcase as [(-> & ? & ?)|(-> & ?)]; [left|right]; (split; [done|lia])).
    + destruct (stuffed_suffix _ _ _ _ Hs' Hw' Hp Hf) as (out & Hout & _).
      exists v'. right. unfold bseq. simpl. unfold bseq. rewrite Hv. split; [done|].
      rewrite Hout, length_app. destruct (ct w =? 0); simpl length in He; lia.
Qed.

(** C38: Rate control writes packet headers to a writer with no buffer to learn
    their size.  That simulated write counts exactly the bytes the stream
    write emits, and it fails exactly when they exceed the byte budget. *)
Theorem bitio_simulated_size (st : S) (bs : list bool) (budget : Z) w1 w2 :
  0 <= budget -> puts (BitIO_stream st true) bs w1 -> flush w1 = (true, w2) ->
  let size := Z.of_nat (length (emitted w2)) - Z.of_nat (length (stream_contents st)) in
  exists v, ((put_bits bs ;;; flush) (BitIO_buffer [] budget true) = (true, v) /\
             numBytes v = size /\ size <= budget) \/
            ((put_bits bs ;;; flush) (BitIO_buffer [] budget true) = (false, v) /\ budget < size).
Proof.
  intros Hb Hp Hf.
  apply (put_flush_counts bs 0 (BitIO_stream st true) (BitIO_buffer [] budget true) w1 w2); eauto.
  - apply wf_writer_init.
  - unfold counts_like; simpl. repeat split; lia.
Qed.

(** *** Header items *)

(** The fields a packet header is made of. *)
Inductive item :=
| IBits (v n : Z)     (* write(v, n) / read(n) *)
| IComma (n : Z)      (* putcommacode / getcommacode *)
| IPasses (n : Z).    (* putnumpasses / getnumpasses *)

Definition item_ok (i : item) : Prop :=
  match i with
  | IBits v n => 1 <= n <= 32 /\ 0 <= v < 2 ^ n
  | IComma n => 0 <= n <= 255
  | IPasses n => 1 <= n <= 164
  end.

Definition put_item (i : item) : bstep (BitIO S) :=
  match i with
  | IBits v n => write v n
  | IComma n => putcommacode n
  | IPasses n => putnumpasses n
  end.

(** Read the kind (and width) of field that [i] is. *)
Definition get_item (i : item) (r : BitIO S) : option (result bio_exception (Z * BitIO S)) :=
  match i with
  | IBits _ n => Some (read 32 n r)
  | IComma _ => getcommacode r
  | IPasses _ => Some (getnumpasses r)
  end.

Definition item_value (i : item) : Z :=
  match i with IBits v _ => v | IComma n => n | IPasses n => n end.
Definition item_code (i : item) : list bool :=
  match i with IBits v n => bits_of v (Z.to_nat n) | IComma n => commacode n | IPasses n => numpasses_code n end.

Fixpoint put_items (l : list item) : bstep (BitIO S) :=
  match l with [] => bret | i :: l => put_item i ;;; put_items l end.

Inductive get_items : list item -> BitIO S -> BitIO S -> Prop :=
| get_items_nil r : get_items [] r r
| get_items_cons i l r r1 r2 :
    get_item i r = Some (Ok (item_value i, r1)) -> get_items l r1 r2 -> get_items (i :: l) r r2.

Lemma put_items_bits l w : Forall item_ok l -> put_items l w = put_bits (mjoin (item_code <$> l)) w.
Proof.
  intros Hok. revert w; induction Hok as [|i l Hi Hok IH]; intros w; [done|].
  cbn [put_items fmap list_fmap mjoin list_join]. rewrite put_bits_app. unfold bseq.
  replace (put_item i w) with (put_bits (item_code i) w).
  - destruct (put_bits _ w) as [[] ?]; [apply IH|done].
  - destruct i; simpl in *; symmetry;
      [apply write_bits|apply putcommacode_bits|by apply putnumpasses_bits].
Qed.

Lemma get_items_gets l r r' : wf_reader r -> Forall item_ok l ->
  gets r (mjoin (item_code <$> l)) r' -> get_items l r r'.
Proof.
  intros Hw Hok. revert r Hw; induction Hok as [|i l Hi Hok IH]; intros r Hw.
  - intros ->%gets_nil. constructor.
  - intros (r1 & Hg & Hg')%gets_app. apply get_items_cons with r1.
    + destruct i; simpl in *; [|by apply getcommacode_gets|f_equal; by apply getnumpasses_gets].
      f_equal. apply read_bits_of; [lia|lia|done].
    + apply IH; [|done]. by eapply gets_progress.
Qed.

Lemma items_nonempty l : l <> [] -> Forall item_ok l -> mjoin (item_code <$> l) <> [].
Proof.
  intros Hne Hok. destruct Hok as [|i l Hi _]; [done|]. cbn.
  destruct i as [v n|n|n]; simpl in *.
  - destruct (Z.to_nat n) eqn:E; [lia|done].
  - unfold commacode. by destruct (Z.to_nat n).
  - unfold numpasses_code. by repeat case_match.
Qed.

(** C30: A packet header written as any sequence of fixed-width fields, comma
    codes and pass counts reads back field by field, and reading it consumes
    exactly the bytes that were written. *)
Theorem header_items_roundtrip (st : S) (l : list item) (T : list Z) w1 w2 :
  l <> [] -> Forall item_ok l ->
  put_items l (BitIO_stream st true) = (true, w1) -> flush w1 = (true, w2) ->
  exists hdr r1 r2, emitted w2 = stream_contents st ++ hdr /\
    get_items l (BitIO_buffer (hdr ++ T) (Z.of_nat (length (hdr ++ T))) false) r1 /\
    readFinalHeaderByte r1 = Ok r2 /\ numBytes r2 = Z.of_nat (length hdr).
Proof.
  intros Hne Hok Hp Hf. rewrite put_items_bits in Hp by done.
  destruct (bits_roundtrip st _ T w1 w2 (items_nonempty _ Hne Hok) Hp Hf)
    as (hdr & r1 & r2 & Hout & Hg & Hr).
  exists hdr, r1, r2. split; [done|]. split; [|done]. apply get_items_gets; [|done|done].
  unfold wf_reader; simpl; lia.
Qed.
End RoundTrip.

(** ** A concrete stream *)

(** A writer into a memory buffer of [mem_len] bytes: the memory case of
    [BufferedStream::write8u], which forwards one byte to [memStreamWrite]. *)
Record MemWriter := mkMemWriter { mem_bytes : list Z; mem_len : Z }.

#[export] Instance MemWriter_writer : IStreamWriter MemWriter := fun b m =>
  if Z.of_nat (length (mem_bytes m)) <? mem_len m
  then (true, mkMemWriter (mem_bytes m ++ [b]) (mem_len m)) else (false, m).

#[export] Program Instance MemWriter_laws : IStreamWriterLaws MemWriter :=
  {| stream_contents := mem_bytes |}.
Next Obligation. unfold stream_write8u, MemWriter_writer. intros b s s'. case_match; naive_solver. Qed.

(** Witness: a header of three fields written to a 16-byte buffer. *)
Definition sample_items : list item := [IBits 1 1; IComma 3; IPasses 40; IBits 0x3ff 12].
Definition sample_stream : MemWriter := mkMemWriter [7] 16.

Lemma header_items_roundtrip_witness :
  exists hdr r1 r2,
    get_items (S := MemWriter) sample_items
      (BitIO_buffer (hdr ++ [1; 2]) (Z.of_nat (length (hdr ++ [1; 2]))) false) r1 /\
    readFinalHeaderByte r1 = Ok r2 /\ numBytes r2 = Z.of_nat (length hdr).
Proof.
  destruct (header_items_roundtrip sample_stream sample_items [1; 2]
              (snd (put_items sample_items (BitIO_stream sample_stream true)))
              (snd (flush (snd (put_items sample_items (BitIO_stream sample_stream true))))))
    as (hdr & r1 & r2 & _ & H).
  - done.
  - repeat constructor; simpl; lia.
  - vm_compute. reflexivity.
  - vm_compute. reflexivity.
  - exists hdr, r1, r2. exact H.
Defined.

Lemma bitio_no_marker_witness :
  exists hdr, hdr = [240; 255; 32] /\ stuffed hdr.
Proof.
  destruct (bitio_no_marker sample_stream (bits_of 0xf0ff 16 ++ bits_of 0x8 5)
    (snd (put_bits (bits_of 0xf0ff 16 ++ bits_of 0x8 5) (BitIO_stream sample_stream true)))
    (snd (flush (snd (put_bits (bits_of 0xf0ff 16 ++ bits_of 0x8 5) (BitIO_stream sample_stream true))))))
    as (hdr & Hout & H).
  - vm_compute. reflexivity.
  - vm_compute. reflexivity.
  - exists hdr. split; [|exact H]. vm_compute in Hout. by injection Hout.
Defined.

Lemma bitio_simulated_size_witness :
  exists v, (put_bits (bits_of 0xf0ff 16) ;;; flush) (BitIO_buffer (S := MemWriter) [] 2 true) = (false, v).
Proof.
  destruct (bitio_simulated_size sample_stream (bits_of 0xf0ff 16) 2
    (snd (put_bits (bits_of 0xf0ff 16) (BitIO_stream sample_stream true)))
    (snd (flush (snd (put_bits (bits_of 0xf0ff 16) (BitIO_stream sample_stream true))))))
    as (v & [(_ & _ & H)|(H & _)]).
  - lia.
  - vm_compute. reflexivity.
  - vm_compute. reflexivity.
  - vm_compute in H. by destruct H.
  - exists v. exact H.
Defined.
