(* ===== verification/TagTree.v ===== *)
(** Tag trees of packet headers: [TagTree<T>] of src/src/lib/core/t2/TagTree.h.

    The theorems show that [buildTree] links every node to an in-range parent
    with a larger index (so the climbs terminate and the node stack and level
    arrays are large enough for trees up to 2^14 leaves a side), that [set]
    keeps each node's value the lower bound of its children's, and that
    [decode] fed with the bits of [encode] learns the leaf's value up to the
    threshold and stays synchronised with the encoder. *)
From S2P Require Import Prelude BitIO.

(** ** The tree *)

Record Node := mkNode { value : Z; low : Z; known : bool }.
#[export] Instance Node_inhabited : Inhabited Node := populate (mkNode 0 0 false).

Record TagTree := mkTagTree {
  leavesWidth : Z;       (* uint16_t leavesWidth_ *)
  leavesHeight : Z;      (* uint16_t leavesHeight_ *)
  nodes : list Node;     (* std::vector<Node> nodes_ *)
  parents : list Z;      (* std::vector<uint32_t> parents_, UINT32_MAX = root *)
  leafCache : list Z;    (* std::vector<T> leafCache_ *)
}.

Section TagTree.
(** [maxT] is [std::numeric_limits<T>::max()]: 255 for the missing-bit-plane
    tree ([uint8_t]), 65535 for the inclusion tree ([uint16_t]). *)
Variable maxT : Z.
Context {S : Type} `{Stream : IStreamWriter S}.

Definition getUninitializedValue : Z := maxT.

Definition fresh_node : Node := mkNode getUninitializedValue 0 false.

Definition reset (t : TagTree) : TagTree :=
  mkTagTree (leavesWidth t) (leavesHeight t)
            ((fun _ => fresh_node) <$> nodes t) (parents t)
            ((fun _ => getUninitializedValue) <$> leafCache t).

(** *** [buildTree] *)

(** The do-while loop over levels: the sizes [(resW[l], resH[l])] of the levels
    built, leaves first.  [None] when a write past [resW[15]] or [resH[15]]
    would occur: the arrays have 16 entries and iteration [l] writes entry
    [l + 1]. *)
Fixpoint level_sizes (l : nat) (w h : Z) (fuel : nat) : option (list (Z * Z)) :=
  match fuel with
  | O => None
  | Datatypes.S fuel =>
      if (15 <=? Z.of_nat l) then None
      else
        let nodesPerLevel := u32 (w * h) in
        let w' := u16 (Z.shiftr (w + 1) 1) in
        let h' := u16 (Z.shiftr (h + 1) 1) in
        if 1 <? nodesPerLevel
        then (fun rest => (w, h) :: rest) <$> level_sizes (Datatypes.S l) w' h' fuel
        else Some [(w, h)]
  end.

(** One level of parent links: [for j < h, for k < w]. *)
Definition level_parents (parentBase w h wNext : Z) : list Z :=
  mjoin ((fun j => (fun k => u32 (parentBase + Z.shiftr j 1 * wNext + Z.shiftr k 1)) <$> seqZ 0 w)
           <$> seqZ 0 h).

(** The links of all levels but the last; the last level keeps the
    [UINT32_MAX] that [parents_.resize] filled in. *)
Fixpoint link_levels (parentBase : Z) (levels : list (Z * Z)) : list Z :=
  match levels with
  | (w, h) :: (((w', h') :: _) as rest) =>
      level_parents parentBase w h w' ++ link_levels (parentBase + w' * h') rest
  | [(w, h)] => replicate (Z.to_nat (w * h)) UINT32_MAX
  | [] => []
  end.

Definition totalNodes (levels : list (Z * Z)) : Z :=
  foldr (fun wh acc => u32 (wh.1 * wh.2) + acc) 0 levels.

Definition buildTree (w h : Z) : option TagTree :=
  (fun levels =>
     mkTagTree w h (replicate (Z.to_nat (totalNodes levels)) (mkNode 0 0 false))
               (link_levels (w * h) levels)
               (replicate (Z.to_nat (w * h)) 0)) <$> level_sizes 0 w h 16.

(** The constructor. *)
Definition TagTree_new (w h : Z) : option TagTree := reset <$> buildTree w h.

(** *** Access to nodes *)

Definition node_at (t : TagTree) (i : Z) : Node := nthZ (mkNode 0 0 false) (nodes t) i.
Definition parent_at (t : TagTree) (i : Z) : Z := nthZ UINT32_MAX (parents t) i.

Definition set_nodes (t : TagTree) (ns : list Node) : TagTree :=
  mkTagTree (leavesWidth t) (leavesHeight t) ns (parents t) (leafCache t).

(** [set]: lower the values on the path to the root; [None] on fuel exhaustion. *)
Fixpoint set_loop (fuel : nat) (node v : Z) (t : TagTree) : option TagTree :=
  match fuel with
  | O => None
  | Datatypes.S fuel =>
      if negb (node =? UINT32_MAX) && (v <? value (node_at t node)) then
        let n := node_at t node in
        set_loop fuel (parent_at t node) v
          (set_nodes t (<[Z.to_nat node := mkNode v (low n) (known n)]> (nodes t)))
      else Some t
  end.

Definition set (leafno v : Z) (t : TagTree) : option TagTree :=
  set_loop (Datatypes.S (length (nodes t))) (u32 leafno) v t.

(** The climb to the root: [nodeStack] with the root on top, the path from the
    root down to the leaf. *)
Fixpoint climb (fuel : nat) (t : TagTree) (node : Z) (stack : list Z) : option (list Z) :=
  match fuel with
  | O => None
  | Datatypes.S fuel =>
      if parent_at t node =? UINT32_MAX then Some (node :: stack)
      else climb fuel t (parent_at t node) (node :: stack)
  end.

Definition path (t : TagTree) (leafno : Z) : option (list Z) :=
  climb (length (nodes t)) t (u32 leafno) [].

(** *** [encode] *)

(** [while(low < threshold)] at one node. *)
Fixpoint encode_node (fuel : nat) (threshold : Z) (l : Z) (n : Node) (bio : BitIO S)
  : bool * BitIO S * Z * Node :=
  match fuel with
  | O => (true, bio, l, n)
  | Datatypes.S fuel =>
      if l <? threshold then
        if value n <=? l then
          if known n then (true, bio, l, n)
          else
            match write1 1 bio with
            | (true, bio) => (true, bio, l, mkNode (value n) (low n) true)
            | (false, bio) => (false, bio, l, n)
            end
        else
          match write1 0 bio with
          | (true, bio) => encode_node fuel threshold (l + 1) n bio
          | (false, bio) => (false, bio, l, n)
          end
      else (true, bio, l, n)
  end.

(** [if(n.low < low) n.low = low; else low = n.low;] *)
Definition enter_node (l : Z) (n : Node) : Z * Node :=
  if low n <? l then (l, mkNode (value n) l (known n)) else (low n, n).

(** The descent from the root, over the remaining path. *)
Fixpoint encode_path (threshold l : Z) (p : list Z) (ns : list Node) (bio : BitIO S)
  : bool * BitIO S * list Node :=
  match p with
  | [] => (true, bio, ns)
  | i :: p =>
      let (l, n) := enter_node l (nthZ (mkNode 0 0 false) ns i) in
      match encode_node (Z.to_nat (threshold - l)) threshold l n bio with
      | (true, bio, l, n) =>
          encode_path threshold l p (<[Z.to_nat i := mkNode (value n) l (known n)]> ns) bio
      | (false, bio, _, n) => (false, bio, <[Z.to_nat i := n]> ns)
      end
  end.

Definition encode (bio : BitIO S) (leafno threshold : Z) (t : TagTree)
  : option (bool * BitIO S * TagTree) :=
  (fun p =>
     match encode_path threshold 0 p (nodes t) bio with
     | (ok, bio, ns) => (ok, bio, set_nodes t ns)
     end) <$> path t leafno.

(** *** [decode] *)

(** [while(low < threshold && low < n.value)] at one node. *)
Fixpoint decode_node (fuel : nat) (threshold : Z) (l : Z) (n : Node) (bio : BitIO S)
  : result bio_exception (BitIO S * Z * Node) :=
  match fuel with
  | O => Ok (bio, l, n)
  | Datatypes.S fuel =>
      if (l <? threshold) && (l <? value n) then
        let* (b, bio) := read1 bio in
        if negb (b =? 0) then Ok (bio, l, mkNode l (low n) (known n))
        else decode_node fuel threshold (l + 1) n bio
      else Ok (bio, l, n)
  end.

Fixpoint decode_path (threshold l : Z) (p : list Z) (ns : list Node) (bio : BitIO S)
  : result bio_exception (BitIO S * list Node) :=
  match p with
  | [] => Ok (bio, ns)
  | i :: p =>
      let (l, n) := enter_node l (nthZ (mkNode 0 0 false) ns i) in
      let* (bio, l, n) := decode_node (Z.to_nat (threshold - l)) threshold l n bio in
      decode_path threshold l p (<[Z.to_nat i := mkNode (value n) l (known n)]> ns) bio
  end.

(** Returns the value delivered through [*value]. *)
Definition decode (bio : BitIO S) (leafno threshold : Z) (t : TagTree)
  : option (result bio_exception (Z * BitIO S * TagTree)) :=
  if nthZ 0 (leafCache t) leafno <? threshold
  then Some (Ok (nthZ 0 (leafCache t) leafno, bio, t))
  else
    (fun p =>
       let* (bio, ns) := decode_path threshold 0 p (nodes t) bio in
       let v := value (nthZ (mkNode 0 0 false) ns (u32 leafno)) in
       Ok (v, bio,
           mkTagTree (leavesWidth t) (leavesHeight t) ns (parents t)
             (if v <? threshold then <[Z.to_nat leafno := v]> (leafCache t) else leafCache t)))
      <$> path t leafno.

End TagTree.

(** ** One node: the bits [encode] writes and [decode] reads *)
Section Sync.
Variable maxT : Z.
Context {S : Type} `{Stream : IStreamWriter S}.
Implicit Types (n m : Node) (bio r : BitIO S).

(** The bits written at a node entered with lower bound [l]. *)
Definition node_code (t l : Z) (n : Node) : list bool :=
  repeat false (Z.to_nat (Z.min t (value n) - l)) ++
  (if (value n <? t) && negb (known n) then [true] else []).

Definition low_after (t l : Z) (n : Node) : Z := Z.max l (Z.min t (value n)).
Definition known_after (t : Z) (n : Node) : bool := known n || (value n <? t).

(** Encoder node [n] and decoder node [m] agree: the decoder has the same
    lower bound and knows the value exactly when the encoder has sent it. *)
Record node_sync (n m : Node) : Prop := {
  ns_low : low m = low n;
  ns_value : value m = (if known n then value n else maxT);
  ns_range : 0 <= low n <= value n;
  ns_max : value n <= maxT;
  ns_known : known n = true -> low n = value n;
}.

Lemma encode_node_spec t n fuel l bio bio' l' n' :
  l <= value n -> (known n = true -> l = value n) -> fuel = Z.to_nat (t - l) ->
  encode_node fuel t l n bio = (true, bio', l', n') ->
  puts bio (node_code t l n) bio' /\ l' = low_after t l n /\
  n' = mkNode (value n) (low n) (known_after t n).
Proof.
  unfold node_code, low_after, known_after.
  revert l bio; induction fuel as [|fuel IH]; intros l bio Hl Hk Hf; simpl.
  - intros [= <- <- <-]. replace (Z.to_nat (Z.min t (value n) - l)) with O by lia.
    destruct (Z.ltb_spec (value n) t); [lia|]. rewrite orb_false_r. destruct n. repeat split; simpl; lia.
  - destruct (Z.ltb_spec l t) as [Hlt|]; [|lia]. destruct (Z.leb_spec (value n) l).
    + replace (Z.to_nat (Z.min t (value n) - l)) with O by lia.
      destruct (Z.ltb_spec (value n) t); [|lia]. rewrite orb_true_r.
      destruct (known n) eqn:Ek; simpl.
      * intros [= <- <- <-]. destruct n; simpl in *; subst. repeat split; lia.
      * rewrite write1_bit. destruct (put_bits _ bio) as [[] bio1] eqn:E; [|done].
        intros [= <- <- <-]. repeat split; [exact E|lia].
    + rewrite write1_bit. destruct (put_bits [Z.odd 0] bio) as [[] bio1] eqn:E; [|done]. intros Henc.
      apply IH in Henc as (Hp & Hl' & Hn'); [|lia|intros Ek; specialize (Hk Ek); lia|lia].
      replace (Z.to_nat (Z.min t (value n) - l)) with (1 + Z.to_nat (Z.min t (value n) - (l + 1)))%nat by lia.
      split; [|split; [lia|done]]. simpl. change (false :: ?x) with ([false] ++ x).
      rewrite puts_app. eauto.
Qed.

Lemma decode_node_spec t n fuel l v lo k r r' :
  l <= value n <= maxT -> t <= maxT -> (known n = true -> l = value n) ->
  v = (if known n then value n else maxT) -> fuel = Z.to_nat (t - l) ->
  gets r (node_code t l n) r' ->
  decode_node fuel t l (mkNode v lo k) r =
    Ok (r', low_after t l n, mkNode (if known_after t n then value n else maxT) lo k).
Proof.
  unfold node_code, low_after, known_after.
  revert l r; induction fuel as [|fuel IH]; intros l r Hl Ht Hk Hv Hf; simpl.
  - replace (Z.to_nat (Z.min t (value n) - l)) with O by lia.
    destruct (Z.ltb_spec (value n) t); [lia|]. rewrite orb_false_r. simpl.
    intros ->%gets_nil. subst v. do 3 f_equal. lia.
  - destruct (Z.ltb_spec l t); [|lia]. destruct (known n) eqn:Ek.
    { specialize (Hk eq_refl). subst v l. rewrite Z.ltb_irrefl. simpl.
      replace (Z.to_nat (Z.min t (value n) - value n)) with O by lia.
      rewrite andb_false_r. intros ->%gets_nil. do 3 f_equal. lia. }
    subst v. destruct (Z.ltb_spec l maxT); [|lia]. simpl.
    destruct (Z.eq_dec l (value n)) as [->|Hne].
    + replace (Z.to_nat (Z.min t (value n) - value n)) with O by lia.
      destruct (Z.ltb_spec (value n) t); [|lia]. simpl.
      intros (s1 & Hb & ->%gets_nil)%gets_cons. unfold read1. rewrite Hb. simpl. do 3 f_equal. lia.
    + replace (Z.to_nat (Z.min t (value n) - l)) with (1 + Z.to_nat (Z.min t (value n) - (l + 1)))%nat by lia.
      intros (s1 & Hb & Hg)%gets_cons. unfold read1. rewrite Hb. simpl.
      rewrite (IH (l + 1) s1) by (done || lia). do 3 f_equal. lia.
Qed.

Lemma enter_node_spec l n : l <= value n -> low n <= value n -> (known n = true -> low n = value n) ->
  enter_node l n = (Z.max l (low n), mkNode (value n) (Z.max l (low n)) (known n)) /\
  (known n = true -> Z.max l (low n) = value n).
Proof.
  intros Hl Hlo Hk. unfold enter_node. destruct (Z.ltb_spec (low n) l).
  - replace (Z.max l (low n)) with l by lia. split; [done|]. intros E; specialize (Hk E); lia.
  - replace (Z.max l (low n)) with (low n) by lia. by destruct n.
Qed.

(** ** A path *)

Abbreviation nth_node := (nthZ (mkNode 0 0 false)).

(** Along the path the values do not decrease. *)
Fixpoint path_mono (l : Z) (p : list Z) (ns : list Node) : Prop :=
  match p with
  | [] => True
  | i :: p => l <= value (nth_node ns i) /\ (Z.to_nat i < length ns)%nat /\
              path_mono (value (nth_node ns i)) p ns
  end.

Lemma path_mono_weaken l l' p ns : l' <= l -> path_mono l p ns -> path_mono l' p ns.
Proof. destruct p; simpl; [done|]. intros ? (?&?&?). repeat split; [lia|done|done]. Qed.

Lemma nth_node_insert ns i j n : (Z.to_nat i < length ns)%nat ->
  nth_node (<[Z.to_nat i := n]> ns) j = (if decide (Z.to_nat i = Z.to_nat j) then n else nth_node ns j).
Proof.
  intros Hi. rewrite !nthZ_default. case_decide as E.
  - rewrite <- E, list_lookup_insert_eq by done. done.
  - by rewrite list_lookup_insert_ne.
Qed.

(** Same values everywhere, nothing forgotten. *)
Definition node_grows (n n' : Node) : Prop := value n' = value n /\ (known n = true -> known n' = true).
Definition nodes_grow (ns ns' : list Node) : Prop := Forall2 node_grows ns ns'.

Lemma nodes_grow_refl ns : nodes_grow ns ns.
Proof. induction ns; constructor; [done|done]. Qed.

Lemma nodes_grow_trans ns1 ns2 ns3 : nodes_grow ns1 ns2 -> nodes_grow ns2 ns3 -> nodes_grow ns1 ns3.
Proof.
  unfold nodes_grow. rewrite !Forall2_lookup. intros H1 H2 i. specialize (H1 i). specialize (H2 i).
  destruct H1 as [x y [E1 K1]|]; inversion H2 as [? z [E2 K2]|]; subst; constructor.
  split; [congruence|eauto].
Qed.

Lemma nodes_grow_insert ns i n : (Z.to_nat i < length ns)%nat -> node_grows (nth_node ns i) n ->
  nodes_grow ns (<[Z.to_nat i := n]> ns).
Proof.
  intros Hi Hn. unfold nodes_grow. rewrite Forall2_lookup. intros j.
  destruct (decide (Z.to_nat i = j)) as [<-|].
  - rewrite list_lookup_insert_eq by done. destruct (lookup_lt_is_Some_2 ns (Z.to_nat i) Hi) as [x Hx].
    rewrite Hx. constructor. by rewrite (nthZ_lookup _ _ _ _ Hx) in Hn.
  - rewrite list_lookup_insert_ne by done. destruct (ns !! j); constructor. done.
Qed.

Lemma nodes_grow_nth ns ns' i : nodes_grow ns ns' -> node_grows (nth_node ns i) (nth_node ns' i).
Proof.
  intros H. rewrite !nthZ_default. pose proof (proj1 (Forall2_lookup _ _ _) H (Z.to_nat i)) as Hi.
  inversion Hi; simpl; [done|]. done.
Qed.

Lemma path_mono_grow l p ns ns' : nodes_grow ns ns' -> path_mono l p ns -> path_mono l p ns'.
Proof.
  intros Hg. revert l; induction p as [|i p IH]; intros l; simpl; [done|].
  destruct (nodes_grow_nth _ _ i Hg) as [-> _]. rewrite <- (Forall2_length Hg).
  intros (?&?&?). auto.
Qed.

Lemma sync_nth ns ms i : (Z.to_nat i < length ns)%nat -> Forall2 node_sync ns ms ->
  node_sync (nth_node ns i) (nth_node ms i) /\ (Z.to_nat i < length ms)%nat.
Proof.
  intros Hi H. destruct (lookup_lt_is_Some_2 ns (Z.to_nat i) Hi) as [n Hn].
  destruct (Forall2_lookup_l _ _ _ _ _ H Hn) as (m & Hm & Hs).
  rewrite (nthZ_lookup _ _ _ _ Hn), (nthZ_lookup _ _ _ _ Hm). split; [done|]. by apply lookup_lt_Some in Hm.
Qed.

(** The step of [encode_path]/[decode_path] at one node keeps the pair in sync. *)
Lemma node_sync_after t l n m : l <= value n -> node_sync n m ->
  let l1 := Z.max l (low n) in
  node_sync (mkNode (value n) (low_after t l1 n) (known_after t n))
            (mkNode (if known_after t n then value n else maxT) (low_after t l1 n) (known m)).
Proof.
  intros Hl [Hlow Hv Hr Hm Hk]. unfold low_after, known_after. split; simpl; [done|done|lia|done|].
  destruct (known n); [lia|]. simpl. destruct (Z.ltb_spec (value n) t); [lia|done].
Qed.

(** The bits [encode_path] writes. *)
Definition node_after (t l : Z) (n : Node) : Node :=
  mkNode (value n) (low_after t l n) (known_after t n).

Fixpoint path_code (t l : Z) (p : list Z) (ns : list Node) : list bool :=
  match p with
  | [] => []
  | i :: p =>
      let n := nth_node ns i in
      let l1 := Z.max l (low n) in
      node_code t l1 n ++ path_code t (low_after t l1 n) p (<[Z.to_nat i := node_after t l1 n]> ns)
  end.

(** The encoder's half of [node_sync]. *)
Record enc_ok (n : Node) : Prop := {
  eo_range : 0 <= low n <= value n;
  eo_max : value n <= maxT;
  eo_known : known n = true -> low n = value n;
}.

Lemma sync_enc_ok n m : node_sync n m -> enc_ok n.
Proof. intros [? ? ? ? ?]. by split. Qed.

Lemma node_after_enc_ok t l n : l <= value n -> enc_ok n -> enc_ok (node_after t (Z.max l (low n)) n).
Proof.
  intros Hl [Hr Hm Hk]. unfold node_after, low_after, known_after. split; simpl; [lia|done|].
  destruct (known n); [lia|]. simpl. destruct (Z.ltb_spec (value n) t); [lia|done].
Qed.

Lemma enc_ok_nth ns i : Forall enc_ok ns -> (Z.to_nat i < length ns)%nat -> enc_ok (nth_node ns i).
Proof.
  intros H Hi. destruct (lookup_lt_is_Some_2 ns (Z.to_nat i) Hi) as [n Hn].
  rewrite (nthZ_lookup _ _ _ _ Hn). by eapply Forall_lookup_1.
Qed.

(** The state the path's first node leaves behind for the rest of the path. *)
Lemma path_step t l i p ns : Forall enc_ok ns -> path_mono l (i :: p) ns ->
  let n := nth_node ns i in let l1 := Z.max l (low n) in
  let ns1 := <[Z.to_nat i := node_after t l1 n]> ns in
  nodes_grow ns ns1 /\ Forall enc_ok ns1 /\ path_mono (low_after t l1 n) p ns1.
Proof.
  intros Hok (Hl & Hi & Hp). simpl. set (n := nth_node ns i) in *. set (l1 := Z.max l (low n)).
  pose proof (enc_ok_nth _ _ Hok Hi) as Hn. fold n in Hn.
  assert (nodes_grow ns (<[Z.to_nat i := node_after t l1 n]> ns)) as Hg.
  { apply nodes_grow_insert; [done|]. split; [done|]. fold n.
    intros E. unfold node_after, known_after; simpl. by rewrite E. }
  split; [done|]. split; [by apply Forall_insert, node_after_enc_ok|].
  eapply path_mono_grow; [done|]. eapply path_mono_weaken; [|done]. unfold low_after.
  destruct Hn. lia.
Qed.

Lemma encode_path_spec t p : forall l ns bio bio' ns',
  Forall enc_ok ns -> path_mono l p ns -> encode_path t l p ns bio = (true, bio', ns') ->
  puts bio (path_code t l p ns) bio' /\ nodes_grow ns ns' /\ Forall enc_ok ns' /\
  (forall i, i ∈ p -> value (nth_node ns i) < t -> known (nth_node ns' i) = true).
Proof.
  induction p as [|i p IH]; intros l ns bio bio' ns' Hok Hp; cbn [encode_path path_code].
  { intros [= <- <-]. split; [done|]. split; [apply nodes_grow_refl|]. split; [done|].
    by intros ? ?%not_elem_of_nil. }
  destruct (path_step t l i p ns Hok Hp) as (Hg1 & Hok1 & Hp1).
  destruct Hp as (Hl & Hi & _). pose proof (enc_ok_nth _ _ Hok Hi) as [Hr Hm Hk].
  set (n := nth_node ns i) in *.
  destruct (enter_node_spec l n Hl ltac:(lia) Hk) as [-> Hk1]. set (l1 := Z.max l (low n)) in *.
  destruct (encode_node _ t l1 _ bio) as [[[[] bio1] l2] n2] eqn:E; [|done].
  apply encode_node_spec in E as (Hput & -> & ->); simpl; [|lia|done|done].
  change (node_code t l1 _) with (node_code t l1 n) in Hput.
  intros Henc.
  change (encode_path t (low_after t l1 n) p (<[Z.to_nat i := node_after t l1 n]> ns) bio1
          = (true, bio', ns')) in Henc.
  destruct (IH _ _ _ _ _ Hok1 Hp1 Henc) as (Hput2 & Hg2 & Hok2 & Hkn).
  split; [rewrite puts_app; eauto|]. split; [by eapply nodes_grow_trans|]. split; [done|].
  intros j. rewrite elem_of_cons. intros [->|Hj] Hvt.
  - apply (nodes_grow_nth _ _ i Hg2). rewrite nth_node_insert, decide_True by done.
    unfold node_after, known_after; simpl. fold n in Hvt.
    destruct (Z.ltb_spec (value n) t); [|lia]. apply orb_true_r.
  - apply Hkn; [done|]. by destruct (nodes_grow_nth _ _ j Hg1) as [-> _].
Qed.

Lemma decode_path_spec t p : t <= maxT -> forall l ns ms bio bio' ns' r r',
  Forall2 node_sync ns ms -> path_mono l p ns ->
  encode_path t l p ns bio = (true, bio', ns') -> gets r (path_code t l p ns) r' ->
  exists ms', decode_path t l p ms r = Ok (r', ms') /\ Forall2 node_sync ns' ms'.
Proof.
  intros Ht. induction p as [|i p IH]; intros l ns ms bio bio' ns' r r' Hsync Hp; cbn [encode_path path_code].
  { intros [= <- <-] ->%gets_nil. eauto. }
  assert (Forall enc_ok ns) as Hok.
  { eapply Forall2_Forall_l; [exact Hsync|]. apply Forall_true. intros m n. apply sync_enc_ok. }
  destruct (path_step t l i p ns Hok Hp) as (_ & _ & Hp1).
  destruct Hp as (Hl & Hi & _). destruct (sync_nth _ _ _ Hi Hsync) as [Hs Him].
  set (n := nth_node ns i) in *. set (m := nth_node ms i) in *. pose proof Hs as [Hlow Hv Hr Hmx Hk].
  destruct (enter_node_spec l n Hl ltac:(lia) Hk) as [-> Hk1]. set (l1 := Z.max l (low n)) in *.
  destruct (encode_node _ t l1 _ bio) as [[[[] bio1] l2] n2] eqn:E; [|done].
  apply encode_node_spec in E as (Hput & -> & ->); simpl; [|lia|done|done].
  intros Henc (r1 & Hg & Hg')%gets_app.
  change (encode_path t (low_after t l1 n) p (<[Z.to_nat i := node_after t l1 n]> ns) bio1
          = (true, bio', ns')) in Henc.
  assert (Forall2 node_sync (<[Z.to_nat i := node_after t l1 n]> ns)
    (<[Z.to_nat i := mkNode (if known_after t n then value n else maxT) (low_after t l1 n) (known m)]> ms)) as Hs1.
  { apply Forall2_insert_both; [done|]. by apply (node_sync_after t l n m). }
  destruct (IH _ _ _ _ _ _ _ _ Hs1 Hp1 Henc Hg') as (ms' & Hd & Hs').
  exists ms'. split; [|done]. fold m.
  assert (enter_node l m = (l1, mkNode (value m) l1 (known m))) as ->.
  { unfold enter_node. rewrite Hlow. unfold l1. destruct (Z.ltb_spec (low n) l).
    - by replace (Z.max l (low n)) with l by lia.
    - replace (Z.max l (low n)) with (low n) by lia. rewrite <- Hlow. by destruct m. }
  rewrite (decode_node_spec t n _ l1 (value m) l1 (known m) r r1); [|lia|done|done|done|done|done].
  simpl. exact Hd.
Qed.

(** On a path the encoder has already sent, nothing is written. *)
Lemma path_code_known t p : forall l ns,
  (forall i, i ∈ p -> known (nth_node ns i) = true /\ low (nth_node ns i) = value (nth_node ns i)) ->
  path_mono l p ns -> path_code t l p ns = [].
Proof.
  induction p as [|i p IH]; intros l ns Hk Hp; [done|]. cbn [path_code].
  destruct Hp as (Hl & Hi & Hp). destruct (Hk i ltac:(apply elem_of_cons; by left)) as [Hkn Hlo].
  set (n := nth_node ns i) in *. replace (Z.max l (low n)) with (value n) by lia.
  assert (node_after t (value n) n = n) as ->.
  { unfold node_after, low_after, known_after. rewrite Hkn. simpl.
    replace (Z.max (value n) (Z.min t (value n))) with (low n) by lia. rewrite <- Hkn. by destruct n. }
  rewrite list_insert_id.
  - unfold node_code. rewrite Hkn, andb_false_r. replace (Z.to_nat (_ - _)) with O by lia.
    apply IH; [intros; apply Hk, elem_of_cons; by right|].
    eapply path_mono_weaken; [|done]. unfold low_after. lia.
  - destruct (lookup_lt_is_Some_2 ns (Z.to_nat i) Hi) as [x Hx]. rewrite Hx. f_equal.
    by rewrite <- (nthZ_lookup (mkNode 0 0 false) _ _ _ Hx).
Qed.

Lemma encode_path_known t p : forall l ns bio,
  (forall i, i ∈ p -> known (nth_node ns i) = true /\ low (nth_node ns i) = value (nth_node ns i)) ->
  path_mono l p ns -> encode_path t l p ns bio = (true, bio, ns).
Proof.
  induction p as [|i p IH]; intros l ns bio Hk Hp; simpl; [done|].
  destruct Hp as (Hl & Hi & Hp). destruct (Hk i ltac:(apply elem_of_cons; by left)) as [Hkn Hlo].
  set (n := nth_node ns i) in *. unfold enter_node. destruct (Z.ltb_spec (low n) l); [lia|].
  assert (forall fuel, encode_node fuel t (low n) n bio = (true, bio, low n, n)) as ->.
  { intros [|fuel]; simpl; [done|]. destruct (_ <? _); [|done].
    destruct (Z.leb_spec (value n) (low n)); [|lia]. by rewrite Hkn. }
  replace (<[Z.to_nat i := _]> ns) with ns.
  - apply IH; [intros; apply Hk, elem_of_cons; by right|]. by eapply path_mono_weaken; [|done]; lia.
  - symmetry. apply list_insert_id. destruct (lookup_lt_is_Some_2 ns (Z.to_nat i) Hi) as [x Hx].
    rewrite Hx. f_equal. rewrite <- (nthZ_lookup (mkNode 0 0 false) _ _ _ Hx). fold n. by destruct n.
Qed.

(** ** Trees *)

Definition nleaves (t : TagTree) : Z := Z.of_nat (length (leafCache t)).
Definition nnodes (t : TagTree) : Z := Z.of_nat (length (nodes t)).

(** The shape [buildTree] establishes: every link goes up to a larger,
    internal index. *)
Record wf_tree (t : TagTree) : Prop := {
  wt_len : length (parents t) = length (nodes t);
  wt_small : nnodes t <= UINT32_MAX;
  wt_leaves : nleaves t <= nnodes t;
  wt_parent : forall i, 0 <= i < nnodes t -> parent_at t i <> UINT32_MAX ->
    i < parent_at t i < nnodes t /\ nleaves t <= parent_at t i;
}.

(** Each node's value is a lower bound of its children's, and in range. *)
Record heap (t : TagTree) : Prop := {
  hp_edge : forall i, 0 <= i < nnodes t -> parent_at t i <> UINT32_MAX ->
    value (node_at t (parent_at t i)) <= value (node_at t i);
  hp_range : forall i, 0 <= i < nnodes t -> 0 <= value (node_at t i);
}.

Lemma climb_spec t : wf_tree t -> heap t -> forall fuel node stack,
  0 <= node < nnodes t -> nnodes t - node <= Z.of_nat fuel ->
  path_mono (value (node_at t node)) stack (nodes t) ->
  exists p, climb fuel t node stack = Some p /\ path_mono 0 p (nodes t) /\
    exists pre, p = pre ++ node :: stack.
Proof.
  intros [_ _ _ Hpar] [Hedge Hrange] fuel.
  induction fuel as [|fuel IH]; intros node stack Hn Hf Hp; [lia|]. simpl.
  pose proof (Hrange node Hn).
  assert (Z.to_nat node < length (nodes t))%nat by (unfold nnodes in *; lia).
  destruct (Z.eqb_spec (parent_at t node) UINT32_MAX) as [E|E].
  - exists (node :: stack). split; [done|]. split; [simpl; auto|]. by exists [].
  - destruct (Hpar _ Hn E) as [Hup _]. specialize (Hedge _ Hn E).
    destruct (IH (parent_at t node) (node :: stack)) as (p & Hc & Hm & pre & ->); [lia|lia|simpl; auto|].
    exists (pre ++ [parent_at t node] ++ node :: stack). split; [done|]. split; [done|].
    exists (pre ++ [parent_at t node]). by rewrite <- app_assoc.
Qed.

Lemma path_spec t leafno : wf_tree t -> heap t -> 0 <= leafno < nnodes t ->
  exists p, path t leafno = Some p /\ path_mono 0 p (nodes t) /\ exists pre, p = pre ++ [leafno].
Proof.
  intros Hw Hh Hl. pose proof (wt_small t Hw). unfold path. rewrite wrap_small by grk_lia.
  apply climb_spec; [done|done|done|unfold nnodes in *; lia|done].
Qed.

(** [parents] never changes, so the path of a leaf is fixed. *)
Lemma path_parents t t' leafno : parents t' = parents t -> length (nodes t') = length (nodes t) ->
  path t' leafno = path t leafno.
Proof.
  intros Hp Hl. unfold path. rewrite Hl.
  assert (forall k x st, climb k t' x st = climb k t x st) as H; [|apply H].
  intros k; induction k as [|k IH]; intros x st; simpl; [done|].
  replace (parent_at t' x) with (parent_at t x) by (unfold parent_at; by rewrite Hp).
  by destruct (_ =? _).
Qed.

(** ** Encoder and decoder trees in step *)

(** [e] is the encoder's tree, [d] the decoder's.  A cached leaf is a leaf
    whose whole path has been sent. *)
Record tree_sync (e d : TagTree) : Prop := {
  ts_parents : parents d = parents e;
  ts_nodes : Forall2 node_sync (nodes e) (nodes d);
  ts_cache_len : length (leafCache d) = length (leafCache e);
  ts_cache : forall leafno, 0 <= leafno < nleaves e ->
    nthZ 0 (leafCache d) leafno = maxT \/
    (nthZ 0 (leafCache d) leafno = value (node_at e leafno) /\
     forall p, path e leafno = Some p -> forall i, i ∈ p -> known (nth_node (nodes e) i) = true);
}.

Definition same_tree_values (e e' : TagTree) : Prop :=
  parents e' = parents e /\ leafCache e' = leafCache e /\ nodes_grow (nodes e) (nodes e').

Lemma sync_known_low e d i : tree_sync e d -> 0 <= i < nnodes e ->
  known (nth_node (nodes e) i) = true -> low (nth_node (nodes e) i) = value (nth_node (nodes e) i).
Proof.
  intros [_ Hs _ _] Hi.
  destruct (sync_nth (nodes e) (nodes d) i) as [[] _]; [unfold nnodes in *; lia|done|done].
Qed.

Lemma path_mono_range l p ns i : path_mono l p ns -> i ∈ p -> (Z.to_nat i < length ns)%nat.
Proof.
  revert l; induction p as [|j p IH]; intros l; simpl; [by intros _ ?%not_elem_of_nil|].
  intros (_ & Hj & Hp) [->|Hi]%elem_of_cons; [done|by eapply IH].
Qed.

Lemma path_mono_below l p ns j i : path_mono l (p ++ [j]) ns -> i ∈ p ++ [j] ->
  value (nth_node ns i) <= value (nth_node ns j).
Proof.
  revert l; induction p as [|k p IH]; intros l; simpl.
  - intros _ ->%list_elem_of_singleton. done.
  - intros (_ & _ & Hp) [->|Hi]%elem_of_cons; [|by eapply IH].
    clear IH. revert Hp. generalize (value (nth_node ns k)) as v.
    induction p as [|k' p IH]; intros v; simpl; [lia|]. intros (? & _ & Hp). specialize (IH _ Hp). lia.
Qed.

Lemma path_unique_nonneg t leafno p i : wf_tree t -> heap t -> 0 <= leafno < nnodes t ->
  path t leafno = Some p -> i ∈ p -> 0 <= i < nnodes t.
Proof.
  intros Hw Hh Hl Hp Hi. pose proof (wt_small t Hw) as Hsm. unfold path in Hp.
  rewrite wrap_small in Hp by grk_lia.
  assert (forall fuel node stack p, climb fuel t node stack = Some p -> 0 <= node < nnodes t ->
    (forall j, j ∈ stack -> 0 <= j < nnodes t) -> forall j, j ∈ p -> 0 <= j < nnodes t) as H.
  { intros fuel; induction fuel as [|fuel IH]; intros node stack q; simpl; [done|].
    destruct (Z.eqb_spec (parent_at t node) UINT32_MAX) as [E|E].
    - intros [= <-] Hn Hst j [->|Hj]%elem_of_cons; auto.
    - intros Hc Hn Hst. eapply IH; [exact Hc| |].
      + destruct (wt_parent t Hw _ Hn E) as [? _]. lia.
      + intros j [->|Hj]%elem_of_cons; auto. }
  eapply H; [exact Hp|done|by intros ? ?%not_elem_of_nil|done].
Qed.

(** The path of a cached leaf has been sent. *)
Lemma cached_known e d leafno t p : wf_tree e -> heap e -> tree_sync e d ->
  0 <= leafno < nleaves e -> t <= maxT -> nthZ 0 (leafCache d) leafno < t -> path e leafno = Some p ->
  forall i, i ∈ p -> known (nth_node (nodes e) i) = true /\
    low (nth_node (nodes e) i) = value (nth_node (nodes e) i).
Proof.
  intros Hw Hh Hs Hl Ht Hc Hp i Hi. pose proof (wt_leaves e Hw).
  destruct (ts_cache e d Hs leafno Hl) as [|[Hv Hk]]; [lia|].
  split; [by eapply Hk|]. eapply sync_known_low; [done| |by eapply Hk].
  eapply path_unique_nonneg; try done; lia.
Qed.

Lemma encode_cached e d leafno t bio : wf_tree e -> heap e -> tree_sync e d ->
  0 <= leafno < nleaves e -> t <= maxT -> nthZ 0 (leafCache d) leafno < t ->
  encode bio leafno t e = Some (true, bio, e) /\ nthZ 0 (leafCache d) leafno = value (node_at e leafno).
Proof.
  intros Hw Hh Hs Hl Ht Hc. pose proof (wt_leaves e Hw).
  destruct (ts_cache e d Hs leafno Hl) as [|[Hv Hk]]; [lia|]. split; [|done].
  destruct (path_spec e leafno Hw Hh ltac:(lia)) as (p & Hp & Hm & _).
  unfold encode. rewrite Hp. simpl.
  by rewrite (encode_path_known t p 0 (nodes e) bio); [destruct e|eapply cached_known|].
Qed.

Lemma same_values_wf e e' : same_tree_values e e' -> wf_tree e -> wf_tree e'.
Proof.
  intros (Hp & Hc & Hg) [H1 H2 H3 H4]. pose proof (Forall2_length Hg) as Hl.
  assert (nnodes e' = nnodes e) as Hn by (unfold nnodes; by rewrite Hl).
  assert (nleaves e' = nleaves e) as Hv by (unfold nleaves; by rewrite Hc).
  split; rewrite ?Hp, ?Hn, ?Hv; [congruence|done|done|].
  intros i Hi. unfold parent_at. rewrite Hp. by apply H4.
Qed.

Lemma same_values_heap e e' : same_tree_values e e' -> heap e -> heap e'.
Proof.
  intros (Hp & _ & Hg) [H1 H2]. pose proof (Forall2_length Hg) as Hl.
  assert (nnodes e' = nnodes e) as Hn by (unfold nnodes; by rewrite Hl).
  assert (forall i, value (node_at e' i) = value (node_at e i)) as Hv
    by (intros i; by apply (nodes_grow_nth _ _ i Hg)).
  split; intros i; rewrite Hn, ?Hv; [|by apply H2].
  unfold parent_at. rewrite Hp. by apply H1.
Qed.

(** The bits [encode] writes for a query. *)
Definition query_code (leafno t : Z) (e : TagTree) : list bool :=
  match path e leafno with Some p => path_code t 0 p (nodes e) | None => [] end.

Lemma sync_Forall_enc_ok e d : tree_sync e d -> Forall enc_ok (nodes e).
Proof.
  intros Hs. eapply Forall2_Forall_l; [exact (ts_nodes e d Hs)|].
  apply Forall_true. intros m n. apply sync_enc_ok.
Qed.

Lemma encode_spec e leafno t bio bio' e' :
  wf_tree e -> heap e -> Forall enc_ok (nodes e) -> 0 <= leafno < nleaves e ->
  encode bio leafno t e = Some (true, bio', e') ->
  puts bio (query_code leafno t e) bio' /\ same_tree_values e e' /\ Forall enc_ok (nodes e').
Proof.
  intros Hw Hh Hok Hl He. pose proof (wt_leaves e Hw).
  destruct (path_spec e leafno Hw Hh ltac:(lia)) as (p & Hp & Hm & pre & Epre).
  unfold encode, query_code in *. rewrite Hp in *. simpl in He.
  destruct (encode_path t 0 p (nodes e) bio) as [[ok bio1] ns'] eqn:E. injection He as -> <- <-.
  by destruct (encode_path_spec t p _ _ _ _ _ Hok Hm E) as (? & ? & ? & _).
Qed.

(** The decoder's leaf cache after a query that found value [v]. *)
Lemma cache_after e d ns' leafno v t p : tree_sync e d -> nodes_grow (nodes e) ns' ->
  0 <= leafno < nleaves e -> path e leafno = Some p ->
  (v < t -> v = value (node_at e leafno) /\ forall i, i ∈ p -> known (nth_node ns' i) = true) ->
  forall j, 0 <= j < nleaves e ->
    let c := nthZ 0 (if v <? t then <[Z.to_nat leafno := v]> (leafCache d) else leafCache d) j in
    c = maxT \/ (c = value (node_at e j) /\
      forall q, path e j = Some q -> forall i, i ∈ q -> known (nth_node ns' i) = true).
Proof.
  intros [_ _ Hclen Hcache] Hg Hl Hp Hv j Hj c. subst c.
  assert (nthZ 0 (leafCache d) j = maxT \/
    (nthZ 0 (leafCache d) j = value (node_at e j) /\
     forall q, path e j = Some q -> forall i, i ∈ q -> known (nth_node ns' i) = true)) as Hold.
  { destruct (Hcache j Hj) as [|[Hcv Hck]]; [by left|right]. split; [done|].
    intros q Hq i Hi. apply (nodes_grow_nth _ _ i Hg). by eapply Hck. }
  destruct (Z.ltb_spec v t) as [Hlt|]; [|done]. destruct (Hv Hlt) as [-> Hkn].
  unfold nleaves in *. destruct (decide (j = leafno)) as [->|Hne].
  - right. split; [|by intros q [= <-]%(eq_trans (eq_sym Hp))].
    apply nthZ_lookup, list_lookup_insert_eq. lia.
  - replace (nthZ 0 (<[_ := _]> (leafCache d)) j) with (nthZ 0 (leafCache d) j); [done|].
    rewrite !nthZ_default. rewrite list_lookup_insert_ne by lia. done.
Qed.

Lemma decode_encode e d leafno t bio bio' e' r r' :
  wf_tree e -> heap e -> tree_sync e d -> 0 <= leafno < nleaves e -> t <= maxT ->
  encode bio leafno t e = Some (true, bio', e') -> gets r (query_code leafno t e) r' ->
  exists v d', decode r leafno t d = Some (Ok (v, r', d')) /\ tree_sync e' d' /\
    (if value (node_at e leafno) <? t then v = value (node_at e leafno) else t <= v).
Proof.
  intros Hw Hh Hs Hl Ht He Hr. pose proof (wt_leaves e Hw). pose proof (wt_small e Hw).
  destruct (path_spec e leafno Hw Hh ltac:(lia)) as (p & Hp & Hm & pre & Epre).
  destruct (Z_lt_le_dec (nthZ 0 (leafCache d) leafno) t) as [Hc|Hc].
  { destruct (encode_cached e d leafno t bio Hw Hh Hs Hl Ht Hc) as [Henc Hv].
    assert ((true, bio, e) = (true, bio', e')) as [= <- <-] by congruence.
    unfold query_code in Hr. rewrite Hp, path_code_known in Hr; [|by eapply cached_known|done].
    apply gets_nil in Hr as ->. unfold decode. destruct (Z.ltb_spec (nthZ 0 (leafCache d) leafno) t); [|lia].
    eexists _, _. split; [done|]. split; [done|]. rewrite <- Hv.
    destruct (Z.ltb_spec (nthZ 0 (leafCache d) leafno) t); [done|lia]. }
  unfold encode, query_code in *. rewrite Hp in *. simpl in He.
  destruct (encode_path t 0 p (nodes e) bio) as [[ok bio1] ns'] eqn:E. injection He as -> <- <-.
  pose proof Hs as [Hpar Hnodes Hclen _].
  destruct (encode_path_spec t p _ _ _ _ _ (sync_Forall_enc_ok _ _ Hs) Hm E) as (_ & Hg & _ & Hkn).
  destruct (decode_path_spec t p Ht _ _ _ _ _ _ _ _ Hnodes Hm E Hr) as (ms' & Hd & Hsync').
  assert (path d leafno = Some p) as Hpd.
  { rewrite <- Hp. apply path_parents; [done|]. symmetry. apply (Forall2_length Hnodes). }
  unfold decode. destruct (Z.ltb_spec (nthZ 0 (leafCache d) leafno) t); [lia|].
  rewrite Hpd. simpl. rewrite Hd. simpl. rewrite wrap_small by grk_lia.
  pose proof (Forall2_length Hg) as Hlen. unfold nnodes in *.
  destruct (sync_nth ns' ms' leafno ltac:(lia) Hsync') as [[_ Hv _ Hmx _] _].
  destruct (nodes_grow_nth _ _ leafno Hg) as [Ev _]. rewrite Ev in Hv, Hmx.
  assert (leafno ∈ p) as Hin by (rewrite Epre; apply elem_of_app; right; by apply list_elem_of_singleton).
  change (value (nth_node (nodes e) leafno)) with (value (node_at e leafno)) in *.
  assert (if value (node_at e leafno) <? t then value (nth_node ms' leafno) = value (node_at e leafno)
          else t <= value (nth_node ms' leafno)) as Hres.
  { rewrite Hv. destruct (Z.ltb_spec (value (node_at e leafno)) t) as [Hlt|Hge].
    - by rewrite (Hkn leafno Hin Hlt).
    - destruct (known (nth_node ns' leafno)); lia. }
  eexists _, _. split; [done|]. split; [|done]. split; [done|done| |].
  - cbn [leafCache set_nodes]. destruct (value (nth_node ms' leafno) <? t); [by rewrite length_insert|done].
  - intros j Hj. cbn [leafCache]. rewrite (path_parents e (set_nodes e ns') j) by done.
    destruct (nodes_grow_nth _ _ j Hg) as [Evj _].
    change (value (node_at (set_nodes e ns') j)) with (value (nth_node ns' j)). rewrite Evj.
    apply (cache_after e d ns' leafno _ t p Hs Hg Hl Hp); [|done]. intros Hlt.
    destruct (Z.ltb_spec (value (node_at e leafno)) t) as [Hlf|]; [|lia]. split; [done|].
    intros i Hi. apply Hkn; [done|]. rewrite Epre in Hi, Hm.
    pose proof (path_mono_below _ _ _ _ i Hm Hi). unfold node_at in *. lia.
Qed.

(** ** Setting leaf values *)

Lemma parent_above t node : wf_tree t -> 0 <= node < nnodes t ->
  node < parent_at t node /\ nleaves t <= parent_at t node.
Proof.
  intros Hw Hn. destruct (decide (parent_at t node = UINT32_MAX)) as [->|Hp].
  - pose proof (wt_small t Hw). pose proof (wt_leaves t Hw). lia.
  - destruct (wt_parent t Hw node Hn Hp). lia.
Qed.

(** What [set] does to one node. *)
Definition node_lowered (v : Z) (n n' : Node) : Prop :=
  low n' = low n /\ known n' = known n /\ (value n' = value n \/ (value n' = v /\ v < value n)).

Lemma nodes_lowered_refl v ns : Forall2 (node_lowered v) ns ns.
Proof. induction ns; constructor; unfold node_lowered; auto. Qed.

Lemma set_loop_spec : forall fuel t node v,
  wf_tree t -> (node = UINT32_MAX \/ 0 <= node < nnodes t) -> 0 <= v ->
  (node <> UINT32_MAX -> nnodes t - node < Z.of_nat fuel) -> (0 < fuel)%nat ->
  (forall i, 0 <= i < nnodes t -> 0 <= value (node_at t i)) ->
  (forall i, 0 <= i < nnodes t -> parent_at t i <> UINT32_MAX ->
     value (node_at t (parent_at t i)) <= value (node_at t i) \/
     (parent_at t i = node /\ v <= value (node_at t i))) ->
  exists t', set_loop fuel node v t = Some t' /\ heap t' /\ parents t' = parents t /\
    leafCache t' = leafCache t /\
    Forall2 (node_lowered v) (nodes t) (nodes t') /\
    (node <> UINT32_MAX -> value (node_at t' node) = Z.min (value (node_at t node)) v) /\
    (forall i, 0 <= i < nnodes t -> i < node \/ (i < nleaves t /\ i <> node) ->
       node_at t' i = node_at t i).
Proof.
  intros fuel; induction fuel as [|fuel IH]; intros t node v Hw Hn Hv Hf Hpos Hr He; [lia|]. simpl.
  pose proof (nodes_lowered_refl v) as Hrefl.
  destruct (Z.eqb_spec node UINT32_MAX) as [->|Hne]; simpl.
  { exists t. split; [done|]. split; [|done]. split; [|done].
    intros i Hi Hp. destruct (He i Hi Hp) as [|[E _]]; [done|by destruct Hp]. }
  destruct Hn as [|Hn]; [done|]. destruct (Z.ltb_spec v (value (node_at t node))) as [Hlt|Hge].
  2: { exists t. split; [done|]. split; [split; [|done]|].
       - intros i Hi Hp. destruct (He i Hi Hp) as [|[-> ?]]; [done|lia].
       - repeat split; try done. intros _. lia. }
  set (n' := mkNode v _ _). set (t1 := set_nodes t _).
  assert (Z.to_nat node < length (nodes t))%nat as Hni by (unfold nnodes in *; lia).
  assert (length (nodes t1) = length (nodes t)) as Hlen by apply length_insert.
  assert (nnodes t1 = nnodes t) as Hnn by (unfold nnodes; by rewrite Hlen).
  assert (forall i, 0 <= i -> value (node_at t1 i) = if decide (i = node) then v else value (node_at t i)) as Hval.
  { intros i Hi. unfold t1, node_at. simpl. rewrite nth_node_insert by done.
    repeat case_decide; try lia; done. }
  assert (wf_tree t1) as Hw1.
  { destruct Hw as [H1 H2 H3 H4]. split; simpl; rewrite ?Hnn; [by rewrite length_insert|done|done|done]. }
  destruct (IH t1 (parent_at t node) v) as (t' & Hs & Hh & Hp & Hc & Hall & _ & Hrest); try done.
  - destruct (decide (parent_at t node = UINT32_MAX)) as [->|Hp]; [by left|right].
    destruct (wt_parent t Hw node Hn Hp). lia.
  - intros Hp. destruct (wt_parent t Hw node Hn Hp). specialize (Hf Hne). lia.
  - specialize (Hf Hne). lia.
  - intros i. rewrite Hnn. intros Hi. rewrite Hval by lia. case_decide; [done|auto].
  - intros i. rewrite Hnn. intros Hi Hp. change (parent_at t1 i) with (parent_at t i) in *.
    destruct (wt_parent t Hw i Hi Hp) as [Hup _]. rewrite !Hval by lia.
    destruct (decide (i = node)) as [->|Hin]; [right; split; [done|lia]|]. left.
    destruct (He i Hi Hp) as [Hle|[-> Hle]]; repeat case_decide; try lia; subst; lia.
  - exists t'. split; [done|]. split; [done|]. split; [done|]. split; [done|].
    rewrite Hnn in Hrest. change (nleaves t1) with (nleaves t) in Hrest.
    destruct (parent_above t node Hw Hn) as [Hup Hlf]. split; [|split].
    2: { intros _. rewrite (Hrest node Hn), Hval, decide_True by lia. lia. }
    2: { intros i Hi Hor. rewrite (Hrest i Hi) by lia.
         unfold t1, node_at. simpl. by rewrite nth_node_insert, decide_False by lia. }
    rewrite Forall2_lookup in Hall |- *. intros i. specialize (Hall i). simpl in Hall.
    destruct (decide (Z.to_nat node = i)) as [<-|Hni'].
    + rewrite list_lookup_insert_eq in Hall by done.
      destruct (lookup_lt_is_Some_2 _ _ Hni) as [x Hx]. rewrite Hx.
      inversion Hall as [? y (Hlo & Hk & Hvv) E1 E2|]; subst. constructor.
      unfold n' in *. simpl in *. unfold node_at in *. rewrite (nthZ_lookup _ _ _ _ Hx) in *.
      split; [done|]. split; [done|]. destruct Hvv as [->|[-> _]]; auto.
    + by rewrite list_lookup_insert_ne in Hall.
Qed.

Lemma set_spec t leafno v : wf_tree t -> heap t -> 0 <= leafno < nleaves t -> 0 <= v ->
  exists t', set leafno v t = Some t' /\ wf_tree t' /\ heap t' /\ parents t' = parents t /\
    leafCache t' = leafCache t /\ Forall2 (node_lowered v) (nodes t) (nodes t') /\
    (forall i, 0 <= i < nleaves t -> value (node_at t' i) =
       if i =? leafno then Z.min (value (node_at t i)) v else value (node_at t i)).
Proof.
  intros Hw Hh Hl Hv. pose proof (wt_leaves t Hw). pose proof (wt_small t Hw).
  unfold set. rewrite wrap_small by grk_lia.
  destruct (set_loop_spec (Datatypes.S (length (nodes t))) t leafno v)
    as (t' & -> & Hh' & Hp & Hc & Hall & Hlf & Hrest); try done.
  - right. lia.
  - unfold nnodes. lia.
  - lia.
  - apply (hp_range t Hh).
  - intros i Hi Hp. left. by apply (hp_edge t Hh).
  - exists t'. pose proof (Forall2_length Hall) as Hlen. split; [done|]. split.
    { destruct Hw as [H1 H2 H3 H4].
      assert (nnodes t' = nnodes t) as Hnn by (unfold nnodes; by rewrite Hlen).
      assert (nleaves t' = nleaves t) as Hnl by (unfold nleaves; by rewrite Hc).
      split; rewrite ?Hnn, ?Hnl, ?Hp; [congruence|done|done|].
      intros i Hi. unfold parent_at. rewrite Hp. by apply H4. }
    repeat split; try done; try apply Hh'.
    intros i Hi. destruct (Z.eqb_spec i leafno) as [->|]; [apply Hlf; grk_lia|].
    rewrite Hrest; [done|lia|right; lia].
Qed.

(** A value set at or above every lower bound already sent (as the inclusion
    tree does: layer by layer) keeps encoder and decoder in step. *)
Lemma set_sync e d leafno v e' : wf_tree e -> heap e -> tree_sync e d ->
  0 <= leafno < nleaves e -> 0 <= v <= maxT ->
  (forall i, 0 <= i < nnodes e -> low (node_at e i) <= v) ->
  set leafno v e = Some e' -> tree_sync e' d.
Proof.
  intros Hw Hh Hs Hl Hv Hlow He.
  destruct (set_spec e leafno v Hw Hh Hl ltac:(lia)) as (e1 & He1 & _ & _ & Hp & Hc & Hall & _).
  assert (e1 = e') as -> by congruence. destruct Hs as [Hpar Hn Hclen Hcache].
  assert (length (nodes e') = length (nodes e)) as Hlen by (symmetry; apply (Forall2_length Hall)).
  assert (forall i, (i < length (nodes e))%nat -> exists n n' m, nodes e !! i = Some n /\
    nodes e' !! i = Some n' /\ nodes d !! i = Some m /\ node_lowered v n n' /\ node_sync n m /\
    low n <= v) as Hat.
  { intros i Hi. destruct (lookup_lt_is_Some_2 _ _ Hi) as [n En].
    destruct (Forall2_lookup_l _ _ _ _ _ Hall En) as (n' & En' & Hlw).
    destruct (Forall2_lookup_l _ _ _ _ _ Hn En) as (m & Em & Hsy).
    exists n, n', m. do 5 (split; [done|]).
    specialize (Hlow (Z.of_nat i) ltac:(unfold nnodes; lia)). unfold node_at in Hlow.
    rewrite (nthZ_lookup _ _ _ n) in Hlow; [done|]. by rewrite Nat2Z.id. }
  split.
  - congruence.
  - apply Forall2_same_length_lookup_2.
    { rewrite Hlen. apply (Forall2_length Hn). }
    intros i n' m Hn' Hm. pose proof (lookup_lt_Some _ _ _ Hn') as Hi. rewrite Hlen in Hi.
    destruct (Hat i Hi) as (n & n1 & m1 & ? & ? & ? & (Hlo & Hk & Hval) & [S1 S2 S3 S4 S5] & Hlv).
    simplify_eq. split; rewrite ?Hlo, ?Hk; try done; [| lia| lia|].
    + destruct (known n) eqn:Ek; [|done]. specialize (S5 eq_refl). lia.
    + intros Ek. specialize (S5 Ek). lia.
  - by rewrite Hc.
  - intros j Hj. assert (nleaves e' = nleaves e) as Hnl by (unfold nleaves; by rewrite Hc).
    rewrite Hnl in Hj. rewrite (path_parents e e' j Hp Hlen).
    destruct (Hcache j Hj) as [|[Hcv Hck]]; [by left|right].
    assert (forall i, 0 <= i < nnodes e -> known (nth_node (nodes e) i) = true ->
      known (nth_node (nodes e') i) = true /\ value (nth_node (nodes e') i) = value (nth_node (nodes e) i)) as Hkeep.
    { intros i Hi. destruct (Hat (Z.to_nat i)) as (n & n1 & m1 & En & En1 & ? & (Hlo & Hk & Hval) & [S1 S2 S3 S4 S5] & Hlv);
        [unfold nnodes in *; lia|].
      rewrite (nthZ_lookup _ _ _ _ En), (nthZ_lookup _ _ _ _ En1). intros Ek. specialize (S5 Ek).
      split; [congruence|lia]. }
    pose proof (wt_leaves e Hw).
    destruct (path_spec e j Hw Hh ltac:(lia)) as (p & Hpath & _ & pre & Epre).
    assert (j ∈ p) as Hjp by (rewrite Epre; apply elem_of_app; right; by apply list_elem_of_singleton).
    split.
    + rewrite Hcv. unfold node_at. symmetry. apply Hkeep; [lia|]. by eapply Hck.
    + intros q Hq i Hi. apply Hkeep; [|by eapply Hck]. by eapply path_unique_nonneg; try done; lia.
Qed.
End Sync.

(** ** The shape [buildTree] builds *)
Section Build.
Implicit Types (levels : list (Z * Z)).

(** Level sizes halve, rounding up, until one node (or an empty grid) is left. *)
Fixpoint levels_chain (levels : list (Z * Z)) : Prop :=
  match levels with
  | [] => False
  | [(w, h)] => 0 <= w <= 16384 /\ 0 <= h <= 16384 /\ w * h <= 1
  | (w, h) :: (((w', h') :: _) as rest) =>
      0 < w <= 16384 /\ 0 < h <= 16384 /\ w' = (w + 1) / 2 /\ h' = (h + 1) / 2 /\ levels_chain rest
  end.

Lemma level_sizes_spec fuel l w h :
  (l + fuel = 16)%nat -> (l <= 14)%nat -> 0 <= w <= 2 ^ (14 - Z.of_nat l) ->
  0 <= h <= 2 ^ (14 - Z.of_nat l) ->
  exists levels, level_sizes l w h fuel = Some levels /\ levels_chain levels /\
    (exists rest, levels = (w, h) :: rest) /\ (length levels <= 15 - l)%nat.
Proof.
  revert l w h; induction fuel as [|fuel IH]; intros l w h Hf Hl Hw Hh; [lia|]. cbn [level_sizes].
  pose proof (Z.pow_le_mono_r 2 (14 - Z.of_nat l) 14 ltac:(lia) ltac:(lia)) as H14.
  change (2 ^ 14) with 16384 in H14.
  destruct (Z.leb_spec 15 (Z.of_nat l)); [lia|].
  assert (w * h <= 16384 * 16384) by nia. rewrite !(wrap_small 32) by grk_lia.
  destruct (Z.ltb_spec 1 (w * h)) as [Hgt|Hle].
  2: { exists [(w, h)]. split; [done|]. split; [simpl; lia|]. split; [eauto|simpl; lia]. }
  assert (2 ^ (14 - Z.of_nat l) = 2 * 2 ^ (14 - Z.of_nat (Datatypes.S l)) \/ l = 14%nat) as [E|E].
  { destruct (decide (l = 14%nat)); [by right|left]. rewrite <- Z.pow_succ_r by lia. f_equal. lia. }
  2: { subst l. change (2 ^ (14 - Z.of_nat 14)) with 1 in *. nia. }
  rewrite !Z.shiftr_div_pow2 by lia. change (2 ^ 1) with 2.
  assert (0 < w) by nia. assert (0 < h) by nia.
  assert ((w + 1) / 2 <= 2 ^ (14 - Z.of_nat (Datatypes.S l))) by (apply Z.lt_succ_r, Z.div_lt_upper_bound; lia).
  assert ((h + 1) / 2 <= 2 ^ (14 - Z.of_nat (Datatypes.S l))) by (apply Z.lt_succ_r, Z.div_lt_upper_bound; lia).
  assert (0 <= (w + 1) / 2) by (apply Z.div_pos; lia). assert (0 <= (h + 1) / 2) by (apply Z.div_pos; lia).
  rewrite !(wrap_small 16) by grk_lia.
  destruct (decide (l = 14%nat)) as [->|]; [change (2 ^ (14 - Z.of_nat 14)) with 1 in *; nia|].
  destruct (IH (Datatypes.S l) ((w + 1) / 2) ((h + 1) / 2)) as (levels & -> & Hc & [rest ->] & Hlen); [lia|lia|lia|lia|].
  eexists. split; [done|]. split; [simpl; simpl in Hc; lia || (repeat split; (lia || done))|].
  split; [eauto|]. simpl in *. lia.
Qed.

Lemma length_level_parents b w h w' : 0 <= w -> 0 <= h ->
  Z.of_nat (length (level_parents b w h w')) = w * h.
Proof.
  intros Hw Hh. unfold level_parents. rewrite (length_mjoin_const _ _ (Z.to_nat w)).
  - rewrite length_seqZ. lia.
  - intros j. by rewrite length_fmap, length_seqZ.
Qed.

Lemma level_parents_range b w h x : 0 <= b -> 0 < w <= 16384 -> 0 < h <= 16384 ->
  b + ((w + 1) / 2) * ((h + 1) / 2) <= UINT32_MAX ->
  x ∈ level_parents b w h ((w + 1) / 2) -> b <= x < b + ((w + 1) / 2) * ((h + 1) / 2).
Proof.
  intros Hb Hw Hh Hmax. unfold level_parents.
  intros (l & Hl & (j & -> & Hj%elem_of_seqZ)%list_elem_of_fmap)%list_elem_of_join.
  apply list_elem_of_fmap in Hl as (k & -> & Hk%elem_of_seqZ).
  rewrite !Z.shiftr_div_pow2 by lia. change (2 ^ 1) with 2.
  assert (0 <= j / 2 < (h + 1) / 2) by (split; [apply Z.div_pos; lia|]; Z.to_euclidean_division_equations; lia).
  assert (0 <= k / 2 < (w + 1) / 2) by (split; [apply Z.div_pos; lia|]; Z.to_euclidean_division_equations; lia).
  assert (0 <= j / 2 * ((w + 1) / 2) + k / 2 < (w + 1) / 2 * ((h + 1) / 2)) by nia.
  rewrite wrap_small by grk_lia. lia.
Qed.

Definition total (levels : list (Z * Z)) : Z := foldr (fun wh acc => wh.1 * wh.2 + acc) 0 levels.

Lemma chain_head levels w h rest : levels_chain levels -> levels = (w, h) :: rest ->
  0 <= w <= 16384 /\ 0 <= h <= 16384.
Proof. intros Hc ->. simpl in Hc. destruct rest as [|[? ?] ?]; lia. Qed.

Lemma chain_total levels : levels_chain levels ->
  totalNodes levels = total levels /\ 0 <= total levels <= Z.of_nat (length levels) * (16384 * 16384).
Proof.
  induction levels as [|[w h] rest IH]; [done|]. intros Hc.
  destruct (chain_head _ w h rest Hc eq_refl) as [Hw Hh].
  assert (0 <= w * h <= 16384 * 16384) by nia. cbn [totalNodes total foldr fst snd length].
  rewrite wrap_small by grk_lia. destruct rest as [|[w' h'] rest]; [simpl; lia|].
  assert (levels_chain ((w', h') :: rest)) as Hc' by (simpl in Hc |- *; tauto).
  destruct (IH Hc') as [E ?]. unfold totalNodes, total in E. rewrite E. unfold total in *. lia.
Qed.

Lemma chain_le_total w h rest : levels_chain ((w, h) :: rest) -> w * h <= total ((w, h) :: rest).
Proof.
  intros Hc. destruct rest as [|[w2 h2] ls]; [simpl; lia|]. destruct Hc as (_ & _ & _ & _ & Hc2).
  destruct (chain_total _ Hc2) as [_ ?]. unfold total in *. cbn [foldr fst snd] in *. lia.
Qed.

Lemma link_levels_cons b w h w' h' ls :
  link_levels b ((w, h) :: (w', h') :: ls) =
    level_parents b w h w' ++ link_levels (b + w' * h') ((w', h') :: ls).
Proof. done. Qed.

Lemma link_levels_spec levels : forall cur w h rest,
  levels = (w, h) :: rest -> levels_chain levels -> 0 <= cur -> cur + total levels <= UINT32_MAX ->
  Z.of_nat (length (link_levels (cur + w * h) levels)) = total levels /\
  forall i x, link_levels (cur + w * h) levels !! i = Some x ->
    x = UINT32_MAX \/ (cur + Z.of_nat i < x < cur + total levels /\ cur + w * h <= x).
Proof.
  induction levels as [|wh levels IH]; intros cur w h rest; [done|]. intros [= -> <-] Hc Hcur Hmax.
  destruct (chain_head _ w h levels Hc eq_refl) as [Hw Hh].
  destruct levels as [|[w' h'] levels].
  - cbn. rewrite length_replicate. split; [rewrite Z2Nat.id by nia; lia|].
    intros i x [-> _]%lookup_replicate. by left.
  - destruct Hc as (Hw0 & Hh0 & Ew & Eh & Hc).
    destruct (chain_head _ w' h' levels Hc eq_refl) as [Hw' Hh'].
    assert (0 <= w' * h') by nia. assert (0 <= w * h) by nia.
    assert (total ((w, h) :: (w', h') :: levels) = w * h + total ((w', h') :: levels)) as Et by done.
    pose proof (chain_le_total w' h' levels Hc) as Hle.
    destruct (IH (cur + w * h) w' h' levels eq_refl Hc ltac:(lia) ltac:(lia)) as [Hlen Hlk].
    rewrite link_levels_cons, length_app, Nat2Z.inj_add, Hlen, length_level_parents by lia. split; [lia|].
    intros i x. rewrite lookup_app_Some. intros [Hl|[Hge Hr]].
    + right. pose proof (lookup_lt_Some _ _ _ Hl) as Hi.
      pose proof (length_level_parents (cur + w * h) w h w' ltac:(lia) ltac:(lia)).
      apply list_elem_of_lookup_2 in Hl. rewrite Ew in Hl.
      apply level_parents_range in Hl; rewrite <- ?Ew, <- ?Eh in *; lia.
    + destruct (Hlk _ _ Hr) as [|[? ?]]; [by left|right].
      pose proof (length_level_parents (cur + w * h) w h w' ltac:(lia) ltac:(lia)). lia.
Qed.

(** The climb from a node of the first level takes one step per level. *)
Lemma climb_depth levels : forall t cur w h rest pre fuel node stack p,
  levels = (w, h) :: rest -> levels_chain levels -> 0 <= cur -> cur + total levels <= UINT32_MAX ->
  parents t = pre ++ link_levels (cur + w * h) levels -> Z.of_nat (length pre) = cur ->
  cur <= node < cur + w * h -> climb fuel t node stack = Some p ->
  (length p <= length stack + length levels)%nat.
Proof.
  induction levels as [|wh levels IH]; intros t cur w h rest pre fuel node stack p; [done|].
  intros [= -> <-] Hc Hcur Hmax Hpar Hpre Hnode. destruct fuel as [|fuel]; [done|]. simpl.
  destruct (chain_head _ w h levels Hc eq_refl) as [Hw Hh].
  assert (parent_at t node = nthZ UINT32_MAX (link_levels (cur + w * h) ((w, h) :: levels)) (node - cur)) as Epar.
  { unfold parent_at. rewrite Hpar, !nthZ_default, lookup_app_r by lia.
    replace (Z.to_nat node - length pre)%nat with (Z.to_nat (node - cur)) by lia. done. }
  destruct levels as [|[w' h'] levels].
  - assert (parent_at t node = UINT32_MAX) as ->.
    { rewrite Epar. apply nthZ_lookup. cbn. apply lookup_replicate. lia. }
    rewrite Z.eqb_refl. intros [= <-]. simpl. lia.
  - destruct (Z.eqb_spec (parent_at t node) UINT32_MAX); [intros [= <-]; simpl; lia|]. intros Hcl.
    destruct Hc as (Hw0 & Hh0 & Ew & Eh & Hc).
    destruct (chain_head _ w' h' levels Hc eq_refl) as [Hw' Hh'].
    pose proof (length_level_parents (cur + w * h) w h w' ltac:(lia) ltac:(lia)) as Hll.
    assert (total ((w, h) :: (w', h') :: levels) = w * h + total ((w', h') :: levels)) as Et by done.
    pose proof (chain_le_total w' h' levels Hc) as Hle.
    assert (cur + w * h <= parent_at t node < cur + w * h + w' * h') as Hr.
    { rewrite Epar. rewrite nthZ_default, link_levels_cons, lookup_app_l by lia.
      destruct (lookup_lt_is_Some_2 (level_parents (cur + w * h) w h w') (Z.to_nat (node - cur))) as [x Hx]; [lia|].
      rewrite Hx. apply list_elem_of_lookup_2 in Hx. rewrite Ew in Hx. simpl.
      apply level_parents_range in Hx; rewrite <- ?Ew, <- ?Eh in *; lia. }
    apply (IH t (cur + w * h) w' h' levels (pre ++ level_parents (cur + w * h) w h w') fuel _ (node :: stack)) in Hcl;
      [simpl in *; lia|done|done|lia|lia| |rewrite length_app, Nat2Z.inj_add; lia|done].
    by rewrite <- app_assoc.
Qed.

Lemma buildTree_spec w h : 0 <= w <= 16384 -> 0 <= h <= 16384 ->
  exists t, buildTree w h = Some t /\ wf_tree t /\ nleaves t = w * h /\
    forall leafno p, 0 <= leafno < w * h -> path t leafno = Some p -> (length p <= 15)%nat.
Proof.
  intros Hw Hh.
  destruct (level_sizes_spec 16 0 w h) as (levels & Hls & Hc & [rest ->] & Hlen); [done|lia|simpl; lia|simpl; lia|].
  unfold buildTree. rewrite Hls. cbn [fmap option_fmap option_map]. eexists. split; [done|].
  destruct (chain_total _ Hc) as [-> Htot].
  assert (total ((w, h) :: rest) <= UINT32_MAX) as Hmax by grk_lia.
  pose proof (chain_le_total w h rest Hc).
  destruct (link_levels_spec _ 0 w h rest eq_refl Hc ltac:(lia) ltac:(lia)) as [Hll Hlk].
  rewrite Z.add_0_l in Hll, Hlk. assert (0 <= w * h) by nia.
  set (t := mkTagTree _ _ _ _ _).
  assert (nnodes t = total ((w, h) :: rest)) as Hnn.
  { unfold nnodes. cbn [t nodes]. rewrite length_replicate. lia. }
  assert (nleaves t = w * h) as Hnl.
  { unfold nleaves. cbn [t leafCache]. rewrite length_replicate. lia. }
  assert (wf_tree t) as Hwf.
  { split; [|lia|lia|].
    - cbn [t parents nodes]. rewrite length_replicate. lia.
    - intros i Hi Hp. rewrite Hnn, Hnl in *.
      destruct (lookup_lt_is_Some_2 (parents t) (Z.to_nat i)) as [x Hx]; [cbn [t parents]; lia|].
      assert (parent_at t i = x) as E by (by apply nthZ_lookup). rewrite E in *.
      destruct (Hlk _ _ Hx) as [|[? ?]]; [done|]. rewrite Z2Nat.id in * by lia. lia. }
  split; [done|]. split; [done|].
  intros leafno p Hl Hp. unfold path in Hp. rewrite wrap_small in Hp by grk_lia.
  apply (climb_depth ((w, h) :: rest) t 0 w h rest [] _ leafno [] p) in Hp; try done; try lia.
  cbn [length] in Hp, Hlen |- *. lia.
Qed.

Variable maxT : Z.
Hypothesis maxT_nonneg : 0 <= maxT.

Lemma TagTree_new_spec w h : 0 <= w <= 16384 -> 0 <= h <= 16384 ->
  exists t, TagTree_new maxT w h = Some t /\ wf_tree t /\ heap t /\ nleaves t = w * h /\
    (forall i, 0 <= i < nnodes t -> node_at t i = fresh_node maxT) /\ tree_sync maxT t t /\
    forall leafno p, 0 <= leafno < w * h -> path t leafno = Some p -> (length p <= 15)%nat.
Proof.
  intros Hw Hh. destruct (buildTree_spec w h Hw Hh) as (b & Hb & Hwf & Hnl & Hdepth).
  unfold TagTree_new. rewrite Hb. cbn [fmap option_fmap option_map]. exists (reset maxT b).
  set (t := reset maxT b).
  assert (length (nodes t) = length (nodes b)) as Hln by apply length_fmap.
  assert (length (leafCache t) = length (leafCache b)) as Hlc by apply length_fmap.
  assert (nnodes t = nnodes b) as Hnn by (unfold nnodes; by rewrite Hln).
  assert (nleaves t = nleaves b) as Hnl' by (unfold nleaves; by rewrite Hlc).
  assert (forall i, 0 <= i < nnodes t -> node_at t i = fresh_node maxT) as Hfresh.
  { intros i Hi. apply nthZ_lookup. cbn [t reset nodes]. rewrite list_lookup_fmap.
    destruct (lookup_lt_is_Some_2 (nodes b) (Z.to_nat i)) as [x ->]; [unfold nnodes in *; lia|done]. }
  assert (wf_tree t) as Hwt.
  { destruct Hwf as [H1 H2 H3 H4]. split; rewrite ?Hnn, ?Hnl'; [by rewrite Hln|done|done|done]. }
  assert (heap t) as Hht.
  { split; intros i Hi; [|by rewrite Hfresh].
    intros Hp. rewrite !Hfresh; [done|done|]. destruct (wt_parent t Hwt i Hi Hp). lia. }
  do 4 (split; [first [done|congruence]|]). split; [done|]. split.
  - split; [done| |done|].
    + cbn [t reset nodes]. apply Forall2_fmap_2. apply Forall2_true; [|done].
      intros _ _. split; simpl; try done; lia.
    + intros j Hj. left. apply nthZ_lookup. cbn [t reset leafCache]. rewrite list_lookup_fmap.
      destruct (lookup_lt_is_Some_2 (leafCache b) (Z.to_nat j)) as [x ->]; [unfold nleaves in *; lia|done].
  - intros leafno p Hl Hp. apply (Hdepth leafno); [lia|]. rewrite <- Hp. symmetry. by apply path_parents.
Qed.
End Build.

(** ** A tag tree through a packet header *)
Section Header.
Variable maxT : Z.
Context {S : Type} `{Stream : IStreamWriter S} `{!IStreamWriterLaws S}.

(** Leaf assignments made before encoding. *)
Fixpoint set_all (sets : list (Z * Z)) (t : TagTree) : option TagTree :=
  match sets with
  | [] => Some t
  | (leafno, v) :: sets => t' ← set leafno v t; set_all sets t'
  end.

(** The value the assignments give a leaf. *)
Definition assigned (sets : list (Z * Z)) (leafno : Z) : Z :=
  foldr (fun s acc => if leafno =? s.1 then Z.min acc s.2 else acc) maxT sets.

(** A sequence of [(leaf, threshold)] queries, encoded and decoded. *)
Fixpoint encode_all (qs : list (Z * Z)) (bio : BitIO S) (t : TagTree)
  : option (bool * BitIO S * TagTree) :=
  match qs with
  | [] => Some (true, bio, t)
  | (leafno, thr) :: qs =>
      match encode bio leafno thr t with
      | Some (true, bio, t) => encode_all qs bio t
      | r => r
      end
  end.

Fixpoint decode_all (qs : list (Z * Z)) (bio : BitIO S) (t : TagTree)
  : option (result bio_exception (list Z * BitIO S * TagTree)) :=
  match qs with
  | [] => Some (Ok ([], bio, t))
  | (leafno, thr) :: qs =>
      match decode bio leafno thr t with
      | Some (Ok (v, bio, t)) =>
          match decode_all qs bio t with
          | Some (Ok (vs, bio, t)) => Some (Ok (v :: vs, bio, t))
          | r => r
          end
      | Some (Err e) => Some (Err e)
      | None => None
      end
  end.

Definition valid_sets (n : Z) (sets : list (Z * Z)) : Prop :=
  Forall (fun s => 0 <= s.1 < n /\ 0 <= s.2 <= maxT) sets.
Definition valid_queries (n : Z) (qs : list (Z * Z)) : Prop :=
  Forall (fun q => 0 <= q.1 < n /\ q.2 <= maxT) qs.

(** What a query may answer about a leaf of value [x]. *)
Definition answers (x thr v : Z) : Prop := if x <? thr then v = x else thr <= v.

Lemma set_all_spec sets : forall e d n,
  wf_tree e -> heap e -> tree_sync maxT e d -> nleaves e = n ->
  (forall i, 0 <= i < nnodes e -> low (node_at e i) = 0) -> valid_sets n sets ->
  exists e', set_all sets e = Some e' /\ wf_tree e' /\ heap e' /\ tree_sync maxT e' d /\
    nleaves e' = n /\
    (forall i, 0 <= i < n -> value (node_at e' i) =
       foldr (fun s acc => if i =? s.1 then Z.min acc s.2 else acc) (value (node_at e i)) (rev sets)).
Proof.
  induction sets as [|[leafno v] sets IH]; intros e d n Hw Hh Hs Hn Hlow Hv; simpl.
  { exists e. by do 5 (split; [done|]). }
  inversion Hv as [|? ? [Hl Hr] Hv']; subst. simpl in Hl, Hr.
  destruct (set_spec e leafno v Hw Hh ltac:(lia) ltac:(lia))
    as (e1 & He1 & Hw1 & Hh1 & Hp1 & Hc1 & Hall & Hval).
  rewrite He1. simpl.
  assert (nleaves e1 = nleaves e) as Hnl by (unfold nleaves; by rewrite Hc1).
  assert (nnodes e1 = nnodes e) as Hnn by (unfold nnodes; by rewrite (Forall2_length Hall)).
  destruct (IH e1 d (nleaves e)) as (e' & He' & Hw' & Hh' & Hs' & Hn' & Hval'); try done.
  - eapply (set_sync maxT e d leafno v); try done. intros i Hi. rewrite Hlow by done. lia.
  - intros i. rewrite Hnn. intros Hi. rewrite <- (Hlow i Hi).
    destruct (lookup_lt_is_Some_2 (nodes e) (Z.to_nat i)) as [x Hx]; [unfold nnodes in *; lia|].
    destruct (Forall2_lookup_l _ _ _ _ _ Hall Hx) as (y & Hy & (Hlo & _)).
    unfold node_at. by rewrite (nthZ_lookup _ _ _ _ Hx), (nthZ_lookup _ _ _ _ Hy).
  - exists e'. do 5 (split; [done|]). intros i Hi. rewrite Hval', Hval by done.
    rewrite foldr_app. simpl. done.
Qed.

Lemma assigned_rev sets leafno acc :
  foldr (fun s acc => if leafno =? s.1 then Z.min acc s.2 else acc) acc (rev sets) =
  foldr (fun s acc => if leafno =? s.1 then Z.min acc s.2 else acc) acc sets.
Proof.
  revert acc; induction sets as [|[l v] sets IH]; intros acc; simpl; [done|].
  rewrite foldr_app. simpl. rewrite IH. clear IH. destruct (leafno =? l); [|done].
  revert acc; induction sets as [|[l' v'] sets IH]; intros acc; simpl; [done|].
  rewrite IH. destruct (leafno =? l'); lia.
Qed.

(** The bits a sequence of queries writes. *)
Lemma encode_all_spec qs : forall e n bio bio' e',
  wf_tree e -> heap e -> Forall (enc_ok maxT) (nodes e) -> nleaves e = n -> valid_queries n qs ->
  encode_all qs bio e = Some (true, bio', e') ->
  exists code, puts bio code bio' /\
    forall r r' d, tree_sync maxT e d -> gets r code r' ->
      exists vs d', decode_all qs r d = Some (Ok (vs, r', d')) /\
        Forall2 (fun q v => answers (value (node_at e q.1)) q.2 v) qs vs.
Proof.
  induction qs as [|[leafno thr] qs IH]; intros e n bio bio' e' Hw Hh Hok Hn Hv; simpl.
  { intros [= <- <-]. exists []. split; [done|]. intros r r' d _ ->%gets_nil. exists [], d. auto. }
  inversion Hv as [|? ? [Hl Ht] Hv']; subst. simpl in Hl, Ht.
  destruct (encode bio leafno thr e) as [[[[] bio1] e1]|] eqn:E; [|done|done]. intros Hall.
  destruct (encode_spec maxT e leafno thr bio bio1 e1 Hw Hh Hok Hl E) as (Hp & Hsame & Hok1).
  assert (nleaves e1 = nleaves e) as Hnl by (destruct Hsame as (_ & Hc & _); unfold nleaves; by rewrite Hc).
  destruct (IH e1 (nleaves e) bio1 bio' e') as (code & Hput & Hdec); try done.
  { by eapply same_values_wf. } { by eapply same_values_heap. }
  exists (query_code leafno thr e ++ code). split; [rewrite puts_app; eauto|].
  intros r r' d Hs (r1 & Hg & Hg')%gets_app.
  destruct (decode_encode maxT e d leafno thr bio bio1 e1 r r1 Hw Hh Hs Hl Ht E Hg) as (v & d1 & -> & Hs1 & Hans).
  destruct (Hdec r1 r' d1 Hs1 Hg') as (vs & d' & -> & Hvs).
  exists (v :: vs), d'. split; [done|]. constructor; [done|].
  eapply Forall2_impl; [|exact Hvs]. intros [l' t'] v'. simpl.
  destruct Hsame as (_ & _ & Hgr). unfold node_at. by destruct (nodes_grow_nth _ _ l' Hgr) as [-> _].
Qed.

(** C14: Inclusion and missing-bit-plane information survives the packet
    header: for a tree built for up to 2^14 leaves a side, after any leaf
    assignments, every sequence of threshold queries that was encoded into a
    flushed header decodes, from a fresh tree, to the assigned leaf value when
    it is below the query's threshold and to a value not below it otherwise. *)
Theorem tagtree_roundtrip w h sets qs e e' d0 (st : S) w1 w2 (T : list Z) :
  0 <= maxT -> 0 <= w <= 16384 -> 0 <= h <= 16384 ->
  valid_sets (w * h) sets -> valid_queries (w * h) qs ->
  TagTree_new maxT w h = Some d0 -> set_all sets d0 = Some e ->
  encode_all qs (BitIO_stream st true) e = Some (true, w1, e') -> flush w1 = (true, w2) ->
  exists hdr vs r1 d', emitted w2 = stream_contents st ++ hdr /\
    decode_all qs (BitIO_buffer (hdr ++ T) (Z.of_nat (length (hdr ++ T))) false) d0
      = Some (Ok (vs, r1, d')) /\
    Forall2 (fun q v => answers (assigned sets q.1) q.2 v) qs vs.
Proof.
  intros Hmax Hw Hh Hsets Hqs Hnew Hset Henc Hf.
  destruct (TagTree_new_spec maxT Hmax w h Hw Hh) as (d & Hd & Hwf & Hheap & Hnl & Hfresh & Hsync & _).
  assert (d = d0) as -> by congruence.
  destruct (set_all_spec sets d0 d0 (w * h)) as (e1 & He1 & Hwe & Hhe & Hse & Hne & Hval); try done.
  { intros i Hi. by rewrite Hfresh. }
  assert (e1 = e) as -> by congruence.
  destruct (encode_all_spec qs e (w * h) _ _ _ Hwe Hhe (sync_Forall_enc_ok _ _ _ Hse) Hne Hqs Henc)
    as (code & Hput & Hdec).
  destruct (reader_of_writer st code T w1 w2 Hput Hf) as (hdr & r1 & Hout & Hg).
  destruct (Hdec _ _ d0 Hse Hg) as (vs & d' & Hda & Hans).
  exists hdr, vs, r1, d'. split; [done|]. split; [done|].
  clear Hda Hdec.
  assert (forall q, 0 <= q < w * h -> value (node_at e q) = assigned sets q) as Heq.
  { intros q Hq. rewrite Hval, assigned_rev, Hfresh by (pose proof (wt_leaves d0 Hwf); lia). done. }
  clear - Hans Heq Hqs. unfold valid_queries in Hqs. revert Hqs. induction Hans as [|q v qs vs Ha Hans IH]; [constructor|].
  intros Hq. inversion Hq as [|? ? [? ?] Hq']; subst. constructor; [by rewrite <- Heq|by apply IH].
Qed.
End Header.

(** C39: [buildTree]'s fixed arrays are large enough for every tree of up to
    2^14 leaves a side: it never writes past [resW[15]], and the climb of
    [encode] and [decode] never pushes more than the 16 entries of [nodeStack]. *)
Theorem tagtree_stack_bound maxT w h : 0 <= maxT -> 0 <= w <= 16384 -> 0 <= h <= 16384 ->
  exists t, TagTree_new maxT w h = Some t /\
    forall leafno, 0 <= leafno < w * h -> exists p, path t leafno = Some p /\ (length p <= 15)%nat.
Proof.
  intros Hmax Hw Hh.
  destruct (TagTree_new_spec maxT Hmax w h Hw Hh) as (t & Ht & Hwf & Hheap & Hnl & _ & _ & Hd).
  exists t. split; [done|]. intros leafno Hl. pose proof (wt_leaves t Hwf).
  destruct (path_spec t leafno Hwf Hheap ltac:(lia)) as (p & Hp & _). eauto.
Qed.

(** A 3x2 tree, its leaf values, and threshold queries on it. *)
Definition sample_sets : list (Z * Z) := [(0, 3); (1, 0); (2, 7); (4, 1); (5, 2)].
Definition sample_queries : list (Z * Z) := [(1, 1); (0, 2); (0, 5); (3, 9); (5, 3); (2, 4)].

Definition sample_tree : TagTree := default (mkTagTree 0 0 [] [] []) (TagTree_new 64 3 2).
Definition sample_leaves : TagTree := default sample_tree (set_all sample_sets sample_tree).
Definition sample_encoded : BitIO MemWriter * TagTree :=
  match encode_all sample_queries (BitIO_stream sample_stream true) sample_leaves with
  | Some (_, w, t) => (w, t)
  | None => (BitIO_stream sample_stream true, sample_leaves)
  end.

Lemma tagtree_roundtrip_witness :
  exists hdr vs r1 d',
    decode_all (S := MemWriter) sample_queries
      (BitIO_buffer (hdr ++ [1; 2]) (Z.of_nat (length (hdr ++ [1; 2]))) false) sample_tree
      = Some (Ok (vs, r1, d')) /\
    Forall2 (fun q v => answers (assigned 64 sample_sets q.1) q.2 v) sample_queries vs.
Proof.
  destruct (tagtree_roundtrip 64 3 2 sample_sets sample_queries sample_leaves sample_encoded.2
              sample_tree sample_stream sample_encoded.1 (snd (flush sample_encoded.1)) [1; 2])
    as (hdr & vs & r1 & d' & _ & Hd & Ha).
  - lia.
  - lia.
  - lia.
  - repeat constructor; simpl; lia.
  - repeat constructor; simpl; lia.
  - vm_compute. reflexivity.
  - vm_compute. reflexivity.
  - vm_compute. reflexivity.
  - vm_compute. reflexivity.
  - exists hdr, vs, r1, d'. split; [exact Hd|exact Ha].
Defined.

Lemma tagtree_stack_bound_witness :
  exists t, TagTree_new 64 37 21 = Some t /\ exists p, path t 500 = Some p /\ (length p <= 15)%nat.
Proof.
  destruct (tagtree_stack_bound 64 37 21) as (t & Ht & Hp); [lia..|].
  exists t. split; [exact Ht|]. apply Hp. lia.
Defined.

(** A side of more than 2^14 leaves overruns [buildTree]'s
    fixed arrays of 16 level sizes (a 2^15-leaf row needs a seventeenth entry). *)
Lemma buildTree_overrun : buildTree 32768 1 = None.
Proof. vm_compute. reflexivity. Qed.
