(* ===== verification/TagTreeQueries.v ===== *)
(** The tag tree queries of packet headers, as functions of the tree.

    A query's bits and the tree it leaves are computed without a writer; queries
    of one leaf with rising thresholds write the same bits as the last of them
    alone, which is why the parser can find a block's missing bit planes by
    raising the threshold step by step. *)
From S2P Require Import Prelude BitIO TagTree.

Section Queries.
Variable maxT : Z.
Context {S : Type} `{Stream : IStreamWriter S}.
Implicit Types (n m : Node) (bio r : BitIO S).

Fixpoint path_after (t l : Z) (p : list Z) (ns : list Node) : list Node :=
  match p with
  | [] => ns
  | i :: p =>
      let n := nthZ (mkNode 0 0 false) ns i in
      let l1 := Z.max l (low n) in
      path_after t (low_after t l1 n) p (<[Z.to_nat i := node_after t l1 n]> ns)
  end.

Lemma length_path_after t p : forall l ns, length (path_after t l p ns) = length ns.
Proof. induction p as [|i p IH]; intros l ns; [done|]. cbn [path_after]. by rewrite IH, length_insert. Qed.

Lemma encode_path_after t p : forall l ns bio bio' ns',
  Forall (enc_ok maxT) ns -> path_mono l p ns -> encode_path t l p ns bio = (true, bio', ns') ->
  ns' = path_after t l p ns.
Proof.
  induction p as [|i p IH]; intros l ns bio bio' ns' Hok Hp; cbn [encode_path path_after].
  { by intros [= _ <-]. }
  destruct (path_step maxT t l i p ns Hok Hp) as (_ & Hok1 & Hp1).
  destruct Hp as (Hl & Hi & _). pose proof (enc_ok_nth maxT _ _ Hok Hi) as [Hr Hm Hk].
  set (n := nthZ (mkNode 0 0 false) ns i) in *.
  destruct (enter_node_spec l n Hl ltac:(lia) Hk) as [-> Hk1]. set (l1 := Z.max l (low n)) in *.
  destruct (encode_node _ t l1 _ bio) as [[[[] bio1] l2] n2] eqn:E; [|done].
  apply encode_node_spec in E as (Hput & -> & ->); simpl; [|lia|done|done].
  intros Henc. by apply (IH _ _ _ _ _ Hok1 Hp1 Henc).
Qed.

(** A buffer large enough takes any bits. *)
Lemma buffer_takes (bs : list bool) : forall bio, stream bio = None -> 0 <= offset bio ->
  offset bio + Z.of_nat (length bs) <= buf_len bio -> exists bio', puts bio bs bio'.
Proof.
  unfold puts. induction bs as [|b bs IH]; intros bio Hs Ho Hl; [by eexists|]. cbn [put_bits length] in *.
  unfold bseq, putbit, write8u. rewrite Hs.
  destruct (Z.eqb_spec (ct bio) 0).
  - destruct (Z.eqb_spec (offset bio) (buf_len bio)); [lia|]. apply IH; simpl; lia || done.
  - apply IH; simpl; lia || done.
Qed.

Definition tree_after (leafno t : Z) (e : TagTree) : TagTree :=
  match path e leafno with Some p => set_nodes e (path_after t 0 p (nodes e)) | None => e end.

Lemma encode_tree_after e leafno t bio bio' e' :
  wf_tree e -> heap e -> Forall (enc_ok maxT) (nodes e) -> 0 <= leafno < nleaves e ->
  encode bio leafno t e = Some (true, bio', e') ->
  puts bio (query_code leafno t e) bio' /\ e' = tree_after leafno t e.
Proof.
  intros Hw Hh Hok Hl He. split; [by eapply encode_spec|]. pose proof (wt_leaves e Hw).
  destruct (path_spec e leafno Hw Hh ltac:(lia)) as (p & Hp & Hm & _).
  unfold encode, tree_after in *. rewrite Hp in *. simpl in He.
  destruct (encode_path t 0 p (nodes e) bio) as [[ok bio1] ns'] eqn:E. injection He as -> _ <-.
  by rewrite (encode_path_after t p _ _ _ _ _ Hok Hm E).
Qed.

Lemma encode_node_puts t n fuel l bio bio' :
  l <= value n -> (known n = true -> l = value n) -> fuel = Z.to_nat (t - l) ->
  puts bio (node_code t l n) bio' ->
  encode_node fuel t l n bio = (true, bio', low_after t l n, mkNode (value n) (low n) (known_after t n)).
Proof.
  unfold node_code, low_after, known_after.
  revert l bio; induction fuel as [|fuel IH]; intros l bio Hl Hk Hf; simpl.
  - replace (Z.to_nat (Z.min t (value n) - l)) with O by lia.
    destruct (Z.ltb_spec (value n) t); [lia|]. rewrite orb_false_r. intros [= <-]. destruct n; simpl. do 2 f_equal. simpl in *. lia.
  - destruct (Z.ltb_spec l t) as [Hlt|]; [|lia]. destruct (Z.leb_spec (value n) l).
    + replace (Z.to_nat (Z.min t (value n) - l)) with O by lia.
      destruct (Z.ltb_spec (value n) t); [|lia]. rewrite orb_true_r. simpl.
      destruct (known n) eqn:Ek; simpl.
      * intros [= <-]. destruct n; simpl in *; subst. do 2 f_equal. lia.
      * rewrite write1_bit. intros E. unfold puts in E. change (Z.odd 1) with true. rewrite E. do 2 f_equal. lia.
    + replace (Z.to_nat (Z.min t (value n) - l)) with (1 + Z.to_nat (Z.min t (value n) - (l + 1)))%nat by lia.
      simpl. change (false :: ?x) with ([false] ++ x). rewrite puts_app. intros (b1 & E & Hr).
      rewrite write1_bit. change (Z.odd 0) with false. unfold puts in E. rewrite E.
      rewrite (IH (l + 1) b1); [|lia|intros Ek; specialize (Hk Ek); lia|lia|exact Hr]. do 2 f_equal. lia.
Qed.

Lemma encode_path_puts t p : forall l ns bio bio',
  Forall (enc_ok maxT) ns -> path_mono l p ns -> puts bio (path_code t l p ns) bio' ->
  encode_path t l p ns bio = (true, bio', path_after t l p ns).
Proof.
  induction p as [|i p IH]; intros l ns bio bio' Hok Hp; cbn [encode_path path_code path_after].
  { unfold puts. simpl. by intros [= <-]. }
  destruct (path_step maxT t l i p ns Hok Hp) as (_ & Hok1 & Hp1).
  destruct Hp as (Hl & Hi & _). pose proof (enc_ok_nth maxT _ _ Hok Hi) as [Hr Hm Hk].
  set (n := nthZ (mkNode 0 0 false) ns i) in *.
  destruct (enter_node_spec l n Hl ltac:(lia) Hk) as [-> Hk1]. set (l1 := Z.max l (low n)) in *.
  rewrite puts_app. intros (b1 & E1 & E2).
  rewrite (encode_node_puts t (mkNode (value n) l1 (known n)) _ l1 bio b1); simpl; [|lia|done|done|exact E1].
  by apply (IH _ _ _ _ Hok1 Hp1 E2).
Qed.

Lemma encode_puts e leafno t bio bio' :
  wf_tree e -> heap e -> Forall (enc_ok maxT) (nodes e) -> 0 <= leafno < nleaves e ->
  puts bio (query_code leafno t e) bio' -> encode bio leafno t e = Some (true, bio', tree_after leafno t e).
Proof.
  intros Hw Hh Hok Hl He. pose proof (wt_leaves e Hw).
  destruct (path_spec e leafno Hw Hh ltac:(lia)) as (p & Hp & Hm & _).
  unfold encode, tree_after, query_code in *. rewrite Hp in *. simpl.
  by rewrite (encode_path_puts t p _ _ _ _ Hok Hm He).
Qed.

(** The decoder's side of a query, without a writer. *)
Lemma decode_query e d leafno t r r' :
  wf_tree e -> heap e -> tree_sync maxT e d -> 0 <= leafno < nleaves e -> t <= maxT ->
  gets r (query_code leafno t e) r' ->
  exists v d', decode r leafno t d = Some (Ok (v, r', d')) /\ tree_sync maxT (tree_after leafno t e) d' /\
    (if value (node_at e leafno) <? t then v = value (node_at e leafno) else t <= v).
Proof.
  intros Hw Hh Hs Hl Ht Hg. pose proof (sync_Forall_enc_ok maxT _ _ Hs) as Hok.
  destruct (buffer_takes (query_code leafno t e) (BitIO_buffer [] (Z.of_nat (length (query_code leafno t e))) true))
    as (bio' & Hp); [done|done|simpl; lia|].
  eapply decode_encode; try done. by eapply encode_puts.
Qed.

(** ** What a query leaves *)

Lemma path_after_facts t p : forall l ns,
  Forall (enc_ok maxT) ns -> path_mono l p ns ->
  nodes_grow ns (path_after t l p ns) /\ Forall (enc_ok maxT) (path_after t l p ns) /\
  (forall i, i ∈ p -> value (nthZ (mkNode 0 0 false) ns i) < t -> known (nthZ (mkNode 0 0 false) (path_after t l p ns) i) = true).
Proof.
  intros l ns Hok Hp.
  destruct (buffer_takes (path_code t l p ns) (BitIO_buffer [] (Z.of_nat (length (path_code t l p ns))) true))
    as (bio' & Hb); [done|done|simpl; lia|].
  destruct (encode_path_spec maxT t p l ns _ _ _ Hok Hp (encode_path_puts t p l ns _ _ Hok Hp Hb)) as (_ & ? & ? & ?). done.
Qed.

Lemma tree_after_facts e leafno t :
  wf_tree e -> heap e -> Forall (enc_ok maxT) (nodes e) -> 0 <= leafno < nleaves e ->
  same_tree_values e (tree_after leafno t e) /\ Forall (enc_ok maxT) (nodes (tree_after leafno t e)) /\
  wf_tree (tree_after leafno t e) /\ heap (tree_after leafno t e).
Proof.
  intros Hw Hh Hok Hl. pose proof (wt_leaves e Hw).
  destruct (path_spec e leafno Hw Hh ltac:(lia)) as (p & Hp & Hm & _).
  destruct (path_after_facts t p 0 (nodes e) Hok Hm) as (Hg & Hok' & _).
  assert (same_tree_values e (tree_after leafno t e)) as Hst by (unfold tree_after; rewrite Hp; done).
  split; [done|]. split; [unfold tree_after; rewrite Hp; done|].
  split; [by eapply same_values_wf|by eapply same_values_heap].
Qed.

(** The lower bounds stay below any bound that holds of them and of the threshold. *)
Lemma path_after_low B t p : forall l ns, Forall (enc_ok maxT) ns -> path_mono l p ns -> l <= B -> t <= B ->
  Forall (fun n => low n <= B) ns -> Forall (fun n => low n <= B) (path_after t l p ns).
Proof.
  induction p as [|i p IH]; intros l ns Hok Hp Hl Ht Hns; [done|]. cbn [path_after].
  destruct (path_step maxT t l i p ns Hok Hp) as (_ & Hok1 & Hp1). destruct Hp as (_ & Hi & _).
  assert (low (nthZ (mkNode 0 0 false) ns i) <= B) as Hn.
  { rewrite nthZ_default. destruct (lookup_lt_is_Some_2 _ _ Hi) as [x Hx]. rewrite Hx. by eapply (Forall_lookup_1 _ _ _ _ Hns Hx). }
  apply IH; [done|done|unfold low_after; lia|done|]. apply Forall_insert; [done|]. unfold node_after, low_after. simpl. lia.
Qed.

Lemma tree_after_low B e leafno t :
  wf_tree e -> heap e -> Forall (enc_ok maxT) (nodes e) -> 0 <= leafno < nleaves e -> 0 <= B -> t <= B ->
  Forall (fun n => low n <= B) (nodes e) -> Forall (fun n => low n <= B) (nodes (tree_after leafno t e)).
Proof.
  intros Hw Hh Hok Hl HB Ht Hns. pose proof (wt_leaves e Hw).
  destruct (path_spec e leafno Hw Hh ltac:(lia)) as (p & Hp & Hm & _).
  unfold tree_after. rewrite Hp. by apply path_after_low.
Qed.

(** ** Rising thresholds *)

(** The lower bounds of a path raised to at least [l]. *)
Fixpoint raise (l : Z) (p : list Z) (ns : list Node) : list Node :=
  match p with
  | [] => ns
  | i :: p =>
      let n := nthZ (mkNode 0 0 false) ns i in
      let l1 := Z.max l (low n) in
      raise l1 p (<[Z.to_nat i := mkNode (value n) l1 (known n)]> ns)
  end.

Abbreviation apart i p := (Forall (fun j => Z.to_nat j <> Z.to_nat i) p).
Fixpoint distinct (p : list Z) : Prop := match p with [] => True | i :: p => apart i p /\ distinct p end.

Lemma nth_insert_apart (ns : list Node) i j x : Z.to_nat j <> Z.to_nat i ->
  nthZ (mkNode 0 0 false) (<[Z.to_nat i := x]> ns) j = nthZ (mkNode 0 0 false) ns j.
Proof. intros H. rewrite !nthZ_default, list_lookup_insert_ne by done. done. Qed.
Lemma nth_insert_same (ns : list Node) i x : (Z.to_nat i < length ns)%nat ->
  nthZ (mkNode 0 0 false) (<[Z.to_nat i := x]> ns) i = x.
Proof. intros H. by rewrite nthZ_default, list_lookup_insert_eq by done. Qed.

Lemma raise_insert i x p : forall l ns, apart i p -> raise l p (<[Z.to_nat i := x]> ns) = <[Z.to_nat i := x]> (raise l p ns).
Proof.
  induction p as [|j p IH]; intros l ns Ha; [done|]. apply list.Forall_cons in Ha as [Hj Ha]. cbn [raise].
  rewrite nth_insert_apart by done. rewrite (list_insert_insert_ne ns (Z.to_nat j) (Z.to_nat i)) by done. by apply IH.
Qed.

Lemma path_after_insert t i x p : forall l ns, apart i p ->
  path_after t l p (<[Z.to_nat i := x]> ns) = <[Z.to_nat i := x]> (path_after t l p ns).
Proof.
  induction p as [|j p IH]; intros l ns Ha; [done|]. apply list.Forall_cons in Ha as [Hj Ha]. cbn [path_after].
  rewrite nth_insert_apart by done. rewrite (list_insert_insert_ne ns (Z.to_nat j) (Z.to_nat i)) by done. by apply IH.
Qed.
Lemma path_code_insert t i x p : forall l ns, apart i p ->
  path_code t l p (<[Z.to_nat i := x]> ns) = path_code t l p ns.
Proof.
  induction p as [|j p IH]; intros l ns Ha; [done|]. apply list.Forall_cons in Ha as [Hj Ha]. cbn [path_code].
  rewrite nth_insert_apart by done. rewrite (list_insert_insert_ne ns (Z.to_nat j) (Z.to_nat i)) by done. f_equal. by apply IH.
Qed.
Lemma nth_path_after t p i : forall l ns, apart i p ->
  nthZ (mkNode 0 0 false) (path_after t l p ns) i = nthZ (mkNode 0 0 false) ns i.
Proof.
  induction p as [|j p IH]; intros l ns Ha; [done|]. apply list.Forall_cons in Ha as [Hj Ha]. cbn [path_after].
  rewrite IH by done. by apply nth_insert_apart.
Qed.

(** A raised path answers a query entered at least that high as before. *)
Lemma raised_query t p : forall l0 l ns, l0 <= l -> distinct p -> Forall (fun i => (Z.to_nat i < length ns)%nat) p ->
  path_code t l p (raise l0 p ns) = path_code t l p ns /\ path_after t l p (raise l0 p ns) = path_after t l p ns.
Proof.
  induction p as [|i p IH]; intros l0 l ns Hl Hd Hi; [done|]. destruct Hd as [Ha Hd]. apply list.Forall_cons in Hi as [Hi His].
  cbn [raise path_code path_after]. set (n := nthZ (mkNode 0 0 false) ns i). set (l1 := Z.max l0 (low n)).
  rewrite raise_insert by done. rewrite nth_insert_same.
  2: { clear -Hi. assert (forall l ns, length (raise l p ns) = length ns) as ->; [|done].
       induction p as [|j p IH]; intros l ms; [done|]. cbn [raise]. by rewrite IH, length_insert. }
  cbn [low]. replace (Z.max l l1) with (Z.max l (low n)) by lia. rewrite list_insert_insert_eq. set (x := Z.max l (low n)).
  change (low_after t x (mkNode (value n) l1 (known n))) with (low_after t x n).
  change (node_after t x (mkNode (value n) l1 (known n))) with (node_after t x n).
  change (node_code t x (mkNode (value n) l1 (known n))) with (node_code t x n).
  rewrite !path_code_insert, !path_after_insert by done.
  destruct (IH l1 (low_after t x n) ns) as [E1 E2]; [unfold low_after, x; lia|done|done|]. by rewrite E1, E2.
Qed.

(** Below the values of the path a query writes nothing and raises the bounds. *)
Lemma path_after_high t p : forall l ns, Forall (enc_ok maxT) ns -> path_mono l p ns -> t <= l ->
  path_code t l p ns = [] /\ path_after t l p ns = raise l p ns.
Proof.
  induction p as [|i p IH]; intros l ns Hok Hp Ht; [done|].
  destruct (path_step maxT t l i p ns Hok Hp) as (_ & Hok1 & Hp1). destruct Hp as (Hl & Hi & _).
  cbn [path_code path_after raise]. set (n := nthZ (mkNode 0 0 false) ns i) in *.
  destruct (enc_ok_nth maxT _ _ Hok Hi) as [Hr _ _]. fold n in Hr.
  assert (low_after t (Z.max l (low n)) n = Z.max l (low n)) as El by (unfold low_after; lia).
  assert (node_after t (Z.max l (low n)) n = mkNode (value n) (Z.max l (low n)) (known n)) as En.
  { unfold node_after, known_after. rewrite El. f_equal. destruct (Z.ltb_spec (value n) t); [lia|]. apply orb_false_r. }
  rewrite El in *. rewrite En in *.
  destruct (IH _ _ Hok1 Hp1) as [-> ->]; [lia|]. split; [|done].
  unfold node_code. replace (Z.to_nat (Z.min t (value n) - Z.max l (low n))) with 0%nat by lia.
  destruct (Z.ltb_spec (value n) t); [lia|done].
Qed.

Lemma node_code_split t1 t2 x n : t1 <= t2 -> x <= value n -> (known n = true -> x = value n) ->
  node_code t2 x n = node_code t1 x n ++ node_code t2 (low_after t1 x n) (node_after t1 x n).
Proof.
  intros Ht Hx Hk. unfold node_code, low_after, node_after, known_after. simpl.
  destruct (Z.ltb_spec (value n) t1); destruct (Z.ltb_spec (value n) t2); try lia; simpl.
  - rewrite orb_true_r. simpl. rewrite app_nil_r.
    replace (Z.to_nat (Z.min t2 (value n) - Z.max x (Z.min t1 (value n)))) with 0%nat by lia. simpl. rewrite app_nil_r.
    by replace (Z.to_nat (Z.min t2 (value n) - x)) with (Z.to_nat (Z.min t1 (value n) - x)) by lia.
  - rewrite orb_false_r, app_nil_r, app_assoc, <- repeat_app. do 3 f_equal. lia.
  - rewrite !app_nil_r, <- repeat_app. f_equal. lia.
Qed.

Lemma path_split t1 t2 p : t1 <= t2 -> forall l ns,
  Forall (enc_ok maxT) ns -> path_mono l p ns -> distinct p ->
  path_code t2 l p ns = path_code t1 l p ns ++ path_code t2 l p (path_after t1 l p ns) /\
  path_after t2 l p (path_after t1 l p ns) = path_after t2 l p ns.
Proof.
  intros Ht. induction p as [|i p IH]; intros l ns Hok Hp Hd; [done|]. destruct Hd as [Ha Hd].
  destruct (path_step maxT t1 l i p ns Hok Hp) as (Hg1 & Hok1 & Hp1).
  pose proof Hp as (Hl & Hi & Hrest). destruct (enc_ok_nth maxT _ _ Hok Hi) as [Hr Hmx Hk].
  cbn [path_code path_after]. set (n := nthZ (mkNode 0 0 false) ns i) in *. set (x := Z.max l (low n)) in *.
  set (a := low_after t1 x n) in *. set (na := node_after t1 x n) in *.
  rewrite path_after_insert by done.
  rewrite nth_insert_same by (rewrite length_path_after; done).
  assert (Z.max l (low na) = a) as -> by (unfold na, node_after, a, low_after, x; simpl; lia).
  assert (low_after t2 a na = low_after t2 x n) as -> by (unfold low_after, na, node_after, a, low_after; simpl; lia).
  assert (node_after t2 a na = node_after t2 x n) as ->.
  { unfold na, a, node_after, low_after, known_after. simpl. f_equal; [lia|].
    destruct (known n); [done|]. simpl. destruct (Z.ltb_spec (value n) t1), (Z.ltb_spec (value n) t2); try lia; done. }
  set (b := low_after t2 x n). rewrite list_insert_insert_eq, !path_code_insert, !path_after_insert by done.
  assert (x <= value n) as Hxv by (unfold x; lia).
  assert (known n = true -> x = value n) as Hkx by (intros E; specialize (Hk E); unfold x; lia).
  rewrite (node_code_split t1 t2 x n Ht Hxv Hkx), <- !app_assoc. fold a na.
  assert (path_mono a p ns) as Hpa.
  { clear -Hp1 Ha. revert Hp1. fold na a. generalize a. induction p as [|j p IH]; intros y; [done|].
    apply list.Forall_cons in Ha as [Hj Ha]. cbn [path_mono]. rewrite nth_insert_apart by done. rewrite length_insert.
    intros (? & ? & ?). split; [done|]. split; [done|]. by apply IH. }
  destruct (Z_lt_le_dec (value n) t1) as [Hv|Hv].
  - assert (a = value n /\ b = value n) as [Ea Eb] by (unfold a, b, low_after; lia).
    assert (node_code t2 a na = []) as ->.
    { unfold node_code, na, node_after, known_after. simpl. rewrite (proj2 (Z.ltb_lt _ _) Hv), orb_true_r, andb_false_r.
      by replace (Z.to_nat (Z.min t2 (value n) - a)) with 0%nat by lia. }
    destruct (IH a ns Hok Hpa Hd) as [E1 E2]. rewrite Eb, <- Ea. rewrite E2. split; [|done]. by rewrite E1 at 1.
  - destruct (path_after_high t1 p a ns Hok Hpa) as [E1 E2]; [unfold a, low_after; lia|].
    rewrite E1, E2. assert (a <= b) as Hab by (unfold a, b, low_after; lia).
    assert (Forall (fun i => (Z.to_nat i < length ns)%nat) p) as Hin.
    { apply list.Forall_forall. intros j Hj. by eapply path_mono_range. }
    destruct (raised_query t2 p a b ns Hab Hd Hin) as [-> ->]. done.
Qed.

(** The path of a leaf goes down through distinct nodes. *)
Lemma climb_distinct t : wf_tree t -> forall fuel node stack p,
  climb fuel t node stack = Some p -> 0 <= node < nnodes t ->
  Forall (fun j => 0 <= j < node) stack -> distinct stack -> distinct p.
Proof.
  intros Hw fuel. induction fuel as [|fuel IH]; intros node stack p; simpl; [done|].
  intros Hc Hn Hst Hd.
  assert (distinct (node :: stack)) as Hd'.
  { split; [|done]. eapply Forall_impl; [|exact Hst]. simpl. lia. }
  destruct (Z.eqb_spec (parent_at t node) UINT32_MAX) as [E|E]; [by injection Hc as <-|].
  destruct (wt_parent t Hw node Hn E) as [Hup _].
  apply (IH _ _ _ Hc); [lia| |done]. constructor; [lia|]. eapply Forall_impl; [|exact Hst]. simpl. lia.
Qed.

Lemma path_distinct t leafno p : wf_tree t -> 0 <= leafno < nnodes t -> path t leafno = Some p -> distinct p.
Proof.
  intros Hw Hl Hp. pose proof (wt_small t Hw). unfold path in Hp. rewrite wrap_small in Hp by grk_lia.
  by eapply climb_distinct.
Qed.

Lemma query_split e leafno t1 t2 : wf_tree e -> heap e -> Forall (enc_ok maxT) (nodes e) -> 0 <= leafno < nleaves e -> t1 <= t2 ->
  query_code leafno t2 e = query_code leafno t1 e ++ query_code leafno t2 (tree_after leafno t1 e) /\
  tree_after leafno t2 (tree_after leafno t1 e) = tree_after leafno t2 e.
Proof.
  intros Hw Hh Hok Hl Ht. pose proof (wt_leaves e Hw).
  destruct (path_spec e leafno Hw Hh ltac:(lia)) as (p & Hp & Hm & _).
  assert (path (set_nodes e (path_after t1 0 p (nodes e))) leafno = Some p) as Hp'.
  { rewrite <- Hp. apply path_parents; [done|]. simpl. apply length_path_after. }
  destruct (path_split t1 t2 p Ht 0 (nodes e) Hok Hm) as [E1 E2]; [eapply path_distinct; try done; lia|].
  unfold query_code, tree_after. rewrite Hp, Hp'. simpl. split; [exact E1|]. unfold set_nodes. simpl. by rewrite E2.
Qed.

(** Once the threshold is above the leaf's value nothing is left to send. *)
Lemma query_done e leafno t1 t2 : wf_tree e -> heap e -> Forall (enc_ok maxT) (nodes e) -> 0 <= leafno < nleaves e ->
  value (node_at e leafno) < t1 -> t1 <= t2 ->
  query_code leafno t2 e = query_code leafno t1 e /\ tree_after leafno t1 e = tree_after leafno t2 e.
Proof.
  intros Hw Hh Hok Hl Hv Ht. destruct (query_split e leafno t1 t2 Hw Hh Hok Hl Ht) as [E1 E2]. pose proof (wt_leaves e Hw).
  destruct (path_spec e leafno Hw Hh ltac:(lia)) as (p & Hp & Hm & pre & Epre).
  assert (path (set_nodes e (path_after t1 0 p (nodes e))) leafno = Some p) as Hp'.
  { rewrite <- Hp. apply path_parents; [done|]. simpl. apply length_path_after. }
  destruct (path_after_facts t1 p 0 (nodes e) Hok Hm) as (Hg & Hok' & Hkn).
  assert (forall i, i ∈ p -> known (nthZ (mkNode 0 0 false) (path_after t1 0 p (nodes e)) i) = true /\
     low (nthZ (mkNode 0 0 false) (path_after t1 0 p (nodes e)) i) = value (nthZ (mkNode 0 0 false) (path_after t1 0 p (nodes e)) i)) as Hall.
  { intros i Hi. assert (value (nthZ (mkNode 0 0 false) (nodes e) i) < t1) as Hvi.
    { rewrite Epre in Hi, Hm. pose proof (path_mono_below _ _ _ _ i Hm Hi). unfold node_at in Hv. lia. }
    specialize (Hkn i Hi Hvi). split; [done|]. apply (enc_ok_nth maxT _ _ Hok'); [|done].
    rewrite length_path_after. by eapply path_mono_range. }
  assert (path_mono 0 p (path_after t1 0 p (nodes e))) as Hm' by (by eapply path_mono_grow).
  assert (query_code leafno t2 (tree_after leafno t1 e) = []) as E3.
  { unfold query_code, tree_after. rewrite Hp, Hp'. simpl. by apply path_code_known. }
  split; [by rewrite E1, E3, app_nil_r|]. rewrite <- E2. unfold tree_after. rewrite Hp, Hp'. simpl. unfold set_nodes. simpl. f_equal.
  assert (puts (BitIO_buffer [] 0 true) (path_code t2 0 p (path_after t1 0 p (nodes e))) (BitIO_buffer [] 0 true)) as Hput.
  { rewrite path_code_known by done. done. }
  pose proof (encode_path_puts t2 p 0 _ _ _ Hok' Hm' Hput) as He.
  rewrite encode_path_known in He by done. by injection He.
Qed.

End Queries.
