(* ===== verification/Geometry.v ===== *)
(** Integer helpers and rectangles: src/src/lib/core/util/intmath.h,
    src/src/lib/core/util/geometry.h and [CodingParams::getTileBounds].

    Rectangles keep the source's six coordinates as integers; an operation
    whose C++ result is stored in the coordinate type [T] takes the width [w]
    of that (unsigned) type and wraps to it.  The theorems show that rounding
    up twice is rounding up once (so that a resolution has one set of bounds
    however it is derived), and that the tile grid partitions the image. *)
From S2P Require Import Prelude.

(** ** intmath.h *)

(** [ceildiv<T>]: computed in 64 bits, returned as [uint32_t]. *)
Definition ceildiv (a b : Z) : Z := u32 (u64 (u64 (a + b) - 1) / b).

(** [ceildivpow2<T>] for a [w]-bit [T]. *)
Definition ceildivpow2 (w a b : Z) : Z := wrap w (Z.shiftr (u64 (u64 (a + u64 (Z.shiftl 1 b)) - 1)) b).

Definition floordivpow2 (a b : Z) : Z := Z.shiftr (u32 a) b.

(** [floorlog2]: the loop shifts a 32-bit value to 1, at most 31 times. *)
Fixpoint floorlog2_loop (fuel : nat) (l a : Z) : Z :=
  match fuel with
  | O => l
  | S fuel => if 1 <? a then floorlog2_loop fuel (u8 (l + 1)) (Z.shiftr a 1) else l
  end.
Definition floorlog2 (a : Z) : Z := floorlog2_loop 32 0 a.

(** ** geometry.h *)

(** [clip<T>] for an unsigned [T] of width [w], [satAdd<T>] and [satSub<T>]. *)
Definition clip_to (w v : Z) : Z := if v <? 0 then 0 else if 2 ^ w - 1 <? v then 2 ^ w - 1 else v.
Definition satAdd (w lhs rhs : Z) : Z := clip_to w (lhs + rhs).
Definition satSub (w lhs rhs : Z) : Z := clip_to w (lhs - rhs).

Record Rect := mkRect {
  origin_x0 : Z; origin_y0 : Z;
  x0 : Z; y0 : Z; x1 : Z; y1 : Z;
}.

#[export] Instance Rect_eq_dec : EqDecision Rect.
Proof. solve_decision. Defined.

(** The four-coordinate constructor. *)
Definition Rect4 (a b c d : Z) : Rect := mkRect a b a b c d.

Definition setOrigin (ox oy : Z) (r : Rect) : Rect := mkRect ox oy (x0 r) (y0 r) (x1 r) (y1 r).

Definition valid (r : Rect) : bool := (x0 r <=? x1 r) && (y0 r <=? y1 r).
Definition empty (r : Rect) : bool := (x1 r <=? x0 r) || (y1 r <=? y0 r).
Definition contains (r : Rect) (x y : Z) : bool :=
  (x0 r <=? x) && (y0 r <=? y) && (x <? x1 r) && (y <? y1 r).

Definition scaleDown (w denx deny : Z) (r : Rect) : Rect :=
  mkRect (wrap w (origin_x0 r / denx)) (wrap w (origin_y0 r / deny))
         (wrap w (x0 r / denx)) (wrap w (y0 r / deny))
         (wrap w (ceildiv (x1 r) denx)) (wrap w (ceildiv (y1 r) deny)).

Definition scaleDownPow2 (w powx powy : Z) (r : Rect) : Rect :=
  mkRect (wrap w (Z.shiftr (origin_x0 r) powx)) (wrap w (Z.shiftr (origin_y0 r) powy))
         (wrap w (Z.shiftr (x0 r) powx)) (wrap w (Z.shiftr (y0 r) powy))
         (wrap w (ceildivpow2 64 (x1 r) powx)) (wrap w (ceildivpow2 64 (y1 r) powy)).

Definition scaleDownCeil (w denx deny : Z) (r : Rect) : Rect :=
  mkRect (wrap w (ceildiv (origin_x0 r) denx)) (wrap w (ceildiv (origin_y0 r) deny))
         (wrap w (ceildiv (x0 r) denx)) (wrap w (ceildiv (y0 r) deny))
         (wrap w (ceildiv (x1 r) denx)) (wrap w (ceildiv (y1 r) deny)).

Definition scaleDownCeilPow2 (w powx powy : Z) (r : Rect) : Rect :=
  mkRect (wrap w (ceildivpow2 64 (origin_x0 r) powx)) (wrap w (ceildivpow2 64 (origin_y0 r) powy))
         (wrap w (ceildivpow2 64 (x0 r) powx)) (wrap w (ceildivpow2 64 (y0 r) powy))
         (wrap w (ceildivpow2 64 (x1 r) powx)) (wrap w (ceildivpow2 64 (y1 r) powy)).

(** [clip], [clip_IN_PLACE] and [intersection] compute the same rectangle,
    which loses the origin of its arguments. *)
Definition intersection (r rhs : Rect) : Rect :=
  Rect4 (Z.max (x0 r) (x0 rhs)) (Z.max (y0 r) (y0 rhs))
        (Z.min (x1 r) (x1 rhs)) (Z.min (y1 r) (y1 rhs)).
Definition clip_IN_PLACE (r rhs : Rect) : Rect :=
  Rect4 (Z.max (x0 r) (x0 rhs)) (Z.max (y0 r) (y0 rhs))
        (Z.min (x1 r) (x1 rhs)) (Z.min (y1 r) (y1 rhs)).
Definition nonEmptyIntersection (r rhs : Rect) : bool :=
  (Z.max (x0 r) (x0 rhs) <? Z.min (x1 r) (x1 rhs)) &&
  (Z.max (y0 r) (y0 rhs) <? Z.min (y1 r) (y1 rhs)).
Definition rectUnion (r rhs : Rect) : Rect :=
  Rect4 (Z.min (x0 r) (x0 rhs)) (Z.min (y0 r) (y0 rhs))
        (Z.max (x1 r) (x1 rhs)) (Z.max (y1 r) (y1 rhs)).

(** [width] and [height] are of type [T]; [area] is a 64-bit product. *)
Definition width (w : Z) (r : Rect) : Z := wrap w (x1 r - x0 r).
Definition height (w : Z) (r : Rect) : Z := wrap w (y1 r - y0 r).
Definition area (w : Z) (r : Rect) : Z := u64 (width w r * height w r).

Definition pan_IN_PLACE (w dx dy : Z) (r : Rect) : Rect :=
  mkRect (origin_x0 r) (origin_y0 r)
         (satAdd w (x0 r) dx) (satAdd w (y0 r) dy) (satAdd w (x1 r) dx) (satAdd w (y1 r) dy).

(** [toRelative]: pan by the negated origin. *)
Definition toRelative (w : Z) (r : Rect) : Rect := pan_IN_PLACE w (- origin_x0 r) (- origin_y0 r) r.

Definition grow_within (w bx by' : Z) (bounds r : Rect) : Rect :=
  mkRect (origin_x0 r) (origin_y0 r)
         (Z.max (satSub w (x0 r) bx) (x0 bounds)) (Z.max (satSub w (y0 r) by') (y0 bounds))
         (Z.min (satAdd w (x1 r) bx) (x1 bounds)) (Z.min (satAdd w (y1 r) by') (y1 bounds)).
(** The two-boundary overload of [grow_IN_PLACE]. *)
Definition grow_IN_PLACE (w bx by' : Z) (r : Rect) : Rect :=
  grow_within w bx by' (Rect4 0 0 (2 ^ w - 1) (2 ^ w - 1)) r.

(** ** The tile grid *)

(** The tile geometry fields of [CodingParams]. *)
Record TileGrid := mkTileGrid {
  tx0_ : Z; ty0_ : Z;            (* XTOsiz, YTOsiz *)
  t_width_ : Z; t_height_ : Z;   (* XTsiz, YTsiz *)
}.

(** [CodingParams::getTileBounds]. *)
Definition getTileBounds (cp : TileGrid) (imageBounds : Rect) (tile_x tile_y : Z) : Rect :=
  let rx0 := Z.max (u32 (tx0_ cp + tile_x * t_width_ cp)) (x0 imageBounds) in
  let ry0 := Z.max (u32 (ty0_ cp + tile_y * t_height_ cp)) (y0 imageBounds) in
  let tempx := u64 (tx0_ cp + u64 ((tile_x + 1) * t_width_ cp)) in
  let rx1 := if x1 imageBounds <? tempx then x1 imageBounds else u32 tempx in
  let tempy := u64 (ty0_ cp + u64 ((tile_y + 1) * t_height_ cp)) in
  let ry1 := if y1 imageBounds <? tempy then y1 imageBounds else u32 tempy in
  mkRect 0 0 rx0 ry0 rx1 ry1.

(** ** Rounding up *)

(** The mathematical ceiling quotient that the machine routines compute. *)
Definition cdiv (a b : Z) : Z := (a + b - 1) / b.

Lemma cdiv_le a b k : 0 < b -> cdiv a b <= k <-> a <= k * b.
Proof.
  intros Hb. unfold cdiv. pose proof (Z.div_mod (a + b - 1) b ltac:(lia)).
  pose proof (Z.mod_pos_bound (a + b - 1) b Hb). split; intros H1; nia.
Qed.

Lemma cdiv_gt a b k : 0 < b -> k < cdiv a b <-> k * b < a.
Proof. intros Hb. pose proof (cdiv_le a b k Hb). lia. Qed.

Lemma cdiv_nonneg a b : 0 < b -> 0 <= a -> 0 <= cdiv a b.
Proof. intros. apply Z.div_pos; lia. Qed.

Lemma cdiv_range a b n : 0 < b -> 0 <= a < n -> 0 <= cdiv a b < n.
Proof.
  intros Hb Ha. split; [by apply cdiv_nonneg; lia|].
  destruct (Z_le_gt_dec a 0).
  - assert (cdiv a b <= 0) by (apply cdiv_le; lia). lia.
  - assert (cdiv a b <= a) by (apply cdiv_le; nia). lia.
Qed.

Lemma cdiv_unique a b q : 0 < b -> (forall k, q <= k <-> a <= k * b) -> cdiv a b = q.
Proof.
  intros Hb H. pose proof (cdiv_le a b q Hb) as H1. pose proof (cdiv_le a b (cdiv a b) Hb) as H2.
  pose proof (H q). pose proof (H (cdiv a b)). lia.
Qed.

(** Rounding up by [b] and then by [c] is rounding up by [b * c]. *)
Lemma cdiv_cdiv a b c : 0 < b -> 0 < c -> cdiv (cdiv a b) c = cdiv a (b * c).
Proof.
  intros Hb Hc. apply cdiv_unique; [done|]. intros k.
  rewrite cdiv_le by nia. rewrite cdiv_le by done. by replace (k * c * b) with (k * (b * c)) by lia.
Qed.

Lemma cdiv_1 a : cdiv a 1 = a.
Proof. unfold cdiv. rewrite Z.div_1_r. lia. Qed.

Lemma cdiv_mul a b : 0 < b -> cdiv (a * b) b = a.
Proof. intros. apply cdiv_unique; [done|]. intros k. nia. Qed.

Lemma cdiv_add_mul a b k : 0 < b -> cdiv (a + k * b) b = cdiv a b + k.
Proof. intros. unfold cdiv. replace (a + k * b + b - 1) with (a + b - 1 + k * b) by lia. rewrite Z.div_add; lia. Qed.

Lemma cdiv_mono a a' b : 0 < b -> a <= a' -> cdiv a b <= cdiv a' b.
Proof. intros. apply Z.div_le_mono; lia. Qed.

Lemma cdiv_div a b c : 0 < b -> 0 < c -> a mod (b * c) = 0 -> cdiv a b mod c = 0.
Proof.
  intros Hb Hc H. apply Z.mod_divide in H as [k ->]; [|nia].
  replace (k * (b * c)) with (k * c * b) by lia. rewrite cdiv_mul by done. apply Z_mod_mult.
Qed.

Lemma ceildiv_cdiv a b : 0 <= a < 2 ^ 32 -> 0 < b < 2 ^ 63 -> ceildiv a b = cdiv a b.
Proof.
  intros Ha Hb. unfold ceildiv. rewrite (wrap_small 64 (a + b)) by lia.
  rewrite (wrap_small 64) by lia. apply wrap_small, cdiv_range; lia.
Qed.

Lemma ceildivpow2_cdiv w a b : 0 <= a < 2 ^ w -> w <= 32 -> 0 <= b < 63 ->
  ceildivpow2 w a b = cdiv a (2 ^ b).
Proof.
  intros Ha Hw Hb. unfold ceildivpow2. rewrite Z.shiftl_1_l.
  assert (0 < 2 ^ b < 2 ^ 63) by (split; [lia|apply Z.pow_lt_mono_r; lia]).
  assert (2 ^ w <= 2 ^ 32) by (apply Z.pow_le_mono_r; lia).
  rewrite (wrap_small 64 (2 ^ b)) by lia. rewrite (wrap_small 64 (a + _)) by lia.
  rewrite (wrap_small 64 (_ - 1)) by lia. rewrite Z.shiftr_div_pow2 by lia.
  apply wrap_small, cdiv_range; lia.
Qed.

Lemma floordivpow2_div a b : 0 <= a < 2 ^ 32 -> 0 <= b -> floordivpow2 a b = a / 2 ^ b.
Proof. intros. unfold floordivpow2. rewrite wrap_small by done. by rewrite Z.shiftr_div_pow2. Qed.

(** One coordinate scaled down by the subsampling, then by the levels. *)
Lemma scale_twice d l a : 0 <= a < 2 ^ 32 -> 0 < d < 2 ^ 30 -> 0 <= l <= 32 ->
  u32 (ceildiv (u32 (ceildiv a d)) (2 ^ l)) = u32 (ceildiv a (d * 2 ^ l)).
Proof.
  intros Ha Hd Hl.
  assert (0 < 2 ^ l <= 2 ^ 32) by (split; [lia|apply Z.pow_le_mono_r; lia]).
  assert (0 <= cdiv a d < 2 ^ 32) by (by apply cdiv_range; lia).
  rewrite (ceildiv_cdiv a d), (wrap_small 32 (cdiv a d)) by lia.
  rewrite !ceildiv_cdiv by nia. by rewrite cdiv_cdiv by lia.
Qed.

(** ** The tile grid partitions the image *)

(** Number of tiles along one axis: [ceildiv(x1 - tx0, t_width)]. *)
Definition grid_ok (t0 tw a0 a1 gw : Z) : Prop :=
  0 <= t0 <= a0 /\ 0 < tw < 2 ^ 32 /\ a0 < a1 < 2 ^ 32 /\ gw = cdiv (a1 - t0) tw /\ gw <= 65535.

Lemma tile_axis t0 tw a0 a1 gw i p : grid_ok t0 tw a0 a1 gw -> 0 <= i < gw -> a0 <= p < a1 ->
  let temp := u64 (t0 + u64 ((i + 1) * tw)) in
  let hi := if a1 <? temp then a1 else u32 temp in
  (Z.max (u32 (t0 + i * tw)) a0 <=? p) && (p <? hi) = (i =? (p - t0) / tw).
Proof.
  intros (H0 & Hw & Ha & -> & Hg) Hi Hp temp hi.
  assert (i * tw < a1 - t0) as Hlt by (apply cdiv_gt; lia).
  assert (temp = t0 + (i + 1) * tw) as Et.
  { unfold temp. rewrite (wrap_small 64 ((i + 1) * tw)) by nia. apply wrap_small. nia. }
  rewrite (wrap_small 32) by nia.
  assert ((p <? hi) = (p <? t0 + (i + 1) * tw)) as ->.
  { unfold hi. rewrite Et. destruct (Z.ltb_spec a1 (t0 + (i + 1) * tw)).
    - destruct (Z.ltb_spec p a1), (Z.ltb_spec p (t0 + (i + 1) * tw)); try done; lia.
    - by rewrite wrap_small by lia. }
  pose proof (Z.div_mod (p - t0) tw ltac:(lia)). pose proof (Z.mod_pos_bound (p - t0) tw ltac:(lia)).
  apply eq_bool_prop_intro. rewrite andb_True, !Is_true_true, Z.leb_le, Z.ltb_lt, Z.eqb_eq.
  split; [|nia]. intros [Hlo Hhi]. nia.
Qed.

(** C31: The tile grid partitions the image: a sample of the image lies in the
    bounds of exactly one tile, the one its coordinates divide to. *)
Theorem tile_bounds_partition cp img gw gh px py i j :
  grid_ok (tx0_ cp) (t_width_ cp) (x0 img) (x1 img) gw ->
  grid_ok (ty0_ cp) (t_height_ cp) (y0 img) (y1 img) gh ->
  0 <= i < gw -> 0 <= j < gh -> contains img px py = true ->
  contains (getTileBounds cp img i j) px py =
    (i =? (px - tx0_ cp) / t_width_ cp) && (j =? (py - ty0_ cp) / t_height_ cp).
Proof.
  intros Hx Hy Hi Hj Hc. unfold contains in Hc.
  rewrite !andb_true_iff, !Z.leb_le, !Z.ltb_lt in Hc.
  rewrite <- (tile_axis _ _ _ _ _ i px Hx Hi) by lia.
  rewrite <- (tile_axis _ _ _ _ _ j py Hy Hj) by lia.
  unfold contains, getTileBounds. cbn [x0 y0 x1 y1].
  match goal with |- ?a && ?b && ?c && ?d = _ => destruct a, b, c, d; reflexivity end.
Qed.

Lemma tile_bounds_partition_witness :
  contains (getTileBounds (mkTileGrid 2 3 10 8) (Rect4 5 4 47 30) 1 2) 14 20 = true.
Proof.
  rewrite (tile_bounds_partition (mkTileGrid 2 3 10 8) (Rect4 5 4 47 30) 5 4 14 20 1 2).
  - reflexivity.
  - repeat split; reflexivity || (simpl; lia).
  - repeat split; reflexivity || (simpl; lia).
  - lia.
  - lia.
  - reflexivity.
Defined.

(** ** The integer logarithm *)

Lemma floorlog2_loop_spec fuel : forall l a,
  1 <= a < 2 ^ Z.of_nat (S fuel) -> 0 <= l -> l + Z.of_nat fuel < 256 -> floorlog2_loop fuel l a = l + Z.log2 a.
Proof.
  induction fuel as [|fuel IH]; intros l a Ha Hl Hlt; cbn [floorlog2_loop].
  { replace a with 1 by (simpl in Ha; lia). simpl. lia. }
  destruct (Z.ltb_spec 1 a); [|replace a with 1 by lia; simpl; lia].
  assert (2 <= a) as Ha2 by lia. pose proof (Z.log2_le_mono 2 a Ha2) as Hlog. change (Z.log2 2) with 1 in Hlog.
  rewrite wrap_small by lia. rewrite IH.
  - rewrite Z.log2_shiftr by lia. lia.
  - rewrite Z.shiftr_div_pow2 by lia. change (2 ^ 1) with 2. split; [apply Z.div_le_lower_bound; lia|].
    apply Z.div_lt_upper_bound; [lia|]. rewrite (Nat2Z.inj_succ (S fuel)), Z.pow_succ_r in Ha by lia. lia.
  - lia.
  - lia.
Qed.

Lemma floorlog2_log2 a : 1 <= a < 2 ^ 32 -> floorlog2 a = Z.log2 a.
Proof. intros. unfold floorlog2. rewrite floorlog2_loop_spec; simpl Z.of_nat; lia. Qed.
