(* ===== verification/IncludeTracker.v ===== *)
(** Packet inclusion tracking: [LayerIncludeBuffers] and [IncludeTracker] of
    src/src/lib/core/t2/PacketManager.h.

    The tracker is a lazily allocated bit set: per layer an object, per
    resolution a map of 1024-byte chunks, one bit per (component, precinct).
    The objects are shared between the layer map and the cached
    [currentLayerIncludeBuf] pointer, so the model keeps a store of allocated
    objects and pointers into it.  The theorem shows that the tracker
    implements a set of packets. *)
From stdpp Require Import gmap.
From S2P Require Import Prelude.

Definition GRK_MAXRLVLS : Z := 33.
Definition GRK_INCLUDE_TRACKER_CHUNK_SIZE : Z := 1024.

(** ** One layer *)

Abbreviation chunk := (list Z).
Abbreviation chunks := (gmap Z chunk).

(** [chunkMap[GRK_MAXRLVLS]], a null pointer being [None]. *)
Abbreviation LayerIncludeBuffers := (list (option chunks)).

Definition LayerIncludeBuffers_new : LayerIncludeBuffers := replicate (Z.to_nat GRK_MAXRLVLS) None.

(** The chunk table with the chunk of [chunkIndex] allocated. *)
Definition alloc_chunk (chunkIndex : Z) (m : chunks) : chunks :=
  match m !! chunkIndex with
  | Some _ => m
  | None => <[chunkIndex := replicate (Z.to_nat GRK_INCLUDE_TRACKER_CHUNK_SIZE) 0]> m
  end.

(** [LayerIncludeBuffers::update]; [None] is the thrown [std::out_of_range]. *)
Definition layer_update (resno bitIndex : Z) (b : LayerIncludeBuffers)
  : option (bool * LayerIncludeBuffers) :=
  if GRK_MAXRLVLS <=? resno then None
  else
    let m := default ∅ (nthZ None b resno) in
    let byteIndex := Z.shiftr bitIndex 3 in
    let chunkIndex := byteIndex / GRK_INCLUDE_TRACKER_CHUNK_SIZE in
    let chunkOffset := byteIndex mod GRK_INCLUDE_TRACKER_CHUNK_SIZE in
    let m := alloc_chunk chunkIndex m in
    let c := default [] (m !! chunkIndex) in
    let bit := Z.land bitIndex 7 in
    let val := nthZ 0 c chunkOffset in
    if Z.land (Z.shiftr val bit) 1 =? 0 then
      let c' := <[Z.to_nat chunkOffset := u8 (Z.lor val (Z.shiftl 1 bit))]> c in
      Some (true, <[Z.to_nat resno := Some (<[chunkIndex := c']> m)]> b)
    else Some (false, <[Z.to_nat resno := Some m]> b).

(** ** The tracker *)

Record IncludeTracker := mkIncludeTracker {
  numPrecinctsPerRes : list Z;               (* uint64_t[GRK_MAXRLVLS] *)
  currentLayer : Z;                          (* uint16_t *)
  currentLayerIncludeBuf : option nat;       (* pointer, null when absent *)
  include : gmap Z nat;                      (* layer -> pointer *)
  store : list (option LayerIncludeBuffers); (* allocated objects, [None] once deleted *)
}.

Definition IncludeTracker_new : IncludeTracker :=
  mkIncludeTracker (replicate (Z.to_nat GRK_MAXRLVLS) 0) 0 None ∅ [].

Definition resetNumPrecinctsPerRes (t : IncludeTracker) : IncludeTracker :=
  mkIncludeTracker (replicate (Z.to_nat GRK_MAXRLVLS) 0)
    (currentLayer t) (currentLayerIncludeBuf t) (include t) (store t).

Definition updateNumPrecinctsPerRes (resno numPrecincts : Z) (t : IncludeTracker) : IncludeTracker :=
  if nthZ 0 (numPrecinctsPerRes t) resno <? numPrecincts then
    mkIncludeTracker (<[Z.to_nat resno := numPrecincts]> (numPrecinctsPerRes t))
      (currentLayer t) (currentLayerIncludeBuf t) (include t) (store t)
  else t.

(** The pointer [update] works on, and the tracker with that pointer cached. *)
Definition current_layer_buf (layno : Z) (t : IncludeTracker) : nat * IncludeTracker :=
  match (if layno =? currentLayer t then currentLayerIncludeBuf t else None) with
  | Some p => (p, t)
  | None =>
      match include t !! layno with
      | Some p => (p, mkIncludeTracker (numPrecinctsPerRes t) layno (Some p) (include t) (store t))
      | None =>
          let p := length (store t) in
          (p, mkIncludeTracker (numPrecinctsPerRes t) layno (Some p)
                (<[layno := p]> (include t)) (store t ++ [Some LayerIncludeBuffers_new]))
      end
  end.

(** [IncludeTracker::update]; [None] when the code throws or follows a pointer
    to a deleted object. *)
Definition update (layno resno compno precno : Z) (t : IncludeTracker)
  : option (bool * IncludeTracker) :=
  let (p, t) := current_layer_buf layno t in
  let numprecs := nthZ 0 (numPrecinctsPerRes t) resno in
  let bitIndex := u64 (compno * numprecs + precno) in
  b ← mjoin (store t !! p);
  r ← layer_update resno bitIndex b;
  Some (r.1, mkIncludeTracker (numPrecinctsPerRes t) (currentLayer t) (currentLayerIncludeBuf t)
               (include t) (<[p := Some r.2]> (store t))).

(** [IncludeTracker::clear]: deletes every object of the map and empties it. *)
Definition clear (t : IncludeTracker) : IncludeTracker :=
  mkIncludeTracker (numPrecinctsPerRes t) (currentLayer t) (currentLayerIncludeBuf t) ∅
    (map_fold (fun _ p st => <[p := None]> st) (store t) (include t)).

(** ** A layer is a bit set *)

Definition bit_of (m : chunks) (i : Z) : bool :=
  let byteIndex := Z.shiftr i 3 in
  Z.testbit (nthZ 0 (default [] (m !! (byteIndex / GRK_INCLUDE_TRACKER_CHUNK_SIZE)))
                    (byteIndex mod GRK_INCLUDE_TRACKER_CHUNK_SIZE)) (Z.land i 7).

Definition lbit (b : LayerIncludeBuffers) (r i : Z) : bool := bit_of (default ∅ (nthZ None b r)) i.

Definition wf_chunks (m : chunks) : Prop :=
  map_Forall (fun _ c => length c = Z.to_nat GRK_INCLUDE_TRACKER_CHUNK_SIZE) m.
Definition wf_layer (b : LayerIncludeBuffers) : Prop :=
  length b = Z.to_nat GRK_MAXRLVLS /\ Forall (fun o => wf_chunks (default ∅ o)) b.

(** A bit number is determined by its byte and its position in it. *)
Lemma bit_address i j : 0 <= i -> 0 <= j ->
  Z.shiftr i 3 / GRK_INCLUDE_TRACKER_CHUNK_SIZE = Z.shiftr j 3 / GRK_INCLUDE_TRACKER_CHUNK_SIZE ->
  Z.shiftr i 3 mod GRK_INCLUDE_TRACKER_CHUNK_SIZE = Z.shiftr j 3 mod GRK_INCLUDE_TRACKER_CHUNK_SIZE ->
  Z.land i 7 = Z.land j 7 -> i = j.
Proof.
  intros Hi Hj. unfold GRK_INCLUDE_TRACKER_CHUNK_SIZE.
  rewrite !Z.shiftr_div_pow2, !(Z.land_ones _ 3) by lia. change (2 ^ 3) with 8.
  pose proof (Z.div_mod i 8 ltac:(lia)). pose proof (Z.div_mod j 8 ltac:(lia)).
  pose proof (Z.div_mod (i / 8) 1024 ltac:(lia)). pose proof (Z.div_mod (j / 8) 1024 ltac:(lia)).
  lia.
Qed.

Lemma land7_range i : 0 <= Z.land i 7 < 8.
Proof. rewrite (Z.land_ones _ 3) by lia. apply Z.mod_pos_bound. lia. Qed.

Lemma nthZ_replicate {A} (x : A) n i : nthZ x (replicate n x) i = x.
Proof. revert i. induction n as [|n IH]; intros i; simpl; [done|]. by destruct (i <=? 0). Qed.

Lemma alloc_chunk_bits ci m j : bit_of (alloc_chunk ci m) j = bit_of m j.
Proof.
  unfold bit_of, alloc_chunk. destruct (m !! ci) eqn:E; [done|].
  destruct (decide (Z.shiftr j 3 / GRK_INCLUDE_TRACKER_CHUNK_SIZE = ci)) as [->|].
  - rewrite lookup_insert_eq, E. cbn [from_option id]. by rewrite nthZ_replicate.
  - by rewrite lookup_insert_ne.
Qed.

Lemma alloc_chunk_wf ci m : wf_chunks m -> wf_chunks (alloc_chunk ci m).
Proof.
  intros H. unfold alloc_chunk. destruct (m !! ci); [done|].
  apply map_Forall_insert_2; [by rewrite length_replicate|done].
Qed.

Lemma alloc_chunk_lookup ci m : wf_chunks m -> exists c,
  alloc_chunk ci m !! ci = Some c /\ length c = Z.to_nat GRK_INCLUDE_TRACKER_CHUNK_SIZE.
Proof.
  intros H. pose proof (alloc_chunk_wf ci m H) as H'. unfold alloc_chunk in *.
  destruct (m !! ci) as [c|] eqn:E; [exists c; split; [done|exact (map_Forall_lookup_1 _ _ _ _ H E)]|].
  rewrite lookup_insert_eq. eexists. split; [done|]. by rewrite length_replicate.
Qed.

(** Setting one bit of a chunk sets that bit and no other. *)
Lemma set_bit_bits m ci c i j : 0 <= i -> 0 <= j ->
  ci = Z.shiftr i 3 / GRK_INCLUDE_TRACKER_CHUNK_SIZE -> m !! ci = Some c ->
  length c = Z.to_nat GRK_INCLUDE_TRACKER_CHUNK_SIZE ->
  let off := Z.shiftr i 3 mod GRK_INCLUDE_TRACKER_CHUNK_SIZE in
  bit_of (<[ci := <[Z.to_nat off := u8 (Z.lor (nthZ 0 c off) (Z.shiftl 1 (Z.land i 7)))]> c]> m) j =
  bit_of m j || (j =? i).
Proof.
  intros Hi Hj -> Hc Hlen off. unfold bit_of.
  assert (length c = 1024%nat) as Hlen' by (rewrite Hlen; reflexivity).
  pose proof (land7_range i). pose proof (land7_range j).
  assert (forall k, 0 <= k mod GRK_INCLUDE_TRACKER_CHUNK_SIZE < 1024) as Hoff.
  { intros k. by apply Z.mod_pos_bound. }
  pose proof (Hoff (Z.shiftr i 3)). pose proof (Hoff (Z.shiftr j 3)).
  destruct (decide (Z.shiftr j 3 / GRK_INCLUDE_TRACKER_CHUNK_SIZE =
                    Z.shiftr i 3 / GRK_INCLUDE_TRACKER_CHUNK_SIZE)) as [Ec|Ec].
  - rewrite Ec, lookup_insert_eq, Hc. cbn [from_option id]. rewrite !nthZ_default. fold off.
    destruct (decide (Z.shiftr j 3 mod GRK_INCLUDE_TRACKER_CHUNK_SIZE = off)) as [Eo|Eo].
    + rewrite Eo, list_lookup_insert_eq by (rewrite Hlen'; unfold off; lia).
      cbn [from_option id]. unfold wrap. rewrite Z.mod_pow2_bits_low, Z.lor_spec by lia.
      f_equal. rewrite Z.shiftl_1_l, Z.pow2_bits_eqb by lia.
      destruct (Z.eqb_spec (Z.land i 7) (Z.land j 7)) as [El|El]; symmetry; apply Z.eqb_eq || apply Z.eqb_neq.
      * by apply bit_address.
      * by intros ->.
    + rewrite list_lookup_insert_ne by (unfold off in *; lia).
      replace (j =? i) with false; [by rewrite orb_false_r|]. symmetry. apply Z.eqb_neq. by intros ->.
  - rewrite lookup_insert_ne by done.
    replace (j =? i) with false; [by rewrite orb_false_r|]. symmetry. apply Z.eqb_neq. by intros ->.
Qed.

Lemma lbit_insert b resno m r j : 0 <= resno -> 0 <= r -> (Z.to_nat resno < length b)%nat ->
  lbit (<[Z.to_nat resno := Some m]> b) r j = if r =? resno then bit_of m j else lbit b r j.
Proof.
  intros H0 Hr Hl. unfold lbit. rewrite !nthZ_default. destruct (Z.eqb_spec r resno) as [->|].
  - by rewrite list_lookup_insert_eq.
  - by rewrite list_lookup_insert_ne by lia.
Qed.

Lemma layer_update_spec b resno i : wf_layer b -> 0 <= resno < GRK_MAXRLVLS -> 0 <= i ->
  exists b', layer_update resno i b = Some (negb (lbit b resno i), b') /\ wf_layer b' /\
    forall r j, 0 <= r -> 0 <= j -> lbit b' r j = lbit b r j || ((r =? resno) && (j =? i)).
Proof.
  intros [Hlen Hwf] Hr Hi. unfold layer_update. rewrite (proj2 (Z.leb_gt _ _)) by lia.
  set (m := default ∅ (nthZ None b resno)). set (ci := _ / GRK_INCLUDE_TRACKER_CHUNK_SIZE).
  set (off := _ mod _).
  assert (Z.to_nat resno < length b)%nat as Hrl by (rewrite Hlen; lia).
  assert (wf_chunks m) as Hm.
  { destruct (lookup_lt_is_Some_2 b _ Hrl) as [o E].
    unfold m. rewrite (nthZ_lookup None b resno o E). exact (Forall_lookup_1 _ _ _ _ Hwf E). }
  destruct (alloc_chunk_lookup ci m Hm) as (c & Hc & Hcl). rewrite Hc. cbn [from_option id].
  assert (bit_of (alloc_chunk ci m) i = Z.testbit (nthZ 0 c off) (Z.land i 7)) as Hbit.
  { unfold bit_of. fold ci off. by rewrite Hc. }
  rewrite alloc_chunk_bits in Hbit. rewrite b2z_testbit, b2z_nonzero by (pose proof (land7_range i); lia).
  rewrite <- Hbit. change (bit_of m i) with (lbit b resno i).
  assert (forall m' : chunks, wf_chunks m' -> wf_layer (<[Z.to_nat resno := Some m']> b)) as Hwl.
  { intros m' Hm'. split; [by rewrite length_insert|]. by apply Forall_insert. }
  destruct (lbit b resno i) eqn:El; cbn [negb].
  - eexists. split; [done|]. split; [by apply Hwl, alloc_chunk_wf|]. intros r j Hr0 Hj.
    rewrite lbit_insert by lia. destruct (Z.eqb_spec r resno) as [->|]; [|by rewrite orb_false_r].
    rewrite alloc_chunk_bits. change (bit_of m j) with (lbit b resno j). cbn [andb].
    destruct (Z.eqb_spec j i) as [->|]; [by rewrite El|by rewrite orb_false_r].
  - eexists. split; [done|]. split.
    + apply Hwl, map_Forall_insert_2; [by rewrite length_insert|by apply alloc_chunk_wf].
    + intros r j Hr0 Hj. rewrite lbit_insert by lia.
      destruct (Z.eqb_spec r resno) as [->|]; [|by rewrite orb_false_r].
      rewrite (set_bit_bits _ ci c i j) by done. by rewrite alloc_chunk_bits.
Qed.

(** ** The tracker is a set of packets *)

Definition live (t : IncludeTracker) (p : nat) (b : LayerIncludeBuffers) : Prop :=
  store t !! p = Some (Some b) /\ wf_layer b.

Record wf_tracker (t : IncludeTracker) : Prop := {
  wft_live : forall l p, include t !! l = Some p -> exists b, live t p b;
  wft_inj : forall l l' p, include t !! l = Some p -> include t !! l' = Some p -> l = l';
  wft_cached : forall p, currentLayerIncludeBuf t = Some p -> include t !! currentLayer t = Some p;
}.

(** The bit of layer [l], resolution [r] and bit number [i]. *)
Definition included (t : IncludeTracker) (l r i : Z) : bool :=
  match include t !! l with
  | Some p => match store t !! p with Some (Some b) => lbit b r i | _ => false end
  | None => false
  end.

Lemma lbit_new r i : lbit LayerIncludeBuffers_new r i = false.
Proof.
  unfold lbit, LayerIncludeBuffers_new. rewrite nthZ_replicate. unfold bit_of. simpl.
  rewrite lookup_empty. apply Z.testbit_0_l.
Qed.

Lemma wf_layer_new : wf_layer LayerIncludeBuffers_new.
Proof. split; [done|]. apply Forall_replicate, map_Forall_empty. Qed.

Lemma current_layer_buf_spec l t p t' : wf_tracker t -> current_layer_buf l t = (p, t') ->
  wf_tracker t' /\ include t' !! l = Some p /\ numPrecinctsPerRes t' = numPrecinctsPerRes t /\
  forall l' r i, included t' l' r i = included t l' r i.
Proof.
  intros Hwf. pose proof Hwf as [Hlive Hinj Hc]. unfold current_layer_buf.
  destruct (if l =? currentLayer t then _ else None) as [p0|] eqn:E.
  { destruct (Z.eqb_spec l (currentLayer t)) as [->|]; [|done]. intros [= <- <-]. eauto. }
  clear E. destruct (include t !! l) as [p0|] eqn:El; intros [= <- <-].
  - split; [|done]. split; simpl; [|done|by intros p [= <-]].
    intros l' p Hp. destruct (Hlive _ _ Hp) as (b & ? & ?). by exists b.
  - assert (forall l' p, include t !! l' = Some p -> (p < length (store t))%nat) as Hlt.
    { intros l' p Hp. destruct (Hlive _ _ Hp) as (b & Hb & _). by eapply lookup_lt_Some. }
    split; [|split; [apply lookup_insert_eq|split; [done|]]].
    + split; simpl.
      * intros l' p. rewrite lookup_insert_Some. intros [[<- <-]|[Hne Hp]].
        -- exists LayerIncludeBuffers_new. split; [|apply wf_layer_new]. simpl.
           by rewrite lookup_app_r, Nat.sub_diag by lia.
        -- destruct (Hlive _ _ Hp) as (b & Hb & Hwb). exists b. split; [|done]. simpl.
           by rewrite lookup_app_l by eauto.
      * intros l1 l2 p. rewrite !lookup_insert_Some.
        intros [[<- <-]|[? H1]] [[<- E2]|[? H2]]; eauto.
        -- apply Hlt in H2. lia.
        -- apply Hlt in H1. lia.
      * intros p [= <-]. apply lookup_insert_eq.
    + intros l' r i. unfold included; simpl. destruct (decide (l = l')) as [<-|].
      * rewrite lookup_insert_eq, El, lookup_app_r, Nat.sub_diag by lia. apply lbit_new.
      * rewrite lookup_insert_ne by done. destruct (include t !! l') as [p|] eqn:Ep; [|done].
        by rewrite lookup_app_l by eauto.
Qed.

Abbreviation packet_id := (Z * Z * Z * Z)%type.   (* layer, resolution, component, precinct *)

(** Packets the tracker has a bit for: the resolution exists, the precinct is
    below the largest precinct count of that resolution. *)
Definition trackable (t : IncludeTracker) (r c p : Z) : Prop :=
  let n := nthZ 0 (numPrecinctsPerRes t) r in
  0 <= r < GRK_MAXRLVLS /\ 0 <= c < 65536 /\ 0 <= p < n /\ n * 65536 <= 2 ^ 64.

Definition bit_index (t : IncludeTracker) (r c p : Z) : Z :=
  c * nthZ 0 (numPrecinctsPerRes t) r + p.

Lemma bit_index_range t r c p : trackable t r c p -> 0 <= bit_index t r c p < 2 ^ 64.
Proof. unfold trackable, bit_index. intros (_ & ? & ? & ?). nia. Qed.

Lemma bit_index_inj t r c p c' p' : trackable t r c p -> trackable t r c' p' ->
  bit_index t r c p = bit_index t r c' p' -> c = c' /\ p = p'.
Proof.
  unfold trackable, bit_index. generalize (nthZ 0 (numPrecinctsPerRes t) r) as n.
  intros n (_ & ? & ? & ?) (_ & ? & ? & ?) E.
  assert (c = c') as -> by (destruct (Z.lt_trichotomy c c') as [|[|]]; [nia|done|nia]). lia.
Qed.

(** The set of packets a tracker holds. *)
Definition tracks (t : IncludeTracker) (S : gset packet_id) : Prop :=
  wf_tracker t /\ forall l r c p, trackable t r c p ->
    included t l r (bit_index t r c p) = bool_decide ((l, r, c, p) ∈ S).

Lemma tracks_new : tracks IncludeTracker_new ∅.
Proof.
  split; [split; simpl; [|done|done]|].
  - intros l p. by rewrite lookup_empty.
  - intros l r c p _. unfold included. simpl. rewrite lookup_empty.
    symmetry. apply bool_decide_eq_false_2. set_solver.
Qed.

(** Writing back the layer object a pointer of the map denotes. *)
Lemma write_back t l p b b' r i : wf_tracker t -> include t !! l = Some p -> live t p b ->
  wf_layer b' ->
  (forall r' j, 0 <= r' -> 0 <= j -> lbit b' r' j = lbit b r' j || ((r' =? r) && (j =? i))) ->
  let t' := mkIncludeTracker (numPrecinctsPerRes t) (currentLayer t) (currentLayerIncludeBuf t)
              (include t) (<[p := Some b']> (store t)) in
  wf_tracker t' /\ forall l' r' j, 0 <= r' -> 0 <= j ->
    included t' l' r' j = included t l' r' j || ((l' =? l) && ((r' =? r) && (j =? i))).
Proof.
  intros [Hlive Hinj Hc] Hp [Hb Hwb] Hwb' Hbits t'. split.
  - split; [|done|done]. intros l' p' Hp'. destruct (Hlive _ _ Hp') as (b0 & Hb0 & Hw0).
    destruct (decide (p' = p)) as [->|].
    + exists b'. split; [|done]. simpl. apply list_lookup_insert_eq. by eapply lookup_lt_Some.
    + exists b0. split; [|done]. simpl. by rewrite list_lookup_insert_ne.
  - intros l' r' j Hr' Hj. unfold included. simpl.
    destruct (Z.eqb_spec l' l) as [->|Hne]; cbn [andb].
    + rewrite Hp, Hb, list_lookup_insert_eq by (by eapply lookup_lt_Some). by apply Hbits.
    + destruct (include t !! l') as [p'|] eqn:E'; [|done].
      rewrite list_lookup_insert_ne; [by rewrite orb_false_r|].
      intros <-. by apply Hne, (Hinj _ _ p).
Qed.

(** [update] reports [true] exactly for a packet that is not in the set, and adds it. *)
Lemma update_tracks t S l r c p : tracks t S -> trackable t r c p ->
  exists t', update l r c p t = Some (bool_decide ((l, r, c, p) ∉ S), t') /\
    tracks t' ({[(l, r, c, p)]} ∪ S) /\ numPrecinctsPerRes t' = numPrecinctsPerRes t.
Proof.
  intros [Hwf Hin] Htr. unfold update. destruct (current_layer_buf l t) as [ptr t1] eqn:E.
  destruct (current_layer_buf_spec _ _ _ _ Hwf E) as (Hwf1 & Hp & Hn & Hsame).
  pose proof (bit_index_range t r c p Htr) as Hrange.
  set (bi := u64 _).
  assert (bi = bit_index t r c p) as -> by (unfold bi; rewrite Hn; by apply wrap_small).
  destruct (wft_live _ Hwf1 _ _ Hp) as (b & Hb & Hwb). rewrite Hb. cbn [mjoin option_join mbind option_bind].
  destruct (layer_update_spec b r (bit_index t r c p) Hwb) as (b' & -> & Hwb' & Hbits);
    [unfold trackable in Htr; lia|lia|]. cbn [mbind option_bind fst snd].
  destruct (write_back t1 l ptr b b' r (bit_index t r c p) Hwf1 Hp (conj Hb Hwb) Hwb' Hbits) as [Hwf' Hinc].
  eexists. split; [|split; [split; [exact Hwf'|]|done]].
  - assert (lbit b r (bit_index t r c p) = bool_decide ((l, r, c, p) ∈ S)) as ->.
    { rewrite <- Hin, <- Hsame by done. unfold included. by rewrite Hp, Hb. }
    f_equal. f_equal. by do 2 case_bool_decide.
  - intros l' r' c' p' Htr'. simpl in Htr'. unfold trackable, bit_index in Htr'. simpl in Htr'.
    rewrite Hn in Htr'. fold (trackable t r' c' p') in Htr'.
    assert (bit_index t r' c' p' = c' * nthZ 0 (numPrecinctsPerRes t1) r' + p') as Ebi by (by rewrite Hn).
    unfold bit_index. simpl. rewrite <- Ebi. pose proof (bit_index_range t r' c' p' Htr').
    rewrite Hinc, Hsame, Hin by (done || (unfold trackable in Htr'; lia)).
    apply eq_bool_prop_intro. rewrite orb_True, !andb_True, !bool_decide_spec, elem_of_union, elem_of_singleton.
    rewrite !Is_true_true, !Z.eqb_eq. split; [|naive_solver].
    intros [?|(-> & -> & Ej)]; [by right|left]. by destruct (bit_index_inj _ _ _ _ _ _ Htr' Htr Ej) as [-> ->].
Qed.

(** A tracker made for the precinct counts of a tile. *)
Definition sized_tracker (counts : list (Z * Z)) : IncludeTracker :=
  foldl (fun t rn => updateNumPrecinctsPerRes rn.1 rn.2 t) IncludeTracker_new counts.
Fixpoint updates (l : list packet_id) (t : IncludeTracker) : option (list bool * IncludeTracker) :=
  match l with
  | [] => Some ([], t)
  | (lay, r, c, p) :: l => x ← update lay r c p t; y ← updates l x.2; Some (x.1 :: y.1, y.2)
  end.

Lemma sized_tracker_tracks counts : tracks (sized_tracker counts) ∅.
Proof.
  unfold sized_tracker. assert (forall t, include t = ∅ -> currentLayerIncludeBuf t = None ->
    let t' := foldl (fun t rn => updateNumPrecinctsPerRes rn.1 rn.2 t) t counts in include t' = ∅ /\ currentLayerIncludeBuf t' = None) as H.
  { induction counts as [|rn counts IH]; intros t H1 H2; [done|]. cbn [foldl]. apply IH; unfold updateNumPrecinctsPerRes; by case_match. }
  destruct (H IncludeTracker_new eq_refl eq_refl) as [Hi Hc]. split.
  - split; rewrite ?Hi, ?Hc; [intros l p; by rewrite lookup_empty|intros l l' p; by rewrite lookup_empty|done].
  - intros l r c p _. unfold included. rewrite Hi, lookup_empty. symmetry. apply bool_decide_eq_false_2. set_solver.
Qed.
Lemma trackable_counts t t' r c p : numPrecinctsPerRes t' = numPrecinctsPerRes t -> trackable t r c p -> trackable t' r c p.
Proof. unfold trackable. by intros ->. Qed.

Lemma updates_first t S qs : tracks t S -> Forall (fun q : packet_id => let '(_, r, c, p) := q in trackable t r c p) qs ->
  exists t', updates qs t = Some (imap (fun i q => bool_decide (q ∉ S) && bool_decide (q ∉ take i qs)) qs, t') /\ tracks t' (list_to_set qs ∪ S).
Proof.
  revert t S. induction qs as [|[[[l r] c] p] qs IH]; intros t S Ht Hq; cbn [updates].
  { eexists. split; [done|]. by replace (list_to_set [] ∪ S) with S by set_solver. }
  apply list.Forall_cons in Hq as [Hq Hqs]. destruct (update_tracks t S l r c p Ht Hq) as (t1 & -> & Ht1 & En). cbn [mbind option_bind fst snd].
  destruct (IH t1 _ Ht1) as (t2 & -> & Ht2).
  { eapply list.Forall_impl; [exact Hqs|]. intros [[[l' r'] c'] p']. by apply trackable_counts. }
  cbn [mbind option_bind fst snd]. eexists. split; [|by replace (list_to_set ((l, r, c, p) :: qs) ∪ S) with (list_to_set qs ∪ ({[(l, r, c, p)]} ∪ S)) by set_solver].
  rewrite imap_cons. cbn [take]. f_equal. f_equal. f_equal; [by rewrite (bool_decide_eq_true_2 (_ ∉ [])), andb_true_r by set_solver|].
  apply imap_ext. intros i q _. cbn [compose]. apply eq_bool_prop_intro. rewrite !andb_True, !bool_decide_spec. set_solver.
Qed.

(** C28: The inclusion tracker implements a set of packets.  Over any sequence of updates of
    a tracker made for a tile (for packets whose resolution is below 33 and whose precinct is
    below the count of its resolution, counts at most 2^48), no update throws, and each
    reports [true] exactly when its packet is not among the earlier ones: no packet is handed
    out twice by the progressions of a tile, and every packet is handed out once.  [clear] is
    not part of the sequence: see [update_after_clear]. *)
Theorem include_tracker_refines_set (counts : list (Z * Z)) (qs : list packet_id) :
  Forall (fun q : packet_id => let '(_, r, c, p) := q in trackable (sized_tracker counts) r c p) qs ->
  exists t', updates qs (sized_tracker counts) = Some (imap (fun i q => bool_decide (q ∉ take i qs)) qs, t') /\ tracks t' (list_to_set qs).
Proof.
  intros Hq. destruct (updates_first _ ∅ qs (sized_tracker_tracks counts) Hq) as (t' & E & Ht). exists t'. rewrite union_empty_r_L in Ht. split; [|done].
  rewrite E. erewrite imap_ext; [reflexivity|]. intros i q _. cbn beta. by rewrite (bool_decide_eq_true_2 (q ∉ ∅)) by set_solver.
Qed.
Lemma include_tracker_refines_set_witness :
  exists t', updates [(0, 0, 0, 1); (4, 1, 2, 5); (0, 0, 0, 1); (0, 1, 2, 5)] (sized_tracker [(0, 2); (1, 6)]) = Some ([true; true; false; true], t') /\
    tracks t' (list_to_set [(0, 0, 0, 1); (4, 1, 2, 5); (0, 0, 0, 1); (0, 1, 2, 5)]).
Proof.
  apply (include_tracker_refines_set [(0, 2); (1, 6)] [(0, 0, 0, 1); (4, 1, 2, 5); (0, 0, 0, 1); (0, 1, 2, 5)]).
  repeat constructor; unfold trackable; vm_compute; congruence.
Defined.

(** [clear] keeps the pointer to the object of the current layer, which it has deleted: the
    next update of that layer follows it. *)
Lemma clear_deletes t l p : include t !! l = Some p -> (p < length (store t))%nat -> store (clear t) !! p = Some None.
Proof.
  intros Hl Hp. unfold clear. cbn [store]. revert Hl. revert l.
  apply (map_fold_weak_ind (fun st (m : gmap Z nat) => length st = length (store t) /\ forall l, m !! l = Some p -> st !! p = Some None)).
  - split; [done|]. intros l. by rewrite lookup_empty.
  - intros l q m st _ [Hlen IH]. split; [by rewrite length_insert|]. intros l'. rewrite lookup_insert_Some. intros [[_ ->]|[_ H]].
    + apply list_lookup_insert_eq. lia.
    + destruct (decide (p = q)) as [<-|]; [apply list_lookup_insert_eq; lia|]. rewrite list_lookup_insert_ne by done. by eapply IH.
Qed.
Lemma update_after_clear t S l r c p b t' r' c' p' : tracks t S -> update l r c p t = Some (b, t') -> update l r' c' p' (clear t') = None.
Proof.
  intros [Hwf _]. unfold update. destruct (current_layer_buf l t) as [ptr t1] eqn:E. destruct (current_layer_buf_spec _ _ _ _ Hwf E) as (Hwf1 & Hp & _).
  assert (currentLayer t1 = l /\ currentLayerIncludeBuf t1 = Some ptr) as [El Ec].
  { unfold current_layer_buf in E. destruct (Z.eqb_spec l (currentLayer t)) as [El|_].
    - destruct (currentLayerIncludeBuf t) eqn:Eb; [by simplify_eq|]. case_match; by simplify_eq.
    - case_match; by simplify_eq. }
  destruct (wft_live _ Hwf1 _ _ Hp) as (b0 & Hb0 & _). rewrite Hb0. cbn [mjoin option_join mbind option_bind]. destruct (layer_update _ _ b0) as [[res b1]|]; [|done].
  cbn [mbind option_bind fst snd]. intros [= <- <-]. set (t2 := mkIncludeTracker _ _ _ _ _).
  assert (current_layer_buf l (clear t2) = (ptr, clear t2)) as -> by (unfold current_layer_buf; cbn; by rewrite El, Ec, Z.eqb_refl).
  rewrite (clear_deletes t2 l ptr); [done|done|]. cbn. rewrite length_insert. by eapply lookup_lt_Some.
Qed.
