(* ===== verification/Loops.v ===== *)
(** Resumable loops.

    The packet iterator is written as nested [for] loops over member variables
    that [return true] from the innermost body and, on the next call, resume in
    the middle.  [ctl] is the outcome of a statement, [for_loop] the loop
    statement with an explicit bound on its iterations, and [produces] the
    shape of the lemmas about a statement: if it returns, one more packet of
    its remaining sequence has been produced; if it falls through, the sequence
    was finished.  [for_loop_produces] derives the lemma of a loop from the one
    of its body, so that each progression order is proved level by level. *)
From S2P Require Import Prelude.

Inductive ctl (E S : Type) : Type :=
| Next (s : S)               (* fell through, or [continue] *)
| Brk (s : S)                (* [break] *)
| Return (b : bool) (s : S)  (* [return b] *)
| Throw (e : E)
| Diverge.                   (* iteration bound exceeded *)
Arguments Next {E S} s.
Arguments Brk {E S} s.
Arguments Return {E S} b s.
Arguments Throw {E S} e.
Arguments Diverge {E S}.

Definition cseq {E S} (m : ctl E S) (k : S -> ctl E S) : ctl E S :=
  match m with Next s => k s | _ => m end.
Notation "m '>>>' k" := (cseq m k) (at level 61, left associativity) : grk_scope.

(** [for(; cond; inc) body]. *)
Fixpoint for_loop {E S} (fuel : nat) (cond : S -> bool) (inc : S -> S) (body : S -> ctl E S) (s : S)
  : ctl E S :=
  if cond s then
    match fuel with
    | O => Diverge
    | Datatypes.S fuel =>
        match body s with
        | Next s => for_loop fuel cond inc body (inc s)
        | Brk s => Next s
        | m => m
        end
    end
  else Next s.

(** Two loops whose bodies agree on the states the loop reaches. *)
Lemma for_loop_ext {E S} (P : S -> Prop) (cond : S -> bool) (inc : S -> S) (b1 b2 : S -> ctl E S) :
  (forall s, P s -> cond s = true -> b1 s = b2 s) ->
  (forall s s', P s -> cond s = true -> b2 s = Next s' -> P (inc s')) ->
  forall fuel s, P s -> for_loop fuel cond inc b1 s = for_loop fuel cond inc b2 s.
Proof.
  intros Hb Hinc. induction fuel as [|fuel IH]; intros s Hs; simpl; [done|].
  destruct (cond s) eqn:Ec; [|done]. rewrite (Hb s Hs Ec).
  destruct (b2 s) eqn:E2; try done. by eapply IH, Hinc.
Qed.

(** A statement at the end of the body is a part of the increment. *)
Lemma for_loop_shift {E S} (cond : S -> bool) (inc k : S -> S) (b : S -> ctl E S) :
  forall fuel s, for_loop fuel cond inc (fun s => b s >>> fun s => Next (k s)) s =
                 for_loop fuel cond (fun s => inc (k s)) b s.
Proof.
  induction fuel as [|fuel IH]; intros s; simpl; destruct (cond s); try done.
  destruct (b s); try done; simpl. apply IH.
Qed.

(** What a loop leaves unchanged when its body and increment do. *)
Lemma for_loop_keeps {E S} (P : S -> Prop) (cond : S -> bool) (inc : S -> S) (b : S -> ctl E S) :
  (forall s s', P s -> b s = Next s' \/ b s = Brk s' -> P s') -> (forall s, P s -> P (inc s)) ->
  forall fuel s s', P s -> for_loop fuel cond inc b s = Next s' -> P s'.
Proof.
  intros Hb Hinc. induction fuel as [|fuel IH]; intros s s' Hs; simpl; destruct (cond s);
    try (by intros [= <-]).
  destruct (b s) eqn:E2; try done.
  - intros H. eapply IH; [|exact H]. eauto.
  - intros [= <-]. eauto.
Qed.

(** A [bool] function whose last statement is [return false]; [None] when an
    iteration bound was too small. *)
Definition finish {E S} (m : ctl E S) : option (result E (bool * S)) :=
  match m with
  | Next s | Brk s => Some (Ok (false, s))
  | Return b s => Some (Ok (b, s))
  | Throw e => Some (Err e)
  | Diverge => None
  end.

(** ** Index ranges *)

(** The values of a loop index that starts at [i], is advanced by [nxt] and
    stops at [e]. *)
Fixpoint range_fuel (fuel : nat) (nxt : Z -> Z) (e i : Z) : list Z :=
  match fuel with
  | O => []
  | S fuel => if i <? e then i :: range_fuel fuel nxt e (nxt i) else []
  end.
Definition range_by (nxt : Z -> Z) (e i : Z) : list Z := range_fuel (Z.to_nat (e - i)) nxt e i.

Lemma range_fuel_enough nxt e : (forall i, i < nxt i) ->
  forall fuel fuel' i, (Z.to_nat (e - i) <= fuel)%nat -> (Z.to_nat (e - i) <= fuel')%nat ->
    range_fuel fuel nxt e i = range_fuel fuel' nxt e i.
Proof.
  intros Hn. induction fuel as [|fuel IH]; intros fuel' i H1 H2.
  - destruct fuel'; simpl; [done|]. destruct (Z.ltb_spec i e); [lia|done].
  - destruct fuel' as [|fuel']; simpl; destruct (Z.ltb_spec i e); try lia; try done.
    f_equal. pose proof (Hn i). apply IH; lia.
Qed.

Lemma range_by_lt nxt e i : (forall i, i < nxt i) -> i < e ->
  range_by nxt e i = i :: range_by nxt e (nxt i).
Proof.
  intros Hn Hi. unfold range_by at 1. destruct (Z.to_nat (e - i)) eqn:E; [lia|].
  simpl. rewrite (proj2 (Z.ltb_lt _ _)) by done. f_equal.
  pose proof (Hn i). apply range_fuel_enough; [done|lia|lia].
Qed.

Lemma range_by_ge nxt e i : e <= i -> range_by nxt e i = [].
Proof. intros. unfold range_by. by replace (Z.to_nat (e - i)) with 0%nat by lia. Qed.

Lemma range_by_succ e i : range_by (fun j => j + 1) e i = seqZ i (e - i).
Proof.
  remember (Z.to_nat (e - i)) as n eqn:En. revert i En. induction n as [|n IH]; intros i En.
  - by rewrite range_by_ge, seqZ_nil by lia.
  - rewrite range_by_lt by lia. rewrite IH by lia. rewrite (seqZ_cons i) by lia.
    by replace (Z.pred (e - i)) with (e - (i + 1)) by lia.
Qed.

Lemma elem_of_range_by nxt e i j : (forall i, i < nxt i) -> j ∈ range_by nxt e i -> i <= j < e.
Proof.
  intros Hn. remember (Z.to_nat (e - i)) as n eqn:En. revert i En.
  induction n as [n IH] using lt_wf_ind. intros i En.
  destruct (Z_lt_le_dec i e); [|rewrite range_by_ge by done; set_solver].
  rewrite range_by_lt by done. rewrite elem_of_cons. intros [->|Hj]; [lia|].
  pose proof (Hn i). eapply IH in Hj; [|..|reflexivity]; lia.
Qed.

(** ** Remaining sequences *)

Section Produces.
Context {E S P F : Type} (cur : S -> P).

(** What a resumable statement does at a state [s] with remaining sequence
    [R s]: see the file's comment.  [keep] relates the state to the one it is
    left in, [done_] holds of the state after falling through. *)
Definition produces (m : ctl E S) (R : S -> list P) (I : S -> Prop) (keep done_ : S -> Prop) (s : S) : Prop :=
  match m with
  | Return true s' => I s' /\ keep s' /\ R s = cur s' :: R s'
  | Next s' => R s = [] /\ done_ s'
  | _ => False
  end.

(** A statement followed by one that always falls through. *)
Lemma produces_seq m k R I keep keep' done_ done' s :
  produces m R I keep done_ s -> (forall s', keep s' -> keep' s') ->
  (forall s', done_ s' -> exists t, k s' = Next t /\ done' t) ->
  produces (m >>> k) R I keep' done' s.
Proof.
  intros Hm Hk Hd. destruct m as [s'| |[] s'| |]; simpl in *; try done.
  - destruct Hm as [HR Hd']. destruct (Hd s' Hd') as (t & -> & Ht). done.
  - destruct Hm as (? & ? & ?). auto.
Qed.

Context (idx : S -> Z) (fr : S -> F) (nxt : F -> Z -> Z) (e : F -> Z).
Context (cond : S -> bool) (inc : S -> S) (body : S -> ctl E S).
Context (I fresh ret : S -> Prop) (R : S -> list P) (G : F -> Z -> list P).

(** The remaining sequence of the loop: of the current iteration, then of the
    iterations still to come. *)
Definition loop_rest (s : S) : list P :=
  if idx s <? e (fr s)
  then R s ++ mjoin (G (fr s) <$> range_by (nxt (fr s)) (e (fr s)) (nxt (fr s) (idx s)))
  else [].

Definition loop_inv (s : S) : Prop := (idx s < e (fr s) -> I s) /\ (e (fr s) <= idx s -> fresh s).

Hypothesis Hcond : forall s, cond s = (idx s <? e (fr s)).
Hypothesis Hnxt : forall s, I s -> forall i, i < nxt (fr s) i.
Hypothesis Hbody : forall s, I s -> idx s < e (fr s) ->
  produces (body s) R I (fun s' => idx s' = idx s /\ fr s' = fr s /\ ret s')
    (fun s' => fresh (inc s') /\ idx (inc s') = nxt (fr s) (idx s) /\ fr (inc s') = fr s) s.
Hypothesis Hfresh : forall s, fresh s -> idx s < e (fr s) -> I s /\ R s = G (fr s) (idx s).

Lemma loop_rest_fresh s : fresh s -> (forall i, i < nxt (fr s) i) ->
  loop_rest s = mjoin (G (fr s) <$> range_by (nxt (fr s)) (e (fr s)) (idx s)).
Proof.
  intros Hf Hn. unfold loop_rest. destruct (Z.ltb_spec (idx s) (e (fr s))) as [Hlt|].
  - rewrite (range_by_lt _ _ (idx s)) by done. csimpl. by destruct (Hfresh s Hf Hlt) as [_ ->].
  - by rewrite range_by_ge.
Qed.

Lemma fresh_inv s : fresh s -> loop_inv s.
Proof. intros Hf. split; [|done]. intros Hlt. by apply Hfresh. Qed.

Lemma for_loop_produces fuel s : loop_inv s -> (Z.to_nat (e (fr s) - idx s) <= fuel)%nat ->
  produces (for_loop fuel cond inc body s) loop_rest loop_inv
    (fun s' => fr s' = fr s /\ ret s')
    (fun s' => fresh s' /\ fr s' = fr s /\ e (fr s) <= idx s') s.
Proof.
  revert s. induction fuel as [|fuel IH]; intros s [Hi Hf] Hfuel; simpl; rewrite Hcond;
    destruct (Z.ltb_spec (idx s) (e (fr s))) as [Hlt|Hge]; try lia.
  - split; [|auto]. unfold loop_rest. by rewrite (proj2 (Z.ltb_ge _ _)) by done.
  - specialize (Hi Hlt). pose proof (Hbody s Hi Hlt) as Hb. destruct (body s) as [s'| |[] s'| |]; try done.
    + destruct Hb as (HR & Hfr & Hidx & Hfe).
      assert (loop_inv (inc s')) as Hinv by (by apply fresh_inv).
      pose proof (Hnxt s Hi (idx s)) as Hinc.
      specialize (IH (inc s') Hinv). rewrite Hidx, Hfe in IH. specialize (IH ltac:(lia)).
      assert (loop_rest s = loop_rest (inc s')) as EL.
      { rewrite (loop_rest_fresh (inc s')); [|done|rewrite Hfe; by apply Hnxt]. unfold loop_rest.
        rewrite (proj2 (Z.ltb_lt _ _)) by done. by rewrite HR, Hidx, Hfe. }
      destruct (for_loop fuel cond inc body (inc s')) as [t| |[] t| |]; try done; simpl in *.
      * by rewrite EL.
      * by rewrite EL.
    + destruct Hb as (HI & (Hidx & Hfe & Hret) & HR). simpl.
      split; [split; [done|rewrite Hidx, Hfe; lia]|]. split; [done|].
      unfold loop_rest. rewrite Hidx, Hfe. rewrite (proj2 (Z.ltb_lt _ _)) by done. by rewrite HR.
  - split; [|auto]. unfold loop_rest. by rewrite (proj2 (Z.ltb_ge _ _)) by done.
Qed.
End Produces.

(** ** Draining an iterator *)

Section Drain.
Context {E S P : Type} (next : S -> option (result E (bool * S))) (cur : S -> P).

(** The packets of repeated calls of [next], until it returns [false]; [None]
    when it does not within [fuel] calls, throws, or exceeds a loop bound. *)
Fixpoint drain (fuel : nat) (s : S) : option (list P) :=
  match fuel with
  | O => None
  | Datatypes.S fuel =>
      match next s with
      | Some (Ok (true, s')) => cons (cur s') <$> drain fuel s'
      | Some (Ok (false, _)) => Some []
      | _ => None
      end
  end.

Lemma drain_produces (R : S -> list P) (I : S -> Prop) (m : S -> ctl E S) :
  (forall s, I s -> next s = finish (m s)) ->
  (forall s, I s -> produces cur (m s) R I (fun _ => True) (fun _ => True) s) ->
  forall s, I s -> drain (Datatypes.S (length (R s))) s = Some (R s).
Proof.
  intros Hnext Hm s. remember (length (R s)) as n eqn:En. revert s En.
  assert (forall k s, drain (Datatypes.S k) s =
    match next s with
    | Some (Ok (true, s')) => cons (cur s') <$> drain k s'
    | Some (Ok (false, _)) => Some []
    | _ => None
    end) as Hd by done.
  induction n as [|n IH]; intros s En HI; rewrite Hd, (Hnext s HI);
    pose proof (Hm s HI) as Hp; destruct (m s) as [s'| |[] s'| |]; try done;
    cbn [produces finish] in *.
  - destruct Hp as [-> _]. done.
  - destruct Hp as (_ & _ & HR). rewrite HR in En. done.
  - destruct Hp as [HR _]. rewrite HR in En. done.
  - destruct Hp as (HI' & _ & HR). rewrite HR in En |- *. injection En as En.
    by rewrite (IH s' En HI').
Qed.
End Drain.
