(* ===== verification/PacketIter.v ===== *)
(** The packet iterator: src/src/lib/core/t2/PacketIter.h and PacketIter.cpp.

    [ResPrecinctInfo] is the precinct geometry of one resolution; [PacketIter]
    the iterator's member variables together with what it reads from its packet
    manager and tile processor ([Env]).  Each [next_*] method is the source's
    loop nest over the member variables; [next] dispatches on the progression
    order.  Skipping packets with packet-length markers is an interface
    ([PacketSkipper]) between the iterator and the marker and buffer
    components. *)
From S2P Require Import Prelude Geometry IncludeTracker Loops.

(** ** Data *)

Inductive GRK_PROG_ORDER :=
| GRK_PROG_UNKNOWN | GRK_LRCP | GRK_RLCP | GRK_RPCL | GRK_PCRL | GRK_CPRL | GRK_PRCL.

#[export] Instance GRK_PROG_ORDER_eq_dec : EqDecision GRK_PROG_ORDER.
Proof. solve_decision. Defined.

(** The bounds of a progression, a part of [grk_progression]. *)
Record prog_bounds := mkBounds {
  tx0 : Z; ty0 : Z; tx1 : Z; ty1 : Z;   (* uint32_t *)
  comp_s : Z; comp_e : Z;               (* uint16_t *)
  res_s : Z; res_e : Z;                 (* uint8_t *)
  prec_s : Z; prec_e : Z;               (* uint64_t *)
  lay_s : Z; lay_e : Z;                 (* uint16_t *)
}.

Definition set_tx (a b : Z) (p : prog_bounds) : prog_bounds :=
  mkBounds a (ty0 p) b (ty1 p) (comp_s p) (comp_e p) (res_s p) (res_e p) (prec_s p) (prec_e p) (lay_s p) (lay_e p).
Definition set_ty (a b : Z) (p : prog_bounds) : prog_bounds :=
  mkBounds (tx0 p) a (tx1 p) b (comp_s p) (comp_e p) (res_s p) (res_e p) (prec_s p) (prec_e p) (lay_s p) (lay_e p).
Definition set_comp (a b : Z) (p : prog_bounds) : prog_bounds :=
  mkBounds (tx0 p) (ty0 p) (tx1 p) (ty1 p) a b (res_s p) (res_e p) (prec_s p) (prec_e p) (lay_s p) (lay_e p).
Definition set_res (a b : Z) (p : prog_bounds) : prog_bounds :=
  mkBounds (tx0 p) (ty0 p) (tx1 p) (ty1 p) (comp_s p) (comp_e p) a b (prec_s p) (prec_e p) (lay_s p) (lay_e p).
Definition set_prec (a b : Z) (p : prog_bounds) : prog_bounds :=
  mkBounds (tx0 p) (ty0 p) (tx1 p) (ty1 p) (comp_s p) (comp_e p) (res_s p) (res_e p) a b (lay_s p) (lay_e p).
Definition set_lay (a b : Z) (p : prog_bounds) : prog_bounds :=
  mkBounds (tx0 p) (ty0 p) (tx1 p) (ty1 p) (comp_s p) (comp_e p) (res_s p) (res_e p) (prec_s p) (prec_e p) a b.

Record ResPrecinctInfo := mkResPrecinctInfo {
  precWidthExp : Z; precHeightExp : Z;
  precWidthExpPRJ : Z; precHeightExpPRJ : Z;
  resOffsetX0PRJ : Z; resOffsetY0PRJ : Z;
  precWidthPRJ : Z; precWidthPRJMinusOne : Z;
  precHeightPRJ : Z; precHeightPRJMinusOne : Z;
  numPrecincts_ : Z;
  dxPRJ : Z; dyPRJ : Z;
  resInPrecGridX0 : Z; resInPrecGridY0 : Z;
  resno_ : Z; decompLevel_ : Z;
  tileBoundsPrecPRJ : Rect; tileBoundsPrecGrid : Rect;
  winPrecPRJ : Rect; winPrecGrid : Rect;
  innerPrecincts_ : Z;
  winPrecinctsLeft_ : Z; winPrecinctsRight_ : Z; winPrecinctsTop_ : Z; winPrecinctsBottom_ : Z;
  valid_ : bool;
}.

Definition Rect_zero : Rect := Rect4 0 0 0 0.

(** The constructor, with the two exponents its users then assign. *)
Definition ResPrecinctInfo_new (we he : Z) : ResPrecinctInfo :=
  mkResPrecinctInfo we he 0 0 0 0 0 0 0 0 0 0 0 0 0 0 0
    Rect_zero Rect_zero Rect_zero Rect_zero 0 0 0 0 0 false.

(** A precinct-grid rectangle scaled to projected coordinates. *)
Definition project (g : Rect) (pw ph : Z) : Rect :=
  mkRect (u64 (origin_x0 g * pw)) (u64 (origin_y0 g * ph)) (u64 (x0 g * pw)) (u64 (y0 g * ph))
         (u64 (x1 g * pw)) (u64 (y1 g * ph)).

(** [ResPrecinctInfo::init]. *)
Definition ResPrecinctInfo_init (resno decompLevelX decompLevelY : Z) (tileBounds : Rect)
    (compDx compDy : Z) (windowed : bool) (tileWindow : Rect) (i : ResPrecinctInfo)
  : bool * ResPrecinctInfo :=
  let resDivisorX := u64 (Z.shiftl compDx decompLevelX) in
  let resDivisorY := u64 (Z.shiftl compDy decompLevelY) in
  let res := scaleDownCeil 32 resDivisorX resDivisorY tileBounds in
  if (x0 res =? x1 res) || (y0 res =? y1 res) then
    (false, mkResPrecinctInfo (precWidthExp i) (precHeightExp i) (precWidthExpPRJ i) (precHeightExpPRJ i)
       (resOffsetX0PRJ i) (resOffsetY0PRJ i) (precWidthPRJ i) (precWidthPRJMinusOne i)
       (precHeightPRJ i) (precHeightPRJMinusOne i) (numPrecincts_ i) (dxPRJ i) (dyPRJ i)
       (resInPrecGridX0 i) (resInPrecGridY0 i) resno decompLevelX
       (tileBoundsPrecPRJ i) (tileBoundsPrecGrid i) (winPrecPRJ i) (winPrecGrid i)
       (innerPrecincts_ i) (winPrecinctsLeft_ i) (winPrecinctsRight_ i) (winPrecinctsTop_ i)
       (winPrecinctsBottom_ i) false)
  else
    let wePRJ := u8 (precWidthExp i + decompLevelX) in
    let hePRJ := u8 (precHeightExp i + decompLevelY) in
    let offX := u32 (u64 (Z.shiftl (x0 res) decompLevelX) mod u64 (Z.shiftl 1 wePRJ)) in
    let offY := u32 (u64 (Z.shiftl (y0 res) decompLevelY) mod u64 (Z.shiftl 1 hePRJ)) in
    let pw := u64 (Z.shiftl compDx wePRJ) in
    let ph := u64 (Z.shiftl compDy hePRJ) in
    let unitX := u32 (Z.shiftl 1 (precWidthExp i)) in
    let unitY := u32 (Z.shiftl 1 (precHeightExp i)) in
    let resWindow :=
      clip_IN_PLACE (grow_IN_PLACE 32 unitX unitY (scaleDownCeil 32 resDivisorX resDivisorY tileWindow)) res in
    let winGrid := if windowed then scaleDown 32 unitX unitY resWindow else winPrecGrid i in
    let winPRJ := if windowed then project winGrid pw ph else winPrecPRJ i in
    let grid := scaleDown 32 unitX unitY res in
    (true, mkResPrecinctInfo (precWidthExp i) (precHeightExp i) wePRJ hePRJ offX offY
       pw (u64 (pw - 1)) ph (u64 (ph - 1)) (area 32 grid)
       (u64 (Z.shiftl compDx decompLevelX)) (u64 (Z.shiftl compDy decompLevelY))
       (floordivpow2 (x0 res) (precWidthExp i)) (floordivpow2 (y0 res) (precHeightExp i))
       resno decompLevelX (project grid pw ph) grid winPRJ winGrid
       (innerPrecincts_ i) (winPrecinctsLeft_ i) (winPrecinctsRight_ i) (winPrecinctsTop_ i)
       (winPrecinctsBottom_ i) true).

Record PacketIterInfoResolution := mkPIRes {
  res_precWidthExp : Z; res_precHeightExp : Z;
  precinctGridWidth : Z; precinctGridHeight : Z;
  precinctInfo : option ResPrecinctInfo;      (* null when absent *)
}.

Record PacketIterInfoComponent := mkPIComp {
  comp_dx : Z; comp_dy : Z;
  numresolutions : Z;
  horizontalDepth : list Z; verticalDepth : list Z;
  usesPart2Transform : bool;
  resolutions : list PacketIterInfoResolution;
}.

Definition PIRes_default : PacketIterInfoResolution := mkPIRes 0 0 0 0 None.
Definition PIComp_default : PacketIterInfoComponent := mkPIComp 0 0 0 [] [] false [].

(** What the iterator reads and does not change while it runs. *)
Record Env := mkEnv {
  numcomps : Z;
  comps : list PacketIterInfoComponent;
  tileBounds : Rect;                   (* packetManager->getTileBounds() *)
  unreducedTileWindow : Rect;          (* tileProcessor->getUnreducedTileWindow() *)
  wholeTileDecompress : bool;          (* TCP's wholeTileDecompress_ *)
  singleProgression_ : bool;
  compression_ : bool;
  maxNumDecompositionResolutions : Z;
  precinctInfoOPT_ : option (list ResPrecinctInfo);
}.

Definition comp_at (e : Env) (c : Z) : PacketIterInfoComponent := nthZ PIComp_default (comps e) c.
Definition res_at (c : PacketIterInfoComponent) (r : Z) : PacketIterInfoResolution :=
  nthZ PIRes_default (resolutions c) r.
Definition info_at (l : list ResPrecinctInfo) (r : Z) : ResPrecinctInfo :=
  nthZ (ResPrecinctInfo_new 0 0) l r.

Definition isWholeTile (e : Env) : bool := compression_ e || wholeTileDecompress e.

(** Packet skipping: pop the packets' lengths from the packet-length markers and
    skip their bytes in the compressed data; [false] when the data ran out. *)
Class PacketSkipper (X K : Type) := skip_packets : Z -> K -> result X (bool * K).

Section PacketIter.
Context {X K : Type} `{Skip : PacketSkipper X K}.

Record PacketIter := mkPI {
  env : Env;
  progression : GRK_PROG_ORDER;
  prog : prog_bounds;
  compno : Z; resno : Z; precinctIndex : Z; layno : Z;
  x : Z; y : Z;
  dx : Z; dy : Z; dxActive : Z; dyActive : Z;
  incrementInner : bool;
  px0grid_ : Z; py0grid_ : Z;
  skippedLeft_ : bool;
  includeTracker : IncludeTracker;       (* packetManager->getIncludeTracker() *)
  skipper : K;                           (* PL markers, compressed data, packet counter *)
}.

Definition set_compno v (s : PacketIter) : PacketIter :=
  mkPI (env s) (progression s) (prog s) v (resno s) (precinctIndex s) (layno s) (x s) (y s) (dx s) (dy s) (dxActive s) (dyActive s) (incrementInner s) (px0grid_ s) (py0grid_ s) (skippedLeft_ s) (includeTracker s) (skipper s).
Definition set_resno v (s : PacketIter) : PacketIter :=
  mkPI (env s) (progression s) (prog s) (compno s) v (precinctIndex s) (layno s) (x s) (y s) (dx s) (dy s) (dxActive s) (dyActive s) (incrementInner s) (px0grid_ s) (py0grid_ s) (skippedLeft_ s) (includeTracker s) (skipper s).
Definition set_precinctIndex v (s : PacketIter) : PacketIter :=
  mkPI (env s) (progression s) (prog s) (compno s) (resno s) v (layno s) (x s) (y s) (dx s) (dy s) (dxActive s) (dyActive s) (incrementInner s) (px0grid_ s) (py0grid_ s) (skippedLeft_ s) (includeTracker s) (skipper s).
Definition set_layno v (s : PacketIter) : PacketIter :=
  mkPI (env s) (progression s) (prog s) (compno s) (resno s) (precinctIndex s) v (x s) (y s) (dx s) (dy s) (dxActive s) (dyActive s) (incrementInner s) (px0grid_ s) (py0grid_ s) (skippedLeft_ s) (includeTracker s) (skipper s).
Definition set_x v (s : PacketIter) : PacketIter :=
  mkPI (env s) (progression s) (prog s) (compno s) (resno s) (precinctIndex s) (layno s) v (y s) (dx s) (dy s) (dxActive s) (dyActive s) (incrementInner s) (px0grid_ s) (py0grid_ s) (skippedLeft_ s) (includeTracker s) (skipper s).
Definition set_y v (s : PacketIter) : PacketIter :=
  mkPI (env s) (progression s) (prog s) (compno s) (resno s) (precinctIndex s) (layno s) (x s) v (dx s) (dy s) (dxActive s) (dyActive s) (incrementInner s) (px0grid_ s) (py0grid_ s) (skippedLeft_ s) (includeTracker s) (skipper s).
Definition set_dxy v w (s : PacketIter) : PacketIter :=
  mkPI (env s) (progression s) (prog s) (compno s) (resno s) (precinctIndex s) (layno s) (x s) (y s) v w (dxActive s) (dyActive s) (incrementInner s) (px0grid_ s) (py0grid_ s) (skippedLeft_ s) (includeTracker s) (skipper s).
Definition set_dxActive v (s : PacketIter) : PacketIter :=
  mkPI (env s) (progression s) (prog s) (compno s) (resno s) (precinctIndex s) (layno s) (x s) (y s) (dx s) (dy s) v (dyActive s) (incrementInner s) (px0grid_ s) (py0grid_ s) (skippedLeft_ s) (includeTracker s) (skipper s).
Definition set_dyActive v (s : PacketIter) : PacketIter :=
  mkPI (env s) (progression s) (prog s) (compno s) (resno s) (precinctIndex s) (layno s) (x s) (y s) (dx s) (dy s) (dxActive s) v (incrementInner s) (px0grid_ s) (py0grid_ s) (skippedLeft_ s) (includeTracker s) (skipper s).
Definition set_incrementInner v (s : PacketIter) : PacketIter :=
  mkPI (env s) (progression s) (prog s) (compno s) (resno s) (precinctIndex s) (layno s) (x s) (y s) (dx s) (dy s) (dxActive s) (dyActive s) v (px0grid_ s) (py0grid_ s) (skippedLeft_ s) (includeTracker s) (skipper s).
Definition set_px0grid v (s : PacketIter) : PacketIter :=
  mkPI (env s) (progression s) (prog s) (compno s) (resno s) (precinctIndex s) (layno s) (x s) (y s) (dx s) (dy s) (dxActive s) (dyActive s) (incrementInner s) v (py0grid_ s) (skippedLeft_ s) (includeTracker s) (skipper s).
Definition set_py0grid v (s : PacketIter) : PacketIter :=
  mkPI (env s) (progression s) (prog s) (compno s) (resno s) (precinctIndex s) (layno s) (x s) (y s) (dx s) (dy s) (dxActive s) (dyActive s) (incrementInner s) (px0grid_ s) v (skippedLeft_ s) (includeTracker s) (skipper s).
Definition set_skippedLeft v (s : PacketIter) : PacketIter :=
  mkPI (env s) (progression s) (prog s) (compno s) (resno s) (precinctIndex s) (layno s) (x s) (y s) (dx s) (dy s) (dxActive s) (dyActive s) (incrementInner s) (px0grid_ s) (py0grid_ s) v (includeTracker s) (skipper s).
Definition set_includeTracker v (s : PacketIter) : PacketIter :=
  mkPI (env s) (progression s) (prog s) (compno s) (resno s) (precinctIndex s) (layno s) (x s) (y s) (dx s) (dy s) (dxActive s) (dyActive s) (incrementInner s) (px0grid_ s) (py0grid_ s) (skippedLeft_ s) v (skipper s).
Definition set_skipper v (s : PacketIter) : PacketIter :=
  mkPI (env s) (progression s) (prog s) (compno s) (resno s) (precinctIndex s) (layno s) (x s) (y s) (dx s) (dy s) (dxActive s) (dyActive s) (incrementInner s) (px0grid_ s) (py0grid_ s) (skippedLeft_ s) (includeTracker s) v.
Definition set_prog p (s : PacketIter) : PacketIter :=
  mkPI (env s) (progression s) p (compno s) (resno s) (precinctIndex s) (layno s) (x s) (y s) (dx s) (dy s) (dxActive s) (dyActive s) (incrementInner s) (px0grid_ s) (py0grid_ s) (skippedLeft_ s) (includeTracker s) (skipper s).
Definition set_env v (s : PacketIter) : PacketIter :=
  mkPI v (progression s) (prog s) (compno s) (resno s) (precinctIndex s) (layno s) (x s) (y s) (dx s) (dy s) (dxActive s) (dyActive s) (incrementInner s) (px0grid_ s) (py0grid_ s) (skippedLeft_ s) (includeTracker s) (skipper s).

(** The packet a successful [next] leaves the iterator at:
    [getLayno], [getResno], [getCompno], [getPrecinctIndex]. *)
Definition current (s : PacketIter) : packet_id := (layno s, resno s, compno s, precinctIndex s).

(** Exceptions that leave [next]: the tracker's [std::out_of_range] and those of
    the packet skipper. *)
Inductive pi_exception :=
| IncludeOutOfRange
| SkipException (e : X).

Abbreviation step := (PacketIter -> ctl pi_exception PacketIter).

(** ** Precinct lookup *)

Definition generatePrecinctIndex (s : PacketIter) : PacketIter :=
  let res := res_at (comp_at (env s) (compno s)) (resno s) in
  set_precinctIndex (u64 (px0grid_ s + u64 (py0grid_ s * precinctGridWidth res))) s.

Definition update_include (s : PacketIter) : option (bool * PacketIter) :=
  if singleProgression_ (env s) then Some (true, s)
  else
    r ← update (layno s) (resno s) (compno s) (precinctIndex s) (includeTracker s);
    Some (r.1, set_includeTracker r.2 s).

Definition genPrecinctY0Grid (i : ResPrecinctInfo) (s : PacketIter) : bool * PacketIter :=
  if negb ((y s mod precHeightPRJ i =? 0) ||
           ((y s =? y0 (tileBounds (env s))) && negb (resOffsetY0PRJ i =? 0)))
  then (false, s)
  else (true, set_py0grid (u32 (floordivpow2 (ceildiv (y s) (dyPRJ i)) (precHeightExp i)
                                - resInPrecGridY0 i)) s).

Definition genPrecinctX0Grid (i : ResPrecinctInfo) (s : PacketIter) : bool * PacketIter :=
  if negb ((x s mod precWidthPRJ i =? 0) ||
           ((x s =? x0 (tileBounds (env s))) && negb (resOffsetX0PRJ i =? 0)))
  then (false, s)
  else (true, set_px0grid (u32 (floordivpow2 (ceildiv (x s) (dxPRJ i)) (precWidthExp i)
                                - resInPrecGridX0 i)) s).

Definition genPrecinctY0GridPCRL_OPT (i : ResPrecinctInfo) (s : PacketIter) : bool * PacketIter :=
  if negb (Z.land (y s) (precHeightPRJMinusOne i) =? 0) then (false, s)
  else (true, set_py0grid (u32 (Z.shiftr (u32 (ceildivpow2 64 (y s) (decompLevel_ i))) (precHeightExp i)
                                - resInPrecGridY0 i)) s).
Definition genPrecinctX0GridPCRL_OPT (i : ResPrecinctInfo) (s : PacketIter) : bool * PacketIter :=
  if negb (Z.land (x s) (precWidthPRJMinusOne i) =? 0) then (false, s)
  else (true, set_px0grid (u32 (Z.shiftr (u32 (ceildivpow2 64 (x s) (decompLevel_ i))) (precWidthExp i)
                                - resInPrecGridX0 i)) s).
Definition genPrecinctY0GridRPCL_OPT (i : ResPrecinctInfo) (s : PacketIter) : PacketIter :=
  set_py0grid (u32 (u32 (Z.shiftr (ceildivpow2 64 (y s) (decompLevel_ i)) (precHeightExp i))
                    - resInPrecGridY0 i)) s.
Definition genPrecinctX0GridRPCL_OPT (i : ResPrecinctInfo) (s : PacketIter) : PacketIter :=
  set_px0grid (u32 (u32 (Z.shiftr (ceildivpow2 64 (x s) (decompLevel_ i)) (precWidthExp i))
                    - resInPrecGridX0 i)) s.

Definition precInfoCheck (i : ResPrecinctInfo) (s : PacketIter) : bool :=
  if negb (valid_ i) then false
  else if numresolutions (comp_at (env s) 0) <=? resno s then false
  else
    let res := res_at (comp_at (env s) 0) (resno s) in
    (0 <? precinctGridWidth res) && (0 <? precinctGridHeight res).

(** [genPrecinctY0Grid] then [genPrecinctX0Grid]. *)
Definition genPrecinctGrid (i : ResPrecinctInfo) (s : PacketIter) : bool * PacketIter :=
  match genPrecinctY0Grid i s with
  | (true, s) => genPrecinctX0Grid i s
  | r => r
  end.

(** The precinct info a component's resolution is initialised with. *)
Definition init_info (e : Env) (comp : PacketIterInfoComponent) (res : PacketIterInfoResolution) (r : Z)
  : bool * ResPrecinctInfo :=
  let levelsDone := u8 (numresolutions comp - 1 - r) in
  ResPrecinctInfo_init r (nthZ 0 (horizontalDepth comp) levelsDone)
    (nthZ 0 (verticalDepth comp) levelsDone) (tileBounds e) (comp_dx comp) (comp_dy comp)
    (negb (isWholeTile e)) (unreducedTileWindow e)
    (ResPrecinctInfo_new (res_precWidthExp res) (res_precHeightExp res)).

Definition validatePrecinct (s : PacketIter) : bool * PacketIter :=
  let comp := comp_at (env s) (compno s) in
  if numresolutions comp <=? resno s then (false, s)
  else
    let res := res_at comp (resno s) in
    if (precinctGridWidth res =? 0) || (precinctGridHeight res =? 0) then (false, s)
    else
      match precinctInfoOPT_ (env s) with
      | Some infos =>
          let rpInfo := info_at infos (resno s) in
          if negb (valid_ rpInfo) then (false, s) else genPrecinctGrid rpInfo s
      | None =>
          if compression_ (env s) then
            match init_info (env s) comp res (resno s) with
            | (false, _) => (false, s)
            | (true, rpInfo) => genPrecinctGrid rpInfo s
            end
          else
            match precinctInfo res with
            | None => (false, s)
            | Some rpInfo => genPrecinctGrid rpInfo s
            end
      end.

(** ** Step sizes *)

(** One resolution's contribution to the smallest projected precinct size. *)
Definition merge_step (acc temp : Z) : Z :=
  if temp <? UINT32_MAX then (if acc =? 0 then u32 temp else Z.min acc (u32 temp)) else acc.

Definition projected_step (d exp depth : Z) : Z := u64 (d * u64 (Z.shiftl 1 (u8 (exp + depth)))).

Definition comp_steps (comp : PacketIterInfoComponent) (acc : Z * Z) : Z * Z :=
  for_range 0 (numresolutions comp) (fun r acc =>
    let res := res_at comp r in
    let levelsDone := u8 (numresolutions comp - 1 - r) in
    (merge_step acc.1 (projected_step (comp_dx comp) (res_precWidthExp res) (nthZ 0 (horizontalDepth comp) levelsDone)),
     merge_step acc.2 (projected_step (comp_dy comp) (res_precHeightExp res) (nthZ 0 (verticalDepth comp) levelsDone))))
    acc.

(** The distance from [p] to the next multiple of [d] ([p] itself excluded). *)
Definition active_step (d p : Z) : Z := u32 (d - p mod d).

Definition update_dxy_for_comp (comp : PacketIterInfoComponent) (updateActive : bool) (s : PacketIter)
  : PacketIter :=
  let (dx', dy') := comp_steps comp (dx s, dy s) in
  let s := set_dxy dx' dy' s in
  if updateActive then
    set_dyActive (active_step (dy s) (y s)) (set_dxActive (active_step (dx s) (x s)) s)
  else s.

Definition update_dxy (s : PacketIter) : PacketIter :=
  let s := for_range 0 (numcomps (env s))
             (fun c s => update_dxy_for_comp (comp_at (env s) c) false s) (set_dxy 0 0 s) in
  let s := set_dxActive (if 0 <? dx s then active_step (dx s) (x s) else 0) s in
  set_dyActive (if 0 <? dy s then active_step (dy s) (y s) else 0) s.

(** ** Loops over the member variables *)

Definition for_compno (body : step) : step := fun s =>
  for_loop (Z.to_nat (comp_e (prog s) - compno s)) (fun s => compno s <? comp_e (prog s))
    (fun s => set_compno (u16 (compno s + 1)) s) body s.
Definition for_resno (body : step) : step := fun s =>
  for_loop (Z.to_nat (res_e (prog s) - resno s)) (fun s => resno s <? res_e (prog s))
    (fun s => set_resno (u8 (resno s + 1)) s) body s.
Definition for_layno (body : step) : step := fun s =>
  for_loop (Z.to_nat (lay_e (prog s) - layno s)) (fun s => layno s <? lay_e (prog s))
    (fun s => set_layno (u16 (layno s + 1)) s) body s.

(** [for(; y < ty1; y += dyActive, dyActive = dy)] and the same for [x]. *)
Definition for_y (body : step) : step := fun s =>
  for_loop (Z.to_nat (ty1 (prog s) - y s)) (fun s => y s <? ty1 (prog s))
    (fun s => set_dyActive (dy s) (set_y (u64 (y s + dyActive s)) s)) body s.
Definition for_x (body : step) : step := fun s =>
  for_loop (Z.to_nat (tx1 (prog s) - x s)) (fun s => x s <? tx1 (prog s))
    (fun s => set_dxActive (dx s) (set_x (u64 (x s + dxActive s)) s)) body s.

Definition reset_compno : step := fun s => Next (set_compno (comp_s (prog s)) s).
Definition reset_resno : step := fun s => Next (set_resno (res_s (prog s)) s).
Definition reset_layno : step := fun s => Next (set_layno (lay_s (prog s)) s).
Definition reset_x : step := fun s =>
  let s := set_x (tx0 (prog s)) s in Next (set_dxActive (active_step (dx s) (x s)) s).

(** The innermost block of the layer-last orders: step the layer unless this is
    the first visit, and hand out the packet unless the layers are exhausted or
    the packet was handed out before. *)
Definition visit_layers : step := fun s =>
  let s := if incrementInner s then set_layno (u16 (layno s + 1)) s else s in
  let reset s := set_incrementInner false (set_layno (lay_s (prog s)) s) in
  if layno s <? lay_e (prog s) then
    let s := generatePrecinctIndex (set_incrementInner true s) in
    match update_include s with
    | None => Throw IncludeOutOfRange
    | Some (true, s) => Return true s
    | Some (false, s) => Next (reset s)
    end
  else Next (reset s).

Definition visit_precinct : step := fun s =>
  match validatePrecinct s with
  | (false, s) => Next s
  | (true, s) => visit_layers s
  end.

(** The innermost block of the precinct-last orders. *)
Definition visit_precincts_upto (prec_end : Z) : step := fun s =>
  let s := if incrementInner s then set_precinctIndex (u64 (precinctIndex s + 1)) s else s in
  let reset s := set_incrementInner false (set_precinctIndex (prec_s (prog s)) s) in
  if precinctIndex s <? prec_end then
    match update_include (set_incrementInner true s) with
    | None => Throw IncludeOutOfRange
    | Some (true, s) => Return true s
    | Some (false, s) => Next (reset s)
    end
  else Next (reset s).

Definition visit_precincts : step := fun s =>
  let comp := comp_at (env s) (compno s) in
  if numresolutions comp <=? resno s then Next s
  else
    let res := res_at comp (resno s) in
    visit_precincts_upto (u64 (precinctGridWidth res * precinctGridHeight res)) s.

(** ** The progression orders *)

Definition next_lrcp : step :=
  for_layno (fun s => for_resno (fun s => for_compno visit_precincts s >>> reset_compno) s >>> reset_resno).

Definition next_rlcp : step :=
  for_resno (fun s => for_layno (fun s => for_compno visit_precincts s >>> reset_compno) s >>> reset_layno).

Definition next_cprl : step :=
  for_compno (fun s =>
    let comp := comp_at (env s) (compno s) in
    for_y (fun s =>
      for_x (fun s => for_resno visit_precinct s >>> reset_resno) s >>> reset_x) s >>>
    fun s => Next (update_dxy_for_comp comp true (set_dxy 0 0 (set_y (ty0 (prog s)) s)))).

(** The window test of [next_pcrl]: past the bottom right corner. *)
Definition past_window (win : Rect) (s : PacketIter) : bool :=
  (y1 win <=? y s) || ((0 <? y1 win) && (y s =? y1 win - 1) && (x1 win <=? x s)).

Definition next_pcrl : step :=
  for_y (fun s =>
    for_x (fun s =>
      let win := unreducedTileWindow (env s) in
      if singleProgression_ (env s) && (negb (empty win) && past_window win s) then Return false s
      else
        for_compno (fun s => for_resno visit_precinct s >>> reset_resno) s >>> reset_compno) s >>> reset_x).

Definition next_prcl : step :=
  for_y (fun s =>
    for_x (fun s =>
      for_resno (fun s => for_compno visit_precinct s >>> reset_compno) s >>> reset_resno) s >>> reset_x).

(** Some remaining component has precincts at the current resolution. *)
Definition sane (s : PacketIter) : bool :=
  existsb (fun c =>
    let comp := comp_at (env s) c in
    if numresolutions comp <=? resno s then false
    else
      let res := res_at comp (resno s) in
      (0 <? precinctGridWidth res) && (0 <? precinctGridHeight res))
    (seqZ (compno s) (comp_e (prog s) - compno s)).

Definition next_rpcl : step :=
  for_resno (fun s =>
    if negb (sane s) then Next s
    else
      for_y (fun s => for_x (fun s => for_compno visit_precinct s >>> reset_compno) s >>> reset_x) s >>>
      fun s => let s := set_y (ty0 (prog s)) s in Next (set_dyActive (active_step (dy s) (y s)) s)).

(** ** The optimised orders *)

(** [if(!skipPackets(compressedPackets, n)) return false;] *)
Definition skipPackets (n : Z) : step := fun s =>
  match skip_packets n (skipper s) with
  | Err e => Throw (SkipException e)
  | Ok (true, k) => Next (set_skipper k s)
  | Ok (false, k) => Return false (set_skipper k s)
  end.

Section OPT.
(** The array [precinctInfoOPT_] points to. *)
Variable infos : list ResPrecinctInfo.

Definition visit_precincts_opt (prec_end : Z) : step := fun s =>
  let s := if incrementInner s then set_precinctIndex (u64 (precinctIndex s + 1)) s else s in
  if precinctIndex s <? prec_end then Return true (set_incrementInner true s)
  else Next (set_incrementInner false (set_precinctIndex (prec_s (prog s)) s)).

Definition next_lrcpOPT : step :=
  for_layno (fun s =>
    for_resno (fun s =>
      let precInfo := info_at infos (resno s) in
      if negb (precInfoCheck precInfo s) then Next s
      else for_compno (visit_precincts_opt (numPrecincts_ precInfo)) s >>> reset_compno) s >>> reset_resno).

Definition next_rlcpOPT : step :=
  for_resno (fun s =>
    let precInfo := info_at infos (resno s) in
    if negb (precInfoCheck precInfo s) then Next s
    else
      for_layno (fun s => for_compno (visit_precincts_opt (numPrecincts_ precInfo)) s >>> reset_compno) s
      >>> reset_layno).

(** The innermost block shared by [next_cprlOPT] and [next_pcrlOPT]. *)
Definition visit_precinct_opt : step := fun s =>
  let res := res_at (comp_at (env s) (compno s)) (resno s) in
  let rpInfo := info_at infos (resno s) in
  if negb (valid_ rpInfo) then Next s
  else
    match genPrecinctY0GridPCRL_OPT rpInfo s with
    | (false, s) => Next s
    | (true, s) =>
        match genPrecinctX0GridPCRL_OPT rpInfo s with
        | (false, s) => Next s
        | (true, s) =>
            let s := set_precinctIndex (u64 (px0grid_ s + u64 (py0grid_ s * precinctGridWidth res))) s in
            let s := if incrementInner s then set_layno (u16 (layno s + 1)) s else s in
            if layno s <? lay_e (prog s) then Return true (set_incrementInner true s)
            else Next (set_incrementInner false (set_layno (lay_s (prog s)) s))
        end
    end.

(** [for(; y < bound; y += step)] with a fixed step, and the same for [x]. *)
Definition for_y_to (bound : Z) (stp : PacketIter -> Z) (body : step) : step := fun s =>
  for_loop (Z.to_nat (bound - y s)) (fun s => y s <? bound) (fun s => set_y (u64 (y s + stp s)) s) body s.
Definition for_x_to (bound : Z) (stp : PacketIter -> Z) (body : step) : step := fun s =>
  for_loop (Z.to_nat (bound - x s)) (fun s => x s <? bound) (fun s => set_x (u64 (x s + stp s)) s) body s.

(** Packets of the rows from [y] down, in every resolution, for one component. *)
Definition rows_below (precInfo : ResPrecinctInfo) (s : PacketIter) : Z :=
  u64 (for_range 0 (res_e (prog s)) (fun i n =>
         let info := info_at infos i in
         let reg := Rect4 0 (y s) (x1 (tileBoundsPrecPRJ precInfo)) (y1 (tileBoundsPrecPRJ precInfo)) in
         u64 (n + area 64 (scaleDownCeilPow2 64 (precWidthExpPRJ info) (precHeightExpPRJ info) reg))) 0
       * lay_e (prog s)).

Definition next_cprlOPT (compressedPackets : bool) : step := fun s =>
  let wholeTile := isWholeTile (env s) in
  let precInfo := info_at infos (res_e (prog s) - 1) in
  if negb (precInfoCheck precInfo s) then Return false s
  else
    let win := winPrecPRJ precInfo in
    for_compno (fun s =>
      for_y_to (y1 (tileBoundsPrecPRJ precInfo)) dy (fun s =>
        let rows s :=
          for_x_to (x1 (tileBoundsPrecPRJ precInfo)) dx
            (fun s => for_resno visit_precinct_opt s >>> reset_resno) s >>>
          fun s => Next (set_x (tx0 (prog s)) s) in
        if negb wholeTile && (y s =? y1 win) then
          if compno s =? comp_e (prog s) - 1 then Return false s
          else if compressedPackets then skipPackets (rows_below precInfo s) s >>> Brk
          else rows s
        else rows s) s >>>
      fun s => Next (set_y (ty0 (prog s)) s)) s.

Definition next_pcrlOPT : step := fun s =>
  let wholeTile := isWholeTile (env s) in
  let precInfo := info_at infos (res_e (prog s) - 1) in
  if negb (precInfoCheck precInfo s) then Return false s
  else
    let win := winPrecPRJ precInfo in
    for_y_to (y1 (tileBoundsPrecPRJ precInfo)) dy (fun s =>
      if negb wholeTile && (y s =? y1 win) then Return false s
      else
        for_x_to (x1 (tileBoundsPrecPRJ precInfo)) dx (fun s =>
          if negb wholeTile && past_window win s then Return false s
          else for_compno (fun s => for_resno visit_precinct_opt s >>> reset_resno) s >>> reset_compno) s >>>
        fun s => Next (set_x (x0 (tileBoundsPrecPRJ precInfo)) s)) s.

(** The skips of [next_rpclOPT] before a row: above, below, and left of the window. *)
Definition rpcl_skip_top (precInfo : ResPrecinctInfo) (win : Rect) : step := fun s =>
  if y s <? y0 win then
    skipPackets (winPrecinctsTop_ precInfo) s >>> fun s => Next (set_y (y0 win) s)
  else if (y s =? y1 win) && negb (winPrecinctsBottom_ precInfo =? 0) then
    skipPackets (winPrecinctsBottom_ precInfo) s >>> Brk
  else Next s.

Definition rpcl_skip_left (precInfo : ResPrecinctInfo) (win : Rect) : step := fun s =>
  if negb (skippedLeft_ s) && negb (winPrecinctsLeft_ precInfo =? 0) then
    (if x s <? x0 win then
       skipPackets (winPrecinctsLeft_ precInfo) s >>> fun s => Next (set_x (x0 win) s)
     else Next s) >>>
    fun s => Next (set_skippedLeft true s)
  else Next s.

(** The innermost block of [next_rpclOPT]. *)
Definition visit_layers_rpcl_opt (precIndexY : Z) : step := fun s =>
  let s := if incrementInner s then set_layno (u16 (layno s + 1)) s else s in
  if layno s <? lay_e (prog s) then
    Return true (set_precinctIndex (u64 (px0grid_ s + precIndexY)) (set_incrementInner true s))
  else Next (set_incrementInner false (set_layno (lay_s (prog s)) s)).

(** One row of precincts of [next_rpclOPT]. *)
Definition rpcl_row (compressedPackets wholeTile : bool) (precInfo : ResPrecinctInfo) (win : Rect) : step := fun s =>
  let s := genPrecinctY0GridRPCL_OPT precInfo s in
  let precIndexY := u64 (py0grid_ s * width 32 (tileBoundsPrecGrid precInfo)) in
  let xMax := if wholeTile || negb compressedPackets then x1 (tileBoundsPrecPRJ precInfo) else x1 win in
  for_x_to xMax (fun _ => precWidthPRJ precInfo) (fun s =>
    if negb wholeTile && (resno s =? maxNumDecompositionResolutions (env s) - 1)
       && (((y1 win =? 0) || ((0 <? y1 win) && (y s =? y1 win - 1))) && (x1 win <=? x s))
    then Return false s
    else
      let s := genPrecinctX0GridRPCL_OPT precInfo s in
      for_compno (visit_layers_rpcl_opt precIndexY) s >>> reset_compno) s >>>
  (fun s => Next (set_x (x0 (tileBoundsPrecPRJ precInfo)) s)) >>>
  (fun s => if negb wholeTile && compressedPackets && negb (winPrecinctsRight_ precInfo =? 0)
            then skipPackets (winPrecinctsRight_ precInfo) s else Next s) >>>
  (fun s => Next (set_skippedLeft false s)).

Definition next_rpclOPT (compressedPackets : bool) : step := fun s =>
  let wholeTile := isWholeTile (env s) in
  for_resno (fun s =>
    let precInfo := info_at infos (resno s) in
    if negb (precInfoCheck precInfo s) then Next s
    else
      let win := winPrecPRJ precInfo in
      for_y_to (y1 (tileBoundsPrecPRJ precInfo)) (fun _ => precHeightPRJ precInfo) (fun s =>
        if negb wholeTile then
          if (resno s =? maxNumDecompositionResolutions (env s) - 1) && (y s =? y1 win) then Return false s
          else
            (if compressedPackets
             then rpcl_skip_top precInfo win s >>> rpcl_skip_left precInfo win
             else Next s) >>>
            rpcl_row compressedPackets wholeTile precInfo win
        else rpcl_row compressedPackets wholeTile precInfo win s) s >>>
      (fun s => Next (set_x (tx0 (prog s)) (set_y (ty0 (prog s)) s)))) s.
End OPT.

(** ** [next] *)

Definition next_step (compressedPackets : bool) : step := fun s =>
  match precinctInfoOPT_ (env s) with
  | Some infos =>
      match progression s with
      | GRK_LRCP => next_lrcpOPT infos s
      | GRK_RLCP => next_rlcpOPT infos s
      | GRK_PCRL => next_pcrlOPT infos s
      | GRK_RPCL => next_rpclOPT infos compressedPackets s
      | GRK_CPRL => next_cprlOPT infos compressedPackets s
      | _ => Return false s
      end
  | None =>
      match progression s with
      | GRK_LRCP => next_lrcp s
      | GRK_RLCP => next_rlcp s
      | GRK_PCRL => if (dx s =? 0) || (dy s =? 0) then Return false s else next_pcrl s
      | GRK_RPCL => if (dx s =? 0) || (dy s =? 0) then Return false s else next_rpcl s
      | GRK_PRCL => if (dx s =? 0) || (dy s =? 0) then Return false s else next_prcl s
      | GRK_CPRL => if (dx s =? 0) || (dy s =? 0) then Return false s else next_cprl s
      | GRK_PROG_UNKNOWN => Return false s
      end
  end.

Definition next (compressedPackets : bool) (s : PacketIter)
  : option (result pi_exception (bool * PacketIter)) := finish (next_step compressedPackets s).

(** ** Precinct info generation *)

Definition set_precinctInfo (i : ResPrecinctInfo) (r : PacketIterInfoResolution) : PacketIterInfoResolution :=
  mkPIRes (res_precWidthExp r) (res_precHeightExp r) (precinctGridWidth r) (precinctGridHeight r) (Some i).

(** [genPrecinctInfo(comp, res, resNumber)]. *)
Definition genPrecinctInfo_res (e : Env) (comp : PacketIterInfoComponent) (resNumber : Z)
    (res : PacketIterInfoResolution) : PacketIterInfoResolution :=
  if (precinctGridWidth res =? 0) || (precinctGridHeight res =? 0) then res
  else if compression_ e then res
  else
    match init_info e comp res resNumber with
    | (true, i) => set_precinctInfo i res
    | (false, _) => res
    end.

Definition set_resolutions (c : PacketIterInfoComponent) (rs : list PacketIterInfoResolution) :=
  mkPIComp (comp_dx c) (comp_dy c) (numresolutions c) (horizontalDepth c) (verticalDepth c)
           (usesPart2Transform c) rs.

Definition set_comps (cs : list PacketIterInfoComponent) (opt : option (list ResPrecinctInfo)) (e : Env) : Env :=
  mkEnv (numcomps e) cs (tileBounds e) (unreducedTileWindow e) (wholeTileDecompress e)
        (singleProgression_ e) (compression_ e) (maxNumDecompositionResolutions e) opt.

(** The test of [genPrecinctInfoOPT] for PCRL and CPRL: each resolution's
    projected precincts are no smaller than the highest resolution's. *)
Definition projected_nondecreasing (c : PacketIterInfoComponent) : bool :=
  let highestRes := res_at c (numresolutions c - 1) in
  forallb (fun r =>
    let decompLevel := u8 (numresolutions c - 1 - r) in
    negb ((res_precWidthExp (res_at c r) + decompLevel <? res_precWidthExp highestRes) ||
          (res_precHeightExp (res_at c r) + decompLevel <? res_precHeightExp highestRes)))
    (seqZ 0 (numresolutions c - 1)).

Definition genPrecinctInfoOPT (order : GRK_PROG_ORDER) (e : Env) : option (list ResPrecinctInfo) :=
  let c0 := comp_at e 0 in
  if compression_ e || negb (singleProgression_ e) then None
  else if existsb (fun c =>
            let comp := comp_at e c in
            (negb (comp_dx comp =? 1) || negb (comp_dy comp =? 1) || usesPart2Transform comp) ||
            ((0 <? c) && negb (numresolutions comp =? numresolutions c0))) (seqZ 0 (numcomps e)) then None
  else
    let spatial_ok :=
      negb (negb (x0 (tileBounds e) =? 0) || negb (y0 (tileBounds e) =? 0)) && projected_nondecreasing c0 in
    let ok := match order with GRK_PCRL | GRK_CPRL => spatial_ok | _ => true end in
    if ok then
      Some ((fun r =>
        let levelsDone := u8 (numresolutions c0 - 1 - r) in
        let res := res_at c0 r in
        snd (ResPrecinctInfo_init r levelsDone levelsDone (tileBounds e) (comp_dx c0) (comp_dy c0)
               (negb (isWholeTile e)) (unreducedTileWindow e)
               (ResPrecinctInfo_new (res_precWidthExp res) (res_precHeightExp res))))
        <$> seqZ 0 (numresolutions c0))
    else None.

Definition genPrecinctInfo (order : GRK_PROG_ORDER) (e : Env) : Env :=
  match genPrecinctInfoOPT order e with
  | Some infos => set_comps (comps e) (Some infos) e
  | None =>
      set_comps ((fun comp =>
        set_resolutions comp (imap (fun r res => genPrecinctInfo_res e comp (Z.of_nat r) res) (resolutions comp)))
        <$> comps e) None e
  end.
End PacketIter.
Arguments PacketIter K : clear implicits.
Arguments pi_exception X : clear implicits.

(** ** Coding parameters read by [PacketIter::init] *)

(** The part of [TileComponentCodingParams] the iterator uses. *)
Record TileComponentCodingParams := mkTCCP {
  numresolutions_ : Z;
  horizontalDepth_ : list Z; verticalDepth_ : list Z;   (* uint8_t[GRK_MAXRLVLS] *)
  part2Transform_ : bool;                               (* usesPart2Transform() *)
  precWidthExp_ : list Z; precHeightExp_ : list Z;
}.
Definition TCCP_default : TileComponentCodingParams := mkTCCP 0 [] [] false [] [].

(** The temporary variables of [grk_progression]. *)
Record prog_temp := mkTemp {
  comp_temp : Z; res_temp : Z; prec_temp : Z; lay_temp : Z; tx0_temp : Z; ty0_temp : Z;
}.

Record grk_progression := mkProgression {
  poc_progression : GRK_PROG_ORDER;
  specified_compression_poc_prog : GRK_PROG_ORDER;
  poc_bounds : prog_bounds;
  tp_comp_s : Z; tp_comp_e : Z; tp_res_s : Z; tp_res_e : Z;
  tp_prec_e : Z; tp_lay_e : Z;
  tp_tx_s : Z; tp_tx_e : Z; tp_ty_s : Z; tp_ty_e : Z;
  poc_dx : Z; poc_dy : Z;
  temp : prog_temp;
}.

Definition bounds_zero : prog_bounds := mkBounds 0 0 0 0 0 0 0 0 0 0 0 0.
Definition progression_zero : grk_progression :=
  mkProgression GRK_LRCP GRK_LRCP bounds_zero 0 0 0 0 0 0 0 0 0 0 0 0 (mkTemp 0 0 0 0 0 0).

Record TileCodingParams := mkTCP {
  prg_ : GRK_PROG_ORDER;
  numLayers_ : Z;
  layersToDecompress_ : Z;
  hasPoc_ : bool;
  numpocs_ : Z;
  progressionOrderChange_ : list grk_progression;
  tccps_ : list TileComponentCodingParams;
}.

Definition getNumProgressions (tcp : TileCodingParams) : Z := numpocs_ tcp + 1.
Definition hasPoc (tcp : TileCodingParams) : bool := hasPoc_ tcp || (0 <? numpocs_ tcp).
Definition poc_at (tcp : TileCodingParams) (i : Z) : grk_progression :=
  nthZ progression_zero (progressionOrderChange_ tcp) i.

(** ** [PacketIter::init] *)

(** The bounds a decompressing iterator starts from. *)
Definition init_bounds (tcp : TileCodingParams) (pocIndex numcomps max_res max_precincts : Z) : prog_bounds :=
  let b := poc_bounds (poc_at tcp pocIndex) in
  let poc := hasPoc tcp in
  mkBounds 0 0 0 0
    (if poc then comp_s b else 0) (Z.min (if poc then comp_e b else numcomps) numcomps)
    (if poc then res_s b else 0) (Z.min (if poc then res_e b else max_res) max_res)
    0 max_precincts
    0 (Z.min (if poc then lay_e b else numLayers_ tcp) (numLayers_ tcp)).

(** The component tables, from the image, the coding parameters and the
    [(precWidthExp, precHeightExp, gridWidth, gridHeight)] rows of
    [PacketManager::getParams]. *)
Definition init_comp (img : Z * Z) (tccp : TileComponentCodingParams) (rows : list (Z * Z * Z * Z))
  : PacketIterInfoComponent :=
  mkPIComp img.1 img.2 (numresolutions_ tccp) (horizontalDepth_ tccp) (verticalDepth_ tccp)
    (part2Transform_ tccp)
    ((fun r => match nthZ (0, 0, 0, 0) rows r with
               | (we, he, gw, gh) => mkPIRes (u8 we) (u8 he) gw gh None end) <$> seqZ 0 (numresolutions_ tccp)).

(** The window packet counts of one resolution, for RPCL. *)
Definition window_counts (compLayer : Z) (i : ResPrecinctInfo) : ResPrecinctInfo :=
  let w := winPrecGrid i in
  let t := tileBoundsPrecGrid i in
  mkResPrecinctInfo (precWidthExp i) (precHeightExp i) (precWidthExpPRJ i) (precHeightExpPRJ i)
    (resOffsetX0PRJ i) (resOffsetY0PRJ i) (precWidthPRJ i) (precWidthPRJMinusOne i)
    (precHeightPRJ i) (precHeightPRJMinusOne i) (numPrecincts_ i) (dxPRJ i) (dyPRJ i)
    (resInPrecGridX0 i) (resInPrecGridY0 i) (resno_ i) (decompLevel_ i)
    (tileBoundsPrecPRJ i) (tileBoundsPrecGrid i) (winPrecPRJ i) (winPrecGrid i)
    compLayer
    (u64 (x0 w * compLayer))
    (u64 (u32 (x1 t - x1 w) * compLayer))
    (u64 (u64 (y0 w * width 32 t) * compLayer))
    (u64 (u64 (u32 (y1 t - y1 w) * width 32 t) * compLayer))
    (valid_ i).

Section Init.
Context {K : Type}.

(** The single-progression adjustments at the end of [init]. *)
Definition single_progression (tcp : TileCodingParams) (s : PacketIter K) : PacketIter K :=
  if singleProgression_ (env s) then
    match progression s with
    | GRK_LRCP => set_prog (set_lay (lay_s (prog s)) (Z.min (lay_e (prog s)) (layersToDecompress_ tcp)) (prog s)) s
    | GRK_RLCP => set_prog (set_res (res_s (prog s))
                    (Z.min (res_e (prog s)) (maxNumDecompositionResolutions (env s))) (prog s)) s
    | GRK_RPCL =>
        let s := set_prog (set_res (res_s (prog s))
                    (Z.min (res_e (prog s)) (maxNumDecompositionResolutions (env s))) (prog s)) s in
        match precinctInfoOPT_ (env s) with
        | Some infos =>
            let compLayer := u64 (comp_e (prog s) * lay_e (prog s)) in
            set_env (set_comps (comps (env s)) (Some (window_counts compLayer <$> infos)) (env s)) s
        | None => s
        end
    | _ => s
    end
  else s.

Definition PacketIter_init (image : list (Z * Z)) (tcp : TileCodingParams) (pocIndex : Z)
    (tileBounds window : Rect) (wholeTile compression : bool) (maxDecompRes : Z)
    (max_res max_precincts : Z) (rows : list (list (Z * Z * Z * Z)))
    (tracker : IncludeTracker) (k : K) : PacketIter K :=
  let n := Z.of_nat (length image) in
  let cs := (fun c => init_comp (nthZ (0, 0) image c) (nthZ TCCP_default (tccps_ tcp) c) (nthZ [] rows c))
              <$> seqZ 0 n in
  let e := mkEnv n cs tileBounds window wholeTile (getNumProgressions tcp =? 1) compression maxDecompRes None in
  let order := if compression then GRK_LRCP
               else if hasPoc tcp then poc_progression (poc_at tcp pocIndex) else prg_ tcp in
  let b := if compression then bounds_zero else init_bounds tcp pocIndex n max_res max_precincts in
  let b := set_tx (x0 tileBounds) (x1 tileBounds) (set_ty (y0 tileBounds) (y1 tileBounds) b) in
  let s := mkPI (genPrecinctInfo order e) order b 0 0 0 0 (x0 tileBounds) (y0 tileBounds) 0 0 0 0
             false 0 0 false tracker k in
  single_progression tcp (update_dxy s).
End Init.
