(* ===== verification/PacketManager.v ===== *)
(** The packet manager: src/src/lib/core/t2/PacketManager.cpp.

    [getParams] computes the precinct grids of a tile, [updateCompressTcpProgressions]
    the tile-part bounds of each progression, and the constructor builds one
    iterator per progression around a shared inclusion tracker.  The theorem
    shows that the precinct grids handed to the iterators are the grids the
    iterators derive themselves from the projected geometry. *)
From S2P Require Import Prelude Geometry IncludeTracker Loops PacketIter.

(** ** [PacketManager::getParams] *)

(** What [getParams] computes for one resolution. *)
Definition resBounds (tileBounds : Rect) (img : Z * Z) (tccp : TileComponentCodingParams) (resno : Z) : Rect :=
  let tileCompBounds := scaleDownCeil 32 img.1 img.2 tileBounds in
  let levelsDone := u8 (numresolutions_ tccp - 1 - resno) in
  scaleDownCeil 32 (u64 (Z.shiftl 1 (nthZ 0 (horizontalDepth_ tccp) levelsDone)))
                   (u64 (Z.shiftl 1 (nthZ 0 (verticalDepth_ tccp) levelsDone))) tileCompBounds.

(** The precinct grid of a resolution's bounds. *)
Definition precinct_grid (we he : Z) (b : Rect) : Z * Z :=
  let adjusted := Rect4 (u32 (Z.shiftl (floordivpow2 (x0 b) we) we)) (u32 (Z.shiftl (floordivpow2 (y0 b) he) he))
                        (u32 (Z.shiftl (ceildivpow2 32 (x1 b) we) we)) (u32 (Z.shiftl (ceildivpow2 32 (y1 b) he) he)) in
  (if width 32 b =? 0 then 0 else Z.shiftr (width 32 adjusted) we,
   if height 32 b =? 0 then 0 else Z.shiftr (height 32 adjusted) he).

Record Params := mkParams {
  max_precincts : Z; max_res : Z; dx_min : Z; dy_min : Z;
  tracker_ : IncludeTracker;
  rows_ : list (list (Z * Z * Z * Z));   (* precinct info, by component *)
}.

(** One resolution of one component. *)
Definition getParams_res (tileBounds : Rect) (img : Z * Z) (tccp : TileComponentCodingParams) (resno : Z)
    (acc : Params * list (Z * Z * Z * Z)) : Params * list (Z * Z * Z * Z) :=
  let (p, rows) := acc in
  let we := nthZ 0 (precWidthExp_ tccp) resno in
  let he := nthZ 0 (precHeightExp_ tccp) resno in
  let (gw, gh) := precinct_grid we he (resBounds tileBounds img tccp resno) in
  let num_precincts := u64 (gw * gh) in
  let levelsDone := u8 (numresolutions_ tccp - 1 - resno) in
  let compResDx := u64 (img.1 * u64 (Z.shiftl 1 (we + nthZ 0 (horizontalDepth_ tccp) levelsDone))) in
  let compResDy := u64 (img.2 * u64 (Z.shiftl 1 (he + nthZ 0 (verticalDepth_ tccp) levelsDone))) in
  (mkParams (if max_precincts p <? num_precincts then num_precincts else max_precincts p)
            (max_res p)
            (if compResDx <? UINT32_MAX then Z.min (dx_min p) (u32 compResDx) else dx_min p)
            (if compResDy <? UINT32_MAX then Z.min (dy_min p) (u32 compResDy) else dy_min p)
            (updateNumPrecinctsPerRes resno num_precincts (tracker_ p))
            (rows_ p),
   rows ++ [(we, he, gw, gh)]).

Definition getParams_comp (tileBounds : Rect) (image : list (Z * Z)) (tcp : TileCodingParams) (compno : Z)
    (p : Params) : Params :=
  let tccp := nthZ TCCP_default (tccps_ tcp) compno in
  let img := nthZ (0, 0) image compno in
  let p := mkParams (max_precincts p)
             (if max_res p <? numresolutions_ tccp then numresolutions_ tccp else max_res p)
             (dx_min p) (dy_min p) (tracker_ p) (rows_ p) in
  let (p, rows) := for_range 0 (numresolutions_ tccp) (getParams_res tileBounds img tccp) (p, []) in
  mkParams (max_precincts p) (max_res p) (dx_min p) (dy_min p) (tracker_ p) (rows_ p ++ [rows]).

Definition getParams (tileBounds : Rect) (image : list (Z * Z)) (tcp : TileCodingParams)
    (tracker : IncludeTracker) : Params :=
  for_range 0 (Z.of_nat (length image)) (getParams_comp tileBounds image tcp)
    (mkParams 0 0 UINT32_MAX UINT32_MAX (resetNumPrecinctsPerRes tracker) []).

(** ** [PacketManager::updateCompressTcpProgressions] *)

Definition update_progression (tcp : TileCodingParams) (num_comps : Z) (tileBounds : Rect)
    (max_precincts max_res dx_min dy_min : Z) (poc : bool) (p : grk_progression) : grk_progression :=
  let b := poc_bounds p in
  mkProgression (if poc then specified_compression_poc_prog p else prg_ tcp)
    (specified_compression_poc_prog p) b
    (if poc then comp_s b else 0) (if poc then comp_e b else num_comps)
    (if poc then res_s b else 0) (if poc then res_e b else max_res)
    max_precincts (if poc then lay_e b else numLayers_ tcp)
    (x0 tileBounds) (x1 tileBounds) (y0 tileBounds) (y1 tileBounds)
    dx_min dy_min (temp p).

Definition updateCompressTcpProgressions (tcp : TileCodingParams) (num_comps : Z) (tileBounds : Rect)
    (max_precincts max_res dx_min dy_min : Z) (poc : bool) : TileCodingParams :=
  mkTCP (prg_ tcp) (numLayers_ tcp) (layersToDecompress_ tcp) (hasPoc_ tcp) (numpocs_ tcp)
    (imap (fun i p => if Z.of_nat i <? getNumProgressions tcp
                      then update_progression tcp num_comps tileBounds max_precincts max_res dx_min dy_min poc p
                      else p) (progressionOrderChange_ tcp))
    (tccps_ tcp).

(** ** The constructor *)

(** Inputs of a tile's packet manager: the image's subsampling factors, the
    tile's coding parameters and bounds, and the decompression window. *)
Record TileSetup := mkTileSetup {
  ts_image : list (Z * Z);
  ts_tcp : TileCodingParams;
  ts_bounds : Rect;
  ts_window : Rect;
  ts_wholeTile : bool;
  ts_compression : bool;
  ts_maxDecompRes : Z;
}.

Definition manager_params (t : TileSetup) : Params :=
  getParams (ts_bounds t) (ts_image t) (ts_tcp t) IncludeTracker_new.

(** The iterator of progression [i], as [PacketManager::PacketManager] leaves it. *)
Definition manager_iter {K} (t : TileSetup) (i : Z) (k : K) : PacketIter K :=
  let p := manager_params t in
  PacketIter_init (ts_image t) (ts_tcp t) i (ts_bounds t) (ts_window t) (ts_wholeTile t)
    (ts_compression t) (ts_maxDecompRes t) (max_res p) (max_precincts p) (rows_ p) (tracker_ p) k.

(** ** Agreement of the precinct grids *)

(** One axis of [precinct_grid]: the number of precincts that cover [a, b). *)
Lemma grid_axis a b e : 0 <= e <= 15 -> 0 <= a < b -> b + 2 ^ e <= 2 ^ 32 ->
  Z.shiftr (u32 (u32 (Z.shiftl (ceildivpow2 32 b e) e) - u32 (Z.shiftl (floordivpow2 a e) e))) e =
  cdiv b (2 ^ e) - a / 2 ^ e /\ a / 2 ^ e < cdiv b (2 ^ e).
Proof.
  intros He Ha Hb. assert (0 < 2 ^ e) as Hp by lia.
  rewrite ceildivpow2_cdiv, floordivpow2_div by lia.
  set (c := cdiv b (2 ^ e)). set (f := a / 2 ^ e).
  assert (f * 2 ^ e <= a) as Hf by (unfold f; rewrite Z.mul_comm; apply Z.mul_div_le; lia).
  assert (0 <= f) as Hf0 by (apply Z.div_pos; lia).
  assert ((c - 1) * 2 ^ e < b) as Hc by (apply cdiv_gt; lia).
  assert (b <= c * 2 ^ e) as Hc' by (by apply cdiv_le).
  assert (f < c) as Hfc by nia.
  split; [|done]. rewrite !Z.shiftl_mul_pow2 by lia.
  rewrite (wrap_small 32 (c * _)) by nia. rewrite (wrap_small 32 (f * _)) by nia.
  rewrite wrap_small by nia. rewrite Z.shiftr_div_pow2 by lia.
  replace (c * 2 ^ e - f * 2 ^ e) with ((c - f) * 2 ^ e) by lia. by rewrite Z.div_mul by lia.
Qed.

(** One axis of [Rect::scaleDown] by a precinct dimension. *)
Lemma scaleDown_axis a b e : 0 <= e <= 15 -> 0 <= a < b -> b < 2 ^ 32 ->
  u32 (Z.shiftl 1 e) = 2 ^ e /\ u32 (a / 2 ^ e) = a / 2 ^ e /\
  u32 (ceildiv b (2 ^ e)) = cdiv b (2 ^ e) /\ 0 <= a / 2 ^ e < cdiv b (2 ^ e) /\ cdiv b (2 ^ e) < 2 ^ 32.
Proof.
  intros He Ha Hb. assert (0 < 2 ^ e <= 2 ^ 15) by (split; [lia|apply Z.pow_le_mono_r; lia]).
  assert (0 <= a / 2 ^ e <= a) by (split; [apply Z.div_pos; lia|apply Z.div_le_upper_bound; nia]).
  assert (0 <= cdiv b (2 ^ e) < 2 ^ 32) by (apply cdiv_range; lia).
  rewrite Z.shiftl_1_l, ceildiv_cdiv by lia. rewrite !wrap_small by lia.
  split; [done|]. split; [done|]. split; [done|]. split; [|lia]. split; [lia|].
  apply cdiv_gt; [lia|]. pose proof (Z.mul_div_le a (2 ^ e) ltac:(lia)). lia.
Qed.

(** ** The geometry of a resolution along one axis *)

(** For tile bounds [t0, t1), component subsampling [d], [l] decompositions and
    precinct exponent [e]: the resolution's bounds, its precinct columns, and
    the projected precinct width. *)
Section Axis.
Variables t0 t1 d l e : Z.
Definition axD : Z := d * 2 ^ l.
Definition axP : Z := axD * 2 ^ e.
Definition axlo : Z := cdiv t0 axD.
Definition axhi : Z := cdiv t1 axD.
Definition axcol0 : Z := axlo / 2 ^ e.
Definition axcol1 : Z := cdiv axhi (2 ^ e).

Definition axis_ok : Prop :=
  0 <= t0 < t1 /\ t1 + 2 ^ 15 <= 2 ^ 32 /\ 1 <= d <= 255 /\ 0 <= l <= 32 /\ 0 <= e <= 15.
Hypothesis Hok : axis_ok.

Lemma axis_pos : 0 < 2 ^ l <= 2 ^ 32 /\ 0 < 2 ^ e <= 2 ^ 15 /\ 0 < axD < 2 ^ 40 /\ 0 < axP < 2 ^ 55.
Proof.
  destruct Hok as (? & ? & ? & ? & ?). unfold axP, axD.
  assert (0 < 2 ^ l <= 2 ^ 32) by (split; [lia|apply Z.pow_le_mono_r; lia]).
  assert (0 < 2 ^ e <= 2 ^ 15) by (split; [lia|apply Z.pow_le_mono_r; lia]).
  assert (0 < d * 2 ^ l <= 255 * 2 ^ 32) as HD by (generalize dependent (2 ^ l); intros; nia).
  split; [done|]. split; [done|]. split; [lia|].
  assert (0 < d * 2 ^ l * 2 ^ e <= (255 * 2 ^ 32) * 2 ^ 15); [|lia].
  split; [apply Z.mul_pos_pos; lia|apply Z.mul_le_mono_nonneg; lia].
Qed.

Lemma axis_bounds : 0 <= axlo <= axhi /\ axhi + 2 ^ 15 <= 2 ^ 32 /\ axhi <= t1.
Proof.
  destruct axis_pos as (? & ? & ? & ?). destruct Hok as (? & ? & ? & ? & ?). unfold axlo, axhi.
  assert (cdiv t1 axD <= t1) by (apply cdiv_le; nia).
  assert (0 <= cdiv t0 axD) by (by apply cdiv_nonneg; lia).
  assert (cdiv t0 axD <= cdiv t1 axD) by (apply cdiv_mono; lia). lia.
Qed.

(** The machine computations of [ResPrecinctInfo::init] along this axis. *)
Lemma axis_machine :
  u64 (Z.shiftl d l) = axD /\ u8 (e + l) = e + l /\ u64 (Z.shiftl d (e + l)) = axP /\
  u32 (ceildiv t0 axD) = axlo /\ u32 (ceildiv t1 axD) = axhi.
Proof.
  destruct axis_pos as (? & ? & ? & ?). pose proof axis_bounds. destruct Hok as (? & ? & ? & ? & ?).
  rewrite !Z.shiftl_mul_pow2 by lia. fold axD.
  assert (d * 2 ^ (e + l) = axP) as -> by (unfold axP, axD; rewrite Z.pow_add_r by lia; lia).
  rewrite !ceildiv_cdiv by lia. rewrite !wrap_small by (unfold axlo, axhi in *; lia). done.
Qed.

(** The projected offset of a non-empty resolution is not truncated. *)
Lemma axis_offset : axlo < axhi ->
  u32 (u64 (Z.shiftl axlo l) mod u64 (Z.shiftl 1 (e + l))) = 0 <-> axlo mod 2 ^ e = 0.
Proof.
  intros Hne. destruct axis_pos as (? & ? & ? & ?). pose proof axis_bounds as (? & ? & ?).
  destruct Hok as (? & ? & ? & ? & ?).
  assert (axlo * axD < t1) as Hlt by (apply cdiv_gt; [lia|exact Hne]).
  assert (axlo * 2 ^ l <= axlo * axD) by (apply Z.mul_le_mono_nonneg_l; [lia|unfold axD; nia]).
  assert (0 <= axlo * 2 ^ l < 2 ^ 32) as Hlt' by (split; [apply Z.mul_nonneg_nonneg|]; lia).
  rewrite Z.shiftl_mul_pow2, Z.shiftl_1_l by lia.
  assert (0 < 2 ^ (e + l) <= 2 ^ 47) by (split; [lia|apply Z.pow_le_mono_r; lia]).
  rewrite (wrap_small 64 (axlo * _)) by lia. rewrite (wrap_small 64 (2 ^ _)) by lia.
  rewrite Z.pow_add_r by lia. rewrite (Z.mul_mod_distr_r axlo (2 ^ e)) by lia.
  pose proof (Z.mod_pos_bound axlo (2 ^ e) ltac:(lia)).
  pose proof (Z.mod_le axlo (2 ^ e) ltac:(lia) ltac:(lia)).
  rewrite wrap_small by nia. nia.
Qed.

Lemma axis_cols : axlo < axhi -> 0 <= axcol0 < axcol1 /\ axcol1 < 2 ^ 32.
Proof.
  intros Hne. pose proof axis_bounds. destruct Hok as (? & ? & ? & ? & ?).
  destruct (scaleDown_axis axlo axhi e) as (_ & _ & _ & ? & ?); [lia|lia|lia|].
  unfold axcol0, axcol1. lia.
Qed.
End Axis.

(** [ResPrecinctInfo::init] in terms of the two axes. *)
Record info_geometry (tb : Rect) (dx dy lx ly we he : Z) (i : ResPrecinctInfo) : Prop := {
  ig_width : precWidthPRJ i = axP dx lx we;
  ig_height : precHeightPRJ i = axP dy ly he;
  ig_dx : dxPRJ i = axD dx lx;
  ig_dy : dyPRJ i = axD dy ly;
  ig_we : precWidthExp i = we;
  ig_he : precHeightExp i = he;
  ig_offx : resOffsetX0PRJ i = 0 <-> axlo (x0 tb) dx lx mod 2 ^ we = 0;
  ig_offy : resOffsetY0PRJ i = 0 <-> axlo (y0 tb) dy ly mod 2 ^ he = 0;
  ig_col : resInPrecGridX0 i = axcol0 (x0 tb) dx lx we;
  ig_row : resInPrecGridY0 i = axcol0 (y0 tb) dy ly he;
  ig_gridw : width 32 (tileBoundsPrecGrid i) = axcol1 (x1 tb) dx lx we - axcol0 (x0 tb) dx lx we;
  ig_gridh : height 32 (tileBoundsPrecGrid i) = axcol1 (y1 tb) dy ly he - axcol0 (y0 tb) dy ly he;
  ig_num : numPrecincts_ i = u64 (width 32 (tileBoundsPrecGrid i) * height 32 (tileBoundsPrecGrid i));
  ig_valid : valid_ i = true;
}.

Lemma init_geometry resno lx ly tb dx dy windowed win we he b i :
  axis_ok (x0 tb) (x1 tb) dx lx we -> axis_ok (y0 tb) (y1 tb) dy ly he ->
  ResPrecinctInfo_init resno lx ly tb dx dy windowed win (ResPrecinctInfo_new we he) = (b, i) ->
  let nonempty := (axlo (x0 tb) dx lx <? axhi (x1 tb) dx lx) && (axlo (y0 tb) dy ly <? axhi (y1 tb) dy ly) in
  b = nonempty /\ valid_ i = b /\ (b = true -> info_geometry tb dx dy lx ly we he i).
Proof.
  intros Hx Hy.
  pose proof (axis_bounds _ _ _ _ _ Hx) as (Hbx & _ & _). pose proof (axis_bounds _ _ _ _ _ Hy) as (Hby & _ & _).
  destruct (axis_machine _ _ _ _ _ Hx) as (EDx & Eex & EPx & Elx & Ehx).
  destruct (axis_machine _ _ _ _ _ Hy) as (EDy & Eey & EPy & Ely & Ehy).
  unfold ResPrecinctInfo_init, ResPrecinctInfo_new. cbn [precWidthExp precHeightExp].
  rewrite EDx, EDy, Eex, Eey, EPx, EPy.
  unfold scaleDownCeil at 1 2 3 4. cbn [x0 y0 x1 y1]. rewrite Elx, Ely, Ehx, Ehy.
  destruct (Z.eqb_spec (axlo (x0 tb) dx lx) (axhi (x1 tb) dx lx)) as [Eqx|Nex];
    [|destruct (Z.eqb_spec (axlo (y0 tb) dy ly) (axhi (y1 tb) dy ly)) as [Eqy|Ney]]; cbn [orb].
  { intros [= <- <-]. rewrite (proj2 (Z.ltb_ge _ _)) by lia. done. }
  { intros [= <- <-]. rewrite (proj2 (Z.ltb_ge (axlo (y0 tb) dy ly) _)) by lia. rewrite andb_false_r. done. }
  assert (axlo (x0 tb) dx lx < axhi (x1 tb) dx lx) as Lx by lia.
  assert (axlo (y0 tb) dy ly < axhi (y1 tb) dy ly) as Ly by lia.
  pose proof (axis_offset _ _ _ _ _ Hx Lx) as Ox. pose proof (axis_offset _ _ _ _ _ Hy Ly) as Oy.
  pose proof (axis_cols _ _ _ _ _ Hx Lx) as Cx. pose proof (axis_cols _ _ _ _ _ Hy Ly) as Cy.
  pose proof (axis_bounds _ _ _ _ _ Hx) as (? & ? & ?). pose proof (axis_bounds _ _ _ _ _ Hy) as (? & ? & ?).
  destruct Hx as (? & ? & ? & ? & ?). destruct Hy as (? & ? & ? & ? & ?).
  destruct (scaleDown_axis _ (axhi (x1 tb) dx lx) we ltac:(lia) (conj (proj1 Hbx) Lx)) as (Ux & Fx & Gx & _); [lia|].
  destruct (scaleDown_axis _ (axhi (y1 tb) dy ly) he ltac:(lia) (conj (proj1 Hby) Ly)) as (Uy & Fy & Gy & _); [lia|].
  rewrite Ux, Uy. intros [= <- <-]. rewrite !(proj2 (Z.ltb_lt _ _)) by done.
  split; [done|]. split; [done|]. intros _.
  split; cbn [precWidthPRJ precHeightPRJ dxPRJ dyPRJ precWidthExp precHeightExp resOffsetX0PRJ
    resOffsetY0PRJ resInPrecGridX0 resInPrecGridY0 tileBoundsPrecGrid numPrecincts_ valid_]; try done;
    unfold area, width, height, scaleDown, scaleDownCeil; cbn [x0 y0 x1 y1]; rewrite ?Elx, ?Ely, ?Ehx, ?Ehy; try done.
  - rewrite floordivpow2_div by lia. done.
  - rewrite floordivpow2_div by lia. done.
  - rewrite Fx, Gx. unfold axcol0, axcol1 in *. apply wrap_small. lia.
  - rewrite Fy, Gy. unfold axcol0, axcol1 in *. apply wrap_small. lia.
Qed.

(** The number of precinct columns along an axis. *)
Definition axcols (t0 t1 d l e : Z) : Z :=
  if axlo t0 d l <? axhi t1 d l then axcol1 t1 d l e - axcol0 t0 d l e else 0.

(** One axis of [precinct_grid] on the bounds of a resolution. *)
Lemma precinct_grid_axis t0 t1 d l e : axis_ok t0 t1 d l e ->
  let a := u32 (ceildiv (u32 (ceildiv t0 d)) (2 ^ l)) in let b := u32 (ceildiv (u32 (ceildiv t1 d)) (2 ^ l)) in
  (if u32 (b - a) =? 0 then 0
   else Z.shiftr (u32 (u32 (Z.shiftl (ceildivpow2 32 b e) e) - u32 (Z.shiftl (floordivpow2 a e) e))) e) =
  axcols t0 t1 d l e.
Proof.
  intros Hok a b. destruct (axis_machine _ _ _ _ _ Hok) as (_ & _ & _ & Elo & Ehi).
  pose proof (axis_bounds _ _ _ _ _ Hok) as (? & ? & ?). destruct Hok as (? & ? & ? & ? & ?).
  assert (a = axlo t0 d l) as -> by (unfold a; rewrite scale_twice by lia; exact Elo).
  assert (b = axhi t1 d l) as -> by (unfold b; rewrite scale_twice by lia; exact Ehi).
  rewrite (wrap_small 32 (_ - axlo _ _ _)) by lia. unfold axcols.
  destruct (Z.eqb_spec (axhi t1 d l - axlo t0 d l) 0), (Z.ltb_spec (axlo t0 d l) (axhi t1 d l)); try lia.
  assert (0 < 2 ^ e <= 2 ^ 15) by (split; [lia|apply Z.pow_le_mono_r; lia]).
  by destruct (grid_axis (axlo t0 d l) (axhi t1 d l) e) as [-> _]; [lia..|].
Qed.

(** The manager's precinct grid in terms of the two axes. *)
Lemma precinct_grid_cols tb dx dy lx ly we he :
  axis_ok (x0 tb) (x1 tb) dx lx we -> axis_ok (y0 tb) (y1 tb) dy ly he ->
  precinct_grid we he (scaleDownCeil 32 (2 ^ lx) (2 ^ ly) (scaleDownCeil 32 dx dy tb)) =
  (axcols (x0 tb) (x1 tb) dx lx we, axcols (y0 tb) (y1 tb) dy ly he).
Proof.
  intros Hx Hy. rewrite <- (precinct_grid_axis _ _ _ _ _ Hx), <- (precinct_grid_axis _ _ _ _ _ Hy). done.
Qed.

(** C29: The two computations of a resolution's precinct grid agree.  The packet
    manager scales the tile to the component, then to the resolution, and
    counts precincts on adjusted bounds; the iterator scales once by the
    product and divides.  For every tile, subsampling, number of
    decompositions (per axis) and precinct size, the iterator's info is valid
    exactly when the manager's grid is non-empty, and then has its dimensions
    and precinct count. *)
Theorem precinct_grids_agree tb dx dy lx ly we he resno windowed win :
  axis_ok (x0 tb) (x1 tb) dx lx we -> axis_ok (y0 tb) (y1 tb) dy ly he ->
  let rb := scaleDownCeil 32 (2 ^ lx) (2 ^ ly) (scaleDownCeil 32 dx dy tb) in
  let (gw, gh) := precinct_grid we he rb in
  let (b, i) := ResPrecinctInfo_init resno lx ly tb dx dy windowed win (ResPrecinctInfo_new we he) in
  b = (0 <? gw * gh) /\
  (b = true -> width 32 (tileBoundsPrecGrid i) = gw /\ height 32 (tileBoundsPrecGrid i) = gh /\
               numPrecincts_ i = u64 (gw * gh)).
Proof.
  intros Hx Hy rb. unfold rb. rewrite (precinct_grid_cols _ _ _ _ _ _ _ Hx Hy).
  destruct (ResPrecinctInfo_init resno lx ly tb dx dy windowed win _) as [b i] eqn:Ei.
  destruct (init_geometry _ _ _ _ _ _ _ _ _ _ _ _ Hx Hy Ei) as (Hb & _ & Hgeo). rewrite Hb. unfold axcols.
  destruct (Z.ltb_spec (axlo (x0 tb) dx lx) (axhi (x1 tb) dx lx)) as [Lx|];
    [destruct (Z.ltb_spec (axlo (y0 tb) dy ly) (axhi (y1 tb) dy ly)) as [Ly|]|]; cbn [andb].
  - pose proof (axis_cols _ _ _ _ _ Hx Lx). pose proof (axis_cols _ _ _ _ _ Hy Ly).
    split; [symmetry; apply Z.ltb_lt, Z.mul_pos_pos; lia|]. intros _.
    destruct (Hgeo Hb) as [_ _ _ _ _ _ _ _ _ _ -> -> -> _]. done.
  - by rewrite Z.mul_0_r.
  - by rewrite Z.mul_0_l.
Qed.

Lemma precinct_grids_agree_witness :
  let i := snd (ResPrecinctInfo_init 1 3 2 (Rect4 37 12 1001 643) 2 1 false Rect_zero (ResPrecinctInfo_new 4 5)) in
  width 32 (tileBoundsPrecGrid i) = 4 /\ height 32 (tileBoundsPrecGrid i) = 6 /\ numPrecincts_ i = u64 (4 * 6).
Proof.
  pose proof (precinct_grids_agree (Rect4 37 12 1001 643) 2 1 3 2 4 5 1 false Rect_zero) as H.
  assert (axis_ok (x0 (Rect4 37 12 1001 643)) (x1 (Rect4 37 12 1001 643)) 2 3 4) as H2 by (repeat split; simpl; lia).
  assert (axis_ok (y0 (Rect4 37 12 1001 643)) (y1 (Rect4 37 12 1001 643)) 1 2 5) as H3 by (repeat split; simpl; lia).
  exact (proj2 (H H2 H3) eq_refl).
Defined.
