(* ===== verification/PacketOrder.v ===== *)
(** The order in which the iterator hands out packets.

    For each progression order, repeated calls of [next] produce exactly the
    packets of the corresponding loop nest, in its order, and then report the
    end: no packet is missed, repeated or reordered although every call resumes
    in the middle of the nest.  The spatial orders are shown to visit every
    precinct of every resolution exactly once, in raster order. *)
From S2P Require Import Prelude Geometry IncludeTracker Loops PacketIter PacketManager.

Section Order.
Context {X K : Type} `{Skip : PacketSkipper X K}.
Implicit Types s : PacketIter K.

(** Bounds that fit their counters. *)
Definition bounds_ok (b : prog_bounds) : Prop :=
  0 <= comp_s b /\ comp_e b < 2 ^ 16 /\ 0 <= res_s b /\ res_e b < 2 ^ 8 /\
  0 <= lay_s b /\ lay_e b < 2 ^ 16 /\ 0 <= prec_s b /\ 0 <= tx0 b /\ tx1 b < 2 ^ 32 /\
  0 <= ty0 b /\ ty1 b < 2 ^ 32.

(** A single progression whose counters are in range. *)
Definition steady s : Prop :=
  singleProgression_ (env s) = true /\ bounds_ok (prog s) /\
  0 <= compno s /\ 0 <= resno s /\ 0 <= layno s.

Ltac reduce_setters :=
  cbn [env progression prog compno resno precinctIndex layno x y dx dy dxActive dyActive
       incrementInner px0grid_ py0grid_ skippedLeft_ includeTracker skipper
       set_compno set_resno set_precinctIndex set_layno set_x set_y set_dxy set_dxActive set_dyActive
       set_incrementInner set_px0grid set_py0grid set_skippedLeft set_includeTracker set_skipper
       set_prog set_env] in *.

(** Equality of two iterators built with setters, field by field. *)
Ltac by_setters :=
  intros; lazymatch goal with |- @eq (PacketIter _) _ _ => idtac end;
  match goal with s : PacketIter _ |- _ => destruct s end;
  cbv -[active_step wrap Z.add]; reflexivity.

Lemma update_include_single s : singleProgression_ (env s) = true -> update_include s = Some (true, s).
Proof. unfold update_include. by intros ->. Qed.

(** ** Blocks *)

(** A block is a resumable statement with a remaining-sequence function: [fr]
    forgets the variables the block works on, [fresh] holds before it starts
    and again after it has fallen through, and the whole sequence of a fresh
    state is [val] of what the block does not change. *)
Record Block (m : PacketIter K -> ctl (pi_exception X) (PacketIter K)) (fr : PacketIter K -> PacketIter K)
    (ok pre fresh I : PacketIter K -> Prop) (R val : PacketIter K -> list packet_id) : Prop := {
  b_prod : forall s, I s -> pre s ->
    produces current (m s) R I (fun s' => fr s' = fr s /\ incrementInner s' = true)
      (fun s' => fresh s' /\ fr s' = fr s) s;
  b_fresh : forall s, fresh s -> I s /\ R s = val (fr s);
  b_first : forall s, fresh s -> incrementInner s = false;
  b_ok : forall s, I s -> ok s;
}.

(** *** Loops *)

(** A loop over one member variable around a block, and the reset after it. *)
Section Level.
Context (idx : PacketIter K -> Z) (set : Z -> PacketIter K -> PacketIter K).
Context (inc : PacketIter K -> PacketIter K) (nxt : PacketIter K -> Z -> Z).
Context (lo hi : prog_bounds -> Z) (rng : PacketIter K -> list Z) (vok : PacketIter K -> Z -> Prop).
Context (m : PacketIter K -> ctl (pi_exception X) (PacketIter K)) (fr : PacketIter K -> PacketIter K).
Context (ok pre pre' fresh I : PacketIter K -> Prop) (R val : PacketIter K -> list packet_id).

(** How the loop variable relates to the block's frame and to the invariant. *)
Record LevelLaws : Prop := {
  ll_block : Block m fr ok pre fresh I R val;
  ll_idx_set : forall v s, idx (set v s) = v;
  ll_set_set : forall v u s, set v (set u s) = set v s;
  ll_set_idx : forall s, ok s -> set (idx s) (fr s) = fr s;
  ll_set_prog : forall v s, prog (set v s) = prog s;
  ll_fr_idx : forall s, idx (fr s) = idx s;
  ll_fr_set : forall v s, fr (set v s) = set v (fr s);
  ll_fr_prog : forall s, prog (fr s) = prog s;
  ll_fresh_set : forall v s, fresh s -> vok s v -> fresh (set v s);
  ll_start : forall s, ok s -> vok s (lo (prog s));
  ll_next : forall s, ok s -> idx s < hi (prog s) -> vok s (nxt s (idx s));
  ll_inc : forall s, ok s -> idx s < hi (prog s) -> inc s = set (nxt s (idx s)) s;
  ll_nxt : forall s, ok s -> forall i, i < nxt s i;
  ll_nxt_fr : forall s s', set 0 (fr s) = set 0 (fr s') -> nxt s = nxt s';
  ll_nxt_frame : forall s, nxt (set 0 (fr s)) = nxt s;
  ll_rng : forall s, rng (set 0 (fr s)) = range_by (nxt s) (hi (prog s)) (lo (prog s));
  ll_pre : forall s, pre' s -> idx s < hi (prog s) -> pre s;
  ll_pre_fr : forall s s', set 0 (fr s) = set 0 (fr s') -> pre' s -> pre' s';
}.
Hypothesis L : LevelLaws.

Definition level_fr s : PacketIter K := set 0 (fr s).
Definition level_fresh s : Prop := fresh s /\ idx s = lo (prog s).
Definition level_end (f : PacketIter K) : Z := hi (prog f).
Definition level_val (f : PacketIter K) : list packet_id := mjoin ((fun i => val (set i f)) <$> rng f).
Definition level_rest : PacketIter K -> list packet_id :=
  loop_rest idx level_fr nxt level_end R (fun f i => val (set i f)).
Definition level_I : PacketIter K -> Prop := loop_inv idx level_fr level_end I fresh.
Definition level_loop (s : PacketIter K) : ctl (pi_exception X) (PacketIter K) :=
  for_loop (Z.to_nat (hi (prog s) - idx s)) (fun s => idx s <? hi (prog s)) inc m s.

Lemma level_end_fr s : level_end (level_fr s) = hi (prog s).
Proof. unfold level_end, level_fr. by rewrite (ll_set_prog L), (ll_fr_prog L). Qed.

Lemma fresh_ok s : fresh s -> ok s.
Proof. intros H. by apply (b_ok _ _ _ _ _ _ _ _ (ll_block L)), (b_fresh _ _ _ _ _ _ _ _ (ll_block L)). Qed.

Lemma level_ok s : level_I s -> ok s.
Proof.
  intros [H1 H2]. destruct (Z_lt_le_dec (idx s) (level_end (level_fr s))).
  - by apply (b_ok _ _ _ _ _ _ _ _ (ll_block L)), H1.
  - by apply fresh_ok, H2.
Qed.

Lemma level_fresh_body s : fresh s -> idx s < level_end (level_fr s) ->
  I s /\ R s = val (set (idx s) (level_fr s)).
Proof.
  intros Hf _. destruct (b_fresh _ _ _ _ _ _ _ _ (ll_block L) s Hf) as [HI ->]. split; [done|].
  unfold level_fr. by rewrite (ll_set_set L), (ll_set_idx L) by (by apply fresh_ok).
Qed.

(** What one iteration that falls through leaves for the next. *)
Lemma level_step t s' : I t -> pre' t -> idx t < hi (prog t) -> fresh s' -> fr s' = fr t ->
  idx (inc s') = nxt t (idx t) /\ fresh (inc s') /\ level_fr (inc s') = level_fr t /\ pre' (inc s').
Proof.
  intros HI Hp Hlt Hf Hfr.
  assert (idx s' = idx t) as Ei by (by rewrite <- (ll_fr_idx L), Hfr, (ll_fr_idx L)).
  assert (prog s' = prog t) as Ep by (by rewrite <- (ll_fr_prog L), Hfr, (ll_fr_prog L)).
  pose proof (fresh_ok s' Hf) as Hok.
  assert (nxt s' = nxt t) as En by (apply (ll_nxt_fr L); by rewrite Hfr).
  rewrite (ll_inc L) by (rewrite ?Ep, ?Ei; done). rewrite Ei, En.
  assert (vok s' (nxt t (idx t))) as Hv.
  { rewrite <- En, <- Ei. apply (ll_next L); [done|]. by rewrite Ei, Ep. }
  assert (level_fr (set (nxt t (idx t)) s') = level_fr t) as El.
  { unfold level_fr. by rewrite (ll_fr_set L), (ll_set_set L), Hfr. }
  split; [apply (ll_idx_set L)|]. split; [by apply (ll_fresh_set L)|]. split; [done|].
  by apply (ll_pre_fr L t).
Qed.

Lemma level_loop_produces s : level_I s -> pre' s ->
  produces current (level_loop s) level_rest level_I
    (fun s' => level_fr s' = level_fr s /\ incrementInner s' = true)
    (fun s' => fresh s' /\ level_fr s' = level_fr s) s.
Proof.
  intros [HI Hf] Hpre0. set (I' := fun t => I t /\ pre' t). set (fresh' := fun t => fresh t /\ pre' t).
  assert (loop_inv idx level_fr level_end I' fresh' s) as Hinv by (split; intros H; split; auto).
  pose proof (for_loop_produces current idx level_fr nxt level_end
    (fun s => idx s <? hi (prog s)) inc m I' fresh' (fun s' => incrementInner s' = true) R
    (fun f i => val (set i f))) as H.
  specialize (H ltac:(intros t; by rewrite level_end_fr)).
  specialize (H ltac:(intros t [Ht _] i; unfold level_fr; rewrite (ll_nxt_frame L);
                      apply (ll_nxt L), (b_ok _ _ _ _ _ _ _ _ (ll_block L)), Ht)).
  assert (forall t, I' t -> idx t < level_end (level_fr t) ->
    produces current (m t) R I' (fun s' => idx s' = idx t /\ level_fr s' = level_fr t /\ incrementInner s' = true)
      (fun s' => fresh' (inc s') /\ idx (inc s') = nxt (level_fr t) (idx t) /\ level_fr (inc s') = level_fr t) t) as Hbody.
  { intros t [HIt Hpt] Hlt. rewrite level_end_fr in Hlt.
    pose proof (b_prod _ _ _ _ _ _ _ _ (ll_block L) t HIt (ll_pre L t Hpt Hlt)) as Hb.
    destruct (m t) as [s'| |[] s'| |]; try done; cbn [produces] in *.
    - destruct Hb as (HR & Hfs & Hfr). split; [done|]. unfold level_fr at 1. rewrite (ll_nxt_frame L).
      destruct (level_step t s' HIt Hpt Hlt Hfs Hfr) as (? & ? & ? & ?). by repeat split.
    - destruct Hb as (HI' & [Hfr Hin] & HR). split.
      + split; [done|]. apply (ll_pre_fr L t); [|done]. by rewrite Hfr.
      + split; [|done]. split; [by rewrite <- (ll_fr_idx L), Hfr, (ll_fr_idx L)|]. unfold level_fr. by rewrite Hfr. }
  assert (forall t, fresh' t -> idx t < level_end (level_fr t) -> I' t /\ R t = val (set (idx t) (level_fr t))) as Hfr'.
  { intros t [Hft Hpt] Hlt. destruct (level_fresh_body t Hft Hlt). by split. }
  specialize (H Hbody Hfr' (Z.to_nat (hi (prog s) - idx s)) s Hinv).
  rewrite level_end_fr in H. specialize (H ltac:(done)). fold (level_loop s) in H.
  destruct (level_loop s) as [s'| |[] s'| |] eqn:E; try done; cbn [produces] in *.
  - destruct H as (HR & [Hfs _] & Hfe & _). auto.
  - destruct H as ([H1 H2] & Hk & HR). split; [|done].
    split; intros H; [by apply H1|by apply H2].
Qed.

Lemma level_rest_fresh s : level_fresh s -> level_I s /\ level_rest s = level_val (level_fr s).
Proof.
  intros [Hf Hlo]. split.
  - apply fresh_inv with (R := R) (G := fun f i => val (set i f)); [apply level_fresh_body|done].
  - unfold level_rest. rewrite loop_rest_fresh with (I := I) (fresh := fresh); [|apply level_fresh_body|done|].
    + unfold level_val. rewrite level_end_fr, Hlo. unfold level_fr. by rewrite (ll_rng L), (ll_nxt_frame L).
    + unfold level_fr. rewrite (ll_nxt_frame L). by apply (ll_nxt L), fresh_ok.
Qed.

(** The loop followed by the reset of its variable. *)
Definition level_block (s : PacketIter K) : ctl (pi_exception X) (PacketIter K) :=
  level_loop s >>> fun s => Next (set (lo (prog s)) s).

Lemma level_is_block : Block level_block level_fr ok pre' level_fresh level_I level_rest level_val.
Proof.
  split.
  - intros s HI Hp. eapply produces_seq; [by apply level_loop_produces|done|].
    intros s' [Hf Hfe]. eexists. split; [done|].
    split; [split|].
    + apply (ll_fresh_set L); [done|]. apply (ll_start L). by apply fresh_ok.
    + by rewrite (ll_idx_set L), (ll_set_prog L).
    + unfold level_fr in *. by rewrite (ll_fr_set L), (ll_set_set L).
  - apply level_rest_fresh.
  - intros s [Hf _]. by apply (b_first _ _ _ _ _ _ _ _ (ll_block L)).
  - apply level_ok.
Qed.

(** Another body that agrees with the block's on the states the loop reaches. *)
Lemma level_loop_ext m2 s : (forall t, I t -> pre t -> m2 t = m t) -> level_I s -> pre' s ->
  for_loop (Z.to_nat (hi (prog s) - idx s)) (fun s => idx s <? hi (prog s)) inc m2 s = level_loop s.
Proof.
  intros Hm HI Hp. unfold level_loop. apply for_loop_ext with (P := fun t => level_I t /\ pre' t); [..|done].
  - intros t [[HIt _] Hpt] Hlt%Z.ltb_lt. apply Hm; [|by apply (ll_pre L)]. apply HIt. by rewrite level_end_fr.
  - intros t t' [[HIt _] Hpt] Hlt%Z.ltb_lt Ht. specialize (HIt ltac:(by rewrite level_end_fr)).
    pose proof (b_prod _ _ _ _ _ _ _ _ (ll_block L) t HIt (ll_pre L t Hpt Hlt)) as Hb.
    rewrite Ht in Hb. cbn [produces] in Hb. destruct Hb as (_ & Hfs & Hfr).
    destruct (level_step t t' HIt Hpt Hlt Hfs Hfr) as (_ & Hf & _ & Hp'). split; [|done].
    apply fresh_inv with (R := R) (G := fun f i => val (set i f)); [apply level_fresh_body|done].
Qed.

(** An iterator whose [next] is this loop is drained to the loop's sequence. *)
Lemma level_drain (next' : PacketIter K -> option (result (pi_exception X) (bool * PacketIter K))) s :
  level_fresh s -> pre' s ->
  (forall t, level_fr t = level_fr s -> level_I t -> pre' t -> next' t = finish (level_loop t)) ->
  drain next' current (S (length (level_val (level_fr s)))) s = Some (level_val (level_fr s)).
Proof.
  intros Hf Hp Hn. destruct (level_rest_fresh s Hf) as [HI HR]. rewrite <- HR.
  apply drain_produces with (I := fun t => level_I t /\ level_fr t = level_fr s) (m := level_loop).
  - intros t [HIt Ht]. apply Hn; [done|done|]. by apply (ll_pre_fr L s t (eq_sym Ht)).
  - intros t [HIt Ht].
    pose proof (level_loop_produces t HIt (ll_pre_fr L s t (eq_sym Ht) Hp)) as H.
    destruct (level_loop t) as [s'| |[] s'| |]; try done; cbn [produces] in *.
    + by destruct H as (? & _).
    + destruct H as (? & [Hfr _] & ?). split; [split; [done|congruence]|done].
  - done.
Qed.
End Level.

(** *** Counters *)

Definition nonneg (_ : PacketIter K) (v : Z) : Prop := 0 <= v.

(** The increment of a [w]-bit counter, and the range of a counting loop. *)
Definition count_inc (idx : PacketIter K -> Z) (set : Z -> PacketIter K -> PacketIter K) (w : Z) s : PacketIter K :=
  set (wrap w (idx s + 1)) s.
Definition count_nxt (_ : PacketIter K) (i : Z) : Z := i + 1.
Definition count_rng (lo hi : prog_bounds -> Z) s : list Z := seqZ (lo (prog s)) (hi (prog s) - lo (prog s)).

Abbreviation cblock idx set w lo hi m := (level_block idx set (count_inc idx set w) lo hi m).
Abbreviation cloop idx set w hi m := (level_loop idx (count_inc idx set w) hi m).
Abbreviation crest idx set hi fr R val := (level_rest idx set count_nxt hi fr R val).
Abbreviation cval set lo hi val := (level_val set (count_rng lo hi) val).
Abbreviation claws idx set w lo hi m fr ok pre pre' fresh I R val :=
  (LevelLaws idx set (count_inc idx set w) count_nxt lo hi (count_rng lo hi) nonneg m fr ok pre pre' fresh I R val).

(** *** Guarded blocks *)

(** [if(!g) continue;] before a block, where a state in the middle of the block
    always passes the test. *)
Lemma guard_is_block m fr ok pre fresh I R val (g : PacketIter K -> bool) :
  Block m fr ok pre fresh I R val ->
  (forall s, I s -> pre s -> incrementInner s = true -> g s = true) ->
  (forall s, fresh s -> pre s -> g s = false -> val (fr s) = []) ->
  Block (fun s => if negb (g s) then Next s else m s) fr ok pre fresh
    (fun s => I s /\ (incrementInner s = false -> fresh s)) R val.
Proof.
  intros [Hprod Hfresh Hfirst Hok] Hmid Hskip. split.
  - intros s [HI Hf] Hp. destruct (g s) eqn:Eg; cbn [negb].
    + pose proof (Hprod s HI Hp) as H. destruct (m s) as [s'| |[] s'| |]; try done; cbn [produces] in *.
      destruct H as (? & [? Hi] & ?). rewrite Hi. done.
    + destruct (incrementInner s) eqn:Ei; [by rewrite (Hmid s HI Hp Ei) in Eg|].
      specialize (Hf eq_refl). cbn [produces]. split; [|done].
      destruct (Hfresh s Hf) as [_ ->]. by apply Hskip.
  - intros s Hf. destruct (Hfresh s Hf). auto.
  - done.
  - intros s [HI _]. auto.
Qed.

(** A condition on what a block does not change is an invariant of it. *)
Lemma block_with m fr ok pre pre' fresh I R val (Q : PacketIter K -> Prop) :
  Block m fr ok pre fresh I R val -> (forall s, pre' s -> pre s) ->
  (forall s s', fr s = fr s' -> Q s -> Q s') ->
  Block m fr (fun s => ok s /\ Q s) pre' (fun s => fresh s /\ Q s) (fun s => I s /\ Q s) R val.
Proof.
  intros [Hprod Hfresh Hfirst Hok] Hpre HQ. split.
  - intros s [HI Hq] Hp. pose proof (Hprod s HI (Hpre s Hp)) as H.
    destruct (m s) as [s'| |[] s'| |]; try done; cbn [produces] in *.
    + destruct H as (? & ? & Hf). eauto 10.
    + destruct H as (? & [Hf ?] & ?). eauto 10.
  - intros s [Hf ?]. destruct (Hfresh s Hf). auto.
  - intros s [? _]. auto.
  - intros s [? ?]. auto.
Qed.

(** The state an iteration is resumed in is inside the range of its loop. *)
Lemma level_mid idx set hi fr fresh I s :
  level_I idx set hi fr fresh I s -> (forall t, fresh t -> incrementInner t = false) ->
  incrementInner s = true -> I s /\ idx s < hi (prog (set 0 (fr s))).
Proof.
  intros [H1 H2] Hf Hi. destruct (Z_lt_le_dec (idx s) (hi (prog (set 0 (fr s))))) as [Hlt|Hge].
  - split; [by apply H1|done].
  - rewrite (Hf s (H2 Hge)) in Hi. done.
Qed.

(** ** The precinct-last orders *)

(** The number of precincts of component [c] at resolution [r]. *)
Definition num_precincts (e : Env) (c r : Z) : Z :=
  let res := res_at (comp_at e c) r in u64 (precinctGridWidth res * precinctGridHeight res).

(** The packets of one component at layer [l] and resolution [r], from precinct [p]. *)
Definition comp_packets (e : Env) (l r p c : Z) : list packet_id :=
  if numresolutions (comp_at e c) <=? r then []
  else (fun k => (l, r, c, k)) <$> seqZ p (num_precincts e c r - p).

Definition prec_rest s : list packet_id :=
  comp_packets (env s) (layno s) (resno s)
    (if incrementInner s then precinctIndex s + 1 else precinctIndex s) (compno s).
Definition prec_val s : list packet_id :=
  comp_packets (env s) (layno s) (resno s) (prec_s (prog s)) (compno s).

Definition prec_inv s : Prop :=
  steady s /\
  if incrementInner s then
    resno s < numresolutions (comp_at (env s) (compno s)) /\
    0 <= precinctIndex s < num_precincts (env s) (compno s) (resno s)
  else precinctIndex s = prec_s (prog s).

Definition prec_fresh s : Prop :=
  steady s /\ incrementInner s = false /\ precinctIndex s = prec_s (prog s).

Definition prec_fr s : PacketIter K := set_precinctIndex 0 (set_incrementInner false s).
Definition always (_ : PacketIter K) : Prop := True.

Lemma seqZ_step p n : p < n -> seqZ p (n - p) = p :: seqZ (p + 1) (n - (p + 1)).
Proof. intros. rewrite seqZ_cons by lia. by replace (Z.pred (n - p)) with (n - (p + 1)) by lia. Qed.

Lemma visit_precincts_block :
  Block visit_precincts prec_fr steady always prec_fresh prec_inv prec_rest prec_val.
Proof.
  split; [|by intros s (Hst & Hi & Hp); unfold prec_inv, prec_rest, prec_val; rewrite Hi, Hp
          |by intros s (_ & ? & _)|by intros s [? _]].
  intros s [Hst Hinv] _. pose proof Hst as (H1 & Hb & Hc0 & Hr0 & Hl0).
  pose proof Hb as (_ & Hce & _ & _ & _ & _ & Hp0 & _).
  unfold visit_precincts, visit_precincts_upto.
  fold (num_precincts (env s) (compno s) (resno s)). set (n := num_precincts _ _ _).
  assert (0 <= n < 2 ^ 64) as Hn by (by apply wrap_range).
  destruct (Z.leb_spec (numresolutions (comp_at (env s) (compno s))) (resno s)) as [Hres|Hres].
  { destruct (incrementInner s) eqn:Ei; [lia|]. cbn [produces].
    unfold prec_rest, comp_packets. rewrite (proj2 (Z.leb_le _ _)) by done. done. }
  set (p := if incrementInner s then precinctIndex s + 1 else precinctIndex s).
  assert (0 <= p /\ p <= n \/ p = prec_s (prog s)) as Hp by (unfold p; destruct (incrementInner s); lia).
  set (s1 := if incrementInner s then set_precinctIndex (u64 (precinctIndex s + 1)) s else s).
  assert (s1 = set_precinctIndex p s) as ->.
  { unfold s1, p. destruct (incrementInner s) eqn:Ei; [by rewrite wrap_small by lia|by destruct s]. }
  reduce_setters. destruct (Z.ltb_spec p n) as [Hlt|Hge];
    rewrite ?update_include_single by done; cbn [produces];
    unfold prec_rest, comp_packets; fold p; reduce_setters;
    rewrite (proj2 (Z.leb_gt _ _)) by done; fold n.
  - split; [split; [done|reduce_setters; fold n; lia]|]. split; [done|]. by rewrite seqZ_step.
  - split; [by rewrite seqZ_nil by lia|]. done.
Qed.

Let fr_c := level_fr set_compno prec_fr.
Let fresh_c := level_fresh compno comp_s prec_fresh.
Let I_c := level_I compno set_compno comp_e prec_fr prec_fresh prec_inv.
Let R_c := crest compno set_compno comp_e prec_fr prec_rest prec_val.
Let val_c := cval set_compno comp_s comp_e prec_val.
Let comps_m := cblock compno set_compno 16 comp_s comp_e visit_precincts.

(** Side conditions of [level_is_block] for a plain counter. *)
Ltac level_side :=
  unfold nonneg; first
  [ done
  | by intros []
  | intros; unfold count_nxt; lia
  | intros; symmetry; apply range_by_succ
  | intros ? ? Hs ?; unfold fresh_c, level_fresh, prec_fresh, steady in *; reduce_setters; intuition lia
  | intros ? (? & Hb & ? & ? & ?); unfold bounds_ok in Hb; intuition lia
  | intros ? (? & Hb & ? & ? & ?) ?; unfold count_nxt; lia
  | intros ? (? & Hb & ? & ? & ?) ?; unfold bounds_ok in Hb; unfold count_inc, count_nxt;
    rewrite wrap_small; [done|intuition lia] ].

Lemma comps_laws : claws compno set_compno 16 comp_s comp_e visit_precincts prec_fr steady always always
  prec_fresh prec_inv prec_rest prec_val.
Proof. split; [exact visit_precincts_block|level_side..]. Qed.
Lemma comps_block : Block comps_m fr_c steady always fresh_c I_c R_c val_c.
Proof. exact (level_is_block _ _ _ _ _ _ _ _ _ _ _ _ _ _ _ _ _ comps_laws). Qed.

(** LRCP: resolutions, then layers. *)
Let fr_r := level_fr set_resno fr_c.
Let fresh_r := level_fresh resno res_s fresh_c.
Let I_r := level_I resno set_resno res_e fr_c fresh_c I_c.
Let R_r := crest resno set_resno res_e fr_c R_c val_c.
Let val_r := cval set_resno res_s res_e val_c.
Let ress_m := cblock resno set_resno 8 res_s res_e comps_m.

Ltac level_side' := first [level_side | unfold fresh_r; level_side].

Lemma lrcp_res_laws : claws resno set_resno 8 res_s res_e comps_m fr_c steady always always fresh_c I_c R_c val_c.
Proof. split; [exact comps_block|level_side..]. Qed.
Lemma lrcp_lay_laws : claws layno set_layno 16 lay_s lay_e ress_m fr_r steady always always fresh_r I_r R_r val_r.
Proof. split; [exact (level_is_block _ _ _ _ _ _ _ _ _ _ _ _ _ _ _ _ _ lrcp_res_laws)|level_side'..]. Qed.

(** RLCP: layers, then resolutions. *)
Let fr_l := level_fr set_layno fr_c.
Let fresh_l := level_fresh layno lay_s fresh_c.
Let I_l := level_I layno set_layno lay_e fr_c fresh_c I_c.
Let R_l := crest layno set_layno lay_e fr_c R_c val_c.
Let val_l := cval set_layno lay_s lay_e val_c.
Let lays_m := cblock layno set_layno 16 lay_s lay_e comps_m.

Ltac level_side'' := first [level_side | unfold fresh_l; level_side].

Lemma rlcp_lay_laws : claws layno set_layno 16 lay_s lay_e comps_m fr_c steady always always fresh_c I_c R_c val_c.
Proof. split; [exact comps_block|level_side..]. Qed.
Lemma rlcp_lay_block : Block lays_m fr_l steady always fresh_l I_l R_l val_l.
Proof. exact (level_is_block _ _ _ _ _ _ _ _ _ _ _ _ _ _ _ _ _ rlcp_lay_laws). Qed.
Lemma rlcp_res_laws : claws resno set_resno 8 res_s res_e lays_m fr_l steady always always fresh_l I_l R_l val_l.
Proof. split; [exact rlcp_lay_block|level_side''..]. Qed.

(** The packets of a loop over [lo, hi). *)
Definition over (lo hi : Z) (f : Z -> list packet_id) : list packet_id := mjoin (f <$> seqZ lo (hi - lo)).

(** The packets of a tile in LRCP and in RLCP order. *)
Definition lrcp_packets (e : Env) (b : prog_bounds) : list packet_id :=
  over (lay_s b) (lay_e b) (fun l => over (res_s b) (res_e b) (fun r =>
    over (comp_s b) (comp_e b) (fun c => comp_packets e l r (prec_s b) c))).
Definition rlcp_packets (e : Env) (b : prog_bounds) : list packet_id :=
  over (res_s b) (res_e b) (fun r => over (lay_s b) (lay_e b) (fun l =>
    over (comp_s b) (comp_e b) (fun c => comp_packets e l r (prec_s b) c))).

(** An iterator at the start of its progression. *)
Definition at_start s : Prop :=
  steady s /\ incrementInner s = false /\ precinctIndex s = prec_s (prog s) /\
  compno s = comp_s (prog s) /\ resno s = res_s (prog s) /\ layno s = lay_s (prog s).

Lemma lrcp_drain s cp : at_start s -> precinctInfoOPT_ (env s) = None -> progression s = GRK_LRCP ->
  drain (next cp) current (S (length (lrcp_packets (env s) (prog s)))) s = Some (lrcp_packets (env s) (prog s)).
Proof.
  intros (Hst & Hi & Hp & Hc & Hr & Hl) Hopt Hprog.
  apply (level_drain _ _ _ _ _ _ _ _ _ _ _ _ _ _ _ _ _ lrcp_lay_laws); [done|done|].
  intros t Ht _ _. unfold next, next_step.
  assert (env t = env s) as -> by (exact (f_equal env Ht)).
  assert (progression t = progression s) as -> by (exact (f_equal progression Ht)).
  by rewrite Hopt, Hprog.
Qed.

Lemma rlcp_drain s cp : at_start s -> precinctInfoOPT_ (env s) = None -> progression s = GRK_RLCP ->
  drain (next cp) current (S (length (rlcp_packets (env s) (prog s)))) s = Some (rlcp_packets (env s) (prog s)).
Proof.
  intros (Hst & Hi & Hp & Hc & Hr & Hl) Hopt Hprog.
  apply (level_drain _ _ _ _ _ _ _ _ _ _ _ _ _ _ _ _ _ rlcp_res_laws); [done|done|].
  intros t Ht _ _. unfold next, next_step.
  assert (env t = env s) as -> by (exact (f_equal env Ht)).
  assert (progression t = progression s) as -> by (exact (f_equal progression Ht)).
  by rewrite Hopt, Hprog.
Qed.

(** ** The optimised precinct-last orders *)

Section Opt.
Variable infos : list ResPrecinctInfo.

(** The cached info of each resolution describes every component. *)
Definition opt_ok (e : Env) (b : prog_bounds) : Prop :=
  forall r c, 0 <= r < res_e b -> 0 <= c < comp_e b ->
    let i := info_at infos r in
    let res := res_at (comp_at e 0) r in
    if valid_ i && (r <? numresolutions (comp_at e 0)) &&
       ((0 <? precinctGridWidth res) && (0 <? precinctGridHeight res))
    then r < numresolutions (comp_at e c) /\ num_precincts e c r = numPrecincts_ i
    else numresolutions (comp_at e c) <= r \/ num_precincts e c r = 0.

Definition opt_steady s : Prop := steady s /\ opt_ok (env s) (prog s) /\ resno s < res_e (prog s).

Lemma precInfoCheck_eq i s : precInfoCheck i s =
  valid_ i && (resno s <? numresolutions (comp_at (env s) 0)) &&
  ((0 <? precinctGridWidth (res_at (comp_at (env s) 0) (resno s))) &&
   (0 <? precinctGridHeight (res_at (comp_at (env s) 0) (resno s)))).
Proof.
  unfold precInfoCheck. destruct (valid_ i); cbn [negb andb]; [|done].
  destruct (Z.leb_spec (numresolutions (comp_at (env s) 0)) (resno s)) as [H|H].
  - by rewrite (proj2 (Z.ltb_ge (resno s) _)) by done.
  - by rewrite (proj2 (Z.ltb_lt (resno s) _)) by done.
Qed.

(** At a resolution that passes the check, the two innermost blocks agree. *)
Lemma visit_opt_eq s : steady s -> opt_ok (env s) (prog s) -> resno s < res_e (prog s) ->
  compno s < comp_e (prog s) -> precInfoCheck (info_at infos (resno s)) s = true ->
  visit_precincts_opt (X:=X) (numPrecincts_ (info_at infos (resno s))) s = visit_precincts s.
Proof.
  intros (H1 & _ & Hc & Hr & _) Hok Hre Hce Hchk.
  pose proof (Hok (resno s) (compno s) (conj Hr Hre) (conj Hc Hce)) as H.
  cbv zeta in H. rewrite precInfoCheck_eq in Hchk. rewrite Hchk in H. destruct H as [Hn Hnum].
  unfold visit_precincts, visit_precincts_opt, visit_precincts_upto.
  rewrite (proj2 (Z.leb_gt _ _)) by done. fold (num_precincts (env s) (compno s) (resno s)). rewrite Hnum.
  destruct (incrementInner s) eqn:Ei; reduce_setters; destruct (_ <? _); try done;
    rewrite update_include_single by done; done.
Qed.

(** [continue] on a resolution without precincts, else all its components. *)
Definition opt_comps s : ctl (pi_exception X) (PacketIter K) :=
  if negb (precInfoCheck (info_at infos (resno s)) s) then Next s else comps_m s.

Lemma visit_precincts_keeps s s' : visit_precincts (X:=X) s = Next s' \/ visit_precincts (X:=X) s = Brk s' ->
  singleProgression_ (env s) = true ->
  env s' = env s /\ prog s' = prog s /\ resno s' = resno s /\ layno s' = layno s /\ compno s' = compno s.
Proof.
  unfold visit_precincts, visit_precincts_upto. intros H Hs. revert H.
  destruct (_ <=? _); [by intros [[= <-]|]|].
  destruct (incrementInner s); reduce_setters;
    (destruct (_ <? _); [rewrite update_include_single by done; by intros [|]|by intros [[= <-]|]]).
Qed.

Lemma opt_comps_eq s : steady s -> opt_ok (env s) (prog s) -> resno s < res_e (prog s) ->
  (if negb (precInfoCheck (info_at infos (resno s)) s) then Next s
   else for_compno (visit_precincts_opt (X:=X) (numPrecincts_ (info_at infos (resno s)))) s >>> reset_compno)
  = opt_comps s.
Proof.
  intros Hst Hok Hre. unfold opt_comps. destruct (precInfoCheck _ s) eqn:Hchk; [|done]. cbn [negb].
  change (comps_m s) with (for_compno (visit_precincts (X:=X)) s >>> reset_compno). f_equal.
  unfold for_compno. apply for_loop_ext with (P := fun t =>
    steady t /\ env t = env s /\ prog t = prog s /\ resno t = resno s).
  - intros t (Hst' & E1 & E2 & E3) Hc%Z.ltb_lt. rewrite <- E3.
    apply visit_opt_eq; rewrite ?E1, ?E2, ?E3; try done; [by rewrite <- E2|].
    rewrite precInfoCheck_eq in *. by rewrite E1, E3.
  - intros t t' (Hst' & E1 & E2 & E3) _ Ht. pose proof Hst' as (? & Hb & ? & ? & ?).
    destruct (visit_precincts_keeps t t' (or_introl Ht)) as (F1 & F2 & F3 & F4 & F5); [done|].
    split; [|reduce_setters; split; [congruence|split; congruence]]. unfold steady. reduce_setters. rewrite F1, F2, F3, F4, F5.
    split; [done|]. split; [done|]. split; [|done]. by apply wrap_range.
  - done.
Qed.

Let res_pre s : Prop := resno s < res_e (prog s).
Let Qopt s : Prop := opt_ok (env s) (prog s).
Let opt_fresh s : Prop := fresh_c s /\ Qopt s.
Let opt_I s : Prop := I_c s /\ Qopt s.
Let opt_ok' s : Prop := steady s /\ Qopt s.

Lemma opt_nonempty s : opt_I s -> res_pre s -> incrementInner s = true ->
  precInfoCheck (info_at infos (resno s)) s = true.
Proof.
  intros [HI HQ] Hr Hi.
  destruct (level_mid _ _ _ _ _ _ s HI ltac:(intros t (_ & ? & _); done) Hi) as [[Hst Hp] Hc].
  change (compno s < comp_e (prog s)) in Hc. rewrite Hi in Hp. destruct Hst as (_ & _ & Hc0 & Hr0 & _).
  rewrite precInfoCheck_eq. pose proof (HQ (resno s) (compno s) (conj Hr0 Hr) (conj Hc0 Hc)) as H.
  cbv zeta in H. destruct (_ && _ && _); [done|lia].
Qed.

Lemma opt_empty s : opt_fresh s -> res_pre s -> precInfoCheck (info_at infos (resno s)) s = false ->
  val_c (fr_c s) = [].
Proof.
  intros [[(Hst & Hi & Hp) Hc] HQ] Hr Hchk. rewrite precInfoCheck_eq in Hchk.
  destruct Hst as (_ & Hb & Hc0 & Hr0 & _). destruct Hb as (Hcs & _ & _ & _ & _ & _ & Hps & _).
  unfold val_c, level_val, count_rng. change (prog (fr_c s)) with (prog s).
  apply mjoin_fmap_nil. intros c Hin%elem_of_seqZ.
  pose proof (HQ (resno s) c (conj Hr0 Hr) ltac:(lia)) as H. cbv zeta in H. rewrite Hchk in H.
  unfold prec_val, comp_packets. change (env (set_compno c (fr_c s))) with (env s).
  change (resno (set_compno c (fr_c s))) with (resno s).
  change (compno (set_compno c (fr_c s))) with c. change (prog (set_compno c (fr_c s))) with (prog s).
  destruct (Z.leb_spec (numresolutions (comp_at (env s) c)) (resno s)); [done|].
  rewrite seqZ_nil by lia. done.
Qed.

Lemma opt_comps_block :
  Block opt_comps fr_c opt_ok' res_pre opt_fresh
    (fun s => opt_I s /\ (incrementInner s = false -> opt_fresh s)) R_c val_c.
Proof.
  unfold opt_comps. apply (guard_is_block comps_m fr_c opt_ok' res_pre opt_fresh opt_I R_c val_c
    (fun s => precInfoCheck (info_at infos (resno s)) s)).
  - apply block_with with (pre := always); [exact comps_block|done|].
    intros s s' Hf. unfold Qopt. by rewrite (f_equal env Hf : env s = env s'), (f_equal prog Hf : prog s = prog s').
  - exact opt_nonempty.
  - exact opt_empty.
Qed.

Ltac opt_side :=
  unfold nonneg; first
  [ done
  | by intros []
  | intros; unfold count_nxt; lia
  | intros; symmetry; apply range_by_succ
  | intros ? ? Hs ?; unfold opt_fresh, Qopt, fresh_c, level_fresh, prec_fresh, steady in *; reduce_setters; intuition lia
  | intros ? [(? & Hb & ? & ? & ?) ?]; unfold bounds_ok in Hb; intuition lia
  | intros ? [(? & Hb & ? & ? & ?) ?] ?; unfold count_nxt; lia
  | intros ? [(? & Hb & ? & ? & ?) ?] ?; unfold bounds_ok in Hb; unfold count_inc, count_nxt;
    rewrite wrap_small; [done|intuition lia] ].

Let optr_I s : Prop := opt_I s /\ (incrementInner s = false -> opt_fresh s).

Lemma opt_res_laws : claws resno set_resno 8 res_s res_e opt_comps fr_c opt_ok' res_pre always opt_fresh optr_I R_c val_c.
Proof. split; [exact opt_comps_block|opt_side..]. Qed.

Lemma opt_lay_laws :
  claws layno set_layno 16 lay_s lay_e (cblock resno set_resno 8 res_s res_e opt_comps) fr_r opt_ok' always always
    (level_fresh resno res_s opt_fresh) (level_I resno set_resno res_e fr_c opt_fresh optr_I) R_r val_r.
Proof. split; [exact (level_is_block _ _ _ _ _ _ _ _ _ _ _ _ _ _ _ _ _ opt_res_laws)|opt_side..]. Qed.

Lemma lrcp_opt_drain s cp : at_start s -> precinctInfoOPT_ (env s) = Some infos -> progression s = GRK_LRCP ->
  opt_ok (env s) (prog s) ->
  drain (next cp) current (S (length (lrcp_packets (env s) (prog s)))) s = Some (lrcp_packets (env s) (prog s)).
Proof.
  intros (Hst & Hi & Hp & Hc & Hr & Hl) Hopt Hprog Hok.
  apply (level_drain _ _ _ _ _ _ _ _ _ _ _ _ _ _ _ _ _ opt_lay_laws); [done|done|].
  intros t Ht HI _. unfold next, next_step.
  assert (env t = env s) as -> by (exact (f_equal env Ht)).
  assert (progression t = progression s) as -> by (exact (f_equal progression Ht)).
  rewrite Hopt, Hprog. f_equal. apply (level_loop_ext _ _ _ _ _ _ _ _ _ _ _ _ _ _ _ _ _ opt_lay_laws); [|done|done].
  intros u HIu _. unfold level_block. f_equal. apply (level_loop_ext _ _ _ _ _ _ _ _ _ _ _ _ _ _ _ _ _ opt_res_laws); [|done|done].
  intros v [[HIv HQv] _] Hv. apply opt_comps_eq; [|done|done].
  exact (b_ok _ _ _ _ _ _ _ _ comps_block v HIv).
Qed.

(** RLCP: the resolution is tested before the loop over layers. *)
Let optl_fresh s : Prop := fresh_l s /\ Qopt s.
Let optl_I s : Prop := I_l s /\ Qopt s.

Definition opt_lays s : ctl (pi_exception X) (PacketIter K) :=
  if negb (precInfoCheck (info_at infos (resno s)) s) then Next s else lays_m s.

Lemma opt_lays_block :
  Block opt_lays fr_l opt_ok' res_pre optl_fresh
    (fun s => optl_I s /\ (incrementInner s = false -> optl_fresh s)) R_l val_l.
Proof.
  unfold opt_lays. apply (guard_is_block lays_m fr_l opt_ok' res_pre optl_fresh optl_I R_l val_l
    (fun s => precInfoCheck (info_at infos (resno s)) s)).
  - apply block_with with (pre := always); [exact rlcp_lay_block|done|].
    intros s s' Hf. unfold Qopt. by rewrite (f_equal env Hf : env s = env s'), (f_equal prog Hf : prog s = prog s').
  - intros s [HI HQ] Hr Hi. apply opt_nonempty; [|done|done]. split; [|done].
    by destruct (level_mid _ _ _ _ _ _ s HI ltac:(intros t [(_ & ? & _) _]; done) Hi) as [? _].
  - intros s [[Hf Hl] HQ] Hr Hchk. unfold val_l, level_val. apply mjoin_fmap_nil. intros l Hin%elem_of_seqZ.
    destruct Hf as [(Hst & Hi & Hp) Hc].
    assert (0 <= l) by (destruct Hst as (_ & (_ & _ & _ & _ & ? & _) & _); change (prog (fr_l s)) with (prog s) in Hin; lia).
    apply (opt_empty (set_layno l s)); [|done|done].
    split; [|done]. split; [|done]. split; [|done]. unfold steady in *. reduce_setters. intuition lia.
Qed.

Lemma opt_rlcp_laws : claws resno set_resno 8 res_s res_e opt_lays fr_l opt_ok' res_pre always optl_fresh
  (fun s => optl_I s /\ (incrementInner s = false -> optl_fresh s)) R_l val_l.
Proof. split; [exact opt_lays_block|first [opt_side|unfold optl_fresh, fresh_l; opt_side]..]. Qed.

(** The layer loop of [next_rlcpOPT], whose body has its precinct count fixed outside. *)
Lemma opt_lays_eq s : I_l s -> Qopt s -> res_pre s ->
  (if negb (precInfoCheck (info_at infos (resno s)) s) then Next s
   else for_layno (fun t => for_compno (visit_precincts_opt (X:=X) (numPrecincts_ (info_at infos (resno s)))) t
                            >>> reset_compno) s >>> reset_layno)
  = opt_lays s.
Proof.
  intros HI HQ Hr. unfold opt_lays. destruct (precInfoCheck _ s) eqn:Hchk; [|done]. cbn [negb].
  unfold lays_m, level_block. f_equal.
  set (P (t : PacketIter K) := resno t = resno s /\ env t = env s /\ prog t = prog s).
  assert (claws layno set_layno 16 lay_s lay_e comps_m fr_c (fun t => steady t /\ P t) always always
            (fun t => fresh_c t /\ P t) (fun t => I_c t /\ P t) R_c val_c) as HL.
  { split; try level_side.
    - apply block_with with (pre := always); [exact comps_block|done|]. intros t t' Hf. unfold P.
      by rewrite (f_equal env Hf : env t = env t'), (f_equal prog Hf : prog t = prog t'),
        (f_equal resno Hf : resno t = resno t').
    - intros t [? _]. by apply (ll_start _ _ _ _ _ _ _ _ _ _ _ _ _ _ _ _ _ rlcp_lay_laws).
    - intros t [? _]. by apply (ll_next _ _ _ _ _ _ _ _ _ _ _ _ _ _ _ _ _ rlcp_lay_laws).
    - intros t [? _]. by apply (ll_inc _ _ _ _ _ _ _ _ _ _ _ _ _ _ _ _ _ rlcp_lay_laws). }
  apply (level_loop_ext _ _ _ _ _ _ _ _ _ _ _ _ _ _ _ _ _ HL); [|destruct HI as [H1 H2]; split; intros H; (split; [by auto|done])|done].
  intros u [HIu (E1 & E2 & E3)] _.
  pose proof (b_ok _ _ _ _ _ _ _ _ comps_block u HIu) as Hst.
  assert (Qopt u) as HQu by (unfold Qopt; by rewrite E2, E3).
  pose proof (opt_comps_eq u Hst HQu ltac:(by rewrite E1, E3)) as H. unfold opt_comps in H.
  rewrite precInfoCheck_eq in H, Hchk. rewrite E1, E2, Hchk in H. exact H.
Qed.

Lemma rlcp_opt_drain s cp : at_start s -> precinctInfoOPT_ (env s) = Some infos -> progression s = GRK_RLCP ->
  opt_ok (env s) (prog s) ->
  drain (next cp) current (S (length (rlcp_packets (env s) (prog s)))) s = Some (rlcp_packets (env s) (prog s)).
Proof.
  intros (Hst & Hi & Hp & Hc & Hr & Hl) Hopt Hprog Hok.
  apply (level_drain _ _ _ _ _ _ _ _ _ _ _ _ _ _ _ _ _ opt_rlcp_laws); [done|done|].
  intros t Ht HI _. unfold next, next_step.
  assert (env t = env s) as -> by (exact (f_equal env Ht)).
  assert (progression t = progression s) as -> by (exact (f_equal progression Ht)).
  rewrite Hopt, Hprog. f_equal. apply (level_loop_ext _ _ _ _ _ _ _ _ _ _ _ _ _ _ _ _ _ opt_rlcp_laws); [|done|done].
  intros u [[HIu HQu] _] Hu. by apply opt_lays_eq.
Qed.
End Opt.

(** ** Precinct lookup *)

(** What [validatePrecinct] finds for a component, resolution and position: the
    grid coordinates of the precinct whose top left corner is there. *)
Definition locate_info (e : Env) (i : ResPrecinctInfo) (px py : Z) : option (Z * Z) :=
  if negb ((py mod precHeightPRJ i =? 0) || ((py =? y0 (tileBounds e)) && negb (resOffsetY0PRJ i =? 0))) then None
  else if negb ((px mod precWidthPRJ i =? 0) || ((px =? x0 (tileBounds e)) && negb (resOffsetX0PRJ i =? 0))) then None
  else Some (u32 (floordivpow2 (ceildiv px (dxPRJ i)) (precWidthExp i) - resInPrecGridX0 i),
             u32 (floordivpow2 (ceildiv py (dyPRJ i)) (precHeightExp i) - resInPrecGridY0 i)).

Definition locate (e : Env) (c r px py : Z) : option Z :=
  let comp := comp_at e c in
  if numresolutions comp <=? r then None
  else
    let res := res_at comp r in
    if (precinctGridWidth res =? 0) || (precinctGridHeight res =? 0) then None
    else
      let info :=
        match precinctInfoOPT_ e with
        | Some infos => let i := info_at infos r in if valid_ i then Some i else None
        | None =>
            if compression_ e
            then match init_info e comp res r with (true, i) => Some i | (false, _) => None end
            else precinctInfo res
        end in
      i ← info;
      g ← locate_info e i px py;
      Some (u64 (g.1 + u64 (g.2 * precinctGridWidth res))).

(** The variables [validatePrecinct] writes. *)
Definition set_grid (px py : Z) s : PacketIter K := set_px0grid px (set_py0grid py s).

Lemma genPrecinctGrid_locate i s :
  match locate_info (env s) i (x s) (y s) with
  | Some (gx, gy) => genPrecinctGrid i s = (true, set_grid gx gy s)
  | None => exists gy, genPrecinctGrid i s = (false, set_py0grid gy s)
  end.
Proof.
  unfold locate_info, genPrecinctGrid, genPrecinctY0Grid, genPrecinctX0Grid.
  destruct (negb ((y s mod _ =? 0) || _)).
  { exists (py0grid_ s). f_equal. by destruct s. }
  reduce_setters. destruct (negb ((x s mod _ =? 0) || _)); [by eexists|done].
Qed.

Lemma validatePrecinct_locate s :
  match locate (env s) (compno s) (resno s) (x s) (y s) with
  | Some k => exists gx gy, validatePrecinct s = (true, set_grid gx gy s) /\
      k = u64 (gx + u64 (gy * precinctGridWidth (res_at (comp_at (env s) (compno s)) (resno s))))
  | None => exists gy, validatePrecinct s = (false, set_py0grid gy s)
  end.
Proof.
  assert (exists gy, (false, s) = (false, set_py0grid gy s)) as Hsame.
  { exists (py0grid_ s). f_equal. by destruct s. }
  assert (forall i, match locate_info (env s) i (x s) (y s) with
    | Some g => exists gx gy, genPrecinctGrid i s = (true, set_grid gx gy s) /\
        u64 (g.1 + u64 (g.2 * precinctGridWidth (res_at (comp_at (env s) (compno s)) (resno s)))) =
        u64 (gx + u64 (gy * precinctGridWidth (res_at (comp_at (env s) (compno s)) (resno s))))
    | None => exists gy, genPrecinctGrid i s = (false, set_py0grid gy s)
    end) as Hg.
  { intros i. pose proof (genPrecinctGrid_locate i s) as H. destruct (locate_info _ _ _ _) as [[gx gy]|]; eauto. }
  unfold locate, validatePrecinct. destruct (_ <=? _); [done|]. destruct (_ || _); [done|].
  destruct (precinctInfoOPT_ (env s)) as [infos|].
  - destruct (valid_ (info_at infos (resno s))); cbn [negb]; [|done].
    cbn [mbind option_bind]. specialize (Hg (info_at infos (resno s))). by destruct (locate_info _ _ _ _).
  - destruct (compression_ (env s)).
    + destruct (init_info _ _ _ _) as [[] i]; [|done]. cbn [mbind option_bind]. specialize (Hg i).
      by destruct (locate_info _ _ _ _).
    + destruct (precinctInfo _) as [i|]; [|done]. cbn [mbind option_bind]. specialize (Hg i).
      by destruct (locate_info _ _ _ _).
Qed.

(** ** The layer-last orders *)

(** A single progression with step sizes and aligned active steps. *)
Definition roving s : Prop :=
  steady s /\ 0 < dx s < 2 ^ 32 /\ 0 < dy s < 2 ^ 32 /\ 0 <= x s /\ 0 <= y s /\
  dxActive s = active_step (dx s) (x s) /\ dyActive s = active_step (dy s) (y s).

(** The layers of the precinct found at the iterator's position, from layer [l]. *)
Definition prec_layers (e : Env) (b : prog_bounds) (l c r px py : Z) : list packet_id :=
  match locate e c r px py with
  | Some k => (fun l => (l, r, c, k)) <$> seqZ l (lay_e b - l)
  | None => []
  end.
Definition lay_rest s : list packet_id :=
  prec_layers (env s) (prog s) (if incrementInner s then layno s + 1 else layno s) (compno s) (resno s) (x s) (y s).
Definition lay_val s : list packet_id :=
  prec_layers (env s) (prog s) (lay_s (prog s)) (compno s) (resno s) (x s) (y s).

Definition lay_fr s : PacketIter K :=
  set_layno 0 (set_incrementInner false (set_precinctIndex 0 (set_grid 0 0 s))).
Definition lay_fresh s : Prop := roving s /\ incrementInner s = false /\ layno s = lay_s (prog s).
Definition lay_inv s : Prop :=
  roving s /\
  if incrementInner s then
    is_Some (locate (env s) (compno s) (resno s) (x s) (y s)) /\ layno s < lay_e (prog s)
  else layno s = lay_s (prog s).

Lemma visit_precinct_block :
  Block visit_precinct lay_fr roving always lay_fresh lay_inv lay_rest lay_val.
Proof.
  split; [|by intros s (Hst & Hi & Hp); unfold lay_inv, lay_rest, lay_val; rewrite Hi, Hp
          |by intros s (_ & ? & _)|by intros s [? _]].
  intros s [Hrov Hinv] _. pose proof Hrov as (Hst & Hrest). pose proof Hst as (H1 & Hb & Hc0 & Hr0 & Hl0).
  pose proof Hb as (_ & _ & _ & _ & Hls & Hle & _).
  unfold visit_precinct. pose proof (validatePrecinct_locate s) as Hv.
  destruct (locate (env s) (compno s) (resno s) (x s) (y s)) as [k|] eqn:El.
  - destruct Hv as (gx & gy & -> & Ek). unfold visit_layers.
    set (l := if incrementInner s then layno s + 1 else layno s).
    assert (0 <= l) as Hl by (unfold l; destruct (incrementInner s); lia).
    set (s1 := if incrementInner (set_grid gx gy s) then _ else _).
    assert (s1 = set_layno l (set_grid gx gy s)) as ->.
    { unfold s1, l. change (incrementInner (set_grid gx gy s)) with (incrementInner s).
      destruct (incrementInner s) eqn:Ei; [|by destruct s].
      change (layno (set_grid gx gy s)) with (layno s). by rewrite wrap_small by lia. }
    change (layno (set_layno l _)) with l. change (prog (set_layno l _)) with (prog s).
    destruct (Z.ltb_spec l (lay_e (prog s))) as [Hlt|Hge].
    + rewrite update_include_single by done. cbn [produces].
      unfold lay_rest, prec_layers, generatePrecinctIndex, set_grid, lay_inv, roving, steady, lay_fr, current.
      reduce_setters. rewrite El. fold l. rewrite <- Ek, (seqZ_step l) by done. csimpl.
      split; [split; [|split; [by eexists|done]]; intuition lia|]. done.
    + cbn [produces]. unfold lay_rest, prec_layers. rewrite El. fold l. rewrite seqZ_nil by lia.
      split; [done|]. unfold lay_fresh, roving, steady, lay_fr, set_grid. reduce_setters. intuition lia.
  - destruct Hv as (gy & ->). cbn [produces]. unfold lay_rest, prec_layers. rewrite El. split; [done|].
    destruct (incrementInner s) eqn:Ei; [by destruct Hinv as [[? ?] _]|].
    unfold lay_fresh, roving, steady, lay_fr, set_grid. reduce_setters. rewrite Ei. intuition lia.
Qed.

(** *** Positions *)

Definition next_position (d i : Z) : Z := i + (d - i mod d).
(** The positions a spatial loop visits: its start, then the multiples of the step. *)
Definition positions (d lo hi : Z) : list Z := range_by (next_position d) hi lo.

Lemma next_position_gt d i : 0 < d -> i < next_position d i.
Proof. intros. unfold next_position. pose proof (Z.mod_pos_bound i d). lia. Qed.

Lemma active_step_eq d p : 0 < d < 2 ^ 32 -> active_step d p = d - p mod d.
Proof. intros Hd. unfold active_step. pose proof (Z.mod_pos_bound p d). apply wrap_small. lia. Qed.

Lemma next_position_mod d i : 0 < d -> next_position d i mod d = 0.
Proof.
  intros Hd. unfold next_position. apply Z.mod_divide; [lia|].
  exists (i / d + 1). pose proof (Z.div_mod i d). lia.
Qed.

Lemma active_step_next d i : 0 < d < 2 ^ 32 -> active_step d (next_position d i) = d.
Proof. intros Hd. rewrite active_step_eq, next_position_mod by lia. lia. Qed.

Definition put_x (v : Z) s : PacketIter K := set_dxActive (active_step (dx s) v) (set_x v s).
Definition put_y (v : Z) s : PacketIter K := set_dyActive (active_step (dy s) v) (set_y v s).
Definition x_inc s : PacketIter K := set_dxActive (dx s) (set_x (u64 (x s + dxActive s)) s).
Definition y_inc s : PacketIter K := set_dyActive (dy s) (set_y (u64 (y s + dyActive s)) s).

Lemma x_inc_put s : roving s -> x s < tx1 (prog s) -> x_inc s = put_x (next_position (dx s) (x s)) s.
Proof.
  intros (Hst & Hdx & _ & Hx & _ & Ha & _) Hlt. destruct Hst as (_ & Hb & _).
  destruct Hb as (_ & _ & _ & _ & _ & _ & _ & _ & Htx & _).
  unfold x_inc, put_x. rewrite active_step_next by done. rewrite Ha, active_step_eq by done.
  pose proof (Z.mod_pos_bound (x s) (dx s)). rewrite wrap_small by lia. done.
Qed.
Lemma y_inc_put s : roving s -> y s < ty1 (prog s) -> y_inc s = put_y (next_position (dy s) (y s)) s.
Proof.
  intros (Hst & _ & Hdy & _ & Hy & _ & Ha) Hlt. destruct Hst as (_ & Hb & _).
  destruct Hb as (_ & _ & _ & _ & _ & _ & _ & _ & _ & _ & Hty).
  unfold y_inc, put_y. rewrite active_step_next by done. rewrite Ha, active_step_eq by done.
  pose proof (Z.mod_pos_bound (y s) (dy s)). rewrite wrap_small by lia. done.
Qed.

Abbreviation xblock m := (level_block x put_x x_inc tx0 tx1 m).
Abbreviation yblock m := (level_block y put_y y_inc ty0 ty1 m).
Definition x_nxt s := next_position (dx s).
Definition y_nxt s := next_position (dy s).
Definition x_rng s := positions (dx s) (tx0 (prog s)) (tx1 (prog s)).
Definition y_rng s := positions (dy s) (ty0 (prog s)) (ty1 (prog s)).
Abbreviation xlaws m fr ok pre pre' fresh I R val :=
  (LevelLaws x put_x x_inc x_nxt tx0 tx1 x_rng nonneg m fr ok pre pre' fresh I R val).
Abbreviation ylaws m fr ok pre pre' fresh I R val :=
  (LevelLaws y put_y y_inc y_nxt ty0 ty1 y_rng nonneg m fr ok pre pre' fresh I R val).

(** The same for iterators whose active steps are those of their position. *)
Ltac by_active t Hax Hay :=
  lazymatch goal with |- @eq (PacketIter _) _ _ => idtac end;
  destruct t; cbn [dx dy x y dxActive dyActive] in Hax, Hay; subst;
  cbv -[active_step wrap Z.add]; reflexivity.

(** Side conditions of the loops of the layer-last orders. *)
Ltac rove_side :=
  unfold nonneg; first
  [ by_setters
  | intros t (_ & _ & _ & _ & _ & Hax & Hay); by_active t Hax Hay
  | done
  | by intros []
  | intros; unfold count_nxt; lia
  | intros; symmetry; apply range_by_succ
  | intros ? ? Hs ?; unfold level_fresh, lay_fresh, roving, steady, put_x, put_y in *; reduce_setters; intuition lia
  | intros ? ((? & Hb & ? & ? & ?) & ?); unfold bounds_ok in Hb; intuition lia
  | intros ? ((? & Hb & ? & ? & ?) & ?) ?; unfold bounds_ok in Hb; unfold count_inc, count_nxt;
    rewrite wrap_small; [done|intuition lia]
  | intros ? ((? & Hb & ? & ? & ?) & ?) ?; unfold count_nxt; lia
  | intros t (_ & ? & ? & ? & ? & _) ?; unfold x_nxt, y_nxt;
    pose proof (next_position_gt (dx t) (x t)); pose proof (next_position_gt (dy t) (y t)); lia
  | by intros; apply x_inc_put
  | by intros; apply y_inc_put
  | intros ? (_ & ? & ? & _) ?; by apply next_position_gt; lia
  | intros t t' Hf; unfold x_nxt; by rewrite (f_equal dx Hf : dx t = dx t')
  | intros t t' Hf; unfold y_nxt; by rewrite (f_equal dy Hf : dy t = dy t') ].

(** A block with another body that agrees with it wherever it runs. *)
Lemma block_ext m m' fr ok pre fresh I R val : Block m fr ok pre fresh I R val ->
  (forall s, I s -> pre s -> m' s = m s) -> Block m' fr ok pre fresh I R val.
Proof. intros [H1 H2 H3 H4] Hm. split; [|done..]. intros s HI Hp. rewrite Hm by done. auto. Qed.

(** All components, and all resolutions, at one position. *)
Let vc_fr := level_fr set_compno lay_fr.
Let vc_fresh := level_fresh compno comp_s lay_fresh.
Let vc_I := level_I compno set_compno comp_e lay_fr lay_fresh lay_inv.
Let vc_R := crest compno set_compno comp_e lay_fr lay_rest lay_val.
Let vc_val := cval set_compno comp_s comp_e lay_val.
Let vc_m := cblock compno set_compno 16 comp_s comp_e visit_precinct.

Lemma vc_laws : claws compno set_compno 16 comp_s comp_e visit_precinct lay_fr roving always always
  lay_fresh lay_inv lay_rest lay_val.
Proof. split; [exact visit_precinct_block|rove_side..]. Qed.
Lemma vc_block : Block vc_m vc_fr roving always vc_fresh vc_I vc_R vc_val.
Proof. exact (level_is_block _ _ _ _ _ _ _ _ _ _ _ _ _ _ _ _ _ vc_laws). Qed.

Let vr_fr := level_fr set_resno lay_fr.
Let vr_fresh := level_fresh resno res_s lay_fresh.
Let vr_I := level_I resno set_resno res_e lay_fr lay_fresh lay_inv.
Let vr_R := crest resno set_resno res_e lay_fr lay_rest lay_val.
Let vr_val := cval set_resno res_s res_e lay_val.
Let vr_m := cblock resno set_resno 8 res_s res_e visit_precinct.

Lemma vr_laws : claws resno set_resno 8 res_s res_e visit_precinct lay_fr roving always always
  lay_fresh lay_inv lay_rest lay_val.
Proof. split; [exact visit_precinct_block|rove_side..]. Qed.
Lemma vr_block : Block vr_m vr_fr roving always vr_fresh vr_I vr_R vr_val.
Proof. exact (level_is_block _ _ _ _ _ _ _ _ _ _ _ _ _ _ _ _ _ vr_laws). Qed.

Ltac rove_side' := unfold vc_fresh, vr_fresh; rove_side.

(** *** PRCL *)
Let rc_fr := level_fr set_resno vc_fr.
Let rc_fresh := level_fresh resno res_s vc_fresh.
Let rc_I := level_I resno set_resno res_e vc_fr vc_fresh vc_I.
Let rc_R := crest resno set_resno res_e vc_fr vc_R vc_val.
Let rc_val := cval set_resno res_s res_e vc_val.
Let rc_m := cblock resno set_resno 8 res_s res_e vc_m.

Lemma rc_laws : claws resno set_resno 8 res_s res_e vc_m vc_fr roving always always vc_fresh vc_I vc_R vc_val.
Proof. split; [exact vc_block|rove_side'..]. Qed.

Let prcl_x_fr := level_fr put_x rc_fr.
Let prcl_x_fresh := level_fresh x tx0 rc_fresh.
Let prcl_x_I := level_I x put_x tx1 rc_fr rc_fresh rc_I.
Let prcl_x_R := level_rest x put_x x_nxt tx1 rc_fr rc_R rc_val.
Let prcl_x_val := level_val put_x x_rng rc_val.

Lemma prcl_x_laws : xlaws rc_m rc_fr roving always always rc_fresh rc_I rc_R rc_val.
Proof. split; [exact (level_is_block _ _ _ _ _ _ _ _ _ _ _ _ _ _ _ _ _ rc_laws)|unfold rc_fresh; rove_side'..]. Qed.
Lemma prcl_y_laws : ylaws (xblock rc_m) prcl_x_fr roving always always prcl_x_fresh prcl_x_I prcl_x_R prcl_x_val.
Proof. split; [exact (level_is_block _ _ _ _ _ _ _ _ _ _ _ _ _ _ _ _ _ prcl_x_laws)|unfold prcl_x_fresh, rc_fresh; rove_side'..]. Qed.

Definition over_at (l : list Z) (f : Z -> list packet_id) : list packet_id := mjoin (f <$> l).

(** The packets of a tile in the layer-last orders, for step sizes [sx] and [sy]. *)
Definition prcl_packets (e : Env) (b : prog_bounds) (sx sy : Z) : list packet_id :=
  over_at (positions sy (ty0 b) (ty1 b)) (fun py => over_at (positions sx (tx0 b) (tx1 b)) (fun px =>
    over (res_s b) (res_e b) (fun r => over (comp_s b) (comp_e b) (fun c =>
      prec_layers e b (lay_s b) c r px py)))).
Definition pcrl_packets (e : Env) (b : prog_bounds) (sx sy : Z) : list packet_id :=
  over_at (positions sy (ty0 b) (ty1 b)) (fun py => over_at (positions sx (tx0 b) (tx1 b)) (fun px =>
    over (comp_s b) (comp_e b) (fun c => over (res_s b) (res_e b) (fun r =>
      prec_layers e b (lay_s b) c r px py)))).
Definition rpcl_packets (e : Env) (b : prog_bounds) (sx sy : Z) : list packet_id :=
  over (res_s b) (res_e b) (fun r => over_at (positions sy (ty0 b) (ty1 b)) (fun py =>
    over_at (positions sx (tx0 b) (tx1 b)) (fun px => over (comp_s b) (comp_e b) (fun c =>
      prec_layers e b (lay_s b) c r px py)))).

(** A spatial iterator at the start of its progression. *)
Definition at_origin s : Prop :=
  roving s /\ incrementInner s = false /\ layno s = lay_s (prog s) /\ compno s = comp_s (prog s) /\
  resno s = res_s (prog s) /\ x s = tx0 (prog s) /\ y s = ty0 (prog s).

Lemma roving_steps s : roving s -> (dx s =? 0) || (dy s =? 0) = false.
Proof. intros (_ & ? & ? & _). rewrite !(proj2 (Z.eqb_neq _ _)) by lia. done. Qed.

Lemma prcl_drain s cp : at_origin s -> precinctInfoOPT_ (env s) = None -> progression s = GRK_PRCL ->
  let l := prcl_packets (env s) (prog s) (dx s) (dy s) in drain (next cp) current (S (length l)) s = Some l.
Proof.
  intros (Hst & Hi & Hl & Hc & Hr & Hx & Hy) Hopt Hprog.
  apply (level_drain _ _ _ _ _ _ _ _ _ _ _ _ _ _ _ _ _ prcl_y_laws); [done|done|].
  intros t Ht HI _. unfold next, next_step.
  assert (env t = env s) as -> by (exact (f_equal env Ht)).
  assert (progression t = progression s) as -> by (exact (f_equal progression Ht)).
  rewrite Hopt, Hprog, roving_steps by exact (level_ok _ _ _ _ _ _ _ _ _ _ _ _ _ _ _ _ _ prcl_y_laws t HI). done.
Qed.

(** *** PCRL *)

(** The decompression window reaches the end of the progression's area. *)
Definition window_covers (e : Env) (b : prog_bounds) : Prop :=
  tx1 b <= x1 (unreducedTileWindow e) /\ ty1 b <= y1 (unreducedTileWindow e).
Let Qwin s : Prop := window_covers (env s) (prog s).
Let in_area s : Prop := y s < ty1 (prog s) /\ x s < tx1 (prog s).

Let cr_fr := level_fr set_compno vr_fr.
Let cr_fresh s := level_fresh compno comp_s vr_fresh s /\ Qwin s.
Let cr_I s := level_I compno set_compno comp_e vr_fr vr_fresh vr_I s /\ Qwin s.
Let cr_R := crest compno set_compno comp_e vr_fr vr_R vr_val.
Let cr_val := cval set_compno comp_s comp_e vr_val.
Let cr_m := cblock compno set_compno 16 comp_s comp_e vr_m.
Let cr_ok s := roving s /\ Qwin s.

Lemma cr_laws : claws compno set_compno 16 comp_s comp_e vr_m vr_fr roving always always vr_fresh vr_I vr_R vr_val.
Proof. split; [exact vr_block|rove_side'..]. Qed.

(** The body of the loop over [x], with its window test. *)
Let pcrl_m s : ctl (pi_exception X) (PacketIter K) :=
  let win := unreducedTileWindow (env s) in
  if singleProgression_ (env s) && (negb (empty win) && past_window win s) then Return false s else cr_m s.

Lemma cr_block : Block pcrl_m cr_fr cr_ok in_area cr_fresh cr_I cr_R cr_val.
Proof.
  apply block_ext with (m := cr_m).
  - apply block_with with (pre := always); [exact (level_is_block _ _ _ _ _ _ _ _ _ _ _ _ _ _ _ _ _ cr_laws)|done|].
    intros s s' Hf. unfold Qwin. by rewrite (f_equal env Hf : env s = env s'), (f_equal prog Hf : prog s = prog s').
  - intros s [_ [Hwx Hwy]] [Hy Hx]. unfold pcrl_m, past_window.
    rewrite (proj2 (Z.leb_gt (y1 _) _)), (proj2 (Z.leb_gt (x1 _) _)) by lia.
    by rewrite !andb_false_r.
Qed.

Ltac pcrl_side :=
  unfold nonneg; first
  [ by_setters
  | intros t [(_ & _ & _ & _ & _ & Hax & Hay) _]; by_active t Hax Hay
  | rove_side'
  | intros ? ? [Hs ?] ?; split; [|done]; unfold vr_fresh, level_fresh, lay_fresh, roving, steady, put_x, put_y in *;
    reduce_setters; intuition lia
  | intros ? ? [[Hs ?] ?] ?; split; [split|]; [|done|done];
    unfold vr_fresh, level_fresh, lay_fresh, roving, steady, put_x, put_y in *; reduce_setters; intuition lia
  | intros ? [((? & Hb & ? & ? & ?) & ?) ?]; unfold bounds_ok in Hb; intuition lia
  | intros t [(_ & ? & ? & ? & ? & _) _] ?; unfold x_nxt, y_nxt;
    pose proof (next_position_gt (dx t) (x t)); pose proof (next_position_gt (dy t) (y t)); lia
  | by intros ? [? _] ?; apply x_inc_put
  | by intros ? [? _] ?; apply y_inc_put
  | intros ? [(_ & ? & ? & _) _] ?; by apply next_position_gt; lia ].

Let row_pre s : Prop := y s < ty1 (prog s).
Lemma pcrl_x_laws : xlaws pcrl_m cr_fr cr_ok in_area row_pre cr_fresh cr_I cr_R cr_val.
Proof.
  split; [exact cr_block|unfold cr_fresh; try pcrl_side..].
  intros t t' Hf. unfold row_pre. by rewrite (f_equal y Hf : y t = y t'), (f_equal prog Hf : prog t = prog t').
Qed.
Lemma pcrl_y_laws : ylaws (xblock pcrl_m) (level_fr put_x cr_fr) cr_ok row_pre always
  (level_fresh x tx0 cr_fresh) (level_I x put_x tx1 cr_fr cr_fresh cr_I)
  (level_rest x put_x x_nxt tx1 cr_fr cr_R cr_val) (level_val put_x x_rng cr_val).
Proof. split; [exact (level_is_block _ _ _ _ _ _ _ _ _ _ _ _ _ _ _ _ _ pcrl_x_laws)|unfold level_fresh, cr_fresh; try pcrl_side..]. Qed.

Lemma pcrl_drain s cp : at_origin s -> precinctInfoOPT_ (env s) = None -> progression s = GRK_PCRL ->
  window_covers (env s) (prog s) ->
  let l := pcrl_packets (env s) (prog s) (dx s) (dy s) in drain (next cp) current (S (length l)) s = Some l.
Proof.
  intros (Hst & Hi & Hl & Hc & Hr & Hx & Hy) Hopt Hprog Hwin.
  apply (level_drain _ _ _ _ _ _ _ _ _ _ _ _ _ _ _ _ _ pcrl_y_laws); [done|done|].
  intros t Ht HI _. unfold next, next_step.
  assert (env t = env s) as -> by (exact (f_equal env Ht)).
  assert (progression t = progression s) as -> by (exact (f_equal progression Ht)).
  rewrite Hopt, Hprog, roving_steps by exact (proj1 (level_ok _ _ _ _ _ _ _ _ _ _ _ _ _ _ _ _ _ pcrl_y_laws t HI)). done.
Qed.

(** *** RPCL *)

(** Precinct grids have unsigned dimensions. *)
Definition grids_unsigned (e : Env) : Prop :=
  forall c r, 0 <= precinctGridWidth (res_at (comp_at e c) r) /\ 0 <= precinctGridHeight (res_at (comp_at e c) r).
Let Qgrid s : Prop := grids_unsigned (env s).

Let rx_fr := level_fr put_x vc_fr.
Let rx_fresh := level_fresh x tx0 vc_fresh.
Let rx_I := level_I x put_x tx1 vc_fr vc_fresh vc_I.
Let rx_R := level_rest x put_x x_nxt tx1 vc_fr vc_R vc_val.
Let rx_val := level_val put_x x_rng vc_val.
Lemma rx_laws : xlaws vc_m vc_fr roving always always vc_fresh vc_I vc_R vc_val.
Proof. split; [exact vc_block|rove_side'..]. Qed.

Let ry_fr := level_fr put_y rx_fr.
Let ry_fresh s := level_fresh y ty0 rx_fresh s /\ Qgrid s.
Let ry_I s := level_I y put_y ty1 rx_fr rx_fresh rx_I s /\ Qgrid s.
Let ry_R := level_rest y put_y y_nxt ty1 rx_fr rx_R rx_val.
Let ry_val := level_val put_y y_rng rx_val.
Let ry_m := yblock (xblock vc_m).
Let ry_ok s := roving s /\ Qgrid s.
Lemma ry_laws : ylaws (xblock vc_m) rx_fr roving always always rx_fresh rx_I rx_R rx_val.
Proof. split; [exact (level_is_block _ _ _ _ _ _ _ _ _ _ _ _ _ _ _ _ _ rx_laws)|unfold rx_fresh; rove_side'..]. Qed.

Lemma locate_sane e c r px py : is_Some (locate e c r px py) ->
  r < numresolutions (comp_at e c) /\ precinctGridWidth (res_at (comp_at e c) r) <> 0 /\
  precinctGridHeight (res_at (comp_at e c) r) <> 0.
Proof.
  unfold locate. intros [k H]. destruct (Z.leb_spec (numresolutions (comp_at e c)) r); [done|].
  destruct (Z.eqb_spec (precinctGridWidth (res_at (comp_at e c) r)) 0); [done|].
  destruct (Z.eqb_spec (precinctGridHeight (res_at (comp_at e c) r)) 0); [done|]. done.
Qed.

Lemma ry_mid s : ry_I s -> incrementInner s = true -> sane s = true.
Proof.
  intros [HI HQ] Hi.
  destruct (level_mid _ _ _ _ _ _ s HI ltac:(intros t [[(_ & ? & _) _] _]; done) Hi) as [HI1 _].
  destruct (level_mid _ _ _ _ _ _ s HI1 ltac:(intros t [(_ & ? & _) _]; done) Hi) as [HI2 _].
  destruct (level_mid _ _ _ _ _ _ s HI2 ltac:(intros t (_ & ? & _); done) Hi) as [[_ HI3] Hc].
  rewrite Hi in HI3. destruct HI3 as [Hloc _]. change (compno s < comp_e (prog s)) in Hc.
  destruct (locate_sane _ _ _ _ _ Hloc) as (Hr & Hw & Hh). destruct (HQ (compno s) (resno s)) as [Hw0 Hh0].
  unfold sane. apply existsb_exists. exists (compno s). split.
  - apply list_elem_of_In, elem_of_seqZ. lia.
  - rewrite (proj2 (Z.leb_gt _ _)) by done. by rewrite !(proj2 (Z.ltb_lt _ _)) by lia.
Qed.

Lemma ry_skip s : ry_fresh s -> sane s = false -> ry_val (ry_fr s) = [].
Proof.
  intros [[[[(Hst & Hi & Hl) Hc] Hx] Hy] HQ] Hs.
  assert (ry_val (ry_fr s) =
    over_at (positions (dy s) (ty0 (prog s)) (ty1 (prog s))) (fun py =>
      over_at (positions (dx s) (tx0 (prog s)) (tx1 (prog s))) (fun px =>
        over (comp_s (prog s)) (comp_e (prog s)) (fun c =>
          prec_layers (env s) (prog s) (lay_s (prog s)) c (resno s) px py)))) as -> by reflexivity.
  apply mjoin_fmap_nil. intros py _. apply mjoin_fmap_nil. intros px _.
  apply mjoin_fmap_nil. intros c Hin%elem_of_seqZ.
  unfold prec_layers. destruct (locate _ _ _ _ _) as [k|] eqn:El; [|done].
  destruct (locate_sane (env s) c (resno s) _ _ ltac:(by eexists)) as (Hr & Hw & Hh).
  destruct (HQ c (resno s)) as [Hw0 Hh0].
  assert (sane s = true) as Ht; [|by rewrite Hs in Ht].
  unfold sane. apply existsb_exists. exists c. split.
  - apply list_elem_of_In, elem_of_seqZ. rewrite Hc. lia.
  - rewrite (proj2 (Z.leb_gt _ _)) by done. by rewrite !(proj2 (Z.ltb_lt _ _)) by lia.
Qed.

Let rpcl_m s : ctl (pi_exception X) (PacketIter K) := if negb (sane s) then Next s else ry_m s.
Let rpcl_I s := ry_I s /\ (incrementInner s = false -> ry_fresh s).
Lemma rpcl_block : Block rpcl_m ry_fr ry_ok always ry_fresh rpcl_I ry_R ry_val.
Proof.
  apply guard_is_block with (g := sane).
  - apply block_with with (pre := always); [exact (level_is_block _ _ _ _ _ _ _ _ _ _ _ _ _ _ _ _ _ ry_laws)|done|].
    intros s s' Hf. unfold Qgrid. by rewrite (f_equal env Hf : env s = env s').
  - intros s HI _. by apply ry_mid.
  - intros s Hf _. by apply ry_skip.
Qed.

Lemma rpcl_laws : claws resno set_resno 8 res_s res_e rpcl_m ry_fr ry_ok always always ry_fresh rpcl_I ry_R ry_val.
Proof.
  split; [exact rpcl_block|try rove_side'..].
  - intros v s [Hs ?] Hv. unfold nonneg in Hv. split; [|done]. unfold rx_fresh, vc_fresh, level_fresh, lay_fresh, roving, steady in *.
    reduce_setters. intuition lia.
  - intros s [((? & Hb & ? & ? & ?) & ?) ?]. unfold bounds_ok, nonneg in *. intuition lia.
  - intros s [((? & Hb & ? & ? & ?) & ?) ?] ?. unfold nonneg, count_nxt. lia.
  - intros s [((? & Hb & ? & ? & ?) & ?) ?] ?. unfold bounds_ok in Hb. unfold count_inc, count_nxt.
    rewrite wrap_small; [done|intuition lia].
Qed.

Lemma rpcl_drain s cp : at_origin s -> precinctInfoOPT_ (env s) = None -> progression s = GRK_RPCL ->
  grids_unsigned (env s) ->
  let l := rpcl_packets (env s) (prog s) (dx s) (dy s) in drain (next cp) current (S (length l)) s = Some l.
Proof.
  intros (Hst & Hi & Hl & Hc & Hr & Hx & Hy) Hopt Hprog Hg.
  apply (level_drain _ _ _ _ _ _ _ _ _ _ _ _ _ _ _ _ _ rpcl_laws); [done|done|].
  intros t Ht HI _. unfold next, next_step.
  assert (env t = env s) as -> by (exact (f_equal env Ht)).
  assert (progression t = progression s) as -> by (exact (f_equal progression Ht)).
  rewrite Hopt, Hprog, roving_steps by exact (proj1 (level_ok _ _ _ _ _ _ _ _ _ _ _ _ _ _ _ _ _ rpcl_laws t HI)). done.
Qed.

(** *** CPRL *)

(** The step sizes in effect while component [c] is iterated: those the iterator
    started with for the first component, those of the component before it for
    the others. *)
Definition steps_for (e : Env) (b : prog_bounds) (first : Z * Z) (c : Z) : Z * Z :=
  if c =? comp_s b then first else comp_steps (comp_at e (c - 1)) (0, 0).

Definition cprl_packets (e : Env) (b : prog_bounds) (first : Z * Z) : list packet_id :=
  over (comp_s b) (comp_e b) (fun c =>
    let st := steps_for e b first c in
    over_at (positions st.2 (ty0 b) (ty1 b)) (fun py => over_at (positions st.1 (tx0 b) (tx1 b)) (fun px =>
      over (res_s b) (res_e b) (fun r => prec_layers e b (lay_s b) c r px py)))).

Section Cprl.
(** The step sizes the iterator starts with. *)
Variable first : Z * Z.

Definition steps_ok (e : Env) (b : prog_bounds) : Prop :=
  forall c, comp_s b <= c <= comp_e b -> let st := steps_for e b first c in 0 < st.1 < 2 ^ 32 /\ 0 < st.2 < 2 ^ 32.

Let cx_fr := level_fr put_x vr_fr.
Let cx_fresh := level_fresh x tx0 vr_fresh.
Let cx_I := level_I x put_x tx1 vr_fr vr_fresh vr_I.
Let cx_R := level_rest x put_x x_nxt tx1 vr_fr vr_R vr_val.
Let cx_val := level_val put_x x_rng vr_val.
Lemma cx_laws : xlaws vr_m vr_fr roving always always vr_fresh vr_I vr_R vr_val.
Proof. split; [exact vr_block|rove_side'..]. Qed.
Lemma cy_laws : ylaws (xblock vr_m) cx_fr roving always always cx_fresh cx_I cx_R cx_val.
Proof. split; [exact (level_is_block _ _ _ _ _ _ _ _ _ _ _ _ _ _ _ _ _ cx_laws)|unfold cx_fresh; rove_side'..]. Qed.

Let Qc s : Prop := steps_ok (env s) (prog s) /\ comp_s (prog s) <= compno s <= comp_e (prog s) /\
  (dx s, dy s) = steps_for (env s) (prog s) first (compno s).
Let cy_fr := level_fr put_y cx_fr.
Let cy_fresh s := level_fresh y ty0 cx_fresh s /\ Qc s.
Let cy_I s := level_I y put_y ty1 cx_fr cx_fresh cx_I s /\ Qc s.
Let cy_R := level_rest y put_y y_nxt ty1 cx_fr cx_R cx_val.
Let cy_val := level_val put_y y_rng cx_val.
Let cy_m := yblock (xblock vr_m).
Let cy_ok s := roving s /\ Qc s.

Lemma cy_block : Block cy_m cy_fr cy_ok always cy_fresh cy_I cy_R cy_val.
Proof.
  apply block_with with (pre := always); [exact (level_is_block _ _ _ _ _ _ _ _ _ _ _ _ _ _ _ _ _ cy_laws)|done|].
  intros s s' Hf. unfold Qc.
  by rewrite (f_equal env Hf : env s = env s'), (f_equal prog Hf : prog s = prog s'),
    (f_equal dx Hf : dx s = dx s'), (f_equal dy Hf : dy s = dy s'), (f_equal compno Hf : compno s = compno s').
Qed.

(** The iterator set to component [v], with the step sizes in effect there. *)
Definition put_c (v : Z) s : PacketIter K :=
  let st := steps_for (env s) (prog s) first v in
  set_dyActive (active_step st.2 (y s)) (set_dxActive (active_step st.1 (x s)) (set_dxy st.1 st.2 (set_compno v s))).

(** The end of the loop body together with the increment. *)
Definition c_post s : PacketIter K :=
  update_dxy_for_comp (comp_at (env s) (compno s)) true (set_dxy 0 0 s).
Definition c_inc s : PacketIter K := set_compno (u16 (compno (c_post s) + 1)) (c_post s).
Definition c_vok s (v : Z) : Prop := comp_s (prog s) <= v <= comp_e (prog s).

Lemma c_post_compno s : compno (c_post s) = compno s.
Proof. unfold c_post, update_dxy_for_comp. by destruct (comp_steps _ _). Qed.

Lemma c_inc_put s : cy_ok s -> compno s < comp_e (prog s) -> c_inc s = put_c (compno s + 1) s.
Proof.
  intros [((_ & Hb & Hc & _) & _) (_ & Hcs & _)] Hlt. destruct Hb as (_ & Hce & _).
  unfold c_inc. rewrite c_post_compno, wrap_small by lia.
  unfold put_c, steps_for. rewrite (proj2 (Z.eqb_neq (compno s + 1) (comp_s (prog s)))) by lia.
  replace (compno s + 1 - 1) with (compno s) by lia. unfold c_post, update_dxy_for_comp. reduce_setters.
  destruct (comp_steps (comp_at (env s) (compno s)) (0, 0)) as [sx sy]. done.
Qed.

Lemma cprl_fresh_put v s : cy_fresh s -> c_vok s v -> cy_fresh (put_c v s).
Proof.
  intros [[[[[(Hst & Hdx & Hdy & Hx0 & Hy0 & Ha & Hb') [Hi Hl]] Hr] Hx] Hy] (Hs & Hcs & Hd)] Hv.
  destruct (Hs v Hv) as [Hsx Hsy].
  assert (0 <= v) by (destruct Hst as (_ & Hb & _); unfold bounds_ok, c_vok in *; lia).
  unfold put_c. destruct (steps_for (env s) (prog s) first v) as [sx sy] eqn:E. cbn [fst snd] in *.
  unfold cy_fresh, cx_fresh, vr_fresh, level_fresh, lay_fresh, Qc, roving, steady in *. reduce_setters.
  rewrite E. unfold c_vok in Hv. intuition lia.
Qed.

Lemma c_laws : LevelLaws compno put_c c_inc count_nxt comp_s comp_e (count_rng comp_s comp_e) c_vok
  cy_m cy_fr cy_ok always always cy_fresh cy_I cy_R cy_val.
Proof.
  split; [exact cy_block|try done..].
  - intros s [(_ & _ & _ & _ & _ & Ha & Hb) (_ & _ & Hd)].
    unfold put_c. cbv zeta. change (env (cy_fr s)) with (env s). change (prog (cy_fr s)) with (prog s).
    rewrite <- Hd. by_setters.
  - intros v s Hf Hv. by apply cprl_fresh_put.
  - intros s [_ (_ & ? & _)]. unfold c_vok. lia.
  - intros s [_ (_ & ? & _)] ?. unfold c_vok, count_nxt. lia.
  - intros. by apply c_inc_put.
  - intros. unfold count_nxt. lia.
  - intros. symmetry. apply range_by_succ.
Qed.

(** The loop body of [next_cprl] is the block followed by the update of the steps. *)
Lemma cprl_body_eq t : cy_I t ->
  (for_y (fun s => for_x (fun s => for_resno visit_precinct s >>> reset_resno) s >>> reset_x) t >>>
   fun s => Next (update_dxy_for_comp (comp_at (env t) (compno t)) true (set_dxy 0 0 (set_y (ty0 (prog s)) s)))) =
  (cy_m t >>> fun s => Next (c_post s)).
Proof.
  intros [HI _].
  assert (cy_m t = (level_loop y y_inc ty1 (xblock vr_m) t >>> fun s => Next (put_y (ty0 (prog s)) s))) as -> by reflexivity.
  pose proof (level_loop_produces _ _ _ _ _ _ _ _ _ _ _ _ _ _ _ _ _ cy_laws t HI ltac:(done)) as H.
  assert (for_y (fun s => for_x (fun s => for_resno visit_precinct s >>> reset_resno) s >>> reset_x) t =
    level_loop y y_inc ty1 (xblock vr_m) t) as -> by reflexivity.
  destruct (level_loop y y_inc ty1 (xblock vr_m) t) as [s'| |[] s'| |]; try done. cbn [produces cseq] in *.
  destruct H as (_ & _ & Hf). f_equal. unfold c_post.
  assert (env t = env (put_y (ty0 (prog s')) s')) as -> by exact (f_equal env (eq_sym Hf)).
  assert (compno t = compno (put_y (ty0 (prog s')) s')) as -> by exact (f_equal compno (eq_sym Hf)).
  unfold update_dxy_for_comp, put_y. reduce_setters. by destruct (comp_steps _ _) as [sx sy].
Qed.

Lemma next_cprl_eq t : level_I compno put_c comp_e cy_fr cy_fresh cy_I t ->
  next_cprl t = level_loop compno c_inc comp_e cy_m t.
Proof.
  intros HI. transitivity (for_loop (Z.to_nat (comp_e (prog t) - compno t)) (fun s => compno s <? comp_e (prog s))
    (fun s => set_compno (u16 (compno s + 1)) s) (fun s => cy_m s >>> fun s => Next (c_post s)) t).
  - unfold next_cprl, for_compno.
    apply for_loop_ext with (P := level_I compno put_c comp_e cy_fr cy_fresh cy_I); [..|done].
    + intros u [HIu _] Hlt%Z.ltb_lt. apply cprl_body_eq. by apply HIu.
    + intros u u' [HIu _] Hlt%Z.ltb_lt Hu. specialize (HIu Hlt).
      pose proof (b_prod _ _ _ _ _ _ _ _ cy_block u HIu I) as Hb.
      destruct (cy_m u) as [w| |[] w| |]; try done. cbn [produces cseq] in *. injection Hu as <-.
      destruct Hb as (_ & Hfs & Hfr).
      destruct (level_step _ _ _ _ _ _ _ _ _ _ _ _ _ _ _ _ _ c_laws u w HIu I Hlt Hfs Hfr) as (_ & Hf & _).
      apply fresh_inv with (R := cy_R) (G := fun f i => cy_val (put_c i f)); [|done].
      apply (level_fresh_body _ _ _ _ _ _ _ _ _ _ _ _ _ _ _ _ _ c_laws).
  - apply (for_loop_shift _ (fun s => set_compno (u16 (compno s + 1)) s) c_post cy_m).
Qed.

Lemma cy_val_eq s : cy_val s =
  over_at (positions (dy s) (ty0 (prog s)) (ty1 (prog s))) (fun py =>
    over_at (positions (dx s) (tx0 (prog s)) (tx1 (prog s))) (fun px =>
      over (res_s (prog s)) (res_e (prog s)) (fun r =>
        prec_layers (env s) (prog s) (lay_s (prog s)) (compno s) r px py))).
Proof. reflexivity. Qed.

Lemma put_c_fr s : exists f, level_fr put_c cy_fr s = f /\ env f = env s /\ prog f = prog s.
Proof. eexists. split; [reflexivity|]. by destruct s. Qed.

Lemma cprl_val s :
  level_val put_c (count_rng comp_s comp_e) cy_val (level_fr put_c cy_fr s) = cprl_packets (env s) (prog s) first.
Proof.
  unfold level_val, cprl_packets, over. destruct (put_c_fr s) as (f & -> & He & Hp).
  unfold count_rng. rewrite Hp. apply mjoin_fmap_ext. intros c _. rewrite cy_val_eq.
  unfold put_c. reduce_setters. by rewrite He, Hp.
Qed.

Lemma cprl_frame t s : level_fr put_c cy_fr t = level_fr put_c cy_fr s ->
  env t = env s /\ progression t = progression s.
Proof.
  intros Ht.
  assert (forall u, env (level_fr put_c cy_fr u) = env u /\ progression (level_fr put_c cy_fr u) = progression u) as H
    by (by intros []).
  destruct (H t) as [<- <-], (H s) as [<- <-]. by rewrite Ht.
Qed.

Lemma cprl_drain s cp : at_origin s -> precinctInfoOPT_ (env s) = None -> progression s = GRK_CPRL ->
  (dx s, dy s) = first -> steps_ok (env s) (prog s) -> comp_s (prog s) <= comp_e (prog s) ->
  let l := cprl_packets (env s) (prog s) first in drain (next cp) current (S (length l)) s = Some l.
Proof.
  intros (Hst & Hi & Hl & Hc & Hr & Hx & Hy) Hopt Hprog Hfirst Hsteps Hce.
  assert (Qc s) as HQ.
  { split; [done|]. rewrite Hc. split; [lia|]. unfold steps_for. by rewrite Z.eqb_refl. }
  pose proof (level_drain _ _ _ _ _ _ _ _ _ _ _ _ _ _ _ _ _ c_laws (next cp) s) as H.
  rewrite cprl_val in H. apply H; [done|done|].
  intros t Ht HI _. unfold next, next_step. destruct (cprl_frame t s Ht) as [-> ->].
  rewrite Hopt, Hprog, roving_steps by exact (proj1 (level_ok _ _ _ _ _ _ _ _ _ _ _ _ _ _ _ _ _ c_laws t HI)).
  by rewrite next_cprl_eq.
Qed.
End Cprl.
End Order.
