(* ===== verification/PacketSequence.v ===== *)
(** The packet sequence of a tile: what the iterators of PacketIter.v hand out
    over a whole progression.

    PacketOrder.v reduces every progression order to nested enumerations over
    layers, resolutions, components and positions.  Here the positions of a
    spatial order are resolved to precincts: along each axis the positions at
    which [validatePrecinct] accepts are the precinct columns in order, so every
    (component, resolution) pair contributes its precincts once, in raster
    order, and every spatial order is a rearrangement of the LRCP sequence. *)
From stdpp Require Import sorting list.
From S2P Require Import Prelude Geometry IncludeTracker Loops PacketIter PacketManager PacketOrder.

(** ** Sorted enumerations *)

Lemma Forall_elem {A} (Q : A -> Prop) (l : list A) : Forall Q l <-> forall a, a ∈ l -> Q a.
Proof. apply list.Forall_forall. Qed.

Lemma sorted_lt_ext (l k : list Z) :
  StronglySorted Z.lt l -> StronglySorted Z.lt k -> (forall v, v ∈ l <-> v ∈ k) -> l = k.
Proof.
  assert (forall m, StronglySorted Z.lt m -> NoDup m) as Hnd.
  { induction 1 as [|a m Hm IH Ha]; constructor; [|done].
    intros Hin. rewrite Forall_elem in Ha. specialize (Ha a Hin). lia. }
  intros Hl Hk Hin. apply (StronglySorted_unique_strong Z.lt).
  - intros x1 x2 _ _ ? ?. lia.
  - done.
  - done.
  - by apply NoDup_Permutation; auto.
Qed.

Lemma seqZ_sorted lo n : StronglySorted Z.lt (seqZ lo n).
Proof.
  destruct (Z_lt_le_dec n 0); [rewrite seqZ_nil by lia; constructor|].
  revert lo. pattern n. apply natlike_ind; [intros; rewrite seqZ_nil by lia; constructor| |done].
  intros m Hm IH lo. rewrite seqZ_cons by lia. constructor.
  - replace (Z.pred (Z.succ m)) with m by lia. apply IH.
  - apply Forall_elem. intros v. rewrite elem_of_seqZ. lia.
Qed.

Lemma positions_sorted d lo hi : 0 < d -> StronglySorted Z.lt (positions d lo hi).
Proof.
  intros Hd. unfold positions. remember (Z.to_nat (hi - lo)) as n eqn:En. revert lo En.
  induction n as [n IH] using lt_wf_ind. intros lo En. pose proof (fun i => next_position_gt d i Hd) as Hn.
  destruct (Z_lt_le_dec lo hi); [|rewrite range_by_ge by done; constructor].
  rewrite range_by_lt by done. specialize (Hn lo) as Hlo. constructor.
  - apply (IH (Z.to_nat (hi - next_position d lo))); lia.
  - apply Forall_elem. intros v Hv%elem_of_range_by; [lia|done].
Qed.

(** The next multiple of [d] after [i]. *)
Lemma next_position_least d i v : 0 < d -> (d | v) -> i < v -> next_position d i <= v.
Proof.
  intros Hd [k ->] Hlt. unfold next_position.
  pose proof (Z.div_mod i d ltac:(lia)). pose proof (Z.mod_pos_bound i d Hd).
  assert (i / d < k) by (apply Z.div_lt_upper_bound; lia). nia.
Qed.

(** The positions visited are the start and the later multiples of the step. *)
Lemma elem_of_positions d lo hi v : 0 < d ->
  v ∈ positions d lo hi <-> lo <= v < hi /\ (v = lo \/ (d | v)).
Proof.
  intros Hd. unfold positions. remember (Z.to_nat (hi - lo)) as n eqn:En. revert lo En.
  induction n as [n IH] using lt_wf_ind. intros lo En. pose proof (fun i => next_position_gt d i Hd) as Hn.
  destruct (Z_lt_le_dec lo hi); [|rewrite range_by_ge by done; set_solver by lia].
  rewrite range_by_lt by done. specialize (Hn lo) as Hlo. rewrite elem_of_cons.
  rewrite (IH (Z.to_nat (hi - next_position d lo))) by lia.
  assert (d | next_position d lo) as Hdiv.
  { apply Z.mod_divide; [lia|]. by apply next_position_mod. }
  split.
  - intros [->|[Hr [->|Hv]]]; [lia|split; [lia|by right]|split; [lia|by right]].
  - intros [Hr [->|Hv]]; [by left|]. destruct (decide (v = lo)); [by left|right].
    pose proof (next_position_least d lo v Hd Hv ltac:(lia)). split; [lia|by right].
Qed.

(** A strictly increasing partial map sends a sorted list to a sorted list. *)
Lemma omap_sorted (f : Z -> option Z) (l : list Z) : StronglySorted Z.lt l ->
  (forall a b u v, a ∈ l -> b ∈ l -> a < b -> f a = Some u -> f b = Some v -> u < v) ->
  StronglySorted Z.lt (omap f l).
Proof.
  induction 1 as [|a l Hl IH Ha]; intros Hmono; [constructor|]. rewrite Forall_elem in Ha.
  assert (StronglySorted Z.lt (omap f l)) as Hs.
  { apply IH. intros b c u v ? ? ?. apply Hmono; [by right|by right|done]. }
  csimpl. destruct (f a) as [u|] eqn:E; [|done]. constructor; [done|].
  apply Forall_elem. intros v (b & Hb & Ev)%list_elem_of_omap.
  apply (Hmono a b); [by left|by right|by apply Ha|done|done].
Qed.

(** ** Precinct columns along one axis *)

Section Columns.
Variables t0 t1 d l e : Z.
Hypothesis Hok : axis_ok t0 t1 d l e.
Abbreviation D := (axD d l).
Abbreviation P := (axP d l e).
Abbreviation lo := (axlo t0 d l).
Abbreviation hi := (axhi t1 d l).
Abbreviation col0 := (axcol0 t0 d l e).
Abbreviation col1 := (axcol1 t1 d l e).

(** The test and the column of [genPrecinctX0Grid] and [genPrecinctY0Grid]. *)
Definition column (v : Z) : option Z :=
  if (v mod P =? 0) || ((v =? t0) && negb (lo mod 2 ^ e =? 0)) then Some (cdiv v D / 2 ^ e - col0) else None.

Lemma column_multiple k : column (k * P) = Some (k - col0).
Proof.
  destruct (axis_pos _ _ _ _ _ Hok) as (? & ? & ? & ?).
  unfold column. rewrite Z.mod_mul by lia. cbn [orb]. f_equal. f_equal.
  unfold axP. replace (k * (D * 2 ^ e)) with (k * 2 ^ e * D) by lia.
  rewrite cdiv_mul by lia. apply Z.div_mul. lia.
Qed.

(** The precinct that contains the first sample of the resolution: its column
    is 0, and it is found at the tile's edge or at the next precinct corner. *)
Lemma col0_spec : col0 * 2 ^ e <= lo < (col0 + 1) * 2 ^ e.
Proof.
  destruct (axis_pos _ _ _ _ _ Hok) as (? & ? & ? & ?). unfold axcol0.
  pose proof (Z.div_mod lo (2 ^ e) ltac:(lia)). pose proof (Z.mod_pos_bound lo (2 ^ e) ltac:(lia)). lia.
Qed.

(** A precinct corner lies in the tile exactly when its column does. *)
Lemma corner_range k : t0 <= k * P < t1 <-> lo <= k * 2 ^ e /\ k < col1.
Proof.
  destruct (axis_pos _ _ _ _ _ Hok) as (? & ? & ? & ?).
  unfold axlo, axcol1, axhi. rewrite cdiv_le by lia. rewrite cdiv_gt by lia. rewrite cdiv_gt by lia.
  unfold axP. replace (k * (D * 2 ^ e)) with (k * 2 ^ e * D) by lia. lia.
Qed.

Hypothesis Hne : lo < hi.

Lemma column_valid v u : t0 <= v < t1 -> column v = Some u ->
  (exists k, v = k * P /\ u = k - col0 /\ 0 <= u < col1 - col0) \/
  (v = t0 /\ lo mod 2 ^ e <> 0 /\ u = 0).
Proof.
  destruct (axis_pos _ _ _ _ _ Hok) as (? & ? & ? & ?). pose proof col0_spec.
  intros Hv Hc. destruct (Z.eqb_spec (v mod P) 0) as [E|N].
  - left. apply Z.mod_divide in E as [k ->]; [|lia]. exists k. rewrite column_multiple in Hc.
    injection Hc as <-. apply corner_range in Hv.
    assert (col0 <= k) by (apply (Zmult_le_reg_r _ _ (2 ^ e)); lia). lia.
  - right. unfold column in Hc. rewrite (proj2 (Z.eqb_neq _ _)) in Hc by done. cbn [orb] in Hc.
    destruct (Z.eqb_spec v t0) as [->|]; [|done]. destruct (Z.eqb_spec (lo mod 2 ^ e) 0); [done|].
    injection Hc as <-. split; [done|]. split; [done|]. unfold axcol0, axlo. apply Z.sub_diag.
Qed.

(** The accepted positions are the precinct columns, in order. *)
Lemma columns_in_order s : 0 < s -> (s | P) -> omap column (positions s t0 t1) = seqZ 0 (col1 - col0).
Proof.
  intros Hs Hdiv. destruct (axis_pos _ _ _ _ _ Hok) as (? & ? & ? & ?). pose proof col0_spec as Hc0.
  destruct (axis_cols _ _ _ _ _ Hok Hne) as [Hcols _].
  apply sorted_lt_ext.
  - apply omap_sorted; [by apply positions_sorted|].
    intros a b u v Ha Hb Hab Hu Hv. apply elem_of_positions in Ha as [Ha _], Hb as [Hb _]; [|done..].
    destruct (column_valid a u Ha Hu) as [(k & -> & -> & ?)|(-> & Hm & ->)];
      destruct (column_valid b v Hb Hv) as [(k' & -> & -> & ?)|(-> & Hm' & ->)]; try nia.
    assert (k' <> col0); [|lia]. intros ->. apply corner_range in Hb as [Hlo _].
    apply Hm. replace lo with (col0 * 2 ^ e) by lia. by rewrite Z.mod_mul by lia.
  - apply seqZ_sorted.
  - intros u. rewrite list_elem_of_omap, elem_of_seqZ. split.
    + intros (v & Hv & Hu). apply elem_of_positions in Hv as [Hv _]; [|done].
      destruct (column_valid v u Hv Hu) as [(k & -> & -> & ?)|(-> & _ & ->)]; lia.
    + intros Hu. destruct (decide (u = 0 /\ lo mod 2 ^ e <> 0)) as [[-> Hm]|Hn].
      * exists t0. destruct Hok as (? & ? & _). rewrite elem_of_positions by done.
        split; [split; [lia|by left]|]. unfold column. rewrite Z.eqb_refl.
        rewrite (proj2 (Z.eqb_neq (lo mod _) _)) by done. rewrite orb_true_r. f_equal. apply Z.sub_diag.
      * exists ((u + col0) * P). rewrite column_multiple, elem_of_positions by done.
        split; [|f_equal; lia]. split.
        -- apply corner_range. split; [|lia]. destruct (decide (u = 0)) as [->|]; [|nia].
           assert (lo mod 2 ^ e = 0) as Hm by (apply dec_stable; naive_solver).
           unfold axcol0. pose proof (Z.div_mod lo (2 ^ e) ltac:(lia)). lia.
        -- right. by apply Z.divide_mul_r.
Qed.
End Columns.

(** ** Precincts of one resolution *)

Definition levels_x (comp : PacketIterInfoComponent) (r : Z) : Z :=
  nthZ 0 (horizontalDepth comp) (u8 (numresolutions comp - 1 - r)).
Definition levels_y (comp : PacketIterInfoComponent) (r : Z) : Z :=
  nthZ 0 (verticalDepth comp) (u8 (numresolutions comp - 1 - r)).

(** What the iterator's tables hold about resolution [r] of component [c]: the
    precinct grid of the packet manager and, when decompressing, the info of
    [genPrecinctInfo]. *)
Record res_ok (e : Env) (c r : Z) : Prop := {
  ro_x : axis_ok (x0 (tileBounds e)) (x1 (tileBounds e)) (comp_dx (comp_at e c)) (levels_x (comp_at e c) r)
           (res_precWidthExp (res_at (comp_at e c) r));
  ro_y : axis_ok (y0 (tileBounds e)) (y1 (tileBounds e)) (comp_dy (comp_at e c)) (levels_y (comp_at e c) r)
           (res_precHeightExp (res_at (comp_at e c) r));
  ro_width : precinctGridWidth (res_at (comp_at e c) r) =
    axcols (x0 (tileBounds e)) (x1 (tileBounds e)) (comp_dx (comp_at e c)) (levels_x (comp_at e c) r)
           (res_precWidthExp (res_at (comp_at e c) r));
  ro_height : precinctGridHeight (res_at (comp_at e c) r) =
    axcols (y0 (tileBounds e)) (y1 (tileBounds e)) (comp_dy (comp_at e c)) (levels_y (comp_at e c) r)
           (res_precHeightExp (res_at (comp_at e c) r));
  ro_opt : precinctInfoOPT_ e = None;
  ro_info : compression_ e = false ->
    precinctGridWidth (res_at (comp_at e c) r) <> 0 -> precinctGridHeight (res_at (comp_at e c) r) <> 0 ->
    precinctInfo (res_at (comp_at e c) r) = Some (snd (init_info e (comp_at e c) (res_at (comp_at e c) r) r));
}.

(** The column and the row found at a position. *)
Definition column_x (e : Env) (c r : Z) : Z -> option Z :=
  column (x0 (tileBounds e)) (comp_dx (comp_at e c)) (levels_x (comp_at e c) r)
    (res_precWidthExp (res_at (comp_at e c) r)).
Definition column_y (e : Env) (c r : Z) : Z -> option Z :=
  column (y0 (tileBounds e)) (comp_dy (comp_at e c)) (levels_y (comp_at e c) r)
    (res_precHeightExp (res_at (comp_at e c) r)).

Lemma axcols_range t0 t1 d l e : axis_ok t0 t1 d l e -> 0 <= axcols t0 t1 d l e < 2 ^ 32.
Proof.
  intros Hok. unfold axcols. destruct (Z.ltb_spec (axlo t0 d l) (axhi t1 d l)); [|lia].
  pose proof (axis_cols _ _ _ _ _ Hok ltac:(done)). lia.
Qed.

Lemma axcols_nonempty t0 t1 d l e : axcols t0 t1 d l e <> 0 -> axlo t0 d l < axhi t1 d l.
Proof. unfold axcols. destruct (Z.ltb_spec (axlo t0 d l) (axhi t1 d l)); [done|lia]. Qed.

(** The machine computation of a column. *)
Lemma column_machine t0 t1 d l e v u : axis_ok t0 t1 d l e -> axlo t0 d l < axhi t1 d l -> t0 <= v < t1 ->
  column t0 d l e v = Some u ->
  u32 (floordivpow2 (ceildiv v (axD d l)) e - axcol0 t0 d l e) = u /\ 0 <= u < axcols t0 t1 d l e.
Proof.
  intros Hok Hne Hv Hu.
  assert (0 <= u < axcols t0 t1 d l e) as Hr.
  { unfold axcols. rewrite (proj2 (Z.ltb_lt _ _)) by done. destruct (axis_cols _ _ _ _ _ Hok Hne).
    destruct (column_valid _ _ _ _ _ Hok v u Hv Hu) as [(k & _ & _ & ?)|(_ & _ & ->)]; lia. }
  split; [|done]. pose proof (axcols_range _ _ _ _ _ Hok). destruct (axis_pos _ _ _ _ _ Hok) as (? & ? & ? & ?).
  destruct Hok as (? & ? & ? & ? & ?).
  unfold column in Hu. destruct (_ || _); [|done]. injection Hu as Hu.
  assert (cdiv v (axD d l) <= v) by (apply cdiv_le; nia).
  pose proof (cdiv_nonneg v (axD d l)).
  rewrite ceildiv_cdiv, floordivpow2_div by lia. rewrite Hu. apply wrap_small. lia.
Qed.

Section Resolution.
Context (e : Env) (c r : Z) (Hres : res_ok e c r).
Let tb := tileBounds e.
Let comp := comp_at e c.
Let res := res_at comp r.

Lemma locate_info_columns i px py : info_geometry tb (comp_dx comp) (comp_dy comp) (levels_x comp r) (levels_y comp r)
    (res_precWidthExp res) (res_precHeightExp res) i ->
  precinctGridWidth res <> 0 -> precinctGridHeight res <> 0 ->
  x0 tb <= px < x1 tb -> y0 tb <= py < y1 tb ->
  locate_info e i px py = gy ← column_y e c r py; gx ← column_x e c r px; Some (gx, gy).
Proof.
  intros [Epw Eph Edx Edy Ewe Ehe Eox Eoy Ec Er _ _ _ _] Hw Hh Hpx Hpy.
  destruct Hres as [Hx Hy Ew Eh _ _]. fold tb comp res in Hx, Hy, Ew, Eh.
  rewrite Ew in Hw. rewrite Eh in Hh. apply axcols_nonempty in Hw, Hh.
  pose proof (fun u => column_machine _ _ _ _ _ px u Hx Hw Hpx) as Mx.
  pose proof (fun u => column_machine _ _ _ _ _ py u Hy Hh Hpy) as My.
  unfold locate_info, column_x, column_y. fold tb comp res.
  rewrite Epw, Eph, Edx, Edy, Ewe, Ehe, Ec, Er.
  assert (forall n m : Z, (n = 0 <-> m = 0) -> (n =? 0) = (m =? 0)) as Hb
    by (intros n m ?; destruct (Z.eqb_spec n 0), (Z.eqb_spec m 0); tauto).
  rewrite (Hb _ _ Eox), (Hb _ _ Eoy).
  destruct (column (y0 tb) _ _ _ py) as [gy|] eqn:Ey.
  - specialize (My gy eq_refl). unfold column in Ey. destruct (_ || _) eqn:Et; [|done].
    cbn [negb mbind option_bind].
    destruct (column (x0 tb) _ _ _ px) as [gx|] eqn:Ex.
    + specialize (Mx gx eq_refl). unfold column in Ex. destruct (_ || _) eqn:Et'; [|done].
      cbn [negb mbind option_bind]. by destruct Mx as [-> _], My as [-> _].
    + unfold column in Ex. by destruct (_ || _).
  - unfold column in Ey. by destruct (_ || _).
Qed.

(** [validatePrecinct] finds the precinct of the position's row and column. *)
Lemma locate_columns px py : r < numresolutions comp ->
  precinctGridWidth res <> 0 -> precinctGridHeight res <> 0 ->
  x0 tb <= px < x1 tb -> y0 tb <= py < y1 tb ->
  locate e c r px py =
    gy ← column_y e c r py; gx ← column_x e c r px; Some (gx + gy * precinctGridWidth res).
Proof.
  intros Hr Hw Hh Hpx Hpy. pose proof Hres as [Hx Hy Ew Eh Eopt Einfo]. fold tb comp res in Hx, Hy, Ew, Eh, Einfo.
  destruct (init_info e comp res r) as [b i] eqn:Ei.
  destruct (init_geometry _ _ _ _ _ _ _ _ _ _ _ _ Hx Hy Ei) as (Hb & _ & Hgeo). fold tb in Hb.
  pose proof Hw as Hw'. pose proof Hh as Hh'. rewrite Ew in Hw'. rewrite Eh in Hh'.
  pose proof (axcols_nonempty _ _ _ _ _ Hw') as Lx. pose proof (axcols_nonempty _ _ _ _ _ Hh') as Ly.
  rewrite !(proj2 (Z.ltb_lt _ _)) in Hb by done. cbn [andb] in Hb. subst b. specialize (Hgeo eq_refl).
  unfold locate. fold comp res. rewrite (proj2 (Z.leb_gt _ _)) by done.
  rewrite !(proj2 (Z.eqb_neq _ _)) by done. cbn [orb]. rewrite Eopt, Ei.
  assert ((if compression_ e then Some i else precinctInfo res) = Some i) as ->.
  { destruct (compression_ e); [done|]. by apply Einfo. }
  cbn [mbind option_bind]. rewrite (locate_info_columns i px py) by done. unfold column_x, column_y. fold tb comp res.
  destruct (column (y0 tb) _ _ _ py) as [gy|] eqn:Ey; [|done]. cbn [mbind option_bind].
  destruct (column (x0 tb) _ _ _ px) as [gx|] eqn:Ex; [|done]. cbn [mbind option_bind fst snd].
  destruct (column_machine _ _ _ _ _ px gx Hx Lx Hpx Ex) as [_ Rx].
  destruct (column_machine _ _ _ _ _ py gy Hy Ly Hpy Ey) as [_ Ry].
  pose proof (axcols_range _ _ _ _ _ Hx). pose proof (axcols_range _ _ _ _ _ Hy). rewrite Ew.
  f_equal. rewrite (wrap_small 64 (gy * _)) by nia. apply wrap_small. nia.
Qed.
End Resolution.

(** ** Rearranging enumerations *)

Section Enumerate.
Context {A B : Type}.
Implicit Types (l : list A).

Lemma enum_app (f g : A -> list B) l : mjoin ((fun a => f a ++ g a) <$> l) ≡ₚ mjoin (f <$> l) ++ mjoin (g <$> l).
Proof.
  induction l as [|a l IH]; [done|]. csimpl. rewrite IH. solve_Permutation.
Qed.

Lemma enum_perm (f g : A -> list B) l : (forall a, a ∈ l -> f a ≡ₚ g a) -> mjoin (f <$> l) ≡ₚ mjoin (g <$> l).
Proof.
  induction l as [|a l IH]; intros H; [done|]. csimpl. rewrite (H a) by set_solver.
  rewrite IH; [done|]. intros b Hb. apply H. set_solver.
Qed.

Lemma elem_of_enum (f : A -> list B) l b : b ∈ mjoin (f <$> l) <-> exists a, a ∈ l /\ b ∈ f a.
Proof.
  rewrite list_elem_of_join. setoid_rewrite list_elem_of_fmap. split.
  - intros (k & Hb & a & -> & Ha). eauto.
  - intros (a & Ha & Hb). eauto.
Qed.

Lemma enum_nodup (f : A -> list B) l : NoDup l -> (forall a, a ∈ l -> NoDup (f a)) ->
  (forall a a' b, a ∈ l -> a' ∈ l -> b ∈ f a -> b ∈ f a' -> a = a') -> NoDup (mjoin (f <$> l)).
Proof.
  induction 1 as [|a l Ha Hl IH]; intros Hf Hd; [constructor|]. csimpl. apply list.NoDup_app. split; [|split].
  - apply Hf. set_solver.
  - intros b Hb (a' & Ha' & Hb')%elem_of_enum. apply Ha.
    rewrite (Hd a a' b); [done|set_solver..].
  - apply IH; [|set_solver]. intros. apply Hf. set_solver.
Qed.
End Enumerate.

Lemma enum_swap {A B C} (f : A -> B -> list C) (l : list A) (k : list B) :
  mjoin ((fun a => mjoin (f a <$> k)) <$> l) ≡ₚ mjoin ((fun b => mjoin ((fun a => f a b) <$> l)) <$> k).
Proof.
  induction l as [|a l IH]; csimpl.
  - rewrite mjoin_fmap_nil; [done|]. done.
  - rewrite IH. rewrite <- enum_app. done.
Qed.

(** [omap] as an enumeration, and its composition with a map of the results. *)
Lemma enum_omap {A B C} (g : A -> option B) (f : B -> list C) (l : list A) :
  mjoin ((fun a => match g a with Some b => f b | None => [] end) <$> l) = mjoin (f <$> omap g l).
Proof. induction l as [|a l IH]; [done|]. csimpl. destruct (g a); csimpl; by rewrite IH. Qed.

Lemma enum_map_omap {A B C} (g : A -> option B) (f : B -> C) (l : list A) :
  mjoin ((fun a => match g a with Some b => [f b] | None => [] end) <$> l) = f <$> omap g l.
Proof. induction l as [|a l IH]; [done|]. csimpl. destruct (g a); csimpl; by rewrite IH. Qed.

Lemma fmap_enum {A B C} (g : B -> C) (f : A -> list B) (l : list A) :
  g <$> mjoin (f <$> l) = mjoin ((fun a => g <$> f a) <$> l).
Proof. induction l as [|a l IH]; [done|]. csimpl. by rewrite fmap_app, IH. Qed.

Lemma raster_rows w h : 0 <= w -> 0 <= h ->
  mjoin ((fun gy => (fun gx => gx + gy * w) <$> seqZ 0 w) <$> seqZ 0 h) = seqZ 0 (w * h).
Proof.
  intros Hw Hh. pattern h. apply natlike_ind; [| |done].
  - rewrite Z.mul_0_r. done.
  - intros n Hn IH. replace (Z.succ n) with (n + 1) by lia. rewrite seqZ_app by lia.
    rewrite fmap_app, join_app, IH. csimpl. rewrite app_nil_r.
    replace (w * (n + 1)) with (w * n + w) by lia. rewrite (seqZ_app 0 (w * n) w) by lia. f_equal.
    rewrite <- (Z.add_0_r (0 + w * n)), <- fmap_add_seqZ. apply list_fmap_ext. intros i v _. lia.
Qed.

(** ** The packets of a progression *)

(** Layer [l], resolution [r], component [c] at a position. *)
Definition cell (e : Env) (l r c px py : Z) : list packet_id :=
  match locate e c r px py with Some k => [(l, r, c, k)] | None => [] end.

Lemma prec_layers_cells e b l0 c r px py :
  prec_layers e b l0 c r px py = over l0 (lay_e b) (fun l => cell e l r c px py).
Proof.
  unfold prec_layers, over, cell. destruct (locate e c r px py) as [k|].
  - induction (seqZ l0 (lay_e b - l0)) as [|l ls IH]; [done|]. csimpl. by rewrite IH.
  - by rewrite mjoin_fmap_nil.
Qed.

(** All positions of the tile, in rows. *)
Definition plane (b : prog_bounds) (sx sy : Z) (f : Z -> Z -> list packet_id) : list packet_id :=
  over_at (positions sy (ty0 b) (ty1 b)) (fun py => over_at (positions sx (tx0 b) (tx1 b)) (fun px => f px py)).

Lemma plane_over b sx sy lo hi f :
  plane b sx sy (fun px py => over lo hi (fun i => f i px py)) ≡ₚ over lo hi (fun i => plane b sx sy (f i)).
Proof.
  unfold plane, over, over_at. etrans; [apply enum_perm; intros py _; apply enum_swap|].
  apply (enum_swap (fun py i => mjoin ((fun px => f i px py) <$> _))).
Qed.

Lemma over_perm lo hi f g : (forall i, lo <= i < hi -> f i ≡ₚ g i) -> over lo hi f ≡ₚ over lo hi g.
Proof. intros H. apply enum_perm. intros i Hi%elem_of_seqZ. apply H. lia. Qed.

Lemma over_ext lo hi f g : (forall i, lo <= i < hi -> f i = g i) -> over lo hi f = over lo hi g.
Proof. intros H. apply mjoin_fmap_ext. intros i Hi%elem_of_seqZ. apply H. lia. Qed.

Lemma over_swap lo hi lo' hi' f :
  over lo hi (fun i => over lo' hi' (fun j => f i j)) ≡ₚ over lo' hi' (fun j => over lo hi (fun i => f i j)).
Proof. apply enum_swap. Qed.

(** A step divides the projected precinct size of a resolution. *)
Definition step_divides (e : Env) (sx sy c r : Z) : Prop :=
  (sx | axP (comp_dx (comp_at e c)) (levels_x (comp_at e c) r) (res_precWidthExp (res_at (comp_at e c) r))) /\
  (sy | axP (comp_dy (comp_at e c)) (levels_y (comp_at e c) r) (res_precHeightExp (res_at (comp_at e c) r))).

(** The progression's area is the tile, and it starts at the first precinct. *)
Definition covers_tile (e : Env) (b : prog_bounds) : Prop :=
  tx0 b = x0 (tileBounds e) /\ tx1 b = x1 (tileBounds e) /\ ty0 b = y0 (tileBounds e) /\ ty1 b = y1 (tileBounds e) /\
  prec_s b = 0.

(** [columns_in_order] for a non-empty resolution. *)
Lemma axcols_order t0 t1 d l e s : axis_ok t0 t1 d l e -> axcols t0 t1 d l e <> 0 -> 0 < s -> (s | axP d l e) ->
  omap (column t0 d l e) (positions s t0 t1) = seqZ 0 (axcols t0 t1 d l e).
Proof.
  intros Hok Hne Hs Hd. apply axcols_nonempty in Hne as Hlt. rewrite (columns_in_order _ _ _ _ _ Hok Hlt s Hs Hd).
  unfold axcols. by rewrite (proj2 (Z.ltb_lt _ _)) by done.
Qed.

(** A resolution with precincts contributes them in raster order. *)
Lemma plane_raster e b sx sy l r c : res_ok e c r -> covers_tile e b -> 0 < sx -> 0 < sy -> step_divides e sx sy c r ->
  let w := precinctGridWidth (res_at (comp_at e c) r) in let h := precinctGridHeight (res_at (comp_at e c) r) in
  r < numresolutions (comp_at e c) -> w <> 0 -> h <> 0 ->
  plane b sx sy (cell e l r c) = (fun k => (l, r, c, k)) <$> seqZ 0 (w * h).
Proof.
  intros Hres (Ex0 & Ex1 & Ey0 & Ey1 & _) Hsx Hsy [Dx Dy] w h Hr Hw Hh. unfold plane, over_at.
  pose proof Hres as [Hx Hy Ew Eh _ _]. fold w h in Ew, Eh.
  pose proof (axcols_range _ _ _ _ _ Hx) as Rw. pose proof (axcols_range _ _ _ _ _ Hy) as Rh.
  rewrite <- Ew in Rw. rewrite <- Eh in Rh.
  pose proof (axcols_order _ _ _ _ _ sx Hx ltac:(by rewrite <- Ew) Hsx Dx) as Cx.
  pose proof (axcols_order _ _ _ _ _ sy Hy ltac:(by rewrite <- Eh) Hsy Dy) as Cy.
  rewrite <- Ew in Cx. rewrite <- Eh in Cy. fold (column_x e c r) in Cx. fold (column_y e c r) in Cy.
  rewrite <- raster_rows, Ex0, Ex1, Ey0, Ey1, <- Cy by lia.
  transitivity (mjoin ((fun py => match column_y e c r py with
    | Some gy => (fun gx => (l, r, c, gx + gy * w)) <$> seqZ 0 w
    | None => [] end) <$> positions sy (y0 (tileBounds e)) (y1 (tileBounds e)))).
  - apply mjoin_fmap_ext. intros py Hpy. apply elem_of_positions in Hpy as [Hpy _]; [|done].
    destruct (column_y e c r py) as [gy|] eqn:Egy.
    + rewrite <- Cx, <- enum_map_omap. apply mjoin_fmap_ext. intros px Hpx.
      apply elem_of_positions in Hpx as [Hpx _]; [|done].
      unfold cell. rewrite (locate_columns e c r Hres) by done. rewrite Egy. cbn [mbind option_bind].
      by destruct (column_x e c r px).
    + apply mjoin_fmap_nil. intros px Hpx. apply elem_of_positions in Hpx as [Hpx _]; [|done].
      unfold cell. rewrite (locate_columns e c r Hres) by done. by rewrite Egy.
  - rewrite enum_omap, fmap_enum. apply mjoin_fmap_ext. intros gy _. by rewrite <- list_fmap_compose.
Qed.

(** The cells of one layer, resolution and component are its precincts in
    raster order. *)
Lemma plane_cells e b sx sy l r c : covers_tile e b -> 0 < sx -> 0 < sy ->
  (r < numresolutions (comp_at e c) -> res_ok e c r /\ step_divides e sx sy c r) ->
  plane b sx sy (cell e l r c) = comp_packets e l r (prec_s b) c.
Proof.
  intros Hcov Hsx Hsy Hres. pose proof Hcov as (_ & _ & _ & _ & ->). unfold comp_packets.
  set (w := precinctGridWidth (res_at (comp_at e c) r)). set (h := precinctGridHeight (res_at (comp_at e c) r)).
  assert ((forall px py, locate e c r px py = None) -> plane b sx sy (cell e l r c) = []) as Hnone.
  { intros Hl. apply mjoin_fmap_nil. intros py _. apply mjoin_fmap_nil. intros px _. unfold cell. by rewrite Hl. }
  destruct (Z.leb_spec (numresolutions (comp_at e c)) r) as [Hr|Hr].
  { apply Hnone. intros px py. unfold locate. by rewrite (proj2 (Z.leb_le _ _)) by done. }
  destruct (Hres Hr) as [Hok Hd]. unfold num_precincts. fold w h. destruct ((w =? 0) || (h =? 0)) eqn:Ez.
  { replace (w * h) with 0 by nia. apply Hnone. intros px py. unfold locate.
    rewrite (proj2 (Z.leb_gt _ _)) by done. fold w h. by rewrite Ez. }
  pose proof Hok as [Hx Hy Ew Eh _ _]. fold w h in Ew, Eh.
  pose proof (axcols_range _ _ _ _ _ Hx) as Rw. pose proof (axcols_range _ _ _ _ _ Hy) as Rh.
  rewrite wrap_small by nia. rewrite Z.sub_0_r. apply plane_raster; try done; lia.
Qed.

(** *** The packets of a progression, each once *)

Definition in_progression (e : Env) (b : prog_bounds) (p : packet_id) : Prop :=
  let '(l, r, c, k) := p in
  lay_s b <= l < lay_e b /\ res_s b <= r < res_e b /\ comp_s b <= c < comp_e b /\
  r < numresolutions (comp_at e c) /\ prec_s b <= k < num_precincts e c r.

Lemma elem_of_over lo hi f p : p ∈ over lo hi f <-> exists i, lo <= i < hi /\ p ∈ f i.
Proof.
  unfold over. rewrite elem_of_enum.
  split; intros (i & Hi & ?); exists i; (split; [|done]); apply elem_of_seqZ in Hi || apply elem_of_seqZ; lia.
Qed.

Lemma over_nodup lo hi f : (forall i, NoDup (f i)) -> (forall i j p, p ∈ f i -> p ∈ f j -> i = j) -> NoDup (over lo hi f).
Proof. intros H1 H2. apply enum_nodup; [apply NoDup_seqZ|auto|]. intros i j p _ _. apply H2. Qed.

Lemma elem_of_comp_packets e l r k0 c p : p ∈ comp_packets e l r k0 c <->
  exists k, p = (l, r, c, k) /\ r < numresolutions (comp_at e c) /\ k0 <= k < num_precincts e c r.
Proof.
  unfold comp_packets. destruct (Z.leb_spec (numresolutions (comp_at e c)) r).
  - split; [set_solver|]. intros (k & _ & ? & _). lia.
  - rewrite list_elem_of_fmap. split.
    + intros (k & -> & Hk%elem_of_seqZ). exists k. repeat split; lia.
    + intros (k & -> & _ & Hk). exists k. split; [done|]. apply elem_of_seqZ. lia.
Qed.

Lemma lrcp_members e b p : p ∈ lrcp_packets e b <-> in_progression e b p.
Proof.
  destruct p as [[[l r] c] k]. unfold lrcp_packets, in_progression. rewrite elem_of_over. split.
  - intros (l' & ? & (r' & ? & (c' & ? & (k' & [= -> -> -> ->] & ? & ?)%elem_of_comp_packets)%elem_of_over)%elem_of_over).
    done.
  - intros (? & ? & ? & ? & ?). exists l. split; [done|]. apply elem_of_over. exists r. split; [done|].
    apply elem_of_over. exists c. split; [done|]. apply elem_of_comp_packets. eauto.
Qed.

Lemma lrcp_nodup e b : NoDup (lrcp_packets e b).
Proof.
  apply over_nodup; [intros l; apply over_nodup; [intros r; apply over_nodup|]|].
  - intros c. unfold comp_packets. destruct (_ <=? _); [constructor|].
    apply NoDup_fmap_2; [|apply NoDup_seqZ]. by intros ? ? [= ->].
  - intros c c' p (k & -> & _)%elem_of_comp_packets (k' & [= ->] & _)%elem_of_comp_packets. done.
  - intros r r' p (c & _ & Hp)%elem_of_over (c' & _ & Hp')%elem_of_over.
    apply elem_of_comp_packets in Hp as (k & -> & _), Hp' as (k' & [= ->] & _). done.
  - intros l l' p (r & _ & Hp)%elem_of_over (r' & _ & Hp')%elem_of_over.
    apply elem_of_over in Hp as (c & _ & Hp), Hp' as (c' & _ & Hp').
    apply elem_of_comp_packets in Hp as (k & -> & _), Hp' as (k' & [= ->] & _). done.
Qed.

(** The tables of every resolution in the progression are filled in, and the
    steps [st c] used while component [c] is iterated divide its precinct sizes. *)
Definition tables_ok (e : Env) (b : prog_bounds) (st : Z -> Z * Z) : Prop :=
  covers_tile e b /\ forall c, comp_s b <= c < comp_e b ->
    0 < (st c).1 /\ 0 < (st c).2 /\
    forall r, res_s b <= r < res_e b -> r < numresolutions (comp_at e c) ->
      res_ok e c r /\ step_divides e (st c).1 (st c).2 c r.

(** The cells of one component at one resolution, over all layers. *)
Lemma plane_layers e b st c r : tables_ok e b st -> comp_s b <= c < comp_e b -> res_s b <= r < res_e b ->
  plane b (st c).1 (st c).2 (fun px py => prec_layers e b (lay_s b) c r px py) ≡ₚ
  over (lay_s b) (lay_e b) (fun l => comp_packets e l r (prec_s b) c).
Proof.
  intros [Hcov Hst] Hc Hr. destruct (Hst c Hc) as (Hx & Hy & Hres).
  transitivity (plane b (st c).1 (st c).2 (fun px py => over (lay_s b) (lay_e b) (fun l => cell e l r c px py))).
  { unfold plane, over_at. apply enum_perm. intros py _. apply enum_perm. intros px _. by rewrite prec_layers_cells. }
  rewrite plane_over. apply over_perm. intros l _. rewrite plane_cells; [done|done|done|done|]. intros Hlt. by apply Hres.
Qed.

(** Layers outermost again. *)
Lemma layers_out b f :
  over (res_s b) (res_e b) (fun r => over (comp_s b) (comp_e b) (fun c => over (lay_s b) (lay_e b) (fun l => f l r c))) ≡ₚ
  over (lay_s b) (lay_e b) (fun l => over (res_s b) (res_e b) (fun r => over (comp_s b) (comp_e b) (fun c => f l r c))).
Proof.
  etrans; [apply over_perm; intros r _; apply (over_swap _ _ _ _ (fun c l => f l r c))|].
  apply (over_swap _ _ _ _ (fun r l => over (comp_s b) (comp_e b) (fun c => f l r c))).
Qed.

Section Rearrange.
Context (e : Env) (b : prog_bounds).

Lemma rpcl_perm sx sy : tables_ok e b (fun _ => (sx, sy)) -> rpcl_packets e b sx sy ≡ₚ lrcp_packets e b.
Proof.
  intros Hok. etrans; [|apply layers_out]. apply over_perm. intros r Hr.
  etrans; [apply (plane_over b sx sy _ _ (fun c px py => prec_layers e b (lay_s b) c r px py))|].
  apply over_perm. intros c Hc. by apply (plane_layers e b (fun _ => (sx, sy))).
Qed.

Lemma prcl_perm sx sy : tables_ok e b (fun _ => (sx, sy)) -> prcl_packets e b sx sy ≡ₚ lrcp_packets e b.
Proof.
  intros Hok. etrans; [|by apply (rpcl_perm sx sy)].
  apply (plane_over b sx sy _ _ (fun r px py => over (comp_s b) (comp_e b) (fun c => prec_layers e b (lay_s b) c r px py))).
Qed.

Lemma cprl_perm first : tables_ok e b (steps_for e b first) -> cprl_packets e b first ≡ₚ lrcp_packets e b.
Proof.
  intros Hok. etrans; [|apply layers_out].
  etrans; [|apply (over_swap _ _ _ _ (fun c r => over (lay_s b) (lay_e b) (fun l => comp_packets e l r (prec_s b) c)))].
  apply over_perm. intros c Hc.
  etrans; [apply (plane_over b _ _ _ _ (fun r px py => prec_layers e b (lay_s b) c r px py))|].
  apply over_perm. intros r Hr. by apply plane_layers.
Qed.

Lemma pcrl_perm sx sy : tables_ok e b (fun _ => (sx, sy)) -> pcrl_packets e b sx sy ≡ₚ lrcp_packets e b.
Proof.
  intros Hok. etrans; [|by apply (prcl_perm sx sy)].
  apply enum_perm. intros py _. apply enum_perm. intros px _. apply over_swap.
Qed.

Lemma rlcp_perm : rlcp_packets e b ≡ₚ lrcp_packets e b.
Proof. apply over_swap. Qed.
End Rearrange.

(** ** The sequence of each order *)

Section Complete.
Context {X K : Type} `{Skip : PacketSkipper X K}.
Implicit Type s : PacketIter K.

(** A list that holds exactly the packets of the progression, each once. *)
Definition enumerates (e : Env) (b : prog_bounds) (l : list packet_id) : Prop :=
  NoDup l /\ forall p, p ∈ l <-> in_progression e b p.

Lemma enumerates_perm e b l : l ≡ₚ lrcp_packets e b -> enumerates e b l.
Proof.
  intros H. split; [rewrite H; apply lrcp_nodup|]. intros p. rewrite H. apply lrcp_members.
Qed.

(** The sequence of an order that does not depend on positions. *)
Definition layered_packets (order : GRK_PROG_ORDER) (e : Env) (b : prog_bounds) : list packet_id :=
  match order with GRK_RLCP => rlcp_packets e b | _ => lrcp_packets e b end.

(** The fast path's table describes every component: those of [genPrecinctInfoOPT]. *)
Definition layered_ready s : Prop :=
  match precinctInfoOPT_ (env s) with
  | Some infos => opt_ok infos (env s) (prog s)
  | None => True
  end.

Lemma layered_sequence s cp :
  at_start s -> (progression s = GRK_LRCP \/ progression s = GRK_RLCP) -> layered_ready s ->
  let l := layered_packets (progression s) (env s) (prog s) in
  drain (next cp) current (S (length l)) s = Some l /\ enumerates (env s) (prog s) l.
Proof.
  intros Hs Hord Hready. split.
  - unfold layered_ready in Hready. destruct (precinctInfoOPT_ (env s)) as [infos|] eqn:Eo.
    + destruct Hord as [E|E]; rewrite E; [by apply lrcp_opt_drain with (infos := infos)|by apply rlcp_opt_drain with (infos := infos)].
    + destruct Hord as [E|E]; rewrite E; [by apply lrcp_drain|by apply rlcp_drain].
  - apply enumerates_perm. destruct Hord as [-> | ->]; [done|apply rlcp_perm].
Qed.

(** C34: The packet iterator enumerates a tile in the LRCP and RLCP orders, on the general
    path and on the fast one.  From the start of a single progression, calling [next] until
    it returns false hands out exactly the nested sequence of the order (layers,
    resolutions, components, precincts, or resolutions first); the sequence holds each
    packet of the progression exactly once.  On the fast path the table [precinctInfoOPT_],
    made from component 0, must hold the number of precincts of every component
    ([opt_ok]). *)
Theorem layered_orders_complete s cp :
  at_start s -> (progression s = GRK_LRCP \/ progression s = GRK_RLCP) -> layered_ready s ->
  let l := layered_packets (progression s) (env s) (prog s) in
  drain (next cp) current (S (length l)) s = Some l /\ enumerates (env s) (prog s) l.
Proof. apply layered_sequence. Qed.

(** The sequence of a spatial order, for the iterator's initial steps. *)
Definition spatial_packets (order : GRK_PROG_ORDER) (e : Env) (b : prog_bounds) (st : Z * Z) : list packet_id :=
  match order with
  | GRK_PRCL => prcl_packets e b st.1 st.2
  | GRK_PCRL => pcrl_packets e b st.1 st.2
  | GRK_RPCL => rpcl_packets e b st.1 st.2
  | GRK_CPRL => cprl_packets e b st
  | _ => []
  end.

(** What a spatial order needs of the tables: steps that divide the precinct
    sizes and, for PCRL, a window that covers the tile. *)
Definition spatial_ready s : Prop :=
  let e := env s in let b := prog s in let st := (dx s, dy s) in
  match progression s with
  | GRK_PRCL => tables_ok e b (fun _ => st)
  | GRK_PCRL => tables_ok e b (fun _ => st) /\ window_covers e b
  | GRK_RPCL => tables_ok e b (fun _ => st) /\ grids_unsigned e
  | GRK_CPRL => tables_ok e b (steps_for e b st) /\ steps_ok st e b /\ comp_s b <= comp_e b
  | _ => False
  end.

Lemma spatial_sequence s cp :
  at_origin s -> precinctInfoOPT_ (env s) = None -> spatial_ready s ->
  let l := spatial_packets (progression s) (env s) (prog s) (dx s, dy s) in
  drain (next cp) current (S (length l)) s = Some l /\ enumerates (env s) (prog s) l.
Proof.
  intros Hs Hopt Hready. unfold spatial_ready in Hready. cbv zeta in Hready.
  destruct (progression s) eqn:Eo; try done; cbn [spatial_packets].
  - destruct Hready as [Ht Hg]. split; [by apply rpcl_drain|by apply enumerates_perm, rpcl_perm].
  - destruct Hready as [Ht Hw]. split; [by apply pcrl_drain|by apply enumerates_perm, pcrl_perm].
  - destruct Hready as (Ht & Hsteps & Hc). split; [by apply cprl_drain|by apply enumerates_perm, cprl_perm].
  - split; [by apply prcl_drain|by apply enumerates_perm, prcl_perm].
Qed.
(** C25: The packet iterator enumerates a tile in the spatial orders RPCL, PCRL, CPRL and
    PRCL, on the general path (without the table [precinctInfoOPT_]), from the start of a
    single progression over the whole tile.  Where the precinct tables are filled in, the
    steps divide the projected precinct sizes of the components they are used for and, for
    PCRL, the window covers the tile ([spatial_ready]), the positions [next] visits resolve
    to every precinct of every resolution exactly once: draining the iterator gives the
    nested sequence of the order, and that sequence holds each packet of the progression
    exactly once. *)
Theorem spatial_orders_complete s cp :
  at_origin s -> precinctInfoOPT_ (env s) = None -> spatial_ready s ->
  let l := spatial_packets (progression s) (env s) (prog s) (dx s, dy s) in
  drain (next cp) current (S (length l)) s = Some l /\ enumerates (env s) (prog s) l.
Proof. apply spatial_sequence. Qed.

End Complete.
