(* ===== verification/TileSequence.v ===== *)
(** The packets of a decompressed tile: PacketManager.cpp and PacketIter.cpp
    together.

    PacketSequence.v shows what an iterator with correct tables hands out.  Here
    the tables are those that [PacketManager::getParams], [PacketIter::init],
    [genPrecinctInfo] and [update_dxy] build from the image, the tile's coding
    parameters and the tile bounds. *)
From S2P Require Import Prelude Geometry IncludeTracker Loops PacketIter PacketManager PacketOrder PacketSequence.

(** ** Tables built by counting loops *)

Lemma nthZ_fmap_seqZ {A} (d : A) (f : Z -> A) n i : 0 <= i < n -> nthZ d (f <$> seqZ 0 n) i = f i.
Proof.
  intros Hi. apply nthZ_lookup. rewrite list_lookup_fmap, lookup_seqZ_lt by lia. simpl. f_equal. f_equal. lia.
Qed.

Lemma nthZ_fmap {A B} (d : A) (d' : B) (f : A -> B) l i : 0 <= i < Z.of_nat (length l) -> nthZ d' (f <$> l) i = f (nthZ d l i).
Proof.
  intros Hi. destruct (lookup_lt_is_Some_2 l (Z.to_nat i)) as [a Ha]; [lia|].
  rewrite (nthZ_lookup d l i a Ha). apply nthZ_lookup. by rewrite list_lookup_fmap, Ha.
Qed.

Lemma nthZ_imap {A B} (d : A) (d' : B) (f : nat -> A -> B) l i : 0 <= i < Z.of_nat (length l) ->
  nthZ d' (imap f l) i = f (Z.to_nat i) (nthZ d l i).
Proof.
  intros Hi. destruct (lookup_lt_is_Some_2 l (Z.to_nat i)) as [a Ha]; [lia|].
  rewrite (nthZ_lookup d l i a Ha). apply nthZ_lookup. by rewrite list_lookup_imap, Ha.
Qed.

Lemma nthZ_out {A} (d : A) (l : list A) i : Z.of_nat (length l) <= i -> nthZ d l i = d.
Proof. intros Hi. rewrite nthZ_default, lookup_ge_None_2 by lia. done. Qed.

Lemma nthZ_max {A} (d : A) l i : nthZ d l i = nthZ d l (Z.max 0 i).
Proof. rewrite !nthZ_default. by replace (Z.to_nat (Z.max 0 i)) with (Z.to_nat i) by lia. Qed.

Lemma seqZ_snoc n : 0 <= n -> seqZ 0 (n + 1) = seqZ 0 n ++ [n].
Proof. intros. by rewrite seqZ_app. Qed.

(** The row of [getParams] for resolution [r] of component [c]. *)
Definition param_row (tb : Rect) (img : Z * Z) (tccp : TileComponentCodingParams) (r : Z) : Z * Z * Z * Z :=
  let we := nthZ 0 (precWidthExp_ tccp) r in
  let he := nthZ 0 (precHeightExp_ tccp) r in
  let g := precinct_grid we he (resBounds tb img tccp r) in (we, he, g.1, g.2).

Lemma getParams_res_loop tb img tccp p n : 0 <= n ->
  let q := for_range 0 n (getParams_res tb img tccp) (p, []) in
  q.2 = param_row tb img tccp <$> seqZ 0 n /\ rows_ q.1 = rows_ p /\ max_res q.1 = max_res p.
Proof.
  intros Hn. apply for_range_inv with
    (P := fun i q => q.2 = param_row tb img tccp <$> seqZ 0 i /\ rows_ q.1 = rows_ p /\ max_res q.1 = max_res p);
    [lia|done|].
  intros i [q rows] Hi (Hr & Hq & Hm). cbn [fst snd] in *. unfold getParams_res.
  destruct (precinct_grid _ _ _) as [gw gh] eqn:Eg. cbn [fst snd rows_ max_res].
  split; [|done]. rewrite seqZ_snoc, fmap_app, <- Hr by lia. f_equal. csimpl. unfold param_row. by rewrite Eg.
Qed.

(** The components' coding parameters. *)
Definition tccp_at (tcp : TileCodingParams) (c : Z) : TileComponentCodingParams := nthZ TCCP_default (tccps_ tcp) c.

Lemma getParams_loop tb image tcp tr n : 0 <= n -> (forall c, 0 <= c < n -> 0 <= numresolutions_ (tccp_at tcp c)) ->
  let p := for_range 0 n (getParams_comp tb image tcp) (mkParams 0 0 UINT32_MAX UINT32_MAX tr []) in
  rows_ p = (fun c => param_row tb (nthZ (0, 0) image c) (tccp_at tcp c) <$> seqZ 0 (numresolutions_ (tccp_at tcp c)))
    <$> seqZ 0 n /\
  (forall c, 0 <= c < n -> numresolutions_ (tccp_at tcp c) <= max_res p) /\
  (max_res p = 0 \/ exists c, 0 <= c < n /\ max_res p = numresolutions_ (tccp_at tcp c)).
Proof.
  intros Hn Hres. apply for_range_inv with (P := fun i p =>
    rows_ p = (fun c => param_row tb (nthZ (0, 0) image c) (tccp_at tcp c) <$> seqZ 0 (numresolutions_ (tccp_at tcp c)))
      <$> seqZ 0 i /\ (forall c, 0 <= c < i -> numresolutions_ (tccp_at tcp c) <= max_res p) /\
    (max_res p = 0 \/ exists c, 0 <= c < i /\ max_res p = numresolutions_ (tccp_at tcp c))).
  - done.
  - split; [done|]. split; [lia|by left].
  - intros i p Hi (Hr & Hm & Hex). unfold getParams_comp. fold (tccp_at tcp i).
    set (p0 := mkParams _ _ _ _ _ _).
    pose proof (getParams_res_loop tb (nthZ (0, 0) image i) (tccp_at tcp i) p0 _ (Hres i Hi)) as H.
    destruct (for_range 0 _ _ _) as [q rows]. cbn [fst snd rows_ max_res p0] in *. destruct H as (-> & -> & ->).
    split; [by rewrite seqZ_snoc, fmap_app, Hr by lia|].
    destruct (Z.ltb_spec (max_res p) (numresolutions_ (tccp_at tcp i))); split.
    + intros c Hc. destruct (decide (c = i)) as [->|]; [lia|]. specialize (Hm c ltac:(lia)). lia.
    + right. exists i. split; [lia|done].
    + intros c Hc. destruct (decide (c = i)) as [->|]; [lia|]. apply Hm. lia.
    + destruct Hex as [?|(c & ? & ?)]; [by left|right; exists c; split; [lia|done]].
Qed.

(** ** Step sizes *)

(** The steps of [update_dxy], as a function of the component tables. *)
Definition tile_steps (e : Env) : Z * Z :=
  for_range 0 (numcomps e) (fun c acc => comp_steps (comp_at e c) acc) (0, 0).

Lemma for_range_rel {A B} (R : A -> B -> Prop) lo hi f g a b :
  R a b -> (forall i x y, lo <= i < hi -> R x y -> R (f i x) (g i y)) -> R (for_range lo hi f a) (for_range lo hi g b).
Proof.
  intros H0 Hs. unfold for_range.
  assert (forall i, i ∈ seqZ lo (hi - lo) -> lo <= i < hi) as Hin by (intros i Hi%elem_of_seqZ; lia).
  revert a b H0 Hin. induction (seqZ lo (hi - lo)) as [|i l IH]; intros a b H0 Hin; [done|]. simpl.
  apply IH; [|set_solver]. apply Hs; [apply Hin; set_solver|done].
Qed.

Lemma update_dxy_eq {K} (s : PacketIter K) :
  let st := tile_steps (env s) in
  update_dxy s = set_dyActive (if 0 <? st.2 then active_step st.2 (y s) else 0)
    (set_dxActive (if 0 <? st.1 then active_step st.1 (x s) else 0) (set_dxy st.1 st.2 s)).
Proof.
  intros st. unfold update_dxy.
  assert (for_range 0 (numcomps (env s))
    (fun c s => update_dxy_for_comp (comp_at (env s) c) false s) (set_dxy 0 0 s) = set_dxy st.1 st.2 s) as ->; [|done].
  apply (for_range_rel (fun t acc => t = set_dxy acc.1 acc.2 s)); [done|].
  intros c t acc _ ->. unfold update_dxy_for_comp. change (comp_at (env (set_dxy _ _ s)) c) with (comp_at (env s) c).
  change (dx (set_dxy acc.1 acc.2 s)) with acc.1. change (dy (set_dxy acc.1 acc.2 s)) with acc.2.
  destruct acc as [ax ay]. cbn [fst snd]. destruct (comp_steps (comp_at (env s) c) (ax, ay)) as [bx by']. done.
Qed.

(** *** Powers of two *)

Definition is_pow2 (v : Z) : Prop := exists j, 0 <= j /\ v = 2 ^ j.

Lemma pow2_divide j m : 0 <= j <= m -> (2 ^ j | 2 ^ m).
Proof. intros [Hj Hm]. exists (2 ^ (m - j)). rewrite <- Z.pow_add_r by lia. f_equal. lia. Qed.

(** What the minimum of projected precinct sizes is when they are powers of two:
    zero if all are too large, otherwise a common divisor. *)
Definition merged (acc : Z) (seen : Z -> Prop) : Prop :=
  (acc = 0 /\ forall v, seen v -> UINT32_MAX <= v) \/
  (is_pow2 acc /\ acc < UINT32_MAX /\ forall v, seen v -> (acc | v)).

Lemma merge_step_merged acc seen v : merged acc seen -> is_pow2 v -> (forall u, seen u -> is_pow2 u) ->
  merged (merge_step acc v) (fun u => seen u \/ u = v).
Proof.
  intros Hm [m [Hm0 ->]] Hp. unfold merge_step, UINT32_MAX in *.
  destruct (Z.ltb_spec (2 ^ m) 4294967295) as [Hlt|Hge].
  - assert (2 ^ m < 2 ^ 32) as Hm32 by lia. rewrite wrap_small by lia.
    destruct Hm as [[-> Hbig]|([j [Hj ->]] & Hsmall & Hdiv)]; right.
    + split; [by exists m|]. split; [done|]. intros u [Hu| ->]; [|done].
      destruct (Hp u Hu) as [k [Hk ->]]. specialize (Hbig _ Hu). unfold UINT32_MAX in Hbig.
      apply pow2_divide. split; [lia|]. apply (Z.pow_le_mono_r_iff 2); lia.
    + assert (2 ^ j <> 0) by lia. rewrite (proj2 (Z.eqb_neq _ _)) by done.
      destruct (Z.le_gt_cases j m) as [Hjm|Hjm].
      * assert (2 ^ j <= 2 ^ m) by (apply Z.pow_le_mono_r; lia). rewrite Z.min_l by done.
        split; [by exists j|]. split; [unfold UINT32_MAX; lia|]. intros u [Hu| ->]; [by apply Hdiv|by apply pow2_divide].
      * assert (2 ^ m <= 2 ^ j) by (apply Z.pow_le_mono_r; lia). rewrite Z.min_r by done.
        split; [by exists m|]. split; [unfold UINT32_MAX; lia|]. intros u [Hu| ->]; [|done].
        etrans; [|by apply Hdiv]. apply pow2_divide. lia.
  - destruct Hm as [[-> Hbig]|([j [Hj ->]] & Hsmall & Hdiv)]; [left|right].
    + split; [done|]. intros u [Hu| ->]; [by apply Hbig|unfold UINT32_MAX; lia].
    + split; [by exists j|]. split; [done|]. intros u [Hu| ->]; [by apply Hdiv|].
      apply pow2_divide. unfold UINT32_MAX in Hsmall. split; [lia|]. apply (Z.pow_le_mono_r_iff 2); lia.
Qed.

Lemma merged_iff acc (seen seen' : Z -> Prop) : (forall v, seen v <-> seen' v) -> merged acc seen -> merged acc seen'.
Proof.
  intros H [[-> Hb]|(Hp & Hs & Hd)]; [left|right].
  - split; [done|]. intros v Hv. by apply Hb, H.
  - split; [done|]. split; [done|]. intros v Hv. by apply Hd, H.
Qed.

(** The projected precinct sizes of component [c]. *)
Definition size_x (comp : PacketIterInfoComponent) (r : Z) : Z :=
  projected_step (comp_dx comp) (res_precWidthExp (res_at comp r)) (levels_x comp r).
Definition size_y (comp : PacketIterInfoComponent) (r : Z) : Z :=
  projected_step (comp_dy comp) (res_precHeightExp (res_at comp r)) (levels_y comp r).

(** Components whose projected precinct sizes are powers of two. *)
Definition sizes_pow2 (comp : PacketIterInfoComponent) : Prop :=
  forall r, 0 <= r < numresolutions comp -> is_pow2 (size_x comp r) /\ is_pow2 (size_y comp r).

Lemma comp_steps_merged comp acc (seenx seeny : Z -> Prop) : 0 <= numresolutions comp -> sizes_pow2 comp ->
  (forall u, seenx u -> is_pow2 u) -> (forall u, seeny u -> is_pow2 u) ->
  merged acc.1 seenx -> merged acc.2 seeny ->
  merged (comp_steps comp acc).1 (fun u => seenx u \/ exists r, 0 <= r < numresolutions comp /\ u = size_x comp r) /\
  merged (comp_steps comp acc).2 (fun u => seeny u \/ exists r, 0 <= r < numresolutions comp /\ u = size_y comp r).
Proof.
  intros Hn Hp Hx Hy H1 H2. unfold comp_steps. apply for_range_inv with (P := fun i acc =>
    merged acc.1 (fun u => seenx u \/ exists r, 0 <= r < i /\ u = size_x comp r) /\
    merged acc.2 (fun u => seeny u \/ exists r, 0 <= r < i /\ u = size_y comp r)).
  - done.
  - split; (eapply merged_iff; [|done]); intros v; (split; [by left|intros [?|(r & ? & _)]; [done|lia]]).
  - intros i a Hi [Ha Hb]. cbn [fst snd]. fold (size_x comp i) (size_y comp i).
    destruct (Hp i Hi) as [Px Py].
    assert (forall seen (f : Z -> Z) v, ((seen v \/ exists r, 0 <= r < i /\ v = f r) \/ v = f i) <->
      (seen v \/ exists r, 0 <= r < i + 1 /\ v = f r)) as Hext.
    { intros seen f v. split.
      - intros [[?|(r & ? & ->)]| ->]; [by left|right; exists r; split; [lia|done]|right; exists i; split; [lia|done]].
      - intros [?|(r & ? & ->)]; [by left; left|]. destruct (decide (r = i)) as [->|]; [by right|].
        left; right. exists r. split; [lia|done]. }
    split; (eapply merged_iff; [intros v; apply (Hext _ _ v)|]); apply merge_step_merged; try done.
    + intros u [?|(r & ? & ->)]; [auto|]. apply Hp. lia.
    + intros u [?|(r & ? & ->)]; [auto|]. apply Hp. lia.
Qed.

(** The steps [update_dxy] computes divide every projected precinct size. *)
Lemma tile_steps_divide e : 0 <= numcomps e ->
  (forall c, 0 <= c < numcomps e -> 0 <= numresolutions (comp_at e c) /\ sizes_pow2 (comp_at e c)) ->
  let st := tile_steps e in
  merged st.1 (fun u => exists c r, 0 <= c < numcomps e /\ 0 <= r < numresolutions (comp_at e c) /\ u = size_x (comp_at e c) r) /\
  merged st.2 (fun u => exists c r, 0 <= c < numcomps e /\ 0 <= r < numresolutions (comp_at e c) /\ u = size_y (comp_at e c) r).
Proof.
  intros Hn Hc. unfold tile_steps. apply for_range_inv with (P := fun i st =>
    merged st.1 (fun u => exists c r, 0 <= c < i /\ 0 <= r < numresolutions (comp_at e c) /\ u = size_x (comp_at e c) r) /\
    merged st.2 (fun u => exists c r, 0 <= c < i /\ 0 <= r < numresolutions (comp_at e c) /\ u = size_y (comp_at e c) r)).
  - done.
  - split; left; (split; [done|]); intros v (c & r & ? & _); lia.
  - intros i st Hi [H1 H2]. destruct (Hc i Hi) as [Hnr Hp].
    assert (forall u, (exists c r, 0 <= c < i /\ 0 <= r < numresolutions (comp_at e c) /\ u = size_x (comp_at e c) r) -> is_pow2 u)
      as Hx by (intros u (c & r & ? & ? & ->); by apply (Hc c ltac:(lia))).
    assert (forall u, (exists c r, 0 <= c < i /\ 0 <= r < numresolutions (comp_at e c) /\ u = size_y (comp_at e c) r) -> is_pow2 u)
      as Hy by (intros u (c & r & ? & ? & ->); by apply (Hc c ltac:(lia))).
    destruct (comp_steps_merged (comp_at e i) st _ _ Hnr Hp Hx Hy H1 H2) as [M1 M2].
    assert (forall (f : PacketIterInfoComponent -> Z -> Z) v,
      ((exists c r, 0 <= c < i /\ 0 <= r < numresolutions (comp_at e c) /\ v = f (comp_at e c) r) \/
        exists r, 0 <= r < numresolutions (comp_at e i) /\ v = f (comp_at e i) r) <->
      exists c r, 0 <= c < i + 1 /\ 0 <= r < numresolutions (comp_at e c) /\ v = f (comp_at e c) r) as Hext.
    { intros f v. split.
      - intros [(c & r & ? & ? & ->)|(r & ? & ->)]; [exists c, r|exists i, r]; (split; [lia|done]).
      - intros (c & r & ? & ? & ->). destruct (decide (c = i)) as [->|]; [right; eauto|].
        left. exists c, r. split; [lia|done]. }
    split; (eapply merged_iff; [intros v; apply (Hext _ v)|done]).
Qed.

(** ** The tables of the manager's iterator *)

(** Coding parameters of a component within the limits of the standard. *)
Record comp_setup_ok (img : Z * Z) (tccp : TileComponentCodingParams) : Prop := {
  cs_dx : 1 <= img.1 <= 255;
  cs_dy : 1 <= img.2 <= 255;
  cs_res : 1 <= numresolutions_ tccp <= 33;
  cs_hdepth : forall l, 0 <= l < numresolutions_ tccp -> 0 <= nthZ 0 (horizontalDepth_ tccp) l <= 32;
  cs_vdepth : forall l, 0 <= l < numresolutions_ tccp -> 0 <= nthZ 0 (verticalDepth_ tccp) l <= 32;
  cs_pw : forall r, 0 <= r < numresolutions_ tccp -> 0 <= nthZ 0 (precWidthExp_ tccp) r <= 15;
  cs_ph : forall r, 0 <= r < numresolutions_ tccp -> 0 <= nthZ 0 (precHeightExp_ tccp) r <= 15;
  cs_first : nthZ 0 (horizontalDepth_ tccp) 0 = 0 /\ nthZ 0 (verticalDepth_ tccp) 0 = 0;
}.

(** A tile to be decompressed whole, in a single progression. *)
Record setup_ok (t : TileSetup) : Prop := {
  so_comps : 1 <= Z.of_nat (length (ts_image t)) < 2 ^ 14;
  so_comp : forall c, 0 <= c < Z.of_nat (length (ts_image t)) ->
    comp_setup_ok (nthZ (0, 0) (ts_image t) c) (tccp_at (ts_tcp t) c);
  so_x : 0 <= x0 (ts_bounds t) < x1 (ts_bounds t) /\ x1 (ts_bounds t) + 2 ^ 15 <= 2 ^ 32;
  so_y : 0 <= y0 (ts_bounds t) < y1 (ts_bounds t) /\ y1 (ts_bounds t) + 2 ^ 15 <= 2 ^ 32;
  so_layers : 0 <= numLayers_ (ts_tcp t) < 2 ^ 16;
  so_single : hasPoc_ (ts_tcp t) = false /\ numpocs_ (ts_tcp t) = 0;
  so_decompress : ts_compression t = false;
}.

Section Manager.
Context (t : TileSetup) (Hok : setup_ok t).
Let n := Z.of_nat (length (ts_image t)).
Let img c := nthZ (0, 0) (ts_image t) c.
Let tccp c := tccp_at (ts_tcp t) c.

(** The component tables before [genPrecinctInfo]. *)
Definition base_comp (c : Z) : PacketIterInfoComponent :=
  init_comp (img c) (tccp c) (nthZ [] (rows_ (manager_params t)) c).
Definition base_env : Env :=
  mkEnv n (base_comp <$> seqZ 0 n) (ts_bounds t) (ts_window t) (ts_wholeTile t)
    (getNumProgressions (ts_tcp t) =? 1) (ts_compression t) (ts_maxDecompRes t) None.
Definition tile_env : Env := genPrecinctInfo (prg_ (ts_tcp t)) base_env.

Lemma base_comp_at c : 0 <= c < n -> comp_at base_env c = base_comp c.
Proof. intros. unfold comp_at, base_env. cbn [comps]. by rewrite nthZ_fmap_seqZ. Qed.

(** The precinct grid of [getParams] in terms of the axes. *)
Lemma param_row_cols c r : 0 <= c < n -> 0 <= r < numresolutions_ (tccp c) ->
  let l := numresolutions_ (tccp c) - 1 - r in
  let we := nthZ 0 (precWidthExp_ (tccp c)) r in let he := nthZ 0 (precHeightExp_ (tccp c)) r in
  let lx := nthZ 0 (horizontalDepth_ (tccp c)) l in let ly := nthZ 0 (verticalDepth_ (tccp c)) l in
  axis_ok (x0 (ts_bounds t)) (x1 (ts_bounds t)) (img c).1 lx we /\
  axis_ok (y0 (ts_bounds t)) (y1 (ts_bounds t)) (img c).2 ly he /\
  param_row (ts_bounds t) (img c) (tccp c) r =
    (we, he, axcols (x0 (ts_bounds t)) (x1 (ts_bounds t)) (img c).1 lx we,
     axcols (y0 (ts_bounds t)) (y1 (ts_bounds t)) (img c).2 ly he).
Proof.
  intros Hc Hr l we he lx ly. destruct (so_comp t Hok c Hc) as [Hdx Hdy Hn Hh Hv Hw He _].
  fold (img c) in *. fold (tccp c) in *. pose proof (so_x t Hok). pose proof (so_y t Hok).
  specialize (Hh l ltac:(lia)). specialize (Hv l ltac:(lia)). specialize (Hw r Hr). specialize (He r Hr).
  assert (axis_ok (x0 (ts_bounds t)) (x1 (ts_bounds t)) (img c).1 lx we) as Hx
    by (unfold axis_ok, lx, we; split_and!; lia).
  assert (axis_ok (y0 (ts_bounds t)) (y1 (ts_bounds t)) (img c).2 ly he) as Hy
    by (unfold axis_ok, ly, he; split_and!; lia).
  split; [done|]. split; [done|].
  unfold param_row. fold we he.
  assert (resBounds (ts_bounds t) (img c) (tccp c) r =
    scaleDownCeil 32 (2 ^ lx) (2 ^ ly) (scaleDownCeil 32 (img c).1 (img c).2 (ts_bounds t))) as ->.
  { unfold resBounds. rewrite (wrap_small 8) by lia. fold l lx ly. rewrite !Z.shiftl_1_l.
    assert (0 < 2 ^ lx <= 2 ^ 32 /\ 0 < 2 ^ ly <= 2 ^ 32) as [? ?]
      by (split; (split; [lia|apply Z.pow_le_mono_r; lia])).
    by rewrite !(wrap_small 64) by lia. }
  by rewrite (precinct_grid_cols _ _ _ _ _ _ _ Hx Hy).
Qed.

Lemma manager_rows c : 0 <= c < n ->
  nthZ [] (rows_ (manager_params t)) c = param_row (ts_bounds t) (img c) (tccp c) <$> seqZ 0 (numresolutions_ (tccp c)).
Proof.
  intros Hc. unfold manager_params, getParams. fold n.
  destruct (getParams_loop (ts_bounds t) (ts_image t) (ts_tcp t) (resetNumPrecinctsPerRes IncludeTracker_new) n)
    as (-> & _ & _); [lia| |by rewrite nthZ_fmap_seqZ].
  intros i Hi. pose proof (cs_res _ _ (so_comp t Hok i Hi)). lia.
Qed.

Lemma manager_max_res : forall c, 0 <= c < n -> numresolutions_ (tccp c) <= max_res (manager_params t) <= 33.
Proof.
  intros c Hc. unfold manager_params, getParams. fold n.
  destruct (getParams_loop (ts_bounds t) (ts_image t) (ts_tcp t) (resetNumPrecinctsPerRes IncludeTracker_new) n)
    as (_ & Hle & Hmax); [lia| |].
  - intros i Hi. pose proof (cs_res _ _ (so_comp t Hok i Hi)). lia.
  - split; [by apply Hle|]. destruct Hmax as [->|(c' & Hc' & ->)]; [lia|]. apply (so_comp t Hok c' Hc').
Qed.

(** A resolution's table entry before [genPrecinctInfo]. *)
Lemma base_res c r : 0 <= c < n -> 0 <= r < numresolutions_ (tccp c) ->
  let l := numresolutions_ (tccp c) - 1 - r in
  let we := nthZ 0 (precWidthExp_ (tccp c)) r in let he := nthZ 0 (precHeightExp_ (tccp c)) r in
  res_at (base_comp c) r = mkPIRes we he
    (axcols (x0 (ts_bounds t)) (x1 (ts_bounds t)) (img c).1 (nthZ 0 (horizontalDepth_ (tccp c)) l) we)
    (axcols (y0 (ts_bounds t)) (y1 (ts_bounds t)) (img c).2 (nthZ 0 (verticalDepth_ (tccp c)) l) he) None.
Proof.
  intros Hc Hr l we he. unfold res_at, base_comp, init_comp. cbn [resolutions].
  rewrite nthZ_fmap_seqZ by done. rewrite manager_rows by done. rewrite nthZ_fmap_seqZ by done.
  destruct (param_row_cols c r Hc Hr) as (Hx & Hy & ->). fold l we he.
  destruct Hx as (_ & _ & _ & _ & Hwe), Hy as (_ & _ & _ & _ & Hhe). fold we in Hwe. fold he in Hhe.
  by rewrite !wrap_small by lia.
Qed.

Hypothesis Hopt : genPrecinctInfoOPT (prg_ (ts_tcp t)) base_env = None.

Lemma tile_comp c : 0 <= c < n ->
  comp_at tile_env c = set_resolutions (base_comp c)
    (imap (fun r res => genPrecinctInfo_res base_env (base_comp c) (Z.of_nat r) res) (resolutions (base_comp c))).
Proof.
  intros Hc. unfold comp_at, tile_env, genPrecinctInfo. rewrite Hopt. cbn [comps set_comps base_env].
  rewrite <- list_fmap_compose. by rewrite nthZ_fmap_seqZ.
Qed.

Lemma tile_res c r : 0 <= c < n -> 0 <= r < numresolutions_ (tccp c) ->
  res_at (comp_at tile_env c) r = genPrecinctInfo_res base_env (base_comp c) r (res_at (base_comp c) r).
Proof.
  intros Hc Hr. rewrite tile_comp by done. unfold res_at. cbn [resolutions set_resolutions].
  rewrite (nthZ_imap PIRes_default) by (unfold base_comp, init_comp; cbn [resolutions]; rewrite length_fmap, length_seqZ; lia).
  by rewrite Z2Nat.id by lia.
Qed.

(** [genPrecinctInfo] only adds the info. *)
Lemma genPrecinctInfo_res_eq e comp r res : exists i, genPrecinctInfo_res e comp r res =
  mkPIRes (res_precWidthExp res) (res_precHeightExp res) (precinctGridWidth res) (precinctGridHeight res) i /\
  (compression_ e = false -> precinctGridWidth res <> 0 -> precinctGridHeight res <> 0 ->
   fst (init_info e comp res r) = true -> i = Some (snd (init_info e comp res r))).
Proof.
  unfold genPrecinctInfo_res.
  destruct ((_ =? 0) || (_ =? 0)) eqn:Ez; [exists (precinctInfo res); split; [by destruct res|lia]|].
  destruct (compression_ e); [exists (precinctInfo res); split; [by destruct res|done]|].
  destruct (init_info e comp res r) as [[] i]; [by exists (Some i)|].
  exists (precinctInfo res). split; [by destruct res|done].
Qed.

Lemma tile_res_ok c r : 0 <= c < n -> 0 <= r < numresolutions_ (tccp c) -> res_ok tile_env c r.
Proof.
  intros Hc Hr. pose proof (so_comp t Hok c Hc) as Hcs. pose proof (cs_res _ _ Hcs) as Hn. fold (tccp c) in Hn.
  pose proof (tile_res c r Hc Hr) as Etr.
  destruct (genPrecinctInfo_res_eq base_env (base_comp c) r (res_at (base_comp c) r)) as (i & Eres & Hi).
  rewrite Eres in Etr. clear Eres.
  destruct (param_row_cols c r Hc Hr) as (Hx & Hy & _). pose proof (base_res c r Hc Hr) as Ebr.
  set (l := numresolutions_ (tccp c) - 1 - r) in *.
  assert (u8 l = l) as El by (apply wrap_small; lia).
  assert (precinctInfoOPT_ tile_env = None) as Eo by (unfold tile_env, genPrecinctInfo; by rewrite Hopt).
  assert (tileBounds tile_env = ts_bounds t) as Et by (unfold tile_env, genPrecinctInfo; by rewrite Hopt).
  assert (levels_x (comp_at tile_env c) r = nthZ 0 (horizontalDepth_ (tccp c)) l) as Elx
    by (rewrite tile_comp by done; unfold levels_x, base_comp; cbn -[wrap]; fold (tccp c) l; by rewrite El).
  assert (levels_y (comp_at tile_env c) r = nthZ 0 (verticalDepth_ (tccp c)) l) as Ely
    by (rewrite tile_comp by done; unfold levels_y, base_comp; cbn -[wrap]; fold (tccp c) l; by rewrite El).
  assert (comp_dx (comp_at tile_env c) = (img c).1 /\ comp_dy (comp_at tile_env c) = (img c).2) as [Edx Edy]
    by (by rewrite tile_comp by done).
  assert (init_info tile_env (comp_at tile_env c) (res_at (comp_at tile_env c) r) r =
    init_info base_env (base_comp c) (res_at (base_comp c) r) r) as Ei.
  { rewrite Etr, tile_comp by done. unfold init_info, tile_env, genPrecinctInfo. by rewrite Hopt. }
  split; rewrite ?Et, ?Elx, ?Ely, ?Edx, ?Edy, ?Ei, ?Etr, ?Ebr; cbn [res_precWidthExp res_precHeightExp precinctGridWidth precinctGridHeight precinctInfo]; try done.
  intros _ Hw Hh. rewrite Ebr in Hi. cbn [precinctGridWidth precinctGridHeight] in Hi.
  rewrite (Hi (so_decompress t Hok) Hw Hh); [by rewrite <- Ebr|].
  destruct (init_info _ _ _ _) as [b j] eqn:Ej. unfold init_info, base_comp in Ej. cbn -[wrap] in Ej. fold l in Ej. rewrite El in Ej.
  destruct (init_geometry _ _ _ _ _ _ _ _ _ _ _ _ Hx Hy Ej) as (-> & _ & _).
  apply axcols_nonempty in Hw, Hh. by rewrite !(proj2 (Z.ltb_lt _ _)) by done.
Qed.

(** *** The iterator *)

(** The bounds of the progression after [init]. *)
Definition tile_bounds : prog_bounds :=
  let max_lay := numLayers_ (ts_tcp t) in
  let max_r := max_res (manager_params t) in
  mkBounds (x0 (ts_bounds t)) (y0 (ts_bounds t)) (x1 (ts_bounds t)) (y1 (ts_bounds t)) 0 n
    0 (match prg_ (ts_tcp t) with GRK_RLCP | GRK_RPCL => Z.min max_r (ts_maxDecompRes t) | _ => max_r end)
    0 (max_precincts (manager_params t))
    0 (match prg_ (ts_tcp t) with GRK_LRCP => Z.min max_lay (layersToDecompress_ (ts_tcp t)) | _ => max_lay end).

Lemma manager_iter_eq {K} (k : K) : let st := tile_steps tile_env in
  manager_iter t 0 k = mkPI tile_env (prg_ (ts_tcp t)) tile_bounds 0 0 0 0 (x0 (ts_bounds t)) (y0 (ts_bounds t))
    st.1 st.2 (if 0 <? st.1 then active_step st.1 (x0 (ts_bounds t)) else 0)
    (if 0 <? st.2 then active_step st.2 (y0 (ts_bounds t)) else 0) false 0 0 false (tracker_ (manager_params t)) k.
Proof.
  intros st. unfold manager_iter, PacketIter_init. rewrite update_dxy_eq.
  destruct (so_single t Hok) as [Epoc Enum].
  assert (hasPoc (ts_tcp t) = false) as Ehp by (unfold hasPoc; by rewrite Epoc, Enum).
  assert (getNumProgressions (ts_tcp t) = 1) as Egn by (unfold getNumProgressions; by rewrite Enum).
  rewrite Ehp, (so_decompress t Hok). unfold init_bounds. rewrite Ehp. fold n.
  assert (tile_env = genPrecinctInfo (prg_ (ts_tcp t))
    (mkEnv n (base_comp <$> seqZ 0 n) (ts_bounds t) (ts_window t) (ts_wholeTile t)
      (getNumProgressions (ts_tcp t) =? 1) false (ts_maxDecompRes t) None)) as Ee
    by (unfold tile_env, base_env; by rewrite (so_decompress t Hok)).
  change (base_comp <$> seqZ 0 n) with ((fun c => init_comp (nthZ (0, 0) (ts_image t) c)
    (nthZ TCCP_default (tccps_ (ts_tcp t)) c) (nthZ [] (rows_ (manager_params t)) c)) <$> seqZ 0 n) in Ee.
  rewrite <- Ee. unfold single_progression. cbn -[tile_env tile_steps active_step Z.min].
  assert (singleProgression_ tile_env = true) as ->.
  { unfold tile_env, genPrecinctInfo. rewrite Hopt. cbn. by rewrite Egn. }
  assert (maxNumDecompositionResolutions tile_env = ts_maxDecompRes t) as ->
    by (unfold tile_env, genPrecinctInfo; by rewrite Hopt).
  assert (precinctInfoOPT_ tile_env = None) as -> by (unfold tile_env, genPrecinctInfo; by rewrite Hopt).
  unfold tile_bounds, set_prog, set_tx, set_ty, set_lay, set_res. cbn -[tile_env tile_steps active_step Z.min].
  rewrite !Z.min_id. by destruct (prg_ (ts_tcp t)).
Qed.

(** The iterator's tables in terms of the coding parameters. *)
Lemma tile_numres c : 0 <= c < n -> numresolutions (comp_at tile_env c) = numresolutions_ (tccp c).
Proof. intros Hc. by rewrite tile_comp. Qed.

Lemma tile_env_fields : tileBounds tile_env = ts_bounds t /\ unreducedTileWindow tile_env = ts_window t /\
  precinctInfoOPT_ tile_env = None /\ singleProgression_ tile_env = true /\ numcomps tile_env = n.
Proof.
  destruct (so_single t Hok) as [_ Enum].
  unfold tile_env, genPrecinctInfo. rewrite Hopt. cbn. unfold getNumProgressions. by rewrite Enum.
Qed.

Lemma tile_grids_unsigned : grids_unsigned tile_env.
Proof.
  intros c r. unfold comp_at. rewrite nthZ_max. set (c' := Z.max 0 c).
  unfold res_at. rewrite (nthZ_max _ _ r). set (r' := Z.max 0 r). fold (comp_at tile_env c') (res_at (comp_at tile_env c') r').
  assert (0 <= c' /\ 0 <= r') as [Hc0 Hr0] by lia.
  destruct (Z_lt_le_dec c' n) as [Hc|Hc].
  - destruct (Z_lt_le_dec r' (numresolutions_ (tccp c'))) as [Hr|Hr].
    + destruct (tile_res_ok c' r' ltac:(lia) ltac:(lia)) as [Hx Hy -> -> _ _].
      pose proof (axcols_range _ _ _ _ _ Hx). pose proof (axcols_range _ _ _ _ _ Hy). lia.
    + rewrite (tile_comp c') by lia. unfold res_at. cbn [set_resolutions resolutions].
      rewrite nthZ_out; [done|]. rewrite length_imap. unfold base_comp, init_comp. cbn [resolutions].
      rewrite length_fmap, length_seqZ. lia.
  - unfold comp_at. rewrite nthZ_out; [done|]. unfold tile_env, genPrecinctInfo. rewrite Hopt.
    cbn [comps set_comps base_env]. rewrite !length_fmap, length_seqZ. lia.
Qed.

(** *** Power-of-two subsampling *)

Lemma projected_axP t0 t1 d l e : axis_ok t0 t1 d l e -> projected_step d e l = axP d l e.
Proof.
  intros Hax. unfold projected_step.
  destruct (axis_machine _ _ _ _ _ Hax) as (_ & -> & <- & _). destruct Hax as (? & ? & ? & ? & ?).
  assert (0 < 2 ^ (e + l) <= 2 ^ 47) by (split; [lia|apply Z.pow_le_mono_r; lia]).
  rewrite Z.shiftl_1_l, (wrap_small 64 (2 ^ _)) by lia. by rewrite Z.shiftl_mul_pow2 by lia.
Qed.

Lemma axP_pow2 d l e : is_pow2 d -> 0 <= l -> 0 <= e -> is_pow2 (axP d l e).
Proof.
  intros [j [Hj ->]] Hl He. exists (j + l + e). split; [lia|].
  unfold axP, axD. by rewrite <- !Z.pow_add_r by lia.
Qed.

Hypothesis Hpow : forall c, 0 <= c < n -> is_pow2 (img c).1 /\ is_pow2 (img c).2.

Lemma tile_sizes c r : 0 <= c < n -> 0 <= r < numresolutions_ (tccp c) ->
  size_x (comp_at tile_env c) r = axP (comp_dx (comp_at tile_env c)) (levels_x (comp_at tile_env c) r)
    (res_precWidthExp (res_at (comp_at tile_env c) r)) /\
  size_y (comp_at tile_env c) r = axP (comp_dy (comp_at tile_env c)) (levels_y (comp_at tile_env c) r)
    (res_precHeightExp (res_at (comp_at tile_env c) r)) /\
  is_pow2 (size_x (comp_at tile_env c) r) /\ is_pow2 (size_y (comp_at tile_env c) r).
Proof.
  intros Hc Hr. destruct (tile_res_ok c r Hc Hr) as [Hx Hy _ _ _ _].
  assert (comp_dx (comp_at tile_env c) = (img c).1 /\ comp_dy (comp_at tile_env c) = (img c).2) as [Edx Edy]
    by (by rewrite tile_comp by done).
  unfold size_x, size_y. rewrite (projected_axP _ _ _ _ _ Hx), (projected_axP _ _ _ _ _ Hy).
  destruct Hx as (_ & _ & _ & ? & ?), Hy as (_ & _ & _ & ? & ?). destruct (Hpow c Hc) as [? ?].
  split; [done|]. split; [done|]. split; apply axP_pow2; rewrite ?Edx, ?Edy; try done; lia.
Qed.

(** The first component's highest resolution has a projected precinct size that
    fits the step. *)
Lemma tile_size_small : size_x (comp_at tile_env 0) (numresolutions_ (tccp 0) - 1) < UINT32_MAX /\
  size_y (comp_at tile_env 0) (numresolutions_ (tccp 0) - 1) < UINT32_MAX.
Proof.
  pose proof (so_comps t Hok) as Hn. assert (0 <= 0 < n) as H0 by lia.
  pose proof (so_comp t Hok 0 H0) as [Hdx Hdy Hres _ _ Hpw Hph [Eh Ev]].
  fold (img 0) in *. change (tccp_at (ts_tcp t) 0) with (tccp 0) in *.
  set (r := numresolutions_ (tccp 0) - 1). assert (0 <= r < numresolutions_ (tccp 0)) as Hr by lia.
  destruct (tile_sizes 0 r H0 Hr) as (-> & -> & _).
  assert (levels_x (comp_at tile_env 0) r = 0 /\ levels_y (comp_at tile_env 0) r = 0) as [-> ->].
  { rewrite tile_comp by done. unfold levels_x, levels_y, base_comp. cbn -[wrap]. change (tccp_at (ts_tcp t) 0) with (tccp 0).
    replace (numresolutions_ (tccp 0) - 1 - r) with 0 by lia. done. }
  assert (res_precWidthExp (res_at (comp_at tile_env 0) r) = nthZ 0 (precWidthExp_ (tccp 0)) r /\
          res_precHeightExp (res_at (comp_at tile_env 0) r) = nthZ 0 (precHeightExp_ (tccp 0)) r) as [-> ->].
  { rewrite tile_res by done. destruct (genPrecinctInfo_res_eq base_env (base_comp 0) r (res_at (base_comp 0) r)) as (i & -> & _).
    by rewrite base_res by done. }
  assert (comp_dx (comp_at tile_env 0) = (img 0).1 /\ comp_dy (comp_at tile_env 0) = (img 0).2) as [-> ->]
    by (by rewrite tile_comp by done).
  specialize (Hpw r Hr). specialize (Hph r Hr). unfold axP, axD, UINT32_MAX. rewrite !Z.mul_1_r.
  assert (2 ^ nthZ 0 (precWidthExp_ (tccp 0)) r <= 2 ^ 15) by (apply Z.pow_le_mono_r; lia).
  assert (2 ^ nthZ 0 (precHeightExp_ (tccp 0)) r <= 2 ^ 15) by (apply Z.pow_le_mono_r; lia). nia.
Qed.

Lemma tile_steps_ok : let st := tile_steps tile_env in 0 < st.1 < 2 ^ 32 /\ 0 < st.2 < 2 ^ 32 /\
  forall c r, 0 <= c < n -> 0 <= r < numresolutions_ (tccp c) -> step_divides tile_env st.1 st.2 c r.
Proof.
  intros st. pose proof (so_comps t Hok) as Hn. destruct tile_env_fields as (_ & _ & _ & _ & En).
  destruct (tile_steps_divide tile_env) as [M1 M2].
  - rewrite En. lia.
  - rewrite En. intros c Hc. rewrite tile_numres by done. pose proof (cs_res _ _ (so_comp t Hok c Hc)).
    split; [unfold tccp; lia|]. intros r Hr. rewrite tile_numres in Hr by done. by apply tile_sizes.
  - fold st in M1, M2. rewrite En in M1, M2. destruct tile_size_small as [Sx Sy].
    assert (0 <= 0 < n) as H0 by lia. pose proof (cs_res _ _ (so_comp t Hok 0 H0)) as Hres.
    change (tccp_at (ts_tcp t) 0) with (tccp 0) in Hres.
    assert (forall a (f : PacketIterInfoComponent -> Z -> Z),
      merged a (fun u => exists c r, 0 <= c < n /\ 0 <= r < numresolutions (comp_at tile_env c) /\ u = f (comp_at tile_env c) r) ->
      f (comp_at tile_env 0) (numresolutions_ (tccp 0) - 1) < UINT32_MAX ->
      0 < a < 2 ^ 32 /\ forall c r, 0 <= c < n -> 0 <= r < numresolutions_ (tccp c) -> (a | f (comp_at tile_env c) r)) as Hm.
    { intros a f [[-> Hbig]|([j [Hj ->]] & Hlt & Hdiv)] Hs.
      - specialize (Hbig (f (comp_at tile_env 0) (numresolutions_ (tccp 0) - 1))). exfalso.
        assert (UINT32_MAX <= f (comp_at tile_env 0) (numresolutions_ (tccp 0) - 1)); [|lia].
        apply Hbig. exists 0, (numresolutions_ (tccp 0) - 1). rewrite tile_numres by done. repeat split; lia.
      - split; [unfold UINT32_MAX in Hlt; lia|]. intros c r Hc Hr. apply Hdiv. exists c, r. by rewrite tile_numres. }
    destruct (Hm _ _ M1 Sx) as [Px Dx], (Hm _ _ M2 Sy) as [Py Dy].
    split; [done|]. split; [done|]. intros c r Hc Hr. destruct (tile_sizes c r Hc Hr) as (Ex & Ey & _).
    split; [rewrite <- Ex; by apply Dx|rewrite <- Ey; by apply Dy].
Qed.

(** *** The start of the iteration *)

Lemma tile_bounds_ok : bounds_ok (tile_bounds).
Proof.
  pose proof (so_comps t Hok) as Hn. fold n in Hn. pose proof (manager_max_res 0 ltac:(lia)) as Hr.
  pose proof (so_layers t Hok). pose proof (so_x t Hok). pose proof (so_y t Hok).
  unfold bounds_ok, tile_bounds. cbn [comp_s comp_e res_s res_e lay_s lay_e prec_s tx0 tx1 ty0 ty1].
  destruct (prg_ (ts_tcp t)); split_and!; lia.
Qed.

Lemma manager_at_start {K} (k : K) : at_start (manager_iter t 0 k).
Proof.
  rewrite manager_iter_eq. destruct tile_env_fields as (_ & _ & _ & Es & _).
  repeat split; try done; try apply tile_bounds_ok.
Qed.

Lemma manager_at_origin {K} (k : K) : at_origin (manager_iter t 0 k).
Proof.
  destruct tile_steps_ok as (H1 & H2 & _). destruct (manager_at_start k) as (Hst & _).
  pose proof (so_x t Hok). pose proof (so_y t Hok).
  rewrite manager_iter_eq in *. unfold at_origin, roving. cbn [dx dy x y dxActive dyActive env prog incrementInner layno compno resno].
  rewrite !(proj2 (Z.ltb_lt _ _)) by lia. repeat split; try done; try lia; apply Hst.
Qed.

Lemma manager_tables_ok : tables_ok tile_env tile_bounds (fun _ => tile_steps tile_env).
Proof.
  destruct tile_steps_ok as (H1 & H2 & H3). destruct tile_env_fields as (Et & _).
  split; [unfold covers_tile; by rewrite Et|]. intros c Hc. split; [lia|]. split; [lia|].
  intros r Hr Hr'. change (0 <= c < n) in Hc. change (0 <= r < res_e tile_bounds) in Hr.
  rewrite tile_numres in Hr' by done. split; [apply tile_res_ok|apply H3]; try done; lia.
Qed.

(** The number of precincts of a resolution, from the manager's grid. *)
Definition resolution_precincts (c r : Z) : Z :=
  let g := precinct_grid (nthZ 0 (precWidthExp_ (tccp c)) r) (nthZ 0 (precHeightExp_ (tccp c)) r)
             (resBounds (ts_bounds t) (img c) (tccp c) r) in g.1 * g.2.

Lemma tile_num_precincts c r : 0 <= c < n -> 0 <= r < numresolutions_ (tccp c) ->
  num_precincts tile_env c r = resolution_precincts c r.
Proof.
  intros Hc Hr. unfold num_precincts, resolution_precincts.
  destruct (param_row_cols c r Hc Hr) as (Hx & Hy & Erow). unfold param_row in Erow. cbv zeta in *.
  generalize dependent (precinct_grid (nthZ 0 (precWidthExp_ (tccp c)) r) (nthZ 0 (precHeightExp_ (tccp c)) r)
    (resBounds (ts_bounds t) (img c) (tccp c) r)).
  intros [gw gh] Erow. cbn [fst snd] in *. pose proof (f_equal (fun q => q.1.2) Erow) as Eg1.
  pose proof (f_equal (fun q => q.2) Erow) as Eg2. cbn [fst snd] in Eg1, Eg2. rewrite Eg1, Eg2, tile_res by done.
  destruct (genPrecinctInfo_res_eq base_env (base_comp c) r (res_at (base_comp c) r)) as (i & -> & _).
  rewrite base_res by done. cbn [precinctGridWidth precinctGridHeight].
  pose proof (axcols_range _ _ _ _ _ Hx). pose proof (axcols_range _ _ _ _ _ Hy). apply wrap_small. nia.
Qed.

(** The packets of the tile that are to be decompressed. *)
Definition tile_packet (p : packet_id) : Prop :=
  let '(l, r, c, k) := p in
  0 <= l < numLayers_ (ts_tcp t) /\ 0 <= c < n /\ 0 <= r < numresolutions_ (tccp c) /\
  0 <= k < resolution_precincts c r /\
  match prg_ (ts_tcp t) with
  | GRK_LRCP => l < layersToDecompress_ (ts_tcp t)
  | GRK_RLCP | GRK_RPCL => r < ts_maxDecompRes t
  | _ => True
  end.

Lemma tile_packet_in p : in_progression tile_env tile_bounds p <-> tile_packet p.
Proof.
  destruct p as [[[l r] c] k]. unfold in_progression, tile_packet.
  unfold tile_bounds. cbn [comp_s comp_e res_s res_e lay_s lay_e prec_s].
  split.
  - intros (Hl & Hr & Hc & Hr' & Hk). rewrite tile_numres in Hr' by done.
    rewrite tile_num_precincts in Hk by (try done; lia). destruct (prg_ (ts_tcp t)); split_and!; try done; lia.
  - intros (Hl & Hc & Hr & Hk & Hb). pose proof (manager_max_res c Hc). rewrite tile_numres, tile_num_precincts by done.
    destruct (prg_ (ts_tcp t)); split_and!; try done; lia.
Qed.
End Manager.

(** The compatible progression orders. *)
Definition general_order (o : GRK_PROG_ORDER) : Prop :=
  match o with GRK_LRCP | GRK_RLCP | GRK_RPCL | GRK_PCRL | GRK_PRCL => True | _ => False end.

(** The decompression window reaches the tile's bottom right corner. *)
Definition window_reaches (t : TileSetup) : Prop :=
  x1 (ts_bounds t) <= x1 (ts_window t) /\ y1 (ts_bounds t) <= y1 (ts_window t).

Definition pow2_subsampling (t : TileSetup) : Prop :=
  forall c, 0 <= c < Z.of_nat (length (ts_image t)) ->
    is_pow2 (nthZ (0, 0) (ts_image t) c).1 /\ is_pow2 (nthZ (0, 0) (ts_image t) c).2.

(** C7: A decompressed tile's packets are all visited, once each, on the general path: when
    [genPrecinctInfoOPT] declines the tile, as it does for subsampled components.  The
    iterator that the packet manager builds for a single-progression tile (its precinct
    grids from [getParams], its tables from [init] and [genPrecinctInfo], its steps from
    [update_dxy]), decompressed up to its bottom right corner, is drained, in each of the
    orders LRCP, RLCP, RPCL, PCRL and PRCL and for power-of-two component subsampling, to a
    sequence that holds every packet (layer, resolution, component, precinct) of the tile to
    be decompressed exactly once and no other, and then ends. *)
Theorem tile_packets_complete {X K : Type} `{Skip : PacketSkipper X K} (t : TileSetup) (k : K) (cp : bool) :
  setup_ok t -> pow2_subsampling t -> genPrecinctInfoOPT (prg_ (ts_tcp t)) (base_env t) = None ->
  general_order (prg_ (ts_tcp t)) -> window_reaches t ->
  exists l, drain (next cp) current (S (length l)) (manager_iter t 0 k) = Some l /\
    NoDup l /\ forall p, p ∈ l <-> tile_packet t p.
Proof.
  intros Hok Hpow Hopt Hord Hwin. set (s := manager_iter t 0 k).
  assert (exists l, drain (next cp) current (S (length l)) s = Some l /\ enumerates (env s) (prog s) l) as (l & Hd & Hn & Hin).
  { destruct (tile_env_fields t Hok Hopt) as (Et & Ew & Eo & _).
    pose proof (manager_at_start t Hok Hopt k) as Hs. pose proof (manager_at_origin t Hok Hopt Hpow k) as Ho. fold s in Hs, Ho.
    assert (env s = tile_env t /\ progression s = prg_ (ts_tcp t) /\ prog s = tile_bounds t /\ (dx s, dy s) = tile_steps (tile_env t))
      as (Ee & Ep & Eb & Est).
    { unfold s. rewrite manager_iter_eq by done. cbn. by destruct (tile_steps (tile_env t)). }
    pose proof (manager_tables_ok t Hok Hopt Hpow) as Htab.
    assert (tables_ok (env s) (prog s) (fun _ => (dx s, dy s))) as Htab' by (by rewrite Ee, Eb, Est).
    pose proof (tile_grids_unsigned t Hok Hopt) as Hgrid.
    destruct (prg_ (ts_tcp t)) eqn:Eord; try done.
    1, 2: exists (layered_packets (progression s) (env s) (prog s)); apply layered_sequence; [done|auto|];
      unfold layered_ready; by rewrite Ee, Eo.
    all: exists (spatial_packets (progression s) (env s) (prog s) (dx s, dy s)); apply spatial_sequence;
      [done|by rewrite Ee|unfold spatial_ready; rewrite Ep; cbv zeta]; try done.
    - split; [done|]. by rewrite Ee.
    - split; [done|]. rewrite Ee, Eb. unfold window_covers. by rewrite Ew. }
  exists l. split; [done|]. split; [done|]. intros p. rewrite Hin. unfold s. rewrite manager_iter_eq by done.
  by apply tile_packet_in.
Qed.

(** A 4:2:0 tile in PCRL order with an odd origin. *)
Definition example_tccp : TileComponentCodingParams :=
  mkTCCP 2 [0; 1] [0; 1] false [2; 3] [2; 3].
Definition example_setup (order : GRK_PROG_ORDER) : TileSetup :=
  mkTileSetup [(1, 1); (2, 2)]
    (mkTCP order 2 2 false 0 [] [example_tccp; example_tccp])
    (Rect4 3 5 19 17) (Rect4 3 5 19 17) true false 2.

Lemma example_setup_ok order : setup_ok (example_setup order).
Proof.
  assert (forall c, 0 <= c < 2 -> c = 0 \/ c = 1) as H01 by lia.
  split; cbn -[Z.lt Z.le Z.pow]; try lia; try done.
  intros c [->| ->]%H01; (split; cbn -[Z.lt Z.le]; try lia; try done);
    intros l [->| ->]%H01; split; vm_compute; discriminate.
Qed.

#[export] Instance no_skip : PacketSkipper Empty_set unit := fun _ _ => Ok (true, tt).

Lemma tile_packets_complete_witness :
  exists l, drain (next false) current (S (length l)) (manager_iter (example_setup GRK_PCRL) 0 tt) = Some l /\
    NoDup l /\ forall p, p ∈ l <-> tile_packet (example_setup GRK_PCRL) p.
Proof.
  apply (tile_packets_complete (example_setup GRK_PCRL) tt false).
  - apply example_setup_ok.
  - intros c Hc. change (0 <= c < 2) in Hc. assert (c = 0 \/ c = 1) as [->| ->] by lia.
    + split; by exists 0.
    + split; by exists 1.
  - vm_compute. reflexivity.
  - exact I.
  - split; cbn; lia.
Defined.

Lemma layered_orders_complete_witness :
  let s := manager_iter (example_setup GRK_RLCP) 0 tt in
  let l := layered_packets GRK_RLCP (env s) (prog s) in
  drain (next false) current (S (length l)) s = Some l /\ enumerates (env s) (prog s) l.
Proof.
  apply (layered_orders_complete (manager_iter (example_setup GRK_RLCP) 0 tt) false).
  - apply manager_at_start; [apply example_setup_ok|vm_compute; reflexivity].
  - right. vm_compute. reflexivity.
  - exact I.
Defined.

(** The same tile in CPRL order: the luma steps divide the chroma precincts. *)
Lemma example_cprl_ready : spatial_ready (manager_iter (example_setup GRK_CPRL) 0 tt).
Proof.
  assert (genPrecinctInfoOPT GRK_CPRL (base_env (example_setup GRK_CPRL)) = None) as Hopt by (vm_compute; reflexivity).
  unfold spatial_ready. rewrite manager_iter_eq by (apply example_setup_ok || done).
  cbn [env prog progression dx dy ts_tcp example_setup prg_].
  assert (forall v : Z, 0 <= v < 2 -> v = 0 \/ v = 1) as H01 by lia.
  split; [split|split].
  - vm_compute. repeat split.
  - intros c Hc. change (0 <= c < 2) in Hc. split; [|split].
    1, 2: destruct (H01 c Hc) as [->| ->]; vm_compute; reflexivity.
    intros r Hr Hr'. change (0 <= r < 2) in Hr. split; [apply tile_res_ok; [apply example_setup_ok|done|done|]|].
    + destruct (H01 c Hc) as [->| ->]; done.
    + apply H01 in Hc, Hr.
      destruct Hc as [->| ->], Hr as [->| ->]; split; apply Z.mod_divide; vm_compute; congruence.
  - intros c Hc. change (0 <= c <= 2) in Hc. assert (c = 0 \/ c = 1 \/ c = 2) as [->|[->| ->]] by lia; vm_compute; intuition congruence.
  - vm_compute. congruence.
Qed.

Lemma spatial_orders_complete_witness :
  let s := manager_iter (example_setup GRK_CPRL) 0 tt in
  let l := spatial_packets GRK_CPRL (env s) (prog s) (dx s, dy s) in
  drain (next false) current (S (length l)) s = Some l /\ enumerates (env s) (prog s) l.
Proof.
  apply (spatial_orders_complete (manager_iter (example_setup GRK_CPRL) 0 tt) false).
  - apply manager_at_origin; [apply example_setup_ok|vm_compute; reflexivity|].
    intros c Hc. change (0 <= c < 2) in Hc. assert (c = 0 \/ c = 1) as [->| ->] by lia.
    + split; by exists 0.
    + split; by exists 1.
  - vm_compute. reflexivity.
  - exact example_cprl_ready.
Defined.

(** ** Tiles that are not enumerated *)

(** Two components of one resolution, with 4x4 precincts. *)
Definition two_components (order : GRK_PROG_ORDER) (d0 d1 : Z) : TileSetup :=
  let tccp := mkTCCP 1 [0] [0] false [2] [2] in
  mkTileSetup [(d0, d0); (d1, d1)] (mkTCP order 1 1 false 0 [] [tccp; tccp])
    (Rect4 0 0 24 8) (Rect4 0 0 24 8) true false 1.

Lemma two_components_ok order d0 d1 : 1 <= d0 <= 255 -> 1 <= d1 <= 255 -> setup_ok (two_components order d0 d1).
Proof.
  intros H0 H1.
  assert (forall c, 0 <= c < 2 -> c = 0 \/ c = 1) as H01 by lia.
  split; cbn -[Z.lt Z.le Z.pow]; try lia; try done.
  intros c [->| ->]%H01; (split; cbn -[Z.lt Z.le]; try lia; try done);
    intros l Hl; change (0 <= l < 1) in Hl; assert (l = 0) as -> by lia; split; vm_compute; discriminate.
Qed.

(** A packet that the iterator of a tile never hands out. *)
Definition never_visited (t : TileSetup) (p : packet_id) : Prop :=
  tile_packet t p /\ exists n l, drain (next false) current n (manager_iter t 0 tt) = Some l /\ p ∉ l.

(** In CPRL order a component that follows a more coarsely subsampled one
    is iterated with the previous component's steps, and can lose precincts: with
    components subsampled by 2 and 1 in a well-formed tile, the second precinct
    of the second component is never visited. *)
Lemma cprl_skips_precincts :
  setup_ok (two_components GRK_CPRL 2 1) /\ never_visited (two_components GRK_CPRL 2 1) (0, 0, 1, 1).
Proof.
  split; [apply two_components_ok; lia|]. split; [vm_compute; intuition congruence|].
  exists 10%nat. eexists. split; [vm_compute; reflexivity|].
  apply (bool_decide_unpack _). vm_compute. exact I.
Qed.

(** The step is the minimum, not a common divisor, of the projected
    precinct sizes: with components subsampled by 2 and 3 the second precinct
    of the second component is never visited in RPCL order. *)
Lemma min_step_skips_precincts :
  setup_ok (two_components GRK_RPCL 2 3) /\ never_visited (two_components GRK_RPCL 2 3) (0, 0, 1, 1).
Proof.
  split; [apply two_components_ok; lia|]. split; [vm_compute; intuition congruence|].
  exists 10%nat. eexists. split; [vm_compute; reflexivity|].
  apply (bool_decide_unpack _). vm_compute. exact I.
Qed.
