(* ===== verification/TilePart.v ===== *)
(** Tile parts of the compressor: [PacketIter::enable_tile_part_generation] and
    [checkForRemainingValidProgression] (t2/PacketIter.cpp), and the tile-part
    counts of codestream/compress/CodeStreamCompress.cpp.

    A tile is split into tile parts by fixing the outer loops of its progression
    order, up to a divider letter, to single values.  Each call of
    [enable_tile_part_generation] narrows the iterator's bounds to the next
    tile part, with the position kept in the progression's temporaries.  The
    theorems show that the calls enumerate the outer loops in lexicographic
    order, and that the number of tile parts announced is the number of values
    enumerated where it fits its type. *)
From S2P Require Import Prelude Geometry IncludeTracker Loops PacketIter.

(** ** Progression strings *)

Inductive prog_char := ChL | ChR | ChC | ChP | ChNul.

#[export] Instance prog_char_eq_dec : EqDecision prog_char.
Proof. solve_decision. Defined.

Definition convertProgressionOrder (prg_order : GRK_PROG_ORDER) : list prog_char :=
  match prg_order with
  | GRK_CPRL => [ChC; ChP; ChR; ChL]
  | GRK_LRCP => [ChL; ChR; ChC; ChP]
  | GRK_PCRL => [ChP; ChC; ChR; ChL]
  | GRK_RLCP => [ChR; ChL; ChC; ChP]
  | GRK_RPCL => [ChR; ChP; ChC; ChL]
  | _ => []
  end.

Definition char_at (s : list prog_char) (i : nat) : prog_char := nth i s ChNul.

Definition is_layered (o : GRK_PROG_ORDER) : bool :=
  match o with GRK_LRCP | GRK_RLCP => true | _ => false end.

(** ** Number of tile parts *)

(** The loop of [getNumTilePartsForProgression] from letter [i]: the product of
    the ends, and the position of the divider when it is found. *)
Fixpoint count_tile_parts (fuel i : nat) (s : list prog_char) (divider : prog_char) (poc : grk_progression)
    (num pos : Z) : Z * Z :=
  match fuel with
  | O => (num, pos)
  | S fuel =>
      let num := u64 (match char_at s i with
                      | ChC => num * tp_comp_e poc
                      | ChR => num * tp_res_e poc
                      | ChP => num * tp_prec_e poc
                      | ChL => num * tp_lay_e poc
                      | ChNul => num
                      end) in
      if decide (divider = char_at s i) then (num, Z.of_nat i)
      else count_tile_parts fuel (S i) s divider poc num pos
  end.

(** The count, and the new [newTilePartProgressionPosition_]. *)
Definition getNumTilePartsForProgression (enabled : bool) (divider : prog_char) (prg : GRK_PROG_ORDER)
    (poc : grk_progression) (pos : Z) : Z * Z :=
  if enabled then
    let (num, pos) := count_tile_parts 4 0 (convertProgressionOrder prg) divider poc 1 pos in (u8 num, pos)
  else (1, pos).

Definition maxTilePartsPerTileJ2K : Z := 255.
Definition maxTotalTilePartsJ2K : Z := 65535.

(** The assertions of [getNumTilePartsForProgression]: a known order, a divider other than P,
    fewer tile parts than the maximum. *)
Definition count_asserts (enabled : bool) (divider : prog_char) (prg : GRK_PROG_ORDER) (poc : grk_progression) : bool :=
  let s := convertProgressionOrder prg in
  (0 <? Z.of_nat (length s)) && negb (enabled && bool_decide (divider = ChP) && bool_decide (divider ∈ s)) &&
  ((if enabled then (count_tile_parts 4 0 s divider poc 1 0).1 else 1) <? maxTilePartsPerTileJ2K).

(** The progressions of one tile: the tile's total, the running total of all
    tiles and the divider position; [None] on the error returns. *)
Fixpoint tile_part_totals (enabled : bool) (divider : prog_char) (prg : GRK_PROG_ORDER)
    (pocs : list grk_progression) (tile_total all_total pos : Z) : option (Z * Z * Z) :=
  match pocs with
  | [] => Some (tile_total, all_total, pos)
  | poc :: pocs =>
      let (n, pos) := getNumTilePartsForProgression enabled divider prg poc pos in
      if maxTilePartsPerTileJ2K <? u16 (n + tile_total) then None
      else if maxTotalTilePartsJ2K <? u32 (all_total + n) then None
      else tile_part_totals enabled divider prg pocs (u8 (u16 (n + tile_total))) (u32 (all_total + n)) pos
  end.

(** [getNumTileParts] over the tiles' (order, progressions) pairs: the signalled
    number of each tile, and the total. *)
Fixpoint getNumTileParts (enabled : bool) (divider : prog_char)
    (tiles : list (GRK_PROG_ORDER * list grk_progression)) (total pos : Z) : option (list Z * Z * Z) :=
  match tiles with
  | [] => Some ([], total, pos)
  | (prg, pocs) :: tiles =>
      t ← tile_part_totals enabled divider prg pocs 0 total pos;
      let '(signalled, total, pos) := t in
      r ← getNumTileParts enabled divider tiles total pos;
      let '(l, total, pos) := r in Some (signalled :: l, total, pos)
  end.

(** ** Narrowing the iterator's bounds *)

Definition set_temp (t : prog_temp) (p : grk_progression) : grk_progression :=
  mkProgression (poc_progression p) (specified_compression_poc_prog p) (poc_bounds p)
    (tp_comp_s p) (tp_comp_e p) (tp_res_s p) (tp_res_e p) (tp_prec_e p) (tp_lay_e p)
    (tp_tx_s p) (tp_tx_e p) (tp_ty_s p) (tp_ty_e p) (poc_dx p) (poc_dy p) t.

Definition set_comp_temp v (t : prog_temp) := mkTemp v (res_temp t) (prec_temp t) (lay_temp t) (tx0_temp t) (ty0_temp t).
Definition set_res_temp v (t : prog_temp) := mkTemp (comp_temp t) v (prec_temp t) (lay_temp t) (tx0_temp t) (ty0_temp t).
Definition set_prec_temp v (t : prog_temp) := mkTemp (comp_temp t) (res_temp t) v (lay_temp t) (tx0_temp t) (ty0_temp t).
Definition set_lay_temp v (t : prog_temp) := mkTemp (comp_temp t) (res_temp t) (prec_temp t) v (tx0_temp t) (ty0_temp t).
Definition set_tx0_temp v (t : prog_temp) := mkTemp (comp_temp t) (res_temp t) (prec_temp t) (lay_temp t) v (ty0_temp t).
Definition set_ty0_temp v (t : prog_temp) := mkTemp (comp_temp t) (res_temp t) (prec_temp t) (lay_temp t) (tx0_temp t) v.

(** The next multiple of [d] after [v], in 32 bits. *)
Definition next_multiple (v d : Z) : Z := u32 (v + d - v mod d).

Section TilePart.
Variable poc : grk_progression.
Let layered := is_layered (poc_progression poc).
Let pocProg := convertProgressionOrder (poc_progression poc).

(** What the calls change: the progression's temporaries and the iterator's bounds. *)
Definition tp_state : Type := prog_temp * prog_bounds.

(** Letters after the divider run over their whole range. *)
Definition full_range (c : prog_char) (b : prog_bounds) : prog_bounds :=
  match c with
  | ChR => set_res (tp_res_s poc) (tp_res_e poc) b
  | ChC => set_comp (tp_comp_s poc) (tp_comp_e poc) b
  | ChL => set_lay 0 (tp_lay_e poc) b
  | ChP =>
      if layered then set_prec 0 (tp_prec_e poc) b
      else set_tx (tp_tx_s poc) (tp_tx_e poc) (set_ty (tp_ty_s poc) (tp_ty_e poc) b)
  | ChNul => b
  end.

(** A letter set to its first value. *)
Definition first_comp (st : tp_state) : tp_state :=
  let v := tp_comp_s poc in (set_comp_temp (u16 (v + 1)) st.1, set_comp v (u16 (v + 1)) st.2).
Definition first_res (st : tp_state) : tp_state :=
  let v := tp_res_s poc in (set_res_temp (u8 (v + 1)) st.1, set_res v (u8 (v + 1)) st.2).
Definition first_lay (st : tp_state) : tp_state :=
  (set_lay_temp (u16 (0 + 1)) st.1, set_lay 0 (u16 (0 + 1)) st.2).
Definition first_prec (st : tp_state) : tp_state :=
  (set_prec_temp (u64 (0 + 1)) st.1, set_prec 0 (u64 (0 + 1)) st.2).
Definition first_tx (st : tp_state) : tp_state :=
  let v := tp_tx_s poc in let w := next_multiple v (poc_dx poc) in (set_tx0_temp w st.1, set_tx v w st.2).
Definition first_ty (st : tp_state) : tp_state :=
  let v := tp_ty_s poc in let w := next_multiple v (poc_dy poc) in (set_ty0_temp w st.1, set_ty v w st.2).

Definition first_digit (c : prog_char) (st : tp_state) : tp_state :=
  match c with
  | ChC => first_comp st
  | ChR => first_res st
  | ChL => first_lay st
  | ChP => if layered then first_prec st else first_ty (first_tx st)
  | ChNul => st
  end.

(** The bounds of the previous tile part, recovered from the temporaries. *)
Definition repeat_digit (c : prog_char) (st : tp_state) : tp_state :=
  let (t, b) := st in
  match c with
  | ChC => (t, set_comp (u16 (comp_temp t - 1)) (comp_temp t) b)
  | ChR => (t, set_res (u8 (res_temp t - 1)) (res_temp t) b)
  | ChL => (t, set_lay (u16 (lay_temp t - 1)) (lay_temp t) b)
  | ChP =>
      if layered then (t, set_prec (u64 (prec_temp t - 1)) (prec_temp t) b)
      else (t, set_ty (u32 (ty0_temp t - poc_dy poc - ty0_temp t mod poc_dy poc)) (ty0_temp t)
                 (set_tx (u32 (tx0_temp t - poc_dx poc - tx0_temp t mod poc_dx poc)) (tx0_temp t) b))
  | ChNul => st
  end.

(** [checkForRemainingValidProgression(n - 1, ...)]: whether one of the letters
    before position [n] has not reached its end. *)
Fixpoint checkForRemainingValidProgression (n : nat) (t : prog_temp) : bool :=
  match n with
  | O => false
  | S n =>
      match char_at pocProg n with
      | ChR => if res_temp t =? tp_res_e poc then checkForRemainingValidProgression n t else true
      | ChC => if comp_temp t =? tp_comp_e poc then checkForRemainingValidProgression n t else true
      | ChL => if lay_temp t =? tp_lay_e poc then checkForRemainingValidProgression n t else true
      | ChP =>
          if layered then
            (if prec_temp t =? tp_prec_e poc then checkForRemainingValidProgression n t else true)
          else if tx0_temp t =? tp_tx_e poc then
            (if ty0_temp t =? tp_ty_e poc then checkForRemainingValidProgression n t else true)
          else true
      | ChNul => false
      end
  end.

(** A letter moved to its next value, [true] when the move carries over. *)
Definition next_comp (st : tp_state) : tp_state :=
  let v := comp_temp st.1 in (set_comp_temp (u16 (v + 1)) st.1, set_comp v (u16 (v + 1)) st.2).
Definition next_res (st : tp_state) : tp_state :=
  let v := res_temp st.1 in (set_res_temp (u8 (v + 1)) st.1, set_res v (u8 (v + 1)) st.2).
Definition next_lay (st : tp_state) : tp_state :=
  let v := lay_temp st.1 in (set_lay_temp (u16 (v + 1)) st.1, set_lay v (u16 (v + 1)) st.2).
Definition next_prec (st : tp_state) : tp_state :=
  let v := prec_temp st.1 in (set_prec_temp (u64 (v + 1)) st.1, set_prec v (u64 (v + 1)) st.2).
Definition next_tx (st : tp_state) : tp_state :=
  let v := tx0_temp st.1 in let w := next_multiple v (poc_dx poc) in (set_tx0_temp w st.1, set_tx v w st.2).
Definition next_ty (st : tp_state) : tp_state :=
  let v := ty0_temp st.1 in let w := next_multiple v (poc_dy poc) in (set_ty0_temp w st.1, set_ty v w st.2).

(** The common shape of the four counted letters. *)
Definition advance_counted (at_end remaining : bool) (first next : tp_state -> tp_state) (st : tp_state)
  : tp_state * bool :=
  if at_end then (if remaining then (first st, true) else (st, false)) else (next st, false).

Definition advance_spatial (remaining : bool) (st : tp_state) : tp_state * bool :=
  let t := st.1 in
  if tp_tx_e poc <=? tx0_temp t then
    if tp_ty_e poc <=? ty0_temp t then
      (if remaining then (first_tx (first_ty st), true) else (st, false))
    else (first_tx (next_ty st), false)
  else (next_tx st, false).

Definition advance_digit (c : prog_char) (remaining : bool) (st : tp_state) : tp_state * bool :=
  let t := st.1 in
  match c with
  | ChR => advance_counted (res_temp t =? tp_res_e poc) remaining first_res next_res st
  | ChC => advance_counted (comp_temp t =? tp_comp_e poc) remaining first_comp next_comp st
  | ChL => advance_counted (lay_temp t =? tp_lay_e poc) remaining first_lay next_lay st
  | ChP => if layered then advance_counted (prec_temp t =? tp_prec_e poc) remaining first_prec next_prec st
           else advance_spatial remaining st
  | ChNul => (st, true)
  end.

(** The loop over the positions [n - 1] down to 0. *)
Fixpoint advance_from (n : nat) (incr_top : bool) (st : tp_state) : tp_state :=
  match n with
  | O => st
  | S i =>
      let c := char_at pocProg i in
      let st := repeat_digit c st in
      if incr_top then
        let (st, incr_top) := advance_digit c (checkForRemainingValidProgression i st.1) st in
        advance_from i incr_top st
      else advance_from i incr_top st
  end.
Fixpoint first_from (n : nat) (st : tp_state) : tp_state :=
  match n with
  | O => st
  | S i => first_from i (first_digit (char_at pocProg i) st)
  end.

(** All letters on their whole range: no tile parts. *)
Definition whole_bounds (b : prog_bounds) : prog_bounds :=
  set_tx (tp_tx_s poc) (tp_tx_e poc) (set_ty (tp_ty_s poc) (tp_ty_e poc)
    (set_prec 0 (tp_prec_e poc) (set_comp (tp_comp_s poc) (tp_comp_e poc)
      (set_res (tp_res_s poc) (tp_res_e poc) (set_lay 0 (tp_lay_e poc) b))))).

(** [enable_tile_part_generation]; [enabled] is the test of the encoder's flag,
    the profile and the T2 mode. *)
Definition enable_tile_part_generation (enabled first_poc_tile_part : bool) (pos : nat) (st : tp_state) : tp_state :=
  if enabled then
    let b := foldl (fun b i => full_range (char_at pocProg i) b) st.2 (seq (S pos) (3 - pos)) in
    if first_poc_tile_part then first_from (S pos) (st.1, b) else advance_from (S pos) true (st.1, b)
  else (st.1, whole_bounds st.2).

(** The bounds of the first [n] tile parts of the progression. *)
Fixpoint more_tile_parts (n : nat) (pos : nat) (st : tp_state) : list prog_bounds :=
  match n with
  | O => []
  | S n => let st := enable_tile_part_generation true false pos st in st.2 :: more_tile_parts n pos st
  end.
Definition tile_parts (n : nat) (pos : nat) (st : tp_state) : list prog_bounds :=
  match n with
  | O => []
  | S n => let st := enable_tile_part_generation true true pos st in st.2 :: more_tile_parts n pos st
  end.
End TilePart.

(** ** Lexicographic enumeration *)

(** All vectors within the ranges, the first letter varying slowest. *)
Fixpoint lex (rs : list (Z * Z)) : list (list Z) :=
  match rs with
  | [] => [[]]
  | (s, e) :: rs => mjoin ((fun v => cons v <$> lex rs) <$> seqZ s (e - s))
  end.

(** The next vector, when there is one. *)
Fixpoint lex_succ (rs : list (Z * Z)) (vs : list Z) : option (list Z) :=
  match rs, vs with
  | (s, e) :: rs, v :: vs =>
      match lex_succ rs vs with
      | Some vs => Some (v :: vs)
      | None => if v + 1 <? e then Some (v + 1 :: rs.*1) else None
      end
  | _, _ => None
  end.

Definition ranges_ok (rs : list (Z * Z)) : Prop := Forall (fun r => r.1 < r.2) rs.

Lemma lex_nonempty rs : ranges_ok rs -> lex rs !! 0%nat = Some rs.*1.
Proof.
  induction 1 as [|[s e] rs Hr Hrs IH]; [done|]. cbn [lex fst snd] in *. rewrite seqZ_cons by lia. csimpl.
  rewrite lookup_app_l; [by rewrite list_lookup_fmap, IH|].
  rewrite length_fmap. by apply lookup_lt_Some in IH.
Qed.

(** Blocks of equal length one after the other. *)
Lemma lookup_blocks {A} (f : Z -> list A) (m : nat) s n k : (forall v, length (f v) = m) -> (k < m)%nat -> 0 <= n ->
  forall j, 0 <= j < n -> mjoin (f <$> seqZ s n) !! (Z.to_nat j * m + k)%nat = f (s + j) !! k.
Proof.
  intros Hf Hk Hn. revert s. pattern n. apply natlike_ind; [lia| |done].
  intros i Hi IH s j Hj. rewrite seqZ_cons by lia. csimpl.
  destruct (decide (j = 0)) as [->|].
  - rewrite lookup_app_l by (rewrite Hf; lia). by replace (s + 0) with s by lia.
  - rewrite lookup_app_r by (rewrite Hf; nia). rewrite Hf.
    replace (Z.to_nat j * m + k - m)%nat with (Z.to_nat (j - 1) * m + k)%nat by nia.
    replace (Z.pred (Z.succ i)) with i by lia. rewrite IH by lia. f_equal. f_equal. lia.
Qed.

Lemma lex_step rs : ranges_ok rs -> forall k vs, lex rs !! k = Some vs -> lex rs !! S k = lex_succ rs vs.
Proof.
  induction 1 as [|[s e] rs Hr Hrs IH]; intros k vs Hk.
  { destruct k; cbn in Hk; [by injection Hk as <-|done]. }
  pose proof (lex_nonempty rs Hrs) as Hne. cbn [lex fst snd] in *.
  set (f := fun v => cons v <$> lex rs) in *. set (m := length (lex rs)).
  assert (forall v, length (f v) = m) as Hf by (intros; apply length_fmap).
  assert (0 < m)%nat as Hm by (by apply lookup_lt_Some in Hne).
  pose proof (lookup_lt_Some _ _ _ Hk) as Hlen. rewrite (length_mjoin_const f _ m) in Hlen by done. rewrite length_seqZ in Hlen.
  set (j := Z.of_nat (k / m)). set (i := (k mod m)%nat).
  assert (k = (Z.to_nat j * m + i)%nat) as Ek.
  { unfold j, i. rewrite Nat2Z.id, Nat.mul_comm. apply Nat.div_mod. lia. }
  assert (i < m)%nat as Hi by (by apply Nat.mod_upper_bound; lia).
  assert (0 <= j < e - s) as Hj.
  { unfold j. assert (k / m < Z.to_nat (e - s))%nat by (apply Nat.Div0.div_lt_upper_bound; by rewrite Nat.mul_comm). lia. }
  rewrite Ek, (lookup_blocks f m) in Hk by (done || lia). unfold f in Hk. rewrite list_lookup_fmap in Hk.
  destruct (lex rs !! i) as [us|] eqn:Eu; [|done]. cbn in Hk. injection Hk as <-. cbn [lex_succ].
  specialize (IH i us Eu). destruct (lex_succ rs us) as [us'|] eqn:Es.
  - apply lookup_lt_Some in IH as Hi'. rewrite Ek.
    replace (S (Z.to_nat j * m + i)) with (Z.to_nat j * m + S i)%nat by lia.
    rewrite (lookup_blocks f m) by (done || lia). unfold f. by rewrite list_lookup_fmap, IH.
  - apply lookup_ge_None in IH. assert (S i = m) as Em by (unfold m in *; lia).
    replace (S k) with (Z.to_nat (j + 1) * m + 0)%nat by nia.
    destruct (Z.ltb_spec (s + j + 1) e) as [Hlt|Hge].
    + rewrite (lookup_blocks f m) by (done || lia). unfold f. rewrite list_lookup_fmap, Hne. cbn.
      f_equal. f_equal. lia.
    + apply lookup_ge_None. rewrite (length_mjoin_const f _ m), length_seqZ by done. nia.
Qed.

(** The successor from the last letter's side: add one there, or carry. *)
Lemma lex_succ_snoc rs vs s e v : length rs = length vs ->
  lex_succ (rs ++ [(s, e)]) (vs ++ [v]) =
    if v + 1 <? e then Some (vs ++ [v + 1])
    else match lex_succ rs vs with Some vs => Some (vs ++ [s]) | None => None end.
Proof.
  revert vs. induction rs as [|[s' e'] rs IH]; intros [|v' vs] Hl; try done; cbn [app lex_succ].
  rewrite IH by (cbn in Hl; lia). destruct (v + 1 <? e); [done|].
  destruct (lex_succ rs vs); [done|]. destruct (v' + 1 <? e'); [|done]. by rewrite fmap_app.
Qed.

Lemma lex_succ_length rs vs ws : length rs = length vs -> lex_succ rs vs = Some ws -> length ws = length vs.
Proof.
  revert vs ws. induction rs as [|[s e] rs IH]; intros [|v vs] ws Hl; try done; cbn [lex_succ].
  destruct (lex_succ rs vs) as [us|] eqn:E.
  - intros [= <-]. cbn in Hl |- *. rewrite (IH vs us); [done|lia|done].
  - destruct (_ <? _); [|done]. intros [= <-]. cbn in Hl |- *. rewrite length_fmap. lia.
Qed.

(** ** The calls enumerate the outer loops *)

(** The range of a counted letter, its temporary and its bounds. *)
Definition digit_range (poc : grk_progression) (c : prog_char) : Z * Z :=
  match c with
  | ChR => (tp_res_s poc, tp_res_e poc)
  | ChC => (tp_comp_s poc, tp_comp_e poc)
  | ChL => (0, tp_lay_e poc)
  | ChP => (0, tp_prec_e poc)
  | ChNul => (0, 0)
  end.
Definition digit_temp (c : prog_char) (t : prog_temp) : Z :=
  match c with
  | ChR => res_temp t | ChC => comp_temp t | ChL => lay_temp t | ChP => prec_temp t | ChNul => 0
  end.
Definition digit_bounds (c : prog_char) (b : prog_bounds) : Z * Z :=
  match c with
  | ChR => (res_s b, res_e b) | ChC => (comp_s b, comp_e b) | ChL => (lay_s b, lay_e b)
  | ChP => (prec_s b, prec_e b) | ChNul => (0, 0)
  end.
Definition digit_width (c : prog_char) : Z := match c with ChR => 8 | ChC | ChL => 16 | _ => 64 end.

(** A letter that is counted, with a non-empty range of its width. *)
Definition counted (poc : grk_progression) (c : prog_char) : Prop :=
  c <> ChNul /\ (c = ChP -> is_layered (poc_progression poc) = true) /\
  0 <= (digit_range poc c).1 < (digit_range poc c).2 /\ (digit_range poc c).2 < 2 ^ digit_width c.

Section Enumerate.
Variable poc : grk_progression.
Let s := convertProgressionOrder (poc_progression poc).

(** The letter [c] is at value [v]. *)
Definition at_value (c : prog_char) (v : Z) (st : tp_state) : Prop :=
  digit_temp c st.1 = v + 1 /\ digit_bounds c st.2 = (v, v + 1).

(** Another letter is not touched. *)
Definition keeps (c : prog_char) (st st' : tp_state) : Prop :=
  digit_temp c st'.1 = digit_temp c st.1 /\ digit_bounds c st'.2 = digit_bounds c st.2.

Lemma wrap_succ c v : 0 <= v -> v < (digit_range poc c).2 -> (digit_range poc c).2 < 2 ^ digit_width c ->
  wrap (digit_width c) (v + 1) = v + 1.
Proof. intros. apply wrap_small. lia. Qed.

Lemma first_digit_spec c st : counted poc c ->
  at_value c (digit_range poc c).1 (first_digit poc c st) /\
  forall c', c' <> c -> keeps c' st (first_digit poc c st).
Proof.
  intros (Hn & Hp & Hr & Hw). pose proof (wrap_succ c (digit_range poc c).1 ltac:(lia) ltac:(lia) Hw) as E.
  destruct c; try done; cbn [first_digit].
  4: rewrite (Hp eq_refl).
  all: unfold first_comp, first_res, first_lay, first_prec, at_value, keeps; cbn in E |- *; rewrite E.
  all: (split; [done|]); by intros [].
Qed.

(** The previous value is recovered and nothing else changes. *)
Lemma repeat_digit_spec c v st : counted poc c -> (digit_range poc c).1 <= v < (digit_range poc c).2 ->
  digit_temp c st.1 = v + 1 ->
  at_value c v (repeat_digit poc c st) /\ (repeat_digit poc c st).1 = st.1 /\
  forall c', c' <> c -> keeps c' st (repeat_digit poc c st).
Proof.
  intros (Hn & Hp & Hr & Hw) Hv Ht. destruct st as [t b].
  assert (wrap (digit_width c) (v + 1 - 1) = v) as E by (replace (v + 1 - 1) with v by lia; apply wrap_small; lia).
  destruct c; try done; cbn [repeat_digit].
  4: rewrite (Hp eq_refl).
  all: unfold at_value, keeps; cbn in E, Ht |- *; rewrite Ht, E.
  all: (split; [done|]); (split; [done|]); by intros [].
Qed.

Definition next_digit (c : prog_char) : tp_state -> tp_state :=
  match c with ChC => next_comp | ChR => next_res | ChL => next_lay | ChP => next_prec | ChNul => id end.

Lemma next_digit_spec c v st : counted poc c -> 0 <= v -> v + 1 < (digit_range poc c).2 -> digit_temp c st.1 = v + 1 ->
  at_value c (v + 1) (next_digit c st) /\ forall c', c' <> c -> keeps c' st (next_digit c st).
Proof.
  intros (Hn & Hp & Hr & Hw) H0 Hv Ht.
  assert (wrap (digit_width c) (v + 1 + 1) = v + 1 + 1) as E by (apply wrap_small; lia).
  destruct c; try done; unfold at_value, keeps; cbn in E, Ht |- *; rewrite Ht, E.
  all: (split; [done|]); by intros [].
Qed.

Lemma advance_digit_counted c rem st : counted poc c ->
  advance_digit poc c rem st =
    advance_counted (digit_temp c st.1 =? (digit_range poc c).2) rem (first_digit poc c) (next_digit c) st.
Proof.
  intros (Hn & Hp & _). destruct c; try done. unfold advance_digit, advance_counted, first_digit. by rewrite (Hp eq_refl).
Qed.

Lemma keeps_refl c st : keeps c st st.
Proof. done. Qed.
Lemma keeps_trans c st st' st'' : keeps c st st' -> keeps c st' st'' -> keeps c st st''.
Proof. intros [? ?] [? ?]. split; congruence. Qed.

(** The next value, a carry to the first, or nothing at the end. *)
Lemma advance_digit_spec c v rem st : counted poc c -> (digit_range poc c).1 <= v < (digit_range poc c).2 ->
  at_value c v st ->
  let r := advance_digit poc c rem st in
  r.2 = ((v + 1 =? (digit_range poc c).2) && rem) /\
  at_value c (if v + 1 =? (digit_range poc c).2 then (if rem then (digit_range poc c).1 else v) else v + 1) r.1 /\
  forall c', c' <> c -> keeps c' st r.1.
Proof.
  intros Hc Hv Hat. pose proof Hat as [Ht Hb]. rewrite advance_digit_counted by done. rewrite Ht. unfold advance_counted.
  destruct (Z.eqb_spec (v + 1) (digit_range poc c).2) as [Ee|Ne]; cbn [andb].
  - destruct rem; cbn [fst snd]; [split; [done|]; by apply first_digit_spec|]. by split.
  - cbn [fst snd]. split; [done|]. destruct Hc as (? & ? & ? & ?). apply next_digit_spec; (done || lia).
Qed.

(** *** The letters before position [n] *)

Definition letters (n : nat) : list prog_char := take n s.
Definition ranges (n : nat) : list (Z * Z) := digit_range poc <$> letters n.

(** The first [n] letters are counted. *)
Definition counted_prefix (n : nat) : Prop := (n <= length s)%nat /\ Forall (counted poc) (letters n).

(** The first [n] letters are at the values [vs]. *)
Definition at_values (n : nat) (vs : list Z) (st : tp_state) : Prop :=
  Forall2 (fun c v => at_value c v st) (letters n) vs.
(** Their temporaries are: the bounds may have changed since. *)
Definition temps_at (n : nat) (vs : list Z) (t : prog_temp) : Prop :=
  Forall2 (fun c v => digit_temp c t = v + 1) (letters n) vs.
Definition in_ranges (n : nat) (vs : list Z) : Prop :=
  Forall2 (fun c v => (digit_range poc c).1 <= v < (digit_range poc c).2) (letters n) vs.

Lemma s_nodup : NoDup s.
Proof. unfold s. destruct (poc_progression poc); cbn; repeat constructor; set_solver. Qed.

Lemma letters_S n : (S n <= length s)%nat -> letters (S n) = letters n ++ [char_at s n].
Proof.
  intros Hn. unfold letters, char_at. destruct (lookup_lt_is_Some_2 s n) as [c Hc]; [lia|].
  rewrite (take_S_r s n c Hc). by rewrite (nth_lookup_Some s n ChNul c Hc).
Qed.

Lemma letters_fresh n : (S n <= length s)%nat -> forall c, c ∈ letters n -> c <> char_at s n.
Proof.
  intros Hn c Hc ->. pose proof s_nodup as Hd. rewrite <- (take_drop (S n) s) in Hd.
  apply list.NoDup_app in Hd as [Hd _]. change (take (S n) s) with (letters (S n)) in Hd. rewrite letters_S in Hd by done.
  apply list.NoDup_app in Hd as (_ & Hd & _). apply (Hd _ Hc). set_solver.
Qed.

Lemma counted_prefix_S n : counted_prefix (S n) -> counted_prefix n /\ counted poc (char_at s n) /\ (S n <= length s)%nat.
Proof.
  intros [Hl Hc]. rewrite letters_S in Hc by done. apply Forall_app in Hc as [Hc1 Hc2].
  split; [split; [lia|done]|]. split; [by inversion Hc2|done].
Qed.

Lemma Forall2_letters_S (Q : prog_char -> Z -> Prop) n vs : (S n <= length s)%nat ->
  Forall2 Q (letters (S n)) vs -> exists ws v, vs = ws ++ [v] /\ Forall2 Q (letters n) ws /\ Q (char_at s n) v.
Proof.
  intros Hn H. rewrite letters_S in H by done. apply Forall2_app_inv_l in H as (ws & us & H1 & H2 & ->).
  inversion H2 as [|? v ? ? Hv Hnil]. inversion Hnil; subst. eauto.
Qed.

(** Letters that are kept stay at their values. *)
Lemma at_values_keeps n vs st st' : (forall c, c ∈ letters n -> keeps c st st') -> at_values n vs st -> at_values n vs st'.
Proof.
  unfold at_values. intros Hk H. induction H as [|c v l vs [Ht Hb] Hl IH]; [constructor|]. constructor.
  - destruct (Hk c) as [E1 E2]; [set_solver|]. split; congruence.
  - apply IH. intros. apply Hk. set_solver.
Qed.
Lemma temps_at_eq n vs st st' : (forall c, c ∈ letters n -> keeps c st st') -> temps_at n vs st.1 -> temps_at n vs st'.1.
Proof.
  unfold temps_at. intros Hk H. induction H as [|c v l vs Ht Hl IH]; [constructor|]. constructor.
  - destruct (Hk c) as [E1 _]; [set_solver|]. congruence.
  - apply IH. intros. apply Hk. set_solver.
Qed.

Lemma ranges_S n : (S n <= length s)%nat -> ranges (S n) = ranges n ++ [digit_range poc (char_at s n)].
Proof. intros. unfold ranges. by rewrite letters_S, fmap_app. Qed.

Lemma ranges_length n (Q : prog_char -> Z -> Prop) vs : Forall2 Q (letters n) vs -> length (ranges n) = length vs.
Proof. intros H. unfold ranges. rewrite length_fmap. by apply Forall2_length in H. Qed.

Lemma counted_ranges_ok n : counted_prefix n -> ranges_ok (ranges n).
Proof.
  intros [_ H]. unfold ranges_ok, ranges. apply Forall_fmap. eapply Forall_impl; [|done].
  intros c (_ & _ & ? & _). cbn. lia.
Qed.

(** The test for a remaining value is the existence of a successor. *)
Lemma check_spec n t vs : counted_prefix n -> temps_at n vs t -> in_ranges n vs ->
  checkForRemainingValidProgression poc n t = bool_decide (is_Some (lex_succ (ranges n) vs)).
Proof.
  revert vs. induction n as [|n IH]; intros vs Hc Ht Hr; [done|].
  apply counted_prefix_S in Hc as (Hcn & (Hn & Hp & Hcr & Hw) & Hlen).
  apply Forall2_letters_S in Ht as (ws & v & -> & Hts & Htv); [|done].
  apply Forall2_letters_S in Hr as (ws' & v' & [-> [= ->]]%app_inj_2 & Hrs & Hrv); [|done|done].
  rewrite ranges_S by done. rewrite (surjective_pairing (digit_range poc (char_at s n))).
  rewrite lex_succ_snoc by (by eapply ranges_length).
  assert (checkForRemainingValidProgression poc (S n) t =
    if digit_temp (char_at s n) t =? (digit_range poc (char_at s n)).2
    then checkForRemainingValidProgression poc n t else true) as ->.
  { cbn [checkForRemainingValidProgression]. fold s. destruct (char_at s n) eqn:E; try done. by rewrite (Hp eq_refl). }
  rewrite Htv, (IH ws') by done.
  destruct (Z.eqb_spec (v' + 1) (digit_range poc (char_at s n)).2), (Z.ltb_spec (v' + 1) (digit_range poc (char_at s n)).2);
    try lia.
  - by destruct (lex_succ (ranges n) ws').
  - by rewrite bool_decide_eq_true_2.
Qed.

Lemma first_from_spec n st : counted_prefix n ->
  at_values n ((ranges n).*1) (first_from poc n st) /\ forall c, c ∉ letters n -> keeps c st (first_from poc n st).
Proof.
  revert st. induction n as [|n IH]; intros st Hc; [by split; [constructor|]|].
  apply counted_prefix_S in Hc as (Hcn & Hd & Hlen). cbn [first_from]. fold s.
  destruct (first_digit_spec (char_at s n) st Hd) as [Hat Hk]. destruct (IH (first_digit poc (char_at s n) st) Hcn) as [Hats Hks].
  assert (char_at s n ∉ letters n) as Hfresh by (intros Hin; by apply (letters_fresh n Hlen _ Hin)).
  split.
  - unfold at_values. rewrite letters_S, ranges_S, fmap_app by done. apply Forall2_app; [done|]. constructor; [|constructor].
    destruct (Hks _ Hfresh) as [E1 E2]. destruct Hat. split; congruence.
  - intros c Hc. rewrite letters_S in Hc by done. eapply keeps_trans; [apply Hk|apply Hks]; set_solver.
Qed.

Lemma advance_from_spec n (incr : bool) (st : tp_state) vs : counted_prefix n -> temps_at n vs st.1 -> in_ranges n vs ->
  at_values n (if incr then default vs (lex_succ (ranges n) vs) else vs) (advance_from poc n incr st) /\
  forall c, c ∉ letters n -> keeps c st (advance_from poc n incr st).
Proof.
  revert incr st vs. induction n as [|n IH]; intros incr st vs Hc Ht Hr.
  { inversion Ht; subst. split; [|done]. by destruct incr; constructor. }
  apply counted_prefix_S in Hc as (Hcn & Hd & Hlen).
  apply Forall2_letters_S in Ht as (ws & v & -> & Hts & Htv); [|done].
  apply Forall2_letters_S in Hr as (ws' & v' & [-> [= ->]]%app_inj_2 & Hrs & Hrv); [|done|done].
  set (c := char_at s n) in *.
  assert (c ∉ letters n) as Hfresh by (intros Hin; by apply (letters_fresh n Hlen _ Hin)).
  assert (forall c', c' ∈ letters n -> c' <> c) as Hne by (intros c' Hin ->; done).
  destruct (repeat_digit_spec c v' st Hd Hrv Htv) as (Hat & Hsame & Hk1).
  cbn [advance_from]. fold s. fold c. set (st1 := repeat_digit poc c st) in *.
  assert (temps_at n ws' st1.1) as Hts1 by (by rewrite Hsame).
  assert (forall st2 w (incr2 : bool), at_value c w st2 -> (forall c', c' <> c -> keeps c' st1 st2) ->
    at_values (S n) ((if incr2 then default ws' (lex_succ (ranges n) ws') else ws') ++ [w]) (advance_from poc n incr2 st2) /\
    forall c', c' ∉ letters (S n) -> keeps c' st (advance_from poc n incr2 st2)) as Hrec.
  { intros st2 w incr2 Hw Hk2. destruct (IH incr2 st2 ws' Hcn) as [Hats Hks].
    - eapply temps_at_eq; [|done]. intros. by apply Hk2, Hne.
    - done.
    - split.
      + unfold at_values. rewrite letters_S by done. apply Forall2_app; [done|]. constructor; [|constructor].
        fold c. destruct (Hks c Hfresh) as [E1 E2]. destruct Hw. split; congruence.
      + intros c' Hc'. rewrite letters_S in Hc' by done.
        eapply keeps_trans; [apply Hk1|eapply keeps_trans; [apply Hk2|apply Hks]]; set_solver. }
  destruct incr; [|by apply Hrec].
  pose proof (advance_digit_spec c v' (checkForRemainingValidProgression poc n st1.1) st1 Hd Hrv Hat) as Hadv.
  rewrite (check_spec n st1.1 ws') in * by done. rewrite ranges_S by done. fold c.
  rewrite (surjective_pairing (digit_range poc c)), lex_succ_snoc by (by eapply ranges_length).
  destruct (advance_digit poc c _ st1) as [st2 incr2]. cbn [fst snd] in Hadv. destruct Hadv as (-> & Hw & Hk2).
  specialize (Hrec st2 _ ((v' + 1 =? (digit_range poc c).2) && bool_decide (is_Some (lex_succ (ranges n) ws'))) Hw Hk2).
  destruct (Z.eqb_spec (v' + 1) (digit_range poc c).2), (Z.ltb_spec (v' + 1) (digit_range poc c).2); try lia; cbn [andb] in Hrec.
  - destruct (lex_succ (ranges n) ws') eqn:El; exact Hrec.
  - exact Hrec.
Qed.

(** *** The letters after the divider *)

(** The letter [c] runs over its whole range. *)
Definition is_full (c : prog_char) (b : prog_bounds) : Prop := full_range poc c b = b.

Definition set_digit (c : prog_char) (p q : Z) (b : prog_bounds) : prog_bounds :=
  match c with
  | ChR => set_res p q b | ChC => set_comp p q b | ChL => set_lay p q b | ChP => set_prec p q b | ChNul => b
  end.

Lemma is_full_set c c' p q b : c <> c' -> (c' = ChP -> is_layered (poc_progression poc) = true) ->
  is_full c b -> is_full c (set_digit c' p q b).
Proof.
  unfold is_full, full_range. intros Hne Hp. destruct (is_layered (poc_progression poc)).
  - destruct c, c', b; try done; cbn; by intros [= <- <-].
  - destruct c, c', b; try done; try (by specialize (Hp eq_refl)); cbn;
      first [by intros [= <- <- <- <-] | by intros [= <- <-]].
Qed.

Lemma is_full_range c b : is_full c (full_range poc c b).
Proof. unfold is_full, full_range. by destruct c, b, (is_layered (poc_progression poc)). Qed.

Lemma full_range_keeps c c' b : c <> c' -> is_full c b -> is_full c (full_range poc c' b).
Proof.
  unfold is_full, full_range. intros Hne. destruct (is_layered (poc_progression poc)), c, c', b; try done; cbn;
    first [by intros [= <- <- <- <-] | by intros [= <- <-]].
Qed.

Lemma first_digit_set c st : counted poc c -> exists p q, (first_digit poc c st).2 = set_digit c p q st.2.
Proof. intros (? & Hp & _). destruct c; try done; cbn; rewrite ?(Hp eq_refl); do 2 eexists; reflexivity. Qed.
Lemma repeat_digit_set c st : counted poc c -> exists p q, (repeat_digit poc c st).2 = set_digit c p q st.2.
Proof. intros (? & Hp & _). destruct st, c; try done; cbn; rewrite ?(Hp eq_refl); do 2 eexists; reflexivity. Qed.
Lemma advance_digit_set c rem st : counted poc c ->
  (advance_digit poc c rem st).1.2 = st.2 \/ exists p q, (advance_digit poc c rem st).1.2 = set_digit c p q st.2.
Proof.
  intros Hc. rewrite advance_digit_counted by done. unfold advance_counted.
  destruct (_ =? _); [destruct rem; [right; by apply first_digit_set|by left]|right].
  destruct Hc as (? & _). destruct c; try done; do 2 eexists; reflexivity.
Qed.

Lemma first_from_full n st c : counted_prefix n -> c ∉ letters n -> is_full c st.2 -> is_full c (first_from poc n st).2.
Proof.
  revert st. induction n as [|n IH]; intros st Hc Hin Hf; [done|].
  apply counted_prefix_S in Hc as (Hcn & Hd & Hlen). rewrite letters_S in Hin by done. cbn [first_from]. fold s.
  apply IH; [done|set_solver|]. destruct (first_digit_set (char_at s n) st Hd) as (p & q & ->).
  apply is_full_set; [set_solver|by destruct Hd as (_ & ? & _)|done].
Qed.

Lemma advance_from_full n incr st c : counted_prefix n -> c ∉ letters n -> is_full c st.2 ->
  is_full c (advance_from poc n incr st).2.
Proof.
  revert incr st. induction n as [|n IH]; intros incr st Hc Hin Hf; [done|].
  apply counted_prefix_S in Hc as (Hcn & Hd & Hlen). rewrite letters_S in Hin by done. cbn [advance_from]. fold s.
  assert (is_full c (repeat_digit poc (char_at s n) st).2) as H1.
  { destruct (repeat_digit_set (char_at s n) st Hd) as (p & q & ->).
    apply is_full_set; [set_solver|by destruct Hd as (_ & ? & _)|done]. }
  destruct incr; [|apply IH; [done|set_solver|done]].
  pose proof (advance_digit_set (char_at s n) (checkForRemainingValidProgression poc n
    (repeat_digit poc (char_at s n) st).1) (repeat_digit poc (char_at s n) st) Hd) as Hset.
  destruct (advance_digit _ _ _ _) as [st2 incr2]. cbn [fst] in Hset. apply IH; [done|set_solver|].
  destruct Hset as [->|(p & q & ->)]; [done|]. apply is_full_set; [set_solver|by destruct Hd as (_ & ? & _)|done].
Qed.

(** *** The calls *)

(** A tile part: the letters up to the divider at the values [vs], the others on
    their whole range. *)
Definition part_at (pos : nat) (b : prog_bounds) (vs : list Z) : Prop :=
  (fun c => digit_bounds c b) <$> letters (S pos) = (fun v => (v, v + 1)) <$> vs /\
  forall c, c ∈ drop (S pos) s -> is_full c b.

Lemma full_range_stays c c' b : is_full c b -> is_full c (full_range poc c' b).
Proof. intros H. destruct (decide (c = c')) as [<-|]; [apply is_full_range|by apply full_range_keeps]. Qed.

Lemma full_loop pos b c : length s = 4%nat -> (pos < 4)%nat -> c ∈ drop (S pos) s ->
  is_full c (foldl (fun b i => full_range poc (char_at s i) b) b (seq (S pos) (3 - pos))).
Proof.
  intros Hlen Hpos Hc.
  assert (exists i, i ∈ seq (S pos) (3 - pos) /\ char_at s i = c) as (i & Hi & <-).
  { apply list_elem_of_lookup in Hc as [j Hj]. rewrite lookup_drop in Hj. exists (S pos + j)%nat.
    pose proof (lookup_lt_Some _ _ _ Hj). split; [apply elem_of_seq; lia|]. by apply nth_lookup_Some. }
  clear Hc. revert b. induction (seq (S pos) (3 - pos)) as [|k l IH]; intros b; [set_solver|]. cbn [foldl].
  apply elem_of_cons in Hi as [->|Hi]; [|by apply IH].
  assert (forall l b, is_full (char_at s k) b -> is_full (char_at s k) (foldl (fun b i => full_range poc (char_at s i) b) b l)) as H.
  { clear. induction l as [|j l IH]; intros b Hb; [done|]. cbn. by apply IH, full_range_stays. }
  apply H, is_full_range.
Qed.

Lemma counted_length pos : counted_prefix (S pos) -> length s = 4%nat /\ (pos < 4)%nat.
Proof. intros [Hl _]. unfold s in *. destruct (poc_progression poc); cbn in *; lia. Qed.

Lemma dropped_not_letters pos c : c ∈ drop (S pos) s -> c ∉ letters (S pos).
Proof.
  intros Hd Hl. pose proof s_nodup as Hn. rewrite <- (take_drop (S pos) s) in Hn.
  apply list.NoDup_app in Hn as (_ & Hn & _). by apply (Hn c).
Qed.

Lemma part_at_values pos vs st : at_values (S pos) vs st -> (forall c, c ∈ drop (S pos) s -> is_full c st.2) ->
  part_at pos st.2 vs.
Proof.
  intros Ha Hf. split; [|done]. unfold at_values in Ha. induction Ha as [|c v l vs [_ Hb] _ IH]; [done|].
  csimpl. by rewrite Hb, IH.
Qed.

Lemma enable_first pos st : counted_prefix (S pos) ->
  let st' := enable_tile_part_generation poc true true pos st in
  at_values (S pos) ((ranges (S pos)).*1) st' /\ part_at pos st'.2 ((ranges (S pos)).*1).
Proof.
  intros Hc. destruct (counted_length pos Hc) as [Hlen Hpos]. unfold enable_tile_part_generation. fold s.
  set (b := foldl _ _ _). destruct (first_from_spec (S pos) (st.1, b) Hc) as [Hat _]. split; [done|].
  apply part_at_values; [done|]. intros c Hin. apply first_from_full; [done|by apply dropped_not_letters|by apply full_loop].
Qed.

Lemma enable_next pos vs ws st : counted_prefix (S pos) -> at_values (S pos) vs st -> in_ranges (S pos) vs ->
  lex_succ (ranges (S pos)) vs = Some ws ->
  let st' := enable_tile_part_generation poc true false pos st in at_values (S pos) ws st' /\ part_at pos st'.2 ws.
Proof.
  intros Hc Hat Hr Hs. destruct (counted_length pos Hc) as [Hlen Hpos]. unfold enable_tile_part_generation. fold s.
  set (b := foldl _ _ _).
  destruct (advance_from_spec (S pos) true (st.1, b) vs Hc) as [Hat' _]; [|done|].
  { eapply Forall2_impl; [|exact Hat]. by intros c v [? _]. }
  rewrite Hs in Hat'. split; [done|]. apply part_at_values; [done|]. intros c Hin.
  apply advance_from_full; [done|by apply dropped_not_letters|by apply full_loop].
Qed.

Lemma lex_in_ranges n k vs : counted_prefix n -> lex (ranges n) !! k = Some vs -> in_ranges n vs.
Proof.
  intros _ Hk%list_elem_of_lookup_2. revert vs Hk. unfold in_ranges, ranges.
  induction (letters n) as [|c l IH]; intros vs Hin; csimpl.
  - apply list_elem_of_singleton in Hin as ->. constructor.
  - cbn [fmap list_fmap lex] in Hin. destruct (digit_range poc c) as [lo hi] eqn:E.
    apply list_elem_of_join in Hin as (us & Hvs & Hus). apply list_elem_of_fmap in Hus as (v & -> & Hv%elem_of_seqZ).
    apply list_elem_of_fmap in Hvs as (ws & -> & Hws). constructor; [rewrite E; cbn; lia|by apply IH].
Qed.

Lemma more_tile_parts_spec pos : counted_prefix (S pos) -> forall n k vs st,
  lex (ranges (S pos)) !! k = Some vs -> at_values (S pos) vs st -> (k + n < length (lex (ranges (S pos))))%nat ->
  Forall2 (part_at pos) (more_tile_parts poc n pos st) (take n (drop (S k) (lex (ranges (S pos))))).
Proof.
  intros Hc. induction n as [|n IH]; intros k vs st Hk Hat Hlen; [constructor|].
  destruct (lookup_lt_is_Some_2 (lex (ranges (S pos))) (S k)) as [ws Hws]; [lia|].
  pose proof (lex_step _ (counted_ranges_ok _ Hc) k vs Hk) as Hs. rewrite Hws in Hs. symmetry in Hs.
  destruct (enable_next pos vs ws st Hc Hat (lex_in_ranges _ _ _ Hc Hk) Hs) as [Hat' Hpart].
  cbn [more_tile_parts]. rewrite (drop_S _ ws) by done. cbn [take]. constructor; [done|].
  apply (IH (S k) ws); [done|done|lia].
Qed.

Lemma tile_parts_spec n pos st : counted_prefix (S pos) -> (n <= length (lex (ranges (S pos))))%nat ->
  Forall2 (part_at pos) (tile_parts poc n pos st) (take n (lex (ranges (S pos)))).
Proof.
  intros Hc Hn. destruct n as [|n]; [constructor|]. cbn [tile_parts].
  pose proof (lex_nonempty _ (counted_ranges_ok _ Hc)) as H0. destruct (enable_first pos st Hc) as [Hat Hpart].
  rewrite <- (drop_0 (lex (ranges (S pos)))), (drop_S _ _ _ H0). cbn [take]. constructor; [done|].
  apply (more_tile_parts_spec pos Hc n 0 _ _ H0 Hat). lia.
Qed.
End Enumerate.

(** ** The number of tile parts *)

Definition range_product (rs : list (Z * Z)) : Z := foldr (fun r n => (r.2 - r.1) * n) 1 rs.

Lemma lex_length rs : ranges_ok rs -> Z.of_nat (length (lex rs)) = range_product rs.
Proof.
  induction 1 as [|[s e] rs Hr Hrs IH]; [done|]. cbn [lex range_product foldr fst snd] in *.
  rewrite (length_mjoin_const _ _ (length (lex rs))) by (intros; apply length_fmap).
  rewrite length_seqZ, Nat2Z.inj_mul, IH. unfold range_product. nia.
Qed.

Lemma range_product_pos rs : ranges_ok rs -> 0 < range_product rs.
Proof. induction 1 as [|[s e] rs Hr Hrs IH]; [done|]. cbn in *. fold (range_product rs). nia. Qed.

Section Count.
Variable poc : grk_progression.
Let s := convertProgressionOrder (poc_progression poc).

Lemma count_tile_parts_spec pos p0 : length s = 4%nat -> (pos < 4)%nat -> forall k fuel i num,
  (i + k = pos)%nat -> (k < fuel)%nat ->
  count_tile_parts fuel i s (char_at s pos) poc num p0 =
    (foldl (fun n c => u64 (n * (digit_range poc c).2)) num (take (S k) (drop i s)), Z.of_nat pos).
Proof.
  intros Hlen Hpos. induction k as [|k IH]; intros fuel i num Hi Hf; (destruct fuel as [|fuel]; [lia|]).
  - replace i with pos by lia. cbn [count_tile_parts]. rewrite decide_True by done.
    destruct (lookup_lt_is_Some_2 s pos) as [c Hc]; [lia|]. rewrite (drop_S s c pos Hc). cbn [take foldl].
    unfold char_at. rewrite (nth_lookup_Some s pos ChNul c Hc). f_equal. destruct c; try done.
    exfalso. apply list_elem_of_lookup_2 in Hc. unfold s in Hc. destruct (poc_progression poc); set_solver.
  - destruct (lookup_lt_is_Some_2 s i) as [c Hc]; [lia|]. destruct (lookup_lt_is_Some_2 s pos) as [d Hd]; [lia|].
    cbn [count_tile_parts]. rewrite decide_False.
    2: { unfold char_at. rewrite (nth_lookup_Some s i ChNul c Hc), (nth_lookup_Some s pos ChNul d Hd). intros ->.
         pose proof (NoDup_lookup s i pos c (s_nodup poc) Hc Hd). lia. }
    rewrite IH by lia. rewrite (drop_S s c i Hc). cbn [take foldl]. f_equal. f_equal.
    unfold char_at. rewrite (nth_lookup_Some s i ChNul c Hc). destruct c; try done.
    exfalso. apply list_elem_of_lookup_2 in Hc. unfold s in Hc. destruct (poc_progression poc); set_solver.
Qed.

Lemma foldl_product (cs : list prog_char) num : 0 < num ->
  Forall (fun c => (digit_range poc c).1 = 0 /\ 0 < (digit_range poc c).2) cs ->
  num * range_product (digit_range poc <$> cs) < 2 ^ 64 ->
  foldl (fun n c => u64 (n * (digit_range poc c).2)) num cs = num * range_product (digit_range poc <$> cs).
Proof.
  intros Hnum H. revert num Hnum. induction H as [|c cs [Hz Hc] Hcs IH]; intros num Hnum Hlt; csimpl; [cbn; lia|].
  change (range_product (digit_range poc <$> c :: cs)) with
    (((digit_range poc c).2 - (digit_range poc c).1) * range_product (digit_range poc <$> cs)) in *.
  assert (0 < range_product (digit_range poc <$> cs)) as HP.
  { apply range_product_pos, Forall_fmap. eapply Forall_impl; [|exact Hcs]. intros c' []. cbn. lia. }
  cbn [foldl]. rewrite Hz, Z.sub_0_r in *.
  generalize dependent ((digit_range poc c).2). intros hi Hhi Hlt.
  set (q := range_product (digit_range poc <$> cs)) in *.
  assert (0 < num * hi) as H1 by nia.
  assert (num * hi <= num * (hi * q)) as H2 by nia.
  rewrite wrap_small by lia. rewrite IH; [lia|done|unfold q in *; lia].
Qed.
End Count.

(** The count up to a divider whose loops are counted and start at zero. *)
Lemma count_to_divider (poc : grk_progression) (pos : nat) (p0 : Z) : counted_prefix poc (S pos) ->
  Forall (fun c => (digit_range poc c).1 = 0) (letters poc (S pos)) -> range_product (ranges poc (S pos)) < 256 ->
  let s := convertProgressionOrder (poc_progression poc) in
  count_tile_parts 4 0 s (char_at s pos) poc 1 p0 = (range_product (ranges poc (S pos)), Z.of_nat pos) /\ length s = 4%nat.
Proof.
  intros Hc Hz Hlt s. destruct (counted_length poc pos Hc) as [Hlen Hpos]. split; [|done].
  unfold s. rewrite (count_tile_parts_spec poc pos p0 Hlen Hpos pos 4 0) by lia. rewrite drop_0. fold (letters poc (S pos)).
  rewrite (foldl_product poc (letters poc (S pos)) 1); [|lia| |unfold ranges in Hlt; lia].
  - fold (ranges poc (S pos)). by rewrite Z.mul_1_l.
  - destruct Hc as [_ Hc]. apply list.Forall_and. split; [done|]. eapply Forall_impl; [|exact Hc]. intros c (_ & _ & ? & _). lia.
Qed.

(** C19: The tile parts of a progression enumerate its outer loops.  Let the loops up to the
    divider, at position [pos] of the progression order, be counted ones (components,
    resolutions, layers, and precincts in LRCP and RLCP), start at zero, and have fewer than
    256 combinations of values, with the same order for the count and the generation.  Then
    the number of tile parts announced by [getNumTilePartsForProgression] is the number of
    combinations, and that many calls of [enable_tile_part_generation], the first with
    [first_poc_tile_part], set the iterator to each combination exactly once, in
    lexicographic order, with the loops after the divider on their whole range.  The
    function's assertions hold for a divider other than P and fewer than 255 tile parts.
    Without the conditions the count is wrong: see [tile_part_count_limits]. *)
Theorem tile_parts_complete (poc : grk_progression) (pos : nat) (p0 : Z) (st : tp_state) :
  counted_prefix poc (S pos) ->
  Forall (fun c => (digit_range poc c).1 = 0) (letters poc (S pos)) ->
  range_product (ranges poc (S pos)) < 256 ->
  let divider := char_at (convertProgressionOrder (poc_progression poc)) pos in
  let (n, p) := getNumTilePartsForProgression true divider (poc_progression poc) poc p0 in
  p = Z.of_nat pos /\
  Forall2 (part_at poc pos) (tile_parts poc (Z.to_nat n) pos st) (lex (ranges poc (S pos))) /\
  (divider <> ChP -> range_product (ranges poc (S pos)) < maxTilePartsPerTileJ2K ->
   count_asserts true divider (poc_progression poc) poc = true).
Proof.
  intros Hc Hz Hlt divider. pose proof (counted_ranges_ok poc _ Hc) as Hr. pose proof (range_product_pos _ Hr) as Hp. pose proof (lex_length _ Hr) as Hl.
  unfold getNumTilePartsForProgression, divider. destruct (count_to_divider poc pos p0 Hc Hz Hlt) as [E Hlen]. cbv zeta in E. rewrite E.
  rewrite wrap_small by lia. split; [done|]. split.
  - rewrite <- (firstn_all (lex (ranges poc (S pos)))). rewrite <- Hl, Nat2Z.id. by apply tile_parts_spec.
  - intros Hd Hmax. unfold count_asserts. cbv zeta. destruct (count_to_divider poc pos 0 Hc Hz Hlt) as [E0 _]. cbv zeta in E0. rewrite E0, Hlen. cbn [fst].
    rewrite (bool_decide_eq_false_2 _ Hd). cbn [andb negb]. by rewrite (proj2 (Z.ltb_lt _ _) Hmax).
Qed.

(** An RLCP tile of 3 resolutions and 2 layers, divided after the layer loop. *)
Definition sample_poc : grk_progression :=
  mkProgression GRK_RLCP GRK_RLCP bounds_zero 0 3 0 3 10 2 0 100 0 100 16 16 (mkTemp 0 0 0 0 0 0).

Lemma tile_parts_complete_witness :
  Forall2 (part_at sample_poc 1) (tile_parts sample_poc 6 1 (temp sample_poc, bounds_zero))
    [[0; 0]; [0; 1]; [1; 0]; [1; 1]; [2; 0]; [2; 1]].
Proof.
  assert (counted_prefix sample_poc 2) as Hc.
  { split; [vm_compute; lia|]. repeat constructor; try done; vm_compute; congruence. }
  exact (proj1 (proj2 (tile_parts_complete sample_poc 1 0 (temp sample_poc, bounds_zero) Hc
    ltac:(repeat constructor) ltac:(reflexivity)))).
Defined.

(** Where it fails.  The number of tile parts is the product of the loops' ends, truncated to
    a byte: 8 layers of 32 resolutions give 256 tile parts, announced as none (the assertion
    against it is not compiled into a release); and a progression over resolutions 1 and 2 is
    announced with three tile parts, the last of which repeats the second. *)
Lemma tile_part_count_limits :
  (let poc := mkProgression GRK_LRCP GRK_LRCP bounds_zero 0 1 0 32 1 8 0 8 0 8 8 8 (mkTemp 0 0 0 0 0 0) in
   length (lex (ranges poc 2)) = 256%nat /\ getNumTilePartsForProgression true ChR GRK_LRCP poc 0 = (0, 1) /\
   count_asserts true ChR GRK_LRCP poc = false) /\
  (let poc := mkProgression GRK_RLCP GRK_RLCP bounds_zero 0 1 1 3 1 1 0 8 0 8 8 8 (mkTemp 0 0 0 0 0 0) in
   getNumTilePartsForProgression true ChR GRK_RLCP poc 0 = (3, 0) /\ count_asserts true ChR GRK_RLCP poc = true /\
   (fun b => (res_s b, res_e b)) <$> tile_parts poc 3 0 (temp poc, bounds_zero) = [(1, 2); (2, 3); (2, 3)]).
Proof. vm_compute. done. Qed.
