(* ===== verification/SparseBuffer.v ===== *)
(** Compressed data as a sequence of chunks: [Buffer8] (util/buffer.h) and
    [SparseBuffer] (util/SparseBuffer.cpp).

    A chunk is a byte array with an offset; a sparse buffer is a vector of
    chunks, some of which may not have been fetched yet, read as if it were one
    contiguous buffer.  The theorem shows that a rewound buffer with all its
    chunks behaves as a cursor over the concatenation of their bytes. *)
From S2P Require Import Prelude.

(** ** [Buffer8] *)

Record Buffer8 := mkBuffer8 {
  buf_ : list Z;       (* [num_elts_] bytes *)
  offset_ : Z;
}.
Definition num_elts (b : Buffer8) : Z := Z.of_nat (length (buf_ b)).
Definition set_offset (v : Z) (b : Buffer8) : Buffer8 := mkBuffer8 (buf_ b) v.

Definition canRead (b : Buffer8) : bool := offset_ b <? num_elts b.
Definition buf_read (b : Buffer8) : Z * Buffer8 := (nthZ 0 (buf_ b) (offset_ b), set_offset (offset_ b + 1) b).

(** [write(val)] and [write(b, size)]. *)
Definition buf_write1 (val : Z) (b : Buffer8) : option Buffer8 :=
  if offset_ b =? num_elts b then None
  else Some (mkBuffer8 (<[Z.to_nat (offset_ b) := val]> (buf_ b)) (offset_ b + 1)).
Definition buf_write (data : list Z) (b : Buffer8) : option Buffer8 :=
  let size := Z.of_nat (length data) in
  if num_elts b <? u64 (offset_ b + size) then None
  else Some (mkBuffer8 (take (Z.to_nat (offset_ b)) (buf_ b) ++ data ++ drop (Z.to_nat (offset_ b + size)) (buf_ b))
                       (offset_ b + size)).

Definition remainingLength (b : Buffer8) : Z := num_elts b - offset_ b.

Definition increment_offset (off : Z) (b : Buffer8) : bool * Buffer8 :=
  if 0 <? off then
    if 2 ^ 64 - 1 - off <? offset_ b then (true, set_offset (num_elts b) b)
    else if num_elts b <? offset_ b + off then (false, set_offset (num_elts b) b)
    else (true, set_offset (offset_ b + off) b)
  else if off <? 0 then
    if offset_ b <? - off then (false, set_offset 0 b) else (true, set_offset (offset_ b + off) b)
  else (true, b).

(** ** [SparseBuffer] *)

Inductive sb_exception :=
| SparseBufferIncomplete
| SparseBufferOverrun
| ModeError          (* std::runtime_error of the push functions *)
| ChunkOutOfRange    (* chunks[currentChunkId] past the end: undefined behaviour *)
| LoopFuel.

Inductive Mode := Unset | Sequential | Indexed.

Record SparseBuffer := mkSB {
  dataLen : Z;
  chunks : list (option Buffer8);
  currentChunkId : nat;
  reachedEnd_ : bool;
  mode_ : Mode;
}.
Definition SparseBuffer_new : SparseBuffer := mkSB 0 [] 0 false Unset.

Definition set_chunks l s := mkSB (dataLen s) l (currentChunkId s) (reachedEnd_ s) (mode_ s).
Definition set_current i s := mkSB (dataLen s) (chunks s) i (reachedEnd_ s) (mode_ s).
Definition set_reachedEnd r s := mkSB (dataLen s) (chunks s) (currentChunkId s) r (mode_ s).

(** [chunks[currentChunkId]], with the null test that follows every use (the
    callers of [tryIncrement] have made it before). *)
Definition currentChunk (s : SparseBuffer) : result sb_exception Buffer8 :=
  match chunks s !! currentChunkId s with
  | Some (Some b) => Ok b
  | Some None => Err SparseBufferIncomplete
  | None => Err ChunkOutOfRange
  end.

(** The do-while loop of [tryIncrement] over the chunks after [id]: the new
    position, and whether the end was reached. *)
Fixpoint step_over (id : nat) (rest : list (option Buffer8)) : nat * bool :=
  match rest with
  | [] => (id, true)
  | None :: _ => (S id, true)
  | Some b :: rest =>
      if num_elts b =? 0 then
        match rest with [] => (S id, true) | _ => step_over (S id) rest end
      else (S id, false)
  end.

Definition tryIncrement (s : SparseBuffer) : result sb_exception SparseBuffer :=
  if (length (chunks s) =? 0)%nat || (currentChunkId s =? length (chunks s) - 1)%nat then Ok (set_reachedEnd true s)
  else
    let* b := currentChunk s in
    if negb (offset_ b =? num_elts b) then Ok s
    else
      let (id, fin) := step_over (currentChunkId s) (drop (S (currentChunkId s)) (chunks s)) in
      Ok (set_current id (if fin then set_reachedEnd true s else s)).

Definition sb_length (s : SparseBuffer) : Z := dataLen s.

(** The lengths of the chunks before the current one. *)
Fixpoint lengths_before (n : nat) (l : list (option Buffer8)) : result sb_exception Z :=
  match n, l with
  | O, _ => Ok 0
  | S n, Some b :: l => let* r := lengths_before n l in Ok (num_elts b + r)
  | S _, None :: _ => Err SparseBufferIncomplete
  | S _, [] => Err ChunkOutOfRange
  end.

Definition chunkOffset (s : SparseBuffer) : result sb_exception Z :=
  let* b := currentChunk s in Ok (offset_ b).
Definition chunkLength (s : SparseBuffer) : result sb_exception Z :=
  let* b := currentChunk s in Ok (remainingLength b).
Definition sb_offset (s : SparseBuffer) : result sb_exception Z :=
  let* n := lengths_before (currentChunkId s) (chunks s) in
  let* o := chunkOffset s in Ok (n + o).

Definition chunkSkip (delta : Z) (s : SparseBuffer) : result sb_exception SparseBuffer :=
  if delta =? 0 then Ok s
  else if reachedEnd_ s then Err SparseBufferOverrun
  else
    let* b := currentChunk s in
    match increment_offset (i64 delta) b with
    | (false, _) => Err SparseBufferOverrun
    | (true, b) =>
        let s := set_chunks (<[currentChunkId s := Some b]> (chunks s)) s in
        if offset_ b =? num_elts b then tryIncrement s else Ok s
    end.

(** The loop of [read]: the bytes copied so far are accumulated. *)
Fixpoint read_loop (fuel : nat) (bytesLeftToRead : Z) (acc : list Z) (s : SparseBuffer)
  : result sb_exception (list Z * SparseBuffer) :=
  match fuel with
  | O => Err LoopFuel
  | S fuel =>
      if (0 <? bytesLeftToRead) && (currentChunkId s <? length (chunks s))%nat then
        let* b := currentChunk s in
        let bytesInCurrentChunk := num_elts b - offset_ b in
        if bytesInCurrentChunk =? 0 then
          let* s' := tryIncrement s in
          if (currentChunkId s' =? currentChunkId s)%nat then Ok (acc, s') else read_loop fuel bytesLeftToRead acc s'
        else
          let bytes_to_read := if bytesLeftToRead <? bytesInCurrentChunk then bytesLeftToRead else bytesInCurrentChunk in
          let data := take (Z.to_nat bytes_to_read) (drop (Z.to_nat (offset_ b)) (buf_ b)) in
          let* s' := chunkSkip bytes_to_read s in
          read_loop fuel (bytesLeftToRead - bytes_to_read) (acc ++ data) s'
      else Ok (acc, s)
  end.

(** Enough for every chunk to be left once, after a visit that reads it and one
    that finds it empty. *)
Definition loop_fuel (s : SparseBuffer) : nat := S (S (2 * length (chunks s))).

Definition sb_read (numBytes : Z) (s : SparseBuffer) : result sb_exception (list Z * SparseBuffer) :=
  if numBytes =? 0 then Ok ([], s)
  else
    let* o := sb_offset s in
    let contiguousBytesRemaining := u64 (dataLen s - o) in
    let numBytes := if contiguousBytesRemaining <? numBytes then contiguousBytesRemaining else numBytes in
    read_loop (loop_fuel s) numBytes [] s.

Fixpoint skip_loop (fuel : nat) (skipBytes : Z) (s : SparseBuffer) : result sb_exception SparseBuffer :=
  match fuel with
  | O => Err LoopFuel
  | S fuel =>
      if (currentChunkId s <? length (chunks s))%nat && (0 <? skipBytes) then
        let* b := currentChunk s in
        let bytesInCurrentChunk := num_elts b - offset_ b in
        if bytesInCurrentChunk =? 0 then
          let* s' := tryIncrement s in
          if (currentChunkId s' =? currentChunkId s)%nat then Ok s' else skip_loop fuel skipBytes s'
        else if bytesInCurrentChunk <? skipBytes then
          let* s' := chunkSkip bytesInCurrentChunk s in skip_loop fuel (skipBytes - bytesInCurrentChunk) s'
        else chunkSkip skipBytes s
      else Ok s
  end.

Definition sb_skip (numBytes : Z) (s : SparseBuffer) : result sb_exception (Z * SparseBuffer) :=
  let* o := sb_offset s in
  if dataLen s <? u64 (numBytes + o) then Err SparseBufferOverrun
  else if numBytes =? 0 then Ok (0, s)
  else let* s' := skip_loop (loop_fuel s) numBytes s in Ok (numBytes, s').

(** The sequential and the indexed [push]. *)
Definition sb_push (data : list Z) (s : SparseBuffer) : result sb_exception SparseBuffer :=
  match mode_ s with
  | Indexed => Err ModeError
  | _ =>
      if (length data =? 0)%nat then Ok (mkSB (dataLen s) (chunks s) (currentChunkId s) (reachedEnd_ s) Sequential)
      else
        let l := chunks s ++ [Some (mkBuffer8 data 0)] in
        Ok (mkSB (dataLen s + Z.of_nat (length data)) l (length l - 1) (reachedEnd_ s) Sequential)
  end.

Definition sb_push_index (index : nat) (data : list Z) (s : SparseBuffer) : result sb_exception SparseBuffer :=
  match mode_ s with
  | Sequential => Err ModeError
  | _ =>
      let l := if (length (chunks s) <=? index)%nat then resize (S index) None (chunks s) else chunks s in
      let old := match l !! index with Some (Some b) => num_elts b | _ => 0 end in
      Ok (mkSB (dataLen s - old + Z.of_nat (length data)) (<[index := Some (mkBuffer8 data 0)]> l)
               (currentChunkId s) (reachedEnd_ s) Indexed)
  end.

Definition sb_cleanup (s : SparseBuffer) : SparseBuffer :=
  mkSB 0 [] (currentChunkId s) (reachedEnd_ s) (mode_ s).

Definition sb_rewind (s : SparseBuffer) : SparseBuffer :=
  mkSB (dataLen s) ((fun c : option Buffer8 => set_offset 0 <$> c) <$> chunks s) 0 false (mode_ s).

(** [copyDataChunksToContiguous]; [None] when a chunk is missing. *)
Fixpoint copyDataChunksToContiguous (l : list (option Buffer8)) : option (list Z) :=
  match l with
  | [] => Some []
  | None :: _ => None
  | Some b :: l => r ← copyDataChunksToContiguous l; Some (buf_ b ++ r)
  end.

(** ** The cursor a complete buffer is *)

Definition bytes (l : list Buffer8) : list Z := mjoin (buf_ <$> l).

(** [c] is what has been consumed and [r] what remains. *)
Definition cursor (s : SparseBuffer) (c r : list Z) : Prop :=
  exists pre cur post,
    chunks s = Some <$> (pre ++ cur :: post) /\
    currentChunkId s = length pre /\
    0 <= offset_ cur <= num_elts cur /\
    Forall (fun b => offset_ b = 0) post /\
    c = bytes pre ++ take (Z.to_nat (offset_ cur)) (buf_ cur) /\
    r = drop (Z.to_nat (offset_ cur)) (buf_ cur) ++ bytes post /\
    dataLen s = Z.of_nat (length c + length r) /\ dataLen s < 2 ^ 63 /\
    (reachedEnd_ s = true -> r = []).

Definition chunks_left (s : SparseBuffer) : nat := length (chunks s) - currentChunkId s.

Lemma bytes_app l1 l2 : bytes (l1 ++ l2) = bytes l1 ++ bytes l2.
Proof. unfold bytes. by rewrite fmap_app, join_app. Qed.
Lemma bytes_empty l : Forall (fun b => num_elts b = 0) l -> bytes l = [].
Proof.
  induction 1 as [|[b o] l Hb _ IH]; [done|]. unfold bytes in *. csimpl. rewrite IH.
  unfold num_elts in Hb. destruct b; simpl in *; [done|lia].
Qed.

Lemma step_over_spec post id :
  post <> [] ->
  exists mid cur' post', post = mid ++ cur' :: post' /\ Forall (fun b => num_elts b = 0) mid /\
    step_over id (Some <$> post) = ((id + S (length mid))%nat, num_elts cur' =? 0) /\
    (num_elts cur' = 0 -> post' = []).
Proof.
  revert id. induction post as [|b post IH]; intros id Hne; [done|]. csimpl.
  destruct (Z.eqb_spec (num_elts b) 0) as [E|E].
  - destruct post as [|b' post].
    + exists [], b, []. simpl. rewrite E. repeat split; try done. f_equal; lia.
    + destruct (IH (S id)) as (mid & cur' & post' & Hp & Hm & Hs & He); [done|].
      exists (b :: mid), cur', post'. split; [by rewrite Hp|]. split; [by constructor|].
      split; [|done]. csimpl in *. rewrite Hs. f_equal. lia.
  - exists [], b, post. repeat split; try done. simpl. f_equal; [lia|]. by destruct (Z.eqb_spec (num_elts b) 0).
Qed.

Lemma currentChunk_cursor s pre cur post :
  chunks s = Some <$> (pre ++ cur :: post) -> currentChunkId s = length pre -> currentChunk s = Ok cur.
Proof.
  intros Hc Hi. unfold currentChunk. by rewrite Hc, Hi, list_lookup_fmap, list_lookup_middle.
Qed.

Lemma tryIncrement_cursor s c r b :
  cursor s c r -> currentChunk s = Ok b -> offset_ b = num_elts b ->
  exists s', tryIncrement s = Ok s' /\ cursor s' c r /\ length (chunks s') = length (chunks s) /\
    (r <> [] -> (currentChunkId s < currentChunkId s')%nat).
Proof.
  intros (pre & cur & post & Hc & Hi & Ho & Hp & -> & -> & Hd & Hl & He) Hb Hoff.
  rewrite (currentChunk_cursor _ _ _ _ Hc Hi) in Hb. injection Hb as <-.
  assert (drop (Z.to_nat (offset_ cur)) (buf_ cur) = []) as Hdr by (apply drop_ge; unfold num_elts in *; lia).
  assert (take (Z.to_nat (offset_ cur)) (buf_ cur) = buf_ cur) as Htk by (apply take_ge; unfold num_elts in *; lia).
  rewrite Hdr, Htk in *. simpl in *.
  unfold tryIncrement. rewrite (currentChunk_cursor _ _ _ _ Hc Hi). cbn [rbind]. rewrite Hoff, Z.eqb_refl. cbn [negb].
  assert (length (chunks s) = length pre + S (length post))%nat as Hlen.
  { rewrite Hc, length_fmap, length_app. done. }
  destruct (decide (post = [])) as [->|Hne].
  - destruct ((length (chunks s) =? 0)%nat || (currentChunkId s =? length (chunks s) - 1)%nat) eqn:E.
    2: { apply orb_false_iff in E as [_ E]. apply Nat.eqb_neq in E. simpl in Hlen. lia. }
    eexists. split; [done|]. split; [|done].
    exists pre, cur, []. simpl. rewrite Hdr, Htk. repeat split; try done; lia.
  - destruct ((length (chunks s) =? 0)%nat || (currentChunkId s =? length (chunks s) - 1)%nat) eqn:E.
    { destruct post; [done|]. apply orb_true_iff in E as [E|E]; apply Nat.eqb_eq in E; simpl in Hlen; lia. }
    assert (drop (S (currentChunkId s)) (chunks s) = Some <$> post) as Hdp.
    { rewrite Hc, Hi, <- fmap_drop. f_equal. rewrite drop_app_ge by lia.
      by replace (S (length pre) - length pre)%nat with 1%nat by lia. }
    destruct (step_over_spec post (currentChunkId s) Hne) as (mid & cur' & post' & -> & Hm & Hs & Hend).
    rewrite Hdp, Hs. eexists. split; [done|].
    apply Forall_app in Hp as [Hpm Hp]. apply list.Forall_cons in Hp as [Hp0 Hp].
    assert (bytes (mid ++ cur' :: post') = bytes (cur' :: post')) as Hby by (by rewrite bytes_app, (bytes_empty mid)).
    split; [|split].
    + exists (pre ++ cur :: mid), cur', post'. simpl. rewrite Hp0. simpl. rewrite drop_0, app_nil_r.
      split. { destruct (num_elts cur' =? 0); simpl; rewrite Hc; f_equal; by rewrite <- app_assoc. }
      split. { destruct (num_elts cur' =? 0); simpl; rewrite Hi, length_app; simpl; lia. }
      split. { unfold num_elts. lia. }
      split; [done|].
      split. { rewrite bytes_app. change (bytes (cur :: mid)) with (buf_ cur ++ bytes mid). by rewrite (bytes_empty mid), app_nil_r. }
      split; [done|].
      split. { destruct (num_elts cur' =? 0); simpl; by rewrite Hd. }
      split. { by destruct (num_elts cur' =? 0). }
      destruct (Z.eqb_spec (num_elts cur') 0) as [E0|]; [intros _|done].
      rewrite Hby, (Hend E0). by apply bytes_empty, Forall_singleton.
    + by destruct (num_elts cur' =? 0).
    + intros _. destruct (num_elts cur' =? 0); simpl; lia.
Qed.

Lemma i64_small x : 0 <= x < 2 ^ 63 -> i64 x = x.
Proof. intros. apply swrap_small; simpl; lia. Qed.

Lemma chunkSkip_cursor s c r b k :
  cursor s c r -> currentChunk s = Ok b -> 0 < k <= num_elts b - offset_ b ->
  exists s', chunkSkip k s = Ok s' /\ cursor s' (c ++ take (Z.to_nat k) r) (drop (Z.to_nat k) r) /\
    length (chunks s') = length (chunks s) /\
    (k = num_elts b - offset_ b -> drop (Z.to_nat k) r <> [] -> (currentChunkId s < currentChunkId s')%nat) /\
    take (Z.to_nat k) r = take (Z.to_nat k) (drop (Z.to_nat (offset_ b)) (buf_ b)).
Proof.
  intros (pre & cur & post & Hc & Hi & Ho & Hp & -> & -> & Hd & Hl & He) Hb Hk.
  rewrite (currentChunk_cursor _ _ _ _ Hc Hi) in Hb. injection Hb as <-.
  set (rest := drop (Z.to_nat (offset_ cur)) (buf_ cur)) in *.
  assert (Z.of_nat (length rest) = num_elts cur - offset_ cur) as Hrl.
  { unfold rest, num_elts in *. rewrite length_drop. lia. }
  rewrite !length_app in Hd.
  assert (k < 2 ^ 63 /\ num_elts cur < 2 ^ 63) as [Hk63 Hn63].
  { unfold num_elts in *. rewrite length_take in Hd. lia. }
  assert (take (Z.to_nat k) (rest ++ bytes post) = take (Z.to_nat k) rest) as Htk by (rewrite take_app_le by lia; done).
  assert (drop (Z.to_nat k) (rest ++ bytes post) = drop (Z.to_nat k) rest ++ bytes post) as Hdk by (rewrite drop_app_le by lia; done).
  unfold chunkSkip. destruct (Z.eqb_spec k 0); [lia|].
  assert (reachedEnd_ s = false) as Hre.
  { destruct (reachedEnd_ s); [|done]. specialize (He eq_refl). apply app_nil in He as [He _].
    rewrite He in Hrl. simpl in Hrl. lia. }
  rewrite Hre, (currentChunk_cursor _ _ _ _ Hc Hi). simpl. rewrite i64_small by lia.
  unfold increment_offset. destruct (Z.ltb_spec 0 k); [|lia].
  destruct (Z.ltb_spec (2 ^ 64 - 1 - k) (offset_ cur)); [lia|].
  destruct (Z.ltb_spec (num_elts cur) (offset_ cur + k)); [lia|].
  set (b' := set_offset (offset_ cur + k) cur). set (s1 := set_chunks _ s).
  assert (chunks s1 = Some <$> (pre ++ b' :: post)) as Hc1.
  { unfold s1. simpl. rewrite Hc, Hi, <- list_fmap_insert. f_equal.
    rewrite insert_app_r_alt by lia. by rewrite Nat.sub_diag. }
  assert (cursor s1 (bytes pre ++ take (Z.to_nat (offset_ cur)) (buf_ cur) ++ take (Z.to_nat k) rest)
            (drop (Z.to_nat k) rest ++ bytes post)) as Hcur1.
  { exists pre, b', post. simpl.
    assert (Z.to_nat (offset_ cur + k) = Z.to_nat (offset_ cur) + Z.to_nat k)%nat as Ez by lia.
    split; [done|]. split; [done|].
    split. { unfold num_elts. simpl. unfold num_elts in *. lia. }
    split; [done|]. rewrite Ez.
    split. { f_equal. apply take_take_drop. }
    split. { f_equal. unfold rest. by rewrite drop_drop. }
    split. { rewrite Hd. rewrite !length_app, !length_take, length_drop. lia. }
    split; [done|]. rewrite Hre. done. }
  rewrite Htk, Hdk.
  destruct (Z.eqb_spec (offset_ cur + k) (num_elts cur)) as [Ef|Ef].
  - destruct (tryIncrement_cursor s1 _ _ b' Hcur1) as (s' & Hs' & Hcu & Hle & Hid).
    { by apply (currentChunk_cursor _ _ _ _ Hc1). }
    { unfold b', num_elts. simpl. unfold num_elts in Ef. lia. }
    replace (offset_ b' =? num_elts b') with true by (symmetry; apply Z.eqb_eq; exact Ef).
    exists s'. split; [done|]. split; [by rewrite <- app_assoc|].
    split. { rewrite Hle. unfold s1. simpl. by rewrite length_insert. }
    split; [|done]. intros _ Hne. by apply Hid.
  - replace (offset_ b' =? num_elts b') with false by (symmetry; apply Z.eqb_neq; exact Ef).
    exists s1. split; [done|]. split; [by rewrite <- app_assoc|].
    split. { unfold s1. simpl. by rewrite length_insert. }
    split; [lia|done].
Qed.

Lemma cursor_current s c r :
  cursor s c r -> exists b, currentChunk s = Ok b /\ 0 <= offset_ b <= num_elts b /\
    (currentChunkId s < length (chunks s))%nat /\ num_elts b - offset_ b <= Z.of_nat (length r) /\
    sb_offset s = Ok (Z.of_nat (length c)).
Proof.
  intros (pre & cur & post & Hc & Hi & Ho & Hp & -> & -> & Hd & Hl & He). exists cur.
  split; [by apply (currentChunk_cursor _ _ _ _ Hc)|]. split; [done|].
  split. { rewrite Hc, length_fmap, length_app. simpl. lia. }
  split. { rewrite length_app, length_drop. unfold num_elts in *. lia. }
  unfold sb_offset, chunkOffset. rewrite (currentChunk_cursor _ _ _ _ Hc Hi), Hc, Hi. clear -Ho.
  assert (lengths_before (length pre) (Some <$> (pre ++ cur :: post)) = Ok (Z.of_nat (length (bytes pre)))) as ->.
  { induction pre as [|b pre IH]; [done|]. csimpl. rewrite IH. simpl. unfold bytes, num_elts. csimpl.
    rewrite length_app. f_equal. lia. }
  simpl. f_equal. rewrite length_app, length_take. unfold num_elts in *. lia.
Qed.

Lemma read_loop_cursor fuel : forall n acc s c r,
  cursor s c r -> 0 <= n <= Z.of_nat (length r) -> (chunks_left s < fuel)%nat ->
  exists s', read_loop fuel n acc s = Ok (acc ++ take (Z.to_nat n) r, s') /\
    cursor s' (c ++ take (Z.to_nat n) r) (drop (Z.to_nat n) r).
Proof.
  induction fuel as [|fuel IH]; intros n acc s c r Hcur Hn Hf; [lia|]. cbn [read_loop].
  destruct (cursor_current s c r Hcur) as (b & Hb & Ho & Hid & Hbl & _).
  destruct (Z.ltb_spec 0 n); simpl.
  2: { replace n with 0 by lia. simpl. exists s. rewrite drop_0, !app_nil_r. done. }
  destruct (Nat.ltb_spec (currentChunkId s) (length (chunks s))); [|lia]. rewrite Hb. cbn [rbind].
  destruct (Z.eqb_spec (num_elts b - offset_ b) 0) as [E|E].
  - destruct (tryIncrement_cursor s c r b Hcur Hb) as (s' & Hs' & Hcur' & Hle & Hmv); [lia|].
    rewrite Hs'. cbn [rbind]. assert (r <> []) as Hr by (intros ->; simpl in Hn; lia). specialize (Hmv Hr).
    destruct (Nat.eqb_spec (currentChunkId s') (currentChunkId s)); [lia|].
    apply IH; [done|done|]. unfold chunks_left in *. lia.
  - set (k := if n <? num_elts b - offset_ b then n else num_elts b - offset_ b).
    assert (k = Z.min n (num_elts b - offset_ b)) as Hk by (unfold k; zcases; lia).
    destruct (chunkSkip_cursor s c r b k Hcur Hb) as (s' & Hs' & Hcur' & Hle & Hmv & Htk); [lia|].
    rewrite Hs'. cbn [rbind]. rewrite <- Htk.
    destruct (Z.eq_dec n k) as [Enk|Enk].
    + rewrite Enk, Z.sub_diag. exists s'. destruct fuel; [unfold chunks_left in *; lia|]. cbn [read_loop].
      simpl. done.
    + assert (drop (Z.to_nat k) r <> []) as Hr.
      { intros Hnil. apply (f_equal length) in Hnil. rewrite length_drop in Hnil. simpl in Hnil. lia. }
      specialize (Hmv ltac:(lia) Hr).
      destruct (IH (n - k) (acc ++ take (Z.to_nat k) r) s' _ _ Hcur') as (s2 & Hs2 & Hcur2).
      { rewrite length_drop. lia. } { unfold chunks_left in *. lia. }
      exists s2. rewrite Hs2, <- !app_assoc. rewrite drop_drop, <- !app_assoc in Hcur2.
      rewrite take_take_drop in *. by replace (Z.to_nat k + Z.to_nat (n - k))%nat with (Z.to_nat n) in * by lia.
Qed.

Lemma skip_loop_cursor fuel : forall n s c r,
  cursor s c r -> 0 <= n <= Z.of_nat (length r) -> (chunks_left s < fuel)%nat ->
  exists s', skip_loop fuel n s = Ok s' /\ cursor s' (c ++ take (Z.to_nat n) r) (drop (Z.to_nat n) r).
Proof.
  induction fuel as [|fuel IH]; intros n s c r Hcur Hn Hf; [lia|]. cbn [skip_loop].
  destruct (cursor_current s c r Hcur) as (b & Hb & Ho & Hid & Hbl & _).
  destruct (Nat.ltb_spec (currentChunkId s) (length (chunks s))); [|lia].
  destruct (Z.ltb_spec 0 n); simpl.
  2: { replace n with 0 by lia. simpl. exists s. by rewrite drop_0, !app_nil_r. }
  rewrite Hb. cbn [rbind].
  destruct (Z.eqb_spec (num_elts b - offset_ b) 0) as [E|E].
  - destruct (tryIncrement_cursor s c r b Hcur Hb) as (s' & Hs' & Hcur' & Hle & Hmv); [lia|].
    rewrite Hs'. cbn [rbind]. assert (r <> []) as Hr by (intros ->; simpl in Hn; lia). specialize (Hmv Hr).
    destruct (Nat.eqb_spec (currentChunkId s') (currentChunkId s)); [lia|].
    apply IH; [done|done|]. unfold chunks_left in *. lia.
  - destruct (Z.ltb_spec (num_elts b - offset_ b) n).
    + destruct (chunkSkip_cursor s c r b (num_elts b - offset_ b) Hcur Hb) as (s' & Hs' & Hcur' & Hle & Hmv & _); [lia|].
      rewrite Hs'. cbn [rbind]. set (k := num_elts b - offset_ b) in *.
      assert (drop (Z.to_nat k) r <> []) as Hr.
      { intros Hnil. apply (f_equal length) in Hnil. rewrite length_drop in Hnil. simpl in Hnil. lia. }
      specialize (Hmv eq_refl Hr).
      destruct (IH (n - k) s' _ _ Hcur') as (s2 & Hs2 & Hcur2).
      { rewrite length_drop. lia. } { unfold chunks_left in *. lia. }
      exists s2. split; [done|]. rewrite drop_drop, <- !app_assoc in Hcur2.
      rewrite take_take_drop in Hcur2. by replace (Z.to_nat k + Z.to_nat (n - k))%nat with (Z.to_nat n) in Hcur2 by lia.
    + destruct (chunkSkip_cursor s c r b n Hcur Hb) as (s' & Hs' & Hcur' & _); [lia|]. by exists s'.
Qed.

Lemma cursor_bound s c r : cursor s c r -> dataLen s = Z.of_nat (length c + length r) /\ dataLen s < 2 ^ 63.
Proof. by intros (? & ? & ? & _ & _ & _ & _ & _ & _ & Hd & Hl & _). Qed.

Lemma sb_read_cursor n s c r :
  cursor s c r -> 0 <= n ->
  exists s', sb_read n s = Ok (take (Z.to_nat n) r, s') /\ cursor s' (c ++ take (Z.to_nat n) r) (drop (Z.to_nat n) r).
Proof.
  intros Hcur Hn. unfold sb_read. destruct (cursor_bound _ _ _ Hcur) as [Hd Hl].
  destruct (cursor_current s c r Hcur) as (b & _ & _ & _ & _ & Hoff). rewrite Hoff. cbn [rbind].
  destruct (Z.eqb_spec n 0) as [->|]; [exists s; by rewrite drop_0, app_nil_r|].
  rewrite wrap_small by lia. set (m := if _ <? n then _ else n).
  assert (m = Z.min n (Z.of_nat (length r))) as Hm by (unfold m; zcases; lia).
  destruct (read_loop_cursor (loop_fuel s) m [] s c r Hcur) as (s' & Hs' & Hc'); [lia|unfold loop_fuel, chunks_left; lia|].
  assert (take (Z.to_nat m) r = take (Z.to_nat n) r /\ drop (Z.to_nat m) r = drop (Z.to_nat n) r) as [E1 E2].
  { destruct (Z_le_gt_dec n (Z.of_nat (length r))); [by replace m with n by lia|].
    rewrite !take_ge, !drop_ge by lia. done. }
  rewrite E1 in *. rewrite E2 in *. by exists s'.
Qed.

Lemma sb_skip_cursor n s c r :
  cursor s c r -> 0 <= n < 2 ^ 63 ->
  if n <=? Z.of_nat (length r)
  then exists s', sb_skip n s = Ok (n, s') /\ cursor s' (c ++ take (Z.to_nat n) r) (drop (Z.to_nat n) r)
  else sb_skip n s = Err SparseBufferOverrun.
Proof.
  intros Hcur Hn. unfold sb_skip. destruct (cursor_bound _ _ _ Hcur) as [Hd Hl].
  destruct (cursor_current s c r Hcur) as (b & _ & _ & _ & _ & Hoff). rewrite Hoff. cbn [rbind].
  rewrite wrap_small by lia.
  destruct (Z.leb_spec n (Z.of_nat (length r))), (Z.ltb_spec (dataLen s) (n + Z.of_nat (length c))); try lia; [|done].
  destruct (Z.eqb_spec n 0) as [->|]; [exists s; by rewrite drop_0, app_nil_r|].
  destruct (skip_loop_cursor (loop_fuel s) n s c r Hcur) as (s' & Hs' & Hc'); [lia|unfold loop_fuel, chunks_left; lia|].
  exists s'. by rewrite Hs'.
Qed.

Lemma rewound_cursor l dl m :
  l <> [] -> dl = Z.of_nat (length (bytes l)) -> dl < 2 ^ 63 -> Forall (fun b => offset_ b = 0) l ->
  cursor (mkSB dl (Some <$> l) 0 false m) [] (bytes l).
Proof.
  intros Hl Hd Hb Ho. destruct l as [|b l]; [done|]. apply list.Forall_cons in Ho as [Ho Hol].
  exists [], b, l. simpl. rewrite Ho. simpl. rewrite drop_0.
  split; [done|]. split; [done|]. split; [unfold num_elts; lia|]. split; [done|]. split; [done|]. split; [done|].
  split; [done|]. done.
Qed.

Lemma sb_rewind_cursor s c r : cursor s c r -> cursor (sb_rewind s) [] (c ++ r).
Proof.
  intros (pre & cur & post & Hc & Hi & Ho & Hp & -> & -> & Hd & Hl & He). unfold sb_rewind. rewrite Hc.
  set (l := pre ++ cur :: post) in *.
  assert ((fun c : option Buffer8 => set_offset 0 <$> c) <$> (Some <$> l) = Some <$> (set_offset 0 <$> l)) as ->.
  { by rewrite <- !list_fmap_compose. }
  assert (bytes (set_offset 0 <$> l) = bytes l) as Hby.
  { unfold bytes. rewrite <- list_fmap_compose. done. }
  assert (bytes l = (bytes pre ++ take (Z.to_nat (offset_ cur)) (buf_ cur)) ++ drop (Z.to_nat (offset_ cur)) (buf_ cur) ++ bytes post) as El.
  { unfold l. rewrite bytes_app. change (bytes (cur :: post)) with (buf_ cur ++ bytes post).
    rewrite <- app_assoc. f_equal. rewrite app_assoc, take_drop. done. }
  rewrite <- El, <- Hby. apply rewound_cursor; [|rewrite Hby, El, length_app; lia|done|].
  - unfold l. destruct pre; done.
  - apply Forall_fmap, list.Forall_true. done.
Qed.

(** ** Sequences of operations *)

Inductive sb_op := OpRead (n : Z) | OpSkip (n : Z) | OpRewind.
Definition op_ok (o : sb_op) : Prop :=
  match o with OpRead n => 0 <= n | OpSkip n => 0 <= n < 2 ^ 63 | OpRewind => True end.

Definition sb_step (o : sb_op) (s : SparseBuffer) : result sb_exception (list Z * SparseBuffer) :=
  match o with
  | OpRead n => sb_read n s
  | OpSkip n => let* (_, s) := sb_skip n s in Ok ([], s)
  | OpRewind => Ok ([], sb_rewind s)
  end.

(** The contract: one contiguous buffer and a position. *)
Definition byte_step (o : sb_op) (data : list Z) (pos : nat) : result sb_exception (list Z * nat) :=
  match o with
  | OpRead n => let out := take (Z.to_nat n) (drop pos data) in Ok (out, (pos + length out)%nat)
  | OpSkip n => if n <=? Z.of_nat (length data - pos) then Ok ([], (pos + Z.to_nat n)%nat) else Err SparseBufferOverrun
  | OpRewind => Ok ([], 0%nat)
  end.

Fixpoint sb_run (ops : list sb_op) (s : SparseBuffer) : result sb_exception (list (list Z)) :=
  match ops with
  | [] => Ok []
  | o :: ops => let* (out, s) := sb_step o s in let* outs := sb_run ops s in Ok (out :: outs)
  end.
Fixpoint byte_run (ops : list sb_op) (data : list Z) (pos : nat) : result sb_exception (list (list Z)) :=
  match ops with
  | [] => Ok []
  | o :: ops => let* (out, pos) := byte_step o data pos in let* outs := byte_run ops data pos in Ok (out :: outs)
  end.

Lemma sb_run_cursor ops : forall s c r,
  cursor s c r -> Forall op_ok ops -> sb_run ops s = byte_run ops (c ++ r) (length c).
Proof.
  induction ops as [|o ops IH]; intros s c r Hcur Hok; [done|].
  apply list.Forall_cons in Hok as [Ho Hok]. cbn [sb_run byte_run].
  destruct o as [n|n|]; cbn [sb_step byte_step op_ok] in *.
  - destruct (sb_read_cursor n s c r Hcur Ho) as (s' & Hs' & Hc'). rewrite Hs'. cbn [rbind].
    rewrite drop_app_length, (IH s' _ _ Hc' Hok), length_app, <- app_assoc, take_drop. done.
  - pose proof (sb_skip_cursor n s c r Hcur Ho) as Hs. rewrite length_app.
    replace (length c + length r - length c)%nat with (length r) by lia.
    destruct (Z.leb_spec n (Z.of_nat (length r))); [|by rewrite Hs].
    destruct Hs as (s' & Hs' & Hc'). rewrite Hs'. cbn [rbind].
    rewrite (IH s' _ _ Hc' Hok), length_app, <- app_assoc, take_drop, length_take.
    by replace (Z.to_nat n `min` length r)%nat with (Z.to_nat n) by lia.
  - cbn [rbind]. rewrite (IH _ _ _ (sb_rewind_cursor _ _ _ Hcur) Hok). done.
Qed.

(** ** Filling a buffer *)

Fixpoint push_arrivals (l : list (nat * list Z)) (s : SparseBuffer) : result sb_exception SparseBuffer :=
  match l with
  | [] => Ok s
  | (i, d) :: l => let* s := sb_push_index i d s in push_arrivals l s
  end.
Fixpoint push_sequence (l : list (list Z)) (s : SparseBuffer) : result sb_exception SparseBuffer :=
  match l with
  | [] => Ok s
  | d :: l => let* s := sb_push d s in push_sequence l s
  end.

(** What the chunks are after the arrivals [done]. *)
Definition filled (n : nat) (done : list (nat * list Z)) (s : SparseBuffer) : Prop :=
  (length (chunks s) <= n)%nat /\
  (forall i d, (i, d) ∈ done -> chunks s !! i = Some (Some (mkBuffer8 d 0))) /\
  (forall i, i ∉ done.*1 -> (i < length (chunks s))%nat -> chunks s !! i = Some None) /\
  dataLen s = Z.of_nat (length (mjoin done.*2)) /\
  mode_ s <> Sequential /\ currentChunkId s = 0%nat /\ reachedEnd_ s = false.

Lemma sb_push_index_filled n fin i d s :
  filled n fin s -> i ∉ fin.*1 -> (i < n)%nat ->
  exists s', sb_push_index i d s = Ok s' /\ filled n (fin ++ [(i, d)]) s'.
Proof.
  intros (Hn & Hin & Hout & Hd & Hm & Hi & Hr) Hnew Hlt. unfold sb_push_index.
  set (l := if (length (chunks s) <=? i)%nat then resize (S i) None (chunks s) else chunks s).
  assert (i < length l /\ length l <= n /\ length (chunks s) <= length l)%nat as (Hl1 & Hl2 & Hl3).
  { unfold l. destruct (Nat.leb_spec (length (chunks s)) i); [rewrite length_resize|]; lia. }
  assert (forall j c, chunks s !! j = Some c -> l !! j = Some c) as Hold.
  { intros j c Hj. unfold l. destruct (Nat.leb_spec (length (chunks s)) i); [|done].
    apply lookup_lt_Some in Hj as Hjl. rewrite lookup_resize by lia. done. }
  assert (forall j, j ∉ fin.*1 -> (j < length l)%nat -> l !! j = Some None) as Hnone.
  { intros j Hj Hjl. destruct (Nat.lt_ge_cases j (length (chunks s))); [by apply Hold, Hout|].
    unfold l in *. destruct (Nat.leb_spec (length (chunks s)) i); [|lia]. rewrite length_resize in Hjl.
    by rewrite lookup_resize_new by lia. }
  rewrite (Hnone i Hnew Hl1). destruct (mode_ s) eqn:Em; [|done|];
  (eexists; split; [done|]); unfold filled; cbn [chunks dataLen mode_ currentChunkId reachedEnd_]; rewrite length_insert.
  all: split; [lia|]; split; [|split; [|split; [|done]]].
  all: try (rewrite fmap_app, join_app, length_app, Hd; csimpl; rewrite app_nil_r; lia).
  all: try (intros j Hj Hjl; rewrite fmap_app in Hj; csimpl in Hj; rewrite not_elem_of_app, list_elem_of_singleton in Hj;
            destruct Hj as [Hj1 Hj2]; rewrite list_lookup_insert_ne by done; by apply Hnone).
  all: intros j e [Hj|Hj]%elem_of_app;
    [rewrite list_lookup_insert_ne; [by apply Hold, Hin|intros ->; apply Hnew, list_elem_of_fmap; by exists (j, e)]
    |apply list_elem_of_singleton in Hj as [= -> ->]; by rewrite list_lookup_insert_eq].
Qed.

Lemma push_arrivals_filled n l : forall fin s,
  filled n fin s -> NoDup (fin ++ l).*1 -> Forall (fun a => (a.1 < n)%nat) l ->
  exists s', push_arrivals l s = Ok s' /\ filled n (fin ++ l) s'.
Proof.
  induction l as [|[i d] l IH]; intros fin s Hf Hnd Hlt; cbn [push_arrivals].
  { exists s. by rewrite app_nil_r. }
  apply list.Forall_cons in Hlt as [Hi Hlt].
  rewrite fmap_app in Hnd. csimpl in Hnd.
  destruct (sb_push_index_filled n fin i d s Hf) as (s1 & Hs1 & Hf1); [|done|].
  { apply list.NoDup_app in Hnd as (_ & Hnd & _). intros Hin. apply (Hnd i Hin). left. }
  rewrite Hs1. cbn [rbind]. destruct (IH (fin ++ [(i, d)]) s1 Hf1) as (s2 & Hs2 & Hf2); [|done|].
  { rewrite <- app_assoc, fmap_app. done. }
  exists s2. rewrite <- app_assoc in Hf2. done.
Qed.

Lemma bytes_mkBuffer8 parts : bytes ((fun d => mkBuffer8 d 0) <$> parts) = mjoin parts.
Proof. unfold bytes. rewrite <- list_fmap_compose. by rewrite list_fmap_id. Qed.

Lemma filled_all parts l s :
  l ≡ₚ zip (seq 0 (length parts)) parts -> filled (length parts) l s ->
  s = mkSB (Z.of_nat (length (mjoin parts))) (Some <$> ((fun d => mkBuffer8 d 0) <$> parts)) 0 false (mode_ s).
Proof.
  intros Hp (Hn & Hin & Hout & Hd & Hm & Hi & Hr).
  assert (forall i d, parts !! i = Some d -> chunks s !! i = Some (Some (mkBuffer8 d 0))) as Hall.
  { intros i d Hid. apply Hin. rewrite Hp. apply list_elem_of_lookup. exists i. apply lookup_zip_with_Some.
    exists i, d. split; [done|]. split; [|done]. apply lookup_seq. apply lookup_lt_Some in Hid. lia. }
  assert (chunks s = Some <$> ((fun d => mkBuffer8 d 0) <$> parts)) as Hc.
  { apply list_eq. intros i. rewrite !list_lookup_fmap. destruct (parts !! i) as [d|] eqn:E; simpl.
    - by apply Hall.
    - apply lookup_ge_None in E. apply lookup_ge_None. lia. }
  assert (length (mjoin l.*2) = length (mjoin parts)) as Hlen.
  { apply Permutation_length. rewrite (fmap_Permutation snd _ _ Hp), snd_zip; [done|]. rewrite length_seq. lia. }
  destruct s as [dl ch cu re mo]; simpl in *. subst. by rewrite Hlen.
Qed.

(** A buffer filled in any order is a cursor at the start of its data. *)
Lemma arrivals_cursor (parts : list (list Z)) (arrivals : list (nat * list Z)) :
  parts <> [] -> arrivals ≡ₚ zip (seq 0 (length parts)) parts -> Z.of_nat (length (mjoin parts)) < 2 ^ 63 ->
  exists s, push_arrivals arrivals SparseBuffer_new = Ok s /\ cursor s [] (mjoin parts).
Proof.
  intros Hne Hp Hb.
  destruct (push_arrivals_filled (length parts) arrivals [] SparseBuffer_new) as (s & Hs & Hf).
  - repeat split; try done; simpl; try lia; set_solver.
  - simpl. rewrite (fmap_Permutation fst _ _ Hp), fst_zip; [apply NoDup_seq|]. rewrite length_seq. lia.
  - rewrite Hp. apply list.Forall_forall. intros [i d] Hid. apply elem_of_zip_l, elem_of_seq in Hid. simpl. lia.
  - exists s. split; [done|]. rewrite (filled_all parts arrivals s Hp Hf), <- bytes_mkBuffer8.
    apply rewound_cursor; [|done|by rewrite bytes_mkBuffer8|by apply Forall_fmap, list.Forall_true].
    intros E. by apply fmap_nil_inv in E.
Qed.

(** C11: tile parts may arrive in any order: a sparse buffer that has received
    every chunk once, at its index, serves every sequence of [read], [skip] and
    [rewind] exactly as one contiguous buffer holding the chunks in index order
    would - the same bytes, and [SparseBufferOverrun] exactly when a skip passes
    the end.  The loops of [read] and [skip] terminate, and no chunk is accessed
    out of range, empty chunks included. *)
Theorem sparse_buffer_refines (parts : list (list Z)) (arrivals : list (nat * list Z)) (ops : list sb_op) :
  parts <> [] ->
  arrivals ≡ₚ zip (seq 0 (length parts)) parts ->
  Z.of_nat (length (mjoin parts)) < 2 ^ 63 ->
  Forall op_ok ops ->
  exists s, push_arrivals arrivals SparseBuffer_new = Ok s /\
    sb_length s = Z.of_nat (length (mjoin parts)) /\
    sb_run ops s = byte_run ops (mjoin parts) 0.
Proof.
  intros Hne Hp Hb Hok. destruct (arrivals_cursor parts arrivals Hne Hp Hb) as (s & Hs & Hcur).
  exists s. split; [done|]. split; [by destruct (cursor_bound _ _ _ Hcur)|]. apply (sb_run_cursor ops _ _ _ Hcur Hok).
Qed.

Lemma sparse_buffer_refines_witness :
  exists s, push_arrivals [(2%nat, [7; 8]); (0%nat, [1; 2; 3]); (1%nat, [])] SparseBuffer_new = Ok s /\
    sb_length s = 5 /\
    sb_run [OpSkip 2; OpRead 2; OpRead 9; OpRewind; OpRead 1] s = Ok [[]; [3; 7]; [8]; []; [1]].
Proof.
  apply (sparse_buffer_refines [[1; 2; 3]; []; [7; 8]] _ [OpSkip 2; OpRead 2; OpRead 9; OpRewind; OpRead 1]).
  - done.
  - simpl. apply (Permutation_cons_append [(0%nat, [1; 2; 3]); (1%nat, [])] (2%nat, [7; 8])).
  - simpl. lia.
  - repeat constructor; simpl; lia.
Defined.

Lemma push_sequence_spec parts : forall l dl c m,
  m <> Indexed -> dl = Z.of_nat (length (bytes l)) ->
  exists s, push_sequence parts (mkSB dl (Some <$> l) c false m) = Ok s /\ reachedEnd_ s = false /\
    let all := l ++ ((fun d => mkBuffer8 d 0) <$> filter (fun d => d <> []) parts) in
    chunks s = Some <$> all /\ dataLen s = Z.of_nat (length (bytes all)).
Proof.
  induction parts as [|d parts IH]; intros l dl c m Hm Hd; cbn [push_sequence].
  { eexists. split; [done|]. simpl. rewrite app_nil_r. done. }
  unfold sb_push. cbn [mode_ chunks dataLen currentChunkId reachedEnd_].
  destruct m; [|clear Hm|done].
  all: destruct (Nat.eqb_spec (length d) 0) as [E|E]; cbn [rbind].
  all: try (apply nil_length_inv in E; subst d; rewrite filter_cons_False by auto; by apply IH).
  all: rewrite filter_cons_True by (intros ->; done);
    destruct (IH (l ++ [mkBuffer8 d 0]) (dl + Z.of_nat (length d)) (length ((Some <$> l) ++ [Some (mkBuffer8 d 0)]) - 1)%nat Sequential)
      as (s & Hs & Hr & Hc); [done|rewrite bytes_app, length_app; unfold bytes at 2; simpl; rewrite app_nil_r; lia|];
    exists s; rewrite fmap_app in Hs; split; [exact Hs|]; split; [done|];
    csimpl; by rewrite <- app_assoc in Hc.
Qed.

Lemma mjoin_filter_nonempty (parts : list (list Z)) : mjoin (filter (fun d => d <> []) parts) = mjoin parts.
Proof.
  induction parts as [|d parts IH]; [done|]. rewrite filter_cons. case_decide as E.
  - csimpl. by rewrite IH.
  - csimpl. rewrite IH. by subst.
Qed.

(** C37: The sequential mode: the chunks pushed one after the other (the empty
    ones are dropped), with at least one byte and fewer than 2^63 in all, are, after [rewind], the contiguous buffer of their
    concatenation for every sequence of reads and skips. *)
Theorem sparse_buffer_sequential (parts : list (list Z)) (ops : list sb_op) :
  mjoin parts <> [] ->
  Z.of_nat (length (mjoin parts)) < 2 ^ 63 ->
  Forall op_ok ops ->
  exists s, push_sequence parts SparseBuffer_new = Ok s /\
    sb_length s = Z.of_nat (length (mjoin parts)) /\
    sb_run (OpRewind :: ops) s = byte_run (OpRewind :: ops) (mjoin parts) 0.
Proof.
  intros Hne Hb Hok.
  destruct (push_sequence_spec parts [] 0 0 Unset) as (s & Hs & Hr & Hc & Hd); [done|done|].
  exists s. split; [done|]. rewrite app_nil_l, bytes_mkBuffer8, mjoin_filter_nonempty in *. split; [done|].
  set (l := (fun d => mkBuffer8 d 0) <$> filter (fun d => d <> []) parts) in *.
  assert (cursor (sb_rewind s) [] (mjoin parts)) as Hcur.
  { unfold sb_rewind. rewrite Hc. unfold l. rewrite <- !list_fmap_compose.
    rewrite (list_fmap_compose (fun d => mkBuffer8 d 0) Some), <- mjoin_filter_nonempty, <- bytes_mkBuffer8.
    apply rewound_cursor; [|by rewrite bytes_mkBuffer8, mjoin_filter_nonempty|lia|by apply Forall_fmap, list.Forall_true].
    intros E%fmap_nil_inv. rewrite <- mjoin_filter_nonempty, E in Hne. done. }
  cbn [sb_run byte_run sb_step byte_step rbind]. by rewrite (sb_run_cursor ops _ _ _ Hcur Hok).
Qed.

Lemma sparse_buffer_sequential_witness :
  exists s, push_sequence [[1; 2]; []; [3]] SparseBuffer_new = Ok s /\ sb_length s = 3 /\
    sb_run [OpRewind; OpRead 2; OpSkip 1; OpRead 4; OpSkip 1] s = Err SparseBufferOverrun.
Proof.
  apply (sparse_buffer_sequential [[1; 2]; []; [3]] [OpRead 2; OpSkip 1; OpRead 4; OpSkip 1]).
  - done.
  - simpl. lia.
  - repeat constructor; simpl; lia.
Defined.
