(* ===== verification/PLMarker.v ===== *)
(** Packet length markers: [PLMarker] (codestream/markers/PLMarker.cpp), the
    [PacketLengthCache] that fronts it and [PacketIter::skipPackets].

    The compressor pushes the length of every packet and writes them as PLT
    marker segments of comma-coded bytes; the decompressor stores the segments
    it reads and pops the lengths to skip packets.  The theorems show that the
    lengths come back in order, and that a skip of [n] packets moves the
    compressed data to the start of packet [n]. *)
From S2P Require Import Prelude Geometry IncludeTracker Loops PacketIter SparseBuffer.

(** ** [std::map<uint32_t, RAW_PL_MARKER>] *)

(** The map in key order; a marker's vector holds null where a tile part has
    not been read. *)
Definition RAW_PL_MARKER : Type := list (option Buffer8).
Definition RAW_PL_MARKER_MAP : Type := list (Z * RAW_PL_MARKER).

Fixpoint map_find (k : Z) (m : RAW_PL_MARKER_MAP) : option RAW_PL_MARKER :=
  match m with
  | [] => None
  | (j, v) :: m => if j =? k then Some v else map_find k m
  end.
Fixpoint map_set (k : Z) (v : RAW_PL_MARKER) (m : RAW_PL_MARKER_MAP) : RAW_PL_MARKER_MAP :=
  match m with
  | [] => [(k, v)]
  | (j, w) :: m => if k <? j then (k, v) :: (j, w) :: m else if j =? k then (k, v) :: m else (j, w) :: map_set k v m
  end.
Fixpoint map_erase (k : Z) (m : RAW_PL_MARKER_MAP) : RAW_PL_MARKER_MAP :=
  match m with
  | [] => []
  | (j, w) :: m => if j =? k then m else (j, w) :: map_erase k m
  end.
(** The iterator after the one at key [k]. *)
Fixpoint map_next (k : Z) (m : RAW_PL_MARKER_MAP) : option Z :=
  match m with
  | [] => None
  | (j, _) :: m => if k <? j then Some j else map_next k m
  end.
Definition map_begin (m : RAW_PL_MARKER_MAP) : option Z := match m with [] => None | (k, _) :: _ => Some k end.

(** ** State *)

(** [currMarkerIter_] is the key it points at, [None] for [end()];
    [currMarkerBuf_] is the key and the index of the buffer it points at. *)
Record PLMarker := mkPL {
  rawMarkers_ : RAW_PL_MARKER_MAP;
  currMarkerIter_ : option Z;
  totalBytesWritten_ : Z;
  isFinal_ : bool;
  sequential_ : bool;
  packetLen_ : Z;
  currMarkerBufIndex_ : nat;
  currMarkerBuf_ : option (Z * nat);
  enabled_ : bool;
}.
Definition PLMarker_new : PLMarker := mkPL [] None 0 false false 0 0 None true.

Definition set_raw r m := mkPL r (currMarkerIter_ m) (totalBytesWritten_ m) (isFinal_ m) (sequential_ m) (packetLen_ m)
  (currMarkerBufIndex_ m) (currMarkerBuf_ m) (enabled_ m).
Definition set_iter i m := mkPL (rawMarkers_ m) i (totalBytesWritten_ m) (isFinal_ m) (sequential_ m) (packetLen_ m)
  (currMarkerBufIndex_ m) (currMarkerBuf_ m) (enabled_ m).
Definition set_total t m := mkPL (rawMarkers_ m) (currMarkerIter_ m) t (isFinal_ m) (sequential_ m) (packetLen_ m)
  (currMarkerBufIndex_ m) (currMarkerBuf_ m) (enabled_ m).
Definition set_final f m := mkPL (rawMarkers_ m) (currMarkerIter_ m) (totalBytesWritten_ m) f (sequential_ m) (packetLen_ m)
  (currMarkerBufIndex_ m) (currMarkerBuf_ m) (enabled_ m).
Definition set_sequential q m := mkPL (rawMarkers_ m) (currMarkerIter_ m) (totalBytesWritten_ m) (isFinal_ m) q (packetLen_ m)
  (currMarkerBufIndex_ m) (currMarkerBuf_ m) (enabled_ m).
Definition set_packetLen p m := mkPL (rawMarkers_ m) (currMarkerIter_ m) (totalBytesWritten_ m) (isFinal_ m) (sequential_ m) p
  (currMarkerBufIndex_ m) (currMarkerBuf_ m) (enabled_ m).
Definition set_bufIndex i m := mkPL (rawMarkers_ m) (currMarkerIter_ m) (totalBytesWritten_ m) (isFinal_ m) (sequential_ m) (packetLen_ m)
  i (currMarkerBuf_ m) (enabled_ m).
Definition set_buf b m := mkPL (rawMarkers_ m) (currMarkerIter_ m) (totalBytesWritten_ m) (isFinal_ m) (sequential_ m) (packetLen_ m)
  (currMarkerBufIndex_ m) b (enabled_ m).
Definition disable m := mkPL (rawMarkers_ m) (currMarkerIter_ m) (totalBytesWritten_ m) (isFinal_ m) (sequential_ m) (packetLen_ m)
  (currMarkerBufIndex_ m) (currMarkerBuf_ m) false.
Definition isEnabled (m : PLMarker) : bool := enabled_ m.

Definition clearMarkers (m : PLMarker) : PLMarker := set_buf None (set_iter None (set_raw [] m)).

(** The vector the iterator points at. *)
Definition curr_vec (m : PLMarker) : RAW_PL_MARKER :=
  match currMarkerIter_ m with Some k => default [] (map_find k (rawMarkers_ m)) | None => [] end.
Definition set_curr_vec (v : RAW_PL_MARKER) (m : PLMarker) : PLMarker :=
  match currMarkerIter_ m with Some k => set_raw (map_set k v (rawMarkers_ m)) m | None => m end.
(** The pointer held at place [i] of that vector. *)
Definition buf_ptr (m : PLMarker) (i : nat) : option (Z * nat) :=
  match currMarkerIter_ m, curr_vec m !! i with Some k, Some (Some _) => Some (k, i) | _, _ => None end.

Definition num_markers (m : PLMarker) : Z := Z.of_nat (length (rawMarkers_ m)).

(** ** Markers *)

Definition findMarker (nextIndex : Z) (compress : bool) (m : PLMarker) : bool * PLMarker :=
  let '(ok, nextIndex, m) :=
    if compress then (true, nextIndex, m)
    else if (length (rawMarkers_ m) =? 0)%nat then (true, nextIndex, set_sequential (nextIndex =? 0) m)
    else if sequential_ m then
      let m := set_sequential (Z.land (num_markers m) 255 =? nextIndex) m in
      if sequential_ m then (true, u32 (num_markers m), m)
      else (negb (256 <? num_markers m), nextIndex, m)
    else (true, nextIndex, m) in
  if negb ok then (false, m)
  else
    let m := set_iter (Some nextIndex) m in
    (true, match map_find nextIndex (rawMarkers_ m) with
           | Some _ => m
           | None => set_raw (map_set nextIndex [] (rawMarkers_ m)) m
           end).

(** [addNewMarker]: the bytes allocated and not copied into are left as zeros.
    The buffer goes to the back of the vector, or to a given tile part's place. *)
Definition addNewMarker (data : option (list Z)) (len : nat) (tilePartIndex : Z) (m : PLMarker) : bool * PLMarker :=
  if tilePartIndex <? -1 then (false, m)
  else
    let b := mkBuffer8 (match data with Some d => take len d | None => replicate len 0 end) 0 in
    let vec := curr_vec m in
    if tilePartIndex =? -1 then (true, set_curr_vec (vec ++ [Some b]) m)
    else
      let index := Z.to_nat tilePartIndex in
      let vec := if (length vec <=? index)%nat then resize (S index) None vec else vec in
      match vec !! index with
      | Some (Some _) => (false, set_curr_vec vec m)
      | _ => (true, set_curr_vec (<[index := Some b]> vec) m)
      end.

(** ** Compression *)

Definition plWriteBufferLen : Z := UINT16_MAX - 4.

Definition pushInit (isFinal : bool) (m : PLMarker) : PLMarker := set_final isFinal (set_total 0 (clearMarkers m)).

(** The comma code of a length in [temp], written from the last byte back. *)
Fixpoint write_commas (fuel : nat) (len counter : Z) (temp : list Z) : list Z :=
  match fuel with
  | O => temp
  | S fuel =>
      if len =? 0 then temp
      else write_commas fuel (Z.shiftr len 7) (counter - 1) (<[Z.to_nat counter := Z.lor (Z.land len 127) 128]> temp)
  end.
Definition pl_numBytes (len : Z) : Z := (floorlog2 len + 1 + 6) / 7.
Definition pl_temp (len : Z) : list Z :=
  let counter := pl_numBytes len - 1 in
  write_commas 5 (Z.shiftr len 7) (counter - 1) (<[Z.to_nat counter := Z.land len 127]> (replicate 5 0)).

(** [currMarkerIter_->second->back()]. *)
Definition back_buf (m : PLMarker) : option Buffer8 := mjoin (curr_vec m !! (length (curr_vec m) - 1)%nat).
Definition set_back (b : Buffer8) (m : PLMarker) : PLMarker :=
  set_curr_vec (<[(length (curr_vec m) - 1)%nat := Some b]> (curr_vec m)) m.

(** Whether the packet length does not fit in the current marker. *)
Definition needs_marker (numBytes : Z) (m : PLMarker) : bool :=
  (length (rawMarkers_ m) =? 0)%nat ||
  match back_buf m with Some b => num_elts b <? offset_ b + numBytes | None => true end.

(** [back()->write(...)]. *)
Definition write_back (data : list Z) : bstep PLMarker := fun m =>
  match back_buf m with
  | Some b => match buf_write data b with Some b => (true, set_back b m) | None => (false, m) end
  | None => (false, m)
  end.

Definition new_write_marker : bstep PLMarker := fun m =>
  let markerId := Z.land (num_markers m) 255 in
  (findMarker (u32 (num_markers m)) true ;;;
   addNewMarker None (if isFinal_ m then Z.to_nat plWriteBufferLen else 0) (-1) ;;;
   (if isFinal_ m then write_back [markerId] else bret) ;;;
   (fun m => (true, set_total (u32 (totalBytesWritten_ m + (2 + 2 + 1))) m))) m.

Definition pushPL (len : Z) : bstep PLMarker := fun m =>
  let numBytes := pl_numBytes len in
  ((if needs_marker numBytes m then new_write_marker else bret) ;;;
   (if isFinal_ m then write_back (take (Z.to_nat numBytes) (pl_temp len)) else bret) ;;;
   (fun m => (true, set_total (u32 (totalBytesWritten_ m + numBytes)) m))) m.

Definition getTotalBytesWritten (m : PLMarker) : Z := totalBytesWritten_ m.

(** The output stream, through the operations [PLMarker::write] uses. *)
Class ByteStream (K : Type) := stream_write : list Z -> K -> bool * K.

Definition PLT : Z := 65368.   (* 0xff58 *)
Definition be16 (v : Z) : list Z := [Z.shiftr (u16 v) 8; Z.land (u16 v) 255].

Fixpoint write_buffers {K} `{ByteStream K} (v : RAW_PL_MARKER) : bstep K :=
  match v with
  | [] => bret
  | None :: _ => fun k => (false, k)
  | Some b :: v =>
      stream_write (be16 PLT) ;;; stream_write (be16 (offset_ b + 2)) ;;;
      stream_write (take (Z.to_nat (offset_ b)) (buf_ b)) ;;; write_buffers v
  end.
Fixpoint write_markers {K} `{ByteStream K} (r : RAW_PL_MARKER_MAP) : bstep K :=
  match r with
  | [] => bret
  | (_, v) :: r => write_buffers v ;;; write_markers r
  end.
Definition pl_write {K} `{ByteStream K} (m : PLMarker) : bstep K := write_markers (rawMarkers_ m).

(** ** Decompression *)

(** [readPLT]: [headerData] is the segment without its marker and length. *)
Definition readPLT (headerData : list Z) (tilePartIndex : Z) : bstep PLMarker := fun m =>
  match headerData with
  | Zpl :: (_ :: _) as data => (findMarker Zpl false ;;; addNewMarker (Some data) (length data) tilePartIndex) m
  | _ => (false, m)
  end.

(** How the loop of [readPLM] can stop before its end: a tile part longer than the segment,
    which the code tests, and a copy of bytes past the memory there is, which it does not. *)
Inductive plm_stop := Malformed | PastEnd.

(** The loop of [readPLM] over the tile parts of the segment; [headerData] may
    extend past the [headerSize] bytes of the segment, as the memory it points
    into does. *)
Fixpoint readPLM_loop (fuel : nat) (headerData : list Z) (headerSize : Z) (added : bool) (m : PLMarker)
  : result plm_stop (bool * PLMarker) :=
  match fuel with
  | O => Ok (added, m)
  | S fuel =>
      if 0 <? headerSize then
        let Nplm := nthZ 0 headerData 0 in
        let data := drop 1 headerData in
        let tilePartPacketInfoLength := Nplm + 1 in
        if headerSize <? tilePartPacketInfoLength then Err Malformed
        else if (length data <? Z.to_nat tilePartPacketInfoLength)%nat then Err PastEnd
        else
          let (_, m) := addNewMarker (Some data) (Z.to_nat tilePartPacketInfoLength) (-1) m in
          readPLM_loop fuel (drop (Z.to_nat Nplm) data) (headerSize - tilePartPacketInfoLength) true m
      else Ok (added, m)
  end.

(** [readPLM] always returns [true]; [None] when it reads past [headerData]. *)
Definition readPLM (headerData : list Z) (headerSize : Z) (m : PLMarker) : option PLMarker :=
  if headerSize <? 1 then Some m
  else if num_markers m =? 256 then Some m
  else
    match findMarker (nthZ 0 headerData 0) false m with
    | (false, m) => Some (clearMarkers m)
    | (true, m) =>
        match readPLM_loop (Z.to_nat headerSize) (drop 1 headerData) (headerSize - 1) false m with
        | Err Malformed => Some (clearMarkers m)
        | Err PastEnd => None
        | Ok (added, m) =>
            if negb added && (length (curr_vec m) =? 0)%nat then
              Some (set_iter None (match currMarkerIter_ m with
                                   | Some k => set_raw (map_erase k (rawMarkers_ m)) m
                                   | None => m end))
            else Some m
        end
    end.

(** [readNextByte]: the returned flag, the value stored in [rc] if any, and the
    new [packetLen_]. *)
Definition readNextByte (Iplm packetLen rc : Z) : bool * Z * Z :=
  let p := Z.lor packetLen (Z.land Iplm 127) in
  if negb (Z.land Iplm 128 =? 0) then let p := u32 (Z.shiftl p 7) in (p =? 0, rc, p)
  else (true, p, 0).

(** The loop of [pop] over the current buffer: [rc], [packetLen_] and the
    buffer's new offset. *)
Fixpoint pop_loop (data : list Z) (packetLen rc : Z) (read : Z) : Z * Z * Z :=
  match data with
  | [] => (rc, packetLen, read)
  | b :: data =>
      let '(fin, rc, p) := readNextByte b packetLen rc in
      if (fin : bool) then (rc, p, read + 1) else pop_loop data p rc (read + 1)
  end.

(** The buffer [currMarkerBuf_] points at. *)
Definition deref (p : Z * nat) (m : PLMarker) : option Buffer8 :=
  v ← map_find p.1 (rawMarkers_ m); mjoin (v !! p.2).
Definition store (p : Z * nat) (b : Buffer8) (m : PLMarker) : PLMarker :=
  match map_find p.1 (rawMarkers_ m) with
  | Some v => set_raw (map_set p.1 (<[p.2 := Some b]> v) (rawMarkers_ m)) m
  | None => m
  end.

(** The move to the next buffer; [false] when it finds an empty vector. *)
Definition advance_buf (m : PLMarker) : bool * PLMarker :=
  let m := set_bufIndex (S (currMarkerBufIndex_ m)) m in
  if (currMarkerBufIndex_ m <? length (curr_vec m))%nat then (true, set_buf (buf_ptr m (currMarkerBufIndex_ m)) m)
  else
    let m := set_iter (match currMarkerIter_ m with Some k => map_next k (rawMarkers_ m) | None => None end) m in
    match currMarkerIter_ m with
    | None => (true, set_buf None m)
    | Some _ =>
        if (length (curr_vec m) =? 0)%nat then (false, set_buf None m)
        else let m := set_bufIndex 0 m in (true, set_buf (buf_ptr m 0) m)
    end.

Definition pop (m : PLMarker) : Z * PLMarker :=
  match currMarkerIter_ m, currMarkerBuf_ m with
  | Some _, Some p =>
      match deref p m with
      | None => (0, m)
      | Some b =>
          let '(rc, plen, n) := pop_loop (drop (Z.to_nat (offset_ b)) (buf_ b)) (packetLen_ m) 0 0 in
          let b := set_offset (offset_ b + n) b in
          let m := set_packetLen plen (store p b m) in
          if offset_ b =? num_elts b then
            let (ok, m) := advance_buf m in (if ok then rc else 0, m)
          else (rc, m)
      end
  | _, _ => (0, m)
  end.

(** [pop(numPackets)]. *)
Fixpoint pop_many (numPackets : nat) (total : Z) (m : PLMarker) : Z * PLMarker :=
  match numPackets with
  | O => (total, m)
  | S n => let (len, m) := pop m in pop_many n (u64 (total + len)) m
  end.

(** [rewind]: the buffers up to the first null one are rewound. *)
Fixpoint rewind_vec (v : RAW_PL_MARKER) : bool * RAW_PL_MARKER :=
  match v with
  | [] => (true, [])
  | None :: v => (false, None :: v)
  | Some b :: v => let (ok, v) := rewind_vec v in (ok, Some (set_offset 0 b) :: v)
  end.
Fixpoint rewind_map (r : RAW_PL_MARKER_MAP) : bool * RAW_PL_MARKER_MAP :=
  match r with
  | [] => (true, [])
  | (k, v) :: r =>
      if (length v =? 0)%nat then (false, (k, v) :: r)
      else
        let (ok, v) := rewind_vec v in
        if negb ok then (false, (k, v) :: r)
        else let (ok, r) := rewind_map r in (ok, (k, v) :: r)
  end.

Definition pl_rewind (m : PLMarker) : PLMarker :=
  if (length (rawMarkers_ m) =? 0)%nat then m
  else
    let m := set_iter (map_begin (rawMarkers_ m)) m in
    let (ok, r) := rewind_map (rawMarkers_ m) in
    let m := set_raw r m in
    if negb ok then disable m
    else
      let m := set_bufIndex 0 m in
      if (length (curr_vec m) =? 0)%nat then disable m
      else set_buf (buf_ptr m 0) m.

(** ** [PacketLengthCache] *)

Record PacketLengthCache := mkCache {
  plMarkers_ : option PLMarker;
  has_plmMarkers : bool;       (* cp_->plmMarkers_ *)
}.
Definition createMarkers (c : PacketLengthCache) : PacketLengthCache :=
  match plMarkers_ c with Some _ => c | None => mkCache (Some PLMarker_new) (has_plmMarkers c) end.
Definition deleteMarkers (c : PacketLengthCache) : PacketLengthCache := mkCache None (has_plmMarkers c).
Definition cache_next (c : PacketLengthCache) : Z * PacketLengthCache :=
  match plMarkers_ c with
  | Some m =>
      if negb (has_plmMarkers c) && isEnabled m then
        let (len, m) := pop m in (len, mkCache (Some m) (has_plmMarkers c))
      else (0, c)
  | None => (0, c)
  end.
Definition cache_rewind (c : PacketLengthCache) : PacketLengthCache :=
  match plMarkers_ c with
  | Some m => if negb (has_plmMarkers c) then mkCache (Some (pl_rewind m)) false else c
  | None => c
  end.

(** [TileProcessor::readPLT]: the segment goes to the tile part the thread
    reads. *)
Definition tile_readPLT (headerData : list Z) (tilePart : Z) (disabled : bool) (c : PacketLengthCache)
  : bool * PacketLengthCache :=
  let c := createMarkers c in
  match plMarkers_ c with
  | Some m =>
      let (rc, m) := readPLT headerData tilePart m in
      (rc, mkCache (Some (if rc && disabled then disable m else m)) (has_plmMarkers c))
  | None => (false, c)
  end.

(** ** [PacketIter::skipPackets] *)

Record SkipState := mkSkip {
  sk_markers : PLMarker;
  sk_packets : SparseBuffer;
  sk_processed : Z;     (* numProcessedPackets of the tile processor *)
}.
Definition skipPackets (numPackets : Z) (k : SkipState) : result sb_exception (bool * SkipState) :=
  let (skippedBytes, m) := pop_many (Z.to_nat numPackets) 0 (sk_markers k) in
  let* (n, s) := sb_skip skippedBytes (sk_packets k) in
  if negb (n =? skippedBytes) then Ok (false, mkSkip m s (sk_processed k))
  else Ok (true, mkSkip m s (u64 (sk_processed k + numPackets))).

(** This is what the packet iterator skips with. *)
#[export] Instance marker_skipper : PacketSkipper sb_exception SkipState := skipPackets.

(** ** The comma code *)

(** [v] has exactly [n] digits in base 128. *)
Definition ndig (n : nat) (v : Z) : Prop :=
  match n with O => v = 0 | S n => 2 ^ (7 * Z.of_nat n) <= v < 2 ^ (7 * Z.of_nat n + 7) end.

Lemma ndig_shiftr n v : ndig (S n) v -> ndig n (Z.shiftr v 7).
Proof.
  unfold ndig. intros [H1 H2]. rewrite Z.shiftr_div_pow2 by lia. destruct n as [|n].
  - simpl in *. apply Z.div_small. lia.
  - rewrite Nat2Z.inj_succ in *. replace (7 * Z.succ (Z.of_nat n)) with (7 * Z.of_nat n + 7) in * by lia.
    split.
    + apply Z.div_le_lower_bound; [lia|]. rewrite <- Z.pow_add_r by lia. by replace (7 + (7 * Z.of_nat n)) with (7 * Z.of_nat n + 7) by lia.
    + apply Z.div_lt_upper_bound; [lia|]. rewrite <- Z.pow_add_r by lia. by replace (7 + (7 * Z.of_nat n + 7)) with (7 * Z.of_nat n + 7 + 7) by lia.
Qed.

Lemma pl_numBytes_spec len : 1 <= len < 2 ^ 32 ->
  exists n, pl_numBytes len = Z.of_nat (S n) /\ (n <= 4)%nat /\ ndig (S n) len.
Proof.
  intros Hl. unfold pl_numBytes. rewrite floorlog2_log2 by done. exists (Z.to_nat (Z.log2 len / 7)).
  pose proof (Z.log2_nonneg len) as H0. pose proof (Z.log2_spec len ltac:(lia)) as [Hs1 Hs2].
  assert (Z.log2 len < 32) as H32 by (apply Z.log2_lt_pow2; lia).
  pose proof (Z.div_mod (Z.log2 len) 7 ltac:(lia)) as Hdm. pose proof (Z.mod_pos_bound (Z.log2 len) 7 ltac:(lia)) as Hm.
  pose proof (Z.div_pos (Z.log2 len) 7 ltac:(lia) ltac:(lia)) as Hq.
  split. { rewrite Nat2Z.inj_succ, Z2Nat.id by lia. replace (Z.log2 len + 1 + 6) with (Z.log2 len + 1 * 7) by lia. rewrite Z.div_add by lia. lia. }
  split; [lia|]. unfold ndig. rewrite Z2Nat.id by lia. split.
  - etransitivity; [|exact Hs1]. apply Z.pow_le_mono_r; lia.
  - eapply Z.lt_le_trans; [exact Hs2|]. apply Z.pow_le_mono_r; lia.
Qed.

Fixpoint commas (n : nat) (v : Z) : list Z :=
  match n with O => [] | S n => commas n (Z.shiftr v 7) ++ [Z.lor (Z.land v 127) 128] end.
(** The code of a packet length. *)
Definition comma_code (len : Z) : list Z :=
  commas (Z.to_nat (pl_numBytes len) - 1) (Z.shiftr len 7) ++ [Z.land len 127].

Lemma length_commas n v : length (commas n v) = n.
Proof. revert v; induction n as [|n IH]; intros v; [done|]. simpl. rewrite length_app, IH. simpl. lia. Qed.

Lemma write_commas_spec n : forall fuel v temp,
  ndig n v -> (n <= fuel)%nat -> (n <= length temp)%nat ->
  write_commas fuel v (Z.of_nat n - 1) temp = commas n v ++ drop n temp.
Proof.
  induction n as [|n IH]; intros fuel v temp Hv Hf Ht.
  { simpl in Hv. subst v. destruct fuel; by simpl. }
  destruct fuel as [|fuel]; [lia|]. cbn [write_commas].
  destruct (Z.eqb_spec v 0) as [->|].
  { destruct Hv as [Hv _]. pose proof (Z.pow_pos_nonneg 2 (7 * Z.of_nat n)). lia. }
  replace (Z.of_nat (S n) - 1 - 1) with (Z.of_nat n - 1) by lia.
  replace (Z.to_nat (Z.of_nat (S n) - 1)) with n by lia.
  rewrite IH; [|by apply ndig_shiftr|lia|rewrite length_insert; lia]. cbn [commas]. rewrite <- app_assoc. f_equal.
  rewrite (drop_S _ (Z.lor (Z.land v 127) 128) n) by (apply list_lookup_insert_eq; lia).
  rewrite drop_insert_lt by lia. done.
Qed.

Lemma pl_temp_spec len : 1 <= len < 2 ^ 32 ->
  take (Z.to_nat (pl_numBytes len)) (pl_temp len) = comma_code len.
Proof.
  intros Hl. destruct (pl_numBytes_spec len Hl) as (n & Hn & Hn4 & Hd). unfold pl_temp, comma_code. rewrite Hn, Nat2Z.id.
  replace (S n - 1)%nat with n by lia.
  replace (Z.of_nat (S n) - 1 - 1) with (Z.of_nat n - 1) by lia. replace (Z.to_nat (Z.of_nat (S n) - 1)) with n by lia.
  rewrite write_commas_spec; [|by apply ndig_shiftr|lia|rewrite length_insert, length_replicate; lia].
  assert ((n < length (replicate 5 0))%nat) as Hlt by (rewrite length_replicate; lia).
  rewrite (drop_S _ (Z.land len 127) n) by (by apply list_lookup_insert_eq).
  rewrite take_app_ge, length_commas by (rewrite length_commas; lia). by replace (S n - n)%nat with 1%nat by lia.
Qed.

Lemma length_comma_code len : 1 <= len < 2 ^ 32 -> Z.of_nat (length (comma_code len)) = pl_numBytes len.
Proof.
  intros Hl. destruct (pl_numBytes_spec len Hl) as (n & Hn & Hn4 & Hd). unfold comma_code.
  rewrite length_app, length_commas, Hn. simpl. lia.
Qed.

Lemma pl_numBytes_range len : 1 <= len < 2 ^ 32 -> 1 <= pl_numBytes len <= 5.
Proof. intros Hl. destruct (pl_numBytes_spec len Hl) as (n & -> & Hn4 & _). lia. Qed.

Lemma land_comma_7 v : Z.land (Z.lor (Z.land v 127) 128) 127 = Z.land v 127.
Proof. rewrite Z.land_lor_distr_l, <- Z.land_assoc. change (Z.land 128 127) with 0. by rewrite Z.lor_0_r. Qed.
Lemma land_digit_8 v : Z.land (Z.land v 127) 128 = 0.
Proof. rewrite <- Z.land_assoc. apply Z.land_0_r. Qed.
Lemma land_comma_8 v : Z.land (Z.lor (Z.land v 127) 128) 128 = 128.
Proof. rewrite Z.land_lor_distr_l, land_digit_8. done. Qed.
Lemma lor_digit v : Z.lor (Z.shiftl (Z.shiftr v 7) 7) (Z.land v 127) = v.
Proof. rewrite <- Z.ldiff_ones_r by lia. apply Z.lor_ldiff_and. Qed.

Lemma readNextByte_comma v rc : 0 < v < 2 ^ 25 ->
  readNextByte (Z.lor (Z.land v 127) 128) (Z.shiftl (Z.shiftr v 7) 7) rc = (false, rc, Z.shiftl v 7).
Proof.
  intros Hv. unfold readNextByte.
  rewrite land_comma_8, land_comma_7, lor_digit.
  assert (Z.shiftl v 7 = v * 128) as E by (rewrite Z.shiftl_mul_pow2 by lia; done).
  simpl. rewrite wrap_small by lia. destruct (Z.eqb_spec (Z.shiftl v 7) 0); [lia|done].
Qed.

Lemma pop_loop_commas n : forall v rest rc r,
  ndig n v -> v < 2 ^ 25 ->
  pop_loop (commas n v ++ rest) 0 rc r = pop_loop rest (Z.shiftl v 7) rc (r + Z.of_nat n).
Proof.
  induction n as [|n IH]; intros v rest rc r Hd Hv.
  { simpl in Hd. subst v. simpl. by rewrite Z.add_0_r. }
  cbn [commas]. rewrite <- app_assoc.
  assert (0 < v) as H0. { destruct Hd as [H1 _]. pose proof (Z.pow_pos_nonneg 2 (7 * Z.of_nat n)). lia. }
  rewrite IH; [|by apply ndig_shiftr|].
  2: { rewrite Z.shiftr_div_pow2 by lia. apply Z.div_lt_upper_bound; lia. }
  cbn [app pop_loop]. rewrite readNextByte_comma by lia. f_equal. lia.
Qed.

Lemma pop_loop_comma_code len rest rc r : 1 <= len < 2 ^ 32 ->
  pop_loop (comma_code len ++ rest) 0 rc r = (len, 0, r + pl_numBytes len).
Proof.
  intros Hl. rewrite <- (length_comma_code len Hl). destruct (pl_numBytes_spec len Hl) as (n & Hn & Hn4 & Hd).
  unfold comma_code. rewrite Hn, Nat2Z.id, length_app, length_commas. replace (S n - 1)%nat with n by lia.
  rewrite <- app_assoc, pop_loop_commas; [|by apply ndig_shiftr|].
  2: { rewrite Z.shiftr_div_pow2 by lia. apply Z.div_lt_upper_bound; lia. }
  cbn [app pop_loop]. unfold readNextByte.
  rewrite land_digit_8, <- (Z.land_assoc len 127 127). change (Z.land 127 127) with 127. rewrite lor_digit. simpl. f_equal. lia.
Qed.

(** ** Maps in key order *)

Abbreviation below k := (Forall (fun e : Z * RAW_PL_MARKER => e.1 < k)).

Lemma below_snoc i v l : below (Z.of_nat i) l -> below (Z.of_nat (S i)) (l ++ [(Z.of_nat i, v)]).
Proof.
  intros H. apply Forall_app. split; [|constructor; [simpl; lia|constructor]].
  eapply Forall_impl; [|exact H]. simpl. lia.
Qed.
Lemma map_find_below k l : below k l -> map_find k l = None.
Proof. induction 1 as [|[j v] l Hj _ IH]; [done|]. simpl in *. destruct (Z.eqb_spec j k); [lia|done]. Qed.
Lemma map_find_mid k pre v post : below k pre -> map_find k (pre ++ (k, v) :: post) = Some v.
Proof. induction 1 as [|[j w] l Hj _ IH]; simpl in *; [by rewrite Z.eqb_refl|]. destruct (Z.eqb_spec j k); [lia|done]. Qed.
Lemma map_set_end k v l : below k l -> map_set k v l = l ++ [(k, v)].
Proof.
  induction 1 as [|[j w] l Hj _ IH]; [done|]. simpl in *. rewrite IH.
  destruct (Z.ltb_spec k j), (Z.eqb_spec j k); try lia; done.
Qed.
Lemma map_set_mid k v w pre post : below k pre -> map_set k v (pre ++ (k, w) :: post) = pre ++ (k, v) :: post.
Proof.
  induction 1 as [|[j u] l Hj _ IH]; simpl in *.
  - rewrite Z.ltb_irrefl, Z.eqb_refl. done.
  - rewrite IH. destruct (Z.ltb_spec k j), (Z.eqb_spec j k); try lia; done.
Qed.
Lemma map_next_mid k w pre post : below k pre -> map_next k (pre ++ (k, w) :: post) = map_next k post.
Proof.
  induction 1 as [|[j u] l Hj _ IH]; simpl in *; [by rewrite Z.ltb_irrefl|].
  destruct (Z.ltb_spec k j); [lia|done].
Qed.

(** ** Pushing lengths *)

Definition plt_payload (i : nat) (g : list Z) : list Z := Z.land (Z.of_nat i) 255 :: mjoin (comma_code <$> g).
Definition plt_segment (p : list Z) : list Z := be16 PLT ++ be16 (Z.of_nat (length p) + 2) ++ p.

Definition wlen : nat := Z.to_nat plWriteBufferLen.
Lemma wlen_val : Z.of_nat wlen = 65531.
Proof. unfold wlen. rewrite Z2Nat.id; [done|]. unfold plWriteBufferLen, UINT16_MAX. lia. Qed.
Lemma wlen_eq : Z.to_nat plWriteBufferLen = wlen.
Proof. reflexivity. Qed.
#[local] Opaque wlen plWriteBufferLen.

(** A write buffer that holds [p]. *)
Definition wb (p : list Z) : Buffer8 := mkBuffer8 (p ++ replicate (wlen - length p) 0) (Z.of_nat (length p)).

Lemma num_elts_wb p : (length p <= wlen)%nat -> num_elts (wb p) = Z.of_nat wlen.
Proof. intros. unfold num_elts. simpl. rewrite length_app, length_replicate. lia. Qed.

Lemma buf_write_wb p d : (length p + length d <= wlen)%nat -> buf_write d (wb p) = Some (wb (p ++ d)).
Proof.
  intros Hl. pose proof wlen_val. unfold buf_write. rewrite num_elts_wb by lia. simpl.
  rewrite wrap_small by lia. destruct (Z.ltb_spec (Z.of_nat wlen) (Z.of_nat (length p) + Z.of_nat (length d))); [lia|].
  f_equal. unfold wb. f_equal; [|rewrite length_app; lia].
  rewrite Nat2Z.id, take_app_length. replace (Z.to_nat (Z.of_nat (length p) + Z.of_nat (length d))) with (length p + length d)%nat by lia.
  rewrite <- drop_drop, drop_app_length, drop_replicate, <- app_assoc, length_app. do 3 f_equal. lia.
Qed.

Lemma curr_vec_last m pre k v : rawMarkers_ m = pre ++ [(k, v)] -> currMarkerIter_ m = Some k -> below k pre -> curr_vec m = v.
Proof. intros Hr Hi Hb. unfold curr_vec. rewrite Hi, Hr, map_find_mid by done. done. Qed.

Lemma set_curr_vec_last m pre k v w :
  rawMarkers_ m = pre ++ [(k, v)] -> currMarkerIter_ m = Some k -> below k pre ->
  set_curr_vec w m = set_raw (pre ++ [(k, w)]) m.
Proof. intros Hr Hi Hb. unfold set_curr_vec. rewrite Hi, Hr, map_set_mid by done. done. Qed.

Lemma write_back_wb m pre k p d :
  rawMarkers_ m = pre ++ [(k, [Some (wb p)])] -> currMarkerIter_ m = Some k -> below k pre ->
  (length p + length d <= wlen)%nat ->
  write_back d m = (true, set_raw (pre ++ [(k, [Some (wb (p ++ d))])]) m).
Proof.
  intros Hr Hi Hb Hl. unfold write_back, back_buf, set_back. rewrite (curr_vec_last m pre k _ Hr Hi Hb). simpl.
  rewrite buf_write_wb by done. by rewrite (set_curr_vec_last m pre k _ _ Hr Hi Hb).
Qed.

Lemma new_write_marker_spec m :
  isFinal_ m = true -> below (num_markers m) (rawMarkers_ m) -> num_markers m < 2 ^ 32 ->
  exists m', new_write_marker m = (true, m') /\ isFinal_ m' = true /\
    rawMarkers_ m' = rawMarkers_ m ++ [(num_markers m, [Some (wb [Z.land (num_markers m) 255])])] /\
    currMarkerIter_ m' = Some (num_markers m) /\ totalBytesWritten_ m' = u32 (totalBytesWritten_ m + 5).
Proof.
  intros Hf Hb Hk. unfold new_write_marker. rewrite Hf, wlen_eq. set (k := num_markers m) in *.
  assert (u32 k = k) as -> by (apply wrap_small; unfold k, num_markers in *; lia).
  set (m1 := set_raw (rawMarkers_ m ++ [(k, [])]) (set_iter (Some k) m)).
  assert (findMarker k true m = (true, m1)) as E1.
  { unfold findMarker. cbn [negb rawMarkers_ set_iter]. rewrite map_find_below, map_set_end by done. done. }
  set (m2 := set_raw (rawMarkers_ m ++ [(k, [Some (wb [])])]) m1).
  assert (addNewMarker None wlen (-1) m1 = (true, m2)) as E2.
  { unfold addNewMarker. change (-1 <? -1) with false. change (-1 =? -1) with true. cbn match.
    rewrite (curr_vec_last m1 (rawMarkers_ m) k [] eq_refl eq_refl Hb).
    rewrite (set_curr_vec_last m1 (rawMarkers_ m) k [] _ eq_refl eq_refl Hb).
    unfold m2, wb. rewrite Nat.sub_0_r. done. }
  pose proof wlen_val as Hw.
  pose proof (write_back_wb m2 (rawMarkers_ m) k [] [Z.land k 255] eq_refl eq_refl Hb ltac:(simpl; lia)) as E3.
  unfold bseq. rewrite E1, E2, E3. eexists. split; [reflexivity|]. split; [exact Hf|].
  split; [reflexivity|]. split; reflexivity.
Qed.

(** The raw markers that hold the groups [gs], numbered from [i]. *)
Fixpoint wraw (i : nat) (gs : list (list Z)) : RAW_PL_MARKER_MAP :=
  match gs with
  | [] => []
  | g :: gs => (Z.of_nat i, [Some (wb (plt_payload i g))]) :: wraw (S i) gs
  end.
Fixpoint plt_segments (i : nat) (gs : list (list Z)) : list Z :=
  match gs with
  | [] => []
  | g :: gs => plt_segment (plt_payload i g) ++ plt_segments (S i) gs
  end.

Definition group_ok (g : list Z) : Prop := g <> [] /\ (S (length (mjoin (comma_code <$> g))) <= wlen)%nat.
Definition len_ok (len : Z) : Prop := 1 <= len < 2 ^ 32.

Lemma wraw_app i gs hs : wraw i (gs ++ hs) = wraw i gs ++ wraw (i + length gs) hs.
Proof.
  revert i; induction gs as [|g gs IH]; intros i; simpl; [by rewrite Nat.add_0_r|].
  rewrite IH. by replace (S i + length gs)%nat with (i + S (length gs))%nat by lia.
Qed.
Lemma plt_segments_app i gs hs : plt_segments i (gs ++ hs) = plt_segments i gs ++ plt_segments (i + length gs) hs.
Proof.
  revert i; induction gs as [|g gs IH]; intros i; simpl; [by rewrite Nat.add_0_r|].
  rewrite IH, app_assoc. by replace (S i + length gs)%nat with (i + S (length gs))%nat by lia.
Qed.
Lemma length_wraw i gs : length (wraw i gs) = length gs.
Proof. revert i; induction gs as [|g gs IH]; intros i; simpl; [done|]. by rewrite IH. Qed.
Lemma wraw_below i gs : below (Z.of_nat (i + length gs)) (wraw i gs).
Proof.
  revert i; induction gs as [|g gs IH]; intros i; simpl; [constructor|]. constructor; simpl; [lia|].
  replace (i + S (length gs))%nat with (S i + length gs)%nat by lia. apply IH.
Qed.

Record pushed (gs : list (list Z)) (m : PLMarker) : Prop := {
  pu_raw : rawMarkers_ m = wraw 0 gs;
  pu_final : isFinal_ m = true;
  pu_iter : gs <> [] -> currMarkerIter_ m = Some (Z.of_nat (length gs) - 1);
  pu_groups : Forall group_ok gs;
  pu_total : totalBytesWritten_ m = u32 (Z.of_nat (length (plt_segments 0 gs)));
}.

Lemma length_segment p : length (plt_segment p) = (4 + length p)%nat.
Proof. unfold plt_segment. rewrite !length_app. done. Qed.
Lemma length_payload i g : length (plt_payload i g) = S (length (mjoin (comma_code <$> g))).
Proof. done. Qed.
Lemma plt_payload_snoc i g len : plt_payload i (g ++ [len]) = plt_payload i g ++ comma_code len.
Proof. unfold plt_payload. rewrite fmap_app, join_app. csimpl. by rewrite app_nil_r. Qed.

Lemma u32_add_l a b : u32 (u32 a + b) = u32 (a + b).
Proof. unfold wrap. by rewrite Zplus_mod_idemp_l. Qed.

(** The last two steps of [pushPL]: the code goes to the back of the last
    marker, whose group so far is [g]. *)
Lemma push_tail_spec gs g len m :
  len_ok len ->
  rawMarkers_ m = wraw 0 gs ++ [(Z.of_nat (length gs), [Some (wb (plt_payload (length gs) g))])] ->
  isFinal_ m = true -> currMarkerIter_ m = Some (Z.of_nat (length gs)) -> Forall group_ok gs ->
  (length (plt_payload (length gs) g) + length (comma_code len) <= wlen)%nat ->
  totalBytesWritten_ m = u32 (Z.of_nat (length (plt_segments 0 gs) + 4 + length (plt_payload (length gs) g))) ->
  exists m', (write_back (take (Z.to_nat (pl_numBytes len)) (pl_temp len)) ;;;
     (fun m => (true, set_total (u32 (totalBytesWritten_ m + pl_numBytes len)) m))) m = (true, m') /\
    pushed (gs ++ [g ++ [len]]) m'.
Proof.
  intros Hl Hr Hf Hi Hg Hfit Ht. rewrite pl_temp_spec by done. unfold bseq.
  rewrite (write_back_wb m _ _ _ _ Hr Hi (wraw_below 0 gs) Hfit), <- plt_payload_snoc.
  eexists. split; [reflexivity|]. constructor; cbn [rawMarkers_ isFinal_ currMarkerIter_ totalBytesWritten_ set_total set_raw].
  - by rewrite wraw_app.
  - done.
  - intros _. rewrite Hi, length_app. simpl. f_equal. lia.
  - apply Forall_app. split; [done|]. apply Forall_singleton. split; [by destruct g|].
    rewrite <- (length_payload (length gs)), plt_payload_snoc, length_app. done.
  - rewrite Ht, u32_add_l, plt_segments_app, length_app. cbn [plt_segments]. rewrite app_nil_r, length_segment.
    rewrite plt_payload_snoc, length_app, !length_payload. rewrite <- (length_comma_code len Hl). f_equal. lia.
Qed.

Lemma pushPL_pushed gs m len :
  pushed gs m -> len_ok len -> Z.of_nat (length gs) < 2 ^ 32 ->
  exists m' gs', pushPL len m = (true, m') /\ pushed gs' m' /\ mjoin gs' = mjoin gs ++ [len] /\
    (length gs' <= S (length gs))%nat.
Proof.
  intros [Hr Hf Hi Hg Ht] Hl Hk. unfold pushPL. rewrite Hf. unfold bseq at 1.
  pose proof wlen_val as Hw. pose proof (length_comma_code len Hl) as Hc. pose proof (pl_numBytes_range len Hl).
  assert (num_markers m = Z.of_nat (length gs)) as Hn by (unfold num_markers; by rewrite Hr, length_wraw).
  destruct (needs_marker (pl_numBytes len) m) eqn:En.
  - destruct (new_write_marker_spec m Hf) as (m1 & E1 & Hf1 & Hr1 & Hi1 & Ht1).
    { rewrite Hn, Hr. apply (wraw_below 0). } { by rewrite Hn. }
    rewrite E1. rewrite Hn, Hr in *. rewrite Ht, u32_add_l in Ht1.
    destruct (push_tail_spec gs [] len m1) as (m' & E2 & Hp); [done|exact Hr1|done|done|done|simpl; lia| |].
    { rewrite Ht1. f_equal. simpl. lia. }
    exists m', (gs ++ [[len]]). split; [exact E2|]. split; [exact Hp|]. rewrite join_app, length_app. simpl. split; [done|lia].
  - destruct (decide (gs = [])) as [->|Hne]; [unfold needs_marker in En; by rewrite Hr in En|].
    destruct (exists_last Hne) as (gs0 & g & ->). specialize (Hi Hne).
    rewrite length_app in Hi. simpl in Hi. replace (Z.of_nat (length gs0 + 1) - 1) with (Z.of_nat (length gs0)) in Hi by lia.
    rewrite wraw_app in Hr. simpl in Hr. apply Forall_app in Hg as [Hg0 Hg]. apply list.Forall_cons in Hg as [Hg _].
    unfold bret.
    destruct (push_tail_spec gs0 g len m) as (m' & E2 & Hp); [done|exact Hr|done|exact Hi|done| | |].
    { unfold needs_marker, back_buf in En. rewrite (curr_vec_last m _ _ _ Hr Hi (wraw_below 0 gs0)) in En. cbn in En.
      apply orb_false_iff in En as [_ En]. apply Z.ltb_ge in En.
      rewrite num_elts_wb in En by (rewrite length_payload; apply Hg). rewrite length_payload. lia. }
    { rewrite Ht. f_equal. rewrite plt_segments_app, length_app. cbn [plt_segments]. rewrite app_nil_r, length_segment, !length_payload. lia. }
    exists m', (gs0 ++ [g ++ [len]]). split; [exact E2|]. split; [exact Hp|].
    rewrite !join_app, !length_app. simpl. rewrite !app_nil_r. split; [by rewrite app_assoc|lia].
Qed.

(** The lengths pushed one after the other. *)
Fixpoint push_lengths (lens : list Z) : bstep PLMarker :=
  match lens with [] => bret | len :: lens => pushPL len ;;; push_lengths lens end.

Lemma push_lengths_pushed lens : forall gs m,
  pushed gs m -> Forall len_ok lens -> Z.of_nat (length gs + length lens) <= 2 ^ 32 ->
  exists m' gs', push_lengths lens m = (true, m') /\ pushed gs' m' /\ mjoin gs' = mjoin gs ++ lens /\
    (length gs' <= length gs + length lens)%nat.
Proof.
  induction lens as [|len lens IH]; intros gs m Hp Hok Hb; cbn [push_lengths].
  { exists m, gs. rewrite app_nil_r. simpl. split; [done|]. split; [done|]. split; [done|lia]. }
  apply list.Forall_cons in Hok as [Hl Hok]. simpl in Hb.
  destruct (pushPL_pushed gs m len Hp Hl) as (m1 & gs1 & E1 & Hp1 & Hj1 & Hl1); [lia|].
  destruct (IH gs1 m1 Hp1 Hok) as (m2 & gs2 & E2 & Hp2 & Hj2 & Hl2); [lia|].
  exists m2, gs2. unfold bseq. rewrite E1. split; [exact E2|]. split; [exact Hp2|].
  rewrite Hj2, Hj1, <- app_assoc. simpl. split; [done|lia].
Qed.

Lemma pushInit_pushed m : pushed [] (pushInit true m).
Proof. by constructor. Qed.

(** ** Writing and reading the segments *)

(** What a stream promises: a successful write appends to its contents. *)
Class StreamLaws (K : Type) `{ByteStream K} := {
  contents : K -> list Z;
  stream_write_ok d k k' : stream_write d k = (true, k') -> contents k' = contents k ++ d;
}.

Lemma write_markers_wraw {K} `{StreamLaws K} gs : forall i k k',
  Forall group_ok gs -> write_markers (wraw i gs) k = (true, k') -> contents k' = contents k ++ plt_segments i gs.
Proof.
  induction gs as [|g gs IH]; intros i k k' Hg Hw; cbn [wraw write_markers plt_segments] in *.
  { unfold bret in Hw. injection Hw as <-. by rewrite app_nil_r. }
  apply list.Forall_cons in Hg as [[_ Hg] Hgs]. cbn [write_buffers] in Hw.
  apply bseq_true in Hw as (k4 & Hw & Hrec).
  apply bseq_true in Hw as (k1 & E1 & Hw). apply bseq_true in Hw as (k2 & E2 & Hw). apply bseq_true in Hw as (k3 & E3 & Hw).
  unfold bret in Hw. injection Hw as <-.
  rewrite (IH _ _ _ Hgs Hrec), (stream_write_ok _ _ _ E3), (stream_write_ok _ _ _ E2), (stream_write_ok _ _ _ E1).
  unfold wb, plt_segment. cbn [offset_ buf_]. rewrite Nat2Z.id, take_app_length. by rewrite <- !app_assoc.
Qed.

(** The markers the decompressor stores. *)
Definition rbuf (g : list Z) : Buffer8 := mkBuffer8 (mjoin (comma_code <$> g)) 0.
Fixpoint rraw (i : nat) (gs : list (list Z)) : RAW_PL_MARKER_MAP :=
  match gs with
  | [] => []
  | g :: gs => (Z.of_nat i, [Some (rbuf g)]) :: rraw (S i) gs
  end.
Lemma rraw_app i gs hs : rraw i (gs ++ hs) = rraw i gs ++ rraw (i + length gs) hs.
Proof.
  revert i; induction gs as [|g gs IH]; intros i; simpl; [by rewrite Nat.add_0_r|].
  rewrite IH. by replace (S i + length gs)%nat with (i + S (length gs))%nat by lia.
Qed.
Lemma length_rraw i gs : length (rraw i gs) = length gs.
Proof. revert i; induction gs as [|g gs IH]; intros i; simpl; [done|]. by rewrite IH. Qed.
Lemma rraw_below i gs : below (Z.of_nat (i + length gs)) (rraw i gs).
Proof.
  revert i; induction gs as [|g gs IH]; intros i; simpl; [constructor|]. constructor; simpl; [lia|].
  replace (i + S (length gs))%nat with (S i + length gs)%nat by lia. apply IH.
Qed.

(** The segments of one tile part, read in order. *)
Fixpoint read_segments (payloads : list (list Z)) (tilePartIndex : Z) : bstep PLMarker :=
  match payloads with [] => bret | p :: ps => readPLT p tilePartIndex ;;; read_segments ps tilePartIndex end.

Definition reads (gs : list (list Z)) (m : PLMarker) : Prop :=
  rawMarkers_ m = rraw 0 gs /\ (gs <> [] -> sequential_ m = true) /\ packetLen_ m = 0 /\ enabled_ m = true.

Lemma comma_code_nonempty g : g <> [] -> exists b l, mjoin (comma_code <$> g) = b :: l.
Proof.
  destruct g as [|len g]; [done|]. intros _. csimpl. unfold comma_code.
  destruct (commas _ _) as [|c cs]; simpl; eauto.
Qed.

Lemma findMarker_sequential gs m :
  reads gs m -> Z.of_nat (length gs) < 2 ^ 32 ->
  exists m', findMarker (Z.land (Z.of_nat (length gs)) 255) false m = (true, m') /\
    rawMarkers_ m' = rraw 0 gs ++ [(Z.of_nat (length gs), [])] /\ currMarkerIter_ m' = Some (Z.of_nat (length gs)) /\
    sequential_ m' = true /\ packetLen_ m' = 0 /\ enabled_ m' = true.
Proof.
  intros (Hr & Hs & Hp & He) Hk. unfold findMarker, num_markers. rewrite Hr, length_rraw.
  pose proof (rraw_below 0 gs) as Hb. rewrite Nat.add_0_l in Hb.
  destruct (Nat.eqb_spec (length gs) 0) as [E|E].
  - apply nil_length_inv in E. subst gs. simpl. rewrite Hr. simpl. eexists. split; [reflexivity|]. done.
  - rewrite Hs by (by intros ->). rewrite Z.eqb_refl. cbn [sequential_ set_sequential negb rawMarkers_ set_iter].
    rewrite Hr, length_rraw, wrap_small by lia. cbn [rawMarkers_ set_iter set_sequential]. rewrite map_find_below, map_set_end by done.
    eexists. split; [reflexivity|]. done.
Qed.

Lemma readPLT_reads gs g m tp :
  reads gs m -> group_ok g -> Z.of_nat (length gs) < 2 ^ 32 -> tp = -1 \/ tp = 0 ->
  exists m', readPLT (plt_payload (length gs) g) tp m = (true, m') /\ reads (gs ++ [g]) m'.
Proof.
  intros Hm [Hne _] Hk Htp. destruct (findMarker_sequential gs m Hm Hk) as (m1 & E1 & Hr1 & Hi1 & Hs1 & Hp1 & He1).
  pose proof (rraw_below 0 gs) as Hb. rewrite Nat.add_0_l in Hb.
  assert (addNewMarker (Some (mjoin (comma_code <$> g))) (length (mjoin (comma_code <$> g))) tp m1 =
            (true, set_raw (rraw 0 gs ++ [(Z.of_nat (length gs), [Some (rbuf g)])]) m1)) as E2.
  { unfold addNewMarker. rewrite (curr_vec_last m1 _ _ _ Hr1 Hi1 Hb). rewrite firstn_all.
    destruct Htp as [-> | ->]; cbn -[set_curr_vec rbuf mjoin fmap]; change (Z.to_nat 0) with 0%nat;
      cbn -[set_curr_vec rbuf mjoin fmap]; rewrite (set_curr_vec_last m1 _ _ _ _ Hr1 Hi1 Hb); reflexivity. }
  unfold readPLT, plt_payload. destruct (comma_code_nonempty g Hne) as (b & l & Ebl). rewrite Ebl in *. unfold bseq.
  rewrite E1, E2. eexists. split; [reflexivity|]. repeat split; try done.
  simpl. by rewrite rraw_app.
Qed.

Fixpoint payloads_of (i : nat) (gs : list (list Z)) : list (list Z) :=
  match gs with [] => [] | g :: gs => plt_payload i g :: payloads_of (S i) gs end.
Lemma segments_payloads i gs : plt_segments i gs = mjoin (plt_segment <$> payloads_of i gs).
Proof. revert i; induction gs as [|g gs IH]; intros i; [done|]. cbn [payloads_of plt_segments]. rewrite fmap_cons, IH. done. Qed.

Lemma read_segments_reads tp hs : forall gs m,
  reads gs m -> Forall group_ok hs -> Z.of_nat (length gs + length hs) <= 2 ^ 32 -> tp = -1 \/ tp = 0 ->
  exists m', read_segments (payloads_of (length gs) hs) tp m = (true, m') /\ reads (gs ++ hs) m'.
Proof.
  induction hs as [|h hs IH]; intros gs m Hm Hok Hk Htp; cbn [payloads_of read_segments].
  { exists m. rewrite app_nil_r. done. }
  apply list.Forall_cons in Hok as [Hh Hok]. simpl in Hk.
  destruct (readPLT_reads gs h m tp Hm Hh) as (m1 & E1 & Hm1); [lia|done|].
  destruct (IH (gs ++ [h]) m1 Hm1 Hok) as (m2 & E2 & Hm2); [rewrite length_app; simpl; lia|done|].
  rewrite length_app in E2. simpl in E2. rewrite Nat.add_1_r in E2. rewrite <- app_assoc in Hm2.
  exists m2. unfold bseq. rewrite E1. done.
Qed.

(** ** Popping lengths *)

(** The lengths still to be popped: the rest of the current buffer, then the
    buffers of the markers that follow. *)
Definition to_pop (rest : list Z) (m : PLMarker) : Prop :=
  packetLen_ m = 0 /\ Forall len_ok rest /\
  ((rest = [] /\ currMarkerIter_ m = None) \/
   exists pre i b g gs,
     rest = g ++ mjoin gs /\ g <> [] /\ Forall group_ok gs /\
     rawMarkers_ m = pre ++ (Z.of_nat i, [Some b]) :: rraw (S i) gs /\ below (Z.of_nat i) pre /\
     currMarkerIter_ m = Some (Z.of_nat i) /\ currMarkerBufIndex_ m = 0%nat /\ currMarkerBuf_ m = Some (Z.of_nat i, 0%nat) /\
     0 <= offset_ b <= num_elts b /\ drop (Z.to_nat (offset_ b)) (buf_ b) = mjoin (comma_code <$> g)).

Lemma rewind_map_rraw i gs : rewind_map (rraw i gs) = (true, rraw i gs).
Proof. revert i; induction gs as [|g gs IH]; intros i; [done|]. cbn. by rewrite IH. Qed.

Lemma rewind_to_pop gs m : reads gs m -> gs <> [] -> Forall group_ok gs -> Forall len_ok (mjoin gs) ->
  to_pop (mjoin gs) (pl_rewind m) /\ enabled_ (pl_rewind m) = true.
Proof.
  intros (Hr & _ & Hp & He) Hne Hg Hok. destruct gs as [|g gs]; [done|]. apply list.Forall_cons in Hg as [Hg Hgs].
  assert (pl_rewind m = set_buf (Some (0, 0%nat)) (set_bufIndex 0 (set_raw (rraw 0 (g :: gs)) (set_iter (Some 0) m)))) as ->.
  { unfold pl_rewind. cbn [rawMarkers_ set_iter]. rewrite Hr, rewind_map_rraw. reflexivity. }
  split; [|done]. split; [done|]. split; [done|]. right.
  exists [], 0%nat, (rbuf g), g, gs. destruct Hg as [Hg _].
  repeat split; try done; simpl; unfold num_elts; try lia.
Qed.

Lemma advance_buf_next m pre i v gs :
  rawMarkers_ m = pre ++ (Z.of_nat i, [v]) :: rraw (S i) gs -> below (Z.of_nat i) pre ->
  currMarkerIter_ m = Some (Z.of_nat i) -> currMarkerBufIndex_ m = 0%nat ->
  exists m', advance_buf m = (true, m') /\ rawMarkers_ m' = rawMarkers_ m /\ packetLen_ m' = packetLen_ m /\
    match gs with
    | [] => currMarkerIter_ m' = None
    | _ :: _ => currMarkerIter_ m' = Some (Z.of_nat (S i)) /\ currMarkerBufIndex_ m' = 0%nat /\
                currMarkerBuf_ m' = Some (Z.of_nat (S i), 0%nat)
    end.
Proof.
  intros Hr Hb Hi Hx. unfold advance_buf. cbn [currMarkerBufIndex_ set_bufIndex]. rewrite Hx.
  assert (forall j, curr_vec (set_bufIndex j m) = [v]) as Hv.
  { intros j. unfold curr_vec. cbn [currMarkerIter_ rawMarkers_ set_bufIndex]. rewrite Hi, Hr, map_find_mid by done. done. }
  rewrite Hv. change (1 <? length [v])%nat with false. cbn [currMarkerIter_ rawMarkers_ set_bufIndex]. rewrite Hi.
  rewrite Hr, map_next_mid by done. destruct gs as [|g gs]; cbn [rraw map_next].
  - cbn [currMarkerIter_ set_iter]. eexists. split; [reflexivity|]. done.
  - destruct (Z.ltb_spec (Z.of_nat i) (Z.of_nat (S i))); [|lia]. cbn [currMarkerIter_ set_iter].
    set (m1 := set_iter _ _).
    assert (curr_vec m1 = [Some (rbuf g)] /\ curr_vec (set_bufIndex 0 m1) = [Some (rbuf g)]) as [Hv1 Hv2].
    { unfold curr_vec, m1. cbn [currMarkerIter_ rawMarkers_ set_bufIndex set_iter]. rewrite Hr. cbn [rraw].
      assert (below (Z.of_nat (S i)) (pre ++ [(Z.of_nat i, [v])])) as Hb2.
      { by apply below_snoc. }
      pose proof (map_find_mid (Z.of_nat (S i)) _ [Some (rbuf g)] (rraw (S (S i)) gs) Hb2) as E.
      rewrite <- app_assoc in E. cbn [app rraw] in *. split; exact (f_equal (default []) E). }
    rewrite Hv1. cbn [length Nat.eqb]. unfold buf_ptr. rewrite Hv2. cbn [lookup list_lookup].
    eexists. split; [reflexivity|]. cbn [rawMarkers_ set_buf set_bufIndex set_iter m1 packetLen_]. done.
Qed.

Lemma mjoin_codes_nil g : mjoin (comma_code <$> g) = [] -> g = [].
Proof. intros H. destruct (decide (g = [])) as [|Hn]; [done|]. destruct (comma_code_nonempty g Hn) as (b & l & E). congruence. Qed.

Lemma pop_to_pop len rest m : to_pop (len :: rest) m ->
  exists m', pop m = (len, m') /\ to_pop rest m'.
Proof.
  intros (Hp & Hok & [[? _]|(pre & i & b & g & gs & Hrest & Hg & Hgs & Hr & Hb & Hi & Hx & Hbuf & Ho & Hd)]); [done|].
  destruct g as [|len' g]; [done|]. injection Hrest as <- Hrest.
  apply list.Forall_cons in Hok as [Hl Hok]. csimpl in Hd.
  unfold pop. rewrite Hi, Hbuf. unfold deref, store. cbn [fst snd]. rewrite Hr, map_find_mid by done. cbn [mbind option_bind mjoin option_join lookup list_lookup].
  rewrite Hd, Hp, pop_loop_comma_code by done. cbn [set_offset offset_]. rewrite Z.add_0_l.
  set (n := pl_numBytes len) in *. pose proof (length_comma_code len Hl) as Hn. fold n in Hn.
  pose proof (pl_numBytes_range len Hl) as Hn5. fold n in Hn5.
  assert (Z.of_nat (length (comma_code len ++ mjoin (comma_code <$> g))) = num_elts b - offset_ b) as Hlen.
  { rewrite <- Hd, length_drop. unfold num_elts in *. lia. }
  rewrite length_app in Hlen. change (num_elts (set_offset (offset_ b + n) b)) with (num_elts b).
  set (b' := set_offset (offset_ b + n) b).
  rewrite map_set_mid by done. cbn [insert list_insert].
  set (m1 := set_packetLen 0 _).
  assert (drop (Z.to_nat (offset_ b')) (buf_ b') = mjoin (comma_code <$> g)) as Hd'.
  { unfold b'. cbn [offset_ buf_ set_offset]. replace (Z.to_nat (offset_ b + n)) with (Z.to_nat (offset_ b) + length (comma_code len))%nat by lia.
    by rewrite <- drop_drop, Hd, drop_app_length. }
  destruct (Z.eqb_spec (offset_ b + n) (num_elts b)) as [E|E].
  - assert (g = []) as -> by (apply mjoin_codes_nil, nil_length_inv; lia).
    destruct (advance_buf_next m1 pre i (Some b') gs) as (m' & E1 & Hr' & Hp' & Hnext); [reflexivity|done|exact Hi|exact Hx|].
    rewrite E1. exists m'. split; [done|]. split; [done|]. split; [done|].
    rewrite Hrest. destruct gs as [|h gs]; [by left|]. destruct Hnext as (Hi' & Hx' & Hb').
    apply list.Forall_cons in Hgs as [Hh Hgs]. right.
    exists (pre ++ [(Z.of_nat i, [Some b'])]), (S i), (rbuf h), h, gs.
    split; [done|]. split; [apply Hh|]. split; [done|]. split.
    { rewrite Hr'. cbn [rawMarkers_ m1 set_packetLen set_raw]. rewrite <- app_assoc. done. }
    split. { by apply below_snoc. }
    split; [done|]. split; [done|]. split; [done|]. simpl. unfold num_elts. split; [lia|done].
  - exists m1. split; [done|]. split; [done|]. split; [done|]. right.
    exists pre, i, b', g, gs. split; [done|].
    split. { intros ->. simpl in Hlen. lia. }
    split; [done|]. split; [reflexivity|]. split; [done|]. split; [exact Hi|]. split; [exact Hx|]. split; [exact Hbuf|].
    split; [|done]. unfold b'. change (num_elts (set_offset (offset_ b + n) b)) with (num_elts b). simpl. lia.
Qed.

Fixpoint pops (n : nat) (m : PLMarker) : list Z :=
  match n with O => [] | S n => let (len, m) := pop m in len :: pops n m end.

Lemma pops_to_pop rest : forall m, to_pop rest m -> pops (S (length rest)) m = rest ++ [0].
Proof.
  induction rest as [|len rest IH]; intros m Hm.
  - destruct Hm as (_ & _ & [[_ Hi]|(pre & i & b & g & gs & Hrest & Hg & _)]); [by simpl; unfold pop; rewrite Hi|].
    symmetry in Hrest. apply app_nil in Hrest as [-> _]. done.
  - destruct (pop_to_pop len rest m Hm) as (m' & E & Hm'). cbn [length pops]. rewrite E.
    simpl. f_equal. apply IH, Hm'.
Qed.

(** The payloads of the segments [PLMarker::write] writes. *)
Definition written_payloads (m : PLMarker) : list (list Z) :=
  mjoin ((fun e : Z * RAW_PL_MARKER => omap (fun b => (fun b => take (Z.to_nat (offset_ b)) (buf_ b)) <$> b) e.2) <$> rawMarkers_ m).

Lemma payloads_wraw i gs :
  mjoin ((fun e : Z * RAW_PL_MARKER => omap (fun b => (fun b => take (Z.to_nat (offset_ b)) (buf_ b)) <$> b) e.2) <$> wraw i gs)
  = payloads_of i gs.
Proof.
  revert i; induction gs as [|g gs IH]; intros i; [done|]. cbn [wraw payloads_of]. rewrite fmap_cons.
  change (?f :: ?l) with ([f] ++ l) at 1. rewrite join_app, IH. unfold wb.
  cbn -[Z.to_nat plt_payload take]. rewrite Nat2Z.id, take_app_length. done.
Qed.

Lemma write_markers_total {K} `{ByteStream K} gs : forall i k,
  (forall d k, (stream_write d k).1 = true) -> (write_markers (wraw i gs) k).1 = true.
Proof.
  induction gs as [|g gs IH]; intros i k Hs; [done|]. cbn [wraw write_markers write_buffers]. unfold bseq, bret.
  pose proof (Hs (be16 PLT) k) as H1. destruct (stream_write (be16 PLT) k) as [[] k1]; [|done].
  match goal with |- context [stream_write ?d k1] => pose proof (Hs d k1) as H2; destruct (stream_write d k1) as [[] k2]; [|done] end.
  match goal with |- context [stream_write ?d k2] => pose proof (Hs d k2) as H3; destruct (stream_write d k2) as [[] k3]; [|done] end.
  apply IH, Hs.
Qed.

(** The whole way of a list of lengths: pushed, written as segments, read back. *)
Lemma push_read lens tp :
  lens <> [] -> Forall len_ok lens -> Z.of_nat (length lens) <= 2 ^ 32 -> tp = -1 \/ tp = 0 ->
  exists m gs r, push_lengths lens (pushInit true PLMarker_new) = (true, m) /\ pushed gs m /\
    written_payloads m = payloads_of 0 gs /\
    read_segments (written_payloads m) tp PLMarker_new = (true, r) /\ to_pop lens (pl_rewind r).
Proof.
  intros Hne Hok Hk Htp.
  destruct (push_lengths_pushed lens [] _ (pushInit_pushed PLMarker_new) Hok Hk) as (m & gs & E1 & Hm & Hj & Hl).
  simpl in Hj. assert (written_payloads m = payloads_of 0 gs) as Hw.
  { unfold written_payloads. rewrite (pu_raw _ _ Hm). apply payloads_wraw. }
  destruct (read_segments_reads tp gs [] PLMarker_new) as (r & E2 & Hr); [by repeat split|apply Hm|simpl in *; lia|done|].
  exists m, gs, r. split; [done|]. split; [done|]. split; [done|]. rewrite Hw. split; [done|]. rewrite <- Hj.
  apply rewind_to_pop; [done| |apply Hm|by rewrite Hj]. intros ->. simpl in Hj. by subst.
Qed.

(** C12: the round trip of the packet lengths: all the lengths a tile pushes are
    accepted, and when the stream takes them [write] leaves in it PLT marker
    segments that fit a 16-bit length, whose total size is the
    [getTotalBytesWritten] the tile length accounts for; reading those segments
    back and rewinding, [pop] returns the same lengths in the same order, over
    any number of markers, and then [0].  [write] fails only when the stream
    does. *)
Theorem plt_roundtrip {K} `{StreamLaws K} (lens : list Z) (tp : Z) (k : K) :
  lens <> [] -> Forall len_ok lens -> Z.of_nat (length lens) <= 2 ^ 32 -> tp = -1 \/ tp = 0 ->
  exists m r,
    push_lengths lens (pushInit true PLMarker_new) = (true, m) /\
    ((forall d k, (stream_write d k).1 = true) -> (pl_write m k).1 = true) /\
    (forall k', pl_write m k = (true, k') -> contents k' = contents k ++ mjoin (plt_segment <$> written_payloads m)) /\
    Forall (fun p => Z.of_nat (length p) + 2 < 2 ^ 16) (written_payloads m) /\
    getTotalBytesWritten m = u32 (Z.of_nat (length (mjoin (plt_segment <$> written_payloads m)))) /\
    read_segments (written_payloads m) tp PLMarker_new = (true, r) /\
    pops (S (length lens)) (pl_rewind r) = lens ++ [0].
Proof.
  intros Hne Hok Hk Htp. destruct (push_read lens tp Hne Hok Hk Htp) as (m & gs & r & E1 & Hm & Hw & E2 & Hpop).
  exists m, r. split; [done|]. unfold pl_write, getTotalBytesWritten. rewrite (pu_raw _ _ Hm), (pu_total _ _ Hm).
  split; [apply write_markers_total|].
  rewrite Hw in *. rewrite <- segments_payloads.
  split; [intros k'; apply write_markers_wraw, Hm|].
  split; [|split; [done|]; split; [done|by apply pops_to_pop]].
  pose proof (pu_groups _ _ Hm) as Hg. clear -Hg. pose proof wlen_val as Hwl. generalize 0%nat.
  induction Hg as [|g gs [_ Hg] _ IH]; intros i; cbn [payloads_of]; constructor; [|apply IH].
  rewrite length_payload. lia.
Qed.

(** ** Skipping packets *)

Definition sum_list_Z (l : list Z) : Z := foldr Z.add 0 l.

Lemma pop_many_to_pop n : forall rest t m,
  to_pop rest m -> (n <= length rest)%nat -> 0 <= t -> t + sum_list_Z (take n rest) < 2 ^ 64 ->
  exists m', pop_many n t m = (t + sum_list_Z (take n rest), m') /\ to_pop (drop n rest) m'.
Proof.
  induction n as [|n IH]; intros rest t m Hm Hn Ht Hb; cbn [pop_many].
  { exists m. rewrite Z.add_0_r. done. }
  destruct rest as [|len rest]; [simpl in Hn; lia|]. simpl in Hn.
  assert (0 <= sum_list_Z (take n rest) /\ 1 <= len) as [H0 H1].
  { destruct Hm as (_ & Hok & _). apply list.Forall_cons in Hok as [Hl Hok]. split; [|unfold len_ok in Hl; lia].
    clear -Hok. revert n. induction Hok as [|l ls Hl _ IH]; intros [|n]; simpl; try lia. specialize (IH n).
    unfold len_ok, sum_list_Z in *. lia. }
  destruct (pop_to_pop len rest m Hm) as (m1 & E1 & Hm1). rewrite E1. cbn [take drop] in *.
  unfold sum_list_Z in *. cbn [foldr] in *. rewrite wrap_small by lia.
  destruct (IH rest (t + len) m1 Hm1) as (m2 & E2 & Hm2); [lia|lia|lia|].
  exists m2. rewrite E2. split; [f_equal; lia|done].
Qed.

Lemma sum_lengths (l : list (list Z)) : sum_list_Z ((fun p => Z.of_nat (length p)) <$> l) = Z.of_nat (length (mjoin l)).
Proof.
  induction l as [|p l IH]; [done|]. rewrite fmap_cons. unfold sum_list_Z in *. cbn [foldr]. rewrite IH.
  change (mjoin (p :: l)) with (p ++ mjoin l). rewrite length_app. lia.
Qed.

(** C26: [PacketIter::skipPackets] keeps the compressed data aligned with the
    packets: for packets whose bytes arrive in chunks cut anywhere and in any
    order, and whose lengths come from the PLT segments written for them, a skip
    of [n] packets succeeds, counts [n] processed packets, and leaves the data at
    the first byte of packet [n], which the next read returns whole. *)
Theorem skip_packets_aligned (packets parts : list (list Z)) (arrivals : list (nat * list Z)) (tp : Z) (n : nat) :
  packets <> [] -> Forall (fun p => len_ok (Z.of_nat (length p))) packets -> Z.of_nat (length packets) <= 2 ^ 32 ->
  mjoin parts = mjoin packets -> arrivals ≡ₚ zip (seq 0 (length parts)) parts ->
  Z.of_nat (length (mjoin packets)) < 2 ^ 63 -> (n <= length packets)%nat -> tp = -1 \/ tp = 0 ->
  exists m r s k,
    push_lengths ((fun p => Z.of_nat (length p)) <$> packets) (pushInit true PLMarker_new) = (true, m) /\
    read_segments (written_payloads m) tp PLMarker_new = (true, r) /\
    push_arrivals arrivals SparseBuffer_new = Ok s /\
    skipPackets (Z.of_nat n) (mkSkip (pl_rewind r) s 0) = Ok (true, k) /\
    sk_processed k = Z.of_nat n /\
    forall p, packets !! n = Some p -> exists s', sb_read (Z.of_nat (length p)) (sk_packets k) = Ok (p, s').
Proof.
  intros Hne Hok Hk Hparts Harr Hb Hn Htp.
  set (lens := (fun p => Z.of_nat (length p)) <$> packets).
  destruct (push_read lens tp) as (m & gs & r & E1 & _ & _ & E2 & Hpop).
  { intros E. by apply fmap_nil_inv in E. } { by apply Forall_fmap. } { unfold lens. by rewrite length_fmap. } { done. }
  assert (mjoin packets <> []) as Hmj.
  { destruct packets as [|p packets]; [done|]. apply list.Forall_cons in Hok as [Hp _]. unfold len_ok in Hp.
    intros E. change (mjoin (p :: packets)) with (p ++ mjoin packets) in E. apply app_nil in E as [-> _]. simpl in Hp. lia. }
  destruct (arrivals_cursor parts arrivals) as (s & E3 & Hcur); [|done|by rewrite Hparts|].
  { intros ->. by rewrite <- Hparts in Hmj. }
  rewrite Hparts in Hcur.
  assert (mjoin packets = mjoin (take n packets) ++ mjoin (drop n packets)) as Hsplit by (by rewrite <- join_app, take_drop).
  assert (sum_list_Z (take n lens) = Z.of_nat (length (mjoin (take n packets)))) as Hsum.
  { unfold lens. rewrite <- fmap_take. apply sum_lengths. }
  rewrite Hsplit, length_app in Hb.
  destruct (pop_many_to_pop n lens 0 (pl_rewind r) Hpop) as (m' & E4 & _); [unfold lens; by rewrite length_fmap|lia|lia|].
  rewrite Z.add_0_l, Hsum in E4.
  assert (0 <= Z.of_nat (length (mjoin (take n packets))) < 2 ^ 63) as Hlt by lia.
  pose proof (sb_skip_cursor _ s [] (mjoin packets) Hcur Hlt) as Hskip.
  rewrite Hsplit, length_app, Nat2Z.id, drop_app_length in Hskip.
  destruct (Z.leb_spec (Z.of_nat (length (mjoin (take n packets)))) (Z.of_nat (length (mjoin (take n packets)) + length (mjoin (drop n packets))))); [|lia].
  destruct Hskip as (s' & E5 & Hcur').
  exists m, r, s. eexists. split; [exact E1|]. split; [exact E2|]. split; [exact E3|].
  split. { unfold skipPackets. rewrite Nat2Z.id. cbn [sk_markers sk_packets sk_processed]. rewrite E4, E5. cbn [rbind].
           rewrite Z.eqb_refl. cbn [negb]. reflexivity. }
  split. { cbn [sk_processed]. apply wrap_small. lia. }
  intros p Hp. cbn [sk_packets]. rewrite (drop_S _ _ _ Hp) in Hcur'.
  destruct (sb_read_cursor (Z.of_nat (length p)) s' _ _ Hcur') as (s2 & E6 & _); [lia|].
  exists s2. rewrite E6. change (mjoin (p :: drop (S n) packets)) with (p ++ mjoin (drop (S n) packets)).
  by rewrite Nat2Z.id, take_app_length.
Qed.

(** ** Concrete runs *)

(** A stream that accepts every write. *)
#[export] Instance list_stream : ByteStream (list Z) := fun d k => (true, k ++ d).
#[export] Program Instance list_stream_laws : StreamLaws (list Z) := { contents := fun k => k }.
Next Obligation. intros d k k' E. by injection E as <-. Qed.

Lemma plt_roundtrip_witness :
  exists m r,
    push_lengths [1; 300; 4294967295] (pushInit true PLMarker_new) = (true, m) /\
    (pl_write m ([] : list Z)).1 = true /\
    getTotalBytesWritten m = u32 (Z.of_nat (length (mjoin (plt_segment <$> written_payloads m)))) /\
    read_segments (written_payloads m) 0 PLMarker_new = (true, r) /\
    pops 4 (pl_rewind r) = [1; 300; 4294967295; 0].
Proof.
  destruct (plt_roundtrip (K := list Z) [1; 300; 4294967295] 0 []) as (m & r & H1 & H2 & _ & _ & H3 & H4 & H5).
  - done.
  - repeat constructor; unfold len_ok; lia.
  - simpl. lia.
  - by right.
  - exists m, r. split; [exact H1|]. split; [by apply H2|]. split; [exact H3|]. split; [exact H4|exact H5].
Defined.

Lemma skip_packets_aligned_witness :
  exists m r s k,
    push_lengths [2; 1; 3] (pushInit true PLMarker_new) = (true, m) /\
    read_segments (written_payloads m) (-1) PLMarker_new = (true, r) /\
    push_arrivals [(1%nat, [3; 4; 5]); (0%nat, [1; 2; 9])] SparseBuffer_new = Ok s /\
    skipPackets 2 (mkSkip (pl_rewind r) s 0) = Ok (true, k) /\ sk_processed k = 2 /\
    forall p, [[1; 2]; [9]; [3; 4; 5]] !! 2%nat = Some p -> exists s', sb_read (Z.of_nat (length p)) (sk_packets k) = Ok (p, s').
Proof.
  apply (skip_packets_aligned [[1; 2]; [9]; [3; 4; 5]] [[1; 2; 9]; [3; 4; 5]] [(1%nat, [3; 4; 5]); (0%nat, [1; 2; 9])] (-1) 2).
  - done.
  - repeat constructor; simpl; lia.
  - simpl. lia.
  - done.
  - apply Permutation_swap.
  - simpl. lia.
  - simpl. lia.
  - by left.
Defined.

(** ** Behaviour outside the round trip *)

(** A tile part with two PLT segments, followed by another: the markers are
    popped by index first and tile part second, so the lengths of the two tile
    parts are interleaved (5, 6 and 7, 8 come back as 5, 7, 6, 8). *)
Lemma plt_parts_interleaved :
  let m := snd ((readPLT [0; 5] 0 ;;; readPLT [1; 6] 0 ;;; readPLT [0; 7] 1 ;;; readPLT [1; 8] 1) PLMarker_new) in
  pops 4 (pl_rewind m) = [5; 7; 6; 8].
Proof. reflexivity. Qed.

(** A PLM segment (Zplm 0, one length 5 for the first tile part, one length 7 for
    the second, then a byte 99 of whatever follows the segment): one byte too many
    is copied for each tile part, and the lengths come back as 5, 1, 7, 99.  Without a byte
    after the segment the copy leaves the memory. *)
Lemma plm_copies_extra_byte :
  ((fun m => pops 4 (pl_rewind m)) <$> readPLM [0; 1; 5; 1; 7; 99] 5 PLMarker_new) = Some [5; 1; 7; 99] /\
  readPLM [0; 1; 5; 1; 7] 5 PLMarker_new = None.
Proof. split; reflexivity. Qed.

(** In a simulated pass the buffers have no room, so every length opens a new
    marker and its header is counted again: 12 bytes for two lengths of one byte
    instead of 7. *)
Lemma simulated_pass_overcounts :
  getTotalBytesWritten (snd ((push_lengths [1; 2]) (pushInit false PLMarker_new))) = 12 /\
  getTotalBytesWritten (snd ((push_lengths [1; 2]) (pushInit true PLMarker_new))) = 7.
Proof. split; vm_compute; reflexivity. Qed.
