(* ===== verification/Codeblock.v ===== *)
(** Code blocks as the packet coder sees them: the passes and layers of
    [CodeblockCompressImpl] and the segments of [CodeblockDecompressImpl]
    (t1/codeblock), and the rule [BlockCoder::enc_is_term_pass] by which the
    block coder terminates its passes (t1/part1/block_coder/BlockCoderEnc.cpp).

    The theorem relates the two sides: the passes the block coder terminates are
    exactly the last passes of the segments the packet header parser opens. *)
From S2P Require Import Prelude BitIO Geometry.

(** ** Code block styles *)

Definition GRK_CBLKSTY_LAZY : Z := 0x01.
Definition GRK_CBLKSTY_TERMALL : Z := 0x04.
Definition GRK_CBLKSTY_HT_ONLY : Z := 0x40.
Definition GRK_CBLKSTY_HT_MIXED : Z := 0xC0.
Definition has (sty flag : Z) : bool := negb (Z.land sty flag =? 0).

Definition maxPrecisionJ2K : Z := 38.
Definition maxPassesPerSegmentJ2K : Z := (maxPrecisionJ2K - 1) * 3 + 1.
Definition maxBitPlanesJ2K : Z := 30.
Definition maxSegmentLengthBits : Z := 16.
Definition htOpenSegmentPasses : Z := UINT8_MAX.

(** ** Compression *)

Record CodePass := mkPass { pass_len : Z; pass_term : bool }.
Record Layer := mkLayer { lay_totalPasses : Z; lay_len : Z; lay_data : list Z }.

(** [signalledPassesByLayer_[0]] counts the passes of the packets written. *)
Record CodeblockCompress := mkCC {
  cc_numbps : Z;
  cc_numlenbits : Z;
  cc_passesInLayer0 : Z;
  cc_passes : list CodePass;
  cc_layers : list Layer;
}.
Definition cc_getLayer (layno : Z) (c : CodeblockCompress) : Layer := nthZ (mkLayer 0 0 []) (cc_layers c) layno.
Definition cc_setNumPassesInLayer0 (n : Z) (c : CodeblockCompress) : CodeblockCompress :=
  mkCC (cc_numbps c) (cc_numlenbits c) n (cc_passes c) (cc_layers c).
Definition cc_incNumPassesInLayer0 (d : Z) (c : CodeblockCompress) : CodeblockCompress :=
  cc_setNumPassesInLayer0 (u8 (cc_passesInLayer0 c + d)) c.
Definition cc_setNumLenBits (n : Z) (c : CodeblockCompress) : CodeblockCompress :=
  mkCC (cc_numbps c) (u8 n) (cc_passesInLayer0 c) (cc_passes c) (cc_layers c).

Definition enc_is_term_pass (numbps cblksty bpno passtype : Z) : bool :=
  if (passtype =? 2) && (bpno =? 0) then true
  else if has cblksty GRK_CBLKSTY_TERMALL then true
  else if has cblksty GRK_CBLKSTY_LAZY then
    if (bpno =? numbps - 4) && (passtype =? 2) then true
    else if (bpno <? numbps - 4) && (0 <? passtype) then true
    else false
  else false.

(** The pass types and bit planes of the block coder's loop: it starts with a
    cleanup pass on the top bit plane, and goes down a plane after each cleanup
    pass. *)
Definition next_pass (s : Z * Z) : Z * Z :=
  let (passtype, bpno) := s in if passtype + 1 =? 3 then (0, bpno - 1) else (passtype + 1, bpno).
Fixpoint block_passes (n : nat) (s : Z * Z) : list (Z * Z) :=
  match n with O => [] | S n => s :: block_passes n (next_pass s) end.
(** The termination flags of the first [n] passes. *)
Definition term_flags (numbps cblksty : Z) (n : nat) : list bool :=
  (fun s => enc_is_term_pass numbps cblksty s.2 s.1) <$> block_passes n (2, numbps - 1).

(** ** Decompression *)

Record Segment := mkSegment {
  totalPasses_ : Z;
  headerTotalPasses_ : Z;
  maxPasses_ : Z;
  calculatedPassesInLayer_ : list Z;
  totalBytes_ : Z;
  signalledBytesInLayer_ : list Z;
  data_chunks_ : list (list Z);
}.
Definition Segment_new (numLayers : nat) : Segment :=
  mkSegment 0 0 0 (replicate numLayers 0) 0 (replicate numLayers 0) [].

Inductive HTState := HT_none | HT_placeholders | HT_coded | HT_part1.

Record CodeblockDecompress := mkCD {
  cd_numLayers : nat;
  cd_numbps : Z;
  cd_numlenbits : Z;
  cd_signalledPassesByLayer : list Z;
  segs_ : list Segment;
  htState_ : HTState;
  numDataParsedSegments_ : nat;
  bitPlanesToDecompress_ : Z;
  dataParsedLayers_ : Z;
}.
Definition CodeblockDecompress_new (numLayers : nat) : CodeblockDecompress :=
  mkCD numLayers 0 0 (replicate numLayers 0) [] HT_none 0 0 0.

Definition set_segs l c := mkCD (cd_numLayers c) (cd_numbps c) (cd_numlenbits c) (cd_signalledPassesByLayer c) l (htState_ c)
  (numDataParsedSegments_ c) (bitPlanesToDecompress_ c) (dataParsedLayers_ c).
Definition set_htState h c := mkCD (cd_numLayers c) (cd_numbps c) (cd_numlenbits c) (cd_signalledPassesByLayer c) (segs_ c) h
  (numDataParsedSegments_ c) (bitPlanesToDecompress_ c) (dataParsedLayers_ c).
Definition set_signalled l c := mkCD (cd_numLayers c) (cd_numbps c) (cd_numlenbits c) l (segs_ c) (htState_ c)
  (numDataParsedSegments_ c) (bitPlanesToDecompress_ c) (dataParsedLayers_ c).
Definition set_numDataParsed n c := mkCD (cd_numLayers c) (cd_numbps c) (cd_numlenbits c) (cd_signalledPassesByLayer c) (segs_ c) (htState_ c)
  n (bitPlanesToDecompress_ c) (dataParsedLayers_ c).
Definition set_dataParsedLayers n c := mkCD (cd_numLayers c) (cd_numbps c) (cd_numlenbits c) (cd_signalledPassesByLayer c) (segs_ c) (htState_ c)
  (numDataParsedSegments_ c) (bitPlanesToDecompress_ c) n.
Definition cd_setNumLenBits n c := mkCD (cd_numLayers c) (cd_numbps c) (u8 n) (cd_signalledPassesByLayer c) (segs_ c) (htState_ c)
  (numDataParsedSegments_ c) (bitPlanesToDecompress_ c) (dataParsedLayers_ c).
Definition cd_setNumBps n c := mkCD (cd_numLayers c) n (cd_numlenbits c) (cd_signalledPassesByLayer c) (segs_ c) (htState_ c)
  (numDataParsedSegments_ c) n (dataParsedLayers_ c).

Definition partOneMaxPasses (cblk_sty previousMaxPasses : Z) : Z :=
  if has cblk_sty GRK_CBLKSTY_TERMALL then 1
  else if has cblk_sty GRK_CBLKSTY_LAZY then
    if previousMaxPasses =? 0 then 10
    else if (previousMaxPasses =? 1) || (previousMaxPasses =? 10) then 2 else 1
  else maxPassesPerSegmentJ2K.

(** ** Reading packet headers *)

Inductive pkt_exception :=
| CorruptPacketHeaderException
| CorruptPacketDataException
| PktBio (e : bio_exception)
| PktOverrun.       (* SparseBufferOverrunException *)

(** A step of the parser: [None] when a loop of the model runs out of fuel. *)
Definition hres (A : Type) : Type := option (result pkt_exception A).
Definition hok {A} (a : A) : hres A := Some (Ok a).
Definition hthrow {A} (e : pkt_exception) : hres A := Some (Err e).
Definition hbind {E A B} (m : option (result E A)) (k : A -> option (result E B)) : option (result E B) :=
  match m with Some (Ok a) => k a | Some (Err e) => Some (Err e) | None => None end.
Definition hbio {A} (m : result bio_exception A) : hres A :=
  Some (match m with Ok a => Ok a | Err e => Err (PktBio e) end).
Definition hbio_opt {A} (m : option (result bio_exception A)) : hres A :=
  match m with Some r => hbio r | None => None end.

Notation "'let!' x ':=' m 'in' k" := (hbind m (fun x => k))
  (at level 10, x pattern, m at level 100, k at level 200) : grk_scope.

Section Parse.
Context {S : Type} `{Stream : IStreamWriter S}.

Definition readLength (bits : Z) (bio : BitIO S) : hres (Z * BitIO S) :=
  if maxSegmentLengthBits <? bits then hthrow CorruptPacketHeaderException
  else
    let! (bytes, bio) := hbio (read 32 bits bio) in
    if UINT16_MAX <? bytes then hthrow CorruptPacketHeaderException else hok (bytes, bio).

(** [segs_.back()] and its update. *)
Definition back_seg (c : CodeblockDecompress) : Segment := nthZ (Segment_new 0) (segs_ c) (Z.of_nat (length (segs_ c)) - 1).
Definition set_back_seg (g : Segment) (c : CodeblockDecompress) : CodeblockDecompress :=
  set_segs (<[(length (segs_ c) - 1)%nat := g]> (segs_ c)) c.

Definition push_segment (maxPasses : Z) (c : CodeblockDecompress) : CodeblockDecompress :=
  let g := Segment_new (cd_numLayers c) in
  set_segs (segs_ c ++ [mkSegment 0 0 maxPasses (calculatedPassesInLayer_ g) 0 (signalledBytesInLayer_ g) []]) c.
Definition newHTSegment := push_segment.
Definition newSegment (cblk_sty : Z) (c : CodeblockDecompress) : CodeblockDecompress :=
  push_segment (partOneMaxPasses cblk_sty (match segs_ c with [] => 0 | _ => maxPasses_ (back_seg c) end)) c.

(** [recordLayerContribution]; the segment's header-side pass total wraps at a byte. *)
Definition recordLayerContribution (layno passes bytes : Z) (g : Segment) : Segment :=
  mkSegment (totalPasses_ g) (u8 (headerTotalPasses_ g + passes)) (maxPasses_ g)
    (<[Z.to_nat layno := passes]> (calculatedPassesInLayer_ g)) (totalBytes_ g)
    (<[Z.to_nat layno := u16 bytes]> (signalledBytesInLayer_ g)) (data_chunks_ g).

Definition set_maxPasses (m : Z) (g : Segment) : Segment :=
  mkSegment (totalPasses_ g) (headerTotalPasses_ g) m (calculatedPassesInLayer_ g) (totalBytes_ g)
    (signalledBytesInLayer_ g) (data_chunks_ g).

(** The do-while loop of [readPacketHeader] over the segments of the layer. *)
Fixpoint read_segments_loop (fuel : nat) (layno cblk_sty remaining dataBytes : Z) (c : CodeblockDecompress) (bio : BitIO S)
  : hres (Z * CodeblockDecompress * BitIO S) :=
  match fuel with
  | O => None
  | Datatypes.S fuel =>
      let seg := back_seg c in
      let nocalc := (maxPasses_ seg =? maxPassesPerSegmentJ2K) && (maxPassesPerSegmentJ2K <? remaining) in
      if nocalc then hthrow CorruptPacketHeaderException
      else
        let calc := if maxPasses_ seg =? maxPassesPerSegmentJ2K then remaining
                    else Z.min (u8 (maxPasses_ seg - headerTotalPasses_ seg)) remaining in
        if remaining <? calc then hthrow CorruptPacketHeaderException
        else
          let! (bytes, bio) := readLength (u8 (cd_numlenbits c + floorlog2 calc)) bio in
          let c := set_back_seg (recordLayerContribution layno calc bytes seg) c in
          let dataBytes := u32 (dataBytes + u16 bytes) in
          let remaining := remaining - calc in
          if 0 <? remaining
          then read_segments_loop fuel layno cblk_sty remaining dataBytes (newSegment cblk_sty c) bio
          else hok (dataBytes, c, bio)
  end.

Definition totalHeaderPasses (c : CodeblockDecompress) : Z :=
  foldl (fun s g => u8 (s + headerTotalPasses_ g)) 0 (segs_ c).

(** The bits read one by one after the length field. *)
Fixpoint read_extra_bits (n : nat) (bytes : Z) (bio : BitIO S) : hres (Z * BitIO S) :=
  match n with
  | O => hok (bytes, bio)
  | Datatypes.S n => let! (b, bio) := hbio (read1 bio) in read_extra_bits n (Z.lor (u32 (Z.shiftl bytes 1)) b) bio
  end.

(** The cleanup and refinement segments that follow the placeholder passes. *)
Fixpoint ht_coded_loop (fuel : nat) (layno remaining dataBytes : Z) (c : CodeblockDecompress) (bio : BitIO S)
  : hres (Z * CodeblockDecompress * BitIO S) :=
  match fuel with
  | O => None
  | Datatypes.S fuel =>
      if 0 <? remaining then
        let phase := totalHeaderPasses c mod 3 in
        let '(c, segmentPasses) :=
          if phase =? 0 then (newHTSegment 1 c, 1)
          else
            let cur := back_seg c in
            ((if (maxPasses_ cur =? 2) && (headerTotalPasses_ cur <? 2) then c else newHTSegment 2 c),
             Z.min (3 - phase) remaining) in
        let! (bytes, bio) := readLength (u8 (cd_numlenbits c + floorlog2 segmentPasses)) bio in
        if (phase =? 0) && (bytes =? 1) then hthrow CorruptPacketHeaderException
        else
          ht_coded_loop fuel layno (remaining - segmentPasses) (u32 (dataBytes + bytes))
            (set_back_seg (recordLayerContribution layno segmentPasses bytes (back_seg c)) c) bio
      else hok (dataBytes, c, bio)
  end.

(** The length field of the placeholder segment: the passes it covers, its
    length, whether it reveals a Part 1 block, and whether it ends with the
    cleanup pass. *)
Definition ht_placeholder_length (mixed : bool) (passIndex remaining : Z) (c : CodeblockDecompress) (bio : BitIO S)
  : hres (Z * Z * bool * bool * BitIO S) :=
  let refinementPasses := (passIndex + remaining - 1) mod 3 in
  let toCleanup := remaining - refinementPasses in
  if toCleanup <? 1 then
    let! (bytes, bio) := readLength (u8 (cd_numlenbits c + floorlog2 remaining)) bio in
    hok (remaining, bytes, negb (bytes =? 0), false, bio)
  else
    let lengthBits := u8 (cd_numlenbits c + floorlog2 toCleanup) in
    let! (bytes, bio) := readLength lengthBits bio in
    let lengthMsbClear := Z.shiftr bytes (lengthBits - 1) =? 0 in
    if negb (bytes =? 0) && (negb mixed || ((3 <? cd_numlenbits c) && (1 <? bytes) && lengthMsbClear)) then
      if bytes <? 2 then hthrow CorruptPacketHeaderException else hok (toCleanup, bytes, false, true, bio)
    else
      let! (bytes, bio) := read_extra_bits (Z.to_nat (u8 (floorlog2 remaining - floorlog2 toCleanup))) bytes bio in
      hok (remaining, bytes, negb (bytes =? 0), false, bio).

Definition readHTPacketHeader (layno remaining cblk_sty dataBytes : Z) (c : CodeblockDecompress) (bio : BitIO S)
  : hres (Z * CodeblockDecompress * BitIO S) :=
  let mixed := Z.land cblk_sty GRK_CBLKSTY_HT_MIXED =? GRK_CBLKSTY_HT_MIXED in
  match htState_ c with
  | HT_placeholders =>
      let c := match segs_ c with [] => newHTSegment htOpenSegmentPasses c | _ => c end in
      let! (passes, bytes, partOne, cleanup, bio) :=
        ht_placeholder_length mixed (headerTotalPasses_ (back_seg c)) remaining c bio in
      if partOne && negb mixed then hthrow CorruptPacketHeaderException
      else
        let c := if (cleanup : bool) then set_htState HT_coded c else c in
        let c := if (partOne : bool)
                 then set_back_seg (set_maxPasses (partOneMaxPasses cblk_sty 0) (back_seg c)) (set_htState HT_part1 c) else c in
        let c := set_back_seg (recordLayerContribution layno passes bytes (back_seg c)) c in
        let dataBytes := u32 (dataBytes + bytes) in
        let remaining := u8 (remaining - passes) in
        if cleanup
        then ht_coded_loop (Datatypes.S (Z.to_nat remaining)) layno remaining dataBytes
               (set_back_seg (set_maxPasses (headerTotalPasses_ (back_seg c)) (back_seg c)) c) bio
        else hok (dataBytes, c, bio)
  | _ => ht_coded_loop (Datatypes.S (Z.to_nat remaining)) layno remaining dataBytes c bio
  end.

Definition readPacketHeader (layno cblk_sty dataBytes : Z) (c : CodeblockDecompress) (bio : BitIO S)
  : hres (Z * CodeblockDecompress * BitIO S) :=
  let! (passes, bio) := hbio (getnumpasses bio) in
  let c := set_signalled (<[Z.to_nat layno := passes]> (cd_signalledPassesByLayer c)) c in
  let! (increment, bio) := hbio_opt (getcommacode bio) in
  let c := cd_setNumLenBits (cd_numlenbits c + increment) c in
  let c := if (length (segs_ c) =? 0)%nat && has cblk_sty GRK_CBLKSTY_HT_ONLY then set_htState HT_placeholders c else c in
  match htState_ c with
  | HT_placeholders | HT_coded => readHTPacketHeader layno passes cblk_sty dataBytes c bio
  | _ =>
      let c := if (length (segs_ c) =? 0)%nat || (headerTotalPasses_ (back_seg c) =? maxPasses_ (back_seg c))
               then newSegment cblk_sty c else c in
      read_segments_loop (Datatypes.S (Z.to_nat passes)) layno cblk_sty passes dataBytes c bio
  end.
End Parse.

(** ** Parsing packet data *)

Definition release (c : CodeblockDecompress) : CodeblockDecompress := set_numDataParsed 0 (set_segs [] c).

(** [nextDataParsedSegment]: the index of the next segment, [None] for [end()]. *)
Definition nextDataParsedSegment (c : CodeblockDecompress) : option nat * CodeblockDecompress :=
  if (length (segs_ c) <=? numDataParsedSegments_ c)%nat then (None, c)
  else (Some (numDataParsedSegments_ c), set_numDataParsed (S (numDataParsedSegments_ c)) c).
Definition currDataParsedSegment (c : CodeblockDecompress) : option nat :=
  match numDataParsedSegments_ c with O => None | S n => Some n end.

Definition seg_at (i : nat) (c : CodeblockDecompress) : Segment := nthZ (Segment_new 0) (segs_ c) (Z.of_nat i).
Definition bytes_in (layno : Z) (g : Segment) : Z := nthZ 0 (signalledBytesInLayer_ g) layno.
Definition passes_in (layno : Z) (g : Segment) : Z := nthZ 0 (calculatedPassesInLayer_ g) layno.

(** The state of [parsePacketData]: the block, the remaining tile-part bytes and
    the offset in the packet's data. *)
Record ParseState := mkPS { ps_cblk : CodeblockDecompress; ps_remaining : Z; ps_offset : Z }.

(** The do-while loop over the segments of the layer. *)
Fixpoint parse_loop (fuel : nat) (layno : Z) (isHT : bool) (layerData : list Z) (i : nat) (passes : Z) (p : ParseState)
  : hres ParseState :=
  match fuel with
  | O => None
  | S fuel =>
      let c := ps_cblk p in
      let g := seg_at i c in
      let bytes := bytes_in layno g in
      if ps_remaining p <? bytes then
        let c := if isHT then release c
                 else set_segs (<[i := mkSegment 0 (headerTotalPasses_ g) (maxPasses_ g) (calculatedPassesInLayer_ g) (totalBytes_ g)
                                  (<[Z.to_nat layno := 0]> (signalledBytesInLayer_ g)) (data_chunks_ g)]> (segs_ c)) c in
        hok (mkPS c (ps_remaining p) (ps_offset p))
      else if negb (bytes =? 0) && (UINT32_MAX - bytes <? totalBytes_ g) then hthrow CorruptPacketDataException
      else
        let chunk := take (Z.to_nat bytes) (drop (Z.to_nat (ps_offset p)) layerData) in
        let calc := passes_in layno g in
        let g := mkSegment (u8 (totalPasses_ g + calc)) (headerTotalPasses_ g) (maxPasses_ g) (calculatedPassesInLayer_ g)
                   (totalBytes_ g + bytes) (signalledBytesInLayer_ g)
                   (if bytes =? 0 then data_chunks_ g else data_chunks_ g ++ [chunk]) in
        let c := set_segs (<[i := g]> (segs_ c)) c in
        let passes := u8 (passes - calc) in
        let p := mkPS c (ps_remaining p - bytes) (u32 (ps_offset p + bytes)) in
        if 0 <? passes then
          match nextDataParsedSegment c with
          | (Some j, c) => parse_loop fuel layno isHT layerData j passes (mkPS c (ps_remaining p) (ps_offset p))
          | (None, _) => hok p
          end
        else hok p
  end.

Definition parsePacketData (layno : Z) (isHT : bool) (layerData : list Z) (p : ParseState) : hres ParseState :=
  let c := ps_cblk p in
  let passes := nthZ 0 (cd_signalledPassesByLayer c) layno in
  if passes =? 0 then hok p
  else
    let '(i, c) :=
      match currDataParsedSegment c with
      | Some i => if totalPasses_ (seg_at i c) =? maxPasses_ (seg_at i c) then nextDataParsedSegment c else (Some i, c)
      | None => nextDataParsedSegment c
      end in
    match i with
    | None => hok (mkPS c (ps_remaining p) (ps_offset p))
    | Some i =>
        let c := set_dataParsedLayers (Z.max (dataParsedLayers_ c) (u16 (layno + 1))) c in
        parse_loop (S (length (segs_ c))) layno isHT layerData i passes (mkPS c (ps_remaining p) (ps_offset p))
    end.

(** ** Terminated passes and segments *)

Lemma block_passes_lookup n : forall i t b, (i < n)%nat -> 0 <= t <= 2 ->
  block_passes n (t, b) !! i = Some ((Z.of_nat i + t) mod 3, b - (Z.of_nat i + t) / 3).
Proof.
  induction n as [|n IH]; intros i t b Hi Ht; [lia|]. cbn [block_passes].
  destruct i as [|i].
  { simpl. rewrite Z.mod_small, Z.div_small, Z.sub_0_r by lia. done. }
  cbn [lookup list_lookup]. unfold next_pass. destruct (Z.eqb_spec (t + 1) 3) as [E|E].
  - etransitivity; [apply IH; lia|]. replace (Z.of_nat (S i) + t) with (Z.of_nat i + 1 * 3) by lia.
    rewrite Z_mod_plus_full, Z.div_add by lia. rewrite Z.add_0_r. do 2 f_equal. lia.
  - etransitivity; [apply IH; lia|]. by replace (Z.of_nat (S i) + t) with (Z.of_nat i + (t + 1)) by lia.
Qed.

(** The flag of pass [i]. *)
Definition term_at (numbps cblksty : Z) (i : Z) : bool :=
  enc_is_term_pass numbps cblksty (numbps - 1 - (i + 2) / 3) ((i + 2) mod 3).
Lemma term_flags_lookup numbps sty n i : (i < n)%nat ->
  term_flags numbps sty n !! i = Some (term_at numbps sty (Z.of_nat i)).
Proof. intros Hi. unfold term_flags. rewrite list_lookup_fmap, block_passes_lookup by lia. done. Qed.

(** [seg_start sty P prev]: the header parser opens a segment at pass [P], after
    a segment of at most [prev] passes ([prev = 0] for the first one). *)
Inductive seg_start (sty : Z) : Z -> Z -> Prop :=
| seg_start_first : seg_start sty 0 0
| seg_start_next P prev : seg_start sty P prev ->
    seg_start sty (P + partOneMaxPasses sty prev) (partOneMaxPasses sty prev).

Lemma seg_start_cases sty P prev : seg_start sty P prev ->
  if has sty GRK_CBLKSTY_TERMALL then 0 <= P
  else if has sty GRK_CBLKSTY_LAZY then
    (P = 0 /\ prev = 0) \/ (10 <= P /\ P mod 3 = 1 /\ (prev = 1 \/ prev = 10)) \/ (12 <= P /\ P mod 3 = 0 /\ prev = 2)
  else (P = 0 /\ prev = 0) \/ 112 <= P.
Proof.
  induction 1 as [|P prev _ IH].
  { destruct (has sty GRK_CBLKSTY_TERMALL); [done|]. destruct (has sty GRK_CBLKSTY_LAZY); auto. }
  unfold partOneMaxPasses. destruct (has sty GRK_CBLKSTY_TERMALL); [lia|]. destruct (has sty GRK_CBLKSTY_LAZY).
  - destruct IH as [[-> ->]|[(H1 & H2 & [-> | ->])|(H1 & H2 & ->)]]; simpl.
    + right; left. auto with lia.
    + right; right. split; [lia|]. split; [|done]. rewrite <- Zplus_mod_idemp_l, H2. done.
    + right; right. split; [lia|]. split; [|done]. rewrite <- Zplus_mod_idemp_l, H2. done.
    + right; left. split; [lia|]. split; [|by left]. rewrite <- Zplus_mod_idemp_l, H2. done.
  - right. unfold maxPassesPerSegmentJ2K, maxPrecisionJ2K in *. destruct IH as [[-> ->]|?]; lia.
Qed.

Lemma partOneMaxPasses_pos sty prev : 1 <= partOneMaxPasses sty prev <= 112.
Proof. unfold partOneMaxPasses, maxPassesPerSegmentJ2K, maxPrecisionJ2K. repeat case_match; lia. Qed.

Lemma mod3 a : exists q r, a = 3 * q + r /\ 0 <= r < 3 /\ a mod 3 = r /\ a / 3 = q.
Proof. exists (a / 3), (a mod 3). pose proof (Z.div_mod a 3). pose proof (Z.mod_pos_bound a 3). lia. Qed.

Lemma term_in_segment numbps sty P prev j :
  numbps <= 38 -> seg_start sty P prev -> P <= j < P + partOneMaxPasses sty prev -> j < 3 * numbps - 3 ->
  term_at numbps sty j = (j =? P + partOneMaxPasses sty prev - 1).
Proof.
  intros Hn Hs Hj Hlast. pose proof (seg_start_cases _ _ _ Hs) as Hc. unfold term_at, enc_is_term_pass.
  destruct (mod3 (j + 2)) as (q & r & Ej & Hr & -> & ->). destruct (mod3 P) as (q' & r' & EP & Hr' & Hm & _).
  assert ((r =? 2) && (numbps - 1 - q =? 0) = false) as -> by (zcases; try done; lia).
  unfold partOneMaxPasses in *. destruct (has sty GRK_CBLKSTY_TERMALL); [symmetry; apply Z.eqb_eq; lia|].
  destruct (has sty GRK_CBLKSTY_LAZY).
  - rewrite Hm in Hc. destruct Hc as [[-> ->]|[(H1 & H2 & [-> | ->])|(H1 & H2 & ->)]]; simpl in *; zcases; try done; lia.
  - unfold maxPassesPerSegmentJ2K, maxPrecisionJ2K in *. zcases; try done; lia.
Qed.

(** C27: encoder and decoder agree on where codeword segments end.  For every code
    block style of Part 1, up to the 38 bit planes of the standard, the passes
    that [enc_is_term_pass] terminates are exactly the last passes of the segments
    the header parser opens by [partOneMaxPasses] - the last pass of a complete
    block apart, which is always terminated and ends its packet's segment anyway. *)
Theorem terminated_passes_end_segments (numbps sty P prev : Z) (n j : nat) :
  numbps <= 38 -> seg_start sty P prev ->
  P <= Z.of_nat j < P + partOneMaxPasses sty prev -> (j < n)%nat -> Z.of_nat j < 3 * numbps - 3 ->
  term_flags numbps sty n !! j = Some true <-> Z.of_nat j + 1 = P + partOneMaxPasses sty prev.
Proof.
  intros Hn Hs Hj Hjn Hlast. rewrite term_flags_lookup by done. rewrite (term_in_segment numbps sty P prev) by done.
  destruct (Z.eqb_spec (Z.of_nat j) (P + partOneMaxPasses sty prev - 1)); split; try done; try lia.
Qed.

Lemma terminated_passes_end_segments_witness :
  term_flags 8 GRK_CBLKSTY_LAZY 20 !! 11%nat = Some true <-> 11 + 1 = 10 + partOneMaxPasses GRK_CBLKSTY_LAZY 10.
Proof.
  apply (terminated_passes_end_segments 8 GRK_CBLKSTY_LAZY 10 10 20 11).
  - lia.
  - apply (seg_start_next GRK_CBLKSTY_LAZY 0 0), seg_start_first.
  - vm_compute. split; [discriminate|reflexivity].
  - lia.
  - lia.
Defined.
