(* ===== verification/PacketHeader.v ===== *)
(** Packets: [T2Compress::compressHeader] and [compressPacket] (t2/T2Compress.cpp)
    and [PacketParser] (t2/PacketParser.cpp).

    The state of a packet is, for each band of its resolution, the precinct the
    packet belongs to: the two tag trees and the code blocks. *)
From S2P Require Import Prelude BitIO TagTree Geometry Codeblock.

Definition incl_max : Z := UINT16_MAX.   (* uninitialized value of TagTreeU16 *)
Definition imsb_max : Z := UINT8_MAX.    (* uninitialized value of TagTreeU8 *)

Section Packet.
Context {St : Type} `{Stream : IStreamWriter St}.

(** ** Compression *)

Record PrecinctC := mkPrecC { pc_incl : TagTree; pc_imsb : TagTree; pc_cblks : list CodeblockCompress }.

(** A band of the resolution, with its precinct at the packet's precinct index
    ([None] when the index is out of range). *)
Record BandC := mkBandC { bc_empty : bool; bc_maxBitPlanes : Z; bc_prc : option PrecinctC }.

(** [None]: out of fuel; [Some (Err tt)]: the function returned false. *)
Definition eres (A : Type) : Type := option (result unit A).
Definition eok {A} (a : A) : eres A := Some (Ok a).
Definition efail {A} : eres A := Some (Err tt).
Definition lift_b {A} (m : bool * A) : eres A := let (ok, a) := m in if ok then eok a else efail.

(** The passes a layer adds to a code block. *)
Definition layer_passes (layno : Z) (c : CodeblockCompress) : list CodePass :=
  take (Z.to_nat (lay_totalPasses (cc_getLayer layno c))) (drop (Z.to_nat (cc_passesInLayer0 c)) (cc_passes c)).

(** The two loops over the passes of the layer: a codeword segment ends at a
    terminated pass and at the last pass. *)
Fixpoint length_increment (numlenbits : Z) (ps : list CodePass) (nump len increment : Z) : Z :=
  match ps with
  | [] => increment
  | p :: ps =>
      let nump := nump + 1 in
      let len := u32 (len + pass_len p) in
      if pass_term p || (length ps =? 0)%nat
      then length_increment numlenbits ps 0 0
             (u8 (Z.max (i8 increment) (i8 (floorlog2 len + 1 - (numlenbits + floorlog2 nump)))))
      else length_increment numlenbits ps nump len increment
  end.

Fixpoint write_lengths (numlenbits : Z) (ps : list CodePass) (nump len : Z) : bstep (BitIO St) :=
  match ps with
  | [] => bret
  | p :: ps =>
      let nump := nump + 1 in
      let len := u32 (len + pass_len p) in
      if pass_term p || (length ps =? 0)%nat
      then write len (u8 (numlenbits + floorlog2 nump)) ;;; write_lengths numlenbits ps 0 0
      else write_lengths numlenbits ps nump len
  end.

(** One code block of the header: inclusion, missing bit planes, passes, lengths. *)
Definition compress_cblk (layno cblkno : Z) (bio : BitIO St) (incl imsb : TagTree) (c : CodeblockCompress)
  : eres (BitIO St * TagTree * TagTree * CodeblockCompress) :=
  let passes := lay_totalPasses (cc_getLayer layno c) in
  let first := cc_passesInLayer0 c =? 0 in
  let! (bio, incl) :=
    if first then
      match encode bio cblkno (u16 (layno + 1)) incl with
      | Some (ok, bio, incl) => lift_b (ok, (bio, incl))
      | None => None
      end
    else let! bio := lift_b (write1 (Z.b2z (negb (passes =? 0))) bio) in eok (bio, incl) in
  if passes =? 0 then eok (bio, incl, imsb, c)
  else
    let! (bio, imsb, c) :=
      if first then
        match encode bio cblkno imsb_max imsb with
        | Some (ok, bio, imsb) => lift_b (ok, (bio, imsb, cc_setNumLenBits 3 c))
        | None => None
        end
      else eok (bio, imsb, c) in
    let! bio := lift_b (putnumpasses passes bio) in
    let ps := layer_passes layno c in
    let increment := length_increment (cc_numlenbits c) ps 0 0 0 in
    let! bio := lift_b (putcommacode increment bio) in
    let c := cc_setNumLenBits (cc_numlenbits c + increment) c in
    let! bio := lift_b (write_lengths (cc_numlenbits c) ps 0 0 bio) in
    eok (bio, incl, imsb, c).

Fixpoint compress_cblks (layno cblkno : Z) (bio : BitIO St) (incl imsb : TagTree) (l : list CodeblockCompress)
  : eres (BitIO St * TagTree * TagTree * list CodeblockCompress) :=
  match l with
  | [] => eok (bio, incl, imsb, [])
  | c :: l =>
      let! (bio, incl, imsb, c) := compress_cblk layno cblkno bio incl imsb c in
      let! (bio, incl, imsb, l) := compress_cblks layno (cblkno + 1) bio incl imsb l in
      eok (bio, incl, imsb, c :: l)
  end.

(** The first loop of each band: the inclusion tree learns the blocks that the
    layer includes for the first time. *)
Fixpoint set_included (layno cblkno : Z) (l : list CodeblockCompress) (incl : TagTree) : option TagTree :=
  match l with
  | [] => Some incl
  | c :: l =>
      match (if (cc_passesInLayer0 c =? 0) && negb (lay_totalPasses (cc_getLayer layno c) =? 0)
             then set cblkno layno incl else Some incl) with
      | Some incl => set_included layno (cblkno + 1) l incl
      | None => None
      end
  end.

Definition compress_precinct (layno : Z) (bio : BitIO St) (p : PrecinctC) : eres (BitIO St * PrecinctC) :=
  match set_included layno 0 (pc_cblks p) (pc_incl p) with
  | None => None
  | Some incl =>
      let! (bio, incl, imsb, cblks) := compress_cblks layno 0 bio incl (pc_imsb p) (pc_cblks p) in
      eok (bio, mkPrecC incl imsb cblks)
  end.

(** The blocks of a band at layer 0: their pass counts are cleared and their
    missing bit planes entered in the tree. *)
Fixpoint init_cblks (maxBitPlanes cblkno : Z) (l : list CodeblockCompress) (imsb : TagTree)
  : eres (list CodeblockCompress * TagTree) :=
  match l with
  | [] => eok ([], imsb)
  | c :: l =>
      if maxBitPlanes <? cc_numbps c then efail
      else
        match set cblkno (maxBitPlanes - cc_numbps c) imsb with
        | None => None
        | Some imsb =>
            let! (l, imsb) := init_cblks maxBitPlanes (cblkno + 1) l imsb in
            eok (cc_setNumPassesInLayer0 0 c :: l, imsb)
        end
  end.
Definition init_precinct (maxBitPlanes : Z) (p : PrecinctC) : eres PrecinctC :=
  let! (cblks, imsb) := init_cblks maxBitPlanes 0 (pc_cblks p) (reset imsb_max (pc_imsb p)) in
  eok (mkPrecC (reset incl_max (pc_incl p)) imsb cblks).

Definition skips_band (b : BandC) (p : PrecinctC) : bool := bc_empty b || (length (pc_cblks p) =? 0)%nat.

Fixpoint init_bands (l : list BandC) : eres (list BandC) :=
  match l with
  | [] => eok []
  | b :: l =>
      match bc_prc b with
      | None => efail
      | Some p =>
          let! b := if skips_band b p then eok b
                    else let! p := init_precinct (bc_maxBitPlanes b) p in eok (mkBandC (bc_empty b) (bc_maxBitPlanes b) (Some p)) in
          let! l := init_bands l in eok (b :: l)
      end
  end.

Fixpoint compress_bands (layno : Z) (bio : BitIO St) (l : list BandC) : eres (BitIO St * list BandC) :=
  match l with
  | [] => eok (bio, [])
  | b :: l =>
      match bc_prc b with
      | None => efail
      | Some p =>
          let! (bio, b) := if skips_band b p then eok (bio, b)
                           else let! (bio, p) := compress_precinct layno bio p in
                                eok (bio, mkBandC (bc_empty b) (bc_maxBitPlanes b) (Some p)) in
          let! (bio, l) := compress_bands layno bio l in eok (bio, b :: l)
      end
  end.

Definition compressHeader (layno : Z) (bio : BitIO St) (bands : list BandC) : eres (BitIO St * list BandC) :=
  let! bands := if layno =? 0 then init_bands bands else eok bands in
  let! bio := lift_b (write1 1 bio) in
  let! (bio, bands) := compress_bands layno bio bands in
  let! bio := lift_b (flush bio) in
  eok (bio, bands).

(** What [compressPacket] writes: the SOP marker segment, the header, the EPH
    marker and the body.  [writeBytes] is the stream operation that writes the data of a block. *)
Definition CP_CSTY_SOP : Z := 0x02.
Definition CP_CSTY_EPH : Z := 0x04.
Definition SOP : Z := 0xff91.
Definition EPH : Z := 0xff92.

Fixpoint write_all8u (l : list Z) : bstep St :=
  match l with [] => bret | b :: l => stream_write8u b ;;; write_all8u l end.

Section Body.
Variable writeBytes : list Z -> bstep St.

(** The body of one precinct, and the pass counts it advances. *)
Fixpoint write_body_cblks (layno : Z) (st : St) (l : list CodeblockCompress) : eres (St * list CodeblockCompress) :=
  match l with
  | [] => eok (st, [])
  | c :: l =>
      let layer := cc_getLayer layno c in
      let! (st, c) :=
        if lay_totalPasses layer =? 0 then eok (st, c)
        else
          let! st := if lay_len layer =? 0 then eok st else lift_b (writeBytes (lay_data layer) st) in
          eok (st, cc_incNumPassesInLayer0 (lay_totalPasses layer) c) in
      let! (st, l) := write_body_cblks layno st l in eok (st, c :: l)
  end.

Fixpoint write_body (layno : Z) (st : St) (l : list BandC) : eres (St * list BandC) :=
  match l with
  | [] => eok (st, [])
  | b :: l =>
      match bc_prc b with
      | None => efail
      | Some p =>
          let! (st, b) :=
            if skips_band b p then eok (st, b)
            else let! (st, cblks) := write_body_cblks layno st (pc_cblks p) in
                 eok (st, mkBandC (bc_empty b) (bc_maxBitPlanes b) (Some (mkPrecC (pc_incl p) (pc_imsb p) cblks))) in
          let! (st, l) := write_body layno st l in eok (st, b :: l)
      end
  end.

(** [packetIndex] is the tile's processed-packet count. *)
Definition write_packet (csty layno packetIndex : Z) (st : St) (bands : list BandC) : eres (St * list BandC) :=
  let n := Z.land packetIndex 0xFFFF in
  let! st := lift_b ((if negb (Z.land csty CP_CSTY_SOP =? 0)
                      then write_all8u [Z.shiftr SOP 8; Z.land SOP 0xff; 0; 4; Z.shiftr n 8; Z.land n 0xff] else bret) st) in
  let! (bio, bands) := compressHeader layno (BitIO_stream st true) bands in
  match stream bio with
  | None => efail
  | Some st =>
      let! st := lift_b ((if negb (Z.land csty CP_CSTY_EPH =? 0)
                          then write_all8u [Z.shiftr EPH 8; Z.land EPH 0xff] else bret) st) in
      write_body layno st bands
  end.
End Body.

(** ** Decompression *)

Record PrecinctD := mkPrecD {
  pd_incl : TagTree; pd_imsb : TagTree; pd_numLayers : nat;
  pd_cblks : list (option CodeblockDecompress);    (* null until the block is first included *)
}.
(** [tryGetPrecinct] of the band: null when the precinct does not exist. *)
Record BandD := mkBandD { bd_empty : bool; bd_maxBitPlanes : Z; bd_prc : option PrecinctD }.

(** The loop that raises the threshold until the number of missing bit planes is
    known. *)
Fixpoint imsb_loop (fuel : nat) (K cblkno : Z) (bio : BitIO St) (imsb : TagTree) : hres (Z * BitIO St * TagTree) :=
  match fuel with
  | O => None
  | S fuel =>
      let! (value, bio, imsb) := hbio_opt (decode bio cblkno K imsb) in
      if K <=? value then
        let K := u8 (K + 1) in
        if maxBitPlanesJ2K <? K then hthrow CorruptPacketHeaderException else imsb_loop fuel K cblkno bio imsb
      else hok (K, bio, imsb)
  end.

Record CblkRead := mkCR { cr_bio : BitIO St; cr_incl : TagTree; cr_imsb : TagTree; cr_dataBytes : Z }.

Definition read_inclusion (layno cblkno : Z) (oc : option CodeblockDecompress) (s : CblkRead) : hres (bool * CblkRead) :=
  if match oc with Some c => cd_numlenbits c =? 0 | None => true end then
    let! (value, bio, incl) := hbio_opt (decode (cr_bio s) cblkno (u16 (layno + 1)) (cr_incl s)) in
    if negb (value =? incl_max) && negb (value =? layno) then hthrow CorruptPacketHeaderException
    else hok (value <=? layno, mkCR bio incl (cr_imsb s) (cr_dataBytes s))
  else
    let! (b, bio) := hbio (read1 (cr_bio s)) in
    hok (negb (b =? 0), mkCR bio (cr_incl s) (cr_imsb s) (cr_dataBytes s)).

(** The missing bit planes of a block included for the first time. *)
Definition read_imsb (maxBitPlanes cblkno : Z) (c : CodeblockDecompress) (s : CblkRead) : hres (CodeblockDecompress * CblkRead) :=
  if cd_numlenbits c =? 0 then
    let! (K, bio, imsb) := imsb_loop 32 0 cblkno (cr_bio s) (cr_imsb s) in
    if K =? 0 then hthrow CorruptPacketHeaderException
    else
      let K := K - 1 in
      if maxBitPlanes <? K then hthrow CorruptPacketHeaderException
      else
        let numbps := u8 (maxBitPlanes - K) in
        if maxBitPlanesJ2K <? numbps then hthrow CorruptPacketHeaderException
        else hok (cd_setNumLenBits 3 (cd_setNumBps numbps c), mkCR bio (cr_incl s) imsb (cr_dataBytes s))
  else hok (c, s).

Definition read_cblk (layno cblk_sty maxBitPlanes cblkno : Z) (numLayers : nat) (oc : option CodeblockDecompress) (s : CblkRead)
  : hres (option CodeblockDecompress * CblkRead) :=
  let! (included, s) := read_inclusion layno cblkno oc s in
  if negb included then hok (oc, s)
  else
    let c := default (CodeblockDecompress_new numLayers) oc in
    let! (c, s) := read_imsb maxBitPlanes cblkno c s in
    let! (dataBytes, c, bio) := readPacketHeader layno cblk_sty (cr_dataBytes s) c (cr_bio s) in
    hok (Some c, mkCR bio (cr_incl s) (cr_imsb s) dataBytes).

Fixpoint read_cblks (layno cblk_sty maxBitPlanes cblkno : Z) (numLayers : nat) (l : list (option CodeblockDecompress)) (s : CblkRead)
  : hres (list (option CodeblockDecompress) * CblkRead) :=
  match l with
  | [] => hok ([], s)
  | oc :: l =>
      let! (oc, s) := read_cblk layno cblk_sty maxBitPlanes cblkno numLayers oc s in
      let! (l, s) := read_cblks layno cblk_sty maxBitPlanes (cblkno + 1) numLayers l s in
      hok (oc :: l, s)
  end.

(** A throw and whether it sets [headerError_]. *)
Definition fres (A : Type) : Type := option (result (bool * pkt_exception) A).
Definition fthrow {A} (flag : bool) (e : pkt_exception) : fres A := Some (Err (flag, e)).
Definition fok {A} (a : A) : fres A := Some (Ok a).
(** The try block: an invalid marker becomes a corrupt header, and a corrupt
    header sets the flag; the other exceptions pass. *)
Definition try_header {A} (m : hres A) : fres A :=
  match m with
  | None => None
  | Some (Ok a) => fok a
  | Some (Err (PktBio (InvalidMarkerException _))) => fthrow true CorruptPacketHeaderException
  | Some (Err CorruptPacketHeaderException) => fthrow true CorruptPacketHeaderException
  | Some (Err e) => fthrow false e
  end.

(** The bands of the resolution, for a packet that is not empty; [tileBytes] is
    the length of the tile's compressed data. *)
Fixpoint read_bands (layno cblk_sty tileBytes : Z) (bio : BitIO St) (dataBytes : Z) (l : list BandD)
  : fres (list BandD * BitIO St * Z) :=
  match l with
  | [] => fok ([], bio, dataBytes)
  | b :: l =>
      let! (b, bio, dataBytes) :=
        match bd_prc b with
        | Some p =>
            if bd_empty b then fok (b, bio, dataBytes)
            else if tileBytes <? Z.shiftr (Z.of_nat (length (pd_cblks p))) 3
            then fthrow true (PktBio TruncatedPacketHeaderException)
            else
              let! (cblks, s) := try_header (read_cblks layno cblk_sty (bd_maxBitPlanes b) 0 (pd_numLayers p) (pd_cblks p)
                                   (mkCR bio (pd_incl p) (pd_imsb p) dataBytes)) in
              fok (mkBandD (bd_empty b) (bd_maxBitPlanes b) (Some (mkPrecD (cr_incl s) (cr_imsb s) (pd_numLayers p) cblks)),
                   cr_bio s, cr_dataBytes s)
        | None => fok (b, bio, dataBytes)
        end in
      let! (l, bio, dataBytes) := read_bands layno cblk_sty tileBytes bio dataBytes l in
      fok (b :: l, bio, dataBytes)
  end.

(** Where the header bits come from: the packet itself, or the packed headers of
    PPM and PPT markers (which a PPM marker may lack for the tile). *)
Inductive header_source := InPacket | PackedMissing | Packed (bytes : list Z).

(** [layerData_] is the data from the packet's first byte to the end of its
    chunk, [layerBytesAvailable_] of which may be read. *)
Record PacketParser := mkPP {
  packetSequenceNumber_ : Z;
  layno_ : Z;
  plLength_ : Z;
  layerData_ : list Z;
  layerBytesAvailable_ : Z;
  tagBitsPresent_ : bool;
  signalledLayerDataBytes_ : Z;
  headerLength_ : Z;
  parsedHeader_ : bool;
  headerError_ : bool;
}.
Definition PacketParser_new (seq layno plLength : Z) (data : list Z) : PacketParser :=
  mkPP seq layno plLength data (Z.of_nat (length data)) false 0 0 false false.

Definition be16_at (d : list Z) (i : Z) : Z := Z.lor (Z.shiftl (nthZ 0 d i) 8) (nthZ 0 d (i + 1)).

(** The optional SOP marker segment: the number of bytes it takes. *)
Definition read_sop (csty : Z) (pp : PacketParser) : fres Z :=
  let d := layerData_ pp in
  if negb (Z.land csty CP_CSTY_SOP =? 0) && (2 <=? layerBytesAvailable_ pp) then
    if be16_at d 0 =? SOP then
      if layerBytesAvailable_ pp <? 6 then fthrow true (PktBio TruncatedPacketHeaderException)
      else if negb (be16_at d 4 =? packetSequenceNumber_ pp) then fthrow true CorruptPacketHeaderException
      else fok 6
    else fok 0
  else fok 0.

(** The header bits in the buffer [hdr]: what they say and the bytes they take,
    the EPH marker included. *)
Definition read_header_bits (csty cblk_sty tileBytes layno : Z) (hdr : list Z) (bands : list BandD)
  : fres (bool * list BandD * Z * Z) :=
  let remainingBytes := Z.of_nat (length hdr) in
  if remainingBytes =? 0 then fthrow false (PktBio TruncatedPacketHeaderException)
  else
    let! (present, bio) := try_header (hbio (read1 (BitIO_buffer hdr remainingBytes false))) in
    let! (bands, bio, dataBytes) :=
      if negb (present =? 0) then read_bands layno cblk_sty tileBytes bio 0 bands else fok (bands, bio, 0) in
    let! bio := try_header (hbio (readFinalHeaderByte bio)) in
    let used := numBytes bio in
    let! used :=
      if negb (Z.land csty CP_CSTY_EPH =? 0) then
        if u64 (remainingBytes - u32 used) <? 2 then fthrow true (PktBio TruncatedPacketHeaderException)
        else if negb (be16_at hdr used =? EPH) then fthrow true CorruptPacketHeaderException
        else fok (used + 2)
      else fok used in
    if remainingBytes <? used then fthrow true CorruptPacketHeaderException
    else fok (negb (present =? 0), bands, dataBytes, used).

(** [readHeader]: returns the bytes of the packet, and updates the packed headers
    when they are used. *)
Definition readHeader_body (csty cblk_sty tileBytes : Z) (src : header_source) (pp : PacketParser) (bands : list BandD)
  : fres (PacketParser * list BandD * header_source) :=
  let! sop := read_sop csty pp in
  let data := drop (Z.to_nat sop) (layerData_ pp) in
  let avail := layerBytesAvailable_ pp - sop in
  match src with
  | PackedMissing => fthrow true CorruptPacketHeaderException
  | _ =>
      let hdr := match src with Packed h => h | _ => take (Z.to_nat avail) data end in
      let! (present, bands, dataBytes, used) := read_header_bits csty cblk_sty tileBytes (layno_ pp) hdr bands in
      let headerLength := match src with Packed _ => sop | _ => sop + used end in
      let avail := match src with Packed _ => avail | _ => avail - used end in
      let src := match src with Packed h => Packed (drop (Z.to_nat used) h) | s => s end in
      if negb (plLength_ pp =? 0) && negb (plLength_ pp =? u32 (headerLength + dataBytes))
      then fthrow true CorruptPacketHeaderException
      else fok (mkPP (packetSequenceNumber_ pp) (layno_ pp) (plLength_ pp) (drop (Z.to_nat headerLength) (layerData_ pp)) avail
                  present dataBytes headerLength true false, bands, src)
  end.

(** A throw carries the value of [headerError_] it leaves; the blocks and counters
    that it leaves half-read are not tracked. *)
Definition readHeader (csty cblk_sty tileBytes : Z) (src : header_source) (pp : PacketParser) (bands : list BandD)
  : fres (Z * PacketParser * list BandD * header_source) :=
  if parsedHeader_ pp then fok (u32 (headerLength_ pp + signalledLayerDataBytes_ pp), pp, bands, src)
  else if headerError_ pp then fthrow true CorruptPacketHeaderException
  else
    let! (pp, bands, src) := readHeader_body csty cblk_sty tileBytes src pp bands in
    fok (u32 (headerLength_ pp + signalledLayerDataBytes_ pp), pp, bands, src).

(** [readData]: every block of every band takes its bytes; a corrupt block stops
    the loop, and the flag says so. *)
Fixpoint parse_cblks (layno : Z) (isHT : bool) (data : list Z) (numLayers : nat) (l : list (option CodeblockDecompress))
  (avail off : Z) : option (bool * list (option CodeblockDecompress) * Z * Z) :=
  match l with
  | [] => Some (true, [], avail, off)
  | oc :: l =>
      let c := default (CodeblockDecompress_new numLayers) oc in
      match parsePacketData layno isHT data (mkPS c avail off) with
      | None => None
      | Some (Err _) => Some (false, Some c :: l, avail, off)
      | Some (Ok p) =>
          match parse_cblks layno isHT data numLayers l (ps_remaining p) (ps_offset p) with
          | None => None
          | Some (ok, l, avail, off) => Some (ok, Some (ps_cblk p) :: l, avail, off)
          end
      end
  end.

Fixpoint parse_bands (layno : Z) (isHT : bool) (data : list Z) (l : list BandD) (avail off : Z)
  : option (bool * list BandD * Z * Z) :=
  match l with
  | [] => Some (true, [], avail, off)
  | b :: l =>
      match bd_prc b with
      | Some p =>
          if bd_empty b then
            match parse_bands layno isHT data l avail off with
            | None => None
            | Some (ok, l, avail, off) => Some (ok, b :: l, avail, off)
            end
          else
            match parse_cblks layno isHT data (pd_numLayers p) (pd_cblks p) avail off with
            | None => None
            | Some (ok, cblks, avail, off) =>
                let b := mkBandD (bd_empty b) (bd_maxBitPlanes b) (Some (mkPrecD (pd_incl p) (pd_imsb p) (pd_numLayers p) cblks)) in
                if negb ok then Some (false, b :: l, avail, off)
                else
                  match parse_bands layno isHT data l avail off with
                  | None => None
                  | Some (ok, l, avail, off) => Some (ok, b :: l, avail, off)
                  end
            end
      | None =>
          match parse_bands layno isHT data l avail off with
          | None => None
          | Some (ok, l, avail, off) => Some (ok, b :: l, avail, off)
          end
      end
  end.

Definition readData (isHT : bool) (pp : PacketParser) (bands : list BandD) : option (list BandD) :=
  if negb (tagBitsPresent_ pp) then Some bands
  else (fun r : bool * list BandD * Z * Z => r.1.1.2) <$> parse_bands (layno_ pp) isHT (layerData_ pp) bands (layerBytesAvailable_ pp) 0.

End Packet.
Arguments CblkRead St : clear implicits.
