(* ===== verification/PacketLengths.v ===== *)
(** The lengths of a packet header: what [compressHeader] writes for the passes
    of one code block and what [readPacketHeader] reads from it.

    The compressor cuts the passes of a layer into codeword segments at the
    terminated passes, the parser at the pass limits of its own segments; with the
    flags of the block coder the two agree, and every length fits its field. *)
From S2P Require Import Prelude BitIO TagTree Geometry Codeblock PacketHeader.

Section Lengths.
Context {St : Type} `{Stream : IStreamWriter St}.

(** ** The codeword segments the compressor sees *)

(** The number of passes and the length of each. *)
Fixpoint groups (ps : list CodePass) (nump len : Z) : list (Z * Z) :=
  match ps with
  | [] => []
  | p :: ps =>
      let nump := nump + 1 in
      let len := u32 (len + pass_len p) in
      if pass_term p || (length ps =? 0)%nat then (nump, len) :: groups ps 0 0 else groups ps nump len
  end.

Definition len_code (nl : Z) (g : Z * Z) : list bool := bits_of g.2 (Z.to_nat (u8 (nl + floorlog2 g.1))).
Definition inc_step (nl inc : Z) (g : Z * Z) : Z :=
  u8 (Z.max (i8 inc) (i8 (floorlog2 g.2 + 1 - (nl + floorlog2 g.1)))).

Lemma write_lengths_bits nl ps : forall nump len (s : BitIO St),
  write_lengths nl ps nump len s = put_bits (mjoin (len_code nl <$> groups ps nump len)) s.
Proof.
  induction ps as [|p ps IH]; intros nump len s; [done|]. cbn [write_lengths groups].
  destruct (pass_term p || (length ps =? 0)%nat); [|apply IH].
  csimpl. rewrite put_bits_app. unfold bseq. rewrite write_bits. unfold len_code at 1. simpl.
  destruct (put_bits _ s) as [[] s1]; [apply IH|done].
Qed.

Lemma length_increment_groups nl ps : forall nump len inc,
  length_increment nl ps nump len inc = foldl (inc_step nl) inc (groups ps nump len).
Proof.
  induction ps as [|p ps IH]; intros nump len inc; [done|]. cbn [length_increment groups].
  destruct (pass_term p || (length ps =? 0)%nat); [|apply IH]. cbn [foldl]. apply IH.
Qed.

Definition group_range (g : Z * Z) : Prop := 1 <= g.1 < 256 /\ 0 <= g.2 < 2 ^ 16.

Lemma floorlog2_bound a : 0 <= a < 2 ^ 32 -> 0 <= floorlog2 a <= 31 /\ a < 2 ^ (floorlog2 a + 1).
Proof.
  intros Ha. destruct (Z.eq_dec a 0) as [->|]; [change (floorlog2 0) with 0; lia|].
  rewrite floorlog2_log2 by lia. pose proof (Z.log2_nonneg a). pose proof (Z.log2_spec a ltac:(lia)) as [_ H2].
  assert (Z.log2 a < 32) by (apply Z.log2_lt_pow2; lia). split; [lia|]. by rewrite Z.add_1_r.
Qed.
Lemma floorlog2_mono a b : 0 <= a <= b -> b < 2 ^ 32 -> floorlog2 a <= floorlog2 b.
Proof.
  intros Hab Hb. destruct (Z.eq_dec a 0) as [->|]; [apply (floorlog2_bound b); lia|].
  rewrite !floorlog2_log2 by lia. apply Z.log2_le_mono. lia.
Qed.

Lemma inc_step_spec nl inc g : 0 <= nl <= 64 -> 0 <= inc <= 64 -> group_range g ->
  inc_step nl inc g = Z.max inc (floorlog2 g.2 + 1 - (nl + floorlog2 g.1)) /\ inc_step nl inc g <= Z.max inc 17.
Proof.
  intros Hnl Hinc [H1 H2]. unfold inc_step.
  pose proof (floorlog2_bound g.1 ltac:(lia)) as [Ha _]. pose proof (floorlog2_bound g.2 ltac:(lia)) as [Hb _].
  assert (floorlog2 g.2 <= 15).
  { change 15 with (floorlog2 65535). apply floorlog2_mono; lia. }
  rewrite !(swrap_small 8) by (simpl; lia). rewrite wrap_small by (simpl; lia). lia.
Qed.

(** The increment is enough for every segment. *)
Lemma increment_enough nl gs : forall inc, 0 <= nl <= 64 -> 0 <= inc <= 64 -> Forall group_range gs ->
  let r := foldl (inc_step nl) inc gs in
  inc <= r <= 64 /\ Forall (fun g => g.2 < 2 ^ (nl + r + floorlog2 g.1)) gs.
Proof.
  induction gs as [|g gs IH]; intros inc Hnl Hinc Hok; cbn [foldl]; [split; [lia|constructor]|].
  apply list.Forall_cons in Hok as [Hg Hok].
  destruct (inc_step_spec nl inc g Hnl Hinc Hg) as [E Hle].
  destruct (IH (inc_step nl inc g)) as [Hr Hall]; [done|lia|done|]. split; [lia|]. constructor; [|done].
  destruct Hg as [H1 H2]. pose proof (floorlog2_bound g.2 ltac:(lia)) as [_ Hlt].
  pose proof (floorlog2_bound g.1 ltac:(lia)) as [Ha _].
  eapply Z.lt_le_trans; [exact Hlt|]. apply Z.pow_le_mono_r; lia.
Qed.

(** ** Groups and segments *)

Definition sum_len (ps : list CodePass) : Z := foldr (fun p s => pass_len p + s) 0 ps.
Definition sum_passes (gs : list (Z * Z)) : Z := foldr (fun g s => g.1 + s) 0 gs.
Definition sum_bytes (gs : list (Z * Z)) : Z := foldr (fun g s => g.2 + s) 0 gs.

(** The groups cut at the limits of the segments: the current one has room for
    [room] passes, and the next ones follow the rule of the style. *)
Fixpoint fits_segs (sty m room : Z) (gs : list (Z * Z)) : Prop :=
  match gs with
  | [] => False
  | [g] => 1 <= g.1 <= room
  | g :: gs => g.1 = room /\ 1 <= room /\ fits_segs sty (partOneMaxPasses sty m) (partOneMaxPasses sty m) gs
  end.

Lemma sum_len_cons p ps : sum_len (p :: ps) = pass_len p + sum_len ps.
Proof. done. Qed.
Lemma sum_len_nonneg ps : Forall (fun p => 0 <= pass_len p) ps -> 0 <= sum_len ps.
Proof. induction 1 as [|p ps Hp _ IH]; [done|]. rewrite sum_len_cons. lia. Qed.
Lemma sum_len_app l k : sum_len (l ++ k) = sum_len l + sum_len k.
Proof. induction l as [|p l IH]; [done|]. rewrite <- app_comm_cons, !sum_len_cons. lia. Qed.

Lemma groups_take k : forall ps nump len,
  (1 <= k <= length ps)%nat -> 0 <= len -> Forall (fun p => 0 <= pass_len p) ps -> len + sum_len (take k ps) < 2 ^ 32 ->
  (forall i p, ps !! i = Some p -> (i < k - 1)%nat -> pass_term p = false) ->
  (k = length ps \/ exists p, ps !! (k - 1)%nat = Some p /\ pass_term p = true) ->
  groups ps nump len = (nump + Z.of_nat k, len + sum_len (take k ps)) :: groups (drop k ps) 0 0.
Proof.
  induction k as [|k IH]; intros ps nump len Hk Hlen Hps Hb Hno Hend; [lia|].
  destruct ps as [|p ps]; [simpl in Hk; lia|]. apply list.Forall_cons in Hps as [Hp Hps]. cbn [groups].
  change (take (S k) (p :: ps)) with (p :: take k ps) in *. rewrite sum_len_cons in *.
  assert (0 <= sum_len (take k ps)) as H0.
  { by apply sum_len_nonneg, Forall_take. }
  rewrite wrap_small by lia.
  destruct k as [|k].
  - replace (pass_term p || (length ps =? 0)%nat) with true.
    + change (drop 1 (p :: ps)) with ps. change (sum_len (take 0 ps)) with 0. do 2 f_equal; lia.
    + symmetry. destruct Hend as [Hend|(q & Hq & Ht)].
      * destruct ps; [apply orb_true_r|simpl in Hend; lia].
      * simpl in Hq. injection Hq as <-. by rewrite Ht.
  - assert (pass_term p = false) as Htp by (apply (Hno 0%nat p); [done|lia]).
    simpl in Hk. destruct (Nat.eqb_spec (length ps) 0) as [E0|]; [lia|]. rewrite Htp. simpl orb. cbn match.
    rewrite (IH ps); [|lia|lia|done|lia| |].
    + f_equal. f_equal; lia.
    + intros i q Hq Hi. apply (Hno (S i) q); [done|lia].
    + destruct Hend as [Hend|(q & Hq & Ht)]; [left; simpl in Hend; lia|right]. exists q. split; [|done].
      replace (S (S k) - 1)%nat with (S (S k - 1)) in Hq by lia. done.
Qed.

Lemma fits_segs_cons sty m room g gs : g.1 = room -> 1 <= room ->
  fits_segs sty (partOneMaxPasses sty m) (partOneMaxPasses sty m) gs -> fits_segs sty m room (g :: gs).
Proof. intros H1 H2 H3. destruct gs; [done|]. by split. Qed.

(** The flags of the block coder, for the passes of a layer that starts at pass
    [P] of the block. *)
Definition flags_ok (numbps sty P : Z) (ps : list CodePass) : Prop :=
  forall i p, ps !! i = Some p -> pass_term p = term_at numbps sty (P + Z.of_nat i).

Lemma groups_fit numbps sty : numbps <= 38 -> forall n ps P P0 prev,
  length ps = n -> (1 <= n)%nat -> seg_start sty P0 prev -> P0 <= P < P0 + partOneMaxPasses sty prev ->
  flags_ok numbps sty P ps -> Forall (fun p => 0 <= pass_len p) ps -> sum_len ps < 2 ^ 16 ->
  P + Z.of_nat n <= 3 * numbps - 2 ->
  fits_segs sty (partOneMaxPasses sty prev) (partOneMaxPasses sty prev - (P - P0)) (groups ps 0 0) /\
  sum_passes (groups ps 0 0) = Z.of_nat n /\ sum_bytes (groups ps 0 0) = sum_len ps /\
  Forall (fun g => 1 <= g.1 /\ 0 <= g.2 < 2 ^ 16) (groups ps 0 0).
Proof.
  intros Hbps n. induction (lt_wf n) as [n _ IH]. intros ps P P0 prev Hlen Hn Hs HP Hfl Hps Hsum Hend.
  set (m := partOneMaxPasses sty prev) in *. pose proof (sum_len_nonneg ps Hps) as H0.
  pose proof (partOneMaxPasses_pos sty prev) as Hm. fold m in Hm.
  set (k := Nat.min n (Z.to_nat (m - (P - P0)))).
  assert (sum_len ps = sum_len (take k ps) + sum_len (drop k ps)) as Hsp by (by rewrite <- sum_len_app, take_drop).
  assert (0 <= sum_len (take k ps)) as Ht0 by (by apply sum_len_nonneg, Forall_take).
  assert (0 <= sum_len (drop k ps)) as Hd0 by (by apply sum_len_nonneg, Forall_drop).
  assert (forall j, P <= j < P0 + m -> j < 3 * numbps - 3 -> term_at numbps sty j = (j =? P0 + m - 1)) as Hterm.
  { intros j Hj Hj2. apply (term_in_segment numbps sty P0 prev); try done; lia. }
  rewrite (groups_take k); [|lia|lia|done|lia| |].
  2: { intros i p Hp Hi. rewrite (Hfl i p Hp). rewrite Hterm by lia. apply Z.eqb_neq. lia. }
  2: { destruct (Nat.le_gt_cases n (Z.to_nat (m - (P - P0)))); [left; lia|right].
       destruct (lookup_lt_is_Some_2 ps (k - 1)) as [p Hp]; [lia|]. exists p. split; [done|].
       rewrite (Hfl _ p Hp), Hterm by lia. apply Z.eqb_eq. lia. }
  rewrite Z.add_0_l, Z.add_0_l.
  destruct (Nat.le_gt_cases n (Z.to_nat (m - (P - P0)))) as [Hle|Hgt].
  - assert (drop k ps = []) as -> by (apply drop_ge; lia). cbn [groups]. rewrite take_ge in * by lia.
    assert (k = n) as -> by lia. cbn [sum_passes sum_bytes foldr fst snd fits_segs]. split; [simpl; lia|]. split; [lia|]. split; [lia|].
    constructor; [simpl; lia|constructor].
  - assert (k = Z.to_nat (m - (P - P0))) as Ek by lia.
    destruct (IH (n - k)%nat ltac:(lia) (drop k ps) (P0 + m) (P0 + m) m) as (I1 & I2 & I3 & I4).
    + rewrite length_drop. lia.
    + lia.
    + apply (seg_start_next sty P0 prev Hs).
    + pose proof (partOneMaxPasses_pos sty m). lia.
    + intros i p Hp. rewrite lookup_drop in Hp. rewrite (Hfl _ p Hp). f_equal. lia.
    + by apply Forall_drop.
    + lia.
    + lia.
    + rewrite Z.sub_diag, Z.sub_0_r in I1. split; [apply fits_segs_cons; [simpl; lia|lia|exact I1]|].
      cbn [sum_passes sum_bytes foldr fst snd]. fold (sum_passes (groups (drop k ps) 0 0)) (sum_bytes (groups (drop k ps) 0 0)).
      split; [lia|]. split; [lia|]. constructor; [simpl; lia|exact I4].
Qed.

(** ** The parser's loop *)

Lemma back_seg_app l g c : segs_ c = l ++ [g] -> back_seg c = g.
Proof.
  intros Hs. unfold back_seg. rewrite Hs, length_app. simpl. apply nthZ_lookup.
  replace (Z.to_nat (Z.of_nat (length l + 1) - 1)) with (length l) by lia. by apply list_lookup_middle.
Qed.
Lemma set_back_seg_app l g g' c : segs_ c = l ++ [g] -> set_back_seg g' c = set_segs (l ++ [g']) c.
Proof.
  intros Hs. unfold set_back_seg. rewrite Hs, length_app. simpl. f_equal.
  replace (length l + 1 - 1)%nat with (length l) by lia. rewrite insert_app_r_alt, Nat.sub_diag by lia. done.
Qed.

Lemma readLength_gets bits len (r r' : BitIO St) :
  0 <= bits <= 16 -> 0 <= len < 2 ^ bits -> gets r (bits_of len (Z.to_nat bits)) r' -> readLength bits r = hok (len, r').
Proof.
  intros Hb Hl Hg. unfold readLength, maxSegmentLengthBits. destruct (Z.ltb_spec 16 bits); [lia|].
  rewrite (read_bits_of 32 bits len r r') by (done || lia). cbn [hbio hbind].
  assert (len < 2 ^ 16) by (eapply Z.lt_le_trans; [apply Hl|apply Z.pow_le_mono_r; lia]).
  unfold UINT16_MAX. destruct (Z.ltb_spec 65535 len); [lia|done].
Qed.

(** A segment of the parser with the contribution of a layer. *)
Definition fresh_segment (n : nat) (m : Z) : Segment := mkSegment 0 0 m (replicate n 0) 0 (replicate n 0) [].
Fixpoint contributed (n : nat) (sty layno prev : Z) (gs : list (Z * Z)) : list Segment :=
  match gs with
  | [] => []
  | g :: gs => recordLayerContribution layno g.1 g.2 (fresh_segment n (partOneMaxPasses sty prev))
               :: contributed n sty layno (partOneMaxPasses sty prev) gs
  end.

Lemma newSegment_app sty l g c : segs_ c = l ++ [g] ->
  newSegment sty c = set_segs (l ++ [g] ++ [fresh_segment (cd_numLayers c) (partOneMaxPasses sty (maxPasses_ g))]) c.
Proof.
  intros Hs. unfold newSegment. rewrite (back_seg_app l g c Hs). unfold push_segment. rewrite Hs.
  destruct (l ++ [g]) eqn:E; [by destruct l|]. rewrite <- E, <- app_assoc. done.
Qed.

Lemma read_segments_spec sty layno : forall gs fuel c pre g remaining dataBytes (r r' : BitIO St),
  segs_ c = pre ++ [g] -> fits_segs sty (maxPasses_ g) (maxPasses_ g - headerTotalPasses_ g) gs ->
  remaining = sum_passes gs -> (length gs <= fuel)%nat -> 0 <= headerTotalPasses_ g -> maxPasses_ g <= 112 ->
  headerTotalPasses_ g + remaining <= 112 \/ maxPasses_ g < 112 ->
  Forall (fun x => 1 <= x.1 /\ 0 <= x.2 < 2 ^ 16) gs -> 0 <= cd_numlenbits c ->
  Forall (fun x => cd_numlenbits c + floorlog2 x.1 <= 16 /\ x.2 < 2 ^ (cd_numlenbits c + floorlog2 x.1)) gs ->
  0 <= dataBytes -> dataBytes + sum_bytes gs < 2 ^ 32 -> remaining <= 112 ->
  gets r (mjoin (len_code (cd_numlenbits c) <$> gs)) r' ->
  read_segments_loop fuel layno sty remaining dataBytes c r =
    hok (dataBytes + sum_bytes gs,
         match gs with
         | x :: gs => set_segs (pre ++ recordLayerContribution layno x.1 x.2 g :: contributed (cd_numLayers c) sty layno (maxPasses_ g) gs) c
         | [] => c
         end, r').
Proof.
  induction gs as [|x gs IH]; intros fuel c pre g remaining dataBytes r r' Hc Hfit Hrem Hfuel Hh Hm Hlim Hrange Hnl Hw Hdb Hsum Hr112 Hg; [done|].
  destruct fuel as [|fuel]; [simpl in Hfuel; lia|]. cbn [read_segments_loop].
  rewrite (back_seg_app pre g c Hc).
  apply list.Forall_cons in Hrange as [[Hx1 Hx2] Hrange]. apply list.Forall_cons in Hw as [[Hw1 Hw2] Hw].
  unfold sum_passes in Hrem. cbn [foldr] in Hrem. fold (sum_passes gs) in Hrem.
  unfold sum_bytes in Hsum |- *. cbn [foldr] in Hsum |- *. fold (sum_bytes gs) in Hsum |- *.
  assert (0 <= sum_passes gs /\ 0 <= sum_bytes gs /\ (gs <> [] -> 1 <= sum_passes gs)) as (Hsp0 & Hsb0 & Hsp1).
  { clear -Hrange. induction Hrange as [|y l [H1 H2] _ (I1 & I2 & _)]; [done|]. unfold sum_passes, sum_bytes in *. simpl. lia. }
  assert (x.1 <= maxPasses_ g - headerTotalPasses_ g /\ (gs <> [] -> x.1 = maxPasses_ g - headerTotalPasses_ g /\
     fits_segs sty (partOneMaxPasses sty (maxPasses_ g)) (partOneMaxPasses sty (maxPasses_ g)) gs)) as [Hxm Hmore].
  { destruct gs as [|y gs]; [split; [apply Hfit|done]|]. destruct Hfit as (E1 & E2 & E3). split; [lia|]. done. }
  unfold maxPassesPerSegmentJ2K, maxPrecisionJ2K. change ((38 - 1) * 3 + 1) with 112.
  assert ((maxPasses_ g =? 112) && (112 <? remaining) = false) as ->.
  { destruct (Z.ltb_spec 112 remaining); [lia|]. apply andb_false_r. }
  assert ((if maxPasses_ g =? 112 then remaining else Z.min (u8 (maxPasses_ g - headerTotalPasses_ g)) remaining) = x.1) as ->.
  { rewrite (wrap_small 8) by (simpl; lia). destruct (Z.eqb_spec (maxPasses_ g) 112) as [E|E].
    - destruct gs as [|y gs]; [unfold sum_passes in Hrem; simpl in Hrem; lia|].
      destruct (Hmore ltac:(done)) as [E1 _]. specialize (Hsp1 ltac:(done)). lia.
    - destruct gs as [|y gs]; [unfold sum_passes in Hrem; simpl in Hrem; lia|].
      destruct (Hmore ltac:(done)) as [E1 _]. lia. }
  destruct (Z.ltb_spec remaining x.1); [lia|].
  csimpl in Hg. apply gets_app in Hg as (r1 & Hg1 & Hg2). unfold len_code at 1 in Hg1.
  pose proof (floorlog2_bound x.1 ltac:(lia)) as [Hlog _].
  rewrite (wrap_small 8) in Hg1 by (simpl; lia). rewrite (wrap_small 8) by (simpl; lia).
  rewrite (readLength_gets _ x.2 r r1) by (done || lia). cbn [hbind hok].
  rewrite (set_back_seg_app pre g _ c Hc). rewrite (wrap_small 16) by lia. rewrite (wrap_small 32) by lia.
  destruct (Z.ltb_spec 0 (remaining - x.1)) as [Hmo|Hmo].
  - destruct gs as [|y gs]; [unfold sum_passes in Hrem; simpl in Hrem; lia|].
    destruct (Hmore ltac:(done)) as [E1 E2].
    erewrite newSegment_app by reflexivity. cbn [segs_ set_segs cd_numLayers maxPasses_ recordLayerContribution].
    rewrite (IH fuel _ (pre ++ [recordLayerContribution layno x.1 x.2 g]) (fresh_segment (cd_numLayers c) (partOneMaxPasses sty (maxPasses_ g)))
               (remaining - x.1) (dataBytes + x.2) r1 r').
    + cbn [maxPasses_ fresh_segment cd_numLayers set_segs]. unfold hok. do 2 f_equal. f_equal. f_equal; [lia|].
      unfold set_segs. simpl. rewrite <- app_assoc. done.
    + cbn [segs_ set_segs]. by rewrite <- app_assoc.
    + cbn [maxPasses_ headerTotalPasses_ fresh_segment]. by rewrite Z.sub_0_r.
    + lia.
    + simpl in Hfuel. simpl. lia.
    + simpl. lia.
    + cbn. apply partOneMaxPasses_pos.
    + cbn. left. lia.
    + done.
    + done.
    + done.
    + lia.
    + lia.
    + lia.
    + exact Hg2.
  - destruct gs as [|y gs]; [|specialize (Hsp1 ltac:(done)); lia].
    apply gets_nil in Hg2 as ->. unfold hok. cbn [sum_bytes foldr contributed]. rewrite Z.add_0_r. done.
Qed.

(** ** The header of one code block *)

(** The parser has read [P] passes of the block. *)
Definition header_at (sty P : Z) (segs : list Segment) : Prop :=
  (segs = [] /\ P = 0) \/
  exists pre g P0 prev, segs = pre ++ [g] /\ seg_start sty P0 prev /\ maxPasses_ g = partOneMaxPasses sty prev /\
    headerTotalPasses_ g = P - P0 /\ 1 <= P - P0 <= maxPasses_ g.

(** The segments after a layer. *)
Definition layer_segs (n : nat) (sty layno : Z) (segs : list Segment) (gs : list (Z * Z)) : list Segment :=
  match reverse segs with
  | [] => contributed n sty layno 0 gs
  | g :: pre =>
      if headerTotalPasses_ g =? maxPasses_ g then segs ++ contributed n sty layno (maxPasses_ g) gs
      else match gs with
           | x :: gs => reverse pre ++ recordLayerContribution layno x.1 x.2 g :: contributed n sty layno (maxPasses_ g) gs
           | [] => segs
           end
  end.
Definition read_block (sty layno n inc : Z) (gs : list (Z * Z)) (c : CodeblockDecompress) : CodeblockDecompress :=
  set_segs (layer_segs (cd_numLayers c) sty layno (segs_ c) gs)
    (cd_setNumLenBits (cd_numlenbits c + inc) (set_signalled (<[Z.to_nat layno := n]> (cd_signalledPassesByLayer c)) c)).

Lemma layer_segs_app n sty layno pre g gs : layer_segs n sty layno (pre ++ [g]) gs =
  if headerTotalPasses_ g =? maxPasses_ g then (pre ++ [g]) ++ contributed n sty layno (maxPasses_ g) gs
  else match gs with
       | x :: gs => pre ++ recordLayerContribution layno x.1 x.2 g :: contributed n sty layno (maxPasses_ g) gs
       | [] => pre ++ [g]
       end.
Proof. unfold layer_segs. rewrite reverse_app. simpl. by rewrite reverse_involutive. Qed.

Lemma set_segs_twice a b c : set_segs a (set_segs b c) = set_segs a c.
Proof. done. Qed.

Definition block_code (nl n inc : Z) (gs : list (Z * Z)) : list bool :=
  numpasses_code n ++ commacode inc ++ mjoin (len_code (nl + inc) <$> gs).

Lemma sum_passes_ge gs : Forall (fun x : Z * Z => 1 <= x.1 /\ 0 <= x.2 < 2 ^ 16) gs -> Z.of_nat (length gs) <= sum_passes gs.
Proof.
  induction 1 as [|x gs [H1 _] _ IH]; [done|]. unfold sum_passes. cbn [foldr length]. fold (sum_passes gs). lia.
Qed.

Lemma readPacketHeader_spec numbps sty layno P ps inc c dataBytes (r r' : BitIO St) :
  let gs := groups ps 0 0 in let n := Z.of_nat (length ps) in
  numbps <= 38 -> (1 <= length ps)%nat -> flags_ok numbps sty P ps -> Forall (fun p => 0 <= pass_len p) ps -> sum_len ps < 2 ^ 16 ->
  P + n <= 3 * numbps - 2 -> has sty GRK_CBLKSTY_HT_ONLY = false -> htState_ c = HT_none ->
  header_at sty P (segs_ c) -> 0 <= inc -> 0 <= cd_numlenbits c -> cd_numlenbits c + inc <= 64 ->
  Forall (fun x => cd_numlenbits c + inc + floorlog2 x.1 <= 16 /\ x.2 < 2 ^ (cd_numlenbits c + inc + floorlog2 x.1)) gs ->
  0 <= dataBytes -> dataBytes + sum_len ps < 2 ^ 32 -> wf_reader r ->
  gets r (block_code (cd_numlenbits c) n inc gs) r' ->
  readPacketHeader layno sty dataBytes c r = hok (dataBytes + sum_len ps, read_block sty layno n inc gs c, r').
Proof.
  intros gs n Hbps Hn Hfl Hps Hsum Hend Hht Hst Hat Hinc Hnl Hnl2 Hw Hdb Hdb2 Hwf Hg.
  apply gets_app in Hg as (r1 & Hg1 & Hg). apply gets_app in Hg as (r2 & Hg2 & Hg3).
  assert (1 <= n <= 112) as Hn112.
  { destruct Hat as [[_ ->]|(pre & g & P0 & prev & _ & Hss & _ & _ & HP)]; [lia|].
    assert (0 <= P0); [|lia]. clear -Hss. induction Hss as [|P prev _ IH]; [lia|]. pose proof (partOneMaxPasses_pos sty prev). lia. }
  unfold readPacketHeader. rewrite (getnumpasses_gets n r r1) by (done || lia). cbn [hbio hbind].
  rewrite (getcommacode_gets inc r1 r2); [|by eapply gets_progress|lia|done]. cbn [hbio_opt hbio hbind].
  rewrite Hht, andb_false_r. cbn [htState_ cd_setNumLenBits set_signalled segs_]. rewrite Hst.
  cbn [cd_numlenbits set_signalled]. set (c1 := cd_setNumLenBits _ _).
  assert (cd_numlenbits c1 = cd_numlenbits c + inc) as Hnl1 by (unfold c1; simpl; apply wrap_small; simpl; lia).
  destruct Hat as [[Hs HP]|(pre & g & P0 & prev & Hs & Hss & Hm & Hh & HP)].
  - destruct (groups_fit numbps sty Hbps (length ps) ps P 0 0 eq_refl Hn (seg_start_first sty)) as (F1 & F2 & F3 & F4);
      [pose proof (partOneMaxPasses_pos sty 0); lia|done|done|done|lia|]. fold gs in F1, F2, F3, F4.
    rewrite HP, Z.sub_diag, Z.sub_0_r in F1. pose proof (partOneMaxPasses_pos sty 0) as Hmp.
    rewrite Hs. cbn [length Nat.eqb orb].
    set (c2 := newSegment sty c1).
    assert (c2 = set_segs ([] ++ [fresh_segment (cd_numLayers c) (partOneMaxPasses sty 0)]) c1) as Hc2.
    { unfold c2, newSegment, push_segment. cbn [segs_ c1 cd_setNumLenBits set_signalled]. rewrite Hs. done. }
    rewrite Hc2.
    rewrite (read_segments_spec sty layno gs _ _ [] (fresh_segment (cd_numLayers c) (partOneMaxPasses sty 0)) n dataBytes r2 r');
      cbn [segs_ set_segs maxPasses_ headerTotalPasses_ fresh_segment cd_numlenbits]; rewrite ?Hnl1, ?F3; try done; try lia.
    + unfold read_block. rewrite Hs. clear -F1. destruct gs as [|x gs']; [done|]. reflexivity.
    + by rewrite Z.sub_0_r.
    + pose proof (sum_passes_ge gs F4). unfold n in *. lia.
  - assert (P0 <= P) as HPP by lia. pose proof (partOneMaxPasses_pos sty prev) as Hmp.
    rewrite Hs, length_app. destruct (Nat.eqb_spec (length pre + length [g]) 0) as [E0|_]; [simpl in E0; lia|]. cbn [orb].
    assert (back_seg c1 = g) as -> by (apply (back_seg_app pre); done).
    destruct (Z.eqb_spec (headerTotalPasses_ g) (maxPasses_ g)) as [E|E].
    + pose proof (seg_start_next sty P0 prev Hss) as Hss'. rewrite <- Hm in Hss'.
      assert (P = P0 + maxPasses_ g) as HPe by lia.
      destruct (groups_fit numbps sty Hbps (length ps) ps P _ _ eq_refl Hn Hss') as (F1 & F2 & F3 & F4);
        [pose proof (partOneMaxPasses_pos sty (maxPasses_ g)); lia|done|done|done|lia|]. fold gs in F1, F2, F3, F4.
      rewrite <- HPe, Z.sub_diag, Z.sub_0_r in F1.
      pose proof (partOneMaxPasses_pos sty (maxPasses_ g)) as Hmp'.
      rewrite (newSegment_app sty pre g c1) by done. rewrite app_assoc.
      rewrite (read_segments_spec sty layno gs _ _ (pre ++ [g]) (fresh_segment (cd_numLayers c1) (partOneMaxPasses sty (maxPasses_ g))) n dataBytes r2 r');
        cbn [segs_ set_segs maxPasses_ headerTotalPasses_ fresh_segment cd_numlenbits]; rewrite ?Hnl1, ?F3; try done; try lia.
      * unfold read_block. rewrite Hs, layer_segs_app, (proj2 (Z.eqb_eq _ _) E). clear -F1. destruct gs as [|x gs']; [done|]. reflexivity.
      * by rewrite Z.sub_0_r.
      * pose proof (sum_passes_ge gs F4). unfold n in *. lia.
    + destruct (groups_fit numbps sty Hbps (length ps) ps P P0 prev eq_refl Hn Hss) as (F1 & F2 & F3 & F4);
        [lia|done|done|done|lia|]. fold gs in F1, F2, F3, F4. rewrite <- Hm in F1. rewrite <- Hh in F1.
      rewrite (read_segments_spec sty layno gs _ c1 pre g n dataBytes r2 r'); rewrite ?Hnl1, ?F3; try done; try lia.
      * unfold read_block. rewrite Hs, layer_segs_app, (proj2 (Z.eqb_neq _ _) E). clear -F1. destruct gs as [|x gs']; [done|]. reflexivity.
      * pose proof (sum_passes_ge gs F4). unfold n in *. lia.
      * left. assert (0 <= P0); [|lia]. clear -Hss. induction Hss as [|P prev _ IH]; [lia|]. pose proof (partOneMaxPasses_pos sty prev). lia.
Qed.

(** ** Segments in step with the data *)

Definition seg_ok (nL : nat) (g : Segment) : Prop :=
  totalPasses_ g = headerTotalPasses_ g /\ 0 <= totalPasses_ g /\
  length (calculatedPassesInLayer_ g) = nL /\ length (signalledBytesInLayer_ g) = nL /\
  totalBytes_ g = Z.of_nat (length (mjoin (data_chunks_ g))).

Definition seg_data (l : list Segment) : list Z := mjoin ((fun g => mjoin (data_chunks_ g)) <$> l).
Definition seg_passes (l : list Segment) : Z := foldr (fun g s => totalPasses_ g + s) 0 l.

(** What [parsePacketData] makes of a segment that a layer contributes to. *)
Definition absorb (layno : Z) (data : list Z) (off : Z) (g : Segment) : Segment :=
  mkSegment (u8 (totalPasses_ g + passes_in layno g)) (headerTotalPasses_ g) (maxPasses_ g) (calculatedPassesInLayer_ g)
    (totalBytes_ g + bytes_in layno g) (signalledBytesInLayer_ g)
    (if bytes_in layno g =? 0 then data_chunks_ g
     else data_chunks_ g ++ [take (Z.to_nat (bytes_in layno g)) (drop (Z.to_nat off) data)]).
Fixpoint absorb_all (layno : Z) (data : list Z) (off : Z) (l : list Segment) : list Segment :=
  match l with
  | [] => []
  | g :: l => absorb layno data off g :: absorb_all layno data (off + bytes_in layno g) l
  end.
Definition layer_passes_of (layno : Z) (l : list Segment) : Z := foldr (fun g s => passes_in layno g + s) 0 l.
Definition layer_bytes_of (layno : Z) (l : list Segment) : Z := foldr (fun g s => bytes_in layno g + s) 0 l.

Definition absorbable (layno : Z) (g : Segment) : Prop :=
  1 <= passes_in layno g /\ 0 <= bytes_in layno g /\ totalBytes_ g + bytes_in layno g < 2 ^ 32.

Lemma seg_at_middle c pre g post : segs_ c = pre ++ g :: post -> seg_at (length pre) c = g.
Proof. intros Hs. unfold seg_at. apply nthZ_lookup. rewrite Hs, Nat2Z.id. by apply list_lookup_middle. Qed.

Lemma parse_loop_spec layno data : forall rest pre c avail off fuel passes,
  segs_ c = pre ++ rest -> rest <> [] -> numDataParsedSegments_ c = S (length pre) ->
  passes = layer_passes_of layno rest -> passes < 256 -> Forall (absorbable layno) rest ->
  layer_bytes_of layno rest <= avail -> 0 <= off -> off + layer_bytes_of layno rest < 2 ^ 32 -> (length rest <= fuel)%nat ->
  exists c', parse_loop fuel layno false data (length pre) passes (mkPS c avail off) =
      hok (mkPS c' (avail - layer_bytes_of layno rest) (off + layer_bytes_of layno rest)) /\
    c' = set_numDataParsed (length (pre ++ rest)) (set_segs (pre ++ absorb_all layno data off rest) c).
Proof.
  induction rest as [|g rest IH]; intros pre c avail off fuel passes Hc Hne Hnd Hp Hp256 Hok Hav Hoff Hoff2 Hf; [done|].
  destruct fuel as [|fuel]; [simpl in Hf; lia|]. cbn [parse_loop ps_cblk ps_remaining ps_offset].
  rewrite (seg_at_middle c pre g rest Hc).
  apply list.Forall_cons in Hok as [(Hg1 & Hg2 & Hg3) Hok].
  unfold layer_passes_of in Hp. unfold layer_bytes_of in *. cbn [foldr] in *.
  fold (layer_passes_of layno rest) in Hp. fold (layer_bytes_of layno rest) in *.
  assert (0 <= layer_passes_of layno rest /\ 0 <= layer_bytes_of layno rest /\ (rest <> [] -> 1 <= layer_passes_of layno rest)) as (H0 & H1 & H2).
  { clear -Hok. induction Hok as [|x l (A & B & C) _ (I1 & I2 & _)]; [done|]. unfold layer_passes_of, layer_bytes_of in *. simpl. lia. }
  destruct (Z.ltb_spec avail (bytes_in layno g)); [lia|].
  assert (negb (bytes_in layno g =? 0) && (UINT32_MAX - bytes_in layno g <? totalBytes_ g) = false) as ->.
  { unfold UINT32_MAX. destruct (Z.ltb_spec (4294967295 - bytes_in layno g) (totalBytes_ g)); [lia|]. apply andb_false_r. }
  rewrite (wrap_small 8 (passes - _)) by (simpl; lia). rewrite (wrap_small 32) by lia.
  assert (<[length pre := absorb layno data off g]> (segs_ c) = pre ++ absorb layno data off g :: rest) as Hins.
  { rewrite Hc, insert_app_r_alt, Nat.sub_diag by lia. done. }
  fold (absorb layno data off g). rewrite Hins. cbn [ps_remaining ps_offset].
  destruct (Z.ltb_spec 0 (passes - passes_in layno g)) as [Hmo|Hmo].
  - destruct rest as [|g2 rest]; [unfold layer_passes_of in Hp; simpl in Hp; lia|].
    unfold nextDataParsedSegment. cbn [segs_ set_segs numDataParsedSegments_]. rewrite Hnd, length_app.
    cbn [length]. destruct (Nat.leb_spec (length pre + S (S (length rest))) (S (length pre))); [lia|].
    set (c1 := set_numDataParsed _ _).
    destruct (IH (pre ++ [absorb layno data off g]) c1 (avail - bytes_in layno g) (off + bytes_in layno g) fuel (passes - passes_in layno g))
      as (c' & E & Hc'); try done.
    + unfold c1. simpl. by rewrite <- app_assoc.
    + unfold c1. simpl. rewrite length_app. simpl. lia.
    + lia.
    + lia.
    + lia.
    + lia.
    + lia.
    + simpl in Hf |- *. lia.
    + rewrite length_app in E. simpl (length [_]) in E. rewrite Nat.add_1_r in E. rewrite E.
      exists c'. split.
      * unfold hok. do 3 f_equal; lia.
      * rewrite Hc'. unfold c1. cbn [absorb_all]. rewrite <- !app_assoc. unfold set_numDataParsed, set_segs. simpl.
        f_equal. rewrite !length_app. simpl. lia.
  - destruct rest as [|g2 rest]; [|specialize (H2 ltac:(done)); lia]. eexists. split.
    + unfold hok. do 3 f_equal. unfold layer_bytes_of. simpl. lia. unfold layer_bytes_of. simpl. lia.
    + cbn [absorb_all]. unfold set_numDataParsed, set_segs. simpl. f_equal. rewrite length_app. simpl. lia.
Qed.

(** ** A layer seen by the header, then by the data *)

Definition same_header (a b : Segment) : Prop := maxPasses_ a = maxPasses_ b /\ headerTotalPasses_ a = headerTotalPasses_ b.
Lemma header_at_same sty P s s' : Forall2 same_header s s' -> header_at sty P s -> header_at sty P s'.
Proof.
  intros Hf [[-> HP]|(pre & g & P0 & prev & -> & H1 & H2 & H3 & H4)].
  { left. inversion Hf. done. }
  apply Forall2_app_inv_l in Hf as (pre' & k & Hpre & Hk & ->). inversion Hk as [|? g' ? l' [E1 E2] Hl]; subst. inversion Hl; subst.
  right. exists pre', g', P0, prev. rewrite <- E1, <- E2. done.
Qed.
Lemma absorb_all_same layno data l : forall off, Forall2 same_header l (absorb_all layno data off l).
Proof. induction l as [|g l IH]; intros off; constructor; [done|apply IH]. Qed.
Lemma Forall2_same_refl l : Forall2 same_header l l.
Proof. induction l; by constructor. Qed.

Abbreviation in_range gs := (Forall (fun x : Z * Z => 1 <= x.1 < 256 /\ 0 <= x.2 < 2 ^ 16) gs).

Lemma fits_segs_cases sty m room x gs : fits_segs sty m room (x :: gs) ->
  1 <= x.1 <= room /\ (gs = [] \/ (gs <> [] /\ x.1 = room /\ fits_segs sty (partOneMaxPasses sty m) (partOneMaxPasses sty m) gs)).
Proof. destruct gs as [|y gs]; [intros H; split; [done|by left]|]. intros (H1 & H2 & H3). split; [lia|right]. done. Qed.

Lemma contributed_header_at nL sty layno gs : forall P prev pre,
  seg_start sty P prev -> fits_segs sty (partOneMaxPasses sty prev) (partOneMaxPasses sty prev) gs -> in_range gs ->
  header_at sty (P + sum_passes gs) (pre ++ contributed nL sty layno prev gs).
Proof.
  induction gs as [|x gs IH]; intros P prev pre Hs Hfit Hr; [done|]. apply list.Forall_cons in Hr as [[Hx _] Hr].
  apply fits_segs_cases in Hfit as [Hx2 Hcase]. cbn [contributed]. set (m := partOneMaxPasses sty prev) in *.
  set (g := recordLayerContribution layno x.1 x.2 (fresh_segment nL m)).
  unfold sum_passes. cbn [foldr]. fold (sum_passes gs).
  assert (headerTotalPasses_ g = x.1) as Hh by (unfold g; simpl; apply wrap_small; simpl; lia).
  destruct Hcase as [->|(Hne & Hxm & Hfit)].
  - right. exists pre, g, P, prev. split; [done|]. split; [done|]. split; [done|]. rewrite Hh. unfold sum_passes. simpl. split; [lia|].
    fold m. lia.
  - replace (pre ++ g :: contributed nL sty layno m gs) with ((pre ++ [g]) ++ contributed nL sty layno m gs) by (by rewrite <- app_assoc).
    replace (P + (x.1 + sum_passes gs)) with ((P + m) + sum_passes gs) by lia.
    apply IH; [apply (seg_start_next sty P prev Hs)|done|done].
Qed.

Lemma seg_start_nonneg sty P prev : seg_start sty P prev -> 0 <= P.
Proof. induction 1 as [|P prev _ IH]; [lia|]. pose proof (partOneMaxPasses_pos sty prev). lia. Qed.

(** The part of the segment list a layer contributes to. *)
Lemma layer_segs_split nL sty layno P segs gs :
  header_at sty P segs -> in_range gs -> gs <> [] ->
  (forall P0 prev g pre, segs = pre ++ [g] -> seg_start sty P0 prev -> maxPasses_ g = partOneMaxPasses sty prev ->
     headerTotalPasses_ g = P - P0 ->
     if P - P0 =? maxPasses_ g then fits_segs sty (partOneMaxPasses sty (maxPasses_ g)) (partOneMaxPasses sty (maxPasses_ g)) gs
     else fits_segs sty (maxPasses_ g) (maxPasses_ g - (P - P0)) gs) ->
  (segs = [] -> fits_segs sty (partOneMaxPasses sty 0) (partOneMaxPasses sty 0) gs) ->
  header_at sty (P + sum_passes gs) (layer_segs nL sty layno segs gs) /\
  exists pre rest, layer_segs nL sty layno segs gs = pre ++ rest /\
    (segs = pre /\ (exists prev, rest = contributed nL sty layno prev gs) /\
       (pre <> [] -> headerTotalPasses_ (nthZ (Segment_new 0) pre (Z.of_nat (length pre) - 1)) = maxPasses_ (nthZ (Segment_new 0) pre (Z.of_nat (length pre) - 1)))
     \/ exists g x gs', segs = pre ++ [g] /\ gs = x :: gs' /\ headerTotalPasses_ g <> maxPasses_ g /\
         rest = recordLayerContribution layno x.1 x.2 g :: contributed nL sty layno (maxPasses_ g) gs').
Proof.
  intros Hat Hr Hne Hfit Hfit0. destruct Hat as [[-> ->]|(pre & g & P0 & prev & -> & Hs & Hm & Hh & HP)].
  - split; [apply (contributed_header_at nL sty layno gs 0 0 []); [apply seg_start_first|by apply Hfit0|done]|].
    exists [], (contributed nL sty layno 0 gs). split; [done|]. left. split; [done|]. split; [by eexists|done].
  - specialize (Hfit P0 prev g pre eq_refl Hs Hm Hh). rewrite layer_segs_app, <- Hh in *.
    destruct (Z.eqb_spec (headerTotalPasses_ g) (maxPasses_ g)) as [E|E].
    + split.
      * replace P with (P0 + maxPasses_ g) by lia. apply contributed_header_at; [|done|done]. rewrite Hm. by apply seg_start_next.
      * eexists _, _. split; [reflexivity|]. left. split; [done|]. split; [by eexists|]. intros _.
        assert (nthZ (Segment_new 0) (pre ++ [g]) (Z.of_nat (length (pre ++ [g])) - 1) = g) as ->; [|done].
        apply nthZ_lookup. rewrite length_app. simpl. replace (Z.to_nat _) with (length pre) by lia. by apply list_lookup_middle.
    + destruct gs as [|x gs]; [done|]. apply list.Forall_cons in Hr as [[Hx _] Hr].
      apply fits_segs_cases in Hfit as [Hx2 Hcase]. pose proof (partOneMaxPasses_pos sty prev) as Hmp.
      assert (headerTotalPasses_ (recordLayerContribution layno x.1 x.2 g) = P - P0 + x.1) as Hh'.
      { simpl. rewrite wrap_small; [lia|]. simpl. lia. }
      unfold sum_passes. cbn [foldr]. fold (sum_passes gs). split.
      * destruct Hcase as [->|(Hne' & Hxm & Hfit)].
        -- right. exists pre, (recordLayerContribution layno x.1 x.2 g), P0, prev.
           split; [done|]. split; [done|]. split; [done|]. rewrite Hh'. unfold sum_passes. simpl. lia.
        -- replace (pre ++ recordLayerContribution layno x.1 x.2 g :: contributed nL sty layno (maxPasses_ g) gs)
             with ((pre ++ [recordLayerContribution layno x.1 x.2 g]) ++ contributed nL sty layno (maxPasses_ g) gs) by (by rewrite <- app_assoc).
           replace (P + (x.1 + sum_passes gs)) with ((P0 + maxPasses_ g) + sum_passes gs) by lia.
           apply contributed_header_at; [|done|done]. rewrite Hm. by apply seg_start_next.
      * eexists pre, _. split; [reflexivity|]. right. exists g, x, gs. done.
Qed.

(** [r] is a segment that was in step with its data and has the contribution [x]. *)
Definition contribution (nL : nat) (layno : Z) (x : Z * Z) (r : Segment) : Prop :=
  exists g, seg_ok nL g /\ r = recordLayerContribution layno x.1 x.2 g /\
    totalPasses_ g + x.1 < 256 /\ totalBytes_ g + x.2 < 2 ^ 32.

Lemma contributed_contribution nL sty layno gs : in_range gs -> forall prev,
  Forall2 (contribution nL layno) gs (contributed nL sty layno prev gs) /\
  Forall (fun r => data_chunks_ r = [] /\ totalPasses_ r = 0) (contributed nL sty layno prev gs).
Proof.
  induction 1 as [|x gs [H1 H2] _ IH]; intros prev; cbn [contributed]; [split; constructor|].
  destruct (IH (partOneMaxPasses sty prev)) as [I1 I2]. split; constructor; try done.
  exists (fresh_segment nL (partOneMaxPasses sty prev)). split; [|split; [done|simpl; lia]].
  repeat split; simpl; try lia; by rewrite length_replicate.
Qed.

Section Absorb.
Context (nL : nat) (layno : Z) (data : list Z).
Hypothesis Hlay : 0 <= layno < Z.of_nat nL.

Lemma contribution_in x r : contribution nL layno x r -> 1 <= x.1 < 256 -> 0 <= x.2 < 2 ^ 16 ->
  passes_in layno r = x.1 /\ bytes_in layno r = x.2 /\ absorbable layno r.
Proof.
  intros (g & (Hg1 & Hg2 & Hg3 & Hg4 & Hg5) & -> & Hb1 & Hb2) Hx1 Hx2.
  assert (passes_in layno (recordLayerContribution layno x.1 x.2 g) = x.1) as E1.
  { unfold passes_in. apply nthZ_lookup. simpl. apply list_lookup_insert_eq. lia. }
  assert (bytes_in layno (recordLayerContribution layno x.1 x.2 g) = x.2) as E2.
  { unfold bytes_in. apply nthZ_lookup. simpl. rewrite wrap_small by lia. apply list_lookup_insert_eq. lia. }
  split; [done|]. split; [done|]. unfold absorbable. rewrite E1, E2. simpl. lia.
Qed.

Lemma contributions_in gs rest : Forall2 (contribution nL layno) gs rest -> in_range gs ->
  layer_passes_of layno rest = sum_passes gs /\ layer_bytes_of layno rest = sum_bytes gs /\ Forall (absorbable layno) rest.
Proof.
  induction 1 as [|x r gs rest Hx _ IH]; intros Hr; [done|]. apply list.Forall_cons in Hr as [[Hr1 Hr2] Hr].
  destruct (contribution_in x r Hx Hr1 Hr2) as (E1 & E2 & E3). destruct (IH Hr) as (I1 & I2 & I3).
  unfold layer_passes_of, layer_bytes_of, sum_passes, sum_bytes in *. cbn [foldr]. rewrite E1, E2, I1, I2.
  split; [done|]. split; [done|]. by constructor.
Qed.

Lemma absorb_ok x r off : contribution nL layno x r -> 1 <= x.1 < 256 -> 0 <= x.2 < 2 ^ 16 -> 0 <= off ->
  off + x.2 <= Z.of_nat (length data) ->
  seg_ok nL (absorb layno data off r) /\ totalPasses_ (absorb layno data off r) = totalPasses_ r + x.1 /\
  mjoin (data_chunks_ (absorb layno data off r)) = mjoin (data_chunks_ r) ++ take (Z.to_nat x.2) (drop (Z.to_nat off) data).
Proof.
  intros Hx Hx1 Hx2 Ho Hlen. destruct (contribution_in x r Hx Hx1 Hx2) as (E1 & E2 & _).
  destruct Hx as (g & (Hg1 & Hg2 & Hg3 & Hg4 & Hg5) & -> & Hb1 & Hb2).
  assert (mjoin (data_chunks_ (absorb layno data off (recordLayerContribution layno x.1 x.2 g))) =
            mjoin (data_chunks_ g) ++ take (Z.to_nat x.2) (drop (Z.to_nat off) data)) as Ed.
  { unfold absorb. cbn [data_chunks_]. rewrite E2. destruct (Z.eqb_spec x.2 0) as [E|E].
    - rewrite E. simpl. by rewrite app_nil_r.
    - cbn [data_chunks_ recordLayerContribution]. rewrite join_app. simpl. by rewrite app_nil_r. }
  assert (totalPasses_ (absorb layno data off (recordLayerContribution layno x.1 x.2 g)) = totalPasses_ g + x.1) as Ep.
  { unfold absorb. cbn [totalPasses_]. rewrite E1. cbn [totalPasses_ recordLayerContribution]. apply wrap_small. simpl. lia. }
  split; [|split; [exact Ep|exact Ed]]. split; [|split; [|split; [|split]]].
  - rewrite Ep. cbn [headerTotalPasses_ absorb recordLayerContribution]. rewrite wrap_small; [lia|]. simpl. lia.
  - lia.
  - cbn [calculatedPassesInLayer_ absorb recordLayerContribution]. by rewrite length_insert.
  - cbn [signalledBytesInLayer_ absorb recordLayerContribution]. by rewrite length_insert.
  - rewrite Ed, length_app, length_take, length_drop. cbn [totalBytes_ absorb]. rewrite E2. cbn [totalBytes_ recordLayerContribution]. lia.
Qed.

Lemma absorb_all_ok gs rest : Forall2 (contribution nL layno) gs rest -> in_range gs -> forall off, 0 <= off ->
  off + sum_bytes gs <= Z.of_nat (length data) ->
  Forall (seg_ok nL) (absorb_all layno data off rest) /\
  seg_passes (absorb_all layno data off rest) = seg_passes rest + sum_passes gs /\
  (Forall (fun r => data_chunks_ r = []) rest ->
     seg_data (absorb_all layno data off rest) = take (Z.to_nat (sum_bytes gs)) (drop (Z.to_nat off) data)).
Proof.
  induction 1 as [|x r gs rest Hx _ IH]; intros Hr off Ho Hlen; [split; [constructor|split; done]|].
  apply list.Forall_cons in Hr as [[Hr1 Hr2] Hr]. destruct (contribution_in x r Hx Hr1 Hr2) as (E1 & E2 & _).
  unfold sum_bytes in Hlen. cbn [foldr] in Hlen. fold (sum_bytes gs) in Hlen.
  assert (0 <= sum_bytes gs) as Hs0.
  { clear -Hr. induction Hr as [|y l [_ A] _ I]; [done|]. unfold sum_bytes in *. simpl. lia. }
  destruct (absorb_ok x r off Hx Hr1 Hr2 Ho) as (A1 & A2 & A3); [lia|].
  cbn [absorb_all]. rewrite E2. destruct (IH Hr (off + x.2)) as (I1 & I2 & I3); [lia|lia|].
  split; [by constructor|]. split.
  - unfold seg_passes, sum_passes in *. cbn [foldr]. rewrite I2, A2. lia.
  - intros Hd. apply list.Forall_cons in Hd as [Hd0 Hd]. unfold seg_data in *. rewrite fmap_cons.
    change (mjoin (?a :: ?l)) with (a ++ mjoin l) at 1. rewrite (I3 Hd), A3, Hd0. simpl.
    unfold sum_bytes. cbn [foldr]. fold (sum_bytes gs).
    replace (Z.to_nat (off + x.2)) with (Z.to_nat off + Z.to_nat x.2)%nat by lia. rewrite <- drop_drop.
    replace (Z.to_nat (x.2 + sum_bytes gs)) with (Z.to_nat x.2 + Z.to_nat (sum_bytes gs))%nat by lia.
    by rewrite take_take_drop.
Qed.
End Absorb.

(** The groups of a layer that starts at pass [P] follow the segments. *)
Definition groups_follow (sty P : Z) (segs : list Segment) (gs : list (Z * Z)) : Prop :=
  (forall P0 prev g pre, segs = pre ++ [g] -> seg_start sty P0 prev -> maxPasses_ g = partOneMaxPasses sty prev ->
     headerTotalPasses_ g = P - P0 ->
     if P - P0 =? maxPasses_ g then fits_segs sty (partOneMaxPasses sty (maxPasses_ g)) (partOneMaxPasses sty (maxPasses_ g)) gs
     else fits_segs sty (maxPasses_ g) (maxPasses_ g - (P - P0)) gs) /\
  (segs = [] -> fits_segs sty (partOneMaxPasses sty 0) (partOneMaxPasses sty 0) gs).

(** What a layer's data leaves of a block. *)
Record parsed_block (nL : nat) (sty P' : Z) (old : list Z) (passes : Z) (c1 c' : CodeblockDecompress) : Prop := {
  pb_header : header_at sty P' (segs_ c');
  pb_segs : Forall (seg_ok nL) (segs_ c');
  pb_count : numDataParsedSegments_ c' = length (segs_ c');
  pb_data : seg_data (segs_ c') = old;
  pb_passes : seg_passes (segs_ c') = passes;
  pb_fixed : cd_numLayers c' = cd_numLayers c1 /\ cd_numbps c' = cd_numbps c1 /\ cd_numlenbits c' = cd_numlenbits c1 /\
             cd_signalledPassesByLayer c' = cd_signalledPassesByLayer c1 /\ htState_ c' = htState_ c1;
}.

Lemma seg_data_app l k : seg_data (l ++ k) = seg_data l ++ seg_data k.
Proof. unfold seg_data. by rewrite fmap_app, join_app. Qed.
Lemma seg_passes_app l k : seg_passes (l ++ k) = seg_passes l + seg_passes k.
Proof. induction l as [|g l IH]; [done|]. unfold seg_passes in *. cbn [app foldr]. rewrite IH. lia. Qed.

Lemma layer_segs_parse nL sty layno P segs gs data off :
  0 <= layno < Z.of_nat nL -> Forall (seg_ok nL) segs -> header_at sty P segs -> in_range gs -> gs <> [] -> groups_follow sty P segs gs ->
  0 <= off -> off + sum_bytes gs <= Z.of_nat (length data) -> Z.of_nat (length (seg_data segs)) + sum_bytes gs < 2 ^ 32 ->
  exists pre rest, layer_segs nL sty layno segs gs = pre ++ rest /\ rest <> [] /\
    layer_passes_of layno rest = sum_passes gs /\ layer_bytes_of layno rest = sum_bytes gs /\ Forall (absorbable layno) rest /\
    (length segs = length pre /\
       (pre <> [] -> totalPasses_ (nthZ (Segment_new 0) pre (Z.of_nat (length pre) - 1)) = maxPasses_ (nthZ (Segment_new 0) pre (Z.of_nat (length pre) - 1)))
     \/ length segs = S (length pre) /\ exists r rest', rest = r :: rest' /\ totalPasses_ r <> maxPasses_ r) /\
    header_at sty (P + sum_passes gs) (pre ++ absorb_all layno data off rest) /\
    Forall (seg_ok nL) (pre ++ absorb_all layno data off rest) /\
    seg_data (pre ++ absorb_all layno data off rest) = seg_data segs ++ take (Z.to_nat (sum_bytes gs)) (drop (Z.to_nat off) data) /\
    seg_passes (pre ++ absorb_all layno data off rest) = seg_passes segs + sum_passes gs.
Proof.
  intros Hlay Hok Hat Hr Hne [Hf1 Hf2] Hoff Hlen Hbig.
  destruct (layer_segs_split nL sty layno P segs gs Hat Hr Hne Hf1 Hf2) as (Hat' & pre & rest & Hsp & Hcase).
  assert (Forall2 same_header (layer_segs nL sty layno segs gs) (pre ++ absorb_all layno data off rest)) as Hsame.
  { rewrite Hsp. apply Forall2_app; [apply Forall2_same_refl|apply absorb_all_same]. }
  pose proof (header_at_same _ _ _ _ Hsame Hat') as Hat2. exists pre, rest. split; [done|].
  destruct Hcase as [(<- & (prev & ->) & Hfull)|(g & x & gs' & -> & -> & Hnf & ->)].
  - destruct (contributed_contribution nL sty layno gs Hr prev) as [Hc1 Hc2].
    destruct (contributions_in nL layno Hlay _ _ Hc1 Hr) as (L1 & L2 & L3).
    destruct (absorb_all_ok nL layno data Hlay _ _ Hc1 Hr off Hoff Hlen) as (A1 & A2 & A3).
    split; [by destruct gs|]. split; [done|]. split; [done|]. split; [done|].
    split. { left. split; [done|]. intros Hn. rewrite <- (Hfull Hn). rewrite nthZ_default.
      destruct (lookup_lt_is_Some_2 segs (Z.to_nat (Z.of_nat (length segs) - 1))) as [y Hy]; [destruct segs; [done|simpl; lia]|].
      rewrite Hy. simpl. by apply (Forall_lookup_1 _ _ _ _ Hok Hy). }
    split; [done|]. split; [by apply Forall_app|]. rewrite seg_data_app, seg_passes_app, A2, A3.
    2: { eapply Forall_impl; [|exact Hc2]. simpl. by intros ? [? _]. }
    split; [done|]. assert (seg_passes (contributed nL sty layno prev gs) = 0) as ->; [|lia].
    clear -Hc2. induction Hc2 as [|r l [_ E] _ IH]; [done|]. unfold seg_passes in *. cbn [foldr]. lia.
  - apply Forall_app in Hok as [Hpre Hg]. apply list.Forall_cons in Hg as [Hg _].
    destruct Hg as (G1 & G2 & G3 & G4 & G5). rewrite seg_data_app in *. unfold seg_data at 2 in Hbig. simpl in Hbig.
    rewrite length_app, app_nil_r in Hbig.
    apply list.Forall_cons in Hr as [[Hx1 Hx2] Hr].
    unfold sum_bytes in Hlen, Hbig |- *. cbn [foldr] in Hlen, Hbig |- *. fold (sum_bytes gs') in Hlen, Hbig |- *.
    assert (0 <= sum_bytes gs') as Hs0.
    { clear -Hr. induction Hr as [|y l [_ A] _ I]; [done|]. unfold sum_bytes in *. simpl. lia. }
    assert (contribution nL layno x (recordLayerContribution layno x.1 x.2 g)) as Hc0.
    { exists g. split; [by split|]. split; [done|]. split; [|lia].
      destruct Hat as [[E _]|(pre2 & g2 & P0 & prev & E & Hs & Hm & Hh & HP)]; [by destruct pre|].
      apply app_inj_tail in E as [<- <-]. pose proof (partOneMaxPasses_pos sty prev).
      specialize (Hf1 P0 prev g pre eq_refl Hs Hm Hh). rewrite <- Hh in Hf1.
      destruct (Z.eqb_spec (headerTotalPasses_ g) (maxPasses_ g)); [done|].
      apply fits_segs_cases in Hf1 as [Hx _]. lia. }
    destruct (contributed_contribution nL sty layno gs' Hr (maxPasses_ g)) as [Hc1 Hc2].
    destruct (contributions_in nL layno Hlay _ _ Hc1 Hr) as (L1 & L2 & L3).
    destruct (contribution_in nL layno Hlay x _ Hc0 Hx1 Hx2) as (E1 & E2 & E3).
    destruct (absorb_ok nL layno data Hlay x _ off Hc0 Hx1 Hx2 Hoff) as (B1 & B2 & B3); [lia|].
    destruct (absorb_all_ok nL layno data Hlay _ _ Hc1 Hr (off + x.2)) as (A1 & A2 & A3); [lia|lia|].
    split; [done|].
    split. { unfold layer_passes_of in *. cbn [foldr]. rewrite E1, L1. unfold sum_passes. done. }
    split. { unfold layer_bytes_of in *. cbn [foldr]. by rewrite E2, L2. }
    split; [by constructor|].
    split. { right. split; [rewrite length_app; simpl; lia|]. eexists _, _. split; [reflexivity|]. simpl. lia. }
    split; [done|]. cbn [absorb_all]. rewrite E2.
    split. { apply Forall_app. split; [done|]. by constructor. }
    rewrite seg_data_app, !seg_passes_app. unfold seg_data at 2 4, seg_passes at 2 4. rewrite fmap_cons. cbn [foldr].
    fold (seg_passes (absorb_all layno data (off + x.2) (contributed nL sty layno (maxPasses_ g) gs'))). rewrite A2, B2.
    change (mjoin (?a :: ?l)) with (a ++ mjoin l) at 1. fold (seg_data (absorb_all layno data (off + x.2) (contributed nL sty layno (maxPasses_ g) gs'))).
    rewrite A3, B3.
    2: { eapply Forall_impl; [|exact Hc2]. simpl. by intros ? [? _]. }
    split.
    + cbn [data_chunks_ recordLayerContribution]. simpl fmap. simpl mjoin. rewrite app_nil_r, <- !app_assoc. do 2 f_equal.
      replace (Z.to_nat (off + x.2)) with (Z.to_nat off + Z.to_nat x.2)%nat by lia. rewrite <- drop_drop.
      replace (Z.to_nat (x.2 + sum_bytes gs')) with (Z.to_nat x.2 + Z.to_nat (sum_bytes gs'))%nat by lia.
      by rewrite take_take_drop.
    + assert (seg_passes (contributed nL sty layno (maxPasses_ g) gs') = 0) as ->.
      { clear -Hc2. induction Hc2 as [|r l [_ E] _ IH]; [done|]. unfold seg_passes in *. cbn [foldr]. lia. }
      cbn [totalPasses_ recordLayerContribution]. unfold sum_passes. cbn [foldr]. lia.
Qed.

(** The passes of a layer, cut at the block coder's terminations, follow the segments. *)
Lemma groups_fit_follow numbps sty P segs ps :
  numbps <= 38 -> (1 <= length ps)%nat -> header_at sty P segs -> flags_ok numbps sty P ps ->
  Forall (fun p => 0 <= pass_len p) ps -> sum_len ps < 2 ^ 16 -> P + Z.of_nat (length ps) <= 3 * numbps - 2 ->
  groups_follow sty P segs (groups ps 0 0) /\ sum_passes (groups ps 0 0) = Z.of_nat (length ps) /\
  sum_bytes (groups ps 0 0) = sum_len ps /\ in_range (groups ps 0 0).
Proof.
  intros Hbps Hn Hat Hfl Hps Hsum Hend.
  pose proof (fun P0 prev Hs HP => groups_fit numbps sty Hbps (length ps) ps P P0 prev eq_refl Hn Hs HP Hfl Hps Hsum Hend) as Hfit.
  assert (0 <= P) as HP0.
  { destruct Hat as [[_ ->]|(pre & g & P0 & prev & _ & Hs & _ & _ & HP)]; [done|]. apply seg_start_nonneg in Hs. lia. }
  assert (exists P0 prev, seg_start sty P0 prev /\ P0 <= P < P0 + partOneMaxPasses sty prev) as (P1 & prev1 & Hs1 & HP1).
  { destruct Hat as [[_ ->]|(pre & g & P0 & prev & _ & Hs & Hm & _ & HP)].
    - exists 0, 0. pose proof (partOneMaxPasses_pos sty 0). split; [constructor|lia].
    - destruct (Z.eq_dec (P - P0) (maxPasses_ g)) as [E|E]; [|exists P0, prev; split; [done|lia]].
      pose proof (partOneMaxPasses_pos sty (partOneMaxPasses sty prev)).
      eexists _, _. split; [by apply seg_start_next|lia]. }
  destruct (Hfit P1 prev1 Hs1 HP1) as (_ & F2 & F3 & F4). split; [|split; [done|split; [done|]]].
  - split.
    + intros P0 prev g pre -> Hs Hm Hh. destruct Hat as [[E _]|(pre2 & g2 & P2 & prev2 & E & _ & _ & Hh2 & HP2)]; [by destruct pre|].
      apply app_inj_tail in E as [<- <-]. pose proof (partOneMaxPasses_pos sty (maxPasses_ g)).
      destruct (Z.eqb_spec (P - P0) (maxPasses_ g)) as [E|E].
      * destruct (Hfit (P0 + partOneMaxPasses sty prev) (partOneMaxPasses sty prev)) as [F1 _]; [by apply seg_start_next|rewrite <- Hm; lia|].
        rewrite <- Hm in F1. replace (P - (P0 + maxPasses_ g)) with 0 in F1 by lia. by rewrite Z.sub_0_r in F1.
      * rewrite Hm. apply Hfit; [done|lia].
    + intros ->. destruct Hat as [[_ ->]|(pre2 & g2 & P2 & prev2 & E & _)]; [|by destruct pre2].
      destruct (Hfit 0 0) as [F1 _]; [constructor|pose proof (partOneMaxPasses_pos sty 0); lia|]. by rewrite !Z.sub_0_r in F1.
  - assert (sum_passes (groups ps 0 0) <= 112) as Hle by lia. clear -F4 Hle.
    induction F4 as [|x l [H1 H2] Hl IH]; [constructor|]. pose proof (sum_passes_ge l Hl). unfold sum_passes in *. cbn [foldr] in Hle.
    constructor; [lia|]. apply IH. lia.
Qed.

Lemma parse_block_spec sty layno P n inc gs c data avail off :
  0 <= layno < Z.of_nat (cd_numLayers c) -> Forall (seg_ok (cd_numLayers c)) (segs_ c) -> header_at sty P (segs_ c) ->
  in_range gs -> gs <> [] -> groups_follow sty P (segs_ c) gs -> n = sum_passes gs -> n < 256 ->
  length (cd_signalledPassesByLayer c) = cd_numLayers c -> numDataParsedSegments_ c = length (segs_ c) ->
  0 <= off -> off + sum_bytes gs <= Z.of_nat (length data) -> off + sum_bytes gs < 2 ^ 32 -> sum_bytes gs <= avail ->
  Z.of_nat (length (seg_data (segs_ c))) + sum_bytes gs < 2 ^ 32 ->
  exists c', parsePacketData layno false data (mkPS (read_block sty layno n inc gs c) avail off) =
      hok (mkPS c' (avail - sum_bytes gs) (off + sum_bytes gs)) /\
    parsed_block (cd_numLayers c) sty (P + n) (seg_data (segs_ c) ++ take (Z.to_nat (sum_bytes gs)) (drop (Z.to_nat off) data))
      (seg_passes (segs_ c) + n) (read_block sty layno n inc gs c) c'.
Proof.
  intros Hlay Hok Hat Hr Hne Hfol Hn Hn256 Hsig Hnd Hoff Hlen Hoff2 Hav Hbig.
  destruct (layer_segs_parse _ sty layno P _ gs data off Hlay Hok Hat Hr Hne Hfol Hoff Hlen Hbig)
    as (pre & rest & Hsp & Hrest & L1 & L2 & L3 & Hcase & R1 & R2 & R3 & R4).
  assert (1 <= n) as Hn1.
  { destruct Hr as [|x l [Hx _] Hr]; [done|]. rewrite Hn. unfold sum_passes. cbn [foldr]. fold (sum_passes l).
    assert (0 <= sum_passes l); [|lia]. clear -Hr. induction Hr as [|y l [Hy _] _ I]; [done|]. unfold sum_passes in *. simpl. lia. }
  set (c1 := read_block sty layno n inc gs c) in *.
  assert (segs_ c1 = pre ++ rest) as Hs1 by exact Hsp.
  assert (numDataParsedSegments_ c1 = length (segs_ c)) as Hnd1 by exact Hnd.
  assert (nthZ 0 (cd_signalledPassesByLayer c1) layno = n) as Hsg.
  { apply nthZ_lookup. unfold c1. simpl. apply list_lookup_insert_eq. lia. }
  unfold parsePacketData. cbn [ps_cblk ps_remaining ps_offset]. rewrite Hsg. destruct (Z.eqb_spec n 0) as [|_]; [lia|].
  assert (match currDataParsedSegment c1 with
          | Some i => if totalPasses_ (seg_at i c1) =? maxPasses_ (seg_at i c1) then nextDataParsedSegment c1 else (Some i, c1)
          | None => nextDataParsedSegment c1 end = (Some (length pre), set_numDataParsed (S (length pre)) c1)) as ->.
  { unfold currDataParsedSegment. rewrite Hnd1. destruct Hcase as [[El Hfull]|(El & r & rest' & -> & Hnf)].
    - assert (nextDataParsedSegment c1 = (Some (length pre), set_numDataParsed (S (length pre)) c1)) as Hnext.
      { unfold nextDataParsedSegment. rewrite Hnd1, Hs1, El, length_app. destruct rest; [done|]. simpl.
        destruct (Nat.leb_spec (length pre + S (length rest)) (length pre)); [lia|done]. }
      destruct (length (segs_ c)) as [|k] eqn:Ek; [done|].
      assert (seg_at k c1 = nthZ (Segment_new 0) pre (Z.of_nat (length pre) - 1)) as ->.
      { unfold seg_at. rewrite !nthZ_default, Hs1, lookup_app_l by lia. do 2 f_equal. lia. }
      rewrite Hfull, Z.eqb_refl by (intros ->; simpl in El; lia). done.
    - rewrite El. rewrite (seg_at_middle c1 pre r rest' Hs1), (proj2 (Z.eqb_neq _ _) Hnf).
      rewrite <- El, <- Hnd1. reflexivity. }
  destruct (parse_loop_spec layno data rest pre
     (set_dataParsedLayers (Z.max (dataParsedLayers_ (set_numDataParsed (S (length pre)) c1)) (u16 (layno + 1))) (set_numDataParsed (S (length pre)) c1))
     avail off (S (length (segs_ c1))) n) as (c' & E & Hc'); rewrite ?L1, ?L2; try done; try lia.
  { rewrite Hs1, length_app. lia. }
  exists c'. rewrite L2 in E. split; [exact E|]. rewrite Hc', Hn. split; cbn [segs_ set_segs set_numDataParsed numDataParsedSegments_]; try done.
  rewrite !length_app. f_equal. clear. generalize off. induction rest as [|x l IH]; intros o; [done|]. simpl. by rewrite <- IH.
Qed.

End Lengths.
