(* ===== verification/PrecinctRoundTrip.v ===== *)
(** The round trip of a precinct: what [T2Compress::compressHeader] writes for the
    blocks of a precinct in a layer, the parser reads back, and the two sides stay
    in step from layer to layer.

    The invariants [block_sync] and [prec_sync] say what both sides know of a block
    and of a precinct before a layer: the tag trees agree, the parser's segments hold
    the data and the passes of the layers before it, and the length indicators are
    equal. *)
From S2P Require Import Prelude BitIO TagTree TagTreeQueries Geometry Codeblock PacketHeader PacketLengths.

Abbreviation lows_below B t := (Forall (fun n => low n <= B) (nodes t)).
Abbreviation block_of nL oc := (default (CodeblockDecompress_new nL) oc).

Section RoundTrip.
Context {St : Type} `{Stream : IStreamWriter St}.

(** ** The code of one block's header *)

Section Encoder.
Context (layno : Z).

Definition lpasses (c : CodeblockCompress) : Z := lay_totalPasses (cc_getLayer layno c).
Definition first (c : CodeblockCompress) : bool := cc_passesInLayer0 c =? 0.
Definition included (c : CodeblockCompress) : bool := negb (lpasses c =? 0).
Definition nl (c : CodeblockCompress) : Z := if first c then 3 else cc_numlenbits c.
Definition lgroups (c : CodeblockCompress) : list (Z * Z) := groups (layer_passes layno c) 0 0.
Definition linc (c : CodeblockCompress) : Z := foldl (inc_step (nl c)) 0 (lgroups c).

Definition incl_code (i : Z) (t : TagTree) (c : CodeblockCompress) : list bool :=
  if first c then query_code i (u16 (layno + 1)) t else [included c].
Definition incl_after (i : Z) (t : TagTree) (c : CodeblockCompress) : TagTree :=
  if first c then tree_after i (u16 (layno + 1)) t else t.
Definition imsb_code (i : Z) (t : TagTree) (c : CodeblockCompress) : list bool :=
  if included c && first c then query_code i imsb_max t else [].
Definition imsb_after (i : Z) (t : TagTree) (c : CodeblockCompress) : TagTree :=
  if included c && first c then tree_after i imsb_max t else t.
Definition cblk_code (i : Z) (incl imsb : TagTree) (c : CodeblockCompress) : list bool :=
  incl_code i incl c ++ imsb_code i imsb c ++ (if included c then block_code (nl c) (lpasses c) (linc c) (lgroups c) else []).
Definition enc_header (c : CodeblockCompress) : CodeblockCompress :=
  if included c then mkCC (cc_numbps c) (u8 (nl c + linc c)) (cc_passesInLayer0 c) (cc_passes c) (cc_layers c) else c.

(** What the encoder's trees satisfy throughout. *)
Record enc_tree (maxT : Z) (n : Z) (t : TagTree) : Prop := {
  et_wf : wf_tree t;
  et_heap : heap t;
  et_ok : Forall (enc_ok maxT) (nodes t);
  et_leaves : n <= nleaves t;
}.

Lemma enc_tree_after maxT n t i thr : enc_tree maxT n t -> 0 <= i < n -> enc_tree maxT n (tree_after i thr t) /\
  forall j, value (node_at (tree_after i thr t) j) = value (node_at t j).
Proof.
  intros [Hw Hh Hok Hn] Hi. destruct (tree_after_facts maxT t i thr Hw Hh Hok ltac:(lia)) as (Hs & Hok' & Hw' & Hh').
  destruct Hs as (_ & Hc & Hg). split.
  - split; try done. unfold nleaves in *. by rewrite Hc.
  - intros j. apply (nodes_grow_nth _ _ j Hg).
Qed.

Lemma lift_b_ok {A} (b : bool) (a a' : A) : lift_b (b, a) = eok a' -> b = true /\ a = a'.
Proof. unfold lift_b, eok, efail. destruct b; [|done]. intros [= ->]. done. Qed.

Lemma compress_cblk_spec i n (bio bio' : BitIO St) incl incl' imsb imsb' c c' :
  enc_tree incl_max n incl -> enc_tree imsb_max n imsb -> 0 <= i < n -> 0 <= lpasses c <= 164 -> 0 <= nl c + linc c < 256 ->
  compress_cblk layno i bio incl imsb c = eok (bio', incl', imsb', c') ->
  puts bio (cblk_code i incl imsb c) bio' /\ incl' = incl_after i incl c /\ imsb' = imsb_after i imsb c /\ c' = enc_header c.
Proof.
  intros [Hw1 Hh1 Hok1 Hn1] [Hw2 Hh2 Hok2 Hn2] Hi Hp Hnl. unfold compress_cblk.
  unfold cblk_code, incl_code, imsb_code, incl_after, imsb_after, enc_header, linc, lgroups.
  fold (lpasses c). unfold included, nl. fold (first c).
  assert (forall b1 b2 t1 t2, (if first c then match encode bio i (u16 (layno + 1)) incl with
      | Some (ok, bio, incl) => lift_b (ok, (bio, incl)) | None => None end
      else let! bio := lift_b (write1 (Z.b2z (negb (lpasses c =? 0))) bio) in eok (bio, incl)) = eok (b1, t1) ->
      b2 = (if first c then query_code i (u16 (layno + 1)) incl else [negb (lpasses c =? 0)]) ->
      t2 = (if first c then tree_after i (u16 (layno + 1)) incl else incl) -> puts bio b2 b1 /\ t1 = t2) as Hincl.
  { intros b1 b2 t1 t2 He -> ->. destruct (first c).
    - destruct (encode bio i _ incl) as [[[ok b] t]|] eqn:E; [|done]. apply lift_b_ok in He as [-> [= <- <-]].
      apply (encode_tree_after incl_max incl i _ bio b t Hw1 Hh1 Hok1 ltac:(lia)) in E as [Hput ->]. done.
    - rewrite write1_bit in He. destruct (put_bits _ bio) as [ok b] eqn:E. destruct ok; [|done].
      cbn in He. injection He as <- <-. split; [|done]. unfold puts. rewrite <- E. by destruct (lpasses c =? 0). }
  destruct (if first c then _ else _) as [[[b1 t1]|]|] eqn:E1; [|done|done].
  destruct (Hincl b1 _ t1 _ eq_refl eq_refl eq_refl) as [Hput1 ->]. clear Hincl E1. cbn [hbind].
  destruct (Z.eqb_spec (lpasses c) 0) as [E0|E0].
  { intros [= <- <- <- <-]. cbn [negb andb]. rewrite !app_nil_r. done. }
  cbn [negb andb].
  assert (forall b2 t2 c2, (if first c then match encode b1 i imsb_max imsb with
      | Some (ok, bio, imsb) => lift_b (ok, (bio, imsb, cc_setNumLenBits 3 c)) | None => None end
      else eok (b1, imsb, c)) = eok (b2, t2, c2) ->
      puts b1 (if first c then query_code i imsb_max imsb else []) b2 /\
      t2 = (if first c then tree_after i imsb_max imsb else imsb) /\
      c2 = mkCC (cc_numbps c) (if first c then 3 else cc_numlenbits c) (cc_passesInLayer0 c) (cc_passes c) (cc_layers c)) as Himsb.
  { intros b2 t2 c2 He. destruct (first c).
    - destruct (encode b1 i _ imsb) as [[[ok b] t]|] eqn:E; [|done]. apply lift_b_ok in He as [-> [= <- <- <-]].
      apply (encode_tree_after imsb_max imsb i _ b1 b t Hw2 Hh2 Hok2 ltac:(lia)) in E as [Hput ->]. done.
    - injection He as <- <- <-. split; [done|]. split; [done|]. by destruct c. }
  destruct (if first c then match encode b1 i imsb_max imsb with Some _ => _ | None => _ end else _) as [[[[b2 t2] c2]|]|] eqn:E2; [|done|done].
  destruct (Himsb b2 t2 c2 eq_refl) as (Hput2 & -> & ->). clear Himsb E2. cbn [hbind].
  set (nl := if first c then 3 else cc_numlenbits c) in *.
  rewrite putnumpasses_bits by lia. destruct (put_bits (numpasses_code (lpasses c)) b2) as [ok3 b3] eqn:E3.
  destruct ok3; [|done]. cbn [lift_b hbind eok].
  unfold layer_passes. cbn [cc_passesInLayer0 cc_passes cc_numlenbits]. change (cc_getLayer layno (mkCC _ _ _ _ _)) with (cc_getLayer layno c).
  fold (layer_passes layno c). rewrite length_increment_groups, putcommacode_bits.
  set (inc := foldl (inc_step nl) 0 (groups (layer_passes layno c) 0 0)).
  destruct (put_bits (commacode inc) b3) as [ok4 b4] eqn:E4. destruct ok4; [|done]. cbn [lift_b hbind eok].
  cbn [cc_numlenbits cc_setNumLenBits]. rewrite write_lengths_bits.
  destruct (put_bits _ b4) as [ok5 b5] eqn:E5. destruct ok5; [|done]. cbn [lift_b hbind eok].
  intros [= <- <- <- <-]. split; [|done]. rewrite puts_app. exists b1. split; [done|]. rewrite puts_app. exists b2. split; [done|].
  unfold block_code. rewrite puts_app. exists b3. split; [exact E3|]. rewrite puts_app. exists b4. split; [exact E4|].
  unfold puts. rewrite <- E5. rewrite wrap_small; [done|]. exact Hnl.
Qed.
End Encoder.

(** ** The parser's queries *)

(** The value of a leaf that was never set is the uninitialized one on both sides. *)
Lemma decode_uninitialized maxT e leafno t (r r' : BitIO St) v d d' :
  decode r leafno t d = Some (Ok (v, r', d')) -> tree_sync maxT e d' -> t <= v ->
  0 <= leafno < nnodes e -> nnodes e <= UINT32_MAX -> value (node_at e leafno) = maxT -> v = maxT.
Proof.
  unfold decode. intros Hd Hs Hv Hl Hsm Hval. destruct (Z.ltb_spec (nthZ 0 (leafCache d) leafno) t) as [Hlt|_].
  { injection Hd as <- _ _. lia. }
  destruct (path d leafno) as [p|]; [|done]. simpl in Hd.
  destruct (decode_path t 0 p (nodes d) r) as [[r1 ns]|]; [|done]. simpl in Hd. injection Hd as <- _ <-.
  rewrite wrap_small by grk_lia. destruct Hs as [_ Hn _ _].
  cbn [nodes] in Hn. destruct (sync_nth maxT (nodes e) ns leafno) as [[_ Hm _ _ _] _]; [unfold nnodes in Hl; lia|done|]. rewrite Hm. unfold node_at in Hval. rewrite Hval. by destruct (known _).
Qed.

Lemma imsb_loop_spec i v : 0 <= v <= 29 -> forall fuel K e d (r r' : BitIO St),
  wf_tree e -> heap e -> tree_sync imsb_max e d -> 0 <= i < nleaves e -> value (node_at e i) = v ->
  0 <= K <= v + 1 -> v + 1 - K < Z.of_nat fuel -> gets r (query_code i (v + 1) e) r' ->
  exists d', imsb_loop fuel K i r d = hok (v + 1, r', d') /\ tree_sync imsb_max (tree_after i (v + 1) e) d'.
Proof.
  intros Hv fuel. induction fuel as [|fuel IH]; intros K e d r r' Hw Hh Hs Hi Hval HK Hf Hg; [lia|].
  pose proof (sync_Forall_enc_ok _ _ _ Hs) as Hok.
  destruct (query_split imsb_max e i K (v + 1) Hw Hh Hok Hi ltac:(lia)) as [Ec Et].
  rewrite Ec in Hg. apply gets_app in Hg as (r1 & Hg1 & Hg2).
  destruct (decode_query imsb_max e d i K r r1 Hw Hh Hs Hi) as (x & d1 & Hd & Hs1 & Hx); [unfold imsb_max, UINT8_MAX; lia|done|].
  cbn [imsb_loop]. rewrite Hd. cbn [hbio_opt hbio hbind]. rewrite Hval in Hx.
  destruct (Z.ltb_spec v K) as [Hlt|Hge].
  - assert (K = v + 1) as -> by lia. subst x. destruct (Z.leb_spec (v + 1) v); [lia|].
    destruct (query_done imsb_max e i (v + 1) (v + 1) Hw Hh Hok Hi ltac:(lia) ltac:(lia)) as [Ec' _].
    assert (query_code i (v + 1) (tree_after i (v + 1) e) = []) as E0.
    { apply (f_equal length) in Ec. rewrite length_app in Ec. apply nil_length_inv. lia. }
    rewrite E0 in Hg2. apply gets_nil in Hg2 as ->. by exists d1.
  - destruct (Z.leb_spec K x); [|lia]. rewrite wrap_small by (simpl; lia).
    unfold maxBitPlanesJ2K. destruct (Z.ltb_spec 30 (K + 1)); [lia|].
    destruct (tree_after_facts imsb_max e i K Hw Hh Hok Hi) as (Hsv & Hok1 & Hw1 & Hh1). destruct Hsv as (_ & Hc & Hgr).
    destruct (IH (K + 1) (tree_after i K e) d1 r1 r') as (d' & E & Hs'); try done; try lia.
    + unfold nleaves in *. by rewrite Hc.
    + rewrite <- Hval. apply (nodes_grow_nth _ _ i Hgr).
    + exists d'. split; [exact E|]. by rewrite <- Et.
Qed.

(** ** Blocks with their layers *)

(** The passes and the data of the first [k] layers, and the passes of layer [k]. *)
Definition passes_upto (k : nat) (c : CodeblockCompress) : Z := foldr (fun l s => lay_totalPasses l + s) 0 (take k (cc_layers c)).
Definition data_upto (k : nat) (c : CodeblockCompress) : list Z := mjoin (lay_data <$> take k (cc_layers c)).
Definition layer_at (k : nat) (c : CodeblockCompress) : Layer := cc_getLayer (Z.of_nat k) c.
Definition layer_ps (k : nat) (c : CodeblockCompress) : list CodePass :=
  take (Z.to_nat (lay_totalPasses (layer_at k c))) (drop (Z.to_nat (passes_upto k c)) (cc_passes c)).
(** The block's length indicator before layer [k]. *)
Fixpoint nl_at (k : nat) (c : CodeblockCompress) : Z :=
  match k with
  | O => 3
  | S k => nl_at k c + foldl (inc_step (nl_at k c)) 0 (groups (layer_ps k c) 0 0)
  end.

(** What the block coder and the rate allocation give the packet coder: passes
    flagged by [enc_is_term_pass], layers made of whole passes with their data,
    less than 2^16 bytes each, and length fields of at most 16 bits. *)
Record cblk_ok (sty mbp : Z) (nL : nat) (c : CodeblockCompress) : Prop := {
  bo_bps : 0 <= cc_numbps c <= maxBitPlanesJ2K;
  bo_mbp : cc_numbps c <= mbp <= 255;
  bo_layers : length (cc_layers c) = nL;
  bo_passes : Forall (fun l => 0 <= lay_totalPasses l) (cc_layers c);
  bo_length : passes_upto nL c <= Z.of_nat (length (cc_passes c));
  bo_total : 0 < passes_upto nL c -> passes_upto nL c <= 3 * cc_numbps c - 2 /\ mbp <= cc_numbps c + 29;
  bo_flags : flags_ok (cc_numbps c) sty 0 (cc_passes c);
  bo_lens : Forall (fun p => 0 <= pass_len p) (cc_passes c);
  bo_layer : forall k, (k < nL)%nat -> lay_len (layer_at k c) = sum_len (layer_ps k c) /\
    Z.of_nat (length (lay_data (layer_at k c))) = lay_len (layer_at k c) /\ lay_len (layer_at k c) < 2 ^ 16;
  bo_fields : forall k, (k < nL)%nat -> Forall (fun g => nl_at (S k) c + floorlog2 g.1 <= 16) (groups (layer_ps k c) 0 0);
}.

(** The state of a block on both sides before layer [k]. *)
Record block_sync (sty : Z) (nL k : nat) (c : CodeblockCompress) (d : CodeblockDecompress) : Prop := {
  bs_passes : cc_passesInLayer0 c = passes_upto k c;
  bs_nl : 0 < passes_upto k c -> cc_numlenbits c = nl_at k c /\ cd_numlenbits d = nl_at k c /\ cd_numbps d = cc_numbps c;
  bs_nl0 : passes_upto k c = 0 -> cd_numlenbits d = 0;
  bs_numLayers : cd_numLayers d = nL;
  bs_ht : htState_ d = HT_none;
  bs_header : header_at sty (passes_upto k c) (segs_ d);
  bs_segs : Forall (seg_ok nL) (segs_ d);
  bs_parsed : numDataParsedSegments_ d = length (segs_ d);
  bs_data : seg_data (segs_ d) = data_upto k c;
  bs_count : seg_passes (segs_ d) = passes_upto k c;
  bs_signalled : length (cd_signalledPassesByLayer d) = nL;
  bs_later : forall j, Z.of_nat k <= j -> nthZ 0 (cd_signalledPassesByLayer d) j = 0;
}.

Lemma layer_at_lookup nL k c : length (cc_layers c) = nL -> (k < nL)%nat -> cc_layers c !! k = Some (layer_at k c).
Proof.
  intros Hl Hk. destruct (lookup_lt_is_Some_2 (cc_layers c) k) as [l Hl']; [lia|].
  unfold layer_at, cc_getLayer. rewrite (nthZ_lookup _ _ _ l); [done|]. by rewrite Nat2Z.id.
Qed.

Lemma passes_upto_S nL k c : length (cc_layers c) = nL -> (k < nL)%nat ->
  passes_upto (S k) c = passes_upto k c + lay_totalPasses (layer_at k c).
Proof.
  intros Hl Hk. unfold passes_upto. rewrite (take_S_r _ _ _ (layer_at_lookup nL k c Hl Hk)), foldr_app. simpl.
  generalize (take k (cc_layers c)). intros l. induction l as [|x l IH]; simpl; lia.
Qed.
Lemma data_upto_S nL k c : length (cc_layers c) = nL -> (k < nL)%nat -> data_upto (S k) c = data_upto k c ++ lay_data (layer_at k c).
Proof.
  intros Hl Hk. unfold data_upto. rewrite (take_S_r _ _ _ (layer_at_lookup nL k c Hl Hk)), fmap_app, join_app. simpl. by rewrite app_nil_r.
Qed.

Lemma passes_upto_mono nL c : length (cc_layers c) = nL -> Forall (fun l => 0 <= lay_totalPasses l) (cc_layers c) ->
  forall k k', (k <= k' <= nL)%nat -> 0 <= passes_upto k c <= passes_upto k' c.
Proof.
  intros Hl Hp.
  assert (forall k k', (k <= k')%nat -> (k' <= nL)%nat -> passes_upto k c <= passes_upto k' c) as Hm.
  { intros k k' Hk. induction Hk as [|k' Hk IH]; [lia|]. intros Hk'. rewrite (passes_upto_S nL) by lia. specialize (IH ltac:(lia)).
    assert (0 <= lay_totalPasses (layer_at k' c)); [|lia].
    apply (Forall_lookup_1 _ _ _ _ Hp (layer_at_lookup nL k' c Hl ltac:(lia))). }
  intros k k' Hk. split; [|apply Hm; lia]. apply (Hm 0%nat k); lia.
Qed.

(** The length indicator stays between 3 and 16. *)
Lemma increment_total n gs : forall inc, 0 <= n <= 16 -> 0 <= inc -> n + inc <= 16 -> Forall group_range gs ->
  inc <= foldl (inc_step n) inc gs /\ n + foldl (inc_step n) inc gs <= 16.
Proof.
  induction gs as [|g gs IH]; intros inc Hn Hinc Hle Hok; cbn [foldl]; [lia|].
  apply list.Forall_cons in Hok as [Hg Hok]. destruct (inc_step_spec n inc g ltac:(lia) ltac:(lia) Hg) as [E _].
  destruct Hg as [H1 H2]. pose proof (floorlog2_bound g.1 ltac:(lia)) as [Ha _].
  assert (floorlog2 g.2 <= 15) by (change 15 with (floorlog2 65535); apply floorlog2_mono; lia).
  destruct (IH (inc_step n inc g)) as [I1 I2]; [done|lia|lia|done|lia].
Qed.

Lemma groups_range ps : forall nump len, 0 <= nump -> 0 <= len -> Forall (fun p => 0 <= pass_len p) ps ->
  len + sum_len ps < 2 ^ 16 -> nump + Z.of_nat (length ps) < 256 -> Forall group_range (groups ps nump len).
Proof.
  induction ps as [|p ps IH]; intros nump len Hn Hl Hps Hs Hb; [constructor|]. apply list.Forall_cons in Hps as [Hp Hps].
  rewrite sum_len_cons in Hs. pose proof (sum_len_nonneg ps Hps). cbn [length] in Hb. cbn [groups]. rewrite wrap_small by lia.
  destruct (pass_term p || (length ps =? 0)%nat); [constructor|].
  - unfold group_range. simpl. lia.
  - apply IH; try done; lia.
  - apply IH; try done; lia.
Qed.

(** The coder changes only the counters of a block. *)
Definition same_block (c c' : CodeblockCompress) : Prop :=
  cc_numbps c' = cc_numbps c /\ cc_passes c' = cc_passes c /\ cc_layers c' = cc_layers c.
Lemma same_layer_at c c' k : same_block c c' -> layer_at k c' = layer_at k c.
Proof. intros (_ & _ & E). unfold layer_at, cc_getLayer. by rewrite E. Qed.
Lemma same_upto c c' k : same_block c c' -> passes_upto k c' = passes_upto k c /\ data_upto k c' = data_upto k c /\ layer_ps k c' = layer_ps k c.
Proof.
  intros Hsame. pose proof (same_layer_at c c' k Hsame) as El. destruct Hsame as (_ & Ep & E).
  assert (passes_upto k c' = passes_upto k c) as Eu by (unfold passes_upto; by rewrite E).
  split; [done|]. split; [unfold data_upto; by rewrite E|]. unfold layer_ps. by rewrite El, Eu, Ep.
Qed.
Lemma same_nl_at c c' k : same_block c c' -> nl_at k c' = nl_at k c.
Proof.
  intros Hsame. induction k as [|k IH]; [done|]. cbn [nl_at]. rewrite IH. destruct (same_upto c c' k Hsame) as (_ & _ & ->). done.
Qed.
Lemma same_cblk_ok sty mbp nL c c' : same_block c c' -> cblk_ok sty mbp nL c -> cblk_ok sty mbp nL c'.
Proof.
  intros Hsame [H1 H2 H3 H4 H5 H6 H7 H8 H9 H10]. pose proof Hsame as (E1 & E2 & E3).
  destruct (same_upto c c' nL Hsame) as (Eu & _).
  split; rewrite ?Eu, ?E1, ?E2, ?E3; try done; intros k Hk; destruct (same_upto c c' k Hsame) as (_ & _ & ->).
  - rewrite (same_layer_at c c') by done. by apply H9.
  - rewrite (same_nl_at c c') by done. by apply H10.
Qed.

Section Block.
Context (sty mbp : Z) (nL : nat) (c : CodeblockCompress).
Hypothesis Hok : cblk_ok sty mbp nL c.

Lemma passes_upto_bounds k : (k <= nL)%nat -> 0 <= passes_upto k c <= passes_upto nL c /\ passes_upto nL c <= 88.
Proof.
  intros Hk. destruct Hok as [H1 _ H2 H3 _ H4 _ _ _ _]. unfold maxBitPlanesJ2K in *.
  pose proof (passes_upto_mono nL c H2 H3 k nL ltac:(lia)). lia.
Qed.

Lemma layer_passes_nonneg k : (k < nL)%nat -> 0 <= lay_totalPasses (layer_at k c).
Proof. intros Hk. apply (Forall_lookup_1 _ _ _ _ (bo_passes _ _ _ _ Hok) (layer_at_lookup nL k c (bo_layers _ _ _ _ Hok) Hk)). Qed.

Lemma layer_ps_length k : (k < nL)%nat -> Z.of_nat (length (layer_ps k c)) = lay_totalPasses (layer_at k c).
Proof.
  intros Hk. pose proof (passes_upto_bounds (S k) ltac:(lia)) as Hb. rewrite (passes_upto_S nL) in Hb by (done || apply Hok).
  pose proof (bo_length _ _ _ _ Hok). pose proof (layer_passes_nonneg k Hk). pose proof (passes_upto_bounds k ltac:(lia)).
  unfold layer_ps. rewrite length_take, length_drop. lia.
Qed.

Lemma layer_ps_flags k : (k < nL)%nat -> flags_ok (cc_numbps c) sty (passes_upto k c) (layer_ps k c).
Proof.
  intros Hk i p Hp. unfold layer_ps in Hp. apply lookup_take_Some in Hp as [Hp _]. rewrite lookup_drop in Hp.
  rewrite (bo_flags _ _ _ _ Hok _ _ Hp). f_equal. pose proof (passes_upto_bounds k ltac:(lia)). lia.
Qed.

Lemma layer_ps_lens k : Forall (fun p => 0 <= pass_len p) (layer_ps k c).
Proof. apply Forall_take, Forall_drop, (bo_lens _ _ _ _ Hok). Qed.

Lemma layer_groups_range k : (k < nL)%nat -> Forall group_range (groups (layer_ps k c) 0 0).
Proof.
  intros Hk. destruct (bo_layer _ _ _ _ Hok k Hk) as (E1 & _ & E3). pose proof (layer_ps_length k Hk).
  pose proof (passes_upto_bounds (S k) ltac:(lia)) as Hb. rewrite (passes_upto_S nL) in Hb by (done || apply Hok).
  pose proof (passes_upto_bounds k ltac:(lia)). apply groups_range; [lia|lia|apply layer_ps_lens|lia|lia].
Qed.

Lemma nl_at_bounds k : (k <= nL)%nat -> 3 <= nl_at k c <= 16.
Proof.
  induction k as [|k IH]; intros Hk; [simpl; lia|]. specialize (IH ltac:(lia)). cbn [nl_at].
  destruct (increment_total (nl_at k c) _ 0 ltac:(lia) ltac:(lia) ltac:(lia) (layer_groups_range k ltac:(lia))). lia.
Qed.

Lemma layer_ps_nil k : lay_totalPasses (layer_at k c) = 0 -> layer_ps k c = [].
Proof. intros E. unfold layer_ps. by rewrite E. Qed.

Lemma nl_at_zero k : (k <= nL)%nat -> passes_upto k c = 0 -> nl_at k c = 3.
Proof.
  induction k as [|k IH]; intros Hk H0; [done|]. rewrite (passes_upto_S nL) in H0 by (done || apply Hok).
  pose proof (passes_upto_bounds k ltac:(lia)). pose proof (layer_passes_nonneg k Hk).
  cbn [nl_at]. rewrite IH by lia. rewrite layer_ps_nil by lia. done.
Qed.

Lemma data_upto_length k : (k <= nL)%nat -> Z.of_nat (length (data_upto k c)) <= Z.of_nat k * 65535.
Proof.
  induction k as [|k IH]; intros Hk; [done|]. rewrite (data_upto_S nL), length_app by (done || apply Hok).
  destruct (bo_layer _ _ _ _ Hok k Hk) as (_ & E2 & E3). specialize (IH ltac:(lia)). lia.
Qed.

(** Everything the lemmas on lengths ask of a layer that includes the block. *)
Lemma layer_facts k : (k < nL)%nat -> 0 < lay_totalPasses (layer_at k c) ->
  cc_numbps c <= 38 /\ (1 <= length (layer_ps k c))%nat /\ sum_len (layer_ps k c) < 2 ^ 16 /\
  passes_upto k c + Z.of_nat (length (layer_ps k c)) <= 3 * cc_numbps c - 2 /\
  0 < passes_upto nL c /\ lay_totalPasses (layer_at k c) <= 88.
Proof.
  intros Hk Hp. pose proof (bo_bps _ _ _ _ Hok) as Hb. unfold maxBitPlanesJ2K in Hb.
  destruct (bo_layer _ _ _ _ Hok k Hk) as (E1 & E2 & E3). pose proof (layer_ps_length k Hk) as Hl.
  pose proof (passes_upto_bounds (S k) ltac:(lia)) as Hbd. rewrite (passes_upto_S nL) in Hbd by (done || apply Hok).
  pose proof (passes_upto_bounds k ltac:(lia)). pose proof (bo_total _ _ _ _ Hok). lia.
Qed.
End Block.

(** The parser's block after the header of layer [layno]. *)
Definition dec_first (c : CodeblockCompress) (d : CodeblockDecompress) : CodeblockDecompress :=
  if first c then cd_setNumLenBits 3 (cd_setNumBps (cc_numbps c) d) else d.
Definition dec_header (sty layno : Z) (c : CodeblockCompress) (d : CodeblockDecompress) : CodeblockDecompress :=
  if included layno c then read_block sty layno (lpasses layno c) (linc layno c) (lgroups layno c) (dec_first c d) else d.

Section BlockStep.
Context (sty mbp : Z) (nL k : nat) (c : CodeblockCompress) (d : CodeblockDecompress).
Hypothesis Hok : cblk_ok sty mbp nL c.
Hypothesis Hk : (k < nL)%nat.
Hypothesis Hs : block_sync sty nL k c d.
Let layno := Z.of_nat k.

Lemma sync_layer_passes : layer_passes layno c = layer_ps k c.
Proof. unfold layer_passes. rewrite (bs_passes _ _ _ _ _ Hs). done. Qed.
Lemma sync_lgroups : lgroups layno c = groups (layer_ps k c) 0 0.
Proof. unfold lgroups. by rewrite sync_layer_passes. Qed.
Lemma sync_nl : nl c = nl_at k c.
Proof.
  unfold nl, first. rewrite (bs_passes _ _ _ _ _ Hs). pose proof (passes_upto_bounds _ _ _ _ Hok k ltac:(lia)).
  destruct (Z.eqb_spec (passes_upto k c) 0) as [E|E].
  - symmetry. apply (nl_at_zero sty mbp nL); [done|lia|done].
  - apply (bs_nl _ _ _ _ _ Hs). lia.
Qed.
Lemma sync_linc : nl c + linc layno c = nl_at (S k) c.
Proof. unfold linc. rewrite sync_lgroups, sync_nl. done. Qed.
Lemma sync_dec_first_nl : cd_numlenbits (dec_first c d) = nl c.
Proof.
  unfold dec_first, nl, first. rewrite (bs_passes _ _ _ _ _ Hs). pose proof (passes_upto_bounds _ _ _ _ Hok k ltac:(lia)).
  destruct (Z.eqb_spec (passes_upto k c) 0) as [E|E]; [done|]. destruct (bs_nl _ _ _ _ _ Hs) as (-> & -> & _); [lia|done].
Qed.
Lemma sync_dec_first : segs_ (dec_first c d) = segs_ d /\ cd_numLayers (dec_first c d) = nL /\ htState_ (dec_first c d) = HT_none /\
  cd_signalledPassesByLayer (dec_first c d) = cd_signalledPassesByLayer d /\ numDataParsedSegments_ (dec_first c d) = length (segs_ d) /\
  cd_numbps (dec_first c d) = cc_numbps c.
Proof.
  pose proof (bs_numLayers _ _ _ _ _ Hs). pose proof (bs_ht _ _ _ _ _ Hs). pose proof (bs_parsed _ _ _ _ _ Hs).
  unfold dec_first. destruct (first c) eqn:E; [done|]. repeat split; try done.
  unfold first in E. rewrite (bs_passes _ _ _ _ _ Hs) in E. apply Z.eqb_neq in E.
  pose proof (passes_upto_bounds _ _ _ _ Hok k ltac:(lia)). apply (bs_nl _ _ _ _ _ Hs). lia.
Qed.

Lemma sync_included : included layno c = true <-> 0 < lay_totalPasses (layer_at k c).
Proof.
  pose proof (layer_passes_nonneg _ _ _ _ Hok k Hk). unfold included, lpasses. fold (layer_at k c).
  rewrite negb_true_iff, Z.eqb_neq. unfold layno. fold (layer_at k c). lia.
Qed.

Lemma sync_readPacketHeader dataBytes (r r' : BitIO St) :
  included layno c = true -> has sty GRK_CBLKSTY_HT_ONLY = false -> 0 <= dataBytes ->
  dataBytes + lay_len (layer_at k c) < 2 ^ 32 -> wf_reader r ->
  gets r (block_code (nl c) (lpasses layno c) (linc layno c) (lgroups layno c)) r' ->
  readPacketHeader layno sty dataBytes (dec_first c d) r =
    hok (dataBytes + lay_len (layer_at k c), dec_header sty layno c d, r').
Proof.
  intros Hin Hht Hdb Hdb2 Hwf Hg. pose proof (proj1 sync_included Hin) as Hp.
  destruct (layer_facts _ _ _ _ Hok k Hk Hp) as (F1 & F2 & F3 & F4 & F5 & F6).
  destruct sync_dec_first as (D1 & D2 & D3 & D4 & D5 & D6).
  destruct (bo_layer _ _ _ _ Hok k Hk) as (E1 & _). pose proof (layer_ps_length _ _ _ _ Hok k Hk) as El.
  pose proof (nl_at_bounds _ _ _ _ Hok k ltac:(lia)) as Hn1. pose proof (nl_at_bounds _ _ _ _ Hok (S k) ltac:(lia)) as Hn2.
  pose proof sync_linc as Hl. rewrite sync_nl in Hl.
  destruct (increment_total (nl_at k c) _ 0 ltac:(lia) ltac:(lia) ltac:(lia) (layer_groups_range _ _ _ _ Hok k Hk)) as [Hinc _].
  destruct (increment_enough (nl_at k c) _ 0 ltac:(lia) ltac:(lia) (layer_groups_range _ _ _ _ Hok k Hk)) as [_ Hen].
  assert (linc layno c = foldl (inc_step (nl_at k c)) 0 (groups (layer_ps k c) 0 0)) as Ei.
  { unfold linc. by rewrite sync_lgroups, sync_nl. }
  rewrite <- Ei in Hinc, Hen.
  assert (lpasses layno c = Z.of_nat (length (layer_ps k c))) as Elp by (rewrite El; reflexivity).
  unfold dec_header. rewrite Hin, E1. rewrite sync_lgroups in *. rewrite Elp in *.
  apply (readPacketHeader_spec (cc_numbps c) sty layno (passes_upto k c) (layer_ps k c)); rewrite ?sync_dec_first_nl, ?sync_nl, ?D1, ?D3; try done; try lia.
  - by apply (layer_ps_flags sty mbp nL).
  - by eapply layer_ps_lens.
  - apply (bs_header _ _ _ _ _ Hs).
  - pose proof (bo_fields _ _ _ _ Hok k Hk) as Hf. rewrite Hl. rewrite Hl in Hen.
    apply list.Forall_and. by split.
  - rewrite sync_nl in Hg. exact Hg.
Qed.

Lemma sync_first : first c = (cd_numlenbits d =? 0).
Proof.
  unfold first. rewrite (bs_passes _ _ _ _ _ Hs). pose proof (passes_upto_bounds _ _ _ _ Hok k ltac:(lia)).
  destruct (Z.eqb_spec (passes_upto k c) 0) as [E|E].
  - by rewrite (bs_nl0 _ _ _ _ _ Hs E).
  - destruct (bs_nl _ _ _ _ _ Hs) as (_ & -> & _); [lia|]. pose proof (nl_at_bounds _ _ _ _ Hok k ltac:(lia)).
    symmetry. apply Z.eqb_neq. lia.
Qed.

Lemma sync_inclusion i incl di dm oc dataBytes (r r' : BitIO St) :
  Z.of_nat nL <= UINT16_MAX -> default (CodeblockDecompress_new nL) oc = d ->
  wf_tree incl -> heap incl -> tree_sync incl_max incl di -> 0 <= i < nleaves incl ->
  (first c = true -> value (node_at incl i) = if included layno c then layno else incl_max) ->
  gets r (incl_code layno i incl c) r' ->
  exists di', read_inclusion layno i oc (mkCR r di dm dataBytes) = hok (included layno c, mkCR r' di' dm dataBytes) /\
    tree_sync incl_max (incl_after layno i incl c) di'.
Proof.
  intros HnL Hoc Hw Hh Hsync Hi Hval Hg. unfold read_inclusion, incl_code, incl_after, UINT16_MAX in *.
  assert (match oc with Some c => cd_numlenbits c =? 0 | None => true end = first c) as ->.
  { rewrite sync_first, <- Hoc. by destruct oc. }
  destruct (first c); cbn [cr_bio cr_incl cr_imsb cr_dataBytes].
  - specialize (Hval eq_refl). pose proof (wt_leaves _ Hw). pose proof (wt_small _ Hw).
    assert (0 <= layno < 65535) as Hlay by (unfold layno; lia).
    rewrite wrap_small in * by (simpl; lia).
    destruct (decode_query incl_max incl di i (layno + 1) r r' Hw Hh Hsync Hi) as (v & di' & Hd & Hs' & Hv); [unfold incl_max, UINT16_MAX; lia|done|].
    rewrite Hd. cbn [hbio_opt hbio hbind]. exists di'. rewrite Hval in Hv.
    destruct (included layno c).
    + destruct (Z.ltb_spec layno (layno + 1)); [|lia]. subst v. rewrite Z.eqb_refl, andb_false_r, Z.leb_refl. done.
    + assert (v = incl_max) as ->.
      { destruct (Z.ltb_spec incl_max (layno + 1)) as [Hlt|_]; [unfold incl_max, UINT16_MAX in Hlt; lia|].
        pose proof (tree_after_facts incl_max incl i (layno + 1) Hw Hh (sync_Forall_enc_ok _ _ _ Hsync) Hi) as ((Hpar & Hc & Hgr) & _).
        apply (decode_uninitialized incl_max (tree_after i (layno + 1) incl) i (layno + 1) r r' v di di'); try done.
        - unfold nnodes in *. rewrite <- (Forall2_length Hgr). lia.
        - unfold nnodes in *. rewrite <- (Forall2_length Hgr). lia.
        - rewrite <- Hval. apply (nodes_grow_nth _ _ i Hgr). }
      rewrite Z.eqb_refl. cbn [negb andb]. unfold incl_max, UINT16_MAX. destruct (Z.leb_spec 65535 layno); [lia|]. done.
  - exists di. split; [|done]. apply gets_cons in Hg as (r1 & Hb & Hg). apply gets_nil in Hg as ->.
    unfold read1. rewrite Hb. cbn [hbio hbind]. by destruct (included layno c).
Qed.

Lemma sync_imsb i imsb di dm dataBytes (r r' : BitIO St) :
  included layno c = true -> wf_tree imsb -> heap imsb -> tree_sync imsb_max imsb dm -> 0 <= i < nleaves imsb ->
  value (node_at imsb i) = mbp - cc_numbps c -> gets r (imsb_code layno i imsb c) r' ->
  exists dm', read_imsb mbp i d (mkCR r di dm dataBytes) = hok (dec_first c d, mkCR r' di dm' dataBytes) /\
    tree_sync imsb_max (imsb_after layno i imsb c) dm'.
Proof.
  intros Hin Hw Hh Hsync Hi Hval Hg. unfold read_imsb, imsb_code, imsb_after, dec_first in *. rewrite Hin in *. rewrite <- sync_first.
  destruct (first c); cbn [andb cr_bio cr_incl cr_imsb cr_dataBytes] in *.
  - pose proof (proj1 sync_included Hin) as Hp. destruct (layer_facts _ _ _ _ Hok k Hk Hp) as (_ & _ & _ & F4 & F5 & _).
    destruct (bo_total _ _ _ _ Hok F5) as [_ Hm]. pose proof (bo_mbp _ _ _ _ Hok) as Hmb. pose proof (bo_bps _ _ _ _ Hok) as Hb.
    set (v := mbp - cc_numbps c) in *. assert (0 <= v <= 29) as Hv by (unfold v; lia).
    destruct (query_done imsb_max imsb i (v + 1) imsb_max Hw Hh (sync_Forall_enc_ok _ _ _ Hsync) Hi) as [Ec Et];
      [lia|unfold imsb_max, UINT8_MAX; lia|].
    rewrite Ec in Hg. rewrite <- Et.
    destruct (imsb_loop_spec i v Hv 32 0 imsb dm r r') as (dm' & E & Hs'); try done; try lia.
    rewrite E. cbn [hbind hok]. exists dm'. destruct (Z.eqb_spec (v + 1) 0); [lia|]. rewrite Z.add_simpl_r.
    destruct (Z.ltb_spec mbp v); [unfold v in *; lia|]. replace (mbp - v) with (cc_numbps c) by (unfold v; lia).
    unfold maxBitPlanesJ2K in *. rewrite wrap_small by (simpl; lia). destruct (Z.ltb_spec 30 (cc_numbps c)); [lia|]. done.
  - apply gets_nil in Hg as ->. by exists dm.
Qed.

Lemma sync_read_cblk i incl imsb di dm oc dataBytes (r r' : BitIO St) :
  Z.of_nat nL <= UINT16_MAX -> has sty GRK_CBLKSTY_HT_ONLY = false -> default (CodeblockDecompress_new nL) oc = d ->
  wf_tree incl -> heap incl -> tree_sync incl_max incl di -> 0 <= i < nleaves incl ->
  (first c = true -> value (node_at incl i) = if included layno c then layno else incl_max) ->
  wf_tree imsb -> heap imsb -> tree_sync imsb_max imsb dm -> 0 <= i < nleaves imsb ->
  value (node_at imsb i) = mbp - cc_numbps c ->
  0 <= dataBytes -> dataBytes + lay_len (layer_at k c) < 2 ^ 32 -> wf_reader r ->
  gets r (cblk_code layno i incl imsb c) r' ->
  exists oc' di' dm', read_cblk layno sty mbp i nL oc (mkCR r di dm dataBytes) =
      hok (oc', mkCR r' di' dm' (dataBytes + lay_len (layer_at k c))) /\
    default (CodeblockDecompress_new nL) oc' = dec_header sty layno c d /\
    tree_sync incl_max (incl_after layno i incl c) di' /\ tree_sync imsb_max (imsb_after layno i imsb c) dm'.
Proof.
  intros HnL Hht Hoc Hw1 Hh1 Hs1 Hi1 Hv1 Hw2 Hh2 Hs2 Hi2 Hv2 Hdb Hdb2 Hwf Hg.
  apply gets_app in Hg as (r1 & Hg1 & Hg). apply gets_app in Hg as (r2 & Hg2 & Hg3).
  destruct (sync_inclusion i incl di dm oc dataBytes r r1) as (di' & E1 & S1); try done.
  unfold read_cblk. rewrite E1. cbn [hbind hok]. destruct (included layno c) eqn:Hin; cbn [negb].
  - rewrite Hoc. destruct (sync_imsb i imsb di' dm dataBytes r1 r2) as (dm' & E2 & S2); try done.
    rewrite E2. cbn [hbind hok cr_bio cr_incl cr_imsb cr_dataBytes].
    rewrite (sync_readPacketHeader dataBytes r2 r'); try done.
    2: { eapply gets_progress; [|exact Hg2]. by eapply gets_progress. }
    cbn [hbind hok]. eexists _, _, _. split; [reflexivity|]. done.
  - unfold imsb_code in Hg2. rewrite Hin in Hg2. apply gets_nil in Hg2 as ->. apply gets_nil in Hg3 as ->.
    assert (lay_len (layer_at k c) = 0) as ->.
    { destruct (bo_layer _ _ _ _ Hok k Hk) as (-> & _). rewrite layer_ps_nil; [done|]. pose proof (layer_passes_nonneg _ _ _ _ Hok k Hk).
      destruct (decide (0 < lay_totalPasses (layer_at k c))) as [Hp|]; [|lia]. apply sync_included in Hp. congruence. }
    eexists _, _, _. rewrite Z.add_0_r. split; [reflexivity|]. unfold dec_header, imsb_after. rewrite Hin. done.
Qed.
End BlockStep.

Lemma enc_header_same layno c : same_block c (enc_header layno c).
Proof. unfold enc_header, same_block. by destruct (included layno c). Qed.

(** A block after the packet of layer [layno]. *)
Definition enc_body (layno : Z) (c : CodeblockCompress) : CodeblockCompress :=
  if lpasses layno c =? 0 then c else cc_incNumPassesInLayer0 (lpasses layno c) c.
Definition enc_step (layno : Z) (c : CodeblockCompress) : CodeblockCompress := enc_body layno (enc_header layno c).

Lemma enc_step_same layno c : same_block c (enc_step layno c).
Proof.
  unfold enc_step, enc_body. pose proof (enc_header_same layno c) as (E1 & E2 & E3).
  by destruct (lpasses layno (enc_header layno c) =? 0).
Qed.
Lemma enc_header_lpasses layno c : lpasses layno (enc_header layno c) = lpasses layno c.
Proof. unfold lpasses, cc_getLayer. by destruct (enc_header_same layno c) as (_ & _ & ->). Qed.

Section BlockData.
Context (sty mbp : Z) (nL k : nat) (c : CodeblockCompress) (d : CodeblockDecompress).
Hypothesis Hok : cblk_ok sty mbp nL c.
Hypothesis Hk : (k < nL)%nat.
Hypothesis HnL : Z.of_nat nL <= UINT16_MAX.
Hypothesis Hs : block_sync sty nL k c d.
Let layno := Z.of_nat k.

(** A block the layer leaves out is as it was. *)
Lemma sync_skip : lay_totalPasses (layer_at k c) = 0 -> enc_step layno c = c /\ block_sync sty nL (S k) c d.
Proof.
  intros E0. assert (lpasses layno c = 0) as El by exact E0. split.
  - unfold enc_step, enc_body. rewrite enc_header_lpasses, El. unfold enc_header, included. by rewrite El.
  - destruct (bo_layer _ _ _ _ Hok k Hk) as (Elen & Edat & _). rewrite layer_ps_nil in Elen by done.
    assert (lay_data (layer_at k c) = []) as Ed by (apply nil_length_inv; unfold sum_len in Elen; simpl in Elen; lia).
    assert (nl_at (S k) c = nl_at k c) as En by (cbn [nl_at]; rewrite layer_ps_nil by done; cbn; lia).
    destruct Hs as [H1 H2 H3 H4 H5 H6 H7 H8 H9 H10 H11 H12].
    split; rewrite ?(passes_upto_S nL), ?(data_upto_S nL), ?E0, ?Ed, ?En, ?Z.add_0_r, ?app_nil_r; try done; try apply Hok.
    intros j Hj. apply H12. lia.
Qed.

Lemma sync_parse data avail off :
  0 <= off -> off + lay_len (layer_at k c) <= Z.of_nat (length data) -> off + lay_len (layer_at k c) < 2 ^ 32 ->
  lay_len (layer_at k c) <= avail ->
  take (Z.to_nat (lay_len (layer_at k c))) (drop (Z.to_nat off) data) = lay_data (layer_at k c) ->
  exists d', parsePacketData layno false data (mkPS (dec_header sty layno c d) avail off) =
      hok (mkPS d' (avail - lay_len (layer_at k c)) (off + lay_len (layer_at k c))) /\
    block_sync sty nL (S k) (enc_step layno c) d'.
Proof.
  intros Hoff Hlen Hoff2 Hav Htake. destruct (bo_layer _ _ _ _ Hok k Hk) as (Elen & Edat & Elt).
  destruct (decide (0 < lay_totalPasses (layer_at k c))) as [Hp|Hp].
  2: { pose proof (layer_passes_nonneg _ _ _ _ Hok k Hk). destruct sync_skip as [E1 E2]; [lia|]. rewrite E1.
       assert (included layno c = false) as Hin by (apply negb_false_iff, Z.eqb_eq; unfold lpasses; fold (layer_at k c); unfold layno; fold (layer_at k c); lia).
       rewrite layer_ps_nil in Elen by lia. unfold dec_header. rewrite Hin. exists d. split; [|done].
       unfold parsePacketData. cbn [ps_cblk]. rewrite (bs_later _ _ _ _ _ Hs) by done. simpl. rewrite Elen. unfold sum_len. simpl.
       by rewrite Z.sub_0_r, Z.add_0_r. }
  pose proof (proj2 (sync_included sty mbp nL k c Hok Hk) Hp) as Hin. fold layno in Hin.
  destruct (layer_facts _ _ _ _ Hok k Hk Hp) as (F1 & F2 & F3 & F4 & F5 & F6).
  destruct (sync_dec_first sty mbp nL k c d Hok Hk Hs) as (D1 & D2 & D3 & D4 & D5 & D6).
  pose proof (layer_ps_length _ _ _ _ Hok k Hk) as El.
  destruct (groups_fit_follow (cc_numbps c) sty (passes_upto k c) (segs_ d) (layer_ps k c)) as (G1 & G2 & G3 & G4); try done.
  { apply (bs_header _ _ _ _ _ Hs). } { by apply (layer_ps_flags sty mbp nL). } { by eapply layer_ps_lens. }
  rewrite <- (sync_lgroups sty nL k c d Hs) in G1, G2, G3, G4. fold layno in G1, G2, G3, G4.
  assert (lpasses layno c = sum_passes (lgroups layno c)) as Elp by (rewrite G2, El; reflexivity).
  assert (sum_bytes (lgroups layno c) = lay_len (layer_at k c)) as Eb by lia.
  pose proof (data_upto_length _ _ _ _ Hok k ltac:(lia)) as Hdl. unfold UINT16_MAX in HnL.
  destruct (parse_block_spec sty layno (passes_upto k c) (lpasses layno c) (linc layno c) (lgroups layno c) (dec_first c d) data avail off)
    as (d' & E & Hpb); rewrite ?D1, ?D2, ?D4, ?D5, ?Eb; try done; try lia.
  { apply (bs_segs _ _ _ _ _ Hs). } { apply (bs_header _ _ _ _ _ Hs). }
  { intros E0. rewrite E0 in Elp. unfold sum_passes in Elp. simpl in Elp. unfold lpasses, layno in Elp. fold (layer_at k c) in Elp. lia. }
  { apply (bs_signalled _ _ _ _ _ Hs). } { rewrite (bs_data _ _ _ _ _ Hs). nia. }
  exists d'. unfold dec_header. rewrite Hin. rewrite Eb in E. split; [exact E|].
  destruct Hpb as [P1 P2 P3 P4 P5 (P6 & P7 & P8 & P9 & P10)]. rewrite Eb, Htake in P4.
  pose proof (enc_step_same layno c) as Hsame. destruct (same_upto c (enc_step layno c) (S k) Hsame) as (U1 & U2 & _).
  assert (lpasses layno c = lay_totalPasses (layer_at k c)) as El2 by done.
  assert (passes_upto (S k) c = passes_upto k c + lpasses layno c) as Eu by (rewrite (passes_upto_S nL) by (done || apply Hok); done).
  pose proof (passes_upto_bounds _ _ _ _ Hok k ltac:(lia)) as Hb1. pose proof (passes_upto_bounds _ _ _ _ Hok (S k) ltac:(lia)) as Hb2.
  pose proof (sync_linc sty mbp nL k c d Hok Hk Hs) as Hl. fold layno in Hl. pose proof (nl_at_bounds _ _ _ _ Hok (S k) ltac:(lia)) as Hnl.
  pose proof (sync_dec_first_nl sty mbp nL k c d Hok Hk Hs) as Hdn.
  assert (enc_step layno c = mkCC (cc_numbps c) (nl_at (S k) c) (passes_upto (S k) c) (cc_passes c) (cc_layers c)) as Hst.
  { unfold enc_step, enc_body. rewrite enc_header_lpasses. unfold enc_header. rewrite Hin.
    destruct (Z.eqb_spec (lpasses layno c) 0) as [E0|_]; [clear -E0 El2 Hp; lia|].
    unfold cc_incNumPassesInLayer0, cc_setNumPassesInLayer0. cbn [cc_numbps cc_numlenbits cc_passesInLayer0 cc_passes cc_layers].
    rewrite Hl, (bs_passes _ _ _ _ _ Hs), <- Eu. rewrite !wrap_small by lia. done. }
  split; rewrite ?U1, ?U2.
  - by rewrite Hst.
  - intros _. rewrite (same_nl_at c _ (S k) Hsame). rewrite Hst. cbn [cc_numlenbits cc_numbps]. rewrite P8, P7. split; [done|].
    cbn [read_block cd_numlenbits cd_numbps cd_setNumLenBits set_segs set_signalled]. rewrite Hdn, Hl. split; [|exact D6].
    apply wrap_small. lia.
  - intros E0. lia.
  - rewrite P6. exact D2.
  - rewrite P10. exact D3.
  - by rewrite Eu.
  - by rewrite <- D2.
  - done.
  - rewrite P4, D1, (bs_data _ _ _ _ _ Hs). symmetry. apply (data_upto_S nL); [apply Hok|done].
  - rewrite P5, D1, (bs_count _ _ _ _ _ Hs). by rewrite Eu.
  - rewrite P9. cbn [read_block cd_signalledPassesByLayer set_segs cd_setNumLenBits set_signalled]. rewrite length_insert, D4. apply (bs_signalled _ _ _ _ _ Hs).
  - intros j Hj. rewrite P9. cbn [read_block cd_signalledPassesByLayer set_segs cd_setNumLenBits set_signalled]. rewrite D4.
    rewrite !nthZ_default, list_lookup_insert_ne by (unfold layno; lia). rewrite <- nthZ_default. apply (bs_later _ _ _ _ _ Hs). lia.
Qed.
End BlockData.

(** ** Precincts *)

(** Setting a leaf at or above the lower bounds keeps the trees in step. *)
Lemma set_step maxT B v i t d : wf_tree t -> heap t -> tree_sync maxT t d -> lows_below B t -> B <= v <= maxT -> 0 <= v ->
  0 <= i < nleaves t ->
  exists t', set i v t = Some t' /\ wf_tree t' /\ heap t' /\ tree_sync maxT t' d /\ lows_below B t' /\ nleaves t' = nleaves t /\
    (forall j, 0 <= j < nleaves t -> value (node_at t' j) = if j =? i then Z.min (value (node_at t j)) v else value (node_at t j)).
Proof.
  intros Hw Hh Hs Hlow HB Hv Hi. destruct (set_spec t i v Hw Hh ltac:(lia) ltac:(lia)) as (t' & E & Hw' & Hh' & Hp & Hc & Hall & Hval).
  exists t'. do 3 (split; [done|]). split.
  { eapply (set_sync maxT t d i v t'); try done; [lia|]. intros j Hj. unfold node_at. rewrite nthZ_default.
    destruct (lookup_lt_is_Some_2 (nodes t) (Z.to_nat j)) as [x Hx]; [unfold nnodes in *; lia|]. rewrite Hx.
    pose proof (Forall_lookup_1 _ _ _ _ Hlow Hx). simpl in *. lia. }
  split. { clear -Hall Hlow. induction Hall as [|x y l l' (E & _) _ IH]; [constructor|].
    apply list.Forall_cons in Hlow as [Hx Hlow]. constructor; [by rewrite E|by apply IH]. }
  split; [unfold nleaves; by rewrite Hc|done].
Qed.

Lemma set_included_spec layno : 0 <= layno <= incl_max -> forall l i t d,
  wf_tree t -> heap t -> tree_sync incl_max t d -> lows_below layno t -> 0 <= i -> i + Z.of_nat (length l) <= nleaves t ->
  exists t', set_included layno i l t = Some t' /\ wf_tree t' /\ heap t' /\ tree_sync incl_max t' d /\ lows_below layno t' /\
    nleaves t' = nleaves t /\ (forall j, 0 <= j < i -> value (node_at t' j) = value (node_at t j)) /\
    (forall m c, l !! m = Some c -> value (node_at t' (i + Z.of_nat m)) =
       if first c && included layno c then Z.min (value (node_at t (i + Z.of_nat m))) layno else value (node_at t (i + Z.of_nat m))).
Proof.
  intros Hlay l. induction l as [|c l IH]; intros i t d Hw Hh Hs Hlow Hi Hn; cbn [set_included]; [by exists t|].
  change (negb (lay_totalPasses (cc_getLayer layno c) =? 0)) with (included layno c). fold (first c). cbn [length] in Hn.
  assert (exists t1, (if first c && included layno c then set i layno t else Some t) = Some t1 /\ wf_tree t1 /\ heap t1 /\
    tree_sync incl_max t1 d /\ lows_below layno t1 /\ nleaves t1 = nleaves t /\
    (forall j, 0 <= j < nleaves t -> value (node_at t1 j) =
       if (j =? i) && (first c && included layno c) then Z.min (value (node_at t j)) layno else value (node_at t j)))
    as (t1 & -> & Hw1 & Hh1 & Hs1 & Hlow1 & Hn1 & Hv1).
  { destruct (first c && included layno c).
    - destruct (set_step incl_max layno layno i t d Hw Hh Hs Hlow ltac:(lia) ltac:(lia) ltac:(lia)) as (t1 & ? & ? & ? & ? & ? & ? & Hv).
      exists t1. do 6 (split; [done|]). intros j Hj. rewrite andb_true_r. by apply Hv.
    - exists t. do 6 (split; [done|]). intros j _. by rewrite andb_false_r. }
  destruct (IH (i + 1) t1 d) as (t' & E & Hw' & Hh' & Hs' & Hlow' & Hn' & Hpre & Hval); try done; try lia.
  exists t'. do 5 (split; [done|]). split; [lia|]. split.
  - intros j Hj. rewrite Hpre, Hv1 by lia. destruct (Z.eqb_spec j i); [lia|done].
  - intros m c' Hm. destruct m as [|m].
    + injection Hm as <-. rewrite Z.add_0_r, Hpre, Hv1, Z.eqb_refl by lia. done.
    + cbn in Hm. specialize (Hval m c' Hm). replace (i + Z.of_nat (S m)) with (i + 1 + Z.of_nat m) by lia. rewrite Hval.
      apply lookup_lt_Some in Hm. rewrite !Hv1 by lia. destruct (Z.eqb_spec (i + 1 + Z.of_nat m) i); [lia|done].
Qed.

Lemma take_drop_split (data x y : list Z) a b off : 0 <= a -> 0 <= b -> 0 <= off -> Z.of_nat (length x) = a ->
  take (Z.to_nat (a + b)) (drop (Z.to_nat off) data) = x ++ y ->
  take (Z.to_nat a) (drop (Z.to_nat off) data) = x /\ take (Z.to_nat b) (drop (Z.to_nat (off + a)) data) = y.
Proof.
  intros Ha Hb Ho Hx E.
  replace (Z.to_nat (a + b)) with (Z.to_nat a + Z.to_nat b)%nat in E by lia.
  rewrite <- take_take_drop, drop_drop in E. replace (Z.to_nat off + Z.to_nat a)%nat with (Z.to_nat (off + a)) in E by lia.
  apply app_inj_1 in E; [done|]. apply (f_equal length) in E. rewrite !length_app in E.
  rewrite length_take in *. rewrite length_take in E.
  destruct (Nat.le_gt_cases (Z.to_nat a) (length (drop (Z.to_nat off) data))); [lia|].
  rewrite !length_drop in *. lia.
Qed.

Definition body_len (layno : Z) (cs : list CodeblockCompress) : Z := foldr (fun c s => lay_len (cc_getLayer layno c) + s) 0 cs.

Section Precinct.
Context (sty mbp : Z) (nL k : nat).
Hypothesis Hk : (k < nL)%nat.
Hypothesis HnL : Z.of_nat nL <= UINT16_MAX.
Hypothesis Hht : has sty GRK_CBLKSTY_HT_ONLY = false.
Abbreviation layno := (Z.of_nat k).
Abbreviation block_state c oc := (cblk_ok sty mbp nL c /\ block_sync sty nL k c (block_of nL oc)).

Lemma layer_at_nonneg c : cblk_ok sty mbp nL c -> 0 <= lay_len (layer_at k c).
Proof. intros Hok. destruct (bo_layer _ _ _ _ Hok k Hk) as (_ & E & _). lia. Qed.

(** The leaves of the blocks from [i] on, as the header of the layer needs them. *)
Definition leaves_ok (i : Z) (incl imsb : TagTree) (cs : list CodeblockCompress) : Prop :=
  forall m c, cs !! m = Some c ->
    (first c = true -> value (node_at incl (i + Z.of_nat m)) = if included layno c then layno else incl_max) /\
    value (node_at imsb (i + Z.of_nat m)) = mbp - cc_numbps c.

Lemma leaves_ok_next i incl imsb incl' imsb' c cs : leaves_ok i incl imsb (c :: cs) ->
  (forall j, value (node_at incl' j) = value (node_at incl j)) -> (forall j, value (node_at imsb' j) = value (node_at imsb j)) ->
  leaves_ok (i + 1) incl' imsb' cs.
Proof.
  intros Hv H1 H2 m c' Hm. specialize (Hv (S m) c' Hm). rewrite H1, H2. by replace (i + 1 + Z.of_nat m) with (i + Z.of_nat (S m)) by lia.
Qed.

Lemma incl_after_facts i n incl c : enc_tree incl_max n incl -> 0 <= i < n ->
  enc_tree incl_max n (incl_after layno i incl c) /\
  (forall j, value (node_at (incl_after layno i incl c) j) = value (node_at incl j)) /\
  (lows_below (layno + 1) incl -> lows_below (layno + 1) (incl_after layno i incl c)).
Proof.
  intros He Hi. unfold incl_after. destruct (first c); [|done].
  destruct (enc_tree_after incl_max n incl i (u16 (layno + 1)) He Hi) as [He' Hv]. split; [done|]. split; [done|].
  intros Hl. destruct He as [Hw Hh Ho Hn]. unfold UINT16_MAX in HnL. apply (tree_after_low incl_max); try done; try lia.
  rewrite wrap_small; lia.
Qed.
Lemma imsb_after_facts i n imsb c : enc_tree imsb_max n imsb -> 0 <= i < n ->
  enc_tree imsb_max n (imsb_after layno i imsb c) /\
  (forall j, value (node_at (imsb_after layno i imsb c) j) = value (node_at imsb j)).
Proof. intros He Hi. unfold imsb_after. destruct (included layno c && first c); [|done]. by apply enc_tree_after. Qed.

Lemma body_len_nonneg cs : Forall (cblk_ok sty mbp nL) cs -> 0 <= body_len layno cs.
Proof. induction 1 as [|c cs Hc _ IH]; [done|]. unfold body_len in *. cbn [foldr]. pose proof (layer_at_nonneg c Hc). unfold layer_at in *. lia. Qed.

(** The bits of a precinct's blocks. *)
Fixpoint cblks_code (i : Z) (incl imsb : TagTree) (cs : list CodeblockCompress) : list bool :=
  match cs with
  | [] => []
  | c :: cs => cblk_code layno i incl imsb c ++ cblks_code (i + 1) (incl_after layno i incl c) (imsb_after layno i imsb c) cs
  end.

Lemma cblks_roundtrip cs ls : Forall2 (fun c oc => block_state c oc) cs ls ->
  forall i n (bio bio' : BitIO St) incl incl' imsb imsb' cs',
  enc_tree incl_max n incl -> enc_tree imsb_max n imsb -> 0 <= i -> i + Z.of_nat (length cs) <= n -> leaves_ok i incl imsb cs ->
  compress_cblks layno i bio incl imsb cs = eok (bio', incl', imsb', cs') ->
  cs' = enc_header layno <$> cs /\ enc_tree incl_max n incl' /\ enc_tree imsb_max n imsb' /\
  (forall j, value (node_at incl' j) = value (node_at incl j)) /\ (forall j, value (node_at imsb' j) = value (node_at imsb j)) /\
  (lows_below (layno + 1) incl -> lows_below (layno + 1) incl') /\
  exists code, code = cblks_code i incl imsb cs /\ puts bio code bio' /\
    forall di dm dataBytes (r r' : BitIO St), tree_sync incl_max incl di -> tree_sync imsb_max imsb dm -> 0 <= dataBytes ->
      dataBytes + body_len layno cs < 2 ^ 32 -> wf_reader r -> gets r code r' ->
      exists ls' di' dm', read_cblks layno sty mbp i nL ls (mkCR r di dm dataBytes) =
          hok (ls', mkCR r' di' dm' (dataBytes + body_len layno cs)) /\
        (fun oc => block_of nL oc) <$> ls' = zip_with (dec_header sty layno) cs ((fun oc => block_of nL oc) <$> ls) /\
        tree_sync incl_max incl' di' /\ tree_sync imsb_max imsb' dm'.
Proof.
  induction 1 as [|c oc cs ls [Hok Hs] Hall IH]; intros i n bio bio' incl incl' imsb imsb' cs' He1 He2 Hi Hn Hv; cbn [compress_cblks].
  { intros [= <- <- <- <-]. do 6 (split; [done|]). exists []. do 2 (split; [done|]). intros di dm db r r' S1 S2 _ _ _ ->%gets_nil.
    exists [], di, dm. cbn. by rewrite Z.add_0_r. }
  cbn [length] in Hn. destruct (compress_cblk layno i bio incl imsb c) as [[[[[b1 t1] t2] c1]|]|] eqn:E1; [|done|done]. cbn [hbind].
  destruct (compress_cblks layno (i + 1) b1 t1 t2 cs) as [[[[[b2 t3] t4] l2]|]|] eqn:E2; [|done|done]. cbn [hbind eok].
  intros [= <- <- <- <-].
  pose proof (layer_passes_nonneg _ _ _ _ Hok k Hk) as Hp0. pose proof (passes_upto_bounds _ _ _ _ Hok (S k) ltac:(lia)) as Hb.
  rewrite (passes_upto_S nL) in Hb by (done || apply Hok). pose proof (passes_upto_bounds _ _ _ _ Hok k ltac:(lia)) as Hb0.
  pose proof (sync_linc sty mbp nL k c _ Hok Hk Hs) as Hl. pose proof (nl_at_bounds _ _ _ _ Hok (S k) ltac:(lia)) as Hnl.
  destruct (compress_cblk_spec layno i n bio b1 incl t1 imsb t2 c c1 He1 He2) as (Hput & -> & -> & ->); [lia|unfold lpasses, layer_at in *; lia|lia|exact E1|].
  destruct (incl_after_facts i n incl c He1 ltac:(lia)) as (He1' & Hv1 & Hlo1). destruct (imsb_after_facts i n imsb c He2 ltac:(lia)) as (He2' & Hv2).
  destruct (IH (i + 1) n b1 b2 _ t3 _ t4 l2 He1' He2' ltac:(lia) ltac:(lia) (leaves_ok_next _ _ _ _ _ _ _ Hv Hv1 Hv2) E2)
    as (-> & He3 & He4 & Hv3 & Hv4 & Hlo3 & code & Hcode & Hput2 & Hread).
  split; [done|]. split; [done|]. split; [done|]. split; [intros j; by rewrite Hv3|]. split; [intros j; by rewrite Hv4|]. split; [auto|].
  exists (cblk_code layno i incl imsb c ++ code). split; [by rewrite Hcode|]. split; [rewrite puts_app; eauto|].
  intros di dm db r r' S1 S2 Hdb Hdb2 Hwf (r1 & Hg1 & Hg2)%gets_app.
  unfold body_len in Hdb2 |- *. cbn [foldr] in Hdb2 |- *. fold (body_len layno cs) in Hdb2 |- *. change (cc_getLayer layno c) with (layer_at k c) in *.
  assert (0 <= body_len layno cs) as Hb2.
  { apply body_len_nonneg. clear -Hall. induction Hall as [|? ? ? ? [? _]]; by constructor. }
  pose proof (layer_at_nonneg c Hok) as Hl0. destruct (Hv 0%nat c eq_refl) as [Hvi Hvm]. rewrite Z.add_0_r in Hvi, Hvm.
  destruct He1 as [W1 X1 O1 N1], He2 as [W2 X2 O2 N2].
  destruct (sync_read_cblk sty mbp nL k c _ Hok Hk Hs i incl imsb di dm oc db r r1) as (oc' & di' & dm' & Er & Eoc & S1' & S2'); try done; try lia.
  cbn [read_cblks]. rewrite Er. cbn [hbind hok].
  destruct (Hread di' dm' (db + lay_len (layer_at k c)) r1 r' S1' S2') as (ls' & di2 & dm2 & Er2 & Els & S3 & S4); [lia|lia|by eapply gets_progress|done|].
  rewrite Er2. cbn [hbind hok]. eexists _, _, _. rewrite Z.add_assoc. split; [reflexivity|]. split; [|done].
  rewrite !fmap_cons, Els, Eoc. done.
Qed.

Definition layer_body (cs : list CodeblockCompress) : list Z := mjoin ((fun c => lay_data (cc_getLayer layno c)) <$> cs).

Lemma length_layer_body cs : Forall (cblk_ok sty mbp nL) cs -> Z.of_nat (length (layer_body cs)) = body_len layno cs.
Proof.
  induction 1 as [|c cs Hc _ IH]; [done|]. unfold layer_body, body_len in *. rewrite fmap_cons. cbn [foldr].
  change (mjoin (?a :: ?l)) with (a ++ mjoin l) at 1. rewrite length_app, Nat2Z.inj_add, IH.
  destruct (bo_layer _ _ _ _ Hc k Hk) as (_ & E & _). unfold layer_at in E. lia.
Qed.

Lemma cblks_data cs ls : Forall2 (fun c oc => block_state c oc) cs ls -> forall ls' data avail off,
  (fun oc => block_of nL oc) <$> ls' = zip_with (dec_header sty layno) cs ((fun oc => block_of nL oc) <$> ls) ->
  0 <= off -> off + body_len layno cs <= Z.of_nat (length data) -> off + body_len layno cs < 2 ^ 32 -> body_len layno cs <= avail ->
  take (Z.to_nat (body_len layno cs)) (drop (Z.to_nat off) data) = layer_body cs ->
  exists ls2, parse_cblks layno false data nL ls' avail off = Some (true, ls2, avail - body_len layno cs, off + body_len layno cs) /\
    Forall2 (fun c oc => cblk_ok sty mbp nL c /\ block_sync sty nL (S k) c (block_of nL oc)) (enc_step layno <$> cs) ls2.
Proof.
  induction 1 as [|c oc cs ls [Hok Hs] Hall IH]; intros ls' data avail off Els Hoff Hlen Hoff2 Hav Htake.
  { apply fmap_nil_inv in Els as ->. exists []. cbn. rewrite Z.sub_0_r, Z.add_0_r. split; [done|constructor]. }
  destruct ls' as [|oc' ls']; [done|]. rewrite !fmap_cons in Els. cbn [zip_with] in Els. injection Els as Eoc Els.
  unfold body_len in *. cbn [foldr] in *. fold (body_len layno cs) in *. change (cc_getLayer layno c) with (layer_at k c) in *.
  assert (0 <= body_len layno cs) as Hb2.
  { apply body_len_nonneg. clear -Hall. induction Hall as [|? ? ? ? [? _]]; by constructor. }
  pose proof (layer_at_nonneg c Hok) as Hl0. destruct (bo_layer _ _ _ _ Hok k Hk) as (_ & Edat & _).
  unfold layer_body in Htake. rewrite fmap_cons in Htake. change (mjoin (?a :: ?l)) with (a ++ mjoin l) in Htake.
  fold (layer_body cs) in Htake. apply take_drop_split in Htake as [T1 T2]; [|done|done|done|exact Edat].
  cbn [parse_cblks]. rewrite Eoc.
  destruct (sync_parse sty mbp nL k c _ Hok Hk HnL Hs data avail off) as (d' & E & Hs'); try done; try lia.
  rewrite E. unfold hok. cbn [ps_remaining ps_offset ps_cblk].
  destruct (IH ls' data (avail - lay_len (layer_at k c)) (off + lay_len (layer_at k c)) Els) as (ls2 & E2 & Hall2); try done; try lia.
  rewrite E2. eexists. split; [do 2 f_equal; [f_equal|]; lia|]. rewrite fmap_cons. constructor; [|done].
  split; [|done]. eapply same_cblk_ok; [apply enc_step_same|done].
Qed.
End Precinct.

(** The state of a precinct on both sides before layer [k]. *)
Record prec_sync (sty mbp : Z) (nL k : nat) (p : PrecinctC) (q : PrecinctD) : Prop := {
  pr_incl : enc_tree incl_max (Z.of_nat (length (pc_cblks p))) (pc_incl p);
  pr_imsb : enc_tree imsb_max (Z.of_nat (length (pc_cblks p))) (pc_imsb p);
  pr_incl_sync : tree_sync incl_max (pc_incl p) (pd_incl q);
  pr_imsb_sync : tree_sync imsb_max (pc_imsb p) (pd_imsb q);
  pr_lows : lows_below (Z.of_nat k) (pc_incl p);
  pr_leaves : forall m c, pc_cblks p !! m = Some c ->
    (passes_upto k c = 0 -> value (node_at (pc_incl p) (Z.of_nat m)) = incl_max) /\
    value (node_at (pc_imsb p) (Z.of_nat m)) = mbp - cc_numbps c;
  pr_numLayers : pd_numLayers q = nL;
  pr_blocks : Forall2 (fun c oc => cblk_ok sty mbp nL c /\ block_sync sty nL k c (block_of nL oc)) (pc_cblks p) (pd_cblks q);
}.

(** The same between the header of layer [k] and its data: [p] is the encoder's
    precinct before the header, [p'] after it. *)
Record prec_mid (sty mbp : Z) (nL k : nat) (p p' : PrecinctC) (q : PrecinctD) : Prop := {
  pm_cblks : pc_cblks p' = enc_header (Z.of_nat k) <$> pc_cblks p;
  pm_incl : enc_tree incl_max (Z.of_nat (length (pc_cblks p))) (pc_incl p');
  pm_imsb : enc_tree imsb_max (Z.of_nat (length (pc_cblks p))) (pc_imsb p');
  pm_incl_sync : tree_sync incl_max (pc_incl p') (pd_incl q);
  pm_imsb_sync : tree_sync imsb_max (pc_imsb p') (pd_imsb q);
  pm_lows : lows_below (Z.of_nat (S k)) (pc_incl p');
  pm_leaves : forall m c, pc_cblks p !! m = Some c ->
    (passes_upto (S k) c = 0 -> value (node_at (pc_incl p') (Z.of_nat m)) = incl_max) /\
    value (node_at (pc_imsb p') (Z.of_nat m)) = mbp - cc_numbps c;
  pm_numLayers : pd_numLayers q = nL;
  pm_blocks : exists ls, Forall2 (fun c oc => cblk_ok sty mbp nL c /\ block_sync sty nL k c (block_of nL oc)) (pc_cblks p) ls /\
    (fun oc => block_of nL oc) <$> pd_cblks q = zip_with (dec_header sty (Z.of_nat k)) (pc_cblks p) ((fun oc => block_of nL oc) <$> ls);
}.

Section PrecinctStep.
Context (sty mbp : Z) (nL k : nat).
Hypothesis Hk : (k < nL)%nat.
Hypothesis HnL : Z.of_nat nL <= UINT16_MAX.
Hypothesis Hht : has sty GRK_CBLKSTY_HT_ONLY = false.
Abbreviation layno := (Z.of_nat k).

Definition precinct_code (p : PrecinctC) : list bool :=
  match set_included layno 0 (pc_cblks p) (pc_incl p) with
  | Some incl => cblks_code k 0 incl (pc_imsb p) (pc_cblks p)
  | None => []
  end.

Lemma precinct_header p q (bio bio' : BitIO St) p' : prec_sync sty mbp nL k p q -> compress_precinct layno bio p = eok (bio', p') ->
  pc_cblks p' = enc_header layno <$> pc_cblks p /\
  exists code, code = precinct_code p /\ puts bio code bio' /\
    forall dataBytes (r r' : BitIO St), 0 <= dataBytes -> dataBytes + body_len layno (pc_cblks p) < 2 ^ 32 -> wf_reader r -> gets r code r' ->
      exists ls' di' dm', read_cblks layno sty mbp 0 (pd_numLayers q) (pd_cblks q) (mkCR r (pd_incl q) (pd_imsb q) dataBytes) =
          hok (ls', mkCR r' di' dm' (dataBytes + body_len layno (pc_cblks p))) /\
        prec_mid sty mbp nL k p p' (mkPrecD di' dm' (pd_numLayers q) ls').
Proof.
  intros Hs He. pose proof Hs as [[W1 H1 O1 N1] E2 S1 S2 Hlow Hlv HL Hbl]. unfold UINT16_MAX in HnL.
  destruct (set_included_spec layno ltac:(unfold incl_max, UINT16_MAX; lia) (pc_cblks p) 0 (pc_incl p) (pd_incl q))
    as (t & Et & Wt & Ht & St' & Lt & Nt & _ & Vt); try done; try lia.
  unfold compress_precinct in He. rewrite Et in He.
  destruct (compress_cblks layno 0 bio t (pc_imsb p) (pc_cblks p)) as [[[[[b1 t1] t2] l1]|]|] eqn:E1; [|done|done].
  cbn [hbind eok] in He. injection He as <- <-.
  assert (enc_tree incl_max (Z.of_nat (length (pc_cblks p))) t) as Het by (split; [done|done|by eapply sync_Forall_enc_ok|lia]).
  assert (forall m c, pc_cblks p !! m = Some c -> cblk_ok sty mbp nL c /\ exists d, block_sync sty nL k c d) as Hst.
  { intros m c Hm. destruct (Forall2_lookup_l _ _ _ _ _ Hbl Hm) as (oc & _ & Hc & Hb). split; [done|]. by eexists. }
  assert (leaves_ok mbp k 0 t (pc_imsb p) (pc_cblks p)) as Hlvs.
  { intros m c Hm. destruct (Hst m c Hm) as (Hc & d & Hb). destruct (Hlv m c Hm) as [L1 L2].
    specialize (Vt m c Hm). rewrite Z.add_0_l in *. split; [|done]. intros Hf. rewrite Vt, Hf. cbn [andb].
    unfold first in Hf. apply Z.eqb_eq in Hf. rewrite (bs_passes _ _ _ _ _ Hb) in Hf. rewrite L1 by done.
    destruct (included layno c); [|done]. unfold incl_max, UINT16_MAX. lia. }
  destruct (cblks_roundtrip sty mbp nL k Hk HnL Hht (pc_cblks p) (pd_cblks q) Hbl 0 _ bio b1 t t1 (pc_imsb p) t2 l1 Het E2 ltac:(lia) ltac:(lia) Hlvs E1)
    as (-> & X1 & X2 & V1 & V2 & Hlo & code & Hcode & Hput & Hread).
  split; [done|]. exists code. split; [unfold precinct_code; by rewrite Et|]. split; [done|]. intros db r r' Hdb Hdb2 Hwf Hg. rewrite HL.
  destruct (Hread (pd_incl q) (pd_imsb q) db r r') as (ls' & di' & dm' & Er & Els & S3 & S4); try done.
  exists ls', di', dm'. split; [done|]. split; try done.
  - cbn [pc_incl]. rewrite Nat2Z.inj_succ, <- Z.add_1_r. apply Hlo. eapply Forall_impl; [|exact Lt]. simpl. lia.
  - intros m c Hm. destruct (Hst m c Hm) as (Hc & d & Hb). destruct (Hlv m c Hm) as [L1 L2]. cbn [pc_incl pc_imsb]. rewrite V1, V2.
    split; [|done]. intros E0. rewrite (passes_upto_S nL) in E0 by (done || apply Hc).
    pose proof (passes_upto_bounds _ _ _ _ Hc k ltac:(lia)). pose proof (layer_passes_nonneg _ _ _ _ Hc k Hk).
    specialize (Vt m c Hm). rewrite Z.add_0_l in Vt. rewrite Vt.
    assert (included layno c = false) as ->; [|rewrite andb_false_r; apply L1; lia].
    apply negb_false_iff, Z.eqb_eq. unfold lpasses. fold (layer_at k c). lia.
  - by exists (pd_cblks q).
Qed.

Lemma precinct_data p p' q data avail off : prec_mid sty mbp nL k p p' q ->
  let len := body_len layno (pc_cblks p) in
  0 <= off -> off + len <= Z.of_nat (length data) -> off + len < 2 ^ 32 -> len <= avail ->
  take (Z.to_nat len) (drop (Z.to_nat off) data) = layer_body k (pc_cblks p) ->
  exists ls, parse_cblks layno false data (pd_numLayers q) (pd_cblks q) avail off = Some (true, ls, avail - len, off + len) /\
    prec_sync sty mbp nL (S k) (mkPrecC (pc_incl p') (pc_imsb p') (enc_step layno <$> pc_cblks p))
      (mkPrecD (pd_incl q) (pd_imsb q) (pd_numLayers q) ls).
Proof.
  intros [M1 M2 M3 M4 M5 M6 M7 M8 (ls & Hbl & Els)] len Hoff Hlen Hoff2 Hav Htake.
  destruct (cblks_data sty mbp nL k Hk HnL (pc_cblks p) ls Hbl (pd_cblks q) data avail off Els) as (ls2 & E & Hbl2); try done.
  rewrite M8. exists ls2. split; [done|]. split; cbn [pc_cblks pc_incl pc_imsb pd_incl pd_imsb pd_numLayers pd_cblks]; rewrite ?length_fmap; try done.
  intros m c Hm. rewrite list_lookup_fmap in Hm. destruct (pc_cblks p !! m) as [c0|] eqn:E0; [|done]. injection Hm as <-.
  pose proof (enc_step_same layno c0) as Hsame. destruct (same_upto c0 _ (S k) Hsame) as (-> & _). destruct Hsame as (-> & _). by apply M7.
Qed.
End PrecinctStep.
End RoundTrip.
