(* ===== verification/PacketRoundTrip.v ===== *)
(** The packet round trip: what [T2Compress::compressPacket] writes for a layer of a
    precinct ([write_packet]), [PacketParser::readHeader] and [readData] read back.

    The files below it are put together here: the bits of the header (BitIO), the
    two tag trees (TagTree, TagTreeQueries), the segment lengths (PacketLengths), the
    precincts (PrecinctRoundTrip), and the SOP and EPH markers and the body. *)
From S2P Require Import Prelude BitIO TagTree TagTreeQueries Geometry Codeblock PacketHeader PacketLengths PrecinctRoundTrip.

Section Packets.
Context {St : Type} `{Stream : IStreamWriter St} `{!IStreamWriterLaws St}.
(** [writeBytes] of the stream: a successful write appends the bytes. *)
Variable writeBytes : list Z -> bstep St.
Hypothesis writeBytes_ok : forall l st st', writeBytes l st = (true, st') -> stream_contents st' = stream_contents st ++ l.

(** ** Bands *)

Section Bands.
Context (sty : Z) (nL k : nat).
Hypothesis Hk : (k < nL)%nat.
Hypothesis HnL : Z.of_nat nL <= UINT16_MAX.
Hypothesis Hht : has sty GRK_CBLKSTY_HT_ONLY = false.
Abbreviation layno := (Z.of_nat k).

Lemma write_body_cblks_spec mbp cs : Forall (cblk_ok sty mbp nL) cs -> forall st st' cs',
  write_body_cblks writeBytes layno st (enc_header layno <$> cs) = eok (st', cs') ->
  cs' = enc_step layno <$> cs /\ stream_contents st' = stream_contents st ++ layer_body k cs.
Proof.
  induction 1 as [|c cs Hc Hcs IH]; intros st st' cs'.
  { intros [= <- <-]. by rewrite app_nil_r. }
  rewrite fmap_cons. cbn [write_body_cblks].
  assert (cc_getLayer layno (enc_header layno c) = cc_getLayer layno c) as ->.
  { unfold cc_getLayer. by destruct (enc_header_same layno c) as (_ & _ & ->). }
  destruct (bo_layer _ _ _ _ Hc k Hk) as (E1 & E2 & _). unfold layer_at in *.
  assert (forall st1 c1, (if lay_totalPasses (cc_getLayer layno c) =? 0 then eok (st, enc_header layno c)
      else let! st := if lay_len (cc_getLayer layno c) =? 0 then eok st else lift_b (writeBytes (lay_data (cc_getLayer layno c)) st) in
           eok (st, cc_incNumPassesInLayer0 (lay_totalPasses (cc_getLayer layno c)) (enc_header layno c))) = eok (st1, c1) ->
      c1 = enc_step layno c /\ stream_contents st1 = stream_contents st ++ lay_data (cc_getLayer layno c)) as Hone.
  { intros st1 c1. unfold enc_step, enc_body. rewrite enc_header_lpasses. unfold lpasses.
    destruct (Z.eqb_spec (lay_totalPasses (cc_getLayer layno c)) 0) as [E0|E0].
    - intros [= <- <-]. split; [done|]. rewrite layer_ps_nil in E1 by done. unfold sum_len in E1. simpl in E1.
      rewrite (nil_length_inv (lay_data (cc_getLayer layno c))) by lia. by rewrite app_nil_r.
    - destruct (Z.eqb_spec (lay_len (cc_getLayer layno c)) 0) as [El|El].
      + cbn. intros [= <- <-]. split; [done|]. rewrite (nil_length_inv (lay_data (cc_getLayer layno c))) by lia. by rewrite app_nil_r.
      + destruct (writeBytes (lay_data (cc_getLayer layno c)) st) as [[] st2] eqn:Ew; [|done]. cbn. intros [= <- <-].
        split; [done|]. by apply writeBytes_ok. }
  destruct (if lay_totalPasses _ =? 0 then _ else _) as [[[st1 c1]|]|]; [|done|done]. cbn [hbind].
  destruct (Hone st1 c1 eq_refl) as [-> Hst1]. clear Hone.
  destruct (write_body_cblks writeBytes layno st1 (enc_header layno <$> cs)) as [[[st2 l2]|]|] eqn:E; [|done|done]. cbn [hbind].
  intros [= <- <-]. destruct (IH _ _ _ E) as [-> Hst2]. split; [done|]. rewrite Hst2, Hst1, <- app_assoc. done.
Qed.

(** A band the packet skips: empty, or without blocks in the precinct. *)
Definition dec_skips (d : BandD) : Prop :=
  bd_empty d = true \/ bd_prc d = None \/ exists q, bd_prc d = Some q /\ pd_cblks q = [].

(** The state of a band on both sides before layer [j]. *)
Inductive band_sync (j : nat) : BandC -> BandD -> Prop :=
| band_skipped b d p : bc_prc b = Some p -> skips_band b p = true -> dec_skips d -> band_sync j b d
| band_coded b d p q : bc_prc b = Some p -> skips_band b p = false -> bd_empty d = false -> bd_prc d = Some q ->
    bd_maxBitPlanes d = bc_maxBitPlanes b -> prec_sync sty (bc_maxBitPlanes b) nL j p q -> band_sync j b d.

(** The same between the header and the data of layer [k]. *)
Inductive band_mid : BandC -> BandC -> BandD -> Prop :=
| mid_skipped b d p : bc_prc b = Some p -> skips_band b p = true -> dec_skips d -> band_mid b b d
| mid_coded b d p p' q : bc_prc b = Some p -> skips_band b p = false -> bd_empty d = false -> bd_prc d = Some q ->
    bd_maxBitPlanes d = bc_maxBitPlanes b -> prec_mid sty (bc_maxBitPlanes b) nL k p p' q ->
    band_mid b (mkBandC (bc_empty b) (bc_maxBitPlanes b) (Some p')) d.

(** The header's effect on a band of the encoder. *)
Inductive band_written : BandC -> BandC -> Prop :=
| written_skipped b p : bc_prc b = Some p -> skips_band b p = true -> band_written b b
| written_coded b p p' : bc_prc b = Some p -> skips_band b p = false -> pc_cblks p' = enc_header layno <$> pc_cblks p ->
    band_written b (mkBandC (bc_empty b) (bc_maxBitPlanes b) (Some p')).

Definition band_cblks (b : BandC) : list CodeblockCompress :=
  match bc_prc b with Some p => if skips_band b p then [] else pc_cblks p | None => [] end.
Definition lens (bs : list BandC) : list nat := (fun b => length (band_cblks b)) <$> bs.
Definition bands_len (bs : list BandC) : Z := foldr (fun b s => body_len layno (band_cblks b) + s) 0 bs.
Definition bands_body (bs : list BandC) : list Z := mjoin ((fun b => layer_body k (band_cblks b)) <$> bs).

Lemma band_len_nonneg b d : band_sync k b d -> 0 <= body_len layno (band_cblks b).
Proof.
  intros [? ? p E Hsk _|? ? p q E Hsk _ _ _ Hs]; unfold band_cblks; rewrite E, Hsk; [done|].
  apply (body_len_nonneg sty (bc_maxBitPlanes b0) nL k Hk). pose proof (pr_blocks _ _ _ _ _ _ Hs) as Hbl.
  clear -Hbl. induction Hbl as [|? ? ? ? [? _]]; by constructor.
Qed.

Lemma bands_len_nonneg bs ds : Forall2 (band_sync k) bs ds -> 0 <= bands_len bs.
Proof. induction 1 as [|b d bs ds Hb _ IH]; [done|]. unfold bands_len in *. cbn [foldr]. pose proof (band_len_nonneg b d Hb). lia. Qed.

Abbreviation blocks_below tileBytes bs := (Forall (fun b => Z.shiftr (Z.of_nat (length (band_cblks b))) 3 <= tileBytes) bs).

Lemma read_skipped d ds tileBytes dataBytes (r : BitIO St) : dec_skips d -> 0 <= tileBytes ->
  exists d', read_bands layno sty tileBytes r dataBytes (d :: ds) =
      (let! (l, bio, n) := read_bands layno sty tileBytes r dataBytes ds in fok (d' :: l, bio, n)) /\ dec_skips d'.
Proof.
  intros Hs Ht. cbn [read_bands]. destruct (bd_prc d) as [q|] eqn:Eq; [|by exists d]. destruct (bd_empty d) eqn:Ee; [by exists d|].
  destruct Hs as [E|[E|(q' & E & Hq)]]; [congruence|congruence|]. assert (q' = q) as -> by congruence. rewrite Hq.
  change (Z.shiftr (Z.of_nat (length (@nil (option CodeblockDecompress)))) 3) with 0. destruct (Z.ltb_spec tileBytes 0); [lia|].
  eexists. split; [reflexivity|]. right; right. eexists. by split; [reflexivity|].
Qed.

(** The bits of a packet header after the first one. *)
Definition band_code (b : BandC) : list bool :=
  match bc_prc b with Some p => if skips_band b p then [] else precinct_code k p | None => [] end.
Definition bands_code (bs : list BandC) : list bool := mjoin (band_code <$> bs).

Lemma bands_header bs ds : Forall2 (band_sync k) bs ds -> forall (bio bio' : BitIO St) bs',
  compress_bands layno bio bs = eok (bio', bs') ->
  Forall2 band_written bs bs' /\ exists code, code = bands_code bs /\ puts bio code bio' /\
    forall tileBytes dataBytes (r r' : BitIO St), 0 <= tileBytes -> blocks_below tileBytes bs -> 0 <= dataBytes ->
      dataBytes + bands_len bs < 2 ^ 32 -> wf_reader r -> gets r code r' ->
      exists ds', read_bands layno sty tileBytes r dataBytes ds = fok (ds', r', dataBytes + bands_len bs) /\ Forall3 band_mid bs bs' ds'.
Proof.
  induction 1 as [|b d bs ds Hb Hall IH]; intros bio bio' bs'; cbn [compress_bands].
  { intros [= <- <-]. split; [constructor|]. exists []. do 2 (split; [done|]). intros tb db r r' _ _ _ _ _ ->%gets_nil. exists []. cbn. rewrite Z.add_0_r. split; [done|constructor]. }
  pose proof (bands_len_nonneg bs ds Hall) as Hl0. pose proof (band_len_nonneg b d Hb) as Hl1.
  assert (bands_len (b :: bs) = body_len layno (band_cblks b) + bands_len bs) as Elen by done. rewrite Elen.
  destruct Hb as [b d p E Hsk Hd|b d p q E Hsk Hem Hq Hmb Hs]; rewrite E, Hsk.
  - cbn [hbind eok]. destruct (compress_bands layno bio bs) as [[[b2 l2]|]|] eqn:E2; [|done|done]. cbn [hbind]. intros [= <- <-].
    destruct (IH bio b2 l2 E2) as (Hwr & code & Hcode & Hput & Hread). split; [constructor; [by econstructor|done]|]. exists code.
    split; [rewrite Hcode; unfold bands_code, band_code; rewrite fmap_cons, E, Hsk; done|]. split; [done|].
    intros tb db r r' Htb Hbl Hdb Hdb2 Hwf Hg. apply list.Forall_cons in Hbl as [_ Hbl].
    destruct (read_skipped d ds tb db r Hd Htb) as (d' & Er & Hd'). rewrite Er.
    assert (body_len layno (band_cblks b) = 0) as -> by (unfold band_cblks; by rewrite E, Hsk).
    destruct (Hread tb db r r') as (ds' & Er2 & Hmid); try done; try lia.
    rewrite Er2. cbn [hbind fok]. eexists. split; [reflexivity|]. constructor; [by econstructor|done].
  - cbn [hbind eok]. destruct (compress_precinct layno bio p) as [[[b1 p']|]|] eqn:E1; [|done|done]. cbn [hbind eok].
    destruct (compress_bands layno b1 bs) as [[[b2 l2]|]|] eqn:E2; [|done|done]. cbn [hbind]. intros [= <- <-].
    destruct (precinct_header sty (bc_maxBitPlanes b) nL k Hk HnL Hht p q bio b1 p' Hs E1) as (Hcb & code1 & Hcode1 & Hput1 & Hread1).
    destruct (IH b1 b2 l2 E2) as (Hwr & code2 & Hcode2 & Hput2 & Hread2). split; [constructor; [by econstructor|done]|].
    exists (code1 ++ code2). split; [rewrite Hcode1, Hcode2; unfold bands_code, band_code; by rewrite fmap_cons, E, Hsk|]. split; [rewrite puts_app; eauto|].
    intros tb db r r' Htb Hbl Hdb Hdb2 Hwf (r1 & Hg1 & Hg2)%gets_app. apply list.Forall_cons in Hbl as [Hbl0 Hbl]. cbn [read_bands].
    assert (band_cblks b = pc_cblks p) as Ec by (unfold band_cblks; by rewrite E, Hsk). rewrite Ec in *.
    rewrite Hq, Hem. rewrite <- (Forall2_length (pr_blocks _ _ _ _ _ _ Hs)). destruct (Z.ltb_spec tb (Z.shiftr (Z.of_nat (length (pc_cblks p))) 3)); [lia|].
    destruct (Hread1 db r r1) as (ls' & di' & dm' & Er1 & Hmid1); try done; try lia.
    rewrite Hmb, Er1. cbn [hbind hok try_header fok cr_bio cr_dataBytes cr_incl cr_imsb].
    destruct (Hread2 tb (db + body_len layno (pc_cblks p)) r1 r') as (ds' & Er2 & Hmid2); try done; try lia.
    { by eapply gets_progress. }
    rewrite Er2. cbn [hbind fok]. rewrite Z.add_assoc. eexists. split; [reflexivity|]. constructor; [|done].
    by eapply mid_coded; cbn.
Qed.

Lemma band_sync_ok b d : band_sync k b d -> exists mbp, Forall (cblk_ok sty mbp nL) (band_cblks b).
Proof.
  intros [? ? p E Hsk _|? ? p q E Hsk _ _ _ Hs]; unfold band_cblks; rewrite E, Hsk; [by exists 0|].
  exists (bc_maxBitPlanes b0). pose proof (pr_blocks _ _ _ _ _ _ Hs) as Hbl. clear -Hbl. induction Hbl as [|? ? ? ? [? _]]; by constructor.
Qed.

Lemma parse_skipped d ds data avail off : dec_skips d ->
  exists d', parse_bands layno false data (d :: ds) avail off =
      match parse_bands layno false data ds avail off with
      | None => None
      | Some (ok, l, avail, off) => Some (ok, d' :: l, avail, off)
      end /\ dec_skips d'.
Proof.
  intros Hs. cbn [parse_bands]. destruct (bd_prc d) as [q|] eqn:Eq; [|by exists d]. destruct (bd_empty d) eqn:Ee; [by exists d|].
  destruct Hs as [E|[E|(q' & E & Hq)]]; [congruence|congruence|]. assert (q' = q) as -> by congruence. rewrite Hq. cbn [parse_cblks negb].
  eexists. split; [reflexivity|]. right; right. eexists. by split; [reflexivity|].
Qed.

Lemma coded_step_cblks b p p' : bc_prc b = Some p -> skips_band b p = false ->
  band_cblks (mkBandC (bc_empty b) (bc_maxBitPlanes b) (Some (mkPrecC (pc_incl p') (pc_imsb p') (enc_step layno <$> pc_cblks p)))) =
    enc_step layno <$> pc_cblks p.
Proof.
  intros E Hsk. unfold band_cblks, skips_band in *. cbn [bc_prc bc_empty pc_cblks]. by rewrite length_fmap, Hsk.
Qed.

Lemma skips_written b p p' : skips_band b p = false -> pc_cblks p' = enc_header layno <$> pc_cblks p ->
  skips_band (mkBandC (bc_empty b) (bc_maxBitPlanes b) (Some p')) p' = false.
Proof. intros <- E. unfold skips_band. cbn [bc_empty]. by rewrite E, length_fmap. Qed.

(** The body of the packet and the bands it leaves. *)
Lemma bands_write bs bs' : Forall2 band_written bs bs' -> forall ds, Forall2 (band_sync k) bs ds ->
  forall st st' bs2, write_body writeBytes layno st bs' = eok (st', bs2) ->
  lens bs2 = lens bs /\ stream_contents st' = stream_contents st ++ bands_body bs.
Proof.
  induction 1 as [|b b' bs bs' Hb _ IH]; intros ds Hs st st' bs2; cbn [write_body].
  { intros [= <- <-]. split; [done|]. by rewrite app_nil_r. }
  apply Forall2_cons_inv_l in Hs as (d & ds' & Hd & Hs & ->). destruct (band_sync_ok b d Hd) as (mbp & Hoks).
  assert (bands_body (b :: bs) = layer_body k (band_cblks b) ++ bands_body bs) as -> by done.
  destruct Hb as [b p E Hsk|b p p' E Hsk Hcb].
  - rewrite E, Hsk. cbn [hbind eok]. destruct (write_body writeBytes layno st bs') as [[[st1 l1]|]|] eqn:E1; [|done|done]. cbn [hbind].
    intros [= <- <-]. destruct (IH ds' Hs st st1 l1 E1) as [Hl ->]. split; [unfold lens in *; by rewrite !fmap_cons, Hl|].
    unfold band_cblks. by rewrite E, Hsk.
  - cbn [bc_prc]. rewrite (skips_written b p p' Hsk Hcb), Hcb.
    assert (band_cblks b = pc_cblks p) as Ec by (unfold band_cblks; by rewrite E, Hsk). rewrite Ec in *.
    destruct (write_body_cblks writeBytes layno st (enc_header layno <$> pc_cblks p)) as [[[st1 c1]|]|] eqn:E1; [|done|done]. cbn [hbind eok].
    destruct (write_body writeBytes layno st1 bs') as [[[st2 l1]|]|] eqn:E2; [|done|done]. cbn [hbind]. intros [= <- <-].
    destruct (write_body_cblks_spec mbp (pc_cblks p) Hoks st st1 c1 E1) as [-> Hst1]. destruct (IH ds' Hs st1 st2 l1 E2) as [Hl Hst2].
    split; [|by rewrite Hst2, Hst1, <- app_assoc]. unfold lens in *. rewrite !fmap_cons, Hl, (coded_step_cblks b p p' E Hsk), Ec. by rewrite length_fmap.
Qed.

(** The parser takes the body apart and is in step for the next layer. *)
Lemma bands_parse bs bs' ds : Forall3 band_mid bs bs' ds -> Forall (fun b => exists mbp, Forall (cblk_ok sty mbp nL) (band_cblks b)) bs ->
  forall st st' bs2, write_body writeBytes layno st bs' = eok (st', bs2) ->
  forall data avail off, 0 <= off -> off + bands_len bs <= Z.of_nat (length data) -> off + bands_len bs < 2 ^ 32 -> bands_len bs <= avail ->
    take (Z.to_nat (bands_len bs)) (drop (Z.to_nat off) data) = bands_body bs ->
    exists ds2, parse_bands layno false data ds avail off = Some (true, ds2, avail - bands_len bs, off + bands_len bs) /\
      Forall2 (band_sync (S k)) bs2 ds2.
Proof.
  induction 1 as [|b b' d bs bs' ds Hb Hall IH]; intros Hoks st st' bs2; cbn [write_body].
  { intros [= <- <-] data avail off _ _ _ _ _. exists []. cbn. rewrite Z.sub_0_r, Z.add_0_r. split; [done|constructor]. }
  apply list.Forall_cons in Hoks as [(mbp & Hok) Hoks].
  pose proof (body_len_nonneg sty mbp nL k Hk _ Hok) as Hl1. pose proof (length_layer_body sty mbp nL k Hk _ Hok) as Hlb.
  assert (0 <= bands_len bs) as Hl0.
  { clear -Hoks Hk. induction Hoks as [|x l (mb & Ho) _ I]; [done|]. unfold bands_len in *. cbn [foldr].
    pose proof (body_len_nonneg sty mb nL k Hk _ Ho). lia. }
  assert (bands_len (b :: bs) = body_len layno (band_cblks b) + bands_len bs) as -> by done.
  assert (bands_body (b :: bs) = layer_body k (band_cblks b) ++ bands_body bs) as -> by done.
  destruct Hb as [b d p E Hsk Hd|b d p p' q E Hsk Hem Hq Hmb Hm].
  - rewrite E, Hsk. cbn [hbind eok]. destruct (write_body writeBytes layno st bs') as [[[st1 l1]|]|] eqn:E1; [|done|done]. cbn [hbind].
    intros [= <- <-] data avail off Hoff Hlen Hoff2 Hav Htake.
    assert (band_cblks b = []) as Eb by (unfold band_cblks; by rewrite E, Hsk). rewrite Eb in *.
    change (body_len layno []) with 0 in *. rewrite Z.add_0_l in *.
    destruct (IH Hoks st st1 l1 E1 data avail off) as (ds2 & E2 & Hs2); try done.
    destruct (parse_skipped d ds data avail off Hd) as (d' & -> & Hd'). rewrite E2. eexists. split; [reflexivity|]. constructor; [by econstructor|done].
  - cbn [bc_prc]. pose proof (pm_cblks _ _ _ _ _ _ _ Hm) as Hcb. rewrite (skips_written b p p' Hsk Hcb), Hcb.
    assert (band_cblks b = pc_cblks p) as Ec by (unfold band_cblks; by rewrite E, Hsk). rewrite Ec in *.
    destruct (write_body_cblks writeBytes layno st (enc_header layno <$> pc_cblks p)) as [[[st1 c1]|]|] eqn:E1; [|done|done]. cbn [hbind eok].
    destruct (write_body writeBytes layno st1 bs') as [[[st2 l1]|]|] eqn:E2; [|done|done]. cbn [hbind].
    intros [= <- <-] data avail off Hoff Hlen Hoff2 Hav Htake.
    destruct (write_body_cblks_spec mbp (pc_cblks p) Hok st st1 c1 E1) as [-> _].
    apply take_drop_split in Htake as [T1 T2]; [|done|done|done|done].
    destruct (precinct_data sty (bc_maxBitPlanes b) nL k Hk HnL p p' q data avail off Hm) as (ls & Ep & Hps); try done; try lia.
    cbn [parse_bands]. rewrite Hq, Hem, Ep. cbn [negb].
    destruct (IH Hoks st1 st2 l1 E2 data (avail - body_len layno (pc_cblks p)) (off + body_len layno (pc_cblks p))) as (ds2 & E3 & Hs2); try done; try lia.
    rewrite E3. eexists. split; [do 2 f_equal; [f_equal|]; lia|]. constructor; [|done].
    eapply band_coded; cbn [bc_prc bd_empty bd_prc bd_maxBitPlanes bc_maxBitPlanes]; try done.
    rewrite <- Hsk. unfold skips_band. cbn [bc_empty pc_cblks]. by rewrite length_fmap.
Qed.
End Bands.

(** ** The first packet *)

(** A precinct before its first packet: trees as built for its [w * h] blocks, no
    block in the parser. *)
Record prec_init (sty mbp : Z) (nL : nat) (p : PrecinctC) (q : PrecinctD) : Prop := {
  pi_trees : exists w h, 0 <= w <= 16384 /\ 0 <= h <= 16384 /\ w * h = Z.of_nat (length (pc_cblks p)) /\
    TagTree_new incl_max w h = Some (pd_incl q) /\ TagTree_new imsb_max w h = Some (pd_imsb q);
  pi_incl : pc_incl p = pd_incl q;
  pi_imsb : pc_imsb p = pd_imsb q;
  pi_numLayers : pd_numLayers q = nL;
  pi_cblks : pd_cblks q = replicate (length (pc_cblks p)) None;
  pi_blocks : Forall (cblk_ok sty mbp nL) (pc_cblks p);
}.

Inductive band_init (sty : Z) (nL : nat) : BandC -> BandD -> Prop :=
| init_skipped b d p : bc_prc b = Some p -> skips_band b p = true -> dec_skips d -> band_init sty nL b d
| init_coded b d p q : bc_prc b = Some p -> skips_band b p = false -> bd_empty d = false -> bd_prc d = Some q ->
    bd_maxBitPlanes d = bc_maxBitPlanes b -> prec_init sty (bc_maxBitPlanes b) nL p q -> band_init sty nL b d.

Lemma reset_new maxT w h t : TagTree_new maxT w h = Some t -> reset maxT t = t.
Proof.
  unfold TagTree_new. destruct (buildTree w h) as [b|]; [|done]. intros [= <-]. unfold reset. simpl. f_equal; rewrite <- list_fmap_compose; done.
Qed.

Lemma init_cblks_spec mbp d n : forall l i t l' t',
  wf_tree t -> heap t -> tree_sync imsb_max t d -> lows_below 0 t -> 0 <= i -> i + Z.of_nat (length l) <= n -> n <= nleaves t ->
  Forall (fun c => cc_numbps c <= mbp <= cc_numbps c + imsb_max) l ->
  (forall j, i <= j < i + Z.of_nat (length l) -> value (node_at t j) = imsb_max) ->
  init_cblks mbp i l t = eok (l', t') ->
  l' = cc_setNumPassesInLayer0 0 <$> l /\ wf_tree t' /\ heap t' /\ tree_sync imsb_max t' d /\ n <= nleaves t' /\
  (forall j, 0 <= j < i -> value (node_at t' j) = value (node_at t j)) /\
  (forall m c, l !! m = Some c -> value (node_at t' (i + Z.of_nat m)) = mbp - cc_numbps c).
Proof.
  induction l as [|c l IH]; intros i t l' t' Hw Hh Hs Hlow Hi Hn Hnl Hl Hv; cbn [init_cblks]; [by intros [= <- <-]|].
  apply list.Forall_cons in Hl as [Hc Hl]. cbn [length] in Hn, Hv. destruct (Z.ltb_spec mbp (cc_numbps c)); [done|].
  destruct (set_step imsb_max 0 (mbp - cc_numbps c) i t d Hw Hh Hs Hlow ltac:(lia) ltac:(lia) ltac:(lia))
    as (t1 & -> & Hw1 & Hh1 & Hs1 & Hlow1 & Hn1 & Hval).
  destruct (init_cblks mbp (i + 1) l t1) as [[[l2 t2]|]|] eqn:E; [|done|done]. cbn [hbind eok]. intros [= <- <-].
  destruct (IH (i + 1) t1 l2 t2) as (-> & Hw2 & Hh2 & Hs2 & Hn2 & Hpre & Hpost); try done; try lia.
  { intros j Hj. rewrite Hval by lia. destruct (Z.eqb_spec j i); [lia|]. apply Hv. lia. }
  do 5 (split; [done|]). split.
  - intros j Hj. rewrite Hpre, Hval by lia. destruct (Z.eqb_spec j i); [lia|done].
  - intros [|m] c' Hm.
    + injection Hm as <-. rewrite Z.add_0_r, Hpre, Hval, Z.eqb_refl, Hv by lia. lia.
    + replace (i + Z.of_nat (S m)) with (i + 1 + Z.of_nat m) by lia. by apply Hpost.
Qed.

Lemma init_block_sync sty mbp nL c : cblk_ok sty mbp nL c ->
  block_sync sty nL 0 (cc_setNumPassesInLayer0 0 c) (CodeblockDecompress_new nL).
Proof.
  intros Hc. assert (forall k, passes_upto 0 k = 0) as E0 by done.
  split; rewrite ?E0; try done; try lia; cbn [cd_signalledPassesByLayer CodeblockDecompress_new segs_].
  - by left.
  - by rewrite length_replicate.
  - intros j Hj. rewrite nthZ_default. destruct (replicate nL 0 !! Z.to_nat j) as [x|] eqn:E; [|done].
    apply lookup_replicate in E as [-> _]. done.
Qed.

Lemma init_precinct_spec sty mbp nL p q p' : prec_init sty mbp nL p q -> init_precinct mbp p = eok p' -> prec_sync sty mbp nL 0 p' q.
Proof.
  intros [(w & h & Hw & Hh & Hn & T1 & T2) E1 E2 HL Hcb Hok]. unfold init_precinct.
  rewrite E1, E2, (reset_new _ _ _ _ T1), (reset_new _ _ _ _ T2).
  destruct (TagTree_new_spec incl_max ltac:(done) w h Hw Hh) as (t1 & T1' & W1 & H1 & N1 & F1 & S1 & _). assert (t1 = pd_incl q) as -> by congruence.
  destruct (TagTree_new_spec imsb_max ltac:(done) w h Hw Hh) as (t2 & T2' & W2 & H2 & N2 & F2 & S2 & _). assert (t2 = pd_imsb q) as -> by congruence.
  assert (forall maxT t, (forall i, 0 <= i < nnodes t -> node_at t i = fresh_node maxT) -> lows_below 0 t) as Hlows.
  { intros maxT t F. apply Forall_lookup_2. intros i x Hx. specialize (F (Z.of_nat i)). unfold node_at in F.
    rewrite (nthZ_lookup _ _ _ x) in F by (by rewrite Nat2Z.id). rewrite F; [done|]. apply lookup_lt_Some in Hx. unfold nnodes. lia. }
  destruct (init_cblks mbp 0 (pc_cblks p) (pd_imsb q)) as [[[l' t']|]|] eqn:E; [|done|done]. cbn [hbind eok]. intros [= <-].
  destruct (init_cblks_spec mbp (pd_imsb q) (Z.of_nat (length (pc_cblks p))) (pc_cblks p) 0 (pd_imsb q) l' t')
    as (-> & W3 & H3 & S3 & N3 & _ & V3); try done; try lia.
  { by eapply Hlows. }
  { eapply Forall_impl; [|exact Hok]. intros c [B1 B2 _ _ _ _ _ _ _ _]. unfold imsb_max, UINT8_MAX. lia. }
  { intros j Hj. rewrite F2; [done|]. pose proof (wt_leaves _ W2). lia. }
  split; cbn [pc_incl pc_imsb pc_cblks]; rewrite ?length_fmap; try done.
  - split; [done|done|by eapply sync_Forall_enc_ok|lia].
  - split; [done|done|by eapply sync_Forall_enc_ok|lia].
  - by eapply Hlows.
  - intros m c Hm. rewrite list_lookup_fmap in Hm. destruct (pc_cblks p !! m) as [c0|] eqn:E0; [|done]. injection Hm as <-. split.
    + intros _. rewrite F1; [done|]. apply lookup_lt_Some in E0. pose proof (wt_leaves _ W1). lia.
    + by apply (V3 m c0).
  - rewrite Hcb. clear -Hok. induction Hok as [|c l Hc _ IH]; [constructor|]. constructor; [|done]. split.
    + eapply same_cblk_ok; [|exact Hc]. done.
    + by eapply init_block_sync.
Qed.

Lemma init_bands_spec sty nL bs ds : Forall2 (band_init sty nL) bs ds -> forall bs', init_bands bs = eok bs' ->
  Forall2 (band_sync sty nL 0) bs' ds /\ lens bs' = lens bs.
Proof.
  induction 1 as [|b d bs ds Hb _ IH]; intros bs'; cbn [init_bands]; [intros [= <-]; split; [constructor|done]|].
  destruct Hb as [b d p E Hsk Hd|b d p q E Hsk Hem Hq Hmb Hp]; rewrite E, Hsk.
  - cbn [hbind eok]. destruct (init_bands bs) as [[l|]|] eqn:E1; [|done|done]. cbn [hbind]. intros [= <-]. destruct (IH l eq_refl) as [Hs Hl].
    split; [constructor; [by econstructor|done]|]. unfold lens in *. by rewrite !fmap_cons, Hl.
  - destruct (init_precinct (bc_maxBitPlanes b) p) as [[p'|]|] eqn:E0; [|done|done]. cbn [hbind eok].
    destruct (init_bands bs) as [[l|]|] eqn:E1; [|done|done]. cbn [hbind]. intros [= <-]. destruct (IH l eq_refl) as [Hs Hl].
    pose proof (init_precinct_spec sty _ nL p q p' Hp E0) as Hps.
    assert (length (pc_cblks p') = length (pc_cblks p)) as Hlen.
    { by rewrite (Forall2_length (pr_blocks _ _ _ _ _ _ Hps)), (pi_cblks _ _ _ _ _ Hp), length_replicate. }
    assert (skips_band (mkBandC (bc_empty b) (bc_maxBitPlanes b) (Some p')) p' = false) as Hsk'.
    { rewrite <- Hsk. unfold skips_band. cbn. by rewrite Hlen. }
    split; [constructor; [by eapply band_coded; cbn|done]|]. unfold lens in *. rewrite !fmap_cons, Hl. f_equal.
    unfold band_cblks. cbn [bc_prc]. by rewrite E, Hsk, Hsk'.
Qed.

(** ** The header *)

Definition packet_state (sty : Z) (nL k : nat) (bs : list BandC) (ds : list BandD) : Prop :=
  if (k =? 0)%nat then Forall2 (band_init sty nL) bs ds else Forall2 (band_sync sty nL k) bs ds.

(** The tile has at least a byte for every eight blocks of each precinct. *)
Definition tile_large (tileBytes : Z) (ns : list nat) : Prop :=
  0 <= tileBytes /\ Forall (fun n => Z.shiftr (Z.of_nat n) 3 <= tileBytes) ns.

Definition eph_bytes (csty : Z) : list Z :=
  if negb (Z.land csty CP_CSTY_EPH =? 0) then [Z.shiftr EPH 8; Z.land EPH 0xff] else [].
Definition sop_bytes (csty n : Z) : list Z :=
  if negb (Z.land csty CP_CSTY_SOP =? 0) then [Z.shiftr SOP 8; Z.land SOP 0xff; 0; 4; Z.shiftr n 8; Z.land n 0xff] else [].

Lemma nthZ_middle (l : list Z) i x y : nthZ 0 (l ++ x :: y) (Z.of_nat (length l)) = x /\
  (i = Z.of_nat (length l) + 1 -> nthZ 0 (l ++ x :: y) i = nthZ 0 y 0).
Proof.
  split; [apply nthZ_lookup; rewrite Nat2Z.id; by apply list_lookup_middle|].
  intros ->. rewrite !nthZ_default. replace (Z.to_nat (Z.of_nat (length l) + 1)) with (length l + 1)%nat by lia.
  rewrite lookup_app_r by lia. replace (length l + 1 - length l)%nat with 1%nat by lia. done.
Qed.

Lemma puts_stream bs : forall w w' : BitIO St, is_Some (stream w) -> puts w bs w' -> is_Some (stream w').
Proof.
  unfold puts. induction bs as [|b bs IH]; intros w w' Hs; [by intros [= <-]|]. cbn [put_bits]. unfold bseq.
  destruct (putbit (Z.b2z b) w) as [[] w1] eqn:E; [|done]. apply IH. by apply (putbit_emitted w b w1 Hs) in E as [? _].
Qed.
Lemma flush_stream (w w' : BitIO St) : is_Some (stream w) -> flush w = (true, w') -> is_Some (stream w').
Proof.
  unfold flush. intros Hs. destruct (write8u w) as [[] w1] eqn:E; [|done]. apply (write8u_emitted w w1 Hs) in E as [_ Hs1].
  destruct (ct w1 =? 7); [|by intros [= <-]]. intros E. by apply (write8u_emitted w1 w' Hs1) in E as [_ ?].
Qed.

Section Header.
Context (sty : Z) (nL k : nat).
Hypothesis Hk : (k < nL)%nat.
Hypothesis HnL : Z.of_nat nL <= UINT16_MAX.
Hypothesis Hht : has sty GRK_CBLKSTY_HT_ONLY = false.
Abbreviation layno := (Z.of_nat k).

Lemma compressHeader_parts bs bs' ds (bio bio' : BitIO St) : packet_state sty nL k bs ds ->
  compressHeader layno bio bs = eok (bio', bs') ->
  exists bs0 w0 w1, (if layno =? 0 then init_bands bs else eok bs) = eok bs0 /\
    Forall2 (band_sync sty nL k) bs0 ds /\ lens bs0 = lens bs /\ puts bio [true] w0 /\
    compress_bands layno w0 bs0 = eok (w1, bs') /\ flush w1 = (true, bio').
Proof.
  intros Hp. unfold compressHeader.
  assert (forall bs0, (if layno =? 0 then init_bands bs else eok bs) = eok bs0 -> Forall2 (band_sync sty nL k) bs0 ds /\ lens bs0 = lens bs) as Hinit.
  { intros bs0. unfold packet_state in Hp. destruct k as [|j]; simpl in *; [by apply init_bands_spec|]. by intros [= <-]. }
  match goal with |- hbind ?m _ = _ -> _ => destruct m as [[bs0|]|] eqn:Ei end; [|done|done]. cbn [hbind].
  rewrite write1_bit. destruct (put_bits [Z.odd 1] bio) as [[] w0] eqn:E0; [|done]. cbn [lift_b hbind eok].
  destruct (compress_bands layno w0 bs0) as [[[w1 l]|]|] eqn:E1; [|done|done]. cbn [hbind].
  destruct (flush w1) as [[] w2] eqn:E2; [|done]. cbn [lift_b hbind eok]. intros [= <- <-].
  destruct (Hinit bs0 Ei) as [Hs Hl]. exists bs0, w0, w1. split; [exact Ei|]. do 2 (split; [done|]). split; [exact E0|]. done.
Qed.

Lemma header_roundtrip csty tileBytes st bs bs' ds (bio' : BitIO St) : packet_state sty nL k bs ds -> tile_large tileBytes (lens bs) ->
  compressHeader layno (BitIO_stream st true) bs = eok (bio', bs') ->
  exists bs0 hdr, Forall2 (band_sync sty nL k) bs0 ds /\ Forall2 (band_written k) bs0 bs' /\ lens bs0 = lens bs /\ emitted bio' = stream_contents st ++ hdr /\ is_Some (stream bio') /\
    forall T, bands_len k bs0 < 2 ^ 32 -> Z.of_nat (length hdr) < 2 ^ 32 -> Z.of_nat (length (hdr ++ eph_bytes csty ++ T)) < 2 ^ 64 ->
      exists ds', read_header_bits (St := St) csty sty tileBytes layno (hdr ++ eph_bytes csty ++ T) ds =
          fok (true, ds', bands_len k bs0, Z.of_nat (length (hdr ++ eph_bytes csty))) /\
        Forall3 (band_mid sty nL k) bs0 bs' ds'.
Proof.
  intros Hp Htile He. destruct (compressHeader_parts bs bs' ds _ bio' Hp He) as (bs0 & w0 & w1 & _ & Hs & Hlens & Hput0 & Hc & Hf).
  destruct (bands_header sty nL k Hk HnL Hht bs0 ds Hs w0 w1 bs' Hc) as (Hwr & code & Hcode & Hput & Hread).
  assert (puts (BitIO_stream st true) ([true] ++ code) w1) as Hputs by (rewrite puts_app; eauto).
  destruct (bits_roundtrip st ([true] ++ code) [] w1 bio' ltac:(done) Hputs Hf) as (hdr & _ & _ & Hem & _).
  exists bs0, hdr. do 4 (split; [done|]). split.
  { apply (flush_stream w1); [|done]. apply (puts_stream ([true] ++ code) (BitIO_stream st true) w1); [simpl; eauto|done]. }
  intros T Hbl Hhl Hall.
  destruct (bits_roundtrip st ([true] ++ code) (eph_bytes csty ++ T) w1 bio' ltac:(done) Hputs Hf) as (hdr' & r1 & r2 & Hem' & Hg & Hfin & Hnum).
  rewrite Hem in Hem'. apply app_inv_head in Hem' as <-.
  set (bytes := hdr ++ eph_bytes csty ++ T) in *. unfold read_header_bits.
  destruct (Z.eqb_spec (Z.of_nat (length bytes)) 0) as [E0|E0].
  { destruct bytes; [|simpl in E0; lia]. apply gets_app in Hg as (r0 & Hg & _). by apply gets_cons in Hg as (r0' & Hg & _). }
  apply gets_app in Hg as (r0 & Hg0 & Hg). pose proof Hg0 as Hg0'. apply gets_cons in Hg0 as (r0' & Hb & Hnil). apply gets_nil in Hnil as <-.
  unfold read1. rewrite Hb. cbn [hbio try_header hbind fok Z.b2z]. change (negb (1 =? 0)) with true. cbn match.
  assert (wf_reader r0) as Hwf.
  { eapply gets_progress; [|exact Hg0']. unfold wf_reader. simpl. lia. }
  destruct (Hread tileBytes 0 r0 r1) as (ds' & Er & Hmid); try done; try lia.
  { apply Htile. } { destruct Htile as [_ Htile]. rewrite <- Hlens in Htile. unfold lens in Htile. rewrite list.Forall_fmap in Htile. exact Htile. }
  rewrite Er. cbn [hbind fok]. rewrite Hfin. cbn [hbio try_header hbind fok]. rewrite Hnum.
  exists ds'. split; [|done]. unfold eph_bytes in *.
  destruct (negb (Z.land csty CP_CSTY_EPH =? 0)).
  - unfold bytes in *. rewrite !length_app in *. cbn [length] in *. rewrite (wrap_small 32) by lia. rewrite (wrap_small 64) by lia.
    destruct (Z.ltb_spec (Z.of_nat (length hdr + (2 + length T)) - Z.of_nat (length hdr)) 2); [lia|].
    assert (be16_at (hdr ++ [Z.shiftr EPH 8; Z.land EPH 255] ++ T) (Z.of_nat (length hdr)) = EPH) as ->.
    { unfold be16_at. cbn [app]. destruct (nthZ_middle hdr (Z.of_nat (length hdr) + 1) (Z.shiftr EPH 8) (Z.land EPH 255 :: T)) as [-> ->]; done. }
    rewrite Z.eqb_refl. cbn [negb hbind fok].
    destruct (Z.ltb_spec (Z.of_nat (length hdr + (2 + length T))) (Z.of_nat (length hdr) + 2)); [lia|].
    unfold fok. do 4 f_equal. lia.
  - unfold bytes in *. rewrite app_nil_l, app_nil_r in *. cbn [hbind fok].
    destruct (Z.ltb_spec (Z.of_nat (length (hdr ++ T))) (Z.of_nat (length hdr))); [rewrite length_app in *; lia|done].
Qed.

(** ** The packet *)

Lemma write_all8u_spec l : forall st st' : St, write_all8u l st = (true, st') -> stream_contents st' = stream_contents st ++ l.
Proof.
  induction l as [|b l IH]; intros st st'; [intros [= <-]; by rewrite app_nil_r|]. cbn [write_all8u]. unfold bseq.
  destruct (stream_write8u b st) as [[] st1] eqn:E; [|done]. intros E2. apply stream_write8u_ok in E. rewrite (IH _ _ E2), E, <- app_assoc. done.
Qed.

Lemma be16_bytes n : 0 <= n -> Z.lor (Z.shiftl (Z.shiftr n 8) 8) (Z.land n 255) = n.
Proof.
  intros Hn. apply Z.bits_inj'. intros i Hi. rewrite Z.lor_spec, Z.shiftl_spec, Z.land_spec by done. change 255 with (Z.ones 8).
  rewrite Z.testbit_ones_nonneg by lia. destruct (Z.ltb_spec i 8).
  - rewrite Z.testbit_neg_r by lia. apply andb_true_r.
  - rewrite Z.shiftr_spec by lia. rewrite Z.sub_add, andb_false_r. apply orb_false_r.
Qed.

Lemma read_sop_spec csty n pl data : 0 <= n ->
  read_sop csty (PacketParser_new n layno pl (sop_bytes csty n ++ data)) = fok (Z.of_nat (length (sop_bytes csty n))).
Proof.
  intros Hn. unfold read_sop, sop_bytes. cbn [layerData_ layerBytesAvailable_ packetSequenceNumber_ PacketParser_new].
  destruct (negb (Z.land csty CP_CSTY_SOP =? 0)); [|done]. cbn [andb].
  set (d := [Z.shiftr SOP 8; Z.land SOP 255; 0; 4; Z.shiftr n 8; Z.land n 255]). rewrite length_app. cbn [length d].
  destruct (Z.leb_spec 2 (Z.of_nat (6 + length data))); [|lia]. change (be16_at (d ++ data) 0) with SOP. rewrite Z.eqb_refl.
  destruct (Z.ltb_spec (Z.of_nat (6 + length data)) 6); [lia|].
  change (be16_at (d ++ data) 4) with (Z.lor (Z.shiftl (Z.shiftr n 8) 8) (Z.land n 255)). rewrite be16_bytes, Z.eqb_refl by done. done.
Qed.

Lemma bands_body_length bs ds : Forall2 (band_sync sty nL k) bs ds -> Z.of_nat (length (bands_body k bs)) = bands_len k bs.
Proof.
  induction 1 as [|b d bs ds Hb _ IH]; [done|]. unfold bands_body, bands_len in *. rewrite fmap_cons. cbn [foldr].
  change (mjoin (?a :: ?l)) with (a ++ mjoin l) at 1. rewrite length_app, Nat2Z.inj_add, IH. f_equal.
  destruct Hb as [b d p E Hsk _|b d p q E Hsk _ _ _ Hs]; unfold band_cblks; rewrite E, Hsk; [done|].
  apply (length_layer_body sty (bc_maxBitPlanes b) nL k Hk). pose proof (pr_blocks _ _ _ _ _ _ Hs) as Hbl.
  clear -Hbl. induction Hbl as [|? ? ? ? [? _]]; by constructor.
Qed.

Lemma write_packet_parts csty index st bs st' bs' : write_packet writeBytes csty layno index st bs = eok (st', bs') ->
  exists st1 bio b1 st2 st3, stream_contents st1 = stream_contents st ++ sop_bytes csty (Z.land index 0xFFFF) /\
    compressHeader layno (BitIO_stream st1 true) bs = eok (bio, b1) /\ stream bio = Some st2 /\
    stream_contents st3 = stream_contents st2 ++ eph_bytes csty /\ write_body writeBytes layno st3 b1 = eok (st', bs').
Proof.
  unfold write_packet. set (n := Z.land index 65535).
  assert (forall (st0 st1 : St) (b : bool) l, lift_b ((if b then write_all8u l else bret) st0) = eok st1 ->
    stream_contents st1 = stream_contents st0 ++ (if b then l else [])) as Hw.
  { intros st0 st1 b l. destruct b; [|cbn; intros [= <-]; by rewrite app_nil_r].
    destruct (write_all8u l st0) as [[] st2] eqn:E; [|done]. cbn. intros [= <-]. by apply write_all8u_spec. }
  destruct (lift_b _) as [[st1|]|] eqn:E1; [|done|done]. cbn [hbind]. apply Hw in E1. fold (sop_bytes csty n) in E1.
  destruct (compressHeader layno (BitIO_stream st1 true) bs) as [[[bio b1]|]|] eqn:E2; [|done|done]. cbn [hbind].
  destruct (stream bio) as [st2|] eqn:Est; [|done].
  destruct (lift_b _) as [[st3|]|] eqn:E3; [|done|done]. cbn [hbind]. apply Hw in E3. fold (eph_bytes csty) in E3.
  intros E4. by exists st1, bio, b1, st2, st3.
Qed.

Lemma packet_step csty tileBytes index st bs st' bs' ds : packet_state sty nL k bs ds -> tile_large tileBytes (lens bs) ->
  write_packet writeBytes csty layno index st bs = eok (st', bs') ->
  exists pkt, stream_contents st' = stream_contents st ++ pkt /\ lens bs' = lens bs /\
    forall T pl, Z.of_nat (length (pkt ++ T)) < 2 ^ 32 -> pl = 0 \/ pl = Z.of_nat (length pkt) ->
      exists pp mid ds', readHeader (St := St) csty sty tileBytes InPacket (PacketParser_new (Z.land index 0xFFFF) layno pl (pkt ++ T)) ds =
          fok (Z.of_nat (length pkt), pp, mid, InPacket) /\
        readData false pp mid = Some ds' /\ Forall2 (band_sync sty nL (S k)) bs' ds'.
Proof.
  intros Hp Htile Hw. set (n := Z.land index 65535).
  assert (0 <= n) as Hn by (apply Z.land_nonneg; lia).
  destruct (write_packet_parts csty index st bs st' bs' Hw) as (st1 & bio & b1 & st2 & st3 & E1 & E2 & Est & E3 & E4). fold n in E1.
  destruct (header_roundtrip csty tileBytes st1 bs b1 ds bio Hp Htile E2) as (bs0 & hdr & Hs & Hwr & Hlens & Hem & _ & Hread).
  unfold emitted in Hem. rewrite Est in Hem. rewrite Hem, E1 in E3.
  destruct (bands_write sty nL k Hk bs0 b1 Hwr ds Hs st3 st' bs' E4) as [Hl2 Hst]. rewrite E3 in Hst.
  pose proof (bands_body_length bs0 ds Hs) as Hbl. pose proof (bands_len_nonneg sty nL k Hk bs0 ds Hs) as Hbl0.
  exists (sop_bytes csty n ++ hdr ++ eph_bytes csty ++ bands_body k bs0). split; [by rewrite Hst, <- !app_assoc|]. split; [congruence|].
  intros T pl Hlen Hpl. set (body := bands_body k bs0) in *.
  set (sop := sop_bytes csty n) in *. set (eph := eph_bytes csty) in *.
  assert (((sop ++ hdr ++ eph ++ body) ++ T) = sop ++ hdr ++ eph ++ body ++ T) as Eall by (by rewrite <- !app_assoc).
  rewrite Eall in *. clear Eall. rewrite !length_app in Hlen. rewrite !length_app in Hpl. rewrite ?length_app in Hlen.
  destruct (Hread (body ++ T)) as (mid & Er & Hmid); [lia|lia|rewrite !length_app; lia|].
  unfold readHeader. cbn [parsedHeader_ headerError_ PacketParser_new]. unfold readHeader_body.
  unfold sop. rewrite read_sop_spec by done. fold sop. cbn [hbind fok layerData_ layerBytesAvailable_ PacketParser_new layno_ plLength_ packetSequenceNumber_].
  rewrite Nat2Z.id, drop_app_length. rewrite (take_ge (hdr ++ eph ++ body ++ T)) by (rewrite !length_app; lia).
  fold sop. rewrite Er. cbn [hbind fok].
  set (hl := Z.of_nat (length sop) + Z.of_nat (length (hdr ++ eph))).
  assert (u32 (hl + bands_len k bs0) = Z.of_nat (length (sop ++ hdr ++ eph ++ body))) as Eu.
  { unfold hl. rewrite !length_app in *. rewrite wrap_small; lia. }
  rewrite Eu. assert (negb (pl =? 0) && negb (pl =? Z.of_nat (length (sop ++ hdr ++ eph ++ body))) = false) as ->.
  { rewrite !length_app. destruct Hpl as [->| ->]; [done|]. rewrite Z.eqb_refl, andb_false_r. done. }
  cbn [hbind fok headerLength_ signalledLayerDataBytes_]. rewrite Eu. eexists _, _.
  unfold readData. cbn [tagBitsPresent_ layno_ layerData_ layerBytesAvailable_ negb].
  assert (drop (Z.to_nat hl) (sop ++ hdr ++ eph ++ body ++ T) = body ++ T) as ->.
  { replace (sop ++ hdr ++ eph ++ body ++ T) with ((sop ++ hdr ++ eph) ++ body ++ T) by (by rewrite <- !app_assoc).
    apply drop_app_length'. unfold hl. rewrite !length_app. lia. }
  destruct (bands_parse sty nL k Hk HnL bs0 b1 mid Hmid) with (st := st3) (st' := st') (bs2 := bs') (data := body ++ T)
    (avail := Z.of_nat (length (sop ++ hdr ++ eph ++ body ++ T)) - Z.of_nat (length sop) - Z.of_nat (length (hdr ++ eph))) (off := 0)
    as (ds2 & Ep & Hs2); try done; try (rewrite ?length_app; lia).
  { clear -Hs Hk. induction Hs as [|b d l l' Hb _ IH]; constructor; [by eapply band_sync_ok|done]. }
  { rewrite Z2Nat.inj_0, drop_0, <- Hbl, Nat2Z.id. by rewrite take_app_length. }
  exists ds2. split; [reflexivity|]. split; [|done].
  cbn [tagBitsPresent_ layno_ layerData_ layerBytesAvailable_ negb]. by rewrite Ep.
Qed.
End Header.

(** ** The packets of a precinct *)

(** The packets of layers [k], [k + 1], ... of one precinct, written one after the
    other: the streams after each of them and the bands at the end; [idx] are the
    tile's packet counts. *)
Fixpoint compress_layers (csty : Z) (k : nat) (idx : list Z) (st : St) (bs : list BandC) : eres (list St * list BandC) :=
  match idx with
  | [] => eok ([], bs)
  | i :: idx =>
      let! (st, bs) := write_packet writeBytes csty (Z.of_nat k) i st bs in
      let! (sts, bs) := compress_layers csty (S k) idx st bs in eok (st :: sts, bs)
  end.

(** The same packets parsed: each [readHeader] says where the next packet starts. *)
Fixpoint parse_layers (csty cblk_sty tileBytes : Z) (k : nat) (idx : list Z) (data : list Z) (ds : list BandD)
  : option (list BandD * list Z) :=
  match idx with
  | [] => Some (ds, data)
  | i :: idx =>
      match readHeader (St := St) csty cblk_sty tileBytes InPacket (PacketParser_new (Z.land i 0xFFFF) (Z.of_nat k) 0 data) ds with
      | Some (Ok (n, pp, ds, _)) =>
          match readData false pp ds with
          | Some ds => parse_layers csty cblk_sty tileBytes (S k) idx (drop (Z.to_nat n) data) ds
          | None => None
          end
      | _ => None
      end
  end.

(** A parsed block holds the data and the passes of the first [n] layers, and its
    bit planes once it is included. *)
Definition block_holds (nL n : nat) (c : CodeblockCompress) (oc : option CodeblockDecompress) : Prop :=
  seg_data (segs_ (block_of nL oc)) = data_upto n c /\ seg_passes (segs_ (block_of nL oc)) = passes_upto n c /\
  (0 < passes_upto n c -> cd_numbps (block_of nL oc) = cc_numbps c).
Definition band_holds (nL n : nat) (b : BandC) (d : BandD) : Prop :=
  forall p, bc_prc b = Some p -> skips_band b p = false ->
    exists q, bd_prc d = Some q /\ Forall2 (block_holds nL n) (pc_cblks p) (pd_cblks q).

Lemma band_sync_holds sty nL n bs ds : Forall2 (band_sync sty nL n) bs ds -> Forall2 (band_holds nL n) bs ds.
Proof.
  apply Forall2_impl. intros b d Hb p E Hsk. destruct Hb as [b d p' E' Hsk' _|b d p' q E' Hsk' _ Hq _ Hs].
  { congruence. }
  assert (p' = p) as -> by congruence. exists q. split; [done|]. eapply Forall2_impl; [|apply (pr_blocks _ _ _ _ _ _ Hs)].
  intros c oc [_ Hbs]. split; [apply (bs_data _ _ _ _ _ Hbs)|]. split; [apply (bs_count _ _ _ _ _ Hbs)|].
  intros Hp. by apply (bs_nl _ _ _ _ _ Hbs).
Qed.

(** The stream after the last packet. *)
Definition last_stream (st : St) (sts : list St) : St := List.last sts st.

Lemma layers_step csty sty nL tileBytes T : Z.of_nat nL <= UINT16_MAX -> has sty GRK_CBLKSTY_HT_ONLY = false ->
  forall idx k st bs sts bs' ds, idx <> [] -> (k + length idx <= nL)%nat -> packet_state sty nL k bs ds -> tile_large tileBytes (lens bs) ->
  compress_layers csty k idx st bs = eok (sts, bs') ->
  Forall (fun s => Z.of_nat (length (stream_contents s)) + Z.of_nat (length T) < 2 ^ 32) sts ->
  exists pkts ds', stream_contents (last_stream st sts) = stream_contents st ++ pkts /\
    parse_layers csty sty tileBytes k idx (pkts ++ T) ds = Some (ds', T) /\ Forall2 (band_sync sty nL (k + length idx)) bs' ds'.
Proof.
  intros HnL Hht idx. induction idx as [|i idx IH]; intros k st bs sts bs' ds Hne Hlen Hp Htile; [done|]. cbn [compress_layers].
  cbn [length] in Hlen. destruct (write_packet writeBytes csty (Z.of_nat k) i st bs) as [[[st1 bs1]|]|] eqn:E; [|done|done]. cbn [hbind].
  destruct (compress_layers csty (S k) idx st1 bs1) as [[[sts1 bs2]|]|] eqn:E1; [|done|done]. cbn [hbind]. intros [= <- <-] Hb.
  apply list.Forall_cons in Hb as [Hb Hbs].
  destruct (packet_step sty nL k ltac:(lia) HnL Hht csty tileBytes i st bs st1 bs1 ds Hp Htile E) as (pkt & Hst & Hl & Hread).
  destruct idx as [|j idx].
  - injection E1 as <- <-. rewrite Hst, length_app in Hb. destruct (Hread T 0) as (pp & mid & ds' & R1 & R2 & Hs); [rewrite length_app; lia|by left|].
    exists pkt, ds'. split; [done|]. cbn [parse_layers]. rewrite R1. cbn [fok]. rewrite R2, Nat2Z.id, drop_app_length. split; [done|]. by rewrite Nat.add_1_r.
  - assert (forall ds1, Forall2 (band_sync sty nL (S k)) bs1 ds1 -> exists pkts ds', stream_contents (last_stream st1 sts1) = stream_contents st1 ++ pkts /\
      parse_layers csty sty tileBytes (S k) (j :: idx) (pkts ++ T) ds1 = Some (ds', T) /\
      Forall2 (band_sync sty nL (S k + length (j :: idx))) bs2 ds') as Hnext.
    { intros ds1 Hs1. apply (IH (S k) st1 bs1 sts1 bs2 ds1); try done; [cbn [length] in *; lia|]. by rewrite Hl. }
    assert (last_stream st (st1 :: sts1) = last_stream st1 sts1) as ->.
    { unfold last_stream. destruct sts1 as [|s1 sts1]; [done|]. change (List.last (st1 :: s1 :: sts1) st) with (List.last (s1 :: sts1) st).
      clear. revert s1. induction sts1 as [|s2 sts1 IH]; intros s1; [done|]. apply (IH s2). }
    destruct (Hread [] 0) as (_ & _ & ds0 & _ & _ & Hs0); [rewrite Hst, length_app in Hb; rewrite app_nil_r; lia|by left|].
    destruct (Hnext ds0 Hs0) as (pkts & _ & Hst1 & _ & _).
    assert (Z.of_nat (length (stream_contents (last_stream st1 sts1))) + Z.of_nat (length T) < 2 ^ 32) as Hlast.
    { unfold last_stream. clear -Hb Hbs. revert st1 Hb. induction Hbs as [|s l Hs _ IHl]; intros st1 Hb; [done|].
      destruct l as [|s2 l]; [done|]. apply (IHl st1 Hb). }
    rewrite Hst1, Hst, !length_app in Hlast.
    destruct (Hread (pkts ++ T) 0) as (pp & mid & ds1 & R1 & R2 & Hs1); [rewrite !length_app; lia|by left|].
    destruct (Hnext ds1 Hs1) as (pkts' & ds' & Hst1' & Hparse & Hfin). rewrite Hst1 in Hst1'. apply app_inv_head in Hst1' as <-.
    exists (pkt ++ pkts), ds'. split; [by rewrite Hst1, Hst, <- app_assoc|]. rewrite <- app_assoc. cbn [parse_layers].
    rewrite R1. cbn [fok]. rewrite R2, Nat2Z.id, drop_app_length. split; [exact Hparse|]. cbn [length] in *. by replace (k + S (S (length idx)))%nat with (S k + S (length idx))%nat by lia.
Qed.

(** C3: the packets of a precinct come back.  For any bands with Part 1 code block
    styles whose blocks carry the block coder's termination flags, the packets
    [compressPacket] writes for the first layers - with or without SOP and EPH
    markers - are parsed one after the other by [readHeader] and [readData]: every
    header says exactly how long its packet is, so the parser ends where the writer
    did, whatever follows, and every block holds the bytes and the number of passes
    of all those layers, and the number of its bit planes.  The blocks ([cblk_ok]) have at
    most 29 missing bit planes, fewer than 2^16 bytes in a layer, and length fields of at
    most 16 bits: a wider field, which [compressHeader] writes for many passes after a long
    segment, is refused by the parser.  The stream has fewer than 2^32 bytes, and the tile
    announces enough bytes for its number of blocks. *)
Theorem packet_layers_roundtrip (csty sty tileBytes : Z) (nL : nat) (idx : list Z) (st : St) (bs : list BandC) sts bs' ds (T : list Z) :
  Z.of_nat nL <= UINT16_MAX -> has sty GRK_CBLKSTY_HT_ONLY = false -> idx <> [] -> (length idx <= nL)%nat ->
  Forall2 (band_init sty nL) bs ds -> tile_large tileBytes (lens bs) ->
  compress_layers csty 0 idx st bs = eok (sts, bs') ->
  Forall (fun s => Z.of_nat (length (stream_contents s)) + Z.of_nat (length T) < 2 ^ 32) sts ->
  exists pkts ds', stream_contents (last_stream st sts) = stream_contents st ++ pkts /\
    parse_layers csty sty tileBytes 0 idx (pkts ++ T) ds = Some (ds', T) /\ Forall2 (band_holds nL (length idx)) bs' ds'.
Proof.
  intros HnL Hht Hne Hlen Hinit Htile Hc Hb.
  destruct (layers_step csty sty nL tileBytes T HnL Hht idx 0 st bs sts bs' ds) as (pkts & ds' & H1 & H2 & H3); try done.
  exists pkts, ds'. split; [done|]. split; [done|]. by eapply band_sync_holds.
Qed.
End Packets.

(** ** Two layers of two blocks *)

(** [write] of a memory stream. *)
Definition mem_writeBytes (l : list Z) : bstep MemWriter := fun s =>
  if Z.of_nat (length (mem_bytes s ++ l)) <=? mem_len s then (true, mkMemWriter (mem_bytes s ++ l) (mem_len s)) else (false, s).
Lemma mem_writeBytes_ok l st st' : mem_writeBytes l st = (true, st') -> stream_contents st' = stream_contents st ++ l.
Proof. unfold mem_writeBytes. destruct (_ <=? _); [|done]. intros [= <-]. done. Qed.

Definition sample_sty : Z := GRK_CBLKSTY_LAZY.
Definition sample_passes (numbps : Z) (lens : list Z) : list CodePass :=
  zip_with mkPass lens (term_flags numbps sample_sty (length lens)).
Definition sample_block1 : CodeblockCompress :=
  mkCC 2 0 0 (sample_passes 2 [3; 1; 2; 0]) [mkLayer 1 3 [1; 2; 3]; mkLayer 3 3 [4; 5; 255]].
Definition sample_block2 : CodeblockCompress :=
  mkCC 3 0 0 (sample_passes 3 [2; 4; 9]) [mkLayer 0 0 []; mkLayer 2 6 [7; 8; 9; 10; 11; 12]].
Definition sample_incl : TagTree := default (mkTagTree 0 0 [] [] []) (TagTree_new incl_max 2 1).
Definition sample_imsb : TagTree := default (mkTagTree 0 0 [] [] []) (TagTree_new imsb_max 2 1).
Definition sample_bands : list BandC :=
  [mkBandC true 9 (Some (mkPrecC sample_incl sample_imsb []));
   mkBandC false 8 (Some (mkPrecC sample_incl sample_imsb [sample_block1; sample_block2]))].
Definition sample_parsed : list BandD :=
  [mkBandD true 9 None; mkBandD false 8 (Some (mkPrecD sample_incl sample_imsb 2 [None; None]))].
Definition sample_run : list MemWriter * list BandC :=
  match compress_layers mem_writeBytes (CP_CSTY_SOP + CP_CSTY_EPH) 0 [70000; 70009] (mkMemWriter [99] 200) sample_bands with
  | Some (Ok r) => r | _ => ([], []) end.

Ltac sample_block_ok :=
  split;
  [ vm_compute; split; discriminate
  | vm_compute; split; discriminate
  | reflexivity
  | repeat constructor; discriminate
  | vm_compute; discriminate
  | intros _; vm_compute; split; discriminate
  | intros i p; do 4 (destruct i as [|i]; [intros [= <-]; reflexivity|]); done
  | repeat constructor; discriminate
  | intros k Hk; do 2 (destruct k as [|k]; [split; [reflexivity|split; reflexivity]|]); lia
  | intros k Hk; do 2 (destruct k as [|k]; [vm_compute; repeat constructor; discriminate|]); lia ].

Lemma sample_block1_ok : cblk_ok sample_sty 8 2 sample_block1.
Proof. sample_block_ok. Qed.
Lemma sample_block2_ok : cblk_ok sample_sty 8 2 sample_block2.
Proof. sample_block_ok. Qed.

Lemma sample_bands_init : Forall2 (band_init sample_sty 2) sample_bands sample_parsed.
Proof.
  constructor; [|constructor; [|constructor]].
  - eapply init_skipped; [reflexivity|reflexivity|]. by left.
  - eapply init_coded; [reflexivity|reflexivity|reflexivity|reflexivity|reflexivity|]. split; try reflexivity.
    + exists 2, 1. repeat split; (done || lia).
    + constructor; [apply sample_block1_ok|constructor; [apply sample_block2_ok|constructor]].
Qed.

Lemma packet_layers_roundtrip_witness :
  exists pkts ds', stream_contents (last_stream (mkMemWriter [99] 200) sample_run.1) = [99] ++ pkts /\
    parse_layers (St := MemWriter) (CP_CSTY_SOP + CP_CSTY_EPH) sample_sty 10 0 [70000; 70009] (pkts ++ [255; 217]) sample_parsed =
      Some (ds', [255; 217]) /\
    Forall2 (band_holds 2 2) sample_run.2 ds'.
Proof.
  apply (packet_layers_roundtrip mem_writeBytes mem_writeBytes_ok (CP_CSTY_SOP + CP_CSTY_EPH) sample_sty 10 2 [70000; 70009]
           (mkMemWriter [99] 200) sample_bands).
  - vm_compute. discriminate.
  - reflexivity.
  - discriminate.
  - simpl. lia.
  - apply sample_bands_init.
  - split; [lia|]. vm_compute. repeat constructor; discriminate.
  - vm_compute. reflexivity.
  - let l := eval vm_compute in sample_run.1 in change (sample_run.1) with l. repeat (constructor; [reflexivity|]). constructor.
Defined.
