(* ===== verification/PacketTracker.v ===== *)
(** The packets already compressed: [PacketTracker] (tile_processor/PacketTracker.h),
    a bit map indexed by layer, component, resolution and precinct.  The theorem
    shows that it implements a set of packets. *)
From stdpp Require Import gmap.
From S2P Require Import Prelude.

(** (component, resolution, precinct, layer) *)
Abbreviation packet := (Z * Z * Z * Z)%type.

Record PacketTracker := mkTracker {
  bits_ : list Z;        (* vector<uint8_t> *)
  numComps_ : Z;
  numRes_ : Z;
  numPrec_ : Z;
  numLayers_ : Z;
}.

Definition get_buffer_len (numComps numRes numPrec numLayers : Z) : Z :=
  Z.shiftr (u64 (u64 (numComps * numRes * numPrec * numLayers) + 7)) 3.
Definition PacketTracker_new (numComps numRes numPrec numLayers : Z) : PacketTracker :=
  mkTracker (replicate (Z.to_nat (get_buffer_len numComps numRes numPrec numLayers)) 0) numComps numRes numPrec numLayers.

Definition set_bits (l : list Z) (t : PacketTracker) : PacketTracker :=
  mkTracker l (numComps_ t) (numRes_ t) (numPrec_ t) (numLayers_ t).
Definition clear (t : PacketTracker) : PacketTracker := set_bits ((fun _ => 0) <$> bits_ t) t.

Definition isValidIndex (t : PacketTracker) (q : packet) : bool :=
  let '(comp, res, prec, layer) := q in
  (comp <? numComps_ t) && (res <? numRes_ t) && (prec <? numPrec_ t) && (layer <? numLayers_ t).
Definition index (t : PacketTracker) (q : packet) : Z :=
  let '(comp, res, prec, layer) := q in
  u64 (u64 (u64 (layer * numComps_ t * numRes_ t * numPrec_ t) + u64 (comp * numRes_ t * numPrec_ t)) + u64 (res * numPrec_ t) + prec).

Definition packet_encoded (q : packet) (t : PacketTracker) : PacketTracker :=
  if negb (isValidIndex t q) then t
  else
    let ind := index t q in
    let byte := Z.shiftr ind 3 in
    set_bits (<[Z.to_nat byte := u8 (Z.lor (nthZ 0 (bits_ t) byte) (u8 (Z.shiftl 1 (Z.land ind 7))))]> (bits_ t)) t.

Definition is_packet_encoded (q : packet) (t : PacketTracker) : bool :=
  if negb (isValidIndex t q) then true
  else
    let ind := index t q in
    negb (Z.land (nthZ 0 (bits_ t) (Z.shiftr ind 3)) (Z.shiftl 1 (Z.land ind 7)) =? 0).

(** ** Bits *)

Definition bit (t : PacketTracker) (i : Z) : bool := Z.testbit (nthZ 0 (bits_ t) (Z.shiftr i 3)) (Z.land i 7).

Lemma land7 i : Z.land i 7 = i mod 8.
Proof. apply (Z.land_ones i 3). lia. Qed.
Lemma shiftr3 i : Z.shiftr i 3 = i / 8.
Proof. by rewrite Z.shiftr_div_pow2. Qed.

Lemma land_shifted_bit a i : 0 <= i -> negb (Z.land a (Z.shiftl 1 i) =? 0) = Z.testbit a i.
Proof.
  intros Hi. rewrite Z.shiftl_1_l. destruct (Z.testbit a i) eqn:E.
  - apply negb_true_iff, Z.eqb_neq. intros H0. apply (f_equal (fun x => Z.testbit x i)) in H0.
    rewrite Z.land_spec, E, Z.pow2_bits_true, Z.bits_0 in H0 by done. done.
  - apply negb_false_iff, Z.eqb_eq. apply Z.bits_inj'. intros j Hj. rewrite Z.land_spec, Z.bits_0, Z.pow2_bits_eqb by done.
    destruct (Z.eqb_spec i j) as [->|]; [by rewrite E|apply andb_false_r].
Qed.

Lemma is_packet_encoded_bit t q : isValidIndex t q = true -> is_packet_encoded q t = bit t (index t q).
Proof.
  intros Hv. unfold is_packet_encoded, bit. rewrite Hv. cbn [negb]. apply land_shifted_bit. rewrite land7. apply Z.mod_pos_bound. lia.
Qed.

Lemma set_bit_spec t q j : isValidIndex t q = true -> 0 <= j -> (Z.to_nat (index t q / 8) < length (bits_ t))%nat -> 0 <= index t q ->
  Forall (fun b => 0 <= b < 256) (bits_ t) -> bit (packet_encoded q t) j = (j =? index t q) || bit t j.
Proof.
  intros Hv Hj Hlen Hi Hb. unfold packet_encoded, bit. rewrite Hv. cbn [negb bits_ set_bits]. rewrite !shiftr3, !land7.
  set (i := index t q) in *. set (x := nthZ 0 (bits_ t) (i / 8)).
  assert (0 <= x < 256) as Hx.
  { unfold x. rewrite nthZ_default. destruct (lookup_lt_is_Some_2 _ _ Hlen) as [y Hy]. rewrite Hy. by apply (Forall_lookup_1 _ _ _ _ Hb Hy). }
  pose proof (Z.mod_pos_bound i 8 ltac:(lia)) as Hm. pose proof (Z.div_mod i 8 ltac:(lia)) as Hdi. pose proof (Z.div_mod j 8 ltac:(lia)) as Hdj.
  assert (0 <= Z.shiftl 1 (i mod 8) < 256) as Hs.
  { rewrite Z.shiftl_1_l. split; [apply Z.pow_nonneg; lia|]. change 256 with (2 ^ 8). apply Z.pow_lt_mono_r; lia. }
  rewrite (wrap_small 8 (Z.shiftl _ _)) by (simpl; lia).
  assert (0 <= Z.lor x (Z.shiftl 1 (i mod 8)) < 2 ^ 8) as Hor by (apply lor_range; simpl; lia).
  rewrite (wrap_small 8) by done. rewrite (nthZ_default 0 (<[_ := _]> _)).
  destruct (Z.eqb_spec (j / 8) (i / 8)) as [E|E].
  - rewrite E, list_lookup_insert_eq by done. simpl. rewrite Z.lor_spec, Z.shiftl_1_l, Z.pow2_bits_eqb by lia. fold x.
    destruct (Z.eqb_spec (i mod 8) (j mod 8)) as [Em|Em]; destruct (Z.eqb_spec j i); try lia; rewrite ?orb_true_r, ?orb_false_r; done.
  - rewrite list_lookup_insert_ne by (pose proof (Z.div_pos i 8); pose proof (Z.div_pos j 8); lia). rewrite <- nthZ_default.
    destruct (Z.eqb_spec j i) as [->|]; [lia|done].
Qed.

(** ** The tracker as a set *)

Definition dims_ok (t : PacketTracker) : Prop :=
  0 <= numComps_ t /\ 0 <= numRes_ t /\ 0 <= numPrec_ t /\ 0 <= numLayers_ t /\
  numComps_ t * numRes_ t * numPrec_ t * numLayers_ t + 7 < 2 ^ 64.
Definition nonneg (q : packet) : Prop := let '(comp, res, prec, layer) := q in 0 <= comp /\ 0 <= res /\ 0 <= prec /\ 0 <= layer.

Definition total (t : PacketTracker) : Z := numComps_ t * numRes_ t * numPrec_ t * numLayers_ t.
(** The index without its width. *)
Definition pos (t : PacketTracker) (q : packet) : Z :=
  let '(comp, res, prec, layer) := q in ((layer * numComps_ t + comp) * numRes_ t + res) * numPrec_ t + prec.

Lemma mixed_radix a b n m : 0 <= a < n -> 0 <= b < m -> 0 <= a * m + b < n * m.
Proof. intros Ha Hb. nia. Qed.
Lemma mixed_radix_inj a b a' b' m : 0 <= b < m -> 0 <= b' < m -> a * m + b = a' * m + b' -> a = a' /\ b = b'.
Proof. intros Hb Hb' E. assert (a = a') by nia. lia. Qed.

Section Index.
Context (t : PacketTracker).
Hypothesis Ht : dims_ok t.

Lemma pos_range q : nonneg q -> isValidIndex t q = true -> 0 <= pos t q < total t.
Proof.
  destruct q as [[[c r] p] l]. intros (H1 & H2 & H3 & H4) Hv. unfold isValidIndex in Hv. rewrite !andb_true_iff, !Z.ltb_lt in Hv.
  destruct Hv as [[[V1 V2] V3] V4]. unfold pos, total.
  pose proof (mixed_radix l c (numLayers_ t) (numComps_ t) ltac:(lia) ltac:(lia)) as R1.
  pose proof (mixed_radix _ r _ (numRes_ t) R1 ltac:(lia)) as R2. pose proof (mixed_radix _ p _ (numPrec_ t) R2 ltac:(lia)) as R3.
  replace (numComps_ t * numRes_ t * numPrec_ t * numLayers_ t) with (numLayers_ t * numComps_ t * numRes_ t * numPrec_ t) by ring. lia.
Qed.

Lemma index_pos q : nonneg q -> isValidIndex t q = true -> index t q = pos t q.
Proof.
  intros Hn Hv. pose proof (pos_range q Hn Hv) as Hr. destruct q as [[[c r] p] l]. destruct Hn as (H1 & H2 & H3 & H4).
  destruct Ht as (D1 & D2 & D3 & D4 & D5). unfold index, pos, total in *.
  assert (0 <= l * numComps_ t * numRes_ t * numPrec_ t) by (repeat apply Z.mul_nonneg_nonneg; lia).
  assert (0 <= c * numRes_ t * numPrec_ t) by (repeat apply Z.mul_nonneg_nonneg; lia).
  assert (0 <= r * numPrec_ t) by (apply Z.mul_nonneg_nonneg; lia).
  assert (((l * numComps_ t + c) * numRes_ t + r) * numPrec_ t + p =
    l * numComps_ t * numRes_ t * numPrec_ t + c * numRes_ t * numPrec_ t + r * numPrec_ t + p) as E by ring.
  rewrite E in *. rewrite (wrap_small 64 (l * _ * _ * _)), (wrap_small 64 (c * _ * _)), (wrap_small 64 (r * _)) by lia.
  rewrite (wrap_small 64 (l * numComps_ t * numRes_ t * numPrec_ t + _)) by lia. by rewrite wrap_small by lia.
Qed.

Lemma pos_inj q q' : nonneg q -> nonneg q' -> isValidIndex t q = true -> isValidIndex t q' = true -> pos t q = pos t q' -> q = q'.
Proof.
  destruct q as [[[c r] p] l], q' as [[[c' r'] p'] l']. intros (H1 & H2 & H3 & H4) (H1' & H2' & H3' & H4') Hv Hv'.
  unfold isValidIndex in Hv, Hv'. rewrite !andb_true_iff, !Z.ltb_lt in Hv, Hv'. destruct Hv as [[[V1 V2] V3] V4], Hv' as [[[V1' V2'] V3'] V4'].
  unfold pos. intros E. apply mixed_radix_inj in E as [E ->]; [|lia|lia]. apply mixed_radix_inj in E as [E ->]; [|lia|lia].
  apply mixed_radix_inj in E as [-> ->]; [|lia|lia]. done.
Qed.
End Index.

(** The operations, and the set they maintain. *)
Inductive tracker_op := OpEncoded (q : packet) | OpClear.
Definition run_op (t : PacketTracker) (o : tracker_op) : PacketTracker :=
  match o with OpEncoded q => packet_encoded q t | OpClear => clear t end.
Definition spec_op (t : PacketTracker) (S : gset packet) (o : tracker_op) : gset packet :=
  match o with OpEncoded q => if isValidIndex t q then {[q]} ∪ S else S | OpClear => ∅ end.

Record tracks (t : PacketTracker) (S : gset packet) : Prop := {
  tk_dims : dims_ok t;
  tk_len : Z.of_nat (length (bits_ t)) = (total t + 7) / 8;
  tk_bytes : Forall (fun b => 0 <= b < 256) (bits_ t);
  tk_set : forall q, nonneg q -> isValidIndex t q = true -> bit t (pos t q) = bool_decide (q ∈ S);
}.

Lemma tracker_tracks_new c r p l : let t := PacketTracker_new c r p l in dims_ok t -> tracks t ∅.
Proof.
  intros t Ht. pose proof Ht as (D1 & D2 & D3 & D4 & D5). unfold t in *. cbn [PacketTracker_new numComps_ numRes_ numPrec_ numLayers_] in *.
  assert (0 <= c * r * p * l) as H0 by (repeat apply Z.mul_nonneg_nonneg; lia).
  split; [done| | |].
  - cbn [PacketTracker_new bits_]. rewrite length_replicate. unfold get_buffer_len. rewrite !wrap_small by (rewrite ?wrap_small by lia; lia).
    rewrite shiftr3. unfold total. cbn. rewrite Z2Nat.id; [done|]. apply Z.div_pos; lia.
  - cbn [PacketTracker_new bits_]. apply Forall_replicate. lia.
  - intros q _ _. rewrite bool_decide_false by set_solver. unfold bit. cbn [PacketTracker_new bits_].
    rewrite nthZ_default. destruct (replicate _ 0 !! _) as [x|] eqn:E; [apply lookup_replicate in E as [-> _]|]; apply Z.bits_0.
Qed.

Lemma tracks_clear t S : tracks t S -> tracks (clear t) ∅.
Proof.
  intros [H1 H2 H3 H4]. split; [done| | |]; cbn [clear set_bits bits_]; rewrite ?length_fmap; try done.
  - apply Forall_fmap, Forall_true. simpl. lia.
  - intros q _ _. rewrite bool_decide_false by set_solver. unfold bit. cbn [clear set_bits bits_].
    rewrite nthZ_default, list_lookup_fmap. destruct (bits_ t !! _); apply Z.bits_0.
Qed.

Lemma tracks_encoded t S q : nonneg q -> tracks t S -> tracks (packet_encoded q t) (spec_op t S (OpEncoded q)).
Proof.
  intros Hq Htr. pose proof Htr as [H1 H2 H3 H4]. cbn [spec_op]. destruct (isValidIndex t q) eqn:Hv.
  2: { unfold packet_encoded. by rewrite Hv. }
  pose proof (index_pos t H1 q Hq Hv) as Hi. pose proof (pos_range t q Hq Hv) as Hr.
  assert (Z.to_nat (index t q / 8) < length (bits_ t))%nat as Hlen.
  { rewrite Hi. assert (pos t q / 8 < (total t + 7) / 8); [|pose proof (Z.div_pos (pos t q) 8); lia].
    apply Z.div_lt_upper_bound; [lia|]. pose proof (Z.div_mod (total t + 7) 8 ltac:(lia)). pose proof (Z.mod_pos_bound (total t + 7) 8 ltac:(lia)). lia. }
  assert (forall q', isValidIndex (packet_encoded q t) q' = isValidIndex t q' /\ pos (packet_encoded q t) q' = pos t q' /\
    total (packet_encoded q t) = total t) as Hsame.
  { intros q'. unfold packet_encoded. rewrite Hv. done. }
  split.
  - unfold packet_encoded. by rewrite Hv.
  - destruct (Hsame q) as (_ & _ & ->). rewrite <- H2. unfold packet_encoded. rewrite Hv. cbn [negb bits_ set_bits]. by rewrite length_insert.
  - unfold packet_encoded. rewrite Hv. cbn [negb bits_ set_bits]. apply Forall_insert; [done|]. apply (wrap_range 8). lia.
  - intros q' Hq' Hv'. destruct (Hsame q') as (E1 & -> & _). rewrite E1 in Hv'. pose proof (pos_range t q' Hq' Hv').
    rewrite set_bit_spec by (done || lia). rewrite Hi, H4 by done.
    destruct (Z.eqb_spec (pos t q') (pos t q)) as [E|E]; cbn [orb].
    + apply pos_inj in E as ->; try done. symmetry. apply bool_decide_true. set_solver.
    + apply bool_decide_ext. assert (q' <> q) by (intros ->; done). set_solver.
Qed.

Lemma spec_op_dims t o : spec_op (run_op t o) = spec_op t.
Proof. destruct o as [q|]; [|done]. unfold run_op, packet_encoded. by destruct (negb (isValidIndex t q)). Qed.

(** C18: the tracker is a set of packets.  After any sequence of [packet_encoded] and
    [clear] on a new tracker of any dimensions whose packets fit in 64 bits,
    [is_packet_encoded] answers true exactly for the packets out of its dimensions
    and for those encoded since the last [clear]. *)
Theorem packet_tracker_refines_set (c r p l : Z) (ops : list tracker_op) (q : packet) :
  let t := PacketTracker_new c r p l in
  dims_ok t -> Forall (fun o => match o with OpEncoded q => nonneg q | OpClear => True end) ops -> nonneg q ->
  is_packet_encoded q (foldl run_op t ops) = negb (isValidIndex t q) || bool_decide (q ∈ foldl (spec_op t) ∅ ops).
Proof.
  intros t Ht Hops Hq.
  assert (forall ops u S, tracks u S -> Forall (fun o => match o with OpEncoded q => nonneg q | OpClear => True end) ops ->
    tracks (foldl run_op u ops) (foldl (spec_op u) S ops) /\ isValidIndex (foldl run_op u ops) q = isValidIndex u q) as Hrun.
  { clear Hops. intros ops0. induction ops0 as [|o ops0 IH]; intros u S Hu Ho; [done|]. apply list.Forall_cons in Ho as [Ho Hos]. cbn [foldl].
    destruct (IH (run_op u o) (spec_op u S o)) as [I1 I2].
    - destruct o as [q'|]; [by apply tracks_encoded|by eapply tracks_clear].
    - done.
    - rewrite spec_op_dims in I1. split; [done|]. rewrite I2. destruct o as [q'|]; [|done]. unfold run_op, packet_encoded. by destruct (negb (isValidIndex u q')). }
  destruct (Hrun ops t ∅ (tracker_tracks_new c r p l Ht) Hops) as [[H1 _ _ H4] Hv]. rewrite <- Hv.
  destruct (isValidIndex (foldl run_op t ops) q) eqn:E; cbn [negb orb].
  - by rewrite is_packet_encoded_bit, index_pos, H4.
  - unfold is_packet_encoded. by rewrite E.
Qed.

Lemma packet_tracker_refines_set_witness :
  is_packet_encoded (1, 2, 3, 0) (foldl run_op (PacketTracker_new 2 3 5 4) [OpEncoded (0, 0, 0, 1); OpClear; OpEncoded (1, 2, 3, 0); OpEncoded (9, 0, 0, 0)])
  = negb (isValidIndex (PacketTracker_new 2 3 5 4) (1, 2, 3, 0)) ||
    bool_decide ((1, 2, 3, 0) ∈ foldl (spec_op (PacketTracker_new 2 3 5 4)) ∅ [OpEncoded (0, 0, 0, 1); OpClear; OpEncoded (1, 2, 3, 0); OpEncoded (9, 0, 0, 0)]).
Proof.
  apply (packet_tracker_refines_set 2 3 5 4).
  - unfold dims_ok. cbn. lia.
  - repeat constructor; lia.
  - unfold nonneg. lia.
Defined.
