(* ===== verification/T2Compress.v ===== *)
(** The packet compressor: [T2Compress::compressPacket], [compressPackets] and
    [compressPacketSimulate] (t2/T2Compress.cpp), on the packets of a tile.

    The tracker makes every packet be written once although progression order
    changes visit packets again; the simulation, which rate control runs to learn
    the sizes of packets, counts exactly the bytes that are written. *)
From stdpp Require Import gmap.
From S2P Require Import Prelude BitIO TagTree TagTreeQueries Geometry Codeblock PacketHeader PacketLengths PrecinctRoundTrip PacketRoundTrip PLMarker PacketTracker.

Section T2Compress.
Context {St : Type} `{Stream : IStreamWriter St} `{!IStreamWriterLaws St}.
Variable writeBytes : list Z -> bstep St.
Hypothesis writeBytes_ok : forall l st st', writeBytes l st = (true, st') -> stream_contents st' = stream_contents st ++ l.
(** [tell] of the stream: its position, which a write advances. *)
Variable tell : St -> Z.
Hypothesis tell_ok : forall st, tell st = Z.of_nat (length (stream_contents st)).

(** ** The tile's packets *)

(** The tracker and packet count of the tile processor, and the bands of each
    (component, resolution, precinct). *)
Record T2State := mkT2 {
  t2_tracker : PacketTracker;
  t2_processed : Z;
  t2_bands : Z * Z * Z -> list BandC;
}.
Definition upd_bands (loc : Z * Z * Z) (bs : list BandC) (f : Z * Z * Z -> list BandC) : Z * Z * Z -> list BandC :=
  fun l => if decide (l = loc) then bs else f l.

Section Tile.
Variables (csty numcomps : Z).

(** The bytes written are added to the caller's count by [compressPackets]. *)
Definition compressPacket (q : packet) (s : T2State) (st : St) : eres (T2State * St * Z) :=
  let '(compno, resno, precno, layno) := q in
  if numcomps <=? compno then efail
  else if is_packet_encoded q (t2_tracker s) then eok (s, st, 0)
  else
    let tracker := packet_encoded q (t2_tracker s) in
    let! (st', bs) := write_packet writeBytes csty layno (t2_processed s) st (t2_bands s (compno, resno, precno)) in
    eok (mkT2 tracker (u64 (t2_processed s + 1)) (upd_bands (compno, resno, precno) bs (t2_bands s)), st', u32 (tell st' - tell st)).

(** The loop over the packets [qs] the iterator yields. *)
Fixpoint compressPackets (max_layers : Z) (qs : list packet) (s : T2State) (st : St) (tileBytes : Z) : eres (T2State * St * Z) :=
  match qs with
  | [] => eok (s, st, tileBytes)
  | q :: qs =>
      if q.2 <? max_layers then
        let! (s, st, numBytes) := compressPacket q s st in
        compressPackets max_layers qs s st (u32 (tileBytes + numBytes))
      else compressPackets max_layers qs s st tileBytes
  end.

(** *** Simulation *)

Definition take_bytes (n avail : Z) : Z := if avail =? UINT32_MAX then avail else u32 (avail - n).

Fixpoint simulate_cblks (layno : Z) (l : list CodeblockCompress) (avail byteCount : Z) : eres (list CodeblockCompress * Z * Z) :=
  match l with
  | [] => eok ([], avail, byteCount)
  | c :: l =>
      let layer := cc_getLayer layno c in
      if lay_totalPasses layer =? 0 then
        let! (l, avail, byteCount) := simulate_cblks layno l avail byteCount in eok (c :: l, avail, byteCount)
      else if avail <? lay_len layer then efail
      else
        let! (l, avail, byteCount) := simulate_cblks layno l (take_bytes (lay_len layer) avail) (byteCount + lay_len layer) in
        eok (cc_incNumPassesInLayer0 (lay_totalPasses layer) c :: l, avail, byteCount)
  end.

Fixpoint simulate_bands (layno : Z) (l : list BandC) (avail byteCount : Z) : eres (list BandC * Z * Z) :=
  match l with
  | [] => eok ([], avail, byteCount)
  | b :: l =>
      match bc_prc b with
      | None => efail
      | Some p =>
          let! (cblks, avail, byteCount) := simulate_cblks layno (pc_cblks p) avail byteCount in
          let! (l, avail, byteCount) := simulate_bands layno l avail byteCount in
          eok (mkBandC (bc_empty b) (bc_maxBitPlanes b) (Some (mkPrecC (pc_incl p) (pc_imsb p) cblks)) :: l, avail, byteCount)
      end
  end.

(** The bytes of the optional markers. *)
Definition simulate_marker (flag size avail byteCount : Z) : eres (Z * Z) :=
  if negb (Z.land csty flag =? 0) then
    if avail <? size then efail else eok (take_bytes size avail, byteCount + size)
  else eok (avail, byteCount).

Definition simulate_packet (layno avail : Z) (bands : list BandC) : eres (list BandC * Z) :=
  let! (avail, byteCount) := simulate_marker CP_CSTY_SOP 6 avail 0 in
  let! (bio, bands) := compressHeader (St := St) layno (BitIO_buffer [] avail true) bands in
  let byteCount := byteCount + u32 (numBytes bio) in
  let avail := take_bytes (u32 (numBytes bio)) avail in
  let! (avail, byteCount) := simulate_marker CP_CSTY_EPH 2 avail byteCount in
  let! (bands, _, byteCount) := simulate_bands layno bands avail byteCount in
  if UINT32_MAX <? byteCount then efail else eok (bands, byteCount).

(** Returns the packet's size as well. *)
Definition compressPacketSimulate (maxBytes : Z) (q : packet) (markers : option PLMarker) (s : T2State)
  : eres (T2State * option PLMarker * Z) :=
  let '(compno, resno, precno, layno) := q in
  if numcomps <=? compno then efail
  else if is_packet_encoded q (t2_tracker s) then eok (s, markers, 0)
  else
    let tracker := packet_encoded q (t2_tracker s) in
    let! (bs, size) := simulate_packet layno maxBytes (t2_bands s (compno, resno, precno)) in
    let s := mkT2 tracker (t2_processed s) (upd_bands (compno, resno, precno) bs (t2_bands s)) in
    match markers with
    | None => eok (s, None, size)
    | Some m => let! m := lift_b (pushPL size m) in eok (s, Some m, size)
    end.
End Tile.

(** ** The same bits to another writer *)

Lemma compress_cblk_puts layno i n (v v' : BitIO St) incl imsb c :
  enc_tree incl_max n incl -> enc_tree imsb_max n imsb -> 0 <= i < n -> 0 <= lpasses layno c <= 164 -> 0 <= nl c + linc layno c < 256 ->
  puts v (cblk_code layno i incl imsb c) v' ->
  compress_cblk layno i v incl imsb c = eok (v', incl_after layno i incl c, imsb_after layno i imsb c, enc_header layno c).
Proof.
  intros [Hw1 Hh1 Hok1 Hn1] [Hw2 Hh2 Hok2 Hn2] Hi Hp Hnl Hput. unfold cblk_code in Hput.
  apply puts_app in Hput as (v1 & Hp1 & Hput). apply puts_app in Hput as (v2 & Hp2 & Hp3). unfold compress_cblk. fold (lpasses layno c) (first c).
  match goal with |- hbind ?m _ = _ => assert (m = eok (v1, incl_after layno i incl c)) as -> end.
  { unfold incl_code, incl_after, included in *. destruct (first c).
    - rewrite (encode_puts incl_max incl i _ v v1 Hw1 Hh1 Hok1 ltac:(lia) Hp1). done.
    - rewrite write1_bit. unfold puts in Hp1. destruct (lpasses layno c =? 0); cbn [negb Z.b2z Z.odd] in *; rewrite Hp1; done. }
  cbn [hbind eok]. unfold imsb_code, imsb_after, enc_header, included in *. destruct (Z.eqb_spec (lpasses layno c) 0) as [E0|E0]; cbn [negb andb] in *.
  { injection Hp2 as <-. injection Hp3 as <-. done. }
  match goal with |- hbind ?m _ = _ => assert (m = eok (v2, (if first c then tree_after i imsb_max imsb else imsb),
        mkCC (cc_numbps c) (nl c) (cc_passesInLayer0 c) (cc_passes c) (cc_layers c))) as -> end.
  { unfold nl. destruct (first c).
    - rewrite (encode_puts imsb_max imsb i _ v1 v2 Hw2 Hh2 Hok2 ltac:(lia) Hp2). done.
    - injection Hp2 as <-. by destruct c. }
  cbn [hbind eok]. unfold block_code in Hp3. apply puts_app in Hp3 as (v3 & Hq1 & Hp3). apply puts_app in Hp3 as (v4 & Hq2 & Hq3).
  unfold puts in Hq1, Hq2, Hq3. rewrite putnumpasses_bits, Hq1 by lia. cbn [lift_b hbind eok].
  unfold layer_passes. cbn [cc_passesInLayer0 cc_passes cc_numlenbits]. change (cc_getLayer layno (mkCC _ _ _ _ _)) with (cc_getLayer layno c).
  fold (layer_passes layno c) (lgroups layno c). rewrite length_increment_groups, putcommacode_bits. fold (lgroups layno c) (linc layno c). rewrite Hq2. cbn [lift_b hbind eok].
  cbn [cc_numlenbits cc_setNumLenBits]. rewrite write_lengths_bits. fold (lgroups layno c). rewrite (wrap_small 8) by (simpl; lia). rewrite Hq3.
  cbn [lift_b hbind eok]. unfold cc_setNumLenBits. cbn. by rewrite (wrap_small 8) by (simpl; lia).
Qed.

Section Transfer.
Context (sty : Z) (nL k : nat).
Hypothesis Hk : (k < nL)%nat.
Hypothesis HnL : Z.of_nat nL <= UINT16_MAX.
Hypothesis Hht : has sty GRK_CBLKSTY_HT_ONLY = false.
Abbreviation layno := (Z.of_nat k).

Lemma cblk_fields mbp c d : cblk_ok sty mbp nL c -> block_sync sty nL k c d ->
  0 <= lpasses layno c <= 164 /\ 0 <= nl c + linc layno c < 256.
Proof.
  intros Hok Hs. pose proof (layer_passes_nonneg _ _ _ _ Hok k Hk). pose proof (passes_upto_bounds _ _ _ _ Hok (S k) ltac:(lia)) as Hb.
  rewrite (passes_upto_S nL) in Hb by (done || apply Hok). pose proof (passes_upto_bounds _ _ _ _ Hok k ltac:(lia)).
  rewrite (sync_linc sty mbp nL k c d Hok Hk Hs). pose proof (nl_at_bounds _ _ _ _ Hok (S k) ltac:(lia)). unfold lpasses, layer_at in *. lia.
Qed.

Lemma cblks_transfer mbp cs ls : Forall2 (fun c oc => cblk_ok sty mbp nL c /\ block_sync sty nL k c (block_of nL oc)) cs ls ->
  forall i n (bio bio' v v' : BitIO St) incl incl' imsb imsb' cs',
  enc_tree incl_max n incl -> enc_tree imsb_max n imsb -> 0 <= i -> i + Z.of_nat (length cs) <= n ->
  compress_cblks layno i bio incl imsb cs = eok (bio', incl', imsb', cs') -> puts v (cblks_code k i incl imsb cs) v' ->
  compress_cblks layno i v incl imsb cs = eok (v', incl', imsb', cs').
Proof.
  induction 1 as [|c oc cs ls [Hok Hs] Hall IH]; intros i n bio bio' v v' incl incl' imsb imsb' cs' He1 He2 Hi Hn; cbn [compress_cblks cblks_code].
  { intros [= <- <- <- <-] [= <-]. done. }
  cbn [length] in Hn. destruct (compress_cblk layno i bio incl imsb c) as [[[[[b1 t1] t2] c1]|]|] eqn:E1; [|done|done]. cbn [hbind].
  destruct (compress_cblks layno (i + 1) b1 t1 t2 cs) as [[[[[b2 t3] t4] l2]|]|] eqn:E2; [|done|done]. cbn [hbind eok].
  intros [= <- <- <- <-] (v1 & Hp1 & Hp2)%puts_app. destruct (cblk_fields mbp c _ Hok Hs) as [F1 F2].
  destruct (compress_cblk_spec layno i n bio b1 incl t1 imsb t2 c c1 He1 He2 ltac:(lia) F1 F2 E1) as (_ & -> & -> & ->).
  rewrite (compress_cblk_puts layno i n v v1 incl imsb c He1 He2 ltac:(lia) F1 F2 Hp1). cbn [hbind eok].
  destruct (incl_after_facts nL k Hk HnL i n incl c He1 ltac:(lia)) as (He1' & _). destruct (imsb_after_facts k i n imsb c He2 ltac:(lia)) as (He2' & _).
  rewrite (IH (i + 1) n b1 b2 v1 v' _ t3 _ t4 l2 He1' He2' ltac:(lia) ltac:(lia) E2 Hp2). done.
Qed.

Lemma bands_transfer bs ds : Forall2 (band_sync sty nL k) bs ds -> forall (bio bio' v v' : BitIO St) bs',
  compress_bands layno bio bs = eok (bio', bs') -> puts v (bands_code k bs) v' -> compress_bands layno v bs = eok (v', bs').
Proof.
  induction 1 as [|b d bs ds Hb Hall IH]; intros bio bio' v v' bs'; cbn [compress_bands]; [by intros [= <- <-] [= <-]|].
  assert (bands_code k (b :: bs) = band_code k b ++ bands_code k bs) as -> by done. unfold band_code.
  destruct Hb as [b d p E Hsk Hd|b d p q E Hsk Hem Hq Hmb Hs]; rewrite E, Hsk.
  - cbn [hbind eok app]. destruct (compress_bands layno bio bs) as [[[b2 l2]|]|] eqn:E2; [|done|done]. cbn [hbind eok].
    intros [= <- <-] Hp. rewrite (IH bio b2 v v' l2 E2 Hp). done.
  - destruct (compress_precinct layno bio p) as [[[b1 p']|]|] eqn:E1; [|done|done]. cbn [hbind eok].
    destruct (compress_bands layno b1 bs) as [[[b2 l2]|]|] eqn:E2; [|done|done]. cbn [hbind eok].
    intros [= <- <-] (v1 & Hp1 & Hp2)%puts_app.
    assert (compress_precinct layno v p = eok (v1, p')) as ->; [|cbn [hbind eok]; by rewrite (IH b1 b2 v1 v' l2 E2 Hp2)].
    destruct Hs as [[W1 H1 O1 N1] He2 S1 S2 Hlow _ _ Hbl]. unfold UINT16_MAX in HnL.
    destruct (set_included_spec layno ltac:(unfold incl_max, UINT16_MAX; lia) (pc_cblks p) 0 (pc_incl p) (pd_incl q))
      as (t & Et & Wt & Ht & St' & _ & Nt & _); try done; try lia.
    unfold compress_precinct, precinct_code in *. rewrite Et in *.
    destruct (compress_cblks layno 0 bio t (pc_imsb p) (pc_cblks p)) as [[[[[x1 t1] t2] l1]|]|] eqn:E3; [|done|done].
    cbn [hbind eok] in E1. injection E1 as <- <-.
    rewrite (cblks_transfer (bc_maxBitPlanes b) _ _ Hbl 0 (Z.of_nat (length (pc_cblks p))) bio x1 v v1 t t1 (pc_imsb p) t2 l1); try done; try lia.
    split; [done|done|by eapply sync_Forall_enc_ok|lia].
Qed.

(** ** The simulated sizes *)

Definition budget_ok (avail n : Z) : bool := (avail =? UINT32_MAX) || (n <=? avail).
Definition left_over (avail n : Z) : Z := if avail =? UINT32_MAX then avail else avail - n.

Lemma budget_split avail a b : 0 <= a <= UINT32_MAX -> 0 <= b -> 0 <= avail <= UINT32_MAX ->
  budget_ok avail (a + b) = budget_ok avail a && budget_ok (left_over avail a) b /\
  (budget_ok avail a = true -> left_over (left_over avail a) b = left_over avail (a + b) /\ take_bytes a avail = left_over avail a /\
     0 <= left_over avail a <= UINT32_MAX).
Proof.
  unfold budget_ok, left_over, take_bytes, UINT32_MAX. intros Ha Hb Hav. destruct (Z.eqb_spec avail 4294967295) as [->|Hne].
  { rewrite Z.eqb_refl. cbn. split; [done|]. intros _. lia. }
  cbn [orb]. destruct (Z.leb_spec a avail).
  - destruct (Z.eqb_spec (avail - a) 4294967295) as [E|E]; [lia|]. cbn [orb andb]. split.
    + destruct (Z.leb_spec (a + b) avail), (Z.leb_spec b (avail - a)); (done || lia).
    + intros _. rewrite wrap_small by lia. lia.
  - cbn [andb]. split; [|done]. destruct (Z.leb_spec (a + b) avail); [lia|done].
Qed.

Lemma simulate_cblks_spec mbp cs : Forall (cblk_ok sty mbp nL) cs -> forall avail n, 0 <= avail <= UINT32_MAX ->
  simulate_cblks layno (enc_header layno <$> cs) avail n =
    if budget_ok avail (body_len layno cs) then eok (enc_step layno <$> cs, left_over avail (body_len layno cs), n + body_len layno cs) else efail.
Proof.
  induction 1 as [|c cs Hc Hcs IH]; intros avail n Hav.
  { change (body_len layno []) with 0. cbn [simulate_cblks fmap list_fmap]. rewrite Z.add_0_r. unfold budget_ok, left_over.
    rewrite Z.sub_0_r. destruct (avail =? UINT32_MAX); cbn [orb]; [done|]. destruct (Z.leb_spec 0 avail); [done|lia]. }
  rewrite !fmap_cons. cbn [simulate_cblks].
  assert (cc_getLayer layno (enc_header layno c) = cc_getLayer layno c) as ->.
  { unfold cc_getLayer. by destruct (enc_header_same layno c) as (_ & _ & ->). }
  assert (body_len layno (c :: cs) = lay_len (cc_getLayer layno c) + body_len layno cs) as -> by done.
  destruct (bo_layer _ _ _ _ Hc k Hk) as (E1 & E2 & E3). unfold layer_at in *. pose proof (body_len_nonneg sty mbp nL k Hk cs Hcs) as Hb0.
  set (len := lay_len (cc_getLayer layno c)) in *.
  destruct (budget_split avail len (body_len layno cs)) as [Hsp Hok]; [unfold UINT32_MAX; lia|done|done|]. rewrite Hsp.
  assert (enc_step layno c = if lay_totalPasses (cc_getLayer layno c) =? 0 then enc_header layno c
    else cc_incNumPassesInLayer0 (lay_totalPasses (cc_getLayer layno c)) (enc_header layno c)) as ->.
  { unfold enc_step, enc_body. by rewrite enc_header_lpasses. }
  destruct (Z.eqb_spec (lay_totalPasses (cc_getLayer layno c)) 0) as [E0|E0].
  - assert (len = 0) as El. { rewrite E1. rewrite layer_ps_nil; [done|]. exact E0. }
    assert (budget_ok avail len = true /\ left_over avail len = avail) as [Hb Hl].
    { rewrite El. unfold budget_ok, left_over. rewrite Z.sub_0_r. destruct (avail =? UINT32_MAX); [done|]. split; [|done]. apply Z.leb_le. lia. }
    rewrite Hb. cbn [andb]. rewrite IH by done. destruct (Hok Hb) as (<- & _ & _). rewrite Hl.
    destruct (budget_ok avail (body_len layno cs)); [|done]. cbn [hbind eok]. by rewrite El, Z.add_0_l.
  - assert ((avail <? len) = negb (budget_ok avail len)) as ->.
    { unfold budget_ok, UINT32_MAX in *. destruct (Z.eqb_spec avail 4294967295); cbn [orb]; zcases; try done; lia. }
    destruct (budget_ok avail len); cbn [negb andb]; [|done]. destruct (Hok eq_refl) as (<- & -> & Hr). rewrite IH by done.
    destruct (budget_ok (left_over avail len) (body_len layno cs)); [|done]. cbn [hbind eok]. by rewrite Z.add_assoc.
Qed.

(** An empty band has no blocks. *)
Definition empty_bands_bare (bs : list BandC) : Prop :=
  Forall (fun b => bc_empty b = true -> match bc_prc b with Some p => pc_cblks p = [] | None => True end) bs.

Lemma simulate_bands_spec bs bs' : Forall2 (band_written k) bs bs' -> forall ds, Forall2 (band_sync sty nL k) bs ds -> empty_bands_bare bs ->
  forall st st' bs2, write_body writeBytes layno st bs' = eok (st', bs2) ->
  forall avail n, 0 <= avail <= UINT32_MAX -> bands_len k bs <= UINT32_MAX ->
  simulate_bands layno bs' avail n =
    if budget_ok avail (bands_len k bs) then eok (bs2, left_over avail (bands_len k bs), n + bands_len k bs) else efail.
Proof.
  induction 1 as [|b b' bs bs' Hb _ IH]; intros ds Hs Hem st st' bs2; cbn [write_body simulate_bands].
  { intros [= <- <-] avail n Hav _. change (bands_len k []) with 0. rewrite Z.add_0_r. unfold budget_ok, left_over.
    rewrite Z.sub_0_r. destruct (avail =? UINT32_MAX); cbn [orb]; [done|]. destruct (Z.leb_spec 0 avail); [done|lia]. }
  apply Forall2_cons_inv_l in Hs as (d & ds' & Hd & Hs & ->). destruct (band_sync_ok sty nL k b d Hd) as (mbp & Hoks).
  apply list.Forall_cons in Hem as [Hem0 Hem]. pose proof (body_len_nonneg sty mbp nL k Hk _ Hoks) as Hl1.
  pose proof (bands_len_nonneg sty nL k Hk bs ds' Hs) as Hl0.
  assert (bands_len k (b :: bs) = body_len layno (band_cblks b) + bands_len k bs) as -> by done.
  destruct Hb as [b p E Hsk|b p p' E Hsk Hcb].
  - rewrite E, Hsk. cbn [hbind eok]. destruct (write_body writeBytes layno st bs') as [[[st1 l1]|]|] eqn:E1; [|done|done]. cbn [hbind eok].
    intros [= <- <-] avail n Hav Hle. assert (band_cblks b = []) as Ec by (unfold band_cblks; by rewrite E, Hsk). rewrite Ec in *.
    change (body_len layno []) with 0 in *. rewrite Z.add_0_l in *.
    assert (pc_cblks p = []) as Ep.
    { unfold skips_band in Hsk. apply orb_true_iff in Hsk as [Hsk|Hsk]; [specialize (Hem0 Hsk); by rewrite E in Hem0|].
      apply Nat.eqb_eq in Hsk. by apply nil_length_inv. }
    rewrite Ep. cbn [simulate_cblks hbind eok]. rewrite (IH ds' Hs Hem st st1 l1 E1) by done.
    destruct (budget_ok avail (bands_len k bs)); [|done]. cbn [hbind eok]. unfold eok. do 4 f_equal. destruct b as [be bm bp]. cbn in E |- *. subst bp.
    f_equal. destruct p as [i1 i2 i3]. cbn in Ep. subst i3. done.
  - cbn [bc_prc bc_empty bc_maxBitPlanes]. rewrite (skips_written k b p p' Hsk Hcb), Hcb.
    assert (band_cblks b = pc_cblks p) as Ec by (unfold band_cblks; by rewrite E, Hsk). rewrite Ec in *.
    destruct (write_body_cblks writeBytes layno st (enc_header layno <$> pc_cblks p)) as [[[st1 c1]|]|] eqn:E1; [|done|done]. cbn [hbind eok].
    destruct (write_body writeBytes layno st1 bs') as [[[st2 l1]|]|] eqn:E2; [|done|done]. cbn [hbind eok]. intros [= <- <-] avail n Hav Hle.
    destruct (write_body_cblks_spec writeBytes writeBytes_ok sty nL k Hk mbp (pc_cblks p) Hoks st st1 c1 E1) as [-> _].
    rewrite (simulate_cblks_spec mbp) by done.
    destruct (budget_split avail (body_len layno (pc_cblks p)) (bands_len k bs)) as [-> Hok]; [lia|done|done|].
    destruct (budget_ok avail (body_len layno (pc_cblks p))); [|done]. destruct (Hok eq_refl) as (<- & _ & Hr). cbn [hbind eok andb].
    rewrite (IH ds' Hs Hem st1 st2 l1 E2) by (done || lia).
    destruct (budget_ok (left_over avail (body_len layno (pc_cblks p))) (bands_len k bs)); [|done]. cbn [hbind eok]. by rewrite Z.add_assoc.
Qed.

(** The header, to the stream and simulated. *)
Lemma header_simulated st bs bs' ds (bio' : BitIO St) budget : packet_state sty nL k bs ds -> 0 <= budget ->
  compressHeader layno (BitIO_stream st true) bs = eok (bio', bs') ->
  let size := Z.of_nat (length (emitted bio')) - Z.of_nat (length (stream_contents st)) in
  (size <= budget -> exists v, compressHeader (St := St) layno (BitIO_buffer [] budget true) bs = eok (v, bs') /\ numBytes v = size) /\
  (forall v x, compressHeader (St := St) layno (BitIO_buffer [] budget true) bs = eok (v, x) -> size <= budget /\ numBytes v = size /\ x = bs').
Proof.
  intros Hp Hb He size. destruct (compressHeader_parts sty nL k Hk bs bs' ds _ bio' Hp He) as (bs0 & w0 & w1 & Hi & Hs & _ & Hput0 & Hc & Hf).
  destruct (bands_header sty nL k Hk HnL Hht bs0 ds Hs w0 w1 bs' Hc) as (_ & code & Hcode & Hput & _).
  assert (puts (BitIO_stream st true) ([true] ++ code) w1) as Hputs by (rewrite puts_app; eauto).
  destruct (put_flush_counts ([true] ++ code) 0 (BitIO_stream st true) (BitIO_buffer [] budget true) w1 bio') as (v2 & Hcase); eauto.
  { apply wf_writer_init. } { unfold counts_like; simpl. repeat split; lia. }
  rewrite Z.add_0_l in Hcase. change (emitted (BitIO_stream st true)) with (stream_contents st) in Hcase. fold size in Hcase. cbn [buf_len BitIO_buffer] in Hcase.
  split.
  - intros Hle. destruct Hcase as [(E & Hn & _)|[_ Hgt]]; [|lia]. exists v2. split; [|done].
    apply bseq_true in E as (v1 & E1 & E2). assert (puts (BitIO_buffer [] budget true) ([true] ++ code) v1) as Hv by exact E1.
    apply puts_app in Hv as (v0 & Hv0 & Hv1). unfold compressHeader.
    match goal with |- hbind ?m _ = _ => assert (m = eok bs0) as -> by exact Hi end. cbn [hbind eok].
    rewrite write1_bit. unfold puts in Hv0. change (Z.odd 1) with true. rewrite Hv0. cbn [lift_b hbind eok]. rewrite Hcode in Hv1.
    rewrite (bands_transfer bs0 ds Hs w0 w1 v0 v1 bs' Hc Hv1). cbn [hbind eok]. rewrite E2. done.
  - intros v x Hx. destruct (compressHeader_parts sty nL k Hk bs x ds _ v Hp Hx) as (bs1 & y0 & y1 & Hi' & _ & _ & Hy0 & Hyc & Hyf).
    rewrite Hi in Hi'. injection Hi' as <-.
    destruct (bands_header sty nL k Hk HnL Hht bs0 ds Hs y0 y1 x Hyc) as (_ & code' & Hcode' & Hyput & _).
    assert (puts (BitIO_buffer [] budget true) ([true] ++ code) y1) as Hyp by (rewrite puts_app; exists y0; split; [done|]; by rewrite Hcode, <- Hcode').
    assert ((put_bits ([true] ++ code) ;;; flush) (BitIO_buffer [] budget true) = (true, v)) as Hrun by (unfold bseq; unfold puts in Hyp; by rewrite Hyp).
    destruct Hcase as [(E & Hn & Hle)|[E _]]; [|congruence]. assert (v2 = v) as -> by congruence. split; [done|]. split; [done|].
    rewrite Hcode' in Hyput. pose proof (bands_transfer bs0 ds Hs w0 w1 y0 y1 bs' Hc Hyput) as Ht. rewrite Hyc in Ht. by injection Ht.
Qed.

Lemma init_bands_bare bs bs0 : init_bands bs = eok bs0 -> empty_bands_bare bs -> empty_bands_bare bs0.
Proof.
  intros Hi Hb. revert bs0 Hi. induction Hb as [|b bs Hb0 _ IH]; intros bs0; cbn [init_bands]; [intros [= <-]; constructor|].
  destruct (bc_prc b) as [p|] eqn:E; [|done]. destruct (skips_band b p) eqn:Hsk.
  - cbn [hbind eok]. destruct (init_bands bs) as [[l|]|]; [|done|done]. cbn [hbind eok]. intros [= <-]. constructor; [by rewrite E|by apply IH].
  - destruct (init_precinct (bc_maxBitPlanes b) p) as [[p'|]|]; [|done|done]. cbn [hbind eok].
    destruct (init_bands bs) as [[l|]|]; [|done|done]. cbn [hbind eok]. intros [= <-]. constructor; [|by apply IH].
    cbn. intros He. unfold skips_band in Hsk. by rewrite He in Hsk.
Qed.

Lemma marker_simulated csty flag (bytes : list Z) size avail n : 0 <= size <= 100 -> 0 <= avail <= UINT32_MAX ->
  bytes = (if negb (Z.land csty flag =? 0) then bytes else []) -> (negb (Z.land csty flag =? 0) = true -> Z.of_nat (length bytes) = size) ->
  simulate_marker csty flag size avail n =
    if budget_ok avail (Z.of_nat (length bytes)) then eok (left_over avail (Z.of_nat (length bytes)), n + Z.of_nat (length bytes)) else efail.
Proof.
  intros Hs Hav Hb Hl. unfold simulate_marker. destruct (negb (Z.land csty flag =? 0)).
  - rewrite Hl by done. assert ((avail <? size) = negb (budget_ok avail size)) as ->.
    { unfold budget_ok, UINT32_MAX in *. destruct (Z.eqb_spec avail 4294967295); cbn [orb]; zcases; try done; lia. }
    destruct (budget_split avail size 0) as [_ Hok]; [unfold UINT32_MAX; lia|lia|done|].
    destruct (budget_ok avail size); cbn [negb]; [|done]. by destruct (Hok eq_refl) as (_ & -> & _).
  - rewrite Hb. change (Z.of_nat (length (@nil Z))) with 0. unfold budget_ok, left_over. rewrite Z.add_0_r, Z.sub_0_r.
    destruct (avail =? UINT32_MAX); cbn [orb]; [done|]. destruct (Z.leb_spec 0 avail); [done|lia].
Qed.

Lemma packet_simulated csty index st bs st' bs' ds avail : packet_state sty nL k bs ds -> empty_bands_bare bs -> 0 <= avail <= UINT32_MAX ->
  write_packet writeBytes csty layno index st bs = eok (st', bs') ->
  exists size, Z.of_nat (length (stream_contents st')) = Z.of_nat (length (stream_contents st)) + size /\ 0 <= size /\
    (size <= UINT32_MAX ->
     (budget_ok avail size = true -> simulate_packet csty layno avail bs = eok (bs', size)) /\
     (forall r, simulate_packet csty layno avail bs = eok r -> budget_ok avail size = true)).
Proof.
  intros Hp Hbare Hav Hw.
  destruct (write_packet_parts writeBytes k csty index st bs st' bs' Hw) as (st1 & bio & b1 & st2 & st3 & E1 & E2 & Est & E3 & E4).
  destruct (compressHeader_parts sty nL k Hk bs b1 ds _ bio Hp E2) as (bs0 & w0 & w1 & Hi & Hs & _ & Hput0 & Hc & Hf).
  destruct (bands_header sty nL k Hk HnL Hht bs0 ds Hs w0 w1 b1 Hc) as (Hwr & code & Hcode & Hput & _).
  assert (empty_bands_bare bs0) as Hbare0.
  { destruct (layno =? 0); [by eapply init_bands_bare|]. by injection Hi as <-. }
  destruct (bands_write writeBytes writeBytes_ok sty nL k Hk bs0 b1 Hwr ds Hs st3 st' bs' E4) as [_ Hst].
  pose proof (bands_body_length sty nL k Hk bs0 ds Hs) as Hbl. pose proof (bands_len_nonneg sty nL k Hk bs0 ds Hs) as Hbl0.
  assert (puts (BitIO_stream st1 true) ([true] ++ code) w1) as Hputs by (rewrite puts_app; eauto).
  destruct (reader_of_writer st1 ([true] ++ code) [] w1 bio Hputs Hf) as (hdr & _ & Hem & _). unfold emitted in Hem. rewrite Est in Hem.
  set (sop := sop_bytes csty (Z.land index 65535)) in *. set (eph := eph_bytes csty) in *.
  set (h := Z.of_nat (length hdr)). set (a := Z.of_nat (length sop)). set (e := Z.of_nat (length eph)).
  exists (a + (h + (e + bands_len k bs0))). split; [rewrite Hst, E3, Hem, E1, !length_app; lia|]. split; [lia|]. intros Hsize.
  destruct (budget_split avail a (h + (e + bands_len k bs0))) as [-> Hok1]; [lia|lia|done|].
  unfold simulate_packet. rewrite (marker_simulated csty CP_CSTY_SOP sop) by (try done; try lia; unfold sop, sop_bytes; by destruct (negb _)). fold a.
  destruct (budget_ok avail a); cbn [andb hbind eok]; [|done]. destruct (Hok1 eq_refl) as (_ & _ & Hr1). clear Hok1. rewrite Z.add_0_l.
  destruct (header_simulated st1 bs b1 ds bio (left_over avail a) Hp (proj1 Hr1) E2) as [Hh1 Hh2].
  assert (Z.of_nat (length (emitted bio)) - Z.of_nat (length (stream_contents st1)) = h) as Eh.
  { unfold emitted. rewrite Est, Hem, length_app. lia. }
  rewrite Eh in Hh1, Hh2.
  destruct (budget_split (left_over avail a) h (e + bands_len k bs0)) as [-> Hok2]; [lia|lia|done|].
  assert (budget_ok (left_over avail a) h = (h <=? left_over avail a)) as Hbh.
  { unfold budget_ok. destruct (Z.eqb_spec (left_over avail a) UINT32_MAX) as [->|]; [|done]. symmetry. apply Z.leb_le. lia. }
  destruct (Z.leb_spec h (left_over avail a)) as [Hle|Hgt].
  2: { rewrite Hbh. cbn [andb]. split; [done|]. intros r. destruct (compressHeader layno (BitIO_buffer [] (left_over avail a) true) bs) as [[[v x]|]|] eqn:E; [|done|done].
       intros _. destruct (Hh2 v x eq_refl). lia. }
  destruct (Hh1 Hle) as (v & -> & Hv). rewrite Hbh. cbn [andb hbind eok]. rewrite Hv. rewrite (wrap_small 32 h) by (unfold UINT32_MAX in *; lia).
  rewrite Hbh in Hok2. destruct (Hok2 eq_refl) as (_ & -> & Hr2). clear Hok2.
  rewrite (marker_simulated csty CP_CSTY_EPH eph) by (try done; try lia; unfold eph, eph_bytes; by destruct (negb _)). fold e.
  destruct (budget_split (left_over (left_over avail a) h) e (bands_len k bs0)) as [-> Hok3]; [lia|lia|done|].
  destruct (budget_ok (left_over (left_over avail a) h) e); cbn [andb hbind eok]; [|done]. destruct (Hok3 eq_refl) as (_ & _ & Hr3). clear Hok3.
  rewrite (simulate_bands_spec bs0 b1 Hwr ds Hs Hbare0 st3 st' bs' E4) by (done || lia).
  destruct (budget_ok (left_over (left_over (left_over avail a) h) e) (bands_len k bs0)); cbn [hbind eok]; [|done].
  split; [intros _|done]. destruct (Z.ltb_spec UINT32_MAX (a + h + e + bands_len k bs0)); [lia|]. unfold eok. do 3 f_equal. lia.
Qed.
End Transfer.

(** C9: rate control learns the true sizes.  The size [compressPacketSimulate]
    reports for a packet, and hands to the PLT markers, is the number of bytes
    [compressPacket] writes for it and counts, it leaves the blocks and the tracker
    as the real packet would, and it succeeds exactly when the packet fits the
    byte budget ([UINT_MAX] standing for no budget). *)
Theorem simulated_packet_size (csty numcomps sty maxBytes compno resno precno : Z) (nL k : nat) (mk : option PLMarker) s st s' st' n ds :
  (k < nL)%nat -> Z.of_nat nL <= UINT16_MAX -> has sty GRK_CBLKSTY_HT_ONLY = false -> 0 <= maxBytes <= UINT32_MAX ->
  let q := (compno, resno, precno, Z.of_nat k) in
  packet_state sty nL k (t2_bands s (compno, resno, precno)) ds -> empty_bands_bare (t2_bands s (compno, resno, precno)) ->
  compressPacket csty numcomps q s st = eok (s', st', n) ->
  let size := Z.of_nat (length (stream_contents st')) - Z.of_nat (length (stream_contents st)) in
  size <= UINT32_MAX ->
  n = size /\
  (budget_ok maxBytes size = true ->
   exists s2, t2_bands s2 = t2_bands s' /\ t2_tracker s2 = t2_tracker s' /\
     compressPacketSimulate csty numcomps maxBytes q mk s =
       if is_packet_encoded q (t2_tracker s) then eok (s2, mk, size)
       else match mk with None => eok (s2, None, size) | Some m => let! m := lift_b (pushPL size m) in eok (s2, Some m, size) end) /\
  (forall r, compressPacketSimulate csty numcomps maxBytes q mk s = eok r -> budget_ok maxBytes size = true).
Proof.
  intros Hk HnL Hht Hav q Hp Hbare Hc size Hsize. unfold compressPacket, compressPacketSimulate in *. cbn [q] in *.
  destruct (numcomps <=? compno); [done|]. fold q in Hc |- *.
  destruct (is_packet_encoded q (t2_tracker s)) eqn:Henc.
  - injection Hc as <- <- <-. unfold size. rewrite Z.sub_diag. split; [done|].
    assert (budget_ok maxBytes 0 = true) as Hb. { unfold budget_ok. destruct (maxBytes =? UINT32_MAX); [done|]. apply Z.leb_le. lia. }
    split; [|done]. intros _. by exists s.
  - destruct (write_packet writeBytes csty (Z.of_nat k) (t2_processed s) st (t2_bands s (compno, resno, precno))) as [[[st1 bs]|]|] eqn:E; [|done|done].
    cbn [hbind eok] in Hc. injection Hc as <- <- <-.
    destruct (packet_simulated sty nL k Hk HnL Hht csty _ st _ st1 bs ds maxBytes Hp Hbare Hav E) as (sz & Hsz & Hsz0 & Hsim).
    assert (size = sz) as Es by (unfold size; lia). rewrite <- Es in Hsim, Hsz0. clear sz Hsz Es. destruct (Hsim Hsize) as [H1 H2].
    split; [rewrite !tell_ok; apply wrap_small; unfold size, UINT32_MAX in *; lia|]. split.
    + intros Hb. rewrite (H1 Hb). cbn [hbind eok].
      exists (mkT2 (packet_encoded q (t2_tracker s)) (t2_processed s) (upd_bands (compno, resno, precno) bs (t2_bands s))). done.
    + intros r Hr. destruct (simulate_packet csty (Z.of_nat k) maxBytes (t2_bands s (compno, resno, precno))) as [[x|]|]; [|done|done].
      by apply (H2 x).
Qed.

(** ** Every packet once *)

(** The packets of [qs] that are not in [S], at their first occurrences. *)
Fixpoint fresh_packets (t : PacketTracker) (S : gset packet) (qs : list packet) : list packet :=
  match qs with
  | [] => []
  | q :: qs => if isValidIndex t q && negb (bool_decide (q ∈ S)) then q :: fresh_packets t ({[q]} ∪ S) qs else fresh_packets t S qs
  end.

Fixpoint write_packets (csty : Z) (qs : list packet) (s : T2State) (st : St) (tileBytes : Z) : eres (T2State * St * Z) :=
  match qs with
  | [] => eok (s, st, tileBytes)
  | q :: qs =>
      let! (st', bs) := write_packet writeBytes csty q.2 (t2_processed s) st (t2_bands s q.1) in
      write_packets csty qs (mkT2 (packet_encoded q (t2_tracker s)) (u64 (t2_processed s + 1)) (upd_bands q.1 bs (t2_bands s))) st'
        (u32 (tileBytes + u32 (tell st' - tell st)))
  end.

Lemma fresh_packets_dims t t' S qs : (forall q, isValidIndex t' q = isValidIndex t q) -> fresh_packets t' S qs = fresh_packets t S qs.
Proof. intros Hv. revert S. induction qs as [|q qs IH]; intros S; [done|]. cbn [fresh_packets]. rewrite Hv. by rewrite !IH. Qed.

Lemma fresh_packets_spec t qs : forall S, NoDup (fresh_packets t S qs) /\
  forall q, q ∈ fresh_packets t S qs <-> q ∈ qs /\ isValidIndex t q = true /\ q ∉ S.
Proof.
  assert (forall (q : packet) (qs : list packet) (X : Prop) (q' : packet), (q' = q -> ~ X) -> (q' ∈ qs /\ X <-> q' ∈ q :: qs /\ X)) as Hskip.
  { intros q qs' X q' Hn. rewrite elem_of_cons. split; [intros [? ?]; auto|]. intros [[?|?] ?]; [by destruct (Hn H)|auto]. }
  induction qs as [|q qs IH]; intros S; cbn [fresh_packets].
  { split; [constructor|]. intros q. split; [intros H|intros [H _]]; inversion H. }
  destruct (isValidIndex t q) eqn:Hv; cbn [andb]; [destruct (decide (q ∈ S)) as [Hq|Hq]|].
  - rewrite bool_decide_true by done. cbn [negb]. destruct (IH S) as [H1 H2]. split; [done|]. intros q'. rewrite H2. apply Hskip. intros -> [_ Hn]. done.
  - rewrite bool_decide_false by done. cbn [negb]. destruct (IH ({[q]} ∪ S)) as [H1 H2]. split.
    + constructor; [|done]. intros Hin. apply H2 in Hin as (_ & _ & Hin). apply Hin, elem_of_union. left. by apply elem_of_singleton.
    + intros q'. rewrite elem_of_cons, elem_of_cons, H2, not_elem_of_union, not_elem_of_singleton. split.
      * intros [->|(H3 & H4 & H5 & H6)]; auto.
      * intros [[->|H3] [H4 H5]]; [by left|]. destruct (decide (q' = q)); auto 6.
  - destruct (IH S) as [H1 H2]. split; [done|]. intros q'. rewrite H2. apply Hskip. intros -> [Hn _]. congruence.
Qed.

(** C10: every packet is written exactly once.  Whatever packets the progressions
    visit, in any order and as often as they like, [compressPackets] writes those
    within the tile and below [max_layers] that were not written before, each at its
    first visit, and nothing else. *)
Theorem packets_written_once (csty numcomps max_layers : Z) (qs : list packet) (S : gset packet) s st tileBytes :
  tracks (t2_tracker s) S -> 0 <= tileBytes < 2 ^ 32 ->
  Forall (fun q => nonneg q /\ q.1.1.1 < numcomps) qs ->
  let fresh := fresh_packets (t2_tracker s) S (filter (fun q : packet => q.2 < max_layers) qs) in
  compressPackets csty numcomps max_layers qs s st tileBytes = write_packets csty fresh s st tileBytes /\
  NoDup fresh /\
  forall q, q ∈ fresh <-> q ∈ qs /\ q.2 < max_layers /\ isValidIndex (t2_tracker s) q = true /\ q ∉ S.
Proof.
  intros Ht Hb Hqs fresh. split.
  2: { destruct (fresh_packets_spec (t2_tracker s) (filter (fun q : packet => q.2 < max_layers) qs) S) as [H1 H2]. split; [done|].
       intros q. unfold fresh. rewrite H2, list_elem_of_filter. tauto. }
  unfold fresh. clear fresh. revert S s st tileBytes Ht Hb. induction Hqs as [|q qs [Hq Hc] _ IH]; intros S s st tb Ht Hb; [done|].
  cbn [compressPackets]. destruct (Z.ltb_spec q.2 max_layers) as [Hl|Hl].
  2: { rewrite filter_cons_False by lia. by apply IH. }
  rewrite filter_cons_True by done. cbn [fresh_packets]. destruct q as [[[c r] p] l]. unfold compressPacket. cbn in Hc.
  set (q := (c, r, p, l)) in *. destruct (Z.leb_spec numcomps c); [lia|].
  pose proof Ht as [D1 _ _ D4].
  destruct (isValidIndex (t2_tracker s) q) eqn:Hv; cbn [andb].
  - rewrite is_packet_encoded_bit, index_pos, D4 by done. destruct (decide (q ∈ S)) as [Hin|Hin].
    + rewrite bool_decide_true by done. cbn [hbind eok negb]. rewrite wrap_small by lia. rewrite Z.add_0_r. by apply IH.
    + rewrite bool_decide_false by done. cbn [negb write_packets]. cbn [q fst snd].
      destruct (write_packet writeBytes csty l (t2_processed s) st (t2_bands s (c, r, p))) as [[[st1 bs]|]|]; [|done|done].
      cbn [hbind eok]. fold q. rewrite (IH ({[q]} ∪ S)).
      * f_equal. apply fresh_packets_dims. intros q'. cbn [t2_tracker]. unfold packet_encoded. by rewrite Hv.
      * cbn [t2_tracker]. pose proof (tracks_encoded (t2_tracker s) S q Hq Ht) as Ht'. cbn [spec_op] in Ht'. by rewrite Hv in Ht'.
      * apply (wrap_range 32). lia.
  - unfold is_packet_encoded. rewrite Hv. cbn [negb hbind eok]. rewrite wrap_small by lia. rewrite Z.add_0_r. by apply IH.
Qed.
End T2Compress.

(** ** A tile of one precinct *)

Definition sample_csty : Z := CP_CSTY_SOP + CP_CSTY_EPH.
Definition sample_tile : T2State := mkT2 (PacketTracker_new 1 1 1 2) 70000 (fun _ => sample_bands).
Definition sample_out : MemWriter := mkMemWriter [99] 200.
Definition mem_tell (m : MemWriter) : Z := Z.of_nat (length (mem_bytes m)).

Definition sample_packet : T2State * MemWriter * Z :=
  match compressPacket mem_writeBytes mem_tell sample_csty 1 (0, 0, 0, 0) sample_tile sample_out with
  | Some (Ok r) => r | _ => (sample_tile, sample_out, 0) end.

Lemma simulated_packet_size_witness :
  sample_packet.2 = 14 /\
  (budget_ok 20 14 = true -> exists s2, t2_bands s2 = t2_bands sample_packet.1.1 /\ t2_tracker s2 = t2_tracker sample_packet.1.1 /\
    compressPacketSimulate (St := MemWriter) sample_csty 1 20 (0, 0, 0, 0) None sample_tile = eok (s2, None, 14)).
Proof.
  destruct (simulated_packet_size mem_writeBytes mem_writeBytes_ok mem_tell (fun st => eq_refl) sample_csty 1 sample_sty 20 0 0 0 2 0 None
              sample_tile sample_out sample_packet.1.1 sample_packet.1.2 sample_packet.2 sample_parsed) as (H1 & H2 & _).
  - lia.
  - vm_compute. discriminate.
  - reflexivity.
  - vm_compute. split; discriminate.
  - exact sample_bands_init.
  - repeat constructor; discriminate.
  - vm_compute. reflexivity.
  - vm_compute. discriminate.
  - split; [rewrite H1; vm_compute; reflexivity|exact H2].
Defined.

Definition sample_visits : list packet := [(0, 0, 0, 0); (0, 0, 0, 0); (0, 0, 0, 1); (0, 3, 0, 0); (0, 0, 0, 0)].

Lemma packets_written_once_witness :
  compressPackets mem_writeBytes mem_tell sample_csty 1 2 sample_visits sample_tile sample_out 0 =
    write_packets mem_writeBytes mem_tell sample_csty [(0, 0, 0, 0); (0, 0, 0, 1)] sample_tile sample_out 0.
Proof.
  destruct (packets_written_once mem_writeBytes mem_tell sample_csty 1 2 sample_visits ∅ sample_tile sample_out 0) as [H _].
  - apply tracker_tracks_new. unfold dims_ok. cbn. lia.
  - lia.
  - repeat constructor; cbn; lia.
  - rewrite H. f_equal.
Defined.
