(* ===== verification/MQCoder.v ===== *)
(** The MQ arithmetic coder: t1/part1/block_coder/mqcoder.

    [mqcoder] is used by the block coder in one of two roles.  As an encoder
    ([mqenc]) it narrows an interval of code strings and writes its lower end
    byte by byte, leaving room for one carry and stuffing a bit after a 0xFF
    byte; as a decoder ([mqdec]) it reads the bytes of a segment from a list of
    buffers, with 1 bits past the end.  Raw (bypass) coding shares the buffers.
    The theorems are in MQRoundTrip.v and BypassRoundTrip.v. *)
From S2P Require Import Prelude.

(** ** Context states (mqc_state.h, mqc_state.cpp) *)

(** [nmps] and [nlps] are pointers into the table [mqc_states]: indices here. *)
Record mqc_state := mq { qeval : Z; mps : Z; nmps : nat; nlps : nat }.

Definition mqc_states : list mqc_state :=
  [mq 0x5601 0 2 3; mq 0x5601 1 3 2;
   mq 0x3401 0 4 12; mq 0x3401 1 5 13;
   mq 0x1801 0 6 18; mq 0x1801 1 7 19;
   mq 0x0ac1 0 8 24; mq 0x0ac1 1 9 25;
   mq 0x0521 0 10 58; mq 0x0521 1 11 59;
   mq 0x0221 0 76 66; mq 0x0221 1 77 67;
   mq 0x5601 0 14 13; mq 0x5601 1 15 12;
   mq 0x5401 0 16 28; mq 0x5401 1 17 29;
   mq 0x4801 0 18 28; mq 0x4801 1 19 29;
   mq 0x3801 0 20 28; mq 0x3801 1 21 29;
   mq 0x3001 0 22 34; mq 0x3001 1 23 35;
   mq 0x2401 0 24 36; mq 0x2401 1 25 37;
   mq 0x1c01 0 26 40; mq 0x1c01 1 27 41;
   mq 0x1601 0 58 42; mq 0x1601 1 59 43;
   mq 0x5601 0 30 29; mq 0x5601 1 31 28;
   mq 0x5401 0 32 28; mq 0x5401 1 33 29;
   mq 0x5101 0 34 30; mq 0x5101 1 35 31;
   mq 0x4801 0 36 32; mq 0x4801 1 37 33;
   mq 0x3801 0 38 34; mq 0x3801 1 39 35;
   mq 0x3401 0 40 36; mq 0x3401 1 41 37;
   mq 0x3001 0 42 38; mq 0x3001 1 43 39;
   mq 0x2801 0 44 38; mq 0x2801 1 45 39;
   mq 0x2401 0 46 40; mq 0x2401 1 47 41;
   mq 0x2201 0 48 42; mq 0x2201 1 49 43;
   mq 0x1c01 0 50 44; mq 0x1c01 1 51 45;
   mq 0x1801 0 52 46; mq 0x1801 1 53 47;
   mq 0x1601 0 54 48; mq 0x1601 1 55 49;
   mq 0x1401 0 56 50; mq 0x1401 1 57 51;
   mq 0x1201 0 58 52; mq 0x1201 1 59 53;
   mq 0x1101 0 60 54; mq 0x1101 1 61 55;
   mq 0x0ac1 0 62 56; mq 0x0ac1 1 63 57;
   mq 0x09c1 0 64 58; mq 0x09c1 1 65 59;
   mq 0x08a1 0 66 60; mq 0x08a1 1 67 61;
   mq 0x0521 0 68 62; mq 0x0521 1 69 63;
   mq 0x0441 0 70 64; mq 0x0441 1 71 65;
   mq 0x02a1 0 72 66; mq 0x02a1 1 73 67;
   mq 0x0221 0 74 68; mq 0x0221 1 75 69;
   mq 0x0141 0 76 70; mq 0x0141 1 77 71;
   mq 0x0111 0 78 72; mq 0x0111 1 79 73;
   mq 0x0085 0 80 74; mq 0x0085 1 81 75;
   mq 0x0049 0 82 76; mq 0x0049 1 83 77;
   mq 0x0025 0 84 78; mq 0x0025 1 85 79;
   mq 0x0015 0 86 80; mq 0x0015 1 87 81;
   mq 0x0009 0 88 82; mq 0x0009 1 89 83;
   mq 0x0005 0 90 84; mq 0x0005 1 91 85;
   mq 0x0001 0 90 86; mq 0x0001 1 91 87;
   mq 0x5601 0 92 92; mq 0x5601 1 93 93].

Definition mqc_state0 : mqc_state := mq 0x5601 0 2 3.
Definition state_at (i : nat) : mqc_state := nth i mqc_states mqc_state0.

Definition MQC_NUMCTXS : nat := 19.
Definition T1_CTXNO_ZC : nat := 0.
Definition T1_CTXNO_AGG : nat := 17.
Definition T1_CTXNO_UNI : nat := 18.

Definition resetstates : list nat :=
  <[T1_CTXNO_ZC := (4 * 2)%nat]> (<[T1_CTXNO_AGG := (3 * 2)%nat]>
    (<[T1_CTXNO_UNI := (46 * 2)%nat]> (replicate MQC_NUMCTXS 0%nat))).

(** ** Encoder *)

(** The coder's members in the encoder's role.  [data_] is the memory from
    [start - 1] on (the byte before the code block's data, which the source
    allocates and clears), [bp_] an index into it. *)
Record mqenc := MkEnc {
  c_ : Z; a_ : Z; ct_ : Z; bp_ : nat; data_ : list Z; ctxs_ : list nat; curctx_ : nat
}.

Definition set_c (x : Z) e := MkEnc x (a_ e) (ct_ e) (bp_ e) (data_ e) (ctxs_ e) (curctx_ e).
Definition set_a (x : Z) e := MkEnc (c_ e) x (ct_ e) (bp_ e) (data_ e) (ctxs_ e) (curctx_ e).
Definition set_ct (x : Z) e := MkEnc (c_ e) (a_ e) x (bp_ e) (data_ e) (ctxs_ e) (curctx_ e).
Definition set_bp (x : nat) e := MkEnc (c_ e) (a_ e) (ct_ e) x (data_ e) (ctxs_ e) (curctx_ e).

(** [*bp] and [*bp = v]; the memory grows by the byte after its last one. *)
Definition byte_at (e : mqenc) (i : nat) : Z := nth i (data_ e) 0.
Definition deref (e : mqenc) : Z := byte_at e (bp_ e).
Definition write_byte (data : list Z) (i : nat) (v : Z) : list Z :=
  if (i <? length data)%nat then <[i := v]> data else data ++ [v].
Definition store (v : Z) (e : mqenc) : mqenc :=
  MkEnc (c_ e) (a_ e) (ct_ e) (bp_ e) (write_byte (data_ e) (bp_ e) v) (ctxs_ e) (curctx_ e).

(** [CODER_SETCURCTX], [*curctx] and [*curctx = s]. *)
Definition CODER_SETCURCTX (ctxno : nat) (e : mqenc) : mqenc :=
  MkEnc (c_ e) (a_ e) (ct_ e) (bp_ e) (data_ e) (ctxs_ e) ctxno.
Definition cur_state (e : mqenc) : mqc_state := state_at (nth (curctx_ e) (ctxs_ e) 0%nat).
Definition set_state (s : nat) (e : mqenc) : mqenc :=
  MkEnc (c_ e) (a_ e) (ct_ e) (bp_ e) (data_ e) (<[curctx_ e := s]> (ctxs_ e)) (curctx_ e).

(** The two ways a byte leaves the register: after a 0xFF byte seven bits and the
    carry ([byteout7]), otherwise eight bits ([byteout8]). *)
Definition byteout7 (e : mqenc) : mqenc :=
  let e := set_bp (S (bp_ e)) e in
  let e := store (u8 (Z.shiftr (c_ e) 20)) e in
  set_ct 7 (set_c (Z.land (c_ e) 0xfffff) e).
Definition byteout8 (e : mqenc) : mqenc :=
  let e := set_bp (S (bp_ e)) e in
  let e := store (u8 (Z.shiftr (c_ e) 19)) e in
  set_ct 8 (set_c (Z.land (c_ e) 0x7ffff) e).

Definition mqc_byteout (e : mqenc) : mqenc :=
  if deref e =? 0xff then byteout7 e
  else if Z.land (c_ e) 0x8000000 =? 0 then byteout8 e
  else
    let e := store (u8 (deref e + 1)) e in
    if deref e =? 0xff then byteout7 (set_c (Z.land (c_ e) 0x7ffffff) e)
    else byteout8 e.

(** One iteration of the renormalisation loop. *)
Definition renorme_step (e : mqenc) : mqenc :=
  let e := set_a (u32 (Z.shiftl (a_ e) 1)) e in
  let e := set_c (u32 (Z.shiftl (c_ e) 1)) e in
  let e := set_ct (u8 (ct_ e - 1)) e in
  if ct_ e =? 0 then mqc_byteout e else e.

(** [do ... while((a & 0x8000) == 0)]; sixteen doublings bring any positive [a]
    to bit 15. *)
Fixpoint renorme_loop (fuel : nat) (e : mqenc) : mqenc :=
  match fuel with
  | O => e
  | S fuel =>
      let e := renorme_step e in
      if Z.land (a_ e) 0x8000 =? 0 then renorme_loop fuel e else e
  end.
Definition mqc_renorme (e : mqenc) : mqenc := renorme_loop 16 e.

Definition mqc_codemps (e : mqenc) : mqenc :=
  let s := cur_state e in
  let e := set_a (u32 (a_ e - qeval s)) e in
  if Z.land (a_ e) 0x8000 =? 0 then
    let e := if a_ e <? qeval s then set_a (qeval s) e
             else set_c (u32 (c_ e + qeval s)) e in
    mqc_renorme (set_state (nmps s) e)
  else set_c (u32 (c_ e + qeval s)) e.

Definition mqc_codelps (e : mqenc) : mqenc :=
  let s := cur_state e in
  let e := set_a (u32 (a_ e - qeval s)) e in
  let e := if a_ e <? qeval s then set_c (u32 (c_ e + qeval s)) e
           else set_a (qeval s) e in
  mqc_renorme (set_state (nlps s) e).

Definition mqc_encode (d : Z) (e : mqenc) : mqenc :=
  if mps (cur_state e) =? d then mqc_codemps e else mqc_codelps e.

(** [start] is the address [1]: [data_] begins one byte before it. *)
Definition numbytes_enc (e : mqenc) : Z := u16 (Z.of_nat (bp_ e) - 1).

Definition setbits_enc (e : mqenc) : mqenc :=
  let tempc := u32 (c_ e + a_ e) in
  let e := set_c (Z.lor (c_ e) 0xffff) e in
  if tempc <=? c_ e then set_c (u32 (c_ e - 0x8000)) e else e.

Definition init_enc (data : list Z) (ctxs : list nat) : mqenc :=
  MkEnc 0 0x8000 12 0 data ctxs 0.

Definition flush_enc (e : mqenc) : mqenc :=
  let e := setbits_enc e in
  let e := mqc_byteout (set_c (u32 (Z.shiftl (c_ e) (ct_ e))) e) in
  let e := mqc_byteout (set_c (u32 (Z.shiftl (c_ e) (ct_ e))) e) in
  if deref e =? 0xff then e else set_bp (S (bp_ e)) e.

Definition restart_init_enc (e : mqenc) : mqenc :=
  let e := set_bp (pred (bp_ e)) (set_ct 12 (set_c 0 (set_a 0x8000 e))) in
  if deref e =? 0xff then set_ct 13 e else e.

(** [while(k > 0)]: at most twelve bits are pushed, seven or eight at a time. *)
Fixpoint erterm_loop (fuel : nat) (k : Z) (e : mqenc) : mqenc :=
  match fuel with
  | O => e
  | S fuel =>
      if 0 <? k then
        let e := set_ct 0 (set_c (u32 (Z.shiftl (c_ e) (ct_ e))) e) in
        let e := mqc_byteout e in
        erterm_loop fuel (k - ct_ e) e
      else e
  end.
Definition erterm_enc (e : mqenc) : mqenc :=
  let e := erterm_loop 3 (11 - ct_ e + 1) e in
  if deref e =? 0xff then e else mqc_byteout e.

Definition segmark_enc (e : mqenc) : mqenc :=
  foldl (fun e i => if mps (cur_state e) =? Z.land i 1 then mqc_codemps e else mqc_codelps e)
    (CODER_SETCURCTX 18 e) [1; 2; 3; 4].

(** *** Raw coding *)

Definition BYPASS_CT_INIT : Z := 0xFF.

Definition bypass_init_enc (e : mqenc) : mqenc := set_ct BYPASS_CT_INIT (set_c 0 e).

Definition mqc_bypass_enc (d : Z) (e : mqenc) : mqenc :=
  let e := if ct_ e =? BYPASS_CT_INIT then set_ct 8 e else e in
  let e := set_ct (u8 (ct_ e - 1)) e in
  let e := set_c (u32 (c_ e + Z.shiftl d (ct_ e))) e in
  if ct_ e =? 0 then
    let e := store (u8 (c_ e)) e in
    let e := set_ct 8 e in
    let e := if deref e =? 0xff then set_ct 7 e else e in
    set_c 0 (set_bp (S (bp_ e)) e)
  else e.

Definition bypass_pending (erterm : bool) (e : mqenc) : bool :=
  (ct_ e <? 7) || ((ct_ e =? 7) && (erterm || negb (byte_at e (pred (bp_ e)) =? 0xff))).

Definition bypass_get_extra_bytes_enc (erterm : bool) (e : mqenc) : Z :=
  if bypass_pending erterm e then 1 + 1 else 0 + 1.

Fixpoint bypass_pad (fuel : nat) (bit_value : Z) (e : mqenc) : mqenc :=
  match fuel with
  | O => e
  | S fuel =>
      if 0 <? ct_ e then
        let e := set_ct (u8 (ct_ e - 1)) e in
        let e := set_c (u32 (c_ e + Z.shiftl bit_value (ct_ e))) e in
        bypass_pad fuel (u8 (1 - bit_value)) e
      else e
  end.

Definition bypass_flush_enc (erterm : bool) (e : mqenc) : mqenc :=
  if bypass_pending erterm e then
    let e := bypass_pad 8 0 e in
    let e := store (u8 (c_ e)) e in
    set_bp (S (bp_ e)) e
  else if (ct_ e =? 7) && (byte_at e (pred (bp_ e)) =? 0xff) then set_bp (pred (bp_ e)) e
  else if (ct_ e =? 8) && negb erterm && (byte_at e (pred (bp_ e)) =? 0x7f) &&
          (byte_at e (pred (pred (bp_ e))) =? 0xff)
  then set_bp (pred (pred (bp_ e))) e
  else e.

(** ** Decoder *)

(** The coder's members in the decoder's role, without the backup of
    differential decompression.  [dbp] is the offset of [bp] in the buffer
    [didx] ([cur_buffer_index]); [end] is the end of that buffer.  A null
    [buffers] is the empty list. *)
Record mqdec := MkDec {
  dc : Z; da : Z; dct : Z; end_of_byte_stream_counter : Z;
  dbufs : list (list Z); didx : nat; dbp : nat; overflow : bool;
  dctxs : list nat; dcurctx : nat
}.

Definition buf_at (d : mqdec) (i : nat) : list Z := nth i (dbufs d) [].
Definition dend (d : mqdec) : nat := length (buf_at d (didx d)).
Definition dread (d : mqdec) (i off : nat) : Z := nth off (buf_at d i) 0.

Definition set_reg (c a ct : Z) (d : mqdec) : mqdec :=
  MkDec c a ct (end_of_byte_stream_counter d) (dbufs d) (didx d) (dbp d) (overflow d)
    (dctxs d) (dcurctx d).
Definition set_pos (i bp : nat) (d : mqdec) : mqdec :=
  MkDec (dc d) (da d) (dct d) (end_of_byte_stream_counter d) (dbufs d) i bp (overflow d)
    (dctxs d) (dcurctx d).
Definition set_overflow (d : mqdec) : mqdec :=
  MkDec (dc d) (da d) (dct d) (end_of_byte_stream_counter d) (dbufs d) (didx d) (dbp d) true
    (dctxs d) (dcurctx d).
Definition count_end (d : mqdec) : mqdec :=
  MkDec (dc d) (da d) (dct d) (u32 (end_of_byte_stream_counter d + 1)) (dbufs d) (didx d)
    (dbp d) (overflow d) (dctxs d) (dcurctx d).
Definition DEC_SETCURCTX (ctxno : nat) (d : mqdec) : mqdec :=
  MkDec (dc d) (da d) (dct d) (end_of_byte_stream_counter d) (dbufs d) (didx d) (dbp d)
    (overflow d) (dctxs d) ctxno.
Definition dcur_state (d : mqdec) : mqc_state := state_at (nth (dcurctx d) (dctxs d) 0%nat).
Definition dset_state (s : nat) (d : mqdec) : mqdec :=
  MkDec (dc d) (da d) (dct d) (end_of_byte_stream_counter d) (dbufs d) (didx d) (dbp d)
    (overflow d) (<[dcurctx d := s]> (dctxs d)) (dcurctx d).

(** The current byte, after the move to the next buffer where the current one is
    used up. *)
Definition fetch_cur (d : mqdec) : Z * mqdec :=
  if (dend d <=? dbp d)%nat then
    if (didx d + 1 <? length (dbufs d))%nat then
      let d := set_pos (didx d + 1) 0 d in (dread d (didx d) 0, d)
    else (0xff, d)
  else (dread d (didx d) (dbp d), d).

Definition fetch_next (d : mqdec) : Z * mqdec :=
  if (dend d <=? dbp d + 1)%nat then
    if (didx d + 1 <? length (dbufs d))%nat then (dread d (didx d + 1) 0, d)
    else (0xff, set_overflow d)
  else (dread d (didx d) (dbp d + 1), d).

Definition DEC_BYTEIN (d : mqdec) : mqdec :=
  let '(cur, d) := fetch_cur d in
  let '(next, d) := fetch_next d in
  let curff := if cur =? 0xff then 1 else 0 in
  if (cur =? 0xff) && (0x8f <? next) then
    count_end (set_reg (u32 (dc d + 0xff00)) (da d) 8 d)
  else
    let d := set_pos (didx d) (dbp d + 1) d in
    set_reg (u32 (dc d + Z.shiftl next (8 + curff))) (da d) (8 - curff) d.

Definition renorm_step (d : mqdec) : mqdec :=
  let d :=
    if dct d =? 0 then
      if (didx d =? 0)%nat && (dend d =? 0)%nat then
        count_end (set_reg (u32 (dc d + 0xff00)) (da d) 8 d)
      else DEC_BYTEIN d
    else d in
  set_reg (u32 (Z.shiftl (dc d) 1)) (u32 (Z.shiftl (da d) 1)) (u8 (dct d - 1)) d.

Definition A_MIN : Z := 0x8000.

Fixpoint renorm_loop (fuel : nat) (d : mqdec) : mqdec :=
  match fuel with
  | O => d
  | S fuel =>
      let d := renorm_step d in
      if da d <? A_MIN then renorm_loop fuel d else d
  end.
Definition DEC_RENORM (d : mqdec) : mqdec := renorm_loop 16 d.

(** The decoded symbol and the coder after it. *)
Definition DEC_SYMBOL (d : mqdec) : Z * mqdec :=
  let ctx := dcur_state d in
  let a := u32 (da d - qeval ctx) in
  let qeval_shift := u32 (Z.shiftl (qeval ctx) 16) in
  if dc d <? qeval_shift then
    let exchange := a <? qeval ctx in
    let v := if exchange then mps ctx else Z.lxor (mps ctx) 1 in
    let d := set_reg (dc d) (qeval ctx) (dct d) d in
    (v, DEC_RENORM (dset_state (if exchange then nmps ctx else nlps ctx) d))
  else
    let d := set_reg (u32 (dc d - qeval_shift)) a (dct d) d in
    if a <? A_MIN then
      let exchange := a <? qeval ctx in
      let v := if exchange then Z.lxor (mps ctx) 1 else mps ctx in
      (v, DEC_RENORM (dset_state (if exchange then nlps ctx else nmps ctx) d))
    else (mps ctx, d).

Definition init_dec_common (bufs : list (list Z)) (ctxs : list nat) : mqdec :=
  MkDec 0 0 0 0 bufs 0 0 false ctxs 0.

Definition init_dec (bufs : list (list Z)) (ctxs : list nat) : mqdec :=
  let d := init_dec_common bufs ctxs in
  let d :=
    match bufs with
    | [] => count_end (set_reg (u32 (Z.shiftl 0xff 16 + 0xff00)) (da d) 8 d)
    | _ => DEC_BYTEIN (set_reg (u32 (Z.shiftl (dread d 0 0) 16)) (da d) (dct d) d)
    end in
  set_reg (u32 (Z.shiftl (dc d) 7)) A_MIN (u8 (dct d - 7)) d.

Definition raw_init_dec (bufs : list (list Z)) (ctxs : list nat) : mqdec :=
  set_reg 0 0 0 (init_dec_common bufs ctxs).

Definition DEC_SYMBOL_RAW (d : mqdec) : Z * mqdec :=
  let d :=
    if dct d =? 0 then
      let '(curr, d) := fetch_cur d in
      if dc d =? 0xff then
        if 0x8f <? curr then set_reg 0xff (da d) 8 d
        else set_reg curr (da d) 7 (set_pos (didx d) (dbp d + 1) d)
      else set_reg curr (da d) 8 (set_pos (didx d) (dbp d + 1) d)
    else d in
  let d := set_reg (dc d) (da d) (u8 (dct d - 1)) d in
  (Z.land (Z.shiftr (u8 (dc d)) (dct d)) 1, d).

(** ** Runs *)

(** A coding pass codes a sequence of decisions, each in a context its
    neighbourhood selects. *)
Definition encode_all (e : mqenc) (ds : list (nat * Z)) : mqenc :=
  foldl (fun e '(ctx, d) => mqc_encode d (CODER_SETCURCTX ctx e)) e ds.

Fixpoint decode_all (d : mqdec) (cs : list nat) : list Z * mqdec :=
  match cs with
  | [] => ([], d)
  | ctx :: cs =>
      let '(v, d) := DEC_SYMBOL (DEC_SETCURCTX ctx d) in
      let '(vs, d) := decode_all d cs in (v :: vs, d)
  end.

Definition bypass_encode_all (e : mqenc) (bits : list Z) : mqenc :=
  foldl (fun e d => mqc_bypass_enc d e) e bits.

Fixpoint raw_decode_all (d : mqdec) (n : nat) : list Z * mqdec :=
  match n with
  | O => ([], d)
  | S n =>
      let '(v, d) := DEC_SYMBOL_RAW d in
      let '(vs, d) := raw_decode_all d n in (v :: vs, d)
  end.

(** The end of a terminated pass, with or without predictable termination
    ([GRK_CBLKSTY_PTERM]). *)
Definition terminate (pterm : bool) (e : mqenc) : mqenc :=
  if pterm then erterm_enc e else flush_enc e.

(** The segments of a code block: each is coded, terminated and followed by a
    restart; [numbytes_enc] after a termination is the cumulative length. *)
Fixpoint code_segments (e : mqenc) (segs : list (bool * list (nat * Z))) : list nat * mqenc :=
  match segs with
  | [] => ([], e)
  | (pterm, ds) :: segs =>
      let e1 := terminate pterm (encode_all e ds) in
      let '(ends, e2) := code_segments (restart_init_enc e1) segs in
      (bp_ e1 :: ends, e2)
  end.

(** The bytes of a segment that begins after [data[b0]] and ends before [data[b1]]. *)
Definition segment_bytes (data : list Z) (b0 b1 : nat) : list Z :=
  take (b1 - b0 - 1) (drop (S b0) data).

Fixpoint cut_segments (data : list Z) (b0 : nat) (ends : list nat) : list (list Z) :=
  match ends with
  | [] => []
  | b1 :: ends => segment_bytes data b0 b1 :: cut_segments data (pred b1) ends
  end.

(** Decoding the segments, each from its buffers, with the context states kept from
    one to the next. *)
Fixpoint decode_segments (ctxs : list nat) (segs : list (list (list Z) * list nat)) :
  list (list Z) * list nat :=
  match segs with
  | [] => ([], ctxs)
  | (bufs, cs) :: segs =>
      let '(bits, d) := decode_all (init_dec bufs ctxs) cs in
      let '(rest, ctxs) := decode_segments (dctxs d) segs in
      (bits :: rest, ctxs)
  end.
