(* ===== verification/MQInterval.v ===== *)
(** The interval of the MQ encoder.

    A code string is read as a number: every byte adds eight bits, or seven
    after a 0xFF byte, so that the bit stuffed there is a carry into it.  The
    encoder's interval is [[L, L + A)] at a scale [s], with [L] the bytes written
    followed by the register ([enc_at]); every operation keeps [L] exact, and the
    interval only narrows.  [compat] says what the bytes finally written must
    satisfy for the decoder to follow an interval, and is carried backwards from
    the end of a segment over renormalisation and coding to its start.  The decoder
    is followed forwards in MQRoundTrip.v. *)
From S2P Require Import Prelude MQCoder.

(** ** Code strings as numbers *)

(** The bits of the byte that follows a byte [b]. *)
Definition wd (b : Z) : Z := if b =? 0xff then 7 else 8.

Fixpoint val_from (p M : Z) (l : list Z) : Z :=
  match l with [] => M | b :: l => val_from b (M * 2 ^ wd p + b) l end.
Fixpoint pos_from (p P : Z) (l : list Z) : Z :=
  match l with [] => P | b :: l => pos_from b (P + wd p) l end.
Fixpoint lastb (p : Z) (l : list Z) : Z :=
  match l with [] => p | b :: l => lastb b l end.

Definition val (l : list Z) : Z := val_from 0 0 l.
Definition pos (l : list Z) : Z := pos_from 0 0 l.

Lemma wd_range b : 7 <= wd b <= 8.
Proof. unfold wd. zcases; lia. Qed.
Lemma wd_pow_pos b : 0 < 2 ^ wd b.
Proof. pose proof (wd_range b). lia. Qed.
#[local] Hint Resolve wd_pow_pos : grk.

Lemma lastb_snoc p l b : lastb p (l ++ [b]) = b.
Proof. revert p; induction l as [|x l IH]; intros p; [done|]. apply IH. Qed.

Lemma val_from_snoc p M l b :
  val_from p M (l ++ [b]) = val_from p M l * 2 ^ wd (lastb p l) + b.
Proof. revert p M; induction l as [|x l IH]; intros p M; [done|]. apply IH. Qed.
Lemma pos_from_snoc p P l b : pos_from p P (l ++ [b]) = pos_from p P l + wd (lastb p l).
Proof. revert p P; induction l as [|x l IH]; intros p P; [done|]. apply IH. Qed.

Lemma val_snoc l b : val (l ++ [b]) = val l * 2 ^ wd (lastb 0 l) + b.
Proof. apply val_from_snoc. Qed.
Lemma pos_snoc l b : pos (l ++ [b]) = pos l + wd (lastb 0 l).
Proof. apply pos_from_snoc. Qed.

Lemma pos_nonneg l : 0 <= pos l.
Proof.
  induction l as [|b l IH] using rev_ind; [done|]. rewrite pos_snoc.
  pose proof (wd_range (lastb 0 l)). lia.
Qed.

(** The code string [bs] followed by 1 bits for ever: the number and the bit
    position after [m] bytes. *)
Definition Mv (bs : list Z) (m : nat) : Z :=
  if (m <=? length bs)%nat then val (take m bs)
  else (val bs + 1) * 2 ^ (8 * Z.of_nat (m - length bs)) - 1.
Definition Pv (bs : list Z) (m : nat) : Z :=
  if (m <=? length bs)%nat then pos (take m bs)
  else pos bs + 8 * Z.of_nat (m - length bs).

(** The byte that follows the first [m], and its width. *)
Definition Bv (bs : list Z) (m : nat) : Z := nth m bs 0xff.
Definition Wv (bs : list Z) (m : nat) : Z :=
  if (m <? length bs)%nat then wd (lastb 0 (take m bs)) else 8.

Lemma Wv_range bs m : 7 <= Wv bs m <= 8.
Proof. unfold Wv. destruct (_ <? _)%nat; [apply wd_range|lia]. Qed.

Lemma take_S_nth (l : list Z) m d : (m < length l)%nat -> take (S m) l = take m l ++ [nth m l d].
Proof.
  intros Hm. destruct (lookup_lt_is_Some_2 l m Hm) as [x Hx].
  rewrite (take_S_r _ _ x Hx). f_equal. f_equal. symmetry. by apply nth_lookup_Some.
Qed.

Lemma Pv_S bs m : Pv bs (S m) = Pv bs m + Wv bs m.
Proof.
  unfold Pv, Wv. destruct (Nat.ltb_spec m (length bs)) as [Hm|Hm].
  - rewrite !(proj2 (Nat.leb_le _ _)) by lia.
    rewrite (take_S_nth bs m 0xff) by done. apply pos_snoc.
  - rewrite (proj2 (Nat.leb_gt (S m) _)) by lia.
    destruct (Nat.leb_spec m (length bs)).
    + assert (m = length bs) as -> by lia. rewrite take_ge by lia. lia.
    + lia.
Qed.

Lemma Mv_S bs m : Mv bs (S m) = Mv bs m * 2 ^ Wv bs m + Bv bs m.
Proof.
  unfold Mv, Wv, Bv. destruct (Nat.ltb_spec m (length bs)) as [Hm|Hm].
  - rewrite !(proj2 (Nat.leb_le _ _)) by lia.
    rewrite (take_S_nth bs m 0xff) by done. apply val_snoc.
  - rewrite (proj2 (Nat.leb_gt (S m) _)), nth_overflow by lia.
    destruct (Nat.leb_spec m (length bs)).
    + assert (m = length bs) as -> by lia. rewrite take_ge by lia.
      replace (S (length bs) - length bs)%nat with 1%nat by lia. change (2 ^ (8 * Z.of_nat 1)) with 256. lia.
    + replace (8 * Z.of_nat (S m - length bs)) with (8 * Z.of_nat (m - length bs) + 8) by lia.
      rewrite Z.pow_add_r by lia. lia.
Qed.

Lemma Mv_length bs : Mv bs (length bs) = val bs.
Proof. unfold Mv. by rewrite Nat.leb_refl, take_ge. Qed.
Lemma Pv_length bs : Pv bs (length bs) = pos bs.
Proof. unfold Pv. by rewrite Nat.leb_refl, take_ge. Qed.

Lemma Pv_nonneg bs m : 0 <= Pv bs m.
Proof. unfold Pv. destruct (_ <=? _)%nat; [apply pos_nonneg|pose proof (pos_nonneg bs); lia]. Qed.

Lemma Pv_mono bs m m' : (m <= m')%nat -> Pv bs m + Z.of_nat (m' - m) <= Pv bs m'.
Proof.
  induction 1 as [|m' Hm IH]; [lia|]. rewrite Pv_S. pose proof (Wv_range bs m'). lia.
Qed.

Definition bytes_ok (l : list Z) : Prop := Forall (fun b => 0 <= b <= 255) l.

Lemma bytes_ok_snoc l b : bytes_ok (l ++ [b]) <-> bytes_ok l /\ 0 <= b <= 255.
Proof. unfold bytes_ok. rewrite Forall_app. by rewrite list.Forall_singleton. Qed.

Lemma Bv_range bs m : bytes_ok bs -> 0 <= Bv bs m <= 255.
Proof.
  intros H. unfold Bv. destruct (Nat.lt_ge_cases m (length bs)).
  - by apply (proj1 (Forall_nth _ _) H).
  - rewrite nth_overflow by done. lia.
Qed.

(** The number after more bytes is at least that after fewer. *)
Lemma Mv_mono bs m m' : bytes_ok bs -> (m <= m')%nat ->
  Mv bs m * 2 ^ Pv bs m' <= Mv bs m' * 2 ^ Pv bs m.
Proof.
  intros Hb. induction 1 as [|m' Hm IH]; [lia|].
  rewrite Pv_S, Mv_S. pose proof (Bv_range bs m' Hb). pose proof (Wv_range bs m').
  pose proof (Pv_nonneg bs m). pose proof (Pv_nonneg bs m').
  rewrite Z.pow_add_r by lia.
  assert (0 < 2 ^ Wv bs m') by lia. assert (0 < 2 ^ Pv bs m) by lia. nia.
Qed.

(** Past the end the number grows by 1 bits. *)
Lemma Mv_fill bs m : (length bs <= m)%nat ->
  Mv bs m + 1 = (val bs + 1) * 2 ^ (Pv bs m - pos bs) /\ pos bs <= Pv bs m.
Proof.
  intros Hm. unfold Mv, Pv. destruct (Nat.leb_spec m (length bs)).
  - rewrite take_ge by lia. rewrite Z.sub_diag. lia.
  - replace (pos bs + _ - pos bs) with (8 * Z.of_nat (m - length bs)) by lia. lia.
Qed.

(** ** The encoder's interval *)

(** Room for the carry, for a register and interval that end at [x] where the last
    byte has unit [W]: at most an eighth above it; not above it while the last
    byte is the one before the segment; and below 0x90 for a byte after 0xFF. *)
Definition room (fin : list Z) (B W x : Z) : Prop :=
  8 * x <= 9 * W /\ (fin = [] -> x <= W) /\ (lastb 0 fin = 0xff -> B * W + x <= 0x90 * W).

Fixpoint no_marker_from (p : Z) (l : list Z) : Prop :=
  match l with [] => True | b :: l => (p = 0xff -> b <= 0x8f) /\ no_marker_from b l end.

Lemma room_mono fin B W x y : room fin B W y -> x <= y -> room fin B W x.
Proof. intros (? & H1 & H2) ?. split_and!; [lia| |]; intros Hx; [specialize (H1 Hx)|specialize (H2 Hx)]; lia. Qed.

Lemma no_marker_snoc p l b :
  no_marker_from p l -> (lastb p l = 0xff -> b <= 0x8f) -> no_marker_from p (l ++ [b]).
Proof. revert p; induction l as [|x l IH]; intros p; simpl; [done|]. intros [? ?] ?. split; [done|by apply IH]. Qed.
Lemma no_marker_snoc_inv p l b :
  no_marker_from p (l ++ [b]) -> no_marker_from p l /\ (lastb p l = 0xff -> b <= 0x8f).
Proof. revert p; induction l as [|x l IH]; intros p; simpl; [by intros [? _]|]. intros [? H]. apply IH in H. naive_solver. Qed.

(** *** Writing into memory *)

Lemma length_write data i v : (i <= length data)%nat ->
  length (write_byte data i v) = Nat.max (length data) (S i).
Proof.
  intros. unfold write_byte. destruct (Nat.ltb_spec i (length data)).
  - rewrite length_insert. lia.
  - rewrite length_app. simpl. lia.
Qed.

Lemma take_write data i v : (i <= length data)%nat ->
  take (S i) (write_byte data i v) = take i data ++ [v].
Proof.
  intros. unfold write_byte. destruct (Nat.ltb_spec i (length data)).
  - erewrite take_S_r by (apply list_lookup_insert_eq; done).
    by rewrite take_insert_ge by lia.
  - assert (i = length data) as -> by lia. rewrite take_ge by (rewrite length_app; simpl; lia).
    by rewrite (take_ge data) by lia.
Qed.

Lemma take_last (data l : list Z) i b : take (S i) data = l ++ [b] -> (i < length data)%nat ->
  take i data = l /\ nth i data 0 = b.
Proof.
  intros H Hi. rewrite (take_S_nth data i 0) in H by done. by apply app_inj_tail in H.
Qed.

(** *** The register *)

Lemma land_pow2 c n : 0 <= n -> 0 <= c < 2 ^ (n + 1) -> (Z.land c (2 ^ n) =? 0) = (c <? 2 ^ n).
Proof.
  intros Hn Hc.
  assert (Z.land c (2 ^ n) = Z.b2z (Z.testbit c n) * 2 ^ n) as ->.
  { apply Z.bits_inj'. intros i Hi. rewrite Z.land_spec, Z.pow2_bits_eqb by lia.
    destruct (Z.eqb_spec n i) as [<-|].
    - rewrite Z.mul_pow2_bits, Z.sub_diag by lia. by destruct (Z.testbit c n).
    - rewrite andb_false_r. destruct (Z.testbit c n); [|by rewrite Z.bits_0].
      rewrite Z.mul_1_l, Z.pow2_bits_eqb by lia. by rewrite (proj2 (Z.eqb_neq _ _)). }
  rewrite Z.pow_add_r in Hc by lia. change (2 ^ 1) with 2 in Hc.
  destruct (Z.ltb_spec c (2 ^ n)) as [Hl|Hl].
  - rewrite (testbit_small c n) by lia. done.
  - assert (Z.testbit c n = true) as ->; [|rewrite Z.mul_1_l; apply Z.eqb_neq; lia].
    apply Z.testbit_true; [lia|].
    assert (c / 2 ^ n = 1) as ->; [|done].
    symmetry. apply Z.div_unique with (r := c - 2 ^ n); lia.
Qed.

Lemma carry_clear c : 0 <= c < 2 ^ 28 -> (Z.land c 0x8000000 =? 0) = (c <? 2 ^ 27).
Proof. apply (land_pow2 c 27). lia. Qed.
Lemma bit15 a : 0 <= a < 0x10000 -> (Z.land a 0x8000 =? 0) = (a <? 0x8000).
Proof. apply (land_pow2 a 15). lia. Qed.

Definition same_coder (e e' : mqenc) : Prop :=
  a_ e' = a_ e /\ ctxs_ e' = ctxs_ e /\ curctx_ e' = curctx_ e.

Definition byte_written (w c0 : Z) (e e' : mqenc) : Prop :=
  ct_ e' = w /\ c_ e' = c0 mod 2 ^ (27 - w) /\ bp_ e' = S (bp_ e) /\
  data_ e' = write_byte (data_ e) (S (bp_ e)) (c0 / 2 ^ (27 - w)) /\ same_coder e e'.

Lemma byteout7_written e : 0 <= c_ e < 2 ^ 28 -> byte_written 7 (c_ e) e (byteout7 e).
Proof.
  intros Hc. unfold byteout7, byte_written, same_coder. cbn. change (27 - 7) with 20.
  split_and!; try done.
  - apply (Z.land_ones _ 20). lia.
  - f_equal. rewrite Z.shiftr_div_pow2 by lia. apply wrap_small.
    split; [apply Z.div_pos; lia|]. apply Z.div_lt_upper_bound; [lia|].
    change (2 ^ 20 * 2 ^ 8) with (2 ^ 28). lia.
Qed.

(** The byte drops the carry, which has been added to the byte before. *)
Lemma byteout8_written e : 0 <= c_ e < 2 ^ 28 -> byte_written 8 (c_ e mod 2 ^ 27) e (byteout8 e).
Proof.
  intros Hc. unfold byteout8, byte_written, same_coder. cbn. change (27 - 8) with 19.
  split_and!; try done.
  - rewrite (Z.land_ones _ 19) by lia. 
    change (2 ^ 27) with (2 ^ 19 * 2 ^ 8). rewrite Z.rem_mul_r by lia.
    rewrite Z.mul_comm, Z.mod_add, Zmod_mod by lia. done.
  - f_equal. rewrite Z.shiftr_div_pow2 by lia. unfold wrap.
    change (2 ^ 27) with (2 ^ 19 * 2 ^ 8). rewrite Z.rem_mul_r by lia.
    rewrite Z.mul_comm, Z.div_add by lia. rewrite (Z.div_small (c_ e mod _)); [done|].
    apply Z.mod_pos_bound. lia.
Qed.

Section segment.
(** The memory before the segment ends with the byte [B0]. *)
Context (pre : list Z) (B0 : Z).

(** The encoder [e] has written [pre ++ fin ++ [B]], of which [B] may still take a
    carry, and its interval is [[L, L + A)] at scale [s]. *)
Record enc_at (fin : list Z) (B L A s : Z) (e : mqenc) : Prop := EncAt {
  ea_mem : take (S (bp_ e)) (data_ e) = pre ++ fin ++ [B];
  ea_len : (bp_ e < length (data_ e))%nat;
  ea_bytes : bytes_ok (fin ++ [B]);
  ea_first : head (fin ++ [B]) = Some B0;
  ea_nomark : no_marker_from 0 (fin ++ [B]);
  ea_low : L = val (fin ++ [B]) * 2 ^ (27 - ct_ e) + c_ e;
  ea_scale : s = pos (fin ++ [B]) + 27 - ct_ e;
  ea_ct : 0 <= ct_ e <= 12;
  ea_start : fin <> [] -> ct_ e <= 8;
  ea_c : 0 <= c_ e;
  ea_A : 0 < A <= 0x10000;
  ea_room : room fin B (2 ^ (27 - ct_ e)) (c_ e + A);
}.


(** A byte leaves the register: the interval stays where it is, and its lower end
    is in the unit of the new byte. *)
Definition byte_left (fin : list Z) (B L s B' b : Z) : Prop :=
  B <= B' <= B + 1 /\ 
  L < (val (fin ++ [B'] ++ [b]) + 1) * 2 ^ (s - pos (fin ++ [B'] ++ [b])) /\
  pos (fin ++ [B'] ++ [b]) <= s.

Lemma store_at v e l b :
  take (S (bp_ e)) (data_ e) = l ++ [b] -> (bp_ e < length (data_ e))%nat ->
  take (S (bp_ e)) (data_ (store v e)) = l ++ [v] /\ (bp_ e < length (data_ (store v e)))%nat /\
  deref (store v e) = v.
Proof.
  intros H Hl. destruct (take_last _ _ _ _ H Hl) as [Ht _]. unfold deref, byte_at. cbn.
  rewrite take_write, length_write, Ht by lia. split_and!; [done|lia|].
  apply (take_last _ l); [|rewrite length_write; lia]. rewrite take_write by lia. by rewrite Ht.
Qed.

Lemma byteout_push v e l :
  take (S (bp_ e)) (data_ e) = l -> (bp_ e < length (data_ e))%nat ->
  take (S (S (bp_ e))) (write_byte (data_ e) (S (bp_ e)) v) = l ++ [v] /\
  (S (bp_ e) < length (write_byte (data_ e) (S (bp_ e)) v))%nat.
Proof. intros H Hl. rewrite take_write, length_write, H by lia. split; [done|lia]. Qed.

Lemma byteout_w fin B1 B w c0 e e' A :
  take (S (bp_ e)) (data_ e) = pre ++ fin ++ [B] -> (bp_ e < length (data_ e))%nat ->
  bytes_ok (fin ++ [B]) -> head (fin ++ [B]) = Some B0 -> no_marker_from 0 (fin ++ [B]) ->
  w = wd B -> 0 <= c0 -> (B <> 0xff -> c0 < 2 ^ 27) -> (B = 0xff -> 8 * (c0 + A) <= 9 * 2 ^ 27) ->
  0 < A <= 0x10000 ->
  byte_written w c0 e e' -> B1 <= B <= B1 + 1 ->
  let L := val (fin ++ [B]) * 2 ^ 27 + c0 in
  let s := pos (fin ++ [B]) + 27 in
  exists b, enc_at (fin ++ [B]) b L A s e' /\ byte_left fin B1 L s B b /\ ct_ e' = wd B.
Proof.
  intros Hmem Hlen Hb Hh Hn -> Hc0 Hc1 Hc2 HA (Ect & Ec & Ebp & Ed & _) HB1.
  set (b := c0 / 2 ^ (27 - wd B)) in *.
  pose proof (wd_range B) as Hw.
  assert (2 ^ 27 = 2 ^ wd B * 2 ^ (27 - wd B)) as E27 by (rewrite <- Z.pow_add_r by lia; f_equal; lia).
  assert (c0 = b * 2 ^ (27 - wd B) + c0 mod 2 ^ (27 - wd B)) as Eb.
  { rewrite Z.mul_comm. apply Z.div_mod. lia. }
  pose proof (Z.mod_pos_bound c0 (2 ^ (27 - wd B)) ltac:(lia)) as Hm.
  assert (val (fin ++ [B] ++ [b]) = val (fin ++ [B]) * 2 ^ wd B + b) as Ev
    by (rewrite app_assoc, val_snoc, lastb_snoc; done).
  assert (pos (fin ++ [B] ++ [b]) = pos (fin ++ [B]) + wd B) as Ep
    by (rewrite app_assoc, pos_snoc, lastb_snoc; done).
  assert (0 <= b) as Hb0 by (apply Z.div_pos; lia).
  assert (B <> 0xff -> b <= 255) as Hb1.
  { intros HB. specialize (Hc1 HB). unfold wd in *. rewrite (proj2 (Z.eqb_neq B 0xff)) in * by done. 
    change (2 ^ (27 - 8)) with 524288 in *. change (2 ^ 27) with 134217728 in *. lia. }
  assert (B = 0xff -> b <= 0x8f /\ b * 2 ^ (27 - wd B) + (c0 mod 2 ^ (27 - wd B) + A) <= 0x90 * 2 ^ (27 - wd B)) as Hb2.
  { intros HB. specialize (Hc2 HB). replace (wd B) with 7 in * by (by rewrite HB).
    change (2 ^ (27 - 7)) with 1048576 in *. change (2 ^ 27) with 134217728 in *. lia. }
  destruct (byteout_push b e _ Hmem Hlen) as [Ht Hl].
  assert (val (fin ++ [B]) * 2 ^ 27 + c0 = val (fin ++ [B] ++ [b]) * 2 ^ (27 - wd B) + c0 mod 2 ^ (27 - wd B)) as EL.
  { rewrite Ev, E27. rewrite Eb at 1. ring. }
  cbv zeta. exists b. split_and!; [| |done].
  2: { unfold byte_left. rewrite Ep. split_and!; [lia|lia| |lia].
       replace (_ - _) with (27 - wd B) by lia. rewrite EL, Z.mul_add_distr_r. lia. }
  split; rewrite ?Ect, ?Ec, ?Ebp, ?Ed; try done.
  - by rewrite Ht, <- !app_assoc.
  - apply bytes_ok_snoc. split_and!; [done|done|].
    destruct (Z.eq_dec B 0xff); [|auto]. destruct Hb2; [done|lia].
  - rewrite <- Hh. by destruct fin.
  - apply no_marker_snoc; [done|]. rewrite lastb_snoc. intros HB. by destruct Hb2.
  - by rewrite <- app_assoc.
  - rewrite <- app_assoc, Ep. lia.
  - lia.
  - lia.
  - lia.
  - split_and!.
    + destruct (Z.eq_dec (wd B) 7) as [E7|]; [rewrite E7 in *|replace (wd B) with 8 in * by lia].
      * change (2 ^ (27 - 7)) with 1048576 in *. lia.
      * change (2 ^ (27 - 8)) with 524288 in *. lia.
    + intros H. by destruct fin.
    + rewrite lastb_snoc. intros HB. by destruct (Hb2 HB).
Qed.

Lemma deref_at fin B L A s e : enc_at fin B L A s e -> deref e = B.
Proof.
  intros H. apply (take_last (data_ e) (pre ++ fin) (bp_ e) B); [|apply H].
  rewrite (ea_mem _ _ _ _ _ _ H). by rewrite app_assoc.
Qed.

(** [mqc_byteout] on a register whose byte is complete. *)
Lemma byteout_at fin B L A s e : enc_at fin B L A s e -> ct_ e = 0 ->
  exists B' b, enc_at (fin ++ [B']) b L A s (mqc_byteout e) /\ byte_left fin B L s B' b /\
    ct_ (mqc_byteout e) = wd B' /\ same_coder e (mqc_byteout e).
Proof.
  intros He Hct. pose proof (deref_at _ _ _ _ _ _ He) as HB.
  destruct He as [Hmem Hlen Hby Hh Hn HL Hs _ _ Hc HA (Hr & Hr0 & Hrff)].
  rewrite Hct in *. change (27 - 0) with 27 in *. rewrite Z.sub_0_r in Hs.
  assert (8 * c_ e < 9 * 2 ^ 27) as Hc9 by lia.
  assert (c_ e < 2 ^ 28) as Hc28 by (change (2 ^ 28) with 268435456; change (2 ^ 27) with 134217728 in *; lia).
  assert (0 <= B <= 255) as HBr.
  { apply bytes_ok_snoc in Hby. apply Hby. }
  unfold mqc_byteout. rewrite HB, carry_clear by lia.
  subst L s.
  destruct (Z.eqb_spec B 0xff) as [EB|EB].
  { pose proof (byteout7_written e ltac:(lia)) as Hw.
    destruct (byteout_w fin B B 7 (c_ e) e (byteout7 e) A) as (b & H1 & H2 & H3); try done; try lia.
    { by rewrite EB. } exists B, b. split_and!; [done..|apply Hw]. }
  destruct (Z.ltb_spec (c_ e) (2 ^ 27)) as [Hlt|Hge].
  { pose proof (byteout8_written e ltac:(lia)) as Hw. rewrite Z.mod_small in Hw by lia.
    destruct (byteout_w fin B B 8 (c_ e) e (byteout8 e) A) as (b & H1 & H2 & H3); try done; try lia.
    { unfold wd. by rewrite (proj2 (Z.eqb_neq _ _) EB). } exists B, b. split_and!; [done..|apply Hw]. }
  (* the carry goes into the last byte *)
  assert (fin <> []) as Hfin by (intros ->; specialize (Hr0 eq_refl); lia).
  assert (u8 (B + 1) = B + 1) as -> by (apply wrap_small; lia).
  destruct (store_at (B + 1) e (pre ++ fin) B) as (Hmem' & Hlen' & Hd'); [by rewrite <- app_assoc|done|].
  set (e1 := store (B + 1) e) in *. rewrite Hd'.
  assert (c_ e mod 2 ^ 27 = c_ e - 2 ^ 27) as Emod.
  { rewrite <- (Z.mod_small (c_ e - 2 ^ 27) (2 ^ 27)) by lia.
    rewrite <- (Z.mod_add (c_ e - 2 ^ 27) 1) by lia. f_equal. lia. }
  set (e2 := if B + 1 =? 255 then _ else _).
  assert (byte_written (wd (B + 1)) (c_ e - 2 ^ 27) e1 e2) as Hw.
  { subst e2. unfold wd. destruct (B + 1 =? 255).
    - assert (Z.land (c_ e1) 0x7ffffff = c_ e - 2 ^ 27) as -> by (rewrite <- Emod; by apply (Z.land_ones _ 27)).
      apply (byteout7_written (set_c (c_ e - 2 ^ 27) e1)). cbn. lia.
    - rewrite <- Emod. apply (byteout8_written e1). cbn. lia. }
  clearbody e2.
  destruct (byteout_w fin B (B + 1) (wd (B + 1)) (c_ e - 2 ^ 27) e1 e2 A) as (b & H1 & H2 & H3);
    try done; try lia.
  { by rewrite <- app_assoc in Hmem'. }
  { apply bytes_ok_snoc in Hby as [? ?]. apply bytes_ok_snoc. split; [done|lia]. }
  { rewrite <- Hh. by destruct fin. }
  { apply no_marker_snoc_inv in Hn as [Hn _]. apply no_marker_snoc; [done|]. intros Hff.
    specialize (Hrff Hff). lia. }
  assert (same_coder e e2) as H4 by apply Hw.
  replace (val (fin ++ [B]) * 2 ^ 27 + c_ e) with (val (fin ++ [B + 1]) * 2 ^ 27 + (c_ e - 2 ^ 27))
    by (rewrite !val_snoc; lia).
  replace (pos (fin ++ [B])) with (pos (fin ++ [B + 1])) by (by rewrite !pos_snoc).
  eauto 10.
Qed.

(** Coding narrows the interval; [q] is added to the register. *)
Lemma enc_add fin B L A s e q A' e' : enc_at fin B L A s e ->
  0 <= q -> 0 < A' -> q + A' <= A -> c_ e' = c_ e + q ->
  ct_ e' = ct_ e -> bp_ e' = bp_ e -> data_ e' = data_ e -> enc_at fin B (L + q) A' s e'.
Proof.
  intros [] Hq HA' HqA Ec Ect Ebp Ed. split; rewrite ?Ec, ?Ect, ?Ebp, ?Ed; try done; try lia.
  eapply room_mono; [done|lia].
Qed.

(** Renormalisation doubles it. *)
Lemma enc_shift fin B L A s e e' : enc_at fin B L A s e -> 1 <= ct_ e -> A <= 0x8000 ->
  c_ e' = 2 * c_ e -> ct_ e' = ct_ e - 1 -> bp_ e' = bp_ e -> data_ e' = data_ e ->
  enc_at fin B (2 * L) (2 * A) (s + 1) e'.
Proof.
  intros [????? HL Hs ? Hst ?? (Hr & Hr0 & Hrff)] Hct HA Ec Ect Ebp Ed.
  assert (2 ^ (27 - ct_ e') = 2 * 2 ^ (27 - ct_ e)) as E2.
  { rewrite <- Z.pow_succ_r by lia. f_equal. lia. }
  split; rewrite ?E2, ?Ec, ?Ebp, ?Ed; try done; try lia.
  { intros Hx. specialize (Hst Hx). lia. }
  split_and!; [lia| |]; intros Hx; [specialize (Hr0 Hx)|specialize (Hrff Hx)]; lia.
Qed.

Lemma reg_bound fin B L A s e : enc_at fin B L A s e -> c_ e + A < 2 ^ 28 /\ 0 <= s.
Proof.
  intros [????? HL Hs Hct ? ? ? (Hr & _)]. pose proof (pos_nonneg (fin ++ [B])). split; [|lia].
  assert (2 ^ (27 - ct_ e) <= 2 ^ 27) by (apply Z.pow_le_mono_r; lia).
  change (2 ^ 28) with 268435456. change (2 ^ 27) with 134217728 in *. lia.
Qed.

End segment.

(** ** What the decoder needs of the bytes *)

(** From byte [k] on the bytes read up to any point, as a number, are in the interval
    rounded down to the unit of the last byte read; all of them are below its end. *)
Definition fits (bs : list Z) (k : nat) (L A s : Z) : Prop :=
  (forall m, (k <= m)%nat -> L * 2 ^ Pv bs m < (Mv bs m + 1) * 2 ^ s) /\
  (forall m, Mv bs m * 2 ^ s < (L + A) * 2 ^ Pv bs m).

(** The final bytes [bs] continue what has been written, up to a carry. *)
Definition compat (bs fin : list Z) (B L A s : Z) : Prop :=
  (exists B' rest, bs = fin ++ B' :: rest /\ B <= B' <= B + 1) /\
  fits bs (length fin + 2) L A s.

Lemma fits_add bs k L A s q A' :
  0 <= q -> q + A' <= A -> fits bs k (L + q) A' s -> fits bs k L A s.
Proof.
  intros Hq HA [H1 H2]. split; intros m.
  - intros Hm. specialize (H1 m Hm). pose proof (Pv_nonneg bs m).
    assert (0 < 2 ^ Pv bs m) by lia. nia.
  - specialize (H2 m). pose proof (Pv_nonneg bs m). assert (0 < 2 ^ Pv bs m) by lia. nia.
Qed.

Lemma fits_shift bs k L A s : 0 <= s -> fits bs k (2 * L) (2 * A) (s + 1) -> fits bs k L A s.
Proof.
  intros Hs [H1 H2]. assert (2 ^ (s + 1) = 2 * 2 ^ s) as E by (rewrite <- Z.pow_succ_r by lia; done).
  split; intros m; [intros Hm; specialize (H1 m Hm)|specialize (H2 m)]; rewrite E in *; lia.
Qed.

Lemma compat_byteout bs fin B L A s B' b : byte_left fin B L s B' b ->
  compat bs (fin ++ [B']) b L A s -> compat bs fin B L A s.
Proof.
  intros (HB & HL & Hp) [(b' & rest & Ebs & Hb) [H1 H2]].
  rewrite <- app_assoc in Ebs. cbn in Ebs. split; [by eauto|]. split; [|done].
  intros m Hm. rewrite length_app in H1. cbn in H1.
  destruct (decide (length fin + 3 <= m)%nat); [apply H1; lia|].
  assert (m = length (fin ++ [B'] ++ [b'])) as -> by (rewrite !length_app; cbn; lia).
  unfold Pv, Mv. rewrite (proj2 (Nat.leb_le _ _)) by (rewrite Ebs, !length_app; cbn; lia).
  assert (take (length (fin ++ [B'] ++ [b'])) bs = fin ++ [B'] ++ [b']) as ->.
  { rewrite Ebs. change (B' :: b' :: rest) with ([B'] ++ [b'] ++ rest).
    rewrite !app_assoc. apply take_app_length. }
  rewrite !app_assoc, !val_snoc, !pos_snoc in *.
  set (P := pos fin + wd (lastb 0 fin) + wd (lastb 0 (fin ++ [B']))) in *.
  assert (0 <= P) by (unfold P; pose proof (pos_nonneg fin); pose proof (wd_range (lastb 0 fin));
    pose proof (wd_range (lastb 0 (fin ++ [B']))); lia).
  assert (2 ^ s = 2 ^ (s - P) * 2 ^ P) as -> by (rewrite <- Z.pow_add_r by lia; f_equal; lia).
  assert (0 < 2 ^ (s - P)) by lia. assert (0 < 2 ^ P) by lia.
  set (V := val fin * _ + B') in *. set (x := V * _) in *. nia.
Qed.

(** ** Coding a decision *)

Section coding.
Context (pre : list Z) (B0 : Z).

(** The encoder between decisions, with [a] the width of the interval. *)
Definition ready (fin : list Z) (B L A s : Z) (e : mqenc) : Prop :=
  enc_at pre B0 fin B L A s e /\ a_ e = A /\ 1 <= ct_ e.

(** From one interval to a later one: bytes that suit the later one suit the
    earlier one. *)
Definition pulls (fin : list Z) (B L A s : Z) (fin' : list Z) (B' L' A' s' : Z) : Prop :=
  forall bs, compat bs fin' B' L' A' s' -> compat bs fin B L A s.

Lemma u32_small x : 0 <= x < 2 ^ 32 -> u32 x = x.
Proof. apply wrap_small. Qed.

Lemma renorme_step_at fin B L A s e : ready fin B L A s e -> A < 0x8000 ->
  exists fin' B', ready fin' B' (2 * L) (2 * A) (s + 1) (renorme_step e) /\
    ctxs_ (renorme_step e) = ctxs_ e /\ curctx_ (renorme_step e) = curctx_ e /\
    pulls fin B L A s fin' B' (2 * L) (2 * A) (s + 1).
Proof.
  intros (He & Ea & Hct) HA. destruct (reg_bound _ _ _ _ _ _ _ _ He) as [Hc Hs].
  pose proof (ea_c _ _ _ _ _ _ _ _ He). pose proof (ea_A _ _ _ _ _ _ _ _ He). pose proof (ea_ct _ _ _ _ _ _ _ _ He).
  unfold renorme_step. cbn [c_ a_ ct_ set_a set_c set_ct].
  rewrite (u32_small (Z.shiftl (a_ e) 1)), (u32_small (Z.shiftl (c_ e) 1)), (wrap_small 8)
    by (rewrite ?Z.shiftl_mul_pow2; change (2 ^ 28) with 268435456 in *; grk_lia).
  rewrite !Z.shiftl_mul_pow2 by lia. change (2 ^ 1) with 2.
  set (e1 := set_ct _ _).
  assert (enc_at pre B0 fin B (2 * L) (2 * A) (s + 1) e1) as Hs1.
  { eapply enc_shift; try done; cbn; lia. }
  destruct (Z.eqb_spec (ct_ e - 1) 0) as [E0|E0].
  - destruct (byteout_at _ _ _ _ _ _ _ _ Hs1 E0) as (B' & b & H2 & Hl & Ect & Esc).
    exists (fin ++ [B']), b. destruct Esc as (E1 & E2 & E3).
    split_and!; [split_and!|..]; try done.
    + rewrite E1. cbn. lia.
    + rewrite Ect. pose proof (wd_range B'). lia.
    + intros bs Hb. eapply compat_byteout in Hb; [|done]. destruct Hb as [? Hb]. split; [done|].
      by apply fits_shift.
  - exists fin, B. split_and!; [split_and!|..]; try done.
    + cbn. lia.
    + cbn. lia.
    + intros bs [? Hb]. split; [done|]. by apply fits_shift.
Qed.

Lemma renorme_loop_at n fuel fin B L A s e : ready fin B L A s e -> (1 <= n <= fuel)%nat ->
  0x8000 <= A * 2 ^ Z.of_nat n < 0x10000 ->
  exists fin' B', let k := Z.of_nat n in
    ready fin' B' (L * 2 ^ k) (A * 2 ^ k) (s + k) (renorme_loop fuel e) /\
    ctxs_ (renorme_loop fuel e) = ctxs_ e /\
    pulls fin B L A s fin' B' (L * 2 ^ k) (A * 2 ^ k) (s + k).
Proof.
  revert fuel fin B L A s e. induction n as [|n IH]; intros fuel fin B L A s e He Hf HA; [lia|].
  destruct fuel as [|fuel]; [lia|]. cbn [renorme_loop].
  rewrite Nat2Z.inj_succ, Z.pow_succ_r in * by lia.
  pose proof (ea_A _ _ _ _ _ _ _ _ (proj1 He)).
  assert (1 <= 2 ^ Z.of_nat n) by lia.
  destruct (renorme_step_at fin B L A s e He) as (fin1 & B1 & H1 & Ex & _ & Hp1); [nia|].
  assert (a_ (renorme_step e) = 2 * A) as Ea by apply H1.
  rewrite bit15 by (rewrite Ea; nia). rewrite Ea.
  destruct n as [|n].
  - change (2 ^ Z.of_nat 0) with 1 in *. rewrite (proj2 (Z.ltb_ge _ _)) by lia.
    exists fin1, B1. cbv zeta. replace (L * (2 * 1)) with (2 * L) by lia. 
    replace (A * (2 * 1)) with (2 * A) by lia. change (Z.succ (Z.of_nat 0)) with 1. done.
  - assert (2 * A < 0x8000).
    { rewrite Nat2Z.inj_succ, Z.pow_succ_r in * by lia. assert (1 <= 2 ^ Z.of_nat n) by lia. nia. }
    rewrite (proj2 (Z.ltb_lt _ _)) by lia.
    destruct (IH fuel fin1 B1 (2 * L) (2 * A) (s + 1) (renorme_step e)) as (fin' & B' & Hr2 & Ex2 & Hp2);
      [done|lia|lia|].
    exists fin', B'. cbv zeta in *.
    replace (L * (2 * 2 ^ Z.of_nat (S n))) with (2 * L * 2 ^ Z.of_nat (S n)) by lia.
    replace (A * (2 * 2 ^ Z.of_nat (S n))) with (2 * A * 2 ^ Z.of_nat (S n)) by lia.
    replace (s + Z.succ (Z.of_nat (S n))) with (s + 1 + Z.of_nat (S n)) by lia.
    split_and!; [done|by rewrite Ex2|]. intros bs Hb. by apply Hp1, Hp2.
Qed.

(** The number of doublings that bring a width to bit 15. *)
Lemma doublings A : 0 < A < 0x8000 ->
  exists n, (1 <= n <= 16)%nat /\ 0x8000 <= A * 2 ^ Z.of_nat n < 0x10000.
Proof.
  intros HA. exists (Z.to_nat (15 - Z.log2 A)).
  pose proof (Z.log2_spec A ltac:(lia)) as [H1 H2]. pose proof (Z.log2_nonneg A).
  assert (Z.log2 A < 15) by (apply Z.log2_lt_pow2; lia).
  split; [lia|]. rewrite Z2Nat.id by lia.
  assert (0x8000 = 2 ^ Z.log2 A * 2 ^ (15 - Z.log2 A)) as E1
    by (rewrite <- Z.pow_add_r by lia; by replace (_ + _) with 15 by lia).
  rewrite Z.pow_succ_r in H2 by lia. assert (0 < 2 ^ (15 - Z.log2 A)) by lia. nia.
Qed.

(** *** A decision *)

(** The states of the contexts index the table, and the table's own links do;
    every [qeval] leaves both halves of the interval nonempty. *)
Definition state_ok (s : mqc_state) : bool :=
  (0 <? qeval s) && (qeval s <? 0x8000) && ((mps s =? 0) || (mps s =? 1)) &&
  (nmps s <? 94)%nat && (nlps s <? 94)%nat.

Definition ctxs_ok (ctxs : list nat) : Prop :=
  length ctxs = MQC_NUMCTXS /\ Forall (fun i => (i < 94)%nat) ctxs.

Lemma states_ok : forallb state_ok mqc_states = true.
Proof. reflexivity. Qed.

Lemma state_at_ok i : (i < 94)%nat -> let s := state_at i in
  0 < qeval s < 0x8000 /\ (mps s = 0 \/ mps s = 1) /\ (nmps s < 94)%nat /\ (nlps s < 94)%nat.
Proof.
  intros Hi. pose proof (proj1 (forallb_forall state_ok mqc_states) states_ok (state_at i)) as H.
  assert (In (state_at i) mqc_states) as Hin by (apply nth_In; exact Hi).
  specialize (H Hin). unfold state_ok in H.
  repeat (apply andb_prop in H as [H ?]).
  cbv zeta. rewrite orb_true_iff, !Z.eqb_eq in *. rewrite !Z.ltb_lt, !Nat.ltb_lt in *. lia.
Qed.

Lemma cur_ok ctxs ctx : ctxs_ok ctxs -> (nth ctx ctxs 0%nat < 94)%nat.
Proof.
  intros [_ H]. destruct (Nat.lt_ge_cases ctx (length ctxs)) as [Hl|Hl].
  - by apply (proj1 (Forall_nth _ _) H).
  - rewrite nth_overflow by done. lia.
Qed.

Lemma ctxs_ok_insert ctxs ctx i : ctxs_ok ctxs -> (i < 94)%nat -> ctxs_ok (<[ctx := i]> ctxs).
Proof. intros [H1 H2] Hi. split; [by rewrite length_insert|by apply Forall_insert]. Qed.

(** The interval of a decision before renormalisation: the lower part of width
    [qeval] goes to the less probable symbol, or to the more probable one when it
    is the larger part (conditional exchange). *)
Definition exchange (A q : Z) : bool := A - q <? q.
Definition lower (st : mqc_state) (A d : Z) : bool :=
  if exchange A (qeval st) then mps st =? d else negb (mps st =? d).
Definition part_low (st : mqc_state) (A d : Z) : Z := if lower st A d then 0 else qeval st.
Definition part_width (st : mqc_state) (A d : Z) : Z :=
  if lower st A d then qeval st else A - qeval st.
(** The state after the decision. *)
Definition next_state (st : mqc_state) (i : nat) (A d : Z) : nat :=
  if mps st =? d then (if A - qeval st <? 0x8000 then nmps st else i) else nlps st.

(** The doublings after a decision: none while the width keeps bit 15. *)
Definition shifts_to (w n : Z) : Prop := 0 <= n <= 16 /\ 0x8000 <= w * 2 ^ n < 0x10000.

Lemma part_range st A d : 0 < qeval st < 0x8000 -> 0x8000 <= A < 0x10000 ->
  0 <= part_low st A d /\ 0 < part_width st A d /\ part_low st A d + part_width st A d <= A.
Proof. unfold part_low, part_width. destruct (lower st A d); lia. Qed.

(** What a decision leaves before renormalisation. *)
Lemma encode_unfold e A d : a_ e = A -> 0x8000 <= A < 0x10000 ->
  0 <= c_ e -> c_ e + A < 2 ^ 28 -> 0 < qeval (cur_state e) < 0x8000 ->
  let st := cur_state e in
  let e1 := set_c (c_ e + part_low st A d) (set_a (part_width st A d) e) in
  mqc_encode d e =
    if (mps st =? d) && negb (A - qeval st <? 0x8000) then e1
    else mqc_renorme (set_state (if mps st =? d then nmps st else nlps st) e1).
Proof.
  intros Ea HA Hc HcA Hq. cbv zeta. set (st := cur_state e) in *. set (q := qeval st) in *.
  unfold mqc_encode, mqc_codemps, mqc_codelps, part_low, part_width, lower, exchange.
  fold st. fold q. rewrite Ea, (u32_small (A - q)) by grk_lia. cbn [a_ set_a c_].
  rewrite (u32_small (c_ e + q)) by (change (2 ^ 28) with 268435456 in *; grk_lia).
  rewrite bit15 by lia.
  destruct (mps st =? d); cbn [andb negb].
  - destruct (Z.ltb_spec (A - q) 0x8000); cbn [negb].
    + destruct (Z.ltb_spec (A - q) q); [|done]. rewrite Z.add_0_r. by destruct e.
    + by rewrite (proj2 (Z.ltb_ge _ _)) by lia.
  - destruct (Z.ltb_spec (A - q) q); [done|]. rewrite Z.add_0_r. by destruct e.
Qed.

Lemma ready_set_state fin B L A s e x : ready fin B L A s e -> ready fin B L A s (set_state x e).
Proof. intros ([] & ? & ?). split_and!; [constructor|..]; done. Qed.
Lemma ready_SETCURCTX fin B L A s e x : ready fin B L A s e -> ready fin B L A s (CODER_SETCURCTX x e).
Proof. intros ([] & ? & ?). split_and!; [constructor|..]; done. Qed.

(** Coding a decision in the current context. *)
Lemma encode_at fin B L A s e d : ready fin B L A s e -> 0x8000 <= A < 0x10000 ->
  ctxs_ok (ctxs_ e) -> (curctx_ e < MQC_NUMCTXS)%nat ->
  let st := cur_state e in
  let i := nth (curctx_ e) (ctxs_ e) 0%nat in
  let L1 := L + part_low st A d in
  let A1 := part_width st A d in
  exists n fin' B', shifts_to A1 n /\
    ready fin' B' (L1 * 2 ^ n) (A1 * 2 ^ n) (s + n) (mqc_encode d e) /\
    ctxs_ (mqc_encode d e) = <[curctx_ e := next_state st i A d]> (ctxs_ e) /\
    pulls fin B L1 A1 s fin' B' (L1 * 2 ^ n) (A1 * 2 ^ n) (s + n).
Proof.
  intros (He & Ea & Hct) HA Hx Hcur. cbv zeta.
  set (st := cur_state e). set (i := nth (curctx_ e) (ctxs_ e) 0%nat).
  destruct (state_at_ok i (cur_ok _ _ Hx)) as (Hq & _). change (state_at i) with st in Hq.
  destruct (reg_bound _ _ _ _ _ _ _ _ He) as [Hc Hs]. pose proof (ea_c _ _ _ _ _ _ _ _ He) as Hc0.
  destruct (part_range st A d Hq HA) as (Hlo & Hw & Hsum).
  pose proof (encode_unfold e A d Ea HA Hc0 Hc Hq) as Ee. cbv zeta in Ee. fold st in Ee.
  set (e1 := set_c _ _) in Ee.
  assert (ready fin B (L + part_low st A d) (part_width st A d) s e1) as H1.
  { split_and!; [|done|done]. eapply enc_add; try done. }
  rewrite Ee. unfold next_state. unfold shifts_to.
  destruct (Z.ltb_spec (A - qeval st) 0x8000) as [Hlt|Hge]; cbn [negb]; rewrite ?andb_false_r, ?andb_true_r.
  2: destruct (mps st =? d) eqn:Hd.
  2: { exists 0, fin, B. rewrite !Z.mul_1_r, Z.add_0_r.
       assert (part_width st A d = A - qeval st) as Ew.
       { unfold part_width, lower, exchange. rewrite Hd, (proj2 (Z.ltb_ge _ _)) by lia. done. }
       split_and!; [lia|lia|lia|lia|done| |by intros bs].
       cbn. rewrite list_insert_id; [done|]. destruct Hx as [Hlen _].
       destruct (lookup_lt_is_Some_2 (ctxs_ e) (curctx_ e)) as [x Hi]; [lia|].
       rewrite Hi. f_equal. symmetry. by apply nth_lookup_Some. }
  all: destruct (doublings (part_width st A d)) as (n & Hn & Hd2);
    [split; [done|]; unfold part_width, lower, exchange; destruct (Z.ltb_spec (A - qeval st) (qeval st)); destruct (mps st =? d); cbn [negb] in *; try done; try lia|].
  all: edestruct (renorme_loop_at n 16) as (fin' & B' & Hr & Ex & Hp); [by apply ready_set_state, H1|lia|done|];
    exists (Z.of_nat n), fin', B'; cbv zeta in *; split_and!; try done; try lia.
Qed.

(** *** Termination *)

Lemma fits_shiftn bs k L A s n : 0 <= s -> 0 <= n ->
  fits bs k (L * 2 ^ n) (A * 2 ^ n) (s + n) -> fits bs k L A s.
Proof.
  intros Hs Hn [H1 H2].
  assert (2 ^ (s + n) = 2 ^ n * 2 ^ s) as E by (rewrite <- Z.pow_add_r by lia; f_equal; lia).
  assert (0 < 2 ^ n) by lia.
  split; intros m; [intros Hm; specialize (H1 m Hm)|specialize (H2 m)]; rewrite E in *; nia.
Qed.

Lemma byteout_ct x e : mqc_byteout (set_ct x e) = mqc_byteout e.
Proof.
  unfold mqc_byteout. change (deref (set_ct x e)) with (deref e). cbn [c_ set_ct].
  change (deref (store (u8 (deref e + 1)) (set_ct x e))) with (deref (store (u8 (deref e + 1)) e)).
  destruct (deref e =? 0xff); [done|]. destruct (Z.land (c_ e) 0x8000000 =? 0); [done|].
  by destruct (_ =? 0xff).
Qed.

(** [c <<= ct; mqc_byteout]: the register's pending bits leave as a byte. *)
Definition push_bits (e : mqenc) : mqenc := mqc_byteout (set_c (u32 (Z.shiftl (c_ e) (ct_ e))) e).

Lemma push_at fin B L A s e : enc_at pre B0 fin B L A s e -> let t := ct_ e in
  exists B' b, enc_at pre B0 (fin ++ [B']) b (L * 2 ^ t) 1 (s + t) (push_bits e) /\
    ct_ (push_bits e) = wd B' /\ same_coder e (push_bits e) /\
    c_ (push_bits e) < 2 ^ (27 - wd B') /\
    forall X, pulls fin B L X s (fin ++ [B']) b (L * 2 ^ t) (X * 2 ^ t) (s + t).
Proof.
  intros He t. destruct (reg_bound _ _ _ _ _ _ _ _ He) as [_ Hs].
  destruct He as [Hmem Hlen Hby Hh Hn HL Hsc Hct Hst Hc HA (Hr & Hr0 & Hrff)]. fold t in HL, Hsc, Hct, Hr, Hr0, Hrff.
  assert (2 ^ 27 = 2 ^ (27 - t) * 2 ^ t) as E27 by (rewrite <- Z.pow_add_r by lia; f_equal; lia).
  assert (1 <= 2 ^ t) as Ht1 by lia. assert (2 ^ t <= 2 ^ 12) as Ht2 by (apply Z.pow_le_mono_r; lia).
  change (2 ^ 12) with 4096 in Ht2.
  assert (8 * ((c_ e + 1) * 2 ^ t) <= 9 * 2 ^ 27) as H9 by (rewrite E27; nia).
  set (e1 := set_ct 0 (set_c (c_ e * 2 ^ t) e)).
  assert (push_bits e = mqc_byteout e1) as ->.
  { unfold push_bits, e1. rewrite byteout_ct, Z.shiftl_mul_pow2 by lia. fold t.
    rewrite u32_small; [done|]. change (2 ^ 32) with 4294967296. change (2 ^ 27) with 134217728 in *. nia. }
  assert (enc_at pre B0 fin B (L * 2 ^ t) (2 ^ t) (s + t) e1) as H1.
  { split; cbn; try done; try lia; change (27 - 0) with 27.
    - rewrite HL, E27. ring.
    - rewrite E27. split_and!.
      + nia.
      + intros Hx. specialize (Hr0 Hx). nia.
      + intros Hx. specialize (Hrff Hx). nia. }
  destruct (byteout_at _ _ _ _ _ _ _ _ H1 eq_refl) as (B' & b & H2 & Hl & Ect & Esc).
  exists B', b. split_and!; try done.
  - replace (L * 2 ^ t) with (L * 2 ^ t + 0) by lia. eapply enc_add; try done; lia.
  - destruct Hl as (_ & Hl & _). destruct H2 as [????? HL2 Hs2].
    rewrite Ect, <- app_assoc in *. replace (s + t - _) with (27 - wd B') in Hl by lia. lia.
  - intros X bs Hb. eapply compat_byteout in Hb; [|done]. destruct Hb as [? Hb]. split; [done|].
    eapply fits_shiftn; [..|done]; lia.
Qed.

(** Bytes that end the segment: the interval reaches the end of the last byte's
    unit, so that the 1 bits read past the end stay inside it. *)
Lemma compat_end fin B L X A s e : enc_at pre B0 fin B L A s e ->
  c_ e < 2 ^ (27 - ct_ e) -> 2 ^ (27 - ct_ e) <= c_ e + X ->
  compat (fin ++ [B]) fin B L X s.
Proof.
  intros [_ _ Hby _ _ HL Hs Hct _ Hc _ _] Hlt Hge.
  set (bs := fin ++ [B]) in *. set (W := 2 ^ (27 - ct_ e)) in *.
  pose proof (pos_nonneg bs) as Hpos.
  assert (2 ^ s = W * 2 ^ pos bs) as Es by (unfold W; rewrite <- Z.pow_add_r by lia; f_equal; lia).
  assert (0 < W) by (unfold W; lia). assert (0 < 2 ^ pos bs) by lia.
  assert (length bs = (length fin + 1)%nat) as Elen by (unfold bs; rewrite length_app; done).
  split; [exists B, []; split; [done|lia]|]. split; intros m.
  - intros Hm. destruct (Mv_fill bs m) as [EM Hp]; [lia|]. rewrite EM, Es, HL.
    replace (2 ^ Pv bs m) with (2 ^ pos bs * 2 ^ (Pv bs m - pos bs))
      by (rewrite <- Z.pow_add_r by lia; f_equal; lia).
    assert (0 < 2 ^ (Pv bs m - pos bs)) by lia. nia.
  - pose proof (Pv_nonneg bs m). assert (0 < 2 ^ Pv bs m) by lia. rewrite Es.
    apply Z.lt_le_trans with ((val bs + 1) * W * 2 ^ Pv bs m); [|nia].
    destruct (Nat.le_gt_cases m (length bs)) as [Hm|Hm].
    + pose proof (Mv_mono bs m (length bs) Hby Hm) as Hmono.
      rewrite Mv_length, Pv_length in Hmono. nia.
    + destruct (Mv_fill bs m) as [EM Hp]; [lia|].
      replace (2 ^ Pv bs m) with (2 ^ pos bs * 2 ^ (Pv bs m - pos bs))
        by (rewrite <- Z.pow_add_r by lia; f_equal; lia).
      replace (Mv bs m) with ((val bs + 1) * 2 ^ (Pv bs m - pos bs) - 1) by lia.
      nia.
Qed.

(** The segment is complete in [e']: a last byte 0xFF is left out, since 1 bits
    are read past the end. *)
Definition closes (fin : list Z) (B L A s : Z) (e e' : mqenc) : Prop :=
  exists fin' B', let full := fin' ++ [B'] in
    compat full fin B L A s /\ bytes_ok full /\ head full = Some B0 /\ no_marker_from 0 full /\
    take (length (pre ++ full)) (data_ e') = pre ++ full /\
    bp_ e' = (if B' =? 0xff then length (pre ++ fin') else length (pre ++ full)) /\
    ctxs_ e' = ctxs_ e.

Lemma setbits_at e A : a_ e = A -> 0x8000 <= A < 0x10000 -> 0 <= c_ e -> c_ e + A < 2 ^ 28 ->
  exists q, 0 <= q < A /\ setbits_enc e = set_c (c_ e + q) e /\ (2 ^ 15 | c_ e + q + 1).
Proof.
  intros Ea HA Hc HcA. unfold setbits_enc. rewrite Ea. cbn [c_ set_c].
  rewrite u32_small by (change (2 ^ 28) with 268435456 in *; grk_lia).
  assert (Z.lor (c_ e) 0xffff = c_ e + (0xffff - c_ e mod 0x10000)) as ->.
  { pose proof (Z.add_lor_land (c_ e) 0xffff) as E. rewrite (Z.land_ones _ 16) in E by lia.
    change (2 ^ 16) with 0x10000 in E. lia. }
  pose proof (Z.mod_pos_bound (c_ e) 0x10000 ltac:(lia)) as Hm.
  pose proof (Z.div_mod (c_ e) 0x10000 ltac:(lia)) as Hd.
  set (r := c_ e mod 0x10000) in *.
  destruct (Z.leb_spec (c_ e + A) (c_ e + (0xffff - r))).
  - exists (0xffff - r - 0x8000). rewrite u32_small by (change (2 ^ 28) with 268435456 in *; grk_lia).
    split_and!; [lia|lia|unfold set_c; cbn; f_equal; lia|]. exists (2 * (c_ e / 0x10000) + 1). change (2 ^ 15) with 32768. lia.
  - exists (0xffff - r). split_and!; [lia|lia|done|]. exists (2 * (c_ e / 0x10000) + 2).
    change (2 ^ 15) with 32768. lia.
Qed.

Lemma enc_length fin B L A s e : enc_at pre B0 fin B L A s e ->
  S (bp_ e) = length (pre ++ fin ++ [B]) /\ bp_ e = length (pre ++ fin).
Proof.
  intros [Hmem Hlen]. assert (S (bp_ e) = length (pre ++ fin ++ [B])) as E.
  { rewrite <- Hmem, length_take. lia. }
  split; [done|]. rewrite !length_app in *. cbn in E. lia.
Qed.

(** [flush_enc] *)
Lemma flush_at fin B L A s e : ready fin B L A s e -> 0x8000 <= A < 0x10000 ->
  closes fin B L A s e (flush_enc e).
Proof.
  intros (He & Ea & Hct) HA. destruct (reg_bound _ _ _ _ _ _ _ _ He) as [HcA Hs].
  pose proof (ea_c _ _ _ _ _ _ _ _ He) as Hc. pose proof (ea_ct _ _ _ _ _ _ _ _ He) as Hct12.
  destruct (setbits_at e A Ea HA Hc HcA) as (q & Hq & Esb & Hdiv).
  set (e0 := set_c (c_ e + q) e) in *.
  assert (enc_at pre B0 fin B (L + q) 1 s e0) as H0 by (eapply enc_add; try done; lia).
  destruct (push_at _ _ _ _ _ _ H0) as (B1 & b1 & H1 & Ect1 & Esc1 & _ & Hp1).
  destruct (push_at _ _ _ _ _ _ H1) as (B2 & b2 & H2 & Ect2 & Esc2 & Hlt2 & Hp2).
  set (e1 := push_bits e0) in *. set (e2 := push_bits e1) in *.
  rewrite Ect1 in *. assert (1 <= ct_ e0 <= 12) as Ht by (cbn; lia).
  remember (ct_ e0) as t eqn:Et; symmetry in Et. rename Et into Et0.
  pose proof (wd_range B1). pose proof (wd_range B2).
  assert (2 ^ (27 - wd B2) <= c_ e2 + 1 * 2 ^ t * 2 ^ wd B1) as Hreach.
  { destruct H2 as [????? HL2 _ _ _ Hc2 _ _]. rewrite Ect2 in HL2.
    assert ((2 ^ (27 - wd B2) | c_ e2 + 1 * 2 ^ t * 2 ^ wd B1)) as Hd2.
    { replace (c_ e2 + 1 * 2 ^ t * 2 ^ wd B1) with
        ((L + q + 1) * 2 ^ t * 2 ^ wd B1 - val (((fin ++ [B1]) ++ [B2]) ++ [b2]) * 2 ^ (27 - wd B2)) by lia.
      apply Z.divide_sub_r; [|apply Z.divide_factor_r].
      apply Z.divide_trans with (2 ^ (15 + t + wd B1)).
      { exists (2 ^ (15 + t + wd B1 - (27 - wd B2))). rewrite <- Z.pow_add_r; [f_equal| |]; lia. }
      assert ((2 ^ 15 | L + q + 1)) as [z Hz].
      { destruct H0 as [????? HL0]. rewrite HL0, Et0.
        replace (val (fin ++ [B]) * 2 ^ (27 - t) + c_ e0 + 1)
          with (val (fin ++ [B]) * 2 ^ (27 - t) + (c_ e + q + 1)) by (cbn; lia).
        apply Z.divide_add_r; [|done]. apply Z.divide_mul_r. exists (2 ^ (12 - t)).
        rewrite <- Z.pow_add_r; [f_equal| |]; lia. }
      exists z. rewrite Hz, !Z.pow_add_r by (lia). ring. }
    apply Z.divide_pos_le in Hd2; [done|]. assert (0 < 2 ^ t * 2 ^ wd B1) by lia. lia. }
  exists ((fin ++ [B1]) ++ [B2]), b2. cbv zeta.
  pose proof (deref_at _ _ _ _ _ _ _ _ H2) as Hd2. destruct (enc_length _ _ _ _ _ _ H2) as [El1 El2].
  assert (flush_enc e = if b2 =? 0xff then e2 else set_bp (S (bp_ e2)) e2) as ->.
  { unfold flush_enc. rewrite Esb. fold e0. fold (push_bits e0). fold e1. fold (push_bits e1). fold e2.
    by rewrite Hd2. }
  split_and!; try apply H2.
  - assert (compat (((fin ++ [B1]) ++ [B2]) ++ [b2]) fin B (L + q) 1 s) as [Hx Hf].
    { apply Hp1, Hp2. eapply compat_end; [done|by rewrite Ect2|by rewrite Ect2]. }
    split; [done|]. eapply fits_add; [..|done]; lia.
  - rewrite <- El1. destruct (b2 =? 0xff); apply H2.
  - destruct (b2 =? 0xff); cbn; lia.
  - destruct Esc1 as (_ & E1 & _), Esc2 as (_ & E2 & _). destruct (b2 =? 0xff); cbn; by rewrite E2, E1.
Qed.

(** The byte [erterm_enc] writes past the end moves [bp] there and changes nothing
    before it. *)
Lemma byte_dummy e : deref e <> 0xff -> 0 <= c_ e < 2 ^ 27 -> (bp_ e < length (data_ e))%nat ->
  take (S (bp_ e)) (data_ (mqc_byteout e)) = take (S (bp_ e)) (data_ e) /\
  bp_ (mqc_byteout e) = S (bp_ e) /\ ctxs_ (mqc_byteout e) = ctxs_ e.
Proof.
  intros Hd Hc Hl. unfold mqc_byteout. rewrite (proj2 (Z.eqb_neq _ _) Hd).
  rewrite carry_clear by (change (2 ^ 28) with 268435456; change (2 ^ 27) with 134217728 in *; lia).
  rewrite (proj2 (Z.ltb_lt _ _)) by lia. cbn. split_and!; try done.
  set (v := u8 _). 
  transitivity (take (S (bp_ e)) (take (S (S (bp_ e))) (write_byte (data_ e) (S (bp_ e)) v))).
  { rewrite take_take. f_equal. lia. }
  rewrite take_write by lia. rewrite take_app_le by (rewrite length_take; lia). rewrite take_take. f_equal. lia.
Qed.

Lemma erterm_reach t X k : 0 <= t <= 12 -> k <= 0 -> 2 ^ 27 <= X * 2 ^ t * 2 ^ Z.max 0 k -> 2 ^ (27 - t) <= X.
Proof.
  intros Ht Hk H. rewrite Z.max_l, Z.mul_1_r in H by lia.
  assert (2 ^ 27 = 2 ^ (27 - t) * 2 ^ t) as E27 by (rewrite <- Z.pow_add_r by lia; f_equal; lia).
  rewrite E27 in H. assert (0 < 2 ^ t) by lia. nia.
Qed.

(** [erterm_enc]: the bits pushed leave at most fifteen in the register, so that
    the interval, at least [2 ^ 15] wide, reaches the end of the last byte's unit. *)
Lemma erterm_loop_at fuel k fin B L A X s e : enc_at pre B0 fin B L A s e ->
  0 < X -> (k <= 0 -> c_ e < 2 ^ (27 - ct_ e)) -> 2 ^ 27 <= X * 2 ^ ct_ e * 2 ^ Z.max 0 k ->
  k <= 7 * (Z.of_nat fuel - 1) ->
  exists fin' B' L' A' X' s', let e' := erterm_loop fuel k e in
    enc_at pre B0 fin' B' L' A' s' e' /\ c_ e' < 2 ^ (27 - ct_ e') /\ 2 ^ (27 - ct_ e') <= X' /\
    ctxs_ e' = ctxs_ e /\ pulls fin B L X s fin' B' L' X' s'.
Proof.
  revert k fin B L A X s e. induction fuel as [|fuel IH]; intros k fin B L A X s e He HX Hend Hk Hfuel.
  { exists fin, B, L, A, X, s. split_and!; [done|apply Hend; lia| |done|by intros bs].
    apply erterm_reach with k; [apply He|lia|done]. }
  cbn [erterm_loop]. destruct (Z.ltb_spec 0 k) as [Hpos|Hneg].
    + destruct (push_at _ _ _ _ _ _ He) as (B1 & b1 & H1 & Ect1 & (_ & Ex1 & _) & Hlt1 & Hp1).
      rewrite byteout_ct. fold (push_bits e). set (e1 := push_bits e) in *.
      pose proof (wd_range B1) as Hw. rewrite <- Ect1 in *.
      pose proof (ea_ct _ _ _ _ _ _ _ _ He).
      assert (0 < 2 ^ ct_ e) by lia.
      destruct (IH (k - ct_ e1) _ _ _ _ (X * 2 ^ ct_ e) _ e1 H1) as (fin' & B' & L' & A' & X' & s' & He' & Hc' & HX' & Ex' & Hp');
        [nia|done| |lia|].
      { rewrite Z.max_r in Hk by lia.
        apply Z.le_trans with (X * 2 ^ ct_ e * 2 ^ k); [done|].
        rewrite <- (Z.mul_assoc (X * 2 ^ ct_ e) (2 ^ ct_ e1)), <- Z.pow_add_r by lia.
        apply Z.mul_le_mono_nonneg_l; [nia|]. apply Z.pow_le_mono_r; lia. }
      exists fin', B', L', A', X', s'. cbv zeta. split_and!; try done; [by rewrite Ex', Ex1|].
      intros bs Hb. by apply Hp1, Hp'.
    + exists fin, B, L, A, X, s. split_and!; [done|apply Hend; lia| |done|by intros bs].
      apply erterm_reach with k; [apply He|lia|done].
Qed.

Lemma erterm_at fin B L A s e : ready fin B L A s e -> 0x8000 <= A < 0x10000 ->
  closes fin B L A s e (erterm_enc e).
Proof.
  intros (He & Ea & Hct) HA. pose proof (ea_ct _ _ _ _ _ _ _ _ He) as Hct12.
  destruct (erterm_loop_at 3 (11 - ct_ e + 1) fin B L A A s e) as (fin' & B' & L' & A' & X' & s' & He' & Hlt & Hge & Ex & Hp);
    [done|lia| | |lia|].
  { intros Hk. destruct He as [????? _ _ _ Hst ? ? (_ & Hr0 & _)].
    destruct fin as [|x fin]; [specialize (Hr0 eq_refl); lia|]. specialize (Hst ltac:(done)). lia. }
  { rewrite Z.max_r, <- Z.mul_assoc, <- Z.pow_add_r by lia.
    replace (ct_ e + (11 - ct_ e + 1)) with 12 by lia. change (2 ^ 27) with 134217728. change (2 ^ 12) with 4096. lia. }
  unfold erterm_enc. set (e1 := erterm_loop 3 (11 - ct_ e + 1) e) in *. cbv zeta in *.
  rewrite (deref_at _ _ _ _ _ _ _ _ He'). destruct (enc_length _ _ _ _ _ _ He') as [El1 El2].
  exists fin', B'. cbv zeta.
  assert (compat (fin' ++ [B']) fin B L A s) as Hcompat . { apply Hp, (compat_end fin' B' L' X' A' s' e1). all: try done. pose proof (ea_c _ _ _ _ _ _ _ _ He'). lia. }
  destruct (Z.eqb_spec B' 0xff) as [EB|EB].
  - split_and!; try done; try apply He'. rewrite <- El1. apply He'.
  - destruct (byte_dummy e1) as (E1 & E2 & E3).
    { rewrite (deref_at _ _ _ _ _ _ _ _ He'). lia. }
    { split; [apply He'|]. eapply Z.lt_le_trans; [done|]. apply Z.pow_le_mono_r; [lia|].
      pose proof (ea_ct _ _ _ _ _ _ _ _ He'). lia. }
    { apply He'. }
    split_and!; try done; try apply He'.
    + rewrite <- El1, E1. apply He'.
    + by rewrite E2.
    + by rewrite E3.
Qed.

End coding.
