(* ===== verification/MQRoundTrip.v ===== *)
(** The MQ coder round trip: the decoder follows the encoder's interval.

    The decoder reads the bytes of a segment from a list of buffers; its register
    holds the number read so far less the lower end of the interval ([dec_at]).
    As long as the bytes suit the interval of the encoder after each decision
    ([fits], MQInterval.v), the decoder takes the same part of the interval. *)
From S2P Require Import Prelude MQCoder MQInterval.

Lemma no_marker_nth p l i d : no_marker_from p l -> (S i < length l)%nat ->
  nth i l d = 0xff -> nth (S i) l d <= 0x8f.
Proof.
  revert p i. induction l as [|b l IH]; intros p i H Hi Hff; [cbn in Hi; lia|].
  destruct H as [_ H]. destruct i as [|i].
  - cbn in Hff. subst b. destruct l as [|x l]; [cbn in Hi; lia|]. by apply H.
  - apply (IH b i); [done|cbn in Hi; lia|done].
Qed.

Lemma lastb_take l i p d : (i < length l)%nat -> lastb p (take (S i) l) = nth i l d.
Proof. intros Hi. rewrite (take_S_nth l i d) by done. apply lastb_snoc. Qed.

Lemma lastb_nth l p d : l <> [] -> lastb p l = nth (length l - 1) l d.
Proof.
  destruct l as [|x l] using rev_ind; [done|]. intros _.
  rewrite lastb_snoc, length_app, app_nth2 by (cbn; lia).
  cbn. by replace (_ + 1 - 1 - _)%nat with 0%nat by lia.
Qed.

Lemma other_bit x b : x = 0 \/ x = 1 -> b = 0 \/ b = 1 -> x <> b -> Z.lxor x 1 = b.
Proof. by intros [-> | ->] [-> | ->]. Qed.

Lemma match_nonempty {A B} (l : list A) (x y : B) : l <> [] -> match l with [] => x | _ => y end = y.
Proof. by destruct l. Qed.

Section decoder.
(** The buffers of a segment, none of them empty, and the byte [B0] before it. *)
Context (bufs : list (list Z)) (B0 : Z).
Let seg : list Z := mjoin bufs.
Let full : list Z := B0 :: seg.
Context (Hbufs : Forall (fun b => b <> []) bufs).
Context (Hbytes : bytes_ok full) (Hmark : no_marker_from 0 full) (Hlast : lastb 0 full <> 0xff).

(** The decoder stands at byte [p] of the segment. *)
Definition dec_pos (d : mqdec) (p : nat) : Prop :=
  dbufs d = bufs /\ p = (length (mjoin (take (didx d) bufs)) + dbp d)%nat /\
  (dbp d <= dend d)%nat /\ (bufs <> [] -> (didx d < length bufs)%nat) /\ (bufs = [] -> didx d = 0%nat).

Lemma join_split i : (i < length bufs)%nat ->
  seg = mjoin (take i bufs) ++ nth i bufs [] ++ mjoin (drop (S i) bufs).
Proof.
  intros Hi. unfold seg. rewrite <- (take_drop i bufs) at 1. rewrite join_app. f_equal.
  destruct (lookup_lt_is_Some_2 bufs i Hi) as [x Hx].
  rewrite (drop_S _ _ _ Hx). cbn. f_equal. symmetry. by apply nth_lookup_Some.
Qed.

Lemma seg_nth i o : (i < length bufs)%nat -> (o < length (nth i bufs []))%nat ->
  nth o (nth i bufs []) 0 = Bv seg (length (mjoin (take i bufs)) + o).
Proof.
  intros Hi Ho. unfold Bv. rewrite (join_split i Hi), app_nth2 by lia.
  rewrite app_nth1 by lia. replace (_ + o - _)%nat with o by lia. apply nth_indep. done.
Qed.

Lemma join_take_S i : (i < length bufs)%nat ->
  length (mjoin (take (S i) bufs)) = (length (mjoin (take i bufs)) + length (nth i bufs []))%nat.
Proof.
  intros Hi. destruct (lookup_lt_is_Some_2 bufs i Hi) as [x Hx].
  rewrite (take_S_r _ _ _ Hx), join_app, length_app. cbn. rewrite app_nil_r.
  by rewrite (nth_lookup_Some bufs i [] x Hx).
Qed.

Lemma buf_nonempty i : (i < length bufs)%nat -> (0 < length (nth i bufs []))%nat.
Proof.
  intros Hi. pose proof (proj1 (Forall_nth _ _) Hbufs i [] Hi) as H.
  destruct (nth i bufs []); [done|cbn; lia].
Qed.

Lemma join_all i : (length bufs <= S i)%nat -> (i < length bufs)%nat ->
  length seg = (length (mjoin (take i bufs)) + length (nth i bufs []))%nat.
Proof. intros Hi1 Hi2. rewrite <- join_take_S by done. unfold seg. by rewrite take_ge by lia. Qed.

Lemma seg_nil : bufs = [] -> length seg = 0%nat.
Proof. intros E. unfold seg. by rewrite E. Qed.

Lemma pos_le d p : dec_pos d p -> (p <= length seg)%nat.
Proof.
  intros (Eb & -> & Hle & Hi & Hn). unfold dend, buf_at in Hle. rewrite Eb in Hle.
  destruct (decide (bufs = [])) as [E|E].
  { rewrite seg_nil, Hn in * by done. rewrite E in *. cbn in *. lia. }
  rewrite (join_split (didx d)) by auto. rewrite !length_app. lia.
Qed.

Lemma fetch_cur_at d p : dec_pos d p ->
  (fetch_cur d).1 = Bv seg p /\ dec_pos (fetch_cur d).2 p /\
  ((p < length seg)%nat -> (dbp (fetch_cur d).2 < dend (fetch_cur d).2)%nat) /\
  exists i o, (fetch_cur d).2 = set_pos i o d.
Proof.
  intros Hp. pose proof (pos_le d p Hp) as Hple. destruct Hp as (Eb & Ep & Hle & Hi & Hn).
  assert (exists i o, d = set_pos i o d) as Hself by (exists (didx d), (dbp d); by destruct d).
  assert (dend d = length (nth (didx d) bufs [])) as Ee by (unfold dend, buf_at; by rewrite Eb).
  unfold fetch_cur. rewrite Eb.
  destruct (Nat.leb_spec (dend d) (dbp d)) as [Hge|Hlt].
  - destruct (Nat.ltb_spec (didx d + 1) (length bufs)) as [Hmore|Hno]; cbn [fst snd].
    + pose proof (buf_nonempty (didx d + 1) Hmore). pose proof (join_take_S (didx d) ltac:(lia)) as HS.
      assert (dbp d = dend d) as Ed by lia.
      split_and!.
      * unfold dread, buf_at. cbn. rewrite Eb, seg_nth by lia. f_equal.
        rewrite Ep, Nat.add_1_r, HS. lia.
      * split_and!; cbn; [done| |lia|intros _; lia|intros E; rewrite E in Hmore; cbn in Hmore; lia].
        rewrite Nat.add_1_r, HS. lia.
      * intros _. cbn. unfold dend, buf_at. cbn. by rewrite Eb.
      * eauto.
    + split_and!; try done.
      * unfold Bv. rewrite nth_overflow; [done|].
        destruct (decide (bufs = [])) as [E|E]; [rewrite seg_nil by done; lia|].
        rewrite (join_all (didx d)); [lia|lia|auto].
      * intros Hlt. exfalso.
        destruct (decide (bufs = [])) as [E|E]; [rewrite seg_nil in Hlt by done; lia|].
        rewrite (join_all (didx d)) in Hlt; [lia|lia|auto].
  - cbn [fst snd]. split_and!; try done.
    assert (didx d < length bufs)%nat.
    { apply Hi. intros E. rewrite E in Ee. destruct (didx d); cbn in Ee; lia. }
    unfold dread, buf_at. rewrite Eb, seg_nth by lia. by rewrite Ep.
Qed.

Lemma fetch_next_at d p : dec_pos d p -> ((p < length seg)%nat -> (dbp d < dend d)%nat) ->
  (fetch_next d).1 = Bv seg (S p) /\
  ((fetch_next d).2 = d \/ (fetch_next d).2 = set_overflow d).
Proof.
  intros Hp Hcur. pose proof (pos_le d p Hp) as Hple. destruct Hp as (Eb & Ep & Hle & Hi & Hn).
  assert (dend d = length (nth (didx d) bufs [])) as Ee by (unfold dend, buf_at; by rewrite Eb).
  unfold fetch_next. rewrite Eb.
  destruct (Nat.leb_spec (dend d) (dbp d + 1)) as [Hge|Hlt].
  - destruct (Nat.ltb_spec (didx d + 1) (length bufs)) as [Hmore|Hno]; cbn [fst snd].
    + pose proof (buf_nonempty (didx d + 1) Hmore). pose proof (join_take_S (didx d) ltac:(lia)) as HS.
      split; [|by left]. 
      assert (p < length seg)%nat as Hin.
      { rewrite (join_split (didx d + 1) Hmore), !length_app, Nat.add_1_r in *. lia. }
      specialize (Hcur Hin).
      unfold dread, buf_at. rewrite Eb, seg_nth by lia. f_equal. rewrite Nat.add_1_r, HS. lia.
    + split; [|by right]. unfold Bv. rewrite nth_overflow; [done|].
      destruct (decide (bufs = [])) as [E|E]; [rewrite seg_nil by done; lia|].
      rewrite (join_all (didx d)); [lia|lia|auto].
  - cbn [fst snd]. split; [|by left].
    assert (didx d < length bufs)%nat.
    { apply Hi. intros E. rewrite E in Ee. destruct (didx d); cbn in Ee; lia. }
    unfold dread, buf_at. rewrite Eb, seg_nth by lia. f_equal. lia.
Qed.

(** After [m] bytes of [B0 :: seg] the decoder stands at the last one read; past the
    end it stays there. *)
Definition at_byte (d : mqdec) (m : nat) : Prop :=
  (2 <= m)%nat /\ dec_pos d (Nat.min (m - 2) (length seg)).

Definition same_dec (d d' : mqdec) : Prop :=
  da d' = da d /\ dctxs d' = dctxs d /\ dcurctx d' = dcurctx d.

(** [DEC_BYTEIN] adds the next byte, or 1 bits at the end. *)
Lemma bytein_at d m : at_byte d m -> let d' := DEC_BYTEIN d in
  at_byte d' (S m) /\ dct d' = Wv full m /\
  dc d' = u32 (dc d + Bv full m * 2 ^ (16 - Wv full m)) /\ same_dec d d'.
Proof.
  intros [Hm Hp]. set (p := Nat.min (m - 2) (length seg)) in *.
  destruct (fetch_cur_at d p Hp) as (Ec & Hp1 & Hin & (i & o & E1)).
  unfold DEC_BYTEIN. destruct (fetch_cur d) as [cur d1]. cbn [fst snd] in *. subst cur.
  destruct (fetch_next_at d1 p Hp1 Hin) as [En E2].
  destruct (fetch_next d1) as [next d2]. cbn [fst snd] in *. subst next.
  assert (dec_pos d2 p /\ ((p < length seg)%nat -> (dbp d2 < dend d2)%nat) /\ dc d2 = dc d /\ same_dec d d2) as (Hp2 & Hin2 & Edc & Hsame).
  { unfold same_dec. rewrite E1 in *. destruct E2 as [-> | ->]; split_and!; done. }
  assert (length full = S (length seg)) as Elf by done.
  assert (forall k, Bv full (S k) = Bv seg k) as HBv by done.
  destruct (Nat.lt_ge_cases (m - 2) (length seg)) as [Hlt|Hge].
  - assert (p = m - 2)%nat as Epm by lia. 
    assert (Bv seg p = Bv full (m - 1)) as Ecur by (rewrite <- HBv; f_equal; lia).
    assert (Bv seg (S p) = Bv full m) as Enext by (rewrite <- HBv; f_equal; lia).
    assert (Bv full (m - 1) = 0xff -> (S m <= length full)%nat /\ Bv full m <= 0x8f) as Hff.
    { intros E. destruct (Nat.lt_ge_cases m (length full)) as [Hl|Hl].
      - split; [lia|]. unfold Bv in *. replace m with (S (m - 1)) by lia.
        eapply no_marker_nth; [done|lia|done].
      - exfalso. apply Hlast. rewrite (lastb_nth full 0 0xff) by done. unfold Bv in E.
        by replace (length full - 1)%nat with (m - 1)%nat by lia. }
    assert (Wv full m = if Bv full (m - 1) =? 0xff then 7 else 8) as EW.
    { unfold Wv. destruct (Nat.ltb_spec m (length full)) as [Hl|Hl].
      - replace m with (S (m - 1)) at 1 by lia. rewrite (lastb_take full (m - 1) 0 0xff) by lia. done.
      - destruct (Z.eqb_spec (Bv full (m - 1)) 0xff) as [E|E]; [|done]. destruct (Hff E). lia. }
    rewrite Ecur, Enext, EW.
    assert ((Bv full (m - 1) =? 0xff) && (0x8f <? Bv full m) = false) as ->.
    { destruct (Z.eqb_spec (Bv full (m - 1)) 0xff) as [E|E]; [|done]. destruct (Hff E).
      apply Z.ltb_ge. lia. }
    cbv zeta. split_and!.
    + split; [lia|]. destruct Hp2 as (? & Ep & ? & ? & ?). specialize (Hin2 ltac:(lia)).
      split_and!; cbn; try done; try lia. unfold dend, buf_at in *. cbn. lia.
    + cbn. by destruct (_ =? _).
    + cbn. rewrite Edc. rewrite Z.shiftl_mul_pow2 by (destruct (_ =? _); lia). by destruct (_ =? _).
    + apply Hsame.
  - assert (p = length seg) as Epl by lia.
    assert (Bv seg p = 0xff) as -> by (unfold Bv; by rewrite nth_overflow by lia).
    assert (Bv seg (S p) = 0xff) as -> by (unfold Bv; by rewrite nth_overflow by lia).
    assert (Wv full m = 8) as -> by (unfold Wv; by rewrite (proj2 (Nat.ltb_ge _ _)) by lia).
    assert (Bv full m = 0xff) as -> by (unfold Bv; by rewrite nth_overflow by lia).
    cbv zeta. cbn [andb Z.eqb Z.ltb Z.compare Pos.compare Pos.compare_cont Pos.eqb].
    split_and!; try done.
    + split; [lia|]. replace (Nat.min (S m - 2) (length seg)) with p by lia. apply Hp2.
    + cbn. by rewrite Edc.
Qed.

(** The register holds the number read so far less the lower end [L]. *)
Definition dec_at (L s : Z) (m : nat) (d : mqdec) : Prop :=
  at_byte d m /\ dct d = Pv full m - s /\ 0 <= dct d <= 8 /\
  dc d = u32 (Mv full m * 2 ^ (16 - dct d) - 2 ^ 16 * L).

Lemma wrap_eq w x y : x mod 2 ^ w = y mod 2 ^ w -> wrap w x = wrap w y.
Proof. done. Qed.

Lemma u32_add x y : u32 (u32 x + y) = u32 (x + y).
Proof. apply Zplus_mod_idemp_l. Qed.
Lemma u32_sub x y : u32 (u32 x - y) = u32 (x - y).
Proof. apply Zminus_mod_idemp_l. Qed.
Lemma u32_double x : u32 (Z.shiftl (u32 x) 1) = u32 (2 * x).
Proof. rewrite Z.shiftl_mul_pow2 by lia. change (2 ^ 1) with 2. rewrite Z.mul_comm. apply Zmult_mod_idemp_r. Qed.

(** A byte read when the register has no bits left. *)
Lemma dec_byte L s m d d' : dec_at L s m d -> dct d = 0 ->
  at_byte d' (S m) -> dct d' = Wv full m ->
  dc d' = u32 (dc d + Bv full m * 2 ^ (16 - Wv full m)) ->
  dec_at L s (S m) d'.
Proof.
  intros (Hb & Ect & _ & Ec) E0 Hb' Ect' Ec'. pose proof (Wv_range full m) as HW.
  split_and!; [done|rewrite Pv_S; lia|lia|lia|].
  rewrite Ec', Ec, E0, u32_add, Ect', Mv_S. f_equal.
  assert (2 ^ 16 = 2 ^ Wv full m * 2 ^ (16 - Wv full m)) as E16 by (rewrite <- Z.pow_add_r by lia; f_equal; lia).
  change (16 - 0) with 16. rewrite E16 at 1. ring.
Qed.

Lemma renorm_step_at L s m d A : dec_at L s m d -> da d = A -> 0 <= A < 0x8000 ->
  exists m', dec_at (2 * L) (s + 1) m' (renorm_step d) /\ da (renorm_step d) = 2 * A /\
    dctxs (renorm_step d) = dctxs d /\ dcurctx (renorm_step d) = dcurctx d.
Proof.
  intros Hd EA HA.
  assert (exists m1 d1, dec_at L s m1 d1 /\ 1 <= dct d1 /\ same_dec d d1 /\
    renorm_step d = set_reg (u32 (Z.shiftl (dc d1) 1)) (u32 (Z.shiftl (da d1) 1)) (u8 (dct d1 - 1)) d1)
    as (m1 & d1 & Hd1 & Hct1 & (Ea1 & Ex1 & Ei1) & ->).
  { unfold renorm_step. destruct (Z.eqb_spec (dct d) 0) as [E0|E0].
    - pose proof (Wv_range full m) as HW. destruct ((didx d =? 0)%nat && (dend d =? 0)%nat) eqn:Ez.
      + exists (S m). eexists. split_and!; [| | |done]; [|cbn; lia|done].
        apply andb_true_iff in Ez as [Ei%Nat.eqb_eq Ee%Nat.eqb_eq].
        destruct Hd as ([Hm Hp] & Hrest). pose proof Hp as (Eb & _ & _ & Hi & _).
        assert (bufs = []) as Enil.
        { destruct (decide (bufs = [])) as [|Hne]; [done|]. specialize (Hi Hne).
          unfold dend, buf_at in Ee. rewrite Eb in Ee. pose proof (buf_nonempty (didx d) Hi). lia. }
        pose proof (seg_nil Enil) as El.
        assert (length full = 1%nat) as Elf by (unfold full; cbn; by rewrite El).
        assert (Wv full m = 8) as EW by (unfold Wv; by rewrite (proj2 (Nat.ltb_ge _ _)) by lia).
        assert (Bv full m = 0xff) as EB by (unfold Bv; by rewrite nth_overflow by lia).
        eapply (dec_byte L s m d); [by split|done| | |]; rewrite ?EW, ?EB; [|done|done].
        split; [lia|]. by replace (Nat.min (S m - 2) (length seg)) with (Nat.min (m - 2) (length seg)) by lia.
      + exists (S m), (DEC_BYTEIN d). destruct (bytein_at d m) as (H1 & H2 & H3 & H4); [apply Hd|].
        split_and!; [|lia|apply H4..|done]. by eapply (dec_byte L s m d).
    - exists m, d. split_and!; try done. destruct Hd as (_ & _ & ? & _). lia. }
  exists m1. destruct Hd1 as (Hb1 & Ect1 & Hr1 & Ec1). unfold dec_at. cbn [dc da dct set_reg dctxs dcurctx].
  rewrite (wrap_small 8) by grk_lia. split_and!; try done; try lia.
  - rewrite Ec1, u32_double. f_equal. replace (16 - (dct d1 - 1)) with (Z.succ (16 - dct d1)) by lia.
    rewrite Z.pow_succ_r by lia. ring.
  - rewrite Z.shiftl_mul_pow2, u32_small by (change (2 ^ 1) with 2; grk_lia). change (2 ^ 1) with 2. lia.
Qed.

Lemma renorm_loop_at n fuel L s m d A : dec_at L s m d -> da d = A -> 0 < A ->
  (1 <= n <= fuel)%nat -> 0x8000 <= A * 2 ^ Z.of_nat n < 0x10000 ->
  exists m', let k := Z.of_nat n in
    dec_at (L * 2 ^ k) (s + k) m' (renorm_loop fuel d) /\ da (renorm_loop fuel d) = A * 2 ^ k /\
    dctxs (renorm_loop fuel d) = dctxs d.
Proof.
  revert fuel L s m d A. induction n as [|n IH]; intros fuel L s m d A Hd EA HA0 Hf HA; [lia|].
  destruct fuel as [|fuel]; [lia|]. cbn [renorm_loop]. cbv zeta in *.
  rewrite Nat2Z.inj_succ, Z.pow_succ_r in * by lia. assert (1 <= 2 ^ Z.of_nat n) by lia.
  destruct (renorm_step_at L s m d A Hd EA) as (m1 & H1 & Ea1 & Ex1 & _); [nia|].
  rewrite Ea1. unfold A_MIN. destruct n as [|n].
  - change (2 ^ Z.of_nat 0) with 1 in *. rewrite (proj2 (Z.ltb_ge _ _)) by lia.
    exists m1. replace (L * (2 * 1)) with (2 * L) by lia. replace (A * (2 * 1)) with (2 * A) by lia.
    change (Z.succ (Z.of_nat 0)) with 1. done.
  - assert (2 * A < 0x8000).
    { rewrite Nat2Z.inj_succ, Z.pow_succ_r in * by lia. assert (1 <= 2 ^ Z.of_nat n) by lia. nia. }
    rewrite (proj2 (Z.ltb_lt _ _)) by lia.
    destruct (IH fuel (2 * L) (s + 1) m1 (renorm_step d) (2 * A)) as (m' & H2 & Ea2 & Ex2); [done|done|lia|lia|lia|].
    exists m'. 
    replace (L * (2 * 2 ^ Z.of_nat (S n))) with (2 * L * 2 ^ Z.of_nat (S n)) by lia.
    replace (A * (2 * 2 ^ Z.of_nat (S n))) with (2 * A * 2 ^ Z.of_nat (S n)) by lia.
    replace (s + Z.succ (Z.of_nat (S n))) with (s + 1 + Z.of_nat (S n)) by lia.
    split_and!; [done|done|by rewrite Ex2].
Qed.

(** The register, as an exact number, where the bytes suit the interval. *)
Lemma dec_exact L A s m d k : dec_at L s m d -> fits full k L A s -> 0 <= s -> (k <= m)%nat ->
  0 <= A <= 0x10000 ->
  exists x, dc d = x /\ 0 <= x < 2 ^ 16 * A /\ x = Mv full m * 2 ^ (16 - dct d) - 2 ^ 16 * L.
Proof.
  intros (_ & Ect & Hct & Ec) [H1 H2] Hs Hk HA. specialize (H1 m Hk). specialize (H2 m).
  set (t := dct d) in *. assert (2 ^ Pv full m = 2 ^ t * 2 ^ s) as EP by (rewrite <- Z.pow_add_r by lia; f_equal; lia).
  rewrite EP in *. assert (0 < 2 ^ s) by lia. assert (0 < 2 ^ (16 - t)) by lia.
  assert (2 ^ 16 = 2 ^ t * 2 ^ (16 - t)) as E16 by (rewrite <- Z.pow_add_r by lia; f_equal; lia).
  assert (L * 2 ^ t <= Mv full m) by nia. assert (Mv full m < (L + A) * 2 ^ t) by nia.
  exists (Mv full m * 2 ^ (16 - t) - 2 ^ 16 * L).
  assert (0 <= Mv full m * 2 ^ (16 - t) - 2 ^ 16 * L < 2 ^ 16 * A) as Hx by (rewrite E16; nia).
  split_and!; try lia. rewrite Ec. apply u32_small. change (2 ^ 16) with 65536 in *. grk_lia.
Qed.

Lemma dec_renorm_at L s m d A n : dec_at L s m d -> da d = A -> 0 < A < 0x8000 -> shifts_to A n ->
  exists m', dec_at (L * 2 ^ n) (s + n) m' (DEC_RENORM d) /\ da (DEC_RENORM d) = A * 2 ^ n /\
    dctxs (DEC_RENORM d) = dctxs d.
Proof.
  intros Hd EA HA [Hn Hr]. assert (n <> 0) by (intros ->; lia).
  destruct (renorm_loop_at (Z.to_nat n) 16 L s m d A) as (m' & Hm); try done; try lia.
  - by rewrite Z2Nat.id by lia.
  - exists m'. cbv zeta in Hm. rewrite Z2Nat.id in Hm by lia. exact Hm.
Qed.

Lemma dec_at_state L s m d x : dec_at L s m d -> dec_at L s m (dset_state x d).
Proof. done. Qed.
Lemma dec_at_ctx L s m d x : dec_at L s m d -> dec_at L s m (DEC_SETCURCTX x d).
Proof. done. Qed.

(** The part of the interval a decision left is the part the register is in. *)
Lemma dec_part L A s m d k st b x : dec_at L s m d -> 0x8000 <= A < 0x10000 ->
  0 < qeval st < 0x8000 -> 0 <= s -> (k <= m)%nat ->
  fits full k (L + part_low st A b) (part_width st A b) s ->
  dc d = x -> 
  (x <? 2 ^ 16 * qeval st) = lower st A b /\ 2 ^ 16 * part_low st A b <= x < 2 ^ 32 /\
  dec_at (L + part_low st A b) s m
    (set_reg (x - 2 ^ 16 * part_low st A b) (part_width st A b) (dct d) d).
Proof.
  intros Hd HA Hq Hs Hk Hf Ex. destruct (part_range st A b Hq HA) as (Hlo & Hw & Hsum).
  assert (fits full k L A s) as Hf0 by (eapply fits_add; [..|done]; lia).
  destruct (dec_exact L A s m d k Hd Hf0 Hs Hk ltac:(lia)) as (y & Ey & Hy & Exact).
  assert (y = x) as -> by congruence.
  set (d1 := set_reg (u32 (Mv full m * 2 ^ (16 - dct d) - 2 ^ 16 * (L + part_low st A b))) 0 (dct d) d).
  assert (dec_at (L + part_low st A b) s m d1) as Hd1.
  { destruct Hd as (H1 & H2 & H3 & _). exact (conj H1 (conj H2 (conj H3 eq_refl))). }
  destruct (dec_exact _ _ s m d1 k Hd1 Hf Hs Hk ltac:(lia)) as (z & Ez & Hz & Exact1).
  change (dct d1) with (dct d) in Exact1.
  assert (z = x - 2 ^ 16 * part_low st A b) as Ezx by lia.
  split_and!.
  - unfold part_low, part_width in *. destruct (lower st A b); [apply Z.ltb_lt|apply Z.ltb_ge]; lia.
  - lia.
  - change (2 ^ 16) with 65536 in *. grk_lia.
  - rewrite <- Ezx, <- Ez. destruct Hd1 as (H1 & H2 & H3 & H4). exact (conj H1 (conj H2 (conj H3 H4))).
Qed.

Lemma decode_symbol_at L A s m d k b n : dec_at L s m d -> da d = A -> 0x8000 <= A < 0x10000 ->
  ctxs_ok (dctxs d) -> (dcurctx d < MQC_NUMCTXS)%nat -> (b = 0 \/ b = 1) -> 0 <= s -> (k <= m)%nat ->
  let st := dcur_state d in
  let L1 := L + part_low st A b in
  let A1 := part_width st A b in
  fits full k L1 A1 s -> shifts_to A1 n ->
  (DEC_SYMBOL d).1 = b /\
  exists m', dec_at (L1 * 2 ^ n) (s + n) m' (DEC_SYMBOL d).2 /\
    da (DEC_SYMBOL d).2 = A1 * 2 ^ n /\
    dctxs (DEC_SYMBOL d).2 =
      <[dcurctx d := next_state st (nth (dcurctx d) (dctxs d) 0%nat) A b]> (dctxs d).
Proof.
  intros Hd EA HA Hx Hcur Hb Hs Hk. cbv zeta. set (st := dcur_state d). intros Hf Hn.
  set (i := nth (dcurctx d) (dctxs d) 0%nat) in *.
  destruct (state_at_ok i (cur_ok _ _ Hx)) as (Hq & Hmps & _). change (state_at i) with st in Hq, Hmps.
  destruct (dec_part L A s m d k st b (dc d) Hd HA Hq Hs Hk Hf eq_refl) as (Hcmp & Hx32 & Hd1).
  unfold DEC_SYMBOL. fold st. rewrite EA, (u32_small (A - qeval st)) by grk_lia.
  assert (u32 (Z.shiftl (qeval st) 16) = 2 ^ 16 * qeval st) as ->.
  { rewrite Z.shiftl_mul_pow2 by lia. rewrite u32_small; [lia|]. change (2 ^ 16) with 65536. grk_lia. }
  rewrite Hcmp. unfold A_MIN.
  assert ((A - qeval st <? qeval st) = exchange A (qeval st)) as -> by done.
  assert (Hlow : lower st A b = true \/ lower st A b = false) by (destruct (lower st A b); auto).
  destruct Hlow as [El|El]; rewrite El; cbn [fst snd].
  - assert (part_low st A b = 0 /\ part_width st A b = qeval st) as [Elo Ew]
      by (unfold part_low, part_width; by rewrite El).
    rewrite Elo, Ew in *. rewrite Z.mul_0_r, Z.sub_0_r in Hd1.
    split.
    { unfold lower in El. destruct (exchange A (qeval st)).
      - by apply Z.eqb_eq in El.
      - apply negb_true_iff, Z.eqb_neq in El. by apply other_bit. }
    set (d1 := set_reg _ _ _ _) in *.
    set (ns := if exchange A (qeval st) then nmps st else nlps st).
    destruct (dec_renorm_at _ _ _ (dset_state ns d1) _ n (dec_at_state _ _ _ _ ns Hd1) eq_refl Hq Hn) as (m' & H1 & H2 & H3).
    exists m'. split_and!; [done|done|]. rewrite H3. change (dctxs (dset_state ns d1)) with (<[dcurctx d := ns]> (dctxs d)). f_equal. unfold ns, next_state, lower, exchange in *.
    destruct (Z.ltb_spec (A - qeval st) (qeval st)).
    + rewrite El. by rewrite (proj2 (Z.ltb_lt _ 0x8000)) by lia.
    + apply negb_true_iff in El. by rewrite El.
  - assert (part_low st A b = qeval st /\ part_width st A b = A - qeval st) as [Elo Ew]
      by (unfold part_low, part_width; by rewrite El).
    rewrite Elo, Ew in *. rewrite u32_small by lia.
    set (d1 := set_reg _ _ _ _) in *.
    unfold lower, exchange in El. unfold next_state, exchange.
    destruct (Z.ltb_spec (A - qeval st) 0x8000) as [Hlt|Hge]; cbn [fst snd].
    + split.
      { destruct (A - qeval st <? qeval st).
        - apply Z.eqb_neq in El. by apply other_bit.
        - by apply negb_false_iff, Z.eqb_eq in El. }
      set (ns := if _ <? _ then nlps st else nmps st).
      destruct (dec_renorm_at _ _ _ (dset_state ns d1) (A - qeval st) n (dec_at_state _ _ _ _ ns Hd1) eq_refl) as (m' & H1 & H2 & H3); [lia|done|].
      exists m'. split_and!; [done|done|]. rewrite H3. change (dctxs (dset_state ns d1)) with (<[dcurctx d := ns]> (dctxs d)). f_equal. unfold ns.
      destruct (A - qeval st <? qeval st); [by rewrite El|]. apply negb_false_iff in El. by rewrite El.
    + rewrite (proj2 (Z.ltb_ge (A - qeval st) (qeval st))) in El by lia.
      apply negb_false_iff in El. split; [by apply Z.eqb_eq in El|].
      assert (n = 0) as ->.
      { destruct Hn as [Hn Hr]. destruct (Z.eq_dec n 0); [done|].
        assert (2 ^ 1 <= 2 ^ n) by (apply Z.pow_le_mono_r; lia). change (2 ^ 1) with 2 in *. nia. }
      exists m. rewrite !Z.mul_1_r, Z.add_0_r, El. split_and!; try done.
      rewrite list_insert_id; [done|]. destruct Hx as [Hlen _].
      destruct (lookup_lt_is_Some_2 (dctxs d) (dcurctx d)) as [y Hy]; [lia|].
      rewrite Hy. f_equal. symmetry. by apply nth_lookup_Some.
Qed.

(** *** Start *)

Context (HB0 : 0 <= B0 < 0xff).

Lemma init_dec_at ctxs : dec_at (B0 * 2 ^ 15) 23 3 (init_dec bufs ctxs) /\
  da (init_dec bufs ctxs) = 0x8000 /\ dctxs (init_dec bufs ctxs) = ctxs.
Proof.
  assert (Wv full 0 = 8) as EW0 by done.
  assert (Mv full 1 = B0) as EM1 by (rewrite Mv_S, EW0; unfold full; cbn; lia).
  assert (Pv full 1 = 8) as EP1 by (by rewrite Pv_S, EW0).
  assert (Wv full 1 = 8) as EW1.
  { unfold Wv. destruct (1 <? length full)%nat; [|done]. change (lastb 0 (take 1 full)) with B0. unfold wd.
    by rewrite (proj2 (Z.eqb_neq B0 255)) by lia. }
  pose proof (Wv_range full 2) as HW2.
  assert (0 <= Bv full 2 <= 255) as HB2 by (by apply Bv_range).
  assert (0 <= Bv full 1 <= 255) as HB1 by (by apply Bv_range).
  assert (exists d1, at_byte d1 3 /\ dct d1 = Wv full 2 /\ dctxs d1 = ctxs /\
    dc d1 = Bv full 1 * 2 ^ 16 + Bv full 2 * 2 ^ (16 - Wv full 2) /\
    init_dec bufs ctxs = set_reg (u32 (Z.shiftl (dc d1) 7)) A_MIN (u8 (dct d1 - 7)) d1) as (d1 & H1 & Ect & Ex & Ec & ->).
  { unfold init_dec. destruct (decide (bufs = [])) as [Enil|Hne].
    - assert (full = [B0]) as Ef by (unfold full, seg; by rewrite Enil).
      eexists. split_and!; [..|by rewrite Enil].
      + split; [lia|]. rewrite seg_nil by done. split_and!; cbn; try done; try lia.
      + by rewrite Ef.
      + done.
      + by rewrite Ef.
    - set (d0 := set_reg (u32 (Z.shiftl (dread (init_dec_common bufs ctxs) 0 0) 16)) 0 0 (init_dec_common bufs ctxs)).
      assert (0 < length bufs)%nat as Hl by (destruct (decide (length bufs = 0%nat)) as [E|]; [by apply nil_length_inv in E|lia]).
      assert (at_byte d0 2) as Hat.
      { split; [done|]. split_and!; cbn; try done; try lia. }
      destruct (bytein_at d0 2 Hat) as (H1 & H2 & H3 & (_ & H4 & _)).
      exists (DEC_BYTEIN d0). split_and!; try done.
      + rewrite H3. cbn [dc d0 set_reg]. unfold dread, buf_at. cbn [dbufs init_dec_common].
        pose proof (buf_nonempty 0 Hl). rewrite (seg_nth 0 0) by done.
        change (Bv seg (length (mjoin (take 0 bufs)) + 0)) with (Bv full 1).
        rewrite Z.shiftl_mul_pow2 by lia. rewrite u32_add. apply u32_small.
        assert (2 ^ (16 - Wv full 2) <= 2 ^ 9) by (apply Z.pow_le_mono_r; lia).
        change (2 ^ 9) with 512 in *. change (2 ^ 16) with 65536. split; [nia|]. change (2 ^ 32) with 4294967296. nia.
      + by rewrite (match_nonempty bufs). }
  assert (0 <= dc d1 /\ dc d1 * 2 ^ 7 < 2 ^ 32) as [Hc0 Hc1].
  { rewrite Ec. assert (0 <= 2 ^ (16 - Wv full 2) <= 2 ^ 9) by (split; [lia|apply Z.pow_le_mono_r; lia]).
    change (2 ^ 9) with 512 in *. change (2 ^ 16) with 65536. change (2 ^ 7) with 128. change (2 ^ 32) with 4294967296. nia. }
  unfold dec_at. cbn [dc dct da dctxs set_reg]. rewrite (wrap_small 8) by grk_lia.
  split_and!; try done; try lia.
  - rewrite Ect, (Pv_S full 2), (Pv_S full 1), EP1, EW1. lia.
  - f_equal. rewrite Z.shiftl_mul_pow2 by lia. rewrite Ec, Ect.
    rewrite (Mv_S full 2), (Mv_S full 1), EM1, EW1.
    replace (16 - (Wv full 2 - 7)) with (7 + (16 - Wv full 2)) by lia.
    assert (2 ^ 16 = 2 ^ Wv full 2 * 2 ^ (16 - Wv full 2)) as E16 by (rewrite <- Z.pow_add_r by lia; f_equal; lia).
    rewrite Z.pow_add_r by lia.
    replace (((B0 * 2 ^ 8 + Bv full 1) * 2 ^ Wv full 2 + Bv full 2) * (2 ^ 7 * 2 ^ (16 - Wv full 2)))
      with ((B0 * 2 ^ 8 + Bv full 1) * 2 ^ 7 * (2 ^ Wv full 2 * 2 ^ (16 - Wv full 2)) + Bv full 2 * (2 ^ 7 * 2 ^ (16 - Wv full 2))) by ring.
    rewrite <- E16. change (2 ^ 16) with 65536. change (2 ^ 15) with 32768. change (2 ^ 8) with 256. change (2 ^ 7) with 128. ring.
Qed.

(** *** A segment *)

Definition decisions_ok (ds : list (nat * Z)) : Prop :=
  Forall (fun '(ctx, b) => (ctx < MQC_NUMCTXS)%nat /\ (b = 0 \/ b = 1)) ds.

Lemma byte_ahead pre fin B L A s e bs m : ready pre B0 fin B L A s e ->
  compat bs fin B L A s -> s <= Pv bs m -> (length fin + 2 <= m)%nat.
Proof.
  intros (He & _) [(B' & rest & Ebs & _) _] Hm. destruct (Nat.le_gt_cases (length fin + 2) m); [done|].
  exfalso. pose proof (ea_ct _ _ _ _ _ _ _ _ He). pose proof (ea_scale _ _ _ _ _ _ _ _ He) as Hs.
  assert (Pv bs (length fin + 1) = pos (fin ++ [B])) as EP.
  { unfold Pv. rewrite Ebs, (proj2 (Nat.leb_le _ _)) by (rewrite length_app; cbn; lia).
    replace (take (length fin + 1) (fin ++ B' :: rest)) with (fin ++ [B']); [by rewrite !pos_snoc|].
    change (B' :: rest) with ([B'] ++ rest). rewrite app_assoc.
    rewrite take_app_length' by (rewrite length_app; done). done. }
  pose proof (Pv_mono bs m (length fin + 1) ltac:(lia)). lia.
Qed.

End decoder.

(** Coding the decisions [ds], and decoding them from bytes that suit the interval
    they leave. *)
Lemma encode_range pre B0 ds : forall fin B L A s e, ready pre B0 fin B L A s e ->
  0x8000 <= A < 0x10000 -> ctxs_ok (ctxs_ e) -> decisions_ok ds ->
  exists fin' B' L' A' s', ready pre B0 fin' B' L' A' s' (encode_all e ds) /\
    0x8000 <= A' < 0x10000 /\ ctxs_ok (ctxs_ (encode_all e ds)) /\
    pulls fin B L A s fin' B' L' A' s' /\
    forall bufs bs d m, let full := B0 :: mjoin bufs in
      Forall (fun b => b <> []) bufs -> no_marker_from 0 full -> lastb 0 full <> 0xff ->
      compat bs fin' B' L' A' s' ->
      (forall k, Mv full k = Mv bs k /\ Pv full k = Pv bs k) ->
      dec_at bufs B0 L s m d -> da d = A -> dctxs d = ctxs_ e ->
      (decode_all d (ds.*1)).1 = ds.*2 /\ dctxs (decode_all d (ds.*1)).2 = ctxs_ (encode_all e ds) /\
      da (decode_all d (ds.*1)).2 = A' /\ exists m', dec_at bufs B0 L' s' m' (decode_all d (ds.*1)).2.
Proof.
  induction ds as [|[ctx b] ds IH]; intros fin B L A s e He HA Hx Hds.
  { exists fin, B, L, A, s. split_and!; try done; try lia; [by intros bs|].
    intros bufs bs d m full ? ? ? ? ? ? ? ?. split_and!; eauto. }
  apply list.Forall_cons in Hds as [[Hctx Hb] Hds].
  set (e0 := CODER_SETCURCTX ctx e).
  assert (ready pre B0 fin B L A s e0) as He0 by (by apply ready_SETCURCTX).
  destruct (encode_at pre B0 fin B L A s e0 b He0 HA Hx Hctx) as (n & fin1 & B1 & Hn & He1 & Ex1 & Hp1).
  set (e1 := mqc_encode b e0) in *. set (st := cur_state e0) in *.
  set (i := nth (curctx_ e0) (ctxs_ e0) 0%nat) in *.
  set (L1 := L + part_low st A b) in *. set (A1 := part_width st A b) in *.
  destruct (state_at_ok i (cur_ok _ _ Hx)) as (Hq & _ & Hnm & Hnl). change (state_at i) with st in Hq, Hnm, Hnl.
  assert (ctxs_ok (ctxs_ e1)) as Hx1.
  { rewrite Ex1. apply ctxs_ok_insert; [done|]. unfold next_state.
    destruct (mps st =? b); [|done]. destruct (_ <? _); [done|]. by apply cur_ok. }
  destruct (IH fin1 B1 (L1 * 2 ^ n) (A1 * 2 ^ n) (s + n) e1) as (fin' & B' & L' & A' & s' & He' & HA' & Hx' & Hp' & Hdec);
    [done|apply Hn|done|done|].
  destruct (part_range st A b Hq HA) as (Hlo & Hw & Hsum). fold A1 in Hw, Hsum.
  exists fin', B', L', A', s'. change (encode_all e ((ctx, b) :: ds)) with (encode_all e1 ds).
  split_and!; try done; try lia.
  { intros bs Hbs. apply Hp', Hp1 in Hbs as [Hpre Hf]. split; [done|]. eapply fits_add; [..|done]; lia. }
  intros bufs bs d m full Hbufs Hmark Hlast Hbs Hsame Hd Ea Edx. subst full.
  apply Hp' in Hbs as Hbs1. pose proof (Hp1 bs Hbs1) as [Hpre Hf1].
  assert (compat bs fin B L A s) as Hbs0 by (split; [done|]; eapply fits_add; [..|done]; lia).
  assert (0 <= s) as Hs by (destruct (reg_bound _ _ _ _ _ _ _ _ (proj1 He)); done).
  assert (length fin + 2 <= m)%nat as Hm.
  { apply (byte_ahead B0 pre fin B L A s e bs m He Hbs0). destruct (Hsame m) as [_ <-].
    destruct Hd as (_ & Ect & Hct & _). lia. }
  set (d0 := DEC_SETCURCTX ctx d).
  assert (dcur_state d0 = st) as Est by (unfold dcur_state, st, cur_state; cbn; by rewrite Edx).
  assert (nth (dcurctx d0) (dctxs d0) 0%nat = i) as Ei by (cbn; by rewrite Edx).
  destruct (decode_symbol_at bufs B0 Hbufs Hmark Hlast L A s m d0 (length fin + 2) b n) as (Ev & m' & Hd' & Ea' & Ex'); try done.
  { cbn. by rewrite Edx. }
  { rewrite Est. fold L1 A1. destruct Hf1 as [Hf1 Hf2].
    split; intros k; destruct (Hsame k) as [-> ->]; auto. }
  { by rewrite Est. }
  rewrite Est in Hd', Ea', Ex'. rewrite Ei in Ex'. fold L1 A1 in Hd', Ea'.
  destruct (Hdec bufs bs (DEC_SYMBOL d0).2 m') as (H1 & H2 & H3 & H4); try done.
  { rewrite Ex', Ex1. cbn. by rewrite Edx. }
  cbn [fmap list_fmap fst snd decode_all]. fold d0.
  destruct (DEC_SYMBOL d0) as [v d1]. cbn [fst snd] in *. subst v.
  change (list_fmap _ _ fst ds) with (ds.*1). change (list_fmap _ _ snd ds) with (ds.*2).
  destruct (decode_all d1 (ds.*1)) as [vs d2]. cbn [fst snd] in *. by subst vs.
Qed.


(** ** Segments *)

(** A last byte 0xFF is what is read past the end anyway. *)
Lemma drop_ff l : lastb 0 l <> 0xff -> forall k,
  Mv l k = Mv (l ++ [0xff]) k /\ Pv l k = Pv (l ++ [0xff]) k.
Proof.
  intros Hl k.
  assert (wd (lastb 0 l) = 8) as Ew by (unfold wd; by rewrite (proj2 (Z.eqb_neq _ _) Hl)).
  unfold Mv, Pv. rewrite length_app. cbn [length].
  destruct (Nat.leb_spec k (length l)).
  { rewrite (proj2 (Nat.leb_le k (length l + 1))) by lia. by rewrite take_app_le by lia. }
  rewrite val_snoc, pos_snoc, Ew.
  destruct (Nat.leb_spec k (length l + 1)).
  - assert (k = length l + 1)%nat as -> by lia.
    rewrite take_ge by (rewrite length_app; cbn; lia). rewrite val_snoc, pos_snoc, Ew.
    replace (length l + 1 - length l)%nat with 1%nat by lia. change (2 ^ (8 * Z.of_nat 1)) with 256. lia.
  - replace (8 * Z.of_nat (k - length l)) with (8 + 8 * Z.of_nat (k - (length l + 1))) by lia.
    rewrite Z.pow_add_r by lia. change (2 ^ 8) with 256. lia.
Qed.

(** The encoder at the start of a segment, as [init_enc] and [restart_init_enc]
    leave it. *)
Record segment_start (e : mqenc) : Prop := SegmentStart {
  ss_a : a_ e = 0x8000;
  ss_c : c_ e = 0;
  ss_ct : ct_ e = 12;
  ss_bp : (bp_ e < length (data_ e))%nat;
  ss_byte : 0 <= deref e < 0xff;
}.

Lemma start_ready e : segment_start e -> exists pre, length pre = bp_ e /\
  take (S (bp_ e)) (data_ e) = pre ++ [deref e] /\
  ready pre (deref e) [] (deref e) (deref e * 2 ^ 15) 0x8000 23 e.
Proof.
  intros [Ea Ec Ect Hbp Hb]. exists (take (bp_ e) (data_ e)).
  assert (take (S (bp_ e)) (data_ e) = take (bp_ e) (data_ e) ++ [deref e]) as Et by (by apply take_S_nth).
  split_and!; [rewrite length_take; lia|done|]. split_and!; [|done|lia].
  split; rewrite ?Ec, ?Ect; cbn [app]; try done; try lia.
  - apply list.Forall_singleton. lia.
  - change (val [deref e]) with (0 * 256 + deref e). change (27 - 12) with 15. lia.
Qed.

(** What a terminated segment leaves, with [B0] the byte before it. *)
Record segment_end (e e' : mqenc) : Prop := SegmentEnd {
  se_bp : (bp_ e < bp_ e' <= length (data_ e'))%nat;
  se_kept : take (S (bp_ e)) (data_ e') = take (S (bp_ e)) (data_ e);
  se_bytes : bytes_ok (segment_bytes (data_ e') (bp_ e) (bp_ e'));
  se_nomark : no_marker_from (deref e) (segment_bytes (data_ e') (bp_ e) (bp_ e'));
  se_last : 0 <= byte_at e' (pred (bp_ e')) < 0xff;
}.

Lemma closes_end e pre fin B L A s e1 e' : length pre = bp_ e -> 0 <= deref e < 0xff ->
  take (S (bp_ e)) (data_ e) = pre ++ [deref e] ->
  closes pre (deref e) fin B L A s e1 e' ->
  segment_end e e' /\ exists bs, compat bs fin B L A s /\
    let full := deref e :: segment_bytes (data_ e') (bp_ e) (bp_ e') in
    bytes_ok full /\ no_marker_from 0 full /\ lastb 0 full <> 0xff /\
    (forall k, Mv full k = Mv bs k /\ Pv full k = Pv bs k).
Proof.
  intros Hpre Hb0 Hmem (fin' & B' & Hc & Hby & Hh & Hn & Ht & Ebp & Ex). cbv zeta in *.
  set (full := fin' ++ [B']) in *. set (body := if B' =? 0xff then fin' else full).
  assert (bp_ e' = length (pre ++ body)) as Ebp' by (unfold body; by destruct (B' =? 0xff)).
  assert (take (bp_ e') (data_ e') = pre ++ body) as Ht'.
  { rewrite Ebp'. unfold body. destruct (B' =? 0xff); [|done].
    transitivity (take (length (pre ++ fin')) (take (length (pre ++ full)) (data_ e'))).
    - rewrite take_take. f_equal. unfold full. rewrite !length_app. lia.
    - rewrite Ht. unfold full. rewrite app_assoc, take_app_length. done. }
  assert (no_marker_from 0 fin' /\ (lastb 0 fin' = 0xff -> B' <= 0x8f)) as [Hn1 Hn2] by (by apply no_marker_snoc_inv).
  assert (bytes_ok fin' /\ 0 <= B' <= 255) as [Hby1 HB'] by (by apply bytes_ok_snoc).
  assert (lastb 0 body <> 0xff) as Hlast.
  { unfold body, full. destruct (Z.eqb_spec B' 0xff); [|by rewrite lastb_snoc].
    intros E. specialize (Hn2 E). lia. }
  assert (head body = Some (deref e)) as Hhb.
  { unfold body. destruct (Z.eqb_spec B' 0xff) as [E|]; [|done]. rewrite <- Hh. unfold full.
    destruct fin' as [|x fin']; [|done]. exfalso. unfold full in Hh. cbn in Hh. injection Hh as Hh. lia. }
  assert (bytes_ok body /\ no_marker_from 0 body) as [Hbyb Hnb] by (unfold body; by destruct (B' =? 0xff)).
  destruct body as [|x rest] eqn:Ebody; [done|]. cbn in Hhb. injection Hhb as ->.
  assert (length (data_ e') >= bp_ e')%nat as Hlen.
  { assert (length (take (bp_ e') (data_ e')) = bp_ e') as E by (by rewrite Ht', Ebp'). rewrite length_take in E. lia. }
  assert (bp_ e' = S (bp_ e) + length rest)%nat as Ebl by (rewrite Ebp', length_app, Hpre; cbn; lia).
  assert (segment_bytes (data_ e') (bp_ e) (bp_ e') = rest) as Eseg.
  { unfold segment_bytes. rewrite take_drop_commute.
    replace (S (bp_ e) + (bp_ e' - bp_ e - 1))%nat with (bp_ e') by lia. rewrite Ht'.
    rewrite <- Hpre. change (deref e :: rest) with ([deref e] ++ rest). rewrite app_assoc.
    rewrite drop_app_length' by (rewrite length_app; cbn; lia). done. }
  split.
  - split; rewrite ?Eseg.
    + lia.
    + rewrite Hmem. transitivity (take (S (bp_ e)) (take (bp_ e') (data_ e'))).
      { rewrite take_take. f_equal. lia. }
      rewrite Ht', <- Hpre. change (deref e :: rest) with ([deref e] ++ rest). rewrite app_assoc.
      rewrite take_app_length' by (rewrite length_app; cbn; lia). done.
    + by apply list.Forall_cons in Hbyb as [_ ?].
    + apply Hnb.
    + assert (byte_at e' (pred (bp_ e')) = lastb 0 (deref e :: rest)) as ->.
      { rewrite (lastb_nth (deref e :: rest) 0 0) by done. unfold byte_at.
        rewrite <- (take_drop (bp_ e') (data_ e')), app_nth1 by (rewrite length_take; lia).
        rewrite Ht', app_nth2 by lia. f_equal. rewrite Ebl, Hpre. cbn. lia. }
      split; [|].
      * rewrite (lastb_nth (deref e :: rest) 0 0) by done.
        apply (proj1 (Forall_nth _ _) Hbyb). cbn. lia.
      * assert (lastb 0 (deref e :: rest) <= 255); [|lia].
        rewrite (lastb_nth (deref e :: rest) 0 0) by done.
        apply (proj1 (Forall_nth _ _) Hbyb). cbn. lia.
  - exists full. rewrite Eseg. split_and!; try done. intros k. rewrite <- Ebody.
    subst body. destruct (Z.eqb_spec B' 0xff) as [->|]; [|done]. apply drop_ff. by rewrite Ebody.
Qed.

Lemma terminate_closes pre B0 pterm fin B L A s e : ready pre B0 fin B L A s e ->
  0x8000 <= A < 0x10000 -> closes pre B0 fin B L A s e (terminate pterm e).
Proof. destruct pterm; [apply erterm_at|apply flush_at]. Qed.

Lemma segment_roundtrip pterm e ds : segment_start e -> ctxs_ok (ctxs_ e) -> decisions_ok ds ->
  let e' := terminate pterm (encode_all e ds) in
  segment_end e e' /\ ctxs_ok (ctxs_ e') /\
  forall bufs, mjoin bufs = segment_bytes (data_ e') (bp_ e) (bp_ e') -> Forall (fun b => b <> []) bufs ->
    (decode_all (init_dec bufs (ctxs_ e)) (ds.*1)).1 = ds.*2 /\
    dctxs (decode_all (init_dec bufs (ctxs_ e)) (ds.*1)).2 = ctxs_ e'.
Proof.
  intros Hstart Hx Hds e'. destruct (start_ready e Hstart) as (pre & Hpre & Hmem & Hready).
  pose proof (ss_byte _ Hstart) as HB0.
  (* the interval left by the decisions does not depend on the buffers *)
  assert (exists fin' B' L' A' s', closes pre (deref e) fin' B' L' A' s' (encode_all e ds) e' /\
    ctxs_ok (ctxs_ e') /\ ctxs_ e' = ctxs_ (encode_all e ds) /\
    forall bufs bs, let full := deref e :: mjoin bufs in
      Forall (fun b => b <> []) bufs -> bytes_ok full -> no_marker_from 0 full -> lastb 0 full <> 0xff ->
      compat bs fin' B' L' A' s' -> (forall k, Mv full k = Mv bs k /\ Pv full k = Pv bs k) ->
      (decode_all (init_dec bufs (ctxs_ e)) (ds.*1)).1 = ds.*2 /\
      dctxs (decode_all (init_dec bufs (ctxs_ e)) (ds.*1)).2 = ctxs_ e')
    as (fin' & B' & L' & A' & s' & Hcl & Hx' & Ex' & Hdec).
  { destruct (encode_range pre (deref e) ds [] (deref e) (deref e * 2 ^ 15) 0x8000 23 e Hready ltac:(lia) Hx Hds)
      as (fin' & B' & L' & A' & s' & He' & HA' & Hx' & _ & Hdec).
    pose proof (terminate_closes _ _ pterm _ _ _ _ _ _ He' HA') as Hcl. fold e' in Hcl.
    assert (ctxs_ e' = ctxs_ (encode_all e ds)) as Ex' by (destruct Hcl as (? & ? & Hcl); apply Hcl).
    exists fin', B', L', A', s'. rewrite Ex'. split_and!; try done.
    intros bufs bs full Hbufs Hby Hn Hl Hc Hsame.
    destruct (init_dec_at bufs (deref e) Hbufs Hby Hn Hl HB0 (ctxs_ e)) as (Hd & Ea & Edx).
    destruct (Hdec bufs bs _ 3%nat Hbufs Hn Hl Hc Hsame Hd Ea Edx) as (? & ? & _). done. }
  destruct (closes_end e pre fin' B' L' A' s' (encode_all e ds) e') as (Hend & bs & Hc & Hf); try done.
  split_and!; try done. intros bufs Hj Hbufs. cbv zeta in Hf. rewrite <- Hj in Hf.
  destruct Hf as (H1 & H2 & H3 & H4). by apply (Hdec bufs bs).
Qed.

Lemma restart_start e e' : segment_end e e' -> segment_start (restart_init_enc e').
Proof.
  intros [Hbp _ _ _ Hl]. unfold restart_init_enc.
  set (e1 := set_bp _ _). assert (deref e1 = byte_at e' (pred (bp_ e'))) as Ed by done.
  rewrite Ed, (proj2 (Z.eqb_neq _ _)) by lia. split; try done; cbn; lia.
Qed.

Lemma restart_kept e : ctxs_ (restart_init_enc e) = ctxs_ e /\ data_ (restart_init_enc e) = data_ e /\
  bp_ (restart_init_enc e) = pred (bp_ e).
Proof. unfold restart_init_enc. by destruct (_ =? _). Qed.

Lemma init_start b data ctxs : 0 <= b < 0xff -> segment_start (init_enc (b :: data) ctxs).
Proof. intros Hb. split; try done; cbn; lia. Qed.

Lemma segment_bytes_take data b0 b1 : segment_bytes data b0 b1 = drop (S b0) (take b1 data).
Proof.
  unfold segment_bytes. rewrite take_drop_commute.
  destruct (Nat.le_gt_cases (S b0) b1).
  - by replace (S b0 + (b1 - b0 - 1))%nat with b1 by lia.
  - rewrite !drop_ge; [done|rewrite length_take; lia..].
Qed.

(** A marker code is 0xFF followed by a byte above 0x8F; a segment may not end with
    0xFF either. *)
Definition marker_free (bs : list Z) : Prop :=
  forall i, bs !! i = Some 0xff -> exists b, bs !! S i = Some b /\ b <= 0x8f.

Lemma segment_marker_free e e' : segment_end e e' ->
  marker_free (segment_bytes (data_ e') (bp_ e) (bp_ e')).
Proof.
  intros [Hbp _ Hby Hn Hl] i Hi. set (bs := segment_bytes _ _ _) in *.
  assert (length bs = bp_ e' - bp_ e - 1)%nat as Elen.
  { unfold bs, segment_bytes. rewrite length_take, length_drop. lia. }
  pose proof (lookup_lt_Some _ _ _ Hi) as Hlt.
  destruct (Nat.lt_ge_cases (S i) (length bs)) as [HS|HS].
  - destruct (lookup_lt_is_Some_2 bs (S i) HS) as [b Hb]. exists b. split; [done|].
    rewrite <- (nth_lookup_Some bs (S i) 0 b Hb). apply (no_marker_nth (deref e) bs i 0 Hn HS).
    by apply nth_lookup_Some.
  - exfalso. unfold byte_at in Hl.
    assert (nth (pred (bp_ e')) (data_ e') 0 = 0xff) as E; [|rewrite E in Hl; lia].
    apply nth_lookup_Some. unfold bs, segment_bytes in Hi.
    rewrite lookup_take_lt, lookup_drop in Hi by lia. rewrite <- Hi. f_equal. lia.
Qed.

Definition segs_ok (segs : list (bool * list (nat * Z))) : Prop :=
  Forall (fun s => decisions_ok s.2) segs.

Definition seg_contexts (segs : list (bool * list (nat * Z))) : list (list nat) :=
  (fun s : bool * list (nat * Z) => s.2.*1) <$> segs.
Definition seg_bits (segs : list (bool * list (nat * Z))) : list (list Z) :=
  (fun s : bool * list (nat * Z) => s.2.*2) <$> segs.
(** [bufss] are the segments [bss], each cut into buffers, none empty. *)
Definition buffers_of (bufss : list (list (list Z))) (bss : list (list Z)) : Prop :=
  (fun bufs : list (list Z) => mjoin bufs) <$> bufss = bss /\ Forall (Forall (fun b => b <> [])) bufss.

(** The segments one after the other: what is written for one is not touched by
    those after it. *)
Lemma code_segments_at segs : forall e, segment_start e -> ctxs_ok (ctxs_ e) -> segs_ok segs ->
  let '(ends, e') := code_segments e segs in
  take (S (bp_ e)) (data_ e') = take (S (bp_ e)) (data_ e) /\
  Forall (fun bs => bytes_ok bs /\ marker_free bs) (cut_segments (data_ e') (bp_ e) ends) /\
  forall bufss, buffers_of bufss (cut_segments (data_ e') (bp_ e) ends) ->
    decode_segments (ctxs_ e) (zip bufss (seg_contexts segs)) =
      (seg_bits segs, ctxs_ e').
Proof.
  induction segs as [|[pterm ds] segs IH]; intros e Hstart Hx Hok; cbn [code_segments].
  { split_and!; [done|constructor|]. by intros [|bufs bufss] [? _]. }
  apply list.Forall_cons in Hok as [Hds Hok]. cbn [snd] in Hds.
  destruct (segment_roundtrip pterm e ds Hstart Hx Hds) as (Hend & Hx1 & Hdec).
  set (e1 := terminate pterm (encode_all e ds)) in *. destruct (restart_kept e1) as (Ex & Ed & Eb).
  specialize (IH (restart_init_enc e1) (restart_start e e1 Hend)). rewrite Ex, Ed, Eb in IH.
  specialize (IH Hx1 Hok). destruct (code_segments (restart_init_enc e1) segs) as [ends e2].
  destruct IH as (Hk & Hm & Hd2). destruct Hend as [Hbp Hkept Hby Hn Hl].
  replace (S (pred (bp_ e1))) with (bp_ e1) in Hk by lia.
  assert (segment_bytes (data_ e2) (bp_ e) (bp_ e1) = segment_bytes (data_ e1) (bp_ e) (bp_ e1)) as Eseg
    by (by rewrite !segment_bytes_take, Hk).
  cbn [cut_segments]. rewrite Eseg. split_and!.
  - rewrite <- Hkept. transitivity (take (S (bp_ e)) (take (bp_ e1) (data_ e2))).
    { rewrite take_take. f_equal. lia. } rewrite Hk, take_take. f_equal. lia.
  - constructor; [|done]. split; [done|]. by apply segment_marker_free.
  - intros [|bufs bufss] [Hj Hne]; [done|]. cbn in Hj. injection Hj as Hj1 Hj2.
    apply list.Forall_cons in Hne as [Hne1 Hne2].
    destruct (Hdec bufs Hj1 Hne1) as [H1 H2]. unfold seg_contexts, seg_bits. cbn [fmap list_fmap zip zip_with decode_segments fst snd].
    destruct (decode_all (init_dec bufs (ctxs_ e)) (ds.*1)) as [bits d]. cbn [fst snd] in *. subst bits.
    rewrite H2. specialize (Hd2 bufss (conj Hj2 Hne2)).
    unfold seg_contexts, seg_bits in Hd2. by rewrite Hd2.
Qed.

(** C6: The MQ coder loses nothing: whatever decisions are coded in whatever contexts,
    segment after segment, each ended by flushing or by predictable termination, the
    bytes of the segments, handed to the decoder cut into buffers anywhere, decode to
    the decisions, and the context states of decoder and encoder agree at the end. *)
Theorem mq_segments_roundtrip e segs bufss :
  segment_start e -> ctxs_ok (ctxs_ e) -> segs_ok segs ->
  let '(ends, e') := code_segments e segs in
  buffers_of bufss (cut_segments (data_ e') (bp_ e) ends) ->
  decode_segments (ctxs_ e) (zip bufss (seg_contexts segs)) =
    (seg_bits segs, ctxs_ e').
Proof.
  intros Hs Hx Hok. pose proof (code_segments_at segs e Hs Hx Hok) as H.
  destruct (code_segments e segs) as [ends e']. apply H.
Qed.

Definition example_segs : list (bool * list (nat * Z)) :=
  [(false, [(0%nat, 1); (3%nat, 0); (18%nat, 1); (0%nat, 0); (0%nat, 1)]);
   (true, mjoin (replicate 12 [(17%nat, 1); (18%nat, 1); (0%nat, 0); (5%nat, 1)]))].
Definition example_bufss : list (list (list Z)) :=
  let '(ends, e') := code_segments (init_enc [0] resetstates) example_segs in
  (fun bs : list Z => (fun b : Z => [b]) <$> bs) <$> cut_segments (data_ e') 0 ends.

Lemma decisions_okb ds :
  forallb (fun x : nat * Z => (x.1 <? MQC_NUMCTXS)%nat && ((x.2 =? 0) || (x.2 =? 1))) ds = true -> decisions_ok ds.
Proof.
  intros H. apply Forall_forall. intros [ctx b] Hin.
  apply (proj1 (forallb_forall _ _) H) in Hin. cbn [fst snd] in Hin.
  rewrite andb_true_iff, orb_true_iff, Nat.ltb_lt, !Z.eqb_eq in Hin. exact Hin.
Qed.

Lemma reset_ok : ctxs_ok resetstates.
Proof. split; [done|]. apply (bool_decide_eq_true_1 (Forall (fun i => (i < 94)%nat) resetstates)). vm_compute. reflexivity. Qed.

Lemma example_ok : let e := init_enc [0] resetstates in
  segment_start e /\ ctxs_ok (ctxs_ e) /\ segs_ok example_segs.
Proof.
  split_and!; [apply init_start; lia|exact reset_ok|].
  apply Forall_cons_2; [|apply Forall_cons_2; [|constructor]]; apply decisions_okb; vm_compute; reflexivity.
Qed.

Lemma mq_segments_roundtrip_witness :
  let e := init_enc [0] resetstates in
  let '(ends, e') := code_segments e example_segs in
  buffers_of example_bufss (cut_segments (data_ e') (bp_ e) ends) /\
  decode_segments (ctxs_ e) (zip example_bufss (seg_contexts example_segs)) =
    (seg_bits example_segs, ctxs_ e').
Proof.
  destruct example_ok as (H1 & H2 & H3).
  pose proof (mq_segments_roundtrip (init_enc [0] resetstates) example_segs example_bufss H1 H2 H3) as H.
  cbv zeta. destruct (code_segments (init_enc [0] resetstates) example_segs) as [ends e'] eqn:E.
  assert (buffers_of example_bufss (cut_segments (data_ e') (bp_ (init_enc [0] resetstates)) ends)) as Hb.
  { vm_compute in E. injection E as <- <-. split; vm_compute; [reflexivity|repeat constructor; discriminate]. }
  split; [exact Hb|exact (H Hb)].
Defined.

(** C15: No segment contains a marker code: its bytes are bytes, every 0xFF is followed by
    a byte of at most 0x8F, and none ends with 0xFF, so that segments can be
    concatenated. *)
Theorem mq_segments_marker_free e segs :
  segment_start e -> ctxs_ok (ctxs_ e) -> segs_ok segs ->
  let '(ends, e') := code_segments e segs in
  Forall (fun bs => bytes_ok bs /\ marker_free bs) (cut_segments (data_ e') (bp_ e) ends).
Proof.
  intros Hs Hx Hok. pose proof (code_segments_at segs e Hs Hx Hok) as H.
  destruct (code_segments e segs) as [ends e']. apply H.
Qed.

Lemma mq_segments_marker_free_witness :
  let e := init_enc [0] resetstates in
  segs_ok example_segs /\
  let '(ends, e') := code_segments e example_segs in
  Forall (fun bs => bytes_ok bs /\ marker_free bs) (cut_segments (data_ e') (bp_ e) ends).
Proof.
  destruct example_ok as (H1 & H2 & H3). split; [exact H3|].
  exact (mq_segments_marker_free (init_enc [0] resetstates) example_segs H1 H2 H3).
Defined.
