(* ===== verification/BypassRoundTrip.v ===== *)
(** Raw (bypass) coding: [bypass_init_enc], [mqc_bypass_enc_macro] and
    [bypass_flush_enc] write bits into bytes with a stuffed 0 after 0xFF and leave
    trailing 1 bits out; [DEC_SYMBOL_RAW] reads them back, with 1 bits past the end. *)
From S2P Require Import Prelude MQCoder MQInterval MQRoundTrip.

(** ** Bits of bytes *)

Definition zbit (x : Z) (i : nat) : Z := Z.land (Z.shiftr x (Z.of_nat i)) 1.

(** The [w] low bits of a byte, the most significant first. *)
Fixpoint byte_bits (w : nat) (x : Z) : list Z :=
  match w with O => [] | S w => zbit x w :: byte_bits w x end.

(** The number of a list of bits. *)
Definition bval (p : list Z) : Z := foldl (fun v b => 2 * v + b) 0 p.

Definition bits_ok (p : list Z) : Prop := Forall (fun b => b = 0 \/ b = 1) p.

Lemma foldl_bval p v : foldl (fun v b => 2 * v + b) v p = v * 2 ^ Z.of_nat (length p) + bval p.
Proof.
  revert v. induction p as [|b p IH] using rev_ind; intros v; [cbn; lia|].
  unfold bval. rewrite !foldl_app. cbn. rewrite IH. fold (bval p). rewrite length_app. cbn.
  replace (Z.of_nat (length p + 1)) with (Z.succ (Z.of_nat (length p))) by lia.
  rewrite Z.pow_succ_r by lia. unfold bval. lia.
Qed.

Lemma bval_snoc p b : bval (p ++ [b]) = 2 * bval p + b.
Proof. unfold bval. by rewrite foldl_app. Qed.
Lemma bval_cons b p : bval (b :: p) = b * 2 ^ Z.of_nat (length p) + bval p.
Proof. unfold bval. cbn. rewrite foldl_bval. destruct b; done. Qed.

Lemma bval_range p : bits_ok p -> 0 <= bval p < 2 ^ Z.of_nat (length p).
Proof.
  induction p as [|b p IH]; [cbn; lia|]. intros [Hb Hp]%list.Forall_cons. specialize (IH Hp).
  rewrite bval_cons. cbn [length]. rewrite Nat2Z.inj_succ, Z.pow_succ_r by lia. destruct Hb as [-> | ->]; lia.
Qed.

Lemma zbit_range x i : zbit x i = 0 \/ zbit x i = 1.
Proof. unfold zbit. rewrite b2z_testbit by lia. destruct (Z.testbit x _); auto. Qed.

Lemma bits_of_mod k x y : x mod 2 ^ Z.of_nat k = y mod 2 ^ Z.of_nat k -> byte_bits k x = byte_bits k y.
Proof.
  assert (forall j, (j <= k)%nat -> x mod 2 ^ Z.of_nat k = y mod 2 ^ Z.of_nat k -> byte_bits j x = byte_bits j y) as H;
    [|by apply H].
  induction j as [|j IH]; intros Hj E; [done|]. cbn [byte_bits]. rewrite IH by (done || lia). f_equal.
  unfold zbit. rewrite !b2z_testbit by lia. f_equal.
  rewrite <- (Z.mod_pow2_bits_low x (Z.of_nat k)), <- (Z.mod_pow2_bits_low y (Z.of_nat k)) by lia. by rewrite E.
Qed.

Lemma length_byte_bits w x : length (byte_bits w x) = w.
Proof. induction w as [|w IH]; [done|]. cbn. by rewrite IH. Qed.

(** The bits of a number that begins with the bits [p]. *)
Lemma bits_of_prefix p w r : bits_ok p -> 0 <= r < 2 ^ Z.of_nat w ->
  byte_bits (length p + w) (bval p * 2 ^ Z.of_nat w + r) = p ++ byte_bits w r.
Proof.
  intros Hp Hr. induction p as [|b p IH]; [done|]. apply list.Forall_cons in Hp as [Hb Hp].
  cbn [length Nat.add byte_bits app]. pose proof (bval_range p Hp) as Hv. rewrite bval_cons.
  set (k := (length p + w)%nat). set (Y := bval p * 2 ^ Z.of_nat w + r).
  assert (2 ^ Z.of_nat k = 2 ^ Z.of_nat (length p) * 2 ^ Z.of_nat w) as Ek
    by (rewrite <- Z.pow_add_r by lia; f_equal; lia).
  assert (0 <= Y < 2 ^ Z.of_nat k) as HY by (unfold Y; nia).
  replace ((b * 2 ^ Z.of_nat (length p) + bval p) * 2 ^ Z.of_nat w + r) with (Y + b * 2 ^ Z.of_nat k)
    by (unfold Y; rewrite Ek; ring).
  f_equal.
  - unfold zbit. rewrite Z.shiftr_div_pow2, Z.div_add, Z.div_small by lia. destruct Hb as [-> | ->]; done.
  - rewrite <- IH by done. apply bits_of_mod. apply Z.mod_add. lia.
Qed.

(** ** Reading *)

(** The next [n] bits when the last byte read is [c], [ct] of its bits are left and
    the bytes [l] follow. *)
Definition raw_byte (c : Z) (l : list Z) : Z * Z * list Z :=
  match l with
  | [] => (0xff, 8, [])
  | x :: l' =>
      if c =? 0xff then (if 0x8f <? x then (0xff, 8, l) else (x, 7, l')) else (x, 8, l')
  end.
Fixpoint raw_stream (n : nat) (c ct : Z) (l : list Z) : list Z :=
  match n with
  | O => []
  | S n =>
      let '(c, ct, l) := if ct =? 0 then raw_byte c l else (c, ct, l) in
      Z.land (Z.shiftr c (ct - 1)) 1 :: raw_stream n c (ct - 1) l
  end.

Section reader.
Context (bufs : list (list Z)) (Hbufs : Forall (fun b => b <> []) bufs) (Hby : bytes_ok (mjoin bufs)).

(** The bytes left for a decoder; past the end [bp] may stand one byte further. *)
Definition raw_rest (d : mqdec) (l : list Z) : Prop :=
  (exists p, dec_pos bufs d p /\ l = drop p (mjoin bufs)) \/
  (l = [] /\ dbufs d = bufs /\ (dend d <= dbp d)%nat /\ (length bufs <= didx d + 1)%nat).

Lemma raw_rest_reg d l c a ct : raw_rest d l -> raw_rest (set_reg c a ct d) l.
Proof. done. Qed.

Lemma raw_past d p : dec_pos bufs d p -> (length (mjoin bufs) <= p)%nat ->
  dbufs d = bufs /\ (dend d <= dbp d)%nat /\ (length bufs <= didx d + 1)%nat.
Proof.
  intros (Eb & Ep & Hle & Hi & Hn) Hge. split; [done|].
  assert (dend d = length (nth (didx d) bufs [])) as Ee by (unfold dend, buf_at; by rewrite Eb).
  destruct (decide (bufs = [])) as [E|E].
  { rewrite Ee, (Hn E). rewrite E. cbn. lia. }
  specialize (Hi E). pose proof (join_split bufs (didx d) Hi) as Hs.
  rewrite Hs, !length_app in Hge. split; [lia|].
  destruct (Nat.le_gt_cases (length bufs) (didx d + 1)) as [|Hmore]; [done|]. exfalso.
  pose proof (buf_nonempty bufs Hbufs (didx d + 1) Hmore).
  pose proof (join_split bufs (didx d + 1) Hmore) as Hs2.
  rewrite Nat.add_1_r in *. rewrite Hs in Hs2. apply (f_equal length) in Hs2.
  rewrite !length_app, (join_take_S bufs (didx d)) in Hs2 by lia. lia.
Qed.

Lemma raw_fetch d l : raw_rest d l ->
  (fetch_cur d).1 = default 0xff (head l) /\ raw_rest (fetch_cur d).2 l /\
  raw_rest (set_pos (didx (fetch_cur d).2) (dbp (fetch_cur d).2 + 1) (fetch_cur d).2) (tail l) /\
  dc (fetch_cur d).2 = dc d /\ da (fetch_cur d).2 = da d /\ dct (fetch_cur d).2 = dct d.
Proof.
  intros [(p & Hp & ->)|(-> & Eb & Hend & Hno)].
  - destruct (fetch_cur_at bufs Hbufs d p Hp) as (E1 & Hp1 & Hin & (i & o & E2)).
    pose proof (pos_le bufs Hbufs d p Hp) as Hple.
    destruct (fetch_cur d) as [cur d1]. cbn [fst snd] in *. subst d1. split_and!; try done.
    + rewrite E1. unfold Bv. destruct (Nat.lt_ge_cases p (length (mjoin bufs))) as [Hl|Hl].
      * destruct (lookup_lt_is_Some_2 (mjoin bufs) p Hl) as [x Hx]. rewrite (drop_S _ _ _ Hx). cbn.
        by apply nth_lookup_Some.
      * by rewrite nth_overflow, drop_ge by lia.
    + left. eauto.
    + destruct (Nat.lt_ge_cases p (length (mjoin bufs))) as [Hl|Hl].
      * left. exists (S p). specialize (Hin Hl). split.
        -- destruct Hp1 as (? & ? & ? & ? & ?). split_and!; cbn in *; try done; try lia.
        -- destruct (lookup_lt_is_Some_2 (mjoin bufs) p Hl) as [x Hx]. by rewrite (drop_S _ _ _ Hx).
      * right. rewrite drop_ge by lia. destruct (raw_past _ p Hp1 ltac:(lia)) as (H1 & H2 & H3).
        split_and!; try done. cbn. unfold dend, buf_at in *. cbn in *. lia.
  - unfold fetch_cur. rewrite (proj2 (Nat.leb_le _ _) Hend), Eb, (proj2 (Nat.ltb_ge _ _) Hno). cbn [fst snd].
    split_and!; try done; right; split_and!; try done. cbn. unfold dend, buf_at in *. cbn. lia.
Qed.
(** [DEC_SYMBOL_RAW] over the buffers reads the stream. *)
Lemma raw_decode_stream n : forall d l, raw_rest d l -> bytes_ok l -> 0 <= dct d <= 8 -> 0 <= dc d <= 255 ->
  (raw_decode_all d n).1 = raw_stream n (dc d) (dct d) l.
Proof.
  induction n as [|n IH]; intros d l Hl Hok Hct Hc; [done|].
  cbn [raw_decode_all raw_stream].
  assert (exists d1 l1, raw_rest d1 l1 /\ bytes_ok l1 /\ 1 <= dct d1 <= 8 /\ 0 <= dc d1 <= 255 /\
    (if dct d =? 0 then raw_byte (dc d) l else (dc d, dct d, l)) = (dc d1, dct d1, l1) /\
    DEC_SYMBOL_RAW d = (Z.land (Z.shiftr (u8 (dc d1)) (u8 (dct d1 - 1))) 1, set_reg (dc d1) (da d1) (u8 (dct d1 - 1)) d1))
    as (d1 & l1 & Hl1 & Hok1 & Hct1 & Hc1 & -> & ->).
  { unfold DEC_SYMBOL_RAW. destruct (Z.eqb_spec (dct d) 0) as [E0|E0].
    2: { exists d, l. split_and!; try done; lia. }
    destruct (raw_fetch d l Hl) as (Ecur & Hr1 & Hr2 & Ec & Ea & Et).
    destruct (fetch_cur d) as [cur d1]. cbn [fst snd] in *. rewrite Ec.
    destruct l as [|x l]; cbn [head tail default] in *.
    - assert (cur = 0xff) as -> by done. cbn [raw_byte].
      destruct (dc d =? 0xff).
      + exists (set_reg 0xff (da d1) 8 d1), []. split_and!; try done.
      + eexists (set_reg 0xff (da d1) 8 (set_pos (didx d1) (dbp d1 + 1) d1)), []. split_and!; try done.
    - assert (cur = x) as -> by done. apply list.Forall_cons in Hok as [Hx Hok]. cbn [raw_byte].
      destruct (dc d =? 0xff); [destruct (0x8f <? x)|].
      + exists (set_reg 0xff (da d1) 8 d1), (x :: l). split_and!; try done. by constructor.
      + exists (set_reg x (da d1) 7 (set_pos (didx d1) (dbp d1 + 1) d1)), l. split_and!; try done; cbn; lia.
      + exists (set_reg x (da d1) 8 (set_pos (didx d1) (dbp d1 + 1) d1)), l. split_and!; try done; cbn; lia. }
  rewrite !(wrap_small 8) by grk_lia. set (d2 := set_reg _ _ _ _).
  specialize (IH d2 l1 (raw_rest_reg _ _ _ _ _ Hl1) Hok1). cbn [d2 dct dc set_reg] in IH.
  rewrite <- IH by lia. destruct (raw_decode_all d2 n) as [vs d3]. done.
Qed.
End reader.

(** ** The stream of a list of bytes *)

(** The bits of bytes written with a 0 stuffed after 0xFF. *)
Definition wdn (b : Z) : nat := Z.to_nat (wd b).
Fixpoint unpack (c : Z) (l : list Z) : list Z :=
  match l with [] => [] | x :: l => byte_bits (wdn c) x ++ unpack x l end.
Fixpoint stuffed (c : Z) (l : list Z) : Prop :=
  match l with [] => True | x :: l => (0 <= x <= 255 /\ (c = 0xff -> x <= 0x7f)) /\ stuffed x l end.

Lemma unpack_snoc c l x : unpack c (l ++ [x]) = unpack c l ++ byte_bits (wdn (lastb c l)) x.
Proof. revert c. induction l as [|y l IH]; intros c; cbn; [by rewrite app_nil_r|]. by rewrite IH, app_assoc. Qed.

Lemma stuffed_snoc c l x : stuffed c (l ++ [x]) <->
  stuffed c l /\ 0 <= x <= 255 /\ (lastb c l = 0xff -> x <= 0x7f).
Proof. revert c. induction l as [|y l IH]; intros c; cbn; [tauto|]. rewrite IH. tauto. Qed.

(** Bits still in the register. *)
Lemma stream_bits k n c t l : (k <= t)%nat ->
  raw_stream (k + n) c (Z.of_nat t) l =
  take k (byte_bits t c) ++ raw_stream n c (Z.of_nat (t - k)) l.
Proof.
  revert t. induction k as [|k IH]; intros t Ht; [by rewrite Nat.sub_0_r|].
  destruct t as [|t]; [lia|]. cbn [Nat.add raw_stream byte_bits take app].
  rewrite (proj2 (Z.eqb_neq _ _)) by lia. replace (Z.of_nat (S t) - 1) with (Z.of_nat t) by lia.
  rewrite IH by lia. done.
Qed.

Lemma stream_byte k n c x l : (c = 0xff -> x <= 0x7f) -> (k <= wdn c)%nat ->
  raw_stream (k + n) c 0 (x :: l) =
    take k (byte_bits (wdn c) x) ++ raw_stream n x (Z.of_nat (wdn c - k)) l \/ k = 0%nat.
Proof.
  intros Hff Hk. destruct k as [|k]; [by right|left].
  rewrite <- stream_bits by done. cbn [Nat.add raw_stream Z.eqb raw_byte]. unfold wdn, wd in *.
  destruct (Z.eqb_spec c 0xff) as [E|E].
  - specialize (Hff E). rewrite (proj2 (Z.ltb_ge _ _)) by lia. done.
  - done.
Qed.

Lemma stream_unpack l n c tl : stuffed c l ->
  raw_stream (length (unpack c l) + n) c 0 (l ++ tl) = unpack c l ++ raw_stream n (lastb c l) 0 tl.
Proof.
  revert c. induction l as [|x l IH]; intros c Hs; [done|]. cbn [unpack app lastb].
  rewrite length_app, length_byte_bits, <- Nat.add_assoc.
  destruct (stream_byte (wdn c) (length (unpack x l) + n) c x (l ++ tl)) as [-> | E].
  - apply Hs.
  - done.
  - rewrite take_ge by (rewrite length_byte_bits; done). rewrite Nat.sub_diag.
    change (Z.of_nat 0) with 0. rewrite IH by apply Hs. by rewrite app_assoc.
  - exfalso. unfold wdn in E. pose proof (wd_range c). lia.
Qed.

(** Past the end every bit is 1. *)
Lemma stream_end n c t : (c = 0xff /\ 0 <= t <= 8) \/ t = 0 -> raw_stream n c t [] = replicate n 1.
Proof.
  revert c t. induction n as [|n IH]; intros c t Ht; [done|]. cbn [raw_stream raw_byte replicate].
  assert (exists t', 1 <= t' <= 8 /\ (if t =? 0 then (0xff, 8, []) else (c, t, [])) = (0xff, t', [] : list Z)) as (t' & Ht' & ->).
  { destruct (Z.eqb_spec t 0); [exists 8; split; [lia|done]|]. destruct Ht as [[-> Ht]|Ht]; [|lia].
    exists t. split; [lia|done]. }
  rewrite IH by (left; lia). f_equal. rewrite b2z_testbit by lia.
  assert (t' - 1 = 0 \/ t' - 1 = 1 \/ t' - 1 = 2 \/ t' - 1 = 3 \/ t' - 1 = 4 \/ t' - 1 = 5 \/ t' - 1 = 6 \/ t' - 1 = 7) as H by lia.
  by repeat destruct H as [-> | H]; [..|rewrite H].
Qed.

(** ** Writing *)

(** The writer has filled the bytes [out] after [pre] and holds the bits [p]. *)
Record raw_at (pre out p : list Z) (e : mqenc) : Prop := RawAt {
  ra_mem : take (bp_ e) (data_ e) = pre ++ out;
  ra_len : (bp_ e <= length (data_ e))%nat;
  ra_stuffed : stuffed 0 out;
  ra_bits : bits_ok p;
  ra_ct : (ct_ e = BYPASS_CT_INIT /\ out = [] /\ p = []) \/
          ct_ e = wd (lastb 0 out) - Z.of_nat (length p) /\ (out <> [] \/ p <> []);
  ra_room : Z.of_nat (length p) < wd (lastb 0 out);
  ra_c : c_ e = bval p * 2 ^ (wd (lastb 0 out) - Z.of_nat (length p));
}.

Lemma raw_c_range w (p : list Z) : bits_ok p -> Z.of_nat (length p) < w -> w <= 8 ->
  0 <= bval p * 2 ^ (w - Z.of_nat (length p)) /\
  bval p * 2 ^ (w - Z.of_nat (length p)) + 2 ^ (w - Z.of_nat (length p)) <= 2 ^ w.
Proof.
  intros Hp Hl Hw. pose proof (bval_range p Hp).
  assert (2 ^ w = 2 ^ Z.of_nat (length p) * 2 ^ (w - Z.of_nat (length p))) as E by (rewrite <- Z.pow_add_r by lia; f_equal; lia).
  assert (0 < 2 ^ (w - Z.of_nat (length p))) by lia. rewrite E. nia.
Qed.

Lemma bypass_enc_at pre out p e d : raw_at pre out p e -> (d = 0 \/ d = 1) ->
  exists out' p', raw_at pre out' p' (mqc_bypass_enc d e) /\
    unpack 0 out' ++ p' = unpack 0 out ++ p ++ [d].
Proof.
  intros [Hmem Hlen Hst Hp Hct Hroom Hc] Hd.
  set (w := wd (lastb 0 out)) in *. set (n := Z.of_nat (length p)) in *.
  pose proof (wd_range (lastb 0 out)) as Hw. fold w in Hw.
  assert (bits_ok (p ++ [d])) as Hpd by (apply Forall_app_2; [done|by constructor]).
  assert (Z.of_nat (length (p ++ [d])) = n + 1) as Elen by (rewrite length_app; cbn; lia).
  pose proof (raw_c_range w p Hp Hroom ltac:(lia)) as Hcr. fold n in Hcr.
  assert (2 ^ w <= 2 ^ 8) as Hw8 by (apply Z.pow_le_mono_r; lia). change (2 ^ 8) with 256 in Hw8.
  assert (2 ^ (w - n) = 2 * 2 ^ (w - n - 1)) as Ehalf by (rewrite <- Z.pow_succ_r by lia; f_equal; lia).
  assert (c_ e + d * 2 ^ (w - n - 1) = bval (p ++ [d]) * 2 ^ (w - n - 1)) as Ec.
  { rewrite Hc, bval_snoc, Ehalf. ring. }
  unfold mqc_bypass_enc.
  set (e1 := if ct_ e =? BYPASS_CT_INIT then set_ct 8 e else e).
  assert (ct_ e1 = w - n /\ c_ e1 = c_ e /\ bp_ e1 = bp_ e /\ data_ e1 = data_ e) as (E1 & E2 & E3 & E4).
  { unfold e1, BYPASS_CT_INIT in *. destruct Hct as [(Hi & Ho & Hp0)|[Hi _]].
    - rewrite Hi. subst out p. done.
    - rewrite (proj2 (Z.eqb_neq (ct_ e) 255)) by lia. done. }
  clearbody e1. cbn [c_ ct_ set_c set_ct].
  rewrite (wrap_small 8) by grk_lia. rewrite E1, E2.
  rewrite Z.shiftl_mul_pow2, Ec by lia.
  assert (0 < 2 ^ (w - n - 1)) by lia.
  rewrite u32_small by (rewrite <- Ec, Hc; destruct Hd as [-> | ->]; grk_lia).
  destruct (Z.eqb_spec (w - n - 1) 0) as [E0|E0].
  - set (x := bval (p ++ [d])). rewrite E0, Z.mul_1_r. fold x.
    assert (0 <= x < 2 ^ w) as Hx.
    { unfold x. replace w with (Z.of_nat (length (p ++ [d]))) by lia. by apply bval_range. }
    rewrite (wrap_small 8) by grk_lia.
    set (e2 := store x _).
    assert (deref e2 = x) as Edr.
    { unfold deref, byte_at, e2. cbn [data_ bp_ store set_c set_ct]. rewrite E3, E4.
      apply (take_last _ (take (bp_ e) (data_ e))); [apply take_write; lia|rewrite length_write; lia]. }
    exists (out ++ [x]), [].
    change (deref (set_ct 8 e2)) with (deref e2). rewrite Edr. split.
    + split; cbn [length]; rewrite ?lastb_snoc.
      * assert (forall b : bool, bp_ (set_c 0 (set_bp (S (bp_ (if b then set_ct 7 (set_ct 8 e2) else set_ct 8 e2))) (if b then set_ct 7 (set_ct 8 e2) else set_ct 8 e2))) = S (bp_ e) /\ data_ (if b then set_ct 7 (set_ct 8 e2) else set_ct 8 e2) = write_byte (data_ e) (bp_ e) x) as Hb
          by (intros []; cbn; rewrite E3, E4; done).
        destruct (Hb (x =? 0xff)) as [Hb1 Hb2]. rewrite Hb1. cbn [data_ set_c set_bp]. rewrite Hb2.
        rewrite take_write by lia. by rewrite Hmem, app_assoc.
      * destruct (x =? 0xff); cbn; rewrite E3, E4, length_write by lia; lia.
      * apply stuffed_snoc. split_and!; [done|lia|lia|]. intros Hff. unfold w, wd in Hx. rewrite Hff in Hx. cbn in Hx. lia.
      * constructor.
      * right. split; [unfold wd; by destruct (x =? 0xff)|left; by destruct out].
      * pose proof (wd_range x). lia.
      * by destruct (x =? 0xff).
    + rewrite unpack_snoc, app_nil_r. f_equal. unfold wdn. fold w.
      pose proof (bits_of_prefix (p ++ [d]) 0 0 Hpd ltac:(cbn; lia)) as Hb.
      rewrite Nat.add_0_r in Hb. cbn [byte_bits Z.of_nat] in Hb. rewrite app_nil_r, Z.mul_1_r, Z.add_0_r in Hb.
      replace (Z.to_nat w) with (length (p ++ [d])) by lia. exact Hb.
  - exists out, (p ++ [d]). split; [|done]. split; fold w; rewrite ?Elen; cbn [bp_ data_ ct_ c_ set_c set_ct]; rewrite ?E3, ?E4; try done; try lia.
    { right. split; [lia|right; by destruct p]. }
    by replace (w - (n + 1)) with (w - n - 1) by lia.
Qed.

Lemma bypass_pad_at fuel b e : (b = 0 \/ b = 1) -> 0 <= ct_ e <= Z.of_nat fuel -> (fuel <= 8)%nat ->
  0 <= c_ e <= 255 ->
  exists r, 0 <= r < 2 ^ ct_ e /\ (b = 0 -> 1 <= ct_ e -> r < 2 ^ (ct_ e - 1)) /\
    c_ (bypass_pad fuel b e) = c_ e + r /\ bp_ (bypass_pad fuel b e) = bp_ e /\
    data_ (bypass_pad fuel b e) = data_ e.
Proof.
  intros Hb Hct Hf Hc. 
  assert (forall fuel b e, (b = 0 \/ b = 1) -> 0 <= ct_ e <= Z.of_nat fuel -> ct_ e <= 8 ->
    0 <= c_ e -> c_ e + 2 ^ ct_ e <= 511 -> 
    exists r, 0 <= r < 2 ^ ct_ e /\ (b = 0 -> 1 <= ct_ e -> r < 2 ^ (ct_ e - 1)) /\
    c_ (bypass_pad fuel b e) = c_ e + r /\ bp_ (bypass_pad fuel b e) = bp_ e /\
    data_ (bypass_pad fuel b e) = data_ e) as H.
  { clear. induction fuel as [|fuel IH]; intros b e Hb Hct H8 Hc Hs.
    { exists 0. cbn. split_and!; try lia; done. }
    cbn [bypass_pad]. destruct (Z.ltb_spec 0 (ct_ e)) as [Hp|Hn].
    2: { exists 0. assert (ct_ e = 0) as -> by lia. split_and!; try lia; done. }
    rewrite (wrap_small 8 (ct_ e - 1)) by grk_lia. cbn [ct_ c_ set_ct set_c].
    rewrite Z.shiftl_mul_pow2 by lia.
    assert (2 ^ ct_ e = 2 * 2 ^ (ct_ e - 1)) as E2 by (rewrite <- Z.pow_succ_r by lia; f_equal; lia).
    assert (0 < 2 ^ (ct_ e - 1)) by lia.
    rewrite u32_small by (destruct Hb as [-> | ->]; grk_lia).
    rewrite (wrap_small 8 (1 - b)) by (destruct Hb as [-> | ->]; grk_lia).
    set (e1 := set_c _ _).
    destruct (IH (1 - b) e1) as (r & Hr & _ & E3 & E4 & E5); cbn [e1 ct_ c_ set_ct set_c].
    - destruct Hb as [-> | ->]; auto.
    - lia.
    - lia.
    - destruct Hb as [-> | ->]; lia.
    - destruct Hb as [-> | ->]; lia.
    - cbn [e1 ct_ c_ set_ct set_c] in Hr, E3. exists (b * 2 ^ (ct_ e - 1) + r).
      split_and!; [destruct Hb as [-> | ->]; lia|destruct Hb as [-> | ->]; lia|intros -> _; lia|lia|done|done]. }
  apply H; try done; try lia. assert (2 ^ ct_ e <= 2 ^ 8) by (apply Z.pow_le_mono_r; lia). change (2 ^ 8) with 256 in *. lia.
Qed.

Lemma lastb_app p l1 l2 : lastb p (l1 ++ l2) = lastb (lastb p l1) l2.
Proof. revert p; induction l1 as [|x l IH]; intros p; [done|]. apply IH. Qed.

Lemma lastb_indep p q l : l <> [] -> lastb p l = lastb q l.
Proof. by destruct l. Qed.

Lemma stuffed_bytes c l : stuffed c l -> bytes_ok l.
Proof. revert c; induction l as [|x l IH]; intros c H; [constructor|]. destruct H as [[? _] ?]. constructor; [lia|by eapply IH]. Qed.

Lemma snoc_of {A} (l : list A) : l <> [] -> exists l' x, l = l' ++ [x].
Proof. destruct l as [|x l _] using rev_ind; [done|]. eauto. Qed.

(** The byte before [bp]. *)
Lemma byte_before e l x : take (bp_ e) (data_ e) = l ++ [x] -> (bp_ e <= length (data_ e))%nat ->
  byte_at e (pred (bp_ e)) = x /\ take (pred (bp_ e)) (data_ e) = l /\ bp_ e = S (pred (bp_ e)).
Proof.
  intros H Hl. assert (bp_ e = length (l ++ [x])) as E by (rewrite <- H, length_take; lia).
  rewrite length_app in E. cbn in E. destruct (bp_ e) as [|b]; [lia|]. cbn [pred].
  destruct (take_last (data_ e) l b x H) as [H1 H2]; [lia|]. done.
Qed.

Lemma bits_of_ones w n : (w <= 8)%nat -> 0 <= n -> byte_bits w (n * 2 ^ Z.of_nat w + (2 ^ Z.of_nat w - 1)) = replicate w 1.
Proof.
  intros Hw Hn. rewrite (bits_of_mod w _ (2 ^ Z.of_nat w - 1)) by (rewrite Z.add_comm, Z.mod_add by lia; done).
  do 9 (destruct w as [|w]; [done|]). lia.
Qed.

(** What a flush leaves: the bytes [fin] after [pre] give the bits back, do not end
    with 0xFF and are stuffed. *)
Definition raw_flushed (pre bits : list Z) (e' : mqenc) : Prop :=
  exists fin, take (bp_ e') (data_ e') = pre ++ fin /\ (bp_ e' <= length (data_ e'))%nat /\
    stuffed 0 fin /\ lastb 0 (pre ++ fin) <> 0xff /\
    raw_stream (length bits) 0 0 fin = bits.

Lemma flushed_ones pre out k e e' : take (bp_ e') (data_ e') = pre ++ out ->
  (bp_ e' <= length (data_ e'))%nat -> stuffed 0 out -> lastb 0 (pre ++ out) <> 0xff ->
  data_ e' = data_ e -> raw_flushed pre (unpack 0 out ++ replicate k 1) e'.
Proof.
  intros H1 H2 H3 H4 _. exists out. split_and!; try done.
  rewrite length_app, length_replicate. pose proof (stream_unpack out k 0 [] H3) as H.
  rewrite app_nil_r in H. rewrite H. f_equal. apply stream_end. by right.
Qed.

Lemma lastb_pre pre out : lastb 0 pre <> 0xff -> lastb 0 out <> 0xff -> lastb 0 (pre ++ out) <> 0xff.
Proof. intros H1 H2. rewrite lastb_app. destruct out as [|x out]; [done|]. by rewrite (lastb_indep _ 0). Qed.

(** Pending bits are padded with 0, 1, 0, ... *)
Lemma flush_pending pre out p e : raw_at pre out p e -> ct_ e <> BYPASS_CT_INIT ->
  let e1 := bypass_pad 8 0 e in
  raw_flushed pre (unpack 0 out ++ p) (set_bp (S (bp_ e1)) (store (u8 (c_ e1)) e1)).
Proof.
  intros [Hmem Hlen Hst Hp Hct Hroom Hc] Hinit.
  set (w := wd (lastb 0 out)) in *. set (n := Z.of_nat (length p)) in *.
  pose proof (wd_range (lastb 0 out)) as Hw. fold w in Hw.
  pose proof (raw_c_range w p Hp Hroom ltac:(lia)) as Hcr. fold n in Hcr.
  assert (ct_ e = w - n) as Ect by (by destruct Hct as [(Hi & _)|[? _]]).
  assert (2 ^ w <= 2 ^ 8) as Hw8 by (apply Z.pow_le_mono_r; lia). change (2 ^ 8) with 256 in Hw8.
  assert (0 < 2 ^ (w - n - 1)) as Hpos by lia.
  assert (2 ^ (w - n) = 2 * 2 ^ (w - n - 1)) as Ehalf by (rewrite <- Z.pow_succ_r by lia; f_equal; lia).
  destruct (bypass_pad_at 8 0 e) as (r & Hr & Hr0 & E1 & E2 & E3); [by left|lia|lia|lia|].
  rewrite Ect in Hr, Hr0. specialize (Hr0 eq_refl ltac:(lia)).
  cbv zeta. set (e1 := bypass_pad 8 0 e) in *. rewrite E1, Hc, (wrap_small 8) by grk_lia.
  set (y := bval p * 2 ^ (w - n) + r) in *.
  assert (0 <= y < 2 ^ w) as Hy by lia.
  assert (lastb 0 out = 0xff -> y <= 0x7f) as Hff.
  { intros Hff. unfold w, wd in Hy. rewrite Hff in Hy. cbn in Hy. lia. }
  exists (out ++ [y]). cbn [bp_ data_ set_bp store]. rewrite E2, E3. split_and!.
  - rewrite take_write by lia. by rewrite Hmem, app_assoc.
  - rewrite length_write by lia. lia.
  - apply stuffed_snoc. split_and!; [done|lia|lia|done].
  - (* the first padding bit is 0 *)
    rewrite app_assoc, lastb_snoc. intros Hy255.
    assert (lastb 0 out <> 0xff) as Hno by (intros E; specialize (Hff E); lia).
    assert (w = 8) as Ew by (unfold w, wd; by rewrite (proj2 (Z.eqb_neq _ _) Hno)).
    assert (y < 2 ^ 8 - 2 ^ (w - n - 1)) as Hlt by (rewrite <- Ew; lia).
    change (2 ^ 8) with 256 in Hlt. lia.
  - rewrite length_app, (stream_unpack out (length p) 0 [y] Hst). f_equal.
    destruct (stream_byte (length p) 0 (lastb 0 out) y []) as [Hs|Hs]; [done|unfold wdn; fold w; lia| |by destruct p].
    rewrite Nat.add_0_r in Hs. rewrite Hs. cbn [raw_stream]. rewrite app_nil_r.
    unfold wdn. fold w. replace (Z.to_nat w) with (length p + Z.to_nat (w - n))%nat by lia.
    pose proof (bits_of_prefix p (Z.to_nat (w - n)) r Hp) as Hb. rewrite Z2Nat.id in Hb by lia.
    unfold y. rewrite Hb by done. by rewrite take_app_length.
Qed.

(** A last 0xFF is left out ... *)
Lemma flush_drop_ff pre out e : take (bp_ e) (data_ e) = pre ++ out ++ [0xff] ->
  (bp_ e <= length (data_ e))%nat -> stuffed 0 (out ++ [0xff]) -> lastb 0 pre <> 0xff ->
  raw_flushed pre (unpack 0 (out ++ [0xff])) (set_bp (pred (bp_ e)) e).
Proof.
  intros Hmem Hlen Hst Hpre. rewrite app_assoc in Hmem.
  destruct (byte_before e _ _ Hmem Hlen) as (_ & Et & Ebp).
  apply stuffed_snoc in Hst as (Hst & _ & Hff).
  assert (lastb 0 out <> 0xff) as Hl by (intros E; specialize (Hff E); lia).
  rewrite unpack_snoc. assert (wdn (lastb 0 out) = 8%nat) as -> by (unfold wdn, wd; by rewrite (proj2 (Z.eqb_neq _ _) Hl)).
  apply (flushed_ones pre out 8 e); try done; [cbn; lia|by apply lastb_pre].
Qed.

(** ... and so are a last 0xFF and 0x7F. *)
Lemma flush_drop_ff7f pre out e : take (bp_ e) (data_ e) = pre ++ (out ++ [0xff]) ++ [0x7f] ->
  (bp_ e <= length (data_ e))%nat -> stuffed 0 ((out ++ [0xff]) ++ [0x7f]) -> lastb 0 pre <> 0xff ->
  raw_flushed pre (unpack 0 ((out ++ [0xff]) ++ [0x7f])) (set_bp (pred (pred (bp_ e))) e).
Proof.
  intros Hmem Hlen Hst Hpre. rewrite app_assoc in Hmem.
  destruct (byte_before e _ _ Hmem Hlen) as (_ & Et & Ebp).
  set (e1 := set_bp (pred (bp_ e)) e).
  assert (take (bp_ e1) (data_ e1) = (pre ++ out) ++ [0xff]) as Hmem1 by (by rewrite <- app_assoc).
  destruct (byte_before e1 _ _ Hmem1) as (_ & Et1 & Ebp1); [cbn; lia|].
  apply stuffed_snoc in Hst as (Hst & _ & _). apply stuffed_snoc in Hst as (Hst & _ & Hff).
  assert (lastb 0 out <> 0xff) as Hl by (intros E; specialize (Hff E); lia).
  rewrite unpack_snoc, lastb_snoc, unpack_snoc, <- app_assoc.
  assert (wdn (lastb 0 out) = 8%nat) as -> by (unfold wdn, wd; by rewrite (proj2 (Z.eqb_neq _ _) Hl)).
  apply (flushed_ones pre out 15 e); try done; [cbn in *; lia|by apply lastb_pre].
Qed.

(** The bytes before [bp], seen from its two tests. *)
Lemma raw_tail pre out x y e : take (bp_ e) (data_ e) = pre ++ out -> (bp_ e <= length (data_ e))%nat ->
  pre <> [] -> lastb 0 pre <> 0xff ->
  byte_at e (pred (bp_ e)) = x -> byte_at e (pred (pred (bp_ e))) = y ->
  lastb 0 (pre ++ out) = x /\
  (x = 0xff -> exists out0, out = out0 ++ [0xff]) /\
  (x <> 0 -> out <> [] -> y = 0xff -> exists out0, out = (out0 ++ [0xff]) ++ [x]).
Proof.
  intros Hmem Hlen Hne Hpre Ex Ey.
  destruct (snoc_of (pre ++ out)) as (l & x' & Elx); [by destruct pre|]. rewrite Elx in Hmem.
  destruct (byte_before e l x' Hmem Hlen) as (Ebx & Etl & Ebp). assert (x' = x) as -> by congruence.
  rewrite Elx, lastb_snoc. split; [done|].
  destruct (decide (out = [])) as [->|Ho].
  { split; [|done]. intros ->. rewrite app_nil_r in Elx. by rewrite Elx, lastb_snoc in Hpre. }
  destruct (snoc_of out Ho) as (out1 & x' & ->). rewrite app_assoc in Elx. apply app_inj_tail in Elx as [<- ->].
  split; [intros ->; by eexists|]. intros _ _ Hy.
  destruct (decide (out1 = [])) as [->|Ho1].
  { exfalso. rewrite app_nil_r in Etl. destruct (snoc_of pre Hne) as (pre0 & z & ->).
    destruct (byte_before (set_bp (pred (bp_ e)) e) pre0 z) as (Ez & _); [done|cbn; lia|].
    assert (y = z) by (rewrite <- Ey; exact Ez). rewrite lastb_snoc in Hpre. congruence. }
  destruct (snoc_of out1 Ho1) as (out0 & z & ->). exists out0. rewrite app_assoc in Etl.
  destruct (byte_before (set_bp (pred (bp_ e)) e) (pre ++ out0) z) as (Ez & _); [done|cbn; lia|].
  assert (y = z) by (rewrite <- Ey; exact Ez). assert (z = 0xff) as -> by congruence. done.
Qed.

Lemma bypass_flush_at pre out p e erterm : raw_at pre out p e -> pre <> [] -> lastb 0 pre <> 0xff ->
  raw_flushed pre (unpack 0 out ++ p) (bypass_flush_enc erterm e).
Proof.
  intros He Hne Hpre. pose proof He as [Hmem Hlen Hst Hp Hct Hroom _].
  pose proof (wd_range (lastb 0 out)) as Hw.
  destruct (raw_tail pre out _ _ e Hmem Hlen Hne Hpre eq_refl eq_refl) as (Elast & Hff & H7f).
  unfold bypass_flush_enc. destruct (bypass_pending erterm e) eqn:Epend; unfold bypass_pending in Epend.
  { apply flush_pending; [done|]. intros E. rewrite E in Epend. done. }
  apply orb_false_iff in Epend as [Ep7 Ep8]. apply Z.ltb_ge in Ep7.
  assert (ct_ e = 7 -> byte_at e (pred (bp_ e)) = 0xff) as H7.
  { intros E7. rewrite E7, Z.eqb_refl in Ep8. cbn in Ep8. apply orb_false_iff in Ep8 as [_ Ep8].
    by apply negb_false_iff, Z.eqb_eq in Ep8. }
  assert (p = []) as ->.
  { destruct Hct as [(_ & _ & ?)|[Hct _]]; [done|]. apply nil_length_inv.
    destruct (Z.eq_dec (ct_ e) 7) as [E7|]; [|lia]. destruct (Hff (H7 E7)) as (out0 & ->).
    rewrite lastb_snoc in *. change (wd 0xff) with 7 in *. lia. }
  rewrite app_nil_r.
  destruct ((ct_ e =? 7) && (byte_at e (pred (bp_ e)) =? 0xff)) eqn:E7; [|destruct ((ct_ e =? 8) && _ && _ && _) eqn:E8].
  - apply andb_true_iff in E7 as [_ E7%Z.eqb_eq]. destruct (Hff E7) as (out0 & ->). by apply flush_drop_ff.
  - rewrite !andb_true_iff, !Z.eqb_eq in E8. destruct E8 as (((E8 & _) & Ex) & Ey). rewrite Ex in H7f.
    assert (out <> []) as Ho.
    { intros ->. destruct Hct as [(Hi & _)|[_ []]]; [by rewrite Hi in E8|done|done]. }
    destruct (H7f ltac:(lia) Ho Ey) as (out0 & ->). by apply flush_drop_ff7f.
  - rewrite <- (app_nil_r (unpack 0 out)). apply (flushed_ones pre out 0 e e); try done.
    rewrite Elast. intros E. rewrite E in *. destruct (Hff eq_refl) as (out0 & Eout).
    destruct Hct as [(_ & Ho & _)|[Hct _]]; [by subst out; destruct out0|]. rewrite Eout, lastb_snoc in Hct.
    change (wd 0xff - Z.of_nat (length [])) with 7 in Hct. rewrite Hct in E7. done.
Qed.

(** The writer at the start of a raw segment: the byte before it, left by a
    termination, is not 0xFF. *)
Definition bypass_start (e : mqenc) : Prop :=
  (0 < bp_ e <= length (data_ e))%nat /\ 0 <= byte_at e (pred (bp_ e)) < 0xff.

Lemma bypass_encode_at bits : forall pre out p e, raw_at pre out p e -> bits_ok bits ->
  exists out' p', raw_at pre out' p' (bypass_encode_all e bits) /\
    unpack 0 out' ++ p' = unpack 0 out ++ p ++ bits.
Proof.
  induction bits as [|b bits IH]; intros pre out p e He Hb.
  { exists out, p. by rewrite app_nil_r. }
  apply list.Forall_cons in Hb as [Hb Hbits].
  destruct (bypass_enc_at pre out p e b He Hb) as (out1 & p1 & He1 & E1).
  destruct (IH pre out1 p1 _ He1 Hbits) as (out' & p' & He' & E').
  exists out', p'. split; [done|]. rewrite E', (app_assoc (unpack 0 out1)), E1. by rewrite <- !app_assoc.
Qed.

Lemma bypass_init_at e : bypass_start e ->
  raw_at (take (bp_ e) (data_ e)) [] [] (bypass_init_enc e) /\
  take (bp_ e) (data_ e) <> [] /\ lastb 0 (take (bp_ e) (data_ e)) <> 0xff.
Proof.
  intros [Hbp Hb].
  assert (take (bp_ e) (data_ e) = take (pred (bp_ e)) (data_ e) ++ [byte_at e (pred (bp_ e))]) as Et.
  { destruct (bp_ e) as [|b]; [lia|]. apply take_S_nth. lia. }
  split_and!.
  - split; cbn; try done; try lia; [by rewrite app_nil_r|constructor|left; done].
  - intros E. apply (f_equal length) in E. rewrite length_take in E. cbn in E. lia.
  - rewrite Et, lastb_snoc. lia.
Qed.

(** A bypass segment: what is kept, and what is read back. *)
Lemma bypass_segment e erterm bits : bypass_start e -> bits_ok bits ->
  let e' := bypass_flush_enc erterm (bypass_encode_all (bypass_init_enc e) bits) in
  take (bp_ e) (data_ e') = take (bp_ e) (data_ e) /\ bypass_start e' /\ (bp_ e <= bp_ e')%nat /\
  forall bufs ctxs, mjoin bufs = segment_bytes (data_ e') (pred (bp_ e)) (bp_ e') ->
    Forall (fun b => b <> []) bufs -> (raw_decode_all (raw_init_dec bufs ctxs) (length bits)).1 = bits.
Proof.
  intros Hs Hbits e'. destruct (bypass_init_at e Hs) as (H0 & Hpre & Hl).
  destruct (bypass_encode_at bits _ _ _ _ H0 Hbits) as (out & p & He & E). cbn in E. 
  destruct (bypass_flush_at _ _ _ _ erterm He Hpre Hl) as (fin & Hmem & Hlen & Hst & Hlast & Hstream).
  fold e' in Hmem, Hlen. rewrite E in Hstream. set (pre := take (bp_ e) (data_ e)) in *.
  destruct Hs as [Hbp Hb]. assert (length pre = bp_ e) as Elen by (unfold pre; rewrite length_take; lia).
  assert (bp_ e' = length (pre ++ fin)) as Ebp' by (rewrite <- Hmem, length_take; lia).
  rewrite length_app in Ebp'.
  split_and!.
  - transitivity (take (bp_ e) (take (bp_ e') (data_ e'))); [rewrite take_take; f_equal; lia|].
    rewrite Hmem, <- Elen. apply take_app_length.
  - split; [lia|]. destruct (snoc_of (pre ++ fin)) as (l & x & Elx); [by destruct pre|].
    pose proof Hmem as Hmem'. rewrite Elx in Hmem', Hlast. rewrite lastb_snoc in Hlast.
    destruct (byte_before e' l x Hmem' Hlen) as (-> & _).
    assert (0 <= x <= 255); [|lia]. destruct (decide (fin = [])) as [->|Hfin].
    + rewrite app_nil_r in Elx. assert (lastb 0 pre = x) as <- by (by rewrite Elx, lastb_snoc).
      assert (take (bp_ e) (data_ e) = take (pred (bp_ e)) (data_ e) ++ [byte_at e (pred (bp_ e))]) as Et.
      { destruct (bp_ e) as [|k]; [lia|]. apply take_S_nth. lia. }
      unfold pre. rewrite Et, lastb_snoc. lia.
    + destruct (snoc_of fin Hfin) as (l' & x' & Ef). rewrite Ef, app_assoc in Elx. apply app_inj_tail in Elx as [_ <-].
      pose proof (stuffed_bytes _ _ Hst) as Hok. rewrite Ef in Hok. by apply bytes_ok_snoc in Hok as [_ ?].
  - lia.
  - intros bufs ctxs Hj Hne. assert (mjoin bufs = fin) as Efin.
    { rewrite Hj, segment_bytes_take, Hmem. replace (S (pred (bp_ e))) with (length pre) by lia. apply drop_app_length. }
    assert (bytes_ok fin) as Hok by (by eapply stuffed_bytes).
    rewrite (raw_decode_stream bufs Hne _ _ fin); cbn; try done; try lia.
    left. exists 0%nat. split; [|by rewrite Efin]. split_and!; cbn; try done; try lia.
    intros E0. destruct bufs; [done|cbn; lia].
Qed.

(** C16: Raw coding loses nothing: the bits of a bypass segment, flushed with or without
    predictable termination, are read back by the raw decoder from the segment's bytes
    cut into buffers anywhere, although trailing bytes of 1 bits are left out; the
    bytes before the segment are kept and the segment does not end with 0xFF, so that
    the next one may start. *)
Theorem bypass_roundtrip e erterm bits bufs ctxs :
  bypass_start e -> bits_ok bits ->
  let e' := bypass_flush_enc erterm (bypass_encode_all (bypass_init_enc e) bits) in
  mjoin bufs = segment_bytes (data_ e') (pred (bp_ e)) (bp_ e') ->
  Forall (fun b => b <> []) bufs ->
  (raw_decode_all (raw_init_dec bufs ctxs) (length bits)).1 = bits /\
  take (bp_ e) (data_ e') = take (bp_ e) (data_ e) /\ bypass_start e'.
Proof. intros Hs Hb e' Hj Hne. destruct (bypass_segment e erterm bits Hs Hb) as (? & ? & _ & ?). auto. Qed.

Definition example_bits : list Z := [1; 0; 1; 1; 1; 1; 1; 1; 1; 1; 1; 1; 1; 1; 1; 1; 1; 1; 1; 1; 1; 1; 1].

Lemma bypass_roundtrip_witness :
  let e := restart_init_enc (flush_enc (init_enc [0] resetstates)) in
  let e1 := set_bp (S (bp_ e)) e in
  let e' := bypass_flush_enc false (bypass_encode_all (bypass_init_enc e1) example_bits) in
  segment_bytes (data_ e') (pred (bp_ e1)) (bp_ e') = [0xbf] /\
  (raw_decode_all (raw_init_dec [[0xbf]] resetstates) (length example_bits)).1 = example_bits.
Proof.
  split; [vm_compute; reflexivity|].
  apply (bypass_roundtrip (set_bp (S (bp_ (restart_init_enc (flush_enc (init_enc [0] resetstates)))))
           (restart_init_enc (flush_enc (init_enc [0] resetstates)))) false example_bits [[0xbf]] resetstates).
  - split; [vm_compute; lia|vm_compute; split; [discriminate|reflexivity]].
  - unfold example_bits, bits_ok. repeat (apply Forall_cons_2; [first [left; reflexivity|right; reflexivity]|]). apply Forall_nil_2.
  - vm_compute. reflexivity.
  - repeat constructor. discriminate.
Defined.
