(* ===== verification/BlockLuts.v ===== *)
(** Context tables of the block coder: t1_luts.h and t1_generate_luts.cpp.

    The block coder selects the context of a decision and the sign prediction by
    lookup in constant tables ([lut_*], as t1_luts.h lists them).  The program
    t1_generate_luts.cpp computes them from the significance and the signs of a
    sample's neighbours; [t1_init_*] are its functions.  The theorem says that the
    tables in the source are the ones the generator prints. *)
From Stdlib Require Import QArith Qround.
From S2P Require Import Prelude.

(** ** The flag bits a table index is made of (mqcoder/mqc_base.h) *)

Definition T1_SIGMA (i : Z) : Z := Z.shiftl 1 i.
Definition T1_LUT_SGN_W : Z := Z.shiftl 1 0.
Definition T1_LUT_SIG_N : Z := Z.shiftl 1 1.
Definition T1_LUT_SGN_E : Z := Z.shiftl 1 2.
Definition T1_LUT_SIG_W : Z := Z.shiftl 1 3.
Definition T1_LUT_SGN_N : Z := Z.shiftl 1 4.
Definition T1_LUT_SIG_E : Z := Z.shiftl 1 5.
Definition T1_LUT_SGN_S : Z := Z.shiftl 1 6.
Definition T1_LUT_SIG_S : Z := Z.shiftl 1 7.

(** First context of each group (t1_common.h). *)
Definition T1_CTXNO_ZC0 : Z := 0.
Definition T1_CTXNO_SC : Z := T1_CTXNO_ZC0 + 9.
Definition T1_CTXNO_MAG : Z := T1_CTXNO_SC + 5.

Definition T1_NMSEDEC_BITS : Z := 7.
Definition T1_NMSEDEC_FRACBITS : Z := T1_NMSEDEC_BITS - 1.

(** ** The tables *)

Definition lut_ctxno_zc : list Z :=
  [0; 1; 3; 3; 1; 2; 3; 3; 5; 6; 7; 7; 6; 6; 7; 7; 0; 1; 3; 3; 1; 2; 3; 3; 5; 6; 7; 7; 6; 6; 7;
   7; 5; 6; 7; 7; 6; 6; 7; 7; 8; 8; 8; 8; 8; 8; 8; 8; 5; 6; 7; 7; 6; 6; 7; 7; 8; 8; 8; 8; 8; 8;
   8; 8; 1; 2; 3; 3; 2; 2; 3; 3; 6; 6; 7; 7; 6; 6; 7; 7; 1; 2; 3; 3; 2; 2; 3; 3; 6; 6; 7; 7; 6;
   6; 7; 7; 6; 6; 7; 7; 6; 6; 7; 7; 8; 8; 8; 8; 8; 8; 8; 8; 6; 6; 7; 7; 6; 6; 7; 7; 8; 8; 8; 8;
   8; 8; 8; 8; 3; 3; 4; 4; 3; 3; 4; 4; 7; 7; 7; 7; 7; 7; 7; 7; 3; 3; 4; 4; 3; 3; 4; 4; 7; 7; 7;
   7; 7; 7; 7; 7; 7; 7; 7; 7; 7; 7; 7; 7; 8; 8; 8; 8; 8; 8; 8; 8; 7; 7; 7; 7; 7; 7; 7; 7; 8; 8;
   8; 8; 8; 8; 8; 8; 3; 3; 4; 4; 3; 3; 4; 4; 7; 7; 7; 7; 7; 7; 7; 7; 3; 3; 4; 4; 3; 3; 4; 4; 7;
   7; 7; 7; 7; 7; 7; 7; 7; 7; 7; 7; 7; 7; 7; 7; 8; 8; 8; 8; 8; 8; 8; 8; 7; 7; 7; 7; 7; 7; 7; 7;
   8; 8; 8; 8; 8; 8; 8; 8; 1; 2; 3; 3; 2; 2; 3; 3; 6; 6; 7; 7; 6; 6; 7; 7; 1; 2; 3; 3; 2; 2; 3;
   3; 6; 6; 7; 7; 6; 6; 7; 7; 6; 6; 7; 7; 6; 6; 7; 7; 8; 8; 8; 8; 8; 8; 8; 8; 6; 6; 7; 7; 6; 6;
   7; 7; 8; 8; 8; 8; 8; 8; 8; 8; 2; 2; 3; 3; 2; 2; 3; 3; 6; 6; 7; 7; 6; 6; 7; 7; 2; 2; 3; 3; 2;
   2; 3; 3; 6; 6; 7; 7; 6; 6; 7; 7; 6; 6; 7; 7; 6; 6; 7; 7; 8; 8; 8; 8; 8; 8; 8; 8; 6; 6; 7; 7;
   6; 6; 7; 7; 8; 8; 8; 8; 8; 8; 8; 8; 3; 3; 4; 4; 3; 3; 4; 4; 7; 7; 7; 7; 7; 7; 7; 7; 3; 3; 4;
   4; 3; 3; 4; 4; 7; 7; 7; 7; 7; 7; 7; 7; 7; 7; 7; 7; 7; 7; 7; 7; 8; 8; 8; 8; 8; 8; 8; 8; 7; 7;
   7; 7; 7; 7; 7; 7; 8; 8; 8; 8; 8; 8; 8; 8; 3; 3; 4; 4; 3; 3; 4; 4; 7; 7; 7; 7; 7; 7; 7; 7; 3;
   3; 4; 4; 3; 3; 4; 4; 7; 7; 7; 7; 7; 7; 7; 7; 7; 7; 7; 7; 7; 7; 7; 7; 8; 8; 8; 8; 8; 8; 8; 8;
   7; 7; 7; 7; 7; 7; 7; 7; 8; 8; 8; 8; 8; 8; 8; 8; 0; 1; 5; 6; 1; 2; 6; 6; 3; 3; 7; 7; 3; 3; 7;
   7; 0; 1; 5; 6; 1; 2; 6; 6; 3; 3; 7; 7; 3; 3; 7; 7; 3; 3; 7; 7; 3; 3; 7; 7; 4; 4; 7; 7; 4; 4;
   7; 7; 3; 3; 7; 7; 3; 3; 7; 7; 4; 4; 7; 7; 4; 4; 7; 7; 1; 2; 6; 6; 2; 2; 6; 6; 3; 3; 7; 7; 3;
   3; 7; 7; 1; 2; 6; 6; 2; 2; 6; 6; 3; 3; 7; 7; 3; 3; 7; 7; 3; 3; 7; 7; 3; 3; 7; 7; 4; 4; 7; 7;
   4; 4; 7; 7; 3; 3; 7; 7; 3; 3; 7; 7; 4; 4; 7; 7; 4; 4; 7; 7; 5; 6; 8; 8; 6; 6; 8; 8; 7; 7; 8;
   8; 7; 7; 8; 8; 5; 6; 8; 8; 6; 6; 8; 8; 7; 7; 8; 8; 7; 7; 8; 8; 7; 7; 8; 8; 7; 7; 8; 8; 7; 7;
   8; 8; 7; 7; 8; 8; 7; 7; 8; 8; 7; 7; 8; 8; 7; 7; 8; 8; 7; 7; 8; 8; 6; 6; 8; 8; 6; 6; 8; 8; 7;
   7; 8; 8; 7; 7; 8; 8; 6; 6; 8; 8; 6; 6; 8; 8; 7; 7; 8; 8; 7; 7; 8; 8; 7; 7; 8; 8; 7; 7; 8; 8;
   7; 7; 8; 8; 7; 7; 8; 8; 7; 7; 8; 8; 7; 7; 8; 8; 7; 7; 8; 8; 7; 7; 8; 8; 1; 2; 6; 6; 2; 2; 6;
   6; 3; 3; 7; 7; 3; 3; 7; 7; 1; 2; 6; 6; 2; 2; 6; 6; 3; 3; 7; 7; 3; 3; 7; 7; 3; 3; 7; 7; 3; 3;
   7; 7; 4; 4; 7; 7; 4; 4; 7; 7; 3; 3; 7; 7; 3; 3; 7; 7; 4; 4; 7; 7; 4; 4; 7; 7; 2; 2; 6; 6; 2;
   2; 6; 6; 3; 3; 7; 7; 3; 3; 7; 7; 2; 2; 6; 6; 2; 2; 6; 6; 3; 3; 7; 7; 3; 3; 7; 7; 3; 3; 7; 7;
   3; 3; 7; 7; 4; 4; 7; 7; 4; 4; 7; 7; 3; 3; 7; 7; 3; 3; 7; 7; 4; 4; 7; 7; 4; 4; 7; 7; 6; 6; 8;
   8; 6; 6; 8; 8; 7; 7; 8; 8; 7; 7; 8; 8; 6; 6; 8; 8; 6; 6; 8; 8; 7; 7; 8; 8; 7; 7; 8; 8; 7; 7;
   8; 8; 7; 7; 8; 8; 7; 7; 8; 8; 7; 7; 8; 8; 7; 7; 8; 8; 7; 7; 8; 8; 7; 7; 8; 8; 7; 7; 8; 8; 6;
   6; 8; 8; 6; 6; 8; 8; 7; 7; 8; 8; 7; 7; 8; 8; 6; 6; 8; 8; 6; 6; 8; 8; 7; 7; 8; 8; 7; 7; 8; 8;
   7; 7; 8; 8; 7; 7; 8; 8; 7; 7; 8; 8; 7; 7; 8; 8; 7; 7; 8; 8; 7; 7; 8; 8; 7; 7; 8; 8; 7; 7; 8;
   8; 0; 1; 3; 3; 1; 2; 3; 3; 5; 6; 7; 7; 6; 6; 7; 7; 0; 1; 3; 3; 1; 2; 3; 3; 5; 6; 7; 7; 6; 6;
   7; 7; 5; 6; 7; 7; 6; 6; 7; 7; 8; 8; 8; 8; 8; 8; 8; 8; 5; 6; 7; 7; 6; 6; 7; 7; 8; 8; 8; 8; 8;
   8; 8; 8; 1; 2; 3; 3; 2; 2; 3; 3; 6; 6; 7; 7; 6; 6; 7; 7; 1; 2; 3; 3; 2; 2; 3; 3; 6; 6; 7; 7;
   6; 6; 7; 7; 6; 6; 7; 7; 6; 6; 7; 7; 8; 8; 8; 8; 8; 8; 8; 8; 6; 6; 7; 7; 6; 6; 7; 7; 8; 8; 8;
   8; 8; 8; 8; 8; 3; 3; 4; 4; 3; 3; 4; 4; 7; 7; 7; 7; 7; 7; 7; 7; 3; 3; 4; 4; 3; 3; 4; 4; 7; 7;
   7; 7; 7; 7; 7; 7; 7; 7; 7; 7; 7; 7; 7; 7; 8; 8; 8; 8; 8; 8; 8; 8; 7; 7; 7; 7; 7; 7; 7; 7; 8;
   8; 8; 8; 8; 8; 8; 8; 3; 3; 4; 4; 3; 3; 4; 4; 7; 7; 7; 7; 7; 7; 7; 7; 3; 3; 4; 4; 3; 3; 4; 4;
   7; 7; 7; 7; 7; 7; 7; 7; 7; 7; 7; 7; 7; 7; 7; 7; 8; 8; 8; 8; 8; 8; 8; 8; 7; 7; 7; 7; 7; 7; 7;
   7; 8; 8; 8; 8; 8; 8; 8; 8; 1; 2; 3; 3; 2; 2; 3; 3; 6; 6; 7; 7; 6; 6; 7; 7; 1; 2; 3; 3; 2; 2;
   3; 3; 6; 6; 7; 7; 6; 6; 7; 7; 6; 6; 7; 7; 6; 6; 7; 7; 8; 8; 8; 8; 8; 8; 8; 8; 6; 6; 7; 7; 6;
   6; 7; 7; 8; 8; 8; 8; 8; 8; 8; 8; 2; 2; 3; 3; 2; 2; 3; 3; 6; 6; 7; 7; 6; 6; 7; 7; 2; 2; 3; 3;
   2; 2; 3; 3; 6; 6; 7; 7; 6; 6; 7; 7; 6; 6; 7; 7; 6; 6; 7; 7; 8; 8; 8; 8; 8; 8; 8; 8; 6; 6; 7;
   7; 6; 6; 7; 7; 8; 8; 8; 8; 8; 8; 8; 8; 3; 3; 4; 4; 3; 3; 4; 4; 7; 7; 7; 7; 7; 7; 7; 7; 3; 3;
   4; 4; 3; 3; 4; 4; 7; 7; 7; 7; 7; 7; 7; 7; 7; 7; 7; 7; 7; 7; 7; 7; 8; 8; 8; 8; 8; 8; 8; 8; 7;
   7; 7; 7; 7; 7; 7; 7; 8; 8; 8; 8; 8; 8; 8; 8; 3; 3; 4; 4; 3; 3; 4; 4; 7; 7; 7; 7; 7; 7; 7; 7;
   3; 3; 4; 4; 3; 3; 4; 4; 7; 7; 7; 7; 7; 7; 7; 7; 7; 7; 7; 7; 7; 7; 7; 7; 8; 8; 8; 8; 8; 8; 8;
   8; 7; 7; 7; 7; 7; 7; 7; 7; 8; 8; 8; 8; 8; 8; 8; 8; 0; 3; 1; 4; 3; 6; 4; 7; 1; 4; 2; 5; 4; 7;
   5; 7; 0; 3; 1; 4; 3; 6; 4; 7; 1; 4; 2; 5; 4; 7; 5; 7; 1; 4; 2; 5; 4; 7; 5; 7; 2; 5; 2; 5; 5;
   7; 5; 7; 1; 4; 2; 5; 4; 7; 5; 7; 2; 5; 2; 5; 5; 7; 5; 7; 3; 6; 4; 7; 6; 8; 7; 8; 4; 7; 5; 7;
   7; 8; 7; 8; 3; 6; 4; 7; 6; 8; 7; 8; 4; 7; 5; 7; 7; 8; 7; 8; 4; 7; 5; 7; 7; 8; 7; 8; 5; 7; 5;
   7; 7; 8; 7; 8; 4; 7; 5; 7; 7; 8; 7; 8; 5; 7; 5; 7; 7; 8; 7; 8; 1; 4; 2; 5; 4; 7; 5; 7; 2; 5;
   2; 5; 5; 7; 5; 7; 1; 4; 2; 5; 4; 7; 5; 7; 2; 5; 2; 5; 5; 7; 5; 7; 2; 5; 2; 5; 5; 7; 5; 7; 2;
   5; 2; 5; 5; 7; 5; 7; 2; 5; 2; 5; 5; 7; 5; 7; 2; 5; 2; 5; 5; 7; 5; 7; 4; 7; 5; 7; 7; 8; 7; 8;
   5; 7; 5; 7; 7; 8; 7; 8; 4; 7; 5; 7; 7; 8; 7; 8; 5; 7; 5; 7; 7; 8; 7; 8; 5; 7; 5; 7; 7; 8; 7;
   8; 5; 7; 5; 7; 7; 8; 7; 8; 5; 7; 5; 7; 7; 8; 7; 8; 5; 7; 5; 7; 7; 8; 7; 8; 3; 6; 4; 7; 6; 8;
   7; 8; 4; 7; 5; 7; 7; 8; 7; 8; 3; 6; 4; 7; 6; 8; 7; 8; 4; 7; 5; 7; 7; 8; 7; 8; 4; 7; 5; 7; 7;
   8; 7; 8; 5; 7; 5; 7; 7; 8; 7; 8; 4; 7; 5; 7; 7; 8; 7; 8; 5; 7; 5; 7; 7; 8; 7; 8; 6; 8; 7; 8;
   8; 8; 8; 8; 7; 8; 7; 8; 8; 8; 8; 8; 6; 8; 7; 8; 8; 8; 8; 8; 7; 8; 7; 8; 8; 8; 8; 8; 7; 8; 7;
   8; 8; 8; 8; 8; 7; 8; 7; 8; 8; 8; 8; 8; 7; 8; 7; 8; 8; 8; 8; 8; 7; 8; 7; 8; 8; 8; 8; 8; 4; 7;
   5; 7; 7; 8; 7; 8; 5; 7; 5; 7; 7; 8; 7; 8; 4; 7; 5; 7; 7; 8; 7; 8; 5; 7; 5; 7; 7; 8; 7; 8; 5;
   7; 5; 7; 7; 8; 7; 8; 5; 7; 5; 7; 7; 8; 7; 8; 5; 7; 5; 7; 7; 8; 7; 8; 5; 7; 5; 7; 7; 8; 7; 8;
   7; 8; 7; 8; 8; 8; 8; 8; 7; 8; 7; 8; 8; 8; 8; 8; 7; 8; 7; 8; 8; 8; 8; 8; 7; 8; 7; 8; 8; 8; 8;
   8; 7; 8; 7; 8; 8; 8; 8; 8; 7; 8; 7; 8; 8; 8; 8; 8; 7; 8; 7; 8; 8; 8; 8; 8; 7; 8; 7; 8; 8; 8;
   8; 8].

Definition lut_ctxno_sc : list Z :=
  [9; 9; 10; 10; 9; 9; 10; 10; 12; 12; 13; 11; 12; 12; 13; 11; 9; 9; 10;
   10; 9; 9; 10; 10; 12; 12; 11; 13; 12; 12; 11; 13; 12; 12; 13; 13; 12; 12;
   11; 11; 12; 9; 13; 10; 9; 12; 10; 11; 12; 12; 11; 11; 12; 12; 13; 13; 12;
   9; 11; 10; 9; 12; 10; 13; 9; 9; 10; 10; 9; 9; 10; 10; 12; 12; 13; 11;
   12; 12; 13; 11; 9; 9; 10; 10; 9; 9; 10; 10; 12; 12; 11; 13; 12; 12; 11;
   13; 12; 12; 13; 13; 12; 12; 11; 11; 12; 9; 13; 10; 9; 12; 10; 11; 12; 12;
   11; 11; 12; 12; 13; 13; 12; 9; 11; 10; 9; 12; 10; 13; 10; 10; 10; 10; 10;
   10; 10; 10; 13; 11; 13; 11; 13; 11; 13; 11; 10; 10; 9; 9; 10; 10; 9; 9;
   13; 11; 12; 12; 13; 11; 12; 12; 13; 13; 13; 13; 11; 11; 11; 11; 13; 10; 13;
   10; 10; 11; 10; 11; 13; 13; 12; 12; 11; 11; 12; 12; 13; 10; 12; 9; 10; 11;
   9; 12; 10; 10; 9; 9; 10; 10; 9; 9; 11; 13; 12; 12; 11; 13; 12; 12; 10;
   10; 10; 10; 10; 10; 10; 10; 11; 13; 11; 13; 11; 13; 11; 13; 11; 11; 12; 12;
   13; 13; 12; 12; 11; 10; 12; 9; 10; 13; 9; 12; 11; 11; 11; 11; 13; 13; 13;
   13; 11; 10; 11; 10; 10; 13; 10; 13].

Definition lut_spb : list Z :=
  [0; 0; 0; 0; 0; 0; 0; 0; 0; 1; 0; 1; 0; 1; 0; 1; 0; 0; 1; 1; 0; 0; 1; 1; 0; 1; 0; 1; 0; 1; 0;
   1; 0; 0; 0; 0; 1; 1; 1; 1; 0; 0; 0; 0; 0; 1; 0; 1; 0; 0; 0; 0; 1; 1; 1; 1; 0; 0; 0; 1; 0; 1;
   1; 1; 0; 0; 0; 0; 0; 0; 0; 0; 0; 1; 0; 1; 0; 1; 0; 1; 0; 0; 1; 1; 0; 0; 1; 1; 0; 1; 0; 1; 0;
   1; 0; 1; 0; 0; 0; 0; 1; 1; 1; 1; 0; 0; 0; 0; 0; 1; 0; 1; 0; 0; 0; 0; 1; 1; 1; 1; 0; 0; 0; 1;
   0; 1; 1; 1; 0; 0; 0; 0; 0; 0; 0; 0; 0; 1; 0; 1; 0; 1; 0; 1; 0; 0; 0; 0; 0; 0; 0; 0; 0; 1; 0;
   1; 0; 1; 0; 1; 0; 0; 0; 0; 1; 1; 1; 1; 0; 0; 0; 0; 0; 1; 0; 1; 0; 0; 0; 0; 1; 1; 1; 1; 0; 0;
   0; 0; 0; 1; 0; 1; 1; 1; 0; 0; 1; 1; 0; 0; 0; 1; 0; 1; 0; 1; 0; 1; 1; 1; 1; 1; 1; 1; 1; 1; 0;
   1; 0; 1; 0; 1; 0; 1; 0; 0; 0; 0; 1; 1; 1; 1; 0; 1; 0; 0; 1; 1; 0; 1; 0; 0; 0; 0; 1; 1; 1; 1;
   0; 1; 0; 1; 1; 1; 1; 1].

Definition lut_nmsedec_sig : list Z :=
  [0; 0; 0; 0; 0; 0; 0; 0; 0; 0; 0;
   0; 0; 0; 0; 0; 0; 0; 0; 0; 0; 0;
   0; 0; 0; 0; 0; 0; 0; 0; 0; 0; 0;
   0; 0; 0; 0; 0; 0; 0; 0; 0; 0; 0;
   0; 0; 0; 0; 0; 384; 768; 1152; 1536; 1920; 2304;
   2688; 3072; 3456; 3840; 4224; 4608; 4992; 5376; 5760; 6144; 6528;
   6912; 7296; 7680; 8064; 8448; 8832; 9216; 9600; 9984; 10368; 10752;
   11136; 11520; 11904; 12288; 12672; 13056; 13440; 13824; 14208; 14592; 14976;
   15360; 15744; 16128; 16512; 16896; 17280; 17664; 18048; 18432; 18816; 19200;
   19584; 19968; 20352; 20736; 21120; 21504; 21888; 22272; 22656; 23040; 23424;
   23808; 24192; 24576; 24960; 25344; 25728; 26112; 26496; 26880; 27264; 27648;
   28032; 28416; 28800; 29184; 29568; 29952; 30336].

Definition lut_nmsedec_sig0 : list Z :=
  [0; 0; 0; 0; 0; 0; 128; 128; 128; 128; 256;
   256; 256; 384; 384; 512; 512; 640; 640; 768; 768; 896;
   1024; 1024; 1152; 1280; 1408; 1408; 1536; 1664; 1792; 1920; 2048;
   2176; 2304; 2432; 2560; 2688; 2944; 3072; 3200; 3328; 3584; 3712;
   3840; 4096; 4224; 4480; 4608; 4864; 4992; 5248; 5376; 5632; 5888;
   6016; 6272; 6528; 6784; 6912; 7168; 7424; 7680; 7936; 8192; 8448;
   8704; 8960; 9216; 9472; 9856; 10112; 10368; 10624; 11008; 11264; 11520;
   11904; 12160; 12544; 12800; 13184; 13440; 13824; 14080; 14464; 14848; 15104;
   15488; 15872; 16256; 16512; 16896; 17280; 17664; 18048; 18432; 18816; 19200;
   19584; 19968; 20352; 20864; 21248; 21632; 22016; 22528; 22912; 23296; 23808;
   24192; 24704; 25088; 25600; 25984; 26496; 26880; 27392; 27904; 28288; 28800;
   29312; 29824; 30208; 30720; 31232; 31744; 32256].

Definition lut_nmsedec_ref : list Z :=
  [6144; 6016; 5888; 5760; 5632; 5504; 5376; 5248; 5120; 4992; 4864;
   4736; 4608; 4480; 4352; 4224; 4096; 3968; 3840; 3712; 3584; 3456;
   3328; 3200; 3072; 2944; 2816; 2688; 2560; 2432; 2304; 2176; 2048;
   1920; 1792; 1664; 1536; 1408; 1280; 1152; 1024; 896; 768; 640;
   512; 384; 256; 128; 0; 0; 0; 0; 0; 0; 0;
   0; 0; 0; 0; 0; 0; 0; 0; 0; 0; 0;
   0; 0; 0; 0; 0; 0; 0; 0; 0; 0; 0;
   0; 0; 0; 0; 128; 256; 384; 512; 640; 768; 896;
   1024; 1152; 1280; 1408; 1536; 1664; 1792; 1920; 2048; 2176; 2304;
   2432; 2560; 2688; 2816; 2944; 3072; 3200; 3328; 3456; 3584; 3712;
   3840; 3968; 4096; 4224; 4352; 4480; 4608; 4736; 4864; 4992; 5120;
   5248; 5376; 5504; 5632; 5760; 5888; 6016].

Definition lut_nmsedec_ref0 : list Z :=
  [8192; 7936; 7680; 7424; 7168; 6912; 6784; 6528; 6272; 6016; 5888;
   5632; 5376; 5248; 4992; 4864; 4608; 4480; 4224; 4096; 3840; 3712;
   3584; 3328; 3200; 3072; 2944; 2688; 2560; 2432; 2304; 2176; 2048;
   1920; 1792; 1664; 1536; 1408; 1408; 1280; 1152; 1024; 1024; 896;
   768; 768; 640; 640; 512; 512; 384; 384; 256; 256; 256;
   128; 128; 128; 128; 0; 0; 0; 0; 0; 0; 0;
   0; 0; 0; 0; 128; 128; 128; 128; 256; 256; 256;
   384; 384; 512; 512; 640; 640; 768; 768; 896; 1024; 1024;
   1152; 1280; 1408; 1408; 1536; 1664; 1792; 1920; 2048; 2176; 2304;
   2432; 2560; 2688; 2944; 3072; 3200; 3328; 3584; 3712; 3840; 4096;
   4224; 4480; 4608; 4864; 4992; 5248; 5376; 5632; 5888; 6016; 6272;
   6528; 6784; 6912; 7168; 7424; 7680; 7936].

(** ** The generator *)

(** A condition used as an [int]. *)
Definition bit_of (b : bool) : Z := if b then 1 else 0.
Definition has_flag (f m : Z) : Z := bit_of (negb (Z.land f m =? 0)).

(** The case 0/1 of the switch, which case 2 falls into with [h] and [v] exchanged. *)
Definition ctxno_zc_hv (h v d : Z) : Z :=
  if h =? 0 then
    if v =? 0 then (if d =? 0 then 0 else if d =? 1 then 1 else 2)
    else if v =? 1 then 3 else 4
  else if h =? 1 then
    if v =? 0 then (if d =? 0 then 5 else 6) else 7
  else 8.

Definition ctxno_zc_diag (hv d : Z) : Z :=
  if d =? 0 then (if hv =? 0 then 0 else if hv =? 1 then 1 else 2)
  else if d =? 1 then (if hv =? 0 then 3 else if hv =? 1 then 4 else 5)
  else if d =? 2 then (if hv =? 0 then 6 else 7)
  else 8.

Definition t1_init_ctxno_zc (f orientation : Z) : Z :=
  let h := has_flag f (T1_SIGMA 3) + has_flag f (T1_SIGMA 5) in
  let v := has_flag f (T1_SIGMA 1) + has_flag f (T1_SIGMA 7) in
  let d := has_flag f (T1_SIGMA 0) + has_flag f (T1_SIGMA 2) + has_flag f (T1_SIGMA 8) +
           has_flag f (T1_SIGMA 6) in
  let n :=
    if orientation =? 2 then ctxno_zc_hv v h d
    else if (orientation =? 0) || (orientation =? 1) then ctxno_zc_hv h v d
    else if orientation =? 3 then ctxno_zc_diag (h + v) d
    else 0 in
  T1_CTXNO_ZC0 + n.

(** A neighbour that is significant with the given sign. *)
Definition pos_neighbour (f sig sgn : Z) : Z := bit_of (Z.land f (Z.lor sig sgn) =? sig).
Definition neg_neighbour (f sig sgn : Z) : Z := bit_of (Z.land f (Z.lor sig sgn) =? Z.lor sig sgn).

(** The horizontal and vertical contributions. *)
Definition sign_hc (f : Z) : Z :=
  Z.min (pos_neighbour f T1_LUT_SIG_E T1_LUT_SGN_E + pos_neighbour f T1_LUT_SIG_W T1_LUT_SGN_W) 1 -
  Z.min (neg_neighbour f T1_LUT_SIG_E T1_LUT_SGN_E + neg_neighbour f T1_LUT_SIG_W T1_LUT_SGN_W) 1.
Definition sign_vc (f : Z) : Z :=
  Z.min (pos_neighbour f T1_LUT_SIG_N T1_LUT_SGN_N + pos_neighbour f T1_LUT_SIG_S T1_LUT_SGN_S) 1 -
  Z.min (neg_neighbour f T1_LUT_SIG_N T1_LUT_SGN_N + neg_neighbour f T1_LUT_SIG_S T1_LUT_SGN_S) 1.

Definition t1_init_ctxno_sc (f : Z) : Z :=
  let hc := sign_hc f in
  let vc := sign_vc f in
  let '(hc, vc) := if hc <? 0 then (- hc, - vc) else (hc, vc) in
  let n :=
    if hc =? 0 then (if vc =? -1 then 1 else if vc =? 0 then 0 else 1)
    else if hc =? 1 then (if vc =? -1 then 2 else if vc =? 0 then 3 else 4)
    else 0 in
  T1_CTXNO_SC + n.

Definition t1_init_spb (f : Z) : Z :=
  let hc := sign_hc f in
  let vc := sign_vc f in
  if (hc =? 0) && (vc =? 0) then 0
  else bit_of (negb ((0 <? hc) || ((hc =? 0) && (0 <? vc)))).

(** [lut_ctxno_zc[(orientation << 9) | i] = t1_init_ctxno_zc(i, j)], with the
    orientation of [j] exchanged between 1 and 2. *)
Definition zc_orientation (j : Z) : Z := if j =? 2 then 1 else if j =? 1 then 2 else j.
Definition main_lut_ctxno_zc : list Z :=
  foldl (fun lut j =>
    foldl (fun lut i =>
      <[Z.to_nat (Z.lor (Z.shiftl (zc_orientation j) 9) i) := t1_init_ctxno_zc i j]> lut)
      lut (seqZ 0 512))
    (replicate 2048 0) (seqZ 0 4).
Definition main_lut_ctxno_sc : list Z := t1_init_ctxno_sc <$> seqZ 0 256.
Definition main_lut_spb : list Z := t1_init_spb <$> seqZ 0 256.

(** The distortion tables.  Every intermediate value of the source's [double]
    expressions is a multiple of 2^-12 below 2^20 in magnitude, so that they are
    exact: rationals here. *)
Definition fixed (x : Q) : Z :=
  let frac := inject_Z (2 ^ T1_NMSEDEC_FRACBITS) in
  Z.max 0 (Qfloor (inject_Z (Qfloor (x * frac + (1 # 2))) / frac * inject_Z 8192)).

Definition sample_t (i : Z) : Q := inject_Z i / inject_Z (2 ^ T1_NMSEDEC_FRACBITS).
Definition main_nmsedec_sig (i : Z) : Z :=
  let u := sample_t i in let v := (sample_t i - (3 # 2))%Q in fixed (u * u - v * v).
Definition main_nmsedec_sig0 (i : Z) : Z := let u := sample_t i in fixed (u * u).
Definition main_nmsedec_ref (i : Z) : Z :=
  let u := (sample_t i - 1)%Q in
  let v := if negb (Z.land i (Z.shiftl 1 (T1_NMSEDEC_BITS - 1)) =? 0)
           then (sample_t i - (3 # 2))%Q else (sample_t i - (1 # 2))%Q in
  fixed (u * u - v * v).
Definition main_nmsedec_ref0 (i : Z) : Z := let u := (sample_t i - 1)%Q in fixed (u * u).

Definition main_nmsedec (f : Z -> Z) : list Z := f <$> seqZ 0 (Z.shiftl 1 T1_NMSEDEC_BITS).

(** C23: The constant tables compiled into the block coder are exactly what the table
    generator computes from its definitions: zero-coding contexts for every
    orientation and neighbourhood, sign contexts and sign predictions for every
    combination of neighbouring signs, and the four distortion tables. *)
Theorem luts_generated :
  lut_ctxno_zc = main_lut_ctxno_zc /\ lut_ctxno_sc = main_lut_ctxno_sc /\ lut_spb = main_lut_spb /\
  lut_nmsedec_sig = main_nmsedec main_nmsedec_sig /\
  lut_nmsedec_sig0 = main_nmsedec main_nmsedec_sig0 /\
  lut_nmsedec_ref = main_nmsedec main_nmsedec_ref /\
  lut_nmsedec_ref0 = main_nmsedec main_nmsedec_ref0.
Proof. split_and!; vm_compute; reflexivity. Qed.
