(* ===== verification/BlockCoder.v ===== *)
(** The block coder of Part 1: t1/part1/block_coder and t1/part1/Coder.cpp.

    A code block's coefficients are coded bit plane by bit plane in three passes
    (significance propagation, magnitude refinement, cleanup) over stripes of four
    rows.  One 32-bit word of [flags_] holds the state of a stripe column: the
    significance of its samples and their neighbours, signs, and what the passes
    have visited.

    The encoder passes hand a sequence of decisions to the MQ coder (or its bypass);
    they do not read the coder's state, so here they write the decisions to a list.
    The decoder passes ask for symbols as they go: they are programs of the monad
    [prog], run on a list of decisions ([feed]) or on the decoder itself ([run]).
    [compress_cblk] and [decompress] drive the passes and the coder. *)
From S2P Require Import Prelude BitIO Geometry Codeblock BlockLuts MQCoder.

(** ** Flag words (mqcoder/mqc_base.h) *)

Definition T1_CHI_0_I : Z := 18.
Definition T1_CHI_1_I : Z := 19.
Definition T1_CHI_2_I : Z := 22.
Definition T1_CHI_5_I : Z := 31.
Definition T1_CHI_THIS_I : Z := T1_CHI_1_I.
Definition T1_MU_0 : Z := Z.shiftl 1 20.
Definition T1_PI_0 : Z := Z.shiftl 1 21.
Definition T1_PI_1 : Z := Z.shiftl 1 24.
Definition T1_PI_2 : Z := Z.shiftl 1 27.
Definition T1_PI_3 : Z := Z.shiftl 1 30.
Definition T1_SIGMA_THIS : Z := T1_SIGMA 4.
Definition T1_MU_THIS : Z := T1_MU_0.
Definition T1_PI_THIS : Z := T1_PI_0.
Definition T1_SIGMA_NEIGHBOURS : Z :=
  Z.lor (T1_SIGMA 0) (Z.lor (T1_SIGMA 1) (Z.lor (T1_SIGMA 2) (Z.lor (T1_SIGMA 3)
    (Z.lor (T1_SIGMA 5) (Z.lor (T1_SIGMA 6) (Z.lor (T1_SIGMA 7) (T1_SIGMA 8))))))).
Definition T1_PI_ALL : Z := Z.lor T1_PI_0 (Z.lor T1_PI_1 (Z.lor T1_PI_2 T1_PI_3)).
Definition T1_SIGMA_ALL : Z :=
  Z.lor (T1_SIGMA 4) (Z.lor (T1_SIGMA 7) (Z.lor (T1_SIGMA 10) (T1_SIGMA 13))).

(** [*flagsPtr], [*flagsPtr |= m] and [*flagsPtr &= ~m]. *)
Definition word (fl : list Z) (p : nat) : Z := nth p fl 0.
Definition or_at (p : nat) (m : Z) (fl : list Z) : list Z := alter (fun f => Z.lor f m) p fl.
Definition clear_at (p : nat) (m : Z) (fl : list Z) : list Z := alter (fun f => Z.ldiff f m) p fl.

(** [flags] is the word of the column itself, which the decoder keeps in a local
    variable; the words around it are updated in memory. *)
Definition UPDATE_FLAGS (f : Z) (fl : list Z) (p : nat) (ci s : Z) (stride : nat) (vsc : bool) : Z * list Z :=
  let fl := or_at (p - 1) (Z.shiftl (T1_SIGMA 5) ci) fl in
  let f := Z.lor f (Z.shiftl (Z.lor (Z.shiftl s T1_CHI_1_I) (T1_SIGMA 4)) ci) in
  let fl := or_at (p + 1) (Z.shiftl (T1_SIGMA 3) ci) fl in
  let fl :=
    if (ci =? 0) && negb vsc then
      let north := (p - stride)%nat in
      let fl := or_at north (Z.lor (Z.shiftl s T1_CHI_5_I) (T1_SIGMA 16)) fl in
      let fl := or_at (north - 1) (T1_SIGMA 17) fl in
      or_at (north + 1) (T1_SIGMA 15) fl
    else fl in
  let fl :=
    if ci =? 9 then
      let south := (p + stride)%nat in
      let fl := or_at south (Z.lor (Z.shiftl s T1_CHI_0_I) (T1_SIGMA 1)) fl in
      let fl := or_at (south - 1) (T1_SIGMA 2) fl in
      or_at (south + 1) (T1_SIGMA 0) fl
    else fl in
  (f, fl).

Definition update_flags (fl : list Z) (p : nat) (ci s : Z) (stride : nat) (vsc : bool) : list Z :=
  let '(f, fl) := UPDATE_FLAGS (word fl p) fl p ci s stride vsc in <[p := f]> fl.

Definition getctxtno_sc_or_spb_index (fX pfX nfX ci : Z) : Z :=
  let lu := Z.land (Z.shiftr fX ci)
              (Z.lor (T1_SIGMA 1) (Z.lor (T1_SIGMA 3) (Z.lor (T1_SIGMA 5) (T1_SIGMA 7)))) in
  let lu := Z.lor lu (Z.land (Z.shiftr pfX (T1_CHI_THIS_I + ci)) (Z.shiftl 1 0)) in
  let lu := Z.lor lu (Z.land (Z.shiftr nfX (T1_CHI_THIS_I - 2 + ci)) (Z.shiftl 1 2)) in
  let lu :=
    if ci =? 0 then Z.lor lu (Z.land (Z.shiftr fX (T1_CHI_0_I - 4)) (Z.shiftl 1 4))
    else Z.lor lu (Z.land (Z.shiftr fX (T1_CHI_1_I - 4 + (ci - 3))) (Z.shiftl 1 4)) in
  let lu := Z.lor lu (Z.land (Z.shiftr fX (T1_CHI_2_I - 6 + ci)) (Z.shiftl 1 6)) in
  u8 lu.

(** [lut_ctxno_zc_orient] is [lut_ctxno_zc + (orientation << 9)]. *)
Definition GETCTXNO_ZC (orientation f : Z) : nat :=
  Z.to_nat (nthZ 0 lut_ctxno_zc (Z.shiftl orientation 9 + Z.land f T1_SIGMA_NEIGHBOURS)).
Definition GETCTXNO_MAG (f : Z) : nat :=
  Z.to_nat (T1_CTXNO_MAG + (if Z.land f T1_MU_0 =? 0
                            then bit_of (negb (Z.land f T1_SIGMA_NEIGHBOURS =? 0)) else 2)).
Definition ctxno_sc (lu : Z) : nat := Z.to_nat (nthZ 0 lut_ctxno_sc lu).
Definition spb (lu : Z) : Z := nthZ 0 lut_spb lu.

(** The tests on row [ci / 3] of a column. *)
Definition sigma_pi (ci : Z) : Z := Z.shiftl (Z.lor T1_SIGMA_THIS T1_PI_THIS) ci.
Definition to_propagate (f ci : Z) : bool :=
  (Z.land f (sigma_pi ci) =? 0) && negb (Z.land f (Z.shiftl T1_SIGMA_NEIGHBOURS ci) =? 0).
Definition to_refine (f ci : Z) : bool := Z.land f (sigma_pi ci) =? Z.shiftl T1_SIGMA_THIS ci.
Definition to_clean (f ci : Z) : bool := Z.land f (sigma_pi ci) =? 0.

(** ** Samples in sign-magnitude form (t1_common.h) *)

Definition smr_abs (x : Z) : Z := Z.land (u32 x) 0x7FFFFFFF.
Definition smr_sign (x : Z) : Z := Z.shiftr (u32 x) 31.

(** ** The layout of a block of [w] by [h] samples *)

Section block.
Context (w h : nat).

Definition getFlagsStride : nat := w + 2.
Definition getFlagsHeight : nat := (h + 3) / 4.

(** [flags_ + 1 + (w_ + 2)], advanced to column [i] of stripe [s]. *)
Definition flagsPtr (s i : nat) : nat := (getFlagsStride * S s + 1 + i)%nat.
(** The sample in row [j] of that column. *)
Definition dataIdx (s i j : nat) : nat := ((4 * s + j) * w + i)%nat.

(** [std::fill_n(flags_ + p, n, v)]. *)
Definition fill_n (p n : nat) (v : Z) (fl : list Z) : list Z :=
  foldl (fun fl k => <[(p + k)%nat := v]> fl) fl (seq 0 n).

Definition partialRowFlags : list Z :=
  [0; Z.lor T1_PI_1 (Z.lor T1_PI_2 T1_PI_3); Z.lor T1_PI_2 T1_PI_3; T1_PI_3].

Definition flagsLen : nat := (((h + 3) / 4 + 2) * getFlagsStride)%nat.
Definition initFlags : list Z :=
  let fl := replicate flagsLen 0 in
  let fl := fill_n 0 getFlagsStride T1_PI_ALL fl in
  let fl := fill_n ((getFlagsHeight + 1) * getFlagsStride) getFlagsStride T1_PI_ALL fl in
  if (h mod 4 =? 0)%nat then fl
  else fill_n (getFlagsHeight * getFlagsStride) getFlagsStride (nth (h mod 4) partialRowFlags 0) fl.

(** ** Encoder passes (BlockCoderEnc.cpp) *)

(** One symbol handed to the coder: in a context of the MQ coder, or raw. *)
Inductive decision := MQ (ctxno : nat) (d : Z) | RAW (d : Z).

(** The encoder's members that the passes change; [e_nmsedec] is [None] for a null
    [nmsedec] pointer. *)
Record encst := mkE { e_flags : list Z; e_out : list decision; e_nmsedec : option Z }.

Definition emit (x : decision) (e : encst) : encst := mkE (e_flags e) (e_out e ++ [x]) (e_nmsedec e).
Definition set_flags (fl : list Z) (e : encst) : encst := mkE fl (e_out e) (e_nmsedec e).
Definition add_nmsedec (x : Z) (e : encst) : encst :=
  mkE (e_flags e) (e_out e) ((fun n => i32 (n + x)) <$> e_nmsedec e).
Definition zero_nmsedec (e : encst) : encst := mkE (e_flags e) (e_out e) ((fun _ => 0) <$> e_nmsedec e).

Definition nmsedec_index (x bitpos : Z) : Z :=
  Z.land (Z.shiftr x bitpos) (Z.shiftl 1 T1_NMSEDEC_BITS - 1).
Definition getnmsedec_sig (x bitpos : Z) : Z :=
  if 0 <? bitpos then nthZ 0 lut_nmsedec_sig (nmsedec_index x bitpos)
  else nthZ 0 lut_nmsedec_sig0 (nmsedec_index x 0).
Definition getnmsedec_ref (x bitpos : Z) : Z :=
  if 0 <? bitpos then nthZ 0 lut_nmsedec_ref (nmsedec_index x bitpos)
  else nthZ 0 lut_nmsedec_ref0 (nmsedec_index x 0).

Context (orientation : Z) (data : list Z).

(** [!!(smr_abs(x) & one)]. *)
Definition plane_bit (bpno x : Z) : Z :=
  bit_of (negb (Z.land (smr_abs x) (Z.shiftl 1 (bpno + T1_NMSEDEC_FRACBITS)) =? 0)).
Definition sample (s i j : nat) : Z := nth (dataIdx s i j) data 0.

Definition sc_index (fl : list Z) (f : Z) (p : nat) (ci : Z) : Z :=
  getctxtno_sc_or_spb_index f (word fl (p - 1)) (word fl (p + 1)) ci.

Definition put (raw : bool) (ctxno : nat) (d : Z) : decision := if raw then RAW d else MQ ctxno d.

(** Code the sign of a sample that becomes significant. *)
Definition enc_sign (raw : bool) (bpno : Z) (p : nat) (x ci : Z) (vsc : bool) (e : encst) : encst :=
  let lu := sc_index (e_flags e) (word (e_flags e) p) p ci in
  let v := smr_sign x in
  let e := add_nmsedec (getnmsedec_sig (smr_abs x) bpno) e in
  let e := emit (put raw (ctxno_sc lu) (if raw then v else Z.lxor v (spb lu))) e in
  set_flags (update_flags (e_flags e) p ci v getFlagsStride vsc) e.

Definition enc_sigpass_step (raw : bool) (bpno : Z) (p : nat) (x ci : Z) (vsc : bool) (e : encst) : encst :=
  let f := word (e_flags e) p in
  if to_propagate f ci then
    let v := plane_bit bpno x in
    let e := emit (put raw (GETCTXNO_ZC orientation (Z.shiftr f ci)) v) e in
    let e := if v =? 0 then e else enc_sign raw bpno p x ci vsc e in
    set_flags (or_at p (Z.shiftl T1_PI_THIS ci) (e_flags e)) e
  else e.

(** The stripes of four rows, then the columns of a last, lower stripe. *)
Definition enc_columns (full part : nat -> nat -> encst -> encst) (e : encst) : encst :=
  let e := foldl (fun e s => foldl (fun e i => full s i e) e (seq 0 w)) e (seq 0 (h / 4)) in
  if (4 * (h / 4) <? h)%nat then foldl (fun e i => part (h / 4)%nat i e) e (seq 0 w) else e.

Definition VSC (cblksty : Z) : bool := has cblksty 0x08.

Definition enc_sig_full (raw : bool) (bpno : Z) (vsc : bool) (s i : nat) (e : encst) : encst :=
  let p := flagsPtr s i in
  if word (e_flags e) p =? 0 then e
  else
    let e := enc_sigpass_step raw bpno p (sample s i 0) 0 vsc e in
    let e := enc_sigpass_step raw bpno p (sample s i 1) 3 false e in
    let e := enc_sigpass_step raw bpno p (sample s i 2) 6 false e in
    enc_sigpass_step raw bpno p (sample s i 3) 9 false e.
Definition enc_sig_part (raw : bool) (bpno : Z) (vsc : bool) (s i : nat) (e : encst) : encst :=
  let p := flagsPtr s i in
  if word (e_flags e) p =? 0 then e
  else foldl (fun e j => enc_sigpass_step raw bpno p (sample s i j) (3 * Z.of_nat j)
                           ((j =? 0)%nat && vsc) e) e (seq 0 (h - 4 * s)).
Definition enc_sigpass (bpno : Z) (raw : bool) (cblksty : Z) (e : encst) : encst :=
  enc_columns (enc_sig_full raw bpno (VSC cblksty)) (enc_sig_part raw bpno (VSC cblksty)) (zero_nmsedec e).

Definition enc_refpass_step (raw : bool) (bpno : Z) (p : nat) (x ci : Z) (e : encst) : encst :=
  let shift_flags := Z.shiftr (word (e_flags e) p) ci in
  if Z.land shift_flags (Z.lor T1_SIGMA_THIS T1_PI_THIS) =? T1_SIGMA_THIS then
    let ctxno := GETCTXNO_MAG shift_flags in
    let e := add_nmsedec (getnmsedec_ref (smr_abs x) bpno) e in
    let e := emit (put raw ctxno (plane_bit bpno x)) e in
    set_flags (or_at p (Z.shiftl T1_MU_THIS ci) (e_flags e)) e
  else e.

Definition enc_ref_full (raw : bool) (bpno : Z) (s i : nat) (e : encst) : encst :=
  let p := flagsPtr s i in
  if Z.land (word (e_flags e) p) T1_SIGMA_ALL =? 0 then e
  else if Z.land (word (e_flags e) p) T1_PI_ALL =? T1_PI_ALL then e
  else
    let e := enc_refpass_step raw bpno p (sample s i 0) 0 e in
    let e := enc_refpass_step raw bpno p (sample s i 1) 3 e in
    let e := enc_refpass_step raw bpno p (sample s i 2) 6 e in
    enc_refpass_step raw bpno p (sample s i 3) 9 e.
Definition enc_ref_part (raw : bool) (bpno : Z) (s i : nat) (e : encst) : encst :=
  let p := flagsPtr s i in
  if Z.land (word (e_flags e) p) T1_SIGMA_ALL =? 0 then e
  else foldl (fun e j => enc_refpass_step raw bpno p (sample s i j) (3 * Z.of_nat j) e) e
         (seq 0 (h - 4 * s)).
Definition enc_refpass (bpno : Z) (raw : bool) (e : encst) : encst :=
  enc_columns (enc_ref_full raw bpno) (enc_ref_part raw bpno) (zero_nmsedec e).

(** One iteration of the loop over [ci]; [partial] is the first sample of a run. *)
Definition enc_clnpass_step (bpno : Z) (partial vsc : bool) (p : nat) (x ci : Z) (e : encst) : encst :=
  let f := word (e_flags e) p in
  let '(goto_PARTIAL, e) :=
    if partial then (true, e)
    else if to_clean f ci then
      let v := plane_bit bpno x in
      (negb (v =? 0), emit (MQ (GETCTXNO_ZC orientation (Z.shiftr f ci)) v) e)
    else (false, e) in
  let e := if goto_PARTIAL then enc_sign false bpno p x ci (vsc && (ci =? 0)) e else e in
  set_flags (clear_at p (Z.shiftl T1_PI_THIS ci) (e_flags e)) e.

(** The first row of the column whose bit is set, 4 if there is none. *)
Definition run_length (bpno : Z) (s i : nat) : nat :=
  if negb (plane_bit bpno (sample s i 0) =? 0) then 0
  else if negb (plane_bit bpno (sample s i 1) =? 0) then 1
  else if negb (plane_bit bpno (sample s i 2) =? 0) then 2
  else if negb (plane_bit bpno (sample s i 3) =? 0) then 3 else 4.

(** [switch(runlen)]: the [pi] bits from row [runlen] on. *)
Definition pi_from (runlen : nat) : Z :=
  match runlen with
  | 0%nat => T1_PI_ALL
  | 1%nat => Z.lor T1_PI_1 (Z.lor T1_PI_2 T1_PI_3)
  | 2%nat => Z.lor T1_PI_2 T1_PI_3
  | _ => T1_PI_3
  end.
Definition clear_checked (runlen : nat) (p : nat) (e : encst) : encst :=
  let check := Z.lor T1_SIGMA_ALL T1_PI_ALL in
  if Z.land (word (e_flags e) p) check =? check then set_flags (clear_at p (pi_from runlen) (e_flags e)) e
  else e.

Definition enc_cln_rows (bpno : Z) (agg vsc : bool) (s i runlen lim : nat) (e : encst) : encst :=
  let p := flagsPtr s i in
  foldl (fun e j => enc_clnpass_step bpno (agg && (j =? runlen)%nat) vsc p (sample s i j) (3 * Z.of_nat j) e)
    (clear_checked runlen p e) (seq runlen (lim - runlen)).

Definition enc_cln_full (bpno : Z) (vsc : bool) (s i : nat) (e : encst) : encst :=
  let agg := word (e_flags e) (flagsPtr s i) =? 0 in
  if agg then
    let runlen := run_length bpno s i in
    let e := emit (MQ T1_CTXNO_AGG (bit_of (negb (runlen =? 4)%nat))) e in
    if (runlen =? 4)%nat then e
    else
      let e := emit (MQ T1_CTXNO_UNI (Z.shiftr (Z.of_nat runlen) 1)) e in
      let e := emit (MQ T1_CTXNO_UNI (Z.land (Z.of_nat runlen) 1)) e in
      enc_cln_rows bpno true vsc s i runlen 4 e
  else enc_cln_rows bpno false vsc s i 0 4 e.
Definition enc_cln_part (bpno : Z) (vsc : bool) (s i : nat) (e : encst) : encst :=
  enc_cln_rows bpno false vsc s i 0 (h - 4 * s) e.
Definition enc_clnpass (bpno : Z) (cblksty : Z) (e : encst) : encst :=
  enc_columns (enc_cln_full bpno (VSC cblksty)) (enc_cln_part bpno (VSC cblksty)) (zero_nmsedec e).

End block.

(** ** Programs that ask for symbols *)

Inductive prog (A : Type) : Type :=
| Ret (a : A)
| Sym (ctxno : nat) (k : Z -> prog A)
| Raw (k : Z -> prog A).
Arguments Ret {A} a.
Arguments Sym {A} ctxno k.
Arguments Raw {A} k.

#[export] Instance prog_bind : MBind prog :=
  fun A B f => fix go m :=
    match m with
    | Ret a => f a
    | Sym c k => Sym c (fun v => go (k v))
    | Raw k => Raw (fun v => go (k v))
    end.

(** [for(x : l) s = f(s, x)]. *)
Fixpoint pfold {A S} (f : S -> A -> prog S) (s : S) (l : list A) : prog S :=
  match l with
  | [] => Ret s
  | x :: l => s ← f s x; pfold f s l
  end.

(** The symbols taken from a list of decisions, and from the decoder. *)
Fixpoint feed {A} (m : prog A) (ds : list decision) : option (A * list decision) :=
  match m, ds with
  | Ret a, _ => Some (a, ds)
  | Sym c k, MQ c' d :: ds => if (c =? c')%nat then feed (k d) ds else None
  | Raw k, RAW d :: ds => feed (k d) ds
  | _, _ => None
  end.
Fixpoint run {A} (m : prog A) (d : mqdec) : A * mqdec :=
  match m with
  | Ret a => (a, d)
  | Sym c k => let '(v, d) := DEC_SYMBOL (DEC_SETCURCTX c d) in run (k v) d
  | Raw k => let '(v, d) := DEC_SYMBOL_RAW d in run (k v) d
  end.

(** ** Decoder passes (BlockCoderMacros.h, BlockCoderDec.cpp, BlockCoderEnc.cpp) *)

Record decst := mkD { d_flags : list Z; d_data : list Z }.
Definition set_dflags (fl : list Z) (st : decst) : decst := mkD fl (d_data st).
Definition set_ddata (off : nat) (x : Z) (st : decst) : decst := mkD (d_flags st) (<[off := x]> (d_data st)).
Definition datum (st : decst) (off : nat) : Z := nth off (d_data st) 0.

Section decoder.
Context (w h : nat) (orientation : Z).

(** [one], [half], [oneplushalf] of a pass. *)
Definition dec_one (bpno : Z) : Z := i32 (Z.shiftl 1 bpno).
Definition dec_half (bpno : Z) : Z := Z.shiftr (dec_one bpno) 1.
Definition oneplushalf (bpno : Z) : Z := Z.lor (dec_one bpno) (dec_half bpno).

(** Decode the sign of a sample that becomes significant; [f] is [_flags]. *)
Definition dec_sign (bpno : Z) (vsc : bool) (p off : nat) (ci : Z) (x : Z * decst) : prog (Z * decst) :=
  let '(f, st) := x in
  let lu := sc_index (d_flags st) f p ci in
  v ← Sym (ctxno_sc lu) Ret;
  let v := Z.lxor v (spb lu) in
  let st := set_ddata off (if v =? 0 then oneplushalf bpno else i32 (- oneplushalf bpno)) st in
  let '(f, fl) := UPDATE_FLAGS f (d_flags st) p ci v (getFlagsStride w) vsc in
  Ret (f, set_dflags fl st).

Definition DEC_PASS_SIG_STEP (bpno : Z) (vsc : bool) (p off : nat) (ci : Z) (x : Z * decst) : prog (Z * decst) :=
  if to_propagate x.1 ci then
    v ← Sym (GETCTXNO_ZC orientation (Z.shiftr x.1 ci)) Ret;
    x ← (if v =? 0 then Ret x else dec_sign bpno vsc p off ci x);
    Ret (Z.lor x.1 (Z.shiftl T1_PI_THIS ci), x.2)
  else Ret x.

Definition DEC_PASS_REF_STEP (bpno : Z) (off : nat) (ci : Z) (x : Z * decst) : prog (Z * decst) :=
  if to_refine x.1 ci then
    v ← Sym (GETCTXNO_MAG (Z.shiftr x.1 ci)) Ret;
    let d := datum x.2 off in
    let poshalf := dec_half bpno in
    let d' := i32 (d + (if Z.lxor v (bit_of (d <? 0)) =? 0 then - poshalf else poshalf)) in
    Ret (Z.lor x.1 (Z.shiftl T1_MU_THIS ci), set_ddata off d' x.2)
  else Ret x.

Definition DEC_PASS_CLN_STEP (checkFlags partial : bool) (bpno : Z) (vsc : bool) (p off : nat) (ci : Z)
    (x : Z * decst) : prog (Z * decst) :=
  if negb checkFlags || to_clean x.1 ci then
    v ← (if partial then Ret 1 else Sym (GETCTXNO_ZC orientation (Z.shiftr x.1 ci)) Ret);
    if v =? 0 then Ret x else dec_sign bpno vsc p off ci x
  else Ret x.

(** The rows of a column with the word in [_flags], which is written back. *)
Definition dec_rows (step : nat -> Z * decst -> prog (Z * decst)) (s i : nat) (rows : list nat) (st : decst) :
    prog decst :=
  let p := flagsPtr w s i in
  x ← pfold (fun x j => step j x) (word (d_flags st) p, st) rows;
  Ret (set_dflags (<[p := x.1]> (d_flags x.2)) x.2).

Definition dec_columns (full part : nat -> nat -> decst -> prog decst) (st : decst) : prog decst :=
  st ← pfold (fun st s => pfold (fun st i => full s i st) st (seq 0 w)) st (seq 0 (h / 4));
  if (4 * (h / 4) <? h)%nat then pfold (fun st i => part (h / 4)%nat i st) st (seq 0 w) else Ret st.

(** *** Significance propagation *)

Definition dec_sig_full (bpno : Z) (vsc : bool) (s i : nat) (st : decst) : prog decst :=
  let p := flagsPtr w s i in
  if word (d_flags st) p =? 0 then Ret st
  else dec_rows (fun j => DEC_PASS_SIG_STEP bpno ((j =? 0)%nat && vsc) p (dataIdx w s i j) (3 * Z.of_nat j))
         s i [0; 1; 2; 3]%nat st.
Definition dec_sig_part (bpno : Z) (vsc : bool) (s i : nat) (st : decst) : prog decst :=
  let p := flagsPtr w s i in
  pfold (fun st j => dec_rows (fun j => DEC_PASS_SIG_STEP bpno vsc p (dataIdx w s i j) (3 * Z.of_nat j)) s i [j] st)
    st (seq 0 (h - 4 * s)).
Definition dec_sigpass (bpno : Z) (cblksty : Z) (st : decst) : prog decst :=
  dec_columns (dec_sig_full bpno (VSC cblksty)) (dec_sig_part bpno (VSC cblksty)) st.

(** *** Magnitude refinement *)

Definition dec_ref_full (bpno : Z) (s i : nat) (st : decst) : prog decst :=
  if word (d_flags st) (flagsPtr w s i) =? 0 then Ret st
  else dec_rows (fun j => DEC_PASS_REF_STEP bpno (dataIdx w s i j) (3 * Z.of_nat j)) s i [0; 1; 2; 3]%nat st.
Definition dec_ref_part (bpno : Z) (s i : nat) (st : decst) : prog decst :=
  pfold (fun st j => dec_rows (fun j => DEC_PASS_REF_STEP bpno (dataIdx w s i j) (3 * Z.of_nat j)) s i [j] st)
    st (seq 0 (h - 4 * s)).
Definition dec_refpass (bpno : Z) (st : decst) : prog decst := dec_columns (dec_ref_full bpno) (dec_ref_part bpno) st.

(** *** Cleanup *)

(** The cases of [switch(runlen)], which fall through; only the first is [partial]. *)
Definition dec_cln_run (bpno : Z) (vsc : bool) (s i runlen : nat) (x : Z * decst) : prog (bool * (Z * decst)) :=
  pfold (fun bx j =>
    x ← DEC_PASS_CLN_STEP false bx.1 bpno ((j =? 0)%nat && vsc) (flagsPtr w s i) (dataIdx w s i j) (3 * Z.of_nat j) bx.2;
    Ret (false, x)) (true, x) (drop runlen [0; 1; 2; 3]%nat).

Definition dec_cln_full (bpno : Z) (vsc : bool) (s i : nat) (st : decst) : prog decst :=
  let p := flagsPtr w s i in
  let f := word (d_flags st) p in
  let write_back (x : Z * decst) := set_dflags (<[p := Z.ldiff x.1 T1_PI_ALL]> (d_flags x.2)) x.2 in
  if f =? 0 then
    d ← Sym T1_CTXNO_AGG Ret;
    if d =? 0 then Ret st
    else
      r ← Sym T1_CTXNO_UNI Ret;
      d ← Sym T1_CTXNO_UNI Ret;
      bx ← dec_cln_run bpno vsc s i (Z.to_nat (Z.lor (Z.shiftl r 1) d)) (f, st);
      Ret (write_back bx.2)
  else
    x ← pfold (fun x j => DEC_PASS_CLN_STEP true false bpno ((j =? 0)%nat && vsc) p (dataIdx w s i j)
                             (3 * Z.of_nat j) x) (f, st) [0; 1; 2; 3]%nat;
    Ret (write_back x).
Definition dec_cln_part (bpno : Z) (vsc : bool) (s i : nat) (st : decst) : prog decst :=
  let p := flagsPtr w s i in
  st ← pfold (fun st j => dec_rows (fun j => DEC_PASS_CLN_STEP true false bpno vsc p (dataIdx w s i j)
                                        (3 * Z.of_nat j)) s i [j] st) st (seq 0 (h - 4 * s));
  Ret (set_dflags (clear_at p T1_PI_ALL (d_flags st)) st).

(** Segmentation symbol: four symbols that should read 1010; the result is only
    reported. *)
Definition checkSegSym (cblksty : Z) : prog Z :=
  if has cblksty 0x20 then
    v ← Sym T1_CTXNO_UNI Ret;
    pfold (fun v _ => v2 ← Sym T1_CTXNO_UNI Ret; Ret (Z.lor (Z.shiftl v 1) v2)) v [1; 2; 3]
  else Ret 0xa.
Definition dec_clnpass (bpno : Z) (cblksty : Z) (st : decst) : prog decst :=
  st ← dec_columns (dec_cln_full bpno (VSC cblksty)) (dec_cln_part bpno (VSC cblksty)) st;
  _ ← checkSegSym cblksty; Ret st.

(** *** Raw passes *)

Definition dec_sigpass_step_raw (bpno : Z) (vsc : bool) (p off : nat) (ci : Z) (st : decst) : prog decst :=
  if to_propagate (word (d_flags st) p) ci then
    v ← Raw Ret;
    st ← (if v =? 0 then Ret st
           else
             v ← Raw Ret;
             let st := set_ddata off (if v =? 0 then oneplushalf bpno else i32 (- oneplushalf bpno)) st in
             Ret (set_dflags (update_flags (d_flags st) p ci v (getFlagsStride w) vsc) st));
    Ret (set_dflags (or_at p (Z.shiftl T1_PI_THIS ci) (d_flags st)) st)
  else Ret st.
Definition dec_sigpass_raw (bpno : Z) (cblksty : Z) (st : decst) : prog decst :=
  let step vsc s i st j := dec_sigpass_step_raw bpno vsc (flagsPtr w s i) (dataIdx w s i j) (3 * Z.of_nat j) st in
  dec_columns
    (fun s i st =>
       if word (d_flags st) (flagsPtr w s i) =? 0 then Ret st
       else pfold (fun st j => step ((j =? 0)%nat && VSC cblksty) s i st j) st [0; 1; 2; 3]%nat)
    (fun s i st => pfold (step (VSC cblksty) s i) st (seq 0 (h - 4 * s))) st.

Definition dec_refpass_step_raw (bpno : Z) (p off : nat) (ci : Z) (st : decst) : prog decst :=
  if to_refine (word (d_flags st) p) ci then
    v ← Raw Ret;
    let d := datum st off in
    let poshalf := dec_half bpno in
    let adjustment := if Z.lxor v (bit_of (d <? 0)) =? 0 then - poshalf else poshalf in
    let st := set_ddata off (i32 (d + adjustment)) st in
    Ret (set_dflags (or_at p (Z.shiftl T1_MU_THIS ci) (d_flags st)) st)
  else Ret st.
Definition dec_refpass_raw (bpno : Z) (st : decst) : prog decst :=
  let step s i st j := dec_refpass_step_raw bpno (flagsPtr w s i) (dataIdx w s i j) (3 * Z.of_nat j) st in
  dec_columns
    (fun s i st => if word (d_flags st) (flagsPtr w s i) =? 0 then Ret st else pfold (step s i) st [0; 1; 2; 3]%nat)
    (fun s i st => pfold (step s i) st (seq 0 (h - 4 * s))) st.

(** The passes of [BlockCoder::decompressPass], without cached layers. *)
Definition dec_pass (passtype numBpsToDecompress : Z) (raw : bool) (cblksty : Z) (st : decst) : prog decst :=
  if passtype =? 0 then
    if raw then dec_sigpass_raw numBpsToDecompress cblksty st else dec_sigpass numBpsToDecompress cblksty st
  else if passtype =? 1 then
    if raw then dec_refpass_raw numBpsToDecompress st else dec_refpass numBpsToDecompress st
  else if passtype =? 2 then dec_clnpass numBpsToDecompress cblksty st
  else Ret st.

End decoder.

(** ** Compressing a block (Coder::preCompress, BlockCoder::compress_cblk) *)

Definition GRK_CBLKSTY_RESET : Z := 0x02.
Definition GRK_CBLKSTY_PTERM : Z := 0x10.
Definition GRK_CBLKSTY_SEGSYM : Z := 0x20.

(** The reversible branch of [preCompress]: each coefficient is scaled in place and
    stored in sign-magnitude form. *)
Record precompress := mkPre { pc_tiledp : list Z; pc_maximum : Z; pc_data : list Z }.
Definition precompress_step (tile_index : nat) (x : precompress) : precompress :=
  let temp := i32 (nth tile_index (pc_tiledp x) 0 * Z.shiftl 1 T1_NMSEDEC_FRACBITS) in
  let mag := i32 (temp * (bit_of (0 <? temp) - bit_of (temp <? 0))) in
  let sgn := i32 (u32 (bit_of (negb (mag =? temp)) * 0x80000000)) in
  mkPre (<[tile_index := temp]> (pc_tiledp x))
        (if pc_maximum x <? u32 mag then u32 mag else pc_maximum x)
        (pc_data x ++ [Z.lor sgn mag]).
Definition preCompress (w h tile_width : nat) (tiledp : list Z) : option precompress :=
  if ((w =? 0) || (h =? 0))%nat then None
  else if (tile_width <? w)%nat then None
  else Some (foldl (fun x j => foldl (fun x i => precompress_step (j * tile_width + i) x) x (seq 0 w))
               (mkPre tiledp 0 []) (seq 0 h)).

Definition coder_put (e : mqenc) (x : decision) : mqenc :=
  match x with
  | MQ ctxno d => mqc_encode d (CODER_SETCURCTX ctxno e)
  | RAW d => mqc_bypass_enc d e
  end.
Definition enc_resetstates (e : mqenc) : mqenc :=
  MkEnc (c_ e) (a_ e) (ct_ e) (bp_ e) (data_ e) resetstates (curctx_ e).

Record pass_enc := mkPassEnc { pe_rate : Z; pe_len : Z; pe_term : bool }.

Definition enc_type_raw (numbps cblksty bpno passtype : Z) : bool :=
  (bpno <? numbps - 4) && (passtype <? 2) && has cblksty GRK_CBLKSTY_LAZY.

Definition rate_extra_bytes (raw : bool) (cblksty : Z) (e : mqenc) : Z :=
  if raw then bypass_get_extra_bytes_enc (has cblksty GRK_CBLKSTY_PTERM) e
  else if ct_ e <? 5 then 4 + 1 + 1 else 4 + 1.

Section compress.
Context (w h : nat) (orientation : Z) (data : list Z) (cblksty : Z).

Definition enc_pass (passtype bpno : Z) (raw : bool) (es : encst) : encst :=
  if passtype =? 0 then enc_sigpass w h orientation data bpno raw cblksty es
  else if passtype =? 1 then enc_refpass w h data bpno raw es
  else if passtype =? 2 then enc_clnpass w h orientation data bpno cblksty es
  else es.

(** The coder's part of one iteration of the pass loop, the flags' part apart: [ds]
    are the decisions of the pass. *)
Definition start_pass (prev_term raw : bool) (e : mqenc) : mqenc :=
  if prev_term then (if raw then bypass_init_enc e else restart_init_enc e) else e.
Definition code_pass (passtype : Z) (ds : list decision) (e : mqenc) : mqenc :=
  let e := foldl coder_put e ds in
  if (passtype =? 2) && has cblksty GRK_CBLKSTY_SEGSYM then segmark_enc e else e.
Definition end_pass (raw term : bool) (e : mqenc) : pass_enc * mqenc :=
  let '(rate, e) :=
    if term then
      let e := if raw then bypass_flush_enc (has cblksty GRK_CBLKSTY_PTERM) e
               else terminate (has cblksty GRK_CBLKSTY_PTERM) e in
      (numbytes_enc e, e)
    else (u16 (numbytes_enc e + rate_extra_bytes raw cblksty e), e) in
  (mkPassEnc rate 0 term, if has cblksty GRK_CBLKSTY_RESET then enc_resetstates e else e).

(** [for(passno = 0; bpno >= 0; ++passno)], without the early termination heuristic
    of rate control. *)
Fixpoint compress_loop (fuel : nat) (numbps passtype bpno : Z) (prev_term : bool) (es : encst) (e : mqenc) :
    list pass_enc * encst * mqenc :=
  match fuel with
  | O => ([], es, e)
  | S fuel =>
      if bpno <? 0 then ([], es, e)
      else
        let raw := enc_type_raw numbps cblksty bpno passtype in
        let e := start_pass prev_term raw e in
        let es := enc_pass passtype bpno raw (mkE (e_flags es) [] (e_nmsedec es)) in
        let e := code_pass passtype (e_out es) e in
        let term := enc_is_term_pass numbps cblksty bpno passtype in
        let '(pass, e) := end_pass raw term e in
        let '(passtype, bpno) := next_pass (passtype, bpno) in
        let '(passes, es, e) := compress_loop fuel numbps passtype bpno term es e in
        (pass :: passes, es, e)
  end.

(** Make sure that pass rates are increasing: from the last pass to the first. *)
Fixpoint increasing_rates (last_pass_rate : Z) (ps : list pass_enc) : list pass_enc * Z :=
  match ps with
  | [] => ([], last_pass_rate)
  | p :: ps =>
      let '(ps, last) := increasing_rates last_pass_rate ps in
      if last <? pe_rate p then (mkPassEnc last (pe_len p) (pe_term p) :: ps, last)
      else (p :: ps, pe_rate p)
  end.

(** Prevent generation of FF as last data byte of a pass; [cblk->data[i]] is the byte
    [i + 1] of the coder's memory. *)
Fixpoint pass_lengths (mem : list Z) (prev_rate : Z) (ps : list pass_enc) : list pass_enc :=
  match ps with
  | [] => []
  | p :: ps =>
      let rate := if nthZ 0 mem (pe_rate p) =? 0xff then u16 (pe_rate p - 1) else pe_rate p in
      mkPassEnc rate (u16 (rate - prev_rate)) (pe_term p) :: pass_lengths mem rate ps
  end.

Record cblk_enc := mkCblk { ce_numbps : Z; ce_passes : list pass_enc; ce_data : list Z }.

Definition block_numbps (max : Z) : Z :=
  if max =? 0 then 0
  else
    let temp := u8 (floorlog2 max + 1) in
    if temp <=? T1_NMSEDEC_FRACBITS then 0 else temp - T1_NMSEDEC_FRACBITS.

Definition compress_cblk (max : Z) (doRateControl : bool) : cblk_enc :=
  let numbps := block_numbps max in
  if numbps =? 0 then mkCblk 0 [] [0]
  else
    let es := mkE (initFlags w h) [] (if doRateControl then Some 0 else None) in
    let '(passes, _, e) :=
      compress_loop (Z.to_nat (3 * numbps)) numbps 2 (numbps - 1) false es (init_enc [0] resetstates) in
    let '(passes, _) := increasing_rates (numbytes_enc e) passes in
    mkCblk numbps (pass_lengths (data_ e) 0 passes) (data_ e).

End compress.

(** [Coder::compress], for the reversible transform: the block, and the samples of the
    tile as [preCompress] leaves them. *)
Definition Coder_compress (w h tile_width : nat) (orientation cblksty : Z) (doRateControl : bool) (tiledp : list Z) :
    option (cblk_enc * list Z) :=
  pre ← preCompress w h tile_width tiledp;
  Some (compress_cblk w h orientation (pc_data pre) cblksty (pc_maximum pre) doRateControl, pc_tiledp pre).

(** ** Decompressing a block (BlockCoder::decompress_cblk and
    CodeblockDecompressImpl::decompress), all layers at once *)

Definition dec_type_raw (numbps cblksty bitPlanesToDecompress passtype : Z) : bool :=
  has cblksty GRK_CBLKSTY_LAZY && (4 <=? numbps) && (bitPlanesToDecompress <=? numbps - 4) && (passtype <? 2).
Definition dec_resetstates (d : mqdec) : mqdec :=
  MkDec (dc d) (da d) (dct d) (end_of_byte_stream_counter d) (dbufs d) (didx d) (dbp d) (overflow d)
    resetstates (dcurctx d).

Record dec_loop := mkDL { dl_passtype : Z; dl_bps : Z; dl_st : decst; dl_coder : mqdec }.

Section decompress.
Context (w h : nat) (orientation : Z) (cblksty : Z).

Definition decompressPass (raw : bool) (x : dec_loop) : dec_loop :=
  let '(st, d) := run (dec_pass w h orientation (dl_passtype x) (dl_bps x) raw cblksty (dl_st x)) (dl_coder x) in
  let d := if has cblksty GRK_CBLKSTY_RESET && negb raw then dec_resetstates d else d in
  let '(passtype, bps) := next_pass (dl_passtype x, dl_bps x) in
  mkDL passtype bps st d.

(** [while(passno_ < seg->totalPasses_ && bitPlanesToDecompress_ > 0)]. *)
Fixpoint decompress_passes (n : nat) (raw : bool) (x : dec_loop) : dec_loop :=
  match n with
  | O => x
  | S n => if 0 <? dl_bps x then decompress_passes n raw (decompressPass raw x) else x
  end.

(** Each segment is given by its buffers and its number of passes. *)
Fixpoint decompress_segments (numbps : Z) (segs : list (list (list Z) * nat)) (x : dec_loop) : dec_loop :=
  match segs with
  | [] => x
  | (bufs, totalPasses) :: segs =>
      if 0 <? dl_bps x then
        let raw := dec_type_raw numbps cblksty (dl_bps x) (dl_passtype x) in
        let ctxs := dctxs (dl_coder x) in
        let d := if raw then raw_init_dec bufs ctxs else init_dec bufs ctxs in
        let x := mkDL (dl_passtype x) (dl_bps x) (dl_st x) d in
        decompress_segments numbps segs (decompress_passes totalPasses raw x)
      else x
  end.

Definition dataChunksEmpty (segs : list (list (list Z) * nat)) : bool :=
  forallb (fun seg => (length seg.1 =? 0)%nat) segs.
Definition canDecompress (numbps : Z) (segs : list (list (list Z) * nat)) : bool :=
  negb (numbps =? 0) && negb (length segs =? 0)%nat && negb (dataChunksEmpty segs).

(** The samples after [decompress_cblk]; [None] is the error of [alloc] for a block
    without samples, and the one for too many planes. *)
Definition decompress_cblk (numbps : Z) (segs : list (list (list Z) * nat)) : option (list Z) :=
  let st := mkD (initFlags w h) (replicate (w * h) 0) in
  if ((w =? 0) || (h =? 0))%nat then None
  else if maxBitPlanesJ2K <? numbps then None
  else if negb (canDecompress numbps segs) then Some (d_data st)
  else
    let x := mkDL 2 numbps st (init_dec_common [] resetstates) in
    Some (d_data (dl_st (decompress_segments numbps segs x))).

End decompress.

(** [ShiftFilter::copy]: the half bit below the last plane is dropped. *)
Definition ShiftFilter (src : list Z) : list Z := (fun x => Z.quot x 2) <$> src.

(** [Coder::decompress], with the filter of the reversible transform. *)
Definition Coder_decompress (w h : nat) (orientation cblksty numbps : Z) (segs : list (list (list Z) * nat)) :
    option (list Z) :=
  ShiftFilter <$> decompress_cblk w h orientation cblksty numbps segs.
