(* ===== verification/BlockFlags.v ===== *)
(** The flag words of the block coder, bit by bit.

    Encoder and decoder keep the same flags, up to the [pi] bits of rows a last,
    lower stripe does not have (and, inside a cleanup column, of rows already
    cleaned): [same_flags] compares words under a mask.  This file has what the
    operations on flag words do to the bits of each sample ([sigma], [pi]), and that
    the tests and the context selection do not see the masked bits. *)
From S2P Require Import Prelude BitIO Geometry Codeblock BlockLuts MQCoder BlockCoder.

(** ** Words *)

Lemma word_alter (g : Z -> Z) q fl p : word (alter g q fl) p =
  if decide (p = q /\ (q < length fl)%nat) then g (word fl p) else word fl p.
Proof.
  unfold word. rewrite !nth_lookup. destruct (decide _) as [[-> Hq]|Hn].
  - rewrite list_lookup_alter_eq. destruct (lookup_lt_is_Some_2 fl q Hq) as [x ->]. done.
  - destruct (decide (p = q)) as [->|Hne].
    + rewrite list_lookup_alter_eq. destruct (fl !! q) eqn:E; [|done].
      exfalso. apply Hn. split; [done|]. by apply lookup_lt_Some in E.
    + by rewrite list_lookup_alter_ne.
Qed.
Lemma word_insert q f fl p : word (<[q := f]> fl) p =
  if decide (p = q /\ (q < length fl)%nat) then f else word fl p.
Proof.
  unfold word. rewrite !nth_lookup. destruct (decide _) as [[-> Hq]|Hn].
  - by rewrite list_lookup_insert_eq.
  - destruct (decide (p = q)) as [->|Hne].
    + by rewrite list_insert_ge by lia.
    + by rewrite list_lookup_insert_ne.
Qed.
Lemma word_or q m fl p : word (or_at q m fl) p =
  if decide (p = q /\ (q < length fl)%nat) then Z.lor (word fl p) m else word fl p.
Proof. apply word_alter. Qed.
Lemma word_clear q m fl p : word (clear_at q m fl) p =
  if decide (p = q /\ (q < length fl)%nat) then Z.ldiff (word fl p) m else word fl p.
Proof. apply word_alter. Qed.
Lemma length_or q m fl : length (or_at q m fl) = length fl.
Proof. apply length_alter. Qed.
Lemma length_clear q m fl : length (clear_at q m fl) = length fl.
Proof. apply length_alter. Qed.

Lemma or_insert_comm q m p f fl : p <> q -> <[p := f]> (or_at q m fl) = or_at q m (<[p := f]> fl).
Proof.
  intros Hn. unfold or_at. apply list_eq. intros k. destruct (decide (k = q)) as [->|Hq].
  - rewrite list_lookup_insert_ne by done. by rewrite !list_lookup_alter_eq, list_lookup_insert_ne.
  - rewrite (list_lookup_alter_ne _ (<[p:=f]> fl)) by done. destruct (decide (k = p)) as [->|Hk].
    + destruct (Nat.lt_ge_cases p (length fl)) as [Hp|Hp].
      * by rewrite !list_lookup_insert_eq by (rewrite ?length_alter; done).
      * rewrite !list_insert_ge by (rewrite ?length_alter; done). by rewrite list_lookup_alter_ne.
    + by rewrite !list_lookup_insert_ne, list_lookup_alter_ne.
Qed.
Lemma word_eta p fl : <[p := word fl p]> fl = fl.
Proof.
  destruct (Nat.lt_ge_cases p (length fl)) as [Hp|Hp]; [|by apply list_insert_ge].
  apply list_insert_id. unfold word. rewrite nth_lookup.
  destruct (lookup_lt_is_Some_2 fl p Hp) as [x ->]. done.
Qed.

(** ** The bits of a sample *)

(** The significance and visited bits of the four rows. *)
Definition OWN : Z := Z.lor T1_SIGMA_ALL T1_PI_ALL.
Definition sbit (j : nat) : Z := 4 + 3 * Z.of_nat j.
Definition pbit (j : nat) : Z := 21 + 3 * Z.of_nat j.

Ltac four j := destruct j as [|[|[|[|j]]]]; [| | | |exfalso; lia].

Lemma own_bits j : (j < 4)%nat -> Z.testbit OWN (sbit j) = true /\ Z.testbit OWN (pbit j) = true.
Proof. intros Hj. four j; done. Qed.

Lemma outside_own m n : Z.land m OWN = 0 -> Z.testbit OWN n = true -> Z.testbit m n = false.
Proof.
  intros Hm Hn. pose proof (f_equal (fun x => Z.testbit x n) Hm) as H.
  cbn beta in H. rewrite Z.land_spec, Hn, Z.bits_0, andb_true_r in H. done.
Qed.

(** The flags change, but not the bits of the samples. *)
Definition same_own (fl fl' : list Z) : Prop :=
  length fl' = length fl /\
  forall p n, Z.testbit OWN n = true -> Z.testbit (word fl' p) n = Z.testbit (word fl p) n.

Lemma same_own_refl fl : same_own fl fl.
Proof. done. Qed.
Lemma same_own_trans a b c : same_own a b -> same_own b c -> same_own a c.
Proof. intros [L1 H1] [L2 H2]. split; [congruence|]. intros p n Hn. rewrite H2, H1; done. Qed.
Lemma same_own_or q m fl : Z.land m OWN = 0 -> same_own fl (or_at q m fl).
Proof.
  intros Hm. split; [apply length_or|]. intros p n Hn. rewrite word_or.
  destruct (decide _); [|done]. rewrite Z.lor_spec, (outside_own m n Hm Hn), orb_false_r. done.
Qed.

Lemma same_own_or_r q m fl fl' : same_own fl fl' -> Z.land m OWN = 0 -> same_own fl (or_at q m fl').
Proof. intros H Hm. eapply same_own_trans; [done|]. by apply same_own_or. Qed.

Lemma neighbours_own f fl p j s stride vsc : (j < 4)%nat -> s = 0 \/ s = 1 ->
  same_own fl (UPDATE_FLAGS f fl p (3 * Z.of_nat j) s stride vsc).2.
Proof.
  intros Hj Hs. unfold UPDATE_FLAGS. cbn [snd].
  assert (same_own fl (or_at (p + 1) (Z.shiftl (T1_SIGMA 3) (3 * Z.of_nat j))
    (or_at (p - 1) (Z.shiftl (T1_SIGMA 5) (3 * Z.of_nat j)) fl))) as H.
  { apply same_own_or_r; [apply same_own_or|]; four j; done. }
  destruct ((3 * Z.of_nat j =? 0) && negb vsc), (3 * Z.of_nat j =? 9); [| | |done];
    repeat (apply same_own_or_r; [|destruct Hs as [-> | ->]; done]); done.
Qed.

(** The column's own word gets the significance bit of the row (and a sign bit). *)
Lemma own_word f j s n : (j < 4)%nat -> s = 0 \/ s = 1 -> Z.testbit OWN n = true ->
  Z.testbit (Z.lor f (Z.shiftl (Z.lor (Z.shiftl s T1_CHI_1_I) (T1_SIGMA 4)) (3 * Z.of_nat j))) n =
  Z.testbit f n || (n =? sbit j).
Proof.
  intros Hj Hs Hn. rewrite Z.lor_spec. f_equal.
  assert (0 <= n < 32) as Hr.
  { split.
    - destruct (Z_lt_le_dec n 0); [|done]. by rewrite Z.testbit_neg_r in Hn.
    - destruct (Z_lt_le_dec n 32); [done|]. rewrite (testbit_small OWN 32) in Hn; [done| |lia].
      split; [done|reflexivity]. }
  assert (n = 4 \/ n = 7 \/ n = 10 \/ n = 13 \/ n = 21 \/ n = 24 \/ n = 27 \/ n = 30) as Hc.
  { assert (forallb (fun n => negb (Z.testbit OWN n) || existsb (Z.eqb n) [4; 7; 10; 13; 21; 24; 27; 30])
      (seqZ 0 32) = true) as H by (vm_compute; reflexivity).
    rewrite forallb_forall in H. specialize (H n). rewrite Hn in H. cbn in H.
    rewrite !orb_true_iff, !Z.eqb_eq in H. destruct H; try tauto; [|lia..].
    apply list_elem_of_In, elem_of_seqZ. lia. }
  destruct Hs as [-> | ->]; four j; destruct Hc as [->|[->|[->|[->|[->|[->|[->| ->]]]]]]]; reflexivity.
Qed.

(** ** The flags of a block *)

Section layout.
Context (w h : nat).
Abbreviation stride := (getFlagsStride w).
Abbreviation ptr := (flagsPtr w).

(** Row [j] of column [i] in stripe [s] is a sample of the block. *)
Definition valid (s i j : nat) : Prop := (i < w /\ j < 4 /\ 4 * s + j < h)%nat.

Definition sigma (fl : list Z) (s i j : nat) : bool := Z.testbit (word fl (ptr s i)) (sbit j).
Definition pi (fl : list Z) (s i j : nat) : bool := Z.testbit (word fl (ptr s i)) (pbit j).

Lemma ptr_inj s i s' i' : (i < w)%nat -> (i' < w)%nat -> ptr s i = ptr s' i' -> s = s' /\ i = i'.
Proof.
  unfold flagsPtr, getFlagsStride. intros Hi Hi' E.
  assert (s = s') as ->; [|lia].
  destruct (Nat.lt_trichotomy s s') as [H|[H|H]]; [|done|]; exfalso; nia.
Qed.
Lemma ptr_div s i : (i < w)%nat -> (ptr s i / stride)%nat = S s.
Proof.
  unfold flagsPtr, getFlagsStride. intros Hi. symmetry. apply (Nat.div_unique _ _ _ (1 + i)); lia.
Qed.
Lemma height_bound s i j : valid s i j -> (s < getFlagsHeight h)%nat.
Proof.
  intros (_ & _ & H). unfold getFlagsHeight. apply Nat.div_le_lower_bound; lia.
Qed.
Lemma ptr_bound s i j : valid s i j -> (ptr s i < flagsLen w h)%nat.
Proof.
  intros Hv. pose proof (height_bound _ _ _ Hv) as Hs. destruct Hv as (Hi & _ & _).
  unfold flagsLen, flagsPtr, getFlagsHeight, getFlagsStride in *. nia.
Qed.
Lemma ptr_around s i : (stride < ptr s i)%nat.
Proof. unfold flagsPtr, getFlagsStride. nia. Qed.

(** The word in a local variable and the word in memory. *)
Lemma UPDATE_FLAGS_local f fl p ci s vsc : (stride < p)%nat ->
  let x := UPDATE_FLAGS f fl p ci s stride vsc in
  <[p := x.1]> x.2 = update_flags (<[p := f]> fl) p ci s stride vsc \/ (length fl <= p)%nat.
Proof.
  intros Hp. destruct (Nat.lt_ge_cases p (length fl)) as [Hl|Hl]; [|by right]. left.
  unfold update_flags, UPDATE_FLAGS. unfold getFlagsStride in *. cbn [fst snd].
  rewrite word_insert. destruct (decide _) as [_|Hn]; [|exfalso; auto].
  assert (forall q m fl, q <> p -> or_at q m (<[p := f]> fl) = <[p := f]> (or_at q m fl)) as Hc.
  { intros q m fl' Hq. symmetry. by apply or_insert_comm. }
  rewrite !(Hc (p - 1)%nat), !(Hc (p + 1)%nat) by lia.
  destruct ((ci =? 0) && negb vsc), (ci =? 9);
    rewrite ?(Hc (p - (w + 2))%nat), ?(Hc (p - (w + 2) - 1)%nat), ?(Hc (p - (w + 2) + 1)%nat),
      ?(Hc (p + (w + 2))%nat), ?(Hc (p + (w + 2) - 1)%nat), ?(Hc (p + (w + 2) + 1)%nat) by lia;
    by rewrite list_insert_insert_eq.
Qed.

Lemma length_UPDATE f fl p ci s str vsc : length (UPDATE_FLAGS f fl p ci s str vsc).2 = length fl.
Proof.
  unfold UPDATE_FLAGS. cbn [snd]. destruct ((ci =? 0) && negb vsc), (ci =? 9); by rewrite !length_or.
Qed.
Lemma length_update fl p ci s str vsc : length (update_flags fl p ci s str vsc) = length fl.
Proof.
  unfold update_flags. pose proof (length_UPDATE (word fl p) fl p ci s str vsc) as H.
  destruct (UPDATE_FLAGS _ _ _ _ _ _ _). by rewrite length_insert.
Qed.

Lemma update_own fl s i j v vsc : valid s i j -> length fl = flagsLen w h -> v = 0 \/ v = 1 ->
  let fl' := update_flags fl (ptr s i) (3 * Z.of_nat j) v stride vsc in
  forall s' i' n, (i' < w)%nat -> Z.testbit OWN n = true ->
    Z.testbit (word fl' (ptr s' i')) n =
    Z.testbit (word fl (ptr s' i')) n || bool_decide (s' = s /\ i' = i /\ n = sbit j).
Proof.
  intros Hv Hl Hs fl' s' i' n Hi' Hn. pose proof (ptr_bound _ _ _ Hv) as Hb. destruct Hv as (Hi & Hj & _).
  unfold fl', update_flags.
  destruct (neighbours_own (word fl (ptr s i)) fl (ptr s i) j v stride vsc Hj Hs) as [Hlen Hsame].
  destruct (UPDATE_FLAGS _ _ _ _ _ _ _) as [f fl1] eqn:E. cbn [snd] in *.
  assert (f = Z.lor (word fl (ptr s i)) (Z.shiftl (Z.lor (Z.shiftl v T1_CHI_1_I) (T1_SIGMA 4)) (3 * Z.of_nat j))) as ->
    by (unfold UPDATE_FLAGS in E; by injection E as <- _).
  rewrite word_insert. destruct (decide _) as [[Ep _]|Hne].
  - apply ptr_inj in Ep as [-> ->]; [|done..]. rewrite own_word by done. f_equal.
    destruct (Z.eqb_spec n (sbit j)); [by rewrite bool_decide_true|]. rewrite bool_decide_false; tauto.
  - rewrite Hsame, bool_decide_false by done || (intros (-> & -> & _); apply Hne; split; [done|lia]).
    by rewrite orb_false_r.
Qed.

Lemma sbit_inj j j' : sbit j = sbit j' -> j = j'.
Proof. unfold sbit. lia. Qed.

Lemma update_sigma fl s i j v vsc s' i' j' : valid s i j -> valid s' i' j' -> length fl = flagsLen w h ->
  v = 0 \/ v = 1 ->
  sigma (update_flags fl (ptr s i) (3 * Z.of_nat j) v stride vsc) s' i' j' =
  sigma fl s' i' j' || bool_decide (s' = s /\ i' = i /\ j' = j).
Proof.
  intros Hv (Hi' & Hj' & _) Hl Hs. unfold sigma. rewrite update_own; try done; [|by apply own_bits].
  f_equal. apply bool_decide_ext. split; intros (-> & -> & E); split_and!; try done; [by apply sbit_inj|by subst].
Qed.
Lemma update_pi fl s i j v vsc s' i' j' : valid s i j -> valid s' i' j' -> length fl = flagsLen w h ->
  v = 0 \/ v = 1 ->
  pi (update_flags fl (ptr s i) (3 * Z.of_nat j) v stride vsc) s' i' j' = pi fl s' i' j'.
Proof.
  intros Hv (Hi' & Hj' & _) Hl Hs. unfold pi. rewrite update_own; try done; [|by apply own_bits].
  rewrite bool_decide_false, orb_false_r; [done|]. unfold pbit, sbit. destruct Hv as (_ & Hj & _). lia.
Qed.

End layout.

(** ** Comparing flags under a mask *)

Definition sub_mask (x m : Z) : Prop := Z.land x m = x.
Definition same_word (m f g : Z) : Prop := Z.land f m = Z.land g m.
Definition same_flags (M : nat -> Z) (fl fl' : list Z) : Prop :=
  length fl' = length fl /\ forall p, same_word (M p) (word fl p) (word fl' p).

Lemma same_word_sub m x f g : same_word m f g -> sub_mask x m -> same_word x f g.
Proof.
  unfold same_word, sub_mask. intros H <-. rewrite (Z.land_comm x), !Z.land_assoc. by rewrite H.
Qed.
Lemma same_word_or m f g x : same_word m f g -> same_word m (Z.lor f x) (Z.lor g x).
Proof. unfold same_word. intros H. by rewrite !Z.land_lor_distr_l, H. Qed.
Lemma same_word_bit m f g n : same_word m f g -> Z.testbit m n = true -> Z.testbit f n = Z.testbit g n.
Proof.
  intros H Hn. pose proof (f_equal (fun x => Z.testbit x n) H) as E.
  cbn beta in E. by rewrite !Z.land_spec, Hn, !andb_true_r in E.
Qed.
Lemma same_word_ext m f g : (forall n, 0 <= n -> Z.testbit m n = true -> Z.testbit f n = Z.testbit g n) -> same_word m f g.
Proof.
  intros H. apply Z.bits_inj'. intros n Hn. rewrite !Z.land_spec.
  destruct (Z.testbit m n) eqn:E; [by rewrite H|by rewrite !andb_false_r].
Qed.

Lemma same_flags_sub M M' fl fl' : same_flags M fl fl' -> (forall p, sub_mask (M' p) (M p)) -> same_flags M' fl fl'.
Proof. intros [Hl H] Hs. split; [done|]. intros p. by eapply same_word_sub. Qed.
Lemma same_flags_or M q m fl fl' : same_flags M fl fl' -> same_flags M (or_at q m fl) (or_at q m fl').
Proof.
  intros [Hl H]. split; [by rewrite !length_or|]. intros p. rewrite !word_or, Hl.
  destruct (decide _); [by apply same_word_or|done].
Qed.
Lemma same_flags_insert M q f g fl fl' : same_flags M fl fl' -> same_word (M q) f g ->
  same_flags M (<[q := f]> fl) (<[q := g]> fl').
Proof.
  intros [Hl H] Hq. split; [by rewrite !length_insert|]. intros p. rewrite !word_insert, Hl.
  destruct (decide _) as [[-> _]|]; done.
Qed.
Lemma same_flags_UPDATE M f g fl fl' p ci s str vsc : same_flags M fl fl' -> same_word (M p) f g ->
  same_flags M (UPDATE_FLAGS f fl p ci s str vsc).2 (UPDATE_FLAGS g fl' p ci s str vsc).2 /\
  same_word (M p) (UPDATE_FLAGS f fl p ci s str vsc).1 (UPDATE_FLAGS g fl' p ci s str vsc).1.
Proof.
  intros H Hp. unfold UPDATE_FLAGS. cbn [fst snd]. split; [|by apply same_word_or].
  destruct ((ci =? 0) && negb vsc), (ci =? 9); repeat apply same_flags_or; done.
Qed.
Lemma same_flags_update M fl fl' p ci s str vsc : same_flags M fl fl' ->
  same_flags M (update_flags fl p ci s str vsc) (update_flags fl' p ci s str vsc).
Proof.
  intros H. unfold update_flags.
  destruct (same_flags_UPDATE M (word fl p) (word fl' p) fl fl' p ci s str vsc H (proj2 H p)) as [H1 H2].
  destruct (UPDATE_FLAGS (word fl p) _ _ _ _ _ _), (UPDATE_FLAGS (word fl' p) _ _ _ _ _ _).
  by apply same_flags_insert.
Qed.

(** ** What the tests read *)

(** All bits but the [pi] bits. *)
Definition BASE : Z := Z.lnot T1_PI_ALL.

Lemma land_shiftr f n m : 0 <= n -> Z.land (Z.shiftr f n) m = Z.shiftr (Z.land f (Z.shiftl m n)) n.
Proof. intros Hn. rewrite Z.shiftr_land, Z.shiftr_shiftl_l, Z.sub_diag, Z.shiftl_0_r by done. done. Qed.
Lemma same_shiftr m f g n x : same_word m f g -> 0 <= n -> sub_mask (Z.shiftl x n) m ->
  Z.land (Z.shiftr f n) x = Z.land (Z.shiftr g n) x.
Proof. intros H Hn Hs. rewrite !land_shiftr by done. f_equal. by apply (same_word_sub m). Qed.

Lemma land_bit f n : 0 <= n -> (Z.land f (Z.shiftl 1 n) =? 0) = negb (Z.testbit f n).
Proof.
  intros Hn. destruct (Z.testbit f n) eqn:E.
  - apply Z.eqb_neq. intros H. apply (f_equal (fun x => Z.testbit x n)) in H.
    cbn beta in H. rewrite Z.land_spec, E, Z.shiftl_spec, Z.sub_diag, Z.bits_0 in H by done. done.
  - apply Z.eqb_eq, Z.bits_inj'. intros k Hk. rewrite Z.land_spec, Z.bits_0, Z.shiftl_spec by done.
    destruct (Z.eq_dec k n) as [->|Hne]; [by rewrite E|].
    replace (Z.testbit 1 (k - n)) with false; [apply andb_false_r|].
    symmetry. destruct (Z_lt_le_dec (k - n) 0); [by apply Z.testbit_neg_r|].
    apply (testbit_small 1 1); lia.
Qed.

Lemma sigma_pi_bits j : (j < 4)%nat ->
  sigma_pi (3 * Z.of_nat j) = Z.lor (Z.shiftl 1 (sbit j)) (Z.shiftl 1 (pbit j)).
Proof. intros Hj. four j; reflexivity. Qed.
Lemma sigma_this_bit j : (j < 4)%nat -> Z.shiftl T1_SIGMA_THIS (3 * Z.of_nat j) = Z.shiftl 1 (sbit j).
Proof. intros Hj. four j; reflexivity. Qed.
Lemma pi_this_bit j : (j < 4)%nat -> Z.shiftl T1_PI_THIS (3 * Z.of_nat j) = Z.shiftl 1 (pbit j).
Proof. intros Hj. four j; reflexivity. Qed.
Lemma bits_nonneg j : 0 <= sbit j /\ 0 <= pbit j.
Proof. unfold sbit, pbit. lia. Qed.

Lemma to_clean_bits f j : (j < 4)%nat ->
  to_clean f (3 * Z.of_nat j) = negb (Z.testbit f (sbit j)) && negb (Z.testbit f (pbit j)).
Proof.
  intros Hj. destruct (bits_nonneg j). unfold to_clean. rewrite sigma_pi_bits, Z.land_lor_distr_r by done.
  rewrite <- !land_bit by done. set (x := Z.land f _). set (y := Z.land f _).
  destruct (Z.eqb_spec (Z.lor x y) 0) as [E|E].
  - apply Z.lor_eq_0_iff in E as [-> ->]. done.
  - destruct (Z.eqb_spec x 0) as [Ex|]; [|done]. destruct (Z.eqb_spec y 0) as [Ey|]; [|done].
    exfalso. apply E. by rewrite Ex, Ey.
Qed.
Lemma to_refine_bits f j : (j < 4)%nat ->
  to_refine f (3 * Z.of_nat j) = Z.testbit f (sbit j) && negb (Z.testbit f (pbit j)).
Proof.
  intros Hj. destruct (bits_nonneg j) as [Hs Hp]. unfold to_refine.
  rewrite sigma_pi_bits, sigma_this_bit by done.
  assert (forall n, Z.land f (Z.shiftl 1 n) = if Z.testbit f n then Z.shiftl 1 n else 0) as Hb.
  { intros n. destruct (Z_lt_le_dec n 0) as [Hn|Hn].
    - rewrite Z.testbit_neg_r by done. rewrite (Z.shiftl_div_pow2 1 n) by lia.
      rewrite Z.div_small; [apply Z.land_0_r|]. split; [lia|]. apply Z.pow_gt_1; lia.
    - apply Z.bits_inj'. intros k Hk. rewrite Z.land_spec.
      destruct (Z.eq_dec k n) as [->|Hne].
      + destruct (Z.testbit f n); [by rewrite Z.shiftl_spec, Z.sub_diag by done|]. by rewrite Z.bits_0.
      + assert (Z.testbit (Z.shiftl 1 n) k = false) as E.
        { rewrite Z.shiftl_spec by done. destruct (Z_lt_le_dec (k - n) 0); [by apply Z.testbit_neg_r|].
          apply (testbit_small 1 1); lia. }
        rewrite E, andb_false_r. destruct (Z.testbit f n); by rewrite ?E, ?Z.bits_0. }
  rewrite Z.land_lor_distr_r, !Hb. four j; destruct (Z.testbit f _), (Z.testbit f _); reflexivity.
Qed.
Lemma enc_to_refine f ci : 0 <= ci ->
  (Z.land (Z.shiftr f ci) (Z.lor T1_SIGMA_THIS T1_PI_THIS) =? T1_SIGMA_THIS) = to_refine f ci.
Proof.
  intros Hc. rewrite land_shiftr by done. unfold to_refine, sigma_pi.
  set (x := Z.land f _). assert (x = Z.shiftl (Z.shiftr x ci) ci) as E.
  { unfold x. rewrite Z.shiftr_land, Z.shiftl_land, Z.shiftr_shiftl_l, Z.sub_diag, Z.shiftl_0_r by done.
    apply Z.bits_inj'. intros n Hn. rewrite !Z.land_spec, !Z.shiftl_spec by done.
    destruct (Z_lt_le_dec (n - ci) 0) as [H|H]; [by rewrite !(Z.testbit_neg_r _ (n - ci)), !andb_false_r by done|].
    rewrite Z.shiftr_spec by done. by replace (n - ci + ci) with n by lia. }
  rewrite E at 2. destruct (Z.eqb_spec (Z.shiftr x ci) T1_SIGMA_THIS) as [->|Hn]; symmetry; [apply Z.eqb_refl|].
  apply Z.eqb_neq. intros H. apply Hn. apply (f_equal (fun y => Z.shiftr y ci)) in H.
  rewrite !Z.shiftr_shiftl_l, Z.sub_diag, !Z.shiftl_0_r in H by done. done.
Qed.

(** A mask that shows everything but [pi] bits, and the [pi] bit of row [j]. *)
Definition sees (m : Z) (j : nat) : Prop := Z.testbit m (pbit j) = true.

Lemma sub_trans x y z : sub_mask x y -> sub_mask y z -> sub_mask x z.
Proof. unfold sub_mask. intros <- H. by rewrite <- Z.land_assoc, H. Qed.

Section same.
Context (m f g : Z) (Hm : sub_mask BASE m) (H : same_word m f g).

Lemma base_shiftr n x : 0 <= n -> sub_mask (Z.shiftl x n) BASE -> Z.land (Z.shiftr f n) x = Z.land (Z.shiftr g n) x.
Proof. intros Hn Hx. apply (same_shiftr m); [done|done|]. by eapply sub_trans. Qed.
Lemma same_sigma j : (j < 4)%nat -> Z.testbit f (sbit j) = Z.testbit g (sbit j).
Proof.
  intros Hj. apply (same_word_bit BASE); [by apply (same_word_sub m)|]. four j; reflexivity.
Qed.
Lemma same_pi j : sees m j -> Z.testbit f (pbit j) = Z.testbit g (pbit j).
Proof. by apply same_word_bit. Qed.
Lemma same_ZC o j : (j < 4)%nat ->
  GETCTXNO_ZC o (Z.shiftr f (3 * Z.of_nat j)) = GETCTXNO_ZC o (Z.shiftr g (3 * Z.of_nat j)).
Proof. intros Hj. unfold GETCTXNO_ZC. rewrite base_shiftr; [done|lia|]. four j; reflexivity. Qed.
Lemma same_MAG j : (j < 4)%nat ->
  GETCTXNO_MAG (Z.shiftr f (3 * Z.of_nat j)) = GETCTXNO_MAG (Z.shiftr g (3 * Z.of_nat j)).
Proof.
  intros Hj. unfold GETCTXNO_MAG.
  rewrite (base_shiftr _ T1_MU_0), (base_shiftr _ T1_SIGMA_NEIGHBOURS); try done; try lia; four j; reflexivity.
Qed.
Lemma same_clean j : (j < 4)%nat -> (sees m j \/ Z.testbit f (sbit j) = true) ->
  to_clean f (3 * Z.of_nat j) = to_clean g (3 * Z.of_nat j).
Proof.
  intros Hj Hp. rewrite !to_clean_bits, <- same_sigma by done.
  destruct Hp as [Hp|Hp]; [by rewrite (same_pi j Hp)|by rewrite Hp].
Qed.
Lemma same_refine j : (j < 4)%nat -> sees m j -> to_refine f (3 * Z.of_nat j) = to_refine g (3 * Z.of_nat j).
Proof. intros Hj Hp. by rewrite !to_refine_bits, <- same_sigma, (same_pi j Hp) by done. Qed.
Lemma same_neighbours j : (j < 4)%nat ->
  Z.land f (Z.shiftl T1_SIGMA_NEIGHBOURS (3 * Z.of_nat j)) = Z.land g (Z.shiftl T1_SIGMA_NEIGHBOURS (3 * Z.of_nat j)).
Proof. intros Hj. apply (same_word_sub m); [done|]. eapply sub_trans; [|done]. four j; reflexivity. Qed.
Lemma same_propagate j : (j < 4)%nat -> sees m j ->
  to_propagate f (3 * Z.of_nat j) = to_propagate g (3 * Z.of_nat j).
Proof.
  intros Hj Hp. unfold to_propagate. rewrite same_neighbours by done. f_equal.
  apply same_clean; [done|by left].
Qed.

Context (pf nf pg ng : Z) (Hpf : same_word BASE pf pg) (Hnf : same_word BASE nf ng).

Lemma same_index j : (j < 4)%nat ->
  getctxtno_sc_or_spb_index f pf nf (3 * Z.of_nat j) = getctxtno_sc_or_spb_index g pg ng (3 * Z.of_nat j).
Proof.
  intros Hj. unfold getctxtno_sc_or_spb_index.
  assert (forall n x, 0 <= n -> sub_mask (Z.shiftl x n) BASE -> Z.land (Z.shiftr pf n) x = Z.land (Z.shiftr pg n) x) as Hp.
  { intros n x Hn Hx. by apply (same_shiftr BASE). }
  assert (forall n x, 0 <= n -> sub_mask (Z.shiftl x n) BASE -> Z.land (Z.shiftr nf n) x = Z.land (Z.shiftr ng n) x) as Hn.
  { intros n x Hn Hx. by apply (same_shiftr BASE). }
  four j; cbn [Z.of_nat Z.mul Z.eqb];
    (rewrite !Hp; [|done|reflexivity]); (rewrite !Hn; [|done|reflexivity]);
    rewrite !base_shiftr; try done.
Qed.
End same.

(** ** Setting and clearing bits of a sample *)

Lemma bit_testbit a n : 0 <= a -> Z.testbit (Z.shiftl 1 a) n = (n =? a).
Proof.
  intros Ha. destruct (Z_lt_le_dec n 0) as [Hn|Hn].
  { rewrite Z.testbit_neg_r by done. symmetry. apply Z.eqb_neq. lia. }
  rewrite Z.shiftl_spec by done. destruct (Z.eqb_spec n a) as [->|Hne]; [by rewrite Z.sub_diag|].
  destruct (Z_lt_le_dec (n - a) 0); [by apply Z.testbit_neg_r|]. apply (testbit_small 1 1); lia.
Qed.

Section sample_bits.
Context (w h : nat).
Abbreviation ptr := (flagsPtr w).

(** Words other than the column's keep their bits. *)
Lemma or_other q m fl s i s' i' n : (i < w)%nat -> (i' < w)%nat -> ptr s i = q -> (s', i') <> (s, i) ->
  Z.testbit (word (or_at q m fl) (ptr s' i')) n = Z.testbit (word fl (ptr s' i')) n.
Proof.
  intros Hi Hi' <- Hne. rewrite word_or. destruct (decide _) as [[E _]|]; [|done].
  exfalso. apply Hne. apply ptr_inj in E as [-> ->]; done.
Qed.

Lemma or_pi fl s i j s' i' j' : valid w h s i j -> valid w h s' i' j' -> length fl = flagsLen w h ->
  let fl' := or_at (ptr s i) (Z.shiftl T1_PI_THIS (3 * Z.of_nat j)) fl in
  sigma w fl' s' i' j' = sigma w fl s' i' j' /\
  pi w fl' s' i' j' = pi w fl s' i' j' || bool_decide (s' = s /\ i' = i /\ j' = j).
Proof.
  intros Hv Hv' Hl fl'. pose proof (ptr_bound _ _ _ _ _ Hv) as Hb. destruct Hv as (Hi & Hj & _).
  destruct Hv' as (Hi' & Hj' & _). unfold sigma, pi, fl'. rewrite pi_this_bit, word_or by done.
  destruct (decide _) as [[E _]|Hne].
  - apply ptr_inj in E as [-> ->]; [|done..]. rewrite !Z.lor_spec, !bit_testbit by (unfold pbit; lia). split.
    + destruct (Z.eqb_spec (sbit j') (pbit j)) as [E|]; [unfold sbit, pbit in E; lia|]. apply orb_false_r.
    + f_equal. destruct (Z.eqb_spec (pbit j') (pbit j)) as [E|E]; unfold pbit in E.
      * rewrite bool_decide_true; [done|]. split_and!; try done. lia.
      * rewrite bool_decide_false; [done|]. intros (_ & _ & ->). done.
  - rewrite bool_decide_false, orb_false_r; [done|]. intros (-> & -> & _). apply Hne. split; [done|lia].
Qed.

Lemma or_mu fl s i j s' i' j' : valid w h s i j -> valid w h s' i' j' ->
  let fl' := or_at (ptr s i) (Z.shiftl T1_MU_THIS (3 * Z.of_nat j)) fl in
  sigma w fl' s' i' j' = sigma w fl s' i' j' /\ pi w fl' s' i' j' = pi w fl s' i' j'.
Proof.
  intros (_ & Hj & _) (_ & Hj' & _) fl'.
  assert (same_own fl fl') as [_ H] by (apply same_own_or; four j; reflexivity).
  unfold sigma, pi. split; apply H; by apply own_bits.
Qed.

(** Clearing [pi] bits, of a mask without significance bits. *)
Lemma clear_pi fl s i m s' i' j' : valid w h s i 0 -> valid w h s' i' j' -> length fl = flagsLen w h ->
  sub_mask m T1_PI_ALL ->
  let fl' := clear_at (ptr s i) m fl in
  sigma w fl' s' i' j' = sigma w fl s' i' j' /\
  pi w fl' s' i' j' = pi w fl s' i' j' && negb (bool_decide (s' = s /\ i' = i) && Z.testbit m (pbit j')).
Proof.
  intros Hv Hv' Hl Hm fl'. pose proof (ptr_bound _ _ _ _ _ Hv) as Hb. destruct Hv as (Hi & _ & _).
  destruct Hv' as (Hi' & Hj' & _). unfold sigma, pi, fl'. rewrite word_clear.
  destruct (decide _) as [[E _]|Hne].
  - apply ptr_inj in E as [-> ->]; [|done..]. rewrite !Z.ldiff_spec, bool_decide_true by done. split; [|done].
    assert (Z.testbit m (sbit j') = false) as ->; [|by rewrite andb_true_r].
    rewrite <- Hm, Z.land_spec. replace (Z.testbit T1_PI_ALL (sbit j')) with false; [apply andb_false_r|].
    four j'; reflexivity.
  - rewrite bool_decide_false; [by rewrite andb_true_r|]. intros (-> & ->). apply Hne. split; [done|lia].
Qed.
End sample_bits.

(** ** The rows a stripe does not have *)

Section keep.
Context (w h : nat).

(** The mask under which encoder and decoder have the same word [p]. *)
Definition keep (p : nat) : Z :=
  if (h mod 4 =? 0)%nat || negb (p / getFlagsStride w =? getFlagsHeight h)%nat then -1
  else Z.lnot (nth (h mod 4) partialRowFlags 0).

Lemma keep_base p : sub_mask BASE (keep p).
Proof.
  unfold keep. destruct (_ || _); [reflexivity|].
  pose proof (Nat.mod_upper_bound h 4 ltac:(lia)). set (r := (h mod 4)%nat) in *. clearbody r.
  four r; reflexivity.
Qed.

Lemma keep_full s i j : (i < w)%nat -> (S s <= h / 4)%nat -> j = flagsPtr w s i -> keep j = -1.
Proof.
  intros Hi Hs ->. unfold keep. rewrite ptr_div by done.
  destruct (Nat.eqb_spec (h mod 4) 0) as [|Hm]; [done|]. destruct (Nat.eqb_spec (S s) (getFlagsHeight h)) as [E|]; [|done].
  exfalso. unfold getFlagsHeight in E. pose proof (Nat.div_mod h 4).
  assert (h / 4 + 1 <= (h + 3) / 4)%nat; [|lia]. apply Nat.div_le_lower_bound; lia.
Qed.

Lemma keep_sees s i j : valid w h s i j -> sees (keep (flagsPtr w s i)) j.
Proof.
  intros (Hi & Hj & Hh). unfold keep, sees. rewrite ptr_div by done.
  destruct (Nat.eqb_spec (h mod 4) 0) as [|Hm]; [by rewrite Z.bits_m1; unfold pbit; [|lia]|].
  destruct (Nat.eqb_spec (S s) (getFlagsHeight h)) as [E|]; cbn [negb orb];
    [|by rewrite Z.bits_m1; unfold pbit; [|lia]].
  rewrite Z.lnot_spec by (unfold pbit; lia). pose proof (Nat.mod_upper_bound h 4 ltac:(lia)).
  assert (j < h mod 4)%nat as Hjr.
  { unfold getFlagsHeight in E. pose proof (Nat.div_mod h 4).
    assert ((h + 3) / 4 = S (h / 4))%nat as E'; [|lia].
    symmetry. apply (Nat.div_unique _ _ _ (h mod 4 - 1)); lia. }
  set (r := (h mod 4)%nat) in *. clearbody r. clear E Hh. four r; four j; try lia; reflexivity.
Qed.
End keep.
