(* ===== verification/BlockRoundTrip.v ===== *)
(** The passes of the block coder, encoder against decoder.

    [coded e e' m P]: between [e] and [e'] the encoder emitted decisions that make the
    decoder program [m] end in a state with [P].  The relation [Rel] between the
    encoder's flags and the decoder's state says that, sample by sample, the decoder
    has the magnitude bits down to plane [b] (samples done in this plane) or [b + 1].
    Each pass preserves it; three passes finish a plane. *)
From S2P Require Import Prelude BitIO Geometry Codeblock BlockLuts MQCoder BlockCoder BlockFlags.

(** ** Programs fed with decisions *)

Definition feeds {A} (m : prog A) (ds : list decision) (a : A) : Prop :=
  forall rest, feed m (ds ++ rest) = Some (a, rest).

Lemma feed_bind {A B} (m : prog A) (k : A -> prog B) : forall ds,
  feed (x ← m; k x) ds = match feed m ds with Some (a, ds') => feed (k a) ds' | None => None end.
Proof.
  induction m as [a|c k0 IH|k0 IH]; intros ds; [done| |].
  - destruct ds as [|[c' d|d] ds]; [done| |done]. cbn. destruct (c =? c')%nat; [|done]. apply IH.
  - destruct ds as [|[c' d|d] ds]; [done|done|]. cbn. apply IH.
Qed.

Lemma feeds_ret {A} (a : A) : feeds (Ret a) [] a.
Proof. done. Qed.
Lemma feeds_bind {A B} (m : prog A) (k : A -> prog B) ds ds' a b :
  feeds m ds a -> feeds (k a) ds' b -> feeds (x ← m; k x) (ds ++ ds') b.
Proof. intros H1 H2 rest. rewrite feed_bind, <- app_assoc, H1. apply H2. Qed.
Lemma feeds_sym {A} c d (k : Z -> prog A) ds a : feeds (k d) ds a -> feeds (x ← Sym c Ret; k x) (MQ c d :: ds) a.
Proof. intros H rest. cbn. rewrite Nat.eqb_refl. apply H. Qed.
Lemma feeds_raw {A} d (k : Z -> prog A) ds a : feeds (k d) ds a -> feeds (x ← Raw Ret; k x) (RAW d :: ds) a.
Proof. intros H rest. apply H. Qed.

Definition coded {A} (e e' : encst) (m : prog A) (P : A -> Prop) : Prop :=
  exists ds a, e_out e' = e_out e ++ ds /\ feeds m ds a /\ P a.

Lemma coded_ret {A} e e' (a : A) (P : A -> Prop) : e_out e' = e_out e -> P a -> coded e e' (Ret a) P.
Proof. intros He H. exists [], a. rewrite app_nil_r. split_and!; try done. Qed.
Lemma coded_bind {A B} e e1 e2 (m : prog A) (k : A -> prog B) (P : A -> Prop) (Q : B -> Prop) :
  coded e e1 m P -> (forall a, P a -> coded e1 e2 (k a) Q) -> coded e e2 (x ← m; k x) Q.
Proof.
  intros (ds & a & E1 & F1 & Pa) Hk. destruct (Hk a Pa) as (ds' & b & E2 & F2 & Qb).
  exists (ds ++ ds'), b. rewrite E2, E1, app_assoc. split_and!; [done|by eapply feeds_bind|done].
Qed.
Lemma coded_mono {A} e e' (m : prog A) (P Q : A -> Prop) : coded e e' m P -> (forall a, P a -> Q a) -> coded e e' m Q.
Proof. intros (ds & a & E & F & Pa) H. exists ds, a. auto. Qed.

(** A counting loop on both sides, with an invariant that may depend on the index. *)
Lemma coded_fold {S} (f : encst -> nat -> encst) (g : S -> nat -> prog S) (I : nat -> encst -> S -> Prop) n :
  forall k, (forall i e s, (k <= i < k + n)%nat -> I i e s -> coded e (f e i) (g s i) (I (Datatypes.S i) (f e i))) ->
  forall e s, I k e s -> coded e (foldl f e (seq k n)) (pfold g s (seq k n)) (I (k + n)%nat (foldl f e (seq k n))).
Proof.
  induction n as [|n IH]; intros k Hstep e s HI; cbn [seq foldl pfold].
  { rewrite Nat.add_0_r. by apply coded_ret. }
  eapply coded_bind; [apply Hstep; [lia|done]|]. intros s1 H1.
  replace (k + Datatypes.S n)%nat with (Datatypes.S k + n)%nat by lia.
  apply IH; [|done]. intros i e1 s2 Hi. apply Hstep. lia.
Qed.

(** ** Magnitudes *)

(** The magnitude of a sample down to plane [b], and what the decoder then holds: it
    adds half of the weight of the plane. *)
Definition mag (b x : Z) : Z := Z.shiftr (smr_abs x) (b + T1_NMSEDEC_FRACBITS).
Definition decval (b x : Z) : Z :=
  if mag b x =? 0 then 0
  else (if smr_sign x =? 0 then 1 else -1) * (mag b x * 2 ^ (b + 1) + 2 ^ b).

Lemma frac6 : T1_NMSEDEC_FRACBITS = 6.
Proof. reflexivity. Qed.
Lemma smr_abs_range x : 0 <= smr_abs x < 2 ^ 31.
Proof.
  unfold smr_abs. change 0x7FFFFFFF with (Z.ones 31). rewrite Z.land_ones by lia. apply Z.mod_pos_bound. lia.
Qed.
Lemma smr_sign_bit x : smr_sign x = 0 \/ smr_sign x = 1.
Proof.
  unfold smr_sign. pose proof (wrap_range 32 x ltac:(lia)) as H.
  rewrite Z.shiftr_div_pow2 by lia. change (2 ^ 32) with 4294967296 in H. change (2 ^ 31) with 2147483648.
  assert (0 <= wrap 32 x / 2147483648 < 2); [|lia].
  split; [apply Z.div_pos; lia|apply Z.div_lt_upper_bound; lia].
Qed.
Lemma plane_bit_test b x : 0 <= b -> plane_bit b x = bit_of (Z.testbit (smr_abs x) (b + T1_NMSEDEC_FRACBITS)).
Proof. intros Hb. unfold plane_bit. rewrite land_bit by (rewrite frac6; lia). by rewrite negb_involutive. Qed.
Lemma plane_bit_bit b x : plane_bit b x = 0 \/ plane_bit b x = 1.
Proof. unfold plane_bit, bit_of. case_match; auto. Qed.

Lemma mag_step b x : 0 <= b -> mag b x = 2 * mag (b + 1) x + plane_bit b x.
Proof.
  intros Hb. rewrite plane_bit_test by done. unfold mag. set (m := smr_abs x). set (n := b + T1_NMSEDEC_FRACBITS).
  assert (0 <= n) as Hn by (unfold n; rewrite frac6; lia).
  replace (b + 1 + T1_NMSEDEC_FRACBITS) with (n + 1) by (unfold n; lia).
  rewrite <- Z.shiftr_shiftr by lia. rewrite (Z.div_mod (Z.shiftr m n) 2) at 1 by lia.
  rewrite (Z.shiftr_div_pow2 (Z.shiftr m n)) by lia. change (2 ^ 1) with 2. f_equal.
  rewrite <- Z.bit0_mod, Z.shiftr_spec by lia. rewrite Z.add_0_l. done.
Qed.
Lemma mag_range b x : 0 <= b <= 25 -> 0 <= mag b x < 2 ^ (25 - b).
Proof.
  intros Hb. unfold mag. rewrite Z.shiftr_div_pow2 by (rewrite frac6; lia).
  pose proof (smr_abs_range x). change T1_NMSEDEC_FRACBITS with 6. split; [apply Z.div_pos; lia|].
  apply Z.div_lt_upper_bound; [lia|]. rewrite <- Z.pow_add_r by lia.
  replace (b + 6 + (25 - b)) with 31 by lia. lia.
Qed.

Lemma dec_one_eq b : 0 <= b <= 29 -> dec_one (b + 1) = 2 ^ (b + 1).
Proof.
  intros Hb. unfold dec_one. rewrite Z.shiftl_1_l, swrap_small; [done|lia|].
  pose proof (Z.pow_le_mono_r 2 (b + 1) 30 ltac:(lia) ltac:(lia)).
  pose proof (Z.pow_pos_nonneg 2 (b + 1)). change (2 ^ (32 - 1)) with (2 * 2 ^ 30). lia.
Qed.
Lemma dec_half_eq b : 0 <= b <= 29 -> dec_half (b + 1) = 2 ^ b.
Proof.
  intros Hb. unfold dec_half. rewrite dec_one_eq, Z.shiftr_div_pow2 by lia.
  rewrite Z.pow_add_r by lia. by rewrite Z.div_mul.
Qed.
Lemma oneplushalf_eq b : 0 <= b <= 29 -> oneplushalf (b + 1) = 2 ^ (b + 1) + 2 ^ b.
Proof.
  intros Hb. unfold oneplushalf. rewrite dec_one_eq, dec_half_eq by done. symmetry.
  apply Z.add_nocarry_lor.
  apply Z.bits_inj'. intros n Hn. rewrite Z.land_spec, Z.bits_0, !Z.pow2_bits_eqb by lia.
  zcases; try done; lia.
Qed.

Lemma decval_zero b x : mag b x = 0 -> decval b x = 0.
Proof. intros H. unfold decval. by rewrite H. Qed.

Lemma decval_signif b x : 0 <= b <= 24 -> mag (b + 1) x = 0 -> plane_bit b x = 1 ->
  decval b x = if smr_sign x =? 0 then oneplushalf (b + 1) else i32 (- oneplushalf (b + 1)).
Proof.
  intros Hb Hm Hv. unfold decval. rewrite mag_step, Hm, Hv by lia. rewrite oneplushalf_eq by lia.
  change (2 * 0 + 1) with 1. change (1 =? 0) with false. cbv iota.
  rewrite Z.mul_1_l. destruct (smr_sign x =? 0); [apply Z.mul_1_l|].
  pose proof (Z.pow_le_mono_r 2 (b + 1) 25 ltac:(lia) ltac:(lia)).
  pose proof (Z.pow_le_mono_r 2 b 25 ltac:(lia) ltac:(lia)).
  pose proof (Z.pow_pos_nonneg 2 b). pose proof (Z.pow_pos_nonneg 2 (b + 1)).
  change (2 ^ 25) with 33554432 in *. rewrite swrap_small; [lia|lia|].
  change (2 ^ (32 - 1)) with 2147483648. lia.
Qed.

Lemma decval_refine b x : 0 <= b <= 24 -> mag (b + 1) x <> 0 ->
  let d := decval (b + 1) x in
  i32 (d + (if Z.lxor (plane_bit b x) (bit_of (d <? 0)) =? 0 then - dec_half (b + 1) else dec_half (b + 1))) =
  decval b x.
Proof.
  intros Hb Hm d. unfold d, decval. rewrite (mag_step b) by lia. rewrite dec_half_eq by lia.
  pose proof (mag_range (b + 1) x ltac:(lia)) as Hr. set (q := mag (b + 1) x) in *.
  replace (25 - (b + 1)) with (24 - b) in Hr by lia.
  assert (q * 2 ^ b < 2 ^ 24) as Hq.
  { replace 24 with (24 - b + b) by lia. rewrite Z.pow_add_r by lia. apply Z.mul_lt_mono_pos_r; lia. }
  pose proof (Z.pow_pos_nonneg 2 b ltac:(lia) ltac:(lia)) as Hp.
  pose proof (Z.pow_le_mono_r 2 b 24 ltac:(lia) ltac:(lia)) as Hp'.
  replace (2 ^ (b + 1 + 1)) with (4 * 2 ^ b) by (rewrite <- Z.add_assoc, Z.pow_add_r by lia; lia).
  replace (2 ^ (b + 1)) with (2 * 2 ^ b) by (rewrite Z.pow_add_r by lia; lia).
  set (B := 2 ^ b) in *. clearbody B. change (2 ^ 24) with 16777216 in *.
  rewrite (proj2 (Z.eqb_neq q 0)) by lia.
  rewrite (proj2 (Z.eqb_neq (2 * q + plane_bit b x) 0)) by (destruct (plane_bit_bit b x); lia).
  replace (q * (4 * B)) with (4 * (q * B)) by lia.
  replace ((2 * q + plane_bit b x) * (2 * B)) with (4 * (q * B) + plane_bit b x * (2 * B)) by ring.
  assert (0 < q * B) as HX by (apply Z.mul_pos_pos; lia).
  set (X := q * B) in *. clearbody X. clear Hr Hm. clearbody q.
  assert (forall y, -2147483648 <= y < 2147483648 -> i32 y = y) as Hsw.
  { intros y Hy. apply swrap_small; [lia|]. by change (2 ^ (32 - 1)) with 2147483648. }
  destruct (smr_sign x =? 0); destruct (plane_bit_bit b x) as [-> | ->];
    [rewrite (proj2 (Z.ltb_ge _ 0)) by lia|rewrite (proj2 (Z.ltb_ge _ 0)) by lia|
     rewrite (proj2 (Z.ltb_lt _ 0)) by lia|rewrite (proj2 (Z.ltb_lt _ 0)) by lia];
    (match goal with |- context [if ?c then - B else B] => let c' := eval vm_compute in c in change c with c' end);
    cbv iota; rewrite Hsw; lia.
Qed.

(** After the last plane the half is dropped by the filter. *)
Lemma decval_final x : Z.quot (decval 0 x) 2 = (if smr_sign x =? 0 then 1 else -1) * mag 0 x.
Proof.
  unfold decval. destruct (Z.eqb_spec (mag 0 x) 0) as [->|Hm]; [by case_match|].
  pose proof (mag_range 0 x ltac:(lia)). change (2 ^ (0 + 1)) with 2. change (2 ^ 0) with 1.
  assert (Z.quot (mag 0 x * 2 + 1) 2 = mag 0 x) as E.
  { rewrite Z.quot_div_nonneg by lia. symmetry. apply (Z.div_unique _ _ _ 1); lia. }
  destruct (smr_sign x =? 0); [by rewrite !Z.mul_1_l|].
  replace (-1 * (mag 0 x * 2 + 1)) with (- (mag 0 x * 2 + 1)) by lia. rewrite Z.quot_opp_l, E by lia. lia.
Qed.

(** ** The relation between encoder and decoder *)

Lemma idx_inj w s i j s' i' j' : (i < w)%nat -> (i' < w)%nat -> (j < 4)%nat -> (j' < 4)%nat ->
  dataIdx w s i j = dataIdx w s' i' j' -> s = s' /\ i = i' /\ j = j'.
Proof.
  unfold dataIdx. intros Hi Hi' Hj Hj' E. assert (4 * s + j = 4 * s' + j')%nat as E'; [|nia].
  destruct (Nat.lt_trichotomy (4 * s + j) (4 * s' + j')) as [H|[H|H]]; [|done|]; exfalso; nia.
Qed.
Lemma idx_bound w h s i j : valid w h s i j -> (dataIdx w s i j < w * h)%nat.
Proof. unfold valid, dataIdx. intros (Hi & _ & Hh). nia. Qed.
Lemma nth_insert {A} (l : list A) k k' x d : (k < length l)%nat ->
  nth k' (<[k := x]> l) d = if decide (k' = k) then x else nth k' l d.
Proof.
  intros Hk. rewrite !nth_lookup. destruct (decide (k' = k)) as [->|Hn].
  - by rewrite list_lookup_insert_eq.
  - by rewrite list_lookup_insert_ne.
Qed.

(** The sample in row [j] of column [i], stripe [s] joins the set [dn]. *)
Definition upd (dn : nat -> nat -> nat -> bool) (s i j : nat) : nat -> nat -> nat -> bool :=
  fun s' i' j' => dn s' i' j' || bool_decide (s' = s /\ i' = i /\ j' = j).

Section relation.
Context (w h : nat) (orientation : Z) (data : list Z) (b : Z) (Hb : 0 <= b <= 24).
Abbreviation stride := (getFlagsStride w).
Abbreviation ptr := (flagsPtr w).
Abbreviation smp := (sample w data).

Definition level (done : bool) : Z := if done then b else b + 1.

Record Rel (M : nat -> Z) (dn : nat -> nat -> nat -> bool) (E : list Z) (st : decst) : Prop := MkRel {
  rel_flags : same_flags M E (d_flags st);
  rel_len : length E = flagsLen w h;
  rel_data : length (d_data st) = (w * h)%nat;
  rel_base : forall p, sub_mask BASE (M p);
  rel_sample : forall s i j, valid w h s i j ->
    sigma w E s i j = negb (mag (level (dn s i j)) (smp s i j) =? 0) /\
    nth (dataIdx w s i j) (d_data st) 0 = decval (level (dn s i j)) (smp s i j);
}.

Lemma rel_ext M dn dn' E st : Rel M dn E st -> (forall s i j, valid w h s i j -> dn' s i j = dn s i j) -> Rel M dn' E st.
Proof. intros [? ? ? ? H] Hd. split; try done. intros s i j Hv. rewrite Hd by done. by apply H. Qed.

(** The flags change in ways that leave significance alone. *)
Lemma rel_reflag M M' dn E st E' st' : Rel M dn E st -> length E' = length E ->
  same_flags M' E' (d_flags st') -> d_data st' = d_data st -> (forall p, sub_mask BASE (M' p)) ->
  (forall s i j, valid w h s i j -> sigma w E' s i j = sigma w E s i j) -> Rel M' dn E' st'.
Proof.
  intros [? ? ? ? H] Hl Hs Hd HM Hsig. split; [done|congruence|congruence|done|].
  intros s i j Hv. rewrite Hsig, Hd by done. by apply H.
Qed.

(** A sample found insignificant in this plane. *)
Lemma rel_insignif M dn E st s i j : Rel M dn E st -> valid w h s i j -> dn s i j = false ->
  sigma w E s i j = false -> plane_bit b (smp s i j) = 0 -> Rel M (upd dn s i j) E st.
Proof.
  intros [? ? ? ? H] Hv Hd Hsig Hbit. split; try done. intros s' i' j' Hv'. unfold upd.
  destruct (bool_decide _) eqn:Ed; [|rewrite orb_false_r; by apply H].
  apply bool_decide_eq_true in Ed as (-> & -> & ->). rewrite orb_true_r.
  destruct (H s i j Hv) as [H1 H2]. rewrite Hd in *. unfold level in *. rewrite Hsig in H1.
  assert (mag (b + 1) (smp s i j) = 0) as E0 by (symmetry in H1; by apply negb_false_iff, Z.eqb_eq in H1).
  assert (mag b (smp s i j) = 0) as E1 by (rewrite mag_step, E0, Hbit by lia; done).
  rewrite H2, !decval_zero by done. by rewrite Hsig, E1.
Qed.

(** The decoder's state when a sample becomes significant. *)
Definition become (vsc : bool) (s i j : nat) (st : decst) : decst :=
  let sgn := smr_sign (smp s i j) in
  mkD (update_flags (d_flags st) (ptr s i) (3 * Z.of_nat j) sgn stride vsc)
      (<[dataIdx w s i j := if sgn =? 0 then oneplushalf (b + 1) else i32 (- oneplushalf (b + 1))]> (d_data st)).

Lemma rel_signif M dn E st s i j vsc : Rel M dn E st -> valid w h s i j -> dn s i j = false ->
  sigma w E s i j = false -> plane_bit b (smp s i j) = 1 ->
  Rel M (upd dn s i j) (update_flags E (ptr s i) (3 * Z.of_nat j) (smr_sign (smp s i j)) stride vsc)
    (become vsc s i j st).
Proof.
  intros [Hf Hl Hdl HM H] Hv Hd Hsig Hbit. pose proof (smr_sign_bit (smp s i j)) as Hs.
  split; [by apply same_flags_update|by rewrite length_update|cbn; by rewrite length_insert|done|].
  intros s' i' j' Hv'. cbn [become d_data]. rewrite (update_sigma w h) by done.
  rewrite nth_insert by (rewrite Hdl; by apply (idx_bound w h)). unfold upd.
  destruct (bool_decide (s' = s /\ i' = i /\ j' = j)) eqn:Ed.
  - apply bool_decide_eq_true in Ed as (-> & -> & ->). rewrite decide_True, !orb_true_r by done. cbn [level].
    destruct (H s i j Hv) as [H1 _]. rewrite Hd, Hsig in H1. cbn [level] in H1.
    symmetry in H1. apply negb_false_iff, Z.eqb_eq in H1.
    rewrite <- (decval_signif b) by done. split; [|done].
    rewrite mag_step, H1, Hbit by lia. done.
  - apply bool_decide_eq_false in Ed. rewrite !orb_false_r, decide_False; [by apply H|].
    intros E0. destruct Hv as (? & ? & _), Hv' as (? & ? & _). apply Ed. by apply (idx_inj w) in E0.
Qed.

(** A significant sample refined. *)
Definition refined (v : Z) (s i j : nat) (st : decst) : Z :=
  let d := nth (dataIdx w s i j) (d_data st) 0 in
  i32 (d + (if Z.lxor v (bit_of (d <? 0)) =? 0 then - dec_half (b + 1) else dec_half (b + 1))).

Lemma rel_refine M dn E st s i j : Rel M dn E st -> valid w h s i j -> dn s i j = false ->
  sigma w E s i j = true ->
  Rel M (upd dn s i j) E (mkD (d_flags st) (<[dataIdx w s i j := refined (plane_bit b (smp s i j)) s i j st]> (d_data st))).
Proof.
  intros [Hf Hl Hdl HM H] Hv Hd Hsig. split; try done; [cbn; by rewrite length_insert|].
  intros s' i' j' Hv'. cbn [d_data]. rewrite nth_insert by (rewrite Hdl; by apply (idx_bound w h)). unfold upd.
  destruct (bool_decide (s' = s /\ i' = i /\ j' = j)) eqn:Ed.
  - apply bool_decide_eq_true in Ed as (-> & -> & ->). rewrite decide_True, !orb_true_r by done. cbn [level].
    destruct (H s i j Hv) as [H1 H2]. rewrite Hd in H1, H2. cbn [level] in H1, H2. rewrite Hsig in H1.
    assert (mag (b + 1) (smp s i j) <> 0) as Hm.
    { intros E0. rewrite E0 in H1. done. }
    split.
    + rewrite Hsig. symmetry. apply negb_true_iff, Z.eqb_neq. rewrite mag_step by lia.
      pose proof (mag_range (b + 1) (smp s i j) ltac:(lia)). destruct (plane_bit_bit b (smp s i j)); lia.
    + unfold refined. rewrite H2. by apply decval_refine.
  - apply bool_decide_eq_false in Ed. rewrite !orb_false_r, decide_False; [by apply H|].
    intros E0. destruct Hv as (? & ? & _), Hv' as (? & ? & _). apply Ed. by apply (idx_inj w) in E0.
Qed.

(** Both sides select the same sign context. *)
Lemma rel_index M dn E st s i j f : Rel M dn E st -> valid w h s i j ->
  same_word (M (ptr s i)) (word E (ptr s i)) f ->
  sc_index E (word E (ptr s i)) (ptr s i) (3 * Z.of_nat j) = sc_index (d_flags st) f (ptr s i) (3 * Z.of_nat j).
Proof.
  intros [[_ Hf] _ _ HM _] (_ & Hj & _) Hw. unfold sc_index. apply (same_index (M (ptr s i))); try done.
  - apply (same_word_sub (M (ptr s i - 1)%nat)); [apply Hf|apply HM].
  - apply (same_word_sub (M (ptr s i + 1)%nat)); [apply Hf|apply HM].
Qed.

(** ** Signs *)

(** The decoder's state with the column's word written back. *)
Definition flat (s i : nat) (x : Z * decst) : decst := mkD (<[ptr s i := x.1]> (d_flags x.2)) (d_data x.2).

Lemma flat_start s i st : flat s i (word (d_flags st) (ptr s i), st) = st.
Proof. unfold flat. cbn. rewrite word_eta. by destruct st. Qed.
Lemma insert_or (fl : list Z) p f m : <[p := Z.lor f m]> fl = or_at p m (<[p := f]> fl).
Proof.
  unfold or_at. apply list_eq. intros k. destruct (decide (k = p)) as [->|Hk].
  - rewrite list_lookup_alter_eq. destruct (Nat.lt_ge_cases p (length fl)).
    + by rewrite !list_lookup_insert_eq.
    + by rewrite !list_insert_ge, lookup_ge_None_2.
  - by rewrite list_lookup_alter_ne, !list_lookup_insert_ne.
Qed.
Lemma flat_or s i f m st : flat s i (Z.lor f m, st) =
  mkD (or_at (ptr s i) m (d_flags (flat s i (f, st)))) (d_data st).
Proof. unfold flat. cbn. by rewrite insert_or. Qed.

Lemma flat_len M dn E s i x : Rel M dn E (flat s i x) -> length (d_flags x.2) = flagsLen w h.
Proof. intros [[Hl _] HL _ _ _]. cbn in Hl. rewrite length_insert in Hl. congruence. Qed.
Lemma flat_word M dn E s i j x : Rel M dn E (flat s i x) -> valid w h s i j ->
  same_word (M (ptr s i)) (word E (ptr s i)) x.1.
Proof.
  intros HR Hv. pose proof (flat_len _ _ _ _ _ _ HR) as Hl. destruct HR as [[_ Hf] _ _ _ _]. specialize (Hf (ptr s i)).
  unfold flat in Hf. cbn [d_flags] in Hf. rewrite word_insert, decide_True in Hf; [done|]. split; [done|]. rewrite Hl. by eapply ptr_bound.
Qed.

(** Only row 0 looks at the stripe-causal flag. *)
Lemma update_vsc fl p j s str vsc :
  update_flags fl p (3 * Z.of_nat j) s str vsc = update_flags fl p (3 * Z.of_nat j) s str ((j =? 0)%nat && vsc).
Proof.
  destruct j as [|j]; [done|]. unfold update_flags, UPDATE_FLAGS.
  rewrite (proj2 (Z.eqb_neq (3 * Z.of_nat (S j)) 0)) by lia. done.
Qed.
Lemma update_vsc_eq fl p j s str vsc vsc' : ((j =? 0)%nat && vsc = (j =? 0)%nat && vsc') ->
  update_flags fl p (3 * Z.of_nat j) s str vsc = update_flags fl p (3 * Z.of_nat j) s str vsc'.
Proof. intros E. by rewrite update_vsc, E, <- update_vsc. Qed.

Lemma flat_index st s i f ci : sc_index (d_flags (flat s i (f, st))) f (ptr s i) ci = sc_index (d_flags st) f (ptr s i) ci.
Proof.
  unfold sc_index, flat. cbn [d_flags fst snd]. rewrite !word_insert. pose proof (ptr_around w s i). unfold getFlagsStride in *.
  rewrite !decide_False by lia. done.
Qed.

Section sign.
Context (M : nat -> Z) (dn : nat -> nat -> nat -> bool) (e : encst) (s i j : nat) (vsc vsc' : bool).
Context (Hv : valid w h s i j) (Hd : dn s i j = false) (Hsig : sigma w (e_flags e) s i j = false)
  (Hbit : plane_bit b (smp s i j) = 1) (Hvsc : (j =? 0)%nat && vsc' = (j =? 0)%nat && vsc).
Abbreviation ci := (3 * Z.of_nat j).

Lemma sign_coded raw f st : Rel M dn (e_flags e) (flat s i (f, st)) ->
  let e' := enc_sign w raw b (ptr s i) (smp s i j) ci vsc e in
  Rel M (upd dn s i j) (e_flags e') (become vsc' s i j (flat s i (f, st))) /\
  let lu := sc_index (d_flags st) f (ptr s i) ci in
  e_out e' = e_out e ++ [put raw (ctxno_sc lu) (if raw then smr_sign (smp s i j) else Z.lxor (smr_sign (smp s i j)) (spb lu))].
Proof.
  intros HR e'. split.
  - unfold e', become. cbn [e_flags enc_sign set_flags emit add_nmsedec].
    rewrite (update_vsc_eq (d_flags _) (ptr s i) j _ _ vsc' vsc Hvsc). by apply rel_signif.
  - unfold e'. cbn [e_out enc_sign set_flags emit add_nmsedec e_flags]. 
    rewrite (rel_index M dn _ _ s i j f HR Hv) by (by apply (flat_word M dn _ s i j (f, st))).
    by rewrite flat_index.
Qed.

Lemma dec_sign_feeds f st : Rel M dn (e_flags e) (flat s i (f, st)) ->
  let lu := sc_index (d_flags st) f (ptr s i) ci in
  exists x, feeds (dec_sign w (b + 1) vsc' (ptr s i) (dataIdx w s i j) ci (f, st))
    [MQ (ctxno_sc lu) (Z.lxor (smr_sign (smp s i j)) (spb lu))] x /\
    flat s i x = become vsc' s i j (flat s i (f, st)).
Proof.
  intros HR lu. set (sgn := smr_sign (smp s i j)).
  set (u := UPDATE_FLAGS f (d_flags st) (ptr s i) ci sgn stride vsc').
  exists (u.1, mkD u.2 (<[dataIdx w s i j := if sgn =? 0 then oneplushalf (b + 1) else i32 (- oneplushalf (b + 1))]> (d_data st))).
  split.
  - unfold dec_sign. fold lu. apply feeds_sym. rewrite Z.lxor_assoc, Z.lxor_nilpotent, Z.lxor_0_r.
    unfold set_ddata, set_dflags. cbn [d_flags d_data]. fold sgn. unfold u.
    destruct (UPDATE_FLAGS _ _ _ _ _ _ _). apply feeds_ret.
  - unfold flat, become. cbn [fst snd d_flags d_data]. fold sgn. f_equal.
    unfold u. pose proof (flat_len _ _ _ _ _ _ HR) as Hl. cbn [snd] in Hl. pose proof (ptr_bound _ _ _ _ _ Hv).
    destruct (UPDATE_FLAGS_local w f (d_flags st) (ptr s i) ci sgn vsc' (ptr_around w s i)) as [->|]; [done|lia].
Qed.
End sign.

(** ** Significance propagation *)

(** In this pass the samples done are the ones marked visited. *)
Definition SigI (E : list Z) (st : decst) : Prop := Rel (keep w h) (pi w E) E st.

Lemma sig_visit E0 E1 st1 s i j : Rel (keep w h) (upd (pi w E0) s i j) E1 st1 -> valid w h s i j ->
  (forall s' i' j', valid w h s' i' j' -> pi w E1 s' i' j' = pi w E0 s' i' j') ->
  SigI (or_at (ptr s i) (Z.shiftl T1_PI_THIS (3 * Z.of_nat j)) E1)
       (mkD (or_at (ptr s i) (Z.shiftl T1_PI_THIS (3 * Z.of_nat j)) (d_flags st1)) (d_data st1)).
Proof.
  intros HR Hv Hpi. pose proof (rel_len _ _ _ _ HR) as Hl.
  apply (rel_ext _ (upd (pi w E0) s i j)).
  - apply (rel_reflag _ (keep w h) _ _ _ _ _ HR); cbn; try done.
    + apply length_or.
    + apply same_flags_or, (rel_flags _ _ _ _ HR).
    + intros p. apply keep_base.
    + intros s' i' j' Hv'. by apply (or_pi w h).
  - intros s' i' j' Hv'. unfold upd. rewrite <- Hpi by done. by apply (or_pi w h).
Qed.

Lemma propagate_new f j : (j < 4)%nat -> to_propagate f (3 * Z.of_nat j) = true ->
  Z.testbit f (sbit j) = false /\ Z.testbit f (pbit j) = false.
Proof.
  intros Hj H. apply andb_prop in H as [H _]. fold (to_clean f (3 * Z.of_nat j)) in H.
  rewrite to_clean_bits in H by done. by apply andb_prop in H as [?%negb_true_iff ?%negb_true_iff].
Qed.

(** The coded decisions of a step and the decoder's effect, for both kinds of symbols. *)
Lemma sig_step_effect raw e s i j f st vsc vsc' : valid w h s i j -> SigI (e_flags e) (flat s i (f, st)) ->
  (j =? 0)%nat && vsc' = (j =? 0)%nat && vsc -> to_propagate (word (e_flags e) (ptr s i)) (3 * Z.of_nat j) = true ->
  let e' := enc_sigpass_step w orientation raw b (ptr s i) (smp s i j) (3 * Z.of_nat j) vsc e in
  let st1 := if plane_bit b (smp s i j) =? 0 then flat s i (f, st) else become vsc' s i j (flat s i (f, st)) in
  let v := plane_bit b (smp s i j) in
  let sgn := smr_sign (smp s i j) in
  let lu := sc_index (d_flags st) f (ptr s i) (3 * Z.of_nat j) in
  SigI (e_flags e') (mkD (or_at (ptr s i) (Z.shiftl T1_PI_THIS (3 * Z.of_nat j)) (d_flags st1)) (d_data st1)) /\
  e_out e' = e_out e ++ put raw (GETCTXNO_ZC orientation (Z.shiftr f (3 * Z.of_nat j))) v ::
    (if v =? 0 then [] else [put raw (ctxno_sc lu) (if raw then sgn else Z.lxor sgn (spb lu))]).
Proof.
  intros Hv HI Hvsc Hp e' st1 v sgn lu. pose proof (flat_word _ _ _ s i j _ HI Hv) as Hw. cbn [fst] in Hw.
  destruct (propagate_new _ _ (proj1 (proj2 Hv)) Hp) as [Hs0 Hp0].
  unfold e', enc_sigpass_step. rewrite Hp.
  rewrite (same_ZC (keep w h (ptr s i)) _ f (keep_base w h _) Hw orientation j (proj1 (proj2 Hv))).
  unfold st1, v in *. clear st1 v. destruct (plane_bit_bit b (smp s i j)) as [Ev|Ev]; rewrite !Ev; cbn [Z.eqb];
    set (e1 := emit _ e); assert (e_flags e1 = e_flags e) as Ef by reflexivity.
  - split; [|cbn [set_flags e_out]; reflexivity]. cbn [set_flags e_flags]. rewrite Ef.
    apply (sig_visit (e_flags e)); try done. by apply rel_insignif.
  - destruct (sign_coded (keep w h) (pi w (e_flags e)) e1 s i j vsc vsc' Hv Hp0 Hs0 Ev Hvsc raw f st HI) as [HR Ho].
    split; [|cbn [set_flags e_out]; rewrite Ho; unfold e1, emit; cbn [e_out]; rewrite <- app_assoc; reflexivity].
    cbn [set_flags e_flags]. apply (sig_visit (e_flags e)); [done|done|].
    intros s' i' j' Hv'. cbn [e_flags enc_sign set_flags emit add_nmsedec]. rewrite Ef.
    apply (update_pi w h); [exact Hv|exact Hv'|apply (rel_len _ _ _ _ HI)|apply smr_sign_bit].
Qed.

Lemma sig_step_coded e s i j f st vsc vsc' : valid w h s i j -> SigI (e_flags e) (flat s i (f, st)) ->
  (j =? 0)%nat && vsc' = (j =? 0)%nat && vsc ->
  let e' := enc_sigpass_step w orientation false b (ptr s i) (smp s i j) (3 * Z.of_nat j) vsc e in
  coded e e' (DEC_PASS_SIG_STEP w orientation (b + 1) vsc' (ptr s i) (dataIdx w s i j) (3 * Z.of_nat j) (f, st))
    (fun x => SigI (e_flags e') (flat s i x)).
Proof.
  intros Hv HI Hvsc e'. pose proof (flat_word _ _ _ s i j _ HI Hv) as Hw. cbn [fst] in Hw.
  pose proof (same_propagate _ _ _ (keep_base w h _) Hw j (proj1 (proj2 Hv)) (keep_sees w h s i j Hv)) as Hsame.
  unfold DEC_PASS_SIG_STEP. cbn [fst snd]. rewrite <- Hsame.
  destruct (to_propagate (word (e_flags e) (ptr s i)) (3 * Z.of_nat j)) eqn:Hp.
  2: { unfold e', enc_sigpass_step. rewrite Hp. by apply coded_ret. }
  destruct (sig_step_effect false e s i j f st vsc vsc' Hv HI Hvsc Hp) as [HR Ho]. fold e' in HR, Ho.
  destruct (propagate_new _ _ (proj1 (proj2 Hv)) Hp) as [Hs0 Hp0].
  destruct (plane_bit_bit b (smp s i j)) as [Ev|Ev]; rewrite !Ev in HR, Ho; cbn [Z.eqb] in HR, Ho.
  - eexists _, (Z.lor f _, st). split; [exact Ho|]. split.
    + apply feeds_sym. exact (feeds_ret _).
    + rewrite flat_or. exact HR.
  - destruct (dec_sign_feeds (keep w h) (pi w (e_flags e)) e s i j vsc' Hv f st HI) as (x & Fx & Ex).
    eexists _, (Z.lor x.1 _, x.2). split; [exact Ho|]. split.
    + apply feeds_sym. cbn [Z.eqb]. rewrite <- (app_nil_r [_]). eapply feeds_bind; [exact Fx|]. apply feeds_ret.
    + rewrite flat_or, <- surjective_pairing, Ex. rewrite <- Ex in HR at 2. exact HR.
Qed.

Lemma sig_step_coded_raw e s i j st vsc vsc' : valid w h s i j -> SigI (e_flags e) st ->
  (j =? 0)%nat && vsc' = (j =? 0)%nat && vsc ->
  let e' := enc_sigpass_step w orientation true b (ptr s i) (smp s i j) (3 * Z.of_nat j) vsc e in
  coded e e' (dec_sigpass_step_raw w (b + 1) vsc' (ptr s i) (dataIdx w s i j) (3 * Z.of_nat j) st)
    (SigI (e_flags e')).
Proof.
  intros Hv HI Hvsc e'. rewrite <- (flat_start s i st) in HI. set (f := word (d_flags st) (ptr s i)) in HI.
  pose proof (flat_word _ _ _ s i j _ HI Hv) as Hw. cbn [fst] in Hw.
  pose proof (same_propagate _ _ _ (keep_base w h _) Hw j (proj1 (proj2 Hv)) (keep_sees w h s i j Hv)) as Hsame.
  unfold dec_sigpass_step_raw. fold f. rewrite <- Hsame.
  destruct (to_propagate (word (e_flags e) (ptr s i)) (3 * Z.of_nat j)) eqn:Hp.
  2: { unfold e', enc_sigpass_step. rewrite Hp. rewrite <- (flat_start s i st). by apply coded_ret. }
  destruct (sig_step_effect true e s i j f st vsc vsc' Hv HI Hvsc Hp) as [HR Ho]. fold e' in HR, Ho.
  assert (flat s i (f, st) = st) as Efl by apply flat_start. rewrite !Efl in HR.
  destruct (plane_bit_bit b (smp s i j)) as [Ev|Ev]; rewrite !Ev in HR, Ho; cbn [Z.eqb put] in HR, Ho.
  - eexists _, _. split; [exact Ho|]. split; [|exact HR]. apply feeds_raw. exact (feeds_ret _).
  - eexists _, _. split; [exact Ho|]. split; [|exact HR]. apply feeds_raw. cbn [Z.eqb].
    change [RAW (smr_sign (smp s i j))] with ([RAW (smr_sign (smp s i j))] ++ []).
    eapply feeds_bind; [|apply feeds_ret]. apply feeds_raw. apply feeds_ret.
Qed.

(** *** Columns and stripes *)

Lemma columns_coded (J : nat -> nat -> encst -> decst -> Prop) fullE partE fullD partD e st :
  (forall s i e st, (S s <= h / 4)%nat -> (i < w)%nat -> J s i e st ->
     coded e (fullE s i e) (fullD s i st) (J s (S i) (fullE s i e))) ->
  (forall i e st, (4 * (h / 4) < h)%nat -> (i < w)%nat -> J (h / 4)%nat i e st ->
     coded e (partE (h / 4)%nat i e) (partD (h / 4)%nat i st) (J (h / 4)%nat (S i) (partE (h / 4)%nat i e))) ->
  (forall s e st, J s w e st -> J (S s) 0%nat e st) -> J 0%nat 0%nat e st ->
  coded e (enc_columns w h fullE partE e) (dec_columns w h fullD partD st)
    (J (getFlagsHeight h) 0%nat (enc_columns w h fullE partE e)).
Proof.
  intros Hfull Hpart Hnext H0. unfold enc_columns, dec_columns. set (e1 := foldl _ e _).
  assert (getFlagsHeight h = if (4 * (h / 4) <? h)%nat then S (h / 4) else (h / 4)%nat) as ->.
  { unfold getFlagsHeight. pose proof (Nat.div_mod h 4). pose proof (Nat.mod_upper_bound h 4).
    destruct (Nat.ltb_spec (4 * (h / 4)) h); symmetry.
    - apply (Nat.div_unique _ _ _ (h mod 4 - 1)); lia.
    - apply (Nat.div_unique _ _ _ 3); lia. }
  eapply coded_bind.
  - unfold e1. apply (coded_fold (fun e s => foldl (fun e i => fullE s i e) e (seq 0 w))
      (fun st s => pfold (fun st i => fullD s i st) st (seq 0 w)) (fun s => J s 0%nat)); [|exact H0].
    intros s e2 st2 Hs H2. eapply coded_mono; [|apply Hnext].
    apply (coded_fold (fun e i => fullE s i e) (fun st i => fullD s i st) (fun i => J s i)); [|exact H2].
    intros i e3 st3 Hi H3. apply Hfull; [lia|lia|exact H3].
  - cbn beta. rewrite Nat.add_0_l. intros st1 H1. destruct (Nat.ltb_spec (4 * (h / 4)) h) as [Hh|Hh]; [|by apply coded_ret].
    eapply coded_mono; [|apply Hnext].
    apply (coded_fold (fun e i => partE (h / 4)%nat i e) (fun st i => partD (h / 4)%nat i st)
      (fun i => J (h / 4)%nat i)); [|exact H1].
    intros i e3 st3 Hi H3. apply Hpart; [lia|lia|exact H3].
Qed.

Lemma valid_full s i j : (S s <= h / 4)%nat -> (i < w)%nat -> (j < 4)%nat -> valid w h s i j.
Proof. intros Hs Hi Hj. pose proof (Nat.div_mod h 4). unfold valid. lia. Qed.
Lemma valid_part i j : (i < w)%nat -> (j < h - 4 * (h / 4))%nat -> valid w h (h / 4) i j.
Proof.
  intros Hi Hj. pose proof (Nat.div_mod h 4). pose proof (Nat.mod_upper_bound h 4). unfold valid. lia.
Qed.

(** The rows of a column, decoded with the word in a local variable. *)
Lemma rows_coded (I : nat -> encst -> decst -> Prop) (fE : encst -> nat -> encst)
    (gD : nat -> Z * decst -> prog (Z * decst)) s i k n e st :
  (forall j e x, (k <= j < k + n)%nat -> I j e (flat s i x) ->
     coded e (fE e j) (gD j x) (fun x' => I (S j) (fE e j) (flat s i x'))) ->
  I k e st ->
  coded e (foldl fE e (seq k n)) (dec_rows w gD s i (seq k n) st) (I (k + n)%nat (foldl fE e (seq k n))).
Proof.
  intros Hstep H0. unfold dec_rows. eapply coded_bind.
  - apply (coded_fold fE (fun x j => gD j x) (fun j e x => I j e (flat s i x))); [exact Hstep|]. by rewrite flat_start.
  - intros x Hx. by apply coded_ret.
Qed.

(** In a partial stripe the word is loaded and stored around each row. *)
Lemma part_rows_coded (I : nat -> encst -> decst -> Prop) (fE : encst -> nat -> encst)
    (gD : nat -> Z * decst -> prog (Z * decst)) s i n e st :
  (forall j e x, (j < n)%nat -> I j e (flat s i x) ->
     coded e (fE e j) (gD j x) (fun x' => I (S j) (fE e j) (flat s i x'))) ->
  I 0%nat e st ->
  coded e (foldl fE e (seq 0 n)) (pfold (fun st j => dec_rows w gD s i [j] st) st (seq 0 n))
    (I n (foldl fE e (seq 0 n))).
Proof.
  intros Hstep H0. apply (coded_fold fE (fun st j => dec_rows w gD s i [j] st) I); [|exact H0]. intros j e1 st1 Hj H1.
  pose proof (rows_coded I fE gD s i j 1 e1 st1) as H. rewrite Nat.add_1_r in H. apply H; [|exact H1].
  intros j' e2 x Hj' Hx. apply Hstep; [lia|exact Hx].
Qed.

Lemma foldl_id {A B} (f : A -> B -> A) e l : (forall x, x ∈ l -> f e x = e) -> foldl f e l = e.
Proof.
  induction l as [|x l IH]; intros H; [done|]. cbn. rewrite H by (by left). apply IH. intros y Hy. apply H. by right.
Qed.
Lemma full_word M E fl s i : same_flags M E fl -> M = keep w h -> (S s <= h / 4)%nat -> (i < w)%nat ->
  word E (ptr s i) = word fl (ptr s i).
Proof.
  intros [_ H] -> Hs Hi. specialize (H (ptr s i)). unfold same_word in H.
  by rewrite (keep_full w h s i _ Hi Hs eq_refl), !Z.land_m1_r in H.
Qed.
Lemma bits_zero n : Z.testbit 0 n = false.
Proof. apply Z.bits_0. Qed.

Lemma sig_part_skip raw vsc s i e :
  enc_sig_part w h orientation data raw b vsc s i e =
  foldl (fun e j => enc_sigpass_step w orientation raw b (ptr s i) (smp s i j) (3 * Z.of_nat j)
                      ((j =? 0)%nat && vsc) e) e (seq 0 (h - 4 * s)).
Proof.
  unfold enc_sig_part. destruct (Z.eqb_spec (word (e_flags e) (ptr s i)) 0) as [E|]; [|done].
  symmetry. apply foldl_id. intros j _. unfold enc_sigpass_step. rewrite E. done.
Qed.

Section sigpass.
Context (cblksty : Z).
Abbreviation vsc := (VSC cblksty).

Lemma sig_full_coded s i e st : (S s <= h / 4)%nat -> (i < w)%nat -> SigI (e_flags e) st ->
  coded e (enc_sig_full w orientation data false b vsc s i e) (dec_sig_full w orientation (b + 1) vsc s i st)
    (SigI (e_flags (enc_sig_full w orientation data false b vsc s i e))).
Proof.
  intros Hs Hi HI. unfold enc_sig_full, dec_sig_full.
  rewrite <- (full_word _ _ _ s i (rel_flags _ _ _ _ HI) eq_refl Hs Hi).
  destruct (word (e_flags e) (ptr s i) =? 0); [by apply coded_ret|].
  apply (rows_coded (fun _ e st => SigI (e_flags e) st)
    (fun e j => enc_sigpass_step w orientation false b (ptr s i) (smp s i j) (3 * Z.of_nat j) ((j =? 0)%nat && vsc) e)
    (fun j => DEC_PASS_SIG_STEP w orientation (b + 1) ((j =? 0)%nat && vsc) (ptr s i) (dataIdx w s i j) (3 * Z.of_nat j))
    s i 0 4 e st); [|exact HI].
  intros j e1 [f st1] Hj H1. apply sig_step_coded; [apply valid_full; lia|exact H1|done].
Qed.

Lemma sig_part_coded i e st : (i < w)%nat -> SigI (e_flags e) st ->
  let s := (h / 4)%nat in
  coded e (enc_sig_part w h orientation data false b vsc s i e) (dec_sig_part w h orientation (b + 1) vsc s i st)
    (SigI (e_flags (enc_sig_part w h orientation data false b vsc s i e))).
Proof.
  intros Hi HI s. rewrite sig_part_skip. unfold dec_sig_part.
  apply (part_rows_coded (fun _ e st => SigI (e_flags e) st)); [|exact HI].
  intros j e1 [f st1] Hj H1. apply sig_step_coded; [apply valid_part; lia|exact H1|].
  by destruct (j =? 0)%nat.
Qed.

Lemma sigpass_coded e st : SigI (e_flags e) st ->
  coded e (enc_sigpass w h orientation data b false cblksty e) (dec_sigpass w h orientation (b + 1) cblksty st)
    (SigI (e_flags (enc_sigpass w h orientation data b false cblksty e))).
Proof.
  intros HI. unfold enc_sigpass, dec_sigpass.
  apply (columns_coded (fun _ _ e st => SigI (e_flags e) st)) with (e := zero_nmsedec e).
  - intros s i e1 st1 Hs Hi H1. by apply sig_full_coded.
  - intros i e1 st1 _ Hi H1. by apply sig_part_coded.
  - done.
  - exact HI.
Qed.

Lemma sigpass_raw_coded e st : SigI (e_flags e) st ->
  coded e (enc_sigpass w h orientation data b true cblksty e) (dec_sigpass_raw w h (b + 1) cblksty st)
    (SigI (e_flags (enc_sigpass w h orientation data b true cblksty e))).
Proof.
  intros HI. unfold enc_sigpass, dec_sigpass_raw.
  apply (columns_coded (fun _ _ e st => SigI (e_flags e) st)) with (e := zero_nmsedec e); [| |done|exact HI].
  - intros s i e1 st1 Hs Hi H1. unfold enc_sig_full.
    rewrite <- (full_word _ _ _ s i (rel_flags _ _ _ _ H1) eq_refl Hs Hi).
    destruct (word (e_flags e1) (ptr s i) =? 0); [by apply coded_ret|].
    apply (coded_fold (fun e j => enc_sigpass_step w orientation true b (ptr s i) (smp s i j) (3 * Z.of_nat j)
             ((j =? 0)%nat && vsc) e)
      (fun st j => dec_sigpass_step_raw w (b + 1) ((j =? 0)%nat && vsc) (ptr s i) (dataIdx w s i j) (3 * Z.of_nat j) st)
      (fun _ e st => SigI (e_flags e) st) 4 0); [|exact H1].
    intros j e2 st2 Hj H2. apply sig_step_coded_raw; [apply valid_full; lia|exact H2|done].
  - intros i e1 st1 _ Hi H1. rewrite sig_part_skip.
    apply (coded_fold _ (fun st j => dec_sigpass_step_raw w (b + 1) vsc (ptr (h / 4)%nat i) (dataIdx w (h / 4)%nat i j) (3 * Z.of_nat j) st)
      (fun _ e st => SigI (e_flags e) st)); [|exact H1].
    intros j e2 st2 Hj H2. apply sig_step_coded_raw; [apply valid_part; lia|exact H2|].
    by destruct (j =? 0)%nat.
Qed.
End sigpass.

(** ** Scan positions *)

(** Sample [(s', i', j')] comes before position [(s, i, j)] in the scan. *)
Definition before (s i j s' i' j' : nat) : bool :=
  (s' <? s)%nat || ((s' =? s)%nat && ((i' <? i)%nat || ((i' =? i)%nat && (j' <? j)%nat))).

Ltac natb := repeat match goal with
  | |- context [(?a <? ?b)%nat] => destruct (Nat.ltb_spec a b)
  | |- context [(?a =? ?b)%nat] => destruct (Nat.eqb_spec a b)
  | |- context [bool_decide ?P] => destruct (decide P); [rewrite (bool_decide_true P) by done|rewrite (bool_decide_false P) by done]
  end; cbn; try done; try lia.

Lemma before_S s i j s' i' j' : before s i (S j) s' i' j' = before s i j s' i' j' || bool_decide (s' = s /\ i' = i /\ j' = j).
Proof. unfold before. natb. Qed.
Lemma before_self s i j : before s i j s i j = false.
Proof. unfold before. natb. Qed.
Lemma before_later s i j j' : (j <= j')%nat -> before s i j s i j' = false.
Proof. intros H. unfold before. natb. Qed.
Lemma before_column s i n s' i' j' : valid w h s' i' j' -> (n = 4 \/ n = h - 4 * s)%nat ->
  before s (S i) 0 s' i' j' = before s i n s' i' j'.
Proof. intros (Hi & Hj & Hh) Hn. unfold before. natb. Qed.
Lemma before_stripe s s' i' j' : valid w h s' i' j' -> before (S s) 0 0 s' i' j' = before s w 0 s' i' j'.
Proof. intros (Hi & Hj & Hh). unfold before. natb. Qed.
Lemma before_all s i j : valid w h s i j -> before (getFlagsHeight h) 0 0 s i j = true.
Proof. intros Hv. pose proof (height_bound _ _ _ _ _ Hv). unfold before. natb. Qed.
Lemma before_none s i j : before 0 0 0 s i j = false.
Proof. unfold before. natb. Qed.

(** ** Magnitude refinement *)

(** Samples done: those the first pass visited, and those refined so far. *)
Definition ref_done (E : list Z) (s i j s' i' j' : nat) : bool :=
  pi w E s' i' j' || (sigma w E s' i' j' && before s i j s' i' j').
Definition RefI (s i j : nat) (E : list Z) (st : decst) : Prop := Rel (keep w h) (ref_done E s i j) E st.

(** What a refined sample leaves in both states, for both kinds of symbols. *)
Lemma ref_step_effect raw e s i j f st : valid w h s i j -> RefI s i j (e_flags e) (flat s i (f, st)) ->
  let e' := enc_refpass_step raw b (ptr s i) (smp s i j) (3 * Z.of_nat j) e in
  let v := plane_bit b (smp s i j) in
  to_refine (word (e_flags e) (ptr s i)) (3 * Z.of_nat j) = to_refine f (3 * Z.of_nat j) /\
  if to_refine f (3 * Z.of_nat j) then
    RefI s i (S j) (e_flags e')
      (mkD (or_at (ptr s i) (Z.shiftl T1_MU_THIS (3 * Z.of_nat j)) (d_flags (flat s i (f, st))))
           (<[dataIdx w s i j := refined v s i j st]> (d_data st))) /\
    e_out e' = e_out e ++ [put raw (GETCTXNO_MAG (Z.shiftr f (3 * Z.of_nat j))) v]
  else e' = e /\ RefI s i (S j) (e_flags e) (flat s i (f, st)).
Proof.
  intros Hv HI e' v. pose proof (flat_word _ _ _ s i j _ HI Hv) as Hw. cbn [fst] in Hw.
  destruct (Hv) as (Hi & Hj & _).
  pose proof (same_refine _ _ _ (keep_base w h _) Hw j Hj (keep_sees w h s i j Hv)) as Hsame.
  split; [exact Hsame|]. unfold e', enc_refpass_step. rewrite enc_to_refine, Hsame by lia.
  pose proof (to_refine_bits (word (e_flags e) (ptr s i)) j Hj) as Hbits. rewrite Hsame in Hbits.
  change (Z.testbit (word (e_flags e) (ptr s i)) (sbit j)) with (sigma w (e_flags e) s i j) in Hbits.
  change (Z.testbit (word (e_flags e) (ptr s i)) (pbit j)) with (pi w (e_flags e) s i j) in Hbits.
  destruct (to_refine f (3 * Z.of_nat j)).
  - symmetry in Hbits. apply andb_prop in Hbits as [Hsg Hpi%negb_true_iff]. split.
    2: { cbn [set_flags e_out emit add_nmsedec]. by rewrite (same_MAG _ _ f (keep_base w h _) Hw j Hj). }
    assert (ref_done (e_flags e) s i j s i j = false) as Hd.
    { unfold ref_done. by rewrite Hpi, before_self, andb_false_r. }
    pose proof (rel_refine _ _ _ _ s i j HI Hv Hd Hsg) as HR.
    cbn [set_flags e_flags emit add_nmsedec].
    apply (rel_ext _ (upd (ref_done (e_flags e) s i j) s i j)).
    + apply (rel_reflag _ (keep w h) _ _ _ _ _ HR); cbn [d_flags d_data]; try done.
      * apply length_or.
      * apply same_flags_or, (rel_flags _ _ _ _ HI).
      * intros p. apply keep_base.
      * intros s' i' j' Hv'. by apply (or_mu w h).
    + intros s' i' j' Hv'. unfold upd, ref_done. rewrite before_S.
      destruct (or_mu w h (e_flags e) s i j s' i' j' Hv Hv') as [-> ->].
      destruct (bool_decide (s' = s /\ i' = i /\ j' = j)) eqn:Ed; [|by rewrite !orb_false_r].
      apply bool_decide_eq_true in Ed as (-> & -> & ->). by rewrite Hsg, !orb_true_r.
  - split; [done|]. apply (rel_ext _ (ref_done (e_flags e) s i j)); [exact HI|].
    intros s' i' j' Hv'. unfold ref_done. rewrite before_S.
    destruct (bool_decide (s' = s /\ i' = i /\ j' = j)) eqn:Ed; [|by rewrite !orb_false_r].
    apply bool_decide_eq_true in Ed as (-> & -> & ->).
    destruct (sigma w (e_flags e) s i j), (pi w (e_flags e) s i j); done.
Qed.

Lemma ref_step_coded e s i j x : valid w h s i j -> RefI s i j (e_flags e) (flat s i x) ->
  let e' := enc_refpass_step false b (ptr s i) (smp s i j) (3 * Z.of_nat j) e in
  coded e e' (DEC_PASS_REF_STEP (b + 1) (dataIdx w s i j) (3 * Z.of_nat j) x)
    (fun x => RefI s i (S j) (e_flags e') (flat s i x)).
Proof.
  destruct x as [f st]. intros Hv HI e'. destruct (ref_step_effect false e s i j f st Hv HI) as [_ H]. fold e' in H.
  unfold DEC_PASS_REF_STEP. cbn [fst snd]. destruct (to_refine f (3 * Z.of_nat j)).
  - destruct H as [HR Ho]. eexists _, (Z.lor f _, _). split; [exact Ho|]. split.
    + apply feeds_sym. apply feeds_ret.
    + rewrite flat_or. exact HR.
  - destruct H as [-> HR]. by apply coded_ret.
Qed.
Lemma ref_step_coded_raw e s i j st : valid w h s i j -> RefI s i j (e_flags e) st ->
  let e' := enc_refpass_step true b (ptr s i) (smp s i j) (3 * Z.of_nat j) e in
  coded e e' (dec_refpass_step_raw (b + 1) (ptr s i) (dataIdx w s i j) (3 * Z.of_nat j) st)
    (RefI s i (S j) (e_flags e')).
Proof.
  intros Hv HI e'. rewrite <- (flat_start s i st) in HI.
  destruct (ref_step_effect true e s i j _ st Hv HI) as [_ H]. fold e' in H. rewrite flat_start in H.
  unfold dec_refpass_step_raw. destruct (to_refine (word (d_flags st) (ptr s i)) (3 * Z.of_nat j)).
  - destruct H as [HR Ho]. eexists _, _. split; [exact Ho|]. split; [|exact HR].
    apply feeds_raw. apply feeds_ret.
  - destruct H as [-> HR]. by apply coded_ret.
Qed.

(** The encoder's skipped columns have nothing to refine. *)
Lemma land_all_zero f m n : Z.land f m = 0 -> Z.testbit m n = true -> Z.testbit f n = false.
Proof.
  intros H Hn. pose proof (f_equal (fun x => Z.testbit x n) H) as E.
  cbn beta in E. by rewrite Z.land_spec, Hn, andb_true_r, Z.bits_0 in E.
Qed.
Lemma land_all_set f m n : Z.land f m = m -> Z.testbit m n = true -> Z.testbit f n = true.
Proof.
  intros H Hn. pose proof (f_equal (fun x => Z.testbit x n) H) as E.
  cbn beta in E. by rewrite Z.land_spec, Hn, andb_true_r in E.
Qed.
Lemma all_bits j : (j < 4)%nat -> Z.testbit T1_SIGMA_ALL (sbit j) = true /\ Z.testbit T1_PI_ALL (pbit j) = true.
Proof. intros Hj. four j; done. Qed.

Lemma ref_skip raw s i n e : (n <= 4)%nat -> Z.land (word (e_flags e) (ptr s i)) T1_SIGMA_ALL = 0 \/
    Z.land (word (e_flags e) (ptr s i)) T1_PI_ALL = T1_PI_ALL ->
  foldl (fun e j => enc_refpass_step raw b (ptr s i) (smp s i j) (3 * Z.of_nat j) e) e (seq 0 n) = e.
Proof.
  intros Hn H. apply foldl_id. intros j Hj%elem_of_seq. unfold enc_refpass_step.
  rewrite enc_to_refine, to_refine_bits by lia. destruct (all_bits j ltac:(lia)) as [H1 H2].
  destruct H as [H|H].
  - by rewrite (land_all_zero _ _ _ H H1).
  - by rewrite (land_all_set _ _ _ H H2), andb_false_r.
Qed.
Lemma ref_full_rows raw s i e : enc_ref_full w data raw b s i e =
  foldl (fun e j => enc_refpass_step raw b (ptr s i) (smp s i j) (3 * Z.of_nat j) e) e (seq 0 4).
Proof.
  unfold enc_ref_full. destruct (Z.eqb_spec (Z.land (word (e_flags e) (ptr s i)) T1_SIGMA_ALL) 0) as [E|].
  { symmetry. apply ref_skip; [done|by left]. }
  destruct (Z.eqb_spec (Z.land (word (e_flags e) (ptr s i)) T1_PI_ALL) T1_PI_ALL) as [E|]; [|done].
  symmetry. apply ref_skip; [done|by right].
Qed.
Lemma ref_part_rows raw i e : enc_ref_part w h data raw b (h / 4) i e =
  foldl (fun e j => enc_refpass_step raw b (ptr (h / 4) i) (smp (h / 4) i j) (3 * Z.of_nat j) e) e (seq 0 (h - 4 * (h / 4))).
Proof.
  unfold enc_ref_part. destruct (Z.eqb_spec (Z.land (word (e_flags e) (ptr (h / 4) i)) T1_SIGMA_ALL) 0) as [E|]; [|done].
  symmetry. apply ref_skip; [|by left]. pose proof (Nat.div_mod h 4). pose proof (Nat.mod_upper_bound h 4). lia.
Qed.

Lemma ref_next s i n E st : RefI s i n E st -> (n = 4 \/ n = h - 4 * s)%nat -> RefI s (S i) 0 E st.
Proof.
  intros HI Hn. apply (rel_ext _ (ref_done E s i n)); [exact HI|]. intros s' i' j' Hv'. unfold ref_done.
  by rewrite (before_column s i n).
Qed.
Lemma ref_zero s i E st : RefI s i 0 E st -> word E (ptr s i) = 0 -> RefI s (S i) 0 E st.
Proof.
  intros HI Hz. apply (rel_ext _ (ref_done E s i 0)); [exact HI|]. intros s' i' j' Hv'. unfold ref_done.
  rewrite (before_column s i 4) by auto. destruct (decide (s' = s /\ i' = i)) as [[-> ->]|Hne].
  - unfold sigma. by rewrite Hz, Z.bits_0.
  - f_equal. f_equal. unfold before. natb.
Qed.

Lemma ref_stripe s E st : RefI s w 0 E st -> RefI (S s) 0 0 E st.
Proof.
  intros HI. apply (rel_ext _ (ref_done E s w 0)); [exact HI|]. intros s' i' j' Hv'. unfold ref_done.
  by rewrite before_stripe.
Qed.

Lemma refpass_coded e st : RefI 0 0 0 (e_flags e) st ->
  coded e (enc_refpass w h data b false e) (dec_refpass w h (b + 1) st)
    (RefI (getFlagsHeight h) 0 0 (e_flags (enc_refpass w h data b false e))).
Proof.
  intros HI. unfold enc_refpass, dec_refpass.
  apply (columns_coded (fun s i e st => RefI s i 0 (e_flags e) st)) with (e := zero_nmsedec e).
  - intros s i e1 st1 Hs Hi H1. rewrite ref_full_rows. unfold dec_ref_full.
    rewrite <- (full_word _ _ _ s i (rel_flags _ _ _ _ H1) eq_refl Hs Hi).
    destruct (Z.eqb_spec (word (e_flags e1) (ptr s i)) 0) as [E|_].
    { rewrite ref_skip; [|done|left; by rewrite E]. apply coded_ret; [done|]. by apply ref_zero. }
    eapply coded_mono; [|intros st2 H2; exact (ref_next s i 4 _ _ H2 (or_introl eq_refl))].
    apply (rows_coded (fun j e st => RefI s i j (e_flags e) st) _ _ s i 0 4 e1 st1); [|exact H1].
    intros j e2 x Hj H2. apply ref_step_coded; [apply valid_full; lia|exact H2].
  - intros i e1 st1 _ Hi H1. rewrite ref_part_rows.
    eapply coded_mono; [|intros st2 H2; exact (ref_next _ i _ _ _ H2 (or_intror eq_refl))].
    apply (part_rows_coded (fun j e st => RefI (h / 4) i j (e_flags e) st)); [|exact H1].
    intros j e2 x Hj H2. apply ref_step_coded; [apply valid_part; lia|exact H2].
  - intros s e1 st1. apply ref_stripe.
  - exact HI.
Qed.

Lemma refpass_raw_coded e st : RefI 0 0 0 (e_flags e) st ->
  coded e (enc_refpass w h data b true e) (dec_refpass_raw w h (b + 1) st)
    (RefI (getFlagsHeight h) 0 0 (e_flags (enc_refpass w h data b true e))).
Proof.
  intros HI. unfold enc_refpass, dec_refpass_raw.
  apply (columns_coded (fun s i e st => RefI s i 0 (e_flags e) st)) with (e := zero_nmsedec e).
  - intros s i e1 st1 Hs Hi H1. rewrite ref_full_rows.
    rewrite <- (full_word _ _ _ s i (rel_flags _ _ _ _ H1) eq_refl Hs Hi).
    destruct (Z.eqb_spec (word (e_flags e1) (ptr s i)) 0) as [E|_].
    { rewrite ref_skip; [|done|left; by rewrite E]. apply coded_ret; [done|]. by apply ref_zero. }
    eapply coded_mono; [|intros st2 H2; exact (ref_next s i 4 _ _ H2 (or_introl eq_refl))].
    apply (coded_fold _ (fun st j => dec_refpass_step_raw (b + 1) (ptr s i) (dataIdx w s i j) (3 * Z.of_nat j) st)
      (fun j e st => RefI s i j (e_flags e) st) 4 0); [|exact H1].
    intros j e2 st2 Hj H2. apply ref_step_coded_raw; [apply valid_full; lia|exact H2].
  - intros i e1 st1 _ Hi H1. rewrite ref_part_rows.
    eapply coded_mono; [|intros st2 H2; exact (ref_next _ i _ _ _ H2 (or_intror eq_refl))].
    apply (coded_fold _ (fun st j => dec_refpass_step_raw (b + 1) (ptr (h / 4)%nat i) (dataIdx w (h / 4)%nat i j) (3 * Z.of_nat j) st)
      (fun j e st => RefI (h / 4) i j (e_flags e) st)); [|exact H1].
    intros j e2 st2 Hj H2. apply ref_step_coded_raw; [apply valid_part; lia|exact H2].
  - intros s e1 st1. apply ref_stripe.
  - exact HI.
Qed.

(** ** Cleanup *)

(** Samples done: those cleaned so far, and those of the first two passes. *)
Definition cln_done (E : list Z) (s i j s' i' j' : nat) : bool :=
  before s i j s' i' j' || pi w E s' i' j' || sigma w E s' i' j'.
Record ClnI (M : nat -> Z) (s i j : nat) (E : list Z) (st : decst) : Prop := MkClnI {
  cln_rel : Rel M (cln_done E s i j) E st;
  cln_pi : forall s' i' j', valid w h s' i' j' -> before s i j s' i' j' = true -> pi w E s' i' j' = false;
}.

(** The encoder clears [pi] row by row, the decoder at the end of the column. *)
Definition unsee (M : nat -> Z) (p : nat) (m : Z) : nat -> Z := fun p' => if decide (p' = p) then Z.ldiff (M p') m else M p'.

Lemma sub_ldiff m : sub_mask m T1_PI_ALL -> forall k, sub_mask BASE k -> sub_mask BASE (Z.ldiff k m).
Proof.
  intros Hm k Hk. unfold sub_mask in *. apply Z.bits_inj'. intros n Hn.
  pose proof (f_equal (fun x => Z.testbit x n) Hk) as E1. cbn beta in E1. rewrite Z.land_spec in E1.
  pose proof (f_equal (fun x => Z.testbit x n) Hm) as E2. cbn beta in E2. rewrite Z.land_spec in E2.
  rewrite Z.land_spec, Z.ldiff_spec. unfold BASE in *. rewrite Z.lnot_spec in * by done.
  destruct (Z.testbit T1_PI_ALL n), (Z.testbit m n), (Z.testbit k n); done.
Qed.
Lemma unsee_base M p m : (forall p, sub_mask BASE (M p)) -> sub_mask m T1_PI_ALL -> forall p', sub_mask BASE (unsee M p m p').
Proof. intros HM Hm p'. unfold unsee. destruct (decide _); [|done]. by apply sub_ldiff. Qed.

Lemma same_flags_clear M p m fl fl' : same_flags M fl fl' -> same_flags (unsee M p m) (clear_at p m fl) fl'.
Proof.
  intros [Hl H]. split; [by rewrite length_clear|]. intros p'. rewrite word_clear. unfold unsee.
  destruct (decide (p' = p)) as [->|Hne]; [|rewrite decide_False by tauto; done].
  apply (same_word_sub (M p)) with (x := Z.ldiff (M p) m) in H as H'.
  2: { unfold sub_mask. apply Z.bits_inj'. intros n Hn. rewrite Z.land_spec, Z.ldiff_spec.
       destruct (Z.testbit (M p) n); [by rewrite andb_true_r|done]. }
  destruct (decide _); [|exact H']. apply same_word_ext. intros n Hn Hb0.
  rewrite Z.ldiff_spec. rewrite <- (same_word_bit _ _ _ n H' Hb0).
  rewrite Z.ldiff_spec in Hb0. apply andb_prop in Hb0 as [_ ->]. apply andb_true_r.
Qed.

Lemma pi_this_sub j : (j < 4)%nat -> sub_mask (Z.shiftl T1_PI_THIS (3 * Z.of_nat j)) T1_PI_ALL.
Proof. intros Hj. four j; reflexivity. Qed.
Lemma pi_this_test j j' : (j < 4)%nat -> Z.testbit (Z.shiftl T1_PI_THIS (3 * Z.of_nat j)) (pbit j') = (j' =? j)%nat.
Proof.
  intros Hj. rewrite pi_this_bit, bit_testbit by (done || unfold pbit; lia). unfold pbit.
  destruct (Nat.eqb_spec j' j); [apply Z.eqb_eq|apply Z.eqb_neq]; lia.
Qed.

(** After the decisions on row [j] the encoder forgets that the row was visited. *)
Lemma cln_clear M E0 E st s i j : valid w h s i j -> (forall p, sub_mask BASE (M p)) ->
  Rel M (upd (cln_done E0 s i j) s i j) E st ->
  (forall s' i' j', valid w h s' i' j' -> pi w E s' i' j' = pi w E0 s' i' j') ->
  (forall s' i' j', valid w h s' i' j' -> (s', i', j') <> (s, i, j) -> sigma w E s' i' j' = sigma w E0 s' i' j') ->
  (forall s' i' j', valid w h s' i' j' -> before s i j s' i' j' = true -> pi w E0 s' i' j' = false) ->
  let m := Z.shiftl T1_PI_THIS (3 * Z.of_nat j) in
  ClnI (unsee M (ptr s i) m) s i (S j) (clear_at (ptr s i) m E) st.
Proof.
  intros Hv HM HR Hpi Hsg Hcl m. destruct (Hv) as (Hi & Hj & Hh).
  assert (valid w h s i 0) as Hv0 by (unfold valid in *; lia).
  pose proof (rel_len _ _ _ _ HR) as Hl. pose proof (pi_this_sub j Hj) as Hm. fold m in Hm.
  assert (forall s' i' j', valid w h s' i' j' ->
    sigma w (clear_at (ptr s i) m E) s' i' j' = sigma w E s' i' j' /\
    pi w (clear_at (ptr s i) m E) s' i' j' =
      pi w E0 s' i' j' && negb (bool_decide (s' = s /\ i' = i /\ j' = j))) as Hc.
  { intros s' i' j' Hv'. destruct (clear_pi w h E s i m s' i' j' Hv0 Hv' Hl Hm) as [-> ->].
    split; [done|]. rewrite Hpi by done. unfold m. rewrite pi_this_test by done. do 2 f_equal. natb; tauto. }
  split.
  - apply (rel_ext _ (upd (cln_done E0 s i j) s i j)).
    + apply (rel_reflag _ _ _ _ _ _ _ HR).
      * apply length_clear.
      * apply same_flags_clear, (rel_flags _ _ _ _ HR).
      * done.
      * by apply unsee_base.
      * intros s' i' j' Hv'. by apply Hc.
    + intros s' i' j' Hv'. unfold upd, cln_done. rewrite before_S. destruct (Hc s' i' j' Hv') as [-> ->].
      destruct (bool_decide (s' = s /\ i' = i /\ j' = j)) eqn:Ed; [by rewrite !orb_true_r|].
      apply bool_decide_eq_false in Ed. rewrite Hsg; [|done|intros [= -> -> ->]; by apply Ed]. by rewrite !orb_false_r, andb_true_r.
  - intros s' i' j' Hv'. rewrite before_S. destruct (Hc s' i' j' Hv') as [_ ->].
    destruct (bool_decide (s' = s /\ i' = i /\ j' = j)); [by rewrite andb_false_r|].
    rewrite orb_false_r, andb_true_r. by apply Hcl.
Qed.

Lemma sign_pi raw e s i j vsc s' i' j' : valid w h s i j -> valid w h s' i' j' -> length (e_flags e) = flagsLen w h ->
  pi w (e_flags (enc_sign w raw b (ptr s i) (smp s i j) (3 * Z.of_nat j) vsc e)) s' i' j' = pi w (e_flags e) s' i' j'.
Proof.
  intros Hv Hv' Hl. cbn [e_flags enc_sign set_flags emit add_nmsedec].
  apply (update_pi w h); [exact Hv|exact Hv'|exact Hl|apply smr_sign_bit].
Qed.
Lemma sign_sigma raw e s i j vsc s' i' j' : valid w h s i j -> valid w h s' i' j' -> length (e_flags e) = flagsLen w h ->
  (s', i', j') <> (s, i, j) ->
  sigma w (e_flags (enc_sign w raw b (ptr s i) (smp s i j) (3 * Z.of_nat j) vsc e)) s' i' j' = sigma w (e_flags e) s' i' j'.
Proof.
  intros Hv Hv' Hl Hne. cbn [e_flags enc_sign set_flags emit add_nmsedec].
  rewrite (update_sigma w h); [|exact Hv|exact Hv'|exact Hl|apply smr_sign_bit].
  rewrite bool_decide_false; [apply orb_false_r|]. intros (-> & -> & ->). by apply Hne.
Qed.

Section cln_step.
Context (M : nat -> Z) (e : encst) (s i j : nat) (f : Z) (st : decst) (vsc vsc' : bool).
Context (Hv : valid w h s i j) (HI : ClnI M s i j (e_flags e) (flat s i (f, st)))
  (Hvsc : (j =? 0)%nat && vsc' = (j =? 0)%nat && vsc).
Abbreviation ci := (3 * Z.of_nat j).
Abbreviation PIJ := (Z.shiftl T1_PI_THIS (3 * Z.of_nat j)).
Abbreviation f0 := (word (e_flags e) (ptr s i)).

Let Hj : (j < 4)%nat := proj1 (proj2 Hv).
Let HR := cln_rel _ _ _ _ _ _ HI.
Let Hbase := rel_base _ _ _ _ HR.
Let Hw : same_word (M (ptr s i)) f0 f := flat_word _ _ _ s i j _ HR Hv.

Lemma clean_new : to_clean f0 ci = true ->
  sigma w (e_flags e) s i j = false /\ cln_done (e_flags e) s i j s i j = false.
Proof.
  intros H. rewrite to_clean_bits in H by exact Hj. apply andb_prop in H as [H1%negb_true_iff H2%negb_true_iff].
  unfold cln_done, sigma, pi. by rewrite H1, H2, before_self.
Qed.

(** A sample that is coded as significant. *)
Lemma cln_signif e1 : e_flags e1 = e_flags e -> to_clean f0 ci = true -> plane_bit b (smp s i j) = 1 ->
  let e2 := enc_sign w false b (ptr s i) (smp s i j) ci (vsc && (ci =? 0)) e1 in
  let e' := set_flags (clear_at (ptr s i) PIJ (e_flags e2)) e2 in
  coded e1 e' (dec_sign w (b + 1) vsc' (ptr s i) (dataIdx w s i j) ci (f, st))
    (fun x => ClnI (unsee M (ptr s i) PIJ) s i (S j) (e_flags e') (flat s i x)).
Proof.
  intros Ef Hc Hbit e2 e'. destruct (clean_new Hc) as [Hsg Hd].
  assert ((j =? 0)%nat && vsc' = (j =? 0)%nat && (vsc && (ci =? 0))) as Hvsc2.
  { rewrite Hvsc. destruct (Nat.eqb_spec j 0) as [->|]; [by rewrite andb_true_r|done]. }
  pose proof HR as HR1. rewrite <- Ef in HR1, Hsg, Hd.
  destruct (sign_coded M _ e1 s i j _ vsc' Hv Hd Hsg Hbit Hvsc2 false f st HR1) as [HR2 Ho].
  destruct (dec_sign_feeds M _ e1 s i j vsc' Hv f st HR1) as (x & Fx & Ex).
  eexists _, x. split; [exact Ho|]. split; [exact Fx|]. rewrite Ex. rewrite Ef in HR2.
  assert (length (e_flags e1) = flagsLen w h) as Hl by (rewrite Ef; apply (rel_len _ _ _ _ HR)).
  unfold e'. cbn [set_flags e_flags]. apply (cln_clear M (e_flags e)).
  - exact Hv.
  - exact Hbase.
  - exact HR2.
  - intros s' i' j' Hv'. unfold e2. rewrite sign_pi by done. by rewrite Ef.
  - intros s' i' j' Hv' Hne. unfold e2. rewrite sign_sigma by done. by rewrite Ef.
  - apply (cln_pi _ _ _ _ _ _ HI).
Qed.

Lemma cln_step_coded check partial :
  (sees (M (ptr s i)) j \/ sigma w (e_flags e) s i j = true) ->
  (partial = true -> plane_bit b (smp s i j) = 1 /\ to_clean f0 ci = true) ->
  (check = false -> to_clean f0 ci = true) ->
  let e' := enc_clnpass_step w orientation b partial vsc (ptr s i) (smp s i j) ci e in
  coded e e' (DEC_PASS_CLN_STEP w orientation check partial (b + 1) vsc' (ptr s i) (dataIdx w s i j) ci (f, st))
    (fun x => ClnI (unsee M (ptr s i) PIJ) s i (S j) (e_flags e') (flat s i x)).
Proof.
  intros Hsee Hpart Hchk e'. unfold DEC_PASS_CLN_STEP. cbn [fst snd].
  rewrite <- (same_clean _ _ _ (Hbase _) Hw j Hj Hsee). unfold e', enc_clnpass_step.
  destruct (to_clean f0 ci) eqn:Hc.
  - rewrite orb_true_r. destruct (clean_new Hc) as [Hsg Hd]. destruct partial.
    + destruct (Hpart eq_refl) as [Hbit _]. by apply (cln_signif e).
    + rewrite (same_ZC _ _ f (Hbase _) Hw orientation j Hj). destruct (plane_bit_bit b (smp s i j)) as [Ev|Ev]; rewrite !Ev.
      * eexists [_], _. split; [reflexivity|]. split; [apply feeds_sym, feeds_ret|].
        cbn [negb Z.eqb set_flags e_flags emit]. apply (cln_clear M (e_flags e)); [exact Hv|exact Hbase| |done|done|].
        -- by apply rel_insignif.
        -- apply (cln_pi _ _ _ _ _ _ HI).
      * set (e1 := emit (MQ (GETCTXNO_ZC orientation (Z.shiftr f ci)) 1) e).
        destruct (cln_signif e1 eq_refl Hc Ev) as (ds & x & Ho & Fx & Px).
        eexists (MQ (GETCTXNO_ZC orientation (Z.shiftr f ci)) 1 :: ds), x. split.
        { cbn [negb Z.eqb]. fold e1. rewrite Ho. unfold e1. cbn [emit e_out]. by rewrite <- app_assoc. }
        split; [|exact Px]. by apply feeds_sym.
  - destruct partial; [destruct (Hpart eq_refl); congruence|]. destruct check; [|specialize (Hchk eq_refl); congruence].
    apply coded_ret; [done|]. cbn [set_flags e_flags]. apply (cln_clear M (e_flags e)); [exact Hv|exact Hbase| |done|done|].
    + apply (rel_ext _ (cln_done (e_flags e) s i j)); [exact HR|]. intros s' i' j' Hv'. unfold upd.
      destruct (bool_decide (s' = s /\ i' = i /\ j' = j)) eqn:Ed; [|by rewrite orb_false_r].
      apply bool_decide_eq_true in Ed as (-> & -> & ->). rewrite orb_true_r. symmetry.
      rewrite to_clean_bits in Hc by exact Hj. unfold cln_done, sigma, pi.
      destruct (Z.testbit f0 (sbit j)), (Z.testbit f0 (pbit j)); try done; by rewrite ?orb_true_r.
    + apply (cln_pi _ _ _ _ _ _ HI).
Qed.
End cln_step.

(** *** A column *)

(** Inside a column the masks differ from [keep] at the column only, and show the rows
    still to come (unless they are significant). *)
Definition ColI (s i j : nat) (E : list Z) (st : decst) : Prop :=
  exists M, ClnI M s i j E st /\
    (forall j', (j <= j')%nat -> valid w h s i j' -> sees (M (ptr s i)) j' \/ sigma w E s i j' = true) /\
    (forall p, p <> ptr s i -> M p = keep w h p).

Lemma col_start s i E st : ClnI (keep w h) s i 0 E st -> ColI s i 0 E st.
Proof. intros HI. exists (keep w h). split_and!; try done. intros j' _ Hv. left. by apply keep_sees. Qed.

(** A step leaves the other rows alone. *)
Lemma cln_step_others partial vsc e s i j s' i' j' : valid w h s i j -> valid w h s' i' j' ->
  length (e_flags e) = flagsLen w h -> (s', i', j') <> (s, i, j) ->
  let e' := enc_clnpass_step w orientation b partial vsc (ptr s i) (smp s i j) (3 * Z.of_nat j) e in
  sigma w (e_flags e') s' i' j' = sigma w (e_flags e) s' i' j' /\ pi w (e_flags e') s' i' j' = pi w (e_flags e) s' i' j'.
Proof.
  intros Hv Hv' Hl Hne e'.
  assert (exists e1, e_flags e1 = e_flags e /\ (e_flags e' = clear_at (ptr s i) (Z.shiftl T1_PI_THIS (3 * Z.of_nat j)) (e_flags e1) \/
    exists c, e_flags e' = clear_at (ptr s i) (Z.shiftl T1_PI_THIS (3 * Z.of_nat j))
      (e_flags (enc_sign w false b (ptr s i) (smp s i j) (3 * Z.of_nat j) c e1)))) as (e1 & Ef & He').
  { unfold e', enc_clnpass_step. destruct partial; [exists e; eauto|].
    destruct (to_clean _ _); [|exists e; eauto].
    eexists (emit _ e). split; [reflexivity|]. destruct (negb _); [right; eauto|left; done]. }
  assert (valid w h s i 0) as Hv0 by (unfold valid in *; lia). destruct (Hv) as (_ & Hj & _).
  assert (forall E1, length E1 = flagsLen w h ->
    sigma w (clear_at (ptr s i) (Z.shiftl T1_PI_THIS (3 * Z.of_nat j)) E1) s' i' j' = sigma w E1 s' i' j' /\
    pi w (clear_at (ptr s i) (Z.shiftl T1_PI_THIS (3 * Z.of_nat j)) E1) s' i' j' = pi w E1 s' i' j') as Hc.
  { intros E1 Hl1. destruct (clear_pi w h E1 s i _ s' i' j' Hv0 Hv' Hl1 (pi_this_sub j Hj)) as [-> ->].
    rewrite pi_this_test by done. split; [done|]. destruct (decide (s' = s /\ i' = i)) as [[-> ->]|Hd].
    - destruct (Nat.eqb_spec j' j) as [->|]; [by exfalso|]. by rewrite andb_false_r, andb_true_r.
    - rewrite bool_decide_false by done. by rewrite andb_true_r. }
  rewrite <- Ef in Hl |- *. destruct He' as [->|[c ->]]; [by apply Hc|].
  destruct (Hc (e_flags (enc_sign w false b (ptr s i) (smp s i j) (3 * Z.of_nat j) c e1))) as [-> ->].
  { cbn [e_flags enc_sign set_flags emit add_nmsedec]. by rewrite length_update. }
  split; [by apply sign_sigma|by apply sign_pi].
Qed.

Lemma col_step e s i j x vsc vsc' check partial : valid w h s i j -> ColI s i j (e_flags e) (flat s i x) ->
  (j =? 0)%nat && vsc' = (j =? 0)%nat && vsc ->
  (partial = true -> plane_bit b (smp s i j) = 1 /\ to_clean (word (e_flags e) (ptr s i)) (3 * Z.of_nat j) = true) ->
  (check = false -> to_clean (word (e_flags e) (ptr s i)) (3 * Z.of_nat j) = true) ->
  let e' := enc_clnpass_step w orientation b partial vsc (ptr s i) (smp s i j) (3 * Z.of_nat j) e in
  coded e e' (DEC_PASS_CLN_STEP w orientation check partial (b + 1) vsc' (ptr s i) (dataIdx w s i j) (3 * Z.of_nat j) x)
    (fun x => ColI s i (S j) (e_flags e') (flat s i x)).
Proof.
  destruct x as [f st]. intros Hv (M & HI & Hsee & HM) Hvsc Hpart Hchk e'.
  eapply coded_mono.
  { apply (cln_step_coded M e s i j f st vsc vsc' Hv HI Hvsc check partial); [|exact Hpart|exact Hchk]. by apply Hsee. }
  intros x Hx. eexists. split; [exact Hx|]. destruct (Hv) as (_ & Hj & _). split.
  - intros j' Hj' Hv'. unfold unsee, sees. rewrite decide_True, Z.ldiff_spec by done.
    rewrite pi_this_test by done. destruct (Nat.eqb_spec j' j) as [->|Hne]; [lia|]. rewrite andb_true_r.
    destruct (cln_step_others partial vsc e s i j s i j' Hv Hv') as [Es _].
    { apply (rel_len _ _ _ _ (cln_rel _ _ _ _ _ _ HI)). }
    { congruence. }
    fold e' in Es. rewrite Es. apply Hsee; [lia|done].
  - intros p Hp. unfold unsee. rewrite decide_False by done. by apply HM.
Qed.

Lemma keep_hides s i j : valid w h s i 0 -> (j < 4)%nat -> sees (keep w h (ptr s i)) j -> valid w h s i j.
Proof.
  intros Hv Hj Hs. destruct (Nat.lt_ge_cases (4 * s + j) h) as [|Hge]; [unfold valid in *; lia|]. exfalso.
  pose proof (height_bound _ _ _ _ _ Hv) as Hb0. destruct Hv as (Hi & _ & H0).
  pose proof (Nat.div_mod h 4). pose proof (Nat.mod_upper_bound h 4 ltac:(lia)).
  assert (s = h / 4 /\ h mod 4 <= j /\ h mod 4 <> 0)%nat as (Es & Hr & Hn) by lia.
  assert (getFlagsHeight h = S (h / 4)) as EH.
  { unfold getFlagsHeight. symmetry. apply (Nat.div_unique _ _ _ (h mod 4 - 1)); lia. }
  unfold sees, keep in Hs. rewrite ptr_div, EH, Es in Hs by done.
  rewrite (proj2 (Nat.eqb_neq (h mod 4) 0)), Nat.eqb_refl in Hs by done. cbn [negb orb] in Hs.
  rewrite Z.lnot_spec in Hs by (unfold pbit; lia). clear - Hs Hr Hn Hj H1.
  set (r := (h mod 4)%nat) in *. clearbody r. four r; four j; try lia; done.
Qed.

Lemma pi_all_bit n : Z.testbit T1_PI_ALL n = true -> exists j, (j < 4)%nat /\ n = pbit j.
Proof.
  intros H. change T1_PI_ALL with (Z.lor (Z.shiftl 1 (pbit 0)) (Z.lor (Z.shiftl 1 (pbit 1))
    (Z.lor (Z.shiftl 1 (pbit 2)) (Z.shiftl 1 (pbit 3))))) in H.
  rewrite !Z.lor_spec, !bit_testbit in H by (unfold pbit; lia).
  rewrite !orb_true_iff, !Z.eqb_eq in H. destruct H as [H|[H|[H|H]]]; eexists; (split; [|exact H]); lia.
Qed.

(** At its end the decoder clears the column's [pi] bits. *)
Lemma col_end s i n E st : ColI s i n E st -> (n = 4 \/ n = h - 4 * s)%nat -> valid w h s i 0 ->
  ClnI (keep w h) s (S i) 0 E (mkD (clear_at (ptr s i) T1_PI_ALL (d_flags st)) (d_data st)).
Proof.
  intros (M & [HR Hpi] & _ & HM) Hn Hv0. split.
  2: { intros s' i' j' Hv'. rewrite (before_column s i n) by done. by apply Hpi. }
  apply (rel_ext _ (cln_done E s i n)).
  2: { intros s' i' j' Hv'. unfold cln_done. by rewrite (before_column s i n). }
  pose proof (rel_flags _ _ _ _ HR) as [Hl Hf].
  apply (rel_reflag _ _ _ _ _ _ _ HR); cbn [d_flags d_data]; try done; [|intros p; apply keep_base].
  split; [by rewrite length_clear|]. intros p. rewrite word_clear.
  destruct (decide (p = ptr s i)) as [->|Hne].
  2: { rewrite decide_False by tauto. rewrite <- HM by done. apply Hf. }
  rewrite decide_True.
  2: { split; [done|]. rewrite Hl, (rel_len _ _ _ _ HR). by apply (ptr_bound w h s i 0). }
  apply same_word_ext. intros k Hk Hkeep. rewrite Z.ldiff_spec. destruct (Z.testbit T1_PI_ALL k) eqn:Epi.
  - apply pi_all_bit in Epi as (j & Hj & ->). pose proof (keep_hides s i j Hv0 Hj Hkeep) as Hv.
    rewrite andb_false_r. apply (Hpi s i j Hv). destruct Hv as (_ & _ & Hh). unfold before. natb.
  - rewrite andb_true_r. apply (same_word_bit BASE).
    + apply (same_word_sub (M (ptr s i))); [apply Hf|apply (rel_base _ _ _ _ HR)].
    + unfold BASE. by rewrite Z.lnot_spec, Epi by done.
Qed.

Lemma insert_ldiff (fl : list Z) p f m : <[p := Z.ldiff f m]> fl = clear_at p m (<[p := f]> fl).
Proof.
  unfold clear_at. apply list_eq. intros k. destruct (decide (k = p)) as [->|Hk].
  - rewrite list_lookup_alter_eq. destruct (Nat.lt_ge_cases p (length fl)).
    + by rewrite !list_lookup_insert_eq.
    + by rewrite !list_insert_ge, lookup_ge_None_2.
  - by rewrite list_lookup_alter_ne, !list_lookup_insert_ne.
Qed.

(** The shortcut for a column that is all significant and visited. *)
Lemma col_checked e s i st : ClnI (keep w h) s i 0 (e_flags e) st -> valid w h s i 0 ->
  ColI s i 0 (e_flags (clear_checked 0 (ptr s i) e)) st.
Proof.
  intros HI Hv0. unfold clear_checked. set (check := Z.lor T1_SIGMA_ALL T1_PI_ALL).
  destruct (Z.eqb_spec (Z.land (word (e_flags e) (ptr s i)) check) check) as [Ec|_]; [|by apply col_start].
  cbn [set_flags e_flags pi_from].
  assert (forall j, (j < 4)%nat -> sigma w (e_flags e) s i j = true) as Hsg.
  { intros j Hj. apply (land_all_set _ _ _ Ec). unfold check. rewrite Z.lor_spec.
    by rewrite (proj1 (all_bits j Hj)). }
  destruct HI as [HR Hpi]. pose proof (rel_len _ _ _ _ HR) as Hl.
  assert (sub_mask T1_PI_ALL T1_PI_ALL) as Hm by reflexivity.
  exists (unsee (keep w h) (ptr s i) T1_PI_ALL). split_and!.
  - split.
    + apply (rel_ext _ (cln_done (e_flags e) s i 0)).
      * apply (rel_reflag _ _ _ _ _ _ _ HR); [apply length_clear| |done| |].
        -- apply same_flags_clear, (rel_flags _ _ _ _ HR).
        -- apply unsee_base; [|done]. intros p. apply keep_base.
        -- intros s' i' j' Hv'. by apply (clear_pi w h).
      * intros s' i' j' Hv'. unfold cln_done.
        destruct (clear_pi w h (e_flags e) s i T1_PI_ALL s' i' j' Hv0 Hv' Hl Hm) as [-> ->].
        destruct (decide (s' = s /\ i' = i)) as [[-> ->]|Hne].
        -- rewrite Hsg by apply Hv'. by rewrite !orb_true_r.
        -- rewrite bool_decide_false by done. by rewrite andb_true_r.
    + intros s' i' j' Hv' Hbf. destruct (clear_pi w h (e_flags e) s i T1_PI_ALL s' i' j' Hv0 Hv' Hl Hm) as [_ ->].
      by rewrite Hpi.
  - intros j' _ Hv'. right. destruct (clear_pi w h (e_flags e) s i T1_PI_ALL s i j' Hv0 Hv' Hl Hm) as [-> _].
    apply Hsg, Hv'.
  - intros p Hp. unfold unsee. by rewrite decide_False.
Qed.
Lemma checked_out r p e : e_out (clear_checked r p e) = e_out e.
Proof. unfold clear_checked. by destruct (_ =? _). Qed.

Section clnpass.
Context (cblksty : Z).
Abbreviation vsc := (VSC cblksty).

Lemma cln_part_rows i e : enc_cln_part w h orientation data b vsc (h / 4) i e =
  foldl (fun e j => enc_clnpass_step w orientation b false vsc (ptr (h / 4) i) (smp (h / 4) i j) (3 * Z.of_nat j) e)
    (clear_checked 0 (ptr (h / 4) i) e) (seq 0 (h - 4 * (h / 4))).
Proof. unfold enc_cln_part, enc_cln_rows. by replace (h - 4 * (h / 4) - 0)%nat with (h - 4 * (h / 4))%nat by lia. Qed.

Lemma cln_part_coded i e st : (i < w)%nat -> (4 * (h / 4) < h)%nat -> ClnI (keep w h) (h / 4) i 0 (e_flags e) st ->
  let e' := enc_cln_part w h orientation data b vsc (h / 4) i e in
  coded e e' (dec_cln_part w h orientation (b + 1) vsc (h / 4) i st) (ClnI (keep w h) (h / 4) (S i) 0 (e_flags e')).
Proof.
  intros Hi Hh HI e'. unfold e'. rewrite cln_part_rows. clear e'. set (e' := foldl _ _ _).
  assert (valid w h (h / 4) i 0) as Hv0 by (apply valid_part; lia).
  pose proof (col_checked e _ _ _ HI Hv0) as HC.
  assert (forall m (P : decst -> Prop), coded (clear_checked 0 (ptr (h / 4) i) e) e' m P -> coded e e' m P) as Hout.
  { intros m P (ds & a & Ho & H). exists ds, a. by rewrite Ho, checked_out. }
  apply Hout. unfold dec_cln_part. eapply coded_bind.
  - apply (part_rows_coded (fun j e st => ColI (h / 4) i j (e_flags e) st)); [|exact HC].
    intros j e1 x Hj H1. apply col_step; [apply valid_part; lia|exact H1|done|done|done].
  - intros st1 H1. apply coded_ret; [done|]. eapply col_end; [exact H1|by right|exact Hv0].
Qed.

(** *** Runs *)

Lemma run_length_spec s i : let r := run_length w data b s i in
  (r <= 4)%nat /\ (forall j, (j < r)%nat -> plane_bit b (smp s i j) = 0) /\
  ((r < 4)%nat -> plane_bit b (smp s i r) = 1).
Proof.
  unfold run_length.
  assert (forall j, negb (plane_bit b (smp s i j) =? 0) = (plane_bit b (smp s i j) =? 1)) as Hn.
  { intros j. destruct (plane_bit_bit b (smp s i j)) as [-> | ->]; done. }
  rewrite !Hn.
  destruct (Z.eqb_spec (plane_bit b (smp s i 0)) 1) as [E0|E0]; [split_and!; [lia|lia|done]|].
  destruct (Z.eqb_spec (plane_bit b (smp s i 1)) 1) as [E1|E1].
  { split_and!; [lia| |done]. intros j Hj. destruct j as [|j]; [|lia]. by destruct (plane_bit_bit b (smp s i 0)). }
  destruct (Z.eqb_spec (plane_bit b (smp s i 2)) 1) as [E2|E2].
  { split_and!; [lia| |done]. intros j Hj. destruct (plane_bit_bit b (smp s i j)); [done|]. destruct j as [|[|j]]; done || lia. }
  destruct (Z.eqb_spec (plane_bit b (smp s i 3)) 1) as [E3|E3].
  { split_and!; [lia| |done]. intros j Hj. destruct (plane_bit_bit b (smp s i j)); [done|].
    destruct j as [|[|[|j]]]; done || lia. }
  split_and!; [lia| |lia]. intros j Hj. destruct (plane_bit_bit b (smp s i j)); [done|].
  destruct j as [|[|[|[|j]]]]; done || lia.
Qed.

Lemma zero_rows s i E st r : ClnI (keep w h) s i 0 E st -> word E (ptr s i) = 0 -> (r <= 4)%nat ->
  (S s <= h / 4)%nat -> (i < w)%nat -> (forall j, (j < r)%nat -> plane_bit b (smp s i j) = 0) ->
  ClnI (keep w h) s i r E st.
Proof.
  intros HI Hz Hr Hs Hi Hbits. induction r as [|r IH]; [exact HI|].
  destruct IH as [HR Hpi]; [lia|intros j Hj; apply Hbits; lia|].
  assert (valid w h s i r) as Hv by (apply valid_full; lia).
  assert (sigma w E s i r = false /\ pi w E s i r = false) as [Hsg Hp] by (unfold sigma, pi; by rewrite Hz, !Z.bits_0).
  split.
  - apply (rel_ext _ (upd (cln_done E s i r) s i r)).
    + apply rel_insignif; [exact HR|exact Hv| |exact Hsg|apply Hbits; lia].
      unfold cln_done. by rewrite Hsg, Hp, before_self.
    + intros s' i' j' Hv'. unfold upd, cln_done. rewrite before_S.
      destruct (bool_decide (s' = s /\ i' = i /\ j' = r)); by rewrite ?orb_true_r, ?orb_false_r.
  - intros s' i' j' Hv'. rewrite before_S. destruct (bool_decide (s' = s /\ i' = i /\ j' = r)) eqn:Ed; [|rewrite orb_false_r; by apply Hpi].
    intros _. by apply bool_decide_eq_true in Ed as (-> & -> & ->).
Qed.

Definition RunI (s i r j : nat) (e : encst) (bx : bool * (Z * decst)) : Prop :=
  bx.1 = (j =? r)%nat /\ ColI s i j (e_flags e) (flat s i bx.2) /\ length (e_flags e) = flagsLen w h /\
  forall j', (j <= j' < 4)%nat -> sigma w (e_flags e) s i j' = false /\ pi w (e_flags e) s i j' = false.

Lemma run_coded s i r e st : (S s <= h / 4)%nat -> (i < w)%nat -> (r < 4)%nat -> plane_bit b (smp s i r) = 1 ->
  ClnI (keep w h) s i r (e_flags e) st -> word (e_flags e) (ptr s i) = 0 ->
  let e' := enc_cln_rows w orientation data b true vsc s i r 4 e in
  coded e e' (dec_cln_run w orientation (b + 1) vsc s i r (word (d_flags st) (ptr s i), st))
    (fun bx => ColI s i 4 (e_flags e') (flat s i bx.2)).
Proof.
  intros Hs Hi Hr Hbit HI Hz e'. unfold e', enc_cln_rows.
  assert (clear_checked r (ptr s i) e = e) as -> by (unfold clear_checked; by rewrite Hz).
  unfold dec_cln_run. assert (drop r [0; 1; 2; 3]%nat = seq r (4 - r)) as -> by (four r; done).
  eapply coded_mono.
  - apply (coded_fold _ _ (RunI s i r) (4 - r) r).
    2: { split_and!.
         - cbn. by rewrite Nat.eqb_refl.
         - cbn [snd]. rewrite flat_start. exists (keep w h). split_and!; try done.
           intros j' _ Hv. left. by apply keep_sees.
         - apply (rel_len _ _ _ _ (cln_rel _ _ _ _ _ _ HI)).
         - intros j' Hj'. unfold sigma, pi. by rewrite Hz, !Z.bits_0. }
    intros j e1 [partial x] Hj (Epart & HC & Hl & Hzero). cbn [fst snd] in *.
    assert (valid w h s i j) as Hv by (apply valid_full; lia).
    assert (to_clean (word (e_flags e1) (ptr s i)) (3 * Z.of_nat j) = true) as Hclean.
    { rewrite to_clean_bits by lia. destruct (Hzero j ltac:(lia)) as [H1 H2]. unfold sigma, pi in *. by rewrite H1, H2. }
    rewrite Epart. cbn [andb]. eapply coded_bind.
    + apply col_step; [exact Hv|exact HC| |intros Ej|intros _; exact Hclean].
      * by destruct (j =? 0)%nat.
      * apply Nat.eqb_eq in Ej as ->. done.
    + intros x' Hx. apply coded_ret; [done|]. split_and!; cbn [fst snd]; [|exact Hx| |].
      * symmetry. apply Nat.eqb_neq. lia.
      * destruct Hx as (M & [HR _] & _). apply (rel_len _ _ _ _ HR).
      * intros j' Hj'. destruct (cln_step_others ((j =? r)%nat) vsc e1 s i j s i j' Hv) as [-> ->];
          [apply valid_full; lia|exact Hl|intros [= ?]; lia|]. apply Hzero. lia.
  - intros bx (_ & H & _). by replace (r + (4 - r))%nat with 4%nat in H by lia.
Qed.

Lemma cln_full_coded s i e st : (S s <= h / 4)%nat -> (i < w)%nat -> ClnI (keep w h) s i 0 (e_flags e) st ->
  let e' := enc_cln_full w orientation data b vsc s i e in
  coded e e' (dec_cln_full w orientation (b + 1) vsc s i st) (ClnI (keep w h) s (S i) 0 (e_flags e')).
Proof.
  intros Hs Hi HI e'. assert (valid w h s i 0) as Hv0 by (apply valid_full; lia).
  pose proof (full_word _ _ _ s i (rel_flags _ _ _ _ (cln_rel _ _ _ _ _ _ HI)) eq_refl Hs Hi) as Ew.
  assert (forall E x, ColI s i 4 E (flat s i x) ->
    ClnI (keep w h) s (S i) 0 E (set_dflags (<[ptr s i := Z.ldiff x.1 T1_PI_ALL]> (d_flags x.2)) x.2)) as Hend.
  { intros E x Hx. unfold set_dflags. rewrite insert_ldiff.
    apply (col_end s i 4 E (flat s i x)); [exact Hx|by left|exact Hv0]. }
  unfold e', enc_cln_full, dec_cln_full. rewrite <- Ew.
  destruct (Z.eqb_spec (word (e_flags e) (ptr s i)) 0) as [Ez|_].
  - destruct (run_length_spec s i) as (Hr & Hzero & Hone). set (r := run_length w data b s i) in *.
    pose proof (zero_rows s i _ _ r HI Ez Hr Hs Hi Hzero) as HI4.
    destruct (Nat.eqb_spec r 4) as [Er|Hne].
    + eexists [_], st. split; [reflexivity|]. split; [apply feeds_sym, feeds_ret|].
      cbn [e_flags emit]. rewrite Er in HI4. destruct HI4 as [HR Hpi]. split.
      * apply (rel_ext _ (cln_done (e_flags e) s i 4)); [exact HR|]. intros s' i' j' Hv'. unfold cln_done.
        by rewrite (before_column s i 4) by auto.
      * intros s' i' j' Hv'. rewrite (before_column s i 4) by auto. by apply Hpi.
    + set (e3 := emit _ (emit _ (emit _ e))).
      destruct (run_coded s i r e3 st Hs Hi ltac:(lia) (Hone ltac:(lia)) HI4 Ez) as (ds & bx & Ho & Fx & Px).
      rewrite <- Ew in Fx. eexists (_ :: _ :: _ :: ds), _.
      split; [rewrite Ho; unfold e3; cbn [emit e_out]; rewrite <- !app_assoc; reflexivity|].
      split; [|apply Hend, Px]. apply feeds_sym. cbn [bit_of negb Z.eqb]. apply feeds_sym, feeds_sym.
      assert (Z.to_nat (Z.lor (Z.shiftl (Z.shiftr (Z.of_nat r) 1) 1) (Z.land (Z.of_nat r) 1)) = r) as ->.
      { assert (r < 4)%nat by lia. clearbody r. four r; reflexivity. }
      rewrite <- (app_nil_r ds). eapply feeds_bind; [exact Fx|]. apply feeds_ret.
  - pose proof (col_checked e _ _ _ HI Hv0) as HC. set (e0 := clear_checked 0 (ptr s i) e) in *.
    assert (e_out e0 = e_out e) as Eo by apply checked_out.
    assert (coded e0 (enc_cln_rows w orientation data b false vsc s i 0 4 e)
      (pfold (fun x j => DEC_PASS_CLN_STEP w orientation true false (b + 1) ((j =? 0)%nat && vsc) (ptr s i)
         (dataIdx w s i j) (3 * Z.of_nat j) x) (word (e_flags e) (ptr s i), st) (seq 0 4))
      (fun x => ColI s i 4 (e_flags (enc_cln_rows w orientation data b false vsc s i 0 4 e)) (flat s i x))) as H.
    { apply (coded_fold (fun e j => enc_clnpass_step w orientation b false vsc (ptr s i) (smp s i j) (3 * Z.of_nat j) e)
        _ (fun j e x => ColI s i j (e_flags e) (flat s i x)) 4 0).
      - intros j e1 x Hj H1. apply col_step; [apply valid_full; lia|exact H1| |done|done]. by destruct (j =? 0)%nat.
      - rewrite Ew, flat_start. exact HC. }
    destruct H as (ds & x & Ho & Fx & Px). rewrite Eo in Ho. exists (ds ++ []). eexists.
    split; [by rewrite app_nil_r|]. split; [|apply Hend, Px]. eapply feeds_bind; [exact Fx|]. apply feeds_ret.
Qed.

Lemma cln_stripe s E st : ClnI (keep w h) s w 0 E st -> ClnI (keep w h) (S s) 0 0 E st.
Proof.
  intros [HR Hpi]. split.
  - apply (rel_ext _ (cln_done E s w 0)); [exact HR|]. intros s' i' j' Hv'. unfold cln_done. by rewrite before_stripe.
  - intros s' i' j' Hv'. rewrite before_stripe by done. by apply Hpi.
Qed.

Lemma cln_columns_coded e st : ClnI (keep w h) 0 0 0 (e_flags e) st ->
  let e' := enc_clnpass w h orientation data b cblksty e in
  coded e e' (dec_columns w h (dec_cln_full w orientation (b + 1) vsc) (dec_cln_part w h orientation (b + 1) vsc) st)
    (ClnI (keep w h) (getFlagsHeight h) 0 0 (e_flags e')).
Proof.
  intros HI e'. unfold e', enc_clnpass.
  apply (columns_coded (fun s i e st => ClnI (keep w h) s i 0 (e_flags e) st)) with (e := zero_nmsedec e).
  - intros s i e1 st1 Hs Hi H1. by apply cln_full_coded.
  - intros i e1 st1 Hh Hi H1. by apply cln_part_coded.
  - intros s e1 st1. apply cln_stripe.
  - exact HI.
Qed.

(** The decisions of a cleanup pass with its segmentation symbol, if any. *)
Definition segsym : list decision :=
  if has cblksty GRK_CBLKSTY_SEGSYM then [MQ T1_CTXNO_UNI 1; MQ T1_CTXNO_UNI 0; MQ T1_CTXNO_UNI 1; MQ T1_CTXNO_UNI 0]
  else [].

Lemma segsym_feeds : exists v, feeds (checkSegSym cblksty) segsym v.
Proof.
  unfold checkSegSym, segsym, GRK_CBLKSTY_SEGSYM. destruct (has cblksty 32); [|by eexists].
  eexists. apply feeds_sym, feeds_sym, feeds_sym, feeds_sym, feeds_ret.
Qed.
End clnpass.

(** ** Passes *)

(** The state between passes: before a pass of type [passtype] on plane [b]. *)
Definition PassI (passtype : Z) (E : list Z) (st : decst) : Prop :=
  if passtype =? 0 then SigI E st
  else if passtype =? 1 then RefI 0 0 0 E st
  else ClnI (keep w h) 0 0 0 E st.

Lemma sig_to_ref E st : SigI E st -> RefI 0 0 0 E st.
Proof.
  intros HI. apply (rel_ext _ (pi w E)); [exact HI|]. intros s i j Hv. unfold ref_done.
  by rewrite before_none, andb_false_r, orb_false_r.
Qed.
Lemma ref_to_cln E st : RefI (getFlagsHeight h) 0 0 E st -> ClnI (keep w h) 0 0 0 E st.
Proof.
  intros HI. split.
  - apply (rel_ext _ (ref_done E (getFlagsHeight h) 0 0)); [exact HI|]. intros s i j Hv. unfold ref_done, cln_done.
    by rewrite before_none, before_all, andb_true_r by done.
  - intros s i j Hv. by rewrite before_none.
Qed.

End relation.

(** *** From plane to plane *)

Section passes.
Context (w h : nat) (orientation : Z) (data : list Z) (cblksty : Z).

Lemma next_plane b E st : ClnI w h data b (keep w h) (getFlagsHeight h) 0 0 E st -> SigI w h data (b - 1) E st.
Proof.
  intros [[H1 H2 H3 H4 H5] Hpi]. split; try done. intros s i j Hv.
  rewrite Hpi by (done || by apply (before_all w h)). destruct (H5 s i j Hv) as [E1 E2].
  unfold cln_done in E1, E2. rewrite (before_all w h) in E1, E2 by done. cbn [orb level] in *.
  by replace (b - 1 + 1) with b by lia.
Qed.

(** All samples decoded down to the last plane. *)
Definition finished (st : decst) : Prop :=
  length (d_data st) = (w * h)%nat /\
  forall s i j, valid w h s i j -> nth (dataIdx w s i j) (d_data st) 0 = decval 0 (sample w data s i j).

Lemma last_plane E st : ClnI w h data 0 (keep w h) (getFlagsHeight h) 0 0 E st -> finished st.
Proof.
  intros [[H1 H2 H3 H4 H5] _]. split; [done|]. intros s i j Hv. destruct (H5 s i j Hv) as [_ ->].
  unfold cln_done. by rewrite (before_all w h).
Qed.

(** Encoder and decoder before the pass [(passtype, b)], or after the last one. *)
Definition between (passtype b : Z) (E : list Z) (st : decst) : Prop :=
  if b <? 0 then finished st else PassI w h data b passtype E st.

Definition pass_decisions (passtype : Z) (ds : list decision) : list decision :=
  if passtype =? 2 then ds ++ segsym cblksty else ds.

Lemma coded_feeds {A} (e e' : encst) (m : prog A) P : coded e e' m P -> e_out e = [] ->
  exists a, feeds m (e_out e') a /\ P a.
Proof. intros (ds & a & Ho & F & Pa) E. rewrite E in Ho. cbn in Ho. rewrite Ho. eauto. Qed.

Lemma pass_feeds passtype b raw e st : 0 <= b <= 24 -> 0 <= passtype <= 2 -> (raw = true -> passtype < 2) ->
  between passtype b (e_flags e) st -> e_out e = [] ->
  let e' := enc_pass w h orientation data cblksty passtype b raw e in
  exists st', feeds (dec_pass w h orientation passtype (b + 1) raw cblksty st) (pass_decisions passtype (e_out e')) st' /\
    between (next_pass (passtype, b)).1 (next_pass (passtype, b)).2 (e_flags e') st'.
Proof.
  intros Hb Hp Hraw HI He e'. unfold between, PassI in HI. rewrite (proj2 (Z.ltb_ge b 0)) in HI by lia.
  unfold e', enc_pass, dec_pass, pass_decisions, between, PassI. clear e'.
  assert (passtype = 0 \/ passtype = 1 \/ passtype = 2) as [->|[->| ->]] by lia;
    [change (next_pass (0, b)) with (1, b)|change (next_pass (1, b)) with (2, b)|change (next_pass (2, b)) with (0, b - 1)];
    cbn [Z.eqb Pos.eqb fst snd] in *.
  - rewrite (proj2 (Z.ltb_ge b 0)) by lia.
    destruct raw; [destruct (coded_feeds _ _ _ _ (sigpass_raw_coded w h orientation data b Hb cblksty e st HI) He) as (st' & F & H')
      |destruct (coded_feeds _ _ _ _ (sigpass_coded w h orientation data b Hb cblksty e st HI) He) as (st' & F & H')];
      exists st'; (split; [exact F|apply sig_to_ref, H']).
  - rewrite (proj2 (Z.ltb_ge b 0)) by lia.
    destruct raw; [destruct (coded_feeds _ _ _ _ (refpass_raw_coded w h data b Hb e st HI) He) as (st' & F & H')
      |destruct (coded_feeds _ _ _ _ (refpass_coded w h data b Hb e st HI) He) as (st' & F & H')];
      exists st'; (split; [exact F|apply ref_to_cln, H']).
  - destruct raw; [specialize (Hraw eq_refl); lia|].
    destruct (coded_feeds _ _ _ _ (cln_columns_coded w h orientation data b Hb cblksty e st HI) He) as (st' & F & H').
    exists st'. split.
    + unfold dec_clnpass. eapply feeds_bind; [exact F|]. destruct (segsym_feeds cblksty) as [v Fv].
      rewrite <- (app_nil_r (segsym cblksty)). eapply feeds_bind; [exact Fv|]. apply feeds_ret.
    + destruct (Z.ltb_spec (b - 1) 0); [|by apply next_plane].
      assert (b = 0) as -> by lia. by eapply last_plane.
Qed.
End passes.
