(* ===== verification/BlockStream.v ===== *)
(** Code blocks through the coder: decisions to bytes and back.

    The decisions of a pass are all for the MQ coder or all raw, in contexts the coder
    has.  What the decoder program of a pass takes from a list of decisions it takes
    from the MQ or raw decoder positioned at their bytes ([run_mq], [run_raw]).
    BlockLoop.v follows the pass loop with these lemmas. *)
From S2P Require Import Prelude BitIO Geometry Codeblock BlockLuts MQCoder MQInterval MQRoundTrip BypassRoundTrip BlockCoder BlockFlags BlockRoundTrip.

(** ** The decisions of a pass *)

Definition dec_ok (raw : bool) (x : decision) : Prop :=
  match x with
  | MQ c d => raw = false /\ (c < MQC_NUMCTXS)%nat /\ (d = 0 \/ d = 1)
  | RAW d => raw = true /\ (d = 0 \/ d = 1)
  end.
Definition out_ok (raw : bool) (e : encst) : Prop := Forall (dec_ok raw) (e_out e).

Lemma nthZ_forall (P : Z -> bool) l d i : forallb P l = true -> P d = true -> P (nthZ d l i) = true.
Proof.
  intros Hl Hd. revert i. induction l as [|x l IH]; intros i; [done|]. cbn in *.
  apply andb_prop in Hl as [Hx Hl]. destruct (i <=? 0); [done|]. by apply IH.
Qed.
Lemma zc_ctx o f : (GETCTXNO_ZC o f < MQC_NUMCTXS)%nat.
Proof.
  unfold GETCTXNO_ZC. set (i := _ + _).
  pose proof (nthZ_forall (fun x => x <=? 18) lut_ctxno_zc 0 i ltac:(vm_compute; reflexivity) eq_refl) as H.
  apply Z.leb_le in H. unfold MQC_NUMCTXS. lia.
Qed.
Lemma sc_ctx lu : (ctxno_sc lu < MQC_NUMCTXS)%nat.
Proof.
  unfold ctxno_sc.
  pose proof (nthZ_forall (fun x => x <=? 18) lut_ctxno_sc 0 lu ltac:(vm_compute; reflexivity) eq_refl) as H.
  apply Z.leb_le in H. unfold MQC_NUMCTXS. lia.
Qed.
Lemma mag_ctx f : (GETCTXNO_MAG f < MQC_NUMCTXS)%nat.
Proof.
  unfold GETCTXNO_MAG, MQC_NUMCTXS, T1_CTXNO_MAG, T1_CTXNO_SC, T1_CTXNO_ZC0, bit_of. repeat case_match; lia.
Qed.
Lemma spb_bit lu : spb lu = 0 \/ spb lu = 1.
Proof.
  pose proof (nthZ_forall (fun x => (x =? 0) || (x =? 1)) lut_spb 0 lu ltac:(vm_compute; reflexivity) eq_refl) as H.
  unfold spb. rewrite orb_true_iff, !Z.eqb_eq in H. exact H.
Qed.

Section out.
Context (w h : nat) (orientation : Z) (data : list Z) (bpno : Z).

Lemma out_emit raw x e : out_ok raw e -> dec_ok raw x -> out_ok raw (emit x e).
Proof. intros He Hx. apply Forall_app. split; [exact He|]. by apply Forall_cons_2. Qed.
Lemma put_ok raw c d : (c < MQC_NUMCTXS)%nat -> d = 0 \/ d = 1 -> dec_ok raw (put raw c d).
Proof. destruct raw; done. Qed.
Lemma out_fold {A} raw (f : encst -> A -> encst) l : (forall e x, out_ok raw e -> out_ok raw (f e x)) ->
  forall e, out_ok raw e -> out_ok raw (foldl f e l).
Proof. intros Hf. induction l as [|x l IH]; intros e He; [done|]. cbn. by apply IH, Hf. Qed.

Lemma out_sign raw p x ci vsc e : out_ok raw e -> out_ok raw (enc_sign w raw bpno p x ci vsc e).
Proof.
  intros He. apply (out_emit raw _ e He). apply put_ok; [apply sc_ctx|].
  destruct raw; [apply smr_sign_bit|].
  destruct (smr_sign_bit x) as [-> | ->]; match goal with |- context [spb ?l] => destruct (spb_bit l) as [-> | ->] end; auto.
Qed.
Lemma out_sig raw p x ci vsc e : out_ok raw e -> out_ok raw (enc_sigpass_step w orientation raw bpno p x ci vsc e).
Proof.
  intros He. unfold enc_sigpass_step. destruct (to_propagate _ _); [|done].
  assert (out_ok raw (emit (put raw (GETCTXNO_ZC orientation (Z.shiftr (word (e_flags e) p) ci)) (plane_bit bpno x)) e)) as H.
  { apply out_emit; [done|]. apply put_ok; [apply zc_ctx|apply plane_bit_bit]. }
  destruct (plane_bit bpno x =? 0); [exact H|]. exact (out_sign raw p x ci vsc _ H).
Qed.
Lemma out_ref raw p x ci e : out_ok raw e -> out_ok raw (enc_refpass_step raw bpno p x ci e).
Proof.
  intros He. unfold enc_refpass_step. destruct (_ =? _); [|done].
  apply (out_emit raw _ e He). apply put_ok; [apply mag_ctx|apply plane_bit_bit].
Qed.
Lemma out_cln partial vsc p x ci e : out_ok false e -> out_ok false (enc_clnpass_step w orientation bpno partial vsc p x ci e).
Proof.
  intros He. unfold enc_clnpass_step. destruct partial; [exact (out_sign false p x ci _ e He)|].
  destruct (to_clean _ _); [|exact He].
  assert (out_ok false (emit (MQ (GETCTXNO_ZC orientation (Z.shiftr (word (e_flags e) p) ci)) (plane_bit bpno x)) e)) as H.
  { apply out_emit; [done|]. split_and!; [done|apply zc_ctx|apply plane_bit_bit]. }
  destruct (negb (plane_bit bpno x =? 0)); [|exact H]. exact (out_sign false p x ci _ _ H).
Qed.
Lemma out_columns raw full part e : (forall s i e, out_ok raw e -> out_ok raw (full s i e)) ->
  (forall s i e, out_ok raw e -> out_ok raw (part s i e)) -> out_ok raw e -> out_ok raw (enc_columns w h full part e).
Proof.
  intros Hf Hp He. unfold enc_columns.
  assert (out_ok raw (foldl (fun e s => foldl (fun e i => full s i e) e (seq 0 w)) e (seq 0 (h / 4)))) as H1.
  { apply out_fold; [|done]. intros e1 s H1. apply out_fold; auto. }
  destruct (_ <? _)%nat; [|done]. apply out_fold; auto.
Qed.

Lemma out_cln_rows agg vsc s i r n e : out_ok false e -> out_ok false (enc_cln_rows w orientation data bpno agg vsc s i r n e).
Proof.
  intros He. unfold enc_cln_rows. apply out_fold.
  - intros e1 j H1. by apply out_cln.
  - unfold clear_checked. by destruct (_ =? _).
Qed.
Lemma out_cln_full vsc s i e : out_ok false e -> out_ok false (enc_cln_full w orientation data bpno vsc s i e).
Proof.
  intros He. unfold enc_cln_full. destruct (_ =? 0); [|by apply out_cln_rows].
  set (r := run_length w data bpno s i). assert (r <= 4)%nat as Hr by (unfold r, run_length; repeat case_match; lia).
  assert (out_ok false (emit (MQ T1_CTXNO_AGG (bit_of (negb (r =? 4)%nat))) e)) as H1.
  { apply out_emit; [done|]. split_and!; [done|unfold T1_CTXNO_AGG, MQC_NUMCTXS; lia|]. unfold bit_of. case_match; auto. }
  destruct (Nat.eqb_spec r 4) as [|Hne]; [exact H1|]. apply out_cln_rows. clearbody r.
  apply out_emit; [apply out_emit; [exact H1|]|];
    (split_and!; [done|unfold T1_CTXNO_UNI, MQC_NUMCTXS; lia|]); destruct r as [|[|[|[|r]]]]; try lia; cbn; auto.
Qed.

Lemma out_pass cblksty passtype raw e : out_ok raw e -> (raw = true -> passtype < 2) ->
  out_ok raw (enc_pass w h orientation data cblksty passtype bpno raw e).
Proof.
  intros He Hr. unfold enc_pass. destruct (passtype =? 0).
  { apply out_columns; [| |exact He]; intros s i e1 H1.
    - unfold enc_sig_full. destruct (_ =? 0); [done|]. by repeat apply out_sig.
    - unfold enc_sig_part. destruct (_ =? 0); [done|]. apply out_fold; [|done]. intros e2 j H2. by apply out_sig. }
  destruct (passtype =? 1).
  { apply out_columns; [| |exact He]; intros s i e1 H1.
    - unfold enc_ref_full. destruct (_ =? 0); [done|]. destruct (_ =? _); [done|]. by repeat apply out_ref.
    - unfold enc_ref_part. destruct (_ =? 0); [done|]. apply out_fold; [|done]. intros e2 j H2. by apply out_ref. }
  destruct (Z.eqb_spec passtype 2) as [E|]; [|done]. destruct raw; [specialize (Hr eq_refl); lia|].
  apply out_columns; [| |exact He]; intros s i e1 H1; [by apply out_cln_full|by apply out_cln_rows].
Qed.
End out.

(** ** Decisions and symbols *)

Definition mqs (ps : list (nat * Z)) : list decision := (fun p => MQ p.1 p.2) <$> ps.

Lemma mq_pairs ds : Forall (dec_ok false) ds -> exists ps, ds = mqs ps /\ decisions_ok ps.
Proof.
  induction 1 as [|x ds Hx _ (ps & -> & Hps)]; [exists []; split; [done|by apply Forall_nil_2]|].
  destruct x as [c d|d]; [|by destruct Hx]. destruct Hx as (_ & Hc & Hd).
  exists ((c, d) :: ps). split; [done|]. by apply Forall_cons_2.
Qed.
Lemma raw_bits ds : Forall (dec_ok true) ds -> exists bits, ds = RAW <$> bits /\ bits_ok bits.
Proof.
  induction 1 as [|x ds Hx _ (ps & -> & Hps)]; [exists []; split; [done|by apply Forall_nil_2]|].
  destruct x as [c d|d]; [by destruct Hx|]. destruct Hx as (_ & Hd).
  exists (d :: ps). split; [done|]. by apply Forall_cons_2.
Qed.

Lemma put_mqs ps : forall e, foldl coder_put e (mqs ps) = encode_all e ps.
Proof. induction ps as [|[c d] ps IH]; intros e; [done|]. apply IH. Qed.
Lemma put_raws bits : forall e, foldl coder_put e (RAW <$> bits) = bypass_encode_all e bits.
Proof. induction bits as [|d bits IH]; intros e; [done|]. apply IH. Qed.

Lemma run_mq {A} (m : prog A) : forall ps a d, feed m (mqs ps) = Some (a, []) ->
  (decode_all d (ps.*1)).1 = ps.*2 -> run m d = (a, (decode_all d (ps.*1)).2).
Proof.
  induction m as [a0|c k IH|k IH]; intros ps a d Hf Hd.
  - destruct ps; [|done]. cbn in Hf. by injection Hf as ->.
  - destruct ps as [|[c' v] ps]; [done|]. cbn in Hf. destruct (Nat.eqb_spec c c') as [<-|]; [|done].
    cbn [fmap list_fmap fst snd decode_all run] in *. destruct (DEC_SYMBOL (DEC_SETCURCTX c d)) as [v0 d0].
    change (list_fmap _ _ fst ps) with (ps.*1) in *. change (list_fmap _ _ snd ps) with (ps.*2) in *.
    destruct (decode_all d0 (ps.*1)) as [vs d1] eqn:E. cbn [fst snd] in *. injection Hd as -> Hvs.
    rewrite (IH v ps a d0 Hf); rewrite E; done.
  - destruct ps as [|[c' v] ps]; done.
Qed.
Lemma run_raw {A} (m : prog A) : forall bits a d, feed m (RAW <$> bits) = Some (a, []) ->
  (raw_decode_all d (length bits)).1 = bits -> run m d = (a, (raw_decode_all d (length bits)).2).
Proof.
  induction m as [a0|c k IH|k IH]; intros ps a d Hf Hd.
  - destruct ps; [|done]. cbn in Hf. by injection Hf as ->.
  - destruct ps; done.
  - destruct ps as [|v ps]; [done|]. cbn in Hf. cbn [length raw_decode_all run] in *.
    destruct (DEC_SYMBOL_RAW d) as [v0 d0].
    destruct (raw_decode_all d0 (length ps)) as [vs d1] eqn:E. cbn [fst snd] in *. injection Hd as -> Hvs.
    rewrite (IH v ps a d0 Hf); rewrite E; done.
Qed.
Lemma raw_decode_app n n' : forall d, raw_decode_all d (n + n') =
  let x := raw_decode_all d n in let y := raw_decode_all x.2 n' in (x.1 ++ y.1, y.2).
Proof.
  induction n as [|n IH]; intros d; [cbn; by destruct (raw_decode_all d n')|].
  cbn [Nat.add raw_decode_all]. destruct (DEC_SYMBOL_RAW d) as [v d1]. rewrite IH.
  destruct (raw_decode_all d1 n) as [vs d2]. cbn. by destruct (raw_decode_all d2 n').
Qed.
Lemma raw_decode_length n : forall d, length (raw_decode_all d n).1 = n.
Proof.
  induction n as [|n IH]; intros d; [done|]. cbn [raw_decode_all]. destruct (DEC_SYMBOL_RAW d) as [v d1].
  specialize (IH d1). destruct (raw_decode_all d1 n). cbn in *. by rewrite IH.
Qed.
Lemma fetch_ctxs d : dctxs (fetch_cur d).2 = dctxs d.
Proof. unfold fetch_cur. repeat case_match; done. Qed.
Lemma raw_symbol_ctxs d : dctxs (DEC_SYMBOL_RAW d).2 = dctxs d.
Proof.
  unfold DEC_SYMBOL_RAW. destruct (dct d =? 0); [|done]. pose proof (fetch_ctxs d) as H.
  destruct (fetch_cur d) as [x d1]. cbn in H. repeat case_match; cbn; done.
Qed.
Lemma raw_decode_ctxs n : forall d, dctxs (raw_decode_all d n).2 = dctxs d.
Proof.
  induction n as [|n IH]; intros d; [done|]. cbn [raw_decode_all]. pose proof (raw_symbol_ctxs d) as H.
  destruct (DEC_SYMBOL_RAW d) as [v d1]. specialize (IH d1). destruct (raw_decode_all d1 n). cbn in *. congruence.
Qed.

(** *** Segmentation symbols *)

Lemma curctx_byteout e : curctx_ (mqc_byteout e) = curctx_ e.
Proof. unfold mqc_byteout, byteout7, byteout8. repeat case_match; done. Qed.
Lemma curctx_renorme fuel : forall e, curctx_ (renorme_loop fuel e) = curctx_ e.
Proof.
  induction fuel as [|n IH]; intros e; [done|]. cbn [renorme_loop].
  assert (curctx_ (renorme_step e) = curctx_ e) as E.
  { unfold renorme_step. case_match; [by rewrite curctx_byteout|done]. }
  case_match; [by rewrite IH|done].
Qed.
Lemma curctx_encode d e : curctx_ (mqc_encode d e) = curctx_ e.
Proof.
  unfold mqc_encode, mqc_codemps, mqc_codelps, mqc_renorme.
  repeat case_match; rewrite ?curctx_renorme; done.
Qed.
Lemma setcurctx_id e : CODER_SETCURCTX (curctx_ e) e = e.
Proof. by destruct e. Qed.
Lemma setcurctx_encode d e : CODER_SETCURCTX (curctx_ e) (mqc_encode d e) = mqc_encode d e.
Proof. rewrite <- (curctx_encode d e) at 1. apply setcurctx_id. Qed.

Lemma segmark_decisions e : segmark_enc e =
  foldl coder_put e [MQ T1_CTXNO_UNI 1; MQ T1_CTXNO_UNI 0; MQ T1_CTXNO_UNI 1; MQ T1_CTXNO_UNI 0].
Proof.
  cbn [foldl coder_put]. set (e0 := CODER_SETCURCTX T1_CTXNO_UNI e).
  assert (curctx_ e0 = T1_CTXNO_UNI) as E0 by done. rewrite <- E0, setcurctx_encode.
  rewrite <- (curctx_encode 1 e0), setcurctx_encode. rewrite <- (curctx_encode 0 (mqc_encode 1 e0)), setcurctx_encode.
  reflexivity.
Qed.

Section decisions.
Context (cblksty : Z).

Lemma code_pass_decisions passtype ds e :
  code_pass cblksty passtype ds e = foldl coder_put e (pass_decisions cblksty passtype ds).
Proof.
  unfold code_pass, pass_decisions, segsym. destruct (passtype =? 2); [|done]. cbn [andb].
  destruct (has cblksty GRK_CBLKSTY_SEGSYM); [|by rewrite app_nil_r]. rewrite foldl_app. apply segmark_decisions.
Qed.
Lemma pass_decisions_ok passtype raw ds : Forall (dec_ok raw) ds -> (raw = true -> passtype < 2) ->
  Forall (dec_ok raw) (pass_decisions cblksty passtype ds).
Proof.
  intros H Hr. unfold pass_decisions, segsym. destruct (Z.eqb_spec passtype 2) as [->|]; [|done].
  destruct raw; [specialize (Hr eq_refl); lia|]. apply Forall_app. split; [done|].
  destruct (has cblksty GRK_CBLKSTY_SEGSYM); [|by apply Forall_nil_2].
  repeat (apply Forall_cons_2; [split_and!; [done|unfold T1_CTXNO_UNI, MQC_NUMCTXS; lia|auto]|]). by apply Forall_nil_2.
Qed.
End decisions.

(** *** Kinds of passes *)

Lemma dec_type numbps cblksty b passtype : 0 <= b ->
  dec_type_raw numbps cblksty (b + 1) passtype = enc_type_raw numbps cblksty b passtype.
Proof.
  intros Hb. unfold dec_type_raw, enc_type_raw. destruct (has cblksty GRK_CBLKSTY_LAZY); [|by rewrite andb_false_r].
  rewrite andb_true_r. cbn [andb]. f_equal. zcases; try done; lia.
Qed.
Lemma next_type numbps cblksty b passtype : 0 <= passtype <= 2 -> enc_is_term_pass numbps cblksty b passtype = false ->
  enc_type_raw numbps cblksty (next_pass (passtype, b)).2 (next_pass (passtype, b)).1 = enc_type_raw numbps cblksty b passtype.
Proof.
  intros Hp Ht. unfold enc_is_term_pass, enc_type_raw in *.
  assert (passtype = 0 \/ passtype = 1 \/ passtype = 2) as [->|[->| ->]] by lia;
    [change (next_pass (0, b)) with (1, b)|change (next_pass (1, b)) with (2, b)|change (next_pass (2, b)) with (0, b - 1)];
    cbn [fst snd] in *; destruct (has cblksty GRK_CBLKSTY_TERMALL); destruct (has cblksty GRK_CBLKSTY_LAZY);
    rewrite ?andb_false_r, ?andb_true_r in *; cbn in *; try done; revert Ht; zcases; intros Ht; try done; lia.
Qed.
Lemma raw_passtype numbps cblksty b passtype : enc_type_raw numbps cblksty b passtype = true -> passtype < 2.
Proof. unfold enc_type_raw. intros H. apply andb_prop in H as [H _]. apply andb_prop in H as [_ H]. by apply Z.ltb_lt. Qed.

(** ** Raw coding ignores the contexts *)

(** The same encoder with other context states. *)
Definition with_ctxs (c : list nat) (e : mqenc) : mqenc :=
  MkEnc (c_ e) (a_ e) (ct_ e) (bp_ e) (data_ e) c (curctx_ e).

Lemma bypass_ctxs c bits : forall e, bypass_encode_all (with_ctxs c e) bits = with_ctxs c (bypass_encode_all e bits).
Proof.
  induction bits as [|d bits IH]; intros e; [done|]. cbn.
  assert (mqc_bypass_enc d (with_ctxs c e) = with_ctxs c (mqc_bypass_enc d e)) as ->; [|apply IH].
  destruct e as [x1 x2 x3 x4 x5 x6 x7].
  cbv [mqc_bypass_enc with_ctxs set_ct set_c set_bp store deref byte_at c_ a_ ct_ bp_ data_ ctxs_ curctx_].
  destruct (x3 =? BYPASS_CT_INIT); cbv beta iota zeta.
  - destruct (u8 (8 - 1) =? 0); [|reflexivity]. by destruct (nth _ _ _ =? 0xff).
  - destruct (u8 (x3 - 1) =? 0); [|reflexivity]. by destruct (nth _ _ _ =? 0xff).
Qed.
Lemma pad_ctxs fuel c : forall v e, bypass_pad fuel v (with_ctxs c e) = with_ctxs c (bypass_pad fuel v e).
Proof.
  induction fuel as [|n IH]; intros v e; [done|]. cbn [bypass_pad].
  change (ct_ (with_ctxs c e)) with (ct_ e). destruct (0 <? ct_ e); [|done].
  rewrite <- IH. reflexivity.
Qed.
Lemma flush_ctxs c t e : bypass_flush_enc t (with_ctxs c e) = with_ctxs c (bypass_flush_enc t e).
Proof.
  unfold bypass_flush_enc. rewrite pad_ctxs. generalize (bypass_pad 8 0 e). intros padded.
  change (bypass_pending t (with_ctxs c e)) with (bypass_pending t e). destruct (bypass_pending t e); [done|].
  change (ct_ (with_ctxs c e)) with (ct_ e).
  change (byte_at (with_ctxs c e) (pred (bp_ (with_ctxs c e)))) with (byte_at e (pred (bp_ e))).
  change (byte_at (with_ctxs c e) (pred (pred (bp_ (with_ctxs c e))))) with (byte_at e (pred (pred (bp_ e)))).
  repeat (match goal with |- context [if ?b then _ else _] => destruct b end); reflexivity.
Qed.
Lemma with_ctxs_id e : with_ctxs (ctxs_ e) e = e.
Proof. by destruct e. Qed.
Lemma bypass_app e l1 l2 : bypass_encode_all (bypass_encode_all e l1) l2 = bypass_encode_all e (l1 ++ l2).
Proof. unfold bypass_encode_all. by rewrite foldl_app. Qed.

(** ** The memory only grows *)

Definition memlen (e : mqenc) : nat := length (data_ e).

Lemma store_grows v e : (memlen e <= memlen (store v e))%nat.
Proof.
  unfold memlen, store, write_byte. cbn [data_]. case_match; [by rewrite length_insert|]. rewrite length_app. lia.
Qed.
Lemma byteout_grows e : (memlen e <= memlen (mqc_byteout e))%nat.
Proof.
  assert (forall e, (memlen e <= memlen (byteout7 e))%nat /\ (memlen e <= memlen (byteout8 e))%nat) as H.
  { intros e1. split.
    - apply (store_grows (u8 (Z.shiftr (c_ e1) 20)) (set_bp (S (bp_ e1)) e1)).
    - apply (store_grows (u8 (Z.shiftr (c_ e1) 19)) (set_bp (S (bp_ e1)) e1)). }
  unfold mqc_byteout. destruct (_ =? _); [apply H|]. destruct (_ =? _); [apply H|].
  pose proof (store_grows (u8 (deref e + 1)) e) as H1. set (e1 := store _ e) in *.
  destruct (_ =? _).
  - etransitivity; [exact H1|]. apply (H (set_c (Z.land (c_ e1) 0x7ffffff) e1)).
  - etransitivity; [exact H1|]. apply H.
Qed.
Lemma renorme_grows fuel : forall e, (memlen e <= memlen (renorme_loop fuel e))%nat.
Proof.
  induction fuel as [|n IH]; intros e; [done|]. cbn [renorme_loop].
  assert (memlen e <= memlen (renorme_step e))%nat as H.
  { unfold renorme_step. set (e1 := set_ct _ _). destruct (ct_ e1 =? 0); [|reflexivity].
    etransitivity; [|apply byteout_grows]. reflexivity. }
  destruct (_ =? _); [|exact H]. etransitivity; [exact H|apply IH].
Qed.
Lemma encode_grows d e : (memlen e <= memlen (mqc_encode d e))%nat.
Proof.
  assert (forall e1, data_ e1 = data_ e -> (memlen e <= memlen (mqc_renorme e1))%nat) as H.
  { intros e1 E. unfold memlen at 1. rewrite <- E. apply renorme_grows. }
  unfold mqc_encode, mqc_codemps, mqc_codelps. repeat case_match; try (apply H; done); done.
Qed.
Lemma flush_grows e : (memlen e <= memlen (flush_enc e))%nat.
Proof.
  assert (forall e, (memlen e <= memlen (push_bits e))%nat) as Hp.
  { intros e1. unfold push_bits. etransitivity; [|apply byteout_grows]. reflexivity. }
  unfold flush_enc. set (e1 := setbits_enc e). assert (data_ e1 = data_ e) as E1 by (unfold e1, setbits_enc; by case_match).
  change (memlen e <= memlen (if (deref (push_bits (push_bits e1)) =? 0xff)%Z then push_bits (push_bits e1)
    else set_bp (S (bp_ (push_bits (push_bits e1)))) (push_bits (push_bits e1))))%nat.
  assert (memlen e <= memlen (push_bits (push_bits e1)))%nat as H.
  { unfold memlen at 1. rewrite <- E1. etransitivity; [apply (Hp e1)|apply Hp]. }
  by case_match.
Qed.
Lemma erterm_loop_grows fuel : forall k e, (memlen e <= memlen (erterm_loop fuel k e))%nat.
Proof.
  induction fuel as [|n IH]; intros k e; [done|]. cbn [erterm_loop]. destruct (0 <? k); [|done].
  etransitivity; [|apply IH]. etransitivity; [|apply byteout_grows]. reflexivity.
Qed.
Lemma terminate_grows t e : (memlen e <= memlen (terminate t e))%nat.
Proof.
  unfold terminate. destruct t; [|apply flush_grows]. unfold erterm_enc.
  pose proof (erterm_loop_grows 3 (11 - ct_ e + 1) e). destruct (_ =? _); [done|].
  etransitivity; [done|apply byteout_grows].
Qed.
Lemma bypass_enc_grows d e : (memlen e <= memlen (mqc_bypass_enc d e))%nat.
Proof.
  unfold mqc_bypass_enc. set (e1 := if ct_ e =? BYPASS_CT_INIT then set_ct 8 e else e).
  assert (memlen e1 = memlen e) as E1 by (unfold e1; by case_match). rewrite <- E1. clearbody e1.
  set (e2 := set_c _ (set_ct (u8 (ct_ e1 - 1)) e1)). change (memlen e1) with (memlen e2). clearbody e2. clear E1.
  case_match; [|done]. pose proof (store_grows (u8 (c_ e2)) e2). by case_match.
Qed.
Lemma bypass_flush_grows t e : (memlen e <= memlen (bypass_flush_enc t e))%nat.
Proof.
  assert (forall fuel v e, data_ (bypass_pad fuel v e) = data_ e) as Hpad.
  { induction fuel as [|n IH]; intros v e1; [done|]. cbn [bypass_pad]. destruct (_ <? _); [|done]. by rewrite IH. }
  unfold bypass_flush_enc. destruct (bypass_pending t e).
  { generalize (Hpad 8%nat 0 e). generalize (bypass_pad 8 0 e). intros padded E. unfold memlen at 1. rewrite <- E. apply store_grows. }
  repeat case_match; done.
Qed.
