(* ===== verification/BlockLoop.v ===== *)
(** The pass loop of the block encoder against the segment loop of the decoder.

    The loop of [compress_cblk] is followed pass by pass, across terminations, resets
    of the contexts and the switch to raw coding.  Three invariants speak of the rest of
    the loop: after a termination, inside an MQ segment and inside a raw segment.  Each
    says that the decoder, at the corresponding place in the bytes finally written,
    ends with all samples decoded, and that the recorded rates are in order. *)
From S2P Require Import Prelude BitIO Geometry Codeblock BlockLuts MQCoder MQInterval MQRoundTrip BypassRoundTrip BlockCoder BlockFlags BlockRoundTrip BlockStream.

(** ** The pass loop *)

(** The segments of a block, from the passes as the loop records them: [start] is the
    rate at the last termination, [n] the number of passes since. *)
Fixpoint cut_passes (mem : list Z) (start n : nat) (ps : list pass_enc) : list (list Z * nat) :=
  match ps with
  | [] => []
  | p :: ps =>
      if pe_term p then
        let rate := Z.to_nat (pe_rate p) in
        (take (rate - start) (drop (S start) mem), S n) :: cut_passes mem rate 0 ps
      else cut_passes mem start (S n) ps
  end.

(** The rates the loop records, from the rate [start] at the last termination: no rate
    is below the termination before it, and no terminated pass ends in FF. *)
Fixpoint rates_ok (mem : list Z) (start : Z) (ps : list pass_enc) : Prop :=
  match ps with
  | [] => True
  | p :: ps =>
      start <= pe_rate p < 65536 /\
      (if pe_term p then nthZ 0 mem (pe_rate p) <> 0xff /\ rates_ok mem (pe_rate p) ps else rates_ok mem start ps)
  end.
Fixpoint last_term (start : Z) (ps : list pass_enc) : Z :=
  match ps with [] => start | p :: ps => last_term (if pe_term p then pe_rate p else start) ps end.
Definition rates_end (mem : list Z) (start : nat) (r : list pass_enc) (e : mqenc) : Prop :=
  rates_ok mem (Z.of_nat start) r /\ last_term (Z.of_nat start) r = numbytes_enc e.

(** The decoder's segments: the same bytes, each cut into buffers, none empty. *)
Definition seg_cut (x : list (list Z) * nat) (y : list Z * nat) : Prop :=
  mjoin x.1 = y.1 /\ Forall (fun b => b <> []) x.1 /\ x.2 = y.2.

Section loop.
Context (w h : nat) (orientation : Z) (data : list Z) (cblksty numbps : Z).
Abbreviation loop := (compress_loop w h orientation data cblksty).
Abbreviation btw := (between w h data).
Abbreviation raw_at_pass b pt := (enc_type_raw numbps cblksty b pt).
Abbreviation reset := (has cblksty GRK_CBLKSTY_RESET).
Abbreviation pterm := (has cblksty GRK_CBLKSTY_PTERM).

Definition opt_reset (e : mqenc) : mqenc := if reset then enc_resetstates e else e.
Definition opt_dreset (d : mqdec) : mqdec := if reset then dec_resetstates d else d.

(** The pass [(pt, b)] comes next, and [fuel] suffices for it and the ones after. *)
Definition pass_ok (fuel : nat) (pt b : Z) : Prop := 0 <= pt <= 2 /\ b <= 24 /\ 3 * b + 3 - pt <= Z.of_nat fuel.

Lemma pass_next fuel pt b : pass_ok (S fuel) pt b -> pass_ok fuel (next_pass (pt, b)).1 (next_pass (pt, b)).2.
Proof.
  unfold pass_ok, next_pass. intros (H1 & H2 & H3). destruct (Z.eqb_spec (pt + 1) 3); cbn [fst snd]; lia.
Qed.
Lemma next_pass_plus pt b : next_pass (pt, b + 1) = ((next_pass (pt, b)).1, (next_pass (pt, b)).2 + 1).
Proof. unfold next_pass. case_match; cbn; f_equal; lia. Qed.

(** What one iteration emits. *)
Definition pass_es (pt b : Z) (es : encst) : encst :=
  enc_pass w h orientation data cblksty pt b (raw_at_pass b pt) (mkE (e_flags es) [] (e_nmsedec es)).
Definition pass_ds (pt b : Z) (es : encst) : list decision :=
  pass_decisions cblksty pt (e_out (pass_es pt b es)).

Lemma loop_step fuel pt b term es e : 0 <= b ->
  let raw := raw_at_pass b pt in
  let t := enc_is_term_pass numbps cblksty b pt in
  let e2 := foldl coder_put (start_pass term raw e) (pass_ds pt b es) in
  let x := end_pass cblksty raw t e2 in
  let np := next_pass (pt, b) in
  let r := loop fuel numbps np.1 np.2 t (pass_es pt b es) x.2 in
  loop (S fuel) numbps pt b term es e = (x.1 :: r.1.1, r.1.2, r.2).
Proof.
  intros Hb raw t e2 x np r. cbn [compress_loop]. rewrite (proj2 (Z.ltb_ge b 0)) by lia.
  rewrite code_pass_decisions. unfold r, x, e2, np, t, raw, pass_ds, pass_es.
  destruct (end_pass _ _ _ _) as [p e3]. cbn [fst snd]. destruct (next_pass (pt, b)) as [pt' b']. cbn [fst snd].
  by destruct (compress_loop _ _ _ _ _ _ _ _ _ _ _ _) as [[ps es'] e'].
Qed.
Lemma loop_done fuel pt b term es e : b < 0 -> loop fuel numbps pt b term es e = ([], es, e).
Proof. intros Hb. destruct fuel; [done|]. cbn [compress_loop]. by rewrite (proj2 (Z.ltb_lt b 0)). Qed.

Lemma pass_ds_ok pt b es : Forall (dec_ok (raw_at_pass b pt)) (pass_ds pt b es).
Proof.
  apply pass_decisions_ok; [|by apply raw_passtype]. apply out_pass; [|by apply raw_passtype]. by apply Forall_nil_2.
Qed.

(** The decoder's pass, given the symbols. *)
Lemma pass_run fuel pt b es st : pass_ok fuel pt b -> 0 <= b -> btw pt b (e_flags es) st ->
  exists st', feed (dec_pass w h orientation pt (b + 1) (raw_at_pass b pt) cblksty st) (pass_ds pt b es) = Some (st', []) /\
    btw (next_pass (pt, b)).1 (next_pass (pt, b)).2 (e_flags (pass_es pt b es)) st'.
Proof.
  intros (Hp & Hb & _) Hb0 HI.
  destruct (pass_feeds w h orientation data cblksty pt b (raw_at_pass b pt) (mkE (e_flags es) [] (e_nmsedec es)) st)
    as (st' & F & H'); [lia|lia|apply raw_passtype|exact HI|done|].
  exists st'. split; [|exact H']. specialize (F []). by rewrite app_nil_r in F.
Qed.

(** *** The memory of the loop *)

Lemma put_grows ds : forall e, (memlen e <= memlen (foldl coder_put e ds))%nat.
Proof.
  induction ds as [|x ds IH]; intros e; [done|]. cbn [foldl]. etransitivity; [|apply IH].
  destruct x; cbn [coder_put]; [|apply bypass_enc_grows]. etransitivity; [|apply encode_grows]. reflexivity.
Qed.
Lemma end_grows raw t e : (memlen e <= memlen (end_pass cblksty raw t e).2)%nat.
Proof.
  assert (forall e1, memlen (if reset then enc_resetstates e1 else e1) = memlen e1) as Hr by (intros e1; by destruct reset).
  unfold end_pass. destruct t; cbn [snd]; rewrite Hr; [|done]. destruct raw; [apply bypass_flush_grows|apply terminate_grows].
Qed.
Lemma start_keeps t raw e : memlen (start_pass t raw e) = memlen e.
Proof.
  unfold start_pass. destruct t; [|done]. destruct raw; [done|]. unfold memlen. by rewrite (proj1 (proj2 (restart_kept e))).
Qed.
Lemma loop_grows fuel : forall pt b t es e, (memlen e <= memlen (loop fuel numbps pt b t es e).2)%nat.
Proof.
  induction fuel as [|fuel IH]; intros pt b t es e; [done|]. destruct (Z_lt_le_dec b 0) as [Hb|Hb]; [by rewrite loop_done|].
  rewrite loop_step by done. cbn [snd]. etransitivity; [|apply IH]. etransitivity; [|apply end_grows].
  etransitivity; [|apply put_grows]. by rewrite start_keeps.
Qed.

(** *** One decoder pass *)

Lemma decompress_pass_mq pt b st st' ps d : enc_type_raw numbps cblksty b pt = false ->
  feed (dec_pass w h orientation pt (b + 1) false cblksty st) (mqs ps) = Some (st', []) ->
  (decode_all d (ps.*1)).1 = ps.*2 ->
  decompressPass w h orientation cblksty false (mkDL pt (b + 1) st d) =
  mkDL (next_pass (pt, b)).1 ((next_pass (pt, b)).2 + 1) st' (opt_dreset (decode_all d (ps.*1)).2).
Proof.
  intros _ F Hd. unfold decompressPass. cbn [dl_passtype dl_bps dl_st dl_coder].
  rewrite (run_mq _ ps st' d F Hd), next_pass_plus, andb_true_r. done.
Qed.
Lemma decompress_pass_raw pt b st st' bits d :
  feed (dec_pass w h orientation pt (b + 1) true cblksty st) (RAW <$> bits) = Some (st', []) ->
  (raw_decode_all d (length bits)).1 = bits ->
  decompressPass w h orientation cblksty true (mkDL pt (b + 1) st d) =
  mkDL (next_pass (pt, b)).1 ((next_pass (pt, b)).2 + 1) st' (raw_decode_all d (length bits)).2.
Proof.
  intros F Hd. unfold decompressPass. cbn [dl_passtype dl_bps dl_st dl_coder].
  rewrite (run_raw _ bits st' d F Hd), next_pass_plus, andb_false_r. done.
Qed.

Lemma mq_pass fuel pt b es ps bufs B0 L' A' s' st d (e2 : mqenc) : pass_ok fuel pt b -> 0 <= b ->
  raw_at_pass b pt = false -> pass_ds pt b es = mqs ps -> btw pt b (e_flags es) st ->
  (decode_all d (ps.*1)).1 = ps.*2 /\ dctxs (decode_all d (ps.*1)).2 = ctxs_ e2 /\
    da (decode_all d (ps.*1)).2 = A' /\ (exists m', dec_at bufs B0 L' s' m' (decode_all d (ps.*1)).2) ->
  exists st' d' m', decompressPass w h orientation cblksty false (mkDL pt (b + 1) st d) =
      mkDL (next_pass (pt, b)).1 ((next_pass (pt, b)).2 + 1) st' (opt_dreset d') /\
    btw (next_pass (pt, b)).1 (next_pass (pt, b)).2 (e_flags (pass_es pt b es)) st' /\
    dec_at bufs B0 L' s' m' d' /\ da d' = A' /\ dctxs d' = ctxs_ e2.
Proof.
  intros Hok Hb Hraw Eps Hbtw (Hbits & Ex & Ea' & m' & Hd').
  destruct (pass_run fuel pt b es st Hok Hb Hbtw) as (st' & F & Hbtw'). rewrite Hraw, Eps in F.
  exists st', (decode_all d (ps.*1)).2, m'. split_and!; try done. by apply decompress_pass_mq.
Qed.
Lemma raw_pass fuel pt b es hist bits st d0 : pass_ok fuel pt b -> 0 <= b -> raw_at_pass b pt = true ->
  pass_ds pt b es = RAW <$> bits -> btw pt b (e_flags es) st ->
  (raw_decode_all d0 (length (hist ++ bits))).1 = hist ++ bits ->
  exists st', (raw_decode_all d0 (length hist)).1 = hist /\
    decompressPass w h orientation cblksty true (mkDL pt (b + 1) st (raw_decode_all d0 (length hist)).2) =
      mkDL (next_pass (pt, b)).1 ((next_pass (pt, b)).2 + 1) st' (raw_decode_all d0 (length (hist ++ bits))).2 /\
    btw (next_pass (pt, b)).1 (next_pass (pt, b)).2 (e_flags (pass_es pt b es)) st'.
Proof.
  intros Hok Hb Hraw Ebits Hbtw Hd. destruct (pass_run fuel pt b es st Hok Hb Hbtw) as (st' & F & Hbtw').
  rewrite Hraw, Ebits in F. rewrite length_app, raw_decode_app in Hd |- *. cbn [fst snd] in Hd |- *.
  assert (length (raw_decode_all d0 (length hist)).1 = length hist) as Hlen by apply raw_decode_length.
  apply app_inj_1 in Hd as [Hd1 Hd2]; [|done]. exists st'. split_and!; try done. by apply decompress_pass_raw.
Qed.

(** *** The loop invariants *)

Abbreviation dpasses := (decompress_passes w h orientation cblksty).
Abbreviation dsegs := (decompress_segments w h orientation cblksty numbps).
Abbreviation decoded x := (finished w h data (dl_st x)).

(** After a termination. *)
Definition after_term (fuel : nat) : Prop := forall pt b es e, pass_ok fuel pt b -> bypass_start e -> ctxs_ok (ctxs_ e) ->
  (reset = true -> ctxs_ e = resetstates) ->
  let r := loop fuel numbps pt b true es e in
  let mem := data_ r.2 in
  take (bp_ e) mem = take (bp_ e) (data_ e) /\
  (Z.of_nat (length mem) <= 65530 -> rates_end mem (pred (bp_ e)) r.1.1 r.2 /\
   forall st d segs, btw pt b (e_flags es) st -> dctxs d = ctxs_ e ->
     Forall2 seg_cut segs (cut_passes mem (pred (bp_ e)) 0 r.1.1) ->
     decoded (dsegs segs (mkDL pt (b + 1) st d))).

(** Inside an MQ segment that began in the state [e0]. *)
Definition in_mq (fuel : nat) : Prop := forall pt b es e e0 pre fin B L A s,
  pass_ok fuel pt b -> 0 <= b -> raw_at_pass b pt = false ->
  length pre = bp_ e0 -> 0 <= deref e0 < 0xff -> take (S (bp_ e0)) (data_ e0) = pre ++ [deref e0] ->
  ready pre (deref e0) fin B L A s e -> 0x8000 <= A < 0x10000 -> ctxs_ok (ctxs_ e) ->
  let r := loop fuel numbps pt b false es e in
  let mem := data_ r.2 in
  take (S (bp_ e0)) mem = take (S (bp_ e0)) (data_ e0) /\
  (Z.of_nat (length mem) <= 65530 -> rates_end mem (bp_ e0) r.1.1 r.2 /\ exists k bytes rest bs,
     (forall n, cut_passes mem (bp_ e0) n r.1.1 = (bytes, (n + k)%nat) :: rest) /\
     compat bs fin B L A s /\
     (let full := deref e0 :: bytes in
      bytes_ok full /\ no_marker_from 0 full /\ lastb 0 full <> 0xff /\
      (forall j, Mv full j = Mv bs j /\ Pv full j = Pv bs j)) /\
     forall st d m bufs segs, btw pt b (e_flags es) st -> mjoin bufs = bytes -> Forall (fun x => x <> []) bufs ->
       Forall2 seg_cut segs rest -> dec_at bufs (deref e0) L s m d -> da d = A -> dctxs d = ctxs_ e ->
       decoded (dsegs segs (dpasses k false (mkDL pt (b + 1) st d)))).

(** Inside a raw segment that began in the state [e0], after the bits [hist]. *)
Definition in_raw (fuel : nat) : Prop := forall pt b es e e0 hist,
  pass_ok fuel pt b -> 0 <= b -> raw_at_pass b pt = true -> bypass_start e0 -> bits_ok hist ->
  e = with_ctxs (ctxs_ e) (bypass_encode_all (bypass_init_enc e0) hist) -> ctxs_ok (ctxs_ e) ->
  (reset = true -> ctxs_ e = resetstates) ->
  let r := loop fuel numbps pt b false es e in
  let mem := data_ r.2 in
  take (bp_ e0) mem = take (bp_ e0) (data_ e0) /\
  (Z.of_nat (length mem) <= 65530 -> rates_end mem (pred (bp_ e0)) r.1.1 r.2 /\ exists k bytes rest,
     (forall n, cut_passes mem (pred (bp_ e0)) n r.1.1 = (bytes, (n + k)%nat) :: rest) /\
     forall st d0 bufs segs, btw pt b (e_flags es) st -> mjoin bufs = bytes -> Forall (fun x => x <> []) bufs ->
       Forall2 seg_cut segs rest -> d0 = raw_init_dec bufs (ctxs_ e) ->
       (raw_decode_all d0 (length hist)).1 = hist /\
       decoded (dsegs segs (dpasses k true (mkDL pt (b + 1) st (raw_decode_all d0 (length hist)).2)))).

Lemma dpasses_S k raw pt b st d : 0 <= b ->
  dpasses (S k) raw (mkDL pt (b + 1) st d) = dpasses k raw (decompressPass w h orientation cblksty raw (mkDL pt (b + 1) st d)).
Proof. intros Hb. cbn [decompress_passes dl_bps]. by rewrite (proj2 (Z.ltb_lt 0 (b + 1))) by lia. Qed.

(** A terminated pass closes a segment of the cut. *)
Lemma cut_term mem start n e ps : (0 < bp_ e <= length mem)%nat -> Z.of_nat (length mem) <= 65530 ->
  cut_passes mem start n (mkPassEnc (numbytes_enc e) 0 true :: ps) =
  (segment_bytes mem start (bp_ e), (n + 1)%nat) :: cut_passes mem (pred (bp_ e)) 0 ps.
Proof.
  intros Hb Hm. cbn [cut_passes pe_term pe_rate]. unfold numbytes_enc, segment_bytes.
  assert (Z.to_nat (u16 (Z.of_nat (bp_ e) - 1)) = pred (bp_ e)) as ->.
  { rewrite wrap_small by (change (2 ^ 16) with 65536; lia). lia. }
  rewrite Nat.add_1_r. by replace (pred (bp_ e) - start)%nat with (bp_ e - start - 1)%nat by lia.
Qed.

Lemma kept_le (a b : list Z) k n : (k <= n)%nat -> take n a = take n b -> take k a = take k b.
Proof.
  intros Hk H. rewrite <- (Nat.min_l k n Hk) at 1 2. rewrite <- !take_take. by rewrite H.
Qed.
Lemma kept_length (a b : list Z) n : take n a = take n b -> (n <= length b)%nat -> (n <= length a)%nat.
Proof. intros H Hn. apply (f_equal length) in H. rewrite !length_take in H. lia. Qed.
Lemma kept_segment (a b : list Z) b0 b1 : take b1 a = take b1 b -> segment_bytes a b0 b1 = segment_bytes b b0 b1.
Proof. intros H. by rewrite !segment_bytes_take, H. Qed.

Lemma kept_byte (a b : list Z) n i : take n a = take n b -> (i < n)%nat -> nth i a 0 = nth i b 0.
Proof.
  intros H Hi. rewrite !nth_lookup. f_equal. rewrite <- (lookup_take_lt a n i), <- (lookup_take_lt b n i) by done. by rewrite H.
Qed.

(** Rates of a terminated pass and of another one. *)
Lemma rates_term mem start e ps e' : (start <= pred (bp_ e))%nat -> bypass_start e ->
  take (bp_ e) mem = take (bp_ e) (data_ e) -> Z.of_nat (length mem) <= 65530 ->
  rates_end mem (pred (bp_ e)) ps e' -> rates_end mem start (mkPassEnc (numbytes_enc e) 0 true :: ps) e'.
Proof.
  intros Hs [Hbp Hbyte] Hk Hm [Hr Hl]. pose proof (kept_length _ _ _ Hk ltac:(lia)) as Hlen.
  assert (numbytes_enc e = Z.of_nat (pred (bp_ e))) as En.
  { unfold numbytes_enc. rewrite wrap_small by (change (2 ^ 16) with 65536; lia). lia. }
  split; cbn [rates_ok last_term pe_rate pe_term]; rewrite En; [|done]. split_and!; [lia|lia| |done].
  rewrite nthZ_default, Nat2Z.id, <- nth_lookup, (kept_byte _ _ _ (pred (bp_ e)) Hk) by lia. unfold byte_at in Hbyte. lia.
Qed.
Lemma rates_more mem start raw e ps e' : (start <= bp_ e)%nat -> (bp_ e <= length mem)%nat ->
  Z.of_nat (length mem) <= 65530 -> rates_end mem start ps e' ->
  rates_end mem start ((end_pass cblksty raw false e).1 :: ps) e'.
Proof.
  intros Hs Hb Hm [Hr Hl]. assert (1 <= rate_extra_bytes raw cblksty e <= 6) as Hx.
  { unfold rate_extra_bytes, bypass_get_extra_bytes_enc. repeat case_match; lia. }
  split; cbn [rates_ok last_term end_pass fst pe_rate pe_term]; [|done]. split; [|done].
  assert (u16 (numbytes_enc e + rate_extra_bytes raw cblksty e) = Z.of_nat (bp_ e) - 1 + rate_extra_bytes raw cblksty e) as ->; [|lia].
  unfold numbytes_enc, wrap. rewrite Zplus_mod_idemp_l, Z.mod_small by (change (2 ^ 16) with 65536; lia). done.
Qed.

Lemma opt_reset_kept e : bp_ (opt_reset e) = bp_ e /\ data_ (opt_reset e) = data_ e.
Proof. unfold opt_reset. by destruct reset. Qed.
Lemma opt_reset_ctxs e : ctxs_ok (ctxs_ e) -> ctxs_ok (ctxs_ (opt_reset e)) /\
  (reset = true -> ctxs_ (opt_reset e) = resetstates).
Proof.
  unfold opt_reset. intros H. destruct reset; [|done]. split; [apply reset_ok|done].
Qed.
Lemma opt_reset_same e d : dctxs d = ctxs_ e -> dctxs (opt_dreset d) = ctxs_ (opt_reset e).
Proof. unfold opt_reset, opt_dreset. by destruct reset. Qed.
Lemma ready_reset pre B0 fin B L A s e : ready pre B0 fin B L A s e -> ready pre B0 fin B L A s (opt_reset e).
Proof. unfold opt_reset. destruct reset; [|done]. intros ([] & ? & ?). split_and!; [constructor|..]; done. Qed.

Lemma end_pass_term raw e : end_pass cblksty raw true e =
  (let e1 := if raw then bypass_flush_enc pterm e else terminate pterm e in
   (mkPassEnc (numbytes_enc e1) 0 true, opt_reset e1)).
Proof. unfold end_pass, opt_reset. by destruct raw. Qed.
Lemma end_pass_more raw e : (end_pass cblksty raw false e).2 = opt_reset e /\
  pe_term (end_pass cblksty raw false e).1 = false.
Proof. done. Qed.
Lemma term_flag b pt : enc_is_term_pass numbps cblksty b pt = false -> 0 <= pt <= 2 -> 0 <= b ->
  0 <= (next_pass (pt, b)).2.
Proof.
  unfold enc_is_term_pass, next_pass. intros Ht Hp Hb. destruct (Z.eqb_spec (pt + 1) 3); cbn [snd]; [|done].
  destruct (Z.eqb_spec pt 2); [|lia]. destruct (Z.eqb_spec b 0); [done|lia].
Qed.

(** Where the coder stands inside a segment. *)
Lemma ready_bp pre B0 fin B L A s e : ready pre B0 fin B L A s e ->
  (length pre <= bp_ e)%nat /\ (bp_ e < length (data_ e))%nat.
Proof.
  intros ([Hm Hl] & _). split; [|done]. apply (f_equal length) in Hm. rewrite length_take, !length_app in Hm.
  cbn [length] in Hm. lia.
Qed.
Lemma raw_bp e0 bits : bypass_start e0 -> bits_ok bits ->
  let e := bypass_encode_all (bypass_init_enc e0) bits in
  (bp_ e0 <= bp_ e)%nat /\ (bp_ e <= length (data_ e))%nat.
Proof.
  intros Hs Hb e. destruct (bypass_init_at e0 Hs) as (H0 & _ & _).
  destruct (bypass_encode_at bits _ _ _ _ H0 Hb) as (out & p & [Hm Hl] & _). fold e in Hm, Hl. split; [|done].
  apply (f_equal length) in Hm. rewrite length_app, !length_take in Hm. destruct Hs as [Hs _]. lia.
Qed.

Lemma in_mq_step fuel : after_term fuel -> in_mq fuel -> in_mq (S fuel).
Proof.
  intros IHt IHm pt b es e e0 pre fin B L A s Hok Hb Hraw Hpre Hd0 Hmem Hready HA Hx r mem.
  pose proof (pass_next _ _ _ Hok) as Hok'. pose proof (loop_step fuel pt b false es e Hb) as Er.
  cbv zeta in Er. rewrite Hraw in Er. cbn [start_pass] in Er.
  pose proof (pass_ds_ok pt b es) as Hds. rewrite Hraw in Hds. destruct (mq_pairs _ Hds) as (ps & Eps & Hps).
  rewrite Eps, put_mqs in Er.
  destruct (encode_range pre (deref e0) ps fin B L A s e Hready HA Hx Hps)
    as (fin' & B' & L' & A' & s' & Hready' & HA' & Hx' & Hpull & Hdec).
  set (e2 := encode_all e ps) in *.
  destruct (enc_is_term_pass numbps cblksty b pt) eqn:Et.
  - (* the segment ends *)
    rewrite end_pass_term in Er. cbv zeta in Er. cbn [fst snd] in Er.
    pose proof (terminate_closes _ _ pterm _ _ _ _ _ _ Hready' HA') as Hcl. set (e3 := terminate pterm e2) in *.
    assert (ctxs_ e3 = ctxs_ e2) as Ex3 by (destruct Hcl as (? & ? & Hcl); apply Hcl).
    destruct (closes_end e0 pre fin' B' L' A' s' e2 e3 Hpre Hd0 Hmem Hcl) as (Hend & bs & Hc & Hfull).
    destruct (opt_reset_kept e3) as [Ebp Edata]. destruct (opt_reset_ctxs e3) as [Hx3 Hr3]; [by rewrite Ex3|].
    destruct Hend as [Hbp Hkept Hby Hnm Hlast].
    assert (bypass_start e3) as Hs3 by (split; [lia|done]).
    destruct (IHt (next_pass (pt, b)).1 (next_pass (pt, b)).2 (pass_es pt b es) (opt_reset e3)) as [Hk Hrest];
      [exact Hok'|unfold bypass_start, byte_at; rewrite Ebp, Edata; exact Hs3|exact Hx3|exact Hr3|].
    set (r' := loop fuel numbps _ _ true _ _) in *. unfold mem, r. rewrite Er. cbn [snd fst].
    rewrite Ebp, Edata in Hk. split.
    + rewrite <- Hkept. apply (kept_le _ _ _ (bp_ e3)); [lia|exact Hk].
    + intros Hsize. pose proof (kept_length _ _ _ Hk ltac:(lia)) as Hlen.
      destruct (Hrest Hsize) as [Hrates Hdecoded]. rewrite Ebp in Hrates. split; [by apply rates_term; [lia|..]|].
      exists 1%nat, (segment_bytes (data_ e3) (bp_ e0) (bp_ e3)), (cut_passes (data_ r'.2) (pred (bp_ e3)) 0 r'.1.1), bs.
      split; [intros n; rewrite cut_term by lia; by rewrite (kept_segment _ _ _ _ Hk)|].
      split; [by apply Hpull|]. split; [exact Hfull|].
      intros st d m bufs segs Hbtw Hj Hne Hsegs Hd Ea Edx. cbv zeta in Hfull. rewrite <- Hj in Hfull.
      destruct Hfull as (_ & Hn & Hl & Hsame).
      destruct (mq_pass (S fuel) pt b es ps bufs (deref e0) L' A' s' st d e2 Hok Hb Hraw Eps Hbtw
        (Hdec bufs bs d m Hne Hn Hl Hc Hsame Hd Ea Edx)) as (st' & d' & m' & Ep & Hbtw' & _ & _ & Edx').
      rewrite dpasses_S, Ep by lia. cbn [decompress_passes]. apply Hdecoded; [exact Hbtw'| |].
      * apply opt_reset_same. by rewrite Ex3.
      * by rewrite Ebp.
  - (* the segment goes on *)
    destruct (end_pass_more false e2) as [Ee Ep2]. pose proof (term_flag b pt Et (proj1 Hok) Hb) as Hb'.
    assert (raw_at_pass (next_pass (pt, b)).2 (next_pass (pt, b)).1 = false) as Hraw'
      by (rewrite next_type by (done || apply Hok); done).
    rewrite Ee in Er. set (p := (end_pass cblksty false false e2).1) in *.
    destruct (IHm (next_pass (pt, b)).1 (next_pass (pt, b)).2 (pass_es pt b es) (opt_reset e2) e0 pre fin' B' L' A' s')
      as [Hk Hrest]; try done; [by apply ready_reset|by apply opt_reset_ctxs|].
    set (r' := loop fuel numbps _ _ false _ _) in *. unfold mem, r. rewrite Er. cbn [snd fst].
    split; [exact Hk|]. intros Hsize. destruct (Hrest Hsize) as (Hrates & k & bytes & rest & bs & Hcut & Hc & Hfull & Hgo).
    split.
    { pose proof (loop_grows fuel (next_pass (pt, b)).1 (next_pass (pt, b)).2 false (pass_es pt b es) (opt_reset e2)) as Hg.
      fold r' in Hg. unfold memlen in Hg. rewrite (proj2 (opt_reset_kept e2)) in Hg.
      destruct (ready_bp _ _ _ _ _ _ _ _ Hready') as [Hle Hlt].
      apply rates_more; [rewrite <- Hpre; exact Hle|lia|done|done]. }
    exists (S k), bytes, rest, bs. split.
    { intros n. cbn [cut_passes]. rewrite Ep2, Hcut. by rewrite Nat.add_succ_r. }
    split; [by apply Hpull|]. split; [exact Hfull|].
    intros st d m bufs segs Hbtw Hj Hne Hsegs Hd Ea Edx. cbv zeta in Hfull. rewrite <- Hj in Hfull.
    destruct Hfull as (_ & Hn & Hl & Hsame).
    destruct (mq_pass (S fuel) pt b es ps bufs (deref e0) L' A' s' st d e2 Hok Hb Hraw Eps Hbtw
        (Hdec bufs bs d m Hne Hn Hl Hc Hsame Hd Ea Edx)) as (st' & d' & m' & Epass & Hbtw' & Hd' & Ea' & Edx').
    rewrite dpasses_S, Epass by lia. apply (Hgo st' (opt_dreset d') m' bufs segs); try done.
    + unfold opt_dreset. by destruct reset.
    + unfold opt_dreset. by destruct reset.
    + by apply opt_reset_same.
Qed.

Lemma in_raw_step fuel : after_term fuel -> in_raw fuel -> in_raw (S fuel).
Proof.
  intros IHt IHr pt b es e e0 hist Hok Hb Hraw Hs0 Hhist He Hx Hrs r mem.
  pose proof (pass_next _ _ _ Hok) as Hok'. pose proof (loop_step fuel pt b false es e Hb) as Er.
  cbv zeta in Er. rewrite Hraw in Er. cbn [start_pass] in Er.
  pose proof (pass_ds_ok pt b es) as Hds. rewrite Hraw in Hds. destruct (raw_bits _ Hds) as (bits & Ebits & Hbits).
  rewrite Ebits, put_raws in Er.
  assert (bypass_encode_all e bits = with_ctxs (ctxs_ e) (bypass_encode_all (bypass_init_enc e0) (hist ++ bits))) as E2.
  { rewrite He at 1. by rewrite bypass_ctxs, bypass_app. }
  assert (bits_ok (hist ++ bits)) as Hall by (by apply Forall_app).
  destruct (enc_is_term_pass numbps cblksty b pt) eqn:Et.
  - rewrite end_pass_term in Er. cbv zeta in Er. cbn [fst snd] in Er. rewrite E2, flush_ctxs in Er.
    destruct (bypass_segment e0 pterm (hist ++ bits) Hs0 Hall) as (Hkept & Hs3 & Hle & Hdec). cbv zeta in *.
    set (e4 := bypass_flush_enc pterm _) in *. set (e3 := with_ctxs (ctxs_ e) e4) in *.
    destruct (opt_reset_kept e3) as [Ebp Edata]. destruct (opt_reset_ctxs e3) as [Hx3 Hr3]; [exact Hx|].
    destruct (IHt (next_pass (pt, b)).1 (next_pass (pt, b)).2 (pass_es pt b es) (opt_reset e3)) as [Hk Hrest];
      [exact Hok'|unfold bypass_start, byte_at; rewrite Ebp, Edata; exact Hs3|exact Hx3|exact Hr3|].
    set (r' := loop fuel numbps _ _ true _ _) in *. unfold mem, r. rewrite Er. cbn [snd fst].
    rewrite Ebp, Edata in Hk. change (bp_ e3) with (bp_ e4) in *. change (data_ e3) with (data_ e4) in *. split.
    + rewrite <- Hkept. apply (kept_le _ _ _ (bp_ e4)); [lia|exact Hk].
    + intros Hsize. pose proof (kept_length _ _ _ Hk ltac:(destruct Hs3; lia)) as Hlen.
      destruct (Hrest Hsize) as [Hrates Hdecoded]. rewrite Ebp in Hrates.
      split; [by apply rates_term; [change (bp_ e3) with (bp_ e4); lia|..]|].
      exists 1%nat, (segment_bytes (data_ e4) (pred (bp_ e0)) (bp_ e4)), (cut_passes (data_ r'.2) (pred (bp_ e4)) 0 r'.1.1).
      split; [intros n; rewrite cut_term by (change (bp_ e3) with (bp_ e4); destruct Hs3; lia);
              change (bp_ e3) with (bp_ e4); by rewrite (kept_segment _ _ _ _ Hk)|].
      intros st d0 bufs segs Hbtw Hj Hne Hsegs ->.
      destruct (raw_pass (S fuel) pt b es hist bits st (raw_init_dec bufs (ctxs_ e)) Hok Hb Hraw Ebits Hbtw) as (st' & Hh & Ep & Hbtw'); [by apply Hdec|].
      split; [exact Hh|]. rewrite dpasses_S, Ep by lia. cbn [decompress_passes]. apply Hdecoded; [exact Hbtw'| |].
      * rewrite raw_decode_ctxs. cbn [raw_init_dec init_dec_common set_reg dctxs].
        unfold opt_reset. destruct reset; [exact (Hrs eq_refl)|done].
      * by rewrite Ebp.
  - destruct (end_pass_more true (bypass_encode_all e bits)) as [Ee Ep2].
    pose proof (term_flag b pt Et (proj1 Hok) Hb) as Hb'.
    assert (raw_at_pass (next_pass (pt, b)).2 (next_pass (pt, b)).1 = true) as Hraw'
      by (rewrite next_type by (done || apply Hok); done).
    rewrite Ee in Er. set (p := (end_pass cblksty true false (bypass_encode_all e bits)).1) in *.
    assert (ctxs_ (bypass_encode_all e bits) = ctxs_ e) as Ex2 by (by rewrite E2).
    destruct (opt_reset_ctxs (bypass_encode_all e bits)) as [Hx2 Hr2]; [by rewrite Ex2|].
    assert (ctxs_ (opt_reset (bypass_encode_all e bits)) = ctxs_ e) as Ex3.
    { unfold opt_reset. destruct reset eqn:ER; [|done]. symmetry. by apply Hrs. }
    destruct (IHr (next_pass (pt, b)).1 (next_pass (pt, b)).2 (pass_es pt b es) (opt_reset (bypass_encode_all e bits)) e0 (hist ++ bits))
      as [Hk Hrest]; try done.
    { unfold opt_reset. destruct reset; rewrite E2; done. }
    set (r' := loop fuel numbps _ _ false _ _) in *. unfold mem, r. rewrite Er. cbn [snd fst].
    split; [exact Hk|]. intros Hsize. destruct (Hrest Hsize) as (Hrates & k & bytes & rest & Hcut & Hgo).
    split.
    { pose proof (loop_grows fuel (next_pass (pt, b)).1 (next_pass (pt, b)).2 false (pass_es pt b es)
        (opt_reset (bypass_encode_all e bits))) as Hg.
      fold r' in Hg. unfold memlen in Hg. rewrite (proj2 (opt_reset_kept _)), E2 in Hg.
      destruct (raw_bp e0 (hist ++ bits) Hs0 Hall) as [Hle Hlt].
      apply rates_more; rewrite ?E2; cbn [with_ctxs bp_ data_] in *; [lia|lia|done|done]. }
    exists (S k), bytes, rest. split.
    { intros n. cbn [cut_passes]. rewrite Ep2, Hcut. by rewrite Nat.add_succ_r. }
    intros st d0 bufs segs Hbtw Hj Hne Hsegs Hd0. rewrite <- Ex3 in Hd0.
    destruct (pass_run (S fuel) pt b es st Hok Hb Hbtw) as (st1 & F & Hbtw1).
    destruct (Hgo st1 d0 bufs segs Hbtw1 Hj Hne Hsegs Hd0) as [Hbs _].
    destruct (raw_pass (S fuel) pt b es hist bits st d0 Hok Hb Hraw Ebits Hbtw Hbs) as (st' & Hh & Epass & Hbtw'). split; [exact Hh|].
    rewrite dpasses_S, Epass by lia. by apply (Hgo st' d0 bufs segs).
Qed.

Lemma loop_start fuel pt b es e : 0 <= b ->
  loop (S fuel) numbps pt b true es e = loop (S fuel) numbps pt b false es (start_pass true (raw_at_pass b pt) e).
Proof. intros Hb. by rewrite !loop_step. Qed.

Lemma dsegs_cons bufs k segs pt b st d : 0 <= b ->
  dsegs ((bufs, k) :: segs) (mkDL pt (b + 1) st d) =
  dsegs segs (dpasses k (raw_at_pass b pt) (mkDL pt (b + 1) st
    (if raw_at_pass b pt then raw_init_dec bufs (dctxs d) else init_dec bufs (dctxs d)))).
Proof.
  intros Hb. cbn [decompress_segments dl_bps dl_passtype dl_st dl_coder].
  rewrite (proj2 (Z.ltb_lt 0 (b + 1))) by lia. by rewrite dec_type.
Qed.

Lemma after_term_from fuel : in_mq fuel -> in_raw fuel -> after_term fuel.
Proof.
  intros IHm IHr pt b es e Hok Hs Hx Hrs r mem.
  destruct (Z_lt_le_dec b 0) as [Hb|Hb].
  { unfold mem, r. rewrite loop_done by done. cbn [fst snd cut_passes]. split; [done|].
    intros Hsize. destruct Hs as [Hbp _]. split.
    { split; cbn [rates_ok last_term]; [done|]. unfold numbytes_enc.
      rewrite wrap_small by (change (2 ^ 16) with 65536; lia). lia. }
    intros st d segs Hbtw _ Hsegs. apply Forall2_nil_inv_r in Hsegs as ->. cbn [decompress_segments dl_st].
    unfold between in Hbtw. by rewrite (proj2 (Z.ltb_lt b 0)) in Hbtw by done. }
  destruct fuel as [|fuel]; [exfalso; unfold pass_ok in Hok; lia|].
  unfold mem, r. rewrite loop_start by done. destruct Hs as [Hbp Hbyte].
  destruct (raw_at_pass b pt) eqn:Hraw; cbn [start_pass].
  - destruct (IHr pt b es (bypass_init_enc e) e []) as [Hk Hgo];
      [done|done|done|done|by apply Forall_nil_2|by rewrite with_ctxs_id|done|done|].
    split; [exact Hk|]. intros Hsize. destruct (Hgo Hsize) as (Hrates & k & bytes & rest & Hcut & H).
    split; [exact Hrates|]. intros st d segs Hbtw Edx Hsegs.
    rewrite Hcut in Hsegs. apply Forall2_cons_inv_r in Hsegs as ([bufs k'] & segs' & (Hj & Hne & Ek) & Hsegs' & ->).
    cbn [fst snd Nat.add] in *. subst k'. rewrite dsegs_cons, Hraw, Edx by done.
    by apply (H st (raw_init_dec bufs (ctxs_ e)) bufs segs').
  - set (e1 := restart_init_enc e). destruct (restart_kept e) as (Ec & Ed & Eb).
    assert (segment_start e1) as Hstart.
    { unfold e1, restart_init_enc. set (e2 := set_bp _ _). assert (deref e2 = byte_at e (pred (bp_ e))) as E2 by reflexivity.
      rewrite E2, (proj2 (Z.eqb_neq _ _)) by lia. split; try done; cbn; lia. }
    destruct (start_ready e1 Hstart) as (pre & Hpre & Hmem & Hready).
    destruct (IHm pt b es e1 e1 pre [] (deref e1) (deref e1 * 2 ^ 15) 0x8000 23) as [Hk Hgo]; try done.
    { apply (ss_byte _ Hstart). }
    { unfold e1. by rewrite Ec. }
    assert (S (bp_ e1) = bp_ e) as EbS by (unfold e1; rewrite Eb; lia).
    split; [rewrite <- EbS, <- Ed; exact Hk|].
    intros Hsize. destruct (Hgo Hsize) as (Hrates & k & bytes & rest & bs & Hcut & Hc & Hfull & H).
    assert (pred (bp_ e) = bp_ e1) as EbP by lia. rewrite EbP. split; [exact Hrates|].
    intros st d segs Hbtw Edx Hsegs. rewrite Hcut in Hsegs.
    apply Forall2_cons_inv_r in Hsegs as ([bufs k'] & segs' & (Hj & Hne & Ek) & Hsegs' & ->).
    cbn [fst snd Nat.add] in *. subst k'. rewrite dsegs_cons, Hraw by done.
    cbv zeta in Hfull. rewrite <- Hj in Hfull. destruct Hfull as (Hby & Hn & Hl & _).
    destruct (init_dec_at bufs (deref e1) Hne Hby Hn Hl (ss_byte _ Hstart) (dctxs d)) as (Hd & Ea & Edx').
    apply (H st (init_dec bufs (dctxs d)) 3%nat bufs segs'); try done. rewrite Edx', Edx. unfold e1. by rewrite Ec.
Qed.

Lemma loop_invariants fuel : after_term fuel /\ in_mq fuel /\ in_raw fuel.
Proof.
  induction fuel as [|fuel (IHt & IHm & IHr)].
  - assert (in_mq 0 /\ in_raw 0) as [Hm Hr].
    { split; intros pt b es e; intros; unfold pass_ok in *; exfalso; lia. }
    split_and!; [by apply after_term_from|done|done].
  - pose proof (in_mq_step fuel IHt IHm). pose proof (in_raw_step fuel IHt IHr).
    split_and!; [by apply after_term_from|done|done].
Qed.

(** The whole loop, from the first cleanup pass. *)
Lemma loop_roundtrip es : 1 <= numbps <= 25 -> e_flags es = initFlags w h ->
  let r := loop (Z.to_nat (3 * numbps)) numbps 2 (numbps - 1) false es (init_enc [0] resetstates) in
  let mem := data_ r.2 in
  Z.of_nat (length mem) <= 65530 -> take 1 mem = [0] /\ rates_end mem 0 r.1.1 r.2 /\ forall st d segs,
    btw 2 (numbps - 1) (initFlags w h) st -> dctxs d = resetstates ->
    Forall2 seg_cut segs (cut_passes mem 0 0 r.1.1) ->
    decoded (dsegs segs (mkDL 2 numbps st d)).
Proof.
  intros Hn Hes r mem Hsize.
  assert (raw_at_pass (numbps - 1) 2 = false) as Hraw by (unfold enc_type_raw; by rewrite andb_false_r).
  pose proof (init_start 0 [] resetstates ltac:(lia)) as Hstart. set (e1 := init_enc [0] resetstates) in *.
  destruct (start_ready e1 Hstart) as (pre & Hpre & Hmem & Hready).
  destruct (loop_invariants (Z.to_nat (3 * numbps))) as (_ & Hin & _).
  destruct (Hin 2 (numbps - 1) es e1 e1 pre [] (deref e1) (deref e1 * 2 ^ 15) 0x8000 23) as [Hk Hgo]; try done.
  { unfold pass_ok. lia. }
  { lia. }
  { apply reset_ok. }
  destruct (Hgo Hsize) as (Hrates & k & bytes & rest & bs & Hcut & Hc & Hfull & H).
  split; [exact Hk|]. split; [exact Hrates|]. intros st d segs Hbtw Edx Hsegs.
  change (bp_ e1) with 0%nat in Hcut. fold r mem in Hcut. rewrite Hcut in Hsegs.
  apply Forall2_cons_inv_r in Hsegs as ([bufs k'] & segs' & (Hj & Hne & Ek) & Hsegs' & ->).
  cbn [fst snd Nat.add] in *. subst k'. 
  assert (mkDL 2 numbps st d = mkDL 2 (numbps - 1 + 1) st d) as -> by (f_equal; lia).
  rewrite dsegs_cons, Hraw by lia.
  cbv zeta in Hfull. rewrite <- Hj in Hfull. destruct Hfull as (Hby & Hnm & Hl & _).
  destruct (init_dec_at bufs (deref e1) Hne Hby Hnm Hl (ss_byte _ Hstart) (dctxs d)) as (Hd & Ea & Edx').
  apply (H st (init_dec bufs (dctxs d)) 3%nat bufs segs'); try done; [by rewrite Hes|].
  by rewrite Edx', Edx.
Qed.

End loop.
