(* ===== verification/BlockRates.v ===== *)
(** The recorded pass rates and the segments of a compressed block.

    [compress_cblk] records a rate for each pass, with some slack where the pass is not
    terminated, then makes the rates increasing and steps back over a final FF.  These
    corrections leave the rates of terminated passes alone, so the pass lengths cut the
    compressed bytes exactly where the coder was terminated. *)
From S2P Require Import Prelude BitIO Geometry Codeblock BlockLuts MQCoder MQInterval MQRoundTrip BypassRoundTrip BlockCoder BlockFlags BlockRoundTrip BlockStream BlockLoop.

(** Passes whose rates do not decrease, from the rate [l]. *)
Fixpoint rates_from (l : Z) (ps : list pass_enc) : Prop :=
  match ps with
  | [] => True
  | p :: ps => l <= pe_rate p /\ rates_from (pe_rate p) ps
  end.

(** The segments of a block from its pass lengths, as packets carry them: [acc] bytes
    and [n] passes of the segment have been seen. *)
Fixpoint cut_lengths (bytes : list Z) (acc n : nat) (ps : list pass_enc) : list (list Z * nat) :=
  match ps with
  | [] => []
  | p :: ps =>
      let acc := (acc + Z.to_nat (pe_len p))%nat in
      if pe_term p then (take acc bytes, S n) :: cut_lengths (drop acc bytes) 0 0 ps
      else cut_lengths bytes acc (S n) ps
  end.

Section rates.
Context (mem : list Z).

Lemma rates_bound start ps : 0 <= start < 65536 -> rates_ok mem start ps -> 0 <= last_term start ps < 65536.
Proof.
  revert start. induction ps as [|p ps IH]; intros start Hs H; [done|]. destruct H as [Hp H]. cbn [last_term].
  destruct (pe_term p); [|by apply IH]. apply IH; [lia|apply H].
Qed.

Lemma rates_from_le l l' ps : l <= l' -> rates_from l' ps -> rates_from l ps.
Proof. destruct ps as [|p ps]; [done|]. cbn [rates_from]. intros ? [? ?]. split; [lia|done]. Qed.

(** Raising the rates to be increasing keeps the terminated passes. *)
Lemma increasing_rates_spec ps : forall start last, rates_ok mem start ps -> last_term start ps = last ->
  let r := increasing_rates last ps in
  start <= r.2 /\ rates_from r.2 r.1 /\ rates_ok mem start r.1 /\ last_term start r.1 = last /\
  forall n s, cut_passes mem s n r.1 = cut_passes mem s n ps.
Proof.
  induction ps as [|p ps IH]; intros start last H E; cbn [increasing_rates].
  { cbn in E. subst last. cbn. split_and!; done || lia. }
  destruct H as [Hp H]. cbn [last_term] in E.
  destruct (pe_term p) eqn:Et.
  - destruct H as [Hb H]. destruct (IH _ _ H E) as (H1 & H2 & H3 & H4 & H5).
    destruct (increasing_rates last ps) as [ps' l]. cbn [fst snd] in *. rewrite (proj2 (Z.ltb_ge _ _)) by lia.
    cbn [fst snd rates_from rates_ok last_term cut_passes]. rewrite Et. split_and!; try done; try lia;
      [by apply (rates_from_le _ l)|intros n s; by rewrite H5].
  - destruct (IH _ _ H E) as (H1 & H2 & H3 & H4 & H5).
    destruct (increasing_rates last ps) as [ps' l]. cbn [fst snd] in *.
    destruct (Z.ltb_spec l (pe_rate p)); cbn [fst snd rates_from rates_ok last_term cut_passes pe_rate pe_term];
      rewrite Et; split_and!; try done; try lia; try (by apply (rates_from_le _ l)); intros n s; by rewrite H5.
Qed.

(** The rate of a pass without a final FF. *)
Definition rate_before_ff (r : Z) : Z := if nthZ 0 mem r =? 0xff then u16 (r - 1) else r.

Lemma rate_before_le start r : 0 <= start -> nthZ 0 mem start <> 0xff -> start <= r < 65536 ->
  start <= rate_before_ff r <= r /\ r - 1 <= rate_before_ff r.
Proof.
  intros H0 Hs Hr. unfold rate_before_ff. destruct (Z.eqb_spec (nthZ 0 mem r) 0xff) as [E|]; [|lia].
  assert (start <> r) by (intros ->; done). rewrite wrap_small by (change (2 ^ 16) with 65536; lia). lia.
Qed.
Lemma rate_before_mono start a b : 0 <= start -> nthZ 0 mem start <> 0xff -> start <= a -> a <= b < 65536 ->
  rate_before_ff a <= rate_before_ff b.
Proof.
  intros H0 Hs Ha Hab. destruct (decide (a = b)) as [->|]; [lia|].
  pose proof (rate_before_le start a H0 Hs). pose proof (rate_before_le start b H0 Hs). lia.
Qed.

(** The lengths add up to the rates at the terminated passes. *)
Lemma cut_pass_lengths ps : forall (start l : Z) n, 0 <= start -> nthZ 0 mem start <> 0xff -> start <= l < 65536 ->
  rates_ok mem start ps -> rates_from l ps ->
  cut_lengths (drop (S (Z.to_nat start)) mem) (Z.to_nat (rate_before_ff l - start)) n
    (pass_lengths mem (rate_before_ff l) ps) = cut_passes mem (Z.to_nat start) n ps.
Proof.
  induction ps as [|p ps IH]; intros start l n H0 Hb Hl H Hf; [done|]. destruct H as [Hp H], Hf as [Hlp Hf].
  cbn [pass_lengths]. change (if nthZ 0 mem (pe_rate p) =? 0xff then u16 (pe_rate p - 1) else pe_rate p) with (rate_before_ff (pe_rate p)).
  cbn [cut_lengths cut_passes pe_len pe_term].
  pose proof (rate_before_le start l H0 Hb Hl) as B1. pose proof (rate_before_le start (pe_rate p) H0 Hb Hp) as B2.
  pose proof (rate_before_mono start l (pe_rate p) H0 Hb (proj1 Hl) ltac:(lia)) as Hm.
  rewrite (wrap_small 16) by (change (2 ^ 16) with 65536; lia).
  assert (Z.to_nat (rate_before_ff l - start) + Z.to_nat (rate_before_ff (pe_rate p) - rate_before_ff l) =
    Z.to_nat (rate_before_ff (pe_rate p) - start))%nat as -> by lia.
  destruct (pe_term p); [|by apply IH; try done; lia].
  destruct H as [Hff H]. assert (rate_before_ff (pe_rate p) = pe_rate p) as E by (unfold rate_before_ff; by rewrite (proj2 (Z.eqb_neq _ _))).
  rewrite E. assert (Z.to_nat (pe_rate p - start) = Z.to_nat (pe_rate p) - Z.to_nat start)%nat as -> by lia.
  f_equal. rewrite drop_drop.
  replace (S (Z.to_nat start) + (Z.to_nat (pe_rate p) - Z.to_nat start))%nat with (S (Z.to_nat (pe_rate p))) by lia.
  rewrite <- (IH (pe_rate p) (pe_rate p) 0%nat) by (done || lia). rewrite E. by rewrite Z.sub_diag.
Qed.

End rates.
