(* ===== verification/BlockTheorems.v ===== *)
(** Compressing and decompressing a block.

    The samples of a block of a tile, through [Coder::compress], the segments the
    packets carry and [Coder::decompress], come back unchanged, for every block style. *)
From S2P Require Import Prelude BitIO Geometry Codeblock BlockLuts MQCoder MQInterval MQRoundTrip BypassRoundTrip BlockCoder BlockFlags BlockRoundTrip BlockStream BlockLoop BlockRates.

(** ** The state before the first pass *)

Lemma length_fill p n v fl : length (fill_n p n v fl) = length fl.
Proof.
  unfold fill_n. generalize (seq 0 n). intros l. revert fl.
  induction l as [|k l IH]; intros fl; [done|]. cbn [foldl]. by rewrite IH, length_insert.
Qed.
Lemma fill_outside p n v q : (q < p \/ p + n <= q)%nat -> forall fl, word (fill_n p n v fl) q = word fl q.
Proof.
  intros Hq fl. unfold fill_n. assert (Forall (fun k => p + k <> q)%nat (seq 0 n)) as Hl.
  { apply Forall_seq. lia. }
  revert fl Hl. generalize (seq 0 n). intros l. induction l as [|k l IH]; intros fl Hl; [done|].
  apply list.Forall_cons in Hl as [Hk Hl]. cbn [foldl]. rewrite IH by done. unfold word.
  rewrite !nth_lookup. by rewrite list_lookup_insert_ne.
Qed.
Lemma fill_inside p n v q : (p <= q < p + n)%nat -> forall fl, (q < length fl)%nat -> word (fill_n p n v fl) q = v.
Proof.
  intros Hq fl Hf. induction n as [|n IH]; [lia|]. unfold fill_n. rewrite seq_S, foldl_app. cbn [foldl Nat.add].
  fold (fill_n p n v fl). unfold word. rewrite nth_lookup. destruct (decide (p + n = q)%nat) as [<-|Hn].
  - by rewrite list_lookup_insert_eq by (by rewrite length_fill).
  - rewrite list_lookup_insert_ne, <- nth_lookup by done. apply IH. lia.
Qed.

Section start.
Context (w h : nat).

Lemma length_init : length (initFlags w h) = flagsLen w h.
Proof. unfold initFlags. destruct (_ =? _)%nat; by rewrite !length_fill, length_replicate. Qed.

(** The flags of a sample: the rows beyond the block count as visited. *)
Lemma init_word s i j : valid w h s i j -> word (initFlags w h) (flagsPtr w s i) =
  if (h mod 4 =? 0)%nat || negb (S s =? getFlagsHeight h)%nat then 0 else nth (h mod 4) partialRowFlags 0.
Proof.
  intros Hv. pose proof (height_bound _ _ _ _ _ Hv) as Hs. destruct Hv as (Hi & _ & _).
  assert (forall n v, (1 <= n)%nat -> n <> S s -> forall fl, word (fill_n (n * getFlagsStride w) (getFlagsStride w) v fl) (flagsPtr w s i) = word fl (flagsPtr w s i)) as Hrow.
  { intros n v Hn Hd. apply fill_outside. unfold flagsPtr, getFlagsStride.
    destruct (Nat.lt_trichotomy n (S s)) as [|[|]]; [right|done|left]; nia. }
  unfold initFlags. set (fl0 := fill_n 0 _ _ _).
  assert (word fl0 (flagsPtr w s i) = 0) as E0.
  { unfold fl0. rewrite fill_outside by (unfold flagsPtr, getFlagsStride; nia).
    unfold word. rewrite nth_lookup. destruct (replicate _ _ !! _) eqn:E; [|done]. by apply lookup_replicate in E as [-> _]. }
  set (fl1 := fill_n ((getFlagsHeight h + 1) * _) _ _ _).
  assert (word fl1 (flagsPtr w s i) = 0) as E1 by (unfold fl1; rewrite Hrow by lia; done).
  destruct (h mod 4 =? 0)%nat; [done|]. cbn [orb]. destruct (Nat.eqb_spec (S s) (getFlagsHeight h)) as [E|]; cbn [negb].
  - apply fill_inside; [unfold flagsPtr, getFlagsStride; rewrite <- E; nia|].
    unfold fl1, fl0. rewrite !length_fill, length_replicate. unfold flagsLen, flagsPtr, getFlagsStride.
    unfold getFlagsHeight in Hs. nia.
  - rewrite Hrow by lia. done.
Qed.
Lemma init_clear s i j : valid w h s i j -> sigma w (initFlags w h) s i j = false /\ pi w (initFlags w h) s i j = false.
Proof.
  intros Hv. pose proof (keep_sees w h s i j Hv) as Hk. unfold sigma, pi. rewrite (init_word s i j Hv).
  unfold sees, keep in Hk. destruct Hv as (Hi & Hj & Hh). rewrite ptr_div in Hk by done.
  destruct (_ || _); [by rewrite !Z.bits_0|]. rewrite Z.lnot_spec in Hk by (unfold pbit; lia).
  apply negb_true_iff in Hk. split; [|done].
  pose proof (Nat.mod_upper_bound h 4 ltac:(lia)). set (r := (h mod 4)%nat) in *. clearbody r. four r; four j; reflexivity.
Qed.

Lemma between_start data numbps : 1 <= numbps -> (forall s i j, valid w h s i j -> mag numbps (sample w data s i j) = 0) ->
  between w h data 2 (numbps - 1) (initFlags w h) (mkD (initFlags w h) (replicate (w * h) 0)).
Proof.
  intros Hn Hm. unfold between, PassI. rewrite (proj2 (Z.ltb_ge _ _)) by lia. cbn [Z.eqb].
  change (2 =? 0) with false. change (2 =? 1) with false. cbv iota.
  split; [|intros s i j Hv; by rewrite before_none].
  split; cbn [d_flags d_data].
  - split; [done|]. intros p. done.
  - apply length_init.
  - apply length_replicate.
  - intros p. apply keep_base.
  - intros s i j Hv. destruct (init_clear s i j Hv) as [Es Ep]. unfold cln_done.
    rewrite before_none, Es, Ep. cbn [orb level]. replace (numbps - 1 + 1) with numbps by lia.
    unfold decval. rewrite Hm by done. split; [done|]. rewrite Z.eqb_refl, nth_lookup.
    by destruct (replicate _ _ !! _) eqn:E; [apply lookup_replicate in E as [-> _]|].
Qed.

End start.

(** ** Sign-magnitude samples *)

(** The sample [preCompress] stores for the coefficient [c]. *)
Definition sign_mag (c : Z) : Z := Z.lor (if c <? 0 then - 2 ^ 31 else 0) (Z.abs c * 2 ^ 6).

Lemma lor_sign m : 0 <= m < 2 ^ 31 -> Z.lor (- 2 ^ 31) m = - 2 ^ 31 + m.
Proof.
  intros Hm. symmetry. apply Z.add_nocarry_lor. apply Z.bits_inj'. intros n Hn. rewrite Z.land_spec, Z.bits_0.
  destruct (Z.lt_ge_cases n 31) as [H|H].
  - replace (- 2 ^ 31) with (Z.shiftl (-1) 31) by reflexivity. by rewrite Z.shiftl_spec_low.
  - rewrite (Z.bits_above_log2 m n), andb_false_r; [done|lia|]. destruct (decide (m = 0)) as [->|]; [cbn; lia|].
    apply Z.log2_lt_pow2; [lia|]. pose proof (Z.pow_le_mono_r 2 31 n ltac:(lia) H). lia.
Qed.

Section sample.
Context (c : Z) (Hc : Z.abs c < 2 ^ 25).

Lemma sign_mag_eq : sign_mag c = (if c <? 0 then - 2 ^ 31 else 0) + Z.abs c * 2 ^ 6.
Proof.
  unfold sign_mag. destruct (c <? 0); [|by rewrite Z.lor_0_l]. apply lor_sign.
  change (2 ^ 31) with (2 ^ 25 * 2 ^ 6). lia.
Qed.
Lemma sign_mag_u32 : u32 (sign_mag c) = (if c <? 0 then 2 ^ 31 else 0) + Z.abs c * 2 ^ 6.
Proof.
  rewrite sign_mag_eq. unfold wrap. symmetry. destruct (c <? 0).
  - apply (Z.mod_unique _ _ (-1)); [left|]; change (2 ^ 32) with (2 * 2 ^ 31); change (2 ^ 31) with (2 ^ 25 * 2 ^ 6) in *; lia.
  - apply (Z.mod_unique _ _ 0); [left|]; change (2 ^ 32) with (2 * 2 ^ 31); change (2 ^ 31) with (2 ^ 25 * 2 ^ 6) in *; lia.
Qed.
Lemma sign_mag_abs : smr_abs (sign_mag c) = Z.abs c * 2 ^ 6.
Proof.
  unfold smr_abs. rewrite sign_mag_u32. change 0x7FFFFFFF with (Z.ones 31). rewrite Z.land_ones by lia.
  symmetry. destruct (c <? 0); [apply (Z.mod_unique _ _ 1)|apply (Z.mod_unique _ _ 0)]; try left;
    change (2 ^ 31) with (2 ^ 25 * 2 ^ 6); lia.
Qed.
Lemma sign_mag_sign : smr_sign (sign_mag c) = bit_of (c <? 0).
Proof.
  unfold smr_sign. rewrite sign_mag_u32, Z.shiftr_div_pow2 by lia. symmetry.
  destruct (c <? 0); cbn [bit_of]; apply (Z.div_unique _ _ _ (Z.abs c * 2 ^ 6)); try left;
    change (2 ^ 31) with (2 ^ 25 * 2 ^ 6); lia.
Qed.

(** What the decoder holds after the last plane, less its half bit. *)
Lemma sign_mag_decoded : Z.quot (decval 0 (sign_mag c)) 2 = c.
Proof.
  rewrite decval_final. unfold mag. rewrite sign_mag_sign, sign_mag_abs. change (0 + T1_NMSEDEC_FRACBITS) with 6.
  rewrite Z.shiftr_div_pow2, Z.div_mul by lia. destruct (Z.ltb_spec c 0); cbn; lia.
Qed.

Lemma precompress_step_eq k x : nth k (pc_tiledp x) 0 = c ->
  precompress_step k x = mkPre (<[k := c * 2 ^ 6]> (pc_tiledp x)) (Z.max (pc_maximum x) (Z.abs c * 2 ^ 6))
    (pc_data x ++ [sign_mag c]).
Proof.
  intros Hk. unfold precompress_step. rewrite Hk. change (Z.shiftl 1 T1_NMSEDEC_FRACBITS) with (2 ^ 6).
  assert (- 2 ^ 31 < c * 2 ^ 6 < 2 ^ 31) as Ht by (change (2 ^ 31) with (2 ^ 25 * 2 ^ 6); lia).
  rewrite (swrap_small 32 (c * 2 ^ 6)) by (change (2 ^ (32 - 1)) with (2 ^ 31); lia).
  assert (c * 2 ^ 6 * (bit_of (0 <? c * 2 ^ 6) - bit_of (c * 2 ^ 6 <? 0)) = Z.abs c * 2 ^ 6) as ->.
  { unfold bit_of. zcases; lia. }
  rewrite (swrap_small 32 (Z.abs c * 2 ^ 6)) by (change (2 ^ (32 - 1)) with (2 ^ 31); lia).
  rewrite (wrap_small 32 (Z.abs c * 2 ^ 6)) by (change (2 ^ 32) with (2 * 2 ^ 31); lia).
  f_equal.
  - zcases; lia.
  - do 2 f_equal. unfold sign_mag. f_equal. destruct (Z.ltb_spec c 0); destruct (Z.eqb_spec (Z.abs c * 2 ^ 6) (c * 2 ^ 6)); try lia; done.
Qed.
End sample.

(** ** preCompress *)

(** The places of a block's samples in its tile, row by row. *)
Definition tile_places (w h tile_width : nat) : list nat :=
  mjoin ((fun j => (fun i => j * tile_width + i)%nat <$> seq 0 w) <$> seq 0 h).
Definition block_coefs (w h tile_width : nat) (tiledp : list Z) : list Z :=
  (fun k => nth k tiledp 0) <$> tile_places w h tile_width.

Lemma places_fold {A} (f : A -> nat -> A) w tw rows : forall x,
  foldl (fun x j => foldl (fun x i => f x (j * tw + i)%nat) x (seq 0 w)) x rows =
  foldl f x (mjoin ((fun j => (fun i => j * tw + i)%nat <$> seq 0 w) <$> rows)).
Proof.
  induction rows as [|j rows IH]; intros x; [done|]. cbn. rewrite foldl_app, IH. f_equal.
  generalize (seq 0 w). intros l. revert x. induction l as [|i l IHl]; intros x; [done|]. cbn. apply IHl.
Qed.
Lemma places_NoDup w h tw : (w <= tw)%nat -> NoDup (tile_places w h tw).
Proof.
  intros Hw. unfold tile_places. generalize 0%nat at 2. induction h as [|h IH]; intros k; cbn; [constructor|].
  apply list.NoDup_app. split_and!; [|intros x Hx Hx'|apply IH].
  - apply NoDup_fmap_2; [intros a b; cbn; lia|apply NoDup_seq].
  - apply list_elem_of_fmap in Hx as (i & -> & Hi). apply elem_of_seq in Hi.
    apply list_elem_of_join in Hx' as (l & Hl & Hm). apply list_elem_of_fmap in Hm as (j & -> & Hj).
    apply list_elem_of_fmap in Hl as (i' & E & Hi'). apply elem_of_seq in Hj, Hi'. nia.
Qed.
Lemma length_places w h tw : length (tile_places w h tw) = (w * h)%nat.
Proof.
  unfold tile_places. generalize 0%nat at 2. induction h as [|h IH]; intros k; cbn; [lia|].
  rewrite length_app, length_fmap, length_seq, IH. lia.
Qed.

Lemma precompress_fold l : NoDup l -> forall x,
  (forall k, k ∈ l -> Z.abs (nth k (pc_tiledp x) 0) < 2 ^ 25) -> 0 <= pc_maximum x < 2 ^ 31 ->
  let r := foldl (fun x k => precompress_step k x) x l in
  pc_data r = pc_data x ++ ((fun k => sign_mag (nth k (pc_tiledp x) 0)) <$> l) /\
  pc_maximum x <= pc_maximum r < 2 ^ 31 /\
  (forall k, k ∈ l -> Z.abs (nth k (pc_tiledp x) 0) * 2 ^ 6 <= pc_maximum r).
Proof.
  induction 1 as [|k l Hk Hl IH]; intros x Hx Hm r.
  { cbn in r. subst r. rewrite app_nil_r. split_and!; try done; try lia. intros k Hk. by apply elem_of_nil in Hk. }
  assert (Z.abs (nth k (pc_tiledp x) 0) < 2 ^ 25) as Hc by (apply Hx; by left).
  unfold r. cbn [foldl]. rewrite (precompress_step_eq _ Hc k x eq_refl). set (x1 := mkPre _ _ _).
  assert (forall k', k' ∈ l -> nth k' (pc_tiledp x1) 0 = nth k' (pc_tiledp x) 0) as Hsame.
  { intros k' Hk'. cbn [pc_tiledp x1]. rewrite !nth_lookup, list_lookup_insert_ne; [done|]. by intros ->. }
  destruct (IH x1) as (Hd & Hmax & Hall).
  { intros k' Hk'. rewrite Hsame by done. apply Hx. by right. }
  { cbn [pc_maximum x1]. change (2 ^ 31) with (2 ^ 25 * 2 ^ 6) in *. lia. }
  cbn [pc_maximum pc_data x1] in Hd, Hmax. split_and!.
  - rewrite Hd, <- app_assoc. f_equal. cbn. f_equal. apply list_fmap_ext. intros i k' Hi.
    by rewrite Hsame by (by eapply list_elem_of_lookup_2).
  - lia.
  - lia.
  - intros k' Hk'. apply elem_of_cons in Hk' as [->|Hk']; [lia|]. rewrite <- Hsame by done. by apply Hall.
Qed.

Lemma preCompress_spec w h tw tiledp : (0 < w <= tw)%nat -> (0 < h)%nat ->
  Forall (fun c => Z.abs c < 2 ^ 25) (block_coefs w h tw tiledp) ->
  exists pre, preCompress w h tw tiledp = Some pre /\
    pc_data pre = sign_mag <$> block_coefs w h tw tiledp /\ 0 <= pc_maximum pre < 2 ^ 31 /\
    Forall (fun c => Z.abs c * 2 ^ 6 <= pc_maximum pre) (block_coefs w h tw tiledp).
Proof.
  intros Hw Hh Hall. unfold preCompress. rewrite (proj2 (Nat.eqb_neq w 0)), (proj2 (Nat.eqb_neq h 0)) by lia. cbn [orb].
  rewrite (proj2 (Nat.ltb_ge tw w)) by lia. eexists. split; [done|].
  rewrite (places_fold (fun x k => precompress_step k x)). fold (tile_places w h tw).
  destruct (precompress_fold (tile_places w h tw) (places_NoDup w h tw ltac:(lia)) (mkPre tiledp 0 [])) as (Hd & Hm & Hb).
  { intros k Hk. cbn [pc_tiledp]. rewrite list.Forall_forall in Hall. apply Hall. unfold block_coefs. apply list_elem_of_fmap. eauto. }
  { cbn. lia. }
  split_and!; [| |apply Hm|].
  - rewrite Hd. cbn [pc_data app pc_tiledp]. unfold block_coefs. by rewrite <- list_fmap_compose.
  - cbn [pc_maximum] in Hm. lia.
  - apply list.Forall_forall. intros c Hc. unfold block_coefs in Hc. apply list_elem_of_fmap in Hc as (k & -> & Hk). by apply Hb.
Qed.

(** ** The whole block *)

Lemma block_numbps_spec max : 0 <= max < 2 ^ 31 ->
  (block_numbps max = 0 /\ max < 2 ^ 6) \/ (1 <= block_numbps max <= 25 /\ max < 2 ^ (block_numbps max + 6)).
Proof.
  intros Hm. unfold block_numbps. change T1_NMSEDEC_FRACBITS with 6. destruct (Z.eqb_spec max 0) as [->|Hn]; [by left|].
  rewrite floorlog2_log2 by (change (2 ^ 32) with (2 * 2 ^ 31); lia).
  pose proof (Z.log2_spec max ltac:(lia)) as [_ Hlog]. pose proof (Z.log2_nonneg max).
  assert (Z.log2 max < 31) as Hl by (apply Z.log2_lt_pow2; lia).
  rewrite wrap_small by (change (2 ^ 8) with 256; lia).
  destruct (Z.leb_spec (Z.log2 max + 1) 6) as [H6|H6]; [left|right].
  - split; [done|]. eapply Z.lt_le_trans; [exact Hlog|]. apply Z.pow_le_mono_r; lia.
  - split; [lia|]. by replace (Z.log2 max + 1 - 6 + 6) with (Z.succ (Z.log2 max)) by lia.
Qed.

Lemma mag_above numbps x : 0 <= numbps -> smr_abs x < 2 ^ (numbps + 6) -> mag numbps x = 0.
Proof.
  intros Hn Hx. unfold mag. change T1_NMSEDEC_FRACBITS with 6. rewrite Z.shiftr_div_pow2 by lia.
  apply Z.div_small. pose proof (smr_abs_range x). lia.
Qed.

Lemma finished_data w h data st : (0 < w)%nat -> length data = (w * h)%nat -> finished w h data st ->
  d_data st = decval 0 <$> data.
Proof.
  intros Hw Hl [Hd Hall]. apply nth_ext with (d := 0) (d' := 0); [by rewrite length_fmap, Hd, Hl|].
  intros k Hk. rewrite Hd in Hk. set (r := (k / w)%nat).
  assert (valid w h (r / 4) (k mod w) (r mod 4)) as Hv.
  { pose proof (Nat.div_mod r 4). pose proof (Nat.mod_upper_bound k w). pose proof (Nat.mod_upper_bound r 4).
    split_and!; [lia|lia|]. assert (r < h)%nat; [|lia]. apply Nat.Div0.div_lt_upper_bound; lia. }
  specialize (Hall _ _ _ Hv). unfold sample in Hall.
  assert (dataIdx w (r / 4) (k mod w) (r mod 4) = k) as E.
  { unfold dataIdx. pose proof (Nat.div_mod r 4). replace (4 * (r / 4) + r mod 4)%nat with r by lia.
    pose proof (Nat.div_mod k w). unfold r. lia. }
  rewrite E in Hall. rewrite Hall, !nth_lookup, list_lookup_fmap.
  destruct (lookup_lt_is_Some_2 data k ltac:(lia)) as [x ->]. done.
Qed.
Lemma filter_decoded coefs : Forall (fun c => Z.abs c < 2 ^ 25) coefs ->
  ShiftFilter (decval 0 <$> (sign_mag <$> coefs)) = coefs.
Proof.
  intros H. unfold ShiftFilter. rewrite <- !list_fmap_compose. rewrite <- (list_fmap_id coefs) at 2.
  apply list_fmap_ext. intros i c Hi. apply sign_mag_decoded. by eapply Forall_lookup_1 in H.
Qed.

(** What [compress_cblk] makes of the loop. *)
Lemma compress_eq w h orientation data cblksty max (rc : bool) : block_numbps max <> 0 ->
  let numbps := block_numbps max in
  let es := mkE (initFlags w h) [] (if rc then Some 0 else None) in
  let r := compress_loop w h orientation data cblksty (Z.to_nat (3 * numbps)) numbps 2 (numbps - 1) false es
             (init_enc [0] resetstates) in
  compress_cblk w h orientation data cblksty max rc =
  mkCblk numbps (pass_lengths (data_ r.2) 0 (increasing_rates (numbytes_enc r.2) r.1.1).1) (data_ r.2).
Proof.
  intros Hn numbps es r. unfold compress_cblk. fold numbps. rewrite (proj2 (Z.eqb_neq numbps 0)) by done. fold es.
  fold r. destruct r as [[ps es'] e]. cbn [fst snd]. by destruct (increasing_rates _ ps).
Qed.

(** The segments cut by pass lengths are those the coder terminated. *)
Lemma compress_segments w h orientation data cblksty max rc : 0 <= max < 2 ^ 31 -> 1 <= block_numbps max <= 25 ->
  let blk := compress_cblk w h orientation data cblksty max rc in
  let numbps := block_numbps max in
  let es := mkE (initFlags w h) [] (if rc then Some 0 else None) in
  let r := compress_loop w h orientation data cblksty (Z.to_nat (3 * numbps)) numbps 2 (numbps - 1) false es
             (init_enc [0] resetstates) in
  ce_numbps blk = numbps /\ ce_data blk = data_ r.2 /\
  (Z.of_nat (length (ce_data blk)) <= 65530 ->
   cut_lengths (tail (ce_data blk)) 0 0 (ce_passes blk) = cut_passes (data_ r.2) 0 0 r.1.1).
Proof.
  intros Hm Hn blk numbps es r.
  pose proof (compress_eq w h orientation data cblksty max rc ltac:(lia)) as E. cbv zeta in E.
  fold numbps es in E. fold r blk in E.
  rewrite E. cbn [ce_numbps ce_data ce_passes]. split_and!; try done. intros Hsize.
  destruct (loop_roundtrip w h orientation data cblksty numbps es Hn eq_refl Hsize) as (H0 & [Hr Hl] & _).
  fold r in H0, Hr, Hl. destruct (increasing_rates_spec (data_ r.2) r.1.1 _ _ Hr Hl) as (H1 & H2 & H3 & _ & Hcut).
  destruct (data_ r.2) as [|b mem] eqn:Emem; [done|]. injection H0 as ->.
  rewrite <- (Hcut 0%nat 0%nat). cbn [tail].
  apply (cut_pass_lengths (0 :: mem) _ 0 0 0%nat); try done; try lia.
  by apply (rates_from_le _ (increasing_rates (numbytes_enc r.2) r.1.1).2).
Qed.

Lemma canDecompress_segs numbps segs : numbps <> 0 -> segs <> [] -> dataChunksEmpty segs = false -> canDecompress numbps segs = true.
Proof.
  intros Hn Hs He. unfold canDecompress. rewrite He, (proj2 (Z.eqb_neq numbps 0)) by done. by destruct segs.
Qed.

(** A block with a plane to code. *)
Lemma coded_block w h orientation cblksty max rc coefs : (0 < w)%nat -> (0 < h)%nat -> length coefs = (w * h)%nat ->
  Forall (fun c => Z.abs c < 2 ^ 25) coefs -> 0 <= max < 2 ^ 31 -> Forall (fun c => Z.abs c * 2 ^ 6 <= max) coefs ->
  1 <= block_numbps max <= 25 -> max < 2 ^ (block_numbps max + 6) ->
  let blk := compress_cblk w h orientation (sign_mag <$> coefs) cblksty max rc in
  Z.of_nat (length (ce_data blk)) <= 65530 -> forall segs,
    Forall2 seg_cut segs (cut_lengths (tail (ce_data blk)) 0 0 (ce_passes blk)) -> dataChunksEmpty segs = false ->
    Coder_decompress w h orientation cblksty (ce_numbps blk) segs = Some coefs.
Proof.
  intros Hw Hh Hlen Hall Hm Hmax Hn Hmx blk Hsize segs Hsegs Hne. set (data := sign_mag <$> coefs) in *.
  destruct (compress_segments w h orientation data cblksty max rc Hm Hn) as (En & Ed & Hcut).
  fold blk in En, Ed, Hcut. specialize (Hcut Hsize). rewrite Hcut in Hsegs. clear Hcut. rewrite Ed in Hsize.
  set (numbps := block_numbps max) in *. set (es := mkE _ _ _) in *.
  destruct (loop_roundtrip w h orientation data cblksty numbps es Hn eq_refl Hsize) as (_ & _ & Hdec).
  unfold Coder_decompress, decompress_cblk. rewrite En. change maxBitPlanesJ2K with 30.
  rewrite (proj2 (Nat.eqb_neq w 0)), (proj2 (Nat.eqb_neq h 0)) by lia. cbn [orb].
  rewrite (proj2 (Z.ltb_ge _ _)) by lia. rewrite canDecompress_segs; [|lia|by intros ->|done]. cbn [negb].
  cbn [fmap option_fmap option_map]. f_equal. rewrite <- (filter_decoded coefs Hall). f_equal.
  apply (finished_data w h data); [done|by unfold data; rewrite length_fmap|]. apply Hdec; [|done|done]. apply between_start; [lia|]. intros s i j Hv. apply mag_above; [lia|].
  unfold sample. pose proof (idx_bound _ _ _ _ _ Hv) as Hi. rewrite nth_lookup. unfold data. rewrite list_lookup_fmap.
  destruct (lookup_lt_is_Some_2 coefs (dataIdx w s i j) ltac:(lia)) as [c Ec]. rewrite Ec. cbn.
  eapply Forall_lookup_1 in Hall, Hmax; [|done..]. rewrite sign_mag_abs by done. lia.
Qed.
(** A block whose coefficients are all zero. *)
Lemma zero_coefs coefs max : Forall (fun c => Z.abs c * 2 ^ 6 <= max) coefs -> max < 2 ^ 6 ->
  ShiftFilter (replicate (length coefs) 0) = coefs.
Proof.
  intros H Hm. induction H as [|c coefs Hc H IH]; [done|]. change (Z.quot 0 2 :: ShiftFilter (replicate (length coefs) 0) = c :: coefs). rewrite IH. f_equal. change (Z.quot 0 2) with 0. lia.
Qed.

(** ** What the encoder and decoder promise of a block *)

(** C1: a block of a tile survives compression: for coefficients below [2^25] in
    magnitude (what the six fractional bits leave of an [int32_t]) and every
    combination of block styles (raw coding of the lower planes, context reset,
    termination on each pass, vertically causal contexts, predictable termination,
    segmentation symbols), [Coder::compress] succeeds, and its bytes, cut by the pass
    lengths into segments and each segment into any non-empty buffers, make
    [Coder::decompress] return the coefficients.  The block's bytes fit the 16-bit pass
    rates, and some segment has bytes (the decoder skips a block without any).  The
    compressor's optional early stop ([earlyStopSlope], off by default), which leaves out
    passes, is not part of it. *)
Theorem block_roundtrip (w h tile_width : nat) (orientation cblksty : Z) (rc : bool) (tiledp : list Z) :
  (0 < w <= tile_width)%nat -> (0 < h)%nat ->
  Forall (fun c => Z.abs c < 2 ^ 25) (block_coefs w h tile_width tiledp) ->
  exists blk tiledp', Coder_compress w h tile_width orientation cblksty rc tiledp = Some (blk, tiledp') /\
    (Z.of_nat (length (ce_data blk)) <= 65530 ->
     forall segs, Forall2 seg_cut segs (cut_lengths (tail (ce_data blk)) 0 0 (ce_passes blk)) ->
       (ce_numbps blk = 0 \/ dataChunksEmpty segs = false) ->
       Coder_decompress w h orientation cblksty (ce_numbps blk) segs = Some (block_coefs w h tile_width tiledp)).
Proof.
  intros Hw Hh Hall. destruct (preCompress_spec w h tile_width tiledp Hw Hh Hall) as (pre & Epre & Edata & Hm & Hmax).
  set (coefs := block_coefs w h tile_width tiledp) in *. set (max := pc_maximum pre) in *.
  assert (length coefs = (w * h)%nat) as Hlen by (unfold coefs, block_coefs; by rewrite length_fmap, length_places).
  exists (compress_cblk w h orientation (pc_data pre) cblksty max rc), (pc_tiledp pre). split.
  { unfold Coder_compress. by rewrite Epre. }
  intros Hsize segs Hsegs Hne. rewrite Edata in *. destruct (block_numbps_spec max Hm) as [[E0 H0]|[Hn Hmx]].
  - unfold compress_cblk in *. rewrite E0 in *. unfold Coder_decompress, decompress_cblk.
    rewrite (proj2 (Nat.eqb_neq w 0)), (proj2 (Nat.eqb_neq h 0)) by lia. cbn. f_equal. rewrite <- Hlen. by apply (zero_coefs coefs max).
  - apply coded_block; try done; [lia|]. destruct Hne as [Hz|]; [|done].
    rewrite (proj1 (compress_segments _ _ _ _ _ _ _ Hm Hn)) in Hz. lia.
Qed.

(** Each segment in at most two buffers. *)
Definition two_bufs (x : list Z * nat) : list (list Z) * nat :=
  (match x.1 with [] => [] | [b1] => [[b1]] | b1 :: b2 => [[b1]; b2] end, x.2).
Lemma two_bufs_cut segs : Forall2 seg_cut (two_bufs <$> segs) segs.
Proof.
  induction segs as [|[bytes n] segs IH]; constructor; [|exact IH].
  destruct bytes as [|b1 [|b2 bytes]]; split_and!; try done; cbn; rewrite ?app_nil_r; try done;
    repeat (apply list.Forall_cons; split; [done|]); by apply Forall_nil_2.
Qed.

Definition example_tile : list Z := [5; -3; 0; 99; 1; 0; 77; 99; -6; 2; -1; 99; 0; 0; 0; 99; 3; -40; 9; 99].
Lemma block_roundtrip_witness :
  exists blk tiledp', Coder_compress 3 5 4 1 0x3f true example_tile = Some (blk, tiledp') /\
    Coder_decompress 3 5 1 0x3f (ce_numbps blk)
      (two_bufs <$> cut_lengths (tail (ce_data blk)) 0 0 (ce_passes blk)) =
    Some [5; -3; 0; 1; 0; 77; -6; 2; -1; 0; 0; 0; 3; -40; 9].
Proof.
  destruct (block_roundtrip 3 5 4 1 0x3f true example_tile) as (blk & tiledp' & E & H); [lia|lia| |].
  { repeat (apply list.Forall_cons; split; [reflexivity|]). apply Forall_nil_2. }
  exists blk, tiledp'. split; [exact E|].
  assert (length (ce_data blk) = 28%nat /\ dataChunksEmpty (two_bufs <$> cut_lengths (tail (ce_data blk)) 0 0 (ce_passes blk)) = false) as [E1 E2].
  { vm_compute in E. injection E as <- <-. split; reflexivity. }
  apply H; [rewrite E1; done|apply two_bufs_cut|by right].
Defined.

(** *** Termination of the pass loop *)

(** One pass for the first plane, three for each other. *)
Definition total_passes (numbps : Z) : Z := 3 * numbps - 2.

(** The passes from pass type [pt] of plane [b] on. *)
Definition passes_left (pt b : Z) : Z := if b <? 0 then 0 else 3 * b + 3 - pt.

Lemma passes_left_next pt b : 0 <= pt <= 2 -> 0 <= b -> passes_left pt b = passes_left (next_pass (pt, b)).1 (next_pass (pt, b)).2 + 1.
Proof. intros Hp Hb. unfold passes_left, next_pass. destruct (Z.eqb_spec (pt + 1) 3); cbn [fst snd]; zcases; lia. Qed.
Lemma next_pass_range pt b : 0 <= pt <= 2 -> 0 <= (next_pass (pt, b)).1 <= 2.
Proof. intros Hp. unfold next_pass. destruct (Z.eqb_spec (pt + 1) 3); cbn [fst]; lia. Qed.

Lemma loop_passes w h orientation data cblksty numbps fuel : forall extra pt b t es e, 0 <= pt <= 2 ->
  passes_left pt b <= Z.of_nat fuel ->
  let r := compress_loop w h orientation data cblksty fuel numbps pt b t es e in
  compress_loop w h orientation data cblksty (fuel + extra) numbps pt b t es e = r /\
  Z.of_nat (length r.1.1) = passes_left pt b.
Proof.
  induction fuel as [|fuel IH]; intros extra pt b t es e Hp Hf r; unfold r; clear r.
  all: destruct (Z_lt_le_dec b 0) as [Hb|Hb];
    [rewrite !loop_done by done; split; [done|]; unfold passes_left; rewrite (proj2 (Z.ltb_lt b 0)) by done; done|].
  - unfold passes_left in Hf. rewrite (proj2 (Z.ltb_ge b 0)) in Hf by done. lia.
  - cbn [Nat.add]. rewrite !loop_step by done. cbv zeta. cbn [fst snd length].
    rewrite (passes_left_next pt b) in Hf |- * by done.
    edestruct (IH extra (next_pass (pt, b)).1 (next_pass (pt, b)).2) as [-> IHl]; [by apply next_pass_range|lia|].
    split; [done|]. rewrite Nat2Z.inj_succ, IHl. lia.
Qed.

(** The fuel of the pass loop is enough: a block with [numbps] planes gets one pass for the
    first plane and three for each other, and no fuel beyond the [3 * numbps] of the
    definition changes what the loop returns.  The loop is that of the default parameters:
    with an [earlyStopSlope] it may stop before. *)
Lemma compress_loop_ends (w h : nat) (orientation : Z) (data : list Z) (cblksty numbps : Z) (extra : nat) (es : encst) (e : mqenc) :
  1 <= numbps ->
  let loop := fun fuel => compress_loop w h orientation data cblksty fuel numbps 2 (numbps - 1) false es e in
  loop (Z.to_nat (3 * numbps) + extra)%nat = loop (Z.to_nat (3 * numbps)) /\
  Z.of_nat (length (loop (Z.to_nat (3 * numbps))).1.1) = total_passes numbps.
Proof.
  intros Hn loop. assert (passes_left 2 (numbps - 1) = total_passes numbps) as E.
  { unfold passes_left, total_passes. rewrite (proj2 (Z.ltb_ge _ _)) by lia. lia. }
  rewrite <- E. apply loop_passes; unfold total_passes in E; lia.
Qed.

(** *** Rates *)

Definition lengths_sum (ps : list pass_enc) : Z := foldr (fun p n => pe_len p + n) 0 ps.

Lemma pass_rates mem ps : forall prev start l, 0 <= start -> nthZ 0 mem start <> 0xff -> start <= l < 65536 ->
  prev = rate_before_ff mem l -> rates_ok mem start ps -> rates_from l ps ->
  rates_from prev (pass_lengths mem prev ps) /\
  Forall (fun p => pe_rate p < 65536 /\ 0 <= pe_len p) (pass_lengths mem prev ps) /\
  prev + lengths_sum (pass_lengths mem prev ps) =
  from_option pe_rate prev (list.last (pass_lengths mem prev ps)).
Proof.
  induction ps as [|p ps IH]; intros prev start l H0 Hb Hl -> H Hf; [by cbn; rewrite Z.add_0_r|].
  destruct H as [Hp H], Hf as [Hlp Hf]. cbn [pass_lengths].
  change (if nthZ 0 mem (pe_rate p) =? 0xff then u16 (pe_rate p - 1) else pe_rate p) with (rate_before_ff mem (pe_rate p)).
  pose proof (rate_before_le mem start l H0 Hb Hl) as B1. pose proof (rate_before_le mem start (pe_rate p) H0 Hb Hp) as B2.
  pose proof (rate_before_mono mem start l (pe_rate p) H0 Hb (proj1 Hl) ltac:(lia)) as Hm.
  assert (exists start', 0 <= start' /\ nthZ 0 mem start' <> 0xff /\ start' <= pe_rate p /\ rates_ok mem start' ps) as (s' & S0 & S1 & S2 & S3).
  { destruct (pe_term p); [exists (pe_rate p)|exists start]; split_and!; try done; try lia; by apply H. }
  destruct (IH _ s' (pe_rate p) S0 S1 ltac:(lia) eq_refl S3 Hf) as (R1 & R2 & R3).
  rewrite (wrap_small 16) by (change (2 ^ 16) with 65536; lia). split_and!.
  - cbn [rates_from pe_rate]. split; [lia|done].
  - constructor; [cbn [pe_rate pe_len]; lia|done].
  - cbn [lengths_sum foldr pe_len]. set (tl := pass_lengths mem _ ps) in *.
    transitivity (rate_before_ff mem (pe_rate p) + lengths_sum tl); [unfold lengths_sum; lia|]. rewrite R3.
    destruct tl as [|p0 tl]; [done|]. rewrite last_cons_cons. destruct (list.last (p0 :: tl)) eqn:El; [done|]. by apply last_None in El.
Qed.

(** C24: the pass rates of a compressed block do not decrease, every length is the
    difference to the rate before it without wrapping around, and the lengths add up to
    the rate of the last pass, while the block's bytes fit the 16-bit rates and without the
    optional early stop. *)
Theorem compress_cblk_rates (w h : nat) (orientation : Z) (data : list Z) (cblksty max : Z) (rc : bool) :
  0 <= max < 2 ^ 31 ->
  let blk := compress_cblk w h orientation data cblksty max rc in
  Z.of_nat (length (ce_data blk)) <= 65530 ->
  rates_from 0 (ce_passes blk) /\ Forall (fun p => pe_rate p < 65536 /\ 0 <= pe_len p) (ce_passes blk) /\
  lengths_sum (ce_passes blk) = from_option pe_rate 0 (list.last (ce_passes blk)).
Proof.
  intros Hm blk Hsize. destruct (block_numbps_spec max Hm) as [[E _]|[Hn _]].
  { unfold blk, compress_cblk in *. by rewrite E in *. }
  pose proof (compress_eq w h orientation data cblksty max rc ltac:(lia)) as E. cbv zeta in E. fold blk in E.
  set (es := mkE _ _ _) in E. set (r := compress_loop _ _ _ _ _ _ _ _ _ _ _ _) in E.
  rewrite E in Hsize |- *. cbn [ce_data ce_passes] in *.
  destruct (loop_roundtrip w h orientation data cblksty _ es Hn eq_refl Hsize) as (H0 & [Hr Hl] & _). fold r in H0, Hr, Hl.
  destruct (increasing_rates_spec (data_ r.2) r.1.1 _ _ Hr Hl) as (H1 & H2 & H3 & _ & _).
  destruct (data_ r.2) as [|b mem] eqn:Emem; [done|]. injection H0 as ->.
  apply (pass_rates (0 :: mem) _ 0 0 0); try done; try lia.
  by apply (rates_from_le _ (increasing_rates (numbytes_enc r.2) r.1.1).2).
Qed.
Lemma compress_cblk_rates_witness :
  let blk := compress_cblk 2 2 0 [192; 0; 640; 64] 0 640 false in
  rates_from 0 (ce_passes blk) /\ lengths_sum (ce_passes blk) = from_option pe_rate 0 (list.last (ce_passes blk)).
Proof.
  destruct (compress_cblk_rates 2 2 0 [192; 0; 640; 64] 0 640 false) as (H1 & _ & H3); [lia|vm_compute; discriminate|].
  split; [exact H1|exact H3].
Defined.
