(* ===== verification/Wavelet.v ===== *)
(** The reversible 5/3 wavelet transform: wavelet/WaveletFwd.cpp, wavelet/WaveletReverse.cpp
    and the band geometry of canvas/resolution/ResSimple.h.

    A vector lane of the source is one line (a row or a column) here: lanes are loaded,
    lifted and stored side by side and never meet.  The buffer of a tile component is a
    list of rows.  The compressor transforms it in place, level by level; in whole-tile
    decompression every resolution, band and split window is attached to the same buffer
    at the places where the compressor left the bands, so the inverse works in place too. *)
From S2P Require Import Prelude Geometry.

(** ** Arithmetic of a lane *)

(** The operations a kernel is made of; [uf], [ul] are the updates at a reflection at the
    first and at the last sample. *)
Record lane := MkLane {
  add : Z -> Z -> Z;
  sub : Z -> Z -> Z;
  avg : Z -> Z -> Z;      (** [(a + b) >> 1] *)
  upd : Z -> Z -> Z;      (** [(a + b + 2) >> 2] *)
  uf : Z -> Z;
  ul : Z -> Z;
  wide : Z -> Z -> Z;     (** the sum that is clamped: an [int] in scalar code *)
}.

Definition add32 (a b : Z) : Z := i32 (a + b).
Definition sub32 (a b : Z) : Z := i32 (a - b).
Definition avg32 (a b : Z) : Z := Z.shiftr (add32 a b) 1.
Definition upd32 (a b : Z) : Z := Z.shiftr (add32 (add32 a b) 2) 2.

(** [(d + 1) >> 1], [(d + d + 2) >> 2] and [((d << 1) + 2) >> 2]. *)
Definition half_up32 (d : Z) : Z := Z.shiftr (add32 d 1) 1.
Definition quarter_twice32 (d : Z) : Z := upd32 d d.
Definition quarter_shift32 (d : Z) : Z := Z.shiftr (add32 (i32 (Z.shiftl d 1)) 2) 2.

(** The forward kernels, the scalar inverse kernels and the vectorised ones. *)
Definition fwd32 : lane := MkLane add32 sub32 avg32 upd32 quarter_shift32 quarter_shift32 add32.
Definition inv32 : lane := MkLane add32 sub32 avg32 upd32 half_up32 half_up32 add32.
Definition hwy32 : lane := MkLane add32 sub32 avg32 upd32 half_up32 quarter_twice32 add32.

(** 16-bit lanes, where [a + b] could overflow: averages without the sum. *)
Definition add16 (a b : Z) : Z := i16 (a + b).
Definition sub16 (a b : Z) : Z := i16 (a - b).
(** [AverageRound] of unsigned lanes has a 17-bit intermediate. *)
Definition AverageRound (a b : Z) : Z := Z.shiftr (a + b + 1) 1.
Definition update_avg_16_53 (a b : Z) : Z :=
  let u_sign := 0x8000 in
  let u_max := 0x7FFF in
  let a_u := Z.lxor (u16 a) u_sign in
  let b_biased := u16 (u16 b + u_max) in
  let avg := AverageRound a_u b_biased in
  let step := i16 (u16 (avg - u_max)) in
  Z.shiftr step 1.
Definition predict_avg_16_53 (a b : Z) : Z :=
  add16 (add16 (Z.shiftr a 1) (Z.shiftr b 1)) (Z.land (Z.land a b) 1).
(** Scalar 16-bit code computes in [int] and narrows when it stores. *)
Definition inv16 : lane :=
  MkLane add16 sub16 (fun a b => Z.shiftr (a + b) 1) (fun a b => Z.shiftr (a + b + 2) 2)
    (fun d => Z.shiftr (d + 1) 1) (fun d => Z.shiftr (d + 1) 1) Z.add.
Definition half_up16 (d : Z) : Z := Z.shiftr (add16 d 1) 1.
Definition hwy16 : lane :=
  MkLane add16 sub16 predict_avg_16_53 update_avg_16_53 half_up16 (fun d => update_avg_16_53 d d) add16.

(** ** Forward kernel (encode_53_v, encode_53_h) *)

Section forward.
Context (K : lane) (x : list Z).
Abbreviation at_ k := (nth k%nat x 0).

(** [for(; i + 1 < sn; i++)], even first sample. *)
Fixpoint encode_p0_loop (fuel sn i : nat) (s_i d_im1 : Z) (scratch : list Z) : nat * Z * Z * list Z :=
  match fuel with
  | O => (i, s_i, d_im1, scratch)
  | S fuel =>
      if (i + 1 <? sn)%nat then
        let s_ip1 := at_ (2 * (i + 1)) in
        let d_i := sub K (at_ (2 * i + 1)) (avg K s_i s_ip1) in
        let scratch := <[(2 * i + 1)%nat := d_i]> scratch in
        let s_ii := add K s_i (upd K d_im1 d_i) in
        let scratch := <[(2 * i)%nat := s_ii]> scratch in
        encode_p0_loop fuel sn (i + 1) s_ip1 d_i scratch
      else (i, s_i, d_im1, scratch)
  end.

Definition encode_p0 (sn dn : nat) (scratch : list Z) : list Z :=
  let s_0 := at_ 0 in
  let d_0 := at_ 1 in
  if (1 <? sn)%nat then
    let s_0p1 := at_ 2 in
    let d_0 := sub K d_0 (avg K s_0 s_0p1) in
    let scratch := <[1%nat := d_0]> scratch in
    let scratch := <[0%nat := add K s_0 (uf K d_0)]> scratch in
    let '(i, s_i, d_im1, scratch) := encode_p0_loop sn sn 1 s_0p1 d_0 scratch in
    if (dn =? sn)%nat then
      let d_i := sub K (at_ (2 * i + 1)) s_i in
      let scratch := <[(2 * i + 1)%nat := d_i]> scratch in
      <[(2 * i)%nat := add K (at_ (2 * i)) (upd K d_im1 d_i)]> scratch
    else <[(2 * i)%nat := add K (at_ (2 * i)) (ul K d_im1)]> scratch
  else if (sn =? dn)%nat then
    let d_0 := sub K d_0 s_0 in
    <[0%nat := add K s_0 (uf K d_0)]> (<[1%nat := d_0]> scratch)
  else scratch.

(** [for(; i < sn; i++)], odd first sample. *)
Fixpoint encode_p1_loop (fuel sn i : nat) (s_im1 d_im1 : Z) (scratch : list Z) : nat * Z * Z * list Z :=
  match fuel with
  | O => (i, s_im1, d_im1, scratch)
  | S fuel =>
      if (i <? sn)%nat then
        let s_i := at_ (2 * i + 1) in
        let d_i := sub K (at_ (2 * i)) (avg K s_i s_im1) in
        let scratch := <[(2 * i)%nat := d_i]> scratch in
        let s_iim1 := add K s_im1 (upd K d_im1 d_i) in
        let scratch := <[(2 * (i - 1) + 1)%nat := s_iim1]> scratch in
        encode_p1_loop fuel sn (i + 1) s_i d_i scratch
      else (i, s_im1, d_im1, scratch)
  end.

Definition encode_p1 (sn dn : nat) (scratch : list Z) : list Z :=
  let s_i := at_ 1 in
  let d_0 := sub K (at_ 0) s_i in
  let scratch := <[0%nat := d_0]> scratch in
  let '(i, s_im1, d_im1, scratch) := encode_p1_loop sn sn 1 s_i d_0 scratch in
  if (sn <? dn)%nat then
    let d_sn := sub K (at_ (2 * sn)) s_im1 in
    let scratch := <[(2 * sn)%nat := d_sn]> scratch in
    <[(2 * (dn - 2) + 1)%nat := add K (at_ (2 * (dn - 2) + 1)) (upd K d_im1 d_sn)]> scratch
  else <[(2 * (dn - 1) + 1)%nat := add K (at_ (2 * (dn - 1) + 1)) (ul K d_im1)]> scratch.

End forward.

(** [deinterleave_v], [deinterleave_h]: low samples first. *)
Definition deinterleave (src dst : list Z) (dn sn parity : nat) : list Z :=
  let low i := nth (2 * i + parity)%nat src 0 in
  let high i := nth (2 * i + (1 - parity))%nat src 0 in
  let m := Nat.min dn sn in
  let dst := foldl (fun dst i => <[(sn + i)%nat := high i]> (<[i := low i]> dst)) dst (seq 0 m) in
  if (m <? sn)%nat then <[m := low m]> dst
  else if (m <? dn)%nat then <[(sn + m)%nat := high m]> dst
  else dst.

(** The DC shift of the low-pass samples: [for(k = parity; k < height; k += 2)]. *)
Definition shift_low (K : lane) (dcShift : Z) (parity : nat) (scratch : list Z) : list Z :=
  if dcShift =? 0 then scratch
  else imap (fun k v => if Nat.even (k + parity) then sub K v dcShift else v) scratch.

(** The sizes of the bands of a line. *)
Definition low_size (n parity : nat) : nat := (n + (1 - parity)) / 2.

(** [encode_53_v]: a lone row carries the shift, and doubles when it is a high-pass row. *)
Definition encode_53 (K : lane) (parity : nat) (dcShift : Z) (x : list Z) : list Z :=
  let height := length x in
  if (height <=? 1)%nat then
    if (height =? 1)%nat && ((parity =? 1)%nat || negb (dcShift =? 0)) then
      let v := nth 0 x 0 in
      let v := if dcShift =? 0 then v else sub K v dcShift in
      [if (parity =? 1)%nat then i32 (Z.shiftl v 1) else v]
    else x
  else
    let sn := low_size height parity in
    let dn := (height - sn)%nat in
    let scratch := replicate height 0 in
    let scratch := if (parity =? 0)%nat then encode_p0 K x sn dn scratch else encode_p1 K x sn dn scratch in
    deinterleave (shift_low K dcShift parity scratch) x dn sn parity.

(** [encode_53_h]: the same sweep; a lone column takes the shift only when it doubles. *)
Definition encode_53_h (K : lane) (parity : nat) (dcShift : Z) (x : list Z) : list Z :=
  let width := length x in
  if (width <=? 1)%nat then
    if (parity =? 1)%nat && (width =? 1)%nat then
      let v := nth 0 x 0 in
      let v := if dcShift =? 0 then v else sub K v dcShift in
      [i32 (Z.shiftl v 1)]
    else x
  else
    let sn := low_size width parity in
    let dn := (width - sn)%nat in
    let scratch := replicate width 0 in
    let scratch := if (parity =? 0)%nat then encode_p0 K x sn dn scratch else encode_p1 K x sn dn scratch in
    deinterleave (shift_low K dcShift parity scratch) x dn sn parity.

(** ** Forward kernels of 16-bit lanes (encode_53_16_v, encode_53_16_h)

    The line is narrowed and split into its low samples [E] and its high samples [O], which
    are lifted in place and written back one after the other. *)

Definition narrow_even (parity sn : nat) (x : list Z) : list Z := (fun k => i16 (nth (2 * k + parity) x 0)) <$> seq 0 sn.
Definition narrow_odd (parity dn : nat) (x : list Z) : list Z := (fun k => i16 (nth (2 * k + (1 - parity)) x 0)) <$> seq 0 dn.

(** The neighbours [(el_idx, er_idx)] of a high sample, [(ol_idx, or_idx)] of a low one. *)
Definition predict_indices (parity sn k : nat) : nat * nat :=
  if (parity =? 0)%nat then (k, if (k + 1 <? sn)%nat then (k + 1)%nat else k)
  else (if (0 <? k)%nat then (k - 1)%nat else 0%nat, if (k <? sn)%nat then k else if (0 <? sn)%nat then (sn - 1)%nat else 0%nat).
Definition update_indices (parity dn k : nat) : nat * nat :=
  if (parity =? 0)%nat then (if (0 <? k)%nat then (k - 1)%nat else 0%nat, if (k <? dn)%nat then k else if (0 <? dn)%nat then (dn - 1)%nat else 0%nat)
  else (k, if (k + 1 <? dn)%nat then (k + 1)%nat else k).

Definition predict_v (parity sn : nat) (E O : list Z) : list Z :=
  imap (fun k ok =>
    let '(el_idx, er_idx) := predict_indices parity sn k in
    let el := nth el_idx E 0 in
    let er := nth er_idx E 0 in
    if (el_idx =? er_idx)%nat then sub16 ok el else sub16 ok (Z.shiftr (add16 el er) 1)) O.
Definition update_v (parity dn : nat) (E O : list Z) : list Z :=
  imap (fun k ek =>
    let '(ol_idx, or_idx) := update_indices parity dn k in
    add16 ek (update_avg_16_53 (nth ol_idx O 0) (nth or_idx O 0))) E.

Definition encode_53_16_v (parity : nat) (dcShift : Z) (x : list Z) : list Z :=
  let height := length x in
  if (height <=? 1)%nat then
    if (height =? 1)%nat && ((parity =? 1)%nat || negb (dcShift =? 0)) then
      let v := i16 (nth 0 x 0) in
      let v := if dcShift =? 0 then v else i16 (v - i16 dcShift) in
      [i16 (if (parity =? 1)%nat then i16 (Z.shiftl v 1) else v)]
    else x
  else
    let sn := low_size height parity in
    let dn := (height - sn)%nat in
    let E := narrow_even parity sn x in
    let O := narrow_odd parity dn x in
    let O := predict_v parity sn E O in
    let E := update_v parity dn E O in
    let E := if dcShift =? 0 then E else (fun v => sub16 v (i16 dcShift)) <$> E in
    E ++ O.

(** How many samples a loop over full vectors takes when [no_bdry] of them may be taken. *)
Definition in_vectors (lanes no_bdry : nat) : nat := (no_bdry / lanes * lanes)%nat.

(** Scalar arithmetic of the tails: [int] expressions, narrowed when stored. *)
Definition tail_predict (ok el er : Z) : Z := i16 (ok - (if el =? er then el else i16 (Z.shiftr (el + er) 1))).
Definition tail_update (ek ol or_ : Z) : Z := i16 (ek + Z.shiftr (ol + or_ + 2) 2).
Definition vector_predict (ok el er : Z) : Z := sub16 ok (Z.shiftr (add16 el er) 1).
Definition vector_update (ek ol or_ : Z) : Z := add16 ek (update_avg_16_53 ol or_).

(** [O] lies behind [E] in the scratch buffer, and the vectors of the odd case read [E + k]
    up to and including [no_bdry]: there [E] runs into [O], whose first sample is lifted. *)
Definition predict_h (lanes parity sn dn : nat) (E O : list Z) : list Z :=
  if (parity =? 0)%nat then
    let bulk := in_vectors lanes (Nat.min dn (sn - 1)) in
    imap (fun k ok =>
      if (k <? bulk)%nat then vector_predict ok (nth k E 0) (nth (k + 1) E 0)
      else tail_predict ok (nth k E 0) (if (k + 1 <? sn)%nat then nth (k + 1) E 0 else nth k E 0)) O
  else
    let no_bdry := if (0 <? sn)%nat && (1 <? dn)%nat then Nat.min (dn - 1) sn else 0%nat in
    let bulk := in_vectors lanes no_bdry in
    let O := if (0 <? dn)%nat then <[0%nat := i16 (nth 0 O 0 - nth 0 E 0)]> O else O in
    let mem := E ++ O in
    imap (fun k ok =>
      if (k =? 0)%nat then ok
      else if (k <? 1 + bulk)%nat then vector_predict ok (nth (k - 1) mem 0) (nth k mem 0)
      else tail_predict ok (nth (k - 1) E 0) (if (k <? sn)%nat then nth k E 0 else nth (if (0 <? sn)%nat then sn - 1 else 0)%nat E 0)) O.

Definition update_h (lanes parity sn dn : nat) (E O : list Z) : list Z :=
  if (parity =? 0)%nat then
    let bulk := in_vectors lanes (Nat.min sn dn - 1) in
    imap (fun k ek =>
      if (k =? 0)%nat then
        if (0 <? sn)%nat && (0 <? dn)%nat then i16 (ek + update_avg_16_53 (nth 0 O 0) (nth 0 O 0)) else ek
      else if (k <? 1 + bulk)%nat then vector_update ek (nth (k - 1) O 0) (nth k O 0)
      else tail_update ek (nth (k - 1) O 0) (if (k <? dn)%nat then nth k O 0 else nth (if (0 <? dn)%nat then dn - 1 else 0)%nat O 0)) E
  else
    let no_bdry := if (0 <? sn)%nat && (1 <? dn)%nat then Nat.min (sn - 1) (dn - 1) else 0%nat in
    let bulk := in_vectors lanes no_bdry in
    imap (fun k ek =>
      if (k <? bulk)%nat then vector_update ek (nth k O 0) (nth (k + 1) O 0)
      else tail_update ek (nth k O 0) (if (k + 1 <? dn)%nat then nth (k + 1) O 0 else nth k O 0)) E.

Definition encode_53_16_h (lanes parity : nat) (x : list Z) : list Z :=
  let width := length x in
  if (width <=? 1)%nat then
    if (parity =? 1)%nat && (width =? 1)%nat then [i32 (Z.shiftl (nth 0 x 0) 1)] else x
  else
    let sn := low_size width parity in
    let dn := (width - sn)%nat in
    let E := narrow_even parity sn x in
    let O := predict_h lanes parity sn dn E (narrow_odd parity dn x) in
    update_h lanes parity sn dn E O ++ O.

(** ** Inverse kernels *)

Section inverse.
Context (K : lane) (bandL bandH : list Z) (n : nat).
Abbreviation L k := (nth k%nat bandL 0).
Abbreviation H k := (nth k%nat bandH 0).

(** [for(; i < (width - 3); i += 2, j++)]. *)
Fixpoint p0_loop (fuel i j : nat) (s0n d1n : Z) (scratch : list Z) : nat * Z * Z * list Z :=
  match fuel with
  | O => (i, s0n, d1n, scratch)
  | S fuel =>
      if (i <? n - 3)%nat then
        let d1c := d1n in
        let s0c := s0n in
        let s1n := L j in
        let d1n := H j in
        let s0n := sub K s1n (upd K d1c d1n) in
        let scratch := <[i := s0c]> scratch in
        let scratch := <[(i + 1)%nat := add K d1c (avg K s0c s0n)]> scratch in
        p0_loop fuel (i + 2) (j + 1) s0n d1n scratch
      else (i, s0n, d1n, scratch)
  end.
Definition decode_p0 (scratch : list Z) : list Z :=
  let s1n := L 0 in
  let d1n := H 0 in
  let s0n := sub K s1n (uf K d1n) in
  let '(i, s0n, d1n, scratch) :=
    if (2 <? n)%nat then p0_loop n 0 1 s0n d1n scratch else (0%nat, s0n, d1n, scratch) in
  let scratch := <[i := s0n]> scratch in
  if Nat.odd n then
    let last := sub K (L ((n - 1) / 2)) (ul K d1n) in
    let scratch := <[(n - 1)%nat := last]> scratch in
    <[(n - 2)%nat := add K d1n (avg K s0n last)]> scratch
  else <[(n - 1)%nat := add K d1n s0n]> scratch.

(** [for(; i < (width - 2 - !(width & 1)); i += 2, j++)]. *)
Fixpoint p1_loop (fuel i j : nat) (s0c d1c : Z) (scratch : list Z) : nat * Z * Z * list Z :=
  match fuel with
  | O => (i, s0c, d1c, scratch)
  | S fuel =>
      if (i <? n - 2 - (if Nat.odd n then 0 else 1))%nat then
        let d1n := H (j + 1) in
        let s0n := sub K (L j) (upd K d1c d1n) in
        let scratch := <[i := s0c]> scratch in
        let scratch := <[(i + 1)%nat := add K d1c (avg K s0n s0c)]> scratch in
        p1_loop fuel (i + 2) (j + 1) s0n d1n scratch
      else (i, s0c, d1c, scratch)
  end.
Definition decode_p1 (scratch : list Z) : list Z :=
  let d1c := H 1 in
  let s0c := sub K (L 0) (upd K (H 0) d1c) in
  let scratch := <[0%nat := add K (H 0) s0c]> scratch in
  let '(i, s0c, d1c, scratch) := p1_loop n 1 1 s0c d1c scratch in
  let scratch := <[i := s0c]> scratch in
  if negb (Nat.odd n) then
    let sn := sub K (L (n / 2 - 1)) (ul K d1c) in
    let scratch := <[(n - 2)%nat := add K d1c (avg K sn s0c)]> scratch in
    <[(n - 1)%nat := sn]> scratch
  else <[(n - 1)%nat := add K d1c s0c]> scratch.

End inverse.

(** [load_h_53] for a row; [v_53] for a column: the bands are the two parts of the line. *)
Definition decode_53 (K : lane) (parity sn : nat) (y : list Z) : list Z :=
  let n := length y in
  let bandL := take sn y in
  let bandH := drop sn y in
  let scratch := replicate n 0 in
  if (n =? 0)%nat then y
  else if (parity =? 0)%nat then
    if (1 <? n)%nat then decode_p0 K bandL bandH n scratch else [nth 0 y 0]
  else if (n =? 1)%nat then [Z.shiftr (nth 0 y 0) 1]
  else if (n =? 2)%nat then
    let s0 := sub K (nth 0 bandL 0) (uf K (nth 0 bandH 0)) in
    [add K (nth 0 bandH 0) s0; s0]
  else decode_p1 K bandL bandH n scratch.

(** The kernels by their names: one sweep each, in the arithmetic of their lanes. *)
Definition run (sweep : list Z -> list Z -> nat -> list Z -> list Z) (bandL bandH : list Z) (n : nat) : list Z :=
  sweep bandL bandH n (replicate n 0).
Definition load_h_p0_53 := run (decode_p0 inv32).
Definition load_h_p1_53 := run (decode_p1 inv32).
Definition v_p0_53 := run (decode_p0 inv32).
Definition v_p1_53 := run (decode_p1 inv32).
Definition hwy_v_p0_53 := run (decode_p0 hwy32).
Definition hwy_v_p1_53 := run (decode_p1 hwy32).
Definition load_h_p0_16_53 := run (decode_p0 inv16).
Definition load_h_p1_16_53 := run (decode_p1 inv16).
Definition v_p0_16_53 := run (decode_p0 inv16).
Definition v_p1_16_53 := run (decode_p1 inv16).
Definition hwy_v_p0_16_53 := run (decode_p0 hwy16).
Definition hwy_v_p1_16_53 := run (decode_p1 hwy16).

(** The DC shift of the last level, with its clamp: [v_53] on scalar columns, and
    [hwy_v_final_store_53] on vectors of columns, which looks at the bounds. *)
Record DcShiftParam := MkDc { dc_enabled : bool; dc_shift : Z; dc_min : Z; dc_max : Z }.
Definition no_dc : DcShiftParam := MkDc false 0 0 0.
Definition clamp (v lo hi : Z) : Z := if v <? lo then lo else if hi <? v then hi else v.
Definition dc_value (dc : DcShiftParam) : Z := if dc_enabled dc then dc_shift dc else 0.
Definition dc_line (K : lane) (dc : DcShiftParam) (line : list Z) : list Z :=
  (fun v => clamp (wide K v (dc_value dc)) (dc_min dc) (dc_max dc)) <$> line.
Definition scalar_store (K : lane) (dc : DcShiftParam) (line : list Z) : list Z :=
  if dc_enabled dc then dc_line K dc line else line.
Definition hwy_v_final_store (K : lane) (dc : DcShiftParam) (line : list Z) : list Z :=
  if negb (dc_value dc =? 0) || negb (dc_min dc =? dc_max dc) then dc_line K dc line else line.

(** The kernels of a width: one for rows and scalar columns, one for vectors of columns. *)
Record kernels := MkKernels { scalar : lane; vector : lane }.
Definition kernels_53 : kernels := MkKernels inv32 hwy32.
Definition kernels_16_53 : kernels := MkKernels inv16 hwy16.

(** [v_53], [v_16_53] for one column, which is part of a vector or not.  Two samples of an
    odd line are summed and shifted in one expression. *)
Definition v_53 (KS : kernels) (vec : bool) (parity sn : nat) (dc : DcShiftParam) (y : list Z) : list Z :=
  let n := length y in
  let K := scalar KS in
  if vec && (if parity =? 0 then 1 <? n else 2 <? n)%nat
  then hwy_v_final_store (vector KS) dc (decode_53 (vector KS) parity sn y)
  else if (negb (parity =? 0) && (n =? 2))%nat && dc_enabled dc then
    let h0 := nth 0 (drop sn y) 0 in
    let s0 := sub K (nth 0 (take sn y) 0) (uf K h0) in
    [clamp (wide K (wide K h0 s0) (dc_value dc)) (dc_min dc) (dc_max dc);
     clamp (wide K s0 (dc_value dc)) (dc_min dc) (dc_max dc)]
  else scalar_store K dc (decode_53 K parity sn y).

(** ** Levels *)

(** The first [rh] rows and [rw] columns of the tile buffer: [f] on each row, on each column. *)
Definition on_prefix (n : nat) (f : list Z -> list Z) (line : list Z) : list Z :=
  f (take n line) ++ drop n line.
Definition on_rows (rw rh : nat) (f : list Z -> list Z) (buf : list (list Z)) : list (list Z) :=
  imap (fun j row => if (j <? rh)%nat then on_prefix rw f row else row) buf.
Definition column (i : nat) (buf : list (list Z)) : list Z := (fun row => nth i row 0) <$> buf.
Definition set_column (i : nat) (col : list Z) (buf : list (list Z)) : list (list Z) :=
  zip_with (fun row v => <[i := v]> row) buf col.
Definition on_columns (rw rh : nat) (f : nat -> list Z -> list Z) (buf : list (list Z)) : list (list Z) :=
  foldl (fun buf i => set_column i (on_prefix rh (f i) (column i buf)) buf) buf (seq 0 rw).

(** A resolution of the tile component ([ResSimple::getBandWindow] with orientation 0). *)
Definition bandCoordinate (coordinate numDecomps high : Z) : Z :=
  if numDecomps =? 0 then coordinate
  else
    let offset := u32 (u32 (Z.shiftl 1 (numDecomps - 1)) * high) in
    if coordinate <=? offset then 0 else ceildivpow2 32 (u32 (coordinate - offset)) numDecomps.
Definition getBandWindow (numDecompsX numDecompsY orientation : Z) (tc : Rect) : Rect :=
  let highX := Z.land orientation 1 in
  let highY := Z.shiftr orientation 1 in
  mkRect (bandCoordinate (origin_x0 tc) numDecompsX highX) (bandCoordinate (origin_y0 tc) numDecompsY highY)
    (bandCoordinate (x0 tc) numDecompsX highX) (bandCoordinate (y0 tc) numDecompsY highY)
    (bandCoordinate (x1 tc) numDecompsX highX) (bandCoordinate (y1 tc) numDecompsY highY).
(** The resolution with [d] decompositions left to undo. *)
Definition resolution (tc : Rect) (d : nat) : Rect := getBandWindow (Z.of_nat d) (Z.of_nat d) 0 tc.

Definition rect_w (r : Rect) : nat := Z.to_nat (u32 (x1 r - x0 r)).
Definition rect_h (r : Rect) : nat := Z.to_nat (u32 (y1 r - y0 r)).
Definition parity_row (r : Rect) : nat := Z.to_nat (Z.land (x0 r) 1).
Definition parity_col (r : Rect) : nat := Z.to_nat (Z.land (y0 r) 1).

(** The vertical pass, which takes the DC shift, and the horizontal pass of a forward transform. *)
Record forward := MkForward { encode_v : nat -> Z -> list Z -> list Z; encode_h : nat -> list Z -> list Z }.
Definition forward_53 : forward := MkForward (encode_53 fwd32) (fun parity => encode_53_h fwd32 parity 0).
Definition forward_53_16 (lanes : nat) : forward := MkForward encode_53_16_v (encode_53_16_h lanes).

(** One pass of [while(i--)] in [encode] and in [encode_53_16]: vertical, then horizontal. *)
Definition encode_level (F : forward) (res : Rect) (dcShift : Z) (buf : list (list Z)) : list (list Z) :=
  let rw := rect_w res in
  let rh := rect_h res in
  let buf := on_columns rw rh (fun _ => encode_v F (parity_col res) dcShift) buf in
  on_rows rw rh (encode_h F (parity_row res)) buf.

(** The levels from the finest one ([d] = 0), the DC shift in the first. *)
Fixpoint encode_levels (F : forward) (tc : Rect) (levels d : nat) (dcShift : Z) (buf : list (list Z)) : list (list Z) :=
  match levels with
  | O => buf
  | S levels => encode_levels F tc levels (S d) 0 (encode_level F (resolution tc d) dcShift buf)
  end.
Definition encode (F : forward) (tc : Rect) (num_resolutions : nat) (dcShift : Z) (buf : list (list Z)) : list (list Z) :=
  encode_levels F tc (num_resolutions - 1) 0 dcShift buf.

(** [encode_53_16]: the levels in 16-bit lanes. *)
Definition encode_53_16 (lanes : nat) : Rect -> nat -> Z -> list (list Z) -> list (list Z) := encode (forward_53_16 lanes).

(** One resolution of [tile_53]: horizontal, then vertical.  [vec i] says whether column
    [i] falls into a full vector of columns ([column_in_vector] below). *)
Definition decode_level (KS : kernels) (vec : nat -> bool) (low res : Rect) (dc : DcShiftParam) (buf : list (list Z)) :
    list (list Z) :=
  let resWidth := rect_w res in
  let resHeight := rect_h res in
  if ((resWidth =? 0) || (resHeight =? 0))%nat then buf
  else
    let buf := on_rows resWidth resHeight (decode_53 (scalar KS) (parity_row res) (rect_w low)) buf in
    on_columns resWidth resHeight (fun i => v_53 KS (vec i) (parity_col res) (rect_h low) dc) buf.

(** [for(res = 1; res < numres_; ++res)]: [d] decompositions are left after the level. *)
Fixpoint decode_levels (KS : kernels) (vec : nat -> nat -> bool) (tc : Rect) (dc : DcShiftParam) (d : nat)
    (buf : list (list Z)) : list (list Z) :=
  let buf := decode_level KS (vec d) (resolution tc (S d)) (resolution tc d) (if (d =? 0)%nat then dc else no_dc) buf in
  match d with
  | O => buf
  | S d => decode_levels KS vec tc dc d buf
  end.
Definition tile_53 (KS : kernels) (vec : nat -> nat -> bool) (tc : Rect) (numres : nat) (dc : DcShiftParam)
    (buf : list (list Z)) : list (list Z) :=
  if (numres <=? 1)%nat then buf else decode_levels KS vec tc dc (numres - 2) buf.

(** ** The transform of a component *)

(** The range of the samples and the shift of the level, as the schedulers and
    [Mct::genShift] compute them. *)
Definition sample_min (sgnd : bool) (prec : Z) : Z := if sgnd then i32 (- i32 (Z.shiftl 1 (prec - 1))) else 0.
Definition sample_max (sgnd : bool) (prec : Z) : Z :=
  if sgnd then i32 (i32 (Z.shiftl 1 (prec - 1)) - 1) else i32 (i32 (Z.shiftl 1 prec) - 1).

(** The level shift of a component that does not set its own. *)
Definition default_dc_shift (sgnd : bool) (prec : Z) : Z := if sgnd then 0 else i32 (Z.shiftl 1 (prec - 1)).

(** The shift is fused into the wavelet when there is one; the colour transform does it
    for its own components.  A zero shift still clamps when decompressing. *)
Definition decompress_dc (isMctComp sgnd : bool) (prec dcLevelShift : Z) (numRes : nat) : DcShiftParam :=
  let fuseDcShift := (1 <? numRes)%nat in
  if fuseDcShift && negb isMctComp then MkDc true dcLevelShift (sample_min sgnd prec) (sample_max sgnd prec) else no_dc.
Definition compress_dc (isMctComp sgnd : bool) (prec dcLevelShift : Z) (num_resolutions : nat) : DcShiftParam :=
  if (1 <? num_resolutions)%nat && negb isMctComp
  then MkDc (negb (dcLevelShift =? 0)) dcLevelShift (sample_min sgnd prec) (sample_max sgnd prec) else no_dc.

(** [WaveletFwdImpl::compress], reversible. *)
Definition compress_53 (is16BitDwt : bool) (lanes : nat) (tc : Rect) (num_resolutions : nat) (dcShift : DcShiftParam)
    (buf : list (list Z)) : list (list Z) :=
  if is16BitDwt then encode_53_16 lanes tc num_resolutions (dc_value dcShift) buf
  else encode forward_53 tc num_resolutions (dc_value dcShift) buf.
(** The columns are shared out to [num_threads] tasks ([v_53] of a resolution), and each task
    takes vectors of [pll] columns while it can ([v_strip_53]). *)
Definition column_in_vector (pll num_threads resWidth i : nat) : bool :=
  let numTasks := if (resWidth <? num_threads)%nat then resWidth else num_threads in
  let widthIncr := (resWidth / numTasks)%nat in
  let j := Nat.min (i / widthIncr) (numTasks - 1) in
  let wMin := (j * widthIncr)%nat in
  let wMax := if (j <? numTasks - 1)%nat then ((j + 1) * widthIncr)%nat else resWidth in
  (wMin + (i - wMin) / pll * pll + pll <=? wMax)%nat.

(** [WaveletReverse::decompress] for a whole tile, reversible; 16-bit columns narrow the shift ([tile_16_53]). *)
Definition narrow_dc (dc : DcShiftParam) : DcShiftParam := MkDc (dc_enabled dc) (i16 (dc_shift dc)) (i16 (dc_min dc)) (i16 (dc_max dc)).
Definition tile_16_53 (vec : nat -> nat -> bool) (tc : Rect) (numres : nat) (dcShift : DcShiftParam) : list (list Z) -> list (list Z) :=
  tile_53 kernels_16_53 vec tc numres (narrow_dc dcShift).
Definition decompress_53 (is16BitDwt : bool) (pll num_threads : nat) (tc : Rect) (numres : nat) (dcShift : DcShiftParam)
    (buf : list (list Z)) : list (list Z) :=
  let vec d := column_in_vector pll num_threads (rect_w (resolution tc d)) in
  if is16BitDwt then tile_16_53 vec tc numres dcShift buf
  else tile_53 kernels_53 vec tc numres dcShift buf.

(** The width of the lanes ([grk_get_data_type]). *)
Inductive grk_data_type := GRK_INT_32 | GRK_INT_16.
Definition grk_get_data_type (compress : bool) (prec : Z) (is_mct : bool) (qmfbid : Z) : grk_data_type :=
  let select recommended := if recommended <=? 16 then GRK_INT_16 else GRK_INT_32 in
  if qmfbid =? 1 then
    let recommended := prec + (if is_mct then 5 else 4) in
    select (if 16 <? recommended then recommended + 1 else recommended)
  else if compress && is_mct then GRK_INT_32
  else select (prec + 8).
