(* ===== verification/WaveletLines.v ===== *)
(** One line through the 5/3 kernels.

    The kernels of Wavelet.v compute lines in one sweep, with the boundary cases unrolled.
    Here each is shown to compute, sample by sample, the lifting steps of the standard
    with whole-sample symmetric extension; then the inverse undoes the forward lifting. *)
From S2P Require Import Prelude Geometry Wavelet.

(** ** Filling a line *)

(** The line with the samples [f 0], ..., [f (n - 1)]. *)
Definition tab (f : nat -> Z) (n : nat) : list Z := f <$> seq 0 n.
Lemma length_tab f n : length (tab f n) = n.
Proof. unfold tab. by rewrite length_fmap, length_seq. Qed.
Lemma lookup_tab f n k : (k < n)%nat -> tab f n !! k = Some (f k).
Proof. intros Hk. unfold tab. by rewrite list_lookup_fmap, lookup_seq_lt by done. Qed.
Lemma nth_tab f n k : (k < n)%nat -> nth k (tab f n) 0 = f k.
Proof. intros Hk. by rewrite nth_lookup, lookup_tab. Qed.
Lemma tab_eq l f n : length l = n -> (forall k, (k < n)%nat -> l !! k = Some (f k)) -> l = tab f n.
Proof.
  intros Hl H. apply list_eq. intros k. destruct (Nat.lt_ge_cases k n) as [Hk|Hk].
  - by rewrite H, lookup_tab.
  - rewrite !lookup_ge_None_2; [done|by rewrite length_tab|by rewrite Hl].
Qed.
Lemma tab_ext f g n : (forall k, (k < n)%nat -> f k = g k) -> tab f n = tab g n.
Proof. intros H. apply tab_eq; [apply length_tab|]. intros k Hk. by rewrite lookup_tab, H. Qed.
Lemma tab_nth l : tab (fun k => nth k l 0) (length l) = l.
Proof.
  symmetry. apply tab_eq; [done|]. intros k Hk. rewrite nth_lookup.
  by destruct (lookup_lt_is_Some_2 l k Hk) as [v ->].
Qed.

(** A line of [n] samples whose samples below [m] are those of [f]. *)
Definition upto (f : nat -> Z) (n m : nat) (l : list Z) : Prop :=
  length l = n /\ forall k, (k < m)%nat -> l !! k = Some (f k).

Lemma upto_all f n m l : upto f n m l -> (n <= m)%nat -> l = tab f n.
Proof. intros [Hl H] Hm. apply tab_eq; [done|]. intros k Hk. apply H. lia. Qed.
(** Two samples at a time, in either order. *)
Lemma upto_two f n m l i j a b : upto f n m l -> (m + 2 <= n)%nat ->
  (i = m /\ j = S m \/ i = S m /\ j = m)%nat -> a = f i -> b = f j ->
  upto f n (m + 2) (<[j := b]> (<[i := a]> l)).
Proof.
  intros [Hl H] Hm Hij -> ->. split; [by rewrite !length_insert|]. intros k Hk.
  destruct (decide (k = j)) as [->|Hkj]; [by rewrite list_lookup_insert_eq by (rewrite length_insert; lia)|].
  rewrite list_lookup_insert_ne by done.
  destruct (decide (k = i)) as [->|Hki]; [by rewrite list_lookup_insert_eq by lia|].
  rewrite list_lookup_insert_ne by done. apply H. lia.
Qed.
Lemma upto_one f n m l a : upto f n m l -> (m < n)%nat -> a = f m -> upto f n (S m) (<[m := a]> l).
Proof.
  intros [Hl H] Hm ->. split; [by rewrite length_insert|]. intros k Hk.
  destruct (decide (k = m)) as [->|Hkm]; [by rewrite list_lookup_insert_eq by lia|].
  rewrite list_lookup_insert_ne by done. apply H. lia.
Qed.

Lemma half_even i : (2 * i / 2 = i)%nat.
Proof. rewrite Nat.mul_comm. by apply Nat.div_mul. Qed.
Lemma half_odd i : ((2 * i + 1) / 2 = i)%nat.
Proof. symmetry. apply (Nat.div_unique _ _ _ 1); lia. Qed.
Lemma even_twice i : Nat.even (2 * i) = true.
Proof. by rewrite Nat.even_mul. Qed.
Lemma even_odd i : Nat.even (2 * i + 1) = false.
Proof. by rewrite Nat.even_add, Nat.even_mul. Qed.

(** A line given by its even and its odd samples. *)
Definition zip2 (e o : nat -> Z) (k : nat) : Z := if Nat.even k then e (k / 2)%nat else o (k / 2)%nat.
Lemma zip2_even e o i k : k = (2 * i)%nat -> zip2 e o k = e i.
Proof. intros ->. unfold zip2. by rewrite even_twice, half_even. Qed.
Lemma zip2_odd e o i k : k = (2 * i + 1)%nat -> zip2 e o k = o i.
Proof. intros ->. unfold zip2. by rewrite even_odd, half_odd. Qed.

(** ** The kernels, sample by sample *)

Section forward.
Context (K : lane) (x : list Z) (sn dn : nat).
Abbreviation X k := (nth k%nat x 0).

(** Even first sample. *)
Definition hP0 (i : nat) : Z :=
  if (i + 1 <? sn)%nat then sub K (X (2 * i + 1)) (avg K (X (2 * i)) (X (2 * (i + 1)))) else sub K (X (2 * i + 1)) (X (2 * i)).
Definition lP0 (i : nat) : Z :=
  if (i =? 0)%nat then add K (X 0) (uf K (hP0 0))
  else if (i <? dn)%nat then add K (X (2 * i)) (upd K (hP0 (i - 1)) (hP0 i))
  else add K (X (2 * i)) (ul K (hP0 (i - 1))).

Lemma encode_p0_loop_spec n fuel : forall i l, (1 <= i < sn)%nat -> (sn - i <= fuel)%nat -> (sn <= dn + 1)%nat ->
  n = (sn + dn)%nat -> upto (zip2 lP0 hP0) n (2 * i) l ->
  exists l', encode_p0_loop K x fuel sn i (X (2 * i)) (hP0 (i - 1)) l = ((sn - 1)%nat, X (2 * (sn - 1)), hP0 (sn - 2), l') /\
    upto (zip2 lP0 hP0) n (2 * (sn - 1)) l'.
Proof.
  induction fuel as [|fuel IH]; intros i l Hi Hf Hd Hn Hl; [lia|]. cbn [encode_p0_loop].
  destruct (Nat.ltb_spec (i + 1) sn) as [H|H].
  - assert (sub K (X (2 * i + 1)) (avg K (X (2 * i)) (X (2 * (i + 1)))) = hP0 i) as ->.
    { unfold hP0. by rewrite (proj2 (Nat.ltb_lt _ _) H). }
    assert (add K (X (2 * i)) (upd K (hP0 (i - 1)) (hP0 i)) = lP0 i) as ->.
    { unfold lP0. rewrite (proj2 (Nat.eqb_neq i 0)), (proj2 (Nat.ltb_lt i dn)) by lia. done. }
    specialize (IH (i + 1)%nat). replace (i + 1 - 1)%nat with i in IH by lia.
    apply IH; try lia. replace (2 * (i + 1))%nat with (2 * i + 2)%nat by lia.
    apply upto_two; [done|lia|right; lia| |].
    + by rewrite (zip2_odd _ _ i).
    + by rewrite (zip2_even _ _ i).
  - assert (i = sn - 1)%nat as -> by lia. exists l. replace (sn - 1 - 1)%nat with (sn - 2)%nat by lia. done.
Qed.

Lemma encode_p0_spec n : (2 <= n)%nat -> n = (sn + dn)%nat -> (dn <= sn <= dn + 1)%nat ->
  encode_p0 K x sn dn (replicate n 0) = tab (zip2 lP0 hP0) n.
Proof.
  intros H2 Hn Hd. unfold encode_p0.
  assert (upto (zip2 lP0 hP0) n 0 (replicate n 0)) as H0 by (split; [apply length_replicate|intros; lia]).
  destruct (Nat.ltb_spec 1 sn) as [H|H].
  - assert (sub K (X 1) (avg K (X 0) (X 2)) = hP0 0) as ->.
    { unfold hP0. by rewrite (proj2 (Nat.ltb_lt _ _)) by lia. }
    assert (add K (X 0) (uf K (hP0 0)) = lP0 0) as -> by done.
    destruct (encode_p0_loop_spec n sn 1 (<[0%nat := lP0 0]> (<[1%nat := hP0 0]> (replicate n 0)))) as (l' & E & Hl);
      [lia|lia|lia|done| |].
    { apply (upto_two _ n 0); [done|lia|right; lia|done|done]. }
    change (2 * 1)%nat with 2%nat in E. change (1 - 1)%nat with 0%nat in E. rewrite E. clear E.
    destruct (Nat.eqb_spec dn sn) as [Hs|Hs].
    + assert (sub K (X (2 * (sn - 1) + 1)) (X (2 * (sn - 1))) = hP0 (sn - 1)) as ->.
      { unfold hP0. by rewrite (proj2 (Nat.ltb_ge _ _)) by lia. }
      apply (upto_all _ _ (2 * (sn - 1) + 2)); [|lia]. apply upto_two; [done|lia|right; lia| |].
      * by rewrite (zip2_odd _ _ (sn - 1)).
      * rewrite (zip2_even _ _ (sn - 1)) by done. unfold lP0.
        rewrite (proj2 (Nat.eqb_neq (sn - 1) 0)), (proj2 (Nat.ltb_lt (sn - 1) dn)) by lia.
        by replace (sn - 1 - 1)%nat with (sn - 2)%nat by lia.
    + apply (upto_all _ _ (S (2 * (sn - 1)))); [|lia]. apply upto_one; [done|lia|].
      rewrite (zip2_even _ _ (sn - 1)) by done. unfold lP0.
      rewrite (proj2 (Nat.eqb_neq (sn - 1) 0)), (proj2 (Nat.ltb_ge (sn - 1) dn)) by lia.
      by replace (sn - 1 - 1)%nat with (sn - 2)%nat by lia.
  - rewrite (proj2 (Nat.eqb_eq sn dn)) by lia. apply (upto_all _ _ 2); [|lia].
    assert (sub K (X 1) (X 0) = hP0 0) as ->. { unfold hP0. by rewrite (proj2 (Nat.ltb_ge _ _)) by lia. }
    apply (upto_two _ n 0); [done|lia|right; lia|done|done].
Qed.

(** Odd first sample. *)
Definition hP1 (i : nat) : Z :=
  if (i =? 0)%nat then sub K (X 0) (X 1)
  else if (i <? sn)%nat then sub K (X (2 * i)) (avg K (X (2 * i + 1)) (X (2 * (i - 1) + 1)))
  else sub K (X (2 * i)) (X (2 * (i - 1) + 1)).
Definition lP1 (i : nat) : Z :=
  if (i + 1 <? dn)%nat then add K (X (2 * i + 1)) (upd K (hP1 i) (hP1 (i + 1)))
  else add K (X (2 * i + 1)) (ul K (hP1 i)).

(** After [i] high samples the low sample before the last of them is still to come. *)
Definition upto_but (n i : nat) (l : list Z) : Prop :=
  length l = n /\ forall k, (k < 2 * i - 1)%nat -> l !! k = Some (zip2 hP1 lP1 k).

Lemma upto_but_two n i l a b : upto_but n i l -> (1 <= i)%nat -> (2 * i < n)%nat -> a = hP1 i -> b = lP1 (i - 1) ->
  upto_but n (i + 1) (<[(2 * (i - 1) + 1)%nat := b]> (<[(2 * i)%nat := a]> l)).
Proof.
  intros [Hl H] Hi Hn -> ->. split; [by rewrite !length_insert|]. intros k Hk.
  destruct (decide (k = 2 * (i - 1) + 1)%nat) as [->|Hk1].
  { rewrite list_lookup_insert_eq by (rewrite length_insert; lia). by rewrite (zip2_odd _ _ (i - 1)). }
  rewrite list_lookup_insert_ne by done. destruct (decide (k = 2 * i)%nat) as [->|Hk2].
  { rewrite list_lookup_insert_eq by lia. by rewrite (zip2_even _ _ i). }
  rewrite list_lookup_insert_ne by done. apply H. lia.
Qed.

Lemma encode_p1_loop_spec n fuel : forall i l, (1 <= i <= sn)%nat -> (sn - i <= fuel)%nat -> (sn <= dn)%nat ->
  n = (sn + dn)%nat -> upto_but n i l ->
  exists l', encode_p1_loop K x fuel sn i (X (2 * (i - 1) + 1)) (hP1 (i - 1)) l =
    (sn, X (2 * (sn - 1) + 1), hP1 (sn - 1), l') /\ upto_but n sn l'.
Proof.
  assert (forall i l, (1 <= i <= sn)%nat -> (sn <= i)%nat -> upto_but n i l -> exists l',
    (i, X (2 * (i - 1) + 1), hP1 (i - 1), l) = (sn, X (2 * (sn - 1) + 1), hP1 (sn - 1), l') /\ upto_but n sn l') as Hend.
  { intros i l Hi Hs Hl. assert (i = sn) as -> by lia. by exists l. }
  induction fuel as [|fuel IH]; intros i l Hi Hf Hd Hn Hl; [by apply Hend; [|lia|]|]. cbn [encode_p1_loop].
  destruct (Nat.ltb_spec i sn) as [H|H]; [|by apply Hend].
  assert (sub K (X (2 * i)) (avg K (X (2 * i + 1)) (X (2 * (i - 1) + 1))) = hP1 i) as ->.
  { unfold hP1. by rewrite (proj2 (Nat.eqb_neq i 0)), (proj2 (Nat.ltb_lt i sn)) by lia. }
  specialize (IH (i + 1)%nat). replace (i + 1 - 1)%nat with i in IH by lia.
  apply IH; try lia. apply upto_but_two; try done; try lia.
  unfold lP1. rewrite (proj2 (Nat.ltb_lt _ dn)) by lia. by replace (i - 1 + 1)%nat with i by lia.
Qed.

Lemma encode_p1_spec n : (2 <= n)%nat -> n = (sn + dn)%nat -> (sn <= dn <= sn + 1)%nat ->
  encode_p1 K x sn dn (replicate n 0) = tab (zip2 hP1 lP1) n.
Proof.
  intros H2 Hn Hd. unfold encode_p1.
  assert (sub K (X 0) (X 1) = hP1 0) as -> by done.
  destruct (encode_p1_loop_spec n sn 1 (<[0%nat := hP1 0]> (replicate n 0))) as (l' & E & [Hl H]); [lia|lia|lia|done| |].
  { split; [by rewrite length_insert, length_replicate|]. intros k Hk. assert (k = 0)%nat as -> by lia.
    by rewrite list_lookup_insert_eq by (rewrite length_replicate; lia). }
  change (2 * (1 - 1) + 1)%nat with 1%nat in E. change (1 - 1)%nat with 0%nat in E. rewrite E. clear E.
  destruct (Nat.ltb_spec sn dn) as [Hs|Hs].
  - assert (sub K (X (2 * sn)) (X (2 * (sn - 1) + 1)) = hP1 sn) as ->.
    { unfold hP1. by rewrite (proj2 (Nat.eqb_neq sn 0)), (proj2 (Nat.ltb_ge sn sn)) by lia. }
    replace (dn - 2)%nat with (sn - 1)%nat by lia.
    assert (upto_but n (sn + 1) (<[(2 * (sn - 1) + 1)%nat := add K (X (2 * (sn - 1) + 1)) (upd K (hP1 (sn - 1)) (hP1 sn))]>
      (<[(2 * sn)%nat := hP1 sn]> l'))) as [Hl' H'].
    { apply upto_but_two; [done|lia|lia|done|]. unfold lP1. rewrite (proj2 (Nat.ltb_lt _ dn)) by lia.
      by replace (sn - 1 + 1)%nat with sn by lia. }
    apply tab_eq; [done|]. intros k Hk. apply H'. lia.
  - assert (sn = dn) as E by lia. rewrite <- E. apply (upto_all _ _ (S (2 * (sn - 1) + 1))); [|lia].
    apply upto_one; [split; [done|]|lia|].
    + intros k Hk. apply H. lia.
    + rewrite (zip2_odd _ _ (sn - 1)) by done. unfold lP1. by rewrite (proj2 (Nat.ltb_ge _ dn)) by lia.
Qed.

End forward.

Section inverse.
Context (K : lane) (bandL bandH : list Z) (sn dn : nat).
Abbreviation L k := (nth k%nat bandL 0).
Abbreviation H k := (nth k%nat bandH 0).

(** Even first sample. *)
Definition eP0 (j : nat) : Z :=
  sub K (L j) (if (j =? 0)%nat then uf K (H 0) else if (j <? dn)%nat then upd K (H (j - 1)) (H j) else ul K (H (j - 1))).
Definition oP0 (j : nat) : Z := add K (H j) (if (j + 1 <? sn)%nat then avg K (eP0 j) (eP0 (j + 1)) else eP0 j).

Lemma p0_loop_spec n fuel : forall m l, (m + 1 <= dn)%nat -> (dn - m <= fuel)%nat -> (dn <= sn <= dn + 1)%nat ->
  n = (sn + dn)%nat -> (3 <= n)%nat -> upto (zip2 eP0 oP0) n (2 * m) l ->
  exists l', p0_loop K bandL bandH n fuel (2 * m) (m + 1) (eP0 m) (H m) l =
    ((2 * (dn - 1))%nat, eP0 (dn - 1), H (dn - 1), l') /\ upto (zip2 eP0 oP0) n (2 * (dn - 1)) l'.
Proof.
  induction fuel as [|fuel IH]; intros m l Hm Hf Hd Hn H3 Hl; [lia|]. cbn [p0_loop].
  destruct (Nat.ltb_spec (2 * m) (n - 3)) as [Hi|Hi].
  - assert (sub K (L (m + 1)) (upd K (H m) (H (m + 1))) = eP0 (m + 1)) as ->.
    { unfold eP0. rewrite (proj2 (Nat.eqb_neq _ 0)), (proj2 (Nat.ltb_lt _ dn)) by lia.
      by replace (m + 1 - 1)%nat with m by lia. }
    replace (2 * m + 2)%nat with (2 * (m + 1))%nat by lia.
    apply IH; try lia. replace (2 * (m + 1))%nat with (2 * m + 2)%nat by lia.
    apply upto_two; [done|lia|left; lia| |].
    + by rewrite (zip2_even _ _ m).
    + rewrite (zip2_odd _ _ m) by done. unfold oP0. by rewrite (proj2 (Nat.ltb_lt _ sn)) by lia.
  - assert (m = dn - 1)%nat as -> by lia. by exists l.
Qed.

Lemma decode_p0_spec n : (2 <= n)%nat -> n = (sn + dn)%nat -> (dn <= sn <= dn + 1)%nat ->
  decode_p0 K bandL bandH n (replicate n 0) = tab (zip2 eP0 oP0) n.
Proof.
  intros H2 Hn Hd. unfold decode_p0.
  assert (upto (zip2 eP0 oP0) n (2 * 0) (replicate n 0)) as H0 by (split; [apply length_replicate|intros; lia]).
  assert (sub K (L 0) (uf K (H 0)) = eP0 0) as -> by done.
  assert (exists l', (if (2 <? n)%nat then p0_loop K bandL bandH n n 0 1 (eP0 0) (H 0) (replicate n 0)
      else (0%nat, eP0 0, H 0, replicate n 0)) = ((2 * (dn - 1))%nat, eP0 (dn - 1), H (dn - 1), l') /\
      upto (zip2 eP0 oP0) n (2 * (dn - 1)) l') as (l' & -> & Hl).
  { destruct (Nat.ltb_spec 2 n) as [H3|H3].
    - apply (p0_loop_spec n n 0); [lia..|done].
    - replace dn with 1%nat by lia. by eexists. }
  pose proof (Nat.even_spec n) as Hev. rewrite <- Nat.negb_even.
  destruct (Nat.even n) eqn:He; cbn [negb].
  - destruct Hev as [[c Hc] _]; [done|]. apply (upto_all _ _ (2 * (dn - 1) + 2)); [|lia].
    replace (n - 1)%nat with (S (2 * (dn - 1))) by lia. apply upto_two; [done|lia|left; lia| |].
    + by rewrite (zip2_even _ _ (dn - 1)).
    + rewrite (zip2_odd _ _ (dn - 1)) by lia. unfold oP0. by rewrite (proj2 (Nat.ltb_ge _ sn)) by lia.
  - assert (n <> 2 * dn)%nat as Hne. { intros E. rewrite E, even_twice in He. done. }
    replace ((n - 1) / 2)%nat with dn by (replace (n - 1)%nat with (2 * dn)%nat by lia; by rewrite half_even).
    assert (sub K (L dn) (ul K (H (dn - 1))) = eP0 dn) as ->.
    { unfold eP0. by rewrite (proj2 (Nat.eqb_neq dn 0)), Nat.ltb_irrefl by lia. }
    assert (add K (H (dn - 1)) (avg K (eP0 (dn - 1)) (eP0 dn)) = oP0 (dn - 1)) as ->.
    { unfold oP0. rewrite (proj2 (Nat.ltb_lt _ sn)) by lia. by replace (dn - 1 + 1)%nat with dn by lia. }
    apply (upto_all _ _ (S (2 * (dn - 1)) + 2)); [|lia].
    replace (n - 1)%nat with (S (S (2 * (dn - 1)))) by lia. replace (n - 2)%nat with (S (2 * (dn - 1))) by lia.
    apply upto_two; [apply upto_one; [done|lia|by rewrite (zip2_even _ _ (dn - 1))]|lia|right; lia| |].
    + rewrite (zip2_even _ _ dn) by lia. done.
    + rewrite (zip2_odd _ _ (dn - 1)) by lia. done.
Qed.

(** Odd first sample. *)
Definition eP1 (j : nat) : Z := sub K (L j) (if (j + 1 <? dn)%nat then upd K (H j) (H (j + 1)) else ul K (H j)).
Definition oP1 (j : nat) : Z :=
  add K (H j) (if (j =? 0)%nat then eP1 0 else if (j <? sn)%nat then avg K (eP1 j) (eP1 (j - 1)) else eP1 (j - 1)).

Lemma p1_loop_spec n fuel : forall m l, (1 <= m)%nat -> (m + 1 <= dn)%nat -> (dn - m <= fuel)%nat ->
  (sn <= dn <= sn + 1)%nat -> n = (sn + dn)%nat -> upto (zip2 oP1 eP1) n (2 * m - 1) l ->
  exists l', p1_loop K bandL bandH n fuel (2 * m - 1) m (eP1 (m - 1)) (H m) l =
    ((2 * (dn - 1) - 1)%nat, eP1 (dn - 1 - 1), H (dn - 1), l') /\ upto (zip2 oP1 eP1) n (2 * (dn - 1) - 1) l'.
Proof.
  assert (n = sn + dn -> sn <= dn <= sn + 1 -> n - 2 - (if Nat.odd n then 0 else 1) = 2 * (dn - 1) - 1)%nat as Hlim.
  { intros -> Hd. assert (sn = dn \/ dn = sn + 1)%nat as [-> | ->] by lia.
    - replace (dn + dn)%nat with (2 * dn)%nat by lia. rewrite <- Nat.negb_even, even_twice. cbn [negb]. lia.
    - replace (sn + (sn + 1))%nat with (2 * sn + 1)%nat by lia. rewrite <- Nat.negb_even, even_odd. cbn [negb]. lia. }
  induction fuel as [|fuel IH]; intros m l H1 Hm Hf Hd Hn Hl; [lia|]. cbn [p1_loop]. rewrite Hlim by done.
  destruct (Nat.ltb_spec (2 * m - 1) (2 * (dn - 1) - 1)) as [Hi|Hi].
  - assert (sub K (L m) (upd K (H m) (H (m + 1))) = eP1 m) as ->.
    { unfold eP1. by rewrite (proj2 (Nat.ltb_lt _ dn)) by lia. }
    specialize (IH (m + 1)%nat). replace (m + 1 - 1)%nat with m in IH by lia.
    replace (2 * (m + 1) - 1)%nat with (2 * m - 1 + 2)%nat in IH by lia.
    apply IH; try lia. apply upto_two; [done|lia|left; lia| |].
    + by rewrite (zip2_odd _ _ (m - 1)) by lia.
    + rewrite (zip2_even _ _ m) by lia. unfold oP1. by rewrite (proj2 (Nat.eqb_neq m 0)), (proj2 (Nat.ltb_lt _ sn)) by lia.
  - assert (m = dn - 1)%nat as -> by lia. by exists l.
Qed.

Lemma decode_p1_spec n : (3 <= n)%nat -> n = (sn + dn)%nat -> (sn <= dn <= sn + 1)%nat ->
  decode_p1 K bandL bandH n (replicate n 0) = tab (zip2 oP1 eP1) n.
Proof.
  intros H3 Hn Hd. unfold decode_p1.
  assert (sub K (L 0) (upd K (H 0) (H 1)) = eP1 0) as ->.
  { unfold eP1. by rewrite (proj2 (Nat.ltb_lt _ dn)) by lia. }
  destruct (p1_loop_spec n n 1 (<[0%nat := add K (H 0) (eP1 0)]> (replicate n 0))) as (l' & E & Hl); [lia..| |].
  { apply (upto_one _ n 0); [split; [apply length_replicate|intros; lia]|lia|done]. }
  change (2 * 1 - 1)%nat with 1%nat in E. change (1 - 1)%nat with 0%nat in E. rewrite E. clear E.
  apply (upto_one _ _ _ _ (eP1 (dn - 1 - 1))) in Hl; [|lia|by rewrite (zip2_odd _ _ (dn - 1 - 1)) by lia].
  rewrite <- Nat.negb_even, Bool.negb_involutive. destruct (Nat.even n) eqn:He.
  - apply Nat.even_spec in He as [c Hc].
    replace (n / 2 - 1)%nat with (sn - 1)%nat by (rewrite Hc, half_even; lia).
    assert (sub K (L (sn - 1)) (ul K (H (dn - 1))) = eP1 (sn - 1)) as ->.
    { unfold eP1. rewrite (proj2 (Nat.ltb_ge _ dn)) by lia. by replace (sn - 1)%nat with (dn - 1)%nat by lia. }
    apply (upto_all _ _ (S (2 * (dn - 1) - 1) + 2)); [|lia].
    replace (n - 2)%nat with (S (2 * (dn - 1) - 1)) by lia. replace (n - 1)%nat with (S (S (2 * (dn - 1) - 1))) by lia.
    apply upto_two; [done|lia|left; lia| |].
    + rewrite (zip2_even _ _ (dn - 1)) by lia. unfold oP1.
      rewrite (proj2 (Nat.eqb_neq (dn - 1) 0)), (proj2 (Nat.ltb_lt _ sn)) by lia.
      by replace (sn - 1)%nat with (dn - 1)%nat by lia.
    + by rewrite (zip2_odd _ _ (sn - 1)) by lia.
  - assert (n <> 2 * dn)%nat as Hne. { intros E. rewrite E, even_twice in He. done. }
    replace (n - 1)%nat with (S (2 * (dn - 1) - 1)) by lia.
    apply (upto_all _ _ (S (S (2 * (dn - 1) - 1)))); [|lia]. apply upto_one; [done|lia|].
    rewrite (zip2_even _ _ (dn - 1)) by lia. unfold oP1.
    by rewrite (proj2 (Nat.eqb_neq (dn - 1) 0)), (proj2 (Nat.ltb_ge _ sn)) by lia.
Qed.

End inverse.

(** ** Bands of a line *)

Definition bands (low high : nat -> Z) (sn k : nat) : Z := if (k <? sn)%nat then low k else high (k - sn)%nat.

Lemma deinterleave_spec src dst dn sn parity : length dst = (sn + dn)%nat -> (sn <= dn + 1)%nat -> (dn <= sn + 1)%nat ->
  deinterleave src dst dn sn parity =
    tab (bands (fun i => nth (2 * i + parity) src 0) (fun i => nth (2 * i + (1 - parity)) src 0) sn) (sn + dn).
Proof.
  intros Hl H1 H2.
  set (low := fun i : nat => nth (2 * i + parity) src 0). set (high := fun i : nat => nth (2 * i + (1 - parity)) src 0).
  set (step := fun (dst : list Z) (i : nat) => <[(sn + i)%nat := high i]> (<[i := low i]> dst)).
  assert (forall m, (m <= sn)%nat -> (m <= dn)%nat -> length (foldl step dst (seq 0 m)) = (sn + dn)%nat /\
    forall k, (k < m)%nat -> foldl step dst (seq 0 m) !! k = Some (low k) /\
      foldl step dst (seq 0 m) !! (sn + k)%nat = Some (high k)) as Hm.
  { induction m as [|m IH]; intros Hs Hn; [split; [done|intros; lia]|]. destruct IH as [IHl IH]; [lia..|].
    rewrite seq_S, foldl_app. cbn [foldl]. unfold step at 1 3 5. split; [by rewrite !length_insert|]. intros k Hk.
    destruct (decide (k = m)) as [->|Hkm].
    - rewrite list_lookup_insert_ne by lia. rewrite !list_lookup_insert_eq by (rewrite ?length_insert; simpl; lia). done.
    - rewrite !list_lookup_insert_ne by (simpl; lia). apply IH. lia. }
  destruct (Hm (Nat.min dn sn)) as [Hml Hmk]; [lia..|]. clear Hm. set (l := foldl step dst (seq 0 (Nat.min dn sn))) in *.
  assert (deinterleave src dst dn sn parity = if (Nat.min dn sn <? sn)%nat then <[Nat.min dn sn := low (Nat.min dn sn)]> l
    else if (Nat.min dn sn <? dn)%nat then <[(sn + Nat.min dn sn)%nat := high (Nat.min dn sn)]> l else l) as -> by done.
  assert (forall k, (k < sn + dn)%nat -> ((k < sn)%nat -> k <> Nat.min dn sn) -> k <> (sn + Nat.min dn sn)%nat ->
    l !! k = Some (bands low high sn k)) as Hin.
  { intros k Hk Ha Hb. unfold bands. destruct (Nat.ltb_spec k sn) as [Hks|Hks]; [apply Hmk; lia|].
    destruct (Hmk (k - sn)%nat) as [_ E]; [lia|]. by replace (sn + (k - sn))%nat with k in E by lia. }
  destruct (Nat.ltb_spec (Nat.min dn sn) sn) as [Hs|Hs]; [|destruct (Nat.ltb_spec (Nat.min dn sn) dn) as [Hd|Hd]].
  - apply tab_eq; [by rewrite length_insert|]. intros k Hk. destruct (decide (k = Nat.min dn sn)) as [->|Hkm].
    + rewrite list_lookup_insert_eq by lia. unfold bands. by rewrite (proj2 (Nat.ltb_lt _ sn)) by lia.
    + rewrite list_lookup_insert_ne by done. apply Hin; lia.
  - apply tab_eq; [by rewrite length_insert|]. intros k Hk. destruct (decide (k = sn + Nat.min dn sn)%nat) as [->|Hkm].
    + rewrite list_lookup_insert_eq by lia. unfold bands. rewrite (proj2 (Nat.ltb_ge _ sn)) by lia. do 2 f_equal. lia.
    + rewrite list_lookup_insert_ne by done. apply Hin; lia.
  - apply tab_eq; [done|]. intros k Hk. apply Hin; lia.
Qed.

Lemma take_bands low high sn dn : take sn (tab (bands low high sn) (sn + dn)) = tab low sn.
Proof.
  apply tab_eq; [rewrite length_take, length_tab; lia|]. intros k Hk. rewrite lookup_take_lt, lookup_tab by lia.
  unfold bands. by rewrite (proj2 (Nat.ltb_lt _ _)).
Qed.
Lemma drop_bands low high sn dn : drop sn (tab (bands low high sn) (sn + dn)) = tab high dn.
Proof.
  apply tab_eq; [rewrite length_drop, length_tab; lia|]. intros k Hk. rewrite lookup_drop, lookup_tab by lia.
  unfold bands. rewrite (proj2 (Nat.ltb_ge _ _)) by lia. do 2 f_equal. lia.
Qed.
