(* ===== verification/WaveletExact.v ===== *)
(** Machine arithmetic of the 5/3 kernels, and the round trip of one line.

    A kernel computes with 32-bit or 16-bit lanes, and each writes the averages of the
    lifting steps its own way.  [LaneExact] is what the transform needs of a lane: on
    operands within a range the operations are those of the integers.  The instances
    discharge it for every lane of Wavelet.v; the lines are then lifted in [zlane], the
    integers themselves. *)
From S2P Require Import Prelude Geometry Wavelet WaveletLines.

(** The lifting steps of the standard, on integers. *)
Definition zlane : lane :=
  MkLane Z.add Z.sub (fun a b => (a + b) / 2) (fun a b => (a + b + 2) / 4) (fun d => (2 * d + 2) / 4) (fun d => (2 * d + 2) / 4)
    Z.add.

Class LaneExact (K : lane) (R : Z) : Prop := {
  add_exact a b : Z.abs (a + b) <= R -> add K a b = a + b;
  sub_exact a b : Z.abs (a - b) <= R -> sub K a b = a - b;
  avg_exact a b : Z.abs a <= R -> Z.abs b <= R -> avg K a b = (a + b) / 2;
  upd_exact a b : Z.abs a <= R -> Z.abs b <= R -> upd K a b = (a + b + 2) / 4;
  uf_exact d : Z.abs d <= R -> uf K d = (2 * d + 2) / 4;
  ul_exact d : Z.abs d <= R -> ul K d = (2 * d + 2) / 4;
  wide_exact a b : Z.abs (a + b) <= R -> wide K a b = a + b;
}.

Definition R32 : Z := 2 ^ 30 - 2.
Definition R16 : Z := 2 ^ 15 - 2.

Lemma shiftr_1 a : Z.shiftr a 1 = a / 2.
Proof. by rewrite Z.shiftr_div_pow2. Qed.
Lemma shiftr_2 a : Z.shiftr a 2 = a / 4.
Proof. by rewrite Z.shiftr_div_pow2. Qed.
Lemma shiftl_1 a : Z.shiftl a 1 = 2 * a.
Proof. rewrite Z.shiftl_mul_pow2 by lia. lia. Qed.
Lemma i32_small a : Z.abs a < 2 ^ 31 -> i32 a = a.
Proof. intros. apply swrap_small; lia. Qed.
Lemma i16_small a : - 2 ^ 15 <= a < 2 ^ 15 -> i16 a = a.
Proof. intros. apply swrap_small; lia. Qed.

#[export] Instance zlane_exact R : LaneExact zlane R.
Proof. by constructor. Qed.

(** Innermost first. *)
Ltac drop_i32 :=
  repeat match goal with
  | |- context [swrap 32 ?e] => lazymatch e with context [swrap 32 _] => fail | _ => rewrite (i32_small e) by lia end
  end.
(** One proof for the three 32-bit lanes: no intermediate leaves the signed range. *)
Ltac lane32 :=
  constructor; intros; unfold R32 in *; cbn -[Z.add Z.mul Z.div Z.sub];
  unfold add32, sub32, avg32, upd32, half_up32, quarter_shift32, quarter_twice32, upd32, add32;
  rewrite ?shiftl_1; drop_i32; rewrite ?shiftr_1, ?shiftr_2; divlia.
#[export] Instance fwd32_exact : LaneExact fwd32 R32.
Proof. lane32. Qed.
#[export] Instance inv32_exact : LaneExact inv32 R32.
Proof. lane32. Qed.
#[export] Instance hwy32_exact : LaneExact hwy32 R32.
Proof. lane32. Qed.

(** ** Averages of 16-bit lanes *)

Lemma land_low c : 0 <= c < 32768 -> Z.land c 32768 = 0.
Proof.
  intros Hc. apply Z.bits_inj'. intros k Hk. rewrite Z.land_spec, Z.bits_0. change 32768 with (2 ^ 15).
  rewrite Z.pow2_bits_eqb by lia. destruct (Z.eqb_spec 15 k) as [<-|]; [|by rewrite andb_false_r].
  rewrite andb_true_r. apply Z.bits_above_log2; [lia|].
  destruct (decide (c = 0)) as [->|]; [done|]. apply Z.log2_lt_pow2; lia.
Qed.
Lemma lxor_low c : 0 <= c < 32768 -> Z.lxor c 32768 = c + 32768.
Proof. intros Hc. symmetry. by apply Z.add_nocarry_lxor, land_low. Qed.
(** Flipping the sign bit maps the signed range to the unsigned one in order. *)
Lemma flip_sign a : - 32768 <= a < 32768 -> Z.lxor (u16 a) 0x8000 = a + 32768.
Proof.
  intros Ha. change 0x8000 with 32768. unfold wrap. destruct (Z.lt_ge_cases a 0).
  - assert (a mod 2 ^ 16 = a + 65536) as ->. { symmetry. apply (Z.mod_unique _ _ (-1)); lia. }
    replace (a + 65536) with ((a + 32768) + 32768) by lia. rewrite <- (lxor_low (a + 32768)) at 1 by lia.
    by rewrite Z.lxor_assoc, Z.lxor_nilpotent, Z.lxor_0_r.
  - rewrite Z.mod_small by lia. apply lxor_low; lia.
Qed.


Lemma bit0_and a b : Z.land (Z.land a b) 1 = (a mod 2) * (b mod 2).
Proof.
  transitivity (Z.land a b mod 2); [exact (Z.land_ones (Z.land a b) 1 ltac:(lia))|].
  rewrite !Zmod_odd, <- !Z.bit0_odd, Z.land_spec. by destruct (Z.testbit a 0), (Z.testbit b 0).
Qed.
Definition int16 (a : Z) : Prop := - 32768 <= a <= 32767.

Lemma predict_avg_exact a b : int16 a -> int16 b -> predict_avg_16_53 a b = (a + b) / 2.
Proof.
  unfold int16. intros Ha Hb. unfold predict_avg_16_53, add16. rewrite bit0_and, !shiftr_1.
  assert (0 <= a mod 2 * (b mod 2) <= 1 /\ a / 2 + b / 2 + a mod 2 * (b mod 2) = (a + b) / 2) as [H E].
  { assert (a mod 2 = 0 \/ a mod 2 = 1) as [Ea|Ea] by divlia; rewrite Ea; divlia. }
  rewrite (i16_small (a / 2 + b / 2)) by divlia. rewrite i16_small by divlia. done.
Qed.

(** [step] of the update before it is narrowed to 16 bits. *)
Lemma update_avg_value a b : int16 a -> int16 b ->
  update_avg_16_53 a b = Z.shiftr (i16 (u16 ((a + u16 (b + 0x7FFF) + 0x8001) / 2 - 0x7FFF))) 1.
Proof.
  unfold int16. intros Ha Hb. unfold update_avg_16_53, AverageRound. cbv zeta. rewrite flip_sign by lia.
  assert (u16 (u16 b + 0x7FFF) = u16 (b + 0x7FFF)) as ->. { unfold wrap. apply Zplus_mod_idemp_l. }
  by rewrite !shiftr_1; replace (a + 32768 + u16 (b + 0x7FFF) + 1) with (a + u16 (b + 0x7FFF) + 0x8001) by lia.
Qed.
Lemma i16_u16 a : i16 (u16 a) = i16 a.
Proof. unfold swrap, wrap. by rewrite Zmod_mod. Qed.

Lemma update_avg_exact a b : int16 a -> int16 b -> b <> -32768 -> ~ (a = 32767 /\ b = 32767) ->
  update_avg_16_53 a b = (a + b + 2) / 4.
Proof.
  intros Ha Hb H1 H2. rewrite update_avg_value by done. unfold int16 in *.
  rewrite (wrap_small 16 (b + _)) by lia.
  replace ((a + (b + 0x7FFF) + 0x8001) / 2 - 0x7FFF) with ((a + b + 2) / 2) by divlia.
  rewrite i16_u16, i16_small, shiftr_1 by divlia. divlia.
Qed.
Lemma update_avg_wrong a b : int16 a -> int16 b -> b = -32768 \/ a = 32767 /\ b = 32767 ->
  update_avg_16_53 a b <> (a + b + 2) / 4.
Proof.
  intros Ha Hb H. rewrite update_avg_value by done. unfold int16 in *. rewrite i16_u16, shiftr_1. destruct H as [-> | [-> ->]]; [|done].
  change (u16 (-32768 + 0x7FFF)) with 65535. destruct (Z.lt_ge_cases a 32766).
  - rewrite i16_small by divlia. divlia.
  - assert (a = 32766 \/ a = 32767) as [-> | ->] by lia; done.
Qed.

#[export] Instance inv16_exact : LaneExact inv16 R16.
Proof.
  constructor; unfold R16; intros; cbn -[Z.add Z.mul Z.div Z.sub]; unfold add16, sub16;
    rewrite ?i16_small, ?shiftr_1, ?shiftr_2 by lia; divlia.
Qed.
#[export] Instance hwy16_exact : LaneExact hwy16 R16.
Proof.
  constructor; unfold R16; intros; cbn -[Z.add Z.mul Z.div Z.sub]; unfold add16, sub16, half_up16, add16.
  1, 2: by rewrite i16_small by lia.
  - by rewrite predict_avg_exact by (unfold int16; lia).
  - by rewrite update_avg_exact by (unfold int16; lia).
  - rewrite i16_small, shiftr_1 by lia. divlia.
  - rewrite update_avg_exact by (unfold int16; lia). f_equal. lia.
  - by rewrite i16_small by lia.
Qed.

(** ** A line forward *)

(** Samples below a bound. *)
Definition within (B : Z) (l : list Z) : Prop := Forall (fun v => Z.abs v <= B) l.
Lemma within_nth B l k : within B l -> 0 <= B -> Z.abs (nth k l 0) <= B.
Proof.
  intros Hl HB. rewrite nth_lookup. destruct (l !! k) eqn:E; [|done]. exact (Forall_lookup_1 _ _ _ _ Hl E).
Qed.
Lemma within_tab B f n : (forall k, (k < n)%nat -> Z.abs (f k) <= B) -> within B (tab f n).
Proof. intros H. apply Forall_fmap, Forall_seq. intros k Hk. apply H. lia. Qed.

Definition shifted (dc : Z) (x : list Z) : list Z := (fun v => v - dc) <$> x.
Lemma nth_shifted dc x k : (k < length x)%nat -> nth k (shifted dc x) 0 = nth k x 0 - dc.
Proof. intros Hk. rewrite !nth_lookup. unfold shifted. rewrite list_lookup_fmap. by destruct (lookup_lt_is_Some_2 x k Hk) as [v ->]. Qed.

(** Rewrites the operations of a lane to those of the integers, innermost first. *)
Ltac exact_op := first
  [rewrite avg_exact by lia | rewrite upd_exact by lia | rewrite uf_exact by lia | rewrite ul_exact by lia
  |rewrite sub_exact by divlia | rewrite add_exact by divlia].

Section line.
Context (K : lane) (R : Z) `{!LaneExact K R} (x : list Z) (B : Z) (sn dn : nat).
Context (HB : 0 <= B) (HR : 2 * B + 2 <= R) (Hx : forall k, Z.abs (nth k x 0) <= B).
Abbreviation X k := (nth k%nat x 0).

Lemma hP0_exact i : hP0 K x sn i = hP0 zlane x sn i /\ Z.abs (hP0 zlane x sn i) <= 2 * B.
Proof.
  pose proof (Hx (2 * i)). pose proof (Hx (2 * i + 1)). pose proof (Hx (2 * (i + 1))).
  unfold hP0. cbn [zlane avg sub]. destruct (i + 1 <? sn)%nat; repeat exact_op; divlia.
Qed.
(** What a high sample owes to the low samples beside it. *)
Lemma hP0_left i : Z.abs (2 * hP0 zlane x sn i + X (2 * i)) <= 3 * B + 1.
Proof.
  pose proof (Hx (2 * i)). pose proof (Hx (2 * i + 1)). pose proof (Hx (2 * (i + 1))).
  unfold hP0. cbn [zlane avg sub]. destruct (i + 1 <? sn)%nat; divlia.
Qed.
Lemma hP0_right i : (0 < i < sn)%nat -> Z.abs (2 * hP0 zlane x sn (i - 1) + X (2 * i)) <= 3 * B + 1.
Proof.
  intros Hi. pose proof (Hx (2 * (i - 1))). pose proof (Hx (2 * (i - 1) + 1)). pose proof (Hx (2 * i)).
  unfold hP0. cbn [zlane avg sub]. rewrite (proj2 (Nat.ltb_lt _ sn)) by lia.
  replace (i - 1 + 1)%nat with i by lia. divlia.
Qed.
Lemma lP0_exact i : (i < sn)%nat ->
  lP0 K x sn dn i = lP0 zlane x sn dn i /\ Z.abs (lP0 zlane x sn dn i) <= (3 * B) / 2 + 2.
Proof.
  intros Hi. pose proof (Hx (2 * i)). destruct (hP0_exact (i - 1)) as [E1 H1], (hP0_exact i) as [E2 H2].
  pose proof (hP0_left i). pose proof (hP0_right i).
  unfold lP0. destruct (Nat.eqb_spec i 0) as [->|Hi0].
  - destruct (hP0_exact 0) as [E0 Hh0]. rewrite E0. cbn [zlane add upd uf ul]. change (2 * 0)%nat with 0%nat in *.
    repeat exact_op; divlia.
  - rewrite E1, E2. cbn [zlane add upd uf ul]. destruct (i <? dn)%nat; repeat exact_op; divlia.
Qed.

Lemma hP1_exact i : hP1 K x sn i = hP1 zlane x sn i /\ Z.abs (hP1 zlane x sn i) <= 2 * B.
Proof.
  pose proof (Hx 0). pose proof (Hx 1). pose proof (Hx (2 * i)). pose proof (Hx (2 * i + 1)). pose proof (Hx (2 * (i - 1) + 1)).
  unfold hP1. cbn [zlane avg sub]. destruct (i =? 0)%nat, (i <? sn)%nat; repeat exact_op; divlia.
Qed.
Lemma hP1_left i : (i < sn)%nat -> Z.abs (2 * hP1 zlane x sn i + X (2 * i + 1)) <= 3 * B + 1.
Proof.
  intros Hi. pose proof (Hx (2 * i)). pose proof (Hx (2 * i + 1)). pose proof (Hx (2 * (i - 1) + 1)).
  unfold hP1. cbn [zlane avg sub]. rewrite (proj2 (Nat.ltb_lt i sn)) by lia.
  destruct (Nat.eqb_spec i 0) as [->|]; [change (2 * 0 + 1)%nat with 1%nat in *; change (2 * 0)%nat with 0%nat in * |]; divlia.
Qed.
Lemma hP1_right i : Z.abs (2 * hP1 zlane x sn (i + 1) + X (2 * i + 1)) <= 3 * B + 1.
Proof.
  pose proof (Hx (2 * (i + 1))). pose proof (Hx (2 * (i + 1) + 1)). pose proof (Hx (2 * i + 1)).
  unfold hP1. cbn [zlane avg sub]. rewrite (proj2 (Nat.eqb_neq (i + 1) 0)) by lia. replace (i + 1 - 1)%nat with i by lia.
  destruct (i + 1 <? sn)%nat; divlia.
Qed.
Lemma lP1_exact i : (i < sn)%nat ->
  lP1 K x sn dn i = lP1 zlane x sn dn i /\ Z.abs (lP1 zlane x sn dn i) <= (3 * B) / 2 + 2.
Proof.
  intros Hi. pose proof (Hx (2 * i + 1)). destruct (hP1_exact i) as [E1 H1], (hP1_exact (i + 1)) as [E2 H2].
  pose proof (hP1_left i Hi). pose proof (hP1_right i).
  unfold lP1. rewrite E1, E2. cbn [zlane add upd uf ul]. destruct (i + 1 <? dn)%nat; repeat exact_op; divlia.
Qed.

End line.

(** ** Undoing the lifting *)

Section undo.
Context (K : lane) (R : Z) `{!LaneExact K R} (x : list Z) (B : Z) (sn dn : nat).
Context (HB : 0 <= B) (HR : 2 * B + 2 <= R) (Hx : forall k, Z.abs (nth k x 0) <= B).
Abbreviation X k := (nth k%nat x 0).

Section even.
Context (Hd : (dn <= sn <= dn + 1)%nat) (Hdn : (1 <= dn)%nat).
Abbreviation bandL := (tab (lP0 zlane x sn dn) sn).
Abbreviation bandH := (tab (hP0 zlane x sn) dn).

Lemma eP0_undo j : (j < sn)%nat -> eP0 K bandL bandH dn j = X (2 * j).
Proof.
  intros Hj. destruct (hP0_exact zlane R x B sn HB HR Hx 0) as [_ H0].
  destruct (hP0_exact zlane R x B sn HB HR Hx j) as [_ H1], (hP0_exact zlane R x B sn HB HR Hx (j - 1)) as [_ H2].
  pose proof (Hx (2 * j)). unfold eP0. rewrite nth_tab by done. rewrite (nth_tab _ _ 0) by lia. unfold lP0.
  destruct (Nat.eqb_spec j 0) as [->|Hj0]; [|destruct (Nat.ltb_spec j dn); rewrite !nth_tab by lia];
    try change (2 * 0)%nat with 0%nat in *; cbn [zlane add upd uf ul]; repeat exact_op; divlia.
Qed.
Lemma oP0_undo j : (j < dn)%nat -> oP0 K bandL bandH sn dn j = X (2 * j + 1).
Proof.
  intros Hj. pose proof (Hx (2 * j)). pose proof (Hx (2 * (j + 1))). pose proof (Hx (2 * j + 1)).
  unfold oP0. rewrite nth_tab by done. unfold hP0. destruct (Nat.ltb_spec (j + 1) sn).
  - rewrite !eP0_undo by lia. cbn [zlane sub avg]. repeat exact_op. divlia.
  - rewrite eP0_undo by lia. cbn [zlane sub avg]. repeat exact_op. divlia.
Qed.
End even.

Section odd.
Context (Hd : (sn <= dn <= sn + 1)%nat) (Hsn : (1 <= sn)%nat).
Abbreviation bandL := (tab (lP1 zlane x sn dn) sn).
Abbreviation bandH := (tab (hP1 zlane x sn) dn).

Lemma eP1_undo j : (j < sn)%nat -> eP1 K bandL bandH dn j = X (2 * j + 1).
Proof.
  intros Hj. pose proof (Hx (2 * j + 1)).
  destruct (hP1_exact zlane R x B sn HB HR Hx j) as [_ H1], (hP1_exact zlane R x B sn HB HR Hx (j + 1)) as [_ H2].
  unfold eP1. rewrite !(nth_tab _ _ j) by lia. unfold lP1. destruct (Nat.ltb_spec (j + 1) dn);
    rewrite ?nth_tab by lia; cbn [zlane add upd uf ul]; repeat exact_op; divlia.
Qed.
Lemma oP1_undo j : (j < dn)%nat -> oP1 K bandL bandH sn dn j = X (2 * j).
Proof.
  intros Hj. pose proof (Hx 0). pose proof (Hx 1). pose proof (Hx (2 * j)). pose proof (Hx (2 * j + 1)). pose proof (Hx (2 * (j - 1) + 1)).
  unfold oP1. rewrite nth_tab by done. unfold hP1. destruct (Nat.eqb_spec j 0) as [->|Hj0].
  - rewrite eP1_undo by lia. change (2 * 0 + 1)%nat with 1%nat. change (2 * 0)%nat with 0%nat. cbn [zlane sub avg]. repeat exact_op. lia.
  - destruct (Nat.ltb_spec j sn); rewrite !eP1_undo by lia; cbn [zlane sub avg]; repeat exact_op; divlia.
Qed.
End odd.
End undo.

(** ** Whole lines *)

Lemma split2 k : exists c, k = (2 * c)%nat \/ k = (2 * c + 1)%nat.
Proof. exists (k / 2)%nat. pose proof (Nat.div_mod k 2). pose proof (Nat.mod_upper_bound k 2). lia. Qed.

Lemma low_size_0 n : let sn := low_size n 0 in let dn := (n - sn)%nat in (n = sn + dn /\ dn <= sn <= dn + 1)%nat.
Proof.
  cbv zeta. unfold low_size. change (1 - 0)%nat with 1%nat.
  pose proof (Nat.div_mod (n + 1) 2). pose proof (Nat.mod_upper_bound (n + 1) 2). lia.
Qed.
Lemma low_size_1 n : let sn := low_size n 1 in let dn := (n - sn)%nat in (n = sn + dn /\ sn <= dn <= sn + 1)%nat.
Proof.
  cbv zeta. unfold low_size. replace (n + (1 - 1))%nat with n by lia. pose proof (Nat.div_mod n 2). pose proof (Nat.mod_upper_bound n 2). lia.
Qed.

(** The shift of a low sample. *)
Definition low_shift (K : lane) (dc v : Z) : Z := if dc =? 0 then v else sub K v dc.
Lemma nth_shift_low K dc p f n k : (k < n)%nat ->
  nth k (shift_low K dc p (tab f n)) 0 = if Nat.even (k + p) then low_shift K dc (f k) else f k.
Proof.
  intros Hk. unfold shift_low, low_shift. destruct (dc =? 0).
  - rewrite nth_tab by done. by destruct (Nat.even _).
  - rewrite nth_lookup, list_lookup_imap, lookup_tab by done. done.
Qed.

Lemma encode_53_p0 K dc x n sn dn : n = length x -> (2 <= n)%nat -> sn = low_size n 0 -> dn = (n - sn)%nat ->
  encode_53 K 0 dc x = tab (bands (fun i => low_shift K dc (lP0 K x sn dn i)) (hP0 K x sn) sn) (sn + dn).
Proof.
  intros Hn H2 Hs Hd. pose proof (low_size_0 n) as Hsz. cbv zeta in Hsz. rewrite <- Hs, <- Hd in Hsz. destruct Hsz as [Hsz Hle].
  unfold encode_53. rewrite <- Hn. rewrite (proj2 (Nat.leb_gt _ 1)) by lia. cbv zeta. rewrite <- Hs, <- Hd. cbn [Nat.eqb].
  rewrite (encode_p0_spec K x sn dn n), deinterleave_spec by lia. apply tab_ext. intros k Hk.
  unfold bands. destruct (Nat.ltb_spec k sn); rewrite nth_shift_low by lia.
  - replace (2 * k + 0 + 0)%nat with (2 * k)%nat by lia. rewrite even_twice. by rewrite (zip2_even _ _ k) by lia.
  - replace (2 * (k - sn) + (1 - 0) + 0)%nat with (2 * (k - sn) + 1)%nat by lia. rewrite even_odd.
    by rewrite (zip2_odd _ _ (k - sn)) by lia.
Qed.
Lemma encode_53_p1 K dc x n sn dn : n = length x -> (2 <= n)%nat -> sn = low_size n 1 -> dn = (n - sn)%nat ->
  encode_53 K 1 dc x = tab (bands (fun i => low_shift K dc (lP1 K x sn dn i)) (hP1 K x sn) sn) (sn + dn).
Proof.
  intros Hn H2 Hs Hd. pose proof (low_size_1 n) as Hsz. cbv zeta in Hsz. rewrite <- Hs, <- Hd in Hsz. destruct Hsz as [Hsz Hle].
  unfold encode_53. rewrite <- Hn. rewrite (proj2 (Nat.leb_gt _ 1)) by lia. cbv zeta. rewrite <- Hs, <- Hd. cbn [Nat.eqb].
  rewrite (encode_p1_spec K x sn dn n), deinterleave_spec by lia. apply tab_ext. intros k Hk.
  unfold bands. destruct (Nat.ltb_spec k sn); rewrite nth_shift_low by lia.
  - replace (2 * k + 1 + 1)%nat with (2 * (k + 1))%nat by lia. rewrite even_twice. by rewrite (zip2_odd _ _ k) by lia.
  - replace (2 * (k - sn) + (1 - 1) + 1)%nat with (2 * (k - sn) + 1)%nat by lia. rewrite even_odd.
    by rewrite (zip2_even _ _ (k - sn)) by lia.
Qed.

(** High samples ignore a shift of the line, low samples carry it. *)
Section shift.
Context (dc : Z) (x : list Z) (n sn dn : nat) (Hn : n = length x) (Hs : n = (sn + dn)%nat).
Ltac shifts := rewrite ?nth_shifted by lia; cbn [zlane sub add avg upd uf ul].

Lemma hP0_shift i : (dn <= sn <= dn + 1)%nat -> (i < dn)%nat -> hP0 zlane (shifted dc x) sn i = hP0 zlane x sn i.
Proof. intros Hd Hi. unfold hP0. destruct (Nat.ltb_spec (i + 1) sn); shifts; divlia. Qed.
Lemma lP0_shift i : (dn <= sn <= dn + 1)%nat -> (1 <= dn)%nat -> (i < sn)%nat ->
  lP0 zlane (shifted dc x) sn dn i = lP0 zlane x sn dn i - dc.
Proof.
  intros Hd H1 Hi. unfold lP0. destruct (Nat.eqb_spec i 0) as [->|]; [|destruct (Nat.ltb_spec i dn)];
    rewrite !hP0_shift by lia; shifts; lia.
Qed.
Lemma hP1_shift i : (sn <= dn <= sn + 1)%nat -> (1 <= sn)%nat -> (i < dn)%nat -> hP1 zlane (shifted dc x) sn i = hP1 zlane x sn i.
Proof.
  intros Hd H1 Hi. unfold hP1. destruct (Nat.eqb_spec i 0) as [->|]; [|destruct (Nat.ltb_spec i sn)]; shifts; divlia.
Qed.
Lemma lP1_shift i : (sn <= dn <= sn + 1)%nat -> (i < sn)%nat ->
  lP1 zlane (shifted dc x) sn dn i = lP1 zlane x sn dn i - dc.
Proof. intros Hd Hi. unfold lP1. destruct (Nat.ltb_spec (i + 1) dn); rewrite !hP1_shift by lia; shifts; lia. Qed.
End shift.

Section whole_line.
Context (K : lane) (R : Z) `{!LaneExact K R} (B : Z) (HB : 0 <= B) (HR : 2 * B + 2 <= R).

Lemma low_shift_exact dc v w : v = w + dc -> Z.abs w <= R -> low_shift K dc v = w.
Proof. intros -> Hw. unfold low_shift. destruct (Z.eqb_spec dc 0) as [->|]; [lia|]. rewrite sub_exact; lia. Qed.

(** A kernel with the DC shift is the integer lifting of the shifted line. *)
Lemma encode_53_exact p dc x : (p <= 1)%nat -> within B x -> within B (shifted dc x) ->
  encode_53 K p dc x = encode_53 zlane p 0 (shifted dc x).
Proof.
  intros Hp Hx Hy. destruct (Nat.le_gt_cases (length x) 1) as [H1|H2].
  { destruct x as [|v [|? ?]]; [done| |simpl in H1; lia].
    apply list.Forall_cons in Hy as [Hy _]. unfold encode_53. cbn [length Nat.leb Nat.eqb shifted fmap list_fmap nth].
    rewrite Z.eqb_refl. change (negb true) with false. rewrite orb_false_r, andb_true_l, andb_true_l.
    pose proof (low_shift_exact dc v (v - dc) ltac:(lia) ltac:(lia)) as E. unfold low_shift in E. rewrite E.
    destruct (Nat.eqb_spec p 1); [done|]. destruct (Z.eqb_spec dc 0) as [->|]; [|done]. cbn. f_equal. lia. }
  pose proof (fun k => within_nth B x k Hx HB) as Nx. pose proof (fun k => within_nth B _ k Hy HB) as Ny.
  assert (length (shifted dc x) = length x) as Hl by (unfold shifted; by rewrite length_fmap).
  assert (p = 0 \/ p = 1)%nat as [-> | ->] by lia.
  - rewrite (encode_53_p0 K dc x (length x) _ _ eq_refl ltac:(lia) eq_refl eq_refl).
    rewrite (encode_53_p0 zlane 0 (shifted dc x) (length x) _ _ (eq_sym Hl) ltac:(lia) eq_refl eq_refl).
    destruct (low_size_0 (length x)) as [Hn Hd]. set (sn := low_size _ 0) in *. set (dn := (length x - sn)%nat) in *.
    apply tab_ext. intros k Hk. unfold bands. destruct (Nat.ltb_spec k sn).
    + destruct (lP0_exact K R x B sn dn HB HR Nx k) as [-> _]; [done|].
      destruct (lP0_exact zlane R _ B sn dn HB HR Ny k) as [_ Hb]; [done|].
      change (low_shift zlane 0 ?v) with v. apply low_shift_exact; [|divlia]. rewrite (lP0_shift dc x (length x)) by lia. lia.
    + destruct (hP0_exact K R x B sn HB HR Nx (k - sn)) as [-> _]. symmetry. apply (hP0_shift dc x (length x) sn dn); lia.
  - rewrite (encode_53_p1 K dc x (length x) _ _ eq_refl ltac:(lia) eq_refl eq_refl).
    rewrite (encode_53_p1 zlane 0 (shifted dc x) (length x) _ _ (eq_sym Hl) ltac:(lia) eq_refl eq_refl).
    destruct (low_size_1 (length x)) as [Hn Hd]. set (sn := low_size _ 1) in *. set (dn := (length x - sn)%nat) in *.
    apply tab_ext. intros k Hk. unfold bands. destruct (Nat.ltb_spec k sn).
    + destruct (lP1_exact K R x B sn dn HB HR Nx k) as [-> _]; [done|].
      destruct (lP1_exact zlane R _ B sn dn HB HR Ny k) as [_ Hb]; [done|].
      change (low_shift zlane 0 ?v) with v. apply low_shift_exact; [|divlia]. rewrite (lP1_shift dc x (length x)) by lia. lia.
    + destruct (hP1_exact K R x B sn HB HR Nx (k - sn)) as [-> _]. symmetry. apply (hP1_shift dc x (length x) sn dn); lia.
Qed.

(** The inverse of a kernel gives the line back. *)
Lemma decode_encode_line p x : (p <= 1)%nat -> within B x -> 2 * B < 2 ^ 31 ->
  decode_53 K p (low_size (length x) p) (encode_53 zlane p 0 x) = x.
Proof.
  intros Hp Hx H31. pose proof (fun k => within_nth B x k Hx HB) as Nx. pose proof (tab_nth x) as Hid.
  assert (p = 0 \/ p = 1)%nat as [-> | ->] by lia; destruct (Nat.le_gt_cases (length x) 1) as [H1|H2].
  - by destruct x as [|v [|? ?]]; [| |simpl in H1; lia].
  - rewrite (encode_53_p0 zlane 0 x (length x) _ _ eq_refl ltac:(lia) eq_refl eq_refl).
    destruct (low_size_0 (length x)) as [Hn Hd]. set (sn := low_size _ 0) in *. set (dn := (length x - sn)%nat) in *.
    unfold decode_53. rewrite length_tab, <- Hn, (proj2 (Nat.eqb_neq _ 0)), (proj2 (Nat.ltb_lt 1 _)) by lia. cbn [Nat.eqb].
    change (fun i => low_shift zlane 0 (lP0 zlane x sn dn i)) with (lP0 zlane x sn dn).
    generalize (take_bands (lP0 zlane x sn dn) (hP0 zlane x sn) sn dn), (drop_bands (lP0 zlane x sn dn) (hP0 zlane x sn) sn dn).
    rewrite <- Hn. intros -> ->. rewrite decode_p0_spec with (sn := sn) (dn := dn) by lia.
    transitivity (tab (fun k => nth k x 0) (length x)); [|done]. apply tab_ext. intros k Hk. destruct (split2 k) as [c [-> | ->]].
    + rewrite (zip2_even _ _ c) by done. by rewrite (eP0_undo K R x B sn dn) by (done || lia).
    + rewrite (zip2_odd _ _ c) by done. by rewrite (oP0_undo K R x B sn dn) by (done || lia).
  - destruct x as [|v [|? ?]]; [done| |simpl in H1; lia]. specialize (Nx 0%nat). cbn in Nx.
    cbn -[i32 Z.shiftl Z.shiftr]. rewrite shiftl_1, i32_small, shiftr_1 by lia. f_equal. divlia.
  - rewrite (encode_53_p1 zlane 0 x (length x) _ _ eq_refl ltac:(lia) eq_refl eq_refl).
    destruct (low_size_1 (length x)) as [Hn Hd]. set (sn := low_size _ 1) in *. set (dn := (length x - sn)%nat) in *.
    unfold decode_53. rewrite length_tab, <- Hn, (proj2 (Nat.eqb_neq _ 0)), (proj2 (Nat.eqb_neq _ 1)) by lia. cbn [Nat.eqb].
    change (fun i => low_shift zlane 0 (lP1 zlane x sn dn i)) with (lP1 zlane x sn dn).
    generalize (take_bands (lP1 zlane x sn dn) (hP1 zlane x sn) sn dn), (drop_bands (lP1 zlane x sn dn) (hP1 zlane x sn) sn dn).
    rewrite <- Hn. intros -> ->.
    pose proof (eP1_undo K R x B sn dn HB HR Nx Hd ltac:(lia)) as He. pose proof (oP1_undo K R x B sn dn HB HR Nx Hd ltac:(lia)) as Ho.
    destruct (Nat.eqb_spec (length x) 2) as [E2|E2].
    + assert (sn = 1 /\ dn = 1)%nat as [Es Ed] by lia. specialize (He 0%nat ltac:(lia)). specialize (Ho 0%nat ltac:(lia)).
      destruct (hP1_exact zlane R x B sn HB HR Nx 0) as [_ Hh].
      assert (uf K (nth 0 (tab (hP1 zlane x sn) dn) 0) = ul K (nth 0 (tab (hP1 zlane x sn) dn) 0)) as ->.
      { rewrite nth_tab by lia. by rewrite uf_exact, ul_exact by lia. }
      unfold oP1, eP1 in Ho, He. rewrite Ed in He, Ho at 2. cbn [Nat.add Nat.mul Nat.ltb Nat.leb Nat.eqb] in He, Ho. rewrite Ed in *.
      rewrite He in Ho |- *. rewrite Ho. by destruct x as [|a [|b [|? ?]]].
    + rewrite decode_p1_spec with (sn := sn) (dn := dn) by lia.
      transitivity (tab (fun k => nth k x 0) (length x)); [|done]. apply tab_ext. intros k Hk. destruct (split2 k) as [c [-> | ->]].
      * rewrite (zip2_even _ _ c) by done. apply Ho. lia.
      * rewrite (zip2_odd _ _ c) by done. apply He. lia.
Qed.
(** How far the samples of a line can grow. *)
Lemma encode_line_bounds p x : (p <= 1)%nat -> within B x -> 2 * B < 2 ^ 31 ->
  within (2 * B + 2) (encode_53 zlane p 0 x) /\
  within (3 * B / 2 + 2) (take (low_size (length x) p) (encode_53 zlane p 0 x)).
Proof.
  intros Hp Hx H31. pose proof (fun k => within_nth B x k Hx HB) as Nx.
  assert (p = 0 \/ p = 1)%nat as [-> | ->] by lia; destruct (Nat.le_gt_cases (length x) 1) as [H1|H2].
  - assert (encode_53 zlane 0 0 x = x) as -> by (by destruct x as [|v [|? ?]]; [| |simpl in H1; lia]).
    split; [|apply Forall_take]; refine (list.Forall_impl _ _ _ Hx _); intros; divlia.
  - rewrite (encode_53_p0 zlane 0 x (length x) _ _ eq_refl ltac:(lia) eq_refl eq_refl), take_bands.
    destruct (low_size_0 (length x)) as [Hn Hd]. set (sn := low_size _ 0) in *. set (dn := (length x - sn)%nat) in *.
    pose proof (fun k => lP0_exact zlane R x B sn dn HB HR Nx k) as Hl.
    pose proof (fun k => hP0_exact zlane R x B sn HB HR Nx k) as Hh.
    split; apply within_tab; intros k Hk; [unfold bands; destruct (Nat.ltb_spec k sn)|]; change (low_shift zlane 0 ?v) with v;
      [destruct (Hl k)|destruct (Hh (k - sn)%nat)|destruct (Hl k)]; divlia.
  - destruct x as [|v [|? ?]]; [by repeat constructor| |simpl in H1; lia]. specialize (Nx 0%nat). cbn in Nx.
    cbn -[i32 Z.shiftl Z.mul Z.div]. rewrite shiftl_1, i32_small by lia. split; repeat constructor. lia.
  - rewrite (encode_53_p1 zlane 0 x (length x) _ _ eq_refl ltac:(lia) eq_refl eq_refl), take_bands.
    destruct (low_size_1 (length x)) as [Hn Hd]. set (sn := low_size _ 1) in *. set (dn := (length x - sn)%nat) in *.
    pose proof (fun k => lP1_exact zlane R x B sn dn HB HR Nx k) as Hl.
    pose proof (fun k => hP1_exact zlane R x B sn HB HR Nx k) as Hh.
    split; apply within_tab; intros k Hk; [unfold bands; destruct (Nat.ltb_spec k sn)|]; change (low_shift zlane 0 ?v) with v;
      [destruct (Hl k)|destruct (Hh (k - sn)%nat)|destruct (Hl k)]; divlia.
Qed.
End whole_line.

Lemma length_encode_53 K p dc x : (p <= 1)%nat -> length (encode_53 K p dc x) = length x.
Proof.
  intros Hp. destruct (Nat.le_gt_cases (length x) 1) as [H1|H2].
  { destruct x as [|v [|? ?]]; [done| |simpl in H1; lia]. unfold encode_53. cbn [length Nat.leb Nat.eqb]. by case_match. }
  assert (p = 0 \/ p = 1)%nat as [-> | ->] by lia.
  - rewrite (encode_53_p0 K dc x (length x) _ _ eq_refl ltac:(lia) eq_refl eq_refl), length_tab. destruct (low_size_0 (length x)). lia.
  - rewrite (encode_53_p1 K dc x (length x) _ _ eq_refl ltac:(lia) eq_refl eq_refl), length_tab. destruct (low_size_1 (length x)). lia.
Qed.

(** ** Forward transforms *)

(** What a tile needs of a forward transform: on samples that leave room in the lanes its
    lines are lifted in the integers.  [ok parity width] are the rows it can transform. *)
Class ForwardExact (F : forward) (R : Z) (ok : nat -> nat -> bool) : Prop := {
  columns_exact p dc B x : (p <= 1)%nat -> 0 <= B -> 2 * B + 2 <= R -> within B x -> within B (shifted dc x) ->
    encode_v F p dc x = encode_53 zlane p 0 (shifted dc x);
  rows_exact p B x : (p <= 1)%nat -> 0 <= B -> 2 * B + 2 <= R -> within B x -> ok p (length x) = true ->
    encode_h F p x = encode_53 zlane p 0 x;
}.

Lemma shifted_0 x : shifted 0 x = x.
Proof. unfold shifted. rewrite <- (list_fmap_id x) at 2. apply list_fmap_ext. intros ? v _. unfold id. lia. Qed.

(** Rows are lifted like columns without a shift. *)
Lemma encode_53_rows K p x : encode_53_h K p 0 x = encode_53 K p 0 x.
Proof.
  unfold encode_53_h, encode_53. destruct (length x <=? 1)%nat; [|done]. rewrite Z.eqb_refl. cbn [negb]. rewrite orb_false_r, andb_comm.
  by destruct (length x =? 1)%nat, (p =? 1)%nat.
Qed.

#[export] Instance forward_53_exact : ForwardExact forward_53 R32 (fun _ _ => true).
Proof.
  constructor; intros; cbn [forward_53 encode_v encode_h].
  - by apply (encode_53_exact fwd32 R32 B).
  - rewrite encode_53_rows, (encode_53_exact fwd32 R32 B), shifted_0 by (rewrite ?shifted_0; done). done.
Qed.

(** C33: the averages of the 16-bit lanes are exact although the sum of two samples needs 17
    bits: [predict_avg_16_53] for all samples; [update_avg_16_53] for all but the two
    places where its bias or its result leaves the 16 bits, and there it is wrong. *)
Theorem averages_16 (a b : Z) : int16 a -> int16 b ->
  predict_avg_16_53 a b = (a + b) / 2 /\
  (update_avg_16_53 a b = (a + b + 2) / 4 <-> ~ (b = -32768 \/ a = 32767 /\ b = 32767)).
Proof.
  intros Ha Hb. split; [by apply predict_avg_exact|]. split.
  - intros E Hw. by apply (update_avg_wrong a b).
  - intros H. apply update_avg_exact; tauto.
Qed.
Lemma averages_16_witness : predict_avg_16_53 32767 (-3) = 16382 /\
  (update_avg_16_53 32767 (-3) = 8191 <-> ~ (-3 = -32768 \/ 32767 = 32767 /\ -3 = 32767)).
Proof. apply (averages_16 32767 (-3)); unfold int16; lia. Defined.
