(* ===== verification/WaveletNarrow.v ===== *)
(** The forward transform of 16-bit lanes: where it lifts a line exactly, and where not.

    Samples that leave room in 16 bits are lifted as in the integers, by the vectors and by
    the scalar tails alike.  The exception is the last vector of an odd row whose low band
    fills the vectors: it reads past the low band. *)
From S2P Require Import Prelude Geometry Wavelet WaveletLines WaveletExact.

Lemma imap_tab g f n : imap g (tab f n) = tab (fun k => g k (f k)) n.
Proof. apply tab_eq; [by rewrite length_imap, length_tab|]. intros k Hk. by rewrite list_lookup_imap, lookup_tab. Qed.
Lemma insert_0_tab v f m : (0 < m)%nat -> <[0%nat := v]> (tab f m) = tab (fun k => if (k =? 0)%nat then v else f k) m.
Proof.
  intros Hm. apply tab_eq; [by rewrite length_insert, length_tab|]. intros k Hk. destruct (Nat.eqb_spec k 0) as [->|].
  - by rewrite list_lookup_insert_eq by (rewrite length_tab; lia).
  - by rewrite list_lookup_insert_ne, lookup_tab by lia.
Qed.
Lemma fmap_tab (g : Z -> Z) f n : g <$> tab f n = tab (fun k => g (f k)) n.
Proof. apply tab_eq; [by rewrite length_fmap, length_tab|]. intros k Hk. by rewrite list_lookup_fmap, lookup_tab. Qed.
Lemma tab_app low high sn dn : tab low sn ++ tab high dn = tab (bands low high sn) (sn + dn).
Proof.
  rewrite <- (take_bands low high sn dn), <- (drop_bands low high sn dn). apply take_drop.
Qed.
Lemma narrow_even_tab p sn x B : (forall k, Z.abs (nth k x 0) <= B) -> B <= R16 ->
  narrow_even p sn x = tab (fun k => nth (2 * k + p) x 0) sn.
Proof. intros Hx HB. apply tab_ext. intros k _. specialize (Hx (2 * k + p)%nat). unfold R16 in HB. apply i16_small. lia. Qed.
Lemma narrow_odd_tab p dn x B : (forall k, Z.abs (nth k x 0) <= B) -> B <= R16 ->
  narrow_odd p dn x = tab (fun k => nth (2 * k + (1 - p)) x 0) dn.
Proof. intros Hx HB. apply tab_ext. intros k _. specialize (Hx (2 * k + (1 - p))%nat). unfold R16 in HB. apply i16_small. lia. Qed.

(** ** Steps of a lane and of a tail *)

Section steps.
Context (B : Z) (HB : 0 <= B) (HR : 2 * B + 2 <= R16).

Lemma vector_predict16 ok el er : Z.abs ok <= B -> Z.abs el <= B -> Z.abs er <= B -> vector_predict ok el er = ok - (el + er) / 2.
Proof.
  intros Ho Hl Hr. unfold R16, vector_predict, sub16, add16 in *. rewrite (i16_small (el + er)), shiftr_1 by lia. apply i16_small. divlia.
Qed.
Lemma tail_predict16 ok el er : Z.abs ok <= B -> Z.abs el <= B -> Z.abs er <= B -> tail_predict ok el er = ok - (el + er) / 2.
Proof.
  intros Ho Hl Hr. unfold R16, tail_predict in *. rewrite shiftr_1, (i16_small ((el + er) / 2)) by divlia.
  destruct (Z.eqb_spec el er) as [->|]; rewrite i16_small by divlia; divlia.
Qed.
Lemma same_predict16 ok el : Z.abs ok <= B -> Z.abs el <= B -> sub16 ok el = ok - (el + el) / 2.
Proof. intros Ho Hl. unfold R16, sub16 in *. rewrite i16_small by lia. divlia. Qed.

Lemma vector_update16 ek ol or_ : Z.abs ol <= 2 * B -> Z.abs or_ <= 2 * B -> Z.abs (ek + (ol + or_ + 2) / 4) <= 2 * B + 2 ->
  vector_update ek ol or_ = ek + (ol + or_ + 2) / 4.
Proof.
  intros Hl Hr He. unfold R16, vector_update, add16 in *. rewrite update_avg_exact by (unfold int16; lia). by rewrite i16_small by lia.
Qed.
Lemma tail_update16 ek ol or_ : Z.abs (ek + (ol + or_ + 2) / 4) <= 2 * B + 2 -> tail_update ek ol or_ = ek + (ol + or_ + 2) / 4.
Proof. intros He. unfold R16, tail_update in *. rewrite shiftr_2. by rewrite i16_small by lia. Qed.
End steps.

(** ** Lines *)

(** The rows whose vectors run past the low band. *)
Definition overruns (lanes parity width : nat) : bool :=
  (parity =? 1)%nat && (1 <? width)%nat && Nat.odd width && ((width / 2) mod lanes =? 0)%nat.

Section narrow.
Context (x : list Z) (B : Z) (n sn dn lanes : nat).
Context (HB : 0 <= B) (HR : 2 * B + 2 <= R16) (Hx : forall k, Z.abs (nth k x 0) <= B) (H2 : (2 <= n)%nat) (Hn : n = (sn + dn)%nat).
Context (Hlanes : (0 < lanes)%nat).
Abbreviation X k := (nth k%nat x 0).
Abbreviation evens p := (tab (fun k => X (2 * k + p)) sn).
Abbreviation odds p := (tab (fun k => X (2 * k + (1 - p))) dn).

Lemma in_vectors_le m : (in_vectors lanes m <= m)%nat.
Proof. unfold in_vectors. pose proof (Nat.div_mod m lanes). lia. Qed.

(** The lifting steps through the neighbours the source computes. *)
Section even.
Context (Hd : (dn <= sn <= dn + 1)%nat).

Lemma hP0_indices k : hP0 zlane x sn k =
  X (2 * k + 1) - (X (2 * (predict_indices 0 sn k).1) + X (2 * (predict_indices 0 sn k).2)) / 2.
Proof. unfold hP0. cbn [predict_indices Nat.eqb fst snd zlane sub avg]. destruct (k + 1 <? sn)%nat; divlia. Qed.
Lemma lP0_indices k : (k < sn)%nat -> lP0 zlane x sn dn k =
  X (2 * k) + (hP0 zlane x sn (update_indices 0 dn k).1 + hP0 zlane x sn (update_indices 0 dn k).2 + 2) / 4.
Proof.
  intros Hk. unfold lP0. cbn [update_indices Nat.eqb fst snd zlane add upd uf ul]. destruct (Nat.eqb_spec k 0) as [->|].
  - rewrite (proj2 (Nat.ltb_lt 0 dn)) by lia. cbn [Nat.ltb Nat.leb]. change (2 * 0)%nat with 0%nat. do 2 f_equal. lia.
  - rewrite (proj2 (Nat.ltb_lt 0 k)), (proj2 (Nat.ltb_lt 0 dn)) by lia. destruct (Nat.ltb_spec k dn); [done|].
    replace (dn - 1)%nat with (k - 1)%nat by lia. do 2 f_equal. lia.
Qed.
End even.
Section odd.
Context (Hd : (sn <= dn <= sn + 1)%nat).

Lemma hP1_indices k : (k < dn)%nat -> hP1 zlane x sn k =
  X (2 * k) - (X (2 * (predict_indices 1 sn k).1 + 1) + X (2 * (predict_indices 1 sn k).2 + 1)) / 2.
Proof.
  intros Hk. unfold hP1. cbn [predict_indices Nat.eqb fst snd zlane sub avg]. destruct (Nat.eqb_spec k 0) as [->|].
  - rewrite (proj2 (Nat.ltb_lt 0 sn)) by lia. cbn [Nat.ltb Nat.leb]. change (2 * 0 + 1)%nat with 1%nat. change (2 * 0)%nat with 0%nat. divlia.
  - rewrite (proj2 (Nat.ltb_lt 0 k)), (proj2 (Nat.ltb_lt 0 sn)) by lia. destruct (Nat.ltb_spec k sn); [f_equal; f_equal; lia|].
    replace (sn - 1)%nat with (k - 1)%nat by lia. divlia.
Qed.
Lemma lP1_indices k : lP1 zlane x sn dn k =
  X (2 * k + 1) + (hP1 zlane x sn (update_indices 1 dn k).1 + hP1 zlane x sn (update_indices 1 dn k).2 + 2) / 4.
Proof.
  unfold lP1. cbn [update_indices Nat.eqb fst snd zlane add upd uf ul]. destruct (k + 1 <? dn)%nat; [done|]. do 2 f_equal. lia.
Qed.
End odd.

(** Both parities at once. *)
Definition highZ (p k : nat) : Z :=
  X (2 * k + (1 - p)) - (X (2 * (predict_indices p sn k).1 + p) + X (2 * (predict_indices p sn k).2 + p)) / 2.
Definition lowZ (p k : nat) : Z :=
  X (2 * k + p) + (highZ p (update_indices p dn k).1 + highZ p (update_indices p dn k).2 + 2) / 4.

Context (p : nat) (Hsizes : (p = 0 /\ dn <= sn <= dn + 1 \/ p = 1 /\ sn <= dn <= sn + 1)%nat).

Lemma highZ_bound k : Z.abs (highZ p k) <= 2 * B.
Proof.
  unfold highZ. pose proof (Hx (2 * k + (1 - p))). pose proof (Hx (2 * (predict_indices p sn k).1 + p)).
  pose proof (Hx (2 * (predict_indices p sn k).2 + p)). divlia.
Qed.
Lemma lowZ_bound k : Z.abs (lowZ p k) <= 2 * B + 2.
Proof.
  unfold lowZ. pose proof (Hx (2 * k + p)). pose proof (highZ_bound (update_indices p dn k).1).
  pose proof (highZ_bound (update_indices p dn k).2). divlia.
Qed.

Lemma predict_in k : (k < dn)%nat -> ((predict_indices p sn k).1 < sn /\ (predict_indices p sn k).2 < sn)%nat.
Proof.
  intros Hk. unfold predict_indices. destruct Hsizes as [[-> H]|[-> H]]; cbn [Nat.eqb fst snd].
  - destruct (Nat.ltb_spec (k + 1) sn); lia.
  - destruct (Nat.ltb_spec 0 k), (Nat.ltb_spec k sn), (Nat.ltb_spec 0 sn); lia.
Qed.
Lemma update_in k : (k < sn)%nat -> ((update_indices p dn k).1 < dn /\ (update_indices p dn k).2 < dn)%nat.
Proof.
  intros Hk. unfold update_indices. destruct Hsizes as [[-> H]|[-> H]]; cbn [Nat.eqb fst snd].
  - destruct (Nat.ltb_spec 0 k), (Nat.ltb_spec k dn), (Nat.ltb_spec 0 dn); lia.
  - destruct (Nat.ltb_spec (k + 1) dn); lia.
Qed.

Lemma encode_Z : length x = n -> sn = low_size n p -> encode_53 zlane p 0 x = tab (bands (lowZ p) (highZ p) sn) (sn + dn).
Proof.
  intros Hl Hs. assert (dn = n - sn)%nat as Ed by lia. assert (forall k, (k < dn)%nat -> 
    highZ p k = if (p =? 0)%nat then hP0 zlane x sn k else hP1 zlane x sn k) as Hh.
  { intros k Hk. unfold highZ. destruct Hsizes as [[-> H]|[-> H]]; cbn [Nat.eqb].
    - rewrite hP0_indices by lia. by rewrite !Nat.add_0_r.
    - rewrite hP1_indices by lia. change (1 - 1)%nat with 0%nat. by rewrite Nat.add_0_r. }
  pose proof update_in as Hu. destruct Hsizes as [[-> H]|[-> H]].
  - rewrite (encode_53_p0 zlane 0 x n sn dn) by lia. apply tab_ext. intros k Hk. unfold bands.
    destruct (Nat.ltb_spec k sn); [|symmetry; apply Hh; lia]. change (low_shift zlane 0 ?v) with v. rewrite lP0_indices by lia.
    unfold lowZ. destruct (Hu k) as [U1 U2]; [done|]. rewrite (Hh _ U1), (Hh _ U2). by rewrite Nat.add_0_r.
  - rewrite (encode_53_p1 zlane 0 x n sn dn) by lia. apply tab_ext. intros k Hk. unfold bands.
    destruct (Nat.ltb_spec k sn); [|symmetry; apply Hh; lia]. change (low_shift zlane 0 ?v) with v. rewrite lP1_indices by lia.
    unfold lowZ. destruct (Hu k) as [U1 U2]; [done|]. by rewrite (Hh _ U1), (Hh _ U2).
Qed.

(** The vertical kernel. *)
Lemma predict_v_exact : predict_v p sn (evens p) (odds p) = tab (highZ p) dn.
Proof.
  unfold predict_v. rewrite imap_tab. apply tab_ext. intros k Hk. destruct (predict_in k Hk) as [H1 H3]. unfold highZ.
  destruct (predict_indices p sn k) as [el er]. cbn [fst snd] in *. rewrite !nth_tab by done.
  destruct (Nat.eqb_spec el er) as [->|]; [by apply (same_predict16 B)|by apply (vector_predict16 B)].
Qed.
Lemma update_v_exact : update_v p dn (evens p) (tab (highZ p) dn) = tab (lowZ p) sn.
Proof.
  unfold update_v. rewrite imap_tab. apply tab_ext. intros k Hk. destruct (update_in k Hk) as [H1 H3]. pose proof (lowZ_bound k) as Hl.
  unfold lowZ in *. destruct (update_indices p dn k) as [ol or_]. cbn [fst snd] in *. rewrite !nth_tab by done.
  apply (vector_update16 B); try done; apply highZ_bound.
Qed.

(** Without an overrun the vectors stay in the low band. *)
Lemma bulk_low : p = 1%nat -> overruns lanes p n = false ->
  (in_vectors lanes (if (1 <? dn)%nat then Nat.min (dn - 1) sn else 0) < sn)%nat.
Proof.
  intros -> Hok. destruct Hsizes as [[? _]|[_ H]]; [done|]. pose proof (in_vectors_le (Nat.min (dn - 1) sn)) as Hle.
  pose proof (in_vectors_le 0). destruct (Nat.ltb_spec 1 dn); [|lia].
  destruct (decide (dn = sn + 1)%nat) as [E|E]; [|lia]. rewrite Nat.min_r in * by lia.
  destruct (decide (in_vectors lanes sn = sn)) as [Es|]; [|lia]. unfold overruns in Hok.
  rewrite (proj2 (Nat.ltb_lt 1 n)) in Hok by lia.
  replace n with (2 * sn + 1)%nat in Hok by lia. rewrite half_odd, <- Nat.negb_even, even_odd in Hok.
  unfold in_vectors in Es. replace (sn mod lanes)%nat with 0%nat in Hok; [done|].
  symmetry. rewrite <- Es. apply Nat.Div0.mod_mul.
Qed.

(** The horizontal kernel, which agrees with it unless the vectors overrun. *)
Lemma predict_h_exact : overruns lanes p n = false -> predict_h lanes p sn dn (evens p) (odds p) = tab (highZ p) dn.
Proof.
  intros Hok. pose proof bulk_low as Hbulk. unfold predict_h. destruct Hsizes as [[-> H]|[-> H]]; cbn [Nat.eqb].
  - rewrite imap_tab. apply tab_ext. intros k Hk. pose proof (in_vectors_le (Nat.min dn (sn - 1))).
    unfold highZ. cbn [predict_indices Nat.eqb fst snd]. destruct (Nat.ltb_spec k (in_vectors lanes (Nat.min dn (sn - 1)))).
    + rewrite !nth_tab, (proj2 (Nat.ltb_lt (k + 1) sn)) by lia. by apply (vector_predict16 B).
    + destruct (Nat.ltb_spec (k + 1) sn); rewrite !nth_tab by lia; by apply (tail_predict16 B).
  - rewrite (proj2 (Nat.ltb_lt 0 dn)), (proj2 (Nat.ltb_lt 0 sn)) by lia. cbn [andb].
    set (no_bdry := if (1 <? dn)%nat then Nat.min (dn - 1) sn else 0%nat).
    specialize (Hbulk eq_refl Hok). fold no_bdry in Hbulk.
    rewrite insert_0_tab, imap_tab by lia. apply tab_ext. intros k Hk. unfold highZ. cbn [predict_indices Nat.eqb fst snd].
    destruct (Nat.eqb_spec k 0) as [->|Hk0].
    + rewrite !nth_tab, (proj2 (Nat.ltb_lt 0 sn)) by lia. cbn [Nat.ltb Nat.leb]. by apply (same_predict16 B).
    + rewrite (proj2 (Nat.ltb_lt 0 k)), (proj2 (Nat.ltb_lt 0 sn)) by lia.
      destruct (Nat.ltb_spec k (1 + in_vectors lanes no_bdry)).
      * rewrite !app_nth1, !nth_tab, (proj2 (Nat.ltb_lt k sn)) by (rewrite ?length_tab; lia). by apply (vector_predict16 B).
      * destruct (Nat.ltb_spec k sn); rewrite !nth_tab by lia; by apply (tail_predict16 B).
Qed.
Lemma update_h_exact : update_h lanes p sn dn (evens p) (tab (highZ p) dn) = tab (lowZ p) sn.
Proof.
  pose proof highZ_bound as Hhb. pose proof lowZ_bound as Hlb. unfold update_h. destruct Hsizes as [[-> H]|[-> H]]; cbn [Nat.eqb]; rewrite imap_tab; apply tab_ext; intros k Hk.
  - pose proof (Hlb k) as Hl. unfold lowZ in *. cbn [update_indices Nat.eqb fst snd] in *.
    pose proof (in_vectors_le (Nat.min sn dn - 1)). rewrite !(proj2 (Nat.ltb_lt 0 dn)) in * by lia.
    destruct (Nat.eqb_spec k 0) as [->|Hk0].
    + rewrite (proj2 (Nat.ltb_lt 0 sn)), nth_tab by lia. rewrite !(proj2 (Nat.ltb_lt 0 dn)) in * by lia.
      change (0 <? 0)%nat with false in *. cbn [andb].
      apply (vector_update16 B); try done; apply Hhb.
    + rewrite (proj2 (Nat.ltb_lt 0 k)) in * by lia. destruct (Nat.ltb_spec k (1 + in_vectors lanes (Nat.min sn dn - 1))).
      * rewrite (proj2 (Nat.ltb_lt k dn)) in * by lia. rewrite !nth_tab by lia. apply (vector_update16 B); try done; apply Hhb.
      * destruct (Nat.ltb_spec k dn); rewrite !nth_tab by lia; by apply (tail_update16 B).
  - pose proof (Hlb k) as Hl. unfold lowZ in *. cbn [update_indices Nat.eqb fst snd] in *.
    rewrite (proj2 (Nat.ltb_lt 0 sn)) by lia. cbn [andb].
    assert (in_vectors lanes (if (1 <? dn)%nat then Nat.min (sn - 1) (dn - 1) else 0) <= Nat.min (sn - 1) (dn - 1))%nat as Hb.
    { destruct (1 <? dn)%nat; [apply in_vectors_le|]. pose proof (in_vectors_le 0). lia. }
    destruct (Nat.ltb_spec k (in_vectors lanes (if (1 <? dn)%nat then Nat.min (sn - 1) (dn - 1) else 0))).
    + rewrite (proj2 (Nat.ltb_lt (k + 1) dn)) in * by lia. rewrite !nth_tab by lia. apply (vector_update16 B); try done; apply Hhb.
    + destruct (Nat.ltb_spec (k + 1) dn); rewrite !nth_tab by lia; by apply (tail_update16 B).
Qed.
End narrow.

Lemma low_sizes n p : (p <= 1)%nat -> let sn := low_size n p in let dn := (n - sn)%nat in
  n = (sn + dn)%nat /\ (p = 0 /\ dn <= sn <= dn + 1 \/ p = 1 /\ sn <= dn <= sn + 1)%nat.
Proof.
  intros Hp. assert (p = 0 \/ p = 1)%nat as [-> | ->] by lia; [destruct (low_size_0 n)|destruct (low_size_1 n)]; cbv zeta; split; try done;
    [left|right]; done.
Qed.

(** A shift of the line again moves the low samples only. *)
Lemma bands_shifted dc x n sn dn p : n = length x -> (2 <= n)%nat -> n = (sn + dn)%nat ->
  (p = 0 /\ dn <= sn <= dn + 1 \/ p = 1 /\ sn <= dn <= sn + 1)%nat ->
  tab (bands (lowZ (shifted dc x) sn dn p) (highZ (shifted dc x) sn p) sn) (sn + dn) =
  tab (bands (fun k => lowZ x sn dn p k - dc) (highZ x sn p) sn) (sn + dn).
Proof.
  intros Hl H2 Hn Hs. assert (forall k, (k < dn)%nat -> highZ (shifted dc x) sn p k = highZ x sn p k) as Hh.
  { intros k Hk. unfold highZ. destruct (predict_in n sn dn 1 H2 Hn Nat.lt_0_1 p Hs k Hk). rewrite !nth_shifted by lia. divlia. }
  apply tab_ext. intros k Hk. unfold bands. destruct (Nat.ltb_spec k sn); [|apply Hh; lia].
  unfold lowZ. destruct (update_in n sn dn 1 H2 Hn Nat.lt_0_1 p Hs k) as [U1 U2]; [done|]. rewrite (Hh _ U1), (Hh _ U2), nth_shifted by lia. lia.
Qed.

Lemma encode_53_16_v_exact p dc B x : (p <= 1)%nat -> 0 <= B -> 2 * B + 2 <= R16 -> within B x -> within B (shifted dc x) ->
  encode_53_16_v p dc x = encode_53 zlane p 0 (shifted dc x).
Proof.
  intros Hp HB HR Hx Hy. destruct (Nat.le_gt_cases (length x) 1) as [H1|H2].
  { destruct x as [|v [|? ?]]; [done| |simpl in H1; lia].
    apply list.Forall_cons in Hy as [Hy _]. apply list.Forall_cons in Hx as [Hx _]. unfold encode_53, encode_53_16_v, R16 in *.
    cbn [length Nat.leb Nat.eqb shifted fmap list_fmap nth].
    rewrite Z.eqb_refl. change (negb true) with false. rewrite orb_false_r, !andb_true_l, !shiftl_1.
    rewrite (i16_small v), (i16_small dc) by lia. rewrite (i16_small (v - dc)) by lia.
    assert ((if dc =? 0 then v else v - dc) = v - dc) as -> by (destruct (Z.eqb_spec dc 0); lia).
    rewrite (i16_small (2 * (v - dc))), i32_small by lia.
    destruct (Nat.eqb_spec p 1); cbn [orb]; [by rewrite i16_small by lia|].
    destruct (Z.eqb_spec dc 0) as [->|]; cbn [negb]; [f_equal; lia|]. by rewrite i16_small by lia. }
  pose proof (fun k => within_nth B x k Hx HB) as Nx. pose proof (fun k => within_nth B _ k Hy HB) as Ny.
  assert (length (shifted dc x) = length x) as Hl by (unfold shifted; by rewrite length_fmap).
  unfold encode_53_16_v. rewrite (proj2 (Nat.leb_gt (length x) 1)) by lia. cbv zeta.
  destruct (low_sizes (length x) p Hp) as [Hn Hs]. cbv zeta in Hn, Hs.
  set (sn := low_size (length x) p) in *. set (dn := (length x - sn)%nat) in *.
  rewrite (encode_Z _ (length x) sn dn 1) by (done || lia).
  rewrite (bands_shifted dc x (length x)) by done. rewrite <- tab_app.
  rewrite (narrow_even_tab p sn x B Nx), (narrow_odd_tab p dn x B Nx) by lia.
  rewrite (predict_v_exact x B (length x) sn dn 1) by (done || lia).
  rewrite (update_v_exact x B (length x) sn dn 1) by (done || lia). f_equal.
  destruct (Z.eqb_spec dc 0) as [->|Hdc]; [apply tab_ext; intros; lia|]. rewrite fmap_tab. apply tab_ext. intros k Hk.
  assert (Z.abs dc <= 2 * B) as Hb. { pose proof (Nx 0%nat) as A1. pose proof (Ny 0%nat) as A2. rewrite nth_shifted in A2 by lia. lia. }
  unfold sub16, R16 in *. rewrite (i16_small dc) by lia. apply i16_small.
  destruct (update_in (length x) sn dn 1 ltac:(lia) Hn Nat.lt_0_1 p Hs k) as [U1 U2]; [done|].
  assert (Z.abs (lowZ (shifted dc x) sn dn p k) <= 2 * B + 2) as Hlb by (eapply lowZ_bound with (n := length x) (lanes := 1%nat); (done || lia)).
  assert (tab (lowZ (shifted dc x) sn dn p) sn = tab (fun k => lowZ x sn dn p k - dc) sn) as Et.
  { pose proof (bands_shifted dc x (length x) sn dn p eq_refl ltac:(lia) Hn Hs) as Eb. apply (f_equal (take sn)) in Eb.
    by rewrite !take_bands in Eb. }
  apply (f_equal (fun l => nth k l 0)) in Et. rewrite !nth_tab in Et by done. lia.
Qed.

Lemma encode_53_16_h_exact lanes p B x : (0 < lanes)%nat -> (p <= 1)%nat -> 0 <= B -> 2 * B + 2 <= R16 -> within B x ->
  overruns lanes p (length x) = false -> encode_53_16_h lanes p x = encode_53 zlane p 0 x.
Proof.
  intros Hlanes Hp HB HR Hx Hok. destruct (Nat.le_gt_cases (length x) 1) as [H1|H2].
  { destruct x as [|v [|? ?]]; [unfold encode_53_16_h; cbn; by rewrite andb_false_r| |simpl in H1; lia]. unfold encode_53, encode_53_16_h.
    cbn [length Nat.leb Nat.eqb nth]. rewrite Z.eqb_refl. change (negb true) with false.
    rewrite orb_false_r, andb_true_l, andb_true_r. by destruct (p =? 1)%nat. }
  pose proof (fun k => within_nth B x k Hx HB) as Nx.
  unfold encode_53_16_h. rewrite (proj2 (Nat.leb_gt (length x) 1)) by lia. cbv zeta.
  destruct (low_sizes (length x) p Hp) as [Hn Hs]. cbv zeta in Hn, Hs.
  set (sn := low_size (length x) p) in *. set (dn := (length x - sn)%nat) in *.
  rewrite (encode_Z _ (length x) sn dn lanes) by (done || lia). rewrite <- tab_app.
  rewrite (narrow_even_tab p sn x B Nx), (narrow_odd_tab p dn x B Nx) by lia.
  rewrite (predict_h_exact x B (length x) sn dn lanes) by (done || lia).
  by rewrite (update_h_exact x B (length x) sn dn lanes) by (done || lia).
Qed.

#[export] Instance forward_53_16_exact lanes : (0 < lanes)%nat ->
  ForwardExact (forward_53_16 lanes) R16 (fun p n => negb (overruns lanes p n)).
Proof.
  intros Hlanes. constructor; intros; cbn [forward_53_16 encode_v encode_h].
  - by apply (encode_53_16_v_exact _ _ B).
  - apply (encode_53_16_h_exact _ _ B); try done. by apply negb_true_iff.
Qed.

(** C32: compressing in 16-bit lanes gives the coefficients of the 32-bit transform: for
    columns with the level shift, and for rows of any width and vector length, as long as
    the samples leave room in 16 bits and the vectors of the row do not overrun. *)
Theorem narrow_lines_agree (lanes p : nat) (dc B : Z) (x : list Z) :
  (0 < lanes)%nat -> (p <= 1)%nat -> 0 <= B -> 2 * B + 2 <= R16 -> within B x -> within B (shifted dc x) ->
  encode_53_16_v p dc x = encode_53 fwd32 p dc x /\
  (overruns lanes p (length x) = false -> encode_53_16_h lanes p x = encode_53 fwd32 p 0 x).
Proof.
  intros Hl Hp HB HR Hx Hy. assert (2 * B + 2 <= R32) by (unfold R16, R32 in *; lia). split.
  - rewrite (encode_53_16_v_exact p dc B) by done. by rewrite (encode_53_exact fwd32 R32 B) by done.
  - intros Hok. rewrite (encode_53_16_h_exact lanes p B) by done.
    by rewrite (encode_53_exact fwd32 R32 B), shifted_0 by (rewrite ?shifted_0; done).
Qed.
Lemma narrow_lines_agree_witness :
  encode_53_16_v 1 128 [7; 255; 0; 31; 90] = encode_53 fwd32 1 128 [7; 255; 0; 31; 90] /\
  (overruns 8 1 5 = false -> encode_53_16_h 8 1 [7; 255; 0; 31; 90] = encode_53 fwd32 1 0 [7; 255; 0; 31; 90]).
Proof.
  apply (narrow_lines_agree 8 1 128 255 [7; 255; 0; 31; 90]); [lia|lia|lia|vm_compute; congruence| |];
    repeat constructor; vm_compute; congruence.
Defined.

(** The overrun: an odd row of 17 samples whose 8 low samples fill a vector.  The last high
    sample is predicted from the last low sample and the first high sample, and the row does
    not come back. *)
Definition overrun_row : list Z := [100; 0; 0; 0; 0; 0; 0; 0; 0; 0; 0; 0; 0; 0; 0; 0; 0].
Example odd_row_overrun :
  overruns 8 1 17 = true /\ decode_53 inv16 1 8 (encode_53 fwd32 1 0 overrun_row) = overrun_row /\
  decode_53 inv16 1 8 (encode_53_16_h 8 1 overrun_row) <> overrun_row.
Proof. by vm_compute. Qed.
