(* ===== verification/WaveletTile.v ===== *)
(** A whole tile component through the 5/3 transform.

    Each level transforms the columns and the rows of the resolution in place; the inverse
    visits the same lines of the same buffer in the opposite order.  The levels cancel one
    by one, as long as the samples stay inside the lanes, and the growth of the samples from
    level to level is bounded. *)
From S2P Require Import Prelude Geometry Wavelet WaveletLines WaveletExact.

(** ** Rows and columns of the buffer *)

Definition rectangular (W : nat) (buf : list (list Z)) : Prop := Forall (fun row => length row = W) buf.

Lemma on_prefix_cancel n f g l : length (f (take n l)) = length (take n l) -> g (f (take n l)) = take n l ->
  on_prefix n g (on_prefix n f l) = l.
Proof.
  intros Hf Hg. unfold on_prefix. rewrite length_take in Hf. destruct (Nat.le_gt_cases n (length l)) as [H|H].
  - rewrite Nat.min_l in Hf by lia. rewrite take_app_length', drop_app_length' by lia. by rewrite Hg, take_drop.
  - rewrite Nat.min_r in Hf by lia. rewrite (drop_ge l) by lia. rewrite app_nil_r, take_ge, drop_ge, app_nil_r by lia.
    rewrite Hg. apply take_ge. lia.
Qed.
Lemma length_on_prefix n f l : length (f (take n l)) = length (take n l) -> length (on_prefix n f l) = length l.
Proof. intros Hf. unfold on_prefix. rewrite length_app, Hf, length_take, length_drop. lia. Qed.
Lemma nth_on_prefix n f l k : length (f (take n l)) = length (take n l) -> (k < n)%nat -> (k < length l)%nat ->
  nth k (on_prefix n f l) 0 = nth k (f (take n l)) 0.
Proof. intros Hf Hk Hl. unfold on_prefix. apply app_nth1. rewrite Hf, length_take. lia. Qed.
Lemma on_prefix_ext n f g l : f (take n l) = g (take n l) -> on_prefix n f l = on_prefix n g l.
Proof. unfold on_prefix. by intros ->. Qed.

(** Lookups of mapped lists. *)
Ltac lk := cbn [fmap option_fmap option_map compose default].
(** The buffer with its first [m] columns replaced. *)
Definition set_columns (m : nat) (F : nat -> list Z) (buf : list (list Z)) : list (list Z) :=
  imap (fun r row => imap (fun c v => if (c <? m)%nat then nth r (F c) 0 else v) row) buf.

Lemma lookup_set_columns m F buf r : set_columns m F buf !! r =
  (fun row => imap (fun c v => if (c <? m)%nat then nth r (F c) 0 else v) row) <$> buf !! r.
Proof. unfold set_columns. by rewrite list_lookup_imap. Qed.
Lemma length_set_columns m F buf : length (set_columns m F buf) = length buf.
Proof. apply length_imap. Qed.
Lemma rectangular_set_columns m F W buf : rectangular W buf -> rectangular W (set_columns m F buf).
Proof.
  unfold rectangular. rewrite !Forall_lookup. intros H r row. rewrite lookup_set_columns. destruct (buf !! r) eqn:E; [|done].
  intros [= <-]. rewrite length_imap. by apply (H r).
Qed.

(** Two buffers with the same cells. *)
Lemma rows_eq (b1 b2 : list (list Z)) : length b1 = length b2 ->
  (forall r row1 row2, b1 !! r = Some row1 -> b2 !! r = Some row2 -> row1 = row2) -> b1 = b2.
Proof.
  intros Hl H. apply list_eq. intros r. destruct (b1 !! r) as [row1|] eqn:E1, (b2 !! r) as [row2|] eqn:E2.
  - f_equal. by apply (H r).
  - apply lookup_lt_Some in E1. apply lookup_ge_None in E2. lia.
  - apply lookup_lt_Some in E2. apply lookup_ge_None in E1. lia.
  - done.
Qed.
Lemma set_columns_ext m F G buf : (forall c, (c < m)%nat -> F c = G c) -> set_columns m F buf = set_columns m G buf.
Proof.
  intros H. apply imap_ext. intros r row _. apply imap_ext. intros c v _.
  destruct (Nat.ltb_spec c m); [|done]. by rewrite H.
Qed.
Lemma set_columns_twice m F G buf : set_columns m G (set_columns m F buf) = set_columns m G buf.
Proof.
  apply list_eq. intros r. rewrite !lookup_set_columns. destruct (buf !! r) as [row|]; [|done]. lk. f_equal.
  apply list_eq. intros c. rewrite !list_lookup_imap. destruct (row !! c); [|done].
  lk. by destruct (c <? m)%nat.
Qed.
Lemma column_set_columns m F W buf c : rectangular W buf -> (c < W)%nat -> length (F c) = length buf ->
  column c (set_columns m F buf) = if (c <? m)%nat then F c else column c buf.
Proof.
  intros Hr Hc Hl. apply list_eq. intros r. unfold column. rewrite list_lookup_fmap, lookup_set_columns.
  destruct (buf !! r) as [row|] eqn:E.
  - lk. assert (length row = W) as Hrow by exact (Forall_lookup_1 _ _ _ _ Hr E). rewrite nth_lookup, list_lookup_imap.
    destruct (lookup_lt_is_Some_2 row c) as [v Hv]; [lia|]. rewrite Hv. lk. destruct (c <? m)%nat.
    + apply lookup_lt_Some in E. destruct (lookup_lt_is_Some_2 (F c) r) as [w Hw]; [lia|]. by rewrite nth_lookup, Hw.
    + rewrite list_lookup_fmap, E. lk. by rewrite nth_lookup, Hv.
  - lk. apply lookup_ge_None in E. destruct (c <? m)%nat; symmetry; apply lookup_ge_None; [lia|]. by rewrite length_fmap.
Qed.
Lemma set_column_set_columns m F buf : length (F m) = length buf ->
  set_column m (F m) (set_columns m F buf) = set_columns (S m) F buf.
Proof.
  intros Hl. apply rows_eq; [unfold set_column; rewrite length_zip_with, !length_set_columns; lia|].
  intros r row1 row2. unfold set_column. rewrite lookup_zip_with, !lookup_set_columns.
  destruct (buf !! r) as [row|] eqn:E; [|done]. lk. destruct (F m !! r) as [w|] eqn:Ew; [|done]. lk. intros [= <-] [= <-].
  apply list_eq. intros c. destruct (decide (c = m)) as [->|Hc].
  - destruct (row !! m) as [v|] eqn:Ev.
    + rewrite list_lookup_insert_eq by (rewrite length_imap; by eapply lookup_lt_Some). rewrite list_lookup_imap, Ev. lk.
      rewrite (proj2 (Nat.ltb_lt m (S m))) by lia. by rewrite nth_lookup, Ew.
    + rewrite !lookup_ge_None_2; [done| |]; rewrite ?length_insert, length_imap; by apply lookup_ge_None.
  - rewrite list_lookup_insert_ne by done. rewrite !list_lookup_imap. destruct (row !! c); [|done]. lk. f_equal.
    destruct (Nat.ltb_spec c m), (Nat.ltb_spec c (S m)); done || lia.
Qed.
Lemma set_columns_id m W buf : rectangular W buf -> set_columns m (fun c => column c buf) buf = buf.
Proof.
  intros Hr. apply rows_eq; [apply length_set_columns|]. intros r row1 row2. rewrite lookup_set_columns. intros H1 H2.
  rewrite H2 in H1. injection H1 as <-. apply list_eq. intros c. rewrite list_lookup_imap.
  destruct (row2 !! c) as [v|] eqn:Ev; [|done]. lk. f_equal. destruct (c <? m)%nat; [|done].
  rewrite nth_lookup. unfold column. rewrite list_lookup_fmap, H2. lk. by rewrite nth_lookup, Ev.
Qed.

(** Columns are independent of each other. *)
Lemma on_columns_closed rw rh f W buf : rectangular W buf -> (rw <= W)%nat ->
  (forall c, (c < rw)%nat -> length (f c (take rh (column c buf))) = length (take rh (column c buf))) ->
  on_columns rw rh f buf = set_columns rw (fun c => on_prefix rh (f c) (column c buf)) buf.
Proof.
  intros Hr HW. induction rw as [|m IH]; intros Hf.
  { unfold on_columns. cbn [seq foldl]. symmetry. apply rows_eq; [apply length_set_columns|]. intros r row1 row2. rewrite lookup_set_columns. intros H1 H2.
    rewrite H2 in H1. injection H1 as <-. apply list_eq. intros c. rewrite list_lookup_imap. by destruct (row2 !! c). }
  unfold on_columns in *. rewrite seq_S, foldl_app, IH by (lia || auto). cbn [foldl].
  assert (forall c, (c < S m)%nat -> length (on_prefix rh (f c) (column c buf)) = length buf) as Hlen.
  { intros c Hc. rewrite length_on_prefix by auto. unfold column. apply length_fmap. }
  rewrite (column_set_columns m _ W) by (done || lia || (apply Hlen; lia)). cbn [Nat.add]. rewrite Nat.ltb_irrefl.
  apply (set_column_set_columns m (fun c => on_prefix rh (f c) (column c buf))). apply Hlen. lia.
Qed.
Lemma on_columns_ext rw rh f g W buf : rectangular W buf -> (rw <= W)%nat ->
  (forall c, (c < rw)%nat -> f c (take rh (column c buf)) = g c (take rh (column c buf))) ->
  (forall c, (c < rw)%nat -> length (g c (take rh (column c buf))) = length (take rh (column c buf))) ->
  on_columns rw rh f buf = on_columns rw rh g buf.
Proof.
  intros Hr HW He Hg. rewrite !(on_columns_closed _ _ _ W) by (done || (intros; rewrite ?He; auto)).
  apply set_columns_ext. intros c Hc. apply on_prefix_ext. auto.
Qed.
Lemma on_columns_cancel rw rh f g W buf : rectangular W buf -> (rw <= W)%nat ->
  (forall c, (c < rw)%nat -> length (f c (take rh (column c buf))) = length (take rh (column c buf))) ->
  (forall c, (c < rw)%nat -> g c (f c (take rh (column c buf))) = take rh (column c buf)) ->
  on_columns rw rh g (on_columns rw rh f buf) = buf.
Proof.
  intros Hr HW Hf Hg. rewrite (on_columns_closed rw rh f W) by done. set (F := fun c => on_prefix rh (f c) (column c buf)).
  assert (forall c, (c < rw)%nat -> column c (set_columns rw F buf) = F c) as HF.
  { intros c Hc. rewrite (column_set_columns rw F W); [by rewrite (proj2 (Nat.ltb_lt _ _))|done|lia|].
    unfold F. rewrite length_on_prefix by auto. unfold column. apply length_fmap. }
  assert (forall c, (c < rw)%nat -> take rh (F c) = f c (take rh (column c buf))) as Ht.
  { intros c Hc. unfold F, on_prefix. pose proof (Hf c Hc) as E. rewrite length_take in E.
    destruct (Nat.le_gt_cases rh (length (column c buf))).
    - rewrite take_app_length'; [done|]. lia.
    - rewrite (drop_ge (column c buf)), app_nil_r, take_ge by lia. done. }
  rewrite (on_columns_closed rw rh g W); [|by apply rectangular_set_columns|done|].
  - rewrite set_columns_twice. transitivity (set_columns rw (fun c => column c buf) buf); [|by apply (set_columns_id rw W)].
    apply set_columns_ext. intros c Hc. rewrite HF by done.
    unfold F. apply on_prefix_cancel; auto.
  - intros c Hc. rewrite HF, Ht by done. rewrite Hg by done. symmetry. auto.
Qed.

(** Rows. *)
Lemma on_rows_cancel rw rh f g buf :
  (forall r row, (r < rh)%nat -> buf !! r = Some row -> length (f (take rw row)) = length (take rw row) /\
    g (f (take rw row)) = take rw row) ->
  on_rows rw rh g (on_rows rw rh f buf) = buf.
Proof.
  intros H. unfold on_rows. apply rows_eq; [by rewrite !length_imap|].
  intros r row1 row2. rewrite !list_lookup_imap. intros H1 H2. rewrite H2 in H1. injection H1 as <-. lk.
  destruct (Nat.ltb_spec r rh) as [Hr|]; [|done]. destruct (H r row2) as [Hl Hg]; [done..|]. by apply on_prefix_cancel.
Qed.
Lemma on_rows_ext rw rh f g buf :
  (forall r row, (r < rh)%nat -> buf !! r = Some row -> f (take rw row) = g (take rw row)) ->
  on_rows rw rh f buf = on_rows rw rh g buf.
Proof.
  intros H. apply imap_ext. intros r row Hrow. destruct (Nat.ltb_spec r rh); [|done]. apply on_prefix_ext. by apply (H r).
Qed.

(** ** Bounds of the cells *)

Lemma take_forall {A} (P : A -> Prop) n (l : list A) : (forall k v, (k < n)%nat -> l !! k = Some v -> P v) -> Forall P (take n l).
Proof.
  intros H. apply Forall_lookup. intros k v E. destruct (Nat.lt_ge_cases k n) as [Hk|Hk].
  - rewrite lookup_take_lt in E by done. by apply (H k).
  - by rewrite lookup_take_ge in E by done.
Qed.
Lemma forall_take {A} (P : A -> Prop) n (l : list A) k v : Forall P (take n l) -> (k < n)%nat -> l !! k = Some v -> P v.
Proof. intros H Hk E. apply (Forall_lookup_1 _ _ k v H). by rewrite lookup_take_lt. Qed.

(** Bounds on the new columns are bounds on the rows. *)
Lemma rows_within C rw rh h f W buf : rectangular W buf -> (rw <= W)%nat -> (h <= rh)%nat ->
  (forall c, (c < rw)%nat -> length (f c (take rh (column c buf))) = length (take rh (column c buf)) /\
    within C (take h (f c (take rh (column c buf))))) ->
  forall r row, (r < h)%nat -> on_columns rw rh f buf !! r = Some row -> within C (take rw row).
Proof.
  intros Hr HW Hh Hf r row Hrh. rewrite (on_columns_closed rw rh f W) by (done || apply Hf).
  rewrite lookup_set_columns. destruct (buf !! r) as [row0|] eqn:E; [|done]. intros [= <-].
  apply take_forall. intros c v Hc. rewrite list_lookup_imap. destruct (row0 !! c); [|done]. lk.
  rewrite (proj2 (Nat.ltb_lt c rw)) by done. intros [= <-]. destruct (Hf c Hc) as [Hl Hb].
  apply lookup_lt_Some in E. assert (length (column c buf) = length buf) as Hcol by apply length_fmap.
  rewrite nth_on_prefix by (done || lia).
  assert (r < length (f c (take rh (column c buf))))%nat as Hlt by (rewrite Hl, length_take; lia).
  destruct (lookup_lt_is_Some_2 _ _ Hlt) as [w Hw]. rewrite nth_lookup, Hw. exact (forall_take _ h _ r _ Hb Hrh Hw).
Qed.
(** Bounds on the new rows are bounds on the columns. *)
Lemma columns_within C rw rh h w f W buf : rectangular W buf -> (rw <= W)%nat -> (h <= rh)%nat -> (w <= rw)%nat ->
  (forall r row, (r < h)%nat -> buf !! r = Some row -> length (f (take rw row)) = length (take rw row) /\
    within C (take w (f (take rw row)))) ->
  forall c, (c < w)%nat -> within C (take h (column c (on_rows rw rh f buf))).
Proof.
  intros Hr HW Hh Hw Hf c Hc. apply take_forall. intros r v Hrh. unfold column, on_rows. rewrite list_lookup_fmap, list_lookup_imap.
  destruct (buf !! r) as [row|] eqn:E; [|done]. lk. rewrite (proj2 (Nat.ltb_lt r rh)) by lia. intros [= <-].
  destruct (Hf r row) as [Hl Hb]; [done..|]. assert (length row = W) as Hrow by exact (Forall_lookup_1 _ _ _ _ Hr E).
  rewrite nth_on_prefix by (done || lia).
  assert (c < length (f (take rw row)))%nat as Hlt by (rewrite Hl, length_take; lia).
  destruct (lookup_lt_is_Some_2 _ _ Hlt) as [u Hu]. rewrite nth_lookup, Hu. exact (forall_take _ w _ c _ Hb Hc Hu).
Qed.
Lemma rectangular_on_columns rw rh f W buf : rectangular W buf -> (rw <= W)%nat ->
  (forall c, (c < rw)%nat -> length (f c (take rh (column c buf))) = length (take rh (column c buf))) ->
  rectangular W (on_columns rw rh f buf).
Proof. intros Hr HW Hf. rewrite (on_columns_closed rw rh f W) by done. by apply rectangular_set_columns. Qed.
Lemma rectangular_on_rows rw rh f W buf : rectangular W buf ->
  (forall row, length (f row) = length row) -> rectangular W (on_rows rw rh f buf).
Proof.
  unfold rectangular. rewrite !Forall_lookup. intros H Hf r row. unfold on_rows. rewrite list_lookup_imap.
  destruct (buf !! r) eqn:E; [|done]. lk. intros [= <-]. destruct (r <? rh)%nat; [|by apply (H r)].
  rewrite length_on_prefix by done. by apply (H r).
Qed.

Lemma on_rows_0 rw f buf : on_rows rw 0 f buf = buf.
Proof.
  apply rows_eq; [apply length_imap|]. intros r row1 row2. unfold on_rows. rewrite list_lookup_imap. intros H1 H2.
  rewrite H2 in H1. by injection H1 as <-.
Qed.
Lemma on_columns_0 rw f W buf : rectangular W buf -> (rw <= W)%nat -> (forall c, f c [] = []) -> on_columns rw 0 f buf = buf.
Proof.
  intros Hr HW Hf. rewrite (on_columns_closed rw 0 f W) by (done || (intros; by rewrite take_0, Hf)).
  transitivity (set_columns rw (fun c => column c buf) buf); [|by apply (set_columns_id rw W)].
  apply set_columns_ext. intros c _. unfold on_prefix. by rewrite take_0, Hf.
Qed.
Lemma low_size_le n p : (p <= 1)%nat -> (low_size n p <= n)%nat.
Proof. intros Hp. assert (p = 0 \/ p = 1)%nat as [-> | ->] by lia; [destruct (low_size_0 n)|destruct (low_size_1 n)]; lia. Qed.

(** ** One level *)

(** What the shift and clamp of the decoder needs to undo the shift [dc]. *)
Definition undoes (dcp : DcShiftParam) (dc : Z) (line : list Z) : Prop :=
  if dc_enabled dcp then dc_shift dcp = dc /\ Forall (fun v => dc_min dcp <= v <= dc_max dcp) line
  else dc = 0 /\ dc_min dcp = dc_max dcp.

Lemma parity_row_le res : (parity_row res <= 1)%nat.
Proof. unfold parity_row. change 1 with (Z.ones 1). rewrite Z.land_ones by lia. pose proof (Z.mod_pos_bound (x0 res) (2 ^ 1)). lia. Qed.
Lemma parity_col_le res : (parity_col res <= 1)%nat.
Proof. unfold parity_col. change 1 with (Z.ones 1). rewrite Z.land_ones by lia. pose proof (Z.mod_pos_bound (y0 res) (2 ^ 1)). lia. Qed.

Section level.
Context (F : forward) (ok : nat -> nat -> bool) (KS : kernels) (R : Z).
Context `{!ForwardExact F R ok, !LaneExact (scalar KS) R, !LaneExact (vector KS) R}.
Context (HR30 : R <= 2 ^ 30).

Lemma dc_line_undoes L `{!LaneExact L R} dcp dc B x : dc_enabled dcp = true -> undoes dcp dc x -> within B x -> B <= R ->
  dc_line L dcp (shifted dc x) = x.
Proof.
  intros He Hu Hx HB. unfold undoes in Hu. rewrite He in Hu. destruct Hu as [Hs Hu]. unfold dc_line, shifted, dc_value. rewrite He, Hs.
  rewrite <- list_fmap_compose. rewrite <- (list_fmap_id x) at 2. apply list_fmap_ext. intros k v E. unfold compose, id.
  pose proof (Forall_lookup_1 _ _ _ _ Hx E) as Hv. pose proof (Forall_lookup_1 _ _ _ _ Hu E) as Hm. cbn beta in *.
  rewrite wide_exact by lia. replace (v - dc + dc) with v by lia. unfold clamp.
  by rewrite (proj2 (Z.ltb_ge v _)), (proj2 (Z.ltb_ge _ v)) by lia.
Qed.

Lemma encode_pair a b : encode_53 zlane 1 0 [a; b] = [b + (2 * (a - b) + 2) / 4; a - b].
Proof. reflexivity. Qed.

Lemma v_53_undoes vec p dcp dc A B x : (p <= 1)%nat -> 0 <= B -> 2 * B + 2 <= R -> A <= R -> within A x -> within B (shifted dc x) ->
  undoes dcp dc x -> v_53 KS vec p (low_size (length x) p) dcp (encode_53 zlane p 0 (shifted dc x)) = x.
Proof.
  intros Hp HB HR HA Hx Hy Hu. assert (length (shifted dc x) = length x) as Hl by (unfold shifted; by rewrite length_fmap).
  unfold v_53. rewrite <- Hl. rewrite !(decode_encode_line _ R B) by (done || lia).
  assert (scalar_store (scalar KS) dcp (shifted dc x) = x /\ hwy_v_final_store (vector KS) dcp (shifted dc x) = x) as [E1 E2].
  { unfold scalar_store, hwy_v_final_store, dc_value. destruct (dc_enabled dcp) eqn:He.
    - rewrite !(dc_line_undoes _ dcp dc A) by (done || lia). split; [done|]. unfold undoes in Hu. rewrite He in Hu. destruct Hu as [Hs _].
      case_match eqn:Ec; [done|]. apply orb_false_iff in Ec as [Ec _]. apply negb_false_iff, Z.eqb_eq in Ec.
      rewrite <- Hs, Ec. apply shifted_0.
    - unfold undoes in Hu. rewrite He in Hu. destruct Hu as [-> Hm]. rewrite Hm, !Z.eqb_refl. cbn [negb orb].
      by rewrite shifted_0. }
  destruct (vec && _); [done|]. destruct (negb (p =? 0)%nat && _ && dc_enabled dcp) eqn:Ep; [|done].
  apply andb_true_iff in Ep as [Ep He]. apply andb_true_iff in Ep as [Ep En].
  rewrite length_encode_53, Hl in En by done. apply Nat.eqb_eq in En. destruct x as [|a [|b [|? ?]]]; try done.
  assert (p = 1%nat) as -> by (destruct p as [|[|?]]; [done|done|lia]).
  change (shifted dc [a; b]) with [a - dc; b - dc] in *. rewrite encode_pair. cbn [length]. change (low_size 2 1) with 1%nat.
  cbn [take drop nth]. apply list.Forall_cons in Hx as [Ha Hx]. apply list.Forall_cons in Hx as [Hb _].
  apply list.Forall_cons in Hy as [Ha' Hy]. apply list.Forall_cons in Hy as [Hb' _].
  unfold undoes in Hu. rewrite He in Hu. destruct Hu as [Hs Hu]. apply list.Forall_cons in Hu as [Hua Hu].
  apply list.Forall_cons in Hu as [Hub _]. unfold dc_value. rewrite He, Hs. rewrite uf_exact by lia.
  rewrite sub_exact by divlia. rewrite (wide_exact (a - dc - (b - dc)) _) by divlia. rewrite !wide_exact by divlia. unfold clamp.
  f_equal; [|f_equal]; rewrite (proj2 (Z.ltb_ge _ (dc_min dcp))), (proj2 (Z.ltb_ge (dc_max dcp) _)) by divlia; divlia.
Qed.

Context (low res : Rect) (W : nat) (dc A B : Z) (buf : list (list Z)).
Abbreviation rw := (rect_w res).
Abbreviation rh := (rect_h res).
Abbreviation region c := (take rh (column c buf)).
Context (Hbuf : rectangular W buf) (HW : (rw <= W)%nat) (HB : 0 <= B <= A) (HA : 2 * A + 2 <= R) (HR : 4 * B + 6 <= R).
Context (Hin : forall c, (c < rw)%nat -> within A (region c) /\ within B (shifted dc (region c))).
Context (Hok : ok (parity_row res) rw = true).

Definition lifted_columns : list (list Z) :=
  on_columns rw rh (fun _ x => encode_53 zlane (parity_col res) 0 (shifted dc x)) buf.

Lemma length_lifted c : length (encode_53 zlane (parity_col res) 0 (shifted dc (region c))) = length (region c).
Proof. rewrite length_encode_53 by apply parity_col_le. unfold shifted. apply length_fmap. Qed.

Lemma lifted_rows r row : (r < rh)%nat -> lifted_columns !! r = Some row -> within (2 * B + 2) (take rw row).
Proof.
  apply (rows_within _ rw rh rh _ W); [done|done|lia|]. intros c Hc. split; [apply length_lifted|].
  rewrite take_ge by (rewrite length_lifted, length_take; lia).
  apply (encode_line_bounds R); [lia|lia|apply parity_col_le|by apply Hin|lia].
Qed.

Lemma rectangular_lifted : rectangular W lifted_columns.
Proof. apply rectangular_on_columns; [done..|]. intros. apply length_lifted. Qed.

(** The level in the integers. *)
Lemma encode_level_exact : encode_level F res dc buf = on_rows rw rh (encode_53 zlane (parity_row res) 0) lifted_columns.
Proof.
  unfold encode_level. cbv zeta.
  rewrite (on_columns_ext rw rh _ (fun _ x => encode_53 zlane (parity_col res) 0 (shifted dc x)) W); try done.
  - fold lifted_columns. apply on_rows_ext. intros r row Hr E. pose proof (lifted_rows r row Hr E) as Hb.
    apply (rows_exact _ (2 * B + 2)); try done; try lia; [apply parity_row_le|].
    by rewrite length_take, (Forall_lookup_1 _ _ _ _ rectangular_lifted E), Nat.min_l.
  - intros c Hc. destruct (Hin c Hc) as [HiA HiB]. apply (columns_exact _ _ A); try lia; try done; [apply parity_col_le|].
    refine (list.Forall_impl _ _ _ HiB _). lia.
  - intros c Hc. apply length_lifted.
Qed.

Lemma level_undone vec dcp : rect_w low = low_size rw (parity_row res) -> rect_h low = low_size rh (parity_col res) ->
  (rh <= length buf)%nat -> (forall c, (c < rw)%nat -> undoes dcp dc (region c)) ->
  decode_level KS vec low res dcp (encode_level F res dc buf) = buf.
Proof.
  intros Hlw Hlh Hhb Hu. rewrite encode_level_exact. unfold decode_level. cbv zeta. rewrite Hlw, Hlh.
  assert (on_columns rw rh (fun i => v_53 KS (vec i) (parity_col res) (low_size rh (parity_col res)) dcp) lifted_columns = buf) as Hcols.
  { unfold lifted_columns. apply (on_columns_cancel rw rh _ _ W); [done|done|intros; apply length_lifted|].
    intros c Hc. destruct (Hin c Hc). assert (rh = length (region c)) as E.
    { rewrite length_take. unfold column. rewrite length_fmap. lia. }
    rewrite E at 1. apply (v_53_undoes _ _ _ _ A B); try done; try lia; [apply parity_col_le|by apply Hu]. }
  assert (on_rows rw rh (decode_53 (scalar KS) (parity_row res) (low_size rw (parity_row res)))
    (on_rows rw rh (encode_53 zlane (parity_row res) 0) lifted_columns) = lifted_columns) as Hrows.
  { apply on_rows_cancel. intros r row Hr E. pose proof (lifted_rows r row Hr E) as Hb.
    split; [apply length_encode_53, parity_row_le|].
    assert (rw = length (take rw row)) as El.
    { rewrite length_take, (Forall_lookup_1 _ _ _ _ rectangular_lifted E). lia. }
    rewrite El at 1. apply (decode_encode_line _ R (2 * B + 2)); try done; try lia. apply parity_row_le. }
  rewrite Hrows, Hcols. case_match eqn:E0; [|done]. apply orb_true_iff in E0 as [E0|E0]; apply Nat.eqb_eq in E0.
  - rewrite E0 in *. cbn [on_columns seq foldl] in Hcols. unfold on_columns in Hcols. cbn [seq foldl] in Hcols. rewrite Hcols.
    apply rows_eq; [apply length_imap|]. intros r row1 row2. unfold on_rows.
    rewrite list_lookup_imap. intros H1 H2. rewrite H2 in H1. injection H1 as <-. by destruct (r <? rh)%nat.
  - rewrite E0 in *. rewrite on_rows_0. unfold lifted_columns. rewrite E0. by apply (on_columns_0 rw _ W).
Qed.

(** The growth of the samples that the next level transforms. *)
Lemma level_growth lw lh : lw = low_size rw (parity_row res) -> lh = low_size rh (parity_col res) -> (rh <= length buf)%nat ->
  forall c, (c < lw)%nat -> within (3 * (3 * B / 2 + 2) / 2 + 2) (take lh (column c (encode_level F res dc buf))).
Proof.
  intros -> -> Hhb. rewrite encode_level_exact. pose proof (low_size_le rw (parity_row res) (parity_row_le res)).
  pose proof (low_size_le rh (parity_col res) (parity_col_le res)).
  apply (columns_within _ _ _ _ _ _ W); [apply rectangular_lifted|done|done|done|]. intros r row Hr E.
  split; [apply length_encode_53, parity_row_le|].
  assert (within (3 * B / 2 + 2) (take rw row)) as Hb.
  { revert r row Hr E. apply (rows_within _ rw rh _ _ W); [done..|]. intros c Hc. split; [apply length_lifted|].
    assert (rh = length (shifted dc (region c))) as El.
    { unfold shifted, column. rewrite length_fmap, length_take, length_fmap. lia. }
    rewrite El at 1. apply (encode_line_bounds R B); [lia|lia|apply parity_col_le|by apply Hin|lia]. }
  assert (rw = length (take rw row)) as El.
  { rewrite length_take, (Forall_lookup_1 _ _ _ _ rectangular_lifted E). lia. }
  rewrite El at 1. apply (encode_line_bounds R); [divlia|divlia|apply parity_row_le|done|divlia].
Qed.
Lemma encode_level_rectangular : rectangular W (encode_level F res dc buf) /\ length (encode_level F res dc buf) = length buf.
Proof.
  rewrite encode_level_exact. split.
  - apply rectangular_on_rows; [apply rectangular_lifted|]. intros. apply length_encode_53, parity_row_le.
  - unfold on_rows. rewrite length_imap. unfold lifted_columns.
    rewrite (on_columns_closed rw rh _ W); [apply length_set_columns|done..|]. intros. apply length_lifted.
Qed.
End level.

(** ** Sizes of the resolutions *)

Definition valid_tile (tc : Rect) : Prop := 0 <= x0 tc <= x1 tc /\ x1 tc < 2 ^ 32 /\ 0 <= y0 tc <= y1 tc /\ y1 tc < 2 ^ 32.

Lemma bandCoordinate_low c d : 0 <= c < 2 ^ 32 -> (d <= 32)%nat -> bandCoordinate c (Z.of_nat d) 0 = cdiv c (2 ^ Z.of_nat d).
Proof.
  intros Hc Hd. unfold bandCoordinate. destruct (Z.eqb_spec (Z.of_nat d) 0) as [->|E]; [by rewrite cdiv_1|].
  rewrite Z.mul_0_r. change (u32 0) with 0. destruct (Z.leb_spec c 0).
  - replace c with 0 by lia. symmetry. apply cdiv_unique; [lia|]. intros k. nia.
  - rewrite Z.sub_0_r, wrap_small by done. apply ceildivpow2_cdiv; lia.
Qed.

(** The low-pass half of an axis of one resolution is that axis of the next. *)
Lemma low_axis a0 a1 d : 0 <= a0 <= a1 -> a1 < 2 ^ 32 ->
  let c d a := cdiv a (2 ^ Z.of_nat d) in
  low_size (Z.to_nat (u32 (c d a1 - c d a0))) (Z.to_nat (Z.land (c d a0) 1)) = Z.to_nat (u32 (c (S d) a1 - c (S d) a0)).
Proof.
  intros Ha H32 c. assert (forall a, c (S d) a = (c d a + 1) / 2) as Hc.
  { intros a. unfold c. rewrite Nat2Z.inj_succ, Z.pow_succ_r, Z.mul_comm, <- cdiv_cdiv by lia. unfold cdiv at 1. f_equal. lia. }
  assert (0 <= c d a0 <= c d a1 /\ c d a1 < 2 ^ 32) as [H0 H1].
  { unfold c. pose proof (cdiv_mono a0 a1 (2 ^ Z.of_nat d) ltac:(lia) ltac:(lia)).
    destruct (cdiv_range a0 (2 ^ Z.of_nat d) (2 ^ 32)); [lia..|]. destruct (cdiv_range a1 (2 ^ Z.of_nat d) (2 ^ 32)); lia. }
  rewrite !Hc. generalize (c d a0) (c d a1) H0 H1. clear. intros b0 b1 H0 H1.
  change 1 with (Z.ones 1) at 1. rewrite Z.land_ones by lia. change (2 ^ 1) with 2.
  rewrite !wrap_small by divlia. unfold low_size. apply Nat2Z.inj. rewrite Nat2Z.inj_div. divlia.
Qed.

Section resolutions.
Context (tc : Rect) (Htc : valid_tile tc) (d : nat) (Hd : (d < 32)%nat).

Lemma next_width : rect_w (resolution tc (S d)) = low_size (rect_w (resolution tc d)) (parity_row (resolution tc d)).
Proof.
  destruct Htc as (Hx & Hx1 & _). unfold resolution, getBandWindow, rect_w, parity_row. cbn [x0 x1 Z.land Z.shiftr Z.shiftl].
  rewrite !bandCoordinate_low by lia. symmetry. by apply low_axis.
Qed.
Lemma next_height : rect_h (resolution tc (S d)) = low_size (rect_h (resolution tc d)) (parity_col (resolution tc d)).
Proof.
  destruct Htc as (_ & _ & Hy & Hy1). unfold resolution, getBandWindow, rect_h, parity_col. cbn [y0 y1 Z.land Z.shiftr Z.shiftl].
  change (Z.shiftr 0 1) with 0. rewrite !bandCoordinate_low by lia. symmetry. by apply low_axis.
Qed.
End resolutions.

(** ** All levels *)

(** The bound on the samples of a resolution after [m] levels, and whether every level
    stays inside the lanes. *)
Definition grow (B : Z) : Z := 3 * (3 * B / 2 + 2) / 2 + 2.
Fixpoint grown (m : nat) (B : Z) : Z := match m with O => B | S m => grow (grown m B) end.
Definition fits (R B : Z) (levels : nat) : bool := forallb (fun m => 4 * grown m B + 6 <=? R) (seq 0 levels).
(** The rows of every level can be transformed. *)
Definition rows_ok (ok : nat -> nat -> bool) (tc : Rect) (levels : nat) : bool :=
  forallb (fun m => ok (parity_row (resolution tc m)) (rect_w (resolution tc m))) (seq 0 levels).

Lemma forallb_seq f n m : forallb f (seq 0 n) = true -> (m < n)%nat -> f m = true.
Proof. intros H Hm. apply (proj1 (forallb_forall _ _) H). apply in_seq. lia. Qed.
Lemma grown_nonneg m B : 0 <= B -> 0 <= grown m B.
Proof. intros HB. induction m as [|m IH]; [done|]. cbn [grown]. unfold grow. divlia. Qed.

Lemma encode_levels_snoc F tc m : forall d dc buf, encode_levels F tc (S m) d dc buf =
  encode_level F (resolution tc (d + m)) (if (m =? 0)%nat then dc else 0) (encode_levels F tc m d dc buf).
Proof.
  induction m as [|m IH]; intros d dc buf; [by rewrite Nat.add_0_r|].
  change (encode_levels F tc (S (S m)) d dc buf) with (encode_levels F tc (S m) (S d) 0 (encode_level F (resolution tc d) dc buf)).
  rewrite IH. cbn [Nat.eqb encode_levels]. replace (S d + m)%nat with (d + S m)%nat by lia. by destruct (m =? 0)%nat.
Qed.

Section levels.
Context (F : forward) (ok : nat -> nat -> bool) (KS : kernels) (R : Z) (HR30 : R <= 2 ^ 30).
Context `{!ForwardExact F R ok, !LaneExact (scalar KS) R, !LaneExact (vector KS) R}.
Context (tc : Rect) (Htc : valid_tile tc) (levels : nat) (Hlv : (levels <= 32)%nat).
Context (dc A B : Z) (HB : 0 <= B <= A) (HA : 2 * A + 2 <= R) (Hfits : fits R B levels = true) (Hrows : rows_ok ok tc levels = true).
Context (buf : list (list Z)) (W : nat) (Hbuf : rectangular W buf) (HW : (rect_w (resolution tc 0) <= W)%nat).
Context (Hh : (rect_h (resolution tc 0) <= length buf)%nat).
Context (Hin : forall c, (c < rect_w (resolution tc 0))%nat ->
  within A (take (rect_h (resolution tc 0)) (column c buf)) /\ within B (shifted dc (take (rect_h (resolution tc 0)) (column c buf)))).
Abbreviation after m := (encode_levels F tc m 0 dc buf).
Abbreviation res := (resolution tc).

Lemma sizes_shrink m : (m <= 32)%nat -> (rect_w (res m) <= rect_w (res 0))%nat /\ (rect_h (res m) <= rect_h (res 0))%nat.
Proof.
  induction m as [|m IH]; intros Hm; [done|]. rewrite next_width, next_height by (done || lia).
  pose proof (low_size_le (rect_w (res m)) _ (parity_row_le (res m))).
  pose proof (low_size_le (rect_h (res m)) _ (parity_col_le (res m))). lia.
Qed.

(** What the next level finds in the buffer: unshifted samples in the first level only. *)
Definition raw (m : nat) : Z := if (m =? 0)%nat then A else grown m B.
Definition ready (m : nat) : Prop :=
  rectangular W (after m) /\ length (after m) = length buf /\
  forall c, (c < rect_w (res m))%nat -> let region := take (rect_h (res m)) (column c (after m)) in
    within (raw m) region /\ within (grown m B) (shifted (if (m =? 0)%nat then dc else 0) region).

Lemma after_ready m : (m <= levels)%nat -> ready m.
Proof.
  induction m as [|m IH]; intros Hm; [by split|]. destruct IH as (Hr & Hl & Hb); [lia|].
  destruct (sizes_shrink m ltac:(lia)) as [Hsw Hsh]. pose proof (forallb_seq _ _ m Hfits ltac:(lia)) as Hf. cbn beta in Hf.
  apply Z.leb_le in Hf. pose proof (forallb_seq _ _ m Hrows ltac:(lia)) as Ho. cbn beta in Ho. pose proof (grown_nonneg m B (proj1 HB)).
  assert (grown m B <= raw m /\ 2 * raw m + 2 <= R) as [Hra Hrb] by (unfold raw; destruct (Nat.eqb_spec m 0) as [->|]; cbn [grown] in *; lia).
  unfold ready. rewrite encode_levels_snoc, Nat.add_0_l. set (sh := if (m =? 0)%nat then dc else 0) in *.
  destruct (encode_level_rectangular F ok R HR30 (res m) W sh (raw m) (grown m B) (after m)) as [Hr' Hl']; try done; try lia.
  split; [done|]. split; [by rewrite Hl'|]. intros c Hc. cbv zeta. cbn [Nat.eqb]. rewrite shifted_0.
  assert (within (grown (S m) B) (take (rect_h (res (S m))) (column c (encode_level F (res m) sh (after m))))) as Hw; [|done].
  apply (level_growth F ok R HR30 (res m) W sh (raw m) (grown m B) (after m)) with (lw := rect_w (res (S m))); try done; try lia.
  - by apply next_width; [|lia].
  - by apply next_height; [|lia].
Qed.

Lemma level_back m vec dcp : (m < levels)%nat ->
  (forall c, (c < rect_w (res m))%nat -> undoes dcp (if (m =? 0)%nat then dc else 0) (take (rect_h (res m)) (column c (after m)))) ->
  decode_level KS vec (res (S m)) (res m) dcp (after (S m)) = after m.
Proof.
  intros Hm Hu. destruct (after_ready m) as (Hr & Hl & Hb); [lia|].
  destruct (sizes_shrink m ltac:(lia)) as [Hsw Hsh]. pose proof (forallb_seq _ _ m Hfits ltac:(lia)) as Hf. cbn beta in Hf.
  apply Z.leb_le in Hf. pose proof (forallb_seq _ _ m Hrows ltac:(lia)) as Ho. cbn beta in Ho. pose proof (grown_nonneg m B (proj1 HB)).
  assert (grown m B <= raw m /\ 2 * raw m + 2 <= R) as [Hra Hrb] by (unfold raw; destruct (Nat.eqb_spec m 0) as [->|]; cbn [grown] in *; lia).
  rewrite encode_levels_snoc, Nat.add_0_l.
  apply (level_undone F ok KS R) with (W := W) (A := raw m) (B := grown m B); try done; try lia.
  - by apply next_width; [|lia].
  - by apply next_height; [|lia].
Qed.

Lemma decode_levels_back vec dcp :
  (forall c, (c < rect_w (res 0))%nat -> undoes dcp dc (take (rect_h (res 0)) (column c buf))) ->
  forall d, (d < levels)%nat -> decode_levels KS vec tc dcp d (after (S d)) = buf.
Proof.
  intros Hu. induction d as [|d IH]; intros Hd; cbn [decode_levels].
  - by apply (level_back 0).
  - rewrite level_back; [apply IH; lia|done|]. intros c Hc. by split.
Qed.

End levels.

(** A sample the two ends agree on: inside the lanes before and after the shift, and
    inside the range the decoder clamps to. *)
Definition cell_ok (dcp : DcShiftParam) (dc A B v : Z) : Prop :=
  Z.abs v <= A /\ Z.abs (v - dc) <= B /\ (dc_enabled dcp = true -> dc_min dcp <= v <= dc_max dcp).
(** The decoder adds the shift the encoder took away. *)
Definition dc_matches (dcp : DcShiftParam) (dc : Z) : Prop :=
  if dc_enabled dcp then dc_shift dcp = dc else dc = 0 /\ dc_min dcp = dc_max dcp.

Lemma column_forall (P : Z -> Prop) W buf c h : Forall (Forall P) buf -> rectangular W buf -> (c < W)%nat -> Forall P (take h (column c buf)).
Proof.
  intros HP Hr Hc. apply Forall_take, Forall_fmap, Forall_lookup. intros r row E. cbn.
  pose proof (Forall_lookup_1 _ _ _ _ HP E) as Hrow. pose proof (Forall_lookup_1 _ _ _ _ Hr E) as Hl. cbn beta in Hl.
  rewrite nth_lookup. destruct (lookup_lt_is_Some_2 row c) as [v Hv]; [lia|]. rewrite Hv. exact (Forall_lookup_1 _ _ _ _ Hrow Hv).
Qed.
Lemma resolution_0 tc : rect_w (resolution tc 0) = rect_w tc /\ rect_h (resolution tc 0) = rect_h tc.
Proof. done. Qed.

Lemma tile_levels F ok KS R vec tc numres dcp dc A B buf : R <= 2 ^ 30 ->
  ForwardExact F R ok -> LaneExact (scalar KS) R -> LaneExact (vector KS) R ->
  valid_tile tc -> (numres <= 33)%nat -> 0 <= B <= A -> 2 * A + 2 <= R ->
  fits R B (numres - 1) = true -> rows_ok ok tc (numres - 1) = true ->
  rectangular (rect_w tc) buf -> length buf = rect_h tc -> Forall (Forall (cell_ok dcp dc A B)) buf -> dc_matches dcp dc ->
  tile_53 KS vec tc numres dcp (encode F tc numres dc buf) = buf.
Proof.
  intros HR30 HF HS HV Htc Hn HB HA Hfits Hrows Hbuf Hh Hcells Hu. unfold tile_53, encode. destruct (Nat.leb_spec numres 1) as [H1|H1].
  { by replace (numres - 1)%nat with 0%nat by lia. }
  replace (numres - 1)%nat with (S (numres - 2)) in * by lia. destruct (resolution_0 tc) as [Ew Eh].
  assert (forall c, (c < rect_w (resolution tc 0))%nat ->
    Forall (cell_ok dcp dc A B) (take (rect_h (resolution tc 0)) (column c buf))) as Hcol.
  { intros c Hc. by apply (column_forall _ (rect_w tc)); [done|done|rewrite <- Ew]. }
  apply (decode_levels_back F ok KS R) with (levels := S (numres - 2)) (A := A) (B := B) (W := rect_w tc); try done; try lia.
  - intros c Hc. specialize (Hcol c Hc). split; [|apply Forall_fmap]; refine (list.Forall_impl _ _ _ Hcol _); by intros v (? & ? & ?).
  - intros c Hc. specialize (Hcol c Hc). unfold undoes, dc_matches in *. destruct (dc_enabled dcp) eqn:He; [|done]. split; [done|].
    refine (list.Forall_impl _ _ _ Hcol _). intros v (_ & _ & H). by apply H.
Qed.
