(* ===== verification/WaveletTheorems.v ===== *)
(** The reversible wavelet transform of a component: what the compressor and the decompressor
    promise each other, and what a line computes. *)
From S2P Require Import Prelude Geometry Wavelet WaveletLines WaveletExact WaveletNarrow WaveletTile.

(** ** Which lanes *)

Lemma lane_exact_le K R R' : LaneExact K R -> R' <= R -> LaneExact K R'.
Proof. intros HK HR. constructor; intros; [apply add_exact|apply sub_exact|apply avg_exact|apply upd_exact|apply uf_exact|apply ul_exact|apply wide_exact]; lia. Qed.
Lemma forward_exact_le F R R' ok : ForwardExact F R ok -> R' <= R -> ForwardExact F R' ok.
Proof. intros HF HR. constructor; intros; [apply (columns_exact _ _ B)|apply (rows_exact _ B)]; (done || lia). Qed.

(** The narrower of the lanes of the two ends, and the rows the compressor can transform. *)
Definition lanes_range (c16 d16 : bool) : Z := if c16 || d16 then R16 else R32.
Definition row_ok (c16 : bool) (lanes p n : nat) : bool := negb (c16 && overruns lanes p n).

Lemma lanes_range_small c16 d16 : lanes_range c16 d16 <= 2 ^ 30.
Proof. by destruct c16, d16. Qed.
Lemma forward_lanes (c16 d16 : bool) lanes : (0 < lanes)%nat ->
  ForwardExact (if c16 then forward_53_16 lanes else forward_53) (lanes_range c16 d16) (row_ok c16 lanes).
Proof.
  intros Hl. destruct c16; cbn [andb orb lanes_range row_ok].
  - apply (forward_53_16_exact lanes Hl).
  - apply (forward_exact_le _ R32); [apply forward_53_exact|by destruct d16].
Qed.
Definition kernels_of (d16 : bool) : kernels := if d16 then kernels_16_53 else kernels_53.
Lemma inverse_lanes c16 d16 :
  LaneExact (scalar (kernels_of d16)) (lanes_range c16 d16) /\ LaneExact (vector (kernels_of d16)) (lanes_range c16 d16).
Proof.
  destruct d16; cbn [kernels_of kernels_16_53 kernels_53 scalar vector].
  - unfold lanes_range. rewrite orb_true_r. split; [apply inv16_exact|apply hwy16_exact].
  - split; (apply (lane_exact_le _ R32); [apply _|by destruct c16]).
Qed.

(** The kernel that each width and kind of column runs, by its name in the source. *)
Definition named_p0 (d16 vec : bool) : list Z -> list Z -> nat -> list Z :=
  if d16 then if vec then hwy_v_p0_16_53 else v_p0_16_53 else if vec then hwy_v_p0_53 else v_p0_53.
Definition named_p1 (d16 vec : bool) : list Z -> list Z -> nat -> list Z :=
  if d16 then if vec then hwy_v_p1_16_53 else v_p1_16_53 else if vec then hwy_v_p1_53 else v_p1_53.
Lemma columns_named d16 vec sn y : (2 < length y)%nat ->
  v_53 (kernels_of d16) vec 0 sn no_dc y = named_p0 d16 vec (take sn y) (drop sn y) (length y) /\
  v_53 (kernels_of d16) vec 1 sn no_dc y = named_p1 d16 vec (take sn y) (drop sn y) (length y).
Proof.
  intros H. unfold v_53, decode_53. rewrite (proj2 (Nat.eqb_neq (length y) 0)), (proj2 (Nat.ltb_lt 1 (length y))), (proj2 (Nat.ltb_lt 2 (length y))),
    (proj2 (Nat.eqb_neq (length y) 1)), (proj2 (Nat.eqb_neq (length y) 2)) by lia. by destruct d16, vec.
Qed.
Lemma rows_named d16 sn y : (2 < length y)%nat ->
  decode_53 (scalar (kernels_of d16)) 0 sn y = (if d16 then load_h_p0_16_53 else load_h_p0_53) (take sn y) (drop sn y) (length y) /\
  decode_53 (scalar (kernels_of d16)) 1 sn y = (if d16 then load_h_p1_16_53 else load_h_p1_53) (take sn y) (drop sn y) (length y).
Proof.
  intros H. unfold decode_53. rewrite (proj2 (Nat.eqb_neq (length y) 0)), (proj2 (Nat.ltb_lt 1 (length y))),
    (proj2 (Nat.eqb_neq (length y) 1)), (proj2 (Nat.eqb_neq (length y) 2)) by lia. by destruct d16.
Qed.

(** ** A component *)

Definition default_range (sgnd : bool) (prec v : Z) : Prop := sample_min sgnd prec <= v <= sample_max sgnd prec.
(** The samples of a component: as many as the tile has, in the range of the precision. *)
Definition component_ok (tc : Rect) (P : Z -> Prop) (buf : list (list Z)) : Prop :=
  rectangular (rect_w tc) buf /\ length buf = rect_h tc /\ Forall (Forall P) buf.
(** The tile can be transformed in these lanes with samples up to [B] after the shift. *)
Definition transformable (c16 d16 : bool) (lanes : nat) (tc : Rect) (numres : nat) (B : Z) : Prop :=
  valid_tile tc /\ (numres <= 33)%nat /\ (0 < lanes)%nat /\
  fits (lanes_range c16 d16) B (numres - 1) = true /\ rows_ok (row_ok c16 lanes) tc (numres - 1) = true.

Lemma decompress_dc_narrow dcp pll num_threads tc numres buf (d16 : bool) : (d16 = true -> narrow_dc dcp = dcp) ->
  decompress_53 d16 pll num_threads tc numres dcp buf =
  tile_53 (kernels_of d16) (fun d => column_in_vector pll num_threads (rect_w (resolution tc d))) tc numres dcp buf.
Proof. intros H. unfold decompress_53, tile_16_53, kernels_of. destruct d16; [|done]. by rewrite H. Qed.
Lemma compress_53_forward (c16 : bool) lanes tc numres dcp buf :
  compress_53 c16 lanes tc numres dcp buf = encode (if c16 then forward_53_16 lanes else forward_53) tc numres (dc_value dcp) buf.
Proof. by destruct c16. Qed.

Lemma first_level c16 d16 B numres : fits (lanes_range c16 d16) B numres = true -> (0 < numres)%nat -> 4 * B + 6 <= lanes_range c16 d16.
Proof. intros Hf Hn. apply Z.leb_le, (forallb_seq _ _ 0 Hf Hn). Qed.

(** Components of the colour transform: no shift in the wavelet. *)
Lemma mct_component c16 d16 lanes pll num_threads tc numres sgnd prec shift B buf : transformable c16 d16 lanes tc numres B -> 0 <= B ->
  component_ok tc (fun v => Z.abs v <= B) buf ->
  decompress_53 d16 pll num_threads tc numres (decompress_dc true sgnd prec shift numres)
    (compress_53 c16 lanes tc numres (compress_dc true sgnd prec shift numres) buf) = buf.
Proof.
  intros (Htc & Hn & Hl & Hf & Hr) HB (Hrect & Hh & Hcells). unfold decompress_dc, compress_dc. rewrite andb_false_r.
  rewrite decompress_dc_narrow, compress_53_forward by done. cbn [dc_value dc_enabled no_dc].
  destruct (Nat.le_gt_cases numres 1) as [H1|H1].
  { unfold tile_53, encode. rewrite (proj2 (Nat.leb_le numres 1)) by done. by replace (numres - 1)%nat with 0%nat by lia. }
  pose proof (first_level _ _ _ _ Hf ltac:(lia)). destruct (inverse_lanes c16 d16).
  apply (tile_levels _ (row_ok c16 lanes) _ (lanes_range c16 d16)) with (A := B) (B := B); try done; try lia.
  - apply lanes_range_small.
  - by apply forward_lanes.
  - refine (list.Forall_impl _ _ _ Hcells _). intros row Hrow. refine (list.Forall_impl _ _ _ Hrow _). intros v Hv.
    unfold cell_ok. cbn [dc_enabled no_dc]. rewrite Z.sub_0_r. done.
Qed.

(** Signed or unsigned samples of precision [prec]. *)
Lemma range_bounds sgnd prec : 1 <= prec <= 30 ->
  sample_min sgnd prec = (if sgnd then - 2 ^ (prec - 1) else 0) /\ default_dc_shift sgnd prec = (if sgnd then 0 else 2 ^ (prec - 1)) /\
  sample_max sgnd prec = (if sgnd then 2 ^ (prec - 1) - 1 else 2 * 2 ^ (prec - 1) - 1).
Proof.
  intros Hp. unfold sample_min, sample_max, default_dc_shift. rewrite !Z.shiftl_1_l.
  assert (2 ^ prec = 2 * 2 ^ (prec - 1)) as -> by (rewrite <- Z.pow_succ_r by lia; f_equal; lia).
  assert (0 < 2 ^ (prec - 1) <= 2 ^ 29) by (split; [lia|apply Z.pow_le_mono_r; lia]).
  destruct sgnd; repeat split; drop_i32; lia.
Qed.

Lemma plain_component c16 d16 lanes pll num_threads tc numres sgnd prec buf : 1 <= prec <= 30 ->
  transformable c16 d16 lanes tc numres (2 ^ (prec - 1)) -> component_ok tc (default_range sgnd prec) buf ->
  decompress_53 d16 pll num_threads tc numres (decompress_dc false sgnd prec (default_dc_shift sgnd prec) numres)
    (compress_53 c16 lanes tc numres (compress_dc false sgnd prec (default_dc_shift sgnd prec) numres) buf) = buf.
Proof.
  intros Hp (Htc & Hn & Hl & Hf & Hr) (Hrect & Hh & Hcells). unfold decompress_dc, compress_dc. rewrite !andb_true_r.
  destruct (range_bounds sgnd prec Hp) as (Emin & Esh & Emax). assert (0 < 2 ^ (prec - 1)) as Hpos by lia.
  destruct (Nat.ltb_spec 1 numres) as [H1|H1].
  - pose proof (first_level _ _ _ _ Hf ltac:(lia)) as H4. destruct (inverse_lanes c16 d16).
    rewrite decompress_dc_narrow.
    2: { intros ->. unfold lanes_range, R16 in H4. rewrite orb_true_r in H4. unfold narrow_dc. cbn [dc_enabled dc_shift dc_min dc_max].
         by rewrite Emin, Emax, Esh, !i16_small by (destruct sgnd; lia). }
    rewrite compress_53_forward.
    assert (dc_value (MkDc (negb (default_dc_shift sgnd prec =? 0)) (default_dc_shift sgnd prec) (sample_min sgnd prec)
      (sample_max sgnd prec)) = default_dc_shift sgnd prec) as ->.
    { unfold dc_value. cbn [dc_enabled dc_shift]. by destruct (Z.eqb_spec (default_dc_shift sgnd prec) 0) as [->|]. }
    apply (tile_levels _ (row_ok c16 lanes) _ (lanes_range c16 d16)) with (A := 2 * 2 ^ (prec - 1)) (B := 2 ^ (prec - 1)); try done; try lia.
    + apply lanes_range_small.
    + by apply forward_lanes.
    + refine (list.Forall_impl _ _ _ Hcells _). intros row Hrow. refine (list.Forall_impl _ _ _ Hrow _). intros v Hv.
      unfold cell_ok. cbn [dc_enabled dc_min dc_max]. unfold default_range in Hv. rewrite Emin, Emax in *. rewrite Esh.
      split; [destruct sgnd; lia|]. split; [destruct sgnd; lia|]. done.
  - rewrite decompress_dc_narrow, compress_53_forward by done. unfold tile_53, encode. rewrite (proj2 (Nat.leb_le numres 1)) by done.
    by replace (numres - 1)%nat with 0%nat by lia.
Qed.

(** ** Any coefficients: the lanes of the decoder agree *)

Section any_line.
Context (K : lane) (R : Z) `{!LaneExact K R} (C : Z) (HC : 0 <= C) (HR : 3 * C + 2 <= R).

Section bands.
Context (bl bh : list Z) (sn dn : nat) (HL : forall k, Z.abs (nth k bl 0) <= C) (HH : forall k, Z.abs (nth k bh 0) <= C).

Lemma eP0_any j : eP0 K bl bh dn j = eP0 zlane bl bh dn j /\ Z.abs (eP0 zlane bl bh dn j) <= 3 * C / 2 + 1.
Proof.
  pose proof (HL j). pose proof (HH 0). pose proof (HH j). pose proof (HH (j - 1)).
  unfold eP0. cbn [zlane sub upd uf ul]. destruct (j =? 0)%nat, (j <? dn)%nat; repeat exact_op; divlia.
Qed.
Lemma oP0_any j : oP0 K bl bh sn dn j = oP0 zlane bl bh sn dn j /\ Z.abs (oP0 zlane bl bh sn dn j) <= 5 * C / 2 + 1.
Proof.
  assert (3 * C / 2 + 1 <= R) by divlia. pose proof (HH j). destruct (eP0_any j) as [E1 H1], (eP0_any (j + 1)) as [E2 H2].
  unfold oP0. rewrite E1, E2. cbn [zlane add avg]. destruct (j + 1 <? sn)%nat; repeat exact_op; divlia.
Qed.
Lemma eP1_any j : eP1 K bl bh dn j = eP1 zlane bl bh dn j /\ Z.abs (eP1 zlane bl bh dn j) <= 3 * C / 2 + 1.
Proof.
  pose proof (HL j). pose proof (HH j). pose proof (HH (j + 1)).
  unfold eP1. cbn [zlane sub upd uf ul]. destruct (j + 1 <? dn)%nat; repeat exact_op; divlia.
Qed.
Lemma oP1_any j : oP1 K bl bh sn dn j = oP1 zlane bl bh sn dn j /\ Z.abs (oP1 zlane bl bh sn dn j) <= 5 * C / 2 + 1.
Proof.
  assert (3 * C / 2 + 1 <= R) by divlia. pose proof (HH j). destruct (eP1_any 0) as [E0 Hz0], (eP1_any j) as [E1 Hz1], (eP1_any (j - 1)) as [E2 Hz2].
  unfold oP1. rewrite E0, E1, E2. cbn [zlane add avg]. destruct (j =? 0)%nat, (j <? sn)%nat; repeat exact_op; divlia.
Qed.
End bands.

Lemma zip2_any e o e' o' k : (forall j, e j = e' j /\ Z.abs (e' j) <= 5 * C / 2 + 1) -> (forall j, o j = o' j /\ Z.abs (o' j) <= 5 * C / 2 + 1) ->
  zip2 e o k = zip2 e' o' k /\ Z.abs (zip2 e' o' k) <= 5 * C / 2 + 1.
Proof. intros He Ho. unfold zip2. destruct (Nat.even k); auto. Qed.

Lemma decode_any p y : (p <= 1)%nat -> within C y ->
  let sn := low_size (length y) p in
  decode_53 K p sn y = decode_53 zlane p sn y /\ within (5 * C / 2 + 1) (decode_53 zlane p sn y).
Proof.
  intros Hp Hy sn. destruct (low_sizes (length y) p Hp) as [Hn Hs]. cbv zeta in Hn, Hs. fold sn in Hn, Hs.
  assert (forall k, Z.abs (nth k (take sn y) 0) <= C) as HL by (intros; by apply within_nth; [apply Forall_take|]).
  assert (forall k, Z.abs (nth k (drop sn y) 0) <= C) as HH by (intros; by apply within_nth; [apply Forall_drop|]).
  pose proof (within_nth C y 0 Hy HC) as H0. set (dn := (length y - sn)%nat) in *.
  unfold decode_53. destruct (Nat.eqb_spec (length y) 0) as [E0|E0].
  { split; [done|]. destruct y; [constructor|done]. }
  destruct Hs as [[-> Hs]|[-> Hs]]; cbn [Nat.eqb].
  - destruct (Nat.ltb_spec 1 (length y)); [|split; [done|]; repeat constructor; divlia].
    rewrite !(decode_p0_spec _ _ _ sn dn) by lia.
    assert (forall k, _) as Hz by (intros k; apply zip2_any with (e := eP0 K (take sn y) (drop sn y) dn)
      (e' := eP0 zlane (take sn y) (drop sn y) dn) (o := oP0 K (take sn y) (drop sn y) sn dn)
      (o' := oP0 zlane (take sn y) (drop sn y) sn dn) (k := k); intros j;
      [destruct (eP0_any (take sn y) (drop sn y) dn HL HH j); divlia|by apply oP0_any]).
    split; [apply tab_ext|apply within_tab]; intros k Hk; apply Hz.
  - destruct (Nat.eqb_spec (length y) 1); [split; [done|]; repeat constructor; rewrite shiftr_1; divlia|].
    destruct (Nat.eqb_spec (length y) 2).
    + pose proof (HL 0%nat). pose proof (HH 0%nat). cbn [zlane sub add uf]. repeat exact_op. split; [done|]. repeat constructor; divlia.
    + rewrite !(decode_p1_spec _ _ _ sn dn) by lia.
      assert (forall k, _) as Hz by (intros k; apply zip2_any with (e := oP1 K (take sn y) (drop sn y) sn dn)
        (e' := oP1 zlane (take sn y) (drop sn y) sn dn) (o := eP1 K (take sn y) (drop sn y) dn)
        (o' := eP1 zlane (take sn y) (drop sn y) dn) (k := k); intros j;
        [by apply oP1_any|destruct (eP1_any (take sn y) (drop sn y) dn HL HH j); divlia]).
      split; [apply tab_ext|apply within_tab]; intros k Hk; apply Hz.
Qed.

Lemma dc_line_any dc D x : within D x -> D + Z.abs (dc_value dc) <= R -> dc_line K dc x = dc_line zlane dc x.
Proof.
  intros Hx HD. apply list_fmap_ext. intros k v E. pose proof (Forall_lookup_1 _ _ _ _ Hx E). cbn beta in *.
  by rewrite wide_exact by lia.
Qed.
End any_line.

(** A shift whose two stores agree: enabled with a shift or a range, or disabled without. *)
Definition dc_consistent (dc : DcShiftParam) : Prop :=
  if dc_enabled dc then dc_shift dc <> 0 \/ dc_min dc <> dc_max dc else dc_min dc = dc_max dc.

Lemma stores_agree K dc x : dc_consistent dc -> hwy_v_final_store K dc x = scalar_store K dc x.
Proof.
  unfold dc_consistent, hwy_v_final_store, scalar_store, dc_value. destruct (dc_enabled dc).
  - destruct (Z.eqb_spec (dc_shift dc) 0), (Z.eqb_spec (dc_min dc) (dc_max dc)); cbn [negb orb]; tauto.
  - intros ->. by rewrite !Z.eqb_refl.
Qed.

Section any_column.
Context (KS : kernels) (R C : Z) `{!LaneExact (scalar KS) R, !LaneExact (vector KS) R}.
Context (HC : 0 <= C) (HR : 3 * C + 2 <= R) (dc : DcShiftParam) (Hdc : dc_consistent dc).
Context (Hfit : 5 * C / 2 + 1 + Z.abs (dc_value dc) <= R).

Lemma scalar_store_any K `{!LaneExact K R} x : within (5 * C / 2 + 1) x -> scalar_store K dc x = scalar_store zlane dc x.
Proof. intros Hx. unfold scalar_store. destruct (dc_enabled dc); [|done]. by apply (dc_line_any K R C) with (D := 5 * C / 2 + 1). Qed.

(** A column is lifted in the integers, whatever the lanes. *)
Lemma v_53_any vec p y : (p <= 1)%nat -> within C y ->
  let sn := low_size (length y) p in v_53 KS vec p sn dc y = scalar_store zlane dc (decode_53 zlane p sn y).
Proof.
  intros Hp Hy sn. destruct (decode_any (scalar KS) R C HC HR p y Hp Hy) as [Es Hb].
  destruct (decode_any (vector KS) R C HC HR p y Hp Hy) as [Ev _]. fold sn in Es, Ev, Hb.
  unfold v_53. rewrite Es, Ev, stores_agree by done. destruct (vec && _); [by apply scalar_store_any|].
  destruct (negb (p =? 0)%nat && _ && dc_enabled dc) eqn:Ep; [|by apply scalar_store_any].
  apply andb_true_iff in Ep as [Ep He]. apply andb_true_iff in Ep as [Ep En]. apply Nat.eqb_eq in En.
  assert (p = 1%nat) as -> by (destruct p as [|[|?]]; [done|done|lia]).
  unfold sn. rewrite En. change (low_size 2 1) with 1%nat. destruct y as [|l [|h [|? ?]]]; try done.
  unfold scalar_store. rewrite He. cbn -[dc_value clamp Z.mul Z.div Z.add Z.sub].
  apply list.Forall_cons in Hy as [Hl Hy]. apply list.Forall_cons in Hy as [Hh _].
  rewrite uf_exact by lia. rewrite sub_exact by divlia. rewrite (wide_exact h) by divlia. by rewrite !wide_exact by divlia.
Qed.
End any_column.

(** C21: every way the decompressor lifts a column of a tile computes the same samples: scalar
    code or vectors of columns, 32-bit or 16-bit lanes.  Which columns fall into vectors
    depends on the machine and on how the columns are shared out to threads, so this is
    why the decoded tile does not.  The coefficients are any (not only those of this
    compressor) that leave room in the lanes. *)
Theorem columns_agree (d16 vec : bool) (p : nat) (dc : DcShiftParam) (C : Z) (y : list Z) :
  (p <= 1)%nat -> 0 <= C -> within C y -> dc_consistent dc ->
  3 * C + 2 + Z.abs (dc_value dc) <= lanes_range false d16 ->
  v_53 (kernels_of d16) vec p (low_size (length y) p) dc y = v_53 kernels_53 false p (low_size (length y) p) dc y.
Proof.
  intros Hp HC Hy Hdc HR. destruct (inverse_lanes false d16) as [HS HV]. destruct (inverse_lanes false false) as [HS' HV'].
  assert (lanes_range false d16 <= lanes_range false false) by (by destruct d16).
  rewrite (v_53_any (kernels_of d16) (lanes_range false d16) C) by (done || divlia).
  change kernels_53 with (kernels_of false). by rewrite (v_53_any (kernels_of false) (lanes_range false false) C) by (done || divlia).
Qed.
Lemma columns_agree_witness :
  v_53 kernels_16_53 true 1 2 (MkDc true 128 0 255) [30; -41; 12; 7; -5] = v_53 kernels_53 false 1 2 (MkDc true 128 0 255) [30; -41; 12; 7; -5].
Proof.
  apply (columns_agree true true 1 (MkDc true 128 0 255) 1000 [30; -41; 12; 7; -5]); [lia|lia| |left; done|done].
  repeat constructor; lia.
Defined.

(** ** The standard's transform of a line *)

(** The whole-sample symmetric extension of a line of [n] samples: its period and its index. *)
Definition period (n : nat) : Z := 2 * (Z.of_nat n - 1).
Definition pse (n : nat) (i : Z) : nat := let m := i mod period n in Z.to_nat (Z.min m (period n - m)).
Definition ext (x : list Z) (i : Z) : Z := nth (pse (length x) i) x 0.

(** Predict at odd coordinates, then update at even ones (5/3, reversible); the first
    sample has coordinate [parity], and the low samples come first. *)
Definition std_high (x : list Z) (i : Z) : Z := ext x i - (ext x (i - 1) + ext x (i + 1)) / 2.
Definition std_low (x : list Z) (i : Z) : Z := ext x i + (std_high x (i - 1) + std_high x (i + 1) + 2) / 4.
Definition std_53 (parity : nat) (x : list Z) : list Z :=
  match x with
  | [v] => [if (parity =? 1)%nat then 2 * v else v]
  | _ => tab (bands (fun k => std_low x (Z.of_nat (2 * k + parity))) (fun k => std_high x (Z.of_nat (2 * k + (1 - parity))))
      (low_size (length x) parity)) (length x)
  end.

Section extension.
Context (x : list Z) (H2 : (2 <= length x)%nat).
Abbreviation P := (period (length x)).
Abbreviation last_index := (Z.of_nat (length x) - 1).

Lemma mod_reflect a : (- a) mod P = if decide (a mod P = 0) then 0 else P - a mod P.
Proof.
  assert (0 < P) as HP by (unfold period; lia). pose proof (Z.mod_pos_bound a P HP).
  destruct (decide _) as [E|E]; [by apply Z_mod_zero_opp_full|by apply Z_mod_nz_opp_full].
Qed.
Lemma ext_neg i : ext x (- i) = ext x i.
Proof.
  assert (0 < P) as HP by (unfold period; lia). pose proof (Z.mod_pos_bound i P HP).
  unfold ext, pse. rewrite mod_reflect. destruct (decide _) as [->|]; [done|]. do 2 f_equal. lia.
Qed.
Lemma ext_period i : ext x (i + P) = ext x i.
Proof. unfold ext, pse. assert ((i + P) mod P = i mod P) as ->; [|done]. rewrite <- (Z.mul_1_l P) at 1. apply Z_mod_plus_full. Qed.
Lemma ext_end t : ext x (last_index + t) = ext x (last_index - t).
Proof. rewrite <- (ext_neg (last_index - t)), <- (ext_period (- _)). f_equal. unfold period. lia. Qed.
Lemma ext_in k : (k < length x)%nat -> ext x (Z.of_nat k) = nth k x 0.
Proof. intros Hk. unfold ext, pse. rewrite Z.mod_small by (unfold period; lia). f_equal. unfold period. lia. Qed.

Lemma high_neg i : std_high x (- i) = std_high x i.
Proof.
  unfold std_high. rewrite ext_neg. replace (- i - 1) with (- (i + 1)) by lia. replace (- i + 1) with (- (i - 1)) by lia.
  rewrite !ext_neg. f_equal. f_equal. lia.
Qed.
Lemma high_end t : std_high x (last_index + t) = std_high x (last_index - t).
Proof.
  unfold std_high. rewrite ext_end. replace (last_index + t - 1) with (last_index + (t - 1)) by lia.
  replace (last_index + t + 1) with (last_index + (t + 1)) by lia. rewrite !ext_end.
  replace (last_index - (t - 1)) with (last_index - t + 1) by lia. replace (last_index - (t + 1)) with (last_index - t - 1) by lia.
  f_equal. f_equal. lia.
Qed.

(** The neighbours the kernels reflect at the ends are those of the extension. *)
Context (p sn dn : nat) (Hn : length x = (sn + dn)%nat).
Context (Hs : (p = 0 /\ dn <= sn <= dn + 1 \/ p = 1 /\ sn <= dn <= sn + 1)%nat).

Lemma std_high_Z k : (k < dn)%nat -> std_high x (Z.of_nat (2 * k + (1 - p))) = highZ x sn p k.
Proof.
  intros Hk. unfold std_high, highZ. rewrite ext_in by lia. f_equal. f_equal. unfold predict_indices.
  destruct Hs as [[-> H]|[-> H]]; cbn [Nat.eqb fst snd]; f_equal.
  - replace (Z.of_nat (2 * k + (1 - 0)) - 1) with (Z.of_nat (2 * k + 0)) by lia. apply ext_in. lia.
  - destruct (Nat.ltb_spec (k + 1) sn).
    + replace (Z.of_nat (2 * k + (1 - 0)) + 1) with (Z.of_nat (2 * (k + 1) + 0)) by lia. apply ext_in. lia.
    + replace (Z.of_nat (2 * k + (1 - 0)) + 1) with (last_index + 1) by lia. rewrite ext_end.
      replace (last_index - 1) with (Z.of_nat (2 * k + 0)) by lia. apply ext_in. lia.
  - destruct (Nat.ltb_spec 0 k).
    + replace (Z.of_nat (2 * k + (1 - 1)) - 1) with (Z.of_nat (2 * (k - 1) + 1)) by lia. apply ext_in. lia.
    + replace (Z.of_nat (2 * k + (1 - 1)) - 1) with (- Z.of_nat 1) by lia. rewrite ext_neg. apply ext_in. lia.
  - destruct (Nat.ltb_spec k sn).
    + replace (Z.of_nat (2 * k + (1 - 1)) + 1) with (Z.of_nat (2 * k + 1)) by lia. apply ext_in. lia.
    + rewrite (proj2 (Nat.ltb_lt 0 sn)) by lia. replace (Z.of_nat (2 * k + (1 - 1)) + 1) with (last_index + 1) by lia. rewrite ext_end.
      replace (last_index - 1) with (Z.of_nat (2 * (sn - 1) + 1)) by lia. apply ext_in. lia.
Qed.
Lemma std_low_Z k : (k < sn)%nat -> std_low x (Z.of_nat (2 * k + p)) = lowZ x sn dn p k.
Proof.
  intros Hk. pose proof std_high_Z as Hh. unfold std_low, lowZ. rewrite ext_in by lia. f_equal. f_equal. f_equal. unfold update_indices.
  destruct Hs as [[-> H]|[-> H]]; cbn [Nat.eqb fst snd]; f_equal.
  - destruct (Nat.ltb_spec 0 k).
    + rewrite <- Hh by lia. f_equal. lia.
    + replace (Z.of_nat (2 * k + 0) - 1) with (- Z.of_nat (2 * 0 + (1 - 0))) by lia. rewrite high_neg. apply Hh. lia.
  - destruct (Nat.ltb_spec k dn).
    + rewrite <- Hh by lia. f_equal. lia.
    + rewrite (proj2 (Nat.ltb_lt 0 dn)) by lia. replace (Z.of_nat (2 * k + 0) + 1) with (last_index + 1) by lia. rewrite high_end.
      rewrite <- Hh by lia. f_equal. lia.
  - rewrite <- Hh by lia. f_equal. lia.
  - destruct (Nat.ltb_spec (k + 1) dn).
    + rewrite <- Hh by lia. f_equal. lia.
    + replace (Z.of_nat (2 * k + 1) + 1) with (last_index + 1) by lia. rewrite high_end. rewrite <- Hh by lia. f_equal. lia.
Qed.
End extension.

(** C22: the forward kernels, with the loop of either parity, the unrolled ends and the shift
    of the low band, compute the reversible 5/3 transform of the standard on the shifted
    line: lifting with whole-sample symmetric extension, low samples first. *)
Theorem forward_is_standard (p : nat) (dc B : Z) (x : list Z) :
  (p <= 1)%nat -> 0 <= B -> 2 * B + 2 <= R32 -> within B x -> within B (shifted dc x) ->
  encode_53 fwd32 p dc x = std_53 p (shifted dc x).
Proof.
  intros Hp HB HR Hx Hy. rewrite (encode_53_exact fwd32 R32 B) by done. revert Hy. generalize (shifted dc x). intros y Hy.
  destruct (Nat.le_gt_cases (length y) 1) as [H1|H1].
  { destruct y as [|v [|? ?]]; [by destruct p as [|[|?]]| |cbn [length] in H1; lia]. apply list.Forall_cons in Hy as [Hv _]. unfold R32 in HR.
    destruct p as [|[|?]]; [done| |lia]. cbn -[swrap Z.shiftl Z.mul]. by rewrite shiftl_1, i32_small by lia. }
  destruct (low_sizes (length y) p Hp) as [Hn Hs]. cbv zeta in Hn, Hs.
  rewrite (encode_Z y (length y) (low_size (length y) p) (length y - low_size (length y) p) 1) by (done || lia).
  assert (std_53 p y = tab (bands (fun k => std_low y (Z.of_nat (2 * k + p))) (fun k => std_high y (Z.of_nat (2 * k + (1 - p))))
    (low_size (length y) p)) (length y)) as -> by (by destruct y as [|? [|? ?]]; [|cbn [length] in H1; lia|]).
  rewrite <- Hn. apply tab_ext. intros k Hk. unfold bands. destruct (Nat.ltb_spec k (low_size (length y) p)); symmetry.
  - apply std_low_Z; (done || lia).
  - apply (std_high_Z y ltac:(lia) p _ (length y - low_size (length y) p)); (done || lia).
Qed.
Lemma forward_is_standard_witness : encode_53 fwd32 1 128 [7; 255; 0; 31; 90] = std_53 1 (shifted 128 [7; 255; 0; 31; 90]).
Proof.
  apply (forward_is_standard 1 128 255 [7; 255; 0; 31; 90]); [lia|lia|vm_compute; congruence| |];
    repeat constructor; vm_compute; congruence.
Defined.
