(* ===== verification/Mct.v ===== *)
(** The reversible colour transform (point_transform/mct.cpp), and a colour tile through it
    and through the wavelet.

    The kernels transform the samples of three planes lane by lane and in place; the tasks
    share out rows.  A plane is a list of rows, and a lane is one position in the three. *)
From S2P Require Import Prelude Geometry Wavelet WaveletLines WaveletExact WaveletNarrow WaveletTile WaveletTheorems.

(** ** Model *)

Record ShiftInfo := MkShift { _min : Z; _max : Z; _shift : Z }.

(** [Mct::genShift] for one component. *)
Definition genShift (sgnd : bool) (prec dcLevelShift sign : Z) : ShiftInfo :=
  MkShift (sample_min sgnd prec) (sample_max sgnd prec) (i32 (sign * dcLevelShift)).

(** One position of the three planes. *)
Definition map_row (f : Z -> Z -> Z -> Z) (a b c : list Z) : list Z := zip_with (fun ab c => f ab.1 ab.2 c) (zip a b) c.
Definition map_planes (f : Z -> Z -> Z -> Z) (a b c : list (list Z)) : list (list Z) :=
  zip_with (fun ab c => map_row f ab.1 ab.2 c) (zip a b) c.

(** [CompressRev::transform]: the colours with their (negative) shift, then [y], [u], [v]. *)
Definition forward_y (s0 s1 s2 : ShiftInfo) (r g b : Z) : Z :=
  let r := add32 r (_shift s0) in let g := add32 g (_shift s1) in let b := add32 b (_shift s2) in
  Z.shiftr (add32 (add32 (add32 g g) b) r) 2.
Definition forward_u (s0 s1 s2 : ShiftInfo) (r g b : Z) : Z := sub32 (add32 b (_shift s2)) (add32 g (_shift s1)).
Definition forward_v (s0 s1 s2 : ShiftInfo) (r g b : Z) : Z := sub32 (add32 r (_shift s0)) (add32 g (_shift s1)).
Definition compress_rev (s0 s1 s2 : ShiftInfo) (planes : list (list Z) * list (list Z) * list (list Z)) :
    list (list Z) * list (list Z) * list (list Z) :=
  let '(chan0, chan1, chan2) := planes in
  (map_planes (forward_y s0 s1 s2) chan0 chan1 chan2, map_planes (forward_u s0 s1 s2) chan0 chan1 chan2,
   map_planes (forward_v s0 s1 s2) chan0 chan1 chan2).

(** [DecompressRev::transform] and [DecompressRev16::transform], which also narrows the
    shift and the range: lanes of [wr]. *)
Definition narrow_shift (s : ShiftInfo) : ShiftInfo := MkShift (i16 (_min s)) (i16 (_max s)) (i16 (_shift s)).
Section inverse_rct.
Context (wr : Z -> Z).
Definition inverse_g (y u v : Z) : Z := wr (y - Z.shiftr (wr (u + v)) 2).
Definition store_clamped (s : ShiftInfo) (c : Z) : Z := clamp (wr (c + _shift s)) (_min s) (_max s).
Definition inverse_r (s0 : ShiftInfo) (y u v : Z) : Z := store_clamped s0 (wr (v + inverse_g y u v)).
Definition inverse_green (s1 : ShiftInfo) (y u v : Z) : Z := store_clamped s1 (inverse_g y u v).
Definition inverse_b (s2 : ShiftInfo) (y u v : Z) : Z := store_clamped s2 (wr (u + inverse_g y u v)).
End inverse_rct.
(** The planes are left alone when their buffers differ in stride or height. *)
Definition stride (p : list (list Z)) : nat := length (hd [] p).
Definition same_dims (a b : list (list Z)) : bool := ((stride a =? stride b) && (length a =? length b))%nat.
Definition decompress_rev (d16 : bool) (s0 s1 s2 : ShiftInfo) (planes : list (list Z) * list (list Z) * list (list Z)) :
    list (list Z) * list (list Z) * list (list Z) :=
  let '(chan0, chan1, chan2) := planes in
  let wr := if d16 then i16 else i32 in
  let nw := if d16 then narrow_shift else id in
  if same_dims chan0 chan1 && same_dims chan1 chan2 then
    (map_planes (inverse_r wr (nw s0)) chan0 chan1 chan2, map_planes (inverse_green wr (nw s1)) chan0 chan1 chan2,
     map_planes (inverse_b wr (nw s2)) chan0 chan1 chan2)
  else planes.

(** [DecompressDcShiftRev] and its 16-bit form: components without wavelet or colour transform. *)
Definition decompress_dc_shift_rev (d16 : bool) (s : ShiftInfo) (p : list (list Z)) : list (list Z) :=
  let wr := if d16 then i16 else i32 in
  (fun row : list Z => store_clamped wr (if d16 then narrow_shift s else s) <$> row) <$> p.
(** [dcLevelShiftCompress] for a reversible component without wavelet. *)
Definition dcLevelShiftCompress (dcLevelShift : Z) (p : list (list Z)) : list (list Z) :=
  if dcLevelShift =? 0 then p else (fun row : list Z => (fun v => i32 (v - dcLevelShift)) <$> row) <$> p.

(** ** Planes *)

Definition shaped (w h : nat) (p : list (list Z)) : Prop := rectangular w p /\ length p = h.

Lemma lookup_map_row f a b c k : map_row f a b c !! k =
  match a !! k, b !! k, c !! k with Some x, Some y, Some z => Some (f x y z) | _, _, _ => None end.
Proof. unfold map_row. rewrite lookup_zip_with, lookup_zip_with. by destruct (a !! k), (b !! k), (c !! k). Qed.
Lemma lookup_map_planes f a b c k : map_planes f a b c !! k =
  match a !! k, b !! k, c !! k with Some x, Some y, Some z => Some (map_row f x y z) | _, _, _ => None end.
Proof. unfold map_planes. rewrite lookup_zip_with, lookup_zip_with. by destruct (a !! k), (b !! k), (c !! k). Qed.
Lemma shaped_map_planes f w h a b c : shaped w h a -> shaped w h b -> shaped w h c -> shaped w h (map_planes f a b c).
Proof.
  intros [Ra Ha] [Rb Hb] [Rc Hc]. split.
  - apply Forall_lookup. intros k row. rewrite lookup_map_planes.
    destruct (a !! k) eqn:Ea, (b !! k) eqn:Eb, (c !! k) eqn:Ec; try done. intros [= <-].
    pose proof (Forall_lookup_1 _ _ _ _ Ra Ea). pose proof (Forall_lookup_1 _ _ _ _ Rb Eb). pose proof (Forall_lookup_1 _ _ _ _ Rc Ec).
    cbn beta in *. unfold map_row. rewrite !length_zip_with. lia.
  - unfold map_planes. rewrite !length_zip_with. lia.
Qed.
Lemma shaped_same_dims w h a b : shaped w h a -> shaped w h b -> same_dims a b = true.
Proof.
  intros [Ra Ha] [Rb Hb]. unfold same_dims. rewrite Ha, Hb, Nat.eqb_refl, andb_true_r. apply Nat.eqb_eq. unfold stride.
  destruct a as [|ra a], b as [|rb b]; [done|by subst h|by subst h|].
  apply list.Forall_cons in Ra as [Ea _]. apply list.Forall_cons in Rb as [Eb _]. cbn [hd]. lia.
Qed.

(** What holds of every position of the three planes. *)
Definition positions (Q : Z -> Z -> Z -> Prop) (a b c : list (list Z)) : Prop :=
  forall k i ra rb rc x y z, a !! k = Some ra -> b !! k = Some rb -> c !! k = Some rc ->
    ra !! i = Some x -> rb !! i = Some y -> rc !! i = Some z -> Q x y z.

Lemma map_planes_back F fy fu fv w h a b c (sel : Z -> Z -> Z -> Z) (p : list (list Z)) :
  shaped w h a -> shaped w h b -> shaped w h c -> p = map_planes sel a b c ->
  positions (fun x y z => F (fy x y z) (fu x y z) (fv x y z) = sel x y z) a b c ->
  map_planes F (map_planes fy a b c) (map_planes fu a b c) (map_planes fv a b c) = p.
Proof.
  intros Sa Sb Sc -> HQ. apply list_eq. intros k. rewrite !lookup_map_planes.
  destruct (a !! k) as [ra|] eqn:Ea, (b !! k) as [rb|] eqn:Eb, (c !! k) as [rc|] eqn:Ec; try done. f_equal.
  apply list_eq. intros i. rewrite !lookup_map_row.
  destruct (ra !! i) eqn:Ex, (rb !! i) eqn:Ey, (rc !! i) eqn:Ez; try done. f_equal. by eapply HQ.
Qed.
Lemma map_planes_sel w h a b c : shaped w h a -> shaped w h b -> shaped w h c ->
  map_planes (fun x _ _ => x) a b c = a /\ map_planes (fun _ y _ => y) a b c = b /\ map_planes (fun _ _ z => z) a b c = c.
Proof.
  intros [Ra Ha] [Rb Hb] [Rc Hc].
  assert (forall k, (k < h)%nat -> exists ra rb rc, a !! k = Some ra /\ b !! k = Some rb /\ c !! k = Some rc /\
    length ra = w /\ length rb = w /\ length rc = w) as Hrow.
  { intros k Hk. destruct (lookup_lt_is_Some_2 a k) as [ra Ea]; [lia|]. destruct (lookup_lt_is_Some_2 b k) as [rb Eb]; [lia|].
    destruct (lookup_lt_is_Some_2 c k) as [rc Ec]; [lia|]. exists ra, rb, rc. repeat split; try done;
    [exact (Forall_lookup_1 _ _ _ _ Ra Ea)|exact (Forall_lookup_1 _ _ _ _ Rb Eb)|exact (Forall_lookup_1 _ _ _ _ Rc Ec)]. }
  assert (forall (f : Z -> Z -> Z -> Z) (q : list (list Z)), length q = h ->
    (forall k ra rb rc, a !! k = Some ra -> b !! k = Some rb -> c !! k = Some rc -> length ra = w -> length rb = w -> length rc = w ->
      exists rq, q !! k = Some rq /\ map_row f ra rb rc = rq) -> map_planes f a b c = q) as Hall.
  { intros f q Hq Hf. apply list_eq. intros k. rewrite lookup_map_planes. destruct (Nat.lt_ge_cases k h) as [Hk|Hk].
    - destruct (Hrow k Hk) as (ra & rb & rc & Ea & Eb & Ec & La & Lb & Lc). rewrite Ea, Eb, Ec.
      destruct (Hf k ra rb rc) as (rq & -> & ->); done.
    - rewrite !lookup_ge_None_2 by lia. done. }
  assert (forall f w' ra rb rc (rq : list Z), length ra = w' -> length rb = w' -> length rc = w' -> length rq = w' ->
    (forall i x y z, ra !! i = Some x -> rb !! i = Some y -> rc !! i = Some z -> rq !! i = Some (f x y z)) -> map_row f ra rb rc = rq) as Hr.
  { intros f w' ra rb rc rq La Lb Lc Lq Hi. apply list_eq. intros i. rewrite lookup_map_row. destruct (Nat.lt_ge_cases i w') as [Hk|Hk].
    - destruct (lookup_lt_is_Some_2 ra i) as [x Ex]; [lia|]. destruct (lookup_lt_is_Some_2 rb i) as [y Ey]; [lia|].
      destruct (lookup_lt_is_Some_2 rc i) as [z Ez]; [lia|]. rewrite Ex, Ey, Ez. symmetry. by apply Hi.
    - rewrite !lookup_ge_None_2 by lia. done. }
  split; [|split]; (apply Hall; [done|]); intros k ra rb rc Ea Eb Ec La Lb Lc; eexists; (split; [eassumption|]);
    (eapply (Hr _ w); try done).
Qed.

(** ** One position *)

Section position.
Context (d16 : bool) (sgnd : bool) (prec : Z) (Hp : 1 <= prec <= 26) (H16 : d16 = true -> prec <= 13).
Abbreviation dc := (default_dc_shift sgnd prec).
Abbreviation fwd := (genShift sgnd prec dc (-1)).
Abbreviation inv := (genShift sgnd prec dc 1).
Abbreviation wr := (if d16 then i16 else i32).
Abbreviation nw := (if d16 then narrow_shift else id).
Abbreviation X := (2 ^ (prec - 1)).

Lemma half_range : 0 < X <= 2 ^ 25 /\ (d16 = true -> X <= 2 ^ 12).
Proof. split; [split; [lia|apply Z.pow_le_mono_r; lia]|]. intros E. apply Z.pow_le_mono_r; [lia|]. specialize (H16 E). lia. Qed.
Lemma default_range_shifted v : default_range sgnd prec v -> Z.abs (v - dc) <= X /\ Z.abs v <= 2 * X.
Proof.
  destruct half_range as [Hx _]. destruct (range_bounds sgnd prec ltac:(lia)) as (E1 & E2 & E3). unfold default_range. rewrite E1, E2, E3.
  destruct sgnd; lia.
Qed.
Lemma fwd_shift v : default_range sgnd prec v -> add32 v (_shift fwd) = v - dc.
Proof.
  intros Hv. destruct half_range as [Hx _]. destruct (default_range_shifted v Hv) as [H1 H2]. unfold add32. cbn [genShift _shift].
  assert (Z.abs dc <= X).
  { destruct (range_bounds sgnd prec ltac:(lia)) as (_ & -> & _). destruct sgnd; lia. }
  drop_i32. lia.
Qed.

(** The three samples after the forward transform. *)
Lemma forward_position r g b : default_range sgnd prec r -> default_range sgnd prec g -> default_range sgnd prec b ->
  forward_y fwd fwd fwd r g b = (2 * (g - dc) + (b - dc) + (r - dc)) / 4 /\
  forward_u fwd fwd fwd r g b = (b - dc) - (g - dc) /\ forward_v fwd fwd fwd r g b = (r - dc) - (g - dc).
Proof.
  intros Hr Hg Hb. destruct half_range as [Hx _]. unfold forward_y, forward_u, forward_v. cbv zeta. rewrite !fwd_shift by done.
  apply default_range_shifted in Hr, Hg, Hb. unfold add32, sub32. rewrite shiftr_2. drop_i32. split; [f_equal; lia|done].
Qed.

Lemma wr_small a : Z.abs a <= 4 * X -> wr a = a.
Proof.
  intros Ha. destruct half_range as [Hx Hx16]. destruct d16; [|apply i32_small; lia]. apply i16_small. specialize (Hx16 eq_refl). lia.
Qed.
Lemma store_back v : default_range sgnd prec v -> store_clamped wr (nw inv) (v - dc) = v.
Proof.
  intros Hv. destruct half_range as [Hx Hx16]. pose proof (default_range_shifted v Hv) as [H1 H2]. unfold default_range in Hv.
  destruct (range_bounds sgnd prec ltac:(lia)) as (E1 & E2 & E3).
  assert (nw inv = MkShift (sample_min sgnd prec) (sample_max sgnd prec) dc) as ->.
  { unfold genShift. rewrite Z.mul_1_l, (i32_small dc) by (destruct sgnd; lia). destruct d16; [|done]. specialize (Hx16 eq_refl).
    unfold narrow_shift. cbn [_min _max _shift]. by rewrite !i16_small by (destruct sgnd; lia). }
  unfold store_clamped, clamp. cbn [_min _max _shift]. rewrite wr_small by lia. replace (v - dc + dc) with v by lia.
  by rewrite (proj2 (Z.ltb_ge v _)), (proj2 (Z.ltb_ge _ v)) by lia.
Qed.

Lemma position_back r g b : default_range sgnd prec r -> default_range sgnd prec g -> default_range sgnd prec b ->
  let y := forward_y fwd fwd fwd r g b in let u := forward_u fwd fwd fwd r g b in let v := forward_v fwd fwd fwd r g b in
  inverse_r wr (nw inv) y u v = r /\ inverse_green wr (nw inv) y u v = g /\ inverse_b wr (nw inv) y u v = b /\
  Z.abs y <= 2 * X /\ Z.abs u <= 2 * X /\ Z.abs v <= 2 * X.
Proof.
  intros Hr Hg Hb y u v. destruct (forward_position r g b Hr Hg Hb) as (Ey & Eu & Ev). fold y in Ey. fold u in Eu. fold v in Ev.
  pose proof (default_range_shifted r Hr) as [Br _]. pose proof (default_range_shifted g Hg) as [Bg _].
  pose proof (default_range_shifted b Hb) as [Bb _]. destruct half_range as [Hx _].
  assert (inverse_g wr y u v = g - dc) as Eg.
  { unfold inverse_g. rewrite shiftr_2, (wr_small (u + v)) by lia. rewrite wr_small by divlia. rewrite Ey, Eu, Ev. divlia. }
  unfold inverse_r, inverse_green, inverse_b. rewrite Eg, !wr_small by lia.
  replace (v + (g - dc)) with (r - dc) by lia. replace (u + (g - dc)) with (b - dc) by lia. rewrite !store_back by done.
  repeat split; try divlia.
Qed.
End position.

(** ** Components and colour tiles *)

(** A component without colour transform: its level shift is part of the wavelet, or done on
    its own when there is none. *)
Definition compress_component (c16 : bool) (lanes : nat) (tc : Rect) (numres : nat) (sgnd : bool) (prec : Z) (buf : list (list Z)) :
    list (list Z) :=
  let dc := default_dc_shift sgnd prec in
  let buf := if (1 <? numres)%nat then buf else dcLevelShiftCompress dc buf in
  compress_53 c16 lanes tc numres (compress_dc false sgnd prec dc numres) buf.
Definition decompress_component (d16 : bool) (pll num_threads : nat) (tc : Rect) (numres : nat) (sgnd : bool) (prec : Z)
    (buf : list (list Z)) : list (list Z) :=
  let dc := default_dc_shift sgnd prec in
  let buf := decompress_53 d16 pll num_threads tc numres (decompress_dc false sgnd prec dc numres) buf in
  let waveletFusedDc := (1 <? numres)%nat in
  if waveletFusedDc then buf else decompress_dc_shift_rev d16 (genShift sgnd prec dc 1) buf.

(** Three components with the colour transform: it shifts, the wavelets do not. *)
Definition compress_colour (c16 : bool) (lanes : nat) (tc : Rect) (numres : nat) (sgnd : bool) (prec : Z)
    (planes : list (list Z) * list (list Z) * list (list Z)) : list (list Z) * list (list Z) * list (list Z) :=
  let dc := default_dc_shift sgnd prec in
  let s := genShift sgnd prec dc (-1) in
  let '(y, u, v) := compress_rev s s s planes in
  let wavelet := compress_53 c16 lanes tc numres (compress_dc true sgnd prec dc numres) in
  (wavelet y, wavelet u, wavelet v).
Definition decompress_colour (d16 : bool) (pll num_threads : nat) (tc : Rect) (numres : nat) (sgnd : bool) (prec : Z)
    (planes : list (list Z) * list (list Z) * list (list Z)) : list (list Z) * list (list Z) * list (list Z) :=
  let dc := default_dc_shift sgnd prec in
  let s := genShift sgnd prec dc 1 in
  let '(y, u, v) := planes in
  let wavelet := decompress_53 d16 pll num_threads tc numres (decompress_dc true sgnd prec dc numres) in
  decompress_rev d16 s s s (wavelet y, wavelet u, wavelet v).

Lemma fmap_rows_id (f : Z -> Z) (p : list (list Z)) : Forall (Forall (fun v => f v = v)) p -> (fun row : list Z => f <$> row) <$> p = p.
Proof.
  intros H. rewrite <- (list_fmap_id p) at 2. apply list_fmap_ext. intros k row E. pose proof (Forall_lookup_1 _ _ _ _ H E) as Hr.
  rewrite <- (list_fmap_id row) at 2. apply list_fmap_ext. intros i v Ev. exact (Forall_lookup_1 _ _ _ _ Hr Ev).
Qed.
Lemma shift_only_back d16 sgnd prec p : 1 <= prec <= 26 -> (d16 = true -> prec <= 13) -> Forall (Forall (default_range sgnd prec)) p ->
  decompress_dc_shift_rev d16 (genShift sgnd prec (default_dc_shift sgnd prec) 1) (dcLevelShiftCompress (default_dc_shift sgnd prec) p) = p.
Proof.
  intros Hp H16 Hc. set (dc := default_dc_shift sgnd prec).
  assert (dcLevelShiftCompress dc p = (fun row : list Z => (fun v => v - dc) <$> row) <$> p) as ->.
  { unfold dcLevelShiftCompress. destruct (Z.eqb_spec dc 0) as [E|E].
    - symmetry. apply fmap_rows_id. refine (list.Forall_impl _ _ _ Hc _). intros row Hr. refine (list.Forall_impl _ _ _ Hr _). intros. lia.
    - apply list_fmap_ext. intros k row Ek. apply list_fmap_ext. intros i v Ev.
      pose proof (Forall_lookup_1 _ _ _ _ (Forall_lookup_1 _ _ _ _ Hc Ek) Ev) as Hv.
      destruct (default_range_shifted d16 sgnd prec Hp H16 v Hv) as [Hb _]. fold dc in Hb. destruct (half_range d16 prec Hp H16) as [Hx _].
      apply i32_small. lia. }
  unfold decompress_dc_shift_rev. cbv zeta. rewrite <- list_fmap_compose. unfold compose.
  transitivity ((fun row : list Z => (fun v => store_clamped (if d16 then i16 else i32) (if d16 then narrow_shift (genShift sgnd prec dc 1)
    else genShift sgnd prec dc 1) (v - dc)) <$> row) <$> p).
  { apply list_fmap_ext. intros k row _. by rewrite <- list_fmap_compose. }
  apply fmap_rows_id. refine (list.Forall_impl _ _ _ Hc _). intros row Hr. refine (list.Forall_impl _ _ _ Hr _). intros v Hv.
  etransitivity; [|exact (store_back d16 sgnd prec Hp H16 v Hv)]. by destruct d16.
Qed.

(** C2: a component without colour transform survives compression and decompression, with
    32-bit or 16-bit lanes at either end: signed or unsigned samples of 1 to 26 bits (13 when
    they are decompressed in 16-bit lanes), any tile position and size, at most 33 resolutions
    (one included), if the growth of the samples over the levels stays inside the lanes
    ([fits]) and, in 16-bit lanes of the compressor, no row of a level has vectors that
    overrun its low band ([rows_ok]); rows that do are not lossless ([odd_row_overrun]). *)
Theorem component_lossless (c16 d16 : bool) (lanes pll num_threads : nat) (tc : Rect) (numres : nat)
    (sgnd : bool) (prec : Z) (buf : list (list Z)) :
  1 <= prec <= 26 -> (d16 = true -> prec <= 13) ->
  transformable c16 d16 lanes tc numres (2 ^ (prec - 1)) -> component_ok tc (default_range sgnd prec) buf ->
  decompress_component d16 pll num_threads tc numres sgnd prec (compress_component c16 lanes tc numres sgnd prec buf) = buf.
Proof.
  intros Hp H16 Ht Hc. unfold decompress_component, compress_component. cbv zeta. destruct (Nat.ltb_spec 1 numres) as [H1|H1].
  - by apply plain_component; [lia|..].
  - unfold decompress_dc, compress_dc. rewrite (proj2 (Nat.ltb_ge 1 numres)) by done. cbn [andb].
    rewrite decompress_dc_narrow, compress_53_forward by done. unfold tile_53, encode. rewrite (proj2 (Nat.leb_le numres 1)) by done.
    replace (numres - 1)%nat with 0%nat by lia. cbn [encode_levels]. apply shift_only_back; try done. apply Hc.
Qed.

Definition example_tile : Rect := mkRect 0 0 3 5 6 9.
Definition example_samples : list (list Z) := [[17; 200; 3]; [255; 0; 128]; [90; 91; 12]; [44; 250; 77]].
Lemma component_lossless_witness :
  decompress_component true 2 3 example_tile 6 false 8
    (compress_component true 8 example_tile 6 false 8 example_samples) = example_samples.
Proof.
  apply (component_lossless true true 8 2 3 example_tile 6 false 8 example_samples); [lia|lia| |].
  - split; [unfold valid_tile; cbn; lia|]. split; [lia|]. split; [lia|]. split; vm_compute; reflexivity.
  - repeat split; [repeat constructor|]. repeat constructor; vm_compute; congruence.
Defined.

Lemma positions_of (P : Z -> Prop) (Q : Z -> Z -> Z -> Prop) a b c :
  Forall (Forall P) a -> Forall (Forall P) b -> Forall (Forall P) c -> (forall x y z, P x -> P y -> P z -> Q x y z) -> positions Q a b c.
Proof.
  intros Ha Hb Hc HQ k i ra rb rc x y z Ea Eb Ec Ex Ey Ez. apply HQ;
    [exact (Forall_lookup_1 _ _ _ _ (Forall_lookup_1 _ _ _ _ Ha Ea) Ex)|exact (Forall_lookup_1 _ _ _ _ (Forall_lookup_1 _ _ _ _ Hb Eb) Ey)
    |exact (Forall_lookup_1 _ _ _ _ (Forall_lookup_1 _ _ _ _ Hc Ec) Ez)].
Qed.
Lemma map_planes_forall (P : Z -> Prop) (f : Z -> Z -> Z -> Z) a b c : positions (fun x y z => P (f x y z)) a b c -> Forall (Forall P) (map_planes f a b c).
Proof.
  intros HP. apply Forall_lookup. intros k row. rewrite lookup_map_planes.
  destruct (a !! k) as [ra|] eqn:Ea, (b !! k) as [rb|] eqn:Eb, (c !! k) as [rc|] eqn:Ec; try done. intros [= <-].
  apply Forall_lookup. intros i v. rewrite lookup_map_row. destruct (ra !! i) eqn:Ex, (rb !! i) eqn:Ey, (rc !! i) eqn:Ez; try done.
  intros [= <-]. by eapply HP.
Qed.

(** Three planes of one size with samples in range. *)
Definition colours_ok (w h : nat) (sgnd : bool) (prec : Z) (planes : list (list Z) * list (list Z) * list (list Z)) : Prop :=
  let '(r, g, b) := planes in
  (shaped w h r /\ shaped w h g /\ shaped w h b) /\
  Forall (Forall (default_range sgnd prec)) r /\ Forall (Forall (default_range sgnd prec)) g /\ Forall (Forall (default_range sgnd prec)) b.

Lemma rct_back d16 w h sgnd prec planes : 1 <= prec <= 26 -> (d16 = true -> prec <= 13) -> colours_ok w h sgnd prec planes ->
  let dc := default_dc_shift sgnd prec in
  let s := genShift sgnd prec dc (-1) in let s' := genShift sgnd prec dc 1 in
  decompress_rev d16 s' s' s' (compress_rev s s s planes) = planes /\
  let '(y, u, v) := compress_rev s s s planes in
  Forall (fun p => shaped w h p /\ Forall (Forall (fun c => Z.abs c <= 2 * 2 ^ (prec - 1))) p) [y; u; v].
Proof.
  destruct planes as [[r g] b]. intros Hp H16 ((Sr & Sg & Sb) & Hr & Hg & Hb) dc s s'. cbn [compress_rev].
  pose proof (position_back d16 sgnd prec Hp H16) as HB. cbv zeta in HB. fold dc in HB. fold s s' in HB.
  assert (forall f, shaped w h (map_planes f r g b)) as Hsh by (intros; by apply shaped_map_planes). split.
  - unfold decompress_rev. rewrite !(shaped_same_dims w h) by done. cbn [andb].
    destruct (map_planes_sel w h r g b Sr Sg Sb) as (E1 & E2 & E3). repeat f_equal.
    + apply (map_planes_back _ _ _ _ w h _ _ _ (fun x _ _ => x)); try done.
      apply (positions_of (default_range sgnd prec)); try done. intros x y z Hx Hy Hz. by destruct (HB x y z Hx Hy Hz) as (-> & _).
    + apply (map_planes_back _ _ _ _ w h _ _ _ (fun _ y _ => y)); try done.
      apply (positions_of (default_range sgnd prec)); try done. intros x y z Hx Hy Hz. by destruct (HB x y z Hx Hy Hz) as (_ & -> & _).
    + apply (map_planes_back _ _ _ _ w h _ _ _ (fun _ _ z => z)); try done.
      apply (positions_of (default_range sgnd prec)); try done. intros x y z Hx Hy Hz. by destruct (HB x y z Hx Hy Hz) as (_ & _ & -> & _).
  - repeat constructor; try apply Hsh; apply map_planes_forall, (positions_of (default_range sgnd prec)); try done;
      intros x y z Hx Hy Hz; by destruct (HB x y z Hx Hy Hz) as (_ & _ & _ & ? & ? & ?).
Qed.

(** C36: The reversible colour transform with its level shift loses nothing: for a precision of
    1 to 26 bits (to 13 for the 16-bit inverse) and samples in the range of the precision, 32-bit
    planes transformed by the compressor come back from the 32-bit and from the 16-bit inverse,
    and in between no sample exceeds 2^prec in absolute value, one bit more than the colours. *)
Theorem rct_roundtrip (d16 : bool) (w h : nat) (sgnd : bool) (prec : Z) (planes : list (list Z) * list (list Z) * list (list Z)) :
  1 <= prec <= 26 -> (d16 = true -> prec <= 13) -> colours_ok w h sgnd prec planes ->
  let dc := default_dc_shift sgnd prec in
  let s := genShift sgnd prec dc (-1) in let s' := genShift sgnd prec dc 1 in
  decompress_rev d16 s' s' s' (compress_rev s s s planes) = planes /\
  let '(y, u, v) := compress_rev s s s planes in Forall (Forall (Forall (fun c => Z.abs c <= 2 ^ prec))) [y; u; v].
Proof.
  intros Hp H16 Hc dc s s'. destruct (rct_back d16 w h sgnd prec planes Hp H16 Hc) as [E Hb]. fold dc in E, Hb. fold s s' in E, Hb.
  split; [done|]. destruct (compress_rev s s s planes) as [[y u] v]. replace (2 ^ prec) with (2 * 2 ^ (prec - 1)).
  - refine (list.Forall_impl _ _ _ Hb _). by intros p [_ H].
  - rewrite <- Z.pow_succ_r by lia. f_equal. lia.
Qed.
Definition example_colours : list (list Z) * list (list Z) * list (list Z) :=
  (example_samples, (fun row : list Z => (fun v => 255 - v) <$> row) <$> example_samples, reverse example_samples).
Lemma example_colours_ok : colours_ok 3 4 false 8 example_colours.
Proof. repeat split; repeat constructor; vm_compute; congruence. Qed.
Lemma rct_roundtrip_witness :
  let s := genShift false 8 128 (-1) in let s' := genShift false 8 128 1 in
  decompress_rev true s' s' s' (compress_rev s s s example_colours) = example_colours /\
  let '(y, u, v) := compress_rev s s s example_colours in Forall (Forall (Forall (fun c => Z.abs c <= 2 ^ 8))) [y; u; v].
Proof. apply (rct_roundtrip true 3 4 false 8 example_colours); [lia|lia|exact example_colours_ok]. Defined.

(** C4: a colour tile survives: colour transform and wavelets of the three components, with
    32-bit or 16-bit lanes at either end, under the conditions of [component_lossless] with
    one more bit of the samples for the colour differences: 1 to 26 bits (13 when they are
    decompressed in 16-bit lanes), at most 33 resolutions, a growth that fits the lanes, and
    no row of the compressor whose 16-bit vectors overrun the low band. *)
Theorem colour_lossless (c16 d16 : bool) (lanes pll num_threads : nat) (tc : Rect) (numres : nat)
    (sgnd : bool) (prec : Z) (planes : list (list Z) * list (list Z) * list (list Z)) :
  1 <= prec <= 26 -> (d16 = true -> prec <= 13) -> transformable c16 d16 lanes tc numres (2 ^ prec) ->
  colours_ok (rect_w tc) (rect_h tc) sgnd prec planes ->
  decompress_colour d16 pll num_threads tc numres sgnd prec (compress_colour c16 lanes tc numres sgnd prec planes) = planes.
Proof.
  intros Hp H16 Ht Hc. destruct (rct_back d16 _ _ sgnd prec planes Hp H16 Hc) as [E Hb]. unfold compress_colour, decompress_colour. cbv zeta.
  destruct (compress_rev _ _ _ planes) as [[y u] v].
  apply list.Forall_cons in Hb as [[[Ry Hy] By] Hb]. apply list.Forall_cons in Hb as [[[Ru Hu] Bu] Hb].
  apply list.Forall_cons in Hb as [[[Rv Hv] Bv] _].
  assert (2 ^ prec = 2 * 2 ^ (prec - 1)) as E2 by (rewrite <- Z.pow_succ_r by lia; f_equal; lia). rewrite E2 in Ht.
  by rewrite !(mct_component c16 d16 lanes) with (B := 2 * 2 ^ (prec - 1)) by (done || lia).
Qed.
Lemma colour_lossless_witness :
  decompress_colour true 2 3 example_tile 5 false 8 (compress_colour true 16 example_tile 5 false 8 example_colours) =
  example_colours.
Proof.
  apply (colour_lossless true true 16 2 3 example_tile 5 false 8 example_colours); [lia|lia| |].
  - split; [unfold valid_tile; cbn; lia|]. split; [lia|]. split; [lia|]. split; vm_compute; reflexivity.
  - exact example_colours_ok.
Defined.
