(* ===== verification/Markers.v ===== *)
(** Coding parameters in the main header: the marker segments SIZ, COD, COC, QCD, QCC, RGN,
    POC and COM, as written by codestream/compress/CodeStreamCompress.cpp and
    codestream/markers/SIZMarker.cpp, and as read by codestream/CodingParams.cpp.

    The body of a segment is a list of bytes; the readers keep the pointer (the bytes not yet
    read) and [headerSize] apart, as the source does.  A read or an array access out of
    range is the error [OutOfBounds], a [false] return is [Refused]. *)
From S2P Require Import Prelude Geometry PLMarker.

(** ** Bytes *)

Inductive marker_error := Refused | OutOfBounds.
Abbreviation read_result := (result marker_error).

Definition be_value (bs : list Z) : Z := foldl (fun a b => 256 * a + b) 0 bs.
Fixpoint be_bytes (n : nat) (v : Z) : list Z :=
  match n with O => [] | S n => be_bytes n (Z.shiftr v 8) ++ [Z.land v 255] end.

Definition grk_read (n : nat) (data : list Z) : read_result (Z * list Z) :=
  if (n <=? length data)%nat then Ok (be_value (take n data), drop n data) else Err OutOfBounds.

(** An array element: the accesses of the readers are through these. *)
Definition get_at {A} (i : nat) (l : list A) : read_result A :=
  match l !! i with Some x => Ok x | None => Err OutOfBounds end.
Definition set_at {A} (i : nat) (x : A) (l : list A) : read_result (list A) :=
  if (i <? length l)%nat then Ok (<[i := x]> l) else Err OutOfBounds.

(** ** Parameters *)

Definition GRK_MAX_DECOMP_LVLS : Z := 32.
Definition GRK_MAXRLVLS : nat := 33.
Definition GRK_MAXBANDS : nat := 97.
Definition GRK_NUM_PROGRESSION_ORDERS : Z := 6.
Definition CP_CSTY_PRT : Z := 1.
Definition CP_CSTY_SOP : Z := 2.
Definition CP_CSTY_EPH : Z := 4.
Definition CCP_CSTY_PRECINCT : Z := 1.
Definition CCP_QNTSTY_NOQNT : Z := 0.
Definition CCP_QNTSTY_SIQNT : Z := 1.
Definition CCP_QNTSTY_SEQNT : Z := 2.
Definition GRK_CBLKSTY_LAZY : Z := 1.
Definition GRK_CBLKSTY_RESET : Z := 2.
Definition GRK_CBLKSTY_HT_ONLY : Z := 64.
Definition dfsReferenceFlag : Z := 128.
Definition SPCodSPCocLen : Z := 5.
Definition codSocLen : Z := 5.

(** The part of [TileComponentCodingParams] that COD and COC set ... *)
Record coding_style := MkStyle {
  csty_ : Z;
  numresolutions_ : Z;
  cblkw_expn_ : Z;
  cblkh_expn_ : Z;
  cblkStyle_ : Z;
  qmfbid_ : Z;
  atkIndex_ : Z;
  dfsIndex_ : Z;
  precWidthExp_ : list Z;
  precHeightExp_ : list Z;
}.

(** ... and the part that QCD and QCC set. *)
Record grk_stepsize := MkStep { expn : Z; mant : Z }.
Record quantization := MkQuant {
  quantizationMarkerSet_ : bool;
  fromQCC_ : bool;
  fromTileHeader_ : bool;
  qntsty_ : Z;
  stepsizes_ : list grk_stepsize;
  numStepSizes_ : Z;
  numgbits_ : Z;
}.
Record TileComponentCodingParams := MkTccp {
  style_ : coding_style;
  quant_ : quantization;
  roishift_ : Z;
  dcLevelShift_ : Z;
}.

(** The bounds of a progression order change that a POC segment carries. *)
Record grk_progression := MkProg {
  res_s : Z; comp_s : Z; lay_e : Z; res_e : Z; comp_e : Z; progression : Z;
}.

Record TileCodingParams := MkTcp {
  tcsty_ : Z;
  prg_ : Z;
  numLayers_ : Z;
  layersToDecompress_ : Z;
  mct_ : Z;
  numpocs_ : Z;
  hasPoc_ : bool;
  progressionOrderChange_ : list grk_progression;
  pocLists_ : list (list grk_progression);
  mainQcdQntsty : Z;
  mainQcdNumStepSizes : Z;
  cod_ : Z;
  sawCoc_ : bool;
  numComps_ : Z;
  tccps_ : list TileComponentCodingParams;
}.

(** [DecodingParams], as the header readers use it. *)
Record DecodingParams := MkDecoding { reduce_ : Z; dec_layersToDecompress_ : Z }.

Definition new_style : coding_style :=
  MkStyle 0 0 0 0 0 0 0 0 (replicate GRK_MAXRLVLS 0) (replicate GRK_MAXRLVLS 0).
Definition new_quant : quantization :=
  MkQuant false false false 0 (replicate GRK_MAXBANDS (MkStep 0 0)) 0 0.
Definition new_tccp : TileComponentCodingParams := MkTccp new_style new_quant 0 0.
Definition new_prog : grk_progression := MkProg 0 0 0 0 0 0.
(** [GRK_PROG_UNKNOWN] is -1. *)
Definition new_tcp : TileCodingParams :=
  MkTcp 0 (-1) 0 0 0 0 false (replicate GRK_MAXRLVLS new_prog) [] 0 0 0 false 0 [].

Definition with_style (t : TileComponentCodingParams) (s : coding_style) : TileComponentCodingParams :=
  MkTccp s (quant_ t) (roishift_ t) (dcLevelShift_ t).
Definition with_quant (t : TileComponentCodingParams) (q : quantization) : TileComponentCodingParams :=
  MkTccp (style_ t) q (roishift_ t) (dcLevelShift_ t).
Definition with_roishift (t : TileComponentCodingParams) (r : Z) : TileComponentCodingParams :=
  MkTccp (style_ t) (quant_ t) r (dcLevelShift_ t).
Definition with_csty (s : coding_style) (c : Z) : coding_style :=
  MkStyle c (numresolutions_ s) (cblkw_expn_ s) (cblkh_expn_ s) (cblkStyle_ s) (qmfbid_ s) (atkIndex_ s) (dfsIndex_ s)
    (precWidthExp_ s) (precHeightExp_ s).
Definition with_tccps (p : TileCodingParams) (l : list TileComponentCodingParams) : TileCodingParams :=
  MkTcp (tcsty_ p) (prg_ p) (numLayers_ p) (layersToDecompress_ p) (mct_ p) (numpocs_ p) (hasPoc_ p)
    (progressionOrderChange_ p) (pocLists_ p) (mainQcdQntsty p) (mainQcdNumStepSizes p) (cod_ p) (sawCoc_ p) (numComps_ p) l.

(** ** Reading coding styles *)

(** The precinct sizes of the resolutions [i], ..., [i + n - 1]. *)
Fixpoint read_precincts (n i : nat) (data : list Z) (w h : list Z) : read_result (list Z * list Z) :=
  match n with
  | O => Ok (w, h)
  | S n =>
      let* (tmp, data) := grk_read 1 data in
      if (0 <? i)%nat && ((Z.land tmp 0xf =? 0) || (Z.shiftr tmp 4 =? 0)) then Err Refused
      else
        let* w := set_at i (Z.land tmp 0xf) w in
        let* h := set_at i (Z.shiftr tmp 4) h in
        read_precincts n (S i) data w h
  end.
Fixpoint default_precincts (n i : nat) (w h : list Z) : read_result (list Z * list Z) :=
  match n with
  | O => Ok (w, h)
  | S n => let* w := set_at i 15 w in let* h := set_at i 15 h in default_precincts n (S i) w h
  end.

(** The number of resolutions, or a reference to a DFS marker. *)
Definition read_levels (fromCoc : bool) (s : coding_style) (levels : Z) : read_result (Z * Z) :=
  if negb (Z.land levels dfsReferenceFlag =? 0) then
    if negb fromCoc then Err Refused
    else if numresolutions_ s =? 0 then Err Refused
    else Ok (numresolutions_ s, Z.land levels (u8 (Z.lnot dfsReferenceFlag)))
  else if GRK_MAX_DECOMP_LVLS <? levels then Err Refused
  else Ok (u8 (levels + 1), 0).

Definition cblk_size_ok (w h : Z) : bool := negb ((8 <? w) || (8 <? h) || (8 <? w + h)).

Definition cblk_style_ok (sty : Z) : bool :=
  negb ((Z.land sty GRK_CBLKSTY_HT_ONLY =? GRK_CBLKSTY_HT_ONLY) &&
        negb (Z.lor (Z.land (Z.land sty 0x3f) GRK_CBLKSTY_LAZY) (Z.land (Z.land sty 0x3f) GRK_CBLKSTY_RESET) =? 0)) &&
  negb (Z.shiftr sty 6 =? 2).

(** Returns the new style and the [headerSize] left. *)
Definition readSPCodSPCoc (reduce : Z) (fromCoc : bool) (s : coding_style) (data : list Z) (headerSize : Z)
    : read_result (coding_style * Z) :=
  if headerSize <? SPCodSPCocLen then Err Refused
  else
    let* (levels, data) := grk_read 1 data in
    let* (numres, dfs) := read_levels fromCoc s levels in
    if numres <=? reduce then Err Refused
    else
      let* (cblkw, data) := grk_read 1 data in
      let* (cblkh, data) := grk_read 1 data in
      if negb (cblk_size_ok cblkw cblkh) then Err Refused
      else
        let* (sty, data) := grk_read 1 data in
        if negb (cblk_style_ok sty) then Err Refused
        else
          let* (transform, data) := grk_read 1 data in
          let atk := if 1 <? transform then transform else 0 in
          let qmf := if 1 <? transform then 0 else transform in
          let headerSize := u16 (headerSize - SPCodSPCocLen) in
          let style pr := MkStyle (csty_ s) numres (u8 (cblkw + 2)) (u8 (cblkh + 2)) sty qmf atk dfs (fst pr) (snd pr) in
          if negb (Z.land (csty_ s) CCP_CSTY_PRECINCT =? 0) then
            if headerSize <? numres then Err Refused
            else
              let* pr := read_precincts (Z.to_nat numres) 0 data (precWidthExp_ s) (precHeightExp_ s) in
              Ok (style pr, u16 (headerSize - numres))
          else
            let* pr := default_precincts (Z.to_nat numres) 0 (precWidthExp_ s) (precHeightExp_ s) in
            Ok (style pr, headerSize).

(** The memory copy of the first [n] entries of an array. *)
Definition memcpy_prefix {A} (n : nat) (src dst : list A) : list A := take n src ++ drop n dst.

(** The coding style of component 0 copied to another component. *)
Definition copy_style (ref dst : coding_style) : coding_style :=
  let n := Z.to_nat (numresolutions_ ref) in
  MkStyle (csty_ dst) (numresolutions_ ref) (cblkw_expn_ ref) (cblkh_expn_ ref) (cblkStyle_ ref) (qmfbid_ ref) (atkIndex_ ref)
    (dfsIndex_ dst) (memcpy_prefix n (precWidthExp_ ref) (precWidthExp_ dst))
    (memcpy_prefix n (precHeightExp_ ref) (precHeightExp_ dst)).

(** [updateLayersToDecompress]. *)
Definition updated_layers (dec : DecodingParams) (layers numLayers : Z) : Z :=
  let m := Z.max layers (dec_layersToDecompress_ dec) in if m =? 0 then numLayers else m.

Definition apply_style (c : Z) (t : TileComponentCodingParams) : TileComponentCodingParams :=
  with_style t (with_csty (style_ t) c).

Definition readCod (dec : DecodingParams) (p : TileCodingParams) (data : list Z) (headerSize : Z)
    : read_result TileCodingParams :=
  let p := MkTcp (tcsty_ p) (prg_ p) (numLayers_ p) (layersToDecompress_ p) (mct_ p) (numpocs_ p) (hasPoc_ p)
    (progressionOrderChange_ p) (pocLists_ p) (mainQcdQntsty p) (mainQcdNumStepSizes p) (u32 (cod_ p + 1)) (sawCoc_ p)
    (numComps_ p) (tccps_ p) in
  if 1 <? cod_ p then Ok p
  else if headerSize <? codSocLen then Err Refused
  else
    let* (csty, data) := grk_read 1 data in
    if negb (Z.land csty (u32 (Z.lnot (Z.lor (Z.lor CP_CSTY_PRT CP_CSTY_SOP) CP_CSTY_EPH))) =? 0) then Err Refused
    else
      let* (prg, data) := grk_read 1 data in
      if GRK_NUM_PROGRESSION_ORDERS <=? prg then Err Refused
      else
        let* (numLayers, data) := grk_read 2 data in
        if numLayers =? 0 then Err Refused
        else
          let* (mct, data) := grk_read 1 data in
          if 1 <? mct then Err Refused
          else
            let tccps := apply_style (Z.land csty CCP_CSTY_PRECINCT) <$> tccps_ p in
            let* t0 := get_at 0 tccps in
            let* (s0, headerSize) := readSPCodSPCoc (reduce_ dec) false (style_ t0) data (u16 (headerSize - codSocLen)) in
            if negb (headerSize =? 0) then Err Refused
            else
              Ok (MkTcp csty prg numLayers (updated_layers dec (layersToDecompress_ p) numLayers) mct (numpocs_ p) (hasPoc_ p)
                (progressionOrderChange_ p) (pocLists_ p) (mainQcdQntsty p) (mainQcdNumStepSizes p) (cod_ p) (sawCoc_ p)
                (numComps_ p)
                (with_style t0 s0 :: ((fun t => with_style t (copy_style s0 (style_ t))) <$> tail tccps))).

Definition comp_room (numComps : Z) : nat := if numComps <=? 256 then 1 else 2.

Definition readCoc (dec : DecodingParams) (p : TileCodingParams) (data : list Z) (headerSize : Z)
    : read_result TileCodingParams :=
  let room := comp_room (numComps_ p) in
  if headerSize <? Z.of_nat room + 1 then Err Refused
  else
    let headerSize := u16 (headerSize - (Z.of_nat room + 1)) in
    let* (comp_no, data) := grk_read room data in
    if numComps_ p <=? comp_no then Err Refused
    else
      let* (csty, data) := grk_read 1 data in
      let* t := get_at (Z.to_nat comp_no) (tccps_ p) in
      let* (s, headerSize) := readSPCodSPCoc (reduce_ dec) true (with_csty (style_ t) csty) data headerSize in
      if negb (headerSize =? 0) then Err Refused
      else
        let* tccps := set_at (Z.to_nat comp_no) (with_style t s) (tccps_ p) in
        Ok (MkTcp (tcsty_ p) (prg_ p) (numLayers_ p) (layersToDecompress_ p) (mct_ p) (numpocs_ p) (hasPoc_ p)
          (progressionOrderChange_ p) (pocLists_ p) (mainQcdQntsty p) (mainQcdNumStepSizes p) (cod_ p) true (numComps_ p) tccps).

(** ** Reading quantisation *)

(** Whether a quantisation marker leaves what was set before. *)
Definition scope_ignored (fromTileHeader fromQCC : bool) (q : quantization) : bool :=
  let mainQCD := negb fromQCC && negb fromTileHeader in
  let tileHeaderQCC := fromQCC && fromTileHeader in
  let setMainQCD := negb (fromQCC_ q) && negb (fromTileHeader_ q) in
  let setMainQCC := fromQCC_ q && negb (fromTileHeader_ q) in
  let setTileHeaderQCD := negb (fromQCC_ q) && fromTileHeader_ q in
  let setTileHeaderQCC := fromQCC_ q && fromTileHeader_ q in
  quantizationMarkerSet_ q &&
  (if negb fromTileHeader then setMainQCC || (mainQCD && setMainQCD)
   else setTileHeaderQCC || (setTileHeaderQCD && negb tileHeaderQCC)).

Definition step_noqnt (tmp : Z) : grk_stepsize := MkStep (u8 (Z.shiftr tmp 3)) 0.
Definition step_qnt (tmp : Z) : grk_stepsize := MkStep (u8 (Z.shiftr tmp 11)) (u16 (Z.land tmp 0x7ff)).

(** [n] step sizes of [room] bytes, stored from [band_no] on. *)
Fixpoint read_steps (ignore : bool) (room : nat) (step : Z -> grk_stepsize) (n band_no : nat) (data : list Z)
    (steps : list grk_stepsize) : read_result (list grk_stepsize) :=
  match n with
  | O => Ok steps
  | S n =>
      let* (tmp, data) := grk_read room data in
      let* steps := if negb ignore && (band_no <? GRK_MAXBANDS)%nat then set_at band_no (step tmp) steps else Ok steps in
      read_steps ignore room step n (S band_no) data steps
  end.

(** Scalar derived: the step sizes of the other bands. *)
Definition derived_step (s0 : grk_stepsize) (band_no : nat) : grk_stepsize :=
  let by3 := (Z.of_nat band_no - 1) / 3 in
  MkStep (if by3 <? expn s0 then u8 (expn s0 - by3) else 0) (mant s0).
Definition derive_steps (steps : list grk_stepsize) : read_result (list grk_stepsize) :=
  let* s0 := get_at 0 steps in
  Ok (s0 :: imap (fun i _ => derived_step s0 (S i)) (tail steps)).

(** Returns the quantisation of the component, the memory of the main QCD and the
    [headerSize] left. *)
Definition readSQcdSQcc (fromTileHeader fromQCC : bool) (q : quantization) (main : Z * Z) (data : list Z) (headerSize : Z)
    : read_result (quantization * (Z * Z) * Z) :=
  if headerSize <? 1 then Err Refused
  else
    let* (tmp, data) := grk_read 1 data in
    let qntsty := Z.land tmp 0x1f in
    let headerSize := u16 (headerSize - 1) in
    if CCP_QNTSTY_SEQNT <? qntsty then Err Refused
    else
      let ignore := scope_ignored fromTileHeader fromQCC q in
      let mainQCD := negb fromQCC && negb fromTileHeader in
      let num :=
        if ignore then numStepSizes_ q
        else if qntsty =? CCP_QNTSTY_SIQNT then 1
        else if qntsty =? CCP_QNTSTY_NOQNT then u8 headerSize else u8 (headerSize / 2) in
      let q := if ignore then q
               else MkQuant true fromQCC fromTileHeader qntsty (stepsizes_ q) num (u8 (Z.shiftr tmp 5)) in
      let main := if negb ignore && mainQCD then (qntsty, num) else main in
      let room := if qntsty =? CCP_QNTSTY_NOQNT then 1%nat else 2%nat in
      if headerSize <? Z.of_nat room * num then Err Refused
      else
        let* steps := read_steps ignore room (if qntsty =? CCP_QNTSTY_NOQNT then step_noqnt else step_qnt)
          (Z.to_nat num) 0 data (stepsizes_ q) in
        let headerSize := u16 (headerSize - Z.of_nat room * num) in
        let* steps := if negb ignore && (qntsty_ q =? CCP_QNTSTY_SIQNT) then derive_steps steps else Ok steps in
        Ok (MkQuant (quantizationMarkerSet_ q) (fromQCC_ q) (fromTileHeader_ q) (qntsty_ q) steps (numStepSizes_ q)
              (numgbits_ q), main, headerSize).

Definition with_quantization (p : TileCodingParams) (main : Z * Z) (l : list TileComponentCodingParams) : TileCodingParams :=
  MkTcp (tcsty_ p) (prg_ p) (numLayers_ p) (layersToDecompress_ p) (mct_ p) (numpocs_ p) (hasPoc_ p)
    (progressionOrderChange_ p) (pocLists_ p) (fst main) (snd main) (cod_ p) (sawCoc_ p) (numComps_ p) l.

(** The quantisation of component 0 copied to another component, under the scoping rules. *)
Definition copy_quant (src dst : quantization) : quantization :=
  if fromQCC_ dst && (negb (fromTileHeader_ src) || fromTileHeader_ dst) then dst
  else MkQuant (quantizationMarkerSet_ dst) (fromQCC_ dst) (fromTileHeader_ dst) (qntsty_ src) (stepsizes_ src)
         (numStepSizes_ dst) (numgbits_ src).

Definition readQcd (fromTileHeader : bool) (p : TileCodingParams) (data : list Z) (headerSize : Z)
    : read_result TileCodingParams :=
  let* t0 := get_at 0 (tccps_ p) in
  let* (q0, main, headerSize) :=
    readSQcdSQcc fromTileHeader false (quant_ t0) (mainQcdQntsty p, mainQcdNumStepSizes p) data headerSize in
  if negb (headerSize =? 0) then Err Refused
  else Ok (with_quantization p main
    (with_quant t0 q0 :: ((fun t => with_quant t (copy_quant q0 (quant_ t))) <$> tail (tccps_ p)))).

Definition readQcc (fromTileHeader : bool) (p : TileCodingParams) (data : list Z) (headerSize : Z)
    : read_result TileCodingParams :=
  let room := comp_room (numComps_ p) in
  if headerSize <? Z.of_nat room then Err Refused
  else
    let* (comp_no, data) := grk_read room data in
    let headerSize := u16 (headerSize - Z.of_nat room) in
    if numComps_ p <=? comp_no then Err Refused
    else
      let* t := get_at (Z.to_nat comp_no) (tccps_ p) in
      let* (q, main, headerSize) :=
        readSQcdSQcc fromTileHeader true (quant_ t) (mainQcdQntsty p, mainQcdNumStepSizes p) data headerSize in
      if negb (headerSize =? 0) then Err Refused
      else
        let* l := set_at (Z.to_nat comp_no) (with_quant t q) (tccps_ p) in
        Ok (with_quantization p main l).

(** ** Reading regions and progression order changes *)

Definition readRgn (p : TileCodingParams) (data : list Z) (headerSize : Z) : read_result TileCodingParams :=
  let room := comp_room (numComps_ p) in
  if negb (headerSize =? 2 + Z.of_nat room) then Err Refused
  else
    let* (comp_no, data) := grk_read room data in
    let* (roi_sty, data) := grk_read 1 data in
    if negb (roi_sty =? 0) then Err Refused
    else if numComps_ p <=? comp_no then Err Refused
    else
      let* (shift, data) := grk_read 1 data in
      let* t := get_at (Z.to_nat comp_no) (tccps_ p) in
      if 32 <=? shift then Err Refused
      else let* l := set_at (Z.to_nat comp_no) (with_roishift t shift) (tccps_ p) in Ok (with_tccps p l).

Definition read_progression (room : nat) (data : list Z) : read_result (grk_progression * list Z) :=
  let* (rs, data) := grk_read 1 data in
  let* (cs, data) := grk_read room data in
  let* (le, data) := grk_read 2 data in
  let* (re, data) := grk_read 1 data in
  let* (ce, data) := grk_read room data in
  let* (tmp, data) := grk_read 1 data in
  if GRK_NUM_PROGRESSION_ORDERS <=? tmp then Err Refused else Ok (MkProg rs cs le re ce tmp, data).
Fixpoint read_progressions (n : nat) (room : nat) (data : list Z) : read_result (list grk_progression) :=
  match n with
  | O => Ok []
  | S n =>
      let* (prog, data) := read_progression room data in
      let* l := read_progressions n room data in Ok (prog :: l)
  end.
Fixpoint store_progressions (i : nat) (new l : list grk_progression) : read_result (list grk_progression) :=
  match new with
  | [] => Ok l
  | x :: new => let* l := set_at i x l in store_progressions (S i) new l
  end.

(** [tilePartIndex] is -1 for the main header. *)
Definition readPoc (p : TileCodingParams) (data : list Z) (headerSize : Z) (tilePartIndex : Z) : read_result TileCodingParams :=
  let room := comp_room (numComps_ p) in
  let chunkSize := 5 + 2 * Z.of_nat room in
  let num := headerSize / chunkSize in
  if (num =? 0) || negb (headerSize mod chunkSize =? 0) then Err Refused
  else
    let* newPocs := read_progressions (Z.to_nat num) room data in
    let poc numpocs has l lists :=
      MkTcp (tcsty_ p) (prg_ p) (numLayers_ p) (layersToDecompress_ p) (mct_ p) numpocs has l lists
        (mainQcdQntsty p) (mainQcdNumStepSizes p) (cod_ p) (sawCoc_ p) (numComps_ p) (tccps_ p) in
    if tilePartIndex =? -1 then
      let oldNum := if hasPoc_ p then u32 (numpocs_ p + 1) else 0 in
      if Z.of_nat GRK_MAXRLVLS <? u32 (oldNum + num) then Err Refused
      else
        let* l := store_progressions (Z.to_nat oldNum) newPocs (progressionOrderChange_ p) in
        Ok (poc (u32 (u32 (oldNum + num) - 1)) true l (pocLists_ p))
    else
      let i := Z.to_nat tilePartIndex in
      let lists := if (length (pocLists_ p) <=? i)%nat then pocLists_ p ++ replicate (S i - length (pocLists_ p)) []
                   else pocLists_ p in
      let* lists := set_at (Z.to_nat (u8 tilePartIndex)) newPocs lists in
      Ok (poc (numpocs_ p) (hasPoc_ p) (progressionOrderChange_ p) lists).

(** ** Progression order changes once the header is read *)

Definition clamp_progression (numLayers maxRes numComps : Z) (x : grk_progression) : grk_progression :=
  MkProg (res_s x) (comp_s x) (Z.min (lay_e x) numLayers) (Z.min (res_e x) maxRes) (Z.min (comp_e x) numComps) (progression x).
Definition progression_ok (maxRes numComps : Z) (x : grk_progression) : bool :=
  negb ((maxRes <=? res_s x) || (res_e x <=? res_s x) || (numComps <=? comp_s x) || (comp_e x <=? comp_s x) || (lay_e x =? 0)).
Definition maxNumResLevels (p : TileCodingParams) : Z :=
  foldl (fun m t => Z.max m (numresolutions_ (style_ t))) 0 (tccps_ p).

(** The first loop of [finalizePocs], over the [n] changes from [i] on: whether all are
    valid, and the array. *)
Fixpoint finalize_main (numLayers maxRes numComps : Z) (n i : nat) (l : list grk_progression) : bool * list grk_progression :=
  match n with
  | O => (true, l)
  | S n =>
      match l !! i with
      | None => (false, l)
      | Some x =>
          let x := clamp_progression numLayers maxRes numComps x in
          let l := <[i := x]> l in
          if progression_ok maxRes numComps x then finalize_main numLayers maxRes numComps n (S i) l else (false, l)
      end
  end.
(** The second: the changes of the tile parts are appended. *)
Fixpoint finalize_tile (numLayers maxRes numComps : Z) (new : list grk_progression) (pos : nat) (l : list grk_progression)
    : bool * nat * list grk_progression :=
  match new with
  | [] => (true, pos, l)
  | x :: new =>
      let x := clamp_progression numLayers maxRes numComps x in
      if negb (progression_ok maxRes numComps x) then (false, pos, l)
      else if (GRK_MAXRLVLS <=? pos)%nat then (false, pos, l)
      else finalize_tile numLayers maxRes numComps new (S pos) (<[pos := x]> l)
  end.
Definition hasPoc (p : TileCodingParams) : bool := hasPoc_ p || (0 <? numpocs_ p).
(** The lists with their first [k] changes replaced. *)
Fixpoint change_first (f : grk_progression -> grk_progression) (k : nat) (lists : list (list grk_progression))
    : list (list grk_progression) :=
  match lists with [] => [] | l :: lists => ((f <$> take k l) ++ drop k l) :: change_first f (k - length l) lists end.

Definition finalizePocs (signalledNumTileParts : Z) (p : TileCodingParams) : TileCodingParams :=
  let maxRes := maxNumResLevels p in
  let poc numpocs l lists :=
    MkTcp (tcsty_ p) (prg_ p) (numLayers_ p) (layersToDecompress_ p) (mct_ p) numpocs (hasPoc_ p) l lists
      (mainQcdQntsty p) (mainQcdNumStepSizes p) (cod_ p) (sawCoc_ p) (numComps_ p) (tccps_ p) in
  let (ok, l) := if hasPoc p
    then finalize_main (numLayers_ p) maxRes (numComps_ p) (Z.to_nat (numpocs_ p + 1)) 0 (progressionOrderChange_ p)
    else (true, progressionOrderChange_ p) in
  if negb ok then poc (numpocs_ p) l (pocLists_ p)
  else
    let start := Z.to_nat (numpocs_ p + 1) in
    let '(ok, pos, l) := finalize_tile (numLayers_ p) maxRes (numComps_ p)
      (concat (take (Z.to_nat signalledNumTileParts) (pocLists_ p))) start l in
    if negb ok
    then poc (numpocs_ p) l (change_first (clamp_progression (numLayers_ p) maxRes (numComps_ p)) (pos - start + 1) (pocLists_ p))
    else poc (u32 (Z.of_nat pos - 1)) l [].

(** ** Image and codestream parameters *)

Definition GRK_NUM_COMMENTS_SUPPORTED : nat := 256.
Definition GRK_MAX_COMMENT_LENGTH : Z := UINT16_MAX - 2.
Definition GRK_MAX_SUPPORTED_IMAGE_PRECISION : Z := 16.
Definition maxNumComponentsJ2K : Z := 16384.
Definition maxNumTilesJ2K : Z := 65535.
Definition GRK_PROFILE_CINEMA_LTS : Z := 0x0007.
Definition GRK_PROFILE_BC_SINGLE : Z := 0x0100.
Definition GRK_PROFILE_BC_MULTI_R : Z := 0x0300.
Definition GRK_PROFILE_IMF_2K : Z := 0x0400.
Definition GRK_PROFILE_IMF_8K_R : Z := 0x0900.
Definition GRK_PROFILE_MASK : Z := 0x0FFF.
Definition GRK_PROFILE_PART2 : Z := 0x8000.
Definition GRK_EXTENSION_MCT : Z := 0x0100.
Definition GRK_IS_BROADCAST (v : Z) : bool :=
  (GRK_PROFILE_BC_SINGLE <=? v) && (v <=? Z.lor GRK_PROFILE_BC_MULTI_R 0x000b) && (Z.land v 0xf <=? 0xb).
Definition GRK_IS_IMF (v : Z) : bool :=
  (GRK_PROFILE_IMF_2K <=? v) && (v <=? Z.lor GRK_PROFILE_IMF_8K_R 0x009b) && (Z.land v 0xf <=? 0xb) &&
  (Z.land v 0xf0 <=? 0x90).

Record image_comp := MkComp {
  prec : Z; sgnd : bool; dx : Z; dy : Z;
  cx0 : Z; cy0 : Z; w : Z; h : Z;
  crg_x : Z; crg_y : Z;
}.
(** The header image: its bounds and components; [numcomps] is 0 before SIZ is read. *)
Record GrkImage := MkImage { bounds : Rect; numcomps : Z; comps : list image_comp }.
Definition new_image : GrkImage := MkImage (Rect4 0 0 0 0) 0 [].

Record CodingParams := MkCp {
  rsiz_ : Z;
  pcap_ : Z;
  ccap_ : list Z;
  grid_ : TileGrid;
  t_grid_width_ : Z;
  t_grid_height_ : Z;
  comments_ : list (bool * list Z);   (** [isBinaryComment_] and [comment_], [numComments_] of them *)
}.
Definition new_cp : CodingParams := MkCp 0 0 (replicate 32 0) (mkTileGrid 0 0 0 0) 0 0 [].

Definition readCom (cp : CodingParams) (data : list Z) (headerSize : Z) : read_result CodingParams :=
  if headerSize <? 2 then Err Refused
  else if headerSize =? 2 then Ok cp
  else if (length (comments_ cp) =? GRK_NUM_COMMENTS_SUPPORTED)%nat then Ok cp
  else
    let* (commentType, data) := grk_read 2 data in
    let commentSize := Z.to_nat (u16 (headerSize - 2)) in
    if (length data <? commentSize)%nat then Err OutOfBounds
    else Ok (MkCp (rsiz_ cp) (pcap_ cp) (ccap_ cp) (grid_ cp) (t_grid_width_ cp) (t_grid_height_ cp)
               (comments_ cp ++ [(commentType =? 0, take commentSize data)])).

(** The sanity check on Rsiz. *)
Definition rsiz_ok (rsiz : Z) : bool :=
  if negb (Z.land rsiz GRK_PROFILE_PART2 =? 0) then true
  else
    let profile := Z.land rsiz GRK_PROFILE_MASK in
    negb ((GRK_PROFILE_CINEMA_LTS <? profile) && negb (GRK_IS_BROADCAST profile) && negb (GRK_IS_IMF profile)).

Definition grk_buffer_alignment_bytes : Z := 64.
Definition grk_max_align_elements : Z := grk_buffer_alignment_bytes / 2.
Definition grk_aligned_width_fits (width : Z) : bool := u64 (u64 (width + grk_max_align_elements) - 1) <=? UINT32_MAX.

(** The component parameters of SIZ. *)
Definition read_component (data : list Z) : read_result (image_comp * list Z) :=
  let* (ssiz, data) := grk_read 1 data in
  let* (dx, data) := grk_read 1 data in
  let* (dy, data) := grk_read 1 data in
  let prec := u8 (Z.land ssiz 0x7f + 1) in
  if (dx =? 0) || (dy =? 0) then Err Refused
  else if GRK_MAX_SUPPORTED_IMAGE_PRECISION <? prec then Err Refused
  else Ok (MkComp prec (negb (Z.shiftr ssiz 7 =? 0)) dx dy 0 0 0 0 0 0, data).
Fixpoint read_components (n : nat) (data : list Z) : read_result (list image_comp) :=
  match n with
  | O => Ok []
  | S n => let* (c, data) := read_component data in let* l := read_components n data in Ok (c :: l)
  end.

(** One component of [GrkImage::subsampleAndReduce]: the origin the check of the height looks
    at is the component's, which is not yet set. *)
Definition reduce_component (b : Rect) (reduce : Z) (c : image_comp) : read_result image_comp :=
  let rx0 := ceildivpow2 32 (ceildiv (x0 b) (dx c)) reduce in
  let ry0 := ceildivpow2 32 (ceildiv (y0 b) (dy c)) reduce in
  let rx1 := ceildivpow2 32 (ceildiv (x1 b) (dx c)) reduce in
  let ry1 := ceildivpow2 32 (ceildiv (y1 b) (dy c)) reduce in
  if rx1 <=? rx0 then Err Refused
  else if ry1 <=? cy0 c then Err Refused
  else Ok (MkComp (prec c) (sgnd c) (dx c) (dy c) rx0 ry0 (u32 (rx1 - rx0)) (u32 (ry1 - ry0)) (crg_x c) (crg_y c)).
Fixpoint subsampleAndReduce (b : Rect) (reduce : Z) (l : list image_comp) : read_result (list image_comp) :=
  match l with
  | [] => Ok []
  | c :: l => let* c := reduce_component b reduce c in let* l := subsampleAndReduce b reduce l in Ok (c :: l)
  end.

(** [TileCodingParams::initDefault] and [setNumComponents]. *)
Definition default_tccp (c : image_comp) : TileComponentCodingParams :=
  MkTccp new_style new_quant 0 (if sgnd c then 0 else i32 (Z.shiftl 1 (prec c - 1))).
Definition initDefault (p : TileCodingParams) (numComps : Z) (l : list image_comp) : TileCodingParams :=
  MkTcp (tcsty_ p) (prg_ p) (numLayers_ p) (layersToDecompress_ p) (mct_ p) (numpocs_ p) (hasPoc_ p)
    (progressionOrderChange_ p) (pocLists_ p) (mainQcdQntsty p) (mainQcdNumStepSizes p) (cod_ p) (sawCoc_ p) numComps
    (default_tccp <$> l).

(** The checks on the image and tile geometry. *)
Definition geometry_ok (b : Rect) (g : TileGrid) : bool :=
  negb ((x1 b <=? x0 b) || (y1 b <=? y0 b)) && negb ((t_width_ g =? 0) || (t_height_ g =? 0)) &&
  grk_aligned_width_fits (t_width_ g) && negb ((x0 b <? tx0_ g) || (y0 b <? ty0_ g)) &&
  negb ((satAdd 32 (tx0_ g) (t_width_ g) <=? x0 b) || (satAdd 32 (ty0_ g) (t_height_ g) <=? y0 b)).
Definition grid_size (b : Rect) (g : TileGrid) : Z * Z :=
  (ceildiv (u32 (x1 b - tx0_ g)) (t_width_ g), ceildiv (u32 (y1 b - ty0_ g)) (t_height_ g)).
Definition grid_ok (gw gh : Z) : bool := negb ((gw =? 0) || (gh =? 0)) && (u64 (gw * gh) <=? maxNumTilesJ2K).

(** [SIZMarker::read]. *)
Definition SIZ_read (dec : DecodingParams) (im : GrkImage) (cp : CodingParams) (p : TileCodingParams) (data : list Z)
    (headerSize : Z) : read_result (GrkImage * CodingParams * TileCodingParams) :=
  if 0 <? numcomps im then Err Refused
  else if headerSize <? 36 then Err Refused
  else
    let remaining_size := u32 (headerSize - 36) in
    let numComps := u16 (remaining_size / 3) in
    if negb (remaining_size mod 3 =? 0) then Err Refused
    else
      let* (rsiz, data) := grk_read 2 data in
      if negb (rsiz_ok rsiz) then Err Refused
      else
        let* (ix1, data) := grk_read 4 data in
        let* (iy1, data) := grk_read 4 data in
        let* (ix0, data) := grk_read 4 data in
        let* (iy0, data) := grk_read 4 data in
        let* (tw, data) := grk_read 4 data in
        let* (th, data) := grk_read 4 data in
        let* (tx, data) := grk_read 4 data in
        let* (ty, data) := grk_read 4 data in
        let* (csiz, data) := grk_read 2 data in
        let b := Rect4 ix0 iy0 ix1 iy1 in
        let g := mkTileGrid tx ty tw th in
        if csiz =? 0 then Err Refused
        else if maxNumComponentsJ2K <? csiz then Err Refused
        else if negb (csiz =? numComps) then Err Refused
        else if negb (geometry_ok b g) then Err Refused
        else
          let* l := read_components (Z.to_nat csiz) data in
          let (gw, gh) := grid_size b g in
          if negb (grid_ok gw gh) then Err Refused
          else
            let* reduced := subsampleAndReduce b (reduce_ dec) l in
            Ok (MkImage b csiz reduced,
                MkCp rsiz (pcap_ cp) (ccap_ cp) g (u16 gw) (u16 gh) (comments_ cp), initDefault p csiz l).

(** ** Writing the parameters *)

Definition SOC : Z := 0xff4f.
Definition SOT : Z := 0xff90.
Definition CAP : Z := 0xff50.
Definition SIZ : Z := 0xff51.
Definition COD : Z := 0xff52.
Definition COC : Z := 0xff53.
Definition RGN : Z := 0xff5e.
Definition QCD : Z := 0xff5c.
Definition QCC : Z := 0xff5d.
Definition POC : Z := 0xff5f.
Definition TLM : Z := 0xff55.
Definition PLM : Z := 0xff57.
Definition PPM : Z := 0xff60.
Definition CRG : Z := 0xff63.
Definition COM : Z := 0xff64.
Definition CBD : Z := 0xff78.
Definition MCC : Z := 0xff75.
Definition MCT : Z := 0xff74.
Definition MCO : Z := 0xff77.
Definition PRF : Z := 0xff56.
Definition DFS : Z := 0xff72.
Definition ATK : Z := 0xff79.

Section write.
Context {K : Type} `{ByteStream K}.

(** [IStream::write] of an unsigned type of [n] bytes. *)
Definition write_n (n : nat) (v : Z) : bstep K := stream_write (be_bytes n v).
Abbreviation write8u := (write_n 1).
Abbreviation write16u := (write_n 2).
Abbreviation write32u := (write_n 4).

(** The loops that write one item after the other. *)
Fixpoint write_each {A} (f : A -> bstep K) (l : list A) : bstep K :=
  match l with [] => bret | x :: l => f x ;;; write_each f l end.

Definition get_SPCod_SPCoc_size (t : TileComponentCodingParams) : Z :=
  let s := style_ t in
  u32 (SPCodSPCocLen + (if negb (Z.land (csty_ s) CCP_CSTY_PRECINCT =? 0) then numresolutions_ s else 0)).

Definition write_SPCod_SPCoc (t : TileComponentCodingParams) : bstep K :=
  let s := style_ t in
  write8u (u8 (numresolutions_ s - 1)) ;;;
  write8u (u8 (cblkw_expn_ s - 2)) ;;;
  write8u (u8 (cblkh_expn_ s - 2)) ;;;
  write8u (cblkStyle_ s) ;;;
  write8u (qmfbid_ s) ;;;
  (if negb (Z.land (csty_ s) CCP_CSTY_PRECINCT =? 0)
   then write_each (fun i => write8u (u8 (nthZ 0 (precWidthExp_ s) i + Z.shiftl (nthZ 0 (precHeightExp_ s) i) 4)))
          (seqZ 0 (numresolutions_ s))
   else bret).

(** [precWidthExp_] and [precHeightExp_] of the resolutions in use. *)
Definition compare_SPCod_SPCoc (t0 t1 : TileComponentCodingParams) : bool :=
  let s0 := style_ t0 in let s1 := style_ t1 in
  (numresolutions_ s0 =? numresolutions_ s1) && (cblkw_expn_ s0 =? cblkw_expn_ s1) && (cblkh_expn_ s0 =? cblkh_expn_ s1) &&
  (cblkStyle_ s0 =? cblkStyle_ s1) && (qmfbid_ s0 =? qmfbid_ s1) &&
  (Z.land (csty_ s0) CCP_CSTY_PRECINCT =? Z.land (csty_ s1) CCP_CSTY_PRECINCT) &&
  forallb (fun i => (nthZ 0 (precWidthExp_ s0) i =? nthZ 0 (precWidthExp_ s1) i) &&
                    (nthZ 0 (precHeightExp_ s0) i =? nthZ 0 (precHeightExp_ s1) i)) (seqZ 0 (numresolutions_ s0)).
Definition compare_coc (t0 t1 : TileComponentCodingParams) : bool :=
  (csty_ (style_ t0) =? csty_ (style_ t1)) && compare_SPCod_SPCoc t0 t1.

Definition first_tccp (p : TileCodingParams) : TileComponentCodingParams := nthZ new_tccp (tccps_ p) 0.

Definition write_cod (p : TileCodingParams) : bstep K :=
  let code_size := u32 (9 + get_SPCod_SPCoc_size (first_tccp p)) in
  write16u COD ;;; write16u (u16 (code_size - 2)) ;;; write8u (tcsty_ p) ;;; write8u (u8 (prg_ p)) ;;;
  write16u (numLayers_ p) ;;; write8u (mct_ p) ;;; write_SPCod_SPCoc (first_tccp p).

(** The component number of COC, QCC, RGN and POC. *)
Definition write_comp_no (numcomps comp_no : Z) : bstep K :=
  if numcomps <=? 256 then write8u (u8 comp_no) else write16u comp_no.

(** The style that is written is that of component 0, whatever [comp_no] is. *)
Definition write_coc (numcomps : Z) (p : TileCodingParams) (comp_no : Z) : bstep K :=
  let t := nthZ new_tccp (tccps_ p) comp_no in
  let coc_size := u32 (codSocLen + Z.of_nat (comp_room numcomps) + get_SPCod_SPCoc_size t) in
  write16u COC ;;; write16u (u16 (coc_size - 2)) ;;; write_comp_no numcomps comp_no ;;;
  write8u (u8 (csty_ (style_ t))) ;;; write_SPCod_SPCoc (first_tccp p).
Definition write_all_coc (numcomps : Z) (p : TileCodingParams) : bstep K :=
  write_each (fun c => if compare_coc (first_tccp p) (nthZ new_tccp (tccps_ p) c) then bret else write_coc numcomps p c)
    (seqZ 1 (numcomps - 1)).

Definition num_bands (q : quantization) (numres : Z) : Z :=
  if qntsty_ q =? CCP_QNTSTY_SIQNT then 1 else u32 (numres * 3 - 2).
Definition get_SQcd_SQcc_size (t : TileComponentCodingParams) : Z :=
  let q := quant_ t in
  let n := num_bands q (numresolutions_ (style_ t)) in
  if qntsty_ q =? CCP_QNTSTY_NOQNT then u32 (1 + n) else u32 (1 + 2 * n).
Definition write_SQcd_SQcc (t : TileComponentCodingParams) : bstep K :=
  let q := quant_ t in
  write8u (u8 (qntsty_ q + Z.shiftl (numgbits_ q) 5)) ;;;
  write_each (fun i =>
    let s := nthZ (MkStep 0 0) (stepsizes_ q) i in
    if qntsty_ q =? CCP_QNTSTY_NOQNT then write8u (u8 (Z.shiftl (expn s) 3))
    else write16u (u16 (u32 (Z.shiftl (expn s) 11) + mant s)))
    (seqZ 0 (u8 (num_bands q (numresolutions_ (style_ t))))).
Definition compare_SQcd_SQcc (t0 t1 : TileComponentCodingParams) : bool :=
  let q0 := quant_ t0 in let q1 := quant_ t1 in
  let n0 := num_bands q0 (numresolutions_ (style_ t0)) in
  let step q i := nthZ (MkStep 0 0) (stepsizes_ q) i in
  (qntsty_ q0 =? qntsty_ q1) && (numgbits_ q0 =? numgbits_ q1) &&
  (if qntsty_ q0 =? CCP_QNTSTY_SIQNT then true else n0 =? u32 (numresolutions_ (style_ t1) * 3 - 2)) &&
  forallb (fun i => expn (step q0 i) =? expn (step q1 i)) (seqZ 0 n0) &&
  (if qntsty_ q0 =? CCP_QNTSTY_NOQNT then true else forallb (fun i => mant (step q0 i) =? mant (step q1 i)) (seqZ 0 n0)).

Definition write_qcd (p : TileCodingParams) : bstep K :=
  let qcd_size := u32 (4 + get_SQcd_SQcc_size (first_tccp p)) in
  write16u QCD ;;; write16u (u16 (qcd_size - 2)) ;;; write_SQcd_SQcc (first_tccp p).
Definition write_qcc (numcomps : Z) (p : TileCodingParams) (comp_no : Z) : bstep K :=
  let t := nthZ new_tccp (tccps_ p) comp_no in
  let qcc_size := u32 (6 + get_SQcd_SQcc_size t) in
  let qcc_size := if numcomps <=? 256 then qcc_size - 1 else qcc_size in
  write16u QCC ;;; write16u (u16 (qcc_size - 2)) ;;; write_comp_no numcomps comp_no ;;; write_SQcd_SQcc t.
Definition write_all_qcc (numcomps : Z) (p : TileCodingParams) : bstep K :=
  write_each (fun c => if compare_SQcd_SQcc (first_tccp p) (nthZ new_tccp (tccps_ p) c) then bret else write_qcc numcomps p c)
    (seqZ 1 (numcomps - 1)).

Definition write_rgn (numcomps : Z) (t : TileComponentCodingParams) (comp_no : Z) : bstep K :=
  let rgn_size := 6 + Z.of_nat (comp_room numcomps) in
  write16u RGN ;;; write16u (u16 (rgn_size - 2)) ;;; write_comp_no numcomps comp_no ;;; write8u 0 ;;; write8u (u8 (roishift_ t)).
Definition write_regions (numcomps : Z) (p : TileCodingParams) : bstep K :=
  write_each (fun c => let t := nthZ new_tccp (tccps_ p) c in
    if roishift_ t =? 0 then bret else write_rgn numcomps t c) (seqZ 0 numcomps).

Definition getNumProgressions (p : TileCodingParams) : Z := u32 (numpocs_ p + 1).
Definition getPocSize (numComps numPocs : Z) : Z := u16 (4 + (5 + 2 * Z.of_nat (comp_room numComps)) * numPocs).
Definition write_progression (numComps : Z) (x : grk_progression) : bstep K :=
  write8u (res_s x) ;;; write_comp_no numComps (comp_s x) ;;; write16u (lay_e x) ;;; write8u (res_e x) ;;;
  write_comp_no numComps (comp_e x) ;;; write8u (u8 (progression x)).
Definition writePoc (numComps : Z) (p : TileCodingParams) : bstep K :=
  write16u POC ;;; write16u (u16 (getPocSize numComps (getNumProgressions p) - 2)) ;;;
  write_each (fun i => write_progression numComps (nthZ new_prog (progressionOrderChange_ p) i)) (seqZ 0 (getNumProgressions p)).
(** What [writePoc] leaves behind: the changes are cut to the layers, resolutions and
    components there are. *)
Definition poc_written (numComps : Z) (p : TileCodingParams) : TileCodingParams :=
  MkTcp (tcsty_ p) (prg_ p) (numLayers_ p) (layersToDecompress_ p) (mct_ p) (numpocs_ p) (hasPoc_ p)
    (imap (fun i x => if Z.of_nat i <? getNumProgressions p
       then clamp_progression (numLayers_ p) (numresolutions_ (style_ (first_tccp p))) numComps x else x)
       (progressionOrderChange_ p))
    (pocLists_ p) (mainQcdQntsty p) (mainQcdNumStepSizes p) (cod_ p) (sawCoc_ p) (numComps_ p) (tccps_ p).

Definition write_com (cp : CodingParams) : bstep K :=
  write_each (fun c : bool * list Z =>
    let comment_size := Z.of_nat (length (snd c)) in
    if comment_size =? 0 then bret
    else if GRK_MAX_COMMENT_LENGTH <? comment_size then bret
    else write16u COM ;;; write16u (u16 (u32 (comment_size + 6) - 2)) ;;; write16u (if fst c then 0 else 1) ;;;
         stream_write (snd c)) (comments_ cp).

(** [SIZMarker::write]. *)
Definition write_component (c : image_comp) : bstep K :=
  let bpc := u8 (prec c - 1) in
  let bpc := if sgnd c then u8 (bpc + Z.shiftl 1 7) else bpc in
  write8u bpc ;;; write8u (dx c) ;;; write8u (dy c).
Definition SIZ_write (im : GrkImage) (cp : CodingParams) : bstep K :=
  let b := bounds im in let g := grid_ cp in
  write16u SIZ ;;; write16u (u16 (u32 (40 + 3 * numcomps im) - 2)) ;;; write16u (rsiz_ cp) ;;;
  write32u (x1 b) ;;; write32u (y1 b) ;;; write32u (x0 b) ;;; write32u (y0 b) ;;;
  write32u (t_width_ g) ;;; write32u (t_height_ g) ;;; write32u (tx0_ g) ;;; write32u (ty0_ g) ;;;
  write16u (numcomps im) ;;; write_each write_component (comps im).

(** The header procedures of [init_header_writing], for a codestream of Part 1 without HT
    blocks and TLM. *)
Definition write_main_header (im : GrkImage) (cp : CodingParams) (p : TileCodingParams) : bstep K :=
  let n := numcomps im in
  write16u SOC ;;; SIZ_write im cp ;;; write_cod p ;;; write_qcd p ;;; write_all_coc n p ;;; write_all_qcc n p ;;;
  (if hasPoc p then writePoc n p else bret) ;;; write_regions n p ;;; write_com cp.
End write.
