(* ===== verification/MainHeader.v ===== *)
(** The main header: the marker loop of codestream/markers/MarkerParser.cpp and of
    [readHeaderProcedure] in codestream/decompress/CodeStreamDecompress_ReadMarkers.cpp.

    A codestream is the list of its bytes.  The markers are dispatched to the readers of
    Markers.v; those of TLM, PLM, PPM, of Part 2 (DFS, ATK) and of custom component transforms
    (MCT, MCC, MCO) are a table over a state of their own, which OtherMarkers.v provides. *)
From S2P Require Import Prelude Geometry PLMarker Markers.

(** A marker in the codestream index: its id, position and length. *)
Record Marker := MkMarker { id_ : Z; pos_ : Z; len_ : Z }.

Section header.
Context {X : Type}.

Record header := MkHeader {
  headerImage_ : GrkImage;
  has_multiple_tiles : bool;
  cp_ : CodingParams;
  defaultTcp_ : TileCodingParams;
  isHT_ : bool;
  tilesToDecompress_ : Rect;
  mainHeaderStart_ : Z;
  tileStreamStart_ : Z;
  markers_ : list Marker;
  rest_ : X;
}.
Definition new_header (x : X) : header :=
  MkHeader new_image false new_cp new_tcp false (Rect4 0 0 0 0) 0 0 [] x.

Definition handler : Type := header -> list Z -> Z -> read_result header.

Definition with_image (h : header) (im : GrkImage) : header :=
  MkHeader im (has_multiple_tiles h) (cp_ h) (defaultTcp_ h) (isHT_ h) (tilesToDecompress_ h) (mainHeaderStart_ h)
    (tileStreamStart_ h) (markers_ h) (rest_ h).
Definition with_cp (h : header) (cp : CodingParams) : header :=
  MkHeader (headerImage_ h) (has_multiple_tiles h) cp (defaultTcp_ h) (isHT_ h) (tilesToDecompress_ h) (mainHeaderStart_ h)
    (tileStreamStart_ h) (markers_ h) (rest_ h).
Definition with_tcp (h : header) (p : TileCodingParams) : header :=
  MkHeader (headerImage_ h) (has_multiple_tiles h) (cp_ h) p (isHT_ h) (tilesToDecompress_ h) (mainHeaderStart_ h)
    (tileStreamStart_ h) (markers_ h) (rest_ h).

(** [MarkerCache::add]. *)
Definition add_marker (id pos len : Z) (h : header) : header :=
  MkHeader (headerImage_ h) (has_multiple_tiles h) (cp_ h) (defaultTcp_ h) (isHT_ h) (tilesToDecompress_ h)
    (if id =? SOC then pos else mainHeaderStart_ h) (tileStreamStart_ h) (markers_ h ++ [MkMarker id pos len]) (rest_ h).

(** ** Handlers *)

(** What [TileCodingParams::initDefault], which SIZ calls, does to the state of the other readers. *)
Context (init_rest : X -> X).

Definition readSIZ (dec : DecodingParams) : handler := fun h data size =>
  let* (im, cp, p) := SIZ_read dec (headerImage_ h) (cp_ h) (defaultTcp_ h) data size in
  let num := u16 (t_grid_height_ cp * t_grid_width_ cp) in
  Ok (MkHeader im (1 <? num) cp p (isHT_ h) (Rect4 0 0 (t_grid_width_ cp) (t_grid_height_ cp)) (mainHeaderStart_ h)
        (tileStreamStart_ h) (markers_ h) (init_rest (rest_ h))).

(** [grk_population_count] of a 32-bit word. *)
Definition grk_population_count (v : Z) : Z := foldl (fun n i => n + Z.b2z (Z.testbit v i)) 0 (seqZ 0 32).
Definition pcapHTFlag : Z := 0x00020000.
Fixpoint read_ccap (n i : nat) (data : list Z) (l : list Z) : read_result (list Z) :=
  match n with
  | O => Ok l
  | S n => let* (v, data) := grk_read 2 data in let* l := set_at i v l in read_ccap n (S i) data l
  end.
Definition readCAP : handler := fun h data size =>
  if size <? 4 then Err Refused
  else
    let* (pcap, data) := grk_read 4 data in
    let count := grk_population_count pcap in
    if negb (size =? u32 (4 + 2 * count)) then Err Refused
    else
      let cp := cp_ h in
      let* ccap := read_ccap (Z.to_nat count) 0 data (ccap_ cp) in
      Ok (MkHeader (headerImage_ h) (has_multiple_tiles h)
            (MkCp (rsiz_ cp) pcap ccap (grid_ cp) (t_grid_width_ cp) (t_grid_height_ cp) (comments_ cp)) (defaultTcp_ h)
            (isHT_ h || negb (Z.land pcap pcapHTFlag =? 0)) (tilesToDecompress_ h) (mainHeaderStart_ h)
            (tileStreamStart_ h) (markers_ h) (rest_ h)).

Fixpoint read_crg (data : list Z) (l : list image_comp) : read_result (list image_comp) :=
  match l with
  | [] => Ok []
  | c :: l =>
      let* (x, data) := grk_read 2 data in
      let* (y, data) := grk_read 2 data in
      let* l := read_crg data l in
      Ok (MkComp (prec c) (sgnd c) (dx c) (dy c) (cx0 c) (cy0 c) (w c) (h c) x y :: l)
  end.
Definition readCRG : handler := fun h data size =>
  let im := headerImage_ h in
  if negb (size =? numcomps im * 4) then Err Refused
  else let* l := read_crg data (comps im) in Ok (with_image h (MkImage (bounds im) (numcomps im) l)).

Fixpoint read_cbd (data : list Z) (l : list image_comp) : read_result (list image_comp) :=
  match l with
  | [] => Ok []
  | c :: l =>
      let* (depth, data) := grk_read 1 data in
      let p := u8 (Z.land depth 0x7f + 1) in
      if GRK_MAX_SUPPORTED_IMAGE_PRECISION <? p then Err Refused
      else
        let* l := read_cbd data l in
        Ok (MkComp p (negb (Z.shiftr depth 7 =? 0)) (dx c) (dy c) (cx0 c) (cy0 c) (w c) (h c) (crg_x c) (crg_y c) :: l)
  end.
Definition readCBD : handler := fun h data size =>
  let im := headerImage_ h in
  if (size <? 2) || negb (size - 2 =? numcomps im) then Err Refused
  else
    let* (n, data) := grk_read 2 data in
    if negb (n =? numcomps im) then Err Refused
    else let* l := read_cbd data (comps im) in Ok (with_image h (MkImage (bounds im) (numcomps im) l)).

(** Handlers of the default tile parameters and of the codestream parameters. *)
Definition on_tcp (f : TileCodingParams -> list Z -> Z -> read_result TileCodingParams) : handler := fun h data size =>
  let* p := f (defaultTcp_ h) data size in Ok (with_tcp h p).
Definition on_cp (f : CodingParams -> list Z -> Z -> read_result CodingParams) : handler := fun h data size =>
  let* cp := f (cp_ h) data size in Ok (with_cp h cp).

(** Ids with a reader in OtherMarkers.v, and SOT, which ends the header before it is dispatched. *)
Definition other_ids : list Z := [DFS; ATK; TLM; PLM; PPM; MCT; MCC; MCO; SOT].

Context (others : Z -> handler).

(** [MarkerParser::currentProcessor], for the table built by [CodeStreamDecompress]. *)
Definition processor (dec : DecodingParams) (id : Z) : option handler :=
  if id =? SIZ then Some (readSIZ dec)
  else if id =? CAP then Some readCAP
  else if id =? PRF then Some (fun h _ _ => Ok h)
  else if id =? CRG then Some readCRG
  else if id =? CBD then Some readCBD
  else if id =? COD then Some (on_tcp (readCod dec))
  else if id =? COC then Some (on_tcp (readCoc dec))
  else if id =? RGN then Some (on_tcp readRgn)
  else if id =? QCD then Some (on_tcp (readQcd false))
  else if id =? QCC then Some (on_tcp (readQcc false))
  else if id =? POC then Some (on_tcp (fun p data size => readPoc p data size (-1)))
  else if id =? COM then Some (on_cp readCom)
  else if bool_decide (id ∈ other_ids) then Some (others id)
  else None.

(** ** The marker loop *)

(** The input stream: the position and the bytes that are left. *)
Definition input : Type := Z * list Z.
Definition readShort (s : input) : option (Z * input) :=
  match s with
  | (pos, a :: b :: data) => Some (256 * a + b, (pos + 2, data))
  | _ => None
  end.
(** [readId]; an id below 0xff00 is an exception. *)
Definition id_valid (id : Z) : bool := 0xff00 <=? id.

(** [readUNK]: the next known marker, its place and the index. *)
Fixpoint readUNK (dec : DecodingParams) (unknownId size_unk : Z) (pos : Z) (data : list Z) (h : header)
    : option (Z * input * header) :=
  match data with
  | a :: b :: data =>
      let id := 256 * a + b in
      let pos := pos + 2 in
      if negb (id_valid id) then readUNK dec unknownId (u16 (size_unk + 2)) pos data h
      else
        let h := add_marker unknownId (u64 (pos - 2 - size_unk)) size_unk h in
        match processor dec id with
        | Some _ => Some (id, (pos, data), h)
        | None => readUNK dec id 2 pos data h
        end
  | _ => None
  end.

(** The loop stops, or the reader of the marker [id] fails. *)
Inductive header_error := Stopped | Failed (id : Z) (e : marker_error) | OutOfFuel.

(** [MarkerScratch::process]: the body is read if the stream has it. *)
Definition scratch_process (id : Z) (f : handler) (h : header) (size : Z) (s : input) : result header_error (header * input) :=
  let (pos, data) := s in
  if (length data <? Z.to_nat size)%nat then Err Stopped
  else match f h (take (Z.to_nat size) data) size with
       | Ok h => Ok (h, (pos + size, drop (Z.to_nat size) data))
       | Err e => Err (Failed id e)
       end.

Record seen := MkSeen { has_siz : bool; has_cod : bool; has_qcd : bool }.
Definition see (id : Z) (f : seen) : seen :=
  MkSeen (has_siz f || (id =? SIZ)) (has_cod f || (id =? COD)) (has_qcd f || (id =? QCD)).

Fixpoint read_markers (fuel : nat) (dec : DecodingParams) (id : Z) (s : input) (f : seen) (h : header)
    : result header_error (header * seen * input) :=
  match fuel with
  | O => Err OutOfFuel
  | S fuel =>
      if id =? SOT then Ok (h, f, s)
      else
        match (match processor dec id with
               | Some _ => Some (id, s, h)
               | None => readUNK dec id 2 (fst s) (snd s) h
               end) with
        | None => Err Stopped
        | Some (id, s, h) =>
            if id =? SOT then Ok (h, f, s)
            else
              match processor dec id, readShort s with
              | Some p, Some (len, s) =>
                  if len =? 2 then Err Stopped
                  else
                    let body := u16 (len - 2) in
                    let* (h, s) := scratch_process id p h body s in
                    let seg := u16 (4 + body) in
                    let h := add_marker id (u64 (fst s - seg)) seg h in
                    match readShort s with
                    | None => Err Stopped
                    | Some (next, s) =>
                        if negb (id_valid next) then Err Stopped else read_markers fuel dec next s (see id f) h
                    end
              | _, _ => Err Stopped
              end
        end
  end.

(** [mergePpm] is [PPMMarker::merge]; [tlm_complete], given the start of the tile stream and
    the number of tiles, completes the TLM markers, or makes one when none was read. *)
Context (mergePpm : X -> read_result X) (tlm_complete : Z -> Z -> X -> read_result X).

Definition finish_header (h : header) (s : input) : result header_error header :=
  match mergePpm (rest_ h) with
  | Err e => Err (Failed PPM e)
  | Ok x =>
      let start := u64 (fst s - 2) in
      match tlm_complete start (u16 (t_grid_width_ (cp_ h) * t_grid_height_ (cp_ h))) x with
      | Err e => Err (Failed TLM e)
      | Ok x =>
          Ok (MkHeader (headerImage_ h) (has_multiple_tiles h) (cp_ h) (defaultTcp_ h) (isHT_ h) (tilesToDecompress_ h)
                (mainHeaderStart_ h) start (markers_ h) x)
      end
  end.

(** [readHeaderProcedure]: the header and the bytes after the first SOT. *)
Definition readHeaderProcedure (dec : DecodingParams) (s : input) (h : header) : result header_error (header * input) :=
  let fuel := S (length (snd s)) in
  match readShort s with
  | None => Err Stopped
  | Some (marker, s) =>
      if negb (marker =? SOC) then Err Stopped
      else
        let h := add_marker SOC (u64 (fst s - 2)) 2 h in
        match readShort s with
        | None => Err Stopped
        | Some (id, s) =>
            if negb (id =? SIZ) then Err Stopped
            else
              let* (h, f, s) := read_markers fuel dec id s (MkSeen false false false) h in
              if negb (has_siz f && has_cod f && has_qcd f) then Err Stopped
              else let* h := finish_header h s in Ok (h, s)
        end
  end.
End header.
Arguments header : clear implicits.
Arguments handler : clear implicits.
