(* ===== verification/OtherMarkers.v ===== *)
(** The other segments of the main header: DFS and ATK of Part 2, TLM, PLM, PPM, and MCT, MCC
    and MCO of custom component transforms: readDfs, readAtk, readMct, readMcc, readMco and
    addMct of codestream/CodingParams.cpp, codestream/markers/TLMMarker.cpp with
    TLMMarker.h, stream/TPFetchSeq.h and codestream/markers/PPMMarker.cpp.  They are the
    table that the marker loop of MainHeader.v leaves open. *)
From stdpp Require Import gmap.
From S2P Require Import Prelude Geometry PLMarker Markers MainHeader.

(** ** DFS *)

Definition dfsFixedLen : Z := 3.
Record DecompositionStyle := MkDfs { numLevels : Z; levels : list Z }.

(** The two bits of each level. *)
Fixpoint read_splits (n i : nat) (data : list Z) (l : list Z) : read_result (list Z) :=
  match n with
  | O => Ok l
  | S n =>
      let* b := get_at (Nat.div i 4) data in
      let* l := set_at i (Z.land (Z.shiftr b (6 - 2 * Z.of_nat (Nat.modulo i 4))) 3) l in
      read_splits n (S i) data l
  end.
Definition readDfs (styles : gmap Z DecompositionStyle) (data : list Z) (headerSize : Z) : read_result (gmap Z DecompositionStyle) :=
  if headerSize <? dfsFixedLen then Err Refused
  else
    let* (sdfs, data) := grk_read 2 data in
    let index := u8 (Z.land sdfs 0xff) in
    let* (num, data) := grk_read 1 data in
    if (index =? 0) || (GRK_MAX_DECOMP_LVLS <? num) then Err Refused
    else
      let codeBytes := u16 ((num + 3) / 4) in
      if negb (headerSize =? dfsFixedLen + codeBytes) then Err Refused
      else
        let* l := read_splits (Z.to_nat num) 0 data (replicate (Z.to_nat GRK_MAX_DECOMP_LVLS) 0) in
        Ok (<[index := MkDfs num l]> styles).

(** ** ATK *)

Definition atkFixedLen : Z := 3.
Definition firstAtkIndex : Z := 2.

(** A coefficient: an integer, or the bits of a floating-point number. *)
Inductive coefficient := Int (v : Z) | Single (bits : Z) | Double (bits : Z).
Record LiftingStep := MkLift { offset : Z; downshift : Z; rounding : Z; coefficients : list coefficient }.
Record TransformKernel := MkKernel {
  reversible : bool; symmetric : bool; symmetricExtension : bool; lastStepParity : Z;
  scale : coefficient;   (** 1.0 when reversible *)
  steps : list LiftingStep;
}.

(** [readSignedValue] and [readRealValue] return the value, the pointer and what remains. *)
Definition readSignedValue (data : list Z) (remaining : Z) (numBytes : nat) : read_result (Z * list Z * Z) :=
  if remaining <? Z.of_nat numBytes then Err Refused
  else
    let* (raw, data) := grk_read numBytes data in
    let signBit := Z.shiftl 1 (8 * Z.of_nat numBytes - 1) in
    let value := if negb (Z.land raw signBit =? 0) then i64 (i64 raw - i64 (u64 (Z.shiftl signBit 1))) else i64 raw in
    Ok (value, data, u16 (remaining - Z.of_nat numBytes)).
Definition readRealValue (data : list Z) (remaining : Z) (numBytes : nat) : read_result (coefficient * list Z * Z) :=
  if remaining <? Z.of_nat numBytes then Err Refused
  else if (numBytes =? 4)%nat then
    let* (bits, data) := grk_read 4 data in Ok (Single bits, data, u16 (remaining - Z.of_nat numBytes))
  else if (numBytes =? 8)%nat then
    let* (bits, data) := grk_read 8 data in Ok (Double bits, data, u16 (remaining - Z.of_nat numBytes))
  else
    let* (v, data, remaining) := readSignedValue data remaining numBytes in Ok (Int v, data, remaining).

Definition read_byte (data : list Z) (remaining : Z) : read_result (Z * list Z * Z) :=
  if remaining <? 1 then Err Refused
  else let* (v, data) := grk_read 1 data in Ok (v, data, u16 (remaining - 1)).

Definition read_coefficient (rev : bool) (bytes : nat) (data : list Z) (remaining : Z) : read_result (coefficient * list Z * Z) :=
  if rev then let* (v, data, remaining) := readSignedValue data remaining bytes in Ok (Int v, data, remaining)
  else readRealValue data remaining bytes.
Fixpoint read_coefficients (n : nat) (rev : bool) (bytes : nat) (data : list Z) (remaining : Z)
    : read_result (list coefficient * list Z * Z) :=
  match n with
  | O => Ok ([], data, remaining)
  | S n =>
      let* (c, data, remaining) := read_coefficient rev bytes data remaining in
      let* (l, data, remaining) := read_coefficients n rev bytes data remaining in
      Ok (c :: l, data, remaining)
  end.

(** The step [stepIndex] of the kernel. *)
Definition read_lifting_step (rev sym : bool) (parity : Z) (bytes : nat) (stepIndex : Z) (data : list Z) (remaining : Z)
    : read_result (LiftingStep * list Z * Z) :=
  let* (off, data, remaining) :=
    if negb sym then let* (v, data, remaining) := readSignedValue data remaining 1 in Ok (i8 v, data, remaining)
    else Ok (0, data, remaining) in
  let* (shift, round, data, remaining) :=
    if rev then
      let* (d, data, remaining) := read_byte data remaining in
      let* (v, data, remaining) := readSignedValue data remaining bytes in
      Ok (d, i16 v, data, remaining)
    else Ok (0, 0, data, remaining) in
  let* (signalled, data, remaining) := read_byte data remaining in
  let* (l, data, remaining) := read_coefficients (Z.to_nat signalled) rev bytes data remaining in
  if sym then
    let par := u8 (Z.land (parity + stepIndex) 1) in
    Ok (MkLift (i8 (- Z.shiftr (2 * signalled + par - 1) 1)) shift round (reverse l ++ l), data, remaining)
  else Ok (MkLift off shift round l, data, remaining).
Fixpoint read_lifting_steps (n : nat) (rev sym : bool) (parity : Z) (bytes : nat) (stepIndex : Z) (data : list Z) (remaining : Z)
    : read_result (list LiftingStep * list Z * Z) :=
  match n with
  | O => Ok ([], data, remaining)
  | S n =>
      let* (x, data, remaining) := read_lifting_step rev sym parity bytes stepIndex data remaining in
      let* (l, data, remaining) := read_lifting_steps n rev sym parity bytes (stepIndex + 1) data remaining in
      Ok (x :: l, data, remaining)
  end.

Definition double_one : coefficient := Double 0x3ff0000000000000.

Definition readAtk (kernels : gmap Z TransformKernel) (data : list Z) (headerSize : Z) : read_result (gmap Z TransformKernel) :=
  if headerSize <? atkFixedLen then Err Refused
  else
    let* (satk, data) := grk_read 2 data in
    let headerSize := u16 (headerSize - 2) in
    let index := u8 (Z.land satk 0xff) in
    let bytes := Z.to_nat (u8 (Z.shiftl 1 (Z.land (Z.shiftr satk 8) 3))) in
    let sym := Z.testbit satk 11 in
    let rev := Z.testbit satk 12 in
    let parity := u8 (1 - Z.b2z (Z.testbit satk 13)) in
    if index <? firstAtkIndex then Err Refused
    else if rev && (2 <? bytes)%nat then Err Refused
    else
      let* (sc, data, headerSize) :=
        if negb rev then readRealValue data headerSize bytes else Ok (double_one, data, headerSize) in
      let* (numSteps, data, headerSize) := read_byte data headerSize in
      let* (l, data, headerSize) := read_lifting_steps (Z.to_nat numSteps) rev sym parity bytes 0 data headerSize in
      if negb (headerSize =? 0) then Err Refused
      else Ok (<[index := MkKernel rev sym (Z.testbit satk 14) parity sc l]> kernels).

(** ** TLM *)

Definition tlm_marker_start_bytes : Z := 6.

(** The tile parts of a tile: offset and length of each. *)
Record TPSeq := MkTPSeq { parts : list (Z * Z); signalledNumTileParts_ : Z }.
Definition TPSeq_new : TPSeq := MkTPSeq [] 0.
Definition TPSeq_push_back (tilePart numTileParts off len : Z) (q : TPSeq) : bool * TPSeq :=
  if negb (signalledNumTileParts_ q =? 0) && negb (numTileParts =? signalledNumTileParts_ q) then (false, q)
  else
    let q := MkTPSeq (parts q) numTileParts in
    if negb (tilePart =? Z.of_nat (length (parts q))) then (false, q)
    else (true, MkTPSeq (parts q ++ [(off, len)]) numTileParts).
Definition TPSeq_complete (tileStreamOffset : Z) (q : TPSeq) : TPSeq :=
  MkTPSeq ((fun x => (u64 (fst x + tileStreamOffset), snd x)) <$> parts q) (u8 (Z.of_nat (length (parts q)))).

(** [TLMMarkerManager]: the entries in the order of the codestream. *)
Record TLMMarkerManager := MkManager { tilePartLengths_ : list (Z * Z); lastMarkerId_ : Z; manager_valid_ : bool }.
Definition manager_push_back (x : Z * Z) (m : TLMMarkerManager) : TLMMarkerManager :=
  if negb (manager_valid_ m) then m else MkManager (tilePartLengths_ m ++ [x]) (lastMarkerId_ m) true.
Definition validateMarkerId (id : Z) (m : TLMMarkerManager) : bool * TLMMarkerManager :=
  if negb (manager_valid_ m) then (false, m)
  else if id <=? lastMarkerId_ m then (false, MkManager (tilePartLengths_ m) (lastMarkerId_ m) false)
  else (true, MkManager (tilePartLengths_ m) id true).

Record TLMMarker := MkTLM {
  markerManager_ : TLMMarkerManager;
  tilePartsPerTile_ : list (option TPSeq);
  tlm_valid_ : bool;
  hasTileIndices_ : bool;
  tileCount_ : Z;
  numSignalledTiles_ : Z;
  tilePartStart_ : Z;
}.
Definition TLM_new (numSignalledTiles : Z) : TLMMarker :=
  MkTLM (MkManager [] (-1) true) (replicate (Z.to_nat numSignalledTiles) None) true false 0 numSignalledTiles 0.
Definition TLM_with_valid (v : bool) (m : TLMMarker) : TLMMarker :=
  MkTLM (markerManager_ m) (tilePartsPerTile_ m) v (hasTileIndices_ m) (tileCount_ m) (numSignalledTiles_ m) (tilePartStart_ m).

(** [TLMMarker::add] of the decompressor. *)
Definition TLM_add (tileIndex len : Z) (m : TLMMarker) : read_result TLMMarker :=
  let* o := get_at (Z.to_nat tileIndex) (tilePartsPerTile_ m) in
  let q := default TPSeq_new o in
  let q := snd (TPSeq_push_back (u8 (Z.of_nat (length (parts q)))) 0 (tilePartStart_ m) len q) in
  let* l := set_at (Z.to_nat tileIndex) (Some q) (tilePartsPerTile_ m) in
  Ok (MkTLM (manager_push_back (tileIndex, len) (markerManager_ m)) l (tlm_valid_ m) (hasTileIndices_ m) (tileCount_ m)
        (numSignalledTiles_ m) (u64 (tilePartStart_ m + len))).

(** One entry: its tile index, if there are any, and its length. *)
Definition TLM_entry (Ttlm Ptlm : Z) (m : TLMMarker) : read_result TLMMarker :=
  let m := if (Ptlm <? 14) && tlm_valid_ m then TLM_with_valid false m else m in
  let tileIndex := if hasTileIndices_ m then Ttlm else tileCount_ m in
  let m := if hasTileIndices_ m then m
           else MkTLM (markerManager_ m) (tilePartsPerTile_ m) (tlm_valid_ m) (hasTileIndices_ m) (u16 (tileCount_ m + 1))
                  (numSignalledTiles_ m) (tilePartStart_ m) in
  let m := if numSignalledTiles_ m <=? tileIndex then TLM_with_valid false m else m in
  if tlm_valid_ m then TLM_add tileIndex Ptlm m else Ok m.
Fixpoint TLM_entries (n : nat) (L_iT bytes : nat) (Ttlm : Z) (data : list Z) (m : TLMMarker) : read_result TLMMarker :=
  match n with
  | O => Ok m
  | S n =>
      let* (Ttlm, data) := if (0 <? L_iT)%nat then grk_read L_iT data else Ok (Ttlm, data) in
      let* (Ptlm, data) := grk_read bytes data in
      let* m := TLM_entry Ttlm Ptlm m in
      TLM_entries n L_iT bytes Ttlm data m
  end.

Definition TLM_read (m : TLMMarker) (data : list Z) (headerSize : Z) : read_result TLMMarker :=
  if headerSize <? tlm_marker_start_bytes then Err Refused
  else
    let* (i_TLM, data) := grk_read 1 data in
    let headerSize := u16 (headerSize - 1) in
    let (ok, mgr) := if tlm_valid_ m then validateMarkerId i_TLM (markerManager_ m) else (true, markerManager_ m) in
    let m := MkTLM mgr (tilePartsPerTile_ m) (tlm_valid_ m && ok) (hasTileIndices_ m) (tileCount_ m) (numSignalledTiles_ m)
               (tilePartStart_ m) in
    let* (L, data) := grk_read 1 data in
    let headerSize := u16 (headerSize - 1) in
    if negb (Z.land L (Z.lnot 0x70) =? 0) then Ok (TLM_with_valid false m)
    else
      let bytes := if negb (Z.land (Z.shiftr L 6) 1 =? 0) then 4%nat else 2%nat in
      let L_iT := Z.land (Z.shiftr L 4) 3 in
      if L_iT =? 3 then Ok (TLM_with_valid false m)
      else
        let m :=
          match tilePartLengths_ (markerManager_ m) with
          | [] => MkTLM (markerManager_ m) (tilePartsPerTile_ m) (tlm_valid_ m) (negb (L_iT =? 0)) (tileCount_ m)
                    (numSignalledTiles_ m) (tilePartStart_ m)
          | _ => if xorb (hasTileIndices_ m) (negb (L_iT =? 0)) then TLM_with_valid false m else m
          end in
        let quotient := Z.of_nat bytes + L_iT in
        if negb (headerSize mod quotient =? 0) then Err Refused
        else TLM_entries (Z.to_nat (headerSize / quotient)) (Z.to_nat L_iT) bytes 0 data m.

Definition TLM_readComplete (tileStreamStart : Z) (m : TLMMarker) : TLMMarker :=
  MkTLM (markerManager_ m) (option_map (TPSeq_complete tileStreamStart) <$> tilePartsPerTile_ m) (tlm_valid_ m)
    (hasTileIndices_ m) (tileCount_ m) (numSignalledTiles_ m) (tilePartStart_ m).

(** The constructor for a codestream without TLM: entries kept from an earlier run, if the
    file with them can be loaded. *)
Fixpoint TLM_add_all (l : list (Z * Z)) (m : TLMMarker) : read_result TLMMarker :=
  match l with [] => Ok m | x :: l => let* m := TLM_add (fst x) (snd x) m in TLM_add_all l m end.
Definition TLM_load (serialized : option (list (Z * Z))) (numSignalledTiles tileStreamStart : Z) : read_result TLMMarker :=
  let m := TLM_with_valid false (TLM_new numSignalledTiles) in
  match serialized with
  | None => Ok m
  | Some l => let* m := TLM_add_all l m in Ok (TLM_with_valid true (TLM_readComplete tileStreamStart m))
  end.

(** ** PPM *)

(** The segments by index, and after [merge] the packet headers of the tile parts (offset
    into the buffer, length) with the buffer. *)
Record PPMMarker := MkPPM { ppm_markers : list (option (list Z)); packetHeaders : list (Z * Z); ppm_buffer : list Z }.
Definition PPM_new : PPMMarker := MkPPM [] [] [].

Definition PPM_read (m : PPMMarker) (data : list Z) (headerSize : Z) : read_result PPMMarker :=
  if headerSize <? 2 then Err Refused
  else
    let* (i_ppm, data) := grk_read 1 data in
    let headerSize := u16 (headerSize - 1) in
    let i := Z.to_nat i_ppm in
    let l := ppm_markers m ++ replicate (S i - length (ppm_markers m)) None in
    let* o := get_at i l in
    match o with
    | Some _ => Err Refused
    | None =>
        if (length data <? Z.to_nat headerSize)%nat then Err OutOfBounds
        else
          let* l := set_at i (Some (take (Z.to_nat headerSize) data)) l in
          Ok (MkPPM l (packetHeaders m) (ppm_buffer m))
    end.

(** The first pass over the segments measures the headers.  The state is what remains of the
    last header, the total, and the headers so far.  A segment of [n] bytes takes fewer than
    [n] rounds. *)
Fixpoint measure_segment (fuel : nat) (data : list Z) (total : Z) (hs : list (Z * Z)) : read_result (Z * Z * list (Z * Z)) :=
  match fuel with
  | O => Err OutOfBounds
  | S fuel =>
      if (length data <? 4)%nat then Err Refused
      else
        let* (N_ppm, data) := grk_read 4 data in
        let hs := hs ++ [(total, N_ppm)] in
        let total := u64 (total + N_ppm) in
        if N_ppm <=? Z.of_nat (length data) then
          match drop (Z.to_nat N_ppm) data with
          | [] => Ok (0, total, hs)
          | data => measure_segment fuel data total hs
          end
        else Ok (N_ppm - Z.of_nat (length data), total, hs)
  end.
Fixpoint measure_all (l : list (option (list Z))) (remaining total : Z) (hs : list (Z * Z)) : read_result (Z * Z * list (Z * Z)) :=
  match l with
  | [] => Ok (remaining, total, hs)
  | None :: l => measure_all l remaining total hs
  | Some data :: l =>
      let size := Z.of_nat (length data) in
      if size <=? remaining then measure_all l (remaining - size) total hs
      else
        let data := drop (Z.to_nat remaining) data in
        let* (remaining, total, hs) := measure_segment (length data) data total hs in
        measure_all l remaining total hs
  end.

(** [memcpy] of the first [n] bytes at [pos] of the buffer. *)
Definition copy_bytes (n : nat) (pos : Z) (data buffer : list Z) : read_result (list Z) :=
  if (length data <? n)%nat || (Z.of_nat (length buffer) <? pos + Z.of_nat n) then Err OutOfBounds
  else Ok (take (Z.to_nat pos) buffer ++ take n data ++ drop (Z.to_nat pos + n) buffer).

(** The second pass copies them. *)
Fixpoint copy_segment (fuel : nat) (data : list Z) (total : Z) (buffer : list Z) : read_result (Z * Z * list Z) :=
  match fuel with
  | O => Err OutOfBounds
  | S fuel =>
      if (length data <? 4)%nat then Err Refused
      else
        let* (N_ppm, data) := grk_read 4 data in
        if N_ppm <=? Z.of_nat (length data) then
          let* buffer := copy_bytes (Z.to_nat N_ppm) total data buffer in
          let total := u64 (total + N_ppm) in
          match drop (Z.to_nat N_ppm) data with
          | [] => Ok (0, total, buffer)
          | data => copy_segment fuel data total buffer
          end
        else
          let* buffer := copy_bytes (length data) total data buffer in
          Ok (N_ppm - Z.of_nat (length data), u64 (total + Z.of_nat (length data)), buffer)
  end.
Fixpoint copy_all (l : list (option (list Z))) (remaining total : Z) (buffer : list Z) : read_result (list Z) :=
  match l with
  | [] => Ok buffer
  | None :: l => copy_all l remaining total buffer
  | Some data :: l =>
      let size := Z.of_nat (length data) in
      if size <=? remaining then
        let* buffer := copy_bytes (length data) total data buffer in
        copy_all l (remaining - size) (u64 (total + size)) buffer
      else
        let* buffer := copy_bytes (Z.to_nat remaining) total data buffer in
        let data := drop (Z.to_nat remaining) data in
        let* (remaining, total, buffer) := copy_segment (length data) data (u64 (total + remaining)) buffer in
        copy_all l remaining total buffer
  end.

Definition PPM_merge (m : PPMMarker) : read_result PPMMarker :=
  match ppm_markers m with
  | [] => Ok m
  | l =>
      let* (remaining, total, hs) := measure_all l 0 0 (packetHeaders m) in
      if negb (remaining =? 0) then Err Refused
      else
        let* buffer := copy_all l 0 0 (replicate (Z.to_nat total) 0) in
        (** a header reaches to the end of the buffer: [set_buf (buffer + offset, total - offset)] *)
        Ok (MkPPM [] ((fun x => (fst x, u64 (total - fst x))) <$> hs) buffer)
  end.

(** ** Custom component transforms *)

Definition default_number_mct_records : nat := 10.
Definition default_number_mcc_records : nat := 10.

Record grk_mct_data := MkMct { element_type_ : Z; array_type_ : Z; mct_index_ : Z; mct_data_ : option (list Z) }.
(** The arrays are indices of MCT records. *)
Record grk_mcc_data := MkMcc { mcc_index_ : Z; nb_comps_ : Z; decorrelation_array_ : option nat; offset_array_ : option nat; is_irreversible_ : bool }.
Definition new_mct : grk_mct_data := MkMct 0 0 0 None.
Definition new_mcc : grk_mcc_data := MkMcc 0 0 None None false.

(** The records allocated, how many of them are in use, and the decoding matrix: the elements
    it is converted from, with their type. *)
Record transforms := MkTransforms {
  mctRecords_ : list grk_mct_data; numMctRecords_ : nat;
  mccRecords_ : list grk_mcc_data; numMccRecords_ : nat;
  mctDecodingMatrix_ : option (Z * list Z);
}.
Definition new_transforms : transforms := MkTransforms [] 0 [] 0 None.
(** [initDefault] allocates the records; it does not reset the counts. *)
Definition init_records (t : transforms) : transforms :=
  MkTransforms (replicate default_number_mct_records new_mct) (numMctRecords_ t)
    (replicate default_number_mcc_records new_mcc) (numMccRecords_ t) (mctDecodingMatrix_ t).
Definition with_mct (t : transforms) (l : list grk_mct_data) (n : nat) : transforms :=
  MkTransforms l n (mccRecords_ t) (numMccRecords_ t) (mctDecodingMatrix_ t).
Definition with_mcc (t : transforms) (l : list grk_mcc_data) (n : nat) : transforms :=
  MkTransforms (mctRecords_ t) (numMctRecords_ t) l n (mctDecodingMatrix_ t).
Definition with_matrix (t : transforms) (m : option (Z * list Z)) : transforms :=
  MkTransforms (mctRecords_ t) (numMctRecords_ t) (mccRecords_ t) (numMccRecords_ t) m.

(** The first of the [n] records in use with the index, or [n]. *)
Fixpoint find_record {A} (index : A -> Z) (v : Z) (n : nat) (l : list A) : read_result nat :=
  match n, l with
  | O, _ => Ok O
  | S n, [] => Err OutOfBounds
  | S n, x :: l => if index x =? v then Ok O else let* i := find_record index v n l in Ok (S i)
  end.
(** The records with room for one more. *)
Definition with_room {A} (x : A) (more n : nat) (l : list A) : list A :=
  if (n =? length l)%nat then l ++ replicate more x else l.

(** The index of a record is the whole Imct, not its low byte. *)
Definition readMct (t : transforms) (data : list Z) (headerSize : Z) : read_result transforms :=
  if headerSize <=? 6 then Err Refused
  else
    let* (Zmct, data) := grk_read 2 data in
    if negb (Zmct =? 0) then Ok t
    else
      let* (Imct, data) := grk_read 2 data in
      let* i := find_record mct_index_ Imct (numMctRecords_ t) (mctRecords_ t) in
      let newmct := (i =? numMctRecords_ t)%nat in
      let l := if newmct then with_room new_mct default_number_mct_records (numMctRecords_ t) (mctRecords_ t) else mctRecords_ t in
      let record d := MkMct (Z.land (Z.shiftr Imct 10) 3) (Z.land (Z.shiftr Imct 8) 3) Imct d in
      let* l := set_at i (record None) l in
      let* (Ymct, data) := grk_read 2 data in
      if negb (Ymct =? 0) then Ok (with_mct t l (numMctRecords_ t))
      else
        let n := Z.to_nat (u16 (headerSize - 6)) in
        if (length data <? n)%nat then Err OutOfBounds
        else
          let* l := set_at i (record (Some (take n data))) l in
          Ok (with_mct t l (if newmct then S (numMctRecords_ t) else numMctRecords_ t)).

(** The component indices of a collection; [None] when they are shuffled. *)
Fixpoint check_indices (n : nat) (j : Z) (room : nat) (data : list Z) : read_result (option (list Z)) :=
  match n with
  | O => Ok (Some data)
  | S n =>
      let* (tmp, data) := grk_read room data in
      if negb (tmp =? j) then Ok None else check_indices n (j + 1) room data
  end.
(** The record of an array; index 0 is none. *)
Definition find_array (t : transforms) (index : Z) : read_result (option nat) :=
  if index =? 0 then Ok None
  else
    let* i := find_record mct_index_ index (numMctRecords_ t) (mctRecords_ t) in
    if (i =? numMctRecords_ t)%nat then Err Refused else Ok (Some i).

(** What a collection does: the record as it is left, and the size left, or no size when the
    reading ends early without an error. *)
Definition read_collection (t : transforms) (r : grk_mcc_data) (data : list Z) (headerSize : Z)
    : read_result (grk_mcc_data * option Z) :=
  if headerSize <? 3 then Err Refused
  else
    let* (Xmcc, data) := grk_read 1 data in
    if negb (Xmcc =? 1) then Ok (r, None)
    else
      let* (Nmcc, data) := grk_read 2 data in
      let headerSize := u16 (headerSize - 3) in
      let room := 1 + Z.shiftr Nmcc 15 in
      let n := Z.land Nmcc 0x7fff in
      let r := MkMcc (mcc_index_ r) n (decorrelation_array_ r) (offset_array_ r) (is_irreversible_ r) in
      if headerSize <? u32 (room * n + 2) then Err Refused
      else
        let headerSize := u16 (headerSize - u32 (room * n + 2)) in
        let* o := check_indices (Z.to_nat n) 0 (Z.to_nat room) data in
        match o with
        | None => Ok (r, None)
        | Some data =>
            let* (Mmcc, data) := grk_read 2 data in
            let room := 1 + Z.shiftr Mmcc 15 in
            if negb (Z.land Mmcc 0x7fff =? n) then Ok (r, None)
            else if headerSize <? u32 (room * n + 3) then Err Refused
            else
              let headerSize := u16 (headerSize - u32 (room * n + 3)) in
              let* o := check_indices (Z.to_nat n) 0 (Z.to_nat room) data in
              match o with
              | None => Ok (r, None)
              | Some data =>
                  let* (tmp, data) := grk_read 3 data in
                  let* deco := find_array t (Z.land tmp 0xff) in
                  let* off := find_array t (Z.land (Z.shiftr tmp 8) 0xff) in
                  Ok (MkMcc (mcc_index_ r) n deco off (negb (Z.testbit tmp 16)), Some headerSize)
              end
        end.

Definition readMcc (t : transforms) (data : list Z) (headerSize : Z) : read_result transforms :=
  if headerSize <? 2 then Err Refused
  else
    let* (Zmcc, data) := grk_read 2 data in
    if negb (Zmcc =? 0) then Ok t
    else if headerSize <? 7 then Err Refused
    else
      let* (Imcc, data) := grk_read 1 data in
      let* i := find_record mcc_index_ Imcc (numMccRecords_ t) (mccRecords_ t) in
      let newmcc := (i =? numMccRecords_ t)%nat in
      let l := if newmcc then with_room new_mcc default_number_mcc_records (numMccRecords_ t) (mccRecords_ t) else mccRecords_ t in
      let* r := get_at i l in
      let r := MkMcc Imcc (nb_comps_ r) (decorrelation_array_ r) (offset_array_ r) (is_irreversible_ r) in
      let store r n := let* l := set_at i r l in Ok (with_mcc t l n) in
      let kept := numMccRecords_ t in
      let* (Ymcc, data) := grk_read 2 data in
      if negb (Ymcc =? 0) then store r kept
      else
        let* (Qmcc, data) := grk_read 2 data in
        if 1 <? Qmcc then store r kept
        else
          let headerSize := u16 (headerSize - 7) in
          let* (r, size_left) := if Qmcc =? 1 then read_collection t r data headerSize else Ok (r, Some headerSize) in
          match size_left with
          | None => store r kept
          | Some n => if negb (n =? 0) then Err Refused else store r (if newmcc then S kept else kept)
          end.

(** The bytes of an element, least significant first, as the host reads them. *)
Definition le_value (bs : list Z) : Z := be_value (reverse bs).
Definition MCT_ELEMENT_SIZE (ty : Z) : Z := nthZ 0 [2; 4; 4; 8] ty.

Section offsets.
(** The conversion of the bits of a [float] and of a [double] to [int32_t]. *)
Context (float_to_int32 double_to_int32 : Z -> Z).

(** [write<S, int32_t>]: the element is read as the host does and written most significant
    byte first; the level shift is then loaded as the host does. *)
Definition offset_value (ty : Z) (bs : list Z) : Z :=
  let v := le_value bs in
  let temp := if ty =? 0 then i16 v else if ty =? 1 then i32 v else if ty =? 2 then float_to_int32 v else double_to_int32 v in
  i32 (le_value (be_bytes 4 (u32 temp))).
Fixpoint offset_values (ty : Z) (n : nat) (data : list Z) : read_result (list Z) :=
  match n with
  | O => Ok []
  | S n =>
      let room := Z.to_nat (MCT_ELEMENT_SIZE ty) in
      if (length data <? room)%nat then Err OutOfBounds
      else let* l := offset_values ty n (drop room data) in Ok (offset_value ty (take room data) :: l)
  end.

Definition with_dcLevelShift (t : TileComponentCodingParams) (v : Z) : TileComponentCodingParams :=
  MkTccp (style_ t) (quant_ t) (roishift_ t) v.

(** The array of an MCC record with [num] elements: refused unless the sizes agree. *)
Definition array_elements (t : transforms) (i : nat) (num : Z) : read_result (Z * list Z) :=
  let* a := get_at i (mctRecords_ t) in
  let bytes := default [] (mct_data_ a) in
  if negb (Z.of_nat (length bytes) =? u32 (MCT_ELEMENT_SIZE (element_type_ a) * num)) then Err Refused
  else Ok (element_type_ a, bytes).

(** [addMct]: the loop looks at the first MCC record only. *)
Definition addMct (p : TileCodingParams) (t : transforms) (index : Z) : read_result (TileCodingParams * transforms) :=
  if (numMccRecords_ t =? 0)%nat then Ok (p, t)
  else
    let* r := get_at 0 (mccRecords_ t) in
    if negb (mcc_index_ r =? index) then Ok (p, t)
    else if negb (nb_comps_ r =? numComps_ p) then Ok (p, t)
    else
      let* t :=
        match decorrelation_array_ r with
        | None => Ok t
        | Some i => let* a := array_elements t i (numComps_ p * numComps_ p) in Ok (with_matrix t (Some a))
        end in
      match offset_array_ r with
      | None => Ok (p, t)
      | Some i =>
          let* (ty, bytes) := array_elements t i (numComps_ p) in
          let* vs := offset_values ty (Z.to_nat (numComps_ p)) bytes in
          Ok (with_tccps p (zip_with with_dcLevelShift (tccps_ p) vs), t)
      end.

Definition readMco (p : TileCodingParams) (t : transforms) (data : list Z) (headerSize : Z)
    : read_result (TileCodingParams * transforms) :=
  if headerSize <? 1 then Err Refused
  else
    let* (nb_stages, data) := grk_read 1 data in
    if 1 <? nb_stages then Ok (p, t)
    else if negb (headerSize =? nb_stages + 1) then Err Refused
    else
      let p := with_tccps p ((fun c => with_dcLevelShift c 0) <$> tccps_ p) in
      let t := with_matrix t None in
      if nb_stages =? 1 then let* (tmp, data) := grk_read 1 data in addMct p t tmp else Ok (p, t).

(** ** The table *)

Record rest_state := MkRest {
  decompositionStyles_ : gmap Z DecompositionStyle;
  transformKernels_ : gmap Z TransformKernel;
  tlmMarkers_ : option TLMMarker;
  plmMarkers_ : option PLMarker;
  ppmMarkers_ : option PPMMarker;
  transforms_ : transforms;
}.
Definition new_rest : rest_state := MkRest ∅ ∅ None None None new_transforms.

Definition with_rest {X} (h : header X) (x : X) : header X :=
  MkHeader (headerImage_ h) (has_multiple_tiles h) (cp_ h) (defaultTcp_ h) (isHT_ h) (tilesToDecompress_ h)
    (mainHeaderStart_ h) (tileStreamStart_ h) (markers_ h) x.

Definition readDFS_handler : handler rest_state := fun h data size =>
  let x := rest_ h in
  let* s := readDfs (decompositionStyles_ x) data size in
  Ok (with_rest h (MkRest s (transformKernels_ x) (tlmMarkers_ x) (plmMarkers_ x) (ppmMarkers_ x) (transforms_ x))).
Definition readATK_handler : handler rest_state := fun h data size =>
  let x := rest_ h in
  let* k := readAtk (transformKernels_ x) data size in
  Ok (with_rest h (MkRest (decompositionStyles_ x) k (tlmMarkers_ x) (plmMarkers_ x) (ppmMarkers_ x) (transforms_ x))).
(** [disabled] is the flag GRK_RANDOM_ACCESS_TLM of [disableRandomAccessFlags_]. *)
Definition readTLM (disabled : bool) : handler rest_state := fun h data size =>
  let x := rest_ h in
  let m := default (TLM_new (u16 (t_grid_width_ (cp_ h) * t_grid_height_ (cp_ h)))) (tlmMarkers_ x) in
  let* m := TLM_read m data size in
  let m := if disabled then TLM_with_valid false m else m in
  Ok (with_rest h (MkRest (decompositionStyles_ x) (transformKernels_ x) (Some m) (plmMarkers_ x) (ppmMarkers_ x) (transforms_ x))).
Definition readPLM_handler : handler rest_state := fun h data size =>
  let x := rest_ h in
  match readPLM data size (default PLMarker_new (plmMarkers_ x)) with
  | None => Err OutOfBounds
  | Some m =>
      Ok (with_rest h (MkRest (decompositionStyles_ x) (transformKernels_ x) (tlmMarkers_ x) (Some m) (ppmMarkers_ x) (transforms_ x)))
  end.
Definition readPPM : handler rest_state := fun h data size =>
  let x := rest_ h in
  let* m := PPM_read (default PPM_new (ppmMarkers_ x)) data size in
  Ok (with_rest h (MkRest (decompositionStyles_ x) (transformKernels_ x) (tlmMarkers_ x) (plmMarkers_ x) (Some m) (transforms_ x))).

Definition with_transforms (x : rest_state) (t : transforms) : rest_state :=
  MkRest (decompositionStyles_ x) (transformKernels_ x) (tlmMarkers_ x) (plmMarkers_ x) (ppmMarkers_ x) t.
Definition on_transforms (f : transforms -> list Z -> Z -> read_result transforms) : handler rest_state := fun h data size =>
  let* t := f (transforms_ (rest_ h)) data size in Ok (with_rest h (with_transforms (rest_ h) t)).
Definition init_rest (x : rest_state) : rest_state := with_transforms x (init_records (transforms_ x)).
Definition readMCO_handler : handler rest_state := fun h data size =>
  let* (p, t) := readMco (defaultTcp_ h) (transforms_ (rest_ h)) data size in
  Ok (with_rest (with_tcp h p) (with_transforms (rest_ h) t)).

(** The readers; [sot] is that of SOT, which the loop never calls. *)
Definition other_readers (disabled : bool) (sot : handler rest_state) (id : Z) : handler rest_state :=
  if id =? DFS then readDFS_handler
  else if id =? ATK then readATK_handler
  else if id =? TLM then readTLM disabled
  else if id =? PLM then readPLM_handler
  else if id =? PPM then readPPM
  else if id =? MCT then on_transforms readMct
  else if id =? MCC then on_transforms readMcc
  else if id =? MCO then readMCO_handler
  else sot.
End offsets.

Definition mergePpm (x : rest_state) : read_result rest_state :=
  match ppmMarkers_ x with
  | None => Ok x
  | Some m =>
      let* m := PPM_merge m in
      Ok (MkRest (decompositionStyles_ x) (transformKernels_ x) (tlmMarkers_ x) (plmMarkers_ x) (Some m) (transforms_ x))
  end.
(** [serialized] is what the file of an earlier run holds, if it can be loaded. *)
Definition complete_tlm (serialized : option (list (Z * Z))) (start numTiles : Z) (x : rest_state) : read_result rest_state :=
  let* m := match tlmMarkers_ x with
            | Some m => Ok (TLM_readComplete start m)
            | None => TLM_load serialized numTiles start
            end in
  Ok (MkRest (decompositionStyles_ x) (transformKernels_ x) (Some m) (plmMarkers_ x) (ppmMarkers_ x) (transforms_ x)).
