(* ===== verification/MarkerSafety.v ===== *)
(** Reading marker segments from any bytes: no read leaves the segment, no access leaves an
    array, the loop over the markers ends, and the parameters that are accepted are those
    the rest of the decompressor relies on. *)
From S2P Require Import Prelude Geometry PLMarker Markers MainHeader.

(** ** Outcomes *)

(** The only error is a refusal, and a result satisfies [P]. *)
Definition safe {A} (P : A -> Prop) (r : read_result A) : Prop :=
  match r with Ok a => P a | Err e => e = Refused end.

Lemma safe_bind {A B} (P : A -> Prop) (Q : B -> Prop) (m : read_result A) (k : A -> read_result B) :
  safe P m -> (forall a, P a -> safe Q (k a)) -> safe Q (rbind m k).
Proof. destruct m; cbn; auto. Qed.
Lemma safe_if {A} (P : A -> Prop) (b : bool) (r1 r2 : read_result A) :
  (b = true -> safe P r1) -> (b = false -> safe P r2) -> safe P (if b then r1 else r2).
Proof. destruct b; auto. Qed.
Lemma safe_mono {A} (P Q : A -> Prop) (r : read_result A) : safe P r -> (forall a, P a -> Q a) -> safe Q r.
Proof. destruct r; cbn; auto. Qed.

(** The same of a reader that may leave its segment or an array if [B] holds. *)
Definition outcome {A} (B : Prop) (P : A -> Prop) (r : read_result A) : Prop :=
  match r with Ok a => P a | Err e => e = OutOfBounds -> B end.
Lemma safe_outcome {A} (B : Prop) (P Q : A -> Prop) (r : read_result A) : safe P r -> (forall a, P a -> Q a) -> outcome B Q r.
Proof. destruct r; cbn; [auto|]. by intros ->. Qed.

Definition byte (b : Z) : Prop := 0 <= b < 256.
(** The bytes of a segment of which [size] are left. *)
Definition segment (data : list Z) (size : Z) : Prop := Forall byte data /\ size = Z.of_nat (length data).

Lemma be_value_app l b : be_value (l ++ [b]) = 256 * be_value l + b.
Proof. unfold be_value. by rewrite foldl_app. Qed.
Lemma be_value_range l : Forall byte l -> 0 <= be_value l < 256 ^ Z.of_nat (length l).
Proof.
  induction l as [|b l IH] using rev_ind; [done|]. intros [Hl Hb]%list.Forall_app. apply list.Forall_cons in Hb as [Hb _]. unfold byte in Hb.
  rewrite be_value_app, length_app, Nat2Z.inj_add. cbn [length]. rewrite Z.pow_add_r by lia. specialize (IH Hl).
  replace (256 ^ Z.of_nat 1) with 256 by done. lia.
Qed.

Lemma grk_read_safe n data size : segment data size -> Z.of_nat n <= size ->
  safe (fun r => 0 <= fst r < 256 ^ Z.of_nat n /\ segment (snd r) (size - Z.of_nat n)) (grk_read n data).
Proof.
  intros [Hb ->] Hn. unfold grk_read. rewrite (proj2 (Nat.leb_le _ _)) by lia. cbn. split.
  - pose proof (be_value_range (take n data) ltac:(by apply list.Forall_take)) as H. rewrite length_take, Nat.min_l in H by lia. done.
  - split; [by apply list.Forall_drop|]. rewrite length_drop. lia.
Qed.
Lemma get_at_safe {A} (P : A -> Prop) i (l : list A) : (i < length l)%nat -> Forall P l -> safe P (get_at i l).
Proof.
  intros Hi HP. unfold get_at. destruct (lookup_lt_is_Some_2 l i Hi) as [x E]. rewrite E. cbn. by apply (list.Forall_lookup_1 _ _ _ _ HP E).
Qed.
Lemma set_at_safe {A} (P : A -> Prop) i x (l : list A) : (i < length l)%nat -> Forall P l -> P x ->
  safe (fun l' => length l' = length l /\ Forall P l' /\ l' = <[i := x]> l) (set_at i x l).
Proof.
  intros Hi HP Hx. unfold set_at. rewrite (proj2 (Nat.ltb_lt _ _)) by done. cbn. rewrite length_insert.
  split; [done|]. split; [|done]. by apply list.Forall_insert.
Qed.

(** The next read, assignment or guard of a reader. *)
Ltac read_step :=
  first
    [ match goal with |- safe _ (rbind (grk_read ?n ?d) _) =>
        match goal with H : segment d ?sz |- _ =>
          eapply (safe_bind _ _ _ _ (grk_read_safe n d sz H ltac:(cbn [Z.of_nat] in *; lia)));
          let v := fresh "v" in let d' := fresh "data" in let Hv := fresh "Hv" in let Hd := fresh "Hd" in
          intros [v d'] [Hv Hd]; cbn [fst snd] in Hv, Hd
        end
      end
    | apply safe_if; [intros _; reflexivity|intros ?] ].

(** ** Coding styles *)

(** Sixteen precinct exponents, and none zero above the lowest resolution. *)
Record style_ok (s : coding_style) : Prop := {
  so_csty : 0 <= csty_ s < 256;
  so_res : 0 <= numresolutions_ s <= 33;
  so_cblk : numresolutions_ s = 0 \/ 2 <= cblkw_expn_ s /\ 2 <= cblkh_expn_ s /\ cblkw_expn_ s + cblkh_expn_ s <= 12;
  so_sty : 0 <= cblkStyle_ s < 256;
  so_qmf : 0 <= qmfbid_ s <= 1;
  so_width : length (precWidthExp_ s) = GRK_MAXRLVLS;
  so_height : length (precHeightExp_ s) = GRK_MAXRLVLS;
  so_prec : Forall (fun e => 0 <= e <= 15) (precWidthExp_ s) /\ Forall (fun e => 0 <= e <= 15) (precHeightExp_ s);
  so_pos : forall i e, (0 < i < Z.to_nat (numresolutions_ s))%nat ->
    precWidthExp_ s !! i = Some e \/ precHeightExp_ s !! i = Some e -> 0 < e;
}.

Definition precincts_from (i n : nat) (pr : list Z * list Z) : Prop :=
  length (fst pr) = GRK_MAXRLVLS /\ length (snd pr) = GRK_MAXRLVLS /\
  Forall (fun e => 0 <= e <= 15) (fst pr) /\ Forall (fun e => 0 <= e <= 15) (snd pr) /\
  (forall j e, (0 < j < n)%nat -> fst pr !! j = Some e \/ snd pr !! j = Some e -> (j < i)%nat -> 0 < e).

Lemma precincts_set i n w h a b : (i < GRK_MAXRLVLS)%nat -> 0 <= a <= 15 -> 0 <= b <= 15 -> ((0 < i)%nat -> 0 < a /\ 0 < b) ->
  precincts_from i n (w, h) -> precincts_from (S i) n (<[i := a]> w, <[i := b]> h).
Proof.
  intros Hi Ha Hb Hpos (Hw & Hh & Fw & Fh & Hp). cbn [fst snd] in *. repeat split; cbn [fst snd]; rewrite ?length_insert; try done.
  - by apply list.Forall_insert.
  - by apply list.Forall_insert.
  - intros j e Hj He Hlt. destruct (decide (i = j)) as [<-|Hne].
    + rewrite !list_lookup_insert_eq in He by lia. destruct Hpos; [lia|]. destruct He; simplify_eq; lia.
    + rewrite !list_lookup_insert_ne in He by done. apply (Hp j); [done..|lia].
Qed.

Lemma nibbles v : 0 <= v < 256 -> 0 <= Z.land v 15 <= 15 /\ 0 <= Z.shiftr v 4 <= 15.
Proof.
  intros Hv. change 15 with (Z.ones 4) at 1 2. rewrite Z.land_ones by lia. rewrite Z.shiftr_div_pow2 by lia.
  pose proof (Z.mod_pos_bound v (2 ^ 4)). change (2 ^ 4) with 16 in *.
  split; [lia|]. split; [apply Z.div_pos; lia|]. assert (v / 16 < 16) by (apply Z.div_lt_upper_bound; lia). lia.
Qed.

Lemma read_precincts_safe n : forall i total data size w h, (i + n <= GRK_MAXRLVLS)%nat -> segment data size -> Z.of_nat n <= size ->
  precincts_from i total (w, h) -> safe (precincts_from (i + n) total) (read_precincts n i data w h).
Proof.
  induction n as [|n IH]; intros i total data size w h Hi Hs Hn Hp; cbn [read_precincts]; [by rewrite Nat.add_0_r|].
  read_step. apply safe_if; [done|]. intros Hz. change (256 ^ Z.of_nat 1) with 256 in Hv.
  destruct (nibbles v Hv) as [H1 H2]. pose proof Hp as (Lw & Lh & Fw & Fh & _). cbn [fst snd] in *.
  eapply safe_bind; [apply (set_at_safe _ i _ w ltac:(lia) Fw H1)|]. intros w' (_ & _ & ->).
  eapply safe_bind; [apply (set_at_safe _ i _ h ltac:(lia) Fh H2)|]. intros h' (_ & _ & ->).
  replace (i + S n)%nat with (S i + n)%nat by lia. apply (IH _ _ _ (size - 1)); [lia|done|lia|].
  apply precincts_set; [lia|done|done| |done]. intros H0. rewrite (proj2 (Nat.ltb_lt _ _)) in Hz by done. cbn in Hz.
  apply orb_false_iff in Hz as [?%Z.eqb_neq ?%Z.eqb_neq]. lia.
Qed.
Lemma default_precincts_safe n : forall i total w h, (i + n <= GRK_MAXRLVLS)%nat ->
  precincts_from i total (w, h) -> safe (precincts_from (i + n) total) (default_precincts n i w h).
Proof.
  induction n as [|n IH]; intros i total w h Hi Hp; cbn [default_precincts]; [by rewrite Nat.add_0_r|].
  pose proof Hp as (Lw & Lh & Fw & Fh & _). cbn [fst snd] in *.
  eapply safe_bind; [apply (set_at_safe (fun e => 0 <= e <= 15) i 15 w ltac:(lia) Fw ltac:(cbn; lia))|]. intros w' (_ & _ & ->).
  eapply safe_bind; [apply (set_at_safe (fun e => 0 <= e <= 15) i 15 h ltac:(lia) Fh ltac:(cbn; lia))|]. intros h' (_ & _ & ->).
  replace (i + S n)%nat with (S i + n)%nat by lia. apply IH; [lia|]. by apply precincts_set; [lia..| |].
Qed.

Lemma u8_small v : 0 <= v < 256 -> u8 v = v.
Proof. exact (wrap_small 8 v). Qed.
Lemma u16_small v : 0 <= v < 65536 -> u16 v = v.
Proof. exact (wrap_small 16 v). Qed.

Lemma read_levels_safe fromCoc s v : 0 <= v < 256 -> style_ok s ->
  safe (fun r => 0 < fst r <= 33) (read_levels fromCoc s v).
Proof.
  intros Hv Hs. unfold read_levels. pose proof (so_res s Hs). repeat (apply safe_if; [try done; intros ?|intros ?]); cbn; try done.
  - apply Z.eqb_neq in H2. lia.
  - apply Z.ltb_ge in H1. unfold GRK_MAX_DECOMP_LVLS in H1. rewrite u8_small by lia. lia.
Qed.

Lemma readSPCodSPCoc_safe reduce fromCoc s data size : style_ok s -> segment data size -> size < 65536 ->
  safe (fun r => style_ok (fst r) /\ 0 < numresolutions_ (fst r) /\ csty_ (fst r) = csty_ s /\ 0 <= snd r)
    (readSPCodSPCoc reduce fromCoc s data size).
Proof.
  intros Hs Hd Hlt. unfold readSPCodSPCoc. apply safe_if; [done|]. intros Hsz%Z.ltb_ge. unfold SPCodSPCocLen in *.
  read_step. eapply safe_bind; [by apply read_levels_safe|]. intros [nr dfs] Hnr. cbn [fst] in Hnr.
  apply safe_if; [done|]. intros _. read_step. read_step. apply safe_if; [done|]. intros Hc.
  read_step. apply safe_if; [done|]. intros _. read_step. change (256 ^ Z.of_nat 1) with 256 in *.
  rewrite u16_small by lia.
  assert (forall pr, precincts_from (Z.to_nat nr) (Z.to_nat nr) pr ->
    style_ok (MkStyle (csty_ s) nr (u8 (v0 + 2)) (u8 (v1 + 2)) v2 (if 1 <? v3 then 0 else v3) (if 1 <? v3 then v3 else 0) dfs (fst pr) (snd pr)))
    as Hok.
  { intros pr (Lw & Lh & Fw & Fh & Hp). apply negb_false_iff in Hc. unfold cblk_size_ok in Hc.
    apply negb_true_iff, orb_false_iff in Hc as [[?%Z.ltb_ge ?%Z.ltb_ge]%orb_false_iff ?%Z.ltb_ge].
    constructor; cbn -[Z.ltb]; try done; try apply Hs; try lia.
    - right. rewrite !u8_small by lia. lia.
    - destruct (Z.ltb_spec 1 v3); lia.
    - intros i e Hi He. apply (Hp i e); [lia|done|lia]. }
  assert (precincts_from 0 (Z.to_nat nr) (precWidthExp_ s, precHeightExp_ s)) as H0.
  { split; [apply Hs|]. split; [apply Hs|]. split; [apply Hs|]. split; [apply Hs|]. intros; lia. }
  apply safe_if; intros Hp.
  - apply safe_if; [done|]. intros Hnr2%Z.ltb_ge. eapply safe_bind.
    + apply (read_precincts_safe _ 0 (Z.to_nat nr) _ (size - 5)); [unfold GRK_MAXRLVLS; lia| |lia|exact H0].
      by replace (size - 5) with (size - Z.of_nat 1 - Z.of_nat 1 - Z.of_nat 1 - Z.of_nat 1 - Z.of_nat 1) by lia.
    + intros pr Hpr. rewrite u16_small by lia. cbn. split; [by apply Hok|]. split; [lia|]. split; [done|lia].
  - eapply safe_bind; [apply (default_precincts_safe _ 0 (Z.to_nat nr)); [unfold GRK_MAXRLVLS; lia|exact H0]|].
    intros pr Hpr. cbn. split; [by apply Hok|]. split; [lia|]. split; [done|lia].
Qed.

(** ** Quantisation *)

Definition step_ok (s : grk_stepsize) : Prop := 0 <= expn s < 32 /\ 0 <= mant s < 2048.
Record quant_ok (q : quantization) : Prop := {
  qo_sty : 0 <= qntsty_ q <= 2;
  qo_guard : 0 <= numgbits_ q < 8;
  qo_num : 0 <= numStepSizes_ q < 256;
  qo_len : length (stepsizes_ q) = GRK_MAXBANDS;
  qo_steps : Forall step_ok (stepsizes_ q);
}.

Lemma shiftr_bound v n : 0 <= n -> 0 <= v < 2 ^ (n + 5) -> 0 <= Z.shiftr v n < 32.
Proof.
  intros Hn Hv. rewrite Z.shiftr_div_pow2 by lia. rewrite Z.pow_add_r in Hv by lia. change (2 ^ 5) with 32 in Hv.
  split; [apply Z.div_pos; lia|]. apply Z.div_lt_upper_bound; lia.
Qed.
Lemma step_noqnt_ok v : 0 <= v < 256 -> step_ok (step_noqnt v).
Proof.
  intros Hv. pose proof (shiftr_bound v 3 ltac:(lia) Hv). unfold step_ok, step_noqnt. cbn -[Z.shiftr wrap]. rewrite u8_small; lia.
Qed.
Lemma step_qnt_ok v : 0 <= v < 65536 -> step_ok (step_qnt v).
Proof.
  intros Hv. pose proof (shiftr_bound v 11 ltac:(lia) Hv). unfold step_ok, step_qnt. cbn -[Z.shiftr wrap Z.land].
  change 2047 with (Z.ones 11). rewrite Z.land_ones by lia. pose proof (Z.mod_pos_bound v (2 ^ 11) ltac:(lia)).
  change (2 ^ 11) with 2048 in *. rewrite u8_small, u16_small; lia.
Qed.

Lemma read_steps_safe ignore room step n : (forall v, 0 <= v < 256 ^ Z.of_nat room -> step_ok (step v)) ->
  forall i data size steps, segment data size -> Z.of_nat room * Z.of_nat n <= size ->
  length steps = GRK_MAXBANDS -> Forall step_ok steps ->
  safe (fun l => length l = GRK_MAXBANDS /\ Forall step_ok l) (read_steps ignore room step n i data steps).
Proof.
  intros Hstep. induction n as [|n IH]; intros i data size steps Hd Hn Hl Hf; cbn [read_steps]; [done|].
  eapply (safe_bind _ _ _ _ (grk_read_safe room data size Hd ltac:(lia))). intros [v d'] [Hv Hd']. cbn [fst snd] in Hv, Hd'.
  eapply (safe_bind (fun l => length l = GRK_MAXBANDS /\ Forall step_ok l)).
  - apply safe_if; intros Hb; [|done]. apply andb_true_iff in Hb as [_ Hb%Nat.ltb_lt].
    eapply safe_mono; [apply (set_at_safe step_ok); [lia|done|by apply Hstep]|]. intros l (Hl' & Hf' & _). split; [lia|done].
  - intros l [Hl' Hf']. apply (IH _ _ (size - Z.of_nat room)); [done|lia|done|done].
Qed.

Lemma derive_steps_safe l : length l = GRK_MAXBANDS -> Forall step_ok l ->
  safe (fun l => length l = GRK_MAXBANDS /\ Forall step_ok l) (derive_steps l).
Proof.
  intros Hl Hf. unfold derive_steps. destruct l as [|s0 l]; [done|]. cbn. apply list.Forall_cons in Hf as [Hs _].
  rewrite length_imap. split; [done|]. constructor; [done|]. apply list.Forall_lookup. intros i x. rewrite list_lookup_imap.
  intros (? & _ & ->)%fmap_Some. destruct Hs as [He Hm]. split; cbn -[Z.ltb wrap Z.of_nat Z.div]; [|done].
  assert (0 <= (Z.of_nat (S i) - 1) / 3) by (apply Z.div_pos; lia). destruct (Z.ltb_spec ((Z.of_nat (S i) - 1) / 3) (expn s0)); [|lia].
  rewrite u8_small by lia. lia.
Qed.

Lemma readSQcdSQcc_safe ft fq q main data size : quant_ok q -> segment data size -> size < 65536 ->
  safe (fun r => quant_ok (fst (fst r)) /\ 0 <= snd r) (readSQcdSQcc ft fq q main data size).
Proof.
  intros Hq Hd Hlt. unfold readSQcdSQcc. apply safe_if; [done|]. intros Hsz%Z.ltb_ge. read_step. apply safe_if; [done|].
  intros Hst%Z.ltb_ge. change (256 ^ Z.of_nat 1) with 256 in *. unfold CCP_QNTSTY_SEQNT in Hst. cbv zeta.
  set (sty := Z.land v 31) in *. assert (0 <= sty) by (apply Z.land_nonneg; lia). rewrite (u16_small (size - 1)) by lia.
  set (ign := scope_ignored ft fq q). set (num := if ign then _ else _).
  assert (0 <= num < 256) as Hnum.
  { unfold num. pose proof (qo_num q Hq). pose proof (wrap_range 8 (size - 1) ltac:(lia)). pose proof (wrap_range 8 ((size - 1) / 2) ltac:(lia)).
    change (2 ^ 8) with 256 in *. repeat case_match; lia. }
  set (q1 := if ign then q else _).
  assert (quant_ok q1) as Hq1.
  { unfold q1. destruct ign; [done|]. pose proof (shiftr_bound v 5 ltac:(lia) ltac:(change (2 ^ (5 + 5)) with 1024; lia)) as H32.
    assert (0 <= Z.shiftr v 5 < 8). { rewrite Z.shiftr_div_pow2 by lia. split; [apply Z.div_pos; lia|]. apply Z.div_lt_upper_bound; lia. }
    constructor; cbn -[wrap Z.shiftr]; try apply Hq; try lia. rewrite u8_small by lia. lia. }
  clearbody num q1. set (room := if sty =? CCP_QNTSTY_NOQNT then 1%nat else 2%nat). apply safe_if; [done|]. intros Hroom%Z.ltb_ge.
  eapply safe_bind.
  - apply (read_steps_safe _ room _ _) with (size := size - 1); [|done|rewrite Z2Nat.id; lia|apply Hq1|apply Hq1].
    unfold room. destruct (sty =? CCP_QNTSTY_NOQNT); [exact step_noqnt_ok|exact step_qnt_ok].
  - intros steps Hsteps. eapply (safe_bind (fun l => length l = GRK_MAXBANDS /\ Forall step_ok l)).
    + apply safe_if; intros _; [apply derive_steps_safe; apply Hsteps|done].
    + intros l [Hl Hf]. cbn -[wrap]. split; [|apply wrap_range; lia]. constructor; cbn; (done || apply Hq1).
Qed.

(** ** Tile and component parameters *)

Definition tccp_ok (t : TileComponentCodingParams) : Prop := style_ok (style_ t) /\ quant_ok (quant_ t) /\ 0 <= roishift_ t < 32.
Record tcp_ok (p : TileCodingParams) : Prop := {
  to_comps : numComps_ p = Z.of_nat (length (tccps_ p));
  to_some : 0 < numComps_ p <= 16384;
  to_tccps : Forall tccp_ok (tccps_ p);
  to_mct : 0 <= mct_ p <= 1;
  to_pocs : length (progressionOrderChange_ p) = GRK_MAXRLVLS;
  to_num : 0 <= numpocs_ p < 33;
  to_prg : -1 <= prg_ p < GRK_NUM_PROGRESSION_ORDERS;
}.

(** Parameters in order, for as many components as before. *)
Definition keeps_comps (p p' : TileCodingParams) : Prop := tcp_ok p' /\ numComps_ p' = numComps_ p.

Lemma with_style_ok t s : tccp_ok t -> style_ok s -> tccp_ok (with_style t s).
Proof. intros (_ & ? & ?) ?. done. Qed.
Lemma with_quant_ok t q : tccp_ok t -> quant_ok q -> tccp_ok (with_quant t q).
Proof. intros (? & _ & ?) ?. done. Qed.
Lemma with_csty_ok s c : style_ok s -> 0 <= c < 256 -> style_ok (with_csty s c).
Proof. intros Hs Hc. constructor; cbn; (done || apply Hs). Qed.
Lemma memcpy_lookup {A} n (src dst : list A) i : length src = length dst ->
  memcpy_prefix n src dst !! i = if (i <? n)%nat then src !! i else dst !! i.
Proof.
  intros Hl. unfold memcpy_prefix. destruct (Nat.ltb_spec i n) as [Hi|Hi].
  - destruct (Nat.le_gt_cases (length src) i) as [Hg|Hg].
    + rewrite lookup_app_r, lookup_drop by (rewrite length_take; lia). rewrite !lookup_ge_None_2; [done|lia|rewrite length_take; lia].
    + rewrite lookup_app_l by (rewrite length_take; lia). by rewrite lookup_take_lt.
  - destruct (Nat.le_gt_cases (length src) i) as [Hg|Hg].
    + rewrite !lookup_ge_None_2; [done|lia|rewrite length_app, length_take, length_drop; lia].
    + rewrite lookup_app_r, lookup_drop by (rewrite length_take; lia). f_equal. rewrite length_take. lia.
Qed.
Lemma memcpy_forall {A} (P : A -> Prop) n (src dst : list A) : Forall P src -> Forall P dst -> Forall P (memcpy_prefix n src dst).
Proof. intros. apply list.Forall_app. split; [by apply list.Forall_take|by apply list.Forall_drop]. Qed.
Lemma length_memcpy {A} n (src dst : list A) : length src = length dst -> length (memcpy_prefix n src dst) = length dst.
Proof. intros. unfold memcpy_prefix. rewrite length_app, length_take, length_drop. lia. Qed.

Lemma copy_style_ok ref dst : style_ok ref -> style_ok dst -> style_ok (copy_style ref dst).
Proof.
  intros Hr Hd. pose proof (so_width _ Hr). pose proof (so_width _ Hd). pose proof (so_height _ Hr). pose proof (so_height _ Hd).
  pose proof (so_prec _ Hr) as [? ?]. pose proof (so_prec _ Hd) as [? ?].
  constructor; cbn; try apply Hr; try apply Hd.
  - by rewrite length_memcpy by congruence.
  - by rewrite length_memcpy by congruence.
  - split; by apply memcpy_forall.
  - intros i e Hi He. rewrite !memcpy_lookup in He by congruence. rewrite (proj2 (Nat.ltb_lt _ _)) in He by lia. by apply (so_pos _ Hr i).
Qed.
Lemma copy_quant_ok src dst : quant_ok src -> quant_ok dst -> quant_ok (copy_quant src dst).
Proof. intros Hs Hd. unfold copy_quant. case_match; [done|]. constructor; cbn; (apply Hs || apply Hd). Qed.

Lemma forall_tail {A} (P : A -> Prop) l : Forall P l -> Forall P (tail l).
Proof. by intros []. Qed.
Lemma comp_room_range n : (1 <= comp_room n <= 2)%nat.
Proof. unfold comp_room. case_match; lia. Qed.

Lemma readCod_safe dec p data size : tcp_ok p -> segment data size -> size < 65536 -> safe (keeps_comps p) (readCod dec p data size).
Proof.
  intros Hp Hd Hlt. unfold readCod. cbv zeta. cbn [cod_ tccps_ layersToDecompress_ numpocs_ hasPoc_ progressionOrderChange_ pocLists_ numComps_].
  apply safe_if; intros _; [split; [constructor; cbn; apply Hp|done]|]. apply safe_if; [done|]. intros Hsz%Z.ltb_ge. unfold codSocLen in *.
  read_step. apply safe_if; [done|]. intros _. read_step. apply safe_if; [done|]. intros Hprg%Z.leb_gt.
  read_step. apply safe_if; [done|]. intros _. read_step. apply safe_if; [done|]. intros Hmct%Z.ltb_ge.
  change (256 ^ Z.of_nat 1) with 256 in *. rewrite u16_small by lia.
  assert (0 <= Z.land v CCP_CSTY_PRECINCT < 256) as Hc.
  { unfold CCP_CSTY_PRECINCT. change 1 with (Z.ones 1). rewrite Z.land_ones by lia.
    pose proof (Z.mod_pos_bound v (2 ^ 1) ltac:(lia)). change (2 ^ 1) with 2 in *. lia. }
  set (l := apply_style _ <$> tccps_ p).
  assert (Forall tccp_ok l) as Hl.
  { apply list.Forall_fmap. refine (list.Forall_impl _ _ _ (to_tccps p Hp) _). intros t Ht. cbn.
    apply with_style_ok; [done|]. apply with_csty_ok; [apply Ht|done]. }
  assert (length l = length (tccps_ p)) as Hlen by apply length_fmap. pose proof (to_comps p Hp). pose proof (to_some p Hp).
  eapply safe_bind; [apply (get_at_safe tccp_ok 0 l); [lia|done]|]. intros t0 Ht0.
  eapply safe_bind; [apply (readSPCodSPCoc_safe _ _ _ _ (size - 5)); [apply Ht0| |lia]|].
  { by replace (size - 5) with (size - Z.of_nat 1 - Z.of_nat 1 - Z.of_nat 2 - Z.of_nat 1) by lia. }
  intros [s0 left] (Hs0 & _). cbn [fst] in Hs0. apply safe_if; [done|]. intros _. split; [|done]. constructor; cbn; try apply Hp; try lia.
  - rewrite length_fmap. destruct l; cbn in *; lia.
  - constructor; [by apply with_style_ok|]. apply list.Forall_fmap.
    refine (list.Forall_impl _ _ _ (forall_tail _ _ Hl) _). intros t Ht. cbn. apply with_style_ok; [done|]. apply copy_style_ok; [done|apply Ht].
Qed.

Lemma readCoc_safe dec p data size : tcp_ok p -> segment data size -> size < 65536 -> safe (keeps_comps p) (readCoc dec p data size).
Proof.
  intros Hp Hd Hlt. unfold readCoc. cbv zeta. pose proof (comp_room_range (numComps_ p)) as Hr. set (room := comp_room _) in *.
  apply safe_if; [done|]. intros Hsz%Z.ltb_ge. read_step. apply safe_if; [done|]. intros Hc%Z.leb_gt. read_step.
  pose proof (to_comps p Hp). change (256 ^ Z.of_nat 1) with 256 in *.
  eapply safe_bind; [apply (get_at_safe tccp_ok _ (tccps_ p)); [lia|apply Hp]|]. intros t Ht. rewrite u16_small by lia.
  eapply safe_bind; [apply (readSPCodSPCoc_safe _ _ _ _ (size - (Z.of_nat room + 1))); [|by replace (size - (Z.of_nat room + 1)) with (size - Z.of_nat room - Z.of_nat 1) by lia|lia]|].
  { apply with_csty_ok; [apply Ht|done]. }
  intros [s left] (Hs & _). apply safe_if; [done|]. intros _.
  eapply safe_bind; [apply (set_at_safe tccp_ok); [lia|apply Hp|by apply with_style_ok]|]. intros l (Hl & Hf & _).
  split; [|done]. constructor; cbn; try apply Hp; [lia|done].
Qed.

Lemma with_quantization_ok p main l : tcp_ok p -> length l = length (tccps_ p) -> Forall tccp_ok l -> keeps_comps p (with_quantization p main l).
Proof. intros Hp Hl Hf. pose proof (to_comps p Hp). split; [|done]. constructor; cbn; try apply Hp; [lia|done]. Qed.
Lemma with_tccps_ok p l : tcp_ok p -> length l = length (tccps_ p) -> Forall tccp_ok l -> keeps_comps p (with_tccps p l).
Proof. intros Hp Hl Hf. pose proof (to_comps p Hp). split; [|done]. constructor; cbn; try apply Hp; [lia|done]. Qed.

Lemma readQcd_safe ft p data size : tcp_ok p -> segment data size -> size < 65536 -> safe (keeps_comps p) (readQcd ft p data size).
Proof.
  intros Hp Hd Hlt. unfold readQcd. pose proof (to_comps p Hp). pose proof (to_some p Hp).
  eapply safe_bind; [apply (get_at_safe tccp_ok 0 (tccps_ p)); [lia|apply Hp]|]. intros t0 Ht0.
  eapply safe_bind; [apply (readSQcdSQcc_safe _ _ _ _ _ size); [apply Ht0|done|done]|]. intros [[q0 main] left] [Hq0 _]. cbn [fst] in Hq0.
  apply safe_if; [done|]. intros _. apply with_quantization_ok; [done| |].
  - cbn. rewrite length_fmap. destruct (tccps_ p); cbn in *; lia.
  - constructor; [by apply with_quant_ok|]. apply list.Forall_fmap.
    refine (list.Forall_impl _ _ _ (forall_tail _ _ (to_tccps p Hp)) _). intros t Ht. cbn.
    apply with_quant_ok; [done|]. apply copy_quant_ok; [done|apply Ht].
Qed.
Lemma readQcc_safe ft p data size : tcp_ok p -> segment data size -> size < 65536 -> safe (keeps_comps p) (readQcc ft p data size).
Proof.
  intros Hp Hd Hlt. unfold readQcc. cbv zeta. pose proof (comp_room_range (numComps_ p)) as Hr. set (room := comp_room _) in *.
  apply safe_if; [done|]. intros Hsz%Z.ltb_ge. read_step. apply safe_if; [done|]. intros Hc%Z.leb_gt. pose proof (to_comps p Hp).
  eapply safe_bind; [apply (get_at_safe tccp_ok _ (tccps_ p)); [lia|apply Hp]|]. intros t Ht. rewrite u16_small by lia.
  eapply safe_bind; [apply (readSQcdSQcc_safe _ _ _ _ _ (size - Z.of_nat room)); [apply Ht|done|lia]|]. intros [[q main] left] [Hq _]. cbn [fst] in Hq.
  apply safe_if; [done|]. intros _. eapply safe_bind; [apply (set_at_safe tccp_ok); [lia|apply Hp|by apply with_quant_ok]|].
  intros l (Hl & Hf & _). by apply with_quantization_ok.
Qed.

Lemma readRgn_safe p data size : tcp_ok p -> segment data size -> safe (keeps_comps p) (readRgn p data size).
Proof.
  intros Hp Hd. unfold readRgn. cbv zeta. pose proof (comp_room_range (numComps_ p)) as Hr. set (room := comp_room _) in *.
  apply safe_if; [done|]. intros Hsz%negb_false_iff%Z.eqb_eq. read_step. read_step. apply safe_if; [done|]. intros _.
  apply safe_if; [done|]. intros Hc%Z.leb_gt. read_step. pose proof (to_comps p Hp). change (256 ^ Z.of_nat 1) with 256 in *.
  eapply safe_bind; [apply (get_at_safe tccp_ok _ (tccps_ p)); [lia|apply Hp]|]. intros t (Hst & Hq & _). apply safe_if; [done|]. intros Hv2%Z.leb_gt.
  eapply safe_bind; [apply (set_at_safe tccp_ok); [lia|apply Hp|]|].
  - split; [done|]. split; [done|]. cbn. lia.
  - intros l (Hl & Hf & _). by apply with_tccps_ok.
Qed.

Lemma read_progressions_safe n room : (1 <= room <= 2)%nat -> forall data size, segment data size ->
  (5 + 2 * Z.of_nat room) * Z.of_nat n <= size -> safe (fun l => length l = n) (read_progressions n room data).
Proof.
  intros Hr. induction n as [|n IH]; intros data size Hd Hn; cbn [read_progressions]; [done|].
  eapply (safe_bind (fun r => segment (snd r) (size - (5 + 2 * Z.of_nat room)))).
  - unfold read_progression. do 6 read_step. apply safe_if; [done|]. intros _. cbn [safe snd].
    by replace (size - (5 + 2 * Z.of_nat room)) with (size - Z.of_nat 1 - Z.of_nat room - Z.of_nat 2 - Z.of_nat 1 - Z.of_nat room - Z.of_nat 1) by lia.
  - intros [prog d'] Hd'. eapply safe_bind; [apply (IH _ _ Hd'); lia|]. intros l Hl. cbn. by f_equal.
Qed.
Lemma store_progressions_safe new : forall i l, (i + length new <= length l)%nat ->
  safe (fun l' => length l' = length l) (store_progressions i new l).
Proof.
  induction new as [|x new IH]; intros i l Hi; cbn [store_progressions]; [done|]. cbn [length] in Hi.
  eapply safe_bind; [apply (set_at_safe (fun _ => True) i x l); [lia| |done]|].
  - by apply list.Forall_true.
  - intros l' (Hl & _). eapply safe_mono; [apply IH; lia|]. cbn. intros. lia.
Qed.
Lemma readPoc_safe p data size : tcp_ok p -> segment data size -> size < 65536 -> safe (keeps_comps p) (readPoc p data size (-1)).
Proof.
  intros Hp Hd Hlt. unfold readPoc. cbv zeta. pose proof (comp_room_range (numComps_ p)) as Hr. set (room := comp_room _) in *.
  assert (0 <= size) by (destruct Hd; lia). set (chunk := 5 + 2 * Z.of_nat room). set (num := size / chunk).
  assert (0 <= num /\ chunk * num <= size) as [Hn0 Hn] by (split; [apply Z.div_pos; lia|apply Z.mul_div_le; lia]).
  assert (num < 65536) by nia. apply safe_if; [done|]. intros [Hz%Z.eqb_neq _]%orb_false_iff.
  eapply safe_bind; [apply (read_progressions_safe _ room Hr _ size Hd); fold chunk; lia|]. intros new Hnew.
  rewrite Z.eqb_refl. pose proof (to_num p Hp). set (old := if hasPoc_ p then _ else _).
  assert (0 <= old <= 33) by (unfold old; case_match; rewrite ?(wrap_small 32) by (change (2 ^ 32) with 4294967296; lia); lia).
  rewrite !(wrap_small 32 (old + num)) by (change (2 ^ 32) with 4294967296; lia). apply safe_if; [done|]. intros Hmax%Z.ltb_ge.
  change (Z.of_nat GRK_MAXRLVLS) with 33 in Hmax. pose proof (to_pocs p Hp) as Hpo.
  eapply safe_bind; [apply store_progressions_safe; rewrite Hnew, Hpo; unfold GRK_MAXRLVLS; lia|]. intros l Hl.
  rewrite (wrap_small 32) by (change (2 ^ 32) with 4294967296; lia). split; [|done]. constructor; cbn; try apply Hp; [|lia]. etransitivity; [exact Hl|exact Hpo].
Qed.

(** ** Image and codestream parameters *)

Definition comp_ok (c : image_comp) : Prop := 1 <= prec c <= 16 /\ 1 <= dx c < 256 /\ 1 <= dy c < 256.
Record cp_ok (im : GrkImage) (cp : CodingParams) : Prop := {
  co_bounds : 0 <= x0 (bounds im) < x1 (bounds im) /\ 0 <= y0 (bounds im) < y1 (bounds im);
  co_tile : tx0_ (grid_ cp) <= x0 (bounds im) < tx0_ (grid_ cp) + t_width_ (grid_ cp) /\
            ty0_ (grid_ cp) <= y0 (bounds im) < ty0_ (grid_ cp) + t_height_ (grid_ cp);
  co_grid : 0 < t_grid_width_ cp /\ 0 < t_grid_height_ cp /\ t_grid_width_ cp * t_grid_height_ cp <= 65535;
  co_comps : Forall comp_ok (comps im);
}.
(** [R] is what holds of the state of the other readers. *)
Record header_ok {X} (R : X -> Prop) (h : header X) : Prop := {
  ho_tcp : tcp_ok (defaultTcp_ h);
  ho_numcomps : numcomps (headerImage_ h) = Z.of_nat (length (comps (headerImage_ h)));
  ho_same : numComps_ (defaultTcp_ h) = numcomps (headerImage_ h);
  ho_cp : cp_ok (headerImage_ h) (cp_ h);
  ho_ccap : length (ccap_ (cp_ h)) = 32%nat;
  ho_com : (length (comments_ (cp_ h)) <= GRK_NUM_COMMENTS_SUPPORTED)%nat;
  ho_rest : R (rest_ h);
}.

Lemma readCom_safe im cp data size : cp_ok im cp -> (length (comments_ cp) <= GRK_NUM_COMMENTS_SUPPORTED)%nat ->
  segment data size -> size < 65536 ->
  safe (fun cp' => cp_ok im cp' /\ ccap_ cp' = ccap_ cp /\ (length (comments_ cp') <= GRK_NUM_COMMENTS_SUPPORTED)%nat) (readCom cp data size).
Proof.
  intros Hcp Hc Hd Hlt. unfold readCom. apply safe_if; [done|]. intros Hsz%Z.ltb_ge. apply safe_if; [done|]. intros _.
  apply safe_if; [done|]. intros Hfull%Nat.eqb_neq. read_step. cbv zeta. rewrite u16_small by lia. destruct Hd0 as [_ E].
  rewrite (proj2 (Nat.ltb_ge _ _)) by lia. cbn [safe]. split; [constructor; apply Hcp|]. split; [done|]. cbn [comments_]. rewrite length_app. cbn [length]. lia.
Qed.

Lemma read_components_safe n : forall data size, segment data size -> 3 * Z.of_nat n <= size ->
  safe (fun l => length l = n /\ Forall comp_ok l) (read_components n data).
Proof.
  induction n as [|n IH]; intros data size Hd Hn; cbn [read_components]; [done|].
  eapply (safe_bind (fun r => comp_ok (fst r) /\ segment (snd r) (size - 3))).
  - unfold read_component. do 3 read_step. cbv zeta. apply safe_if; [done|]. intros [?%Z.eqb_neq ?%Z.eqb_neq]%orb_false_iff.
    apply safe_if; [done|]. intros Hp%Z.ltb_ge. change (256 ^ Z.of_nat 1) with 256 in *. unfold GRK_MAX_SUPPORTED_IMAGE_PRECISION in Hp.
    cbn [safe fst snd]. split; [|by replace (size - 3) with (size - Z.of_nat 1 - Z.of_nat 1 - Z.of_nat 1) by lia].
    assert (0 <= Z.land v 127 < 128). { change 127 with (Z.ones 7). rewrite Z.land_ones by lia. apply (Z.mod_pos_bound v (2 ^ 7)). lia. }
    rewrite u8_small in Hp by lia. unfold comp_ok. cbn -[wrap Z.land]. rewrite u8_small; lia.
  - intros [c d'] [Hc Hd']. cbn [fst snd] in *. eapply safe_bind; [apply (IH _ _ Hd'); lia|]. intros l [Hl Hf]. cbn. split; [by f_equal|by constructor].
Qed.
Lemma subsampleAndReduce_safe b reduce l : Forall comp_ok l ->
  safe (fun l' => length l' = length l /\ Forall comp_ok l') (subsampleAndReduce b reduce l).
Proof.
  induction l as [|c l IH]; intros Hf; cbn [subsampleAndReduce]; [done|]. apply list.Forall_cons in Hf as [Hc Hf].
  eapply (safe_bind comp_ok).
  - unfold reduce_component. cbv zeta. apply safe_if; [done|]. intros _. by apply safe_if.
  - intros c' Hc'. eapply safe_bind; [by apply IH|]. intros l' [Hl Hf']. cbn. split; [by f_equal|by constructor].
Qed.

Lemma new_style_ok : style_ok new_style.
Proof. constructor; cbn; try lia; try done. split; repeat constructor; lia. Qed.
Lemma new_quant_ok : quant_ok new_quant.
Proof. constructor; cbn; try lia; try done. repeat constructor; cbn; lia. Qed.

Lemma geometry_ok_spec b g : 0 <= tx0_ g < 2 ^ 32 -> 0 <= ty0_ g < 2 ^ 32 -> 0 <= t_width_ g < 2 ^ 32 -> 0 <= t_height_ g < 2 ^ 32 ->
  geometry_ok b g = true ->
  x0 b < x1 b /\ y0 b < y1 b /\ 0 < t_width_ g /\ 0 < t_height_ g /\
  tx0_ g <= x0 b < tx0_ g + t_width_ g /\ ty0_ g <= y0 b < ty0_ g + t_height_ g.
Proof.
  intros Hx Hy Hw Hh. unfold geometry_ok. rewrite !andb_true_iff, !negb_true_iff, !orb_false_iff, !Z.leb_gt, !Z.ltb_ge, !Z.eqb_neq.
  unfold satAdd, clip_to. intros ((((? & ?) & ?) & ?) & Hlast). revert Hlast. change (2 ^ 32) with 4294967296 in *. zcases; lia.
Qed.

Lemma grid_size_spec b g : 0 <= tx0_ g <= x0 b -> 0 <= ty0_ g <= y0 b -> x0 b < x1 b < 2 ^ 32 -> y0 b < y1 b < 2 ^ 32 ->
  0 < t_width_ g < 2 ^ 32 -> 0 < t_height_ g < 2 ^ 32 ->
  grid_size b g = (cdiv (x1 b - tx0_ g) (t_width_ g), cdiv (y1 b - ty0_ g) (t_height_ g)).
Proof.
  intros. unfold grid_size. rewrite !(wrap_small 32) by lia. by rewrite !ceildiv_cdiv by (change (2 ^ 63) with 9223372036854775808; change (2 ^ 32) with 4294967296 in *; lia).
Qed.
Lemma grid_ok_spec gw gh : 0 <= gw < 2 ^ 32 -> 0 <= gh < 2 ^ 32 -> grid_ok gw gh = true -> 0 < gw /\ 0 < gh /\ gw * gh <= 65535.
Proof.
  intros Hw Hh. unfold grid_ok. rewrite andb_true_iff, negb_true_iff, orb_false_iff, !Z.eqb_neq, Z.leb_le.
  rewrite wrap_small by (change (2 ^ 64) with (2 ^ 32 * 2 ^ 32); nia). unfold maxNumTilesJ2K. lia.
Qed.

Lemma SIZ_read_safe dec im cp p data size : segment data size -> size < 65536 ->
  length (progressionOrderChange_ p) = GRK_MAXRLVLS -> 0 <= numpocs_ p < 33 -> 0 <= mct_ p <= 1 -> -1 <= prg_ p < GRK_NUM_PROGRESSION_ORDERS ->
  safe (fun r => let '(im', cp', p') := r in tcp_ok p' /\ numcomps im' = Z.of_nat (length (comps im')) /\ numComps_ p' = numcomps im' /\
     cp_ok im' cp' /\ ccap_ cp' = ccap_ cp /\ comments_ cp' = comments_ cp) (SIZ_read dec im cp p data size).
Proof.
  intros Hd Hlt Hpo Hnum Hmct Hprg. unfold SIZ_read. apply safe_if; [done|]. intros _. apply safe_if; [done|]. intros Hsz%Z.ltb_ge. cbv zeta.
  rewrite !(wrap_small 32 (size - 36)) by (change (2 ^ 32) with 4294967296; lia). apply safe_if; [done|]. intros Hm%negb_false_iff%Z.eqb_eq.
  do 2 read_step. do 9 read_step. change (256 ^ Z.of_nat 4) with (2 ^ 32) in *. change (256 ^ Z.of_nat 2) with 65536 in *.
  repeat (apply safe_if; [done|intros ?]). rename H0 into Hz, H1 into Hmax, H2 into Hnum3, H3 into Hgeo.
  apply Z.ltb_ge in Hmax. apply negb_false_iff, Z.eqb_eq in Hnum3. apply negb_false_iff in Hgeo. apply Z.eqb_neq in Hz.
  unfold maxNumComponentsJ2K in Hmax. assert (size = 36 + 3 * v8) as Es.
  { rewrite u16_small in Hnum3 by (split; [apply Z.div_pos; lia|apply Z.div_lt_upper_bound; lia]). pose proof (Z.div_mod (size - 36) 3). lia. }
  eapply safe_bind; [apply (read_components_safe _ _ _ Hd9); lia|]. intros l [Hl Hf].
  apply geometry_ok_spec in Hgeo; [|done..]. cbn [x0 x1 y0 y1 Rect4 tx0_ ty0_ t_width_ t_height_] in Hgeo.
  rewrite grid_size_spec by (cbn; lia). cbn [x0 x1 y0 y1 Rect4 tx0_ ty0_ t_width_ t_height_].
  assert (forall a t, 0 <= a < 2 ^ 32 -> 0 < t -> 0 <= cdiv a t < 2 ^ 32) as Hcd.
  { intros a t Ha Ht. unfold cdiv. split; [apply Z.div_pos; lia|]. apply Z.div_lt_upper_bound; nia. }
  pose proof (Hcd (v0 - v6) v4 ltac:(lia) ltac:(lia)) as HW. pose proof (Hcd (v1 - v7) v5 ltac:(lia) ltac:(lia)) as HH.
  apply safe_if; [done|]. intros Hgrid%negb_false_iff. apply grid_ok_spec in Hgrid as (HW0 & HH0 & Hmul); [|done..].
  eapply safe_bind; [by apply subsampleAndReduce_safe|]. intros red [Hred Hfr]. cbn [safe].
  assert (forall a c : Z, 0 < a -> 0 < c -> a * c <= 65535 -> u16 a = a /\ u16 c = c) as Hu by (intros; rewrite !u16_small by nia; done).
  destruct (Hu _ _ HW0 HH0 Hmul) as [E1 E2].
  split; [|split; [cbn; lia|split; [done|split; [|done]]]].
  - constructor; cbn; try done; try lia; [by rewrite length_fmap; lia|]. apply list.Forall_fmap.
    refine (list.Forall_impl _ _ _ Hf _). intros c _. split; [exact new_style_ok|]. split; [exact new_quant_ok|cbn; lia].
  - constructor; cbn -[wrap]; rewrite ?E1, ?E2; (done || lia).
Qed.

(** ** The marker loop *)

Lemma popcount_range v : 0 <= grk_population_count v <= 32.
Proof.
  unfold grk_population_count. assert (forall l n, 0 <= n ->
    0 <= foldl (fun n i => n + Z.b2z (Z.testbit v i)) n l <= n + Z.of_nat (length l)) as H.
  { induction l as [|i l IH]; intros n Hn; cbn [foldl length]; [lia|].
    pose proof (IH (n + Z.b2z (Z.testbit v i))). destruct (Z.testbit v i); cbn [Z.b2z] in *; lia. }
  specialize (H (seqZ 0 32) 0 ltac:(lia)). rewrite length_seqZ in H. lia.
Qed.
Lemma read_ccap_safe n : forall i data size l, segment data size -> 2 * Z.of_nat n <= size -> (i + n <= length l)%nat ->
  safe (fun l' => length l' = length l) (read_ccap n i data l).
Proof.
  induction n as [|n IH]; intros i data size l Hd Hn Hl; cbn [read_ccap]; [done|]. read_step.
  eapply safe_bind; [apply (set_at_safe (fun _ => True) i _ l); [lia|by apply list.Forall_true|done]|]. intros l' (Hl' & _).
  eapply safe_mono; [apply (IH _ _ _ _ Hd0); lia|]. cbn. intros. lia.
Qed.

Lemma read_crg_safe l : forall data size, segment data size -> 4 * Z.of_nat (length l) <= size -> Forall comp_ok l ->
  safe (fun l' => length l' = length l /\ Forall comp_ok l') (read_crg data l).
Proof.
  induction l as [|c l IH]; intros data size Hd Hn Hf; cbn [read_crg]; [done|]. cbn [length] in Hn. apply list.Forall_cons in Hf as [Hc Hf].
  do 2 read_step. eapply safe_bind; [apply (IH _ _ Hd1); [lia|done]|]. intros l' [Hl' Hf']. cbn. split; [by f_equal|by constructor].
Qed.
Lemma read_cbd_safe l : forall data size, segment data size -> Z.of_nat (length l) <= size -> Forall comp_ok l ->
  safe (fun l' => length l' = length l /\ Forall comp_ok l') (read_cbd data l).
Proof.
  induction l as [|c l IH]; intros data size Hd Hn Hf; cbn [read_cbd]; [done|]. cbn [length] in Hn. apply list.Forall_cons in Hf as [Hc Hf].
  read_step. cbv zeta. apply safe_if; [done|]. intros Hp%Z.ltb_ge. unfold GRK_MAX_SUPPORTED_IMAGE_PRECISION in Hp.
  eapply safe_bind; [apply (IH _ _ Hd0); [lia|done]|]. intros l' [Hl' Hf']. cbn [safe length]. split; [by f_equal|]. constructor; [|done].
  assert (0 <= Z.land v 127 < 128). { change 127 with (Z.ones 7). rewrite Z.land_ones by lia. apply (Z.mod_pos_bound v (2 ^ 7)). lia. }
  rewrite u8_small in Hp by lia. destruct Hc as (_ & Hx & Hy). unfold comp_ok. cbn -[wrap Z.land]. rewrite u8_small; lia.
Qed.

Section loop.
Context {X : Type} (init_rest : X -> X) (R : X -> Prop).

(** What the loop asks of the reader of [id]; only that of PLM may leave its segment. *)
Class SafeHandler (id : Z) (f : handler X) : Prop := handler_safe :
  forall h data size, header_ok R h -> segment data size -> size < 65536 -> outcome (id = PLM) (header_ok R) (f h data size).

Lemma simple_handler id f : (forall h data size, header_ok R h -> segment data size -> size < 65536 -> safe (header_ok R) (f h data size)) -> SafeHandler id f.
Proof. intros Hf h data size Hh Hd Hs. eapply safe_outcome; [by apply Hf|done]. Qed.
Lemma add_marker_ok id pos len (h : header X) : header_ok R h -> header_ok R (add_marker id pos len h).
Proof. intros Hh. constructor; cbn; apply Hh. Qed.

Lemma with_image_ok (h : header X) l : header_ok R h -> length l = length (comps (headerImage_ h)) -> Forall comp_ok l ->
  header_ok R (with_image h (MkImage (bounds (headerImage_ h)) (numcomps (headerImage_ h)) l)).
Proof.
  intros Hh Hl Hf. pose proof (ho_numcomps R h Hh). constructor; cbn; try apply Hh; [congruence|]. constructor; cbn; (done || apply Hh).
Qed.

(** A second SIZ is refused. *)
Instance readSIZ_handler id dec : SafeHandler id (readSIZ init_rest dec).
Proof.
  apply simple_handler. intros h data size Hh Hd Hlt. unfold readSIZ, SIZ_read. pose proof (to_some _ (ho_tcp R h Hh)) as H0. rewrite (ho_same R h Hh) in H0.
  by rewrite (proj2 (Z.ltb_lt _ _)) by lia.
Qed.
Instance readCAP_handler id : SafeHandler id readCAP.
Proof.
  apply simple_handler. intros h data size Hh Hd Hlt. unfold readCAP. apply safe_if; [done|]. intros Hsz%Z.ltb_ge. read_step. cbv zeta.
  pose proof (popcount_range v). apply safe_if; [done|]. intros E%negb_false_iff%Z.eqb_eq.
  rewrite (wrap_small 32) in E by (change (2 ^ 32) with 4294967296; lia). pose proof (ho_ccap R h Hh) as Hcc.
  eapply safe_bind; [apply (read_ccap_safe _ _ _ _ _ Hd0); [lia|rewrite Hcc; lia]|]. intros l Hl. constructor; cbn; try apply Hh; [|congruence].
  constructor; cbn; apply Hh.
Qed.
Instance readCRG_handler id : SafeHandler id readCRG.
Proof.
  apply simple_handler. intros h data size Hh Hd Hlt. unfold readCRG. cbv zeta. apply safe_if; [done|]. intros E%negb_false_iff%Z.eqb_eq. pose proof (ho_numcomps R h Hh).
  eapply safe_bind; [apply (read_crg_safe _ _ _ Hd); [lia|apply Hh]|]. intros l [Hl Hf]. by apply with_image_ok.
Qed.
Instance readCBD_handler id : SafeHandler id readCBD.
Proof.
  apply simple_handler. intros h data size Hh Hd Hlt. unfold readCBD. cbv zeta. apply safe_if; [done|]. intros [E1%Z.ltb_ge E%negb_false_iff%Z.eqb_eq]%orb_false_iff.
  read_step. apply safe_if; [done|]. intros _. pose proof (ho_numcomps R h Hh).
  eapply safe_bind; [apply (read_cbd_safe _ _ _ Hd0); [lia|apply Hh]|]. intros l [Hl Hf]. by apply with_image_ok.
Qed.
Lemma on_tcp_safe f : (forall p data size, tcp_ok p -> segment data size -> size < 65536 -> safe (keeps_comps p) (f p data size)) ->
  forall id, SafeHandler id (on_tcp f).
Proof.
  intros Hf id. apply simple_handler. intros h data size Hh Hd Hlt. unfold on_tcp. eapply safe_bind; [apply Hf; (done || apply Hh)|]. intros p [Hp E].
  constructor; cbn; try apply Hh; [done|]. rewrite E. apply Hh.
Qed.
Lemma on_cp_safe id : SafeHandler id (on_cp readCom).
Proof.
  apply simple_handler. intros h data size Hh Hd Hlt. unfold on_cp. eapply safe_bind; [apply (readCom_safe (headerImage_ h)); (done || apply Hh)|].
  intros cp (Hcp & E & Hc). constructor; cbn; try apply Hh; [done| |done]. rewrite E. apply Hh.
Qed.

Context (others : Z -> handler X) (Hothers : forall id, id ∈ other_ids -> id <> SOT -> SafeHandler id (others id)).

Lemma processor_safe dec id f : processor init_rest others dec id = Some f -> id <> SOT -> SafeHandler id f.
Proof.
  intros Hp Hs. revert Hp. unfold processor. repeat (case_match; [intros [= <-]; try apply _|]); try done.
  - apply simple_handler. intros h data size Hh _ _. exact Hh.
  - apply on_tcp_safe, readCod_safe.
  - apply on_tcp_safe, readCoc_safe.
  - apply on_tcp_safe. intros p data size Hp Hd _. by apply readRgn_safe.
  - apply on_tcp_safe, readQcd_safe.
  - apply on_tcp_safe, readQcc_safe.
  - apply on_tcp_safe, readPoc_safe.
  - apply on_cp_safe.
  - apply Hothers; [|done]. by apply bool_decide_eq_true in H11.
Qed.

(** The same for the header: the loop ends, and only the reader of PLM leaves its segment. *)
Definition header_safe {A} (P : A -> Prop) (r : result header_error A) : Prop :=
  match r with
  | Ok a => P a
  | Err Stopped => True
  | Err (Failed id e) => e = OutOfBounds -> id = PLM
  | Err OutOfFuel => False
  end.
Lemma header_safe_bind {A B} (P : A -> Prop) (Q : B -> Prop) (m : result header_error A) (k : A -> result header_error B) :
  header_safe P m -> (forall a, P a -> header_safe Q (k a)) -> header_safe Q (rbind m k).
Proof. destruct m; cbn; auto. Qed.

(** Input of at most [n] bytes. *)
Definition input_ok (n : nat) (s : input) : Prop := Forall byte (snd s) /\ (length (snd s) <= n)%nat.
Lemma readShort_ok n s v s' : input_ok n s -> readShort s = Some (v, s') -> 0 <= v < 65536 /\ (1 < n)%nat /\ input_ok (n - 2) s'.
Proof.
  destruct s as [pos [|a [|b data]]]; try done. intros [Hb Hl] [= <- <-]. cbn [snd length] in *.
  apply list.Forall_cons in Hb as [Ha Hb]. apply list.Forall_cons in Hb as [Hb Hd]. unfold byte in *. repeat split; cbn; (done || lia).
Qed.

Lemma readUNK_ok dec : forall data n u sz pos h id s h', input_ok n (pos, data) -> header_ok R h ->
  readUNK init_rest others dec u sz pos data h = Some (id, s, h') -> input_ok n s /\ header_ok R h'.
Proof.
  assert (forall m data, (length data <= m)%nat -> forall n u sz pos h id s h', input_ok n (pos, data) -> header_ok R h ->
    readUNK init_rest others dec u sz pos data h = Some (id, s, h') -> input_ok n s /\ header_ok R h') as Hm; [|eauto].
  induction m as [|m IH]; intros [|a [|b data]] Hlen n u sz pos h id s h' [Hb Hl] Hh; cbn [readUNK length] in *; try done; [lia|].
  cbn [snd length] in *. apply list.Forall_cons in Hb as [_ Hb]. apply list.Forall_cons in Hb as [_ Hb].
  assert (forall p, input_ok n (p, data)) as Hi by (intros p; split; cbn; (done || lia)).
  case_match; [intros E; refine (IH data _ _ _ _ _ _ _ _ _ (Hi _) Hh E); lia|].
  case_match; [intros [= <- <- <-]; split; [apply Hi|by apply add_marker_ok]|].
  intros E. refine (IH data _ _ _ _ _ _ _ _ _ (Hi _) _ E); [lia|by apply add_marker_ok].
Qed.

Lemma scratch_process_safe id (f : handler X) h size n s :
  (forall data, segment data size -> outcome (id = PLM) (header_ok R) (f h data size)) -> 0 <= size -> input_ok n s ->
  header_safe (fun r => header_ok R (fst r) /\ input_ok n (snd r)) (scratch_process id f h size s).
Proof.
  intros Hf H0 [Hb Hl]. destruct s as [pos data]. cbn [snd] in *. unfold scratch_process. destruct (Nat.ltb_spec (length data) (Z.to_nat size)); [done|].
  assert (segment (take (Z.to_nat size) data) size) as Hs by (split; [by apply list.Forall_take|rewrite length_take; lia]).
  specialize (Hf _ Hs). destruct (f h _ size) as [h'|e]; cbn in *; [|done]. split; [done|]. split; cbn; [by apply list.Forall_drop|]. rewrite length_drop. lia.
Qed.

(** The segment of a marker, and the markers after it. *)
Lemma after_marker_safe fuel dec p id n s f h : 
  (forall data size, segment data size -> size < 65536 -> outcome (id = PLM) (header_ok R) (p h data size)) ->
  (forall next n' s' h', (n' < n)%nat -> input_ok n' s' -> header_ok R h' ->
     header_safe (fun r => header_ok R (fst (fst r))) (read_markers init_rest others fuel dec next s' (see id f) h')) ->
  input_ok n s ->
  header_safe (fun r => header_ok R (fst (fst r)))
    (match readShort s with
     | Some (len, s) =>
         if len =? 2 then Err Stopped
         else
           let body := u16 (len - 2) in
           let* (h, s) := scratch_process id p h body s in
           let seg := u16 (4 + body) in
           let h := add_marker id (u64 (fst s - seg)) seg h in
           match readShort s with
           | None => Err Stopped
           | Some (next, s) => if negb (id_valid next) then Err Stopped else read_markers init_rest others fuel dec next s (see id f) h
           end
     | None => Err Stopped
     end).
Proof.
  intros Hp Hrec Hi. destruct (readShort s) as [[len s1]|] eqn:E; [|done]. destruct (readShort_ok _ _ _ _ Hi E) as (Hlen & Hn & Hi1).
  destruct (len =? 2); [done|]. cbv zeta. pose proof (wrap_range 16 (len - 2) ltac:(lia)) as Hw. change (2 ^ 16) with 65536 in Hw.
  eapply header_safe_bind; [apply (scratch_process_safe _ _ _ _ (n - 2)); [|lia|done]|].
  - intros data Hd. apply Hp; [done|lia].
  - intros [h2 s2] [Hh2 Hi2]. cbn [fst snd] in *. destruct (readShort s2) as [[next s3]|] eqn:E3; [|done].
    destruct (readShort_ok _ _ _ _ Hi2 E3) as (_ & _ & Hi3). destruct (negb (id_valid next)); [done|].
    apply (Hrec _ (n - 2 - 2)%nat); [lia|done|by apply add_marker_ok].
Qed.

Lemma read_markers_safe dec : forall fuel n id s f h, (n < fuel)%nat -> input_ok n s -> header_ok R h ->
  header_safe (fun r => header_ok R (fst (fst r))) (read_markers init_rest others fuel dec id s f h).
Proof.
  induction fuel as [|fuel IH]; intros n id s f h Hn Hi Hh; [lia|]. cbn [read_markers]. destruct (id =? SOT); [done|].
  destruct (match processor init_rest others dec id with Some _ => _ | None => _ end) as [[[id' s'] h']|] eqn:E; [|done].
  assert (input_ok n s' /\ header_ok R h') as [Hi' Hh'].
  { destruct (processor init_rest others dec id); [by simplify_eq|]. destruct s. by apply (readUNK_ok _ _ _ _ _ _ _ _ _ _ Hi Hh E). }
  destruct (Z.eqb_spec id' SOT) as [|Hns]; [done|]. destruct (processor init_rest others dec id') as [p|] eqn:Ep; [|by destruct (readShort s') as [[]|]].
  apply (after_marker_safe _ _ _ _ n); [|intros; apply (IH n'); (done || lia)|done].
  intros data size Hd Hs. by apply (processor_safe dec id' p Ep Hns).
Qed.

Lemma first_marker_safe dec fuel n s f x pos : R (init_rest x) -> (n < fuel)%nat -> input_ok n s ->
  header_safe (fun r => header_ok R (fst (fst r))) (read_markers init_rest others (S fuel) dec SIZ s f (add_marker SOC pos 2 (new_header x))).
Proof.
  intros Hx Hn Hi. cbn [read_markers]. change (processor init_rest others dec SIZ) with (Some (@readSIZ X init_rest dec)). cbn -[read_markers readSIZ scratch_process add_marker readShort].
  apply (after_marker_safe _ _ _ _ n); [|intros; apply (read_markers_safe dec fuel n'); (done || lia)|done].
  intros data size Hd Hs. apply (safe_outcome _ (header_ok R)); [|done]. unfold readSIZ. eapply safe_bind; [apply SIZ_read_safe; cbn; (done || lia)|].
  intros [[im cp] p] (Hp & Hn2 & Hs2 & Hcp & Ecc & Eco). constructor; cbn; try done; [by rewrite Ecc|rewrite Eco; cbn; lia].
Qed.

(** The whole header, over readers of the other segments and a merge that are safe; [Q]
    holds of their state after the merge. *)
Lemma header_procedure_safe (Q : X -> Prop) (mergePpm : X -> read_result X) (tlm_complete : Z -> Z -> X -> read_result X) (dec : DecodingParams) (s : input) (x : X) :
  R (init_rest x) -> (forall x, R x -> safe Q (mergePpm x)) ->
  (forall start n x, 0 < n < 65536 -> Q x -> safe Q (tlm_complete start n x)) -> Forall byte (snd s) ->
  header_safe (fun r => header_ok Q (fst r)) (readHeaderProcedure init_rest others mergePpm tlm_complete dec s (new_header x)).
Proof.
  intros Hx Hmerge Htlm Hb. unfold readHeaderProcedure. cbv zeta. assert (input_ok (length (snd s)) s) as Hi by (by split).
  destruct (readShort s) as [[marker s1]|] eqn:E1; [|done]. destruct (readShort_ok _ _ _ _ Hi E1) as (_ & Hl1 & Hi1).
  destruct (negb (marker =? SOC)); [done|]. destruct (readShort s1) as [[id s2]|] eqn:E2; [|done].
  destruct (readShort_ok _ _ _ _ Hi1 E2) as (_ & _ & Hi2). destruct (Z.eqb_spec id SIZ) as [->|]; [|done]. cbn [negb].
  eapply header_safe_bind; [eapply (first_marker_safe _ _ (length (snd s) - 2 - 2)); [done|lia|done]|].
  intros [[h f] s3] Hh. cbn [fst] in Hh. destruct (negb _); [done|]. unfold finish_header.
  specialize (Hmerge _ (ho_rest R h Hh)). destruct (mergePpm (rest_ h)) as [x1|e]; [cbn [safe] in Hmerge|cbn in *; by subst].
  destruct (co_grid _ _ (ho_cp R h Hh)) as (Hw & Hhh & Hg).
  specialize (Htlm (u64 (fst s3 - 2)) (u16 (t_grid_width_ (cp_ h) * t_grid_height_ (cp_ h))) x1).
  rewrite (wrap_small 16) in Htlm |- * by (change (2 ^ 16) with 65536; nia). specialize (Htlm ltac:(nia) Hmerge). cbv zeta.
  destruct (tlm_complete _ _ x1) as [x2|e]; [|cbn in *; by subst]. cbn. constructor; cbn; (done || apply Hh).
Qed.
End loop.
