(* ===== verification/OtherMarkerSafety.v ===== *)
(** The other readers of the main header on any bytes, and with them the whole header: no
    read leaves its segment but that of PLM, no access leaves an array, and the loops end.
    For PPM also what the merged packet headers are. *)
From stdpp Require Import gmap.
From S2P Require Import Prelude Geometry PLMarker Markers MainHeader OtherMarkers MarkerSafety.

(** ** DFS *)

Lemma read_splits_safe n : forall i data size l, segment data size -> (i + n <= length l)%nat -> Z.of_nat (i + n) <= 4 * size ->
  safe (fun _ => True) (read_splits n i data l).
Proof.
  induction n as [|n IH]; intros i data size l Hd Hl Hs; cbn [read_splits]; [done|]. destruct Hd as [Hb E].
  assert (Nat.div i 4 < length data)%nat by (apply Nat.Div0.div_lt_upper_bound; lia).
  eapply safe_bind; [apply (get_at_safe byte); [lia|exact Hb]|]. intros b _.
  eapply safe_bind; [apply (set_at_safe (fun _ => True)); [lia|by apply list.Forall_true|done]|]. intros l' [Hl' _].
  apply (IH _ _ size); [by split|lia|lia].
Qed.
Lemma readDfs_safe m data size : segment data size -> size < 65536 -> safe (fun _ => True) (readDfs m data size).
Proof.
  intros Hd Hlt. unfold readDfs. apply safe_if; [done|]. intros Hs%Z.ltb_ge. unfold dfsFixedLen in *. do 2 read_step. cbv zeta.
  apply safe_if; [done|]. intros [_ Hn%Z.ltb_ge]%orb_false_iff. unfold GRK_MAX_DECOMP_LVLS in Hn.
  apply safe_if; [done|]. intros E%negb_false_iff%Z.eqb_eq. rewrite (wrap_small 16) in E by (change (2 ^ 16) with 65536; divlia).
  eapply safe_bind; [apply (read_splits_safe _ 0 _ _ _ Hd1)|done]; rewrite ?length_replicate; change (Z.to_nat GRK_MAX_DECOMP_LVLS) with 32%nat; [lia|].
  change (256 ^ Z.of_nat 1) with 256 in *. divlia.
Qed.

(** ** ATK *)

(** What a read of a value leaves. *)
Definition left_in {A} (size : Z) (r : A * list Z * Z) : Prop :=
  let '(_, data, rem) := r in segment data rem /\ 0 <= rem <= size.

Lemma segment_nonneg data size : segment data size -> 0 <= size.
Proof. intros [_ ->]. lia. Qed.

Lemma read_n_left {A} (f : Z -> A) n data size : segment data size -> Z.of_nat n <= size < 65536 ->
  safe (left_in size) (let* (v, data) := grk_read n data in Ok (f v, data, u16 (size - Z.of_nat n))).
Proof.
  intros Hd Hn. eapply safe_bind; [apply (grk_read_safe n data size Hd); lia|]. intros [v data'] [_ Hd']. cbn [fst snd] in *.
  cbn [safe left_in]. rewrite (wrap_small 16) by (change (2 ^ 16) with 65536; lia). split; [done|lia].
Qed.
Lemma readSignedValue_safe data size n : segment data size -> size < 65536 -> safe (left_in size) (readSignedValue data size n).
Proof. intros Hd Hlt. unfold readSignedValue. apply safe_if; [done|]. intros Hn%Z.ltb_ge. by apply (read_n_left (fun raw => _)). Qed.
Lemma readRealValue_safe data size n : segment data size -> size < 65536 -> safe (left_in size) (readRealValue data size n).
Proof.
  intros Hd Hlt. unfold readRealValue. apply safe_if; [done|]. intros Hn%Z.ltb_ge.
  destruct (Nat.eqb_spec n 4) as [->|]; [by apply (read_n_left Single)|]. destruct (Nat.eqb_spec n 8) as [->|]; [by apply (read_n_left Double)|].
  eapply safe_bind; [by apply readSignedValue_safe|]. intros [[v d] r] H. exact H.
Qed.
Lemma read_byte_safe data size : segment data size -> size < 65536 ->
  safe (fun r => left_in size r /\ 0 <= fst (fst r) < 256) (read_byte data size).
Proof.
  intros Hd Hlt. unfold read_byte. apply safe_if; [done|]. intros Hn%Z.ltb_ge. read_step. cbn [safe left_in fst].
  rewrite (wrap_small 16) by (change (2 ^ 16) with 65536; lia). change (256 ^ Z.of_nat 1) with 256 in *. split; [split; [done|lia]|done].
Qed.

(** The next value of a kernel. *)
Ltac value_step L :=
  eapply safe_bind; [eapply L; [eassumption|lia]|];
  let v := fresh "v" in let d := fresh "data" in let r := fresh "left" in
  let Hd := fresh "Hd" in let Hr := fresh "Hr" in intros [[v d] r] [Hd Hr]; cbn [fst snd] in Hd, Hr.

Lemma read_coefficients_safe n rev bytes : forall data size, segment data size -> size < 65536 ->
  safe (left_in size) (read_coefficients n rev bytes data size).
Proof.
  induction n as [|n IH]; intros data size Hd Hlt; cbn [read_coefficients].
  - cbn. split; [done|]. apply segment_nonneg in Hd. lia.
  - eapply (safe_bind (left_in size)).
    + unfold read_coefficient. destruct rev; [|by apply readRealValue_safe]. value_step readSignedValue_safe. done.
    + intros [[c d] r] [Hd' Hr]. eapply safe_bind; [apply (IH d r Hd'); lia|]. intros [[l d2] r2] [Hd2 Hr2]. cbn. split; [done|lia].
Qed.
Lemma read_lifting_step_safe rev sym parity bytes i data size : segment data size -> size < 65536 ->
  safe (left_in size) (read_lifting_step rev sym parity bytes i data size).
Proof.
  intros Hd Hlt. pose proof (segment_nonneg _ _ Hd). unfold read_lifting_step. eapply (safe_bind (left_in size)).
  { destruct sym; cbn [negb]; [cbn; split; [done|lia]|]. value_step readSignedValue_safe. done. }
  intros [[off d1] r1] [Hd1 Hr1]. eapply (safe_bind (fun x => segment (snd (fst x)) (snd x) /\ 0 <= snd x <= size)).
  { destruct rev; [|cbn; split; [done|lia]]. eapply safe_bind; [apply read_byte_safe; [exact Hd1|lia]|].
    intros [[b d2] r2] [[Hd2 Hr2] _]. eapply safe_bind; [apply readSignedValue_safe; [exact Hd2|lia]|].
    intros [[v d3] r3] [Hd3 Hr3]. cbn. split; [done|lia]. }
  intros [[[sh rd] d3] r3] [Hd3 Hr3]. cbn [fst snd] in *. eapply safe_bind; [apply read_byte_safe; [exact Hd3|lia]|].
  intros [[sg d4] r4] [[Hd4 Hr4] _]. eapply safe_bind; [apply read_coefficients_safe; [exact Hd4|lia]|].
  intros [[l d5] r5] [Hd5 Hr5]. destruct sym; cbn; (split; [done|lia]).
Qed.
Lemma read_lifting_steps_safe n rev sym parity bytes : forall i data size, segment data size -> size < 65536 ->
  safe (left_in size) (read_lifting_steps n rev sym parity bytes i data size).
Proof.
  induction n as [|n IH]; intros i data size Hd Hlt; cbn [read_lifting_steps].
  - cbn. split; [done|]. apply segment_nonneg in Hd. lia.
  - eapply safe_bind; [apply read_lifting_step_safe; [exact Hd|lia]|]. intros [[x d] r] [Hd' Hr].
    eapply safe_bind; [apply (IH _ d r Hd'); lia|]. intros [[l d2] r2] [Hd2 Hr2]. cbn. split; [done|lia].
Qed.
Lemma readAtk_safe m data size : segment data size -> size < 65536 -> safe (fun _ => True) (readAtk m data size).
Proof.
  intros Hd Hlt. unfold readAtk. apply safe_if; [done|]. intros Hs%Z.ltb_ge. unfold atkFixedLen in *. read_step. cbv zeta.
  apply safe_if; [done|]. intros _. apply safe_if; [done|]. intros _. change (Z.of_nat 2) with 2 in Hd0. rewrite (wrap_small 16) by (change (2 ^ 16) with 65536; lia).
  eapply (safe_bind (left_in (size - 2))).
  { case_match; [apply readRealValue_safe; (done || lia)|]. cbn. split; [done|lia]. }
  intros [[sc d1] r1] [Hd1 Hr1]. eapply safe_bind; [apply read_byte_safe; [exact Hd1|lia]|]. intros [[n d2] r2] [[Hd2 Hr2] _].
  eapply safe_bind; [apply read_lifting_steps_safe; [exact Hd2|lia]|]. intros [[l d3] r3] _. apply safe_if; done.
Qed.

(** ** TLM *)

Definition tlm_ok (m : TLMMarker) : Prop :=
  0 <= numSignalledTiles_ m /\ length (tilePartsPerTile_ m) = Z.to_nat (numSignalledTiles_ m) /\ 0 <= tileCount_ m.

Lemma TLM_new_ok n : 0 <= n -> tlm_ok (TLM_new n).
Proof. intros. unfold tlm_ok. cbn. rewrite length_replicate. lia. Qed.
Lemma TLM_with_valid_ok v m : tlm_ok m -> tlm_ok (TLM_with_valid v m).
Proof. done. Qed.
#[local] Hint Resolve TLM_new_ok TLM_with_valid_ok : core.

Lemma TLM_add_safe i len m : tlm_ok m -> 0 <= i < numSignalledTiles_ m ->
  safe (fun m' => tlm_ok m' /\ numSignalledTiles_ m' = numSignalledTiles_ m) (TLM_add i len m).
Proof.
  intros (H0 & Hl & Hc) Hi. unfold TLM_add. eapply safe_bind; [apply (get_at_safe (fun _ => True)); [lia|by apply list.Forall_true]|]. intros o _. cbv zeta.
  eapply safe_bind; [apply (set_at_safe (fun _ => True)); [lia|by apply list.Forall_true|done]|]. intros l (El & _). cbn [safe].
  split; [|done]. unfold tlm_ok. cbn. rewrite El. done.
Qed.
Lemma TLM_entry_safe t p m : 0 <= t -> tlm_ok m -> safe tlm_ok (TLM_entry t p m).
Proof.
  intros Ht Hm. unfold TLM_entry. cbv zeta. set (m1 := if (p <? 14) && tlm_valid_ m then _ else m).
  assert (tlm_ok m1) as H1 by (unfold m1; case_match; auto). clearbody m1. clear m Hm.
  set (i := if hasTileIndices_ m1 then t else tileCount_ m1). assert (0 <= i) as Hi by (unfold i; case_match; [done|apply H1]).
  set (m2 := if hasTileIndices_ m1 then m1 else _). assert (tlm_ok m2) as H2.
  { unfold m2. case_match; [done|]. destruct H1 as (? & ? & ?). unfold tlm_ok. cbn. split; [done|]. split; [done|]. apply (wrap_range 16). lia. }
  clearbody m2 i. clear m1 H1. destruct (Z.leb_spec (numSignalledTiles_ m2) i).
  - cbn [tlm_valid_ TLM_with_valid]. auto.
  - case_match; [|done]. eapply safe_mono; [apply TLM_add_safe; (done || lia)|]. by intros m' [? _].
Qed.
Lemma TLM_entries_safe n k bytes : forall t data size m, 0 <= t -> segment data size -> Z.of_nat n * (Z.of_nat bytes + Z.of_nat k) <= size -> tlm_ok m ->
  safe tlm_ok (TLM_entries n k bytes t data m).
Proof.
  induction n as [|n IH]; intros t data size m Ht Hd Hn Hm; cbn [TLM_entries]; [done|].
  eapply (safe_bind (fun r => 0 <= fst r /\ segment (snd r) (size - Z.of_nat k))).
  { destruct (Nat.ltb_spec 0 k) as [Hk|Hk].
    - eapply safe_mono; [apply (grk_read_safe k data size Hd); nia|]. intros [v d] [Hv Hd']. cbn [fst snd] in *. split; [lia|done].
    - cbn [safe fst snd]. replace k with 0%nat by lia. rewrite Z.sub_0_r. done. }
  intros [t' d1] [Ht' Hd1]. cbn [fst snd] in *. eapply safe_bind; [apply (grk_read_safe bytes d1 _ Hd1); nia|].
  intros [p d2] [Hp Hd2]. cbn [fst snd] in *. eapply safe_bind; [by apply TLM_entry_safe|]. intros m' Hm'. apply (IH _ _ _ _ Ht' Hd2); [lia|done].
Qed.
Lemma TLM_read_safe m data size : tlm_ok m -> segment data size -> size < 65536 -> safe tlm_ok (TLM_read m data size).
Proof.
  intros Hm Hd Hlt. unfold TLM_read. apply safe_if; [done|]. intros Hs%Z.ltb_ge. unfold tlm_marker_start_bytes in Hs. read_step. cbv zeta.
  destruct (if tlm_valid_ m then _ else _) as [ok mgr]. set (m1 := MkTLM mgr _ _ _ _ _ _). assert (tlm_ok m1) as H1 by exact Hm. clearbody m1. clear m Hm.
  read_step. change (Z.of_nat 1) with 1 in *. rewrite !(wrap_small 16) by (change (2 ^ 16) with 65536; rewrite ?(wrap_small 16) by (change (2 ^ 16) with 65536; lia); lia).
  apply safe_if; [auto|]. intros _. apply safe_if; [auto|]. intros H3%Z.eqb_neq. set (k := Z.land (Z.shiftr v0 4) 3) in *.
  assert (0 <= k < 4) as Hk. { unfold k. change 3 with (Z.ones 2). rewrite Z.land_ones by lia. apply (Z.mod_pos_bound _ (2 ^ 2)). lia. }
  set (b := if negb _ then 4%nat else 2%nat). assert (b = 4%nat \/ b = 2%nat) as Hb by (unfold b; case_match; auto). clearbody b k.
  set (m2 := match tilePartLengths_ _ with [] => _ | _ => _ end). assert (tlm_ok m2) as H2 by (unfold m2; repeat case_match; auto). clearbody m2.
  apply safe_if; [done|]. intros Hm%negb_false_iff%Z.eqb_eq. apply (TLM_entries_safe _ _ _ _ _ _ _ ltac:(done) Hd1); [|done].
  rewrite !Z2Nat.id by (try apply Z.div_pos; lia). pose proof (Z.div_mod (size - 1 - 1) (Z.of_nat b + k) ltac:(lia)). lia.
Qed.
Lemma TLM_readComplete_ok start m : tlm_ok m -> tlm_ok (TLM_readComplete start m).
Proof. unfold tlm_ok. cbn. by rewrite length_fmap. Qed.
Lemma TLM_load_safe serialized n start : 0 <= n -> (forall l, serialized = Some l -> Forall (fun x => 0 <= fst x < n) l) ->
  safe tlm_ok (TLM_load serialized n start).
Proof.
  intros Hn Hser. unfold TLM_load. cbv zeta. destruct serialized as [l|]; [|cbn; auto]. specialize (Hser l eq_refl).
  assert (forall m, tlm_ok m -> numSignalledTiles_ m = n -> safe tlm_ok (TLM_add_all l m)) as Hall.
  { induction Hser as [|x l Hx Hl IH]; intros m Hm En; cbn [TLM_add_all]; [done|]. eapply safe_bind; [apply TLM_add_safe; [done|lia]|].
    intros m' [Hm' En']. apply IH; [done|congruence]. }
  eapply safe_bind; [apply Hall; [auto|done]|]. intros m Hm. cbn. by apply TLM_with_valid_ok, TLM_readComplete_ok.
Qed.

(** ** PPM *)

Lemma be_bytes_be_value l : Forall byte l -> be_bytes (length l) (be_value l) = l.
Proof.
  induction l as [|b l IH] using rev_ind; [done|]. intros [Hl Hb]%list.Forall_app. apply list.Forall_cons in Hb as [Hb _]. unfold byte in Hb.
  rewrite length_app, be_value_app, Nat.add_comm. cbn [length Nat.add be_bytes].
  replace (Z.shiftr (256 * be_value l + b) 8) with (be_value l) by (rewrite Z.shiftr_div_pow2 by lia; change (2 ^ 8) with 256; divlia).
  replace (Z.land (256 * be_value l + b) 255) with b by (change 255 with (Z.ones 8); rewrite Z.land_ones by lia; change (2 ^ 8) with 256; divlia).
  by rewrite IH.
Qed.

(** A packet header as it is in the segments: its length and its bytes. *)
Definition packed (body : list Z) : list Z := be_bytes 4 (Z.of_nat (length body)) ++ body.
Fixpoint header_slots (start : Z) (bodies : list (list Z)) : list (Z * Z) :=
  match bodies with [] => [] | b :: bodies => (start, Z.of_nat (length b)) :: header_slots (start + Z.of_nat (length b)) bodies end.
Lemma header_slots_snoc l b : forall start, header_slots start (l ++ [b]) = header_slots start l ++ [(start + Z.of_nat (length (concat l)), Z.of_nat (length b))].
Proof.
  induction l as [|x l IH]; intros start; cbn [header_slots app concat length]; [by rewrite Z.add_0_r|].
  rewrite IH, length_app. by rewrite Nat2Z.inj_add, Z.add_assoc.
Qed.

(** After the bytes [s]: the headers [hs] announced, their total [T], the bytes [c] of them
    and the bytes [r] of the last header that are still to come. *)
Definition unpacked (s : list Z) (hs : list (Z * Z)) (T : Z) (c : list Z) (r : Z) : Prop :=
  T = Z.of_nat (length c) + r /\
  (r = 0 /\ (exists bodies, s = concat (packed <$> bodies) /\ hs = header_slots 0 bodies /\ c = concat bodies) \/
   0 < r /\ (exists bodies part, s = concat (packed <$> bodies) ++ be_bytes 4 (Z.of_nat (length part) + r) ++ part /\
     hs = header_slots 0 bodies ++ [(Z.of_nat (length (concat bodies)), Z.of_nat (length part) + r)] /\ c = concat bodies ++ part)).

Lemma unpacked_more s hs T c r d : unpacked s hs T c r -> Z.of_nat (length d) <= r -> unpacked (s ++ d) hs T (c ++ d) (r - Z.of_nat (length d)).
Proof.
  intros [HT H] Hd. split; [rewrite length_app; lia|]. destruct H as [[-> H]|[Hr (bodies & part & -> & -> & ->)]].
  - destruct d; [|cbn in Hd; lia]. left. rewrite !app_nil_r. done.
  - destruct (Z.eq_dec (Z.of_nat (length d)) r) as [<-|Hne]; [left; split; [lia|]; exists (bodies ++ [part ++ d])|right; split; [lia|]; exists bodies, (part ++ d)].
    + rewrite fmap_app, !concat_app, header_slots_snoc. cbn [fmap list_fmap concat]. unfold packed at 3. rewrite !length_app, !Nat2Z.inj_add, !app_nil_r, <- !app_assoc. done.
    + rewrite !length_app, !Nat2Z.inj_add, <- !app_assoc. replace (Z.of_nat (length part) + Z.of_nat (length d) + (r - Z.of_nat (length d))) with (Z.of_nat (length part) + r) by lia. done.
Qed.
Lemma unpacked_next s hs T c N d : unpacked s hs T c 0 -> Z.of_nat (length d) <= N ->
  unpacked (s ++ be_bytes 4 N ++ d) (hs ++ [(T, N)]) (T + N) (c ++ d) (N - Z.of_nat (length d)).
Proof.
  intros [HT [[_ (bodies & -> & -> & ->)]|[? _]]] Hd; [|lia]. split; [rewrite length_app; lia|].
  destruct (Z.eq_dec (Z.of_nat (length d)) N) as [<-|Hne]; [left; split; [lia|]; exists (bodies ++ [d])|right; split; [lia|]; exists bodies, d].
  - rewrite fmap_app, !concat_app, header_slots_snoc. cbn [fmap list_fmap concat]. rewrite !app_nil_r. replace T with (0 + Z.of_nat (length (concat bodies))) by lia. done.
  - replace (Z.of_nat (length d) + (N - Z.of_nat (length d))) with N by lia. replace T with (Z.of_nat (length (concat bodies))) by lia. done.
Qed.

Lemma copy_bytes_at n c data rest : (n <= length data)%nat -> (n <= length rest)%nat ->
  copy_bytes n (Z.of_nat (length c)) data (c ++ rest) = Ok ((c ++ take n data) ++ drop n rest).
Proof.
  intros Hd Hr. unfold copy_bytes. rewrite (proj2 (Nat.ltb_ge _ _)) by lia. rewrite length_app. rewrite (proj2 (Z.ltb_ge _ _)) by lia. cbn [orb].
  rewrite Nat2Z.id, take_app_length, (drop_app_ge c) by lia. replace (length c + n - length c)%nat with n by lia. by rewrite app_assoc.
Qed.

(** The first pass only refuses, and never wraps around. *)
Lemma measure_segment_safe fuel : forall data T hs, (length data <= fuel)%nat -> (0 < length data)%nat -> Forall byte data -> 0 <= T ->
  T + 2 ^ 32 * Z.of_nat (length data) <= 2 ^ 60 ->
  safe (fun x => 0 <= fst (fst x) /\ T <= snd (fst x) <= T + 2 ^ 32 * Z.of_nat (length data)) (measure_segment fuel data T hs).
Proof.
  induction fuel as [|fuel IH]; intros data T hs Hf H0 Hb HT Hbound; [lia|]. cbn [measure_segment]. apply safe_if; [done|]. intros H4%Nat.ltb_ge.
  eapply safe_bind; [apply (grk_read_safe 4 data (Z.of_nat (length data))); [done|lia]|]. intros [N d] [HN [Hbd Hd]]. cbn [fst snd] in *. cbv zeta.
  change (256 ^ Z.of_nat 4) with (2 ^ 32) in HN. rewrite (wrap_small 64) by lia. apply safe_if.
  - intros HNd%Z.leb_le. destruct (drop (Z.to_nat N) d) as [|b d'] eqn:E; [cbn; lia|]. assert (length (drop (Z.to_nat N) d) = length (b :: d')) as El by (by rewrite E).
    rewrite length_drop in El. eapply safe_mono; [apply IH; [lia|cbn; lia|rewrite <- E; by apply list.Forall_drop|lia|lia]|]. intros [[r T'] hs'] H. cbn [fst snd] in *. lia.
  - intros HNd%Z.leb_gt. cbn. lia.
Qed.

(** What the first pass finds in a segment, the second copies. *)
Lemma segment_copied fuel : forall s data hs c r T hs', Forall byte data ->
  Z.of_nat (length c) + 2 ^ 32 * Z.of_nat (length data) <= 2 ^ 60 ->
  unpacked s hs (Z.of_nat (length c)) c 0 -> measure_segment fuel data (Z.of_nat (length c)) hs = Ok (r, T, hs') ->
  exists d, unpacked (s ++ data) hs' T (c ++ d) r /\ 0 <= r /\ T <= Z.of_nat (length c) + 2 ^ 32 * Z.of_nat (length data) /\
    forall rest, (length d <= length rest)%nat ->
      copy_segment fuel data (Z.of_nat (length c)) (c ++ rest) = Ok (r, Z.of_nat (length (c ++ d)), (c ++ d) ++ drop (length d) rest).
Proof.
  induction fuel as [|fuel IH]; intros s data hs c r T hs' Hb Hbound Hu; [done|]. cbn [measure_segment copy_segment].
  destruct (Nat.ltb_spec (length data) 4) as [|H4]; [done|]. unfold grk_read. rewrite (proj2 (Nat.leb_le _ _)) by lia. cbn [rbind]. cbv zeta.
  pose proof (be_value_range (take 4 data) ltac:(by apply list.Forall_take)) as HN. pose proof (be_bytes_be_value (take 4 data) ltac:(by apply list.Forall_take)) as E4.
  rewrite length_take, Nat.min_l in HN, E4 by lia. change (256 ^ Z.of_nat 4) with (2 ^ 32) in HN. set (N := be_value (take 4 data)) in *.
  set (e := drop 4 data). assert (length e = length data - 4)%nat as El by (unfold e; by rewrite length_drop).
  assert (forall x, s ++ be_bytes 4 N ++ x = (s ++ take 4 data) ++ x) as Es by (intros; by rewrite E4, app_assoc).
  assert (data = take 4 data ++ e) as Ed by (unfold e; by rewrite take_drop). rewrite (wrap_small 64) by lia.
  destruct (Z.leb_spec N (Z.of_nat (length e))) as [Hle|Hgt].
  - pose proof (unpacked_next s hs _ c N (take (Z.to_nat N) e) Hu) as Hu'. rewrite length_take, Nat.min_l, Z2Nat.id, Z.sub_diag, Es in Hu' by lia. specialize (Hu' ltac:(lia)).
    assert (Z.of_nat (length c) + N = Z.of_nat (length (c ++ take (Z.to_nat N) e))) as Ec by (rewrite length_app, length_take; lia). rewrite Ec in Hu' |- *.
    destruct (drop (Z.to_nat N) e) as [|b e'] eqn:Ee; intros Hm.
    + injection Hm as <- <- <-. exists (take (Z.to_nat N) e). split; [|split; [done|split; [lia|]]].
      * assert (take (Z.to_nat N) e = e) as Et by (rewrite <- (take_drop (Z.to_nat N) e) at 2; by rewrite Ee, app_nil_r). rewrite Ed, app_assoc, <- Et at 1. done.
      * intros rest Hr. rewrite length_take, Nat.min_l in * by lia. rewrite copy_bytes_at by lia. done.
    + pose proof (f_equal length Ee) as Elen. rewrite length_drop in Elen.
      destruct (IH (((s ++ take 4 data)) ++ take (Z.to_nat N) e) (b :: e') _ (c ++ take (Z.to_nat N) e) _ _ _ ltac:(rewrite <- Ee; by apply list.Forall_drop, list.Forall_drop) ltac:(lia) Hu' Hm) as (d & Hd & Hr0 & HT & Hcopy).
      exists (take (Z.to_nat N) e ++ d). rewrite (app_assoc c). split; [|split; [done|split; [lia|]]].
      * rewrite <- Ee, <- !app_assoc, take_drop, <- Ed in Hd. by rewrite <- app_assoc.
      * intros rest Hr. rewrite length_app, length_take, Nat.min_l in * by lia. rewrite copy_bytes_at by lia. cbn [rbind].
        rewrite Hcopy by (rewrite length_drop; lia). rewrite drop_drop. rewrite !length_app, length_take. repeat f_equal; lia.
  - intros [= <- <- <-]. exists e. pose proof (unpacked_next s hs _ c N e Hu ltac:(lia)) as Hu'. rewrite Es, <- app_assoc, <- Ed in Hu'.
    split; [done|]. split; [lia|]. split; [lia|]. intros rest Hr. rewrite copy_bytes_at by lia. cbn [rbind]. rewrite firstn_all. rewrite length_app, wrap_small by lia. by rewrite Nat2Z.inj_add.
Qed.

Definition segment_bytes (l : list (option (list Z))) : list Z := concat (default [] <$> l).
Definition slot_ok (o : option (list Z)) : Prop := forall data, o = Some data -> Forall byte data /\ Z.of_nat (length data) < 65536.
Definition segments_ok (l : list (option (list Z))) : Prop := (length l <= 256)%nat /\ Forall slot_ok l.

Lemma segment_bytes_cons data l : segment_bytes (Some data :: l) = data ++ segment_bytes l.
Proof. done. Qed.
Lemma segment_bytes_none l : segment_bytes (None :: l) = segment_bytes l.
Proof. done. Qed.
Lemma segment_bytes_length l : segments_ok l -> Z.of_nat (length (segment_bytes l)) <= 65536 * 256.
Proof.
  intros [Hl Hf]. assert (Z.of_nat (length (segment_bytes l)) <= 65536 * Z.of_nat (length l)); [|lia]. clear Hl.
  induction Hf as [|o l Ho Hf IH]; [done|]. destruct o as [data|]; [destruct (Ho data eq_refl); rewrite segment_bytes_cons, length_app|rewrite segment_bytes_none]; cbn [length]; lia.
Qed.

Lemma measure_all_safe l : forall r T hs, Forall slot_ok l -> 0 <= r -> 0 <= T ->
  T + 2 ^ 32 * Z.of_nat (length (segment_bytes l)) <= 2 ^ 60 -> safe (fun _ => True) (measure_all l r T hs).
Proof.
  induction l as [|[data|] l IH]; intros r T hs Hf Hr HT Hbound; cbn [measure_all]; [done| |]; apply list.Forall_cons in Hf as [Hd Hf]; [|by apply IH].
  rewrite segment_bytes_cons, length_app in Hbound.
  cbv zeta. apply safe_if; intros Hle%Z.leb_le || intros Hle%Z.leb_gt; [apply IH; (done || lia)|].
  eapply safe_bind; [apply measure_segment_safe; rewrite ?length_drop; try (by apply list.Forall_drop, (Hd data eq_refl)); lia|]. rewrite length_drop.
  intros [[r' T'] hs'] [Hr' HT']. cbn [fst snd] in *. apply IH; (done || lia).
Qed.

Lemma all_copied l : forall s hs c r T r' T' hs', Forall slot_ok l -> 0 <= r ->
  T + 2 ^ 32 * Z.of_nat (length (segment_bytes l)) <= 2 ^ 60 ->
  unpacked s hs T c r -> measure_all l r T hs = Ok (r', T', hs') ->
  exists d, unpacked (s ++ segment_bytes l) hs' T' (c ++ d) r' /\
    forall rest, (length d <= length rest)%nat -> copy_all l r (Z.of_nat (length c)) (c ++ rest) = Ok ((c ++ d) ++ drop (length d) rest).
Proof.
  induction l as [|[data|] l IH]; intros s hs c r T r' T' hs' Hf Hr Hbound Hu; cbn [measure_all copy_all]; cbv zeta.
  - intros [= <- <- <-]. exists []. unfold segment_bytes. cbn [fmap list_fmap concat]. rewrite !app_nil_r. by split; [|intros].
  - apply list.Forall_cons in Hf as [Hd Hf]. destruct (Hd data eq_refl) as [Hbd _]. rewrite segment_bytes_cons in Hbound |- *. rewrite length_app in Hbound.
    pose proof (proj1 Hu) as HT. destruct (Z.leb_spec (Z.of_nat (length data)) r) as [Hle|Hgt].
    + intros Hm. destruct (IH (s ++ data) hs (c ++ data) (r - Z.of_nat (length data)) T _ _ _ Hf ltac:(lia) ltac:(lia) (unpacked_more _ _ _ _ _ _ Hu Hle) Hm) as (d & Hd' & Hcopy).
      exists (data ++ d). rewrite !app_assoc. split; [done|]. intros rest Hrest. rewrite length_app in Hrest. rewrite copy_bytes_at by lia. cbn [rbind].
      rewrite firstn_all, wrap_small by lia. rewrite length_app in Hcopy. rewrite <- Nat2Z.inj_add, Hcopy by (rewrite length_drop; lia). rewrite drop_drop. by rewrite length_app.
    + set (d0 := take (Z.to_nat r) data). assert (Z.of_nat (length d0) = r) as E0 by (unfold d0; rewrite length_take; lia).
      pose proof (unpacked_more _ _ _ _ _ d0 Hu ltac:(lia)) as Hu0. rewrite E0, Z.sub_diag in Hu0.
      assert (T = Z.of_nat (length (c ++ d0))) as ET by (rewrite length_app; lia).
      destruct (measure_segment _ (drop (Z.to_nat r) data) T hs) as [[[r1 T1] hs1]|] eqn:Em; [|done]. cbn [rbind]. intros Hm.
      rewrite ET in Em, Hu0. destruct (segment_copied _ (s ++ d0) (drop (Z.to_nat r) data) hs (c ++ d0) _ _ _ ltac:(by apply list.Forall_drop) ltac:(rewrite length_drop; lia) Hu0 Em) as (d1 & Hu1 & Hr1 & HT1 & Hc1).
      rewrite length_drop in HT1.
      destruct (IH _ _ _ r1 T1 _ _ _ Hf Hr1 ltac:(lia) Hu1 Hm) as (d2 & Hu2 & Hc2).
      exists (d0 ++ d1 ++ d2). rewrite <- !app_assoc in Hu2. unfold d0 in Hu2 at 1. rewrite (app_assoc (take _ data)), take_drop in Hu2. split; [done|].
      intros rest Hrest. rewrite !length_app in Hrest. rewrite copy_bytes_at by lia. cbn [rbind]. fold d0. rewrite wrap_small by lia.
      replace (Z.of_nat (length c) + r) with (Z.of_nat (length (c ++ d0))) by lia.
      rewrite Hc1 by (rewrite length_drop; lia). cbn [rbind]. rewrite Hc2 by (rewrite !length_drop; lia). rewrite !drop_drop, !length_app, <- !app_assoc. repeat f_equal; lia.
  - apply list.Forall_cons in Hf as [_ Hf]. by apply IH.
Qed.

Definition ppm_ok (m : PPMMarker) : Prop := segments_ok (ppm_markers m) /\ packetHeaders m = [] /\ ppm_buffer m = [].

Lemma PPM_read_safe m data size : ppm_ok m -> segment data size -> size < 65536 -> safe ppm_ok (PPM_read m data size).
Proof.
  intros ([Hl Hf] & Hh) Hd Hlt. unfold PPM_read. apply safe_if; [done|]. intros Hs%Z.ltb_ge. read_step. cbv zeta. change (256 ^ Z.of_nat 1) with 256 in *.
  set (l := ppm_markers m ++ _). assert (length l <= 256)%nat as Hl2 by (unfold l; rewrite length_app, length_replicate; lia).
  assert (Z.to_nat v < length l)%nat by (unfold l; rewrite length_app, length_replicate; lia).
  assert (Forall slot_ok l) as Hf2.
  { unfold l. apply list.Forall_app. split; [done|]. by apply list.Forall_replicate. }
  clearbody l. eapply safe_bind; [apply (get_at_safe (fun _ => True)); [lia|by apply list.Forall_true]|]. intros [|] _; [done|].
  change (Z.of_nat 1) with 1 in *. rewrite (wrap_small 16) by (change (2 ^ 16) with 65536; lia). destruct Hd0 as [Hb E]. rewrite (proj2 (Nat.ltb_ge _ _)) by lia.
  eapply safe_bind; [apply (set_at_safe slot_ok); [lia|exact Hf2|]|].
  - intros d [= <-]. split; [by apply list.Forall_take|]. rewrite length_take. lia.
  - intros l' [El Hf']. split; [|done]. split; cbn [ppm_markers]; [lia|apply Hf'].
Qed.

(** What the merge makes of the segments. *)
Definition merged (l : list (option (list Z))) (m : PPMMarker) : Prop :=
  ppm_markers m = [] /\ exists bodies, segment_bytes l = concat (packed <$> bodies) /\ ppm_buffer m = concat bodies /\
    packetHeaders m = (fun x => (fst x, Z.of_nat (length (concat bodies)) - fst x)) <$> header_slots 0 bodies.

Lemma header_slots_range l : forall start, 0 <= start ->
  Forall (fun x => 0 <= fst x <= start + Z.of_nat (length (concat l))) (header_slots start l).
Proof.
  induction l as [|b l IH]; intros start Hs; cbn [header_slots concat]; [done|]. rewrite length_app. constructor; [cbn; lia|].
  eapply list.Forall_impl; [apply (IH (start + Z.of_nat (length b))); lia|]. cbn. intros. lia.
Qed.
Lemma PPM_merge_safe m : ppm_ok m -> safe (merged (ppm_markers m)) (PPM_merge m).
Proof.
  intros (Hs & Hh & Hbuf). destruct m as [l hs buf]. cbn [ppm_markers packetHeaders ppm_buffer] in *. subst hs buf. unfold PPM_merge. cbn [ppm_markers packetHeaders].
  destruct l as [|o l'] eqn:El; [split; [done|]; by exists []|]. rewrite <- El in *. clear o l' El. pose proof (segment_bytes_length _ Hs) as Hlen. destruct Hs as [_ Hf].
  pose proof (measure_all_safe l 0 0 [] Hf ltac:(lia) ltac:(lia) ltac:(lia)) as Hm. destruct (measure_all l 0 0 []) as [[[r T] hs]|e] eqn:Em; [|exact Hm]. cbn [rbind]. clear Hm.
  apply safe_if; [done|]. intros ->%negb_false_iff%Z.eqb_eq.
  assert (unpacked [] [] 0 [] 0) as H0 by (split; [done|]; left; split; [done|]; by exists []).
  destruct (all_copied l [] [] [] 0 0 _ _ _ Hf ltac:(lia) ltac:(lia) H0 Em) as (d & [HT [[_ (bodies & Es & Eh & Ec)]|[? _]]] & Hcopy); [|lia].
  cbn [app] in *. subst d. rewrite Z.add_0_r in HT. subst T hs. rewrite Nat2Z.id.
  specialize (Hcopy (replicate (length (concat bodies)) 0)). rewrite length_replicate in Hcopy. change (Z.of_nat (@length Z [])) with 0 in Hcopy. rewrite Hcopy by done. cbn [rbind safe]. split; [done|]. cbn [ppm_buffer packetHeaders].
  exists bodies. split; [done|]. split; [by rewrite drop_ge, app_nil_r by (by rewrite length_replicate)|].
  apply list.Forall_fmap_ext_1. refine (list.Forall_impl _ _ _ (header_slots_range bodies 0 ltac:(lia)) _). intros x Hx. f_equal. apply wrap_small. split; [lia|].
  assert (length (concat bodies) <= length (segment_bytes l))%nat; [|change (2 ^ 64) with 18446744073709551616; lia].
  rewrite Es. clear. induction bodies as [|b bodies IH]; [done|]. cbn [fmap list_fmap concat]. unfold packed at 1. rewrite !length_app. lia.
Qed.

(** ** Custom component transforms *)

(** The arrays of an MCC record are among [n] MCT records. *)
Definition mcc_ok (n : nat) (r : grk_mcc_data) : Prop :=
  (forall i, decorrelation_array_ r = Some i -> (i < n)%nat) /\ (forall i, offset_array_ r = Some i -> (i < n)%nat).
Record transforms_ok (t : transforms) : Prop := {
  tf_mct : (numMctRecords_ t <= length (mctRecords_ t))%nat;
  tf_types : Forall (fun m => 0 <= element_type_ m < 4) (mctRecords_ t);
  tf_mcc : (numMccRecords_ t <= length (mccRecords_ t))%nat;
  tf_arrays : Forall (mcc_ok (length (mctRecords_ t))) (mccRecords_ t);
}.

Lemma mcc_ok_mono n n' r : (n <= n')%nat -> mcc_ok n r -> mcc_ok n' r.
Proof. intros Hn [Hd Ho]. split; intros i E; [specialize (Hd i E)|specialize (Ho i E)]; lia. Qed.
Lemma find_record_safe {A} (index : A -> Z) v n : forall l, (n <= length l)%nat -> safe (fun i => (i <= n)%nat) (find_record index v n l).
Proof.
  induction n as [|n IH]; intros [|x l] Hn; cbn [find_record length] in *; [cbn; lia|cbn; lia|lia|]. apply safe_if; [cbn; lia|]. intros _.
  eapply safe_bind; [apply IH; lia|]. cbn. lia.
Qed.
Lemma with_room_length {A} (x : A) more n l : (0 < more)%nat -> (n <= length l)%nat -> (n < length (with_room x more n l))%nat.
Proof. intros Hm Hn. unfold with_room. destruct (Nat.eqb_spec n (length l)); [rewrite length_app, length_replicate|]; lia. Qed.
Lemma with_room_more {A} (x : A) more n l : (length l <= length (with_room x more n l))%nat.
Proof. unfold with_room. case_match; [rewrite length_app|]; lia. Qed.
Lemma with_room_Forall {A} (P : A -> Prop) x more n l : P x -> Forall P l -> Forall P (with_room x more n l).
Proof. intros Hx Hl. unfold with_room. case_match; [|done]. apply list.Forall_app. split; [done|by apply list.Forall_replicate]. Qed.

(** The place of a record, found or new. *)
Lemma record_room {A} (P : A -> Prop) x more (i n : nat) (l : list A) : (0 < more)%nat -> P x -> Forall P l -> (n <= length l)%nat -> (i <= n)%nat ->
  let l' := if (i =? n)%nat then with_room x more n l else l in
  (i < length l')%nat /\ Forall P l' /\ (length l <= length l')%nat /\ ((if i =? n then S n else n) <= length l')%nat.
Proof.
  intros Hm Hx Hl Hn Hi l'. subst l'. destruct (Nat.eqb_spec i n) as [->|Hne].
  - pose proof (with_room_length x more n l Hm Hn). pose proof (with_room_more x more n l). split; [lia|]. split; [by apply with_room_Forall|]. lia.
  - split; [lia|]. split; [done|]. lia.
Qed.

Lemma readMct_safe t data size : transforms_ok t -> segment data size -> size < 65536 -> safe transforms_ok (readMct t data size).
Proof.
  intros Ht Hd Hlt. unfold readMct. apply safe_if; [done|]. intros Hs%Z.leb_gt. read_step. apply safe_if; [done|]. intros _. read_step.
  eapply safe_bind; [apply find_record_safe, Ht|]. intros i Hi. cbv zeta.
  destruct (record_room (fun m => 0 <= element_type_ m < 4) new_mct default_number_mct_records i _ _ ltac:(unfold default_number_mct_records; lia) ltac:(cbn; lia) (tf_types t Ht) (tf_mct t Ht) Hi) as (Hil & Hf & Hn & Hnew).
  set (l := if (i =? _)%nat then with_room _ _ _ _ else _) in *. clearbody l.
  assert (0 <= Z.land (Z.shiftr v0 10) 3 < 4) as Hty. { change 3 with (Z.ones 2). rewrite Z.land_ones by lia. apply (Z.mod_pos_bound _ (2 ^ 2)). lia. }
  assert (forall (l' : list grk_mct_data) k, length l' = length l -> Forall (fun m => 0 <= element_type_ m < 4) l' ->
    (k <= length l)%nat -> transforms_ok (with_mct t l' k)) as Hkeep.
  { intros l' k El Hf' Hk. constructor; cbn; [lia|done|apply Ht|].
    refine (list.Forall_impl _ _ _ (tf_arrays t Ht) _). intros r. apply mcc_ok_mono. lia. }
  eapply safe_bind; [apply (set_at_safe (fun m => 0 <= element_type_ m < 4)); [done|exact Hf|exact Hty]|]. intros l1 (El1 & Hf1 & _).
  read_step. apply safe_if.
  - intros _. apply Hkeep; [done|done|]. pose proof (tf_mct t Ht). lia.
  - intros _. rewrite (wrap_small 16) by (change (2 ^ 16) with 65536; lia). destruct Hd2 as [Hb E]. rewrite (proj2 (Nat.ltb_ge _ _)) by lia.
    eapply safe_bind; [apply (set_at_safe (fun m => 0 <= element_type_ m < 4)); [lia|exact Hf1|exact Hty]|]. intros l2 (El2 & Hf2 & _).
    apply Hkeep; [lia|done|exact Hnew].
Qed.

Lemma check_indices_safe n room : forall j data size, segment data size -> Z.of_nat room * Z.of_nat n <= size ->
  safe (fun o => forall data', o = Some data' -> segment data' (size - Z.of_nat room * Z.of_nat n)) (check_indices n j room data).
Proof.
  induction n as [|n IH]; intros j data size Hd Hn; cbn [check_indices]; [cbn; intros d [= <-]; by rewrite Z.mul_0_r, Z.sub_0_r|].
  eapply safe_bind; [apply (grk_read_safe room data size Hd); nia|]. intros [v d] [_ Hd']. cbn [fst snd] in *. apply safe_if; [done|]. intros _.
  eapply safe_mono; [apply (IH _ _ _ Hd'); nia|]. intros o Ho d' E. specialize (Ho d' E). by replace (size - Z.of_nat room * Z.of_nat (S n)) with (size - Z.of_nat room - Z.of_nat room * Z.of_nat n) by lia.
Qed.
Lemma find_array_safe t v : transforms_ok t -> safe (fun o => forall i, o = Some i -> (i < length (mctRecords_ t))%nat) (find_array t v).
Proof.
  intros Ht. unfold find_array. apply safe_if; [done|]. intros _. eapply safe_bind; [apply find_record_safe, Ht|]. intros i Hi. cbv beta in Hi. pose proof (tf_mct t Ht).
  destruct (Nat.eqb_spec i (numMctRecords_ t)); [done|]. cbn. intros k [= <-]. lia.
Qed.

(** The number of components of a list, and the bytes of each index. *)
Lemma collection_room v : 0 <= v < 65536 -> 1 <= 1 + Z.shiftr v 15 <= 2 /\ 0 <= Z.land v 0x7fff < 32768.
Proof.
  intros Hv. rewrite Z.shiftr_div_pow2 by lia. change 0x7fff with (Z.ones 15). rewrite Z.land_ones by lia.
  change (2 ^ 15) with 32768. split; divlia.
Qed.
Lemma read_collection_safe t r data size : transforms_ok t -> segment data size -> size < 65536 -> mcc_ok (length (mctRecords_ t)) r ->
  safe (fun x => mcc_ok (length (mctRecords_ t)) (fst x)) (read_collection t r data size).
Proof.
  intros Ht Hd Hlt Hr. unfold read_collection. apply safe_if; [done|]. intros Hs%Z.ltb_ge. read_step. apply safe_if; [done|]. intros _. read_step. cbv zeta.
  change (256 ^ Z.of_nat 2) with 65536 in *. destruct (collection_room v0 Hv0) as [Hroom Hn]. set (room := 1 + Z.shiftr v0 15) in *. set (n := Z.land v0 0x7fff) in *.
  change (Z.of_nat 1) with 1 in *. change (Z.of_nat 2) with 2 in *.
  rewrite !(wrap_small 32 (room * n + 2)) by (change (2 ^ 32) with 4294967296; nia). rewrite (wrap_small 16 (size - 3)) by (change (2 ^ 16) with 65536; lia).
  apply safe_if; [done|]. intros H2%Z.ltb_ge. eapply safe_bind; [apply (check_indices_safe _ _ _ _ _ Hd1); rewrite !Z2Nat.id; lia|].
  intros [d2|] Hd2; [|exact Hr]. specialize (Hd2 d2 eq_refl). rewrite !Z2Nat.id in Hd2 by lia. read_step.
  change (256 ^ Z.of_nat 2) with 65536 in *. destruct (collection_room v1 Hv1) as [Hroom' _]. set (room' := 1 + Z.shiftr v1 15) in *. change (Z.of_nat 2) with 2 in *.
  apply safe_if; [intros _; exact Hr|]. intros _. rewrite !(wrap_small 32 (room' * n + 3)) by (change (2 ^ 32) with 4294967296; nia).
  rewrite (wrap_small 16 (size - 3 - _)) by (change (2 ^ 16) with 65536; lia). apply safe_if; [done|]. intros H3%Z.ltb_ge.
  eapply safe_bind; [apply (check_indices_safe _ _ _ _ _ Hd3); rewrite !Z2Nat.id; lia|].
  intros [d4|] Hd4; [|exact Hr]. specialize (Hd4 d4 eq_refl). rewrite !Z2Nat.id in Hd4 by lia.
  eapply safe_bind; [apply (grk_read_safe 3 d4 _ Hd4); lia|]. intros [v2 d5] _.
  eapply safe_bind; [by apply find_array_safe|]. intros deco Hdeco. eapply safe_bind; [by apply find_array_safe|]. intros off Hoff. done.
Qed.
Lemma readMcc_safe t data size : transforms_ok t -> segment data size -> size < 65536 -> safe transforms_ok (readMcc t data size).
Proof.
  intros Ht Hd Hlt. unfold readMcc. apply safe_if; [done|]. intros Hs%Z.ltb_ge. read_step. apply safe_if; [done|]. intros _. apply safe_if; [done|]. intros H7%Z.ltb_ge. read_step.
  eapply safe_bind; [apply find_record_safe, Ht|]. intros i Hi. cbv zeta.
  destruct (record_room (mcc_ok (length (mctRecords_ t))) new_mcc default_number_mcc_records i _ _ ltac:(unfold default_number_mcc_records; lia) ltac:(done) (tf_arrays t Ht) (tf_mcc t Ht) Hi) as (Hil & Hf & Hn & Hnew).
  set (l := if (i =? _)%nat then with_room _ _ _ _ else _) in *. clearbody l.
  eapply safe_bind; [apply (get_at_safe _ _ _ Hil Hf)|]. intros r0 Hr0. set (r := MkMcc v0 _ _ _ _). assert (mcc_ok (length (mctRecords_ t)) r) as Hr by exact Hr0. clearbody r.
  assert (forall r k, mcc_ok (length (mctRecords_ t)) r -> (k <= length l)%nat -> safe transforms_ok (let* l := set_at i r l in Ok (with_mcc t l k))) as Hstore.
  { intros r' k Hr' Hk. eapply safe_bind; [apply (set_at_safe (mcc_ok (length (mctRecords_ t)))); done|]. intros l' (El & Hf' & _).
    constructor; cbn; [apply Ht|apply Ht|lia|done]. }
  assert (numMccRecords_ t <= length l)%nat as Hkept by (pose proof (tf_mcc t Ht); lia).
  read_step. apply safe_if; [intros _; by apply Hstore|]. intros _. read_step. apply safe_if; [intros _; by apply Hstore|]. intros _.
  change (Z.of_nat 1) with 1 in *. change (Z.of_nat 2) with 2 in *. rewrite (wrap_small 16) by (change (2 ^ 16) with 65536; lia).
  eapply (safe_bind (fun x => mcc_ok (length (mctRecords_ t)) (fst x))).
  - apply safe_if; [|intros _; exact Hr]. intros _. apply read_collection_safe; [done| |lia|done]. by replace (size - 7) with (size - 2 - 1 - 2 - 2) by lia.
  - intros [r' [k|]] Hr'; [|by apply Hstore]. apply safe_if; [done|]. intros _. by apply Hstore.
Qed.

Section matrix.
Context (float_to_int32 double_to_int32 : Z -> Z).

Lemma element_size_range ty : 0 <= ty < 4 -> 0 < MCT_ELEMENT_SIZE ty <= 8.
Proof. intros Hty. assert (ty = 0 \/ ty = 1 \/ ty = 2 \/ ty = 3) as [->|[->|[->| ->]]] by lia; done. Qed.
Lemma offset_values_safe ty : 0 <= ty < 4 -> forall n data, Z.of_nat (length data) = MCT_ELEMENT_SIZE ty * Z.of_nat n ->
  safe (fun l => length l = n) (offset_values float_to_int32 double_to_int32 ty n data).
Proof.
  intros Hty. pose proof (element_size_range _ Hty) as H0.
  induction n as [|n IH]; intros data E; cbn [offset_values]; [done|]. cbv zeta. rewrite Nat2Z.inj_succ, Z.mul_succ_r in E.
  set (room := MCT_ELEMENT_SIZE ty) in *. assert (0 <= room * Z.of_nat n) by nia. clearbody room. rewrite (proj2 (Nat.ltb_ge _ _)) by lia.
  eapply safe_bind; [apply IH; rewrite length_drop; lia|]. cbn. lia.
Qed.
Lemma array_elements_safe t i num : transforms_ok t -> (i < length (mctRecords_ t))%nat -> 0 <= num <= 2 ^ 28 ->
  safe (fun r => 0 <= fst r < 4 /\ Z.of_nat (length (snd r)) = MCT_ELEMENT_SIZE (fst r) * num) (array_elements t i num).
Proof.
  intros Ht Hi Hnum. unfold array_elements. eapply safe_bind; [apply (get_at_safe _ _ _ Hi (tf_types t Ht))|]. intros a Hty. cbv beta in Hty. cbv zeta.
  apply safe_if; [done|]. intros E%negb_false_iff%Z.eqb_eq. cbn [safe fst snd]. split; [done|]. rewrite E. apply wrap_small. change (2 ^ 28) with 268435456 in Hnum. change (2 ^ 32) with 4294967296.
  pose proof (element_size_range _ Hty). nia.
Qed.

Lemma with_shifts_ok p l : tcp_ok p -> length l = length (tccps_ p) -> Forall tccp_ok l -> keeps_comps p (with_tccps p l).
Proof. intros Hp El Hl. split; [|done]. constructor; cbn; try apply Hp; [|done]. rewrite El. apply Hp. Qed.
Lemma zip_shifts_ok p vs : tcp_ok p -> length vs = Z.to_nat (numComps_ p) -> keeps_comps p (with_tccps p (zip_with with_dcLevelShift (tccps_ p) vs)).
Proof.
  intros Hp El. pose proof (to_comps p Hp). apply with_shifts_ok; [done|rewrite length_zip_with; lia|].
  eapply Forall_zip_with_fst; [exact (to_tccps p Hp)|]. apply (list.Forall_true). by intros v t Ht.
Qed.

Lemma addMct_safe p t index : tcp_ok p -> transforms_ok t ->
  safe (fun x => keeps_comps p (fst x) /\ transforms_ok (snd x)) (addMct float_to_int32 double_to_int32 p t index).
Proof.
  intros Hp Ht. pose proof (to_some p Hp) as Hn. unfold addMct. destruct (Nat.eqb_spec (numMccRecords_ t) 0) as [|Hm]; [done|]. pose proof (tf_mcc t Ht).
  eapply safe_bind; [apply (get_at_safe (mcc_ok (length (mctRecords_ t)))); [lia|apply Ht]|]. intros r [Hd Ho]. apply safe_if; [done|]. intros _. apply safe_if; [done|]. intros _.
  eapply (safe_bind (fun t' => transforms_ok t' /\ mctRecords_ t' = mctRecords_ t)).
  - destruct (decorrelation_array_ r) as [i|]; [|done]. eapply safe_bind; [apply array_elements_safe; [done|by apply Hd|change (2 ^ 28) with (16384 * 16384); nia]|].
    intros a _. split; [|done]. constructor; cbn; apply Ht.
  - intros t' [Ht' En]. destruct (offset_array_ r) as [i|]; [|done]. eapply safe_bind; [apply (array_elements_safe t' i); [done|rewrite En; by apply Ho|lia]|].
    intros [ty bytes] [Hty El]. cbn [fst snd] in *. eapply safe_bind; [apply (offset_values_safe ty Hty (Z.to_nat (numComps_ p))); rewrite Z2Nat.id; lia|].
    intros vs Hvs. cbn [safe fst snd]. split; [by apply zip_shifts_ok|done].
Qed.
Lemma readMco_safe p t data size : tcp_ok p -> transforms_ok t -> segment data size -> size < 65536 ->
  safe (fun x => keeps_comps p (fst x) /\ transforms_ok (snd x)) (readMco float_to_int32 double_to_int32 p t data size).
Proof.
  intros Hp Ht Hd Hlt. unfold readMco. apply safe_if; [done|]. intros Hs%Z.ltb_ge. read_step. apply safe_if; [done|]. intros _. apply safe_if; [done|]. intros E%negb_false_iff%Z.eqb_eq. cbv zeta.
  set (p' := with_tccps p _). assert (keeps_comps p p') as [Hp' En].
  { apply with_shifts_ok; [done|by rewrite length_fmap|]. apply list.Forall_fmap. exact (to_tccps p Hp). }
  assert (transforms_ok (with_matrix t None)) as Ht' by (constructor; cbn; apply Ht).
  destruct (Z.eqb_spec v 1) as [->|]; [|done]. read_step. eapply safe_mono; [by apply addMct_safe|]. intros [p2 t2] [[H2 E2] H3]. cbn [fst snd] in *. split; [|done]. split; [done|congruence].
Qed.
End matrix.

(** ** The whole header *)

(** The state of the other readers before and after the merge. *)
Definition rest_ok (x : rest_state) : Prop :=
  (forall m, tlmMarkers_ x = Some m -> tlm_ok m) /\ (forall m, ppmMarkers_ x = Some m -> ppm_ok m) /\ transforms_ok (transforms_ x).
Definition rest_done (x : rest_state) : Prop :=
  (forall m, tlmMarkers_ x = Some m -> tlm_ok m) /\ (forall m, ppmMarkers_ x = Some m -> exists l, merged l m) /\ transforms_ok (transforms_ x).

Lemma first_rest_ok : rest_ok (init_rest new_rest).
Proof. split; [done|]. split; [done|]. constructor; cbn; try lia; repeat constructor; done. Qed.
Lemma with_rest_ok (h : header rest_state) x : header_ok rest_ok h -> rest_ok x -> header_ok rest_ok (with_rest h x).
Proof. intros Hh Hx. constructor; cbn; (done || apply Hh). Qed.

#[export] Instance readDFS_safe id : SafeHandler rest_ok id readDFS_handler.
Proof.
  apply simple_handler. intros h data size Hh Hd Hlt. unfold readDFS_handler. cbv zeta. eapply safe_bind; [by apply readDfs_safe|]. intros m _.
  apply with_rest_ok; [done|]. exact (ho_rest _ _ Hh).
Qed.
#[export] Instance readATK_safe id : SafeHandler rest_ok id readATK_handler.
Proof.
  apply simple_handler. intros h data size Hh Hd Hlt. unfold readATK_handler. cbv zeta. eapply safe_bind; [by apply readAtk_safe|]. intros m _.
  apply with_rest_ok; [done|]. exact (ho_rest _ _ Hh).
Qed.
#[export] Instance readTLM_safe id disabled : SafeHandler rest_ok id (readTLM disabled).
Proof.
  apply simple_handler. intros h data size Hh Hd Hlt. destruct (ho_rest _ _ Hh) as (Ht & Hp & Hf). unfold readTLM. cbv zeta.
  eapply safe_bind; [apply TLM_read_safe; [|done|done]|].
  - destruct (tlmMarkers_ (rest_ h)) as [m|]; [by apply Ht|]. apply TLM_new_ok, wrap_range. lia.
  - intros m Hm. apply with_rest_ok; [done|]. split; [|done]. intros m' [= <-]. by destruct disabled.
Qed.
#[export] Instance readPLM_outcome : SafeHandler rest_ok PLM readPLM_handler.
Proof.
  intros h data size Hh Hd Hlt. unfold readPLM_handler. cbv zeta. case_match; [|done].
  apply with_rest_ok; [done|]. exact (ho_rest _ _ Hh).
Qed.
#[export] Instance readPPM_safe id : SafeHandler rest_ok id readPPM.
Proof.
  apply simple_handler. intros h data size Hh Hd Hlt. destruct (ho_rest _ _ Hh) as (Ht & Hp & Hf). unfold readPPM. cbv zeta.
  eapply safe_bind; [apply PPM_read_safe; [|done|done]|].
  - destruct (ppmMarkers_ (rest_ h)) as [m|]; [by apply Hp|]. repeat split; [cbn; lia|constructor].
  - intros m Hm. apply with_rest_ok; [done|]. split; [done|]. split; [|done]. by intros m' [= <-].
Qed.
Lemma on_transforms_safe f : (forall t data size, transforms_ok t -> segment data size -> size < 65536 -> safe transforms_ok (f t data size)) ->
  forall id, SafeHandler rest_ok id (on_transforms f).
Proof.
  intros Hs id. apply simple_handler. intros h data size Hh Hd Hlt. destruct (ho_rest _ _ Hh) as (Ht & Hp & Hf). unfold on_transforms.
  eapply safe_bind; [by apply Hs|]. intros t Hok. apply with_rest_ok; [done|]. by split.
Qed.
#[export] Instance readMCO_safe fi di id : SafeHandler rest_ok id (readMCO_handler fi di).
Proof.
  apply simple_handler. intros h data size Hh Hd Hlt. destruct (ho_rest _ _ Hh) as (Ht & Hp & Hf). unfold readMCO_handler.
  eapply safe_bind; [apply readMco_safe; (done || apply Hh)|]. intros [p t] [[Hp' En] Hok]. cbn [fst snd] in *. apply with_rest_ok; [|by split].
  constructor; cbn; try apply Hh; [done|]. rewrite En. apply Hh.
Qed.

Lemma other_readers_safe fi di disabled sot id : id ∈ other_ids -> id <> SOT -> SafeHandler rest_ok id (other_readers fi di disabled sot id).
Proof.
  intros Hid Hs. unfold other_readers. repeat (match goal with |- context [?a =? ?b] => destruct (Z.eqb_spec a b) as [E|] end; [try rewrite E; apply _ || idtac|]).
  - apply on_transforms_safe, readMct_safe.
  - apply on_transforms_safe, readMcc_safe.
  - exfalso. unfold other_ids in Hid. rewrite !elem_of_cons, elem_of_nil in Hid. tauto.
Qed.

Lemma mergePpm_safe x : rest_ok x -> safe rest_done (mergePpm x).
Proof.
  intros (Ht & Hp & Hf). unfold mergePpm. destruct (ppmMarkers_ x) as [m|] eqn:E.
  - eapply safe_bind; [apply PPM_merge_safe, Hp, eq_refl|]. intros m' Hm'. split; [done|]. split; [|done]. intros m2 [= <-]. by eexists.
  - split; [done|]. split; [|done]. intros m'. rewrite E. done.
Qed.
Lemma complete_tlm_safe start n x : 0 < n < 65536 -> rest_done x -> safe rest_done (complete_tlm None start n x).
Proof.
  intros Hn (Ht & Hp & Hf). unfold complete_tlm. eapply (safe_bind tlm_ok).
  - destruct (tlmMarkers_ x) as [m|]; [by apply TLM_readComplete_ok, Ht|]. by apply TLM_load_safe; [lia|].
  - intros m Hm. split; [|done]. by intros m' [= <-].
Qed.


Definition siz_segment : list Z :=
  be_bytes 2 SIZ ++ be_bytes 2 41 ++ be_bytes 2 0 ++ be_bytes 4 16 ++ be_bytes 4 16 ++ be_bytes 4 0 ++ be_bytes 4 0 ++
    be_bytes 4 16 ++ be_bytes 4 16 ++ be_bytes 4 0 ++ be_bytes 4 0 ++ be_bytes 2 1 ++ [7; 1; 1].
(** A header of one 8-bit component with two PPM segments, TLM, MCT, MCC and MCO: the first
    packet header of five bytes is split between the segments. *)
Definition full_header : list Z :=
  be_bytes 2 SOC ++
  siz_segment ++
  be_bytes 2 COD ++ be_bytes 2 12 ++ [0; 0; 0; 1; 0; 1; 4; 4; 0; 1] ++
  be_bytes 2 QCD ++ be_bytes 2 7 ++ [64; 72; 72; 72; 80] ++
  be_bytes 2 PPM ++ be_bytes 2 10 ++ [0] ++ be_bytes 4 5 ++ [1; 2; 3] ++
  be_bytes 2 PPM ++ be_bytes 2 9 ++ [1] ++ [4; 5] ++ be_bytes 4 0 ++
  be_bytes 2 TLM ++ be_bytes 2 10 ++ [0; 0x60] ++ be_bytes 2 0 ++ be_bytes 4 60 ++
  be_bytes 2 MCT ++ be_bytes 2 10 ++ be_bytes 2 0 ++ be_bytes 2 1 ++ be_bytes 2 0 ++ [3; 0] ++
  be_bytes 2 MCC ++ be_bytes 2 19 ++ be_bytes 2 0 ++ [1] ++ be_bytes 2 0 ++ be_bytes 2 1 ++
    [1] ++ be_bytes 2 1 ++ [0] ++ be_bytes 2 1 ++ [0] ++ be_bytes 3 0x000101 ++
  be_bytes 2 MCO ++ be_bytes 2 4 ++ [1; 1] ++
  be_bytes 2 SOT.
Definition read_full_header : result header_error (header rest_state * input) :=
  readHeaderProcedure init_rest (other_readers id id false (fun h _ _ => Ok h)) mergePpm (complete_tlm None) (MkDecoding 0 0) (0, full_header) (new_header new_rest).

(** C35: the merge of the PPM segments.  When it accepts the segments of a header (at most 256
    of fewer than 65536 bytes each), there are packet headers such that the segments, in the
    order of their indices and with the missing ones left out, are the headers each after its
    length in four bytes, however the segments cut the headers; the buffer holds the headers
    one after the other, and the start of each header in the buffer is recorded.  The length
    recorded with it is that of the rest of the buffer, not that of the header. *)
Theorem ppm_merge_contents (l : list (option (list Z))) (m : PPMMarker) :
  segments_ok l -> PPM_merge (MkPPM l [] []) = Ok m ->
  exists bodies, segment_bytes l = concat (packed <$> bodies) /\ ppm_buffer m = concat bodies /\
    packetHeaders m = (fun x => (fst x, Z.of_nat (length (concat bodies)) - fst x)) <$> header_slots 0 bodies.
Proof.
  intros Hl E. pose proof (PPM_merge_safe (MkPPM l [] [])) as H. rewrite E in H. cbn [ppm_markers safe] in H. by apply H.
Qed.
Definition two_segments : list (option (list Z)) :=
  [Some (be_bytes 4 5 ++ [1; 2; 3]); None; Some ([4; 5] ++ be_bytes 4 2 ++ [6; 7])].
Lemma ppm_merge_contents_witness :
  segments_ok two_segments /\
  exists bodies, segment_bytes two_segments = concat (packed <$> bodies) /\ [1; 2; 3; 4; 5; 6; 7] = concat bodies /\
    [(0, 7); (5, 2)] = (fun x => (fst x, Z.of_nat (length (concat bodies)) - fst x)) <$> header_slots 0 bodies.
Proof.
  assert (segments_ok two_segments) as Hs.
  { split; [cbn; lia|]. unfold two_segments. repeat constructor; intros; simplify_eq; try (vm_compute; congruence); repeat constructor; vm_compute; congruence. }
  split; [exact Hs|]. apply (ppm_merge_contents two_segments (MkPPM [] [(0, 7); (5, 2)] [1; 2; 3; 4; 5; 6; 7])); [exact Hs|vm_compute; reflexivity].
Defined.

(** ** What the readers of transforms and TLM leave out *)

(** An array whose Imct has its type bits set is never found by the 8-bit index of MCC. *)
Lemma typed_array_not_found t v : v <> 0 -> v < 256 -> (numMctRecords_ t <= length (mctRecords_ t))%nat ->
  Forall (fun m => 256 <= mct_index_ m) (mctRecords_ t) -> find_array t v = Err Refused.
Proof.
  intros H0 Hv Hn Hf. unfold find_array. rewrite (proj2 (Z.eqb_neq _ _) H0). cbv zeta.
  assert (find_record mct_index_ v (numMctRecords_ t) (mctRecords_ t) = Ok (numMctRecords_ t)) as ->; [|cbn [rbind]; by rewrite Nat.eqb_refl].
  revert Hn. generalize (numMctRecords_ t). induction Hf as [|m l Hm Hf IH]; intros [|n] Hn; cbn in *; try done; try lia.
  destruct (Z.eqb_spec (mct_index_ m) v); [lia|]. rewrite IH by lia. done.
Qed.
(** Only the first MCC record is looked at. *)
Lemma addMct_first_record fi di p t r l index : mccRecords_ t = r :: l -> mcc_index_ r <> index -> addMct fi di p t index = Ok (p, t).
Proof. intros E Hne. unfold addMct, get_at. rewrite E. case_match; [done|]. cbn. by rewrite (proj2 (Z.eqb_neq _ _) Hne). Qed.
(** A 16-bit offset of 3 shifts the level by 3 * 2^16. *)
Lemma int16_offset_shifted : offset_value id id 0 (be_bytes 2 3) = 3 * 2 ^ 16 /\ offset_value id id 1 (be_bytes 4 3) = 3.
Proof. by vm_compute. Qed.
(** An entry of the file of an earlier run for a tile that the codestream does not have. *)
Lemma tlm_file_unchecked n start len : 0 <= n -> TLM_load (Some [(n, len)]) n start = Err OutOfBounds.
Proof.
  intros Hn. unfold TLM_load, TLM_add_all, TLM_add. cbn [TLM_with_valid TLM_new tilePartsPerTile_ fst]. unfold get_at.
  by rewrite lookup_ge_None_2 by (rewrite length_replicate; lia).
Qed.
