(* ===== verification/MarkerQuant.v ===== *)
(** Quantisation markers: what a QCD or QCC segment says, and which of several segments
    decides for a component.

    A segment of a tile header outranks those of the main header, and in each a QCC outranks
    the QCD ([readSQcdSQcc], [readQcd]: the scoping rules). *)
From S2P Require Import Prelude Geometry PLMarker Markers MainHeader MarkerSafety.

(** ** What a segment says *)

(** The [n] numbers of [room] bytes at the head of [data]. *)
Fixpoint be_chunks (room n : nat) (data : list Z) : list Z :=
  match n with O => [] | S n => be_value (take room data) :: be_chunks room n (drop room data) end.

(** Quantisation style, guard bits and step sizes of the body of a segment. *)
Definition announced (data : list Z) : Z * Z * list grk_stepsize :=
  match data with
  | [] => (0, 0, [])
  | b :: rest =>
      let sty := Z.land b 0x1f in
      let vs := step_qnt <$> be_chunks 2 (length rest / 2) rest in
      (sty, Z.shiftr b 5,
       if sty =? CCP_QNTSTY_NOQNT then step_noqnt <$> be_chunks 1 (length rest) rest
       else if sty =? CCP_QNTSTY_SIQNT
            then match vs with [] => [] | s0 :: _ => s0 :: ((fun i => derived_step s0 (S i)) <$> seq 0 (GRK_MAXBANDS - 1)) end
            else vs)
  end.
Definition carries (q : quantization) (a : Z * Z * list grk_stepsize) : Prop :=
  let '(sty, guard, steps) := a in
  qntsty_ q = sty /\ numgbits_ q = guard /\
  forall i s, (i < GRK_MAXBANDS)%nat -> steps !! i = Some s -> stepsizes_ q !! i = Some s.

Definition flags (q : quantization) : bool * bool * bool := (quantizationMarkerSet_ q, fromQCC_ q, fromTileHeader_ q).

Lemma length_be_chunks room n data : length (be_chunks room n data) = n.
Proof. revert data. induction n; intros; cbn; by f_equal. Qed.

Lemma read_steps_ignored room step n : forall i data steps l, read_steps true room step n i data steps = Ok l -> l = steps.
Proof.
  induction n as [|n IH]; intros i data steps l; cbn [read_steps]; [by intros [= ->]|]. rewrite rbind_Ok. intros ([v d] & _ & E). exact (IH _ _ _ _ E).
Qed.
Lemma read_steps_set room step n : forall i data steps l, length steps = GRK_MAXBANDS ->
  read_steps false room step n i data steps = Ok l -> l = list_inserts i (step <$> be_chunks room n data) steps.
Proof.
  induction n as [|n IH]; intros i data steps l Hl; cbn [read_steps]; [by intros [= ->]|]. rewrite rbind_Ok. intros ([v d] & Er & E).
  unfold grk_read in Er. destruct (room <=? length data)%nat; [|done]. injection Er as <- <-. cbn [negb andb] in E.
  cbn [be_chunks fmap list_fmap list_inserts]. destruct (Nat.ltb_spec i GRK_MAXBANDS) as [Hi|Hi].
  - unfold set_at in E. rewrite (proj2 (Nat.ltb_lt _ _)) in E by lia. cbn [rbind] in E. apply IH in E; [|by rewrite length_insert].
    rewrite E. by rewrite list_insert_inserts_lt by lia.
  - cbn [rbind] in E. rewrite (IH _ _ _ _ Hl E). rewrite list_insert_ge; [done|]. rewrite length_inserts. lia.
Qed.
Lemma derive_steps_lookup l l' i s0 : derive_steps l = Ok l' -> l !! 0%nat = Some s0 -> (0 < i < length l)%nat ->
  l' !! 0%nat = Some s0 /\ l' !! i = Some (derived_step s0 i).
Proof.
  unfold derive_steps, get_at. intros E H0 Hi. rewrite H0 in E. cbn [rbind] in E. injection E as <-. split; [done|].
  destruct i as [|i]; [lia|]. rewrite lookup_cons, list_lookup_imap.
  destruct l as [|a l]; [done|]. cbn [length tail] in *. by destruct (lookup_lt_is_Some_2 l i ltac:(lia)) as [x ->].
Qed.

Lemma readSQcdSQcc_ignored ft fq q main data size q' main' left : scope_ignored ft fq q = true ->
  readSQcdSQcc ft fq q main data size = Ok (q', main', left) -> q' = q /\ main' = main.
Proof.
  intros Hi. unfold readSQcdSQcc. destruct (size <? 1); [done|]. rewrite rbind_Ok. intros ([v d] & _ & E). cbv zeta in E. rewrite Hi in E.
  destruct (_ <? _); [done|]. destruct (_ <? _); [done|]. apply rbind_Ok in E as (steps & Es & E). apply read_steps_ignored in Es as ->.
  cbn in E. destruct q. by simplify_eq.
Qed.

Lemma grk_read_1 b data : grk_read 1 (b :: data) = Ok (b, data).
Proof. unfold grk_read. cbn. by destruct data. Qed.

Lemma inserts_carry k (l : list grk_stepsize) i s : length l = GRK_MAXBANDS -> (i < GRK_MAXBANDS)%nat -> k !! i = Some s ->
  list_inserts 0 k l !! i = Some s.
Proof. intros Hl Hi Hk. rewrite list_lookup_inserts; [by rewrite Nat.sub_0_r|apply lookup_lt_Some in Hk; lia|lia]. Qed.

(** All of the body was step sizes. *)
Lemma no_bytes_left n num room : 0 <= num -> 0 < room -> room * num <= n -> n < 65536 -> u16 (n - room * num) = 0 -> n = room * num.
Proof. intros ? ? ? ? E. rewrite u16_small in E; lia. Qed.

Lemma readSQcdSQcc_set ft fq q main data size q' main' : scope_ignored ft fq q = false -> quant_ok q -> segment data size -> size < 65536 ->
  readSQcdSQcc ft fq q main data size = Ok (q', main', 0) -> flags q' = (true, fq, ft) /\ carries q' (announced data).
Proof.
  intros Hi Hq [Hb Hsz] Hlt. pose proof (qo_len q Hq) as Hlen. unfold readSQcdSQcc. destruct (Z.ltb_spec size 1); [done|].
  destruct data as [|b rest]; [cbn in Hsz; lia|]. rewrite grk_read_1. cbn [rbind length] in *.
  apply list.Forall_cons in Hb as [Hb _]. unfold byte in Hb. cbv zeta. rewrite Hi. cbn [negb andb].
  unfold announced. set (sty := Z.land b 31). rewrite (u16_small (size - 1)) by lia.
  assert (0 <= Z.shiftr b 5 < 256) as Hg. { pose proof (shiftr_bound b 5 ltac:(lia) ltac:(change (2 ^ (5 + 5)) with 1024; lia)). lia. }
  rewrite (u8_small (Z.shiftr b 5)) by lia. destruct (_ <? sty); [done|].
  cbn [stepsizes_ qntsty_ quantizationMarkerSet_ fromQCC_ fromTileHeader_ numStepSizes_ numgbits_].
  replace (size - 1) with (Z.of_nat (length rest)) by lia. set (n := length rest) in *.
  pose proof (wrap_range 8 (Z.of_nat n) ltac:(lia)) as W1. pose proof (wrap_range 8 (Z.of_nat n / 2) ltac:(lia)) as W2.
  destruct (Z.eqb_spec sty CCP_QNTSTY_NOQNT) as [E0|E0].
  - rewrite E0. change (CCP_QNTSTY_NOQNT =? CCP_QNTSTY_SIQNT) with false. cbv iota.
    destruct (Z.ltb_spec (Z.of_nat n) (Z.of_nat 1 * u8 (Z.of_nat n))) as [?|Hroom]; [done|]. rewrite rbind_Ok. intros (steps & Es & E).
    apply read_steps_set in Es; [|done]. cbn [rbind] in E. injection E as <- _ El. apply no_bytes_left in El; [|lia..]. split; [done|].
    split; [done|]. split; [done|]. intros i s Hi2 Hs. cbn [stepsizes_]. rewrite Es. apply inserts_carry; [done|done|].
    replace (Z.to_nat (u8 (Z.of_nat n))) with n by lia. exact Hs.
  - destruct (Z.eqb_spec sty CCP_QNTSTY_SIQNT) as [E1|E1].
    + destruct (Z.ltb_spec (Z.of_nat n) (Z.of_nat 2 * 1)) as [?|Hroom]; [done|]. rewrite rbind_Ok. intros (steps & Es & E).
      apply read_steps_set in Es; [|done]. rewrite rbind_Ok in E. destruct E as (der & Ed & E). injection E as <- _ El.
      apply no_bytes_left in El; [|lia..]. split; [done|]. split; [done|]. split; [done|]. intros i s Hi2 Hs. cbn [stepsizes_].
      replace (n / 2)%nat with 1%nat in Hs by (replace n with 2%nat by lia; done).
      cbn [be_chunks fmap list_fmap] in Hs. change (Z.to_nat 1) with 1%nat in Es. cbn [be_chunks fmap list_fmap list_inserts] in Es.
      set (s0 := step_qnt _) in *.
      assert (steps !! 0%nat = Some s0) as H0 by (rewrite Es; apply list_lookup_insert_eq; rewrite Hlen; unfold GRK_MAXBANDS; lia).
      assert (length steps = GRK_MAXBANDS) as Hls by (rewrite Es, length_insert; done).
      destruct i as [|i]; [by destruct (derive_steps_lookup _ _ 1 _ Ed H0 ltac:(rewrite Hls; unfold GRK_MAXBANDS; lia)) as [-> _]|].
      destruct (derive_steps_lookup _ _ (S i) _ Ed H0 ltac:(lia)) as [_ ->]. rewrite lookup_cons, list_lookup_fmap in Hs.
      rewrite lookup_seq_lt in Hs by (unfold GRK_MAXBANDS in *; lia). cbn in Hs. by injection Hs as <-.
    + destruct (Z.ltb_spec (Z.of_nat n) (Z.of_nat 2 * u8 (Z.of_nat n / 2))) as [?|Hroom]; [done|]. rewrite rbind_Ok. intros (steps & Es & E).
      apply read_steps_set in Es; [|done]. cbn [rbind] in E. injection E as <- _ El. apply no_bytes_left in El; [|lia..]. split; [done|].
      split; [done|]. split; [done|]. intros i s Hi2 Hs. cbn [stepsizes_]. rewrite Es. apply inserts_carry; [done|done|].
      replace (Z.to_nat (u8 (Z.of_nat n / 2))) with (n / 2)%nat; [exact Hs|].
      replace (Z.of_nat n / 2) with (Z.of_nat (n / 2)) in * by (by rewrite Nat2Z.inj_div). pose proof (Nat.div_mod n 2 ltac:(lia)). pose proof (Nat.mod_upper_bound n 2 ltac:(lia)). lia.
Qed.

(** ** Bytes of numbers *)

Lemma length_be_bytes n v : length (be_bytes n v) = n.
Proof. revert v. induction n; intros; cbn; [done|]. rewrite length_app, IHn. cbn. lia. Qed.
Lemma be_bytes_byte n v : Forall byte (be_bytes n v).
Proof.
  revert v. induction n as [|n IH]; intros v; cbn [be_bytes]; [constructor|]. apply list.Forall_app. split; [done|]. repeat constructor;
    change 255 with (Z.ones 8); rewrite Z.land_ones by lia; apply (Z.mod_pos_bound v (2 ^ 8)); lia.
Qed.
Lemma be_value_bytes n : forall v, 0 <= v < 256 ^ Z.of_nat n -> be_value (be_bytes n v) = v.
Proof.
  induction n as [|n IH]; intros v Hv; [cbn in *; lia|]. cbn [be_bytes]. rewrite be_value_app.
  rewrite Nat2Z.inj_succ, Z.pow_succ_r in Hv by lia. change 255 with (Z.ones 8). rewrite Z.land_ones, Z.shiftr_div_pow2 by lia. change (2 ^ 8) with 256.
  rewrite IH; [pose proof (Z.div_mod v 256); lia|]. split; [apply Z.div_pos; lia|apply Z.div_lt_upper_bound; lia].
Qed.
Lemma grk_read_app n bs data : length bs = n -> grk_read n (bs ++ data) = Ok (be_value bs, data).
Proof.
  intros <-. unfold grk_read. rewrite (proj2 (Nat.leb_le _ _)) by (rewrite length_app; lia). by rewrite take_app_length, drop_app_length.
Qed.
Lemma grk_read_bytes n v data : 0 <= v < 256 ^ Z.of_nat n -> grk_read n (be_bytes n v ++ data) = Ok (v, data).
Proof. intros Hv. by rewrite grk_read_app, be_value_bytes by (done || apply length_be_bytes). Qed.

(** ** Which segment decides *)

(** A QCD, or a QCC and its component, with the bytes from Sqcd or Sqcc on. *)
Inductive quant_marker := Qcd (body : list Z) | Qcc (comp : nat) (body : list Z).

Definition quant_bytes (numComps : Z) (m : quant_marker) : list Z :=
  match m with Qcd b => b | Qcc c b => be_bytes (comp_room numComps) (Z.of_nat c) ++ b end.
Definition read_quant_marker (fromTileHeader : bool) (p : TileCodingParams) (m : quant_marker) : read_result TileCodingParams :=
  let data := quant_bytes (numComps_ p) m in
  match m with
  | Qcd _ => readQcd fromTileHeader p data (Z.of_nat (length data))
  | Qcc _ _ => readQcc fromTileHeader p data (Z.of_nat (length data))
  end.
Fixpoint read_quant_markers (fromTileHeader : bool) (p : TileCodingParams) (ms : list quant_marker) : read_result TileCodingParams :=
  match ms with
  | [] => Ok p
  | m :: ms => let* p := read_quant_marker fromTileHeader p m in read_quant_markers fromTileHeader p ms
  end.

Definition or_else {A} (a b : option A) : option A := match a with Some _ => a | None => b end.
Fixpoint first_qcd (ms : list quant_marker) : option (list Z) :=
  match ms with [] => None | Qcd b :: _ => Some b | _ :: ms => first_qcd ms end.
Fixpoint first_qcc (c : nat) (ms : list quant_marker) : option (list Z) :=
  match ms with
  | [] => None
  | Qcc c' b :: ms => if (c' =? c)%nat then Some b else first_qcc c ms
  | _ :: ms => first_qcc c ms
  end.
(** The segment in force for component [c]. *)
Definition effective (main tile : list quant_marker) (c : nat) : option (list Z) :=
  or_else (first_qcc c tile) (or_else (first_qcd tile) (or_else (first_qcc c main) (first_qcd main))).

(** No QCD after a QCC of component 0. *)
Fixpoint qcd_first (ms : list quant_marker) : bool :=
  match ms with
  | [] => true
  | Qcc O _ :: ms => match first_qcd ms with Some _ => false | None => true end
  | _ :: ms => qcd_first ms
  end.

Lemma first_qcd_snoc ms m : first_qcd (ms ++ [m]) = or_else (first_qcd ms) (first_qcd [m]).
Proof. induction ms as [|[b|c b] ms IH]; cbn; done. Qed.
Lemma first_qcc_snoc c ms m : first_qcc c (ms ++ [m]) = or_else (first_qcc c ms) (first_qcc c [m]).
Proof. induction ms as [|[b|c' b] ms IH]; cbn [app first_qcc]; [done|done|]. by destruct (c' =? c)%nat. Qed.
Lemma qcd_first_snoc ms m : qcd_first (ms ++ [m]) = true ->
  qcd_first ms = true /\ match m with Qcd _ => first_qcc 0 ms = None | _ => True end.
Proof.
  induction ms as [|[b|[|c] b] ms IH]; cbn [app qcd_first first_qcc Nat.eqb]; [by destruct m| done | | done].
  rewrite first_qcd_snoc. destruct (first_qcd ms); [done|]. by destruct m.
Qed.

(** The flags of component [c] after the segments. *)
Definition scope_flags (c : nat) (main tile : list quant_marker) : bool * bool * bool :=
  match first_qcc c tile, first_qcc c main with
  | Some _, _ => (true, true, true)
  | None, qm =>
      match c, first_qcd tile with
      | O, Some _ => (true, false, true)
      | _, _ => match qm with
                | Some _ => (true, true, false)
                | None => match c, first_qcd main with O, Some _ => (true, false, false) | _, _ => (false, false, false) end
                end
      end
  end.
Definition scoped (c : nat) (main tile : list quant_marker) (q : quantization) : Prop :=
  flags q = scope_flags c main tile /\ forall b, effective main tile c = Some b -> carries q (announced b).
Definition all_scoped (main tile : list quant_marker) (p : TileCodingParams) : Prop :=
  forall c t, tccps_ p !! c = Some t -> scoped c main tile (quant_ t).

Definition quant_marker_ok (n : Z) (m : quant_marker) : Prop :=
  let '(c, b) := match m with Qcd b => (0%nat, b) | Qcc c b => (c, b) end in
  Z.of_nat c < n /\ Forall byte b /\ Z.of_nat (length b) < 65000.

Lemma read_qcc_inv ft p c b p' : tcp_ok p -> quant_marker_ok (numComps_ p) (Qcc c b) -> read_quant_marker ft p (Qcc c b) = Ok p' ->
  exists t q main', tccps_ p !! c = Some t /\
    readSQcdSQcc ft true (quant_ t) (mainQcdQntsty p, mainQcdNumStepSizes p) b (Z.of_nat (length b)) = Ok (q, main', 0) /\
    p' = with_quantization p main' (<[c := with_quant t q]> (tccps_ p)).
Proof.
  intros Hp (Hc & Hb & Hl). cbn [read_quant_marker quant_bytes]. unfold readQcc. cbv zeta. rewrite length_app, length_be_bytes.
  pose proof (to_some p Hp). destruct (Z.ltb_spec (Z.of_nat (comp_room (numComps_ p) + length b)) (Z.of_nat (comp_room (numComps_ p)))); [done|].
  rewrite grk_read_bytes. 2:{ unfold comp_room. destruct (Z.leb_spec (numComps_ p) 256); cbn; lia. }
  cbn [rbind]. rewrite (proj2 (Z.leb_gt _ _)) by lia. rewrite Nat2Z.id. unfold get_at. destruct (tccps_ p !! c) as [t|] eqn:E; [|done]. cbn [rbind].
  pose proof (comp_room_range (numComps_ p)). rewrite u16_small by lia.
  replace (Z.of_nat (comp_room (numComps_ p) + length b) - Z.of_nat (comp_room (numComps_ p))) with (Z.of_nat (length b)) by lia.
  rewrite rbind_Ok. intros ([[q main'] left] & Er & Ek). destruct (Z.eqb_spec left 0) as [->|]; [|done]. cbn [negb] in Ek.
  unfold set_at in Ek. apply lookup_lt_Some in E as Hlt. rewrite (proj2 (Nat.ltb_lt _ _)) in Ek by done. cbn [rbind] in Ek. injection Ek as <-.
  by exists t, q, main'.
Qed.
Lemma read_qcd_inv ft p b p' : tcp_ok p -> read_quant_marker ft p (Qcd b) = Ok p' ->
  exists t0 rest q0 main', tccps_ p = t0 :: rest /\
    readSQcdSQcc ft false (quant_ t0) (mainQcdQntsty p, mainQcdNumStepSizes p) b (Z.of_nat (length b)) = Ok (q0, main', 0) /\
    p' = with_quantization p main' (with_quant t0 q0 :: ((fun t => with_quant t (copy_quant q0 (quant_ t))) <$> rest)).
Proof.
  intros Hp. cbn [read_quant_marker quant_bytes]. unfold readQcd, get_at. destruct (tccps_ p) as [|t0 rest]; [done|]. cbn [lookup list_lookup rbind tail].
  rewrite rbind_Ok. intros ([[q main'] left] & Er & Ek). destruct (Z.eqb_spec left 0) as [->|]; [|done]. cbn [negb] in Ek. injection Ek as <-.
  by exists t0, rest, q, main'.
Qed.

(** The segments seen after one more, which is of the tile header or not. *)
Definition seen_main (ft : bool) (main : list quant_marker) (m : quant_marker) := if ft then main else main ++ [m].
Definition seen_tile (ft : bool) (tile : list quant_marker) (m : quant_marker) := if ft then tile ++ [m] else tile.

(** The scoping rules, read off the flags. *)
Definition ignored_by (ft fq : bool) (f : bool * bool * bool) : bool :=
  let '(set, qcc, tile) := f in
  set && (if ft then tile && (qcc || negb fq) else negb tile && (qcc || negb fq)).
Lemma scope_ignored_flags ft fq q f : flags q = f -> scope_ignored ft fq q = ignored_by ft fq f.
Proof. intros <-. unfold scope_ignored, ignored_by, flags. by destruct ft, fq, (quantizationMarkerSet_ q), (fromQCC_ q), (fromTileHeader_ q). Qed.

(** [readSQcdSQcc] follows the rules for the component it is called for. *)
Lemma qcc_scoped ft c main tile b q main' x : (ft = false -> tile = []) -> scoped c main tile q -> quant_ok q -> Forall byte b -> Z.of_nat (length b) < 65000 ->
  readSQcdSQcc ft true q main' b (Z.of_nat (length b)) = Ok (x, 0) ->
  scoped c (seen_main ft main (Qcc c b)) (seen_tile ft tile (Qcc c b)) (fst x).
Proof.
  destruct x as [q' main'']. intros Hft [Hf Hc] Hq Hb Hl E. cbn [fst].
  assert (scope_ignored ft true q = match first_qcc c (if ft then tile else main) with Some _ => true | None => false end) as Hi.
  { rewrite (scope_ignored_flags ft true _ _ Hf). unfold scope_flags. destruct ft; [|rewrite Hft by done; cbn [first_qcc first_qcd]];
      destruct (first_qcc c tile), (first_qcc c main), c, (first_qcd tile), (first_qcd main); done. }
  destruct (first_qcc c (if ft then tile else main)) as [b0|] eqn:E0.
  - apply readSQcdSQcc_ignored in E as [-> _]; [|done]. unfold scoped, effective, scope_flags, seen_main, seen_tile in *. destruct ft; rewrite !first_qcc_snoc, !first_qcd_snoc, E0 in *; cbn in *.
    + done.
    + split; [|by destruct (first_qcd main)]. by destruct (first_qcd main).
  - apply readSQcdSQcc_set in E as [Hf' Hc']; [|done|done|by split|lia]. unfold scoped, effective, scope_flags, seen_main, seen_tile.
    destruct ft; [|rewrite Hft by done]; rewrite !first_qcc_snoc, !first_qcd_snoc, E0; cbn; rewrite Nat.eqb_refl; cbn.
    + split; [done|]. by intros ? [= <-].
    + split; [by destruct c|]. by intros ? [= <-].
Qed.

(** Component 0 reads the QCD itself: afterwards it carries the first QCD of the header. *)
Lemma qcd_scoped_0 ft main tile b q main' x : (ft = false -> tile = []) -> first_qcc 0 (if ft then tile else main) = None ->
  scoped 0 main tile q -> quant_ok q -> Forall byte b -> Z.of_nat (length b) < 65000 ->
  readSQcdSQcc ft false q main' b (Z.of_nat (length b)) = Ok (x, 0) ->
  scoped 0 (seen_main ft main (Qcd b)) (seen_tile ft tile (Qcd b)) (fst x).
Proof.
  destruct x as [q' main'']. intros Hft H0 [Hf Hc] Hq Hb Hl E. cbn [fst].
  assert (scope_ignored ft false q = match first_qcd (if ft then tile else main) with Some _ => true | None => false end) as Hi.
  { rewrite (scope_ignored_flags ft false _ _ Hf). unfold scope_flags. destruct ft; [rewrite H0|rewrite H0, Hft by done; cbn [first_qcc first_qcd]];
      destruct (first_qcc 0 main), (first_qcd tile), (first_qcd main); done. }
  destruct (first_qcd (if ft then tile else main)) as [b0|] eqn:E0.
  - apply readSQcdSQcc_ignored in E as [-> _]; [|done]. unfold scoped, effective, scope_flags, seen_main, seen_tile in *.
    destruct ft; rewrite !first_qcc_snoc, !first_qcd_snoc, E0, H0 in *; cbn in *; done.
  - apply readSQcdSQcc_set in E as [Hf' Hc']; [|done|done|by split|lia]. unfold scoped, effective, scope_flags, seen_main, seen_tile.
    destruct ft; [|rewrite Hft by done]; rewrite !first_qcc_snoc, !first_qcd_snoc, E0, H0; cbn; (split; [done|by intros ? [= <-]]).
Qed.

Lemma copy_carries src dst a : copy_quant src dst <> dst -> carries src a -> carries (copy_quant src dst) a.
Proof. unfold copy_quant. case_match; [done|]. intros _. by destruct a as [[sty g] steps]. Qed.

(** The other components copy it, unless a QCC of theirs outranks it. *)
Lemma qcd_scoped_other ft c main tile b q0 q : (ft = false -> tile = []) -> first_qcc 0 (if ft then tile else main) = None ->
  scoped 0 (seen_main ft main (Qcd b)) (seen_tile ft tile (Qcd b)) q0 -> scoped (S c) main tile q ->
  scoped (S c) (seen_main ft main (Qcd b)) (seen_tile ft tile (Qcd b)) (copy_quant q0 q).
Proof.
  intros Hft H0 [Hf0 Hc0] [Hf Hc].
  assert (flags (copy_quant q0 q) = flags q) as Hfl by (unfold copy_quant; by destruct (fromQCC_ q && _)).
  assert (fromQCC_ q = snd (fst (scope_flags (S c) main tile)) /\ fromTileHeader_ q = snd (scope_flags (S c) main tile)) as [Eq Et]
    by (rewrite <- Hf; done).
  assert (fromTileHeader_ q0 = ft) as E0.
  { change (fromTileHeader_ q0) with (snd (flags q0)). rewrite Hf0. unfold scope_flags, seen_main, seen_tile.
    destruct ft; [|rewrite Hft by done]; rewrite !first_qcc_snoc, !first_qcd_snoc, H0; cbn;
      [by destruct (first_qcd tile)|by destruct (first_qcd main)]. }
  unfold scoped, effective, scope_flags, seen_main, seen_tile in *. rewrite Hfl.
  destruct ft; [|rewrite Hft in * by done]; rewrite !first_qcc_snoc, !first_qcd_snoc, ?H0 in *; cbn in *.
  - destruct (first_qcc (S c) tile) as [bt|] eqn:Ec; cbn in *.
    + split; [done|]. unfold copy_quant. rewrite Eq, Et. cbn. rewrite orb_true_r. done.
    + split; [done|]. intros b' Hb'. assert (carries q0 (announced b')) as Hq0 by (apply Hc0; revert Hb'; by destruct (first_qcd tile)).
      assert (copy_quant q0 q = MkQuant (quantizationMarkerSet_ q) (fromQCC_ q) (fromTileHeader_ q) (qntsty_ q0) (stepsizes_ q0) (numStepSizes_ q) (numgbits_ q0)) as ->.
      { unfold copy_quant. rewrite E0, Et. destruct (first_qcc (S c) main); cbn; by rewrite andb_comm. }
      by destruct (announced b') as [[sty g] steps].
  - destruct (first_qcc (S c) main) as [bm|] eqn:Ec; cbn in *.
    + split; [done|]. unfold copy_quant. rewrite Eq, E0. cbn. done.
    + split; [done|]. intros b' Hb'. specialize (Hc0 b' Hb').
      assert (copy_quant q0 q = MkQuant (quantizationMarkerSet_ q) (fromQCC_ q) (fromTileHeader_ q) (qntsty_ q0) (stepsizes_ q0) (numStepSizes_ q) (numgbits_ q0)) as ->.
      { unfold copy_quant. by rewrite Eq. }
      by destruct (announced b') as [[sty g] steps].
Qed.

Lemma quant_marker_scoped ft main tile p m p' : (ft = false -> tile = []) ->
  qcd_first ((if ft then tile else main) ++ [m]) = true -> tcp_ok p -> quant_marker_ok (numComps_ p) m -> all_scoped main tile p ->
  read_quant_marker ft p m = Ok p' -> all_scoped (seen_main ft main m) (seen_tile ft tile m) p'.
Proof.
  intros Hft Hfirst Hp Hm Hs E. apply qcd_first_snoc in Hfirst as [_ H0]. destruct m as [b|c b].
  - destruct Hm as (_ & Hb & Hl). apply read_qcd_inv in E as (t0 & rest & q0 & main' & Et & Er & ->); [|done].
    pose proof (to_tccps p Hp) as Hf. unfold all_scoped in Hs. rewrite Et in Hs, Hf. apply list.Forall_cons in Hf as [(_ & Hq0 & _) _].
    pose proof (qcd_scoped_0 ft main tile b (quant_ t0) _ (q0, main') Hft H0 (Hs 0%nat t0 eq_refl) Hq0 Hb Hl Er) as S0. cbn [fst] in S0.
    intros [|c] t; cbn [with_quantization tccps_]; [by intros [= <-]|]. rewrite lookup_cons, list_lookup_fmap. intros (t1 & E1 & ->)%fmap_Some.
    apply (qcd_scoped_other ft c main tile b q0 (quant_ t1)); (done || apply (Hs (S c) t1 E1)).
  - destruct Hm as (Hc & Hb & Hl). apply read_qcc_inv in E as (t & q & main' & Et & Er & ->); [|done|done].
    pose proof (to_tccps p Hp) as Hf. destruct (list.Forall_lookup_1 _ _ _ _ Hf Et) as (_ & Hq & _).
    pose proof (qcc_scoped ft c main tile b (quant_ t) _ (q, main') Hft (Hs c t Et) Hq Hb Hl Er) as Sc.
    intros c' t' Ht'. cbn [with_quantization tccps_] in Ht'. destruct (decide (c = c')) as [<-|Hne].
    + rewrite list_lookup_insert_eq in Ht' by (by apply lookup_lt_Some in Et). by injection Ht' as <-.
    + rewrite list_lookup_insert_ne in Ht' by done. destruct (Hs c' t' Ht') as [Hfl Hca]. unfold scoped, effective, scope_flags, seen_main, seen_tile in *.
      destruct ft; rewrite !first_qcc_snoc, !first_qcd_snoc; cbn; rewrite (proj2 (Nat.eqb_neq _ _)) by done;
        [destruct (first_qcc c' tile), (first_qcd tile)|destruct (first_qcc c' main), (first_qcd main)]; done.
Qed.

Lemma qcd_first_app a b : qcd_first (a ++ b) = true -> qcd_first a = true.
Proof.
  induction b as [|m b IH] using rev_ind; [by rewrite app_nil_r|]. rewrite app_assoc. intros [H _]%qcd_first_snoc. by apply IH.
Qed.
Lemma quant_marker_keeps ft p m p' : tcp_ok p -> quant_marker_ok (numComps_ p) m -> read_quant_marker ft p m = Ok p' -> keeps_comps p p'.
Proof.
  intros Hp Hm E. pose proof (comp_room_range (numComps_ p)).
  assert (segment (quant_bytes (numComps_ p) m) (Z.of_nat (length (quant_bytes (numComps_ p) m))) /\
          Z.of_nat (length (quant_bytes (numComps_ p) m)) < 65536) as [Hs Hl].
  { destruct m as [b|c b]; destruct Hm as (_ & Hb & Hl); cbn [quant_bytes]; rewrite ?length_app, ?length_be_bytes; split; try lia; (split; [|rewrite ?length_app, ?length_be_bytes; lia]);
      rewrite ?list.Forall_app; auto using be_bytes_byte. }
  destruct m; cbn [read_quant_marker] in E; [pose proof (readQcd_safe ft p _ _ Hp Hs Hl) as H1|pose proof (readQcc_safe ft p _ _ Hp Hs Hl) as H1];
    by rewrite E in H1.
Qed.

Lemma quant_markers_scoped ft ms : forall main tile p p', (ft = false -> tile = []) ->
  qcd_first ((if ft then tile else main) ++ ms) = true -> tcp_ok p -> Forall (quant_marker_ok (numComps_ p)) ms -> all_scoped main tile p ->
  read_quant_markers ft p ms = Ok p' ->
  keeps_comps p p' /\ all_scoped (if ft then main else main ++ ms) (if ft then tile ++ ms else tile) p'.
Proof.
  induction ms as [|m ms IH]; intros main tile p p' Hft Hfirst Hp Hm Hs E; cbn [read_quant_markers] in E.
  - injection E as <-. split; [by split|]. by destruct ft; rewrite app_nil_r.
  - apply rbind_Ok in E as (p1 & E1 & E). apply list.Forall_cons in Hm as [Hm Hms].
    destruct (quant_marker_keeps _ _ _ _ Hp Hm E1) as [Hp1 En].
    assert ((if ft then tile else main) ++ m :: ms = ((if ft then tile else main) ++ [m]) ++ ms) as Eapp by (by rewrite <- app_assoc).
    rewrite Eapp in Hfirst. pose proof (quant_marker_scoped ft main tile p m p1 Hft (qcd_first_app _ _ Hfirst) Hp Hm Hs E1) as H1.
    destruct (IH (seen_main ft main m) (seen_tile ft tile m) p1 p') as [[Hp' En'] H2]; try done.
    + intros ->. cbn. by apply Hft.
    + by destruct ft.
    + by rewrite En.
    + split; [split; [done|congruence]|]. unfold seen_main, seen_tile in H2. destruct ft; by rewrite <- app_assoc in H2.
Qed.

(** C13: however QCD and QCC segments come in the main header and in the header of a tile, a
    component of the tile ends with the style, guard bits and step sizes of the first QCC
    for it in the tile header, else of the first QCD of the tile header, else of the first QCC
    for it in the main header, else of the main QCD; provided that in neither header a QCD
    follows a QCC of component 0. *)
Theorem quantization_scoping (p p1 p2 : TileCodingParams) (main tile : list quant_marker) :
  tcp_ok p -> Forall (fun t => quant_ t = new_quant) (tccps_ p) ->
  Forall (quant_marker_ok (numComps_ p)) main -> Forall (quant_marker_ok (numComps_ p)) tile ->
  qcd_first main = true -> qcd_first tile = true ->
  read_quant_markers false p main = Ok p1 -> read_quant_markers true p1 tile = Ok p2 ->
  forall c t b, tccps_ p2 !! c = Some t -> effective main tile c = Some b -> carries (quant_ t) (announced b).
Proof.
  intros Hp Hnew Hmain Htile F1 F2 E1 E2 c t b Ht Hb.
  assert (all_scoped [] [] p) as H0.
  { intros c' t' Ht'. rewrite (list.Forall_lookup_1 _ _ _ _ Hnew Ht'). split; [by destruct c'|done]. }
  destruct (quant_markers_scoped false main [] [] p p1 ltac:(done) F1 Hp Hmain H0 E1) as [[Hp1 En] H1]. rewrite <- En in Htile.
  destruct (quant_markers_scoped true tile main [] p1 p2 ltac:(done) F2 Hp1 Htile H1 E2) as [_ H2]. by apply (H2 c t Ht).
Qed.

Definition two_components : TileCodingParams :=
  initDefault new_tcp 2 [MkComp 8 false 1 1 0 0 4 4 0 0; MkComp 8 false 1 1 0 0 4 4 0 0].
Lemma two_components_fresh : tcp_ok two_components /\ Forall (fun t => quant_ t = new_quant) (tccps_ two_components).
Proof.
  split; [|repeat constructor]. constructor; cbn; try done; try lia. repeat constructor; cbn; try exact new_style_ok; try exact new_quant_ok; lia.
Qed.
(** Main QCD and a QCC for component 1; in the tile a QCD, which outranks both. *)
Definition example_main : list quant_marker := [Qcd [0x40; 64]; Qcc 1 [0x22; 0x48; 5]].
Definition example_tile_header : list quant_marker := [Qcd [0x40; 72]].
Definition ok_or {A} (d : A) (r : read_result A) : A := match r with Ok a => a | Err _ => d end.
Definition after_main : TileCodingParams := ok_or new_tcp (read_quant_markers false two_components example_main).
Definition after_tile : TileCodingParams := ok_or new_tcp (read_quant_markers true after_main example_tile_header).
Lemma quantization_scoping_witness :
  carries (quant_ (nth 1 (tccps_ after_tile) new_tccp)) (announced [0x40; 72]).
Proof.
  destruct two_components_fresh as [Hok Hnew].
  apply (quantization_scoping two_components after_main after_tile example_main example_tile_header Hok Hnew) with (c := 1%nat);
    try (vm_compute; reflexivity).
  - repeat constructor; cbn; lia.
  - repeat constructor; cbn; lia.
Defined.

(** Where a QCC of component 0 comes first, the QCD is ignored for component 0, and the other
    components are given the values of that QCC. *)
Lemma qcc_before_qcd :
  (fun t => (qntsty_ (quant_ t), numgbits_ (quant_ t))) <$>
    tccps_ (ok_or new_tcp (read_quant_markers false two_components [Qcc 0 [0x22; 0x48; 5]; Qcd [0x40; 64]])) = [(2, 1); (2, 1)].
Proof. vm_compute. reflexivity. Qed.
