(* ===== verification/MarkerRoundTrip.v ===== *)
(** The main header written by the compressor and read by the decompressor. *)
From S2P Require Import Prelude Geometry PLMarker Markers MainHeader MarkerSafety MarkerQuant.

(** ** What a writer writes *)

Section writes.
Context {K : Type} `{StreamLaws K}.

Definition writes (w : bstep K) (bs : list Z) : Prop := forall k k', w k = (true, k') -> contents k' = contents k ++ bs.

Lemma writes_stream bs : writes (stream_write bs) bs.
Proof. intros k k'. apply stream_write_ok. Qed.
Lemma writes_n n v : writes (write_n n v) (be_bytes n v).
Proof. apply writes_stream. Qed.
Lemma writes_ret : writes bret [].
Proof. intros k k' [= <-]. by rewrite app_nil_r. Qed.
Lemma writes_seq a b l m : writes a l -> writes b m -> writes (a ;;; b) (l ++ m).
Proof. intros Ha Hb k k' (k1 & E1 & E2)%bseq_true. by rewrite (Hb _ _ E2), (Ha _ _ E1), app_assoc. Qed.
Lemma writes_if (c : bool) a b l m : writes a l -> writes b m -> writes (if c then a else b) (if c then l else m).
Proof. by destruct c. Qed.
Lemma writes_each {A} (f : A -> bstep K) g l : (forall x, writes (f x) (g x)) -> writes (write_each f l) (concat (g <$> l)).
Proof. intros Hf. induction l; cbn; [apply writes_ret|]. by apply writes_seq. Qed.
End writes.
Create HintDb writes.
#[export] Hint Resolve writes_stream writes_n writes_ret writes_seq writes_if writes_each : writes.

(** The bytes of the segments, from the marker on. *)
Definition segment_bytes (id : Z) (body : list Z) : list Z := be_bytes 2 id ++ be_bytes 2 (Z.of_nat (length body) + 2) ++ body.

Definition precinct_byte (s : coding_style) (i : Z) : Z := u8 (nthZ 0 (precWidthExp_ s) i + Z.shiftl (nthZ 0 (precHeightExp_ s) i) 4).
Definition custom_precincts (s : coding_style) : bool := negb (Z.land (csty_ s) CCP_CSTY_PRECINCT =? 0).
Definition style_bytes (s : coding_style) : list Z :=
  be_bytes 1 (u8 (numresolutions_ s - 1)) ++ be_bytes 1 (u8 (cblkw_expn_ s - 2)) ++ be_bytes 1 (u8 (cblkh_expn_ s - 2)) ++
  be_bytes 1 (cblkStyle_ s) ++ be_bytes 1 (qmfbid_ s) ++
  (if custom_precincts s then concat ((fun i => be_bytes 1 (precinct_byte s i)) <$> seqZ 0 (numresolutions_ s)) else []).
Definition cod_body (p : TileCodingParams) : list Z :=
  be_bytes 1 (tcsty_ p) ++ be_bytes 1 (u8 (prg_ p)) ++ be_bytes 2 (numLayers_ p) ++ be_bytes 1 (mct_ p) ++ style_bytes (style_ (first_tccp p)).
Definition step_bytes (q : quantization) (i : Z) : list Z :=
  let s := nthZ (MkStep 0 0) (stepsizes_ q) i in
  if qntsty_ q =? CCP_QNTSTY_NOQNT then be_bytes 1 (u8 (Z.shiftl (expn s) 3)) else be_bytes 2 (u16 (u32 (Z.shiftl (expn s) 11) + mant s)).
Definition quant_body (t : TileComponentCodingParams) : list Z :=
  let q := quant_ t in
  be_bytes 1 (u8 (qntsty_ q + Z.shiftl (numgbits_ q) 5)) ++
  concat (step_bytes q <$> seqZ 0 (u8 (num_bands q (numresolutions_ (style_ t))))).
Definition comp_bytes (n c : Z) : list Z := if n <=? 256 then be_bytes 1 (u8 c) else be_bytes 2 c.
Definition qcc_body (n : Z) (p : TileCodingParams) (c : Z) : list Z := comp_bytes n c ++ quant_body (nthZ new_tccp (tccps_ p) c).
Definition rgn_body (n : Z) (t : TileComponentCodingParams) (c : Z) : list Z :=
  comp_bytes n c ++ be_bytes 1 0 ++ be_bytes 1 (u8 (roishift_ t)).
Definition progression_bytes (n : Z) (x : grk_progression) : list Z :=
  be_bytes 1 (res_s x) ++ comp_bytes n (comp_s x) ++ be_bytes 2 (lay_e x) ++ be_bytes 1 (res_e x) ++ comp_bytes n (comp_e x) ++
  be_bytes 1 (u8 (progression x)).
Definition poc_body (n : Z) (p : TileCodingParams) : list Z :=
  concat ((fun i => progression_bytes n (nthZ new_prog (progressionOrderChange_ p) i)) <$> seqZ 0 (getNumProgressions p)).
Definition com_body (c : bool * list Z) : list Z := be_bytes 2 (if fst c then 0 else 1) ++ snd c.
Definition component_bytes (c : image_comp) : list Z :=
  be_bytes 1 (if sgnd c then u8 (u8 (prec c - 1) + Z.shiftl 1 7) else u8 (prec c - 1)) ++ be_bytes 1 (dx c) ++ be_bytes 1 (dy c).
Definition siz_body (im : GrkImage) (cp : CodingParams) : list Z :=
  let b := bounds im in let g := grid_ cp in
  be_bytes 2 (rsiz_ cp) ++ be_bytes 4 (x1 b) ++ be_bytes 4 (y1 b) ++ be_bytes 4 (x0 b) ++ be_bytes 4 (y0 b) ++
  be_bytes 4 (t_width_ g) ++ be_bytes 4 (t_height_ g) ++ be_bytes 4 (tx0_ g) ++ be_bytes 4 (ty0_ g) ++
  be_bytes 2 (numcomps im) ++ concat (component_bytes <$> comps im).

(** ** Coding styles *)

Definition style_valid (s : coding_style) : Prop :=
  style_ok s /\ 0 < numresolutions_ s /\ cblk_style_ok (cblkStyle_ s) = true /\
  (custom_precincts s = false -> forall i, (i < Z.to_nat (numresolutions_ s))%nat ->
     precWidthExp_ s !! i = Some 15 /\ precHeightExp_ s !! i = Some 15).

(** The style that is read agrees with the style [s] that was written. *)
Record same_style (s r : coding_style) : Prop := {
  ss_res : numresolutions_ r = numresolutions_ s;
  ss_cblkw : cblkw_expn_ r = cblkw_expn_ s;
  ss_cblkh : cblkh_expn_ r = cblkh_expn_ s;
  ss_sty : cblkStyle_ r = cblkStyle_ s;
  ss_qmf : qmfbid_ r = qmfbid_ s;
  ss_part1 : atkIndex_ r = 0 /\ dfsIndex_ r = 0;
  ss_prec : forall i, (i < Z.to_nat (numresolutions_ s))%nat ->
    precWidthExp_ r !! i = precWidthExp_ s !! i /\ precHeightExp_ r !! i = precHeightExp_ s !! i;
}.

Lemma precinct_byte_nibbles s i w h : precWidthExp_ s !! i = Some w -> precHeightExp_ s !! i = Some h -> 0 <= w <= 15 -> 0 <= h <= 15 ->
  0 <= precinct_byte s (Z.of_nat i) < 256 /\ Z.land (precinct_byte s (Z.of_nat i)) 15 = w /\ Z.shiftr (precinct_byte s (Z.of_nat i)) 4 = h.
Proof.
  intros Ew Eh Hw Hh. unfold precinct_byte. rewrite (nthZ_lookup 0 (precWidthExp_ s) _ w), (nthZ_lookup 0 (precHeightExp_ s) _ h) by (by rewrite Nat2Z.id).
  rewrite Z.shiftl_mul_pow2 by lia. change (2 ^ 4) with 16. rewrite u8_small by lia.
  change 15 with (Z.ones 4). rewrite Z.land_ones, Z.shiftr_div_pow2 by lia. change (2 ^ 4) with 16.
  replace (w + h * 16) with (w + 16 * h) by lia. split; [lia|]. split.
  - rewrite Z.add_comm, Z.mul_comm, Z.add_comm, Z.mod_add by lia. apply Z.mod_small. lia.
  - rewrite Z.mul_comm, Z.div_add, Z.div_small by lia. lia.
Qed.

Lemma be_bytes_1 v : 0 <= v < 256 -> be_bytes 1 v = [v].
Proof. intros Hv. cbn. f_equal. change 255 with (Z.ones 8). rewrite Z.land_ones by lia. by apply Z.mod_small. Qed.

Definition precinct_bytes (s : coding_style) (i n : nat) : list Z :=
  concat ((fun i => be_bytes 1 (precinct_byte s i)) <$> seqZ (Z.of_nat i) (Z.of_nat n)).
Lemma precinct_bytes_S s i n : precinct_bytes s i (S n) = be_bytes 1 (precinct_byte s (Z.of_nat i)) ++ precinct_bytes s (S i) n.
Proof. unfold precinct_bytes. rewrite seqZ_cons by lia. cbn. do 3 f_equal; f_equal; lia. Qed.

(** The precincts [pr] are those of [s] up to [i]. *)
Definition precincts_of (s : coding_style) (i : nat) (pr : list Z * list Z) : Prop :=
  length (fst pr) = GRK_MAXRLVLS /\ length (snd pr) = GRK_MAXRLVLS /\
  forall j, (j < i)%nat -> fst pr !! j = precWidthExp_ s !! j /\ snd pr !! j = precHeightExp_ s !! j.
Lemma precincts_of_set s i w h a b : (i < GRK_MAXRLVLS)%nat -> precWidthExp_ s !! i = Some a -> precHeightExp_ s !! i = Some b ->
  precincts_of s i (w, h) -> precincts_of s (S i) (<[i := a]> w, <[i := b]> h).
Proof.
  intros Hi Ea Eb (Lw & Lh & Hp). unfold precincts_of. cbn [fst snd] in *. rewrite !length_insert. split; [done|]. split; [done|]. intros j Hj.
  destruct (decide (i = j)) as [<-|Hne]; [by rewrite !list_lookup_insert_eq by lia|].
  rewrite !list_lookup_insert_ne by done. apply Hp. lia.
Qed.
Lemma set_at_ok {A} i (x : A) l : (i < length l)%nat -> set_at i x l = Ok (<[i := x]> l).
Proof. intros. unfold set_at. by rewrite (proj2 (Nat.ltb_lt _ _)). Qed.
Lemma style_precinct s i : style_ok s -> (i < GRK_MAXRLVLS)%nat -> exists a b, precWidthExp_ s !! i = Some a /\ precHeightExp_ s !! i = Some b /\
  0 <= a <= 15 /\ 0 <= b <= 15.
Proof.
  intros Hs Hi. pose proof (so_prec s Hs) as [Fw Fh]. pose proof (so_width s Hs). pose proof (so_height s Hs).
  destruct (lookup_lt_is_Some_2 (precWidthExp_ s) i ltac:(lia)) as [a Ea]. destruct (lookup_lt_is_Some_2 (precHeightExp_ s) i ltac:(lia)) as [b Eb].
  exists a, b. pose proof (list.Forall_lookup_1 _ _ _ _ Fw Ea). pose proof (list.Forall_lookup_1 _ _ _ _ Fh Eb). done.
Qed.

Lemma read_precincts_written s n : style_ok s -> forall i w h, (i + n <= Z.to_nat (numresolutions_ s))%nat -> precincts_of s i (w, h) ->
  exists pr, read_precincts n i (precinct_bytes s i n) w h = Ok pr /\ precincts_of s (i + n) pr.
Proof.
  intros Hs. induction n as [|n IH]; intros i w h Hi Hp; [by exists (w, h); rewrite Nat.add_0_r|]. pose proof (so_res s Hs).
  destruct (style_precinct s i Hs ltac:(unfold GRK_MAXRLVLS; lia)) as (a & b & Ea & Eb & Ha & Hb).
  destruct (precinct_byte_nibbles s i a b Ea Eb Ha Hb) as (Hr & Ew & Eh).
  rewrite precinct_bytes_S. cbn [read_precincts]. rewrite grk_read_bytes by done. cbn [rbind]. rewrite Ew, Eh.
  assert ((0 <? i)%nat && ((a =? 0) || (b =? 0)) = false) as ->.
  { destruct (Nat.ltb_spec 0 i); [|done]. pose proof (so_pos s Hs i a ltac:(lia) (or_introl Ea)). pose proof (so_pos s Hs i b ltac:(lia) (or_intror Eb)).
    rewrite !(proj2 (Z.eqb_neq _ _)) by lia. done. }
  destruct Hp as (Lw & Lh & Hp). cbn [fst snd] in *.
  rewrite set_at_ok by (unfold GRK_MAXRLVLS in *; lia). cbn [rbind]. rewrite set_at_ok by (unfold GRK_MAXRLVLS in *; lia). cbn [rbind].
  replace (i + S n)%nat with (S i + n)%nat by lia. apply IH; [lia|]. apply precincts_of_set; (done || (unfold GRK_MAXRLVLS in *; lia)).
Qed.
Lemma default_precincts_written s n : style_ok s -> (forall i, (i < Z.to_nat (numresolutions_ s))%nat -> precWidthExp_ s !! i = Some 15 /\ precHeightExp_ s !! i = Some 15) ->
  forall i w h, (i + n <= Z.to_nat (numresolutions_ s))%nat -> precincts_of s i (w, h) ->
  exists pr, default_precincts n i w h = Ok pr /\ precincts_of s (i + n) pr.
Proof.
  intros Hs H15. induction n as [|n IH]; intros i w h Hi Hp; [by exists (w, h); rewrite Nat.add_0_r|]. pose proof (so_res s Hs).
  destruct (H15 i ltac:(lia)) as [Ea Eb]. pose proof Hp as (Lw & Lh & _). cbn [default_precincts fst snd] in *.
  rewrite set_at_ok by (unfold GRK_MAXRLVLS in *; lia). cbn [rbind]. rewrite set_at_ok by (unfold GRK_MAXRLVLS in *; lia). cbn [rbind].
  replace (i + S n)%nat with (S i + n)%nat by lia. apply IH; [lia|]. apply precincts_of_set; (done || (unfold GRK_MAXRLVLS in *; lia)).
Qed.

Lemma length_concat_bytes {A} (f : A -> list Z) n l : (forall x, length (f x) = n) -> length (concat (f <$> l)) = (n * length l)%nat.
Proof. intros Hf. induction l as [|x l IH]; cbn; [lia|]. rewrite length_app, Hf, IH. lia. Qed.
Lemma length_style_bytes s : 0 <= numresolutions_ s ->
  Z.of_nat (length (style_bytes s)) = 5 + (if custom_precincts s then numresolutions_ s else 0).
Proof.
  intros Hn. unfold style_bytes. rewrite !length_app, !length_be_bytes. destruct (custom_precincts s); [|cbn; lia].
  rewrite (length_concat_bytes _ 1) by (intros; apply length_be_bytes). rewrite length_seqZ. lia.
Qed.

Lemma land_flag_small v : 0 <= v < 128 -> Z.land v dfsReferenceFlag = 0.
Proof.
  intros Hv. unfold dfsReferenceFlag. apply Z.bits_inj'. intros n Hn. rewrite Z.land_spec, Z.bits_0. destruct (Z.eq_dec n 7) as [->|Hne].
  - rewrite Z.testbit_eqb by lia. change (2 ^ 7) with 128. by rewrite Z.div_small, Zmod_0_l by lia.
  - change 128 with (2 ^ 7). by rewrite Z.pow2_bits_false, andb_false_r by lia.
Qed.

Lemma style_read reduce fromCoc s s0 : style_valid s -> style_ok s0 -> custom_precincts s0 = custom_precincts s -> 0 <= reduce < numresolutions_ s ->
  exists r, readSPCodSPCoc reduce fromCoc s0 (style_bytes s) (Z.of_nat (length (style_bytes s))) = Ok (r, 0) /\ same_style s r /\ csty_ r = csty_ s0.
Proof.
  intros (Hs & H0 & Hsty & H15) Hs0 Hc Hred. pose proof (so_res s Hs) as Hr. pose proof (so_sty s Hs). pose proof (so_qmf s Hs).
  destruct (so_cblk s Hs) as [?|(Hw & Hh & Hwh)]; [lia|]. rewrite length_style_bytes by lia. set (extra := if custom_precincts s then _ else _).
  assert (0 <= extra <= 33) by (unfold extra; case_match; lia). unfold readSPCodSPCoc, SPCodSPCocLen. rewrite (proj2 (Z.ltb_ge _ _)) by lia.
  unfold style_bytes. rewrite !(u8_small (_ - _)) by lia. rewrite grk_read_bytes by (cbn; lia). cbn [rbind].
  unfold read_levels. rewrite land_flag_small by lia. cbn [negb Z.eqb]. unfold GRK_MAX_DECOMP_LVLS. rewrite (proj2 (Z.ltb_ge _ _)) by lia. cbn [rbind].
  rewrite u8_small by lia. replace (numresolutions_ s - 1 + 1) with (numresolutions_ s) by lia. rewrite (proj2 (Z.leb_gt _ _)) by lia.
  rewrite grk_read_bytes by (cbn; lia). cbn [rbind]. rewrite grk_read_bytes by (cbn; lia). cbn [rbind].
  assert (cblk_size_ok (cblkw_expn_ s - 2) (cblkh_expn_ s - 2) = true) as ->.
  { unfold cblk_size_ok. rewrite !(proj2 (Z.ltb_ge _ _)) by lia. done. }
  cbn [negb]. rewrite grk_read_bytes by (cbn; lia). cbn [rbind]. rewrite Hsty. cbn [negb]. rewrite grk_read_bytes by (cbn; lia). cbn [rbind].
  rewrite (proj2 (Z.ltb_ge 1 (qmfbid_ s))) by lia. rewrite !(u8_small (_ + 2)) by lia. replace (cblkw_expn_ s - 2 + 2) with (cblkw_expn_ s) by lia.
  replace (cblkh_expn_ s - 2 + 2) with (cblkh_expn_ s) by lia. replace (5 + extra - 5) with extra by lia. rewrite (u16_small extra) by lia. cbv zeta.
  fold (custom_precincts s0). rewrite Hc. unfold extra. pose proof (so_width s0 Hs0). pose proof (so_height s0 Hs0).
  assert (precincts_of s 0 (precWidthExp_ s0, precHeightExp_ s0)) as P0 by (split; [done|]; split; [done|]; intros; lia).
  destruct (custom_precincts s).
  - rewrite (proj2 (Z.ltb_ge _ _)) by lia.
    destruct (read_precincts_written s (Z.to_nat (numresolutions_ s)) Hs 0 _ _ ltac:(lia) P0) as (pr & E & (_ & _ & Hp)).
    unfold precinct_bytes in E. rewrite Z2Nat.id in E by lia. change (Z.of_nat 0) with 0 in E. rewrite E. cbn [rbind].
    eexists. split; [rewrite Z.sub_diag; reflexivity|]. split; [|done]. by constructor.
  - destruct (default_precincts_written s (Z.to_nat (numresolutions_ s)) Hs (H15 eq_refl) 0 _ _ ltac:(lia) P0) as (pr & E & (_ & _ & Hp)).
    rewrite E. cbn [rbind]. eexists. split; [reflexivity|]. split; [|done]. by constructor.
Qed.

(** ** Quantisation *)

(** The quantisation that is read agrees with that of [t], for the bands [t] has. *)
Definition bands_of (t : TileComponentCodingParams) : Z := num_bands (quant_ t) (numresolutions_ (style_ t)).
Definition step_at (q : quantization) (i : nat) : grk_stepsize := nthZ (MkStep 0 0) (stepsizes_ q) (Z.of_nat i).
Definition same_quant (t : TileComponentCodingParams) (r : quantization) : Prop :=
  qntsty_ r = qntsty_ (quant_ t) /\ numgbits_ r = numgbits_ (quant_ t) /\
  forall i, Z.of_nat i < bands_of t -> exists s, stepsizes_ r !! i = Some s /\ expn s = expn (step_at (quant_ t) i) /\
    (qntsty_ r <> CCP_QNTSTY_NOQNT -> mant s = mant (step_at (quant_ t) i)).

Lemma be_chunks_concat {A} room (f : A -> list Z) l : (forall x, length (f x) = room) ->
  be_chunks room (length l) (concat (f <$> l)) = (fun x => be_value (f x)) <$> l.
Proof.
  intros Hf. induction l as [|x l IH]; cbn; [done|]. rewrite take_app_length', drop_app_length' by (symmetry; apply Hf). by rewrite IH.
Qed.

Lemma bands_range t : style_ok (style_ t) -> 0 < numresolutions_ (style_ t) -> 1 <= bands_of t <= 97.
Proof.
  intros Hs H0. pose proof (so_res _ Hs). unfold bands_of, num_bands. case_match; [lia|].
  rewrite wrap_small by (change (2 ^ 32) with 4294967296; lia). lia.
Qed.

Lemma quant_byte q : quant_ok q -> let b := u8 (qntsty_ q + Z.shiftl (numgbits_ q) 5) in
  0 <= b < 256 /\ Z.land b 31 = qntsty_ q /\ Z.shiftr b 5 = numgbits_ q.
Proof.
  intros Hq b. pose proof (qo_sty q Hq). pose proof (qo_guard q Hq). unfold b. rewrite Z.shiftl_mul_pow2 by lia. change (2 ^ 5) with 32.
  rewrite u8_small by lia. change 31 with (Z.ones 5). rewrite Z.land_ones, Z.shiftr_div_pow2 by lia. change (2 ^ 5) with 32. split; [lia|].
  rewrite Z.mod_add, Z.div_add, Z.mod_small, Z.div_small by lia. lia.
Qed.

Lemma step_at_ok q i : quant_ok q -> step_ok (step_at q i).
Proof.
  intros Hq. unfold step_at. rewrite nthZ_default, Nat2Z.id. destruct (stepsizes_ q !! i) as [s|] eqn:E; cbn; [|by repeat split; cbn].
  exact (list.Forall_lookup_1 _ _ _ _ (qo_steps q Hq) E).
Qed.
Lemma noqnt_value q i : quant_ok q -> expn (step_noqnt (be_value (be_bytes 1 (u8 (Z.shiftl (expn (step_at q i)) 3))))) = expn (step_at q i).
Proof.
  intros Hq. destruct (step_at_ok q i Hq) as [He _]. rewrite Z.shiftl_mul_pow2 by lia. change (2 ^ 3) with 8. rewrite (u8_small (_ * 8)) by lia.
  rewrite be_value_bytes by (cbn; lia). unfold step_noqnt. cbn [expn]. rewrite Z.shiftr_div_pow2 by lia. change (2 ^ 3) with 8.
  rewrite Z.div_mul by lia. apply u8_small. lia.
Qed.
Lemma qnt_value q i : quant_ok q ->
  step_qnt (be_value (be_bytes 2 (u16 (u32 (Z.shiftl (expn (step_at q i)) 11) + mant (step_at q i))))) = step_at q i.
Proof.
  intros Hq. destruct (step_at_ok q i Hq) as [He Hm]. rewrite Z.shiftl_mul_pow2 by lia. change (2 ^ 11) with 2048.
  rewrite (wrap_small 32) by (change (2 ^ 32) with 4294967296; lia). rewrite (u16_small (_ + _)) by lia. rewrite be_value_bytes by (cbn; lia).
  unfold step_qnt. rewrite Z.shiftr_div_pow2 by lia. change 0x7ff with (Z.ones 11). rewrite Z.land_ones by lia. change (2 ^ 11) with 2048.
  replace (expn (step_at q i) * 2048 + mant (step_at q i)) with (mant (step_at q i) + expn (step_at q i) * 2048) by lia.
  rewrite Z.div_add, Z.mod_add, Z.div_small, Z.mod_small by lia. rewrite u8_small, u16_small by lia. by destruct (step_at q i).
Qed.

Lemma length_step_bytes q i : length (step_bytes q i) = if qntsty_ q =? CCP_QNTSTY_NOQNT then 1%nat else 2%nat.
Proof. unfold step_bytes. case_match; apply length_be_bytes. Qed.

Lemma quant_body_eq t : quant_ok (quant_ t) -> style_ok (style_ t) -> 0 < numresolutions_ (style_ t) ->
  quant_body t = u8 (qntsty_ (quant_ t) + Z.shiftl (numgbits_ (quant_ t)) 5) :: concat (step_bytes (quant_ t) <$> seqZ 0 (bands_of t)).
Proof.
  intros Hq Hs H0. pose proof (bands_range t Hs H0). destruct (quant_byte _ Hq) as [Hb _]. cbv zeta in Hb. unfold quant_body. rewrite be_bytes_1 by done.
  fold (bands_of t). by rewrite (u8_small (bands_of t)) by lia.
Qed.
Lemma length_quant_steps t : 0 <= bands_of t ->
  length (concat (step_bytes (quant_ t) <$> seqZ 0 (bands_of t))) = ((if (qntsty_ (quant_ t) =? CCP_QNTSTY_NOQNT)%Z then 1 else 2) * Z.to_nat (bands_of t))%nat.
Proof. intros H0. by rewrite (length_concat_bytes _ _ _ (length_step_bytes (quant_ t))), length_seqZ. Qed.

Lemma carries_written t r : quant_ok (quant_ t) -> style_ok (style_ t) -> 0 < numresolutions_ (style_ t) ->
  carries r (announced (quant_body t)) -> same_quant t r.
Proof.
  intros Hq Hs H0. pose proof (bands_range t Hs H0) as Hn. rewrite quant_body_eq by done. destruct (quant_byte _ Hq) as (_ & E1 & E2). cbv zeta in E1, E2.
  unfold announced, carries. rewrite E1, E2. intros (Hsty & Hg & Hst). split; [done|]. split; [done|]. intros i Hi.
  rewrite length_quant_steps in Hst by lia. rewrite Hsty. destruct (Z.eqb_spec (qntsty_ (quant_ t)) CCP_QNTSTY_NOQNT) as [EN|EN].
  - rewrite Nat.mul_1_l in Hst. assert (Z.to_nat (bands_of t) = length (seqZ 0 (bands_of t))) as El by (by rewrite length_seqZ). rewrite El in Hst.
    rewrite (be_chunks_concat 1) in Hst by (intros; by rewrite length_step_bytes, (proj2 (Z.eqb_eq _ _) EN)).
    exists (step_noqnt (be_value (step_bytes (quant_ t) (0 + Z.of_nat i)))). split; [apply Hst; [unfold GRK_MAXBANDS; lia|]|split; [|done]].
    + rewrite !list_lookup_fmap, lookup_seqZ_lt by lia. reflexivity.
    + unfold step_bytes. rewrite (proj2 (Z.eqb_eq _ _) EN), Z.add_0_l. by apply noqnt_value.
  - replace (2 * Z.to_nat (bands_of t) / 2)%nat with (length (seqZ 0 (bands_of t))) in Hst by (rewrite length_seqZ, Nat.mul_comm, Nat.div_mul; lia).
    rewrite (be_chunks_concat 2) in Hst by (intros; by rewrite length_step_bytes, (proj2 (Z.eqb_neq _ _) EN)).
    assert (forall j, Z.of_nat j < bands_of t -> step_qnt (be_value (step_bytes (quant_ t) (0 + Z.of_nat j))) = step_at (quant_ t) j) as Hv.
    { intros j _. unfold step_bytes. rewrite (proj2 (Z.eqb_neq _ _) EN), Z.add_0_l. by apply qnt_value. }
    assert (forall j, Z.of_nat j < bands_of t ->
      (step_qnt <$> ((fun x => be_value (step_bytes (quant_ t) x)) <$> seqZ 0 (bands_of t))) !! j = Some (step_at (quant_ t) j)) as Hl.
    { intros j Hj. rewrite !list_lookup_fmap, lookup_seqZ_lt by lia. cbn. by rewrite Hv. }
    exists (step_at (quant_ t) i). split; [|done]. apply Hst; [unfold GRK_MAXBANDS; lia|].
    destruct (Z.eqb_spec (qntsty_ (quant_ t)) CCP_QNTSTY_SIQNT) as [ES|ES]; [|by apply Hl].
    assert (bands_of t = 1) as E by (unfold bands_of, num_bands; by rewrite (proj2 (Z.eqb_eq _ _) ES)). replace i with 0%nat by lia.
    specialize (Hl 0%nat ltac:(lia)). destruct (step_qnt <$> _); [done|]. exact Hl.
Qed.

Lemma read_steps_total ignore room step n : forall i data steps, (room * n <= length data)%nat -> length steps = GRK_MAXBANDS ->
  exists l, read_steps ignore room step n i data steps = Ok l /\ length l = GRK_MAXBANDS.
Proof.
  induction n as [|n IH]; intros i data steps Hd Hl; cbn [read_steps]; [by eexists|]. unfold grk_read at 1.
  rewrite (proj2 (Nat.leb_le _ _)) by lia. cbn [rbind].
  assert (room * n <= length (drop room data))%nat by (rewrite length_drop; lia).
  destruct (negb ignore && (i <? GRK_MAXBANDS)%nat) eqn:Ei; [|by apply IH].
  apply andb_true_iff in Ei as [_ Ei%Nat.ltb_lt]. rewrite set_at_ok by lia. cbn [rbind]. apply IH; [done|by rewrite length_insert].
Qed.

Lemma length_quant_body t : quant_ok (quant_ t) -> style_ok (style_ t) -> 0 < numresolutions_ (style_ t) ->
  Z.of_nat (length (quant_body t)) = 1 + (if qntsty_ (quant_ t) =? CCP_QNTSTY_NOQNT then 1 else 2) * bands_of t.
Proof.
  intros Hq Hs H0. pose proof (bands_range t Hs H0). rewrite quant_body_eq by done. cbn [length]. rewrite length_quant_steps by lia. case_match; lia.
Qed.
Lemma concat_byte {A} (f : A -> list Z) l : (forall x, Forall byte (f x)) -> Forall byte (concat (f <$> l)).
Proof. intros Hf. induction l; cbn; [constructor|]. by apply list.Forall_app. Qed.
Lemma quant_body_byte t : Forall byte (quant_body t).
Proof.
  unfold quant_body. apply list.Forall_app. split; [apply be_bytes_byte|]. apply concat_byte. intros i. unfold step_bytes. cbv zeta.
  destruct (_ =? _); apply be_bytes_byte.
Qed.

Lemma quant_read_ok ft fq q main t : quant_ok q -> scope_ignored ft fq q = false -> quant_ok (quant_ t) -> style_ok (style_ t) ->
  0 < numresolutions_ (style_ t) ->
  exists q' main', readSQcdSQcc ft fq q main (quant_body t) (Z.of_nat (length (quant_body t))) = Ok (q', main', 0).
Proof.
  intros Hq Hi Ht Hs H0. pose proof (bands_range t Hs H0) as Hn. rewrite length_quant_body, quant_body_eq by done.
  destruct (quant_byte _ Ht) as (_ & E1 & E2). cbv zeta in E1, E2. pose proof (qo_sty _ Ht).
  set (sty := qntsty_ (quant_ t)) in *. set (n := bands_of t) in *. set (room := if sty =? CCP_QNTSTY_NOQNT then 1 else 2).
  assert (1 <= room <= 2) by (unfold room; case_match; lia). unfold readSQcdSQcc. rewrite (proj2 (Z.ltb_ge _ _)) by nia. rewrite grk_read_1. cbn [rbind].
  cbv zeta. rewrite E1, Hi. rewrite (proj2 (Z.ltb_ge CCP_QNTSTY_SEQNT sty)) by (unfold CCP_QNTSTY_SEQNT; lia). cbn [negb andb].
  rewrite (u16_small (1 + room * n - 1)) by nia. replace (1 + room * n - 1) with (room * n) by lia.
  assert ((if sty =? CCP_QNTSTY_SIQNT then 1 else if sty =? CCP_QNTSTY_NOQNT then u8 (room * n) else u8 (room * n / 2)) = n) as ->.
  { unfold n, bands_of, num_bands in *. fold sty in Hn |- *. destruct (Z.eqb_spec sty CCP_QNTSTY_SIQNT); [done|].
    unfold room. destruct (sty =? CCP_QNTSTY_NOQNT); [rewrite Z.mul_1_l; apply u8_small; lia|].
    rewrite Z.mul_comm, Z.div_mul by lia. apply u8_small. lia. }
  assert (Z.of_nat (if sty =? CCP_QNTSTY_NOQNT then 1%nat else 2%nat) = room) as -> by (unfold room; by case_match).
  rewrite (proj2 (Z.ltb_ge _ _)) by lia. cbn [stepsizes_ qntsty_].
  destruct (read_steps_total false (if sty =? CCP_QNTSTY_NOQNT then 1%nat else 2%nat) (if sty =? CCP_QNTSTY_NOQNT then step_noqnt else step_qnt)
    (Z.to_nat n) 0 (concat (step_bytes (quant_ t) <$> seqZ 0 n)) (stepsizes_ q)) as (l & -> & Hl); [|apply Hq|].
  { unfold n. rewrite length_quant_steps by (unfold n in *; lia). fold sty. by destruct (sty =? CCP_QNTSTY_NOQNT). }
  cbn [rbind]. rewrite Z.sub_diag. destruct (sty =? CCP_QNTSTY_SIQNT); [|by do 2 eexists]. unfold derive_steps, get_at.
  destruct (lookup_lt_is_Some_2 l 0 ltac:(rewrite Hl; unfold GRK_MAXBANDS; lia)) as [s0 ->]. cbn [rbind]. by do 2 eexists.
Qed.
Lemma quant_read ft fq q main t : quant_ok q -> scope_ignored ft fq q = false -> quant_ok (quant_ t) -> style_ok (style_ t) ->
  0 < numresolutions_ (style_ t) ->
  exists q' main', readSQcdSQcc ft fq q main (quant_body t) (Z.of_nat (length (quant_body t))) = Ok (q', main', 0) /\
    same_quant t q' /\ flags q' = (true, fq, ft).
Proof.
  intros Hq Hi Ht Hs H0. destruct (quant_read_ok ft fq q main t Hq Hi Ht Hs H0) as (q' & main' & E). exists q', main'. split; [done|].
  pose proof (bands_range t Hs H0). pose proof (length_quant_body t Ht Hs H0) as Hl.
  apply readSQcdSQcc_set in E as [Hf Hc]; [|done|done|split; [apply quant_body_byte|done]|destruct (_ =? _); lia].
  split; [|done]. by apply carries_written.
Qed.

Lemma forallb_seqZ n (f : Z -> bool) i : forallb f (seqZ 0 n) = true -> Z.of_nat i < n -> f (Z.of_nat i) = true.
Proof.
  rewrite forallb_forall. intros Hf Hi. apply Hf. apply list_elem_of_In, list_elem_of_lookup. exists i. apply lookup_seqZ. lia.
Qed.
Lemma compare_quant_same t0 t r : compare_SQcd_SQcc t0 t = true -> same_quant t0 r -> same_quant t r.
Proof.
  unfold compare_SQcd_SQcc. cbv zeta. intros [[[[E1%Z.eqb_eq E2%Z.eqb_eq]%andb_true_iff E3]%andb_true_iff E4]%andb_true_iff E5]%andb_true_iff (H1 & H2 & H3).
  assert (bands_of t = bands_of t0) as En.
  { unfold bands_of, num_bands in *. rewrite <- E1. destruct (qntsty_ (quant_ t0) =? CCP_QNTSTY_SIQNT); [done|]. by apply Z.eqb_eq in E3. }
  split; [congruence|]. split; [congruence|]. intros i Hi. destruct (H3 i ltac:(lia)) as (s & Es & Ee & Em). exists s. split; [done|].
  pose proof (forallb_seqZ _ _ i E4 ltac:(unfold bands_of in *; lia)) as Hx%Z.eqb_eq. split; [etransitivity; [exact Ee|exact Hx]|].
  intros Hne. rewrite (Em Hne). rewrite H1 in Hne. rewrite (proj2 (Z.eqb_neq _ _) Hne) in E5.
  pose proof (forallb_seqZ _ _ i E5 ltac:(unfold bands_of in *; lia)) as Hm%Z.eqb_eq. exact Hm.
Qed.

(** ** Parameters that can be written *)

(** A component as SIZ describes it. *)
Definition siz_comp (c : image_comp) : image_comp := MkComp (prec c) (sgnd c) (dx c) (dy c) 0 0 0 0 0 0.
Definition comp_field (n c : Z) : Prop := 0 <= c /\ if n <=? 256 then c < 256 else c < 65536.
Record prog_valid (n : Z) (x : grk_progression) : Prop := {
  pv_res : 0 <= res_s x < 256 /\ 0 <= res_e x < 256;
  pv_comp : comp_field n (comp_s x) /\ comp_field n (comp_e x);
  pv_lay : 0 <= lay_e x < 65536;
  pv_prog : 0 <= progression x < GRK_NUM_PROGRESSION_ORDERS;
}.
Definition comment_valid (c : bool * list Z) : Prop := (0 < length (snd c))%nat /\ Z.of_nat (length (snd c)) <= 65531 /\ Forall byte (snd c).
Definition word32 (v : Z) : Prop := 0 <= v < 2 ^ 32.

(** The parameters of a compressor: those [CodeStreamCompress::init] leaves, with one coding
    style for all components and any quantisation, and that the decompressor's [reduce] does
    not exceed. *)
Record encodable (dec : DecodingParams) (im : GrkImage) (cp : CodingParams) (p : TileCodingParams) : Prop := {
  en_rsiz : 0 <= rsiz_ cp < 65536 /\ rsiz_ok (rsiz_ cp) = true;
  en_words : word32 (x0 (bounds im)) /\ word32 (y0 (bounds im)) /\ word32 (x1 (bounds im)) /\ word32 (y1 (bounds im));
  en_origin : origin_x0 (bounds im) = x0 (bounds im) /\ origin_y0 (bounds im) = y0 (bounds im);
  en_tiles : word32 (tx0_ (grid_ cp)) /\ word32 (ty0_ (grid_ cp)) /\ word32 (t_width_ (grid_ cp)) /\ word32 (t_height_ (grid_ cp));
  en_geometry : geometry_ok (bounds im) (grid_ cp) = true;
  en_grid : grid_ok (fst (grid_size (bounds im) (grid_ cp))) (snd (grid_size (bounds im) (grid_ cp))) = true;
  en_numcomps : numcomps im = Z.of_nat (length (comps im)) /\ 1 <= numcomps im <= 16384;
  en_comps : Forall comp_ok (comps im);
  en_reduced : exists l, subsampleAndReduce (bounds im) (reduce_ dec) (siz_comp <$> comps im) = Ok l;
  en_reduce : 0 <= reduce_ dec < numresolutions_ (style_ (first_tccp p));
  en_tccps : length (tccps_ p) = length (comps im);
  en_each : Forall (fun t => style_valid (style_ t) /\ quant_ok (quant_ t) /\ 0 <= roishift_ t < 32) (tccps_ p);
  en_csty : Forall (fun t => csty_ (style_ t) = Z.land (tcsty_ p) CCP_CSTY_PRECINCT) (tccps_ p);
  en_same : Forall (fun t => compare_coc (first_tccp p) t = true) (tccps_ p);
  en_cod : 0 <= tcsty_ p < 8 /\ 0 <= prg_ p < GRK_NUM_PROGRESSION_ORDERS /\ 1 <= numLayers_ p < 65536 /\ 0 <= mct_ p <= 1;
  en_poc : hasPoc p = true -> 0 <= numpocs_ p < 33 /\ length (progressionOrderChange_ p) = GRK_MAXRLVLS /\
    Forall (prog_valid (numcomps im)) (progressionOrderChange_ p);
  en_com : Forall comment_valid (comments_ cp) /\ (length (comments_ cp) <= GRK_NUM_COMMENTS_SUPPORTED)%nat;
}.

(** ** SIZ *)

Lemma component_read c data : comp_ok c -> read_component (component_bytes c ++ data) = Ok (siz_comp c, data).
Proof.
  intros (Hp & Hx & Hy). unfold read_component, component_bytes. rewrite <- !app_assoc. rewrite (u8_small (prec c - 1)) by lia.
  set (b := if sgnd c then _ else _). assert (b = prec c - 1 + (if sgnd c then 128 else 0)) as Eb.
  { unfold b. destruct (sgnd c); [|lia]. change (Z.shiftl 1 7) with 128. rewrite u8_small; lia. }
  assert (0 <= b < 256) by (destruct (sgnd c); lia). do 3 (rewrite grk_read_bytes by (cbn; lia); cbn [rbind]).
  change 0x7f with (Z.ones 7). rewrite Z.land_ones, Z.shiftr_div_pow2 by lia. change (2 ^ 7) with 128.
  assert (b mod 128 = prec c - 1 /\ (b / 128 =? 0) = negb (sgnd c)) as [-> ->].
  { rewrite Eb. destruct (sgnd c).
    - replace (prec c - 1 + 128) with (prec c - 1 + 1 * 128) by lia. rewrite Z.mod_add, Z.div_add, Z.mod_small, Z.div_small by lia. done.
    - rewrite Z.add_0_r, Z.mod_small, Z.div_small by lia. done. }
  replace (prec c - 1 + 1) with (prec c) by lia. rewrite u8_small by lia. rewrite !(proj2 (Z.eqb_neq _ _)) by lia. cbn [orb].
  unfold GRK_MAX_SUPPORTED_IMAGE_PRECISION. rewrite (proj2 (Z.ltb_ge _ _)) by lia. rewrite negb_involutive. done.
Qed.
Lemma components_read l : Forall comp_ok l -> read_components (length l) (concat (component_bytes <$> l)) = Ok (siz_comp <$> l).
Proof.
  induction l as [|c l IH]; intros Hf; [done|]. apply list.Forall_cons in Hf as [Hc Hf]. rewrite fmap_cons. cbn [length read_components concat].
  rewrite component_read by done. cbn [rbind]. by rewrite IH.
Qed.

Lemma length_siz_body im cp : numcomps im = Z.of_nat (length (comps im)) -> Z.of_nat (length (siz_body im cp)) = 36 + 3 * numcomps im.
Proof.
  intros Hn. unfold siz_body. cbv zeta. rewrite !length_app, !length_be_bytes. rewrite (length_concat_bytes _ 3); [lia|].
  intros c. unfold component_bytes. by rewrite !length_app, !length_be_bytes.
Qed.

Lemma siz_read dec im cp p : encodable dec im cp p -> exists l,
  subsampleAndReduce (bounds im) (reduce_ dec) (siz_comp <$> comps im) = Ok l /\
  SIZ_read dec new_image new_cp new_tcp (siz_body im cp) (Z.of_nat (length (siz_body im cp))) =
    Ok (MkImage (bounds im) (numcomps im) l,
        MkCp (rsiz_ cp) 0 (replicate 32 0) (grid_ cp) (u16 (fst (grid_size (bounds im) (grid_ cp)))) (u16 (snd (grid_size (bounds im) (grid_ cp)))) [],
        initDefault new_tcp (numcomps im) (siz_comp <$> comps im)).
Proof.
  intros He. destruct (en_reduced _ _ _ _ He) as [l El]. exists l. split; [done|]. destruct (en_numcomps _ _ _ _ He) as [Hn Hn1].
  destruct (en_rsiz _ _ _ _ He) as [Hr Hrs]. destruct (en_words _ _ _ _ He) as (W1 & W2 & W3 & W4). destruct (en_tiles _ _ _ _ He) as (T1 & T2 & T3 & T4).
  unfold word32 in *. change (2 ^ 32) with (256 ^ Z.of_nat 4) in *. rewrite length_siz_body by done. unfold SIZ_read. cbn [numcomps new_image Z.ltb Z.compare].
  rewrite (proj2 (Z.ltb_ge _ _)) by lia. cbv zeta. replace (36 + 3 * numcomps im - 36) with (numcomps im * 3) by lia.
  rewrite !(wrap_small 32 (numcomps im * 3)) by (change (2 ^ 32) with 4294967296; lia). rewrite Z.mod_mul, Z.div_mul by lia. cbn [Z.eqb negb].
  rewrite (u16_small (numcomps im)) by lia. unfold siz_body. cbv zeta. rewrite grk_read_bytes by (cbn; lia). cbn [rbind]. rewrite Hrs. cbn [negb].
  repeat (rewrite grk_read_bytes by done; cbn [rbind]). rewrite grk_read_bytes by (cbn; lia). cbn [rbind].
  rewrite (proj2 (Z.eqb_neq _ _)) by lia. unfold maxNumComponentsJ2K. rewrite (proj2 (Z.ltb_ge _ _)) by lia. rewrite Z.eqb_refl. cbn [negb].
  assert (Rect4 (x0 (bounds im)) (y0 (bounds im)) (x1 (bounds im)) (y1 (bounds im)) = bounds im) as ->.
  { destruct (en_origin _ _ _ _ He). destruct (bounds im). cbn in *. unfold Rect4. congruence. }
  assert (mkTileGrid (tx0_ (grid_ cp)) (ty0_ (grid_ cp)) (t_width_ (grid_ cp)) (t_height_ (grid_ cp)) = grid_ cp) as -> by (by destruct (grid_ cp)).
  rewrite (en_geometry _ _ _ _ He). cbn [negb]. rewrite Hn at 1. rewrite Nat2Z.id, components_read by apply He. cbn [rbind].
  pose proof (en_grid _ _ _ _ He) as Hg. destruct (grid_size (bounds im) (grid_ cp)) as [gw gh]. cbn [fst snd] in *. rewrite Hg. cbn [negb].
  rewrite El. done.
Qed.

(** ** A sequence of segments *)

Definition params : Type := GrkImage -> CodingParams -> TileCodingParams -> Prop.
Definition holds {X} (P : params) (h : header X) : Prop := P (headerImage_ h) (cp_ h) (defaultTcp_ h).

(** The segments without the first marker, up to the one after the SOT marker. *)
Definition next_id (segs : list (Z * list Z)) : Z := match segs with [] => SOT | (id, _) :: _ => id end.
Fixpoint after_id (segs : list (Z * list Z)) (rest : list Z) : list Z :=
  match segs with
  | [] => rest
  | (_, body) :: segs => be_bytes 2 (Z.of_nat (length body) + 2) ++ body ++ be_bytes 2 (next_id segs) ++ after_id segs rest
  end.
Definition segs_bytes (segs : list (Z * list Z)) : list Z := concat ((fun s => segment_bytes (fst s) (snd s)) <$> segs).
Lemma segs_after_id segs rest : segs_bytes segs ++ be_bytes 2 SOT ++ rest = be_bytes 2 (next_id segs) ++ after_id segs rest.
Proof.
  induction segs as [|[id body] segs IH]; [done|]. cbn [next_id after_id]. rewrite <- IH. unfold segs_bytes. rewrite fmap_cons. cbn [concat fst snd].
  unfold segment_bytes. by rewrite <- !app_assoc.
Qed.

Section segments.
(** [Rest] holds of the state of the other readers. *)
Context {X : Type} (init_rest : X -> X) (others : Z -> handler X) (Rest : X -> Prop) (dec : DecodingParams).

Definition marker_id (id : Z) : Prop := 0xff00 <= id < 65536.
(** The segment is accepted wherever [P] holds, and leaves [Q]. *)
Record accepts (id : Z) (body : list Z) (P Q : params) : Prop := {
  ac_size : (0 < length body)%nat /\ Z.of_nat (length body) <= 65533;
  ac_id : marker_id id /\ id <> SOT;
  ac_read : exists f, processor init_rest others dec id = Some f /\
    forall h, holds P h -> exists h', f h body (Z.of_nat (length body)) = Ok h' /\ holds Q h' /\ (Rest (rest_ h) -> Rest (rest_ h'));
}.
Inductive reads : list (Z * list Z) -> params -> params -> Prop :=
| reads_nil (P Q : params) : (forall im cp p, P im cp p -> Q im cp p) -> reads [] P Q
| reads_cons id body segs P Q R : accepts id body P Q -> reads segs Q R -> reads ((id, body) :: segs) P R.

Lemma reads_weaken segs P P' Q : (forall im cp p, P im cp p -> P' im cp p) -> reads segs P' Q -> reads segs P Q.
Proof.
  intros HP Hr. destruct Hr as [P1 Q1 HQ|id body segs' P1 Q1 R Hac Hrs]; [apply reads_nil; auto|]. econstructor; [|exact Hrs].
  destruct Hac as [H1 H2 (f & Hf & Hh)]. constructor; [done|done|]. exists f. split; [done|]. intros h Hh1. apply Hh. by apply HP.
Qed.
Lemma reads_app a b P Q R : reads a P Q -> reads b Q R -> reads (a ++ b) P R.
Proof. induction 1 as [P Q HQ|]; intros; [by apply (reads_weaken _ _ Q)|]. cbn. econstructor; eauto. Qed.
Lemma reads_one id body P Q : accepts id body P Q -> reads [(id, body)] P Q.
Proof. intros. econstructor; [done|by apply reads_nil]. Qed.

Lemma readShort_bytes v data pos : 0 <= v < 65536 -> readShort (pos, be_bytes 2 v ++ data) = Some (v, (pos + 2, data)).
Proof.
  intros Hv. cbn [be_bytes app readShort]. do 2 f_equal. change 255 with (Z.ones 8). rewrite !Z.land_ones, Z.shiftr_div_pow2 by lia. change (2 ^ 8) with 256.
  assert (0 <= v / 256 < 256) by (split; [apply Z.div_pos; lia|apply Z.div_lt_upper_bound; lia]). rewrite (Z.mod_small (v / 256)) by lia.
  pose proof (Z.div_mod v 256). lia.
Qed.

Lemma reads_ids segs P Q : reads segs P Q -> marker_id (next_id segs).
Proof. intros [|id body segs' P' Q' R [_ [Hid _] _] _]; [cbn; unfold marker_id, SOT; lia|exact Hid]. Qed.

Lemma reads_run segs P Q : reads segs P Q -> forall fuel h pos rest f, (length segs < fuel)%nat -> holds P h ->
  exists h' pos', read_markers init_rest others fuel dec (next_id segs) (pos, after_id segs rest) f h =
    Ok (h', foldl (fun f s => see (fst s) f) f segs, (pos', rest)) /\ holds Q h' /\ (Rest (rest_ h) -> Rest (rest_ h')).
Proof.
  induction 1 as [P Q HQ|id body segs P Q R Hac Hsegs IH]; intros fuel h pos rest f Hfuel Hh; (destruct fuel as [|fuel]; [cbn in *; lia|]).
  - exists h, pos. split; [done|]. split; [by apply HQ|done].
  - destruct Hac as [[H0 H1] [Hid Hsot] (p & Hp & Hread)]. destruct (Hread h Hh) as (h1 & E1 & Hh1 & Er1). cbn [next_id after_id read_markers].
    rewrite (proj2 (Z.eqb_neq _ _)) by done. rewrite Hp. rewrite (proj2 (Z.eqb_neq _ _)) by done. rewrite Hp. rewrite readShort_bytes by lia.
    rewrite (proj2 (Z.eqb_neq _ _)) by lia. cbv zeta. replace (Z.of_nat (length body) + 2 - 2) with (Z.of_nat (length body)) by lia.
    rewrite (u16_small (Z.of_nat (length body))) by lia. unfold scratch_process. rewrite Nat2Z.id.
    rewrite (proj2 (Nat.ltb_ge _ _)) by (rewrite !length_app; lia). rewrite take_app_length, drop_app_length, E1. cbn [rbind].
    pose proof (reads_ids _ _ _ Hsegs) as Hnext. unfold marker_id in Hnext. rewrite readShort_bytes by lia.
    assert (id_valid (next_id segs) = true) as -> by (apply Z.leb_le; lia). cbn [negb].
    match goal with |- context [read_markers init_rest others fuel dec _ (?ps, _) ?ff ?hh] =>
      destruct (IH fuel hh ps rest ff ltac:(cbn [length] in Hfuel; lia) Hh1) as (h' & pos' & E & Hh' & Er') end.
    exists h', pos'. rewrite E. split; [done|]. split; [done|auto].
Qed.

Lemma accepts_tcp id body (f : TileCodingParams -> list Z -> Z -> read_result TileCodingParams) (P Q : params) :
  (0 < length body)%nat /\ Z.of_nat (length body) <= 65533 -> marker_id id /\ id <> SOT -> processor init_rest others dec id = Some (on_tcp f) ->
  (forall im cp p, P im cp p -> exists p', f p body (Z.of_nat (length body)) = Ok p' /\ Q im cp p') -> accepts id body P Q.
Proof.
  intros H1 H2 H3 Hf. constructor; [done|done|]. exists (on_tcp f). split; [done|]. intros h Hh. destruct (Hf _ _ _ Hh) as (p' & E & HQ).
  exists (with_tcp h p'). unfold on_tcp. by rewrite E.
Qed.
End segments.
