(* ===== verification/HeaderRoundTrip.v ===== *)
(** The main header from end to end: SIZ, COD, QCD, the QCC segments of the components that
    differ from component 0, POC, RGN and COM, written in this order, are read back. *)
From S2P Require Import Prelude Geometry PLMarker Markers MainHeader OtherMarkers MarkerSafety MarkerQuant MarkerRoundTrip.

Section stages.
Context (dec : DecodingParams) (im0 : GrkImage) (cp0 : CodingParams) (p0 : TileCodingParams).
Hypothesis He : encodable dec im0 cp0 p0.

Definition same_comp (w r : image_comp) : Prop := prec r = prec w /\ sgnd r = sgnd w /\ dx r = dx w /\ dy r = dy w.

(** What is known after SIZ, with [mk] comments read. *)
Record sized (mk : nat) (im : GrkImage) (cp : CodingParams) : Prop := {
  sz_bounds : bounds im = bounds im0;
  sz_comps : numcomps im = numcomps im0 /\ Forall2 same_comp (comps im0) (comps im);
  sz_cp : rsiz_ cp = rsiz_ cp0 /\ grid_ cp = grid_ cp0;
  sz_grid : (t_grid_width_ cp, t_grid_height_ cp) = grid_size (bounds im0) (grid_ cp0);
  sz_com : comments_ cp = take mk (comments_ cp0);
}.
(** What COD sets for the tile. *)
Definition coded (p : TileCodingParams) : Prop :=
  tcsty_ p = tcsty_ p0 /\ prg_ p = prg_ p0 /\ numLayers_ p = numLayers_ p0 /\ mct_ p = mct_ p0 /\ numComps_ p = numcomps im0.
Definition no_poc (p : TileCodingParams) : Prop := hasPoc_ p = false /\ numpocs_ p = 0.
Definition same_poc (p : TileCodingParams) : Prop :=
  hasPoc_ p = true /\ numpocs_ p = numpocs_ p0 /\
  forall i, (i <= Z.to_nat (numpocs_ p0))%nat -> progressionOrderChange_ p !! i = progressionOrderChange_ p0 !! i.

(** Component [c] with parameters [w] at the compressor and [t] here, with the QCC segments
    before [qk] and the RGN segments before [rk] read. *)
Record read_comp (qk rk c : nat) (w t : TileComponentCodingParams) : Prop := {
  rc_style : same_style (style_ w) (style_ t) /\ csty_ (style_ t) = csty_ (style_ w);
  rc_quant : if (c <? qk)%nat && negb (compare_SQcd_SQcc (first_tccp p0) w) then same_quant w (quant_ t)
             else same_quant (first_tccp p0) (quant_ t) /\ flags (quant_ t) = ((c =? 0)%nat, false, false);
  rc_roi : roishift_ t = if (c <? rk)%nat then roishift_ w else 0;
}.
Definition read_comps (R : nat -> TileComponentCodingParams -> TileComponentCodingParams -> Prop) (p : TileCodingParams) : Prop :=
  forall c w t, tccps_ p0 !! c = Some w -> tccps_ p !! c = Some t -> R c w t.

Definition after_siz : params := fun im cp p => sized 0 im cp /\ p = initDefault new_tcp (numcomps im0) (siz_comp <$> comps im0).
Definition after_cod : params := fun im cp p =>
  sized 0 im cp /\ tcp_ok p /\ coded p /\ no_poc p /\
  read_comps (fun _ w t => (same_style (style_ w) (style_ t) /\ csty_ (style_ t) = csty_ (style_ w)) /\ quant_ t = new_quant /\ roishift_ t = 0) p.
Definition stage (qk : nat) (poc : bool) (rk mk : nat) : params := fun im cp p =>
  sized mk im cp /\ tcp_ok p /\ coded p /\ (if poc then same_poc p else no_poc p) /\ read_comps (read_comp qk rk) p.

(** ** Facts of the written parameters *)

Lemma first_lookup : tccps_ p0 !! 0%nat = Some (first_tccp p0).
Proof.
  unfold first_tccp. pose proof (en_tccps _ _ _ _ He). destruct (en_numcomps _ _ _ _ He). destruct (tccps_ p0); [cbn in *; lia|done].
Qed.
Lemma written c w : tccps_ p0 !! c = Some w -> style_valid (style_ w) /\ quant_ok (quant_ w) /\ 0 <= roishift_ w < 32.
Proof. intros E. exact (list.Forall_lookup_1 _ _ _ _ (en_each _ _ _ _ He) E). Qed.
Lemma written_csty c w : tccps_ p0 !! c = Some w -> csty_ (style_ w) = Z.land (tcsty_ p0) CCP_CSTY_PRECINCT.
Proof. intros E. exact (list.Forall_lookup_1 _ _ _ _ (en_csty _ _ _ _ He) E). Qed.

Lemma compare_style_same t0 t r : style_ok (style_ t0) -> style_ok (style_ t) -> compare_coc t0 t = true ->
  same_style (style_ t0) r -> same_style (style_ t) r.
Proof.
  intros H0 Ht. unfold compare_coc, compare_SPCod_SPCoc. cbv zeta. rewrite !andb_true_iff, !Z.eqb_eq.
  intros (_ & ((((((E1 & E2) & E3) & E4) & E5) & E6) & E7)) Hs. constructor; try (rewrite <- ?E1, <- ?E2, <- ?E3, <- ?E4, <- ?E5; apply Hs).
  intros i Hi. rewrite <- E1 in Hi. destruct (ss_prec _ _ Hs i Hi) as [-> ->]. pose proof (so_res _ H0).
  pose proof (forallb_seqZ _ _ i E7 ltac:(lia)) as Hx. apply andb_true_iff in Hx as [Hw%Z.eqb_eq Hh%Z.eqb_eq].
  destruct (style_precinct _ i H0 ltac:(unfold GRK_MAXRLVLS; lia)) as (a & b & Ea & Eb & _).
  destruct (style_precinct _ i Ht ltac:(unfold GRK_MAXRLVLS; lia)) as (a' & b' & Ea' & Eb' & _).
  rewrite !nthZ_default, !Nat2Z.id, Ea, Ea' in Hw. rewrite !nthZ_default, !Nat2Z.id, Eb, Eb' in Hh. cbn in Hw, Hh. split; congruence.
Qed.
Lemma all_styles c w r : tccps_ p0 !! c = Some w -> same_style (style_ (first_tccp p0)) r -> same_style (style_ w) r.
Proof.
  intros E. destruct (written _ _ E) as ((Hs & _) & _). destruct (written _ _ first_lookup) as ((Hs0 & _) & _).
  apply compare_style_same; [done|done|]. exact (list.Forall_lookup_1 _ _ _ _ (en_same _ _ _ _ He) E).
Qed.

(** ** SIZ and COD *)

Lemma reduced_same b r l : forall l', subsampleAndReduce b r (siz_comp <$> l) = Ok l' -> Forall2 same_comp l l'.
Proof.
  induction l as [|c l IH]; intros l'; cbn; [by intros [= <-]|]. rewrite rbind_Ok. intros (c' & Ec & E). apply rbind_Ok in E as (l1 & El & E).
  injection E as <-. constructor; [|by apply IH]. unfold reduce_component in Ec. cbv zeta in Ec. destruct (_ <=? _); [done|]. destruct (_ <=? _); [done|].
  by injection Ec as <-.
Qed.
Lemma grid_u16 : (u16 (fst (grid_size (bounds im0) (grid_ cp0))), u16 (snd (grid_size (bounds im0) (grid_ cp0)))) = grid_size (bounds im0) (grid_ cp0).
Proof.
  pose proof (en_grid _ _ _ _ He) as Hg. unfold grid_size in *. cbn [fst snd] in *. apply grid_ok_spec in Hg as (H1 & H2 & H3); [|apply (wrap_range 32); lia..].
  by rewrite !u16_small by nia.
Qed.

Context {X : Type} (init_rest : X -> X) (others : Z -> handler X) (Rest : X -> Prop).
Abbreviation accepts := (accepts init_rest others Rest dec).
Abbreviation reads := (reads init_rest others Rest dec).

Definition fresh : params := fun im cp p => im = new_image /\ cp = new_cp /\ p = new_tcp.
Lemma accepts_siz : (forall x, Rest x -> Rest (init_rest x)) -> accepts SIZ (siz_body im0 cp0) fresh after_siz.
Proof.
  intros HS.
  destruct (en_numcomps _ _ _ _ He) as [Hn Hn1]. pose proof (length_siz_body im0 cp0 Hn) as Hl.
  constructor; [lia|by unfold marker_id, SIZ, SOT; lia|]. exists (readSIZ init_rest dec). split; [done|]. intros h (E1 & E2 & E3). unfold readSIZ. rewrite E1, E2, E3.
  destruct (siz_read dec im0 cp0 p0 He) as (l & El & ->). cbn [rbind]. eexists. split; [reflexivity|]. split; [|exact (HS _)]. split; [|done]. constructor; cbn; try done.
  - split; [done|]. by apply (reduced_same _ _ _ _ El).
  - apply grid_u16.
Qed.

Lemma init_ok : tcp_ok (initDefault new_tcp (numcomps im0) (siz_comp <$> comps im0)).
Proof.
  destruct (en_numcomps _ _ _ _ He) as [Hn Hn1]. constructor; cbn; try done; try lia; [by rewrite !length_fmap|].
  apply list.Forall_fmap, list.Forall_fmap, list.Forall_true. intros c. split; [exact new_style_ok|]. split; [exact new_quant_ok|cbn; lia].
Qed.

Lemma scod_known : Z.land (tcsty_ p0) (u32 (Z.lnot (Z.lor (Z.lor CP_CSTY_PRT CP_CSTY_SOP) CP_CSTY_EPH))) = 0.
Proof.
  destruct (en_cod _ _ _ _ He) as (H & _). assert (tcsty_ p0 ∈ [0;1;2;3;4;5;6;7]) as Hin.
  { assert (tcsty_ p0 = 0 \/ tcsty_ p0 = 1 \/ tcsty_ p0 = 2 \/ tcsty_ p0 = 3 \/ tcsty_ p0 = 4 \/ tcsty_ p0 = 5 \/ tcsty_ p0 = 6 \/ tcsty_ p0 = 7) by lia.
    set_solver. }
  revert Hin. generalize (tcsty_ p0). apply list.Forall_forall. repeat constructor.
Qed.

Lemma copied_style ref r s : same_style s ref -> length (precWidthExp_ ref) = length (precWidthExp_ r) ->
  length (precHeightExp_ ref) = length (precHeightExp_ r) -> dfsIndex_ r = 0 -> same_style s (copy_style ref r).
Proof.
  intros Hs Lw Lh Hd. constructor; cbn; try apply Hs; [split; [apply Hs|done]|]. intros i Hi.
  rewrite !memcpy_lookup by done. rewrite (ss_res _ _ Hs), (proj2 (Nat.ltb_lt _ _)) by done. by apply Hs.
Qed.

Lemma length_cod_body : Z.of_nat (length (cod_body p0)) = 5 + Z.of_nat (length (style_bytes (style_ (first_tccp p0)))).
Proof. unfold cod_body. rewrite !length_app, !length_be_bytes. lia. Qed.
Lemma length_first_style : 5 <= Z.of_nat (length (style_bytes (style_ (first_tccp p0)))) <= 38.
Proof.
  destruct (written _ _ first_lookup) as ((Hs & H0 & _) & _). pose proof (so_res _ Hs). rewrite length_style_bytes by lia. destruct (custom_precincts _); lia.
Qed.
Lemma cod_body_byte : Forall byte (cod_body p0).
Proof.
  unfold cod_body, style_bytes. repeat (apply list.Forall_app; split; [apply be_bytes_byte|]). destruct (custom_precincts _); [|constructor].
  apply concat_byte. intros. apply be_bytes_byte.
Qed.

Lemma cod_read : exists p, readCod dec (initDefault new_tcp (numcomps im0) (siz_comp <$> comps im0)) (cod_body p0) (Z.of_nat (length (cod_body p0))) = Ok p /\
  coded p /\ no_poc p /\
  read_comps (fun _ w t => (same_style (style_ w) (style_ t) /\ csty_ (style_ t) = csty_ (style_ w)) /\ quant_ t = new_quant /\ roishift_ t = 0) p.
Proof.
  destruct (en_cod _ _ _ _ He) as (Hc & Hp & Hl & Hm). pose proof length_cod_body as Hlen. pose proof length_first_style as Hst.
  destruct (written _ _ first_lookup) as (Hv & _). unfold GRK_NUM_PROGRESSION_ORDERS in *. pose proof (written_csty _ _ first_lookup) as Ecs.
  destruct (en_numcomps _ _ _ _ He) as [Hn Hn1]. rewrite Hlen. unfold readCod. cbv zeta. cbn [cod_ initDefault new_tcp tccps_].
  change (1 <? u32 (0 + 1)) with false. cbv iota. unfold codSocLen. rewrite (proj2 (Z.ltb_ge _ _)) by lia.
  unfold cod_body. rewrite grk_read_bytes by (cbn; lia). cbn [rbind]. rewrite scod_known. cbn [Z.eqb negb].
  rewrite u8_small by lia. rewrite grk_read_bytes by (cbn; lia). cbn [rbind]. unfold GRK_NUM_PROGRESSION_ORDERS. rewrite (proj2 (Z.leb_gt _ _)) by lia.
  rewrite grk_read_bytes by (cbn; lia). cbn [rbind]. rewrite (proj2 (Z.eqb_neq _ _)) by lia. rewrite grk_read_bytes by (cbn; lia). cbn [rbind].
  rewrite (proj2 (Z.ltb_ge _ _)) by lia. set (csty := Z.land (tcsty_ p0) CCP_CSTY_PRECINCT) in *.
  destruct (comps im0) as [|c0 cs] eqn:Ecomps; [cbn in *; lia|]. rewrite !fmap_cons. cbn [get_at lookup list_lookup rbind tail].
  replace (5 + Z.of_nat (length (style_bytes (style_ (first_tccp p0)))) - 5) with (Z.of_nat (length (style_bytes (style_ (first_tccp p0))))) by lia.
  rewrite (u16_small (Z.of_nat _)) by lia.
  destruct (style_read (reduce_ dec) false (style_ (first_tccp p0)) (style_ (apply_style csty (default_tccp (siz_comp c0)))) Hv) as (s & Es & Hs & Hcs).
  { apply with_csty_ok; [exact new_style_ok|]. destruct Hv as [Hv _]. rewrite <- Ecs. apply Hv. }
  { unfold custom_precincts. cbn. by rewrite Ecs. }
  { apply (en_reduce _ _ _ _ He). }
  rewrite Es. cbn [rbind Z.eqb negb]. eexists. split; [reflexivity|]. split; [done|]. split; [done|].
  destruct Hv as (Hv & _). assert (style_ok s) as Hsok.
  { pose proof (readSPCodSPCoc_safe (reduce_ dec) false (style_ (apply_style csty (default_tccp (siz_comp c0)))) (style_bytes (style_ (first_tccp p0)))
      (Z.of_nat (length (style_bytes (style_ (first_tccp p0)))))) as H. rewrite Es in H. apply H; [|split; [|done]|lia].
    - apply with_csty_ok; [exact new_style_ok|]. rewrite <- Ecs. apply Hv.
    - pose proof cod_body_byte as Hb. unfold cod_body in Hb. do 4 (apply list.Forall_app in Hb as [_ Hb]). exact Hb. }
  intros [|c] w t Ew Et.
  - injection Et as <-. split; [split; [by apply (all_styles 0)|]|done]. cbn. rewrite Hcs. cbn. by rewrite (written_csty 0 w Ew).
  - cbn [tccps_] in Et. rewrite lookup_cons, !list_lookup_fmap in Et. destruct (cs !! c) as [c'|]; [|done]. cbn in Et. injection Et as <-. cbn -[copy_style].
    split; [|done]. split; [|by rewrite (written_csty _ _ Ew)]. apply (all_styles (S c)); [done|].
    apply copied_style; cbn; try done; [rewrite (so_width _ Hsok)|rewrite (so_height _ Hsok)]; done.
Qed.
Lemma accepts_cod : accepts COD (cod_body p0) after_siz after_cod.
Proof.
  pose proof length_cod_body as Hlen. pose proof length_first_style as Hst.
  apply accepts_tcp with (f := readCod dec); [lia|by unfold marker_id, COD, SOT; lia|done|]. intros im cp p (Hs & ->).
  destruct cod_read as (p & E & Hc & Hn & Hr). exists p. split; [done|]. split; [done|]. split; [|done].
  pose proof (readCod_safe dec _ (cod_body p0) (Z.of_nat (length (cod_body p0))) init_ok) as Hsafe. rewrite E in Hsafe. apply Hsafe; [|lia].
  split; [apply cod_body_byte|done].
Qed.

(** ** QCD and QCC *)

Lemma forallb_refl {A} (f : A -> Z) l : forallb (fun i => f i =? f i) l = true.
Proof. induction l; cbn; [done|]. by rewrite Z.eqb_refl. Qed.
Lemma compare_quant_refl t : compare_SQcd_SQcc t t = true.
Proof.
  unfold compare_SQcd_SQcc. cbv zeta. rewrite !Z.eqb_refl, !forallb_refl. unfold num_bands. destruct (_ =? CCP_QNTSTY_SIQNT), (_ =? CCP_QNTSTY_NOQNT); try done.
  - by rewrite Z.eqb_refl.
  - by rewrite Z.eqb_refl.
Qed.
Lemma body_size t : style_valid (style_ t) -> quant_ok (quant_ t) -> 2 <= Z.of_nat (length (quant_body t)) <= 195.
Proof.
  intros (Hs & H0 & _) Hq. rewrite length_quant_body by done. pose proof (bands_range t Hs H0). case_match; lia.
Qed.

Lemma accepts_qcd : accepts QCD (quant_body (first_tccp p0)) after_cod (stage 1 false 0 0).
Proof.
  destruct (written _ _ first_lookup) as (Hv & Hq & _). pose proof (body_size _ Hv Hq) as Hb. pose proof Hv as (Hs & H0 & _).
  apply accepts_tcp with (f := readQcd false); [lia|by unfold marker_id, QCD, SOT; lia|done|]. intros im cp p (Hz & Hp & Hc & Hn & Hr).
  pose proof (to_comps p Hp). pose proof (to_some p Hp). pose proof first_lookup as Hf.
  pose proof (readQcd_safe false p (quant_body (first_tccp p0)) (Z.of_nat (length (quant_body (first_tccp p0)))) Hp ltac:(split; [apply quant_body_byte|done]) ltac:(lia)) as Hsafe.
  unfold readQcd in *. destruct (tccps_ p) as [|t0 rest] eqn:Et; [cbn in *; lia|]. cbn [get_at lookup list_lookup rbind tail] in *.
  pose proof Hr as Hr0. specialize (Hr0 0%nat _ t0 Hf ltac:(by rewrite Et)) as (Hst0 & Eq0 & Er0). rewrite Eq0 in *.
  destruct (quant_read false false new_quant (mainQcdQntsty p, mainQcdNumStepSizes p) (first_tccp p0) new_quant_ok eq_refl Hq Hs H0) as (q & main & E & Hsame & Hfl).
  rewrite E in *. cbn [rbind Z.eqb negb] in *. eexists. split; [reflexivity|]. destruct Hsafe as [Hok _]. split; [done|]. split; [done|]. split; [done|]. split; [done|].
  intros [|c] w t Ew Ect.
  - injection Ect as <-. rewrite Hf in Ew. injection Ew as <-. constructor; [done| |done]. rewrite compare_quant_refl, andb_false_r. done.
  - cbn [with_quantization tccps_] in Ect. rewrite lookup_cons, list_lookup_fmap in Ect. destruct (rest !! c) as [t1|] eqn:E1; [|done]. injection Ect as <-.
    destruct (Hr (S c) w t1 Ew ltac:(by rewrite Et)) as (Hst & Eq & Er). constructor; [done| |done].
    assert ((S c <? 1)%nat = false) as -> by (apply Nat.ltb_ge; lia). cbn [andb quant_ with_quant]. rewrite Eq. done.
Qed.

Lemma comp_bytes_room n c : 0 <= c < n -> comp_bytes n c = be_bytes (comp_room n) c.
Proof. intros Hc. unfold comp_bytes, comp_room. destruct (Z.leb_spec n 256); [by rewrite u8_small by lia|done]. Qed.
Lemma comp_room_fits n c : 0 <= c < n -> n <= 65536 -> 0 <= c < 256 ^ Z.of_nat (comp_room n).
Proof. intros. unfold comp_room. destruct (Z.leb_spec n 256); cbn; lia. Qed.

Lemma nth_written c w : tccps_ p0 !! c = Some w -> nthZ new_tccp (tccps_ p0) (Z.of_nat c) = w.
Proof. intros E. apply nthZ_lookup. by rewrite Nat2Z.id. Qed.
Lemma written_lt c w : tccps_ p0 !! c = Some w -> Z.of_nat c < numcomps im0.
Proof. intros E%lookup_lt_Some. pose proof (en_tccps _ _ _ _ He). destruct (en_numcomps _ _ _ _ He). lia. Qed.

Lemma read_lookup (p : TileCodingParams) c w : tcp_ok p -> coded p -> tccps_ p0 !! c = Some w -> exists t, tccps_ p !! c = Some t /\ tccp_ok t.
Proof.
  intros Hp (_ & _ & _ & _ & Hn) E%written_lt. pose proof (to_comps p Hp).
  destruct (lookup_lt_is_Some_2 (tccps_ p) c ltac:(lia)) as [t Et]. exists t. split; [done|]. exact (list.Forall_lookup_1 _ _ _ _ (to_tccps p Hp) Et).
Qed.

Lemma accepts_qcc c w : tccps_ p0 !! c = Some w -> (0 < c)%nat -> compare_SQcd_SQcc (first_tccp p0) w = false ->
  accepts QCC (qcc_body (numcomps im0) p0 (Z.of_nat c)) (stage c false 0 0) (stage (S c) false 0 0).
Proof.
  intros Ew Hc0 Hcmp. destruct (written _ _ Ew) as (Hv & Hq & _). pose proof (body_size _ Hv Hq) as Hb. pose proof Hv as (Hs & H0 & _).
  pose proof (written_lt _ _ Ew) as Hlt. destruct (en_numcomps _ _ _ _ He) as [_ Hn1]. pose proof (comp_room_range (numcomps im0)).
  unfold qcc_body. rewrite comp_bytes_room, (nth_written _ _ Ew) by lia.
  apply accepts_tcp with (f := readQcc false); [rewrite length_app, length_be_bytes; lia|by unfold marker_id, QCC, SOT; lia|done|].
  intros im cp p (Hz & Hp & Hc & Hn & Hr). pose proof Hc as (_ & _ & _ & _ & En).
  destruct (read_lookup p c w Hp Hc Ew) as (t & Et & (_ & Hqt & _)). destruct (Hr c w t Ew Et) as [Hst Hqu Hroi].
  rewrite Nat.ltb_irrefl in Hqu. cbn [andb] in Hqu. destruct Hqu as [_ Hfl]. destruct (Nat.eqb_spec c 0); [lia|].
  destruct (quant_read false true (quant_ t) (mainQcdQntsty p, mainQcdNumStepSizes p) w Hqt ltac:(by rewrite (scope_ignored_flags false true _ _ Hfl)) Hq Hs H0)
    as (q & main & E & Hsame & Hfl'). rewrite <- En.
  assert (read_quant_marker false p (Qcc c (quant_body w)) = Ok (with_quantization p main (<[c := with_quant t q]> (tccps_ p)))) as Erd.
  { cbn [read_quant_marker quant_bytes]. unfold readQcc. cbv zeta. rewrite length_app, length_be_bytes. rewrite (proj2 (Z.ltb_ge _ _)) by lia.
    rewrite grk_read_bytes by (apply comp_room_fits; lia). cbn [rbind]. rewrite (proj2 (Z.leb_gt _ _)) by lia. unfold get_at. rewrite Nat2Z.id, Et. cbn [rbind].
    rewrite En. rewrite u16_small by lia.
    replace (Z.of_nat (comp_room (numcomps im0) + length (quant_body w)) - Z.of_nat (comp_room (numcomps im0))) with (Z.of_nat (length (quant_body w))) by lia.
    rewrite E. cbn [rbind Z.eqb negb]. rewrite set_at_ok by (by apply lookup_lt_Some in Et). done. }
  eexists. split; [exact Erd|]. destruct (quant_marker_keeps false p (Qcc c (quant_body w)) _ Hp ltac:(split; [lia|]; split; [apply quant_body_byte|lia]) Erd) as [Hok _].
  split; [done|]. split; [done|]. split; [done|]. split; [done|]. intros c' w' t' Ew' Et'. cbn [with_quantization tccps_] in Et'.
  destruct (decide (c = c')) as [<-|Hne].
  - rewrite list_lookup_insert_eq in Et' by (by apply lookup_lt_Some in Et). injection Et' as <-. rewrite Ew in Ew'. injection Ew' as <-.
    constructor; [done| |done]. rewrite (proj2 (Nat.ltb_lt _ _)) by lia. by rewrite Hcmp.
  - rewrite list_lookup_insert_ne in Et' by done. destruct (Hr c' w' t' Ew' Et') as [Hst' Hqu' Hroi']. constructor; [done| |done].
    assert ((c' <? S c)%nat = (c' <? c)%nat) as -> by (destruct (Nat.ltb_spec c' (S c)), (Nat.ltb_spec c' c); (done || lia)). done.
Qed.
Lemma skip_qcc c w im cp p : tccps_ p0 !! c = Some w -> compare_SQcd_SQcc (first_tccp p0) w = true -> stage c false 0 0 im cp p -> stage (S c) false 0 0 im cp p.
Proof.
  intros Ew Hcmp (Hz & Hp & Hc & Hn & Hr). split; [done|]. split; [done|]. split; [done|]. split; [done|]. intros c' w' t' Ew' Et'.
  destruct (Hr c' w' t' Ew' Et') as [Hst' Hqu' Hroi']. constructor; [done| |done]. destruct (decide (c = c')) as [<-|Hne].
  - rewrite Ew in Ew'. injection Ew' as <-. rewrite Hcmp, andb_false_r in *. done.
  - assert ((c' <? S c)%nat = (c' <? c)%nat) as -> by (destruct (Nat.ltb_spec c' (S c)), (Nat.ltb_spec c' c); (done || lia)). done.
Qed.

(** ** POC *)

Lemma fmap_nthZ {A B} (f : A -> B) d l n : (n <= length l)%nat -> (fun i => f (nthZ d l i)) <$> seqZ 0 (Z.of_nat n) = f <$> take n l.
Proof.
  intros Hn. apply list_eq. intros i. rewrite !list_lookup_fmap. destruct (Nat.lt_ge_cases i n) as [Hi|Hi].
  - rewrite lookup_seqZ_lt by lia. rewrite lookup_take_lt by done. destruct (lookup_lt_is_Some_2 l i ltac:(lia)) as [x Ex]. rewrite Ex. cbn.
    f_equal. f_equal. apply nthZ_lookup. by rewrite Z.add_0_l, Nat2Z.id.
  - rewrite lookup_seqZ_ge by lia. by rewrite lookup_take_ge.
Qed.
Lemma comp_field_bytes n c : comp_field n c -> comp_bytes n c = be_bytes (comp_room n) c /\ 0 <= c < 256 ^ Z.of_nat (comp_room n).
Proof. unfold comp_field, comp_bytes, comp_room. destruct (n <=? 256); intros [? ?]; [rewrite u8_small by lia|]; (split; [done|cbn; lia]). Qed.
Lemma progression_read n x data : prog_valid n x -> read_progression (comp_room n) (progression_bytes n x ++ data) = Ok (x, data).
Proof.
  intros [[H1 H2] [[E3 H3]%comp_field_bytes [E4 H4]%comp_field_bytes] H5 H6]. unfold progression_bytes, read_progression, GRK_NUM_PROGRESSION_ORDERS in *.
  rewrite E3, E4, <- !app_assoc, (u8_small (progression x)) by lia.
  repeat (rewrite grk_read_bytes by (done || (cbn; lia)); cbn [rbind]). rewrite (proj2 (Z.leb_gt _ _)) by lia. by destruct x.
Qed.
Lemma progressions_read n l : Forall (prog_valid n) l -> read_progressions (length l) (comp_room n) (concat (progression_bytes n <$> l)) = Ok l.
Proof.
  induction l as [|x l IH]; intros Hf; [done|]. apply list.Forall_cons in Hf as [Hx Hf]. rewrite fmap_cons. cbn [length read_progressions concat].
  rewrite progression_read by done. cbn [rbind]. by rewrite IH.
Qed.
Lemma store_progressions_lookup new : forall i l, (i + length new <= length l)%nat -> store_progressions i new l = Ok (list_inserts i new l).
Proof.
  induction new as [|x new IH]; intros i l Hi; [done|]. cbn [store_progressions list_inserts length] in *. rewrite set_at_ok by lia. cbn [rbind].
  rewrite IH by (rewrite length_insert; lia). by rewrite list_insert_inserts_lt by lia.
Qed.
Lemma length_progression_bytes n x : length (progression_bytes n x) = (5 + 2 * comp_room n)%nat.
Proof.
  unfold progression_bytes, comp_bytes, comp_room. destruct (n <=? 256); rewrite !length_app, !length_be_bytes; done.
Qed.

Definition written_pocs : list grk_progression := take (Z.to_nat (numpocs_ p0 + 1)) (progressionOrderChange_ p0).
Lemma poc_body_eq : hasPoc p0 = true -> poc_body (numcomps im0) p0 = concat (progression_bytes (numcomps im0) <$> written_pocs).
Proof.
  intros Hpoc. destruct (en_poc _ _ _ _ He Hpoc) as (Hn & Hl & _). unfold poc_body, getNumProgressions, written_pocs.
  rewrite (wrap_small 32) by (change (2 ^ 32) with 4294967296; lia).
  rewrite <- (fmap_nthZ (progression_bytes (numcomps im0)) new_prog) by (rewrite Hl; unfold GRK_MAXRLVLS; lia). by rewrite Z2Nat.id by lia.
Qed.

Lemma accepts_poc : hasPoc p0 = true -> accepts POC (poc_body (numcomps im0) p0) (stage (length (comps im0)) false 0 0) (stage (length (comps im0)) true 0 0).
Proof.
  intros Hpoc. destruct (en_poc _ _ _ _ He Hpoc) as (Hn & Hl & Hf). rewrite poc_body_eq by done. pose proof (comp_room_range (numcomps im0)) as Hroom.
  set (room := comp_room (numcomps im0)) in *. set (new := written_pocs).
  assert (length new = Z.to_nat (numpocs_ p0 + 1)) as Hnew by (unfold new, written_pocs; rewrite length_take, Hl; unfold GRK_MAXRLVLS; lia).
  assert (Forall (prog_valid (numcomps im0)) new) as Hfn by (by apply list.Forall_take).
  assert (Forall byte (concat (progression_bytes (numcomps im0) <$> new))) as Hby.
  { apply concat_byte. intros x. unfold progression_bytes, comp_bytes.
    destruct (numcomps im0 <=? 256); repeat (apply list.Forall_app; split; [apply be_bytes_byte|]); apply be_bytes_byte. }
  pose proof (length_concat_bytes (progression_bytes (numcomps im0)) _ new (length_progression_bytes (numcomps im0))) as Hlen. fold room in Hlen.
  apply accepts_tcp with (f := fun p data size => readPoc p data size (-1)); [rewrite Hlen; nia|by unfold marker_id, POC, SOT; lia|done|].
  intros im cp p (Hz & Hp & Hc & (Hn1 & Hn2) & Hr). pose proof Hc as (_ & _ & _ & _ & En). pose proof (to_pocs p Hp) as Hpo.
  pose proof (readPoc_safe p (concat (progression_bytes (numcomps im0) <$> new)) (Z.of_nat (length (concat (progression_bytes (numcomps im0) <$> new)))) Hp
    ltac:(by split) ltac:(rewrite Hlen; nia)) as Hsafe.
  assert (readPoc p (concat (progression_bytes (numcomps im0) <$> new)) (Z.of_nat (length (concat (progression_bytes (numcomps im0) <$> new)))) (-1) =
    Ok (MkTcp (tcsty_ p) (prg_ p) (numLayers_ p) (layersToDecompress_ p) (mct_ p) (numpocs_ p0) true (list_inserts 0 new (progressionOrderChange_ p)) (pocLists_ p)
      (mainQcdQntsty p) (mainQcdNumStepSizes p) (cod_ p) (sawCoc_ p) (numComps_ p) (tccps_ p))) as E.
  { unfold readPoc. cbv zeta. rewrite En. fold room. rewrite Hlen, Nat2Z.inj_mul, Nat2Z.inj_add, Nat2Z.inj_mul, Z.mul_comm. change (Z.of_nat 5) with 5. change (Z.of_nat 2) with 2.
    rewrite Z.div_mul, Z.mod_mul by lia. rewrite (proj2 (Z.eqb_neq _ _)) by lia. cbn [Z.eqb negb orb]. rewrite Nat2Z.id. unfold room. rewrite progressions_read by done.
    cbn [rbind]. rewrite Hn1. rewrite Z.add_0_l, (wrap_small 32 (Z.of_nat (length new))) by (change (2 ^ 32) with 4294967296; lia).
    change (Z.of_nat GRK_MAXRLVLS) with 33. rewrite (proj2 (Z.ltb_ge _ _)) by lia. change (Z.to_nat 0) with 0%nat.
    rewrite store_progressions_lookup by (rewrite Hpo; unfold GRK_MAXRLVLS; lia). cbn [rbind]. rewrite (wrap_small 32) by (change (2 ^ 32) with 4294967296; lia).
    replace (Z.of_nat (length new) - 1) with (numpocs_ p0) by lia. done. }
  rewrite E in Hsafe. eexists. split; [exact E|]. destruct Hsafe as [Hok _]. split; [done|]. split; [done|]. split; [done|]. split; [|done].
  split; [done|]. split; [done|]. intros i Hi. cbn [progressionOrderChange_]. rewrite list_lookup_inserts by (rewrite ?Hpo; unfold GRK_MAXRLVLS; lia).
  rewrite Nat.sub_0_r. unfold new, written_pocs. by rewrite lookup_take_lt by lia.
Qed.

(** ** RGN and COM *)

Lemma roi_step poc c im cp p p' w t : tccps_ p0 !! c = Some w -> tccps_ p !! c = Some t -> stage (length (comps im0)) poc c 0 im cp p -> tcp_ok p' ->
  p' = with_tccps p (<[c := with_roishift t (roishift_ w)]> (tccps_ p)) -> stage (length (comps im0)) poc (S c) 0 im cp p'.
Proof.
  intros Ew Et (Hz & Hp & Hc & Hn & Hr) Hp' ->. split; [done|]. split; [done|]. split; [done|]. split; [by destruct poc|].
  intros c' w' t' Ew' Et'. cbn [with_tccps tccps_] in Et'. destruct (decide (c = c')) as [<-|Hne].
  - rewrite list_lookup_insert_eq in Et' by (by apply lookup_lt_Some in Et). injection Et' as <-. rewrite Ew in Ew'. injection Ew' as <-.
    destruct (Hr c w t Ew Et) as [Hst Hqu _]. constructor; [done|done|]. by rewrite (proj2 (Nat.ltb_lt c (S c))) by lia.
  - rewrite list_lookup_insert_ne in Et' by done. destruct (Hr c' w' t' Ew' Et') as [Hst Hqu Hroi]. constructor; [done|done|]. rewrite Hroi.
    by assert ((c' <? S c)%nat = (c' <? c)%nat) as -> by (destruct (Nat.ltb_spec c' (S c)), (Nat.ltb_spec c' c); (done || lia)).
Qed.
Lemma accepts_rgn poc c w : tccps_ p0 !! c = Some w ->
  accepts RGN (rgn_body (numcomps im0) w (Z.of_nat c)) (stage (length (comps im0)) poc c 0) (stage (length (comps im0)) poc (S c) 0).
Proof.
  intros Ew. destruct (written _ _ Ew) as (_ & _ & Hroi). pose proof (written_lt _ _ Ew) as Hlt. destruct (en_numcomps _ _ _ _ He) as [_ Hn1].
  pose proof (comp_room_range (numcomps im0)) as Hroom. unfold rgn_body. rewrite comp_bytes_room, u8_small by lia. set (body := be_bytes _ _ ++ _).
  assert (Z.of_nat (length body) = 2 + Z.of_nat (comp_room (numcomps im0))) as Hlen by (unfold body; rewrite !length_app, !length_be_bytes; lia).
  assert (Forall byte body) as Hby by (unfold body; repeat (apply list.Forall_app; split; [apply be_bytes_byte|]); apply be_bytes_byte).
  apply accepts_tcp with (f := readRgn); [lia|by unfold marker_id, RGN, SOT; lia|done|].
  intros im cp p Hst. pose proof Hst as (_ & Hp & Hc & _). pose proof Hc as (_ & _ & _ & _ & En). destruct (read_lookup p c w Hp Hc Ew) as (t & Et & _).
  pose proof (readRgn_safe p body (Z.of_nat (length body)) Hp ltac:(by split)) as Hsafe.
  assert (readRgn p body (Z.of_nat (length body)) = Ok (with_tccps p (<[c := with_roishift t (roishift_ w)]> (tccps_ p)))) as E.
  { unfold readRgn. cbv zeta. rewrite En, Hlen, Z.eqb_refl. cbn [negb]. unfold body. rewrite grk_read_bytes by (apply comp_room_fits; lia). cbn [rbind].
    rewrite grk_read_bytes by (cbn; lia). cbn [rbind Z.eqb negb]. rewrite (proj2 (Z.leb_gt _ _)) by lia.
    rewrite <- (app_nil_r (be_bytes 1 (roishift_ w))). rewrite grk_read_bytes by (cbn; lia). cbn [rbind]. unfold get_at. rewrite Nat2Z.id, Et. cbn [rbind].
    rewrite (proj2 (Z.leb_gt _ _)) by lia. rewrite set_at_ok by (by apply lookup_lt_Some in Et). done. }
  rewrite E in Hsafe. eexists. split; [exact E|]. destruct Hsafe as [Hok _]. by eapply roi_step.
Qed.
Lemma skip_rgn poc c w im cp p : tccps_ p0 !! c = Some w -> roishift_ w = 0 -> stage (length (comps im0)) poc c 0 im cp p ->
  stage (length (comps im0)) poc (S c) 0 im cp p.
Proof.
  intros Ew H0 (Hz & Hp & Hc & Hn & Hr). split; [done|]. split; [done|]. split; [done|]. split; [done|]. intros c' w' t' Ew' Et'.
  destruct (Hr c' w' t' Ew' Et') as [Hst' Hqu' Hroi']. constructor; [done|done|]. rewrite Hroi'. destruct (decide (c = c')) as [<-|Hne].
  - rewrite Ew in Ew'. injection Ew' as <-. rewrite H0. by destruct (c <? c)%nat, (c <? S c)%nat.
  - by assert ((c' <? S c)%nat = (c' <? c)%nat) as -> by (destruct (Nat.ltb_spec c' (S c)), (Nat.ltb_spec c' c); (done || lia)).
Qed.

Lemma accepts_com n poc m c : comments_ cp0 !! m = Some c -> accepts COM (com_body c) (stage n poc n m) (stage n poc n (S m)).
Proof.
  intros Ec. destruct (en_com _ _ _ _ He) as [Hf Hmax]. destruct (list.Forall_lookup_1 _ _ _ _ Hf Ec) as (H0 & H1 & Hby). apply lookup_lt_Some in Ec as Hm.
  assert (Z.of_nat (length (com_body c)) = 2 + Z.of_nat (length (snd c))) as Hlen by (unfold com_body; rewrite length_app, length_be_bytes; lia).
  constructor; [lia|by unfold marker_id, COM, SOT; lia|]. exists (on_cp readCom). split; [done|]. intros h (Hz & Hp & Hc & Hn & Hr).
  assert (readCom (cp_ h) (com_body c) (Z.of_nat (length (com_body c))) =
    Ok (MkCp (rsiz_ (cp_ h)) (pcap_ (cp_ h)) (ccap_ (cp_ h)) (grid_ (cp_ h)) (t_grid_width_ (cp_ h)) (t_grid_height_ (cp_ h)) (comments_ (cp_ h) ++ [c]))) as E.
  { unfold readCom. rewrite Hlen. rewrite (proj2 (Z.ltb_ge _ _)), (proj2 (Z.eqb_neq _ _)) by lia. rewrite (sz_com _ _ _ Hz), length_take.
    rewrite (proj2 (Nat.eqb_neq _ _)) by (unfold GRK_NUM_COMMENTS_SUPPORTED in *; lia). unfold com_body. rewrite grk_read_bytes by (destruct (fst c); cbn; lia). cbn [rbind].
    replace (2 + Z.of_nat (length (snd c)) - 2) with (Z.of_nat (length (snd c))) by lia. rewrite u16_small, Nat2Z.id by lia. rewrite Nat.ltb_irrefl, (take_ge (snd c)) by lia.
    destruct c as [[] bs]; done. }
  exists (with_cp h (MkCp (rsiz_ (cp_ h)) (pcap_ (cp_ h)) (ccap_ (cp_ h)) (grid_ (cp_ h)) (t_grid_width_ (cp_ h)) (t_grid_height_ (cp_ h)) (comments_ (cp_ h) ++ [c]))).
  unfold on_cp. rewrite E. split; [done|]. split; [|done]. split; [|done]. destruct Hz as [Z1 Z2 Z3 Z4 Z5]. constructor; cbn; try done.
  rewrite Z5. symmetry. by apply take_S_r.
Qed.

(** ** The whole header *)

Definition qcc_segs (cs : list Z) : list (Z * list Z) :=
  concat ((fun c => if compare_SQcd_SQcc (first_tccp p0) (nthZ new_tccp (tccps_ p0) c) then [] else [(QCC, qcc_body (numcomps im0) p0 c)]) <$> cs).
Definition rgn_segs (cs : list Z) : list (Z * list Z) :=
  concat ((fun c => let t := nthZ new_tccp (tccps_ p0) c in if roishift_ t =? 0 then [] else [(RGN, rgn_body (numcomps im0) t c)]) <$> cs).
Definition poc_segs : list (Z * list Z) := if hasPoc p0 then [(POC, poc_body (numcomps im0) p0)] else [].
Definition com_segs (cs : list (bool * list Z)) : list (Z * list Z) := (fun c => (COM, com_body c)) <$> cs.
Definition header_segs : list (Z * list Z) :=
  [(SIZ, siz_body im0 cp0); (COD, cod_body p0); (QCD, quant_body (first_tccp p0))] ++ qcc_segs (seqZ 1 (numcomps im0 - 1)) ++ poc_segs ++
  rgn_segs (seqZ 0 (numcomps im0)) ++ com_segs (comments_ cp0).

Lemma lookup_seq_cons {A} (l : list A) i : (i < length l)%nat -> exists x, l !! i = Some x.
Proof. intros Hi. by apply lookup_lt_is_Some_2. Qed.

(** Segments for the components from [c] on. *)
Lemma reads_from (seg : Z -> list (Z * list Z)) (P : nat -> params) n : forall c,
  (forall i, (c <= i < c + n)%nat -> reads (seg (Z.of_nat i)) (P i) (P (S i))) ->
  reads (concat (seg <$> seqZ (Z.of_nat c) (Z.of_nat n))) (P c) (P (c + n)%nat).
Proof.
  induction n as [|n IH]; intros c Hseg; [rewrite Nat.add_0_r; by apply reads_nil|]. rewrite seqZ_cons by lia. rewrite fmap_cons. cbn [concat].
  eapply reads_app; [apply Hseg; lia|]. replace (Z.succ (Z.of_nat c)) with (Z.of_nat (S c)) by lia. replace (Z.pred (Z.of_nat (S n))) with (Z.of_nat n) by lia.
  replace (c + S n)%nat with (S c + n)%nat by lia. apply IH. intros i Hi. apply Hseg. lia.
Qed.

Lemma reads_header : (forall x, Rest x -> Rest (init_rest x)) -> reads header_segs fresh (stage (length (comps im0)) (hasPoc p0) (length (comps im0)) (length (comments_ cp0))).
Proof.
  intros HS. destruct (en_numcomps _ _ _ _ He) as [Hn Hn1]. pose proof (en_tccps _ _ _ _ He) as Ht. set (n := length (comps im0)) in *.
  unfold header_segs. cbn [app]. eapply reads_cons; [by apply accepts_siz|]. eapply reads_cons; [apply accepts_cod|]. eapply reads_cons; [apply accepts_qcd|].
  apply (reads_app _ _ _ _ _ _ _ (stage n false 0 0)).
  { unfold qcc_segs. replace (numcomps im0 - 1) with (Z.of_nat (n - 1)) by lia. change 1 with (Z.of_nat 1) at 1.
    assert (n = 1 + (n - 1))%nat as En by lia. rewrite En at 2. apply (reads_from _ (fun i => stage i false 0 0)). intros i Hi.
    destruct (lookup_seq_cons (tccps_ p0) i ltac:(lia)) as [w Ew]. rewrite (nth_written _ _ Ew). destruct (compare_SQcd_SQcc (first_tccp p0) w) eqn:Ec.
    - apply reads_nil. intros im cp p. by apply (skip_qcc i w).
    - apply reads_one. by apply (accepts_qcc i w); [|lia|]. }
  apply (reads_app _ _ _ _ _ _ _ (stage n (hasPoc p0) 0 0)).
  { unfold poc_segs. destruct (hasPoc p0) eqn:Hpoc; [by apply reads_one, accepts_poc|by apply reads_nil]. }
  apply (reads_app _ _ _ _ _ _ _ (stage n (hasPoc p0) n 0)).
  { unfold rgn_segs. replace (seqZ 0 (numcomps im0)) with (seqZ (Z.of_nat 0) (Z.of_nat n)) by (by rewrite Hn). apply (reads_from _ (fun i => stage n (hasPoc p0) i 0) n 0). intros i Hi.
    destruct (lookup_seq_cons (tccps_ p0) i ltac:(lia)) as [w Ew]. rewrite (nth_written _ _ Ew). cbv zeta. destruct (Z.eqb_spec (roishift_ w) 0) as [E0|E0].
    - apply reads_nil. intros im cp p. by apply (skip_rgn _ i w).
    - by apply reads_one, accepts_rgn. }
  assert (forall cs m, comments_ cp0 = take m (comments_ cp0) ++ cs -> (m + length cs = length (comments_ cp0))%nat ->
    reads (com_segs cs) (stage n (hasPoc p0) n m) (stage n (hasPoc p0) n (length (comments_ cp0)))) as Hcom; [|by apply (Hcom _ 0%nat)].
  induction cs as [|c cs IH]; intros m Ecs Hm; cbn [length] in Hm.
  - replace m with (length (comments_ cp0)) by lia. by apply reads_nil.
  - assert (comments_ cp0 !! m = Some c) as Ec.
    { rewrite Ecs. rewrite lookup_app_r by (rewrite length_take; lia). rewrite length_take, Nat.min_l, Nat.sub_diag by lia. done. }
    eapply reads_cons; [by apply (accepts_com n _ m c)|]. apply IH; [|lia]. rewrite (take_S_r _ _ _ Ec), <- app_assoc. exact Ecs.
Qed.

(** ** What the compressor writes *)

Context {K : Type} `{Laws : StreamLaws K}.
Abbreviation writes := (@writes K _ _).

(** A segment whose length field is right. *)
Lemma writes_segment id size body (w : bstep K) : writes w body -> u16 (size - 2) = Z.of_nat (length body) + 2 ->
  writes (write_n 2 id ;;; write_n 2 (u16 (size - 2)) ;;; w) (segment_bytes id body).
Proof. intros Hw ->. unfold segment_bytes. auto with writes. Qed.

Lemma writes_style t : writes (write_SPCod_SPCoc t) (style_bytes (style_ t)).
Proof. unfold write_SPCod_SPCoc, style_bytes, custom_precincts. cbv zeta. repeat (apply writes_seq; [apply writes_n|]). by auto with writes. Qed.
Lemma writes_quant t : writes (write_SQcd_SQcc t) (quant_body t).
Proof.
  unfold write_SQcd_SQcc, quant_body. cbv zeta. apply writes_seq; [apply writes_n|]. apply writes_each. intros i. unfold step_bytes. cbv zeta. auto with writes.
Qed.
Lemma writes_comp_no n c : writes (write_comp_no n c) (comp_bytes n c).
Proof. unfold write_comp_no, comp_bytes. auto with writes. Qed.

Lemma writes_siz : writes (SIZ_write im0 cp0) (segment_bytes SIZ (siz_body im0 cp0)).
Proof.
  destruct (en_numcomps _ _ _ _ He) as [Hn Hn1]. unfold SIZ_write. cbv zeta. apply writes_segment.
  - unfold siz_body. cbv zeta. repeat (apply writes_seq; [apply writes_n|]). apply writes_each. intros c. unfold write_component, component_bytes. cbv zeta. auto with writes.
  - rewrite length_siz_body by done. rewrite (wrap_small 32) by (change (2 ^ 32) with 4294967296; lia). rewrite u16_small by lia. lia.
Qed.
Lemma style_size t : style_valid (style_ t) -> get_SPCod_SPCoc_size t = Z.of_nat (length (style_bytes (style_ t))) /\ 5 <= get_SPCod_SPCoc_size t <= 38.
Proof.
  intros (Hs & H0 & _). pose proof (so_res _ Hs). unfold get_SPCod_SPCoc_size, SPCodSPCocLen. cbv zeta. fold (custom_precincts (style_ t)). rewrite length_style_bytes by lia.
  destruct (custom_precincts _); rewrite (wrap_small 32) by (change (2 ^ 32) with 4294967296; lia); lia.
Qed.
Lemma writes_cod : writes (write_cod p0) (segment_bytes COD (cod_body p0)).
Proof.
  destruct (written _ _ first_lookup) as (Hv & _). destruct (style_size _ Hv) as [Es Hs]. unfold write_cod. cbv zeta. apply writes_segment.
  - unfold cod_body. do 4 (apply writes_seq; [apply writes_n|]). apply writes_style.
  - rewrite length_cod_body, <- Es. rewrite (wrap_small 32) by (change (2 ^ 32) with 4294967296; lia). rewrite u16_small; lia.
Qed.
Lemma quant_size t : style_valid (style_ t) -> quant_ok (quant_ t) -> get_SQcd_SQcc_size t = Z.of_nat (length (quant_body t)).
Proof.
  intros (Hs & H0 & _) Hq. pose proof (bands_range t Hs H0). rewrite length_quant_body by done. unfold get_SQcd_SQcc_size. cbv zeta. fold (bands_of t).
  destruct (_ =? _); rewrite (wrap_small 32) by (change (2 ^ 32) with 4294967296; lia); lia.
Qed.
Lemma writes_qcd : writes (write_qcd p0) (segment_bytes QCD (quant_body (first_tccp p0))).
Proof.
  destruct (written _ _ first_lookup) as (Hv & Hq & _). pose proof (body_size _ Hv Hq). unfold write_qcd. cbv zeta. apply writes_segment; [apply writes_quant|].
  rewrite quant_size by done. rewrite (wrap_small 32) by (change (2 ^ 32) with 4294967296; lia). rewrite u16_small; lia.
Qed.
Lemma writes_qcc c w : tccps_ p0 !! c = Some w -> writes (write_qcc (numcomps im0) p0 (Z.of_nat c)) (segment_bytes QCC (qcc_body (numcomps im0) p0 (Z.of_nat c))).
Proof.
  intros Ew. destruct (written _ _ Ew) as (Hv & Hq & _). pose proof (body_size _ Hv Hq). pose proof (written_lt _ _ Ew). unfold write_qcc, qcc_body. cbv zeta.
  rewrite (nth_written _ _ Ew), quant_size by done. rewrite (wrap_small 32) by (change (2 ^ 32) with 4294967296; lia).
  apply writes_segment; [apply writes_seq; [apply writes_comp_no|apply writes_quant]|].
  rewrite length_app, comp_bytes_room, length_be_bytes by lia. unfold comp_room. destruct (numcomps im0 <=? 256); rewrite u16_small; lia.
Qed.
Lemma writes_rgn c w : tccps_ p0 !! c = Some w -> writes (write_rgn (numcomps im0) w (Z.of_nat c)) (segment_bytes RGN (rgn_body (numcomps im0) w (Z.of_nat c))).
Proof.
  intros Ew. pose proof (written_lt _ _ Ew). pose proof (comp_room_range (numcomps im0)). unfold write_rgn, rgn_body. cbv zeta. apply writes_segment.
  - repeat (apply writes_seq; [first [apply writes_comp_no|apply writes_n]|]). apply writes_n.
  - rewrite !length_app, comp_bytes_room, !length_be_bytes by lia. rewrite u16_small; lia.
Qed.
Lemma writes_poc : hasPoc p0 = true -> writes (writePoc (numcomps im0) p0) (segment_bytes POC (poc_body (numcomps im0) p0)).
Proof.
  intros Hpoc. destruct (en_poc _ _ _ _ He Hpoc) as (Hn & Hl & _). pose proof (comp_room_range (numcomps im0)). unfold writePoc. apply writes_segment.
  - unfold poc_body. apply writes_each. intros i. unfold write_progression, progression_bytes.
    repeat (apply writes_seq; [first [apply writes_comp_no|apply writes_n]|]). apply writes_n.
  - rewrite poc_body_eq by done. rewrite (length_concat_bytes _ _ _ (length_progression_bytes (numcomps im0))). unfold written_pocs. rewrite length_take, Hl.
    unfold getPocSize, getNumProgressions. rewrite (wrap_small 32) by (change (2 ^ 32) with 4294967296; lia). rewrite Nat.min_l by (unfold GRK_MAXRLVLS; lia).
    rewrite (u16_small (4 + _)) by nia. rewrite u16_small by nia. nia.
Qed.

Lemma writes_none {A} (f : A -> bstep K) l : (forall x, x ∈ l -> writes (f x) []) -> writes (write_each f l) [].
Proof.
  induction l as [|x l IH]; intros Hf; cbn; [apply writes_ret|]. change (@nil Z) with (@nil Z ++ []). apply writes_seq; [apply Hf; set_solver|apply IH; set_solver].
Qed.
Lemma writes_each_in {A} (f : A -> bstep K) (g : A -> list (Z * list Z)) l : (forall x, x ∈ l -> writes (f x) (segs_bytes (g x))) ->
  writes (write_each f l) (segs_bytes (concat (g <$> l))).
Proof.
  induction l as [|x l IH]; intros Hf; [apply writes_ret|]. rewrite fmap_cons. cbn [concat write_each]. unfold segs_bytes in *. rewrite fmap_app, concat_app.
  apply writes_seq; [apply Hf; set_solver|apply IH; set_solver].
Qed.
Lemma seqZ_written x lo n : x ∈ seqZ lo n -> 0 <= lo -> lo + n <= numcomps im0 -> exists c w, x = Z.of_nat c /\ tccps_ p0 !! c = Some w.
Proof.
  intros Hx Hlo Hn. apply list_elem_of_lookup in Hx as [i Hi]. apply lookup_seqZ in Hi as [-> Hi]. destruct (en_numcomps _ _ _ _ He). pose proof (en_tccps _ _ _ _ He).
  destruct (lookup_lt_is_Some_2 (tccps_ p0) (Z.to_nat (lo + Z.of_nat i)) ltac:(lia)) as [w Ew]. exists (Z.to_nat (lo + Z.of_nat i)), w. split; [lia|done].
Qed.
Lemma concat_singletons {A B} (g : A -> B) l : concat ((fun x => [g x]) <$> l) = g <$> l.
Proof. induction l as [|x l IH]; [done|]. rewrite !fmap_cons. cbn [concat app]. by rewrite IH. Qed.
Lemma one_seg id body : segs_bytes [(id, body)] = segment_bytes id body.
Proof. unfold segs_bytes. cbn. by rewrite app_nil_r. Qed.

Lemma writes_header : writes (write_main_header im0 cp0 p0) (be_bytes 2 SOC ++ segs_bytes header_segs).
Proof.
  destruct (en_numcomps _ _ _ _ He) as [Hn Hn1]. unfold write_main_header. cbv zeta. apply writes_seq; [apply writes_n|].
  unfold header_segs, segs_bytes. rewrite !fmap_app, !fmap_cons, !concat_app. cbn [concat fmap list_fmap fst snd]. rewrite app_nil_r, <- !app_assoc.
  apply writes_seq; [apply writes_siz|]. apply writes_seq; [apply writes_cod|]. apply writes_seq; [apply writes_qcd|].
  match goal with |- writes _ ?l => rewrite <- (app_nil_l l) end. apply writes_seq.
  { unfold write_all_coc. apply writes_none. intros x Hx. destruct (seqZ_written x 1 (numcomps im0 - 1) Hx ltac:(lia) ltac:(lia)) as (c & w & -> & Ew).
    rewrite (nth_written _ _ Ew). rewrite (list.Forall_lookup_1 _ _ _ _ (en_same _ _ _ _ He) Ew). apply writes_ret. }
  apply writes_seq.
  { unfold write_all_qcc, qcc_segs. apply (writes_each_in _ _ (seqZ 1 (numcomps im0 - 1))). intros x Hx.
    destruct (seqZ_written x 1 (numcomps im0 - 1) Hx ltac:(lia) ltac:(lia)) as (c & w & -> & Ew). destruct (compare_SQcd_SQcc _ _); [apply writes_ret|].
    rewrite one_seg. by apply (writes_qcc c w). }
  apply writes_seq.
  { unfold poc_segs. destruct (hasPoc p0) eqn:Hpoc; [|apply writes_ret]. fold (segs_bytes [(POC, poc_body (numcomps im0) p0)]). rewrite one_seg. by apply writes_poc. }
  apply writes_seq.
  { unfold write_regions, rgn_segs. apply (writes_each_in _ _ (seqZ 0 (numcomps im0))). intros x Hx.
    destruct (seqZ_written x 0 (numcomps im0) Hx ltac:(lia) ltac:(lia)) as (c & w & -> & Ew). rewrite (nth_written _ _ Ew). cbv zeta. destruct (roishift_ w =? 0); [apply writes_ret|].
    rewrite one_seg. by apply writes_rgn. }
  unfold write_com, com_segs. destruct (en_com _ _ _ _ He) as [Hf _]. revert Hf. generalize (comments_ cp0). intros cs Hf.
  assert (forall x, x ∈ cs -> comment_valid x) as Hc by (by apply list.Forall_forall).
  rewrite <- (concat_singletons (fun c => (COM, com_body c)) cs).
  apply (writes_each_in _ _ cs). intros c Hin. destruct (Hc c Hin) as (H0 & H1 & _). rewrite one_seg. cbv zeta.
  rewrite (proj2 (Z.eqb_neq _ _)) by lia. unfold GRK_MAX_COMMENT_LENGTH, UINT16_MAX. rewrite (proj2 (Z.ltb_ge _ _)) by lia.
  apply writes_segment; [unfold com_body; auto with writes|]. unfold com_body. rewrite length_app, length_be_bytes.
  rewrite (wrap_small 32) by (change (2 ^ 32) with 4294967296; lia). rewrite u16_small; lia.
Qed.
End stages.

(** What the decompressor knows after the header, of the parameters [im], [cp] and [p] of the
    compressor. *)
Record describes {X} (im : GrkImage) (cp : CodingParams) (p : TileCodingParams) (h : header X) : Prop := {
  ds_bounds : bounds (headerImage_ h) = bounds im;
  ds_comps : numcomps (headerImage_ h) = numcomps im /\ Forall2 same_comp (comps im) (comps (headerImage_ h));
  ds_codestream : rsiz_ (cp_ h) = rsiz_ cp /\ grid_ (cp_ h) = grid_ cp /\ comments_ (cp_ h) = comments_ cp;
  ds_grid : (t_grid_width_ (cp_ h), t_grid_height_ (cp_ h)) = grid_size (bounds im) (grid_ cp);
  ds_tile : coded im p (defaultTcp_ h);
  ds_poc : if hasPoc p then same_poc p (defaultTcp_ h) else no_poc (defaultTcp_ h);
  ds_count : length (tccps_ (defaultTcp_ h)) = length (tccps_ p);
  ds_each : forall c w t, tccps_ p !! c = Some w -> tccps_ (defaultTcp_ h) !! c = Some t ->
    same_style (style_ w) (style_ t) /\ csty_ (style_ t) = csty_ (style_ w) /\ same_quant w (quant_ t) /\ roishift_ t = roishift_ w;
}.

Lemma stage_describes {X} dec im cp p (h : header X) : encodable dec im cp p ->
  holds (stage im cp p (length (comps im)) (hasPoc p) (length (comps im)) (length (comments_ cp))) h -> describes im cp p h.
Proof.
  intros He (Hz & Hp & Hc & Hpoc & Hr). destruct Hz as [Z1 Z2 Z3 Z4 Z5]. rewrite take_ge in Z5 by done. pose proof (en_tccps _ _ _ _ He) as Ht.
  destruct (en_numcomps _ _ _ _ He) as [Hn _]. pose proof (to_comps _ Hp) as Htc. pose proof Hc as (_ & _ & _ & _ & En). constructor; try done.
  - destruct Z3. done.
  - lia.
  - intros c w t Ew Et. destruct (Hr c w t Ew Et) as [[Hs Hcs] Hq Hroi]. apply lookup_lt_Some in Ew as Hlt. rewrite (proj2 (Nat.ltb_lt _ _)) in Hroi, Hq by lia.
    split; [done|]. split; [done|]. split; [|done]. cbn [andb] in Hq. destruct (compare_SQcd_SQcc (first_tccp p) w) eqn:Ec; cbn [negb] in Hq; [|done].
    destruct Hq as [Hq _]. by apply (compare_quant_same (first_tccp p)).
Qed.

Lemma header_seen im cp p : let g := foldl (fun (f : seen) (s : Z * list Z) => see (fst s) f) (MkSeen false false false) (header_segs im cp p) in
  has_siz g && has_cod g && has_qcd g = true.
Proof.
  assert (forall l f, has_siz f = true -> has_cod f = true -> has_qcd f = true ->
    let g := foldl (fun (f : seen) (s : Z * list Z) => see (fst s) f) f l in has_siz g && has_cod g && has_qcd g = true) as Hseen.
  { induction l as [|s l IH]; intros f H1 H2 H3; cbn [foldl]; [by rewrite H1, H2, H3|]. apply IH; cbn; by rewrite ?H1, ?H2, ?H3. }
  unfold header_segs. cbn [app foldl fst]. by apply Hseen.
Qed.

(** The same over any readers of the other segments, which the compressor does not write. *)
Lemma header_read_back {K} `{StreamLaws K} {X} (init_rest : X -> X) (others : Z -> handler X) (Rest : X -> Prop)
    (mergePpm : X -> read_result X) (tlm_complete : Z -> Z -> X -> read_result X)
    (dec : DecodingParams) (im : GrkImage) (cp : CodingParams) (p : TileCodingParams) (x : X) (k k' : K) (rest : list Z) :
  encodable dec im cp p -> (forall x, Rest x -> Rest (init_rest x)) -> Rest x ->
  (forall x, Rest x -> exists x', mergePpm x = Ok x' /\ forall start n, exists x2, tlm_complete start n x' = Ok x2) ->
  write_main_header im cp p k = (true, k') ->
  exists bytes h pos, contents k' = contents k ++ bytes /\
    readHeaderProcedure init_rest others mergePpm tlm_complete dec (0, bytes ++ be_bytes 2 SOT ++ rest) (new_header x) = Ok (h, (pos, rest)) /\
    describes im cp p h.
Proof.
  intros He HS Hx Hm Hw. pose proof (writes_header dec im cp p He k k' Hw) as Hc. set (segs := header_segs im cp p) in *.
  exists (be_bytes 2 SOC ++ segs_bytes segs). unfold readHeaderProcedure. cbv zeta. rewrite <- app_assoc, segs_after_id.
  rewrite (readShort_bytes SOC) by (unfold SOC; lia). rewrite Z.eqb_refl. cbn [negb]. change (next_id segs) with SIZ.
  rewrite (readShort_bytes SIZ) by (unfold SIZ; lia). rewrite Z.eqb_refl. cbn [negb]. change SIZ with (next_id segs).
  match goal with |- context [read_markers init_rest others ?fuel dec _ (?ps, _) ?ff ?hh] =>
    destruct (reads_run init_rest others Rest dec segs _ _ (reads_header dec im cp p He init_rest others Rest HS) fuel hh ps rest ff) as (h & pos & E & Hh & Er) end.
  - cbn [snd]. rewrite !length_app. assert (length segs <= length (after_id segs rest))%nat; [|lia]. clear. induction segs as [|[id b] segs IH]; cbn [after_id length]; [lia|].
    rewrite !length_app, !length_be_bytes. lia.
  - done.
  - rewrite E. cbn [rbind]. pose proof (header_seen im cp p) as Hseen. cbv zeta in Hseen. fold segs in Hseen. rewrite Hseen.
    cbn [negb]. unfold finish_header. destruct (Hm _ (Er Hx)) as (x' & -> & Ht). cbv zeta.
    match goal with |- context [tlm_complete ?a ?b x'] => destruct (Ht a b) as [x2 ->] end. cbn [rbind].
    do 2 eexists. split; [done|]. split; [reflexivity|]. pose proof (stage_describes dec im cp p h He Hh) as [D1 D2 D3 D4 D5 D6 D7 D8]. by constructor.
Qed.

(** C5: the main header that the compressor writes is read back: image and tile geometry,
    profile, components, comments, progression order, layers, colour transform, progression
    order changes, and for every component its quantisation and region shift, even where only
    the components that differ from component 0 have a segment of their own.  The reading
    stops at the first SOT marker.

    The headers are those without CAP, TLM and MCT segments whose fields hold their values
    ([encodable]): the same coding style for all components, of
    which the decompressor leaves out fewer resolutions than there are; precisions up to 16 bits; comments of at
    most 65531 bytes; progression order changes with a component end that fits its field, so
    not 256 of 256 components.  Outside of it the lemmas below show headers that are not read
    back. *)
Theorem main_header_roundtrip {K} `{StreamLaws K} (float_to_int32 double_to_int32 : Z -> Z) (disabled : bool) (sot : handler rest_state)
    (dec : DecodingParams) (im : GrkImage) (cp : CodingParams) (p : TileCodingParams) (k k' : K) (rest : list Z) :
  encodable dec im cp p -> write_main_header im cp p k = (true, k') ->
  exists bytes h pos, contents k' = contents k ++ bytes /\
    readHeaderProcedure init_rest (other_readers float_to_int32 double_to_int32 disabled sot) mergePpm (complete_tlm None) dec
      (0, bytes ++ be_bytes 2 SOT ++ rest) (new_header new_rest) = Ok (h, (pos, rest)) /\
    describes im cp p h.
Proof. intros He. 
  apply (header_read_back _ _ (fun x => tlmMarkers_ x = None /\ ppmMarkers_ x = None)); [done|done|done|].
  intros x [Ht Hp]. unfold mergePpm, complete_tlm. rewrite Hp. eexists. split; [done|]. rewrite Ht. intros start n. by eexists.
Qed.

(** Two components with custom precincts; the second has its own step sizes and a region;
    one progression order change and a comment. *)
Definition example_style : coding_style :=
  MkStyle 1 2 6 6 0 1 0 0 (7 :: 8 :: replicate 31 0) (7 :: 8 :: replicate 31 0).
Definition example_quant (e : Z) : quantization :=
  MkQuant false false false 0 (replicate 4 (MkStep e 0) ++ replicate 93 (MkStep 0 0)) 0 2.
Definition example_params : TileCodingParams :=
  MkTcp 1 2 3 0 0 0 true (MkProg 0 0 3 2 2 4 :: replicate 32 new_prog) [] 0 0 0 false 2
    [MkTccp example_style (example_quant 8) 0 128; MkTccp example_style (example_quant 9) 5 128].
Definition example_image : GrkImage :=
  MkImage (Rect4 0 0 100 80) 2 [MkComp 8 false 1 1 0 0 100 80 0 0; MkComp 12 true 2 2 0 0 50 40 0 0].
Definition example_cp : CodingParams := MkCp 0 0 (replicate 32 0) (mkTileGrid 0 0 64 64) 2 2 [(false, [71; 114; 107])].
Definition example_dec : DecodingParams := MkDecoding 0 0.

Lemma example_style_valid : style_valid example_style.
Proof.
  split; [|split; [cbn; lia|split; [done|done]]]. constructor; cbn; try lia; try done.
  - split; repeat constructor; lia.
  - intros i e Hi. assert (i = 1%nat) as -> by lia. cbn. intros [[= <-]|[= <-]]; lia.
Qed.
Lemma example_quant_ok e : 0 <= e < 32 -> quant_ok (example_quant e).
Proof. intros. constructor; cbn; try lia; try done. repeat constructor; cbn; lia. Qed.
Lemma example_encodable : encodable example_dec example_image example_cp example_params.
Proof.
  pose proof example_style_valid. pose proof (example_quant_ok 8 ltac:(lia)). pose proof (example_quant_ok 9 ltac:(lia)).
  constructor; try (vm_compute; done); try (cbn; unfold word32; lia).
  - repeat constructor; cbn; lia.
  - eexists. vm_compute. reflexivity.
  - constructor; [split; [done|]; split; [done|cbn; lia]|]. constructor; [split; [done|]; split; [done|cbn; lia]|constructor].
  - by repeat constructor.
  - by repeat constructor.
  - intros _. split; [cbn; lia|]. split; [done|]. repeat constructor; cbn; lia.
  - unfold GRK_NUM_COMMENTS_SUPPORTED. split; [|cbn; lia]. repeat constructor; cbn; lia.
Qed.
Lemma main_header_roundtrip_witness :
  exists bytes h pos, contents (snd (write_main_header example_image example_cp example_params ([] : list Z))) = contents ([] : list Z) ++ bytes /\
    readHeaderProcedure init_rest (other_readers id id false (fun h _ _ => Ok h)) mergePpm (complete_tlm None) example_dec
      (0, bytes ++ be_bytes 2 SOT ++ [0; 10]) (new_header new_rest) = Ok (h, (pos, [0; 10])) /\
    describes example_image example_cp example_params h.
Proof.
  apply (main_header_roundtrip (K := list Z) id id false (fun h _ _ => Ok h) example_dec example_image example_cp example_params []
    (snd (write_main_header example_image example_cp example_params [])) [0; 10] example_encodable).
  vm_compute. reflexivity.
Defined.

(** ** Where it fails *)

(** A COC segment carries the coding style of component 0: a component with three resolutions
    is read back with two. *)
Definition deeper_style : coding_style :=
  MkStyle 0 3 6 6 0 1 0 0 (replicate 33 15) (replicate 33 15).
Definition shallow_style : coding_style := MkStyle 0 2 6 6 0 1 0 0 (replicate 33 15) (replicate 33 15).
Definition uneven_params : TileCodingParams :=
  MkTcp 0 0 1 0 0 0 false (replicate 33 new_prog) [] 0 0 0 false 2
    [MkTccp shallow_style (example_quant 8) 0 128; MkTccp deeper_style (example_quant 8) 0 128].
Definition read_back (im : GrkImage) (cp : CodingParams) (p : TileCodingParams) : result header_error (header rest_state * input) :=
  readHeaderProcedure init_rest (other_readers id id false (fun h _ _ => Ok h)) mergePpm (complete_tlm None) example_dec
    (0, snd (write_main_header im cp p []) ++ be_bytes 2 SOT) (new_header new_rest).
Lemma coc_of_first_component :
  exists h s, read_back example_image example_cp uneven_params = Ok (h, s) /\
    ((fun t => numresolutions_ (style_ t)) <$> tccps_ uneven_params) = [2; 3] /\
    ((fun t => numresolutions_ (style_ t)) <$> tccps_ (defaultTcp_ h)) = [2; 2].
Proof. do 2 eexists. vm_compute. done. Qed.

(** A comment of 65532 bytes, which is within the limit, is written with the length 0. *)
Lemma comment_length_wraps :
  GRK_MAX_COMMENT_LENGTH = 65533 /\
  take 4 (snd (write_com (MkCp 0 0 [] (mkTileGrid 0 0 0 0) 0 0 [(false, replicate 65532 65)]) [])) = be_bytes 2 COM ++ [0; 0].
Proof. split; [done|]. vm_compute. reflexivity. Qed.

(** With 256 components the end component 256 is written and read as 0. *)
Lemma poc_of_256_components : comp_room 256 = 1%nat /\
  read_progression 1 (progression_bytes 256 (MkProg 0 0 1 1 256 0)) = Ok (MkProg 0 0 1 1 0 0, []).
Proof. done. Qed.

(** An image of one row or one column that subsampling skips: refused if it has no columns left,
    accepted with no rows. *)
Lemma empty_height_accepted :
  reduce_component (Rect4 1 0 2 8) 0 (MkComp 8 false 4 1 0 0 0 0 0 0) = Err Refused /\
  reduce_component (Rect4 0 1 8 2) 0 (MkComp 8 false 1 4 0 0 0 0 0 0) = Ok (MkComp 8 false 1 4 0 1 8 0 0 0).
Proof. done. Qed.
