(* ===== verification/Progressions.v ===== *)
(** Progression order changes of the compressor: [validateProgressionOrders] of
    codestream/compress/CodeStreamCompress.cpp, which marks the packets that the changes
    reach in an array over layers, resolutions and components and looks for one that is not
    marked; and the part of [init] that gives each tile its changes. *)
From S2P Require Import Prelude Geometry PLMarker Markers.

(** ** Marking *)

(** The loops over layers, components and resolutions of one change; each keeps its index into
    the array and advances it by its step. *)
Fixpoint mark_layers (n : nat) (step_l comp_index : Z) (a : list bool) : read_result (list bool) :=
  match n with
  | O => Ok a
  | S n => let* a := set_at (Z.to_nat comp_index) true a in mark_layers n step_l (u64 (comp_index + step_l)) a
  end.
Fixpoint mark_comps (n layers : nat) (step_l step_c res_index : Z) (a : list bool) : read_result (list bool) :=
  match n with
  | O => Ok a
  | S n =>
      let* a := mark_layers layers step_l (u64 (res_index + 0 * step_l)) a in
      mark_comps n layers step_l step_c (u64 (res_index + step_c)) a
  end.
Fixpoint mark_resolutions (n comps layers : nat) (step_l step_r step_c comp_s index : Z) (a : list bool) : read_result (list bool) :=
  match n with
  | O => Ok a
  | S n =>
      let* a := mark_comps comps layers step_l step_c (u64 (index + u32 (comp_s * step_c))) a in
      mark_resolutions n comps layers step_l step_r step_c comp_s (u64 (index + step_r)) a
  end.

(** The number of rounds of a loop from [s] to the smaller of [e] and [bound]. *)
Definition rounds (s e bound : Z) : nat := Z.to_nat (Z.min e bound - s).

Fixpoint mark_progressions (numresolutions numComps numLayers step_l step_r step_c : Z) (progressions : list grk_progression)
    (a : list bool) : read_result (list bool) :=
  match progressions with
  | [] => Ok a
  | x :: progressions =>
      let* a := mark_resolutions (rounds (res_s x) (res_e x) numresolutions) (rounds (comp_s x) (comp_e x) numComps)
        (rounds 0 (lay_e x) numLayers) step_l step_r step_c (comp_s x) (u32 (step_r * res_s x)) a in
      mark_progressions numresolutions numComps numLayers step_l step_r step_c progressions a
  end.

(** ** Looking for a packet that is lost *)

(** The loop over components stops at a lost packet and leaves [index] there. *)
Fixpoint scan_comps (n : nat) (step_c index : Z) (a : list bool) : read_result (bool * Z) :=
  match n with
  | O => Ok (false, index)
  | S n =>
      let* marked := get_at (Z.to_nat index) a in
      if negb marked then Ok (true, index) else scan_comps n step_c (u64 (index + step_c)) a
  end.
(** The loops over resolutions and over layers. *)
Fixpoint scan_each (n : nat) (body : Z -> read_result (bool * Z)) (loss : bool) (index : Z) : read_result (bool * Z) :=
  match n with
  | O => Ok (loss, index)
  | S n => let* (l, index) := body index in scan_each n body (loss || l) index
  end.

Definition validateProgressionOrders (progressions : list grk_progression) (numresolutions numComps numLayers : Z) : read_result bool :=
  let step_c := 1 in
  let step_r := u32 (numComps * step_c) in
  let step_l := u32 (numresolutions * step_r) in
  let packet_array := replicate (Z.to_nat (step_l * numLayers)) false in
  let* a := mark_progressions numresolutions numComps numLayers step_l step_r step_c progressions packet_array in
  let* (loss, _) := scan_each (Z.to_nat numLayers) (fun i =>
    scan_each (Z.to_nat numresolutions) (fun i => scan_comps (Z.to_nat numComps) step_c i a) false i) false 0 in
  Ok (negb loss).

(** ** The changes of a tile *)

(** A change of the command line: the tile it is for, its bounds and its order. *)
Record tile_progression := MkTileProg { tileno : Z; bounds_of : grk_progression }.

(** The changes [init] stores for a tile: as many as name it, taken from the start of the
    list. *)
Fixpoint tile_changes (tile : Z) (all progs : list tile_progression) (numTileProgressions : nat) : read_result (list grk_progression) :=
  match progs with
  | [] => Ok []
  | x :: progs =>
      if tile =? tileno x then
        let* y := get_at numTileProgressions all in
        let* l := tile_changes tile all progs (S numTileProgressions) in
        Ok (bounds_of y :: l)
      else tile_changes tile all progs numTileProgressions
  end.
Definition init_changes (tile : Z) (progs : list tile_progression) : read_result (list grk_progression) :=
  let* l := tile_changes tile progs progs 0 in
  match l with [] => Err Refused | _ => Ok l end.

(** * What is checked *)

(** The packets of layer [l], resolution [r] and component [c] are in a change. *)
Definition covers (l r c : Z) (x : grk_progression) : bool :=
  (res_s x <=? r) && (r <? res_e x) && (comp_s x <=? c) && (c <? comp_e x) && (l <? lay_e x).
Definition prog_range (x : grk_progression) : Prop :=
  0 <= res_s x < 256 /\ 0 <= comp_s x < 65536.

Section validate.
Context (numresolutions numComps numLayers : Z).
Context (Hr : 0 <= numresolutions < 256) (Hc : 0 <= numComps < 65536) (Hl : 0 <= numLayers < 65536).

Definition place (l r c : Z) : Z := (l * numresolutions + r) * numComps + c.
Definition packets : Z := numLayers * numresolutions * numComps.
Definition in_range (l r c : Z) : Prop := 0 <= l < numLayers /\ 0 <= r < numresolutions /\ 0 <= c < numComps.

Lemma packets_bound : 0 <= packets < 2 ^ 40.
Proof.
  unfold packets. assert (0 <= numLayers * numresolutions <= 65535 * 255) by nia.
  assert (0 <= numLayers * numresolutions * numComps <= 65535 * 255 * 65535) by nia. lia.
Qed.
Lemma place_bound l r c : in_range l r c -> 0 <= place l r c < packets.
Proof. unfold in_range, place, packets. intros (? & ? & ?). assert (0 <= l * numresolutions + r < numLayers * numresolutions) by nia. nia. Qed.
Lemma place_inj l r c l' r' c' : in_range l r c -> in_range l' r' c' -> place l r c = place l' r' c' -> l = l' /\ r = r' /\ c = c'.
Proof.
  unfold in_range, place. intros (? & ? & ?) (? & ? & ?) E.
  destruct (Z.div_mod_unique numComps (l * numresolutions + r) (l' * numresolutions + r') c c') as [E1 ->]; [lia..|].
  destruct (Z.div_mod_unique numresolutions l l' r r') as [-> ->]; [lia..|]. done.
Qed.

(** The array holds the predicate [P]. *)
Definition shows (P : Z -> Z -> Z -> Prop) (a : list bool) : Prop :=
  Z.of_nat (length a) = packets /\
  forall l r c, in_range l r c -> exists b, a !! Z.to_nat (place l r c) = Some b /\ (b = true <-> P l r c).

Lemma shows_ext P Q a : (forall l r c, in_range l r c -> P l r c <-> Q l r c) -> shows P a -> shows Q a.
Proof. intros H [H1 H2]. split; [done|]. intros l r c Hin. destruct (H2 l r c Hin) as (b & E & Hb). exists b. rewrite <- H by done. done. Qed.

Lemma shows_nothing : shows (fun _ _ _ => False) (replicate (Z.to_nat packets) false).
Proof.
  pose proof packets_bound. split; [rewrite length_replicate; lia|]. intros l r c Hin. exists false. split; [|done].
  apply lookup_replicate_2. pose proof (place_bound l r c Hin). lia.
Qed.

Lemma mark_one l r c P a : in_range l r c -> shows P a ->
  exists a', set_at (Z.to_nat (place l r c)) true a = Ok a' /\ shows (fun l' r' c' => P l' r' c' \/ l' = l /\ r' = r /\ c' = c) a'.
Proof.
  intros Hin [H1 H2]. pose proof (place_bound l r c Hin) as Hp. unfold set_at. rewrite (proj2 (Nat.ltb_lt _ _)) by lia.
  eexists. split; [done|]. split; [by rewrite length_insert|]. intros l' r' c' Hin'. destruct (H2 l' r' c' Hin') as (b & E & Hb).
  destruct (decide (place l' r' c' = place l r c)) as [Ep|Hne].
  - apply place_inj in Ep as (-> & -> & ->); [|done..]. exists true. rewrite list_lookup_insert_eq by lia. tauto.
  - exists b. pose proof (place_bound l' r' c' Hin'). rewrite list_lookup_insert_ne by lia. split; [done|]. rewrite Hb.
    split; [tauto|]. intros [?|(-> & -> & ->)]; [done|congruence].
Qed.

Lemma mark_layers_shows r c n : forall l0 P a, 0 <= l0 -> l0 + Z.of_nat n <= numLayers -> 0 <= r < numresolutions -> 0 <= c < numComps -> shows P a ->
  exists a', mark_layers n (numresolutions * numComps) (place l0 r c) a = Ok a' /\
    shows (fun l' r' c' => P l' r' c' \/ l0 <= l' < l0 + Z.of_nat n /\ r' = r /\ c' = c) a'.
Proof.
  induction n as [|n IH]; intros l0 P a H0 Hn Hr' Hc' Ha; cbn [mark_layers].
  - exists a. split; [done|]. eapply shows_ext; [|done]. intros l r0 c0 _. cbn beta. split; [tauto|]. intros [?|?]; [done|lia].
  - assert (in_range l0 r c) as Hin by (unfold in_range; lia). destruct (mark_one l0 r c P a Hin Ha) as (a1 & -> & H1). cbn [rbind].
    pose proof (place_bound l0 r c Hin). pose proof packets_bound. assert (0 <= numresolutions * numComps < 2 ^ 32) by nia.
    rewrite (wrap_small 64) by lia. replace (place l0 r c + numresolutions * numComps) with (place (l0 + 1) r c) by (unfold place; lia).
    destruct (IH (l0 + 1) _ a1 ltac:(lia) ltac:(lia) Hr' Hc' H1) as (a2 & -> & Ha2). exists a2. split; [done|].
    eapply shows_ext; [|done]. intros l r0 c0 _. cbn beta. split.
    + intros [[?|?]|?]; [tauto|right; lia..].
    + intros [?|?]; [tauto|]. destruct (Z.eq_dec l l0); [left; right; lia|right; lia].
Qed.

Lemma mark_comps_shows r layers n : forall c0 P a, Z.of_nat layers <= numLayers -> 0 <= r < numresolutions -> 0 <= c0 -> c0 + Z.of_nat n <= numComps ->
  shows P a -> exists a', mark_comps n layers (numresolutions * numComps) 1 (place 0 r c0) a = Ok a' /\
    shows (fun l' r' c' => P l' r' c' \/ l' < Z.of_nat layers /\ r' = r /\ c0 <= c' < c0 + Z.of_nat n) a'.
Proof.
  induction n as [|n IH]; intros c0 P a Hla Hr' H0 Hn Ha; cbn [mark_comps].
  - exists a. split; [done|]. eapply shows_ext; [|done]. intros l r0 c _. cbn beta. split; [tauto|]. intros [?|?]; [done|lia].
  - assert (0 <= place 0 r c0 < 2 ^ 32) by (unfold place; nia). rewrite Z.mul_0_l, Z.add_0_r, (wrap_small 64) by lia.
    destruct (mark_layers_shows r c0 layers 0 P a ltac:(lia) ltac:(lia) Hr' ltac:(lia) Ha) as (a1 & -> & H1). cbn [rbind].
    rewrite (wrap_small 64) by lia. replace (place 0 r c0 + 1) with (place 0 r (c0 + 1)) by (unfold place; lia).
    destruct (IH (c0 + 1) _ a1 Hla Hr' ltac:(lia) ltac:(lia) H1) as (a2 & -> & Ha2). exists a2. split; [done|].
    eapply shows_ext; [|done]. intros l r0 c (? & _). cbn beta. split.
    + intros [[?|?]|?]; [tauto|right; lia..].
    + intros [?|?]; [tauto|]. destruct (Z.eq_dec c c0); [left; right; lia|right; lia].
Qed.

Lemma mark_resolutions_shows comp_s comps layers n : forall r0 P a, Z.of_nat layers <= numLayers -> 0 <= comp_s < 65536 ->
  (comps = 0%nat \/ comp_s + Z.of_nat comps <= numComps) -> 0 <= r0 -> r0 + Z.of_nat n <= numresolutions -> shows P a ->
  exists a', mark_resolutions n comps layers (numresolutions * numComps) numComps 1 comp_s (r0 * numComps) a = Ok a' /\
    shows (fun l' r' c' => P l' r' c' \/ l' < Z.of_nat layers /\ r0 <= r' < r0 + Z.of_nat n /\ comp_s <= c' < comp_s + Z.of_nat comps) a'.
Proof.
  induction n as [|n IH]; intros r0 P a Hla Hs Hcs H0 Hn Ha; cbn [mark_resolutions].
  - exists a. split; [done|]. eapply shows_ext; [|done]. intros l r c _. cbn beta. split; [tauto|]. intros [?|?]; [done|lia].
  - assert (0 <= r0 * numComps < 2 ^ 32) by nia. rewrite Z.mul_1_r, (wrap_small 32), !(wrap_small 64) by lia.
    assert (exists a1, mark_comps comps layers (numresolutions * numComps) 1 (r0 * numComps + comp_s) a = Ok a1 /\
      shows (fun l' r' c' => P l' r' c' \/ l' < Z.of_nat layers /\ r' = r0 /\ comp_s <= c' < comp_s + Z.of_nat comps) a1) as (a1 & -> & H1).
    { destruct Hcs as [->|Hcs].
      - exists a. split; [done|]. eapply shows_ext; [|done]. intros l r c _. cbn beta. split; [tauto|]. intros [?|?]; [done|lia].
      - replace (r0 * numComps + comp_s) with (place 0 r0 comp_s) by (unfold place; lia). apply mark_comps_shows; lia || done. }
    cbn [rbind]. replace (r0 * numComps + numComps) with ((r0 + 1) * numComps) by lia.
    destruct (IH (r0 + 1) _ a1 Hla Hs Hcs ltac:(lia) ltac:(lia) H1) as (a2 & -> & Ha2). exists a2. split; [done|].
    eapply shows_ext; [|done]. intros l r c _. cbn beta. split.
    + intros [[?|?]|?]; [tauto|right; lia..].
    + intros [?|?]; [tauto|]. destruct (Z.eq_dec r r0); [left; right; lia|right; lia].
Qed.

(** One change marks what it covers. *)
Lemma mark_progressions_shows progs : forall P a, Forall prog_range progs -> shows P a ->
  exists a', mark_progressions numresolutions numComps numLayers (numresolutions * numComps) numComps 1 progs a = Ok a' /\
    shows (fun l r c => P l r c \/ Exists (fun x => covers l r c x = true) progs) a'.
Proof.
  induction progs as [|x progs IH]; intros P a Hp Ha; cbn [mark_progressions].
  - exists a. split; [done|]. eapply shows_ext; [|done]. intros l r c _. cbn beta. rewrite List.Exists_nil. tauto.
  - inversion Hp as [|? ? [? ?] Hp']; subst. rewrite (wrap_small 32) by nia.
    assert (exists a1, mark_resolutions (rounds (res_s x) (res_e x) numresolutions) (rounds (comp_s x) (comp_e x) numComps) (rounds 0 (lay_e x) numLayers)
        (numresolutions * numComps) numComps 1 (comp_s x) (numComps * res_s x) a = Ok a1 /\
      shows (fun l r c => P l r c \/ covers l r c x = true) a1) as (a1 & -> & H1).
    { destruct (Z.le_gt_cases (res_s x) (Z.min (res_e x) numresolutions)) as [Hle|Hgt].
      - rewrite (Z.mul_comm numComps). destruct (mark_resolutions_shows (comp_s x) (rounds (comp_s x) (comp_e x) numComps) (rounds 0 (lay_e x) numLayers)
          (rounds (res_s x) (res_e x) numresolutions) (res_s x) P a) as (a1 & -> & H1); [unfold rounds; lia..|done|]. exists a1. split; [done|].
        eapply shows_ext; [|done]. intros l r c (? & ? & ?). cbn beta. unfold covers, rounds. rewrite !andb_true_iff, !Z.leb_le, !Z.ltb_lt.
        split; (intros [?|?]; [by left|right; lia]).
      - replace (rounds (res_s x) (res_e x) numresolutions) with 0%nat by (unfold rounds; lia). exists a. split; [done|].
        eapply shows_ext; [|done]. intros l r c (? & ? & ?). cbn beta. unfold covers. rewrite !andb_true_iff, !Z.leb_le, !Z.ltb_lt.
        split; [by left|]. intros [?|?]; [done|lia]. }
    cbn [rbind]. destruct (IH _ a1 Hp' H1) as (a2 & -> & Ha2). exists a2. split; [done|].
    eapply shows_ext; [|done]. intros l r c _. cbn beta. rewrite List.Exists_cons. tauto.
Qed.

(** What a scan of [n] places finds: nothing lost in them, or a lost packet. *)
Definition scans (a : list bool) (n : Z) (body : Z -> read_result (bool * Z)) : Prop :=
  forall i, 0 <= i -> i + n <= Z.of_nat (length a) -> exists loss j, body i = Ok (loss, j) /\ i <= j <= i + n /\
    (loss = false -> j = i + n /\ forall k, i <= k < i + n -> a !! Z.to_nat k = Some true) /\
    (loss = true -> exists k, i <= k < i + n /\ a !! Z.to_nat k = Some false).

Lemma scan_comps_scans a n : Z.of_nat (length a) < 2 ^ 40 -> scans a (Z.of_nat n) (fun i => scan_comps n 1 i a).
Proof.
  intros Ha. induction n as [|n IH]; intros i Hi Hb; cbn [scan_comps].
  - exists false, i. split; [done|]. split; [lia|]. split; [intros _; split; lia|done].
  - unfold get_at. destruct (lookup_lt_is_Some_2 a (Z.to_nat i)) as [b E]; [lia|]. rewrite E. cbn [rbind]. destruct b; cbn [negb].
    + rewrite (wrap_small 64) by lia. destruct (IH (i + 1)) as (loss & j & -> & Hj & H1 & H2); [lia..|]. exists loss, j.
      split; [done|]. split; [lia|]. split.
      * intros Hf. destruct (H1 Hf) as [-> H3]. split; [lia|]. intros k Hk. destruct (Z.eq_dec k i) as [->|]; [done|]. apply H3. lia.
      * intros Ht. destruct (H2 Ht) as (k & ? & ?). exists k. split; [lia|done].
    + exists true, i. split; [done|]. split; [lia|]. split; [done|]. intros _. exists i. split; [lia|done].
Qed.

Lemma scan_each_scans a m body n : 0 <= m -> scans a m body -> forall loss i,
  0 <= i -> i + Z.of_nat n * m <= Z.of_nat (length a) ->
  exists l j, scan_each n body loss i = Ok (loss || l, j) /\ i <= j <= i + Z.of_nat n * m /\
    (l = false -> j = i + Z.of_nat n * m /\ forall k, i <= k < i + Z.of_nat n * m -> a !! Z.to_nat k = Some true) /\
    (l = true -> exists k, i <= k < i + Z.of_nat n * m /\ a !! Z.to_nat k = Some false).
Proof.
  intros Hm Hbody. induction n as [|n IH]; intros loss i Hi Hb; cbn [scan_each].
  - exists false, i. rewrite orb_false_r. split; [done|]. split; [lia|]. split; [intros _; split; lia|done].
  - destruct (Hbody i) as (l1 & j1 & -> & Hj1 & F1 & T1); [lia..|]. cbn [rbind].
    destruct (IH (loss || l1) j1) as (l2 & j & -> & Hj & F2 & T2); [lia..|]. exists (l1 || l2), j. rewrite orb_assoc. split; [done|]. split; [lia|]. split.
    + intros [E1 E2]%orb_false_iff. destruct (F1 E1) as [-> A1]. destruct (F2 E2) as [-> A2]. split; [lia|]. intros k Hk.
      destruct (Z.lt_ge_cases k (i + m)); [apply A1; lia|apply A2; lia].
    + intros [E1|E2]%orb_true_iff; [destruct (T1 E1) as (k & ? & ?)|destruct (T2 E2) as (k & ? & ?)]; (exists k; split; [lia|done]).
Qed.

Lemma scan_array_scans a : Z.of_nat (length a) = packets -> scans a packets (fun i =>
  scan_each (Z.to_nat numLayers) (fun i => scan_each (Z.to_nat numresolutions) (fun i => scan_comps (Z.to_nat numComps) 1 i a) false i) false i).
Proof.
  intros Ha. pose proof packets_bound as Hp.
  assert (forall n m body, 0 <= m -> scans a m body -> scans a (Z.of_nat n * m) (scan_each n body false)) as Heach.
  { intros n m body Hm Hb i Hi Hl'. by destruct (scan_each_scans a m body n Hm Hb false i Hi Hl') as (l & j & ?); exists l, j. }
  assert (packets = Z.of_nat (Z.to_nat numLayers) * (Z.of_nat (Z.to_nat numresolutions) * Z.of_nat (Z.to_nat numComps))) as -> by (unfold packets; lia).
  apply Heach; [lia|]. apply Heach; [lia|]. apply scan_comps_scans. lia.
Qed.

(** Every place is that of a packet. *)
Lemma place_onto k : 0 <= k < packets -> exists l r c, in_range l r c /\ place l r c = k.
Proof.
  intros Hk. assert (0 < numComps /\ 0 < numresolutions) as [? ?] by (unfold packets in Hk; split; nia).
  exists (k / numComps / numresolutions), (k / numComps mod numresolutions), (k mod numComps).
  assert (0 <= k / numComps < numLayers * numresolutions) as Hq by (split; [apply Z.div_pos; lia|apply Z.div_lt_upper_bound; unfold packets in Hk; lia]).
  assert (0 <= k / numComps / numresolutions < numLayers) by (split; [apply Z.div_pos; lia|apply Z.div_lt_upper_bound; lia]).
  split; [split; [done|split; apply Z.mod_pos_bound; done]|].
  unfold place. rewrite (Z.mul_comm _ numresolutions), <- Z.div_mod, (Z.mul_comm _ numComps), <- Z.div_mod; lia.
Qed.
End validate.

(** C20: a set of progression order changes is accepted exactly when they reach, together, the
    packets of every layer, resolution and component; and the check stays within its array. *)
Theorem progressions_validated (progressions : list grk_progression) (numresolutions numComps numLayers : Z) :
  0 <= numresolutions < 256 -> 0 <= numComps < 65536 -> 0 <= numLayers < 65536 -> Forall prog_range progressions ->
  exists b, validateProgressionOrders progressions numresolutions numComps numLayers = Ok b /\
    (b = true <-> forall l r c, 0 <= l < numLayers -> 0 <= r < numresolutions -> 0 <= c < numComps ->
       Exists (fun x => covers l r c x = true) progressions).
Proof.
  intros Hr Hc Hl Hp. unfold validateProgressionOrders. cbv zeta. rewrite Z.mul_1_r, (wrap_small 32 numComps), (wrap_small 32) by nia.
  replace (numresolutions * numComps * numLayers) with (packets numresolutions numComps numLayers) by (unfold packets; lia).
  destruct (mark_progressions_shows numresolutions numComps numLayers Hr Hc Hl progressions _ _ Hp (shows_nothing _ _ _ Hr Hc Hl)) as (a & -> & Ha & Hm).
  cbn [rbind]. pose proof (packets_bound numresolutions numComps numLayers Hr Hc Hl) as Hb.
  destruct (scan_array_scans numresolutions numComps numLayers Hr Hc Hl a Ha 0) as (loss & j & -> & _ & F & T); [lia..|]. cbn [rbind].
  eexists. split; [done|]. rewrite negb_true_iff. split.
  - intros E l r c H1 H2 H3. destruct (Hm l r c) as (b & Eb & [Hb1 _]); [done|]. destruct (F E) as [_ Hall].
    assert (in_range numresolutions numComps numLayers l r c) as Hin by done. apply place_bound in Hin; [|done..]. rewrite Hall in Eb by lia. injection Eb as <-. by destruct Hb1.
  - intros Hcov. destruct loss; [|done]. destruct (T eq_refl) as (k & Hk & E). destruct (place_onto numresolutions numComps numLayers ltac:(done) ltac:(done) ltac:(done) k) as (l & r & c & Hin & <-); [lia|].
    destruct (Hm l r c Hin) as (b & Eb & [_ Hb2]). destruct Hin as (? & ? & ?). rewrite E in Eb. injection Eb as <-. discriminate Hb2. right. by apply Hcov.
Qed.

(** Two changes that share three resolutions: together they reach everything. *)
Definition two_changes : list grk_progression := [MkProg 0 0 2 1 3 0; MkProg 1 0 2 3 3 1].
Lemma progressions_validated_witness :
  exists b, validateProgressionOrders two_changes 3 3 2 = Ok b /\
    (b = true <-> forall l r c, 0 <= l < 2 -> 0 <= r < 3 -> 0 <= c < 3 -> Exists (fun x => covers l r c x = true) two_changes).
Proof. apply progressions_validated; [lia..|]. repeat constructor; cbn; lia. Defined.

(** ** Several tiles *)

(** The changes are checked together, whatever tiles they are for: tile 0 has the first
    resolution only, tile 1 the others.  And the bounds that tile 1 gets are those of tile 0. *)
Definition split_changes : list tile_progression :=
  [MkTileProg 0 (MkProg 0 0 1 1 1 0); MkTileProg 1 (MkProg 1 0 1 3 1 0)].
Lemma tiles_checked_together :
  validateProgressionOrders (bounds_of <$> split_changes) 3 1 1 = Ok true /\
  validateProgressionOrders (bounds_of <$> filter (fun x => tileno x = 0) split_changes) 3 1 1 = Ok false.
Proof. done. Qed.
Lemma tile_takes_first_changes : init_changes 1 split_changes = Ok [MkProg 0 0 1 1 1 0].
Proof. done. Qed.

(** With one tile the changes are those given. *)
Lemma one_tile_changes progs : progs <> [] -> Forall (fun x => tileno x = 0) progs -> init_changes 0 progs = Ok (bounds_of <$> progs).
Proof.
  intros Hne Hp. assert (forall k, (k <= length progs)%nat -> tile_changes 0 progs (drop k progs) k = Ok (bounds_of <$> drop k progs)) as Hall.
  { intros k Hk. remember (length progs - k)%nat as n eqn:En. revert k Hk En. induction n as [|n IH]; intros k Hk En.
    - rewrite drop_ge by lia. done.
    - destruct (lookup_lt_is_Some_2 progs k) as [x Ex]; [lia|]. rewrite (drop_S _ _ _ Ex). cbn [tile_changes].
      rewrite (list.Forall_lookup_1 _ _ _ _ Hp Ex). cbn [Z.eqb]. unfold get_at. rewrite Ex. cbn [rbind]. rewrite IH by lia. done. }
  unfold init_changes. pose proof (Hall 0%nat ltac:(lia)) as H0. rewrite drop_0 in H0. rewrite H0. by destruct progs.
Qed.
